(* ===== verification/_CoqProject ===== *)
-Q . S2P
Prelude.v
FsmPage.v
FreeSpace.v
BufPage.v
BufPageSpec.v
Pglz.v
PglzSpec.v
BitUtils.v
HashFunc.v
Bitmapset.v
Xid.v
XactLog.v
HeapTuple.v
Transam.v
TransamSpec.v
Visibility.v
VisibilitySpec.v
PruneHeap.v
HotChain.v
PruneScan.v
PruneExec.v
RootTuples.v
PruneWorld.v
PruneHeapSpec.v
Lock.v
LockInv.v
LockWait.v
LockAcquire.v
DeadLock.v
DeadSearch.v
DeadSort.v
DeadTwin.v
DeadCheck.v
DeadApply.v
DeadDecide.v
LockSpec.v
DeadSpec.v
Numeric.v
NumericVal.v
NumericArr.v
NumericSum.v
NumericAccum.v
NumericMul.v
NumericDiv.v
NumericKnuth.v
NumericOps.v
NumericInt.v
NumericPack.v
NumericSpec.v
