(* ===== verification/Prelude.v ===== *)
(** Verification of the openGauss storage and transaction core.

    * What is verified

    openGauss is a relational database server in the PostgreSQL tradition.
    This development models, function by function, eight groups of its
    kernel code under [src/src/] and proves what the callers rely on.

    - _Which page has room_: the free space map, a tree of pages each of which
      is a binary tree of bytes.  The heap asks it for a page with enough room
      for a row and tells it what was left.
      Files FsmPage.v ([freespace/fsmpage.cpp], one page) and FreeSpace.v
      ([freespace/freespace.cpp], the fork of a relation, [FsmPage] operations
      applied to its pages).

    - _How a page holds rows_: header, line pointers, items, special space, the
      functions that add, delete and compact items.  Files BufPage.v
      ([access/redo/redo_bufpage.cpp], [storage/page/bufpage.cpp]) and
      BufPageSpec.v (the invariant [page_ok], the content [page_view] and the
      contracts).  The free space map of the first group speaks of the space
      that these functions leave.

    - _Which rows exist_: transaction ids and commit sequence numbers, the
      commit log and the CSN log, the test for running transactions, what a
      snapshot sees of a transaction, command ids, and the visibility tests of
      rows, which combine all of these and leave hint bits.
      Files Xid.v (ids, CSNs, snapshots, the settings of a session), XactLog.v
      ([transam/clog.cpp], [transam/csnlog.cpp]), HeapTuple.v ([access/htup.h],
      [time/combocid.cpp]), Transam.v ([transam/transam.cpp], [procarray.cpp],
      [multixact.cpp], [snapmgr.cpp]) with its contracts in TransamSpec.v, and
      Visibility.v ([heap/heapam_visibility.cpp]) with its contracts in
      VisibilitySpec.v.

    - _How old rows go away_: pruning, which combines the two groups before.  An
      update can leave the new version of a row on the same page, in a chain
      that indexes enter at its start only; pruning removes the versions that
      nobody sees any more, redirects the start to the first version that
      stays, compacts the page and writes a WAL record.
      File PruneHeap.v ([heap/pruneheap.cpp], [redo/redo_pruneheap.cpp], the
      record and its replay in [heapam.cpp] and [redo/redo_heapam.cpp]).  Its
      contracts: HotChain.v (line pointers, tuples, chains, [hot_ok]),
      PruneScan.v (the scan and the plan it makes, [plan_ok], against the
      interface [VacuumLaws] of the visibility tests), PruneExec.v (the
      execution of a plan and what becomes of the chains), RootTuples.v
      ([heap_get_root_tuples]), PruneWorld.v (the tests of Visibility.v satisfy
      the interface) and PruneHeapSpec.v (the properties).

    - _Who waits for whom_: the lock manager.  A transaction locks what it works
      on in one of eight modes; requests that conflict with a holder or with a
      request ahead wait in a queue.  A process that has waited too long looks
      for a deadlock and reorders queues, or gives up.
      File Lock.v (the shared table of [lmgr/lock.cpp] and the queues of
      [lmgr/proc.cpp]).  Its contracts: LockInv.v (the invariant [table_ok] of
      the table, the check for conflicts, single moves of a request), LockWait.v
      (wake up and release), LockAcquire.v (request, grant, refusal, sleep) and
      LockSpec.v (the processes that use the table as a transition system).
      DeadLock.v is the deadlock detector ([lmgr/deadlock.cpp] and
      [CheckDeadLock]); it reads the table of Lock.v and wakes waiters with its
      [ProcLockWakeup].  Its contracts: DeadSearch.v (the search for a cycle
      against the waits-for graph), DeadSort.v (the topological sort of a
      queue), DeadTwin.v (what a second run of the search repeats), DeadCheck.v
      (hypothetical orders and the recursion over them), DeadApply.v (the
      rearrangement of the queues), DeadDecide.v (the answer, the message and
      what the process does) and DeadSpec.v (the properties, two deadlocks).

    - _How large values are stored_: the compression of values that move to the
      side tables.  Files Pglz.v ([utils/adt/pg_lzcompress.cpp]) and PglzSpec.v.

    - _How numbers are calculated_: the SQL type numeric, decimal numbers of up to
      a thousand digits behind the point, as digits to the base 10000.
      File Numeric.v ([utils/adt/numeric.cpp], [include/utils/numeric.h]: the
      operations on variables, the accumulator of SUM, the conversions to
      integers and the packed form).  Its contracts: NumericVal.v (the number a
      variable stands for, stripping, rounding, comparison), NumericArr.v
      (arrays of digits with pending carries), NumericSum.v (sum and
      difference), NumericAccum.v (the accumulator), NumericMul.v (the product),
      NumericDiv.v (division by one or two digits), NumericKnuth.v (long
      division), NumericOps.v (the normal form, remainder, ceiling, floor),
      NumericInt.v (integers), NumericPack.v (the packed form) and NumericSpec.v
      (the properties, over the rationals).

    - _Shared data types_: sets of small integers (Bitmapset.v,
      [nodes/bitmapset.cpp], used by planner and executor), bit manipulation
      (BitUtils.v, [port/pg_bitutils.cpp]) and hashing of keys (HashFunc.v,
      [access/hash/hashfunc.cpp]); a bitmapset is hashed with [hash_any].

    * How the code is translated

    An integer is a [Z]; where the width matters the casts are written out
    ([uN], [sN] below).  An array is a list, and every access goes through
    [zlookup]/[zupdate], which have no result outside the array: a theorem
    "the result is [Some ...]" includes that no access is out of bounds.
    Conditions, early returns and their order are those of the source.  An
    [ereport(ERROR)] is a value ([result] below, [Raise] in Transam.v).

    The functions of Transam.v and Visibility.v run while other backends
    change the logs, the array of running transactions and, when the reader
    gives up the lock on the page to wait, the row itself.  Their state is a
    [World]: this backend's caches, the row, the shared state now and the
    states it will go through.  Each access to shared memory lets one step of
    time pass, so a theorem about all worlds is a theorem about all
    interleavings of the accesses with the other backends.  Which histories
    are possible is said by [consistent], [evolves] and [snap_ok]
    (TransamSpec.v): the order in which a commit writes its traces, what time
    cannot undo, and that a snapshot was taken before.  The scenario at the
    end of TransamSpec.v shows that these conditions can hold together, with a
    transaction in the middle of its commit.

    * Loops and fuel

    A loop has fuel only where the recursion is not structural, and every
    theorem about such a function shows that the fuel given by the definition
    is enough: [fp_nodes] has fewer levels than nodes, the free space tree has
    three levels and its search counts its restarts up to 10000, every round of
    the compressor consumes a byte and a list of its history has at most 4096
    entries, a parent chain
    in the CSN log descends through smaller ids, a HOT chain visits a line
    pointer once, so [chain_fuel] exceeds what [chainitems] holds,
    [XidVisibleInSnapshot] waits at most once, [HeapTupleSatisfiesUpdate]
    restarts at most once, and [HeapTupleSatisfiesMVCC] rechecks at most once
    per later instant and twice more.  The deadlock search visits a lock group
    once, and there are at most [MaxBackends] of them; the recursion over
    orders adds a constraint at each level, and stops at [MaxBackends] of them;
    a list of constraints in [TopoSort] is shorter than the constraints; the
    estimate of a quotient digit in long division is lowered at most twice.  The one loop that does not end
    ([UpdateFreeSpaceMap] on the last page of the largest relation) has a
    theorem that no fuel is enough.

    * What the theorems show

    - Free space map: an update keeps the heap order of a page and a search on
      a page in order finds the first fit after the hint; a damaged page is
      repaired without leaving the array; what is recorded for a block is
      read back, and a search never answers with a block that has less room
      than recorded; vacuum and truncation; the layout of the tree on disk and
      its navigation; conversion of sizes to categories never promises more
      than there is.
    - Pages: every operation keeps the invariant, stays inside the page, and
      changes the content as its contract says: an item is added or nothing
      happens, what [PageGetHeapFreeSpace] promises is accepted, compaction
      moves bytes but changes no item, deleting many items is deleting them
      one by one.
    - Compression: a value that is compressed comes back, no buffer is left on
      the way, the history of the compressor lists the last 4096 positions by
      hash; decompression of corrupt data can leave its buffers.
    - Logs: a transaction tree is committed atomically for every observer
      between two page updates, in the commit log and in the CSN log; the
      search for the topmost transaction ends and reports a corrupt chain;
      combo command ids round trip.
    - Status: the answers about running, committed and aborted transactions
      are right, and a snapshot sees exactly the transactions with a lower
      CSN, whatever happens during the question.
    - Visibility: each test refines a specification in terms of the fates of
      the inserter and the deleter of a row; hint bits are true and durable; a
      row that vacuum calls dead is invisible to all snapshots of all backends; an update is
      allowed only when nobody holds the row.
    - Pruning: it returns, removes only rows that no snapshot of the horizon
      sees, keeps every other row and the way to it from the line pointers
      that indexes know, leaves the page in order for the next time, and its
      replay makes the same page; the map from rows to the starts of their
      chains.
    - Locks: whatever sequence of operations processes perform, the modes that
      different lock groups hold do not conflict, and a process waits only
      while what it wants conflicts with a holder or with a request ahead;
      every operation ends and its result says what has changed; who is woken
      holds the lock.
    - Deadlocks: a check ends; it calls a deadlock hard only if the process is
      in a cycle of the waits-for graph, and a cycle that no queue order takes
      away is always called hard; after a soft deadlock the queues are
      permuted, those woken leave them with their locks, and the process is in
      no cycle; otherwise there was none.  The message tells the truth.
      [FindLockCycle] decides whether there is a cycle: of the true queues, and
      with proposed orders for queues in which only leaders of lock groups wait
      (for other members the code looks at more than the order; the definitions
      follow it, [soft_block]).  [TopoSort] finds an order of a queue whenever
      there is one; the code also obeys constraints of other locks between
      groups that both wait in this queue.
    - Numbers: sum, difference and remainder are exact, product and quotient are
      the rational number rounded or truncated at the scale asked for, rounding
      is half away from zero, comparison is that of the rationals; no buffer of
      digits is left, no 32-bit digit with pending carries overflows, the
      assertions on last carries hold; the accumulator gives the exact sum of any
      sequence; conversion to integers rounds, and what is out of range is an error or
      saturated (one number, 9223372036854775808, is refused instead); the
      packed form round trips or is refused; the normal form is kept.
    - Bitmapsets implement finite sets; bit operations, hashing.

    The name of a theorem's witness, an application to a concrete input, is
    the theorem's name with [_witness].

    * What is not modelled, and why

    - Buffers, storage manager, WAL, SLRU paging, locks of pages: reading a
      page gives its contents, and a page is changed atomically, which is what
      the buffer lock is for.  Recovery is modelled only where a function of
      the free space map has a replay variant.
    - The multi-node build (GTM, distributed commit), read-only standbys,
      extreme-RTO replay: the code of these branches is in the definitions
      where it is part of a modelled function; the contracts assume the
      settings [session_ok] of a primary in normal operation.
    - What [HeapKeepInvisibleTuple] reads from the catalog and from the columns
      of a tuple: parameters ([PartitionCatalog]); pruning is right for every
      answer.  The statistics pruning reports are a result of the function.
    - Of the lock manager the table of local locks, which counts repeated
      requests of one process, the fast path for weak relation locks, prepared
      transactions and the cancelling of blockers; a lock operation is one
      step under the lock of its partition.  The theorems are for threads
      outside stream plans: [ProcLockWakeup] treats the threads of a plan as
      one only if the thread that releases belongs to it.
    - Taking a snapshot, assigning ids, writing the commit record: they are
      the hypotheses [snap_ok] and [consistent].
    - Of numeric its conversion from and to text, the scale and precision of a
      column, roots, exponentials and logarithms, the second representation as
      64-bit and 128-bit integers with a scale ([biginteger.cpp]): the functions
      modelled are those on [NumericVar].
    - The other row formats (ustore, column store), the executor, the
      optimizer, the parser, the other data types, and the clients. *)
From Stdlib Require Import ZArith Lia.
From stdpp Require Export base numbers list option.

(** ** Notations and scopes *)

Declare Scope pg_scope.
Delimit Scope pg_scope with pg.
#[global] Open Scope Z_scope.

(** ** Fixed-width integers

    An integer of the source is a [Z]; the casts of the source are the
    functions below.  [uN] is the value of a cast to an unsigned type of N
    bits, [sN] the value of a cast to a signed two's complement type. *)

Definition uN (n : Z) (x : Z) : Z := x mod 2 ^ n.
Definition sN (n : Z) (x : Z) : Z := (x + 2 ^ (n - 1)) mod 2 ^ n - 2 ^ (n - 1).

Abbreviation u8 := (uN 8).
Abbreviation u16 := (uN 16).
Abbreviation u32 := (uN 32).
Abbreviation u64 := (uN 64).
Abbreviation s16 := (sN 16).
Abbreviation s32 := (sN 32).
Abbreviation s64 := (sN 64).

Definition in_u (n x : Z) : Prop := 0 <= x < 2 ^ n.
Definition in_s (n x : Z) : Prop := - 2 ^ (n - 1) <= x < 2 ^ (n - 1).

Lemma uN_small n x : in_u n x -> uN n x = x.
Proof. apply Z.mod_small. Qed.

Lemma uN_range n x : 0 <= n -> in_u n (uN n x).
Proof. intros. apply Z.mod_pos_bound. lia. Qed.

Lemma sN_small n x : 0 < n -> in_s n x -> sN n x = x.
Proof.
  unfold sN, in_s. intros Hn Hx.
  assert (2 ^ n = 2 * 2 ^ (n - 1)).
  { rewrite <- Z.pow_succ_r by lia. f_equal; lia. }
  rewrite Z.mod_small; lia.
Qed.

Lemma sN_range n x : 0 < n -> in_s n (sN n x).
Proof.
  unfold sN, in_s. intros Hn.
  assert (2 ^ n = 2 * 2 ^ (n - 1)).
  { rewrite <- Z.pow_succ_r by lia. f_equal; lia. }
  pose proof (Z.mod_pos_bound (x + 2 ^ (n - 1)) (2 ^ n)).
  assert (0 < 2 ^ (n - 1)) by (apply Z.pow_pos_nonneg; lia). lia.
Qed.

(** ** Division facts

    The source divides with C's truncating operators; on the non-negative
    operands of the modelled code they are [Z.quot] and [Z.rem].  [zdiv_lia]
    is linear arithmetic with the equations of [/], [mod], [quot], [rem]. *)

Ltac zdiv_lia := Z.to_euclidean_division_equations; lia.

(** ** Powers of two *)

Lemma land_pred_pow2 x : 1 <= x -> Z.land x (x - 1) = 0 -> x = 2 ^ Z.log2 x.
Proof.
  intros Hx Hl. pose proof (Z.log2_spec x ltac:(lia)) as [Hlo Hhi].
  destruct (Z.eq_dec x (2 ^ Z.log2 x)) as [|Hne]; [done|exfalso].
  assert (Hlog : Z.log2 (x - 1) = Z.log2 x).
  { apply Z.log2_unique; [apply Z.log2_nonneg|]. lia. }
  assert (0 < 2 ^ Z.log2 x) by (apply Z.pow_pos_nonneg; [lia|apply Z.log2_nonneg]).
  assert (Hbit : Z.testbit (Z.land x (x - 1)) (Z.log2 x) = true).
  { rewrite Z.land_spec. rewrite Z.bit_log2 by lia.
    rewrite <- Hlog at 1. rewrite Z.bit_log2 by lia. done. }
  rewrite Hl, Z.bits_0 in Hbit. done.
Qed.

Lemma pow2_land_pred m : 0 <= m -> Z.land (2 ^ m) (2 ^ m - 1) = 0.
Proof.
  intros Hm. replace (2 ^ m - 1) with (Z.ones m) by (rewrite Z.ones_equiv; lia).
  rewrite Z.land_ones by done. apply Z.mod_same. apply Z.pow_nonzero; lia.
Qed.

(** ** Arrays

    A C array of known length is a list; indices are [Z] as in the source.
    Reading or writing outside the array is [None]: a function that returns
    [Some] performed only accesses inside its arrays. *)

Definition zlen {A} (l : list A) : Z := Z.of_nat (length l).

Definition zlookup {A} (l : list A) (i : Z) : option A :=
  if 0 <=? i then l !! Z.to_nat i else None.

Definition zset {A} (l : list A) (i : Z) (x : A) : list A :=
  <[Z.to_nat i := x]> l.

Definition zupdate {A} (l : list A) (i : Z) (x : A) : option (list A) :=
  if (0 <=? i) && (i <? zlen l) then Some (zset l i x) else None.

(** The element at an index, for specifications only. *)
Definition znth {A} `{Inhabited A} (l : list A) (i : Z) : A := l !!! Z.to_nat i.

Arguments zlookup : simpl never.
Arguments zupdate : simpl never.
Arguments zset : simpl never.
Arguments znth : simpl never.
Arguments zlen : simpl never.

Section Arrays.
Context {A : Type} `{Inhabited A}.
Implicit Types l : list A.

Lemma zlen_nonneg l : 0 <= zlen l.
Proof. unfold zlen. lia. Qed.

Lemma zlen_zset l i x : zlen (zset l i x) = zlen l.
Proof. unfold zlen, zset. by rewrite length_insert. Qed.

Lemma zlookup_in l i : 0 <= i < zlen l -> zlookup l i = Some (znth l i).
Proof.
  unfold zlookup, znth, zlen. intros Hi.
  destruct (Z.leb_spec 0 i); [|lia].
  apply list_lookup_lookup_total_lt. lia.
Qed.

Lemma zlookup_Some l i x :
  zlookup l i = Some x -> 0 <= i < zlen l /\ znth l i = x.
Proof.
  unfold zlookup, znth, zlen. destruct (Z.leb_spec 0 i); [|done].
  intros Hx. split; [|by apply list_lookup_total_correct].
  apply lookup_lt_Some in Hx. lia.
Qed.

Lemma zlookup_Some_range l i x : zlookup l i = Some x -> 0 <= i < zlen l.
Proof. intros Hx. by apply zlookup_Some in Hx as [? _]. Qed.

Lemma zupdate_in l i x : 0 <= i < zlen l -> zupdate l i x = Some (zset l i x).
Proof.
  unfold zupdate. intros Hi.
  destruct (Z.leb_spec 0 i); [|lia]. destruct (Z.ltb_spec i (zlen l)); [done|lia].
Qed.

Lemma zupdate_Some l i x l' :
  zupdate l i x = Some l' -> 0 <= i < zlen l /\ l' = zset l i x.
Proof.
  unfold zupdate.
  destruct (Z.leb_spec 0 i); destruct (Z.ltb_spec i (zlen l)); simpl; try done.
  by intros [= <-].
Qed.

Lemma znth_zset_eq l i x : 0 <= i < zlen l -> znth (zset l i x) i = x.
Proof.
  unfold znth, zset, zlen. intros Hi.
  by rewrite list_lookup_total_insert_eq by lia.
Qed.

Lemma znth_zset_ne l i j x : 0 <= i -> 0 <= j -> i <> j -> znth (zset l i x) j = znth l j.
Proof.
  unfold znth, zset. intros. by rewrite list_lookup_total_insert_ne by lia.
Qed.

Lemma znth_ext l1 l2 :
  zlen l1 = zlen l2 -> (forall i, 0 <= i < zlen l1 -> znth l1 i = znth l2 i) -> l1 = l2.
Proof.
  unfold zlen, znth. intros Hlen Hi. apply list_eq. intros i.
  destruct (decide (i < length l1)%nat).
  - specialize (Hi (Z.of_nat i) ltac:(lia)). rewrite Nat2Z.id in Hi.
    rewrite !list_lookup_lookup_total_lt by lia. by rewrite Hi.
  - by rewrite !lookup_ge_None_2 by lia.
Qed.

Lemma zset_same l i : 0 <= i < zlen l -> zset l i (znth l i) = l.
Proof.
  intros Hi. apply znth_ext; [apply zlen_zset|]. rewrite zlen_zset. intros j Hj.
  destruct (decide (i = j)) as [->|]; [by rewrite znth_zset_eq|].
  rewrite znth_zset_ne by lia. done.
Qed.
End Arrays.

Lemma zlen_app {A} (l k : list A) : zlen (l ++ k) = zlen l + zlen k.
Proof. unfold zlen. rewrite length_app. lia. Qed.
Lemma zlen_cons {A} (x : A) (l : list A) : zlen (x :: l) = 1 + zlen l.
Proof. unfold zlen. cbn. lia. Qed.

Lemma zlookup_zset {A} (l : list A) i j x :
  0 <= i < zlen l -> 0 <= j -> zlookup (zset l i x) j = if decide (i = j) then Some x else zlookup l j.
Proof.
  unfold zlookup, zset, zlen. intros Hi Hj. rewrite (proj2 (Z.leb_le 0 j)) by lia. case_decide as He.
  - subst j. apply list_lookup_insert_eq. lia.
  - apply list_lookup_insert_ne. lia.
Qed.

Lemma zlookup_is_Some {A} (l : list A) i : 0 <= i < zlen l -> exists x, zlookup l i = Some x.
Proof.
  unfold zlookup, zlen. intros Hi. rewrite (proj2 (Z.leb_le 0 i)) by lia. apply lookup_lt_is_Some. lia.
Qed.

Lemma zlookup_range {A} (l : list A) i x : zlookup l i = Some x -> 0 <= i < zlen l.
Proof.
  unfold zlookup, zlen. destruct (Z.leb_spec 0 i); [|done]. intros Hl%lookup_lt_Some. lia.
Qed.

(** ** Errors

    [ereport(ERROR, ...)] leaves the function: a fallible function returns
    [result], and [Ereport c] is an error report with the SQLSTATE of the
    source's [errcode]. *)

Inductive errcode :=
  | ERRCODE_DATA_EXCEPTION
  | ERRCODE_UNEXPECTED_NULL_VALUE
  | ERRCODE_INVALID_PARAMETER_VALUE
  | ERRCODE_DATATYPE_MISMATCH
  | ERRCODE_NUMERIC_VALUE_OUT_OF_RANGE
  | ERRCODE_DIVISION_BY_ZERO
  | ERRCODE_DATA_CORRUPTED
  | ERRCODE_IO_ERROR
  | ERRCODE_INTERNAL_ERROR
  | ERRCODE_LOCK_WAIT_TIMEOUT
  | ERRCODE_LOCK_NOT_AVAILABLE
  | ERRCODE_OUT_OF_MEMORY
  | ERRCODE_TOO_MANY_CONNECTIONS
  | ERRCODE_NO_DATA_FOUND
  | ERRCODE_T_R_SERIALIZATION_FAILURE
  | ERRCODE_INVALID_ROW_COUNT_IN_RESULT_OFFSET_CLAUSE.

#[global] Instance errcode_eq_dec : EqDecision errcode.
Proof. solve_decision. Defined.

Inductive result (A : Type) :=
  | Ok (a : A)
  | Ereport (c : errcode).
Arguments Ok {A} _.
Arguments Ereport {A} _.

#[global] Instance result_ret : MRet result := fun A a => Ok a.
#[global] Instance result_bind : MBind result := fun A B f r =>
  match r with Ok a => f a | Ereport c => Ereport c end.

(** A run on raw memory: it ends, reports an error, or touches memory that is
    not its own. *)

Inductive run (A : Type) :=
  | Done (a : A)
  | Report (c : errcode)
  | Outside.
Arguments Done {A} _.
Arguments Report {A} _.
Arguments Outside {A}.

#[global] Instance run_ret : MRet run := fun A a => Done a.
#[global] Instance run_bind : MBind run := fun A B f m =>
  match m with Done a => f a | Report c => Report c | Outside => Outside end.

Definition inside {A} (o : option A) : run A :=
  match o with Some a => Done a | None => Outside end.

(** ** Build options *)

(** BLCKSZ is a build option: a power of two, 32 kB at most.  The 256 bytes at
    the low end are the smallest size with a non-zero [FSM_CAT_STEP]. *)
Class BlockSize := {
  BLCKSZ : Z;
  BLCKSZ_valid :
    BLCKSZ = 256 \/ BLCKSZ = 512 \/ BLCKSZ = 1024 \/ BLCKSZ = 2048 \/
    BLCKSZ = 4096 \/ BLCKSZ = 8192 \/ BLCKSZ = 16384 \/ BLCKSZ = 32768
}.

(** The default build, and the smallest page (used to evaluate examples). *)
Definition block_8k : BlockSize.
Proof. refine {| BLCKSZ := 8192 |}. tauto. Defined.
Definition block_256 : BlockSize.
Proof. refine {| BLCKSZ := 256 |}. tauto. Defined.

(** ** Automation *)

(** [bool_cases] turns the boolean integer comparisons of the goal into case
    distinctions on the corresponding order facts. *)
Ltac bool_cases :=
  repeat match goal with
  | |- context [Z.leb ?x ?y] => destruct (Z.leb_spec x y)
  | |- context [Z.ltb ?x ?y] => destruct (Z.ltb_spec x y)
  | |- context [Z.eqb ?x ?y] => destruct (Z.eqb_spec x y)
  end.

(** [sbind] computes the binds of the option and result monads. *)
Ltac sbind := cbn [mbind option_bind result_bind mret option_ret result_ret].

(** [runs] computes the binds of the [run] monad. *)
Ltac runs := cbn [mbind run_bind mret run_ret inside].

Create HintDb pg.
Create Rewrite HintDb pg.
#[export] Hint Rewrite @zlen_zset : pg.

(** ** Suffixes *)

Lemma suffix_fmap {A B} (f : A -> B) (l k : list A) :
  l `suffix_of` k -> (f <$> l) `suffix_of` (f <$> k).
Proof. intros [r ->]. exists (f <$> r). apply fmap_app. Qed.

Lemma elem_of_suffix {A} (x : A) (l k : list A) : x ∈ l -> l `suffix_of` k -> x ∈ k.
Proof. intros Hx [r ->]. apply elem_of_app. by right. Qed.
