(* ===== verification/FsmPage.v ===== *)
(** The free space map page: [src/src/gausskernel/storage/freespace/fsmpage.cpp]
    and [src/src/include/storage/fsm_internals.h].

    One FSM page is a binary tree of bytes stored in an array: node 0 is the
    root, the last [LeafNodesPerPage] nodes are the slots, and every upper
    node holds the maximum of its children.  The operations below follow the
    C functions statement by statement; every array access goes through
    [zlookup]/[zupdate], so [Some] means that the whole run stayed inside
    [fp_nodes], and the loops carry fuel which the theorems show to suffice. *)
From S2P Require Import Prelude.

(** ** Geometry *)

Definition MAXALIGN (len : Z) : Z := Z.land (len + 7) (Z.lnot 7).

(** Offset of [pd_linp] in [PageHeaderData]: 8 + 2 + 2 + 2 + 2 + 2 + 2 + 4. *)
Definition SizeOfPageHeaderData : Z := 24.

(** Offset of [fp_nodes] in [FSMPageData]: the [int] before it. *)
Definition offsetof_fp_nodes : Z := 4.

Section Geometry.
Context {bs : BlockSize}.

Definition NodesPerPage : Z := BLCKSZ - MAXALIGN SizeOfPageHeaderData - offsetof_fp_nodes.
Definition NonLeafNodesPerPage : Z := BLCKSZ / 2 - 1.
Definition LeafNodesPerPage : Z := NodesPerPage - NonLeafNodesPerPage.
Definition SlotsPerFSMPage : Z := LeafNodesPerPage.

(** The facts about the page geometry that the proofs use. *)
Lemma geometry :
  127 <= NonLeafNodesPerPage <= 16383 /\
  NodesPerPage = 2 * NonLeafNodesPerPage - 26 /\
  LeafNodesPerPage = NonLeafNodesPerPage - 26.
Proof.
  unfold LeafNodesPerPage, NodesPerPage, NonLeafNodesPerPage.
  change (MAXALIGN SizeOfPageHeaderData) with 24. unfold offsetof_fp_nodes.
  pose proof BLCKSZ_valid.
  repeat match goal with H : _ \/ _ |- _ => destruct H as [H|H] end;
    rewrite H; vm_compute; repeat split; congruence.
Qed.

Lemma SlotsPerFSMPage_range : 101 <= SlotsPerFSMPage <= 16357.
Proof. unfold SlotsPerFSMPage. pose proof geometry. lia. Qed.
End Geometry.

(** ** Data *)

Record FSMPageData := mkFSMPage {
  fp_next_slot : Z;      (* int *)
  fp_nodes : list Z      (* uint8[NodesPerPage] *)
}.

(** ** Operations *)

Definition leftchild (x : Z) : Z := 2 * x + 1.
Definition parentof (x : Z) : Z := Z.quot (x - 1) 2.

Definition rightneighbor (x : Z) : Z :=
  let x := x + 1 in
  if Z.land (x + 1) x =? 0 then parentof x else x.

Arguments leftchild : simpl never.
Arguments parentof : simpl never.
Arguments rightneighbor : simpl never.

Section Page.
Context {bs : BlockSize}.

(** The body of the loop of [fsm_rebuild_page] for one node. *)
Definition rebuild_node (nodes : list Z) (nodeno : Z) : option Z :=
  let lchild := leftchild nodeno in
  let rchild := lchild + 1 in
  newvalue ← (if lchild <? NodesPerPage then zlookup nodes lchild else Some 0);
  if rchild <? NodesPerPage then
    r ← zlookup nodes rchild;
    Some (Z.max newvalue r)
  else Some newvalue.

(** [for (nodeno = NonLeafNodesPerPage - 1; nodeno >= 0; nodeno--)], with
    [n = nodeno + 1] iterations left. *)
Fixpoint rebuild_loop (n : nat) (nodes : list Z) (changed : bool) : option (list Z * bool) :=
  match n with
  | O => Some (nodes, changed)
  | S n' =>
      let nodeno := Z.of_nat n' in
      newvalue ← rebuild_node nodes nodeno;
      oldvalue ← zlookup nodes nodeno;
      if oldvalue =? newvalue then rebuild_loop n' nodes changed
      else nodes' ← zupdate nodes nodeno newvalue; rebuild_loop n' nodes' true
  end.

Definition fsm_rebuild_page (p : FSMPageData) : option (FSMPageData * bool) :=
  '(nodes, changed) ← rebuild_loop (Z.to_nat NonLeafNodesPerPage) (fp_nodes p) false;
  Some (mkFSMPage (fp_next_slot p) nodes, changed).

(** The [do ... while (nodeno > 0)] of [fsm_set_avail]; [nodeno] is the node
    whose parent the next iteration looks at. *)
Fixpoint propagate (fuel : nat) (nodes : list Z) (nodeno : Z) : option (list Z) :=
  match fuel with
  | O => None
  | S fuel' =>
      let nodeno := parentof nodeno in
      let lchild := leftchild nodeno in
      let rchild := lchild + 1 in
      newvalue ← zlookup nodes lchild;
      newvalue ← (if rchild <? NodesPerPage
                  then r ← zlookup nodes rchild; Some (Z.max newvalue r)
                  else Some newvalue);
      oldvalue ← zlookup nodes nodeno;
      if oldvalue =? newvalue then Some nodes (* break *)
      else
        nodes' ← zupdate nodes nodeno newvalue;
        if 0 <? nodeno then propagate fuel' nodes' nodeno else Some nodes'
  end.

Definition fsm_set_avail (p : FSMPageData) (slot value : Z) : option (FSMPageData * bool) :=
  let nodeno := NonLeafNodesPerPage + slot in
  oldvalue ← zlookup (fp_nodes p) nodeno;
  root ← zlookup (fp_nodes p) 0;
  if (oldvalue =? value) && (value <=? root) then Some (p, false)
  else
    nodes ← zupdate (fp_nodes p) nodeno value;
    nodes ← propagate (length nodes) nodes nodeno;
    root ← zlookup nodes 0;
    let p' := mkFSMPage (fp_next_slot p) nodes in
    if root <? value then '(p'', _) ← fsm_rebuild_page p'; Some (p'', true)
    else Some (p', true).

Definition fsm_get_avail (p : FSMPageData) (slot : Z) : option Z :=
  zlookup (fp_nodes p) (NonLeafNodesPerPage + slot).

Definition fsm_get_max_avail (p : FSMPageData) : option Z := zlookup (fp_nodes p) 0.

(** The first [while] of [fsm_search_avail]: climb until a node with enough
    free space, or the root. *)
Fixpoint search_climb (fuel : nat) (nodes : list Z) (minvalue nodeno : Z) : option Z :=
  match fuel with
  | O => None
  | S fuel' =>
      if 0 <? nodeno then
        v ← zlookup nodes nodeno;
        if minvalue <=? v then Some nodeno (* break *)
        else search_climb fuel' nodes minvalue (parentof (rightneighbor nodeno))
      else Some nodeno
  end.

(** The second [while]: descend to a leaf.  [Found leaf] leaves the loop at
    the bottom, [Corrupt] is the branch that repairs the page. *)
Inductive descent := Found (nodeno : Z) | Corrupt.

Fixpoint search_descend (fuel : nat) (nodes : list Z) (minvalue nodeno : Z) : option descent :=
  match fuel with
  | O => None
  | S fuel' =>
      if nodeno <? NonLeafNodesPerPage then
        let childnodeno := leftchild nodeno in
        goleft ← (if childnodeno <? NodesPerPage
                  then v ← zlookup nodes childnodeno; Some (minvalue <=? v)
                  else Some false);
        if goleft : bool then search_descend fuel' nodes minvalue childnodeno
        else
          let childnodeno := childnodeno + 1 in
          goright ← (if childnodeno <? NodesPerPage
                     then v ← zlookup nodes childnodeno; Some (minvalue <=? v)
                     else Some false);
          if goright : bool then search_descend fuel' nodes minvalue childnodeno
          else Some Corrupt
      else Some (Found nodeno)
  end.

(** One pass from the label [restart], and [goto restart] after a repair.  The
    locks the function upgrades are not part of the page. *)
Fixpoint search_restart (restarts : nat) (p : FSMPageData) (minvalue : Z)
    (advancenext : bool) : option (FSMPageData * Z) :=
  match restarts with
  | O => None
  | S restarts' =>
      root ← zlookup (fp_nodes p) 0;
      if root <? minvalue then Some (p, -1)
      else
        let target := fp_next_slot p in
        let target := if (target <? 0) || (LeafNodesPerPage <=? target) then 0 else target in
        let target := target + NonLeafNodesPerPage in
        nodeno ← search_climb (S (length (fp_nodes p))) (fp_nodes p) minvalue target;
        d ← search_descend (S (length (fp_nodes p))) (fp_nodes p) minvalue nodeno;
        match d with
        | Found nodeno =>
            let slot := u16 (nodeno - NonLeafNodesPerPage) in
            Some (mkFSMPage (slot + (if advancenext then 1 else 0)) (fp_nodes p), slot)
        | Corrupt =>
            '(p', _) ← fsm_rebuild_page p;
            search_restart restarts' p' minvalue advancenext
        end
  end.

(** One repair is enough: see [fsm_search_avail_spec]. *)
Definition fsm_search_avail (p : FSMPageData) (minvalue : Z) (advancenext : bool)
  : option (FSMPageData * Z) := search_restart 2 p minvalue advancenext.

(** [for (; ptr < &fp_nodes[NodesPerPage]; ptr++)], [n] leaves left. *)
Fixpoint clear_loop (n : nat) (nodes : list Z) (ptr : Z) (changed : bool)
  : option (list Z * bool) :=
  match n with
  | O => Some (nodes, changed)
  | S n' =>
      v ← zlookup nodes ptr;
      nodes' ← zupdate nodes ptr 0;
      clear_loop n' nodes' (ptr + 1) (changed || negb (v =? 0))
  end.

Definition fsm_truncate_avail (p : FSMPageData) (nslots : Z) : option (FSMPageData * bool) :=
  let first := NonLeafNodesPerPage + nslots in
  '(nodes, changed) ← clear_loop (Z.to_nat (NodesPerPage - first)) (fp_nodes p) first false;
  let p' := mkFSMPage (fp_next_slot p) nodes in
  if changed : bool then '(p'', _) ← fsm_rebuild_page p'; Some (p'', true)
  else Some (p', false).

End Page.

(** ** Well-formed and consistent pages *)

Section PageFacts.
Context {bs : BlockSize}.

(** The type of [fp_nodes]: an array of [NodesPerPage] bytes. *)
Definition nodes_wf (nodes : list Z) : Prop :=
  zlen nodes = NodesPerPage /\ forall i, 0 <= i < NodesPerPage -> in_u 8 (znth nodes i).

Definition page_wf (p : FSMPageData) : Prop := nodes_wf (fp_nodes p).

(** The maximum of the children of a node that exist. *)
Definition child_max (nodes : list Z) (i : Z) : Z :=
  let l := if leftchild i <? NodesPerPage then znth nodes (leftchild i) else 0 in
  if leftchild i + 1 <? NodesPerPage then Z.max l (znth nodes (leftchild i + 1)) else l.

Definition consistent_at (nodes : list Z) (i : Z) : Prop := znth nodes i = child_max nodes i.

(** The invariant of the tree: every upper node is the maximum of its children. *)
Definition consistent (nodes : list Z) : Prop :=
  forall i, 0 <= i < NonLeafNodesPerPage -> consistent_at nodes i.

(** The abstract content of a page: the category stored for each slot. *)
Definition slot_avail (p : FSMPageData) (slot : Z) : Z :=
  znth (fp_nodes p) (NonLeafNodesPerPage + slot).

Ltac geo := pose proof geometry as Hgeo; unfold leftchild, parentof, in_u in *.
Ltac geo_lia := geo; zdiv_lia.

Lemma child_max_zset nodes j v i :
  0 <= i -> 0 <= j -> j <> leftchild i -> j <> leftchild i + 1 ->
  child_max (zset nodes j v) i = child_max nodes i.
Proof.
  intros. unfold child_max. unfold leftchild in *.
  rewrite !znth_zset_ne by lia. done.
Qed.

Lemma child_max_range nodes i : nodes_wf nodes -> 0 <= i -> in_u 8 (child_max nodes i).
Proof.
  intros [Hlen Hb] Hi. unfold child_max.
  assert (in_u 8 0) by (unfold in_u; lia).
  assert (Hr : forall a, leftchild i <= a -> a < NodesPerPage -> in_u 8 (znth nodes a)).
  { intros a ??. apply Hb. unfold leftchild in *. lia. }
  pose proof (Hr (leftchild i) ltac:(lia)). pose proof (Hr (leftchild i + 1) ltac:(lia)).
  unfold in_u in *. bool_cases; lia.
Qed.

Lemma child_max_ge nodes i c :
  0 <= i -> c = leftchild i \/ c = leftchild i + 1 -> c < NodesPerPage ->
  znth nodes c <= child_max nodes i.
Proof.
  intros Hi Hc Hlt. unfold child_max.
  destruct Hc as [->| ->]; bool_cases; lia.
Qed.

Lemma nodes_wf_zset nodes i v :
  nodes_wf nodes -> 0 <= i -> in_u 8 v -> nodes_wf (zset nodes i v).
Proof.
  intros [Hlen Hb] Hi Hv. split; [by rewrite zlen_zset|]. intros j Hj.
  destruct (decide (i = j)) as [->|].
  - rewrite znth_zset_eq; [done|lia].
  - rewrite znth_zset_ne by lia. auto.
Qed.

Lemma rebuild_node_spec nodes i :
  zlen nodes = NodesPerPage -> 0 <= i -> rebuild_node nodes i = Some (child_max nodes i).
Proof.
  intros Hlen Hi. unfold rebuild_node, child_max.
  assert (0 <= leftchild i) by (unfold leftchild; lia).
  destruct (Z.ltb_spec (leftchild i) NodesPerPage);
    destruct (Z.ltb_spec (leftchild i + 1) NodesPerPage); try lia;
    rewrite ?zlookup_in by lia; simpl; rewrite ?zlookup_in by lia; done.
Qed.

(** *** [fsm_rebuild_page] *)

Lemma rebuild_loop_spec n nodes c :
  nodes_wf nodes -> Z.of_nat n <= NonLeafNodesPerPage ->
  (forall i, Z.of_nat n <= i < NonLeafNodesPerPage -> consistent_at nodes i) ->
  exists nodes' c', rebuild_loop n nodes c = Some (nodes', c') /\
    nodes_wf nodes' /\ consistent nodes' /\
    (forall i, Z.of_nat n <= i -> znth nodes' i = znth nodes i) /\
    ((c' = c /\ nodes' = nodes) \/ (c' = true /\ nodes' <> nodes)).
Proof.
  revert nodes c. induction n as [|n IH]; intros nodes c Hwf Hn Hcons.
  { exists nodes, c. simpl. split; [done|]. split; [done|].
    split; [intros i Hi; apply Hcons; lia|]. auto. }
  pose proof geometry. pose proof Hwf as [Hlen Hb].
  cbn [rebuild_loop]. rewrite rebuild_node_spec by (done || lia). simpl.
  rewrite zlookup_in by lia. simpl.
  assert (Hstep : forall i, 0 <= i -> Z.of_nat n <> leftchild i -> Z.of_nat n <> leftchild i + 1 ->
    i <> Z.of_nat n -> consistent_at nodes i ->
    consistent_at (zset nodes (Z.of_nat n) (child_max nodes (Z.of_nat n))) i).
  { unfold consistent_at. intros i ???? Hc.
    rewrite child_max_zset, znth_zset_ne by lia. done. }
  destruct (Z.eqb_spec (znth nodes (Z.of_nat n)) (child_max nodes (Z.of_nat n))) as [Heq|Hne].
  - destruct (IH nodes c Hwf) as (nodes' & c' & Hrun & Hwf' & Hc' & Hsame & Hch); [lia| |].
    { intros i Hi. destruct (decide (i = Z.of_nat n)) as [->|]; [done|]. apply Hcons; lia. }
    exists nodes', c'. repeat (split; [done|]). split; [|done]. intros i Hi. apply Hsame. lia.
  - rewrite zupdate_in by lia. simpl.
    destruct (IH (zset nodes (Z.of_nat n) (child_max nodes (Z.of_nat n))) true)
      as (nodes' & c' & Hrun & Hwf' & Hc' & Hsame & Hch).
    { apply nodes_wf_zset; [done|lia|]. apply child_max_range; [done|lia]. }
    { lia. }
    { intros i Hi. destruct (decide (i = Z.of_nat n)) as [->|].
      - unfold consistent_at. rewrite child_max_zset by (unfold leftchild; lia).
        rewrite znth_zset_eq; [done|lia].
      - apply Hstep; unfold leftchild; try lia. apply Hcons. lia. }
    exists nodes', c'. repeat (split; [done|]). split.
    + intros i Hi. rewrite Hsame by lia. rewrite znth_zset_ne by lia. done.
    + right. split; [by destruct Hch as [[-> _]|[-> _]]|]. intros ->. apply Hne.
      rewrite (Hsame (Z.of_nat n)) by lia. rewrite znth_zset_eq; [done|lia].
Qed.

Lemma rebuild_page_spec p :
  page_wf p ->
  exists p' changed, fsm_rebuild_page p = Some (p', changed) /\
    page_wf p' /\ consistent (fp_nodes p') /\ fp_next_slot p' = fp_next_slot p /\
    (forall s, 0 <= s -> slot_avail p' s = slot_avail p s) /\
    (changed = false <-> p' = p).
Proof.
  intros Hwf. pose proof geometry. unfold fsm_rebuild_page.
  destruct (rebuild_loop_spec (Z.to_nat NonLeafNodesPerPage) (fp_nodes p) false Hwf)
    as (nodes' & c' & -> & Hwf' & Hc' & Hsame & Hch); [lia| |].
  { intros i Hi. lia. }
  simpl. eexists _, _. split; [done|]. repeat (split; [done|]).
  split; [intros s Hs; apply Hsame; lia|].
  destruct p as [next nodes]; simpl in *. split.
  - intros ->. by destruct Hch as [[_ ->]|[? _]].
  - intros [= ->]. by destruct Hch as [[-> _]|[_ ?]].
Qed.

(** A consistent page is a fixed point of the rebuild. *)
Lemma rebuild_node_consistent nodes i :
  nodes_wf nodes -> 0 <= i < NonLeafNodesPerPage -> consistent nodes ->
  rebuild_node nodes i = Some (znth nodes i).
Proof.
  intros Hwf Hi Hc. rewrite rebuild_node_spec; [|apply Hwf|lia]. by rewrite Hc.
Qed.

(** *** [fsm_set_avail] *)

Lemma propagate_spec fuel nodes nodeno :
  nodes_wf nodes -> 0 < nodeno < NodesPerPage -> nodeno <= Z.of_nat fuel ->
  exists nodes', propagate fuel nodes nodeno = Some nodes' /\ nodes_wf nodes' /\
    (forall i, NonLeafNodesPerPage <= i -> znth nodes' i = znth nodes i) /\
    ((forall i, 0 <= i < NonLeafNodesPerPage -> i <> parentof nodeno -> consistent_at nodes i) ->
     consistent nodes').
Proof.
  revert nodes nodeno. induction fuel as [|fuel IH]; intros nodes nodeno Hwf Hno Hfuel; [lia|].
  pose proof geometry. pose proof Hwf as [Hlen Hb]. cbn [propagate].
  set (q := parentof nodeno).
  assert (Hq : 0 <= q < nodeno /\ q < NonLeafNodesPerPage /\
    (nodeno = leftchild q \/ nodeno = leftchild q + 1)) by (unfold q; geo_lia).
  assert (Hl : 0 <= leftchild q < NodesPerPage) by (unfold leftchild in *; lia).
  assert (Hnew : (newvalue ← zlookup nodes (leftchild q);
      if leftchild q + 1 <? NodesPerPage
      then r ← zlookup nodes (leftchild q + 1); Some (Z.max newvalue r)
      else Some newvalue) = Some (child_max nodes q)).
  { unfold child_max. rewrite (zlookup_in nodes (leftchild q)) by lia. sbind.
    destruct (Z.ltb_spec (leftchild q) NodesPerPage); [|lia].
    destruct (Z.ltb_spec (leftchild q + 1) NodesPerPage); [|done].
    rewrite zlookup_in by lia. done. }
  rewrite (zlookup_in nodes (leftchild q)) in Hnew |- * by lia. cbn [mbind option_bind] in Hnew |- *. rewrite Hnew. sbind.
  rewrite (zlookup_in nodes q) by lia. sbind.
  destruct (Z.eqb_spec (znth nodes q) (child_max nodes q)) as [Heq|Hne].
  { exists nodes. repeat (split; [done|]). intros Hc i Hi.
    destruct (decide (i = q)) as [->|]; [done|auto]. }
  rewrite zupdate_in by lia. simpl.
  set (nodes1 := zset nodes q (child_max nodes q)).
  assert (Hwf1 : nodes_wf nodes1).
  { apply nodes_wf_zset; [done|lia|]. apply child_max_range; [done|lia]. }
  assert (Hleaf1 : forall i, NonLeafNodesPerPage <= i -> znth nodes1 i = znth nodes i).
  { intros i Hi. apply znth_zset_ne; lia. }
  assert (Hcons1 : (forall i, 0 <= i < NonLeafNodesPerPage -> i <> q -> consistent_at nodes i) ->
    forall i, 0 <= i < NonLeafNodesPerPage -> q = 0 \/ i <> parentof q -> consistent_at nodes1 i).
  { intros Hc i Hi Hiq. unfold consistent_at, nodes1.
    rewrite child_max_zset by geo_lia.
    destruct (decide (i = q)) as [->|].
    - rewrite znth_zset_eq; [done|lia].
    - rewrite znth_zset_ne by lia. by apply Hc. }
  destruct (Z.ltb_spec 0 q).
  - destruct (IH nodes1 q Hwf1) as (nodes' & -> & Hwf' & Hleaf & Hc'); [lia|lia|].
    exists nodes'. repeat (split; [done|]). split.
    + intros i Hi. rewrite Hleaf by lia. auto.
    + intros Hc. apply Hc'. intros i Hi Hiq. apply Hcons1; auto.
  - exists nodes1. repeat (split; [done|]). intros Hc i Hi. apply Hcons1; auto. left; lia.
Qed.

(** In a consistent tree the root bounds every node. *)
Lemma root_bounds_node nodes i :
  consistent nodes -> 0 <= i < NodesPerPage -> znth nodes i <= znth nodes 0.
Proof.
  intros Hc [Hi Hlt]. revert Hlt. pose proof geometry.
  apply (Z_lt_induction (fun i => i < NodesPerPage -> znth nodes i <= znth nodes 0)); [|done].
  intros j IH Hlt. destruct (Z.eq_dec j 0) as [->|]; [lia|].
  destruct (Z_lt_ge_dec j 0).
  { unfold znth. replace (Z.to_nat j) with (Z.to_nat 0) by lia. lia. }
  assert (Hq : 0 <= parentof j < j /\ parentof j < NonLeafNodesPerPage /\
    (j = leftchild (parentof j) \/ j = leftchild (parentof j) + 1)) by geo_lia.
  transitivity (znth nodes (parentof j)); [|apply IH; lia].
  rewrite (Hc (parentof j)) by lia. apply child_max_ge; lia.
Qed.

Lemma set_avail_spec p slot value :
  page_wf p -> 0 <= slot < LeafNodesPerPage -> in_u 8 value ->
  exists p' changed, fsm_set_avail p slot value = Some (p', changed) /\ page_wf p' /\
    slot_avail p' slot = value /\
    (forall s, 0 <= s -> s <> slot -> slot_avail p' s = slot_avail p s) /\
    value <= znth (fp_nodes p') 0 /\ fp_next_slot p' = fp_next_slot p /\
    (changed = false -> p' = p) /\
    (consistent (fp_nodes p) -> consistent (fp_nodes p')).
Proof.
  intros Hwf Hs Hv. pose proof geometry. pose proof Hwf as [Hlen _].
  unfold fsm_set_avail. set (no := NonLeafNodesPerPage + slot).
  rewrite (zlookup_in _ no) by lia. rewrite (zlookup_in _ 0) by lia. sbind.
  destruct (Z.eqb_spec (znth (fp_nodes p) no) value) as [He|Hne];
    [destruct (Z.leb_spec value (znth (fp_nodes p) 0))|]; cbn [andb].
  { exists p, false. repeat (split; [done|]). done. }
  all: rewrite zupdate_in by lia; sbind.
  all: set (nodes := zset (fp_nodes p) no value).
  all: assert (Hwf1 : nodes_wf nodes) by (apply nodes_wf_zset; [done|lia|done]).
  all: assert (Hno : znth nodes no = value) by (apply znth_zset_eq; lia).
  all: destruct (propagate_spec (length nodes) nodes no Hwf1)
    as (nodes' & -> & Hwf' & Hleaf & Hc'); [lia|destruct Hwf1; unfold zlen in *; lia|]; sbind.
  all: assert (Hcons : consistent (fp_nodes p) -> consistent nodes') by
    (intros Hc; apply Hc'; intros i Hi Hiq; unfold consistent_at, nodes;
     rewrite child_max_zset, znth_zset_ne by geo_lia; by apply Hc).
  all: assert (Hother : forall s, 0 <= s -> s <> slot ->
      znth nodes' (NonLeafNodesPerPage + s) = slot_avail p s) by
    (intros s ??; rewrite Hleaf by lia; apply znth_zset_ne; lia).
  all: assert (Hslot : znth nodes' no = value) by (rewrite Hleaf by lia; done).
  all: destruct Hwf' as [Hlen' Hb']; rewrite (zlookup_in nodes' 0) by lia; sbind.
  all: destruct (Z.ltb_spec (znth nodes' 0) value).
  2, 4: eexists _, _; repeat (split; [done|]); done.
  all: destruct (rebuild_page_spec (mkFSMPage (fp_next_slot p) nodes'))
    as (p'' & c'' & -> & Hwf'' & Hc'' & Hnext & Hsl & _); [done|]; sbind.
  all: exists p'', true; repeat (split; [done|]).
  all: assert (slot_avail p'' slot = value) by (by rewrite Hsl by lia).
  all: split; [done|]; split; [intros s ??; rewrite Hsl by lia; by apply Hother|].
  all: split; [|done]; rewrite <- H1 || rewrite <- H2.
  all: apply root_bounds_node; [done|lia].
Qed.

(** *** [fsm_search_avail] *)

Lemma climb_spec fuel nodes minvalue nodeno :
  nodes_wf nodes -> 0 <= nodeno < NodesPerPage -> nodeno < Z.of_nat fuel ->
  minvalue <= znth nodes 0 ->
  exists n, search_climb fuel nodes minvalue nodeno = Some n /\
    0 <= n < NodesPerPage /\ minvalue <= znth nodes n /\
    (minvalue <= znth nodes nodeno -> n = nodeno).
Proof.
  revert nodeno. induction fuel as [|fuel IH]; intros nodeno Hwf Hno Hf Hmin; [lia|].
  pose proof Hwf as [Hlen _]. cbn [search_climb].
  destruct (Z.ltb_spec 0 nodeno).
  2: { exists nodeno. replace nodeno with 0 by lia. repeat split; lia. }
  rewrite zlookup_in by lia. sbind. destruct (Z.leb_spec minvalue (znth nodes nodeno)).
  { exists nodeno. repeat split; lia || done. }
  assert (0 <= parentof (rightneighbor nodeno) < nodeno).
  { assert (rightneighbor nodeno = nodeno + 1 \/ rightneighbor nodeno = nodeno `quot` 2 /\ nodeno <> 1)
      as [->|[-> ?]].
    - unfold rightneighbor, parentof.
      destruct (Z.eqb_spec (Z.land (nodeno + 1 + 1) (nodeno + 1)) 0) as [Heq|]; [|by left].
      right. split; [f_equal; lia|]. intros ->. vm_compute in Heq. done.
    - unfold parentof. zdiv_lia.
    - unfold parentof. zdiv_lia. }
  destruct (IH (parentof (rightneighbor nodeno)) Hwf) as (n & -> & Hn & Hv & _); [lia|lia|done|].
  exists n. repeat (split; [done|]). lia.
Qed.

Lemma descend_spec fuel nodes minvalue nodeno :
  nodes_wf nodes -> 0 <= nodeno < NodesPerPage -> NodesPerPage - nodeno <= Z.of_nat fuel ->
  minvalue <= znth nodes nodeno ->
  exists d, search_descend fuel nodes minvalue nodeno = Some d /\
    match d with
    | Found k => NonLeafNodesPerPage <= k < NodesPerPage /\ minvalue <= znth nodes k
    | Corrupt => nodeno < NonLeafNodesPerPage /\ (1 <= minvalue -> ~ consistent nodes)
    end.
Proof.
  revert nodeno. induction fuel as [|fuel IH]; intros nodeno Hwf Hno Hf Hmin; [lia|].
  pose proof Hwf as [Hlen _]. cbn [search_descend].
  destruct (Z.ltb_spec nodeno NonLeafNodesPerPage) as [Hnl|].
  2: { exists (Found nodeno). split; [done|]. split; lia. }
  assert (0 <= leftchild nodeno /\ nodeno < leftchild nodeno) by (unfold leftchild; lia).
  set (goes c := (if c <? NodesPerPage then v ← zlookup nodes c; Some (minvalue <=? v)
                  else Some false)).
  assert (Hgoes : forall c, 0 <= c -> goes c =
      Some ((c <? NodesPerPage) && (minvalue <=? znth nodes c))).
  { intros c Hc. unfold goes. destruct (Z.ltb_spec c NodesPerPage); [|done].
    rewrite zlookup_in by lia. done. }
  fold (goes (leftchild nodeno)). rewrite Hgoes by lia. sbind.
  assert (Hrec : forall c, nodeno < c -> (c <? NodesPerPage) = true ->
    (minvalue <=? znth nodes c) = true ->
    exists d, search_descend fuel nodes minvalue c = Some d /\
    match d with
    | Found k => NonLeafNodesPerPage <= k < NodesPerPage /\ minvalue <= znth nodes k
    | Corrupt => nodeno < NonLeafNodesPerPage /\ (1 <= minvalue -> ~ consistent nodes)
    end).
  { intros c ???. destruct (IH c Hwf) as (d & -> & Hd); [lia|lia|lia|].
    exists d. split; [done|]. destruct d; [done|]. split; [lia|]. tauto. }
  destruct (leftchild nodeno <? NodesPerPage) eqn:El;
    destruct (minvalue <=? znth nodes (leftchild nodeno)) eqn:Ell; cbn [andb].
  { by apply Hrec; [lia|..]. }
  all: fold (goes (leftchild nodeno + 1)); rewrite Hgoes by lia; sbind.
  all: destruct (leftchild nodeno + 1 <? NodesPerPage) eqn:Er;
    destruct (minvalue <=? znth nodes (leftchild nodeno + 1)) eqn:Err; cbn [andb].
  all: try by apply Hrec; [lia|..].
  all: exists Corrupt; split; [done|]; split; [done|]; intros Hge Hc.
  all: pose proof (Hc nodeno ltac:(lia)) as Hcm; unfold consistent_at, child_max in Hcm.
  all: rewrite El, Er in Hcm; lia.
Qed.

(** One pass over a page: the result, or the discovery that the tree is corrupt. *)
Lemma search_pass p minvalue adv restarts :
  page_wf p -> in_u 8 minvalue ->
  (exists p' slot, search_restart (S restarts) p minvalue adv = Some (p', slot) /\
    fp_nodes p' = fp_nodes p /\
    ((slot = -1 /\ p' = p /\ znth (fp_nodes p) 0 < minvalue) \/
     (0 <= slot < LeafNodesPerPage /\ minvalue <= slot_avail p slot /\
      fp_next_slot p' = slot + (if adv then 1 else 0)))) \/
  (1 <= minvalue /\ ~ consistent (fp_nodes p) /\
   exists p1 c, fsm_rebuild_page p = Some (p1, c) /\
   search_restart (S restarts) p minvalue adv = search_restart restarts p1 minvalue adv).
Proof.
  intros Hwf Hmin. pose proof geometry. pose proof Hwf as [Hlen Hb]. cbn [search_restart].
  rewrite zlookup_in by lia. sbind. destruct (Z.ltb_spec (znth (fp_nodes p) 0) minvalue).
  { left. exists p, (-1). split; [done|]. auto. }
  set (t := if (fp_next_slot p <? 0) || (LeafNodesPerPage <=? fp_next_slot p)
            then 0 else fp_next_slot p).
  assert (Ht : 0 <= t < LeafNodesPerPage) by (unfold t; bool_cases; cbn [orb]; lia).
  assert (zlen (fp_nodes p) = Z.of_nat (length (fp_nodes p))) by done.
  destruct (climb_spec (S (length (fp_nodes p))) (fp_nodes p) minvalue
    (t + NonLeafNodesPerPage) Hwf) as (n & -> & Hn & Hv & Hstay); [lia|lia|done|]. sbind.
  destruct (descend_spec (S (length (fp_nodes p))) (fp_nodes p) minvalue n Hwf)
    as (d & -> & Hd); [lia|lia|done|]. sbind.
  destruct d as [k|].
  - left. assert (in_u 16 (k - NonLeafNodesPerPage)) by (unfold in_u; lia).
    rewrite uN_small by done. eexists _, _. split; [done|]. split; [done|].
    right. unfold slot_avail. replace (NonLeafNodesPerPage + (k - NonLeafNodesPerPage)) with k by lia.
    split; [lia|]. split; [lia|]. done.
  - right. destruct Hd as [Hn' Hd].
    assert (1 <= minvalue).
    { unfold in_u in Hmin. destruct (Z.eq_dec minvalue 0) as [->|]; [|lia]. exfalso.
      assert (n = t + NonLeafNodesPerPage); [|lia]. apply Hstay.
      apply Hb. lia. }
    split; [done|]. split; [auto|].
    destruct (rebuild_page_spec p Hwf) as (p1 & c & -> & _). sbind. eauto.
Qed.

(** The search returns a suitable slot, or -1 when the root promises nothing. *)
Lemma search_avail_spec p minvalue adv :
  page_wf p -> in_u 8 minvalue ->
  exists p' slot,
    fsm_search_avail p minvalue adv = Some (p', slot) /\ page_wf p' /\
    (forall s, 0 <= s -> slot_avail p' s = slot_avail p s) /\
    (consistent (fp_nodes p) -> fp_nodes p' = fp_nodes p) /\
    ((slot = -1 /\ fp_next_slot p' = fp_next_slot p /\ znth (fp_nodes p') 0 < minvalue) \/
     (0 <= slot < LeafNodesPerPage /\ minvalue <= slot_avail p slot /\
      fp_next_slot p' = slot + (if adv then 1 else 0))).
Proof.
  intros Hwf Hmin. unfold fsm_search_avail.
  destruct (search_pass p minvalue adv 1 Hwf Hmin)
    as [(p' & slot & -> & Hn & Hres)|(Hge & Hnc & p1 & c & Hrb & ->)].
  { exists p', slot. split; [done|]. unfold page_wf, slot_avail. rewrite Hn.
    repeat (split; [done|]). destruct Hres as [(-> & -> & ?)|?]; auto. }
  destruct (rebuild_page_spec p Hwf) as (p1' & c' & Hrb' & Hwf1 & Hc1 & Hnext & Hsl & _).
  rewrite Hrb in Hrb'. injection Hrb' as <- <-.
  destruct (search_pass p1 minvalue adv 0 Hwf1 Hmin)
    as [(p' & slot & -> & Hn & Hres)|(_ & Hnc1 & _)]; [|done].
  exists p', slot. split; [done|]. unfold page_wf, slot_avail in *. rewrite Hn.
  split; [done|]. split; [done|]. split; [done|].
  destruct Hres as [(-> & -> & ?)|(Hs & Hv & ?)]; [by left|right].
  split; [done|]. split; [|done]. rewrite <- Hsl by lia. done.
Qed.

(** *** [fsm_truncate_avail] *)

Lemma clear_loop_spec n nodes ptr c :
  nodes_wf nodes -> 0 <= ptr -> ptr + Z.of_nat n = NodesPerPage ->
  exists nodes' c', clear_loop n nodes ptr c = Some (nodes', c') /\ nodes_wf nodes' /\
    (forall i, 0 <= i < ptr -> znth nodes' i = znth nodes i) /\
    (forall i, ptr <= i < NodesPerPage -> znth nodes' i = 0) /\
    (c' = false -> c = false /\ nodes' = nodes).
Proof.
  revert nodes ptr c. induction n as [|n IH]; intros nodes ptr c Hwf Hp Hn.
  { exists nodes, c. repeat (split; [done|]). split; [intros; lia|]. done. }
  pose proof Hwf as [Hlen _]. cbn [clear_loop].
  rewrite zlookup_in by lia. sbind. rewrite zupdate_in by lia. sbind.
  destruct (IH (zset nodes ptr 0) (ptr + 1) (c || negb (znth nodes ptr =? 0)))
    as (nodes' & c' & -> & Hwf' & Hlow & Hhigh & Hc'); [|lia|lia|].
  { apply nodes_wf_zset; [done|lia|unfold in_u; lia]. }
  exists nodes', c'. repeat (split; [done|]). split; [|split].
  - intros i Hi. rewrite Hlow by lia. apply znth_zset_ne; lia.
  - intros i Hi. destruct (Z.eq_dec i ptr) as [->|]; [|apply Hhigh; lia].
    rewrite Hlow by lia. apply znth_zset_eq. lia.
  - intros Hf. destruct (Hc' Hf) as [[-> Hz]%orb_false_elim ->].
    apply negb_false_iff, Z.eqb_eq in Hz. rewrite <- Hz. rewrite zset_same by lia. done.
Qed.

Lemma truncate_avail_spec p nslots :
  page_wf p -> 0 <= nslots < LeafNodesPerPage ->
  exists p' changed, fsm_truncate_avail p nslots = Some (p', changed) /\ page_wf p' /\
    fp_next_slot p' = fp_next_slot p /\
    (forall s, 0 <= s < nslots -> slot_avail p' s = slot_avail p s) /\
    (forall s, nslots <= s < LeafNodesPerPage -> slot_avail p' s = 0) /\
    (changed = false -> p' = p) /\ (changed = true -> consistent (fp_nodes p')).
Proof.
  intros Hwf Hn. pose proof geometry. unfold fsm_truncate_avail.
  set (first := NonLeafNodesPerPage + nslots).
  destruct (clear_loop_spec (Z.to_nat (NodesPerPage - first)) (fp_nodes p) first false Hwf)
    as (nodes' & c' & -> & Hwf' & Hlow & Hhigh & Hc'); [lia|lia|]. sbind.
  destruct c'.
  - destruct (rebuild_page_spec (mkFSMPage (fp_next_slot p) nodes') Hwf')
      as (p'' & c'' & -> & Hwf'' & Hc'' & Hnext & Hsl & _). sbind.
    exists p'', true. repeat (split; [done|]). split; [|split; [|done]].
    + intros s Hs. rewrite Hsl by lia. apply Hlow. lia.
    + intros s Hs. rewrite Hsl by lia. apply Hhigh. lia.
  - destruct (Hc' eq_refl) as [_ ->]. destruct p as [next nodes]. simpl in *.
    exists (mkFSMPage next nodes), false. repeat (split; [done|]). split; [|done].
    intros s Hs. apply Hhigh. lia.
Qed.

(** *** The order of the search

    The leaves below a node [n] that is [h] levels above the leaves are the
    nodes [L] with [(n+1) * 2^h <= L+1 < (n+2) * 2^h]. *)

Lemma geometry_pow : exists D, 1 <= D /\ NonLeafNodesPerPage = 2 ^ D - 1.
Proof.
  unfold NonLeafNodesPerPage. pose proof BLCKSZ_valid as Hb.
  exists (Z.log2 BLCKSZ - 1).
  repeat match goal with H : _ \/ _ |- _ => destruct H as [H|H] end;
    rewrite Hb; vm_compute; split; congruence.
Qed.

(** A node below [minvalue] has no suitable leaf. *)
Lemma subtree_unsuitable nodes minvalue h n L :
  consistent nodes -> 0 <= h -> 0 <= n -> (n + 2) * 2 ^ h <= 2 * NonLeafNodesPerPage + 2 ->
  znth nodes n < minvalue -> L < NodesPerPage ->
  (n + 1) * 2 ^ h <= L + 1 < (n + 2) * 2 ^ h -> znth nodes L < minvalue.
Proof.
  intros Hc Hh. revert n. pattern h. apply natlike_ind; [|clear h Hh|done].
  { intros n ? _ Hv ? HL. assert (L = n) as -> by lia. done. }
  intros h Hh IH n Hn Hb Hv HLt HL. rewrite Z.pow_succ_r in Hb, HL by done.
  assert (Hp : 0 < 2 ^ h) by (apply Z.pow_pos_nonneg; lia).
  pose proof geometry.
  assert (n < NonLeafNodesPerPage) by nia.
  assert (Hch : forall c, c = leftchild n \/ c = leftchild n + 1 -> c < NodesPerPage ->
    znth nodes c < minvalue).
  { intros c Hc' Hlt. pose proof (child_max_ge nodes n c Hn Hc' Hlt).
    rewrite <- (Hc n) in * by lia. lia. }
  unfold leftchild in Hch.
  assert (Hdesc : forall c, c <= L -> (c + 1) * 2 ^ h <= L + 1 -> c < NodesPerPage) by lia.
  destruct (Z_lt_ge_dec (L + 1) ((2 * n + 3) * 2 ^ h)).
  - apply (IH (2 * n + 1)); try nia. apply Hch; [lia|]. nia.
  - apply (IH (2 * n + 2)); try nia. apply Hch; [lia|]. nia.
Qed.

Lemma search_descend_found fuel nodes minvalue n k :
  n < NodesPerPage -> search_descend fuel nodes minvalue n = Some (Found k) -> k < NodesPerPage.
Proof.
  revert n. induction fuel as [|fuel IH]; intros n Hn; [done|]. cbn [search_descend].
  destruct (n <? NonLeafNodesPerPage); [|by intros [= <-]].
  destruct (Z.ltb_spec (leftchild n) NodesPerPage) as [Hl|]; [|sbind].
  - destruct (zlookup nodes (leftchild n)); sbind; [|done].
    destruct (minvalue <=? _); [by apply IH|].
    destruct (Z.ltb_spec (leftchild n + 1) NodesPerPage); sbind; [|done].
    destruct (zlookup nodes (leftchild n + 1)); sbind; [|done].
    destruct (minvalue <=? _); [by apply IH|done].
  - destruct (Z.ltb_spec (leftchild n + 1) NodesPerPage); sbind; [|done].
    destruct (zlookup nodes (leftchild n + 1)); sbind; [|done].
    destruct (minvalue <=? _); [by apply IH|done].
Qed.

(** The descent takes the leftmost suitable leaf below its start. *)
Lemma descend_leftmost fuel nodes minvalue n h k :
  consistent nodes -> zlen nodes = NodesPerPage -> 1 <= minvalue ->
  0 <= h -> 0 <= n < NodesPerPage -> NonLeafNodesPerPage + 1 <= (n + 1) * 2 ^ h ->
  (n + 2) * 2 ^ h <= 2 * NonLeafNodesPerPage + 2 ->
  search_descend fuel nodes minvalue n = Some (Found k) ->
  (n + 1) * 2 ^ h <= k + 1 < (n + 2) * 2 ^ h /\
  forall L, (n + 1) * 2 ^ h <= L + 1 -> L < k -> znth nodes L < minvalue.
Proof.
  intros Hc Hlen Hmin. revert n h. induction fuel as [|fuel IH]; intros n h Hh Hn Hlo Hhi; [done|].
  cbn [search_descend]. pose proof geometry.
  destruct (Z.ltb_spec n NonLeafNodesPerPage) as [Hnl|].
  2: { intros [= <-]. assert (h = 0) as ->.
    { destruct (Z.eq_dec h 0); [done|]. exfalso.
      assert (2 * 2 ^ (h - 1) = 2 ^ h) by (rewrite <- Z.pow_succ_r by lia; f_equal; lia).
      assert (0 < 2 ^ (h - 1)) by (apply Z.pow_pos_nonneg; lia). nia. }
    split; intros; lia. }
  assert (0 < h) by (destruct (Z.eq_dec h 0) as [->|]; lia).
  assert (Hp2 : 2 ^ h = 2 * 2 ^ (h - 1)) by (rewrite <- Z.pow_succ_r by lia; f_equal; lia).
  assert (0 < 2 ^ (h - 1)) by (apply Z.pow_pos_nonneg; lia).
  rewrite Hp2 in *. set (W := 2 ^ (h - 1)) in *. unfold leftchild.
  destruct (Z.ltb_spec (2 * n + 1) NodesPerPage) as [Hl|Hl].
  - rewrite (zlookup_in nodes (2 * n + 1)) by lia. sbind.
    destruct (Z.leb_spec minvalue (znth nodes (2 * n + 1))).
    { intros Hrun. destruct (IH (2 * n + 1) (h - 1)) as [Hk Hleft]; fold W; try done; try lia.
    fold W in Hk, Hleft.
      split; [lia|]. intros L ??. apply Hleft; lia. }
    destruct (Z.ltb_spec (2 * n + 1 + 1) NodesPerPage); sbind; [|done].
    rewrite (zlookup_in nodes (2 * n + 1 + 1)) by lia. sbind.
    destruct (Z.leb_spec minvalue (znth nodes (2 * n + 1 + 1))); [|done].
    intros Hrun.
    destruct (IH (2 * n + 1 + 1) (h - 1)) as [Hk Hleft]; fold W; try done; try lia.
    fold W in Hk, Hleft.
    split; [lia|]. intros L HL Hlt.
    destruct (Z_lt_ge_dec (L + 1) ((2 * n + 3) * W)); [|apply Hleft; lia].
    apply (subtree_unsuitable nodes minvalue (h - 1) (2 * n + 1)); try done; fold W; try lia.
    apply search_descend_found in Hrun; lia.
  - sbind. destruct (Z.ltb_spec (2 * n + 1 + 1) NodesPerPage); sbind; [lia|done].
Qed.

(** Where the climb can stand after starting at leaf [t]: either every leaf
    from [t] up to its subtree is unsuitable, or it has wrapped around, every
    leaf from [t] on is unsuitable, and it is the leftmost node of its level. *)
Definition climb_inv (D t minvalue : Z) (nodes : list Z) (h n : Z) : Prop :=
  0 <= h <= D /\ 2 ^ (D - h) <= n + 1 < 2 ^ (D - h + 1) /\
  ((t + 1 <= (n + 1) * 2 ^ h /\
    forall L, t <= L -> L + 1 < (n + 1) * 2 ^ h -> L < NodesPerPage -> znth nodes L < minvalue) \/
   (n + 1 = 2 ^ (D - h) /\ forall L, t <= L < NodesPerPage -> znth nodes L < minvalue)).

Lemma climb_inv_step D t minvalue nodes h n :
  NonLeafNodesPerPage = 2 ^ D - 1 -> consistent nodes -> NonLeafNodesPerPage <= t ->
  climb_inv D t minvalue nodes h n -> 0 < n -> znth nodes n < minvalue ->
  climb_inv D t minvalue nodes (h + 1) (parentof (rightneighbor n)).
Proof.
  intros HD Hc Ht (Hh & Hn & Hinv) Hpos Hv. pose proof geometry as Hgeo.
  assert (HhD : h < D).
  { destruct (Z.eq_dec h D) as [->|]; [|lia]. rewrite Z.sub_diag in Hn. simpl in Hn. lia. }
  set (P := 2 ^ (D - h - 1)). set (W := 2 ^ h).
  assert (HP : 0 < P) by (apply Z.pow_pos_nonneg; lia).
  assert (HW : 0 < W) by (apply Z.pow_pos_nonneg; lia).
  assert (E1 : 2 ^ (D - h) = 2 * P) by (unfold P; rewrite <- Z.pow_succ_r by lia; f_equal; lia).
  assert (E2 : 2 ^ (D - h + 1) = 4 * P).
  { replace (D - h + 1) with (Z.succ (D - h)) by lia. rewrite Z.pow_succ_r by lia. lia. }
  assert (E3 : 2 ^ D = 2 * P * W).
  { unfold W. rewrite <- E1, <- Z.pow_add_r by lia. f_equal; lia. }
  assert (E4 : 2 ^ (h + 1) = 2 * W) by (unfold W; rewrite <- Z.pow_succ_r by lia; done).
  rewrite E1, E2 in Hn. fold W in Hinv. rewrite E1 in Hinv.
  (* the subtree of [n] holds no suitable leaf *)
  assert (Hsub : forall L, L < NodesPerPage -> (n + 1) * W <= L + 1 < (n + 2) * W ->
    znth nodes L < minvalue).
  { intros L ??. apply (subtree_unsuitable nodes minvalue h n); try done; try lia. fold W. nia. }
  unfold climb_inv. replace (D - (h + 1)) with (D - h - 1) by lia. fold P.
  replace (D - h - 1 + 1) with (D - h) by lia. rewrite E1, E4.
  split; [lia|].
  unfold rightneighbor. destruct (Z.eqb_spec (Z.land (n + 1 + 1) (n + 1)) 0) as [Hz|Hnz].
  - (* wrap-around: [n] was the rightmost node of its level *)
    assert (Hlast : n + 2 = 4 * P).
    { replace (n + 1) with ((n + 2) - 1) in Hz at 2 by lia.
      replace (n + 1 + 1) with (n + 2) in Hz by lia.
      apply land_pred_pow2 in Hz; [|lia].
      assert (Z.log2 (n + 2) = D - h + 1) as Hlog.
      { destruct (Z.eq_dec (n + 2) (4 * P)) as [E|].
        - rewrite E, <- E2. apply Z.log2_pow2. lia.
        - exfalso. assert (Z.log2 (n + 2) = D - h) as Hl.
          { apply Z.log2_unique; [lia|]. replace (Z.succ (D - h)) with (D - h + 1) by lia. lia. }
          rewrite Hl in Hz. lia. }
      rewrite Hlog in Hz. lia. }
    assert (Hpp : parentof (parentof (n + 1)) = P - 1) by (unfold parentof; zdiv_lia).
    rewrite Hpp. split; [lia|]. right. split; [lia|]. intros L HL.
    destruct Hinv as [[Hst Hun]|[_ Hun]]; [|by apply Hun].
    destruct (Z_lt_ge_dec (L + 1) ((n + 1) * W)); [apply Hun; lia|].
    apply Hsub; [lia|]. split; [lia|]. rewrite Hlast. lia.
  - assert (Hnl : n + 2 <> 4 * P).
    { intros E. apply Hnz. replace (n + 1 + 1) with (4 * P) by lia.
      replace (n + 1) with (4 * P - 1) by lia. rewrite <- E2. apply pow2_land_pred. lia. }
    assert (Hpar : parentof (n + 1) = Z.quot n 2) by (unfold parentof; f_equal; lia).
    rewrite Hpar. assert (Hq : n = 2 * Z.quot n 2 \/ n = 2 * Z.quot n 2 + 1) by zdiv_lia.
    set (q := Z.quot n 2) in *. split; [lia|].
    destruct Hinv as [[Hst Hun]|[He Hun]]; [left|right; split; [lia|done]].
    split; [nia|]. intros L ???.
    destruct (Z_lt_ge_dec (L + 1) ((n + 1) * W)); [apply Hun; lia|]. apply Hsub; nia.
Qed.

Lemma climb_order D t minvalue nodes fuel h n n' :
  NonLeafNodesPerPage = 2 ^ D - 1 -> consistent nodes -> zlen nodes = NodesPerPage ->
  NonLeafNodesPerPage <= t -> climb_inv D t minvalue nodes h n ->
  search_climb fuel nodes minvalue n = Some n' ->
  exists h', climb_inv D t minvalue nodes h' n'.
Proof.
  intros HD Hc Hlen Ht. revert h n. induction fuel as [|fuel IH]; intros h n Hinv; [done|].
  cbn [search_climb]. destruct (Z.ltb_spec 0 n); [|intros [= <-]; eauto].
  destruct (zlookup nodes n) as [v|] eqn:Ev; sbind; [|done].
  apply zlookup_Some in Ev as [Hr <-].
  destruct (Z.leb_spec minvalue (znth nodes n)); [intros [= <-]; eauto|].
  apply (IH (h + 1)). by apply climb_inv_step.
Qed.

(** The slot the search starts from: the hint, or 0 when the hint is not a slot. *)
Definition search_start (p : FSMPageData) : Z :=
  if (fp_next_slot p <? 0) || (LeafNodesPerPage <=? fp_next_slot p) then 0 else fp_next_slot p.

Lemma search_start_range p : 0 <= search_start p < LeafNodesPerPage.
Proof. pose proof geometry. unfold search_start. bool_cases; cbn [orb]; lia. Qed.

(** The climb followed by the descent finds the first suitable leaf at or
    after [t], or the first suitable leaf when there is none after [t]. *)
Lemma search_order nodes minvalue fuel t n k :
  consistent nodes -> nodes_wf nodes -> 1 <= minvalue ->
  NonLeafNodesPerPage <= t < NodesPerPage -> minvalue <= znth nodes 0 ->
  search_climb fuel nodes minvalue t = Some n -> t < Z.of_nat fuel ->
  search_descend fuel nodes minvalue n = Some (Found k) ->
  (t <= k /\ forall L, t <= L < k -> znth nodes L < minvalue) \/
  ((forall L, t <= L < NodesPerPage -> znth nodes L < minvalue) /\
   forall L, NonLeafNodesPerPage <= L < k -> znth nodes L < minvalue).
Proof.
  intros Hc Hwf Hmin Ht Hroot Hclimb Hfuel Hdesc.
  pose proof geometry as Hgeo. destruct geometry_pow as (D & HD1 & HD).
  pose proof Hwf as [Hlen _].
  assert (Hn : 0 <= n < NodesPerPage).
  { destruct (climb_spec fuel nodes minvalue t Hwf ltac:(lia) Hfuel Hroot)
      as (n1 & Hc1 & Hn & Hv). congruence. }
  assert (E2 : 2 ^ (D + 1) = 2 * 2 ^ D)
    by (replace (D + 1) with (Z.succ D) by lia; rewrite Z.pow_succ_r by lia; done).
  assert (Hinit : climb_inv D t minvalue nodes 0 t).
  { unfold climb_inv. rewrite !Z.sub_0_r, E2, Z.pow_0_r.
    split; [lia|]. split; [lia|]. left. split; [lia|]. intros; lia. }
  destruct (climb_order D t minvalue nodes fuel 0 t n HD Hc Hlen ltac:(lia) Hinit Hclimb)
    as (h & Hh & Hrange & Hinv).
  assert (Ep : 2 ^ (D - h) * 2 ^ h = 2 ^ D) by (rewrite <- Z.pow_add_r by lia; f_equal; lia).
  assert (Ep1 : 2 ^ (D - h + 1) = 2 * 2 ^ (D - h)).
  { replace (D - h + 1) with (Z.succ (D - h)) by lia. by rewrite Z.pow_succ_r by lia. }
  set (W := 2 ^ h) in *. set (Q := 2 ^ (D - h)) in *.
  assert (0 < W) by (apply Z.pow_pos_nonneg; lia).
  assert (Q * W <= (n + 1) * W) by (apply Z.mul_le_mono_nonneg_r; lia).
  assert ((n + 2) * W <= 2 * Q * W) by (apply Z.mul_le_mono_nonneg_r; lia).
  destruct (descend_leftmost fuel nodes minvalue n h k) as [Hk Hleft];
    try done; fold W; try lia.
  fold W in Hk, Hleft.
  destruct Hinv as [[Hst Hun]|[He Hun]].
  - left. split; [lia|]. intros L HL.
    apply search_descend_found in Hdesc; [|lia].
    destruct (Z_lt_ge_dec (L + 1) ((n + 1) * W)); [apply Hun; lia|apply Hleft; lia].
  - right. split; [done|]. intros L HL. apply Hleft; [rewrite He|]; lia.
Qed.

(** *** Deciding well-formedness and consistency *)

Definition all_below (n : Z) (f : Z -> bool) : bool :=
  forallb (fun k => f (Z.of_nat k)) (seq 0 (Z.to_nat n)).

Lemma all_below_spec n f : all_below n f = true -> forall i, 0 <= i < n -> f i = true.
Proof.
  unfold all_below. rewrite forallb_forall. intros Hf i Hi.
  rewrite <- (Z2Nat.id i) by lia. apply Hf. apply in_seq. lia.
Qed.

Definition page_wfb (p : FSMPageData) : bool :=
  (zlen (fp_nodes p) =? NodesPerPage) &&
  all_below NodesPerPage (fun i => (0 <=? znth (fp_nodes p) i) && (znth (fp_nodes p) i <? 256)).

Definition consistentb (nodes : list Z) : bool :=
  all_below NonLeafNodesPerPage (fun i => znth nodes i =? child_max nodes i).

Lemma page_wfb_spec p : page_wfb p = true -> page_wf p.
Proof.
  intros [Hl Hb]%andb_true_iff. split; [by apply Z.eqb_eq|]. intros i Hi.
  apply (all_below_spec _ _ Hb) in Hi. unfold in_u. lia.
Qed.

Lemma consistentb_spec nodes : consistentb nodes = true -> consistent nodes.
Proof. intros Hb i Hi. apply (all_below_spec _ _ Hb) in Hi. by apply Z.eqb_eq. Qed.
End PageFacts.

(** ** Properties of the FSM page *)

Section PageProperties.
Context {bs : BlockSize}.

(** [fsm_search_avail] on any page, torn or not: the search always returns
    after at most one repair, reads and writes only inside [fp_nodes], leaves
    every slot's category as it was and a consistent tree consistent, and
    returns either -1 or a slot whose category is at least [minvalue]; then
    [fp_next_slot] is that slot, or the one after it with [advancenext]. *)
Theorem fsm_search_avail_correct p minvalue advancenext :
  page_wf p -> in_u 8 minvalue ->
  exists p' slot,
    fsm_search_avail p minvalue advancenext = Some (p', slot) /\ page_wf p' /\
    (forall s, 0 <= s -> slot_avail p' s = slot_avail p s) /\
    (consistent (fp_nodes p) -> fp_nodes p' = fp_nodes p) /\
    ((slot = -1 /\ fp_next_slot p' = fp_next_slot p) \/
     (0 <= slot < LeafNodesPerPage /\ minvalue <= slot_avail p slot /\
      fp_next_slot p' = slot + (if advancenext then 1 else 0))).
Proof.
  intros Hwf Hmin.
  destruct (search_avail_spec p minvalue advancenext Hwf Hmin)
    as (p' & slot & Hrun & Hwf' & Hsl & Hn & Hres).
  exists p', slot. repeat (split; [done|]). destruct Hres as [(? & ? & _)|?]; auto.
Qed.

(** C35 [fsm_search_avail] on a consistent page, asked for a category from 1 to 255
    (which is what [fsm_space_needed_to_cat] gives), is a complete round-robin
    first-fit search: it returns, without changing a category, -1 exactly when no
    slot has the requested category, and otherwise the first suitable slot at or
    after the starting slot, wrapping around to the first suitable slot of the page
    when there is none.  (The comment in the source claims this for its example.) *)
Theorem fsm_search_avail_first_fit p minvalue advancenext :
  page_wf p -> consistent (fp_nodes p) -> 1 <= minvalue < 256 ->
  exists p' slot, fsm_search_avail p minvalue advancenext = Some (p', slot) /\ fp_nodes p' = fp_nodes p /\
  (slot = -1 <-> forall s, 0 <= s < LeafNodesPerPage -> slot_avail p s < minvalue) /\
  (slot <> -1 ->
   0 <= slot < LeafNodesPerPage /\ minvalue <= slot_avail p slot /\
   ((search_start p <= slot /\
     forall s, search_start p <= s < slot -> slot_avail p s < minvalue) \/
    (slot < search_start p /\
     (forall s, search_start p <= s < LeafNodesPerPage -> slot_avail p s < minvalue) /\
     forall s, 0 <= s < slot -> slot_avail p s < minvalue))).
Proof.
  intros Hwf Hc Hmin. pose proof geometry as Hgeo. pose proof (search_start_range p) as Hst.
  destruct (search_avail_spec p minvalue advancenext Hwf ltac:(unfold in_u; lia)) as (p' & slot & Hrun & _ & _ & Hn & Hres).
  exists p', slot. split; [done|]. split; [by apply Hn|].
  assert (Hslot : slot <> -1 -> 0 <= slot < LeafNodesPerPage /\ minvalue <= slot_avail p slot) by (destruct Hres as [(? & _)|(? & ? & _)]; done).
  cut ((slot = -1 <-> forall s, 0 <= s < LeafNodesPerPage -> slot_avail p s < minvalue) /\
    (slot <> -1 -> (search_start p <= slot /\ forall s, search_start p <= s < slot -> slot_avail p s < minvalue) \/
     (slot < search_start p /\ (forall s, search_start p <= s < LeafNodesPerPage -> slot_avail p s < minvalue) /\
      forall s, 0 <= s < slot -> slot_avail p s < minvalue))).
  { intros [H1 H2]. split; [done|]. intros Hne. destruct (Hslot Hne). auto. }
  clear Hres Hn Hslot. revert Hrun.
  pose proof Hwf as [Hlen _]. unfold fsm_search_avail. cbn [search_restart].
  rewrite zlookup_in by lia. sbind. destruct (Z.ltb_spec (znth (fp_nodes p) 0) minvalue).
  { intros [= <- <-]. split; [|done]. split; [|done]. intros _ s Hs.
    pose proof (root_bounds_node (fp_nodes p) (NonLeafNodesPerPage + s) Hc).
    unfold slot_avail. lia. }
  fold (search_start p).
  destruct (climb_spec (S (length (fp_nodes p))) (fp_nodes p) minvalue
    (search_start p + NonLeafNodesPerPage) Hwf) as (n & Hcl & Hn & Hv & _);
    [lia|unfold zlen in *; lia|done|].
  rewrite Hcl. sbind.
  destruct (descend_spec (S (length (fp_nodes p))) (fp_nodes p) minvalue n Hwf)
    as (d & Hd & Hdv); [lia|unfold zlen in *; lia|done|].
  rewrite Hd. sbind. destruct d as [k|]; [|destruct Hdv as [_ []]; [lia|done]].
  intros [= <- <-]. rewrite uN_small by (unfold in_u; lia).
  destruct Hdv as [Hk Hkv].
  assert (Hkeq : forall s, NonLeafNodesPerPage + (s - NonLeafNodesPerPage) = s) by (intros; lia).
  split.
  { split; [lia|]. intros Hall. assert (Hkr : 0 <= k - NonLeafNodesPerPage < LeafNodesPerPage) by lia. specialize (Hall _ Hkr).
    unfold slot_avail in Hall. rewrite Hkeq in Hall. lia. }
  intros _. unfold slot_avail.
  assert (Hord := fun a b c d =>
    search_order (fp_nodes p) minvalue _ _ n k Hc Hwf a b c Hcl d Hd).
  destruct Hord as [[Hle Hun]|[Hall Hun]]; [lia..|unfold zlen in *; lia| |].
  - left. split; [lia|]. intros s Hs. apply Hun. lia.
  - right. split; [|split; intros s Hs; [apply Hall|apply Hun]; lia].
    destruct (Z_lt_ge_dec (k - NonLeafNodesPerPage) (search_start p)); [done|].
    assert (Hkr : search_start p + NonLeafNodesPerPage <= k < NodesPerPage) by lia.
    specialize (Hall _ Hkr). lia.
Qed.

(** C34 [fsm_set_avail] on any page: it stays inside the array and returns;
    afterwards the slot holds the new category, every other slot and the hint
    are unchanged, the root promises at least the new category (also when the
    tree was corrupt), a consistent tree stays consistent, and the result says
    [false] only when nothing was changed. *)
Theorem fsm_set_avail_correct p slot value :
  page_wf p -> 0 <= slot < LeafNodesPerPage -> in_u 8 value ->
  exists p' changed,
    fsm_set_avail p slot value = Some (p', changed) /\ page_wf p' /\
    fsm_get_avail p' slot = Some value /\
    (forall s, 0 <= s < LeafNodesPerPage -> s <> slot -> fsm_get_avail p' s = fsm_get_avail p s) /\
    (exists root, fsm_get_max_avail p' = Some root /\ value <= root) /\
    fp_next_slot p' = fp_next_slot p /\ (changed = false -> p' = p) /\
    (consistent (fp_nodes p) -> consistent (fp_nodes p')).
Proof.
  intros Hwf Hs Hv. pose proof geometry.
  destruct (set_avail_spec p slot value Hwf Hs Hv)
    as (p' & ch & Hrun & Hwf' & Hslot & Hother & Hroot & Hnext & Hch & Hc).
  pose proof Hwf as [Hlen _]. pose proof Hwf' as [Hlen' _].
  exists p', ch. split; [done|]. split; [done|]. unfold fsm_get_avail, fsm_get_max_avail.
  split; [rewrite zlookup_in by lia; by f_equal|].
  split; [intros s ??; rewrite !zlookup_in by lia; f_equal; apply Hother; lia|].
  split; [rewrite zlookup_in by lia; eauto|]. done.
Qed.

(** [fsm_truncate_avail] clears exactly the slots from [nslots] on, and
    [fsm_rebuild_page] makes any page consistent without touching a slot and
    reports whether it changed the page. *)
Theorem fsm_truncate_rebuild_correct p nslots :
  page_wf p -> 0 <= nslots < LeafNodesPerPage ->
  (exists p' changed, fsm_truncate_avail p nslots = Some (p', changed) /\ page_wf p' /\
    (forall s, 0 <= s < LeafNodesPerPage ->
       slot_avail p' s = if s <? nslots then slot_avail p s else 0) /\
    (changed = false -> p' = p) /\ (changed = true -> consistent (fp_nodes p'))) /\
  (exists p' changed, fsm_rebuild_page p = Some (p', changed) /\ page_wf p' /\
    consistent (fp_nodes p') /\ (forall s, 0 <= s -> slot_avail p' s = slot_avail p s) /\
    (changed = false <-> p' = p)).
Proof.
  intros Hwf Hn. split.
  - destruct (truncate_avail_spec p nslots Hwf Hn)
      as (p' & c & Hrun & Hwf' & _ & Hlow & Hhigh & Hc & Hc'). exists p', c.
    repeat (split; [done|]). split; [|done]. intros s Hs.
    destruct (Z.ltb_spec s nslots); [apply Hlow|apply Hhigh]; lia.
  - destruct (rebuild_page_spec p Hwf) as (p' & c & Hrun & Hwf' & Hc & _ & Hsl & Hch).
    exists p', c. done.
Qed.
End PageProperties.

(** ** The properties on a concrete page

    A page of the smallest geometry whose slot 5 has category 7, slot 90
    category 3, and whose hint is slot 6. *)

Definition fsm_example : FSMPageData :=
  let empty := mkFSMPage 6 (replicate 228 0) in
  match fsm_set_avail (bs := block_256) empty 5 7 with
  | Some (p, _) => match fsm_set_avail (bs := block_256) p 90 3 with
                   | Some (p', _) => p' | None => empty end
  | None => empty
  end.

Lemma fsm_example_wf : page_wf (bs := block_256) fsm_example.
Proof. apply page_wfb_spec. vm_compute. reflexivity. Qed.

Lemma fsm_example_consistent : consistent (bs := block_256) (fp_nodes fsm_example).
Proof. apply consistentb_spec. vm_compute. reflexivity. Qed.

Lemma fsm_search_avail_correct_witness :
  exists p' slot, fsm_search_avail (bs := block_256) fsm_example 5 true = Some (p', slot) /\
    page_wf (bs := block_256) p'.
Proof.
  destruct (fsm_search_avail_correct (bs := block_256) fsm_example 5 true)
    as (p' & slot & Hrun & Hwf & _).
  - apply fsm_example_wf.
  - split; [discriminate|reflexivity].
  - exists p', slot. split; [exact Hrun|exact Hwf].
Defined.

Lemma fsm_search_avail_first_fit_witness :
  exists p' slot, fsm_search_avail (bs := block_256) fsm_example 4 true = Some (p', slot) /\ slot = 5 /\
    slot < search_start (bs := block_256) fsm_example.
Proof.
  destruct (fsm_search_avail_first_fit (bs := block_256) fsm_example 4 true) as (p' & slot & Hrun & _).
  - apply fsm_example_wf.
  - apply fsm_example_consistent.
  - split; [discriminate|reflexivity].
  - exists p', slot. split; [exact Hrun|]. vm_compute in Hrun. injection Hrun as _ <-. split; reflexivity.
Defined.

Lemma fsm_set_avail_correct_witness :
  exists p' changed, fsm_set_avail (bs := block_256) fsm_example 90 9 = Some (p', changed) /\
    fsm_get_avail (bs := block_256) p' 90 = Some 9.
Proof.
  destruct (fsm_set_avail_correct (bs := block_256) fsm_example 90 9)
    as (p' & c & Hrun & _ & Hget & _).
  - apply fsm_example_wf.
  - split; [discriminate|reflexivity].
  - split; [discriminate|reflexivity].
  - exists p', c. split; [exact Hrun|exact Hget].
Defined.

Lemma fsm_truncate_rebuild_correct_witness :
  exists p' changed, fsm_truncate_avail (bs := block_256) fsm_example 50 = Some (p', changed) /\
    page_wf (bs := block_256) p'.
Proof.
  destruct (fsm_truncate_rebuild_correct (bs := block_256) fsm_example 50)
    as [(p' & c & Hrun & Hwf & _) _].
  - apply fsm_example_wf.
  - split; [discriminate|reflexivity].
  - exists p', c. split; [exact Hrun|exact Hwf].
Defined.
