(* ===== verification/FreeSpace.v ===== *)
(** The free space map of a relation:
    [src/src/gausskernel/storage/freespace/freespace.cpp] and
    [src/src/include/storage/freespace.h].

    The map is a tree of FSM pages (file FsmPage) stored in a fork of the
    relation in depth-first order.  This file models the conversion of sizes
    to categories, the logical addressing of the tree, and every operation of
    the file on the fork.  A block of the fork is [None] while it is new (all
    zero, [PageIsNew]) and [Some page] after [PageInit]; buffer locks and pins,
    dirty marks, WAL and tracing are not part of the model. *)
From S2P Require Import Prelude FsmPage.

(** ** Constants *)

Definition SizeOfHeapPageHeaderData : Z := 40.  (* PageHeaderData + two TransactionIds *)
Definition sizeof_ItemIdData : Z := 4.

Definition InvalidBlockNumber : Z := 4294967295.

Section Constants.
Context {bs : BlockSize}.

Definition MaxHeapTupleSize : Z :=
  BLCKSZ - MAXALIGN (SizeOfHeapPageHeaderData + sizeof_ItemIdData).
Definition MaxFSMRequestSize : Z := MaxHeapTupleSize.
Definition FSM_CATEGORIES : Z := 256.
Definition FSM_CAT_STEP : Z := BLCKSZ / FSM_CATEGORIES.
Definition FSM_TREE_DEPTH : Z := if 1626 <=? SlotsPerFSMPage then 3 else 4.
Definition FSM_ROOT_LEVEL : Z := FSM_TREE_DEPTH - 1.
Definition FSM_BOTTOM_LEVEL : Z := 0.
End Constants.

(** ** Categories *)

Section Categories.
Context {bs : BlockSize}.

Definition fsm_space_avail_to_cat (avail : Z) : Z :=
  if MaxFSMRequestSize <=? avail then 255
  else
    let cat := s32 (Z.quot avail FSM_CAT_STEP) in
    let cat := if 254 <? cat then 254 else cat in
    u8 cat.

Definition fsm_space_cat_to_avail (cat : Z) : Z :=
  if cat =? 255 then MaxFSMRequestSize else u64 (cat * FSM_CAT_STEP).

Definition fsm_space_needed_to_cat (needed : Z) : result Z :=
  if MaxFSMRequestSize <? needed then Ereport ERRCODE_DATATYPE_MISMATCH
  else if needed =? 0 then Ok 1
  else
    let cat := s32 (Z.quot (needed + FSM_CAT_STEP - 1) FSM_CAT_STEP) in
    let cat := if 255 <? cat then 255 else cat in
    Ok (u8 cat).
End Categories.

(** ** Addressing *)

Record FSMAddress := mkAddr { level : Z; logpageno : Z }.

#[global] Instance FSMAddress_eq_dec : EqDecision FSMAddress.
Proof. solve_decision. Defined.

Section Addressing.
Context {bs : BlockSize}.

Definition g_fsm_root_address : FSMAddress := mkAddr FSM_ROOT_LEVEL 0.

(** [for (l = 0; l < addr.level; l++) leafno *= SlotsPerFSMPage;] *)
Fixpoint first_leaf (l : nat) (leafno : Z) : Z :=
  match l with
  | O => leafno
  | S l' => first_leaf l' (s32 (leafno * SlotsPerFSMPage))
  end.

(** [for (l = 0; l < FSM_TREE_DEPTH; l++) { pages += leafno + 1; leafno /= ...; }] *)
Fixpoint count_pages (l : nat) (pages leafno : Z) : Z :=
  match l with
  | O => pages
  | S l' =>
      count_pages l' (u32 (pages + u32 leafno + 1)) (s32 (Z.quot (u64 leafno) SlotsPerFSMPage))
  end.

Definition fsm_logical_to_physical (addr : FSMAddress) : Z :=
  let leafno := first_leaf (Z.to_nat (level addr)) (logpageno addr) in
  let pages := count_pages (Z.to_nat FSM_TREE_DEPTH) 0 leafno in
  let pages := u32 (pages - level addr) in
  u32 (pages - 1).

(** Returns the address and the slot. *)
Definition fsm_get_location (heapblk : Z) : FSMAddress * Z :=
  (mkAddr FSM_BOTTOM_LEVEL (s32 (Z.quot heapblk SlotsPerFSMPage)),
   u16 (Z.rem heapblk SlotsPerFSMPage)).

Definition fsm_get_heap_blk (addr : FSMAddress) (slot : Z) : Z :=
  u32 (u32 (logpageno addr) * SlotsPerFSMPage + slot).

(** Returns the parent and the slot of the child in it. *)
Definition fsm_get_parent (child : FSMAddress) : FSMAddress * Z :=
  (mkAddr (level child + 1) (s32 (Z.quot (u64 (logpageno child)) SlotsPerFSMPage)),
   u16 (Z.rem (u64 (logpageno child)) SlotsPerFSMPage)).

Definition fsm_get_child (parent : FSMAddress) (slot : Z) : FSMAddress :=
  mkAddr (level parent - 1) (s32 (u64 (logpageno parent) * SlotsPerFSMPage + slot)).

Definition fsm_get_lastblckno (addr : FSMAddress) : Z :=
  let slot := SlotsPerFSMPage - 1 in
  fsm_get_heap_blk addr (u16 slot).

Definition FreeSpaceMapCalTruncBlkNo (relBlkNo : Z) : Z :=
  let '(first_removed_address, _) := fsm_get_location relBlkNo in
  fsm_logical_to_physical first_removed_address.
End Addressing.

(** ** The fork *)

(** What a [Relation] and its [rd_smgr] contribute to these functions. *)
Record Relation := mkRel {
  fork_exists : bool;                        (* smgrexists(FSM_FORKNUM) *)
  fork_blocks : list (option FSMPageData);   (* None: PageIsNew *)
  smgr_fsm_nblocks : Z;                      (* cached size, or InvalidBlockNumber *)
  is_segment : bool                          (* IsSegmentFileNode(rd_node) *)
}.

Section Fork.
Context {bs : BlockSize}.

Definition smgrnblocks (rel : Relation) : Z := zlen (fork_blocks rel).

Definition with_blocks (rel : Relation) (blocks : list (option FSMPageData)) : Relation :=
  mkRel (fork_exists rel) blocks (smgr_fsm_nblocks rel) (is_segment rel).
Definition with_cache (rel : Relation) (n : Z) : Relation :=
  mkRel (fork_exists rel) (fork_blocks rel) n (is_segment rel).

(** [PageInit(page, BLCKSZ, 0)]: the contents are zeroed. *)
Definition PageInit : FSMPageData := mkFSMPage 0 (replicate (Z.to_nat NodesPerPage) 0).

(** The contents of the page in a buffer ([BufferGetPage]) and its update; a
    new page is all zeros, as its contents are after [PageInit]. *)
Definition BufferGetPage (rel : Relation) (blkno : Z) : option FSMPageData :=
  b ← zlookup (fork_blocks rel) blkno;
  Some (match b with Some p => p | None => PageInit end).
Definition BufferSetPage (rel : Relation) (blkno : Z) (p : FSMPageData) : option Relation :=
  blocks ← zupdate (fork_blocks rel) blkno (Some p); Some (with_blocks rel blocks).

Definition fsm_extend (rel : Relation) (fsm_nblocks : Z) : Relation :=
  let pg := PageInit in
  let exists_now :=
    if ((smgr_fsm_nblocks rel =? 0) || (smgr_fsm_nblocks rel =? InvalidBlockNumber)) &&
       negb (fork_exists rel)
    then true (* smgrcreate *) else fork_exists rel in
  let fsm_nblocks_now := smgrnblocks rel in
  (* while (fsm_nblocks_now < fsm_nblocks) *)
  let added := Z.to_nat (fsm_nblocks - fsm_nblocks_now) in
  let block := if is_segment rel then None (* ReadBufferExtended(P_NEW, RBM_ZERO) *)
               else Some pg (* smgrextend *) in
  mkRel exists_now (fork_blocks rel ++ replicate added block)
        (Z.max fsm_nblocks_now fsm_nblocks) (is_segment rel).

(** Returns the block of the buffer, [None] for InvalidBuffer.  The outer
    [option] is the block access of [ReadBufferExtended]. *)
Definition fsm_readbuf (rel : Relation) (addr : FSMAddress) (extend : bool)
  : option (Relation * option Z) :=
  let blkno := fsm_logical_to_physical addr in
  let rel :=
    if (smgr_fsm_nblocks rel =? InvalidBlockNumber) || (smgr_fsm_nblocks rel <=? blkno)
    then with_cache rel (if fork_exists rel then smgrnblocks rel else 0)
    else rel in
  let read (rel : Relation) :=
    b ← zlookup (fork_blocks rel) blkno;
    match b with
    | None (* PageIsNew *) => rel' ← BufferSetPage rel blkno PageInit; Some (rel', Some blkno)
    | Some _ => Some (rel, Some blkno)
    end in
  if smgr_fsm_nblocks rel <=? blkno then
    if extend then read (fsm_extend rel (u32 (blkno + 1))) else Some (rel, None)
  else read rel.

(** The result is the slot found, or -1. *)
Definition fsm_set_and_search (rel : Relation) (addr : FSMAddress) (slot newValue minValue : Z)
    (search : bool) : option (Relation * Z) :=
  '(rel, buf) ← fsm_readbuf rel addr true;
  buf ← buf;
  page ← BufferGetPage rel buf;
  '(page, _) ← fsm_set_avail page slot newValue;
  if negb (minValue =? 0) && search then
    '(page, newslot) ← fsm_search_avail page minValue (level addr =? FSM_BOTTOM_LEVEL);
    rel ← BufferSetPage rel buf page;
    Some (rel, newslot)
  else
    rel ← BufferSetPage rel buf page;
    Some (rel, -1).

(** The search within one page of [fsm_search]: the slot, or -1 and the root
    of the page (0 when the page does not exist). *)
Definition search_page (rel : Relation) (addr : FSMAddress) (min_cat : Z)
  : option (Relation * Z * Z) :=
  '(rel, buf) ← fsm_readbuf rel addr false;
  match buf with
  | Some buf =>
      page ← BufferGetPage rel buf;
      '(page, slot) ← fsm_search_avail page min_cat (level addr =? FSM_BOTTOM_LEVEL);
      max_avail ← (if slot =? -1 then fsm_get_max_avail page else Some 0);
      rel ← BufferSetPage rel buf page;
      Some (rel, slot, max_avail)
  | None => Some (rel, -1, 0)
  end.

(** [for (;;)] of [fsm_search]. *)
Fixpoint search_loop (fuel : nat) (rel : Relation) (addr : FSMAddress) (min_cat restarts : Z)
  : option (Relation * Z) :=
  match fuel with
  | O => None
  | S fuel' =>
      '(rel, slot, max_avail) ← search_page rel addr min_cat;
      if negb (slot =? -1) then
        if level addr =? FSM_BOTTOM_LEVEL then Some (rel, fsm_get_heap_blk addr (u16 slot))
        else search_loop fuel' rel (fsm_get_child addr (u16 slot)) min_cat restarts
      else if level addr =? FSM_ROOT_LEVEL then Some (rel, InvalidBlockNumber)
      else
        let '(parent, parentslot) := fsm_get_parent addr in
        '(rel, _) ← fsm_set_and_search rel parent parentslot max_avail 0 true;
        if 10000 <? restarts then Some (rel, InvalidBlockNumber)
        else search_loop fuel' rel g_fsm_root_address min_cat (restarts + 1)
  end.

(** The emergency valve allows 10001 restarts; each walks at most
    [FSM_TREE_DEPTH] pages. *)
Definition search_fuel : nat := Z.to_nat (10003 * FSM_TREE_DEPTH).

Definition fsm_search (rel : Relation) (min_cat : Z) : option (Relation * Z) :=
  search_loop search_fuel rel g_fsm_root_address min_cat 0.

(** The recursion of [fsm_update_recursive]; [up] bounds the levels above. *)
Fixpoint fsm_update_recursive (up : nat) (rel : Relation) (addr : FSMAddress) (new_cat : Z)
    (search : bool) : option Relation :=
  if level addr =? FSM_ROOT_LEVEL then Some rel
  else match up with
  | O => None
  | S up' =>
      let '(parent, parentslot) := fsm_get_parent addr in
      '(rel, _) ← fsm_set_and_search rel parent parentslot new_cat 0 search;
      fsm_update_recursive up' rel parent new_cat search
  end.

(** The loop over the slots of an upper page of [fsm_vacuum_page]; the recursive
    call is [vacuum_child], [n] slots are left. *)
Fixpoint vacuum_slots (vacuum_child : Relation -> FSMAddress -> option (Relation * Z * bool))
    (n : nat) (rel : Relation) (addr : FSMAddress) (buf slot : Z) (eof : bool) : option Relation :=
  match n with
  | O => Some rel
  | S n' =>
      '(rel, child_avail, eof) ←
        (if eof then Some (rel, 0, true) else vacuum_child rel (fsm_get_child addr (u16 slot)));
      page ← BufferGetPage rel buf;
      old ← fsm_get_avail page slot;
      rel ← (if old =? child_avail then Some rel
             else '(page, _) ← fsm_set_avail page slot (u8 child_avail);
                  BufferSetPage rel buf page);
      vacuum_slots vacuum_child n' rel addr buf (slot + 1) eof
  end.

(** [fsm_vacuum_page] on the page of level [l]: the relation, the root of the
    page and [*eof_p]. *)
Fixpoint fsm_vacuum_page (l : nat) (rel : Relation) (addr : FSMAddress)
  : option (Relation * Z * bool) :=
  '(rel, buf) ← fsm_readbuf rel addr false;
  match buf with
  | None => Some (rel, 0, true)
  | Some buf =>
      rel ← (if FSM_BOTTOM_LEVEL <? level addr then
               match l with
               | O => None
               | S l' => vacuum_slots (fsm_vacuum_page l') (Z.to_nat SlotsPerFSMPage) rel addr buf 0 false
               end
             else Some rel);
      page ← BufferGetPage rel buf;
      max_avail ← fsm_get_max_avail page;
      rel ← BufferSetPage rel buf (mkFSMPage 0 (fp_nodes page));
      Some (rel, max_avail, false)
  end.

(** *** Public operations *)

Definition GetPageWithFreeSpace (rel : Relation) (spaceNeeded : Z)
  : option (result (Relation * Z)) :=
  match fsm_space_needed_to_cat spaceNeeded with
  | Ereport c => Some (Ereport c)
  | Ok min_cat => r ← fsm_search rel min_cat; Some (Ok r)
  end.

Definition RecordAndGetPageWithFreeSpace (rel : Relation) (oldPage oldSpaceAvail spaceNeeded : Z)
  : option (result (Relation * Z)) :=
  let old_cat := fsm_space_avail_to_cat oldSpaceAvail in
  match fsm_space_needed_to_cat spaceNeeded with
  | Ereport c => Some (Ereport c)
  | Ok search_cat =>
      let '(addr, slot) := fsm_get_location oldPage in
      '(rel, search_slot) ← fsm_set_and_search rel addr slot (u8 old_cat) (u8 search_cat) true;
      if negb (search_slot =? -1) then Some (Ok (rel, fsm_get_heap_blk addr (u16 search_slot)))
      else r ← fsm_search rel (u8 search_cat); Some (Ok r)
  end.

Definition RecordPageWithFreeSpace (rel : Relation) (heapBlk spaceAvail : Z) : option Relation :=
  let new_cat := fsm_space_avail_to_cat spaceAvail in
  let '(addr, slot) := fsm_get_location heapBlk in
  '(rel, _) ← fsm_set_and_search rel addr slot (u8 new_cat) 0 true;
  Some rel.

(** The loop of [UpdateFreeSpaceMap]. *)
Fixpoint update_loop (fuel : nat) (rel : Relation) (blockNum endBlkNum new_cat : Z)
    (search : bool) : option Relation :=
  match fuel with
  | O => None
  | S fuel' =>
      if blockNum <=? endBlkNum then
        let '(addr, _) := fsm_get_location blockNum in
        rel ← fsm_update_recursive (Z.to_nat FSM_TREE_DEPTH) rel addr (u8 new_cat) search;
        let lastBlkOnPage := fsm_get_lastblckno addr in
        if endBlkNum <=? lastBlkOnPage then Some rel
        else update_loop fuel' rel (u32 (lastBlkOnPage + 1)) endBlkNum new_cat search
      else Some rel
  end.

Definition UpdateFreeSpaceMap (rel : Relation) (startBlkNum endBlkNum freespace : Z)
    (search : bool) : option Relation :=
  let new_cat := fsm_space_avail_to_cat freespace in
  update_loop (S (Z.to_nat (endBlkNum - startBlkNum + 1))) rel startBlkNum endBlkNum new_cat search.

(** [XLogReadBufferExtended] creates the fork and extends it with new pages. *)
Definition XLogRecordPageWithFreeSpace (rel : Relation) (heapBlk spaceAvail : Z)
  : option Relation :=
  if is_segment rel then Some rel
  else
    let new_cat := fsm_space_avail_to_cat spaceAvail in
    let '(addr, slot) := fsm_get_location heapBlk in
    let blkno := fsm_logical_to_physical addr in
    let rel := mkRel true
      (fork_blocks rel ++ replicate (Z.to_nat (blkno + 1 - smgrnblocks rel)) None)
      (smgr_fsm_nblocks rel) (is_segment rel) in
    b ← zlookup (fork_blocks rel) blkno;
    let page := match b with None => PageInit | Some page => page end in
    '(page, _) ← fsm_set_avail page slot (u8 new_cat);
    BufferSetPage rel blkno page.

Definition GetRecordedFreeSpace (rel : Relation) (heapBlk : Z) : option (Relation * Z) :=
  let '(addr, slot) := fsm_get_location heapBlk in
  '(rel, buf) ← fsm_readbuf rel addr false;
  match buf with
  | None => Some (rel, 0)
  | Some buf =>
      page ← BufferGetPage rel buf;
      cat ← fsm_get_avail page slot;
      Some (rel, fsm_space_cat_to_avail cat)
  end.

(** [smgrtruncate] and the update of the cached size after it. *)
Definition truncate_fork (rel : Relation) (n : Z) : Relation :=
  mkRel (fork_exists rel) (take (Z.to_nat n) (fork_blocks rel)) n (is_segment rel).

Definition XLogBlockTruncateRelFSM (rel : Relation) (nblocks : Z) : Relation :=
  if negb (fork_exists rel) then rel
  else
    let '(first_removed_address, first_removed_slot) := fsm_get_location nblocks in
    if 0 <? first_removed_slot then
      truncate_fork rel (u32 (fsm_logical_to_physical first_removed_address + 1))
    else
      let new_nfsmblocks := fsm_logical_to_physical first_removed_address in
      if smgrnblocks rel <=? new_nfsmblocks then rel
      else truncate_fork rel new_nfsmblocks.

Definition FreeSpaceMapTruncateRel (rel : Relation) (nblocks : Z) : option Relation :=
  if negb (fork_exists rel) then Some rel
  else
    let '(first_removed_address, first_removed_slot) := fsm_get_location nblocks in
    if 0 <? first_removed_slot then
      '(rel, buf) ← fsm_readbuf rel first_removed_address false;
      match buf with
      | None => Some rel
      | Some buf =>
          page ← BufferGetPage rel buf;
          '(page, _) ← fsm_truncate_avail page first_removed_slot;
          rel ← BufferSetPage rel buf page;
          Some (truncate_fork rel (u32 (fsm_logical_to_physical first_removed_address + 1)))
      end
    else
      let new_nfsmblocks := fsm_logical_to_physical first_removed_address in
      if smgrnblocks rel <=? new_nfsmblocks then Some rel
      else Some (truncate_fork rel new_nfsmblocks).

Definition FreeSpaceMapVacuum (rel : Relation) : option Relation :=
  '(rel, _, _) ← fsm_vacuum_page (Z.to_nat FSM_ROOT_LEVEL) rel g_fsm_root_address;
  Some rel.
End Fork.

(** ** Facts about the tree geometry *)

Section TreeFacts.
Context {bs : BlockSize}.

(** The number of pages at the bottom level. *)
Definition leaf_pages : Z := SlotsPerFSMPage ^ FSM_ROOT_LEVEL.

Lemma tree_geometry :
  (FSM_TREE_DEPTH = 3 \/ FSM_TREE_DEPTH = 4) /\ 0 < leaf_pages <= 991026973.
Proof.
  unfold leaf_pages, FSM_ROOT_LEVEL, FSM_TREE_DEPTH, SlotsPerFSMPage, LeafNodesPerPage,
    NodesPerPage, NonLeafNodesPerPage.
  pose proof BLCKSZ_valid as Hb.
  repeat match goal with H : _ \/ _ |- _ => destruct H as [H|H] end;
    rewrite Hb; vm_compute; (split; [tauto|split; congruence]).
Qed.

(** The addresses of the tree. *)
Definition valid_addr (a : FSMAddress) : Prop :=
  0 <= level a <= FSM_ROOT_LEVEL /\
  0 <= logpageno a < SlotsPerFSMPage ^ (FSM_ROOT_LEVEL - level a).

(** The first leaf page below an address. *)
Definition leaf_of (a : FSMAddress) : Z := logpageno a * SlotsPerFSMPage ^ level a.

Lemma depth_pos : 3 <= FSM_TREE_DEPTH /\ FSM_ROOT_LEVEL = FSM_TREE_DEPTH - 1.
Proof. pose proof tree_geometry. unfold FSM_ROOT_LEVEL. lia. Qed.

Lemma slots_pow_pos k : 0 <= k -> 0 < SlotsPerFSMPage ^ k.
Proof. intros. apply Z.pow_pos_nonneg; [|done]. pose proof SlotsPerFSMPage_range. lia. Qed.

Lemma leaf_of_range a : valid_addr a -> 0 <= leaf_of a < leaf_pages.
Proof.
  intros [Hl Hp]. unfold leaf_of, leaf_pages.
  pose proof (slots_pow_pos (level a) ltac:(lia)) as H1.
  replace FSM_ROOT_LEVEL with ((FSM_ROOT_LEVEL - level a) + level a) by lia.
  rewrite Z.pow_add_r by lia. nia.
Qed.

Lemma first_leaf_spec l p :
  0 <= p -> p * SlotsPerFSMPage ^ Z.of_nat l < 2 ^ 31 ->
  first_leaf l p = p * SlotsPerFSMPage ^ Z.of_nat l.
Proof.
  pose proof SlotsPerFSMPage_range as Hs.
  revert p. induction l as [|l IH]; intros p Hp Hlt.
  - simpl. lia.
  - cbn [first_leaf]. rewrite Nat2Z.inj_succ, Z.pow_succ_r in * by lia.
    pose proof (slots_pow_pos (Z.of_nat l) ltac:(lia)).
    rewrite sN_small by (try done; unfold in_s; nia).
    rewrite IH by nia. lia.
Qed.

(** [gsum n x] is [x + x/S + x/S^2 + ...], [n] terms. *)
Fixpoint gsum (n : nat) (x : Z) : Z :=
  match n with O => 0 | S n' => x + gsum n' (x / SlotsPerFSMPage) end.

Lemma gsum_bound n x : 0 <= x -> 0 <= gsum n x <= Z.of_nat n * x.
Proof.
  pose proof SlotsPerFSMPage_range. revert x. induction n as [|n IH]; intros x Hx; simpl gsum; [lia|].
  assert (0 <= x / SlotsPerFSMPage <= x) by (split; [apply Z.div_pos|apply Z.div_le_upper_bound]; nia).
  specialize (IH (x / SlotsPerFSMPage)). nia.
Qed.

Lemma gsum_mono n x y : 0 <= x <= y -> gsum n x <= gsum n y.
Proof.
  pose proof SlotsPerFSMPage_range. revert x y. induction n as [|n IH]; intros x y Hx; simpl gsum; [lia|].
  assert (0 <= x / SlotsPerFSMPage <= y / SlotsPerFSMPage)
    by (split; [apply Z.div_pos|apply Z.div_le_mono]; lia).
  specialize (IH _ _ H0). lia.
Qed.

Lemma gsum_gap n k x y :
  (k < n)%nat -> 0 <= x -> x < y * SlotsPerFSMPage ^ Z.of_nat k ->
  gsum n x + Z.of_nat k + 1 <= gsum n (y * SlotsPerFSMPage ^ Z.of_nat k).
Proof.
  pose proof SlotsPerFSMPage_range as Hs.
  revert n x. induction k as [|k IH]; intros [|n] x Hk Hx Hlt; try lia; cbn [gsum].
  - change (Z.of_nat 0) with 0 in *. rewrite Z.pow_0_r, Z.mul_1_r in *.
    assert (0 <= x / SlotsPerFSMPage <= y / SlotsPerFSMPage)
      by (split; [apply Z.div_pos|apply Z.div_le_mono]; lia).
    pose proof (gsum_mono n _ _ H). lia.
  - rewrite Nat2Z.inj_succ, Z.pow_succ_r in * by lia.
    replace (y * (SlotsPerFSMPage * SlotsPerFSMPage ^ Z.of_nat k))
      with (y * SlotsPerFSMPage ^ Z.of_nat k * SlotsPerFSMPage) in * by lia.
    rewrite Z.div_mul by lia.
    assert (x / SlotsPerFSMPage < y * SlotsPerFSMPage ^ Z.of_nat k)
      by (apply Z.div_lt_upper_bound; lia).
    specialize (IH n (x / SlotsPerFSMPage) ltac:(lia) ltac:(apply Z.div_pos; lia) H). lia.
Qed.

Lemma count_pages_spec n pages x :
  0 <= pages -> 0 <= x < 2 ^ 31 -> pages + gsum n x + Z.of_nat n < 2 ^ 32 ->
  count_pages n pages x = pages + gsum n x + Z.of_nat n.
Proof.
  pose proof SlotsPerFSMPage_range as Hs.
  revert pages x. induction n as [|n IH]; intros pages x Hp Hx Hb; cbn [count_pages gsum] in *; [lia|].
  assert (0 <= x / SlotsPerFSMPage <= x) by (split; [apply Z.div_pos|apply Z.div_le_upper_bound]; nia).
  pose proof (gsum_bound n (x / SlotsPerFSMPage) (proj1 H)).
  rewrite (uN_small 32 x), (uN_small 64 x) by (unfold in_u; lia).
  rewrite Z.quot_div_nonneg by lia.
  rewrite uN_small by (unfold in_u; lia). rewrite sN_small by (unfold in_s; lia).
  rewrite IH; lia.
Qed.

(** The physical block of a valid address, without overflow. *)
Lemma physical_spec a :
  valid_addr a ->
  fsm_logical_to_physical a = gsum (Z.to_nat FSM_TREE_DEPTH) (leaf_of a) + FSM_ROOT_LEVEL - level a /\
  0 <= fsm_logical_to_physical a < 3964107896.
Proof.
  intros Ha. pose proof (leaf_of_range a Ha) as HL. destruct Ha as [Hl Hp].
  pose proof tree_geometry as [Hd Hb]. pose proof depth_pos.
  unfold fsm_logical_to_physical.
  assert (Hleaf : first_leaf (Z.to_nat (level a)) (logpageno a) = leaf_of a).
  { rewrite first_leaf_spec; [by rewrite Z2Nat.id by lia|lia|].
    rewrite Z2Nat.id by lia. fold (leaf_of a). lia. }
  rewrite Hleaf. pose proof (gsum_bound (Z.to_nat FSM_TREE_DEPTH) (leaf_of a) ltac:(lia)) as Hg.
  assert (Hg4 : Z.of_nat (Z.to_nat FSM_TREE_DEPTH) * leaf_of a <= 4 * leaf_of a) by nia.
  rewrite count_pages_spec by lia.
  set (g := gsum _ _) in *.
  rewrite (uN_small 32 (0 + g + _ - _)) by (unfold in_u; lia).
  rewrite uN_small by (unfold in_u; lia). lia.
Qed.

(** Depth-first order: the pages of a subtree with a smaller first leaf come first. *)
Lemma physical_mono a b :
  valid_addr a -> valid_addr b -> leaf_of a < leaf_of b ->
  fsm_logical_to_physical a < fsm_logical_to_physical b.
Proof.
  intros Ha Hb Hlt. destruct (physical_spec a Ha) as [-> _]. destruct (physical_spec b Hb) as [-> _].
  pose proof (leaf_of_range a Ha). destruct Ha as [Hla _]. destruct Hb as [Hlb _].
  pose proof depth_pos.
  unfold leaf_of in Hlt at 2. rewrite <- (Z2Nat.id (level b)) in Hlt by lia.
  pose proof (gsum_gap (Z.to_nat FSM_TREE_DEPTH) (Z.to_nat (level b)) (leaf_of a) (logpageno b)
    ltac:(lia) ltac:(lia) Hlt) as Hg.
  rewrite !Z2Nat.id in Hg by lia. unfold leaf_of at 2. lia.
Qed.

Lemma physical_inj a b :
  valid_addr a -> valid_addr b -> fsm_logical_to_physical a = fsm_logical_to_physical b -> a = b.
Proof.
  intros Ha Hb Heq. destruct (Z.lt_total (leaf_of a) (leaf_of b)) as [Hl|[Hl|Hl]].
  - pose proof (physical_mono a b Ha Hb Hl). lia.
  - destruct (physical_spec a Ha) as [Ea _]. destruct (physical_spec b Hb) as [Eb _].
    rewrite Hl in Ea. assert (Hlev : level a = level b) by lia.
    destruct a as [la pa], b as [lb pb]; unfold leaf_of in Hl; simpl in *. subst lb. f_equal.
    destruct Ha as [[? ?] _]. simpl in *.
    apply (Z.mul_reg_r _ _ (SlotsPerFSMPage ^ la)); [|done].
    pose proof (slots_pow_pos la ltac:(done)). lia.
  - pose proof (physical_mono b a Hb Ha Hl). lia.
Qed.

(** The number of pages of a subtree with [l] levels below its root. *)
Fixpoint subtree_pages (l : nat) : Z :=
  match l with O => 1 | S l' => 1 + SlotsPerFSMPage * subtree_pages l' end.

Lemma gsum_shift k m y :
  0 <= y -> gsum (k + m) (y * SlotsPerFSMPage ^ Z.of_nat k) =
    y * (subtree_pages k - 1) + gsum m y.
Proof.
  intros Hy. pose proof SlotsPerFSMPage_range as Hs. induction k as [|k IH].
  - cbn [subtree_pages Nat.add]. change (Z.of_nat 0) with 0. rewrite Z.pow_0_r, Z.mul_1_r. lia.
  - cbn [subtree_pages Nat.add gsum]. rewrite Nat2Z.inj_succ, Z.pow_succ_r by lia.
    replace (y * (SlotsPerFSMPage * SlotsPerFSMPage ^ Z.of_nat k))
      with (y * SlotsPerFSMPage ^ Z.of_nat k * SlotsPerFSMPage) by lia.
    rewrite Z.div_mul by lia. rewrite IH.
    assert (Hp : forall j, subtree_pages (S j) - 1 = subtree_pages j - 1 + SlotsPerFSMPage ^ (Z.of_nat j + 1)).
    { induction j as [|j IHj]; [cbn [subtree_pages]; change (Z.of_nat 0 + 1) with 1; lia|].
      cbn [subtree_pages] in *.
      rewrite Nat2Z.inj_succ, Z.add_succ_l, Z.pow_succ_r by lia. nia. }
    specialize (Hp k). cbn [subtree_pages] in Hp.
    rewrite Z.add_1_r, Z.pow_succ_r in Hp by lia. nia.
Qed.

(** A child page follows its parent and the subtrees of the children before it. *)
Lemma physical_child p s :
  valid_addr p -> 0 < level p -> 0 <= s < SlotsPerFSMPage ->
  let c := mkAddr (level p - 1) (logpageno p * SlotsPerFSMPage + s) in
  valid_addr c /\
  fsm_logical_to_physical c =
    fsm_logical_to_physical p + 1 + s * subtree_pages (Z.to_nat (level p - 1)).
Proof.
  intros Hp Hl Hs c. pose proof SlotsPerFSMPage_range as HS. pose proof depth_pos as [Hd HR].
  assert (Hc : valid_addr c).
  { destruct Hp as [Hlv Hpn]. split; cbn [level logpageno c]; [lia|].
    replace (FSM_ROOT_LEVEL - (level p - 1)) with (Z.succ (FSM_ROOT_LEVEL - level p)) by lia.
    rewrite Z.pow_succ_r by lia. nia. }
  split; [done|].
  destruct (physical_spec p Hp) as [-> _]. destruct (physical_spec c Hc) as [-> _].
  assert (Hpn : 0 <= logpageno p) by apply Hp. assert (Hlv : level p <= FSM_ROOT_LEVEL) by apply Hp.
  set (l := Z.to_nat (level p - 1)). set (m := Z.to_nat (FSM_TREE_DEPTH - level p - 1)).
  assert (E1 : gsum (Z.to_nat FSM_TREE_DEPTH) (leaf_of p) =
               logpageno p * (subtree_pages (S l) - 1) + gsum (S m) (logpageno p)).
  { unfold leaf_of. replace (level p) with (Z.of_nat (S l)) by lia.
    replace (Z.to_nat FSM_TREE_DEPTH) with (S l + S m)%nat by lia. by rewrite gsum_shift by lia. }
  assert (E2 : gsum (Z.to_nat FSM_TREE_DEPTH) (leaf_of c) =
               logpageno c * (subtree_pages l - 1) + gsum (S (S m)) (logpageno c)).
  { unfold leaf_of. replace (level c) with (Z.of_nat l) by (cbn [level c]; lia).
    replace (Z.to_nat FSM_TREE_DEPTH) with (l + S (S m))%nat by lia.
    rewrite gsum_shift; [done|]. cbn [logpageno c]. lia. }
  rewrite E1, E2. clear E1 E2. cbn [logpageno level c subtree_pages].
  change (gsum (S (S m)) ?x) with (x + gsum (S m) (x / SlotsPerFSMPage)).
  rewrite Z.div_add_l by lia. rewrite (Z.div_small s) by lia.
  rewrite Z.add_0_r. nia.
Qed.

(** Arithmetic of the navigation functions on valid addresses. *)
Lemma valid_logpageno a : valid_addr a -> 0 <= logpageno a < 2 ^ 31 /\ logpageno a < leaf_pages.
Proof.
  intros Ha. pose proof (leaf_of_range a Ha) as Hr. pose proof tree_geometry as [_ Hg].
  destruct Ha as [Hl Hp]. unfold leaf_of in Hr.
  pose proof (slots_pow_pos (level a) ltac:(lia)). nia.
Qed.

Lemma get_child_spec p s :
  valid_addr p -> 0 < level p -> 0 <= s < SlotsPerFSMPage ->
  fsm_get_child p (u16 s) = mkAddr (level p - 1) (logpageno p * SlotsPerFSMPage + s) /\
  valid_addr (fsm_get_child p (u16 s)).
Proof.
  intros Hp Hl Hs. pose proof SlotsPerFSMPage_range as HS.
  destruct (physical_child p s Hp Hl Hs) as [Hc _].
  pose proof (valid_logpageno p Hp). pose proof (valid_logpageno _ Hc) as Hcl. cbn [logpageno] in Hcl.
  assert (E : fsm_get_child p (u16 s) = mkAddr (level p - 1) (logpageno p * SlotsPerFSMPage + s)).
  { unfold fsm_get_child. rewrite (uN_small 16), (uN_small 64) by (unfold in_u; lia).
    rewrite sN_small by (unfold in_s; lia). done. }
  split; [done|by rewrite E].
Qed.

Lemma get_parent_spec c :
  valid_addr c -> level c < FSM_ROOT_LEVEL ->
  fsm_get_parent c = (mkAddr (level c + 1) (logpageno c / SlotsPerFSMPage),
                      logpageno c mod SlotsPerFSMPage) /\
  valid_addr (mkAddr (level c + 1) (logpageno c / SlotsPerFSMPage)) /\
  0 <= logpageno c mod SlotsPerFSMPage < SlotsPerFSMPage.
Proof.
  intros Hc Hl. pose proof SlotsPerFSMPage_range as HS. pose proof (valid_logpageno c Hc) as Hv.
  assert (Hm : 0 <= logpageno c mod SlotsPerFSMPage < SlotsPerFSMPage)
    by (apply Z.mod_pos_bound; lia).
  assert (Hq : 0 <= logpageno c / SlotsPerFSMPage <= logpageno c)
    by (split; [apply Z.div_pos|apply Z.div_le_upper_bound]; nia).
  repeat split; try (cbn [level logpageno]; lia).
  - unfold fsm_get_parent. rewrite (uN_small 64) by (unfold in_u; lia).
    rewrite Z.quot_div_nonneg, Z.rem_mod_nonneg by lia.
    rewrite sN_small by (unfold in_s; lia). rewrite uN_small by (unfold in_u; lia). done.
  - cbn [level]. destruct Hc. lia.
  - cbn [logpageno level]. destruct Hc as [[Hc0 _] Hpn].
    replace (FSM_ROOT_LEVEL - level c) with (Z.succ (FSM_ROOT_LEVEL - (level c + 1))) in Hpn by lia.
    rewrite Z.pow_succ_r in Hpn by lia. apply Z.div_lt_upper_bound; lia.
Qed.

Lemma get_location_spec b :
  0 <= b < leaf_pages * SlotsPerFSMPage -> b < 2 ^ 32 ->
  fsm_get_location b = (mkAddr 0 (b / SlotsPerFSMPage), b mod SlotsPerFSMPage) /\
  valid_addr (mkAddr 0 (b / SlotsPerFSMPage)) /\
  0 <= b mod SlotsPerFSMPage < SlotsPerFSMPage.
Proof.
  intros Hb Hb32. pose proof SlotsPerFSMPage_range as HS. pose proof tree_geometry as [_ Hg].
  pose proof depth_pos.
  assert (Hm : 0 <= b mod SlotsPerFSMPage < SlotsPerFSMPage) by (apply Z.mod_pos_bound; lia).
  assert (Hq : 0 <= b / SlotsPerFSMPage < leaf_pages)
    by (split; [apply Z.div_pos|apply Z.div_lt_upper_bound]; lia).
  split; [|split; [|done]].
  - unfold fsm_get_location, FSM_BOTTOM_LEVEL. rewrite Z.quot_div_nonneg, Z.rem_mod_nonneg by lia.
    rewrite sN_small by (unfold in_s; lia). rewrite uN_small by (unfold in_u; lia). done.
  - split; cbn [level logpageno]; [lia|]. rewrite Z.sub_0_r. apply Hq.
Qed.
End TreeFacts.

(** ** The fork *)

Section ForkFacts.
Context {bs : BlockSize}.

(** The content of a physical block; a missing or new block reads as an
    initialised page. *)
Definition block_page (rel : Relation) (b : Z) : FSMPageData :=
  match zlookup (fork_blocks rel) b with Some (Some p) => p | _ => PageInit end.

(** The category stored at a slot of a page of the tree. *)
Definition cat_at (rel : Relation) (a : FSMAddress) (s : Z) : Z :=
  slot_avail (block_page rel (fsm_logical_to_physical a)) s.

(** What holds of every page. *)
Definition pages_ok (P : FSMPageData -> Prop) (rel : Relation) : Prop :=
  forall b, P (block_page rel b).

Definition rel_wf (rel : Relation) : Prop :=
  pages_ok page_wf rel /\
  (smgr_fsm_nblocks rel = InvalidBlockNumber \/ 0 <= smgr_fsm_nblocks rel <= smgrnblocks rel) /\
  smgrnblocks rel <= InvalidBlockNumber /\
  (fork_exists rel = false -> fork_blocks rel = []).

(** Every page of the fork is internally consistent. *)
Definition rel_consistent : Relation -> Prop := pages_ok (fun p => consistent (fp_nodes p)).

Lemma znth_replicate n v i : 0 <= i < n -> znth (replicate (Z.to_nat n) v) i = (v : Z).
Proof. intros Hi. unfold znth. apply lookup_total_replicate_2. lia. Qed.

Lemma PageInit_slot s : 0 <= s < LeafNodesPerPage -> slot_avail PageInit s = 0.
Proof.
  intros Hs. unfold slot_avail, PageInit. cbn [fp_nodes]. apply znth_replicate.
  unfold LeafNodesPerPage in Hs. pose proof geometry. lia.
Qed.

Lemma PageInit_root : znth (fp_nodes PageInit) 0 = 0.
Proof. apply znth_replicate. pose proof geometry. lia. Qed.

Lemma PageInit_wf : page_wf PageInit.
Proof.
  pose proof geometry. split.
  - unfold zlen, PageInit. cbn [fp_nodes]. rewrite length_replicate. lia.
  - intros i Hi. unfold PageInit. cbn [fp_nodes]. rewrite znth_replicate by lia. unfold in_u. lia.
Qed.

Lemma PageInit_consistent : consistent (fp_nodes PageInit).
Proof.
  intros i Hi. pose proof geometry. unfold consistent_at, child_max, PageInit. cbn [fp_nodes].
  rewrite znth_replicate by lia. unfold leftchild.
  destruct (Z.ltb_spec (2 * i + 1 + 1) NodesPerPage); destruct (Z.ltb_spec (2 * i + 1) NodesPerPage);
    rewrite ?znth_replicate by lia; lia.
Qed.

Lemma pages_ok_ext (P : FSMPageData -> Prop) rel rel' :
  (forall b, block_page rel' b = block_page rel b) -> pages_ok P rel -> pages_ok P rel'.
Proof. intros E H b. rewrite E. apply H. Qed.

(** *** Writing a page *)

Lemma BufferGetPage_Some rel b :
  0 <= b < smgrnblocks rel -> BufferGetPage rel b = Some (block_page rel b).
Proof. intros Hb. unfold BufferGetPage, block_page. by rewrite zlookup_in by done. Qed.

Lemma BufferSetPage_spec rel b p :
  0 <= b < smgrnblocks rel ->
  exists rel', BufferSetPage rel b p = Some rel' /\
    (forall b', block_page rel' b' = if b' =? b then p else block_page rel b') /\
    smgrnblocks rel' = smgrnblocks rel /\ fork_exists rel' = fork_exists rel /\
    smgr_fsm_nblocks rel' = smgr_fsm_nblocks rel /\ is_segment rel' = is_segment rel /\
    zlookup (fork_blocks rel') b = Some (Some p).
Proof.
  intros Hb. unfold BufferSetPage. rewrite zupdate_in by done. sbind.
  eexists. split; [reflexivity|]. unfold with_blocks, smgrnblocks, block_page. cbn.
  assert (Hb' : zlookup (zset (fork_blocks rel) b (Some p)) b = Some (Some p)).
  { rewrite zlookup_in by by rewrite zlen_zset. by rewrite znth_zset_eq by done. }
  repeat split; try done; [|by rewrite zlen_zset].
  intros b'. destruct (Z.eqb_spec b' b) as [->|Hne]; [by rewrite Hb'|].
  unfold zlookup, zset. destruct (Z.leb_spec 0 b'); [|done].
  rewrite list_lookup_insert_ne; [done|lia].
Qed.

Lemma rel_wf_set rel b p rel' :
  rel_wf rel -> page_wf p -> 0 <= b < smgrnblocks rel -> BufferSetPage rel b p = Some rel' ->
  rel_wf rel'.
Proof.
  intros (Hp & Hc & Hn & He) Hpw Hb Hs.
  destruct (BufferSetPage_spec rel b p Hb) as (r & Hr & Hpg & Hlen & Hex & Hca & _).
  rewrite Hs in Hr. injection Hr as <-. split; [|rewrite Hlen, Hex, Hca; repeat split; try done].
  - intros b'. rewrite Hpg. destruct (b' =? b); [done|apply Hp].
  - intros Hf. apply He in Hf. unfold smgrnblocks in Hb. rewrite Hf in Hb. unfold zlen in Hb. simpl in Hb. lia.
Qed.

(** *** Reading and extending *)

Lemma block_page_app rel added v ex c sg b :
  v = None \/ v = Some PageInit ->
  block_page (mkRel ex (fork_blocks rel ++ replicate added v) c sg) b = block_page rel b.
Proof.
  intros Hv. unfold block_page, zlookup. cbn [fork_blocks]. destruct (0 <=? b); [|done].
  destruct (decide (Z.to_nat b < length (fork_blocks rel))%nat).
  - by rewrite lookup_app_l.
  - rewrite lookup_app_r by lia. rewrite (lookup_ge_None_2 (fork_blocks rel)) by lia.
    destruct (replicate added v !! _) eqn:E; [|done].
    apply lookup_replicate in E as [-> _]. by destruct Hv as [->| ->].
Qed.

Lemma extend_spec rel n :
  rel_wf rel -> 0 <= n <= InvalidBlockNumber ->
  smgr_fsm_nblocks rel = smgrnblocks rel ->
  let rel' := fsm_extend rel n in
  rel_wf rel' /\ (forall b, block_page rel' b = block_page rel b) /\
  smgrnblocks rel' = Z.max (smgrnblocks rel) n /\ fork_exists rel' = true /\
  is_segment rel' = is_segment rel.
Proof.
  intros (Hp & Hc & Hn & He) Hle Hcache rel'.
  assert (Hlen : smgrnblocks rel' = Z.max (smgrnblocks rel) n).
  { unfold rel', fsm_extend, smgrnblocks, zlen. cbn [fork_blocks]. rewrite length_app, length_replicate. lia. }
  assert (Hpg : forall b, block_page rel' b = block_page rel b).
  { intros b. apply block_page_app. destruct (is_segment rel); tauto. }
  assert (Hex : fork_exists rel' = true).
  { unfold rel', fsm_extend. cbn [fork_exists]. destruct (fork_exists rel) eqn:E; cbn.
    - by rewrite andb_false_r.
    - rewrite Hcache. unfold smgrnblocks. by rewrite (He eq_refl). }
  split; [|done]. split; [by apply (pages_ok_ext _ rel)|].
  split; [|split; [lia|by rewrite Hex]].
  right. rewrite Hlen. unfold rel', fsm_extend. cbn [smgr_fsm_nblocks].
  pose proof (zlen_nonneg (fork_blocks rel)). unfold smgrnblocks. lia.
Qed.

Lemma rel_wf_cache rel : rel_wf rel -> rel_wf (with_cache rel (smgrnblocks rel)).
Proof.
  intros (Hp & _ & Hn & He). split; [done|]. split; [|done]. right.
  pose proof (zlen_nonneg (fork_blocks rel)). unfold smgrnblocks, with_cache. cbn. lia.
Qed.

(** [fsm_readbuf] changes no page; it returns the page's block unless the
    page is past the end of the fork and the caller did not ask to extend it. *)
Lemma readbuf_spec rel a extend :
  rel_wf rel -> valid_addr a ->
  exists rel' buf, fsm_readbuf rel a extend = Some (rel', buf) /\ rel_wf rel' /\
    (forall b, block_page rel' b = block_page rel b) /\ is_segment rel' = is_segment rel /\
    match buf with
    | Some b => b = fsm_logical_to_physical a /\ 0 <= b < smgrnblocks rel' /\
        zlookup (fork_blocks rel') b = Some (Some (block_page rel b)) /\
        fork_exists rel' = true /\
        (fsm_logical_to_physical a < smgrnblocks rel -> smgrnblocks rel' = smgrnblocks rel) /\
        (extend = false -> fsm_logical_to_physical a < smgrnblocks rel)
    | None => extend = false /\ smgrnblocks rel <= fsm_logical_to_physical a /\
        smgrnblocks rel' = smgrnblocks rel /\ fork_exists rel' = fork_exists rel
    end.
Proof.
  intros Hwf Ha. destruct (physical_spec a Ha) as [_ Hphys].
  unfold fsm_readbuf. set (blkno := fsm_logical_to_physical a) in *.
  set (rel1 := if (_ || _) then _ else rel).
  assert (H1 : rel_wf rel1 /\ (forall b, block_page rel1 b = block_page rel b) /\
    is_segment rel1 = is_segment rel /\ smgrnblocks rel1 = smgrnblocks rel /\
    fork_exists rel1 = fork_exists rel /\
    (blkno < smgr_fsm_nblocks rel1 -> blkno < smgrnblocks rel) /\
    (smgr_fsm_nblocks rel1 <= blkno -> smgr_fsm_nblocks rel1 = smgrnblocks rel1)).
  { unfold rel1. destruct Hwf as (Hp & Hc & Hn & He).
    pose proof (zlen_nonneg (fork_blocks rel)) as Hz. fold (smgrnblocks rel) in Hz.
    assert (Hr : (if fork_exists rel then smgrnblocks rel else 0) = smgrnblocks rel).
    { destruct (fork_exists rel); [done|]. unfold smgrnblocks. by rewrite (He eq_refl). }
    destruct (Z.eqb_spec (smgr_fsm_nblocks rel) InvalidBlockNumber); cbn [orb];
      [|destruct (Z.leb_spec (smgr_fsm_nblocks rel) blkno)];
      rewrite ?Hr; split_and!; try done; try (by apply rel_wf_cache);
      change (smgrnblocks (with_cache rel ?n)) with (smgrnblocks rel);
      cbn [with_cache smgr_fsm_nblocks]; lia.
  }
  destruct H1 as (Hwf1 & Hpg1 & Hseg1 & Hlen1 & Hex1 & Hlt1 & Hca1).
  assert (Hread : forall r, rel_wf r -> blkno < smgrnblocks r ->
    (forall b, block_page r b = block_page rel b) -> is_segment r = is_segment rel ->
    fork_exists r = true ->
    exists rel' buf,
      (b ← zlookup (fork_blocks r) blkno;
       match b with
       | None => rel' ← BufferSetPage r blkno PageInit; Some (rel', Some blkno)
       | Some _ => Some (r, Some blkno)
       end) = Some (rel', Some buf) /\ rel_wf rel' /\
      (forall b, block_page rel' b = block_page rel b) /\ is_segment rel' = is_segment rel /\
      buf = blkno /\ smgrnblocks rel' = smgrnblocks r /\ fork_exists rel' = true /\
      zlookup (fork_blocks rel') blkno = Some (Some (block_page rel blkno))).
  { intros r Hw Hb Hpg Hseg Hex.
    pose proof (zlookup_in (fork_blocks r) blkno ltac:(unfold smgrnblocks in Hb; lia)) as Hz.
    pose proof (Hpg blkno) as Hpb. unfold block_page at 1 in Hpb. rewrite Hz in Hpb |- *. sbind.
    destruct (znth (fork_blocks r) blkno) as [p|] eqn:Ep.
    - exists r, blkno. split_and!; try done. by rewrite Hz, Hpb.
    - destruct (BufferSetPage_spec r blkno PageInit ltac:(lia))
        as (r' & Hr' & Hpg' & Hl' & He' & Hc' & Hs' & Hz').
      rewrite Hr'. sbind. exists r', blkno. split; [done|].
      split; [eapply rel_wf_set; [exact Hw|apply PageInit_wf| |exact Hr']; lia|].
      split; [|split_and!; try congruence].
      intros b. rewrite Hpg'. destruct (Z.eqb_spec b blkno) as [->|]; [done|apply Hpg]. }
  cbv zeta. destruct (Z.leb_spec (smgr_fsm_nblocks rel1) blkno) as [Hbeyond|Hin].
  - specialize (Hca1 Hbeyond). destruct extend.
    + rewrite (uN_small 32) by (unfold in_u; lia).
      destruct (extend_spec rel1 (blkno + 1) Hwf1 ltac:(unfold InvalidBlockNumber; lia) Hca1)
        as (Hw2 & Hpg2 & Hl2 & He2 & Hs2).
      destruct (Hread (fsm_extend rel1 (blkno + 1))) as (rel' & b & -> & Hw & Hpg & Hs & -> & Hl & He & Hz);
        [done|lia|intros; by rewrite Hpg2|congruence|done|].
      exists rel', (Some blkno). split_and!; try done; try lia.
    + exists rel1, None. split_and!; try done; lia.
  - specialize (Hlt1 Hin).
    assert (Hext : fork_exists rel1 = true).
    { destruct Hwf1 as (_ & _ & _ & He). destruct (fork_exists rel1); [done|].
      rewrite <- Hlen1 in Hlt1. unfold smgrnblocks in Hlt1. rewrite (He eq_refl) in Hlt1.
      unfold zlen in Hlt1. simpl in Hlt1. lia. }
    destruct (Hread rel1) as (rel' & b & -> & Hw & Hpg & Hs & -> & Hl & He & Hz);
      [done|lia|done|done|done|].
    exists rel', (Some blkno). split_and!; try done; lia.
Qed.
End ForkFacts.

(** ** The operations on one page *)

Section OperationFacts.
Context {bs : BlockSize}.

(** Nothing changes outside the page at [a]. *)
Definition only_page (a : FSMAddress) (rel rel' : Relation) : Prop :=
  is_segment rel' = is_segment rel /\
  forall b, b <> fsm_logical_to_physical a -> block_page rel' b = block_page rel b.

Lemma only_page_other a b rel rel' s :
  only_page a rel rel' -> valid_addr a -> valid_addr b -> a <> b -> cat_at rel' b s = cat_at rel b s.
Proof.
  intros [_ Ho] Ha Hb Hne. unfold cat_at. rewrite Ho; [done|].
  intros E. by apply Hne, physical_inj.
Qed.

(** Storing a page in a block that [fsm_readbuf] returned. *)
Lemma store_spec rel a p :
  rel_wf rel -> page_wf p -> 0 <= fsm_logical_to_physical a < smgrnblocks rel ->
  exists rel', BufferSetPage rel (fsm_logical_to_physical a) p = Some rel' /\ rel_wf rel' /\
    only_page a rel rel' /\ block_page rel' (fsm_logical_to_physical a) = p /\
    smgrnblocks rel' = smgrnblocks rel /\ fork_exists rel' = fork_exists rel /\
    (rel_consistent rel -> consistent (fp_nodes p) -> rel_consistent rel').
Proof.
  intros Hwf Hp Hb. destruct (BufferSetPage_spec rel _ p Hb) as (rel' & Hr & Hpg & Hl & He & _ & Hs & _).
  exists rel'. split; [done|]. split; [by eapply rel_wf_set|].
  split; [split; [done|]; intros b Hne; rewrite Hpg; by apply Z.eqb_neq in Hne as ->|].
  split; [by rewrite Hpg, Z.eqb_refl|]. split_and!; [done|done|].
  intros Hc Hcp b. rewrite Hpg. destruct (b =? _); [done|apply Hc].
Qed.

(** [fsm_set_and_search] stores the value at the slot of the page, creating
    the page if needed, and changes no other slot and no other page. *)
Lemma set_and_search_spec rel a slot v mn search :
  rel_wf rel -> valid_addr a -> 0 <= slot < SlotsPerFSMPage -> in_u 8 v -> in_u 8 mn ->
  exists rel' ns, fsm_set_and_search rel a slot v mn search = Some (rel', ns) /\ rel_wf rel' /\
    only_page a rel rel' /\ fork_exists rel' = true /\
    fsm_logical_to_physical a < smgrnblocks rel' /\
    (forall s, 0 <= s < SlotsPerFSMPage ->
       cat_at rel' a s = if s =? slot then v else cat_at rel a s) /\
    (ns = -1 \/ (0 <= ns < SlotsPerFSMPage /\ mn <= cat_at rel' a ns)) /\
    (rel_consistent rel -> rel_consistent rel') /\
    (fsm_logical_to_physical a < smgrnblocks rel -> smgrnblocks rel' = smgrnblocks rel).
Proof.
  intros Hwf Ha Hs Hv Hmn. unfold fsm_set_and_search, SlotsPerFSMPage in *.
  destruct (readbuf_spec rel a true Hwf Ha) as (r1 & [b|] & -> & Hw1 & Hpg1 & Hsg1 & Hb); [|by destruct Hb].
  destruct Hb as (-> & Hlt & Hz & Hex & Hsame & Hnoext). sbind. rewrite (BufferGetPage_Some _ _ Hlt), Hpg1. sbind.
  destruct (set_avail_spec _ slot v (proj1 Hwf (fsm_logical_to_physical a)) Hs Hv)
    as (p1 & ch & -> & Hp1 & Hsl & Hot & _ & _ & _ & Hcs). sbind.
  set (p2 := if negb (mn =? 0) && search then _ else _).
  assert (H2 : exists pg ns, p2 = (rel ← BufferSetPage r1 (fsm_logical_to_physical a) pg; Some (rel, ns)) /\
     page_wf pg /\ (forall s, 0 <= s -> slot_avail pg s = slot_avail p1 s) /\
     (ns = -1 \/ (0 <= ns < LeafNodesPerPage /\ mn <= slot_avail pg ns)) /\
     (consistent (fp_nodes p1) -> consistent (fp_nodes pg))).
  { unfold p2. destruct (negb (mn =? 0) && search).
    - destruct (search_avail_spec p1 mn (level a =? FSM_BOTTOM_LEVEL) Hp1 Hmn)
        as (pg & ns & -> & Hpg & Hsl' & Hc' & Hres). sbind. exists pg, ns.
      split; [done|]. split; [done|]. split; [done|]. split.
      + destruct Hres as [[-> _]|(Hn & Hm & _)]; [by left|right]. split; [done|]. by rewrite Hsl' by lia.
      + intros Hc. by rewrite Hc'.
    - exists p1, (-1). split_and!; auto. }
  destruct H2 as (pg & ns & -> & Hpg & Hsl2 & Hns & Hc2).
  destruct (store_spec r1 a pg Hw1 Hpg Hlt) as (r2 & -> & Hw2 & Ho & Hb2 & Hl2 & He2 & Hcr). sbind.
  exists r2, ns. split; [done|]. split; [done|].
  assert (Hca : forall s, 0 <= s -> cat_at r2 a s = slot_avail pg s) by (intros; unfold cat_at; by rewrite Hb2).
  split; [|split_and!].
  - destruct Ho as [Hs2 Ho]. split; [congruence|]. intros b Hb. by rewrite Ho, Hpg1.
  - congruence.
  - lia.
  - intros s Hs'. rewrite Hca, Hsl2 by lia. destruct (Z.eqb_spec s slot) as [->|]; [done|].
    rewrite Hot by lia. done.
  - destruct Hns as [|[Hn Hm]]; [by left|right]. split; [done|]. by rewrite Hca by lia.
  - intros Hc. apply Hcr; [by apply (pages_ok_ext _ rel)|]. apply Hc2, Hcs, Hc.
  - intros Hin. rewrite Hl2. auto.
Qed.

(** [search_page] changes no slot of any page. *)
Definition same_cats (rel rel' : Relation) : Prop :=
  is_segment rel' = is_segment rel /\
  forall b s, 0 <= s -> slot_avail (block_page rel' b) s = slot_avail (block_page rel b) s.

Lemma search_page_spec rel a mn :
  rel_wf rel -> valid_addr a -> 1 <= mn < 256 ->
  exists rel' slot m, search_page rel a mn = Some (rel', slot, m) /\ rel_wf rel' /\
    same_cats rel rel' /\ in_u 8 m /\ smgrnblocks rel' = smgrnblocks rel /\
    ((slot = -1 /\ m < mn /\ m = znth (fp_nodes (block_page rel' (fsm_logical_to_physical a))) 0) \/
     (0 <= slot < SlotsPerFSMPage /\ mn <= cat_at rel a slot)) /\
    (rel_consistent rel ->
      forall b, fp_nodes (block_page rel' b) = fp_nodes (block_page rel b)).
Proof.
  intros Hwf Ha Hmn. unfold search_page, SlotsPerFSMPage.
  destruct (readbuf_spec rel a false Hwf Ha) as (r1 & [b|] & -> & Hw1 & Hpg1 & Hsg1 & Hb); sbind.
  2: { destruct Hb as (_ & Hge & Hl & He). exists r1, (-1), 0. split; [done|]. split; [done|].
    split; [split; [done|]; intros; by rewrite Hpg1|]. split; [unfold in_u; lia|]. split; [done|].
    split; [|intros _ b; by rewrite Hpg1].
    left. split; [done|]. split; [lia|]. rewrite Hpg1. unfold block_page.
    destruct (zlookup _ _) eqn:E; [|by rewrite PageInit_root].
    apply zlookup_Some in E as [E _]. unfold smgrnblocks in Hge. lia. }
  destruct Hb as (-> & Hlt & Hz & Hex & Hsame & Hnoext). rewrite (BufferGetPage_Some _ _ Hlt), Hpg1. sbind.
  set (p := block_page rel (fsm_logical_to_physical a)) in *.
  destruct (search_avail_spec p mn (level a =? FSM_BOTTOM_LEVEL) (proj1 Hwf _) ltac:(unfold in_u; lia))
    as (pg & ns & -> & Hpg & Hsl & Hc & Hres). sbind.
  assert (Hroot : in_u 8 (znth (fp_nodes pg) 0)) by (apply Hpg; pose proof geometry; lia).
  set (ma := if ns =? -1 then _ else _).
  assert (Hma : ma = Some (if ns =? -1 then znth (fp_nodes pg) 0 else 0)).
  { unfold ma, fsm_get_max_avail. destruct (ns =? -1); [|done]. pose proof Hpg as [Hl _].
    pose proof geometry. by rewrite zlookup_in by lia. }
  rewrite Hma. sbind. clear Hma ma.
  destruct (store_spec r1 a pg Hw1 Hpg Hlt) as (r2 & -> & Hw2 & [Hs2 Ho] & Hb2 & Hl2 & He2 & _). sbind.
  eexists r2, ns, _. split; [done|]. split; [done|].
  split; [split; [congruence|]|].
  - intros b s Hs. destruct (decide (b = fsm_logical_to_physical a)) as [->|Hne].
    + rewrite Hb2. by apply Hsl.
    + by rewrite Ho, Hpg1.
  - split; [destruct (ns =? -1); [done|unfold in_u; lia]|]. split; [rewrite Hl2; auto|]. split.
    + destruct Hres as [(-> & _ & Hr)|(Hn & Hm & _)]; [left|right; done].
      split; [done|]. rewrite Z.eqb_refl, Hb2. lia.
    + intros Hcons b. destruct (decide (b = fsm_logical_to_physical a)) as [->|Hne].
      * rewrite Hb2. by apply Hc, Hcons.
      * by rewrite Ho, Hpg1.
Qed.
End OperationFacts.

(** ** The search *)

Section SearchFacts.
Context {bs : BlockSize}.

(** The abstract content of the map: the category recorded for a heap block. *)
Definition recorded (rel : Relation) (b : Z) : Z :=
  let '(a, s) := fsm_get_location b in cat_at rel a s.

Definition leaf_cat (rel : Relation) (q s : Z) : Z := cat_at rel (mkAddr FSM_BOTTOM_LEVEL q) s.

Definition leaf_slot (q s : Z) : Prop := 0 <= q < leaf_pages /\ 0 <= s < SlotsPerFSMPage.

(** No slot past the last possible heap block carries space. *)
Definition no_space_beyond (rel : Relation) : Prop :=
  forall q s, leaf_slot q s -> InvalidBlockNumber <= q * SlotsPerFSMPage + s -> leaf_cat rel q s = 0.

Definition fsm_wf (rel : Relation) : Prop := rel_wf rel /\ no_space_beyond rel.

(** The leaves are the same. *)
Definition same_leaves (rel rel' : Relation) : Prop :=
  is_segment rel' = is_segment rel /\
  forall q s, leaf_slot q s -> leaf_cat rel' q s = leaf_cat rel q s.

Lemma valid_leaf q : 0 <= q < leaf_pages <-> valid_addr (mkAddr 0 q).
Proof.
  pose proof depth_pos. unfold valid_addr, leaf_pages. cbn [level logpageno]. rewrite Z.sub_0_r.
  split; [intros; split; [lia|done]|intros [_ ?]; done].
Qed.

Lemma valid_root : valid_addr g_fsm_root_address.
Proof.
  pose proof depth_pos. unfold valid_addr, g_fsm_root_address. cbn [level logpageno].
  rewrite Z.sub_diag. simpl. lia.
Qed.

Lemma same_leaves_refl rel : same_leaves rel rel.
Proof. split; [done|]. done. Qed.

Lemma same_leaves_trans r1 r2 r3 : same_leaves r1 r2 -> same_leaves r2 r3 -> same_leaves r1 r3.
Proof. intros [Hs1 H1] [Hs2 H2]. split; [congruence|]. intros q s Hq. by rewrite H2, H1. Qed.

Lemma same_cats_leaves r1 r2 : same_cats r1 r2 -> same_leaves r1 r2.
Proof. intros [Hs H]. split; [done|]. intros q s [_ Hs']. apply H. lia. Qed.

Lemma only_upper_leaves a r1 r2 :
  only_page a r1 r2 -> valid_addr a -> 0 < level a -> same_leaves r1 r2.
Proof.
  intros Ho Ha Hl. split; [apply Ho|]. intros q s [Hq _].
  apply (only_page_other a); [done|done|by apply valid_leaf|]. intros ->. cbn [level] in Hl. done.
Qed.

Lemma no_space_same rel rel' : same_leaves rel rel' -> no_space_beyond rel -> no_space_beyond rel'.
Proof. intros [_ H] Hn q s Hq Hb. rewrite H by done. by apply Hn. Qed.

Lemma recorded_leaf rel b :
  0 <= b < leaf_pages * SlotsPerFSMPage -> b < 2 ^ 32 ->
  recorded rel b = leaf_cat rel (b / SlotsPerFSMPage) (b mod SlotsPerFSMPage) /\
  leaf_slot (b / SlotsPerFSMPage) (b mod SlotsPerFSMPage).
Proof.
  intros Hb Hb32. destruct (get_location_spec b Hb Hb32) as (E & Hv & Hm).
  unfold recorded. rewrite E. split; [done|]. split; [by apply valid_leaf|done].
Qed.

Lemma same_leaves_recorded rel rel' b :
  same_leaves rel rel' -> 0 <= b < leaf_pages * SlotsPerFSMPage -> b < 2 ^ 32 ->
  recorded rel' b = recorded rel b.
Proof.
  intros [_ H] Hb Hb32. destruct (recorded_leaf rel b Hb Hb32) as [-> Hq].
  destruct (recorded_leaf rel' b Hb Hb32) as [-> _]. by apply H.
Qed.

(** A slot of a leaf page is the slot of the heap block [q * S + s]. *)
Lemma recorded_slot rel q s :
  leaf_slot q s -> q * SlotsPerFSMPage + s < 2 ^ 32 ->
  0 <= q * SlotsPerFSMPage + s < leaf_pages * SlotsPerFSMPage /\
  recorded rel (q * SlotsPerFSMPage + s) = leaf_cat rel q s.
Proof.
  intros [Hq Hs] Hlt. assert (Hb : 0 <= q * SlotsPerFSMPage + s < leaf_pages * SlotsPerFSMPage) by nia.
  split; [done|]. destruct (recorded_leaf rel _ Hb Hlt) as [-> _].
  assert (Hm : (q * SlotsPerFSMPage + s) mod SlotsPerFSMPage = s)
    by (rewrite Z.add_comm, Z.mod_add, Z.mod_small; lia).
  rewrite Hm, Z.div_add_l, (Z.div_small s) by lia. by rewrite Z.add_0_r.
Qed.

(** What a search promises about its result. *)
Definition search_result (rel : Relation) (mn b : Z) : Prop :=
  b = InvalidBlockNumber \/
  exists q s, leaf_slot q s /\ b = u32 (q * SlotsPerFSMPage + s) /\ mn <= leaf_cat rel q s.

Lemma search_result_recorded rel mn b :
  fsm_wf rel -> 1 <= mn -> search_result rel mn b -> b <> InvalidBlockNumber ->
  0 <= b < leaf_pages * SlotsPerFSMPage /\ b < InvalidBlockNumber /\ mn <= recorded rel b.
Proof.
  intros [_ Hn] Hmn [->|(q & s & Hq & -> & Hc)] Hne; [done|].
  destruct (Z_lt_ge_dec (q * SlotsPerFSMPage + s) InvalidBlockNumber) as [Hlt|Hge].
  - unfold InvalidBlockNumber in *. assert (Hlt' : q * SlotsPerFSMPage + s < 2 ^ 32) by lia.
    destruct (recorded_slot rel q s Hq Hlt') as [Hb Hr].
    rewrite uN_small by (unfold in_u; lia). rewrite Hr. lia.
  - rewrite Hn in Hc by (done || lia). lia.
Qed.

Lemma get_heap_blk_spec q s :
  leaf_slot q s ->
  fsm_get_heap_blk (mkAddr FSM_BOTTOM_LEVEL q) (u16 s) = u32 (q * SlotsPerFSMPage + s).
Proof.
  intros [Hq Hs]. pose proof SlotsPerFSMPage_range. pose proof tree_geometry as [_ Hg].
  unfold fsm_get_heap_blk. cbn [logpageno]. rewrite (uN_small 16), (uN_small 32 q) by (unfold in_u; lia).
  done.
Qed.

(** The search loop returns: [restarts] is bounded and between two restarts
    the level decreases. *)
Lemma search_loop_spec fuel rel a mn restarts :
  rel_wf rel -> valid_addr a -> 1 <= mn < 256 -> 0 <= restarts <= 10001 ->
  (10002 - restarts) * FSM_TREE_DEPTH + level a + 1 <= Z.of_nat fuel ->
  exists rel' b, search_loop fuel rel a mn restarts = Some (rel', b) /\ rel_wf rel' /\
    same_leaves rel rel' /\ search_result rel' mn b /\ (rel_consistent rel -> rel_consistent rel').
Proof.
  revert rel a restarts. induction fuel as [|fuel IH]; intros rel a restarts Hwf Ha Hmn Hr Hf.
  { destruct Ha as [? _]. pose proof depth_pos. nia. }
  cbn [search_loop]. pose proof depth_pos as [Hd HR].
  destruct (search_page_spec rel a mn Hwf Ha Hmn)
    as (r1 & slot & m & -> & Hw1 & Hcats & Hm & Hl1 & Hres & Hc1). sbind.
  assert (Hcons1 : rel_consistent rel -> rel_consistent r1).
  { intros Hc b. rewrite (Hc1 Hc). apply Hc. }
  destruct Hres as [(-> & Hlt & _)|[Hs Hge]].
  - change (negb (-1 =? -1)) with false. cbv iota.
    destruct (Z.eqb_spec (level a) FSM_ROOT_LEVEL) as [Hroot|Hnroot].
    { exists r1, InvalidBlockNumber. split_and!; try done; [by apply same_cats_leaves|by left]. }
    destruct (get_parent_spec a Ha ltac:(destruct Ha; lia)) as (-> & Hvp & Hps).
    destruct (set_and_search_spec r1 _ _ m 0 true Hw1 Hvp Hps Hm ltac:(unfold in_u; lia))
      as (r2 & ns & -> & Hw2 & Ho & _ & _ & _ & _ & Hc2 & _). sbind.
    assert (Hsl : same_leaves rel r2).
    { eapply same_leaves_trans; [by apply same_cats_leaves|].
      eapply only_upper_leaves; [exact Ho|done|]. cbn [level]. destruct Ha. lia. }
    destruct (Z.ltb_spec 10000 restarts).
    { exists r2, InvalidBlockNumber. split_and!; try done; [by left|]. auto. }
    destruct (IH r2 g_fsm_root_address (restarts + 1)) as (r3 & b & -> & Hw3 & Hs3 & Hb & Hc3);
      [done|apply valid_root|done|lia| |].
    { cbn [level g_fsm_root_address]. destruct Ha. lia. }
    exists r3, b. split_and!; try done; [by eapply same_leaves_trans|]. auto.
  - destruct (Z.eqb_spec slot (-1)); [lia|]. cbn [negb].
    destruct (Z.eqb_spec (level a) FSM_BOTTOM_LEVEL) as [Hbot|Hnbot].
    + eexists r1, _. split; [done|]. split; [done|]. split; [by apply same_cats_leaves|]. split; [|done].
      right. destruct a as [l q]. cbn [level] in Hbot. subst l. exists q, slot.
      assert (Hq : leaf_slot q slot) by (split; [by apply valid_leaf|done]).
      split; [done|]. split; [by apply get_heap_blk_spec|].
      apply same_cats_leaves in Hcats as [_ Hcats]. by rewrite Hcats.
    + assert (Hl : 0 < level a) by (destruct Ha; unfold FSM_BOTTOM_LEVEL in *; lia).
      destruct (get_child_spec a slot Ha Hl Hs) as [Ech Hvc].
      destruct (IH r1 (fsm_get_child a (u16 slot)) restarts) as (r3 & b & -> & Hw3 & Hs3 & Hb & Hc3);
        [done|done|done|lia| |].
      { rewrite Ech. cbn [level]. lia. }
      exists r3, b. split_and!; try done; [|by auto].
      eapply same_leaves_trans; [by apply same_cats_leaves|done].
Qed.

Lemma fsm_search_spec rel mn :
  rel_wf rel -> 1 <= mn < 256 ->
  exists rel' b, fsm_search rel mn = Some (rel', b) /\ rel_wf rel' /\
    same_leaves rel rel' /\ search_result rel' mn b /\ (rel_consistent rel -> rel_consistent rel').
Proof.
  intros Hwf Hmn. apply search_loop_spec; [done|apply valid_root|done|lia|].
  unfold search_fuel. pose proof depth_pos. cbn [level g_fsm_root_address]. lia.
Qed.

(** *** Completeness of the search in an exact map *)

Definition page_root (rel : Relation) (a : FSMAddress) : Z :=
  znth (fp_nodes (block_page rel (fsm_logical_to_physical a))) 0.

Definition child_of (a : FSMAddress) (s : Z) : FSMAddress :=
  mkAddr (level a - 1) (logpageno a * SlotsPerFSMPage + s).

Lemma child_of_parent a :
  child_of (mkAddr (level a + 1) (logpageno a / SlotsPerFSMPage))
    (logpageno a mod SlotsPerFSMPage) = a.
Proof.
  pose proof SlotsPerFSMPage_range. destruct a as [l q]. unfold child_of. cbn [level logpageno].
  f_equal; [lia|]. pose proof (Z.div_mod q SlotsPerFSMPage). lia.
Qed.

(** Every slot of an upper page is the root of the page it stands for. *)
Definition upper_exact (rel : Relation) : Prop :=
  forall a s, valid_addr a -> 0 < level a -> 0 <= s < SlotsPerFSMPage ->
  cat_at rel a s = page_root rel (child_of a s).

Lemma slot_le_root rel a s :
  rel_consistent rel -> 0 <= s < SlotsPerFSMPage -> cat_at rel a s <= page_root rel a.
Proof.
  intros Hc Hs. unfold cat_at, page_root, slot_avail. apply root_bounds_node; [apply Hc|].
  pose proof geometry. unfold SlotsPerFSMPage, LeafNodesPerPage in *. lia.
Qed.

Lemma root_le_root rel a :
  rel_consistent rel -> upper_exact rel -> valid_addr a ->
  page_root rel a <= page_root rel g_fsm_root_address.
Proof.
  intros Hc He Ha. remember (Z.to_nat (FSM_ROOT_LEVEL - level a)) as n eqn:Hn.
  revert a Ha Hn. induction n as [|n IH]; intros a Ha Hn.
  - destruct a as [l q]. destruct Ha as [Hl Hq]. cbn [level logpageno] in *.
    assert (l = FSM_ROOT_LEVEL) as -> by lia. rewrite Z.sub_diag in Hq.
    assert (q = 0) as -> by (simpl in Hq; lia). done.
  - assert (Hlt : level a < FSM_ROOT_LEVEL) by lia.
    destruct (get_parent_spec a Ha Hlt) as (_ & Hvp & Hps).
    set (p := mkAddr (level a + 1) (logpageno a / SlotsPerFSMPage)) in *.
    transitivity (page_root rel p); [|apply IH; [done|cbn [level p]; lia]].
    assert (Ea : child_of p (logpageno a mod SlotsPerFSMPage) = a) by (by apply child_of_parent).
    rewrite <- Ea at 1. rewrite <- He; [by apply slot_le_root|done| |done].
    cbn [level p]. destruct Ha. lia.
Qed.

Lemma exact_ext rel rel' :
  (forall b, fp_nodes (block_page rel' b) = fp_nodes (block_page rel b)) ->
  upper_exact rel -> upper_exact rel'.
Proof. intros E He a s ???. unfold cat_at, page_root, slot_avail. rewrite !E. by apply He. Qed.

Lemma search_loop_exact fuel rel a mn restarts rel' b :
  rel_wf rel -> rel_consistent rel -> upper_exact rel -> valid_addr a -> 1 <= mn < 256 ->
  mn <= page_root rel a -> search_loop fuel rel a mn restarts = Some (rel', b) ->
  exists q s, leaf_slot q s /\ b = u32 (q * SlotsPerFSMPage + s) /\ mn <= leaf_cat rel q s.
Proof.
  revert rel a. induction fuel as [|fuel IH]; intros rel a Hwf Hc He Ha Hmn Hge; [done|].
  cbn [search_loop].
  destruct (search_page_spec rel a mn Hwf Ha Hmn)
    as (r1 & slot & m & -> & Hw1 & Hcats & Hm & Hl1 & Hres & Hc1). sbind. specialize (Hc1 Hc).
  destruct Hres as [(-> & Hlt & Hm')|[Hs Hslot]].
  { exfalso. unfold page_root in Hge. rewrite Hc1 in Hm'. lia. }
  destruct (Z.eqb_spec slot (-1)); [lia|]. cbn [negb].
  destruct (Z.eqb_spec (level a) FSM_BOTTOM_LEVEL) as [Hbot|Hnbot].
  - intros [= <- <-]. destruct a as [l q]. cbn [level] in Hbot. subst l.
    assert (Hq : leaf_slot q slot) by (split; [by apply valid_leaf|done]).
    exists q, slot. split; [done|]. split; [by apply get_heap_blk_spec|done].
  - assert (Hl : 0 < level a) by (destruct Ha; unfold FSM_BOTTOM_LEVEL in *; lia).
    destruct (get_child_spec a slot Ha Hl Hs) as [Ech Hvc]. intros Hrun.
    assert (Hc' : rel_consistent r1) by (intros x; rewrite Hc1; apply Hc).
    assert (Hch : mn <= page_root r1 (fsm_get_child a (u16 slot))).
    { unfold page_root. rewrite Hc1. fold (page_root rel (fsm_get_child a (u16 slot))).
      rewrite Ech. fold (child_of a slot). rewrite <- He by done. done. }
    destruct (IH r1 _ Hw1 Hc' (exact_ext _ _ Hc1 He) Hvc Hmn Hch Hrun) as (q & s & Hq & Hb & Hv).
    exists q, s. split; [done|]. split; [done|].
    destruct (same_cats_leaves _ _ Hcats) as [_ Hsame]. by rewrite <- Hsame.
Qed.
End SearchFacts.

(** ** Vacuum *)

Section VacuumFacts.
Context {bs : BlockSize}.

(** The pages of the subtree of an address. *)
Inductive below (b : FSMAddress) : FSMAddress -> Prop :=
  | below_refl : below b b
  | below_step a s :
      0 < level a -> 0 <= s < SlotsPerFSMPage -> below b (child_of a s) -> below b a.

Definition exact_at (rel : Relation) (b : FSMAddress) : Prop :=
  forall s, 0 <= s < SlotsPerFSMPage -> cat_at rel b s = page_root rel (child_of b s).

Definition exact_below (rel : Relation) (a : FSMAddress) : Prop :=
  forall b, below b a -> 0 < level b -> exact_at rel b.

Definition subtree_size (a : FSMAddress) : Z := subtree_pages (Z.to_nat (level a)).

Lemma subtree_pages_pos n : 1 <= subtree_pages n.
Proof. pose proof SlotsPerFSMPage_range. induction n; cbn [subtree_pages]; nia. Qed.

Lemma child_facts a s :
  valid_addr a -> 0 < level a -> 0 <= s < SlotsPerFSMPage ->
  valid_addr (child_of a s) /\ fsm_get_child a (u16 s) = child_of a s /\
  fsm_logical_to_physical (child_of a s) =
    fsm_logical_to_physical a + 1 + s * subtree_size (child_of a s) /\
  subtree_size a = 1 + SlotsPerFSMPage * subtree_size (child_of a s).
Proof.
  intros Ha Hl Hs. destruct (get_child_spec a s Ha Hl Hs) as [E Hv].
  destruct (physical_child a s Ha Hl Hs) as [Hc Hp].
  split; [done|]. split; [done|]. split; [done|].
  unfold subtree_size, child_of. cbn [level].
  replace (Z.to_nat (level a)) with (S (Z.to_nat (level a - 1))) by lia. done.
Qed.

Lemma below_interval b a :
  below b a -> valid_addr a ->
  valid_addr b /\ fsm_logical_to_physical a <= fsm_logical_to_physical b /\
  fsm_logical_to_physical b + subtree_size b <= fsm_logical_to_physical a + subtree_size a.
Proof.
  induction 1 as [|a s Hl Hs Hb IH]; intros Ha; [split; [done|lia]|].
  destruct (child_facts a s Ha Hl Hs) as (Hv & _ & Hp & Hsz).
  destruct (IH Hv) as (? & ? & ?). split; [done|].
  pose proof (subtree_pages_pos (Z.to_nat (level (child_of a s)))) as Hz.
  fold (subtree_size (child_of a s)) in Hz. set (z := subtree_size (child_of a s)) in *.
  assert (0 <= s * z) by nia. assert (s * z + z <= SlotsPerFSMPage * z) by nia. lia.
Qed.

Lemma below_child b a t :
  below b a -> 0 < level b -> 0 <= t < SlotsPerFSMPage -> below (child_of b t) a.
Proof.
  intros Hb Hl Ht. induction Hb as [|a s Hla Hs Hb IH].
  - apply (below_step _ b t); [done|done|constructor].
  - by apply (below_step _ a s).
Qed.

Lemma below_root b : valid_addr b -> below b g_fsm_root_address.
Proof.
  intros Hb. remember (Z.to_nat (FSM_ROOT_LEVEL - level b)) as n eqn:Hn.
  revert b Hb Hn. induction n as [|n IH]; intros b Hb Hn.
  - destruct b as [l q]. destruct Hb as [Hl Hq]. cbn [level logpageno] in *.
    assert (l = FSM_ROOT_LEVEL) as -> by lia. rewrite Z.sub_diag in Hq.
    assert (q = 0) as -> by (simpl in Hq; lia). constructor.
  - assert (Hlt : level b < FSM_ROOT_LEVEL) by lia.
    destruct (get_parent_spec b Hb Hlt) as (_ & Hvp & Hps).
    set (p := mkAddr (level b + 1) (logpageno b / SlotsPerFSMPage)) in *.
    assert (Eb : child_of p (logpageno b mod SlotsPerFSMPage) = b) by (by apply child_of_parent).
    rewrite <- Eb. destruct Hb. apply below_child; [|cbn [level p]; lia|done].
    apply IH; [done|cbn [level p]; lia].
Qed.

Lemma block_page_absent rel b : smgrnblocks rel <= b -> block_page rel b = PageInit.
Proof.
  intros Hb. unfold block_page. destruct (zlookup _ _) eqn:E; [|done].
  apply zlookup_Some in E as [E _]. unfold smgrnblocks in Hb. lia.
Qed.

Lemma absent_exact rel a :
  valid_addr a -> smgrnblocks rel <= fsm_logical_to_physical a -> exact_below rel a.
Proof.
  intros Ha Hle b Hb Hl s Hs. destruct (below_interval b a Hb Ha) as (Hv & Hge & _).
  destruct (child_facts b s Hv Hl Hs) as (_ & _ & Hp & _).
  pose proof (subtree_pages_pos (Z.to_nat (level (child_of b s)))) as Hsz.
  fold (subtree_size (child_of b s)) in Hsz.
  assert (0 <= s * subtree_size (child_of b s)) by nia.
  unfold cat_at, page_root. rewrite !block_page_absent by lia.
  rewrite PageInit_root. apply PageInit_slot. done.
Qed.

(** The pages outside a range of blocks keep their nodes. *)
Definition keeps_nodes (P : Z -> Prop) (rel rel' : Relation) : Prop :=
  forall b, P b -> fp_nodes (block_page rel' b) = fp_nodes (block_page rel b).

Lemma exact_below_keep rel rel' a :
  valid_addr a ->
  keeps_nodes (fun b => fsm_logical_to_physical a <= b < fsm_logical_to_physical a + subtree_size a)
    rel rel' ->
  exact_below rel a -> exact_below rel' a.
Proof.
  intros Ha Hk He b Hb Hl s Hs. specialize (He b Hb Hl s Hs).
  pose proof (below_child b a s Hb Hl Hs) as Hc.
  destruct (below_interval _ _ Hb Ha) as (_ & ? & ?).
  destruct (below_interval _ _ Hc Ha) as (_ & ? & ?).
  pose proof (subtree_pages_pos (Z.to_nat (level b))).
  pose proof (subtree_pages_pos (Z.to_nat (level (child_of b s)))).
  unfold cat_at, page_root, slot_avail, subtree_size in *.
  rewrite !Hk by lia. done.
Qed.

(** What vacuuming the subtree of [a] achieves. *)
Definition vacuum_post (a : FSMAddress) (rel rel' : Relation) (m : Z) (eof : bool) : Prop :=
  rel_wf rel' /\ smgrnblocks rel' = smgrnblocks rel /\ same_leaves rel rel' /\
  m = page_root rel' a /\ (eof = true -> smgrnblocks rel <= fsm_logical_to_physical a) /\
  keeps_nodes (fun b => ~ (fsm_logical_to_physical a <= b < fsm_logical_to_physical a + subtree_size a))
    rel rel' /\
  (rel_consistent rel -> rel_consistent rel') /\ exact_below rel' a.

(** The state in the middle of the loop over the slots of the page [a]: the
    slots from [slot] on are exact, the rest of the tree is as it was. *)
Definition slots_post (a : FSMAddress) (slot : Z) (rel rel' : Relation) : Prop :=
  rel_wf rel' /\ smgrnblocks rel' = smgrnblocks rel /\ same_leaves rel rel' /\
  (forall t, 0 <= t < slot -> cat_at rel' a t = cat_at rel a t) /\
  (forall t, slot <= t < SlotsPerFSMPage ->
     cat_at rel' a t = page_root rel' (child_of a t) /\ exact_below rel' (child_of a t)) /\
  keeps_nodes (fun b => b <> fsm_logical_to_physical a /\
    ~ (fsm_logical_to_physical a + 1 + slot * subtree_pages (Z.to_nat (level a - 1)) <= b <
       fsm_logical_to_physical a + subtree_size a)) rel rel' /\
  (rel_consistent rel -> rel_consistent rel').

Lemma page_root_range rel a : rel_wf rel -> in_u 8 (page_root rel a).
Proof. intros [Hp _]. apply Hp. pose proof geometry. lia. Qed.

(** Correcting the slot of a child in its parent. *)
Lemma fix_slot_spec rel a t v :
  rel_wf rel -> valid_addr a -> 0 < level a -> 0 <= t < SlotsPerFSMPage -> in_u 8 v ->
  fsm_logical_to_physical a < smgrnblocks rel ->
  exists page old rel',
    BufferGetPage rel (fsm_logical_to_physical a) = Some page /\
    fsm_get_avail page t = Some old /\
    (if old =? v then Some rel
     else '(page, _) ← fsm_set_avail page t (u8 v);
          BufferSetPage rel (fsm_logical_to_physical a) page) = Some rel' /\
    rel_wf rel' /\ only_page a rel rel' /\ smgrnblocks rel' = smgrnblocks rel /\
    (forall s, 0 <= s < SlotsPerFSMPage -> cat_at rel' a s = if s =? t then v else cat_at rel a s) /\
    (rel_consistent rel -> rel_consistent rel').
Proof.
  intros Hwf Ha Hl Ht Hv Hin. destruct (physical_spec a Ha) as [_ Hphys].
  pose proof (proj1 Hwf (fsm_logical_to_physical a)) as Hpw. pose proof geometry as Hgeo.
  unfold SlotsPerFSMPage in *.
  exists (block_page rel (fsm_logical_to_physical a)), (cat_at rel a t).
  assert (Hold : fsm_get_avail (block_page rel (fsm_logical_to_physical a)) t = Some (cat_at rel a t)).
  { unfold fsm_get_avail. destruct Hpw as [Hlen _]. by rewrite zlookup_in by lia. }
  rewrite BufferGetPage_Some by lia. rewrite uN_small by done.
  destruct (Z.eqb_spec (cat_at rel a t) v) as [Heq|Hne].
  - exists rel. split_and!; try done. intros s Hs. destruct (Z.eqb_spec s t) as [->|]; done.
  - destruct (set_avail_spec _ t v Hpw Ht Hv) as (p' & ch & -> & Hp' & Hsl & Hot & _ & _ & _ & Hcs). sbind.
    destruct (store_spec rel a p' Hwf Hp') as (r' & -> & Hw' & Ho & Hb & Hlen & _ & Hc); [lia|].
    exists r'. split_and!; try done; [|intros Hrc; apply Hc; [done|apply Hcs, Hrc]].
    intros s Hs. unfold cat_at at 1. rewrite Hb.
    destruct (Z.eqb_spec s t) as [->|]; [done|]. by apply Hot; lia.
Qed.

Lemma only_page_keeps a rel rel' : only_page a rel rel' ->
  keeps_nodes (fun b => b <> fsm_logical_to_physical a) rel rel'.
Proof. intros [_ Ho] b Hb. by rewrite Ho. Qed.

Section Slots.
Variable vacuum_child : Relation -> FSMAddress -> option (Relation * Z * bool).
Variable a : FSMAddress.
Hypothesis a_valid : valid_addr a.
Hypothesis a_level : 0 < level a.
Hypothesis vacuum_child_spec : forall rel c, rel_wf rel -> valid_addr c -> level c = level a - 1 ->
  exists rel' m eof, vacuum_child rel c = Some (rel', m, eof) /\ vacuum_post c rel rel' m eof.

Let phys := fsm_logical_to_physical a.
Let z := subtree_pages (Z.to_nat (level a - 1)).

Lemma child_block t : 0 <= t < SlotsPerFSMPage ->
  valid_addr (child_of a t) /\ fsm_logical_to_physical (child_of a t) = phys + 1 + t * z /\
  subtree_size (child_of a t) = z /\ 0 <= t * z /\ 1 <= z /\
  t * z + z <= SlotsPerFSMPage * z /\ subtree_size a = 1 + SlotsPerFSMPage * z.
Proof.
  intros Ht. destruct (child_facts a t a_valid a_level Ht) as (Hv & _ & Hp & Hsz).
  assert (Hz : subtree_size (child_of a t) = z) by done. rewrite Hz in *.
  pose proof (subtree_pages_pos (Z.to_nat (level a - 1))) as H1. fold z in H1.
  split_and!; try done; nia.
Qed.

(** The visit of one child, or what stands for it after end of file. *)
Lemma visit_child rel slot (eof : bool) :
  rel_wf rel -> 0 <= slot < SlotsPerFSMPage ->
  (eof = true -> smgrnblocks rel <= phys + 1 + slot * z) ->
  exists r1 v eof',
    (if eof then Some (rel, 0, true) else vacuum_child rel (fsm_get_child a (u16 slot)))
      = Some (r1, v, eof') /\
    rel_wf r1 /\ smgrnblocks r1 = smgrnblocks rel /\ same_leaves rel r1 /\
    v = page_root r1 (child_of a slot) /\ exact_below r1 (child_of a slot) /\
    keeps_nodes (fun b => ~ (phys + 1 + slot * z <= b < phys + 1 + (slot + 1) * z)) rel r1 /\
    (rel_consistent rel -> rel_consistent r1) /\
    (eof' = true -> smgrnblocks r1 <= phys + 1 + (slot + 1) * z).
Proof.
  intros Hwf Hs Heof. destruct (child_block slot Hs) as (Hcv & Hcp & Hcz & Hc0 & Hz1 & _).
  destruct eof.
  - specialize (Heof eq_refl). exists rel, 0, true. split_and!; try done; [| |lia].
    + unfold page_root. rewrite block_page_absent by lia. by rewrite PageInit_root.
    + apply absent_exact; [done|]. lia.
  - destruct (child_facts a slot a_valid a_level Hs) as (_ & -> & _ & _).
    destruct (vacuum_child_spec rel (child_of a slot) Hwf Hcv ltac:(done))
      as (r1 & m & e & -> & Hw & Hlen & Hsl & -> & He1 & Hk & Hc & Hex).
    eexists r1, _, e. split; [done|]. split_and!; try done; [|intros; rewrite Hlen; specialize (He1 H); lia].
    intros b Hb. apply Hk. rewrite Hcp, Hcz. lia.
Qed.

Lemma vacuum_slots_spec n rel slot (eof : bool) :
  rel_wf rel -> phys < smgrnblocks rel -> 0 <= slot -> slot + Z.of_nat n = SlotsPerFSMPage ->
  (eof = true -> smgrnblocks rel <= phys + 1 + slot * z) ->
  exists rel', vacuum_slots vacuum_child n rel a phys slot eof = Some rel' /\
    slots_post a slot rel rel'.
Proof.
  revert rel slot eof. induction n as [|n IH]; intros rel slot eof Hwf Hin Hs0 Hn Heof.
  { exists rel. split; [done|]. split_and!; try done; lia. }
  cbn [vacuum_slots]. assert (Hs : 0 <= slot < SlotsPerFSMPage) by lia.
  destruct (child_block slot Hs) as (Hcv & Hcp & Hcz & Hc0 & Hz1 & Hzle & Hza).
  destruct (visit_child rel slot eof Hwf Hs Heof)
    as (r1 & v & e & -> & Hw1 & Hl1 & Hsl1 & Hv & Hex1 & Hk1 & Hc1 & He1). sbind.
  assert (Hvr : in_u 8 v) by (rewrite Hv; by apply page_root_range).
  destruct (fix_slot_spec r1 a slot v Hw1 a_valid a_level Hs Hvr ltac:(fold phys; lia))
    as (page & old & r2 & Hpg & Hold & Hst & Hw2 & Ho & Hl2 & Hca & Hc2).
  fold phys in Hpg, Hst. rewrite Hpg. sbind. rewrite Hold. sbind. rewrite Hst. sbind.
  destruct (IH r2 (slot + 1) e Hw2) as (r3 & Hrun & Hw3 & Hl3 & Hsl3 & Hlow & Hhigh & Hk3 & Hc3);
    [lia|lia|lia|intros E; specialize (He1 E); lia|].
  fold z phys in Hk3. exists r3. split; [done|].
  assert (Hk2 := only_page_keeps _ _ _ Ho). fold phys in Hk2.
  (* the subtree of the child is not touched by the later slots *)
  assert (Hkeep : keeps_nodes (fun b => phys + 1 + slot * z <= b < phys + 1 + (slot + 1) * z) r1 r3).
  { intros b Hb. rewrite Hk3 by lia. apply Hk2. lia. }
  split_and!; try done.
  - lia.
  - eapply same_leaves_trans; [exact Hsl1|]. eapply same_leaves_trans; [|exact Hsl3].
    by eapply only_upper_leaves.
  - intros t Ht. rewrite Hlow by lia. rewrite Hca by lia.
    destruct (Z.eqb_spec t slot); [lia|]. unfold cat_at, slot_avail. fold phys. rewrite Hk1 by lia. done.
  - intros t Ht. destruct (Z.eq_dec t slot) as [->|Hne]; [|apply Hhigh; lia].
    split.
    + rewrite Hlow, Hca, Z.eqb_refl by lia. rewrite Hv. unfold page_root. rewrite Hcp.
      f_equal. symmetry. apply Hkeep. lia.
    + apply (exact_below_keep r1); [done| |done]. rewrite Hcp, Hcz. intros b Hb. apply Hkeep. lia.
  - intros b [Hb1 Hb2]. fold z phys in Hb2. rewrite Hk3 by lia. rewrite Hk2 by done. apply Hk1. lia.
  - auto.
Qed.
End Slots.

(** A missing page needs no work. *)
Lemma vacuum_absent rel r1 a :
  valid_addr a -> rel_wf r1 -> (forall b, block_page r1 b = block_page rel b) ->
  is_segment r1 = is_segment rel -> smgrnblocks r1 = smgrnblocks rel ->
  smgrnblocks rel <= fsm_logical_to_physical a -> vacuum_post a rel r1 0 true.
Proof.
  intros Ha Hw Hpg Hseg Hl Hge. split_and!; try done.
  - split; [done|]. intros q s _. unfold leaf_cat, cat_at. by rewrite Hpg.
  - unfold page_root. rewrite block_page_absent by lia. by rewrite PageInit_root.
  - intros b _. by rewrite Hpg.
  - intros Hc. by apply (pages_ok_ext _ rel).
  - apply absent_exact; [done|lia].
Qed.

(** The last steps of [fsm_vacuum_page]: read the root and reset the hint. *)
Lemma vacuum_finish rel a :
  rel_wf rel -> valid_addr a -> fsm_logical_to_physical a < smgrnblocks rel ->
  exists page m rel', BufferGetPage rel (fsm_logical_to_physical a) = Some page /\
    fsm_get_max_avail page = Some m /\
    BufferSetPage rel (fsm_logical_to_physical a) (mkFSMPage 0 (fp_nodes page)) = Some rel' /\
    m = page_root rel a /\ rel_wf rel' /\ is_segment rel' = is_segment rel /\
    smgrnblocks rel' = smgrnblocks rel /\ keeps_nodes (fun _ => True) rel rel'.
Proof.
  intros Hwf Ha Hin. destruct (physical_spec a Ha) as [_ Hphys].
  pose proof (proj1 Hwf (fsm_logical_to_physical a)) as Hpw. pose proof geometry.
  rewrite BufferGetPage_Some by lia. eexists _, (page_root rel a).
  destruct (store_spec rel a (mkFSMPage 0 (fp_nodes (block_page rel (fsm_logical_to_physical a)))) Hwf Hpw)
    as (r' & Hr' & Hw' & [Hs Ho] & Hb & Hlen & _); [lia|].
  exists r'. split_and!; try done.
  - unfold fsm_get_max_avail. destruct Hpw as [Hlen' _]. by rewrite zlookup_in by lia.
  - intros b _. destruct (Z.eq_dec b (fsm_logical_to_physical a)) as [->|Hne]; [by rewrite Hb|by rewrite Ho].
Qed.

Lemma keeps_nodes_leaves rel rel' :
  is_segment rel' = is_segment rel -> keeps_nodes (fun _ => True) rel rel' -> same_leaves rel rel'.
Proof.
  intros Hs Hk. split; [done|]. intros q s _. unfold leaf_cat, cat_at, slot_avail. by rewrite Hk.
Qed.

Lemma keeps_nodes_exact rel rel' a :
  valid_addr a -> keeps_nodes (fun _ => True) rel rel' -> exact_below rel a -> exact_below rel' a.
Proof. intros Ha Hk. apply exact_below_keep; [done|]. intros b _. by apply Hk. Qed.

Lemma keeps_nodes_consistent rel rel' :
  keeps_nodes (fun _ => True) rel rel' -> rel_consistent rel -> rel_consistent rel'.
Proof. intros Hk Hc b. rewrite Hk by done. apply Hc. Qed.

(** The post-condition survives the steps around the loop that change no node. *)
Lemma vacuum_post_around a rel r1 r2 r3 :
  valid_addr a -> rel_wf r3 ->
  is_segment r1 = is_segment rel -> smgrnblocks r1 = smgrnblocks rel -> keeps_nodes (fun _ => True) rel r1 ->
  same_leaves r1 r2 -> smgrnblocks r2 = smgrnblocks r1 -> exact_below r2 a ->
  keeps_nodes (fun b => ~ (fsm_logical_to_physical a <= b < fsm_logical_to_physical a + subtree_size a)) r1 r2 ->
  (rel_consistent r1 -> rel_consistent r2) ->
  is_segment r3 = is_segment r2 -> smgrnblocks r3 = smgrnblocks r2 -> keeps_nodes (fun _ => True) r2 r3 ->
  vacuum_post a rel r3 (page_root r2 a) false.
Proof.
  intros Ha Hw Hs1 Hl1 Hk1 Hs2 Hl2 He2 Hk2 Hc2 Hs3 Hl3 Hk3. split_and!; try done.
  - congruence.
  - eapply same_leaves_trans; [by apply keeps_nodes_leaves|].
    eapply same_leaves_trans; [exact Hs2|by apply keeps_nodes_leaves].
  - unfold page_root. by rewrite Hk3.
  - intros b Hb. rewrite Hk3, Hk2, Hk1 by done. done.
  - intros Hc. eapply keeps_nodes_consistent, Hc2, keeps_nodes_consistent; done.
  - by eapply keeps_nodes_exact.
Qed.

(** [fsm_vacuum_page] makes the subtree exact, returns the root of the page,
    and leaves every recorded category and everything outside alone. *)
Lemma vacuum_page_spec l rel a :
  rel_wf rel -> valid_addr a -> level a = Z.of_nat l ->
  exists rel' m eof, fsm_vacuum_page l rel a = Some (rel', m, eof) /\ vacuum_post a rel rel' m eof.
Proof.
  revert rel a. induction l as [|l IH]; intros rel a Hwf Ha Hl; cbn [fsm_vacuum_page];
    (destruct (readbuf_spec rel a false Hwf Ha) as (r1 & [b|] & -> & Hw1 & Hpg1 & Hsg1 & Hb); sbind;
     [destruct Hb as (-> & Hlt & _ & _ & Hsame & Hnoext); specialize (Hsame (Hnoext eq_refl))
     |destruct Hb as (_ & Hge & Hl1 & _); exists r1, 0, true; split; [done|];
      by apply vacuum_absent]);
    assert (Hk1 : keeps_nodes (fun _ => True) rel r1) by (intros b _; by rewrite Hpg1).
  - replace (FSM_BOTTOM_LEVEL <? level a) with false
      by (symmetry; apply Z.ltb_ge; unfold FSM_BOTTOM_LEVEL; lia).
    sbind. destruct (vacuum_finish r1 a Hw1 Ha ltac:(lia))
      as (page & m & r3 & -> & Hm & Hset & -> & Hw3 & Hs3 & Hl3 & Hk3); sbind.
    rewrite Hm. sbind. rewrite Hset. sbind. eexists r3, _, false. split; [done|].
    apply (vacuum_post_around a rel r1 r1 r3); try done.
    intros b Hb Hlb. inversion Hb; subst; lia.
  - replace (FSM_BOTTOM_LEVEL <? level a) with true
      by (symmetry; apply Z.ltb_lt; unfold FSM_BOTTOM_LEVEL; lia).
    pose proof SlotsPerFSMPage_range as HS. assert (Hpos : 0 < level a) by lia.
    destruct (vacuum_slots_spec (fsm_vacuum_page l) a Ha Hpos
      ltac:(intros r c Hr Hc Hlc; apply IH; [done|done|lia])
      (Z.to_nat SlotsPerFSMPage) r1 0 false Hw1 ltac:(lia) ltac:(lia) ltac:(lia) ltac:(done))
      as (r2 & -> & Hw2 & Hl2 & Hs2 & _ & Hex & Hk2 & Hc2). sbind.
    destruct (vacuum_finish r2 a Hw2 Ha ltac:(lia))
      as (page & m & r3 & -> & Hm & Hset & -> & Hw3 & Hs3 & Hl3 & Hk3); sbind.
    rewrite Hm. sbind. rewrite Hset. sbind. eexists r3, _, false. split; [done|].
    apply (vacuum_post_around a rel r1 r2 r3); try done.
    + intros b Hb Hlb. inversion Hb as [|a' s Hla Hs Hbs]; subst.
      * intros s Hs. by apply Hex.
      * by apply (Hex s Hs).
    + intros b Hb. apply Hk2. pose proof (subtree_pages_pos (Z.to_nat (level a))) as Hsz.
      fold (subtree_size a) in Hsz. lia.
Qed.
End VacuumFacts.

(** ** Reading, recording and truncating *)

Section RecordFacts.
Context {bs : BlockSize}.

(** The heap blocks the tree can describe. *)
Definition heap_block (b : Z) : Prop :=
  0 <= b < InvalidBlockNumber /\ b < leaf_pages * SlotsPerFSMPage.

Lemma heap_block_location b :
  heap_block b ->
  fsm_get_location b = (mkAddr 0 (b / SlotsPerFSMPage), b mod SlotsPerFSMPage) /\
  leaf_slot (b / SlotsPerFSMPage) (b mod SlotsPerFSMPage) /\
  valid_addr (mkAddr 0 (b / SlotsPerFSMPage)) /\
  b = b / SlotsPerFSMPage * SlotsPerFSMPage + b mod SlotsPerFSMPage.
Proof.
  intros [Hb Hlt]. pose proof SlotsPerFSMPage_range. unfold InvalidBlockNumber in Hb.
  assert (Hr : 0 <= b < leaf_pages * SlotsPerFSMPage) by lia. assert (Hb32 : b < 2 ^ 32) by lia.
  destruct (get_location_spec b Hr Hb32) as (E & Hv & Hm).
  split; [done|]. split; [split; [by apply valid_leaf|done]|]. split; [done|].
  pose proof (Z.div_mod b SlotsPerFSMPage). lia.
Qed.

Lemma heap_block_recorded rel b :
  heap_block b -> recorded rel b = leaf_cat rel (b / SlotsPerFSMPage) (b mod SlotsPerFSMPage).
Proof. intros Hb. destruct (heap_block_location b Hb) as [E _]. unfold recorded. by rewrite E. Qed.

(** Splitting a slot number is unique. *)
Lemma slot_unique q s q' s' :
  0 <= s < SlotsPerFSMPage -> 0 <= s' < SlotsPerFSMPage ->
  q * SlotsPerFSMPage + s = q' * SlotsPerFSMPage + s' -> q = q' /\ s = s'.
Proof.
  intros Hs Hs' E. assert (q = q'); [|lia]. nia.
Qed.

(** What recording the category [v] for the heap block [b] does. *)
Definition records (rel rel' : Relation) (b v : Z) : Prop :=
  forall b', heap_block b' -> recorded rel' b' = if b' =? b then v else recorded rel b'.

Lemma set_leaf_records rel rel' b v :
  fsm_wf rel -> heap_block b -> rel_wf rel' ->
  only_page (mkAddr 0 (b / SlotsPerFSMPage)) rel rel' ->
  (forall s, 0 <= s < SlotsPerFSMPage -> cat_at rel' (mkAddr 0 (b / SlotsPerFSMPage)) s =
     if s =? b mod SlotsPerFSMPage then v else cat_at rel (mkAddr 0 (b / SlotsPerFSMPage)) s) ->
  fsm_wf rel' /\ records rel rel' b v.
Proof.
  intros [Hwf Hn] Hb Hw Ho Hc. destruct (heap_block_location b Hb) as (_ & [Hq Hs] & Hv & Eb).
  assert (Hleaf : forall q s, leaf_slot q s ->
    leaf_cat rel' q s = if q * SlotsPerFSMPage + s =? b then v else leaf_cat rel q s).
  { intros q s [Hq' Hs']. destruct (Z.eq_dec q (b / SlotsPerFSMPage)) as [->|Hne].
    - unfold leaf_cat, FSM_BOTTOM_LEVEL. rewrite Hc by done.
      destruct (Z.eqb_spec s (b mod SlotsPerFSMPage)); bool_cases; try done; lia.
    - unfold leaf_cat, FSM_BOTTOM_LEVEL.
      rewrite (only_page_other (mkAddr 0 (b / SlotsPerFSMPage)) _ rel rel');
        [|done|done|by apply valid_leaf|congruence].
      destruct (Z.eqb_spec (q * SlotsPerFSMPage + s) b) as [E|]; [|done].
      rewrite Eb in E at 1. apply slot_unique in E; [|done|done]. by destruct E. }
  split; [split; [done|]|].
  - intros q s Hqs Hge. rewrite Hleaf by done. destruct (Z.eqb_spec (q * SlotsPerFSMPage + s) b).
    + destruct Hb. lia.
    + by apply Hn.
  - intros b' Hb'. destruct (heap_block_location b' Hb') as (_ & Hl' & _ & Eb').
    rewrite !heap_block_recorded, Hleaf by done. by rewrite <- Eb'.
Qed.

Lemma avail_to_cat_range a : 0 <= a -> in_u 8 (fsm_space_avail_to_cat a).
Proof.
  intros Ha. unfold fsm_space_avail_to_cat. destruct (_ <=? a); [unfold in_u; lia|].
  apply uN_range. lia.
Qed.

(** [GetRecordedFreeSpace] reads the recorded category. *)
Lemma get_recorded_spec rel b :
  rel_wf rel -> heap_block b ->
  exists rel', GetRecordedFreeSpace rel b = Some (rel', fsm_space_cat_to_avail (recorded rel b)) /\
    rel_wf rel' /\ forall blk, block_page rel' blk = block_page rel blk.
Proof.
  intros Hwf Hb. destruct (heap_block_location b Hb) as (E & [_ Hs] & Hv & _).
  unfold GetRecordedFreeSpace. rewrite E.
  destruct (readbuf_spec rel _ false Hwf Hv) as (r1 & [blk|] & -> & Hw & Hpg & _ & Hbuf); sbind.
  - destruct Hbuf as (-> & Hlt & _). rewrite BufferGetPage_Some, Hpg by done. sbind.
    pose proof geometry. pose proof (proj1 Hwf (fsm_logical_to_physical (mkAddr 0 (b / SlotsPerFSMPage)))) as [Hlen _].
    assert (Hs' : 0 <= b mod SlotsPerFSMPage < LeafNodesPerPage) by done.
    unfold fsm_get_avail. rewrite zlookup_in by lia. sbind.
    exists r1. split; [|done]. by rewrite heap_block_recorded.
  - destruct Hbuf as (_ & Hge & _). exists r1. split; [|done].
    rewrite heap_block_recorded by done. unfold leaf_cat, cat_at, FSM_BOTTOM_LEVEL.
    rewrite block_page_absent, PageInit_slot by done. done.
Qed.

(** *** Truncation *)

Lemma block_page_truncate rel n b :
  0 <= n -> block_page (truncate_fork rel n) b = if b <? n then block_page rel b else PageInit.
Proof.
  intros Hn. unfold block_page, truncate_fork, zlookup. cbn [fork_blocks].
  destruct (Z.leb_spec 0 b); [|by destruct (b <? n)].
  destruct (Z.ltb_spec b n).
  - by rewrite lookup_take_lt by lia.
  - by rewrite lookup_take_ge by lia.
Qed.

Lemma truncate_wf rel n :
  rel_wf rel -> 0 <= n <= smgrnblocks rel -> fork_exists rel = true -> rel_wf (truncate_fork rel n).
Proof.
  intros (Hp & Hc & Hn & He) Hle Hex.
  assert (Hlen : smgrnblocks (truncate_fork rel n) = n).
  { unfold smgrnblocks, zlen, truncate_fork in *. cbn [fork_blocks]. rewrite length_take. lia. }
  split; [|split; [|split; [lia|]]].
  - intros b. rewrite block_page_truncate by lia. destruct (b <? n); [apply Hp|apply PageInit_wf].
  - right. rewrite Hlen. cbn [truncate_fork smgr_fsm_nblocks]. lia.
  - cbn [truncate_fork fork_exists]. congruence.
Qed.

(** The leaf pages after [q] come after the block of [q]. *)
Lemma leaf_physical_lt q q' :
  0 <= q < q' -> q' < leaf_pages ->
  fsm_logical_to_physical (mkAddr 0 q) < fsm_logical_to_physical (mkAddr 0 q').
Proof.
  intros Hq Hq'. apply physical_mono; [apply valid_leaf; lia|apply valid_leaf; lia|].
  unfold leaf_of. cbn [level logpageno]. rewrite Z.pow_0_r. lia.
Qed.

(** The categories left when the map is cut to [nblocks]. *)
Definition cut_at (rel rel' : Relation) (nblocks : Z) : Prop :=
  forall q s, leaf_slot q s ->
  leaf_cat rel' q s = if q * SlotsPerFSMPage + s <? nblocks then leaf_cat rel q s else 0.

Lemma leaf_absent rel q s :
  leaf_slot q s -> smgrnblocks rel <= fsm_logical_to_physical (mkAddr 0 q) -> leaf_cat rel q s = 0.
Proof.
  intros [_ Hs] Hge. unfold leaf_cat, cat_at. by rewrite block_page_absent, PageInit_slot.
Qed.

Lemma cut_nothing rel rel' nblocks q0 s0 :
  (forall b, block_page rel' b = block_page rel b) ->
  nblocks = q0 * SlotsPerFSMPage + s0 -> leaf_slot q0 s0 ->
  smgrnblocks rel <= fsm_logical_to_physical (mkAddr 0 q0) -> cut_at rel rel' nblocks.
Proof.
  intros Hpg -> [Hq0 Hs0] Hge q s Hqs.
  assert (E : leaf_cat rel' q s = leaf_cat rel q s) by (unfold leaf_cat, cat_at; by rewrite Hpg).
  rewrite E. destruct (Z.ltb_spec (q * SlotsPerFSMPage + s) (q0 * SlotsPerFSMPage + s0)); [done|].
  apply leaf_absent; [done|]. destruct Hqs as [Hq Hs].
  destruct (Z.eq_dec q q0) as [->|]; [done|].
  assert (q0 < q) by nia. pose proof (leaf_physical_lt q0 q ltac:(lia) ltac:(lia)). lia.
Qed.

Lemma truncate_rel_spec rel nblocks :
  rel_wf rel -> heap_block nblocks ->
  exists rel', FreeSpaceMapTruncateRel rel nblocks = Some rel' /\ rel_wf rel' /\
    cut_at rel rel' nblocks /\ (rel_consistent rel -> rel_consistent rel').
Proof.
  intros Hwf Hb. destruct (heap_block_location nblocks Hb) as (E & [Hq Hs] & Hv & Eb).
  unfold FreeSpaceMapTruncateRel. rewrite E.
  set (q0 := nblocks / SlotsPerFSMPage) in *. set (s0 := nblocks mod SlotsPerFSMPage) in *.
  destruct (physical_spec _ Hv) as [_ Hphys]. set (a0 := mkAddr 0 q0) in *.
  destruct (fork_exists rel) eqn:Hex; cbn [negb].
  2: { exists rel. split; [done|]. split; [done|]. split; [|done].
    apply (cut_nothing rel rel nblocks q0 s0); try done. destruct Hwf as (_ & _ & _ & He).
    unfold smgrnblocks. rewrite He by done. fold a0. unfold zlen. simpl. lia. }
  destruct (Z.ltb_spec 0 s0).
  - destruct (readbuf_spec rel a0 false Hwf Hv) as (r1 & [b|] & -> & Hw1 & Hpg & _ & Hbuf); sbind.
    2: { exists r1. split; [done|]. split; [done|]. split; [|by apply pages_ok_ext].
      apply (cut_nothing rel r1 nblocks q0 s0); try done. apply Hbuf. }
    destruct Hbuf as (-> & Hlt & _ & Hex1 & _). rewrite BufferGetPage_Some, Hpg by done. sbind.
    destruct (truncate_avail_spec _ s0 (proj1 Hwf (fsm_logical_to_physical a0)) Hs)
      as (p' & ch & -> & Hp' & _ & Hlow & Hhigh & Hnc & Hc). sbind.
    destruct (store_spec r1 a0 p' Hw1 Hp' Hlt) as (r2 & -> & Hw2 & [_ Ho] & Hbp & Hl2 & He2 & Hc2). sbind.
    rewrite (uN_small 32) by (unfold in_u; lia).
    eexists. split; [done|]. split; [apply truncate_wf; [done|lia|congruence]|]. split.
    + intros q s [Hq' Hs']. unfold leaf_cat, cat_at, FSM_BOTTOM_LEVEL.
      rewrite block_page_truncate by lia.
      destruct (Z.lt_trichotomy q q0) as [Hqq|[->|Hqq]].
      * pose proof (leaf_physical_lt q q0 ltac:(lia) ltac:(lia)). fold a0 in H0.
        destruct (Z.ltb_spec (fsm_logical_to_physical (mkAddr 0 q)) (fsm_logical_to_physical a0 + 1)); [|lia].
        destruct (Z.ltb_spec (q * SlotsPerFSMPage + s) nblocks); [|nia].
        rewrite Ho, Hpg by lia. done.
      * fold a0. destruct (Z.ltb_spec (fsm_logical_to_physical a0) (fsm_logical_to_physical a0 + 1)); [|lia].
        rewrite Hbp. destruct (Z.ltb_spec (q0 * SlotsPerFSMPage + s) nblocks).
        -- apply Hlow. lia.
        -- apply Hhigh. unfold SlotsPerFSMPage in Hs'. lia.
      * pose proof (leaf_physical_lt q0 q ltac:(lia) ltac:(lia)). fold a0 in H0.
        destruct (Z.ltb_spec (fsm_logical_to_physical (mkAddr 0 q)) (fsm_logical_to_physical a0 + 1)); [lia|].
        destruct (Z.ltb_spec (q * SlotsPerFSMPage + s) nblocks); [nia|].
        by apply PageInit_slot.
    + intros Hcons b. rewrite block_page_truncate by lia.
      destruct (b <? _); [|apply PageInit_consistent]. apply Hc2; [by apply (pages_ok_ext _ rel)|].
      destruct ch; [by apply Hc|]. rewrite Hnc by done. apply Hcons.
  - destruct (Z.leb_spec (smgrnblocks rel) (fsm_logical_to_physical a0)).
    { exists rel. split; [done|]. split; [done|]. split; [|done].
      by apply (cut_nothing rel rel nblocks q0 s0). }
    eexists. split; [done|]. split; [apply truncate_wf; [done|lia|done]|]. split.
    + intros q s [Hq' Hs']. unfold leaf_cat, cat_at, FSM_BOTTOM_LEVEL.
      rewrite block_page_truncate by lia.
      destruct (Z_lt_ge_dec q q0) as [Hqq|Hqq].
      * pose proof (leaf_physical_lt q q0 ltac:(lia) ltac:(lia)). fold a0 in H1.
        destruct (Z.ltb_spec (fsm_logical_to_physical (mkAddr 0 q)) (fsm_logical_to_physical a0)); [|lia].
        destruct (Z.ltb_spec (q * SlotsPerFSMPage + s) nblocks); [done|nia].
      * assert (fsm_logical_to_physical a0 <= fsm_logical_to_physical (mkAddr 0 q)).
        { destruct (Z.eq_dec q q0) as [->|]; [done|].
          pose proof (leaf_physical_lt q0 q ltac:(lia) ltac:(lia)). fold a0 in H1. lia. }
        destruct (Z.ltb_spec (fsm_logical_to_physical (mkAddr 0 q)) (fsm_logical_to_physical a0)); [lia|].
        destruct (Z.ltb_spec (q * SlotsPerFSMPage + s) nblocks); [nia|]. by apply PageInit_slot.
    + intros Hcons b. rewrite block_page_truncate by lia.
      destruct (b <? _); [apply Hcons|apply PageInit_consistent].
Qed.
End RecordFacts.

(** ** Categories *)

Section CategoryFacts.
Context {bs : BlockSize}.

Lemma cat_step : 1 <= FSM_CAT_STEP <= 128 /\ MaxFSMRequestSize = 256 * FSM_CAT_STEP - 48 /\
  BLCKSZ = 256 * FSM_CAT_STEP.
Proof.
  unfold MaxFSMRequestSize, MaxHeapTupleSize, FSM_CAT_STEP, FSM_CATEGORIES.
  change (MAXALIGN (SizeOfHeapPageHeaderData + sizeof_ItemIdData)) with 48.
  pose proof BLCKSZ_valid as Hb.
  repeat match goal with H : _ \/ _ |- _ => destruct H as [H|H] end; rewrite Hb;
    vm_compute; repeat split; congruence.
Qed.

(** The categories without the casts. *)
Lemma avail_to_cat_eq a : 0 <= a < BLCKSZ ->
  fsm_space_avail_to_cat a =
    if MaxFSMRequestSize <=? a then 255 else Z.min 254 (a / FSM_CAT_STEP).
Proof.
  intros Ha. destruct cat_step as (Hs & Hm & Hb). unfold fsm_space_avail_to_cat.
  destruct (Z.leb_spec MaxFSMRequestSize a); [done|].
  rewrite Z.quot_div_nonneg by lia.
  assert (0 <= a / FSM_CAT_STEP < 256) by (split; [apply Z.div_pos|apply Z.div_lt_upper_bound]; lia).
  rewrite sN_small by (unfold in_s; lia). destruct (Z.ltb_spec 254 (a / FSM_CAT_STEP)).
  - rewrite uN_small by (unfold in_u; lia). lia.
  - rewrite uN_small by (unfold in_u; lia). lia.
Qed.

Lemma needed_to_cat_eq n : 0 <= n ->
  fsm_space_needed_to_cat n =
    if MaxFSMRequestSize <? n then Ereport ERRCODE_DATATYPE_MISMATCH
    else Ok (Z.max 1 (Z.min 255 ((n + FSM_CAT_STEP - 1) / FSM_CAT_STEP))).
Proof.
  intros Hn. destruct cat_step as (Hs & Hm & Hb). unfold fsm_space_needed_to_cat.
  destruct (Z.ltb_spec MaxFSMRequestSize n); [done|]. destruct (Z.eqb_spec n 0) as [->|].
  { rewrite Z.div_small by lia. done. }
  rewrite Z.quot_div_nonneg by lia.
  assert (1 <= (n + FSM_CAT_STEP - 1) / FSM_CAT_STEP <= 256)
    by (split; [apply Z.div_le_lower_bound|apply Z.lt_succ_r, Z.div_lt_upper_bound]; lia).
  rewrite sN_small by (unfold in_s; lia).
  destruct (Z.ltb_spec 255 ((n + FSM_CAT_STEP - 1) / FSM_CAT_STEP));
    rewrite uN_small by (unfold in_u; lia); f_equal; lia.
Qed.

Lemma cat_to_avail_eq c : 0 <= c <= 255 ->
  fsm_space_cat_to_avail c = (if c =? 255 then MaxFSMRequestSize else c * FSM_CAT_STEP).
Proof.
  intros Hc. destruct cat_step as (Hs & _). unfold fsm_space_cat_to_avail.
  destruct (c =? 255); [done|]. apply uN_small. unfold in_u. nia.
Qed.

Lemma category_facts avail needed :
  0 <= avail < BLCKSZ -> 0 <= needed ->
  fsm_space_cat_to_avail (fsm_space_avail_to_cat avail) <= avail /\
  (fsm_space_needed_to_cat needed = Ereport ERRCODE_DATATYPE_MISMATCH <-> MaxFSMRequestSize < needed) /\
  (forall c, fsm_space_needed_to_cat needed = Ok c ->
     1 <= c <= 255 /\ needed <= fsm_space_cat_to_avail c /\
     (c <= fsm_space_avail_to_cat avail -> needed <= avail) /\
     (MaxFSMRequestSize <= avail -> c <= fsm_space_avail_to_cat avail) /\
     (needed <= 254 * FSM_CAT_STEP -> needed + FSM_CAT_STEP <= avail ->
      c <= fsm_space_avail_to_cat avail)).
Proof.
  intros Ha Hn. destruct cat_step as (Hs & Hm & Hb). rewrite avail_to_cat_eq, needed_to_cat_eq by done.
  set (st := FSM_CAT_STEP) in *.
  assert (Hd : st * (avail / st) <= avail < st * (avail / st) + st)
    by (pose proof (Z.div_mod avail st); pose proof (Z.mod_pos_bound avail st); lia).
  assert (Hd' : st * ((needed + st - 1) / st) <= needed + st - 1 < st * ((needed + st - 1) / st) + st)
    by (pose proof (Z.div_mod (needed + st - 1) st); pose proof (Z.mod_pos_bound (needed + st - 1) st); lia).
  set (ca := avail / st) in *. set (cn := (needed + st - 1) / st) in *.
  assert (0 <= ca) by nia. assert (0 <= cn) by nia.
  split_and!.
  - rewrite cat_to_avail_eq by (destruct (_ <=? avail); lia).
    destruct (Z.leb_spec MaxFSMRequestSize avail); [by rewrite Z.eqb_refl|].
    destruct (Z.eqb_spec (Z.min 254 ca) 255); [lia|]. fold st. nia.
  - destruct (Z.ltb_spec MaxFSMRequestSize needed); split; try done; lia.
  - intros c. destruct (Z.ltb_spec MaxFSMRequestSize needed); [done|]. intros [= <-].
    assert (Hc : 1 <= Z.max 1 (Z.min 255 cn) <= 255) by lia.
    rewrite cat_to_avail_eq by lia. fold st. split_and!; try lia.
    + destruct (Z.eqb_spec (Z.max 1 (Z.min 255 cn)) 255); [done|]. nia.
    + destruct (Z.leb_spec MaxFSMRequestSize avail); [lia|]. nia.
    + destruct (Z.leb_spec MaxFSMRequestSize avail); lia.
    + destruct (Z.leb_spec MaxFSMRequestSize avail); [lia|]. nia.
Qed.
End CategoryFacts.

(** ** Bulk update of the upper levels *)

Section UpdateFacts.
Context {bs : BlockSize}.

Lemma update_recursive_spec up rel a v search :
  rel_wf rel -> valid_addr a -> in_u 8 v -> FSM_ROOT_LEVEL - level a <= Z.of_nat up ->
  exists rel', fsm_update_recursive up rel a v search = Some rel' /\ rel_wf rel' /\
    same_leaves rel rel' /\ (rel_consistent rel -> rel_consistent rel').
Proof.
  revert rel a. induction up as [|up IH]; intros rel a Hwf Ha Hv Hup; cbn [fsm_update_recursive];
    destruct (Z.eqb_spec (level a) FSM_ROOT_LEVEL) as [|Hne];
    try (exists rel; split_and!; done).
  { destruct Ha. lia. }
  assert (Hlt : level a < FSM_ROOT_LEVEL) by (destruct Ha; lia).
  destruct (get_parent_spec a Ha Hlt) as (-> & Hvp & Hps).
  destruct (set_and_search_spec rel _ _ v 0 search Hwf Hvp Hps Hv ltac:(unfold in_u; lia))
    as (r2 & ns & -> & Hw2 & Ho & _ & _ & _ & _ & Hc2 & _). sbind.
  destruct (IH r2 _ Hw2 Hvp Hv) as (r3 & -> & Hw3 & Hs3 & Hc3); [cbn [level]; lia|].
  exists r3. split_and!; try done; [|auto].
  eapply same_leaves_trans; [|exact Hs3]. eapply only_upper_leaves; [exact Ho|done|].
  cbn [level]. destruct Ha. lia.
Qed.

(** The last block of a leaf page, when it is a block number. *)
Lemma lastblckno_spec q :
  0 <= q < leaf_pages -> fsm_get_lastblckno (mkAddr 0 q) = u32 (q * SlotsPerFSMPage + (SlotsPerFSMPage - 1)).
Proof.
  intros Hq. pose proof SlotsPerFSMPage_range. unfold fsm_get_lastblckno.
  apply get_heap_blk_spec. split; [done|lia].
Qed.

(** One iteration of the loop of [UpdateFreeSpaceMap]. *)
Lemma update_loop_step fuel rel b e v search :
  rel_wf rel -> heap_block b -> b <= e -> in_u 8 v ->
  let last := u32 (b / SlotsPerFSMPage * SlotsPerFSMPage + (SlotsPerFSMPage - 1)) in
  exists rel', rel_wf rel' /\ same_leaves rel rel' /\ (rel_consistent rel -> rel_consistent rel') /\
    update_loop (S fuel) rel b e v search =
      if e <=? last then Some rel' else update_loop fuel rel' (u32 (last + 1)) e v search.
Proof.
  intros Hwf Hb Hle Hv last. destruct (heap_block_location b Hb) as (E & [Hq _] & Ha & _).
  cbn [update_loop]. destruct (Z.leb_spec b e); [|lia]. rewrite E. cbv iota.
  rewrite (uN_small 8) by done.
  destruct (update_recursive_spec (Z.to_nat FSM_TREE_DEPTH) rel _ v search Hwf Ha Hv)
    as (r & -> & Hw & Hs & Hc); [cbn [level]; pose proof depth_pos; lia|].
  sbind. exists r. split_and!; try done. by rewrite lastblckno_spec.
Qed.

(** No heap block number of the last page is past the last possible one. *)
Definition page_of_block_fits (e : Z) : Prop :=
  e / SlotsPerFSMPage * SlotsPerFSMPage + SlotsPerFSMPage <= InvalidBlockNumber.

Lemma update_loop_spec fuel rel b e v search :
  rel_wf rel -> 0 <= b -> heap_block e -> page_of_block_fits e -> in_u 8 v ->
  Z.max 0 (e - b + 1) < Z.of_nat fuel ->
  exists rel', update_loop fuel rel b e v search = Some rel' /\ rel_wf rel' /\
    same_leaves rel rel' /\ (rel_consistent rel -> rel_consistent rel').
Proof.
  intros Hwf Hb He Hfit Hv. pose proof SlotsPerFSMPage_range as HS.
  revert rel b Hwf Hb. induction fuel as [|fuel IH]; intros rel b Hwf Hb Hf; [lia|].
  destruct (Z_le_gt_dec b e) as [Hle|Hgt].
  2: { cbn [update_loop]. destruct (Z.leb_spec b e); [lia|]. exists rel. split_and!; done. }
  assert (Hhb : heap_block b) by (destruct He; split; lia).
  destruct (update_loop_step fuel rel b e v search Hwf Hhb Hle Hv) as (r & Hw & Hs & Hc & ->).
  destruct (heap_block_location b Hhb) as (_ & [[Hq0 _] Hsb] & _ & Eb).
  destruct (heap_block_location e He) as (_ & [_ Hse] & _ & Ee).
  assert (Hq : b / SlotsPerFSMPage <= e / SlotsPerFSMPage) by (apply Z.div_le_mono; lia).
  unfold page_of_block_fits, InvalidBlockNumber in Hfit. destruct Hhb as [Hb0 _]. destruct He as [He0 _].
  unfold InvalidBlockNumber in *.
  set (q := b / SlotsPerFSMPage) in *. set (qe := e / SlotsPerFSMPage) in *.
  assert (Hqs : q * SlotsPerFSMPage <= qe * SlotsPerFSMPage) by nia.
  assert (0 <= q * SlotsPerFSMPage) by nia.
  rewrite (uN_small 32 (_ + (_ - 1))) by (unfold in_u; lia).
  destruct (Z.leb_spec e (q * SlotsPerFSMPage + (SlotsPerFSMPage - 1))).
  { exists r. split_and!; done. }
  rewrite (uN_small 32) by (unfold in_u; lia).
  destruct (IH r (q * SlotsPerFSMPage + (SlotsPerFSMPage - 1) + 1) Hw) as (r' & -> & Hw' & Hs' & Hc');
    [lia|lia|].
  exists r'. split_and!; try done; [by eapply same_leaves_trans|auto].
Qed.

(** When the last page holds numbers past 2^32, [lastBlkOnPage] wraps around
    and the loop never ends. *)
Lemma update_loop_wraps fuel rel b e v search :
  rel_wf rel -> 0 <= b <= e -> heap_block e -> in_u 8 v ->
  2 ^ 32 < e / SlotsPerFSMPage * SlotsPerFSMPage + SlotsPerFSMPage ->
  update_loop fuel rel b e v search = None.
Proof.
  intros Hwf Hb He Hv Hover. pose proof SlotsPerFSMPage_range as HS.
  revert rel b Hwf Hb. induction fuel as [|fuel IH]; intros rel b Hwf Hb; [done|].
  assert (Hhb : heap_block b) by (destruct He; split; lia).
  destruct (update_loop_step fuel rel b e v search Hwf Hhb (proj2 Hb) Hv) as (r & Hw & Hs & Hc & ->).
  destruct (heap_block_location b Hhb) as (_ & [[Hq0 _] Hsb] & _ & Eb).
  destruct (heap_block_location e He) as (_ & [_ Hse] & _ & Ee).
  assert (Hq : b / SlotsPerFSMPage <= e / SlotsPerFSMPage) by (apply Z.div_le_mono; lia).
  destruct He as [He0 _]. unfold InvalidBlockNumber in *.
  set (q := b / SlotsPerFSMPage) in *. set (qe := e / SlotsPerFSMPage) in *.
  assert (Hlast : u32 (q * SlotsPerFSMPage + (SlotsPerFSMPage - 1)) < e).
  { destruct (Z.eq_dec q qe) as [->|Hne].
    - unfold uN. replace (qe * SlotsPerFSMPage + (SlotsPerFSMPage - 1)) with
        (qe * SlotsPerFSMPage + (SlotsPerFSMPage - 1) - 2 ^ 32 + 1 * 2 ^ 32) by lia.
      rewrite Z.mod_add by lia. rewrite Z.mod_small by lia. lia.
    - assert (q * SlotsPerFSMPage + SlotsPerFSMPage <= qe * SlotsPerFSMPage) by nia.
      rewrite uN_small by (unfold in_u; lia). lia. }
  pose proof (uN_range 32 (q * SlotsPerFSMPage + (SlotsPerFSMPage - 1)) ltac:(lia)) as Hr.
  unfold in_u in Hr.
  destruct (Z.leb_spec e (u32 (q * SlotsPerFSMPage + (SlotsPerFSMPage - 1)))); [lia|].
  rewrite (uN_small 32 (_ + 1)) by (unfold in_u; lia). apply IH; [done|lia].
Qed.
End UpdateFacts.

(** ** The public operations *)

Section PublicFacts.
Context {bs : BlockSize}.

Lemma avail_cat_range a : 0 <= a < BLCKSZ -> in_u 8 (fsm_space_avail_to_cat a).
Proof.
  intros Ha. destruct cat_step as (Hs & _). rewrite avail_to_cat_eq by done.
  assert (0 <= a / FSM_CAT_STEP) by (apply Z.div_pos; lia). unfold in_u.
  destruct (_ <=? a); lia.
Qed.

Lemma needed_cat_range n c : 0 <= n -> fsm_space_needed_to_cat n = Ok c -> 1 <= c < 256.
Proof.
  intros Hn Hc. rewrite needed_to_cat_eq in Hc by done. destruct (_ <? n); [done|].
  injection Hc as <-. lia.
Qed.

Lemma record_page_spec rel b avail :
  fsm_wf rel -> heap_block b -> 0 <= avail < BLCKSZ ->
  exists rel', RecordPageWithFreeSpace rel b avail = Some rel' /\ fsm_wf rel' /\
    records rel rel' b (fsm_space_avail_to_cat avail) /\ (rel_consistent rel -> rel_consistent rel').
Proof.
  intros Hwf Hb Ha. destruct (heap_block_location b Hb) as (E & [_ Hs] & Hv & _).
  pose proof (avail_cat_range avail Ha) as Hc. unfold RecordPageWithFreeSpace. rewrite E.
  rewrite (uN_small 8) by done.
  destruct (set_and_search_spec rel _ _ (fsm_space_avail_to_cat avail) 0 true (proj1 Hwf) Hv Hs Hc
    ltac:(unfold in_u; lia)) as (r & ns & -> & Hw & Ho & _ & _ & Hcat & _ & Hcons & _). sbind.
  destruct (set_leaf_records rel r b _ Hwf Hb Hw Ho Hcat). exists r. done.
Qed.

(** The fork as [XLogReadBufferExtended] leaves it. *)
Lemma xlog_extend_spec rel n :
  rel_wf rel -> 0 <= n <= InvalidBlockNumber ->
  let rel' := mkRel true (fork_blocks rel ++ replicate (Z.to_nat (n - smgrnblocks rel)) None)
                (smgr_fsm_nblocks rel) (is_segment rel) in
  rel_wf rel' /\ (forall b, block_page rel' b = block_page rel b) /\ n <= smgrnblocks rel'.
Proof.
  intros (Hp & Hc & Hn & He) Hle rel'.
  assert (Hlen : smgrnblocks rel' = Z.max (smgrnblocks rel) n).
  { unfold rel', smgrnblocks, zlen. cbn [fork_blocks]. rewrite length_app, length_replicate. lia. }
  assert (Hpg : forall b, block_page rel' b = block_page rel b) by (intros b; apply block_page_app; tauto).
  split; [|split; [done|lia]].
  split; [by apply (pages_ok_ext _ rel)|]. split; [|split; [lia|done]].
  rewrite Hlen. cbn [rel' smgr_fsm_nblocks]. destruct Hc as [|Hc]; [by left|right; lia].
Qed.

Lemma xlog_record_page_spec rel b avail :
  fsm_wf rel -> heap_block b -> 0 <= avail < BLCKSZ ->
  exists rel', XLogRecordPageWithFreeSpace rel b avail = Some rel' /\ fsm_wf rel' /\
    (if is_segment rel then rel' = rel
     else records rel rel' b (fsm_space_avail_to_cat avail)) /\
    (rel_consistent rel -> rel_consistent rel').
Proof.
  intros Hwf Hb Ha. destruct (heap_block_location b Hb) as (E & [_ Hs] & Hv & _).
  pose proof (avail_cat_range avail Ha) as Hc. unfold XLogRecordPageWithFreeSpace.
  destruct (is_segment rel) eqn:Eseg; [by exists rel|]. rewrite E.
  destruct (physical_spec _ Hv) as [_ Hphys]. set (a := mkAddr 0 (b / SlotsPerFSMPage)) in *.
  set (blk := fsm_logical_to_physical a) in *. cbv zeta.
  destruct (xlog_extend_spec rel (blk + 1) (proj1 Hwf) ltac:(unfold InvalidBlockNumber; lia))
    as (Hw1 & Hpg & Hl). rewrite Eseg in *. set (r1 := mkRel _ _ _ _) in *.
  rewrite (zlookup_in (fork_blocks r1) blk) by (unfold smgrnblocks in Hl; lia). sbind.
  assert (Epg : match znth (fork_blocks r1) blk with None => PageInit | Some page => page end =
                block_page rel blk).
  { rewrite <- Hpg. unfold block_page. by rewrite zlookup_in by (unfold smgrnblocks in Hl; lia). }
  rewrite Epg, (uN_small 8) by done.
  destruct (set_avail_spec _ _ _ (proj1 (proj1 Hwf) blk) Hs Hc)
    as (p & ch & -> & Hp & Hsl & Hot & _ & _ & _ & Hcs). sbind.
  destruct (store_spec r1 a p Hw1 Hp) as (r2 & Hset & Hw2 & [Hsg Ho] & Hbp & _ & _ & Hcr); [fold blk; lia|].
  fold blk in Hset, Hbp, Ho. rewrite Hset. exists r2. split; [done|].
  destruct (set_leaf_records rel r2 b (fsm_space_avail_to_cat avail) Hwf Hb Hw2) as [Hf Hr].
  - split; [by rewrite Hsg|]. intros b' Hb'. by rewrite Ho, Hpg.
  - fold a. intros s Hs'. unfold cat_at. fold blk. rewrite Hbp.
    destruct (Z.eqb_spec s (b mod SlotsPerFSMPage)) as [->|]; [done|]. by apply Hot; lia.
  - split; [done|]. split; [done|]. intros Hcons. apply Hcr; [by apply (pages_ok_ext _ rel)|].
    apply Hcs, Hcons.
Qed.

(** What a caller of the search may rely on. *)
Definition found (rel : Relation) (cat b : Z) : Prop :=
  b = InvalidBlockNumber \/ (heap_block b /\ cat <= recorded rel b).

Lemma search_found rel cat b :
  fsm_wf rel -> 1 <= cat -> search_result rel cat b -> found rel cat b.
Proof.
  intros Hwf Hc Hr. destruct (Z.eq_dec b InvalidBlockNumber) as [|Hne]; [by left|right].
  destruct (search_result_recorded rel cat b Hwf Hc Hr Hne) as (Hb & Hlt & Hrec).
  split; [split; [lia|apply Hb]|done].
Qed.

Definition same_recorded (rel rel' : Relation) : Prop :=
  forall b, heap_block b -> recorded rel' b = recorded rel b.

Lemma leaves_recorded rel rel' : same_leaves rel rel' -> same_recorded rel rel'.
Proof.
  intros Hs b [Hb Hlt]. unfold InvalidBlockNumber in Hb. apply same_leaves_recorded; [done|lia|lia].
Qed.

Lemma get_page_spec rel n c :
  fsm_wf rel -> 0 <= n -> fsm_space_needed_to_cat n = Ok c ->
  exists rel' b, GetPageWithFreeSpace rel n = Some (Ok (rel', b)) /\ fsm_wf rel' /\
    same_recorded rel rel' /\ found rel' c b /\ (rel_consistent rel -> rel_consistent rel').
Proof.
  intros Hwf Hn Hc. pose proof (needed_cat_range n c Hn Hc) as Hr.
  unfold GetPageWithFreeSpace. rewrite Hc.
  destruct (fsm_search_spec rel c (proj1 Hwf) Hr) as (r & b & -> & Hw & Hs & Hres & Hcons). sbind.
  assert (Hf : fsm_wf r) by (split; [done|by eapply no_space_same, Hwf]).
  exists r, b. split_and!; try done; [by apply leaves_recorded|]. by apply search_found; [..|lia|].
Qed.

(** In an exact map the search fails only when there is no page. *)
Lemma get_page_complete rel n c rel' b :
  fsm_wf rel -> rel_consistent rel -> upper_exact rel -> 0 <= n ->
  fsm_space_needed_to_cat n = Ok c -> GetPageWithFreeSpace rel n = Some (Ok (rel', b)) ->
  b = InvalidBlockNumber -> forall b', heap_block b' -> recorded rel b' < c.
Proof.
  intros Hwf Hc He Hn Ec Hrun -> b' Hb'. pose proof (needed_cat_range n c Hn Ec) as Hr.
  unfold GetPageWithFreeSpace in Hrun. rewrite Ec in Hrun.
  destruct (fsm_search rel c) as [[r x]|] eqn:Es; [|done]. injection Hrun as <- ->.
  destruct (Z_lt_ge_dec (page_root rel g_fsm_root_address) c) as [Hlt|Hge].
  - rewrite heap_block_recorded by done. destruct (heap_block_location b' Hb') as (_ & [_ Hs] & Hv & _).
    pose proof (slot_le_root rel (mkAddr 0 (b' / SlotsPerFSMPage)) _ Hc Hs) as H1. pose proof (root_le_root rel _ Hc He Hv) as H2.
    eapply Z.le_lt_trans; [apply H1|]. eapply Z.le_lt_trans; [apply H2|done].
  - exfalso. destruct (search_loop_exact _ rel g_fsm_root_address c 0 _ _ (proj1 Hwf) Hc He valid_root
      Hr ltac:(lia) Es) as (q & s & Hq & Eb & Hv).
    destruct (Z_lt_ge_dec (q * SlotsPerFSMPage + s) InvalidBlockNumber) as [Hlt|Hge'].
    + destruct Hq as [Hq Hs]. unfold InvalidBlockNumber in *.
      rewrite uN_small in Eb by (unfold in_u; nia). lia.
    + destruct Hwf as [_ Hns]. rewrite Hns in Hv by (done || lia). lia.
Qed.

Lemma vacuum_spec rel :
  rel_wf rel -> exists rel', FreeSpaceMapVacuum rel = Some rel' /\ rel_wf rel' /\
    same_leaves rel rel' /\ upper_exact rel' /\ (rel_consistent rel -> rel_consistent rel').
Proof.
  intros Hwf. unfold FreeSpaceMapVacuum. pose proof depth_pos as [Hd HR].
  destruct (vacuum_page_spec (Z.to_nat FSM_ROOT_LEVEL) rel g_fsm_root_address Hwf valid_root)
    as (r & m & e & -> & Hw & _ & Hs & _ & _ & _ & Hc & He); [cbn [level g_fsm_root_address]; lia|].
  sbind. exists r. split_and!; try done.
  intros a s Ha Hl Hs'. apply He; [by apply below_root|done|done].
Qed.

Lemma record_and_get_spec rel old avail n c :
  fsm_wf rel -> heap_block old -> 0 <= avail < BLCKSZ -> 0 <= n ->
  fsm_space_needed_to_cat n = Ok c ->
  exists rel' b, RecordAndGetPageWithFreeSpace rel old avail n = Some (Ok (rel', b)) /\ fsm_wf rel' /\
    records rel rel' old (fsm_space_avail_to_cat avail) /\ found rel' c b /\
    (rel_consistent rel -> rel_consistent rel').
Proof.
  intros Hwf Hb Ha Hn Ec. pose proof (needed_cat_range n c Hn Ec) as Hr.
  destruct (heap_block_location old Hb) as (E & [Hq Hs] & Hv & _).
  pose proof (avail_cat_range avail Ha) as Hc. unfold RecordAndGetPageWithFreeSpace.
  rewrite Ec, E, !(uN_small 8) by (done || (unfold in_u; lia)).
  destruct (set_and_search_spec rel _ _ (fsm_space_avail_to_cat avail) c true (proj1 Hwf) Hv Hs Hc
    ltac:(unfold in_u; lia)) as (r & ns & -> & Hw & Ho & _ & _ & Hcat & Hns & Hcons & _). sbind.
  destruct (set_leaf_records rel r old _ Hwf Hb Hw Ho Hcat) as [Hf Hrec].
  destruct Hns as [->|[Hns Hcn]].
  - change (negb (-1 =? -1)) with false. cbv iota.
    destruct (fsm_search_spec r c Hw Hr) as (r2 & b & -> & Hw2 & Hs2 & Hres & Hcons2). sbind.
    assert (Hf2 : fsm_wf r2) by (split; [done|by eapply no_space_same, Hf]).
    exists r2, b. split_and!; try done.
    + intros b' Hb'. rewrite (leaves_recorded _ _ Hs2 b' Hb'). by apply Hrec.
    + by apply search_found; [..|lia|].
    + auto.
  - destruct (Z.eqb_spec ns (-1)); [lia|]. cbn [negb].
    assert (Hql : leaf_slot (old / SlotsPerFSMPage) ns) by done.
    eexists r, _. split; [done|]. split_and!; try done.
    apply search_found; [done|lia|]. right. exists (old / SlotsPerFSMPage), ns.
    split; [done|]. split; [by apply get_heap_blk_spec|done].
Qed.

Lemma truncate_records rel rel' nblocks :
  fsm_wf rel -> rel_wf rel' -> cut_at rel rel' nblocks ->
  fsm_wf rel' /\ forall b, heap_block b ->
    recorded rel' b = if b <? nblocks then recorded rel b else 0.
Proof.
  intros [Hwf Hn] Hw Hcut. split; [split; [done|]|].
  - intros q s Hqs Hge. rewrite Hcut by done. destruct (_ <? nblocks); [by apply Hn|done].
  - intros b Hb. destruct (heap_block_location b Hb) as (_ & Hqs & _ & Eb).
    rewrite !heap_block_recorded, Hcut by done. by rewrite <- Eb.
Qed.
End PublicFacts.

(** ** Properties of the free space map *)

Section FreeSpaceProperties.
Context {bs : BlockSize}.

(** The physical layout of the map: on the addresses of the tree
    [fsm_logical_to_physical] does not overflow, maps the root to block 0, the
    [s]-th child of a page to the block after the page and the complete
    subtrees of the children before it (depth-first order), and never maps two
    pages to one block. *)
Theorem fsm_logical_to_physical_layout a :
  valid_addr a ->
  0 <= fsm_logical_to_physical a < InvalidBlockNumber /\
  fsm_logical_to_physical g_fsm_root_address = 0 /\
  (forall s, 0 < level a -> 0 <= s < SlotsPerFSMPage ->
     valid_addr (fsm_get_child a (u16 s)) /\
     fsm_logical_to_physical (fsm_get_child a (u16 s)) =
       fsm_logical_to_physical a + 1 + s * subtree_pages (Z.to_nat (level a - 1))) /\
  (forall b, valid_addr b -> fsm_logical_to_physical b = fsm_logical_to_physical a -> b = a).
Proof.
  intros Ha. destruct (physical_spec a Ha) as [_ Hr]. unfold InvalidBlockNumber. split_and!; [lia|lia| | |].
  - destruct (physical_spec _ valid_root) as [-> _]. unfold leaf_of, g_fsm_root_address.
    cbn [level logpageno]. rewrite Z.mul_0_l.
    pose proof (gsum_bound (Z.to_nat FSM_TREE_DEPTH) 0). lia.
  - intros s Hl Hs. destruct (child_facts a s Ha Hl Hs) as (Hv & -> & Hp & _). done.
  - intros b Hb E. by apply physical_inj.
Qed.

(** Navigation: the location of a heap block leads back to the block, the
    parent and slot of a child lead back to the child and conversely, and the
    last block of a leaf page is the one before the first of the next page. *)
Theorem fsm_navigation_roundtrip b a s :
  heap_block b -> valid_addr a -> 0 < level a -> 0 <= s < SlotsPerFSMPage ->
  (let '(l, i) := fsm_get_location b in
   valid_addr l /\ 0 <= i < SlotsPerFSMPage /\ fsm_get_heap_blk l i = b /\
   (fsm_get_lastblckno l < InvalidBlockNumber -> b <= fsm_get_lastblckno l ->
    fsm_get_location (fsm_get_lastblckno l) = (l, SlotsPerFSMPage - 1))) /\
  fsm_get_parent (fsm_get_child a (u16 s)) = (a, s) /\
  (level a < FSM_ROOT_LEVEL ->
   let '(p, i) := fsm_get_parent a in
   valid_addr p /\ 0 <= i < SlotsPerFSMPage /\ fsm_get_child p (u16 i) = a).
Proof.
  intros Hb Ha Hl Hs. pose proof SlotsPerFSMPage_range as HS. split; [|split].
  - destruct (heap_block_location b Hb) as (-> & [Hq Hi] & Hv & Eb). split; [done|]. split; [done|].
    assert (Hi16 : b mod SlotsPerFSMPage = u16 (b mod SlotsPerFSMPage))
      by (rewrite uN_small; [done|unfold in_u; lia]).
    destruct Hb as [Hb Hlt]. unfold InvalidBlockNumber in *. split.
    + rewrite Hi16, get_heap_blk_spec by done. rewrite <- Eb. apply uN_small. unfold in_u. lia.
    + rewrite lastblckno_spec by done. set (q := b / SlotsPerFSMPage) in *. intros H1 H2.
      assert (Hnw : u32 (q * SlotsPerFSMPage + (SlotsPerFSMPage - 1)) = q * SlotsPerFSMPage + (SlotsPerFSMPage - 1)).
      { destruct (Z_lt_ge_dec (q * SlotsPerFSMPage + (SlotsPerFSMPage - 1)) (2 ^ 32)) as [|Hge];
          [apply uN_small; unfold in_u; lia|].
        exfalso. unfold uN in H2.
        replace (q * SlotsPerFSMPage + (SlotsPerFSMPage - 1)) with
          (q * SlotsPerFSMPage + (SlotsPerFSMPage - 1) - 2 ^ 32 + 1 * 2 ^ 32) in H2 by lia.
        rewrite Z.mod_add in H2 by lia. rewrite Z.mod_small in H2 by lia. lia. }
      rewrite Hnw in *. assert (Hqs : leaf_slot q (SlotsPerFSMPage - 1)) by (split; [done|lia]).
      assert (Hhb : heap_block (q * SlotsPerFSMPage + (SlotsPerFSMPage - 1))).
      { split; unfold InvalidBlockNumber; [lia|]. destruct Hqs. nia. }
      destruct (heap_block_location _ Hhb) as (-> & [_ Hm] & _ & E').
      apply slot_unique in E' as [<- <-]; [done|lia|done].
  - destruct (child_facts a s Ha Hl Hs) as (Hv & -> & _).
    destruct (get_parent_spec (child_of a s) Hv) as (-> & _).
    { cbn [level child_of]. destruct Ha. lia. }
    unfold child_of. cbn [level logpageno]. rewrite Z.div_add_l, (Z.div_small s) by lia.
    assert (Hm : (logpageno a * SlotsPerFSMPage + s) mod SlotsPerFSMPage = s)
      by (rewrite Z.add_comm, Z.mod_add, Z.mod_small; lia).
    rewrite Hm. f_equal. destruct a. cbn. f_equal; lia.
  - intros Hlt. destruct (get_parent_spec a Ha Hlt) as (-> & Hvp & Hi).
    split; [done|]. split; [done|].
    destruct (child_facts _ _ Hvp ltac:(cbn [level]; lia) Hi) as (_ & -> & _). apply child_of_parent.
Qed.

(** Categories are sound: the space a category stands for is never more
    than the space that was recorded; a request is refused exactly when it
    exceeds [MaxFSMRequestSize]; a page whose category reaches the category
    asked for has the space asked for; and a page with room for the request
    and one category step more, or with [MaxFSMRequestSize] bytes, is accepted. *)
Theorem fsm_space_category_sound avail needed :
  0 <= avail < BLCKSZ -> 0 <= needed ->
  fsm_space_cat_to_avail (fsm_space_avail_to_cat avail) <= avail /\
  (fsm_space_needed_to_cat needed = Ereport ERRCODE_DATATYPE_MISMATCH <-> MaxFSMRequestSize < needed) /\
  (forall c, fsm_space_needed_to_cat needed = Ok c ->
     1 <= c <= 255 /\ needed <= fsm_space_cat_to_avail c /\
     (c <= fsm_space_avail_to_cat avail -> needed <= avail) /\
     (MaxFSMRequestSize <= avail -> c <= fsm_space_avail_to_cat avail) /\
     (needed <= 254 * FSM_CAT_STEP -> needed + FSM_CAT_STEP <= avail ->
      c <= fsm_space_avail_to_cat avail)).
Proof. intros Ha Hn. by apply category_facts. Qed.

(** Recording: [RecordPageWithFreeSpace], and its WAL replay version on a
    relation that is not a segment, return without leaving the fork, change the
    category of exactly one heap block to the category of [spaceAvail],
    creating the fork and its pages as needed, and keep the map well formed;
    [GetRecordedFreeSpace] then reads the lower bound of that category. *)
Theorem RecordPageWithFreeSpace_correct rel b avail :
  fsm_wf rel -> heap_block b -> 0 <= avail < BLCKSZ ->
  exists rel', RecordPageWithFreeSpace rel b avail = Some rel' /\ fsm_wf rel' /\
    records rel rel' b (fsm_space_avail_to_cat avail) /\
    (rel_consistent rel -> rel_consistent rel') /\
    (exists rel'' n, GetRecordedFreeSpace rel' b = Some (rel'', n) /\
       n = fsm_space_cat_to_avail (fsm_space_avail_to_cat avail) /\ n <= avail /\
       same_recorded rel' rel'') /\
    (exists rel'', XLogRecordPageWithFreeSpace rel b avail = Some rel'' /\ fsm_wf rel'' /\
       if is_segment rel then rel'' = rel
       else records rel rel'' b (fsm_space_avail_to_cat avail)).
Proof.
  intros Hwf Hb Ha. destruct (record_page_spec rel b avail Hwf Hb Ha) as (r & Hrun & Hw & Hr & Hc).
  exists r. split_and!; try done.
  - destruct (get_recorded_spec r b (proj1 Hw) Hb) as (r' & Hg & _ & Hpg). eexists r', _.
    split; [exact Hg|]. assert (Eb : recorded r b = fsm_space_avail_to_cat avail)
      by (rewrite Hr, Z.eqb_refl by done; done).
    rewrite Eb. split; [done|]. split; [apply (category_facts avail 0); lia|].
    intros b' Hb'. rewrite !heap_block_recorded by done. unfold leaf_cat, cat_at. by rewrite Hpg.
  - destruct (xlog_record_page_spec rel b avail Hwf Hb Ha) as (r' & Hx & Hwx & Hrx & _).
    exists r'. done.
Qed.

(** C36 Searching: [GetPageWithFreeSpace] on any well-formed map, however stale
    its upper levels are, returns (the restarts are bounded); it changes no
    recorded category; a request above [MaxFSMRequestSize] is an error, and
    any other is answered with InvalidBlockNumber or with a heap block for
    which at least the requested space is recorded. *)
Theorem GetPageWithFreeSpace_correct rel needed :
  fsm_wf rel -> 0 <= needed ->
  (MaxFSMRequestSize < needed ->
   GetPageWithFreeSpace rel needed = Some (Ereport ERRCODE_DATATYPE_MISMATCH)) /\
  (needed <= MaxFSMRequestSize ->
   exists rel' b, GetPageWithFreeSpace rel needed = Some (Ok (rel', b)) /\ fsm_wf rel' /\
     same_recorded rel rel' /\ (rel_consistent rel -> rel_consistent rel') /\
     (b <> InvalidBlockNumber ->
      heap_block b /\
      exists rel'' n, GetRecordedFreeSpace rel' b = Some (rel'', n) /\ needed <= n)).
Proof.
  intros Hwf Hn. split; intros Hm.
  { unfold GetPageWithFreeSpace. rewrite needed_to_cat_eq by done.
    by destruct (Z.ltb_spec MaxFSMRequestSize needed); [|lia]. }
  destruct (fsm_space_needed_to_cat needed) as [c|] eqn:Ec.
  2: { rewrite needed_to_cat_eq in Ec by done.
       destruct (Z.ltb_spec MaxFSMRequestSize needed); [lia|done]. }
  destruct (get_page_spec rel needed c Hwf Hn Ec) as (r & b & Hrun & Hw & Hs & Hf & Hc).
  exists r, b. split_and!; try done. intros Hne. destruct Hf as [|[Hb Hrec]]; [done|]. split; [done|].
  destruct (get_recorded_spec r b (proj1 Hw) Hb) as (r' & Hg & _ & _). eexists r', _.
  split; [exact Hg|]. pose proof (needed_cat_range needed c Hn Ec) as Hcr.
  destruct (heap_block_location b Hb) as (_ & [_ Hsl] & _ & _).
  assert (Hrr : 0 <= recorded r b <= 255).
  { rewrite heap_block_recorded by done. destruct (proj1 (proj1 Hw)
      (fsm_logical_to_physical (mkAddr 0 (b / SlotsPerFSMPage)))) as [_ Hu].
    specialize (Hu (NonLeafNodesPerPage + b mod SlotsPerFSMPage)).
    pose proof geometry. unfold SlotsPerFSMPage in *. specialize (Hu ltac:(lia)). unfold in_u in Hu.
    unfold leaf_cat, cat_at, slot_avail, FSM_BOTTOM_LEVEL, SlotsPerFSMPage. lia. }
  destruct cat_step as (Hst & Hmx & Hbl). assert (H0 : 0 <= 0 < BLCKSZ) by lia.
  destruct (category_facts 0 needed H0 Hn) as (_ & _ & Hcat).
  destruct (Hcat c Ec) as (_ & Hle & _). rewrite cat_to_avail_eq in Hle by lia.
  rewrite cat_to_avail_eq by lia.
  destruct (Z.eqb_spec (recorded r b) 255); [done|].
  destruct (Z.eqb_spec c 255); [lia|]. nia.
Qed.

(** [RecordAndGetPageWithFreeSpace] records the old page like
    [RecordPageWithFreeSpace] and answers like [GetPageWithFreeSpace]; an
    oversized request is refused before anything is recorded. *)
Theorem RecordAndGetPageWithFreeSpace_correct rel oldPage oldSpaceAvail needed :
  fsm_wf rel -> heap_block oldPage -> 0 <= oldSpaceAvail < BLCKSZ -> 0 <= needed ->
  match fsm_space_needed_to_cat needed with
  | Ereport c => RecordAndGetPageWithFreeSpace rel oldPage oldSpaceAvail needed = Some (Ereport c)
  | Ok c =>
      exists rel' b,
        RecordAndGetPageWithFreeSpace rel oldPage oldSpaceAvail needed = Some (Ok (rel', b)) /\
        fsm_wf rel' /\ records rel rel' oldPage (fsm_space_avail_to_cat oldSpaceAvail) /\
        (b = InvalidBlockNumber \/ (heap_block b /\ c <= recorded rel' b)) /\
        (rel_consistent rel -> rel_consistent rel')
  end.
Proof.
  intros Hwf Hb Ha Hn. destruct (fsm_space_needed_to_cat needed) as [c|c] eqn:Ec.
  - by apply record_and_get_spec.
  - unfold RecordAndGetPageWithFreeSpace. by rewrite Ec.
Qed.

(** [FreeSpaceMapTruncateRel] forgets exactly the heap blocks from
    [nblocks] on: their recorded category becomes 0, that of every other block
    stays, in every case (no fork, fork already shorter, cut inside a page, cut
    at a page boundary), and the map stays well formed. *)
Theorem FreeSpaceMapTruncateRel_correct rel nblocks :
  fsm_wf rel -> heap_block nblocks ->
  exists rel', FreeSpaceMapTruncateRel rel nblocks = Some rel' /\ fsm_wf rel' /\
    (forall b, heap_block b -> recorded rel' b = if b <? nblocks then recorded rel b else 0) /\
    (rel_consistent rel -> rel_consistent rel').
Proof.
  intros Hwf Hb. destruct (truncate_rel_spec rel nblocks (proj1 Hwf) Hb) as (r & Hrun & Hw & Hcut & Hc).
  destruct (truncate_records rel r nblocks Hwf Hw Hcut). exists r. done.
Qed.

(** [FreeSpaceMapVacuum] terminates, changes no recorded category and makes
    the upper levels exact: every slot of an upper page is the root of the page
    it stands for.  On a consistent map a search after it is complete: it
    answers InvalidBlockNumber exactly when no heap block has the category. *)
Theorem FreeSpaceMapVacuum_correct rel :
  fsm_wf rel ->
  exists rel', FreeSpaceMapVacuum rel = Some rel' /\ fsm_wf rel' /\ same_recorded rel rel' /\
    upper_exact rel' /\
    (rel_consistent rel -> rel_consistent rel' /\
     forall needed c, 0 <= needed -> fsm_space_needed_to_cat needed = Ok c ->
     exists rel'' b, GetPageWithFreeSpace rel' needed = Some (Ok (rel'', b)) /\
       (b = InvalidBlockNumber <-> forall b', heap_block b' -> recorded rel' b' < c)).
Proof.
  intros Hwf. destruct (vacuum_spec rel (proj1 Hwf)) as (r & Hrun & Hw & Hs & He & Hc).
  assert (Hf : fsm_wf r) by (split; [done|by eapply no_space_same, Hwf]).
  exists r. split_and!; try done; [by apply leaves_recorded|].
  intros Hcons. split; [auto|]. intros n c Hn Ec.
  destruct (get_page_spec r n c Hf Hn Ec) as (r2 & b & Hg & _ & Hsame & Hfound & _).
  exists r2, b. split; [done|]. split.
  - by eapply get_page_complete; auto.
  - intros Hall. destruct Hfound as [|[Hb Hrec]]; [done|]. rewrite Hsame in Hrec by done.
    specialize (Hall b Hb). lia.
Qed.

(** [UpdateFreeSpaceMap] terminates and changes only upper pages, when the
    last leaf page of the range holds block numbers only. *)
Theorem UpdateFreeSpaceMap_correct rel startBlk endBlk freespace search :
  fsm_wf rel -> 0 <= startBlk -> heap_block endBlk -> 0 <= freespace < BLCKSZ ->
  page_of_block_fits endBlk ->
  exists rel', UpdateFreeSpaceMap rel startBlk endBlk freespace search = Some rel' /\ fsm_wf rel' /\
    same_recorded rel rel' /\ (rel_consistent rel -> rel_consistent rel').
Proof.
  intros Hwf Hs He Hf Hfit. unfold UpdateFreeSpaceMap.
  destruct (update_loop_spec (S (Z.to_nat (endBlk - startBlk + 1))) rel startBlk endBlk
    (fsm_space_avail_to_cat freespace) search (proj1 Hwf) Hs He Hfit (avail_cat_range _ Hf))
    as (r & -> & Hw & Hsl & Hc); [lia|].
  exists r. split_and!; try done; [split; [done|by eapply no_space_same, Hwf]|by apply leaves_recorded].
Qed.

(** On a range that ends in the last leaf page of a relation of maximal
    size the loop of [UpdateFreeSpaceMap] never ends: [lastBlkOnPage] wraps
    around 2^32, is below [endBlkNum] for ever, and no fuel is enough. *)
Theorem UpdateFreeSpaceMap_never_returns rel startBlk endBlk freespace search fuel :
  rel_wf rel -> 0 <= startBlk <= endBlk -> heap_block endBlk -> 0 <= freespace < BLCKSZ ->
  2 ^ 32 < endBlk / SlotsPerFSMPage * SlotsPerFSMPage + SlotsPerFSMPage ->
  update_loop fuel rel startBlk endBlk (fsm_space_avail_to_cat freespace) search = None.
Proof. intros Hwf Hs He Hf Ho. apply update_loop_wraps; try done. by apply avail_cat_range. Qed.
End FreeSpaceProperties.

(** ** The properties on a concrete map

    The map of the smallest geometry after space was recorded for heap block
    120, and the empty map. *)

Definition rel_empty : Relation := mkRel false [] InvalidBlockNumber false.

Lemma rel_empty_wf {bs : BlockSize} : fsm_wf rel_empty /\ rel_consistent rel_empty.
Proof.
  assert (E : forall b, block_page rel_empty b = PageInit).
  { intros b. unfold block_page, zlookup. cbn [rel_empty fork_blocks]. by destruct (0 <=? b). }
  split; [split; [split|]|].
  - intros b. rewrite E. apply PageInit_wf.
  - split; [by left|]. done.
  - intros q s [_ Hs] _. unfold leaf_cat, cat_at. by rewrite E, PageInit_slot.
  - intros b. rewrite E. apply PageInit_consistent.
Qed.

Lemma heap_block_example {bs : BlockSize} b : 0 <= b < 10000 -> heap_block b.
Proof.
  intros Hb. split; [unfold InvalidBlockNumber; lia|]. pose proof SlotsPerFSMPage_range.
  unfold leaf_pages. pose proof depth_pos as [Hd HR].
  assert (SlotsPerFSMPage ^ 2 <= SlotsPerFSMPage ^ FSM_ROOT_LEVEL) by (apply Z.pow_le_mono_r; lia). nia.
Qed.

Lemma fsm_logical_to_physical_layout_witness :
  0 <= fsm_logical_to_physical (bs := block_256) (mkAddr 1 1) < InvalidBlockNumber /\
  fsm_logical_to_physical (bs := block_256) (mkAddr 0 102) = 106.
Proof.
  assert (Hv : valid_addr (bs := block_256) (mkAddr 1 1)) by (vm_compute; repeat split; congruence).
  split; [apply (fsm_logical_to_physical_layout (bs := block_256) (mkAddr 1 1) Hv)|reflexivity].
Defined.

Lemma fsm_navigation_roundtrip_witness :
  fsm_get_parent (bs := block_256) (fsm_get_child (bs := block_256) (mkAddr 1 1) (u16 7)) =
    (mkAddr 1 1, 7).
Proof.
  apply (fsm_navigation_roundtrip (bs := block_256) 120 (mkAddr 1 1) 7).
  - apply (heap_block_example (bs := block_256)). lia.
  - vm_compute; repeat split; congruence.
  - reflexivity.
  - vm_compute; split; congruence.
Defined.

Lemma fsm_space_category_sound_witness :
  fsm_space_cat_to_avail (bs := block_8k) (fsm_space_avail_to_cat (bs := block_8k) 5000) <= 5000.
Proof.
  apply (fsm_space_category_sound (bs := block_8k) 5000 100);
    (split || idtac); vm_compute; congruence.
Defined.

Lemma RecordPageWithFreeSpace_correct_witness :
  exists rel', RecordPageWithFreeSpace (bs := block_256) rel_empty 120 100 = Some rel' /\
    recorded (bs := block_256) rel' 120 = 100.
Proof.
  destruct (RecordPageWithFreeSpace_correct (bs := block_256) rel_empty 120 100)
    as (rel' & Hrun & _ & Hrec & _).
  - apply rel_empty_wf.
  - apply heap_block_example. lia.
  - vm_compute; split; congruence.
  - exists rel'. split; [exact Hrun|]. rewrite Hrec; [reflexivity|]. apply heap_block_example. lia.
Defined.

(** The map after that. *)
Definition rel_example : Relation :=
  match RecordPageWithFreeSpace (bs := block_256) rel_empty 120 100 with
  | Some rel => rel
  | None => rel_empty
  end.

Lemma rel_example_wf : fsm_wf (bs := block_256) rel_example /\ rel_consistent (bs := block_256) rel_example.
Proof.
  pose proof (rel_empty_wf (bs := block_256)) as [Hw Hc].
  destruct (record_page_spec (bs := block_256) rel_empty 120 100 Hw) as (r & Hrun & Hw' & _ & Hc').
  - apply heap_block_example. lia.
  - vm_compute; split; congruence.
  - unfold rel_example. rewrite Hrun. auto.
Qed.

Lemma GetPageWithFreeSpace_correct_witness :
  GetPageWithFreeSpace (bs := block_256) rel_example 300 = Some (Ereport ERRCODE_DATATYPE_MISMATCH).
Proof.
  apply (GetPageWithFreeSpace_correct (bs := block_256) rel_example 300).
  - apply rel_example_wf.
  - lia.
  - reflexivity.
Defined.

Lemma RecordAndGetPageWithFreeSpace_correct_witness :
  exists rel' b, RecordAndGetPageWithFreeSpace (bs := block_256) rel_example 121 50 80 = Some (Ok (rel', b)) /\
    fsm_wf (bs := block_256) rel'.
Proof.
  pose proof (RecordAndGetPageWithFreeSpace_correct (bs := block_256) rel_example 121 50 80
    (proj1 rel_example_wf) ltac:(apply heap_block_example; lia) ltac:(vm_compute; split; congruence)
    ltac:(lia)) as H.
  destruct H as (rel' & b & Hrun & Hwf & _). exists rel', b. split; [exact Hrun|exact Hwf].
Defined.

Lemma FreeSpaceMapTruncateRel_correct_witness :
  exists rel', FreeSpaceMapTruncateRel (bs := block_256) rel_example 110 = Some rel' /\
    recorded (bs := block_256) rel' 120 = 0.
Proof.
  destruct (FreeSpaceMapTruncateRel_correct (bs := block_256) rel_example 110)
    as (rel' & Hrun & _ & Hrec & _).
  - apply rel_example_wf.
  - apply heap_block_example. lia.
  - exists rel'. split; [exact Hrun|]. rewrite Hrec; [reflexivity|]. apply heap_block_example. lia.
Defined.

Lemma FreeSpaceMapVacuum_correct_witness :
  exists rel', FreeSpaceMapVacuum (bs := block_256) rel_example = Some rel' /\
    upper_exact (bs := block_256) rel'.
Proof.
  destruct (FreeSpaceMapVacuum_correct (bs := block_256) rel_example) as (rel' & Hrun & _ & _ & He & _).
  - apply rel_example_wf.
  - exists rel'. split; [exact Hrun|exact He].
Defined.

Lemma UpdateFreeSpaceMap_correct_witness :
  exists rel', UpdateFreeSpaceMap (bs := block_256) rel_example 90 220 60 true = Some rel' /\
    fsm_wf (bs := block_256) rel'.
Proof.
  destruct (UpdateFreeSpaceMap_correct (bs := block_256) rel_example 90 220 60 true)
    as (rel' & Hrun & Hwf & _).
  - apply rel_example_wf.
  - lia.
  - apply heap_block_example. lia.
  - vm_compute; split; congruence.
  - vm_compute. congruence.
  - exists rel'. split; [exact Hrun|exact Hwf].
Defined.

Lemma UpdateFreeSpaceMap_never_returns_witness :
  update_loop (bs := block_8k) 3 rel_empty 4294967290 4294967290
    (fsm_space_avail_to_cat (bs := block_8k) 100) true = None.
Proof.
  apply (UpdateFreeSpaceMap_never_returns (bs := block_8k)).
  - apply rel_empty_wf.
  - lia.
  - split; vm_compute; [split|]; congruence.
  - split; vm_compute; congruence.
  - vm_compute. congruence.
Defined.

(** A search finds the block that was recorded. *)
Example search_example :
  option_map (fun r => match r with Ok (_, b) => Some b | Ereport _ => None end)
    (GetPageWithFreeSpace (bs := block_256) rel_example 80) = Some (Some InvalidBlockNumber) /\
  (rel ← FreeSpaceMapVacuum (bs := block_256) rel_example;
   option_map (fun r => match r with Ok (_, b) => Some b | Ereport _ => None end)
     (GetPageWithFreeSpace (bs := block_256) rel 80)) = Some (Some 120).
Proof. split; vm_compute; reflexivity. Qed.
