(* ===== verification/BufPage.v ===== *)
(** The layout of a disk page
    ([src/src/gausskernel/storage/access/redo/redo_bufpage.cpp],
    [storage/page/bufpage.cpp], [src/src/include/storage/buf/bufpage.h],
    [storage/item/itemid.h]).

    A page is one array of BLCKSZ bytes: a header, the array of line pointers
    that grows upwards to [pd_lower], free space, the items that grow downwards
    to [pd_upper], and the special space.  The model keeps the header fields,
    the line pointers ([pd_linp], those below [pd_lower]) and the bytes
    ([pd_data], indexed by the offset in the page) apart; a write of bytes
    that would touch the line pointers, or leave the page, has no result
    ([Outside]), so that theorems about results justify the separation.
    [Report] is [ereport(ERROR)] or [PANIC]; what was already changed on the
    page then does not matter to the theorems. *)
From S2P Require Import Prelude FsmPage FreeSpace.
From stdpp Require Import sorting.
#[local] Open Scope Z_scope.

(** ** Line pointers *)

Record ItemIdData := MkItemId { lp_off : Z; lp_flags : Z; lp_len : Z }.

Definition LP_UNUSED : Z := 0.
Definition LP_NORMAL : Z := 1.
Definition LP_REDIRECT : Z := 2.
Definition LP_DEAD : Z := 3.

Definition ItemIdIsUsed (lp : ItemIdData) : bool := negb (lp_flags lp =? LP_UNUSED).
Definition ItemIdHasStorage (lp : ItemIdData) : bool := negb (lp_len lp =? 0).
Definition ItemIdSetUnused : ItemIdData := MkItemId 0 LP_UNUSED 0.
(** [lp_off] and [lp_len] have 15 bits. *)
Definition ItemIdSetNormal (off len : Z) : ItemIdData := MkItemId (uN 15 off) LP_NORMAL (uN 15 len).
Definition set_lp_off (lp : ItemIdData) (off : Z) : ItemIdData :=
  MkItemId (uN 15 off) (lp_flags lp) (lp_len lp).

(** ** Pages

    [pd_lsn], [pd_checksum] and [pd_prune_xid] play no part in the layout. *)

Record PageHeaderData := MkBufPage {
  pd_flags : Z;
  pd_lower : Z;
  pd_upper : Z;
  pd_special : Z;
  pd_pagesize_version : Z;
  pd_linp : list ItemIdData;
  pd_data : list Z }.

Definition set_pd_flags (f : Z) (p : PageHeaderData) : PageHeaderData :=
  MkBufPage f (pd_lower p) (pd_upper p) (pd_special p) (pd_pagesize_version p) (pd_linp p) (pd_data p).
Definition set_bounds (lower upper : Z) (p : PageHeaderData) : PageHeaderData :=
  MkBufPage (pd_flags p) lower upper (pd_special p) (pd_pagesize_version p) (pd_linp p) (pd_data p).
Definition set_linp (l : list ItemIdData) (p : PageHeaderData) : PageHeaderData :=
  MkBufPage (pd_flags p) (pd_lower p) (pd_upper p) (pd_special p) (pd_pagesize_version p) l (pd_data p).
Definition set_data (d : list Z) (p : PageHeaderData) : PageHeaderData :=
  MkBufPage (pd_flags p) (pd_lower p) (pd_upper p) (pd_special p) (pd_pagesize_version p) (pd_linp p) d.
Definition set_special (special : Z) (p : PageHeaderData) : PageHeaderData :=
  MkBufPage (pd_flags p) (pd_lower p) (pd_upper p) special (pd_pagesize_version p) (pd_linp p) (pd_data p).

Definition PD_HAS_FREE_LINES : Z := 0x0001.
Definition PD_ALL_VISIBLE : Z := 0x0004.
Definition PD_COMPRESSED_PAGE : Z := 0x0008.
Definition PD_VALID_FLAG_BITS : Z := 0x01FF.

Definition PG_SEGMENT_PAGE_LAYOUT_VERSION : Z := 8.
Definition PG_HEAP_PAGE_LAYOUT_VERSION : Z := 6.
Definition PG_COMM_PAGE_LAYOUT_VERSION : Z := 5.

Definition has_flag (p : PageHeaderData) (b : Z) : bool := negb (Z.land (pd_flags p) b =? 0).
Definition PageHasFreeLinePointers (p : PageHeaderData) : bool := has_flag p PD_HAS_FREE_LINES.
Definition PageSetHasFreeLinePointers (p : PageHeaderData) : PageHeaderData :=
  set_pd_flags (Z.lor (pd_flags p) PD_HAS_FREE_LINES) p.
Definition PageClearHasFreeLinePointers (p : PageHeaderData) : PageHeaderData :=
  set_pd_flags (Z.land (pd_flags p) (Z.lnot PD_HAS_FREE_LINES)) p.
Definition PageIsAllVisible (p : PageHeaderData) : bool := has_flag p PD_ALL_VISIBLE.
Definition PageIsCompressed (p : PageHeaderData) : bool := has_flag p PD_COMPRESSED_PAGE.
Definition PageSetCompressed (p : PageHeaderData) : PageHeaderData :=
  set_pd_flags (Z.lor (pd_flags p) PD_COMPRESSED_PAGE) p.
Definition PageClearCompressed (p : PageHeaderData) : PageHeaderData :=
  set_pd_flags (Z.land (pd_flags p) (Z.lnot PD_COMPRESSED_PAGE)) p.

Definition PageGetPageSize (p : PageHeaderData) : Z := Z.land (pd_pagesize_version p) 0xFF00.
Definition PageGetPageLayoutVersion (p : PageHeaderData) : Z := Z.land (pd_pagesize_version p) 0x00FF.
Definition PageIs8BXidHeapVersion (p : PageHeaderData) : bool :=
  PageGetPageLayoutVersion p =? PG_HEAP_PAGE_LAYOUT_VERSION.
Definition GetPageHeaderSize (p : PageHeaderData) : Z :=
  if PageIs8BXidHeapVersion p then SizeOfHeapPageHeaderData else SizeOfPageHeaderData.
Definition PageIsEmpty (p : PageHeaderData) : bool := pd_lower p <=? GetPageHeaderSize p.
Definition PageGetSpecialSize (p : PageHeaderData) : Z := u16 (PageGetPageSize p - pd_special p).

Definition PageGetMaxOffsetNumber (p : PageHeaderData) : Z :=
  if pd_lower p <=? GetPageHeaderSize p then 0
  else u16 (Z.quot (pd_lower p - GetPageHeaderSize p) sizeof_ItemIdData).
Definition OffsetNumberNext (n : Z) : Z := u16 (1 + n).

Definition PageGetItemId (p : PageHeaderData) (n : Z) : run ItemIdData := inside (zlookup (pd_linp p) (n - 1)).
Definition put_item_id (p : PageHeaderData) (n : Z) (lp : ItemIdData) : run PageHeaderData :=
  l ← inside (zupdate (pd_linp p) (n - 1) lp);
  mret (set_linp l p).

(** *** Bytes *)

Definition slice {A} (l : list A) (off len : Z) : list A := take (Z.to_nat len) (drop (Z.to_nat off) l).
Definition splice {A} (l : list A) (off : Z) (bytes : list A) : list A :=
  take (Z.to_nat off) l ++ bytes ++ drop (Z.to_nat off + length bytes) l.

(** The end of the array of line pointers. *)
Definition linp_end (p : PageHeaderData) : Z := GetPageHeaderSize p + sizeof_ItemIdData * zlen (pd_linp p).

Definition page_read (p : PageHeaderData) (off len : Z) : run (list Z) :=
  if (0 <=? off) && (0 <=? len) && (off + len <=? zlen (pd_data p))
  then Done (slice (pd_data p) off len) else Outside.
Definition page_write (p : PageHeaderData) (off : Z) (bytes : list Z) : run PageHeaderData :=
  if (linp_end p <=? off) && (off + zlen bytes <=? zlen (pd_data p))
  then Done (set_data (splice (pd_data p) off bytes) p) else Outside.

Section Page.
Context {bs : BlockSize}.

(** 23 and 8: the offset of [t_bits] in [HeapTupleHeaderData] and the size of
    [IndexTupleData]. *)
Definition MaxHeapTuplesPerPage : Z :=
  Z.quot (BLCKSZ - SizeOfHeapPageHeaderData) (MAXALIGN 23 + sizeof_ItemIdData).
Definition MaxIndexTuplesPerPage : Z :=
  Z.quot (BLCKSZ - SizeOfPageHeaderData) (MAXALIGN (8 + 1) + sizeof_ItemIdData).

(** ** Initialisation *)

Definition zeroes : list Z := replicate (Z.to_nat BLCKSZ) 0.

Definition PageInit (specialSize : Z) (isHeap : bool) : PageHeaderData :=
  let specialSize := MAXALIGN specialSize in
  {| pd_flags := 0;
     pd_lower := if isHeap then SizeOfHeapPageHeaderData else SizeOfPageHeaderData;
     pd_upper := u16 (BLCKSZ - specialSize);
     pd_special := u16 (BLCKSZ - specialSize);
     pd_pagesize_version :=
       Z.lor BLCKSZ (if isHeap then PG_HEAP_PAGE_LAYOUT_VERSION else PG_COMM_PAGE_LAYOUT_VERSION);
     pd_linp := [];
     pd_data := zeroes |}.

Definition SegPageInit : PageHeaderData :=
  {| pd_flags := 0;
     pd_lower := SizeOfPageHeaderData;
     pd_upper := u16 BLCKSZ;
     pd_special := u16 BLCKSZ;
     pd_pagesize_version := Z.lor BLCKSZ PG_SEGMENT_PAGE_LAYOUT_VERSION;
     pd_linp := [];
     pd_data := zeroes |}.

Definition PageReinitWithDict (p : PageHeaderData) (dictSize : Z) : PageHeaderData :=
  let p := PageSetCompressed p in
  let upper := u16 (PageGetPageSize p - MAXALIGN dictSize) in
  set_special upper (set_bounds (pd_lower p) upper p).

Definition PageGetTempPageCopySpecial (p : PageHeaderData) : run PageHeaderData :=
  let temp := PageInit (PageGetSpecialSize p) false in
  special ← page_read p (pd_special p) (PageGetSpecialSize p);
  page_write temp (pd_special temp) special.

(** A new page has no line pointers, all its bytes are in [pd_data]. *)
Definition PageHeaderIsValid (p : PageHeaderData) : bool :=
  if (PageGetPageSize p =? BLCKSZ)
     && ((PageGetPageLayoutVersion p =? PG_COMM_PAGE_LAYOUT_VERSION)
         || (PageGetPageLayoutVersion p =? PG_HEAP_PAGE_LAYOUT_VERSION)
         || (PageGetPageLayoutVersion p =? PG_SEGMENT_PAGE_LAYOUT_VERSION))
     && (Z.land (pd_flags p) (Z.lnot PD_VALID_FLAG_BITS) =? 0) && (GetPageHeaderSize p <=? pd_lower p)
     && (pd_lower p <=? pd_upper p) && (pd_upper p <=? pd_special p) && (pd_special p <=? BLCKSZ)
     && (pd_special p =? MAXALIGN (pd_special p))
  then true
  else if negb (pd_lower p =? 0) || negb (pd_upper p =? 0) || negb (pd_special p =? 0)
          || negb (pd_pagesize_version p =? 0)
  then false
  else forallb (Z.eqb 0) (drop (Z.to_nat (GetPageHeaderSize p)) (pd_data p)).

(** ** Free space *)

Definition PageGetExactFreeSpace (p : PageHeaderData) : Z :=
  let space := pd_upper p - pd_lower p in
  if space <? 0 then 0 else space.

Definition PageGetFreeSpace (p : PageHeaderData) : Z :=
  let space := pd_upper p - pd_lower p in
  if space <? sizeof_ItemIdData then 0 else space - sizeof_ItemIdData.

Definition PageGetFreeSpaceForMultipleTuples (p : PageHeaderData) (ntups : Z) : Z :=
  let space := pd_upper p - pd_lower p in
  if space <? s32 (u64 (ntups * sizeof_ItemIdData)) then 0 else space - ntups * sizeof_ItemIdData.

(** The search for an unused line pointer from [n] on, up to [limit]
    (exclusive); [storage] says that the loop also demands that the line
    pointer has no storage. *)
Fixpoint find_unused (fuel : nat) (storage : bool) (p : PageHeaderData) (n limit : Z) : run Z :=
  match fuel with
  | O => Outside
  | S fuel =>
      if n <? limit then
        lp ← PageGetItemId p n;
        if negb (ItemIdIsUsed lp) && negb (storage && ItemIdHasStorage lp) then mret n
        else find_unused fuel storage p (n + 1) limit
      else mret n
  end.

Definition PageGetHeapFreeSpace (p : PageHeaderData) : run Z :=
  let space := PageGetFreeSpace p in
  if 0 <? space then
    let nline := PageGetMaxOffsetNumber p in
    if MaxHeapTuplesPerPage <=? nline then
      if PageHasFreeLinePointers p then
        offnum ← find_unused (Z.to_nat (nline + 1)) false p 1 (nline + 1);
        mret (if nline <? offnum then 0 else space)
      else mret 0
    else mret space
  else mret space.

(** ** PageAddItem *)

Definition InvalidOffsetNumber : Z := 0.
Definition MaxOffsetNumber : Z := u16 (Z.quot BLCKSZ sizeof_ItemIdData).
Definition OffsetNumberIsValid (offsetNumber : Z) : bool :=
  negb (offsetNumber =? InvalidOffsetNumber) && (offsetNumber <=? MaxOffsetNumber).

(** Where the item goes, and whether line pointers move up; [None] when the
    given place is taken. *)
Definition select_offset (p : PageHeaderData) (limit offsetNumber : Z) (overwrite : bool) :
  run (option (Z * bool) * PageHeaderData) :=
  if OffsetNumberIsValid offsetNumber then
    if overwrite then
      if offsetNumber <? limit then
        lp ← PageGetItemId p offsetNumber;
        mret (if ItemIdIsUsed lp || ItemIdHasStorage lp then None else Some (offsetNumber, false), p)
      else mret (Some (offsetNumber, false), p)
    else mret (Some (offsetNumber, offsetNumber <? limit), p)
  else if PageHasFreeLinePointers p then
    n ← find_unused (Z.to_nat limit) true p 1 limit;
    mret (Some (n, false), if limit <=? n then PageClearHasFreeLinePointers p else p)
  else mret (Some (limit, false), p).

Definition header_corrupted (headersize : Z) (p : PageHeaderData) : bool :=
  (pd_lower p <? headersize) || (pd_upper p <? pd_lower p) || (pd_special p <? pd_upper p)
  || (BLCKSZ <? pd_special p).

Definition PageAddItem (p : PageHeaderData) (item : list Z) (offsetNumber : Z) (overwrite is_heap : bool) :
  run (Z * PageHeaderData) :=
  let size := zlen item in
  if header_corrupted (GetPageHeaderSize p) p then Report ERRCODE_DATA_CORRUPTED
  else
    let limit := OffsetNumberNext (PageGetMaxOffsetNumber p) in
    r ← select_offset p limit offsetNumber overwrite;
    let '(choice, p) := r in
    match choice with
    | None => mret (InvalidOffsetNumber, p)
    | Some (offsetNumber, needshuffle) =>
        if limit <? offsetNumber then mret (InvalidOffsetNumber, p)
        else if is_heap && (MaxHeapTuplesPerPage <? offsetNumber) then mret (InvalidOffsetNumber, p)
        else
          let lower := if (offsetNumber =? limit) || needshuffle
                       then pd_lower p + sizeof_ItemIdData else pd_lower p in
          let upper := pd_upper p - MAXALIGN size in
          if upper <? lower then mret (InvalidOffsetNumber, p)
          else
            let lp := ItemIdSetNormal upper size in
            p ← (if (offsetNumber =? limit) || needshuffle
                 then Done (set_linp (take (Z.to_nat (offsetNumber - 1)) (pd_linp p) ++ [lp]
                                      ++ drop (Z.to_nat (offsetNumber - 1)) (pd_linp p)) p)
                 else put_item_id p offsetNumber lp);
            p ← page_write p upper item;
            mret (offsetNumber, set_bounds (u16 lower) (u16 upper) p)
    end.

(** ** PageIndexTupleDelete

    The line pointers are moved in the array of [PageHeaderData], which is not
    where a page with the heap header has them: such a page has no result. *)

Definition PageIndexTupleDelete (p : PageHeaderData) (offnum : Z) : run PageHeaderData :=
  if header_corrupted SizeOfPageHeaderData p then Report ERRCODE_DATA_CORRUPTED
  else
    let nline := PageGetMaxOffsetNumber p in
    if (offnum <=? 0) || (nline <? offnum)
    then Report ERRCODE_INVALID_ROW_COUNT_IN_RESULT_OFFSET_CLAUSE
    else if PageIs8BXidHeapVersion p then Outside
    else
      tup ← PageGetItemId p offnum;
      let size := lp_len tup in
      let offset := lp_off tup in
      if (offset <? pd_upper p) || (pd_special p <? offset + size) || negb (offset =? MAXALIGN offset)
         || negb (size =? MAXALIGN size)
      then Report ERRCODE_DATA_CORRUPTED
      else
        let p := set_linp (take (Z.to_nat (offnum - 1)) (pd_linp p) ++ drop (Z.to_nat offnum) (pd_linp p)) p in
        p ← (if pd_upper p <? offset then
               bytes ← page_read p (pd_upper p) (offset - pd_upper p);
               page_write p (pd_upper p + size) bytes
             else mret p);
        let p := set_bounds (u16 (pd_lower p - sizeof_ItemIdData)) (u16 (pd_upper p + size)) p in
        if negb (PageIsEmpty p)
        then mret (set_linp ((fun ii => if lp_off ii <=? offset then set_lp_off ii (lp_off ii + size) else ii)
                             <$> pd_linp p) p)
        else mret p.

(** ** Compaction *)

Record itemIdSortData := MkSort {
  offsetindex : Z;
  itemoff : Z;
  alignedlen : Z;
  olditemid : ItemIdData }.

(** The order for [qsort]: decreasing [itemoff].  The offsets of items with
    storage differ, so every correct sort gives the same array. *)
Definition ItemOffCompare (a b : itemIdSortData) : Prop := itemoff b <= itemoff a.
#[global] Instance ItemOffCompare_dec : RelDecision ItemOffCompare := fun a b => decide (itemoff b <= itemoff a).

(** The loop that moves the items to the end of the page.  [install] is what
    it stores in the line pointer: the old one ([PageIndexMultiDelete]), or
    the one that is there. *)
Fixpoint compactify (install : bool) (items : list itemIdSortData) (upper : Z) (p : PageHeaderData) :
  run (Z * PageHeaderData) :=
  match items with
  | [] => mret (upper, p)
  | it :: items =>
      let upper := upper - alignedlen it in
      bytes ← page_read p (itemoff it) (alignedlen it);
      p ← page_write p upper bytes;
      lp ← PageGetItemId p (offsetindex it + 1);
      p ← put_item_id p (offsetindex it + 1) (set_lp_off (if install then olditemid it else lp) upper);
      compactify install items upper p
  end.

(** The array [itemidbase] on the stack has [max] entries. *)
Definition sort_and_move (install : bool) (max : Z) (items : list itemIdSortData) (p : PageHeaderData) :
  run (Z * PageHeaderData) :=
  if max <? zlen items then Outside
  else if pd_special p - pd_lower p <? foldr Z.add 0 (alignedlen <$> items) then Report ERRCODE_DATA_CORRUPTED
  else compactify install (merge_sort ItemOffCompare items) (pd_special p) p.

(** *** PageRepairFragmentation *)

Definition make_unused (lp : ItemIdData) : ItemIdData := if ItemIdIsUsed lp then lp else ItemIdSetUnused.

(** The entries of [itemidbase], from line pointer [i] on. *)
Fixpoint repair_items (p : PageHeaderData) (i : Z) (linp : list ItemIdData) : run (list itemIdSortData) :=
  match linp with
  | [] => mret []
  | lp :: linp =>
      if ItemIdHasStorage lp then
        if (lp_off lp <? pd_upper p) || (pd_special p <=? lp_off lp) then Report ERRCODE_DATA_CORRUPTED
        else
          rest ← repair_items p (i + 1) linp;
          mret (MkSort i (lp_off lp) (MAXALIGN (lp_len lp)) lp :: rest)
      else repair_items p (i + 1) linp
  end.

Definition PageRepairFragmentation (p : PageHeaderData) : run PageHeaderData :=
  if header_corrupted SizeOfPageHeaderData p || negb (pd_special p =? MAXALIGN (pd_special p))
  then Report ERRCODE_DATA_CORRUPTED
  else
    let nline := PageGetMaxOffsetNumber p in
    if zlen (pd_linp p) <? nline then Outside
    else
      let p := set_linp (make_unused <$> pd_linp p) p in
      let nunused := existsb (fun lp => negb (ItemIdIsUsed lp)) (pd_linp p) in
      p ← (if negb (existsb ItemIdHasStorage (pd_linp p)) then mret (set_bounds (pd_lower p) (pd_special p) p)
           else
             items ← repair_items p 0 (pd_linp p);
             r ← sort_and_move false MaxHeapTuplesPerPage items p;
             let '(upper, p) := (r : Z * PageHeaderData) in
             mret (set_bounds (pd_lower p) (u16 upper) p));
      mret (if nunused then PageSetHasFreeLinePointers p else PageClearHasFreeLinePointers p).

(** *** PageIndexMultiDelete

    [pd_lower] is set from the size of [PageHeaderData]: again a page with the
    heap header has no result. *)

(** [PageIndexTupleDelete] for the item numbers in reverse order. *)
Fixpoint delete_each (p : PageHeaderData) (itemnos : list Z) : run PageHeaderData :=
  match itemnos with
  | [] => mret p
  | n :: itemnos => p ← delete_each p itemnos; PageIndexTupleDelete p n
  end.

(** The items to keep, from item number [offnum] on, with [nused] kept so far,
    and what is left of the item numbers to delete. *)
Fixpoint items_to_keep (p : PageHeaderData) (offnum nused : Z) (itemnos : list Z) (linp : list ItemIdData) :
  run (list itemIdSortData * list Z) :=
  match linp with
  | [] => mret ([], itemnos)
  | lp :: linp =>
      let size := lp_len lp in
      let offset := lp_off lp in
      if (offset <? pd_upper p) || (pd_special p <? offset + size) || negb (offset =? MAXALIGN offset)
      then Report ERRCODE_DATA_CORRUPTED
      else match itemnos with
      | n :: rest =>
          if offnum =? n then items_to_keep p (offnum + 1) nused rest linp
          else
            r ← items_to_keep p (offnum + 1) (nused + 1) itemnos linp;
            mret (MkSort nused offset (MAXALIGN size) lp :: fst r, snd r)
      | [] =>
          r ← items_to_keep p (offnum + 1) (nused + 1) itemnos linp;
          mret (MkSort nused offset (MAXALIGN size) lp :: fst r, snd r)
      end
  end.

Definition PAGE_INDEX_CAN_TUPLE_DELETE : Z := 2.

Definition PageIndexMultiDelete (p : PageHeaderData) (itemnos : list Z) : run PageHeaderData :=
  if zlen itemnos <=? PAGE_INDEX_CAN_TUPLE_DELETE then delete_each p itemnos
  else if header_corrupted (GetPageHeaderSize p) p || negb (pd_special p =? MAXALIGN (pd_special p))
  then Report ERRCODE_DATA_CORRUPTED
  else
    r ← items_to_keep p 1 0 itemnos (pd_linp p);
    let '(items, remaining) := (r : list itemIdSortData * list Z) in
    match remaining with
    | _ :: _ => Report ERRCODE_INVALID_ROW_COUNT_IN_RESULT_OFFSET_CLAUSE
    | [] =>
        if PageIs8BXidHeapVersion p then Outside
        else
        r ← sort_and_move true MaxIndexTuplesPerPage items p;
        let '(upper, p) := (r : Z * PageHeaderData) in
        mret (set_bounds (u16 (SizeOfPageHeaderData + sizeof_ItemIdData * zlen items)) (u16 upper)
                (set_linp (take (length items) (pd_linp p)) p))
    end.

(** ** Dictionaries of compressed pages *)

(** [HEAP_TUPLE_IS_COMPRESSED]: a bit of [t_infomask], the 16-bit word at
    offset 20 of the tuple, little-endian. *)
Definition HEAP_COMPRESSED : Z := 0x0010.
Definition tuple_is_compressed (p : PageHeaderData) (lp : ItemIdData) : run bool :=
  bytes ← page_read p (lp_off lp + 20) 2;
  lo ← inside (zlookup bytes 0);
  hi ← inside (zlookup bytes 1);
  mret (negb (Z.land (lo + 256 * hi) HEAP_COMPRESSED =? 0)).

Fixpoint any_compressed (p : PageHeaderData) (linp : list ItemIdData) : run bool :=
  match linp with
  | [] => mret false
  | lp :: linp =>
      if ItemIdIsUsed lp && ItemIdHasStorage lp then
        c ← tuple_is_compressed p lp;
        if c : bool then mret true else any_compressed p linp
      else any_compressed p linp
  end.

Definition PageCheckAndFreeDict (p : PageHeaderData) : run (bool * PageHeaderData) :=
  if header_corrupted (GetPageHeaderSize p) p then Report ERRCODE_DATA_CORRUPTED
  else
    c ← any_compressed p (pd_linp p);
    if c : bool then mret (false, p)
    else
      let pageSize := PageGetPageSize p in
      let dictsize := PageGetSpecialSize p in
      let pdUpper := pd_upper p + dictsize in
      let tupsSize := pageSize - dictsize - pd_upper p in
      p ← (if 0 <? tupsSize then
             bytes ← page_read p (pd_upper p) tupsSize;
             page_write p pdUpper bytes
           else mret p);
      let p := set_linp ((fun lp => if negb (ItemIdIsUsed lp) || negb (ItemIdHasStorage lp) then lp
                                    else ItemIdSetNormal (lp_off lp + dictsize) (lp_len lp)) <$> pd_linp p) p in
      mret (true, PageClearCompressed (set_special (u16 pageSize) (set_bounds (pd_lower p) (u16 pdUpper) p))).

Definition PageFreeDict (p : PageHeaderData) : run (bool * PageHeaderData) :=
  if PageIsEmpty p then mret (true, PageClearCompressed (set_bounds (pd_lower p) (pd_special p) p))
  else if PageIsAllVisible p then PageCheckAndFreeDict p
  else mret (false, p).
End Page.
