(* ===== verification/BufPageSpec.v ===== *)
(** Contracts of the page layout (BufPage.v): the invariant [page_ok] of a
    page, its abstract content [page_view] (what a reader finds behind every
    line pointer), and what every operation does to both. *)
From S2P Require Import Prelude FsmPage FreeSpace BufPage.
From stdpp Require Import sorting.
#[local] Open Scope Z_scope.

(** ** Byte ranges *)

Section Bytes.
Context {A : Type}.
Implicit Types l bytes : list A.

Lemma lookup_slice l off n i :
  0 <= off -> 0 <= n ->
  slice l off n !! i = if decide (i < Z.to_nat n)%nat then l !! (Z.to_nat off + i)%nat else None.
Proof.
  intros. unfold slice. case_decide as Hi.
  - by rewrite lookup_take_lt, lookup_drop.
  - apply lookup_take_ge. lia.
Qed.

Lemma lookup_splice l off bytes i :
  0 <= off -> off + zlen bytes <= zlen l ->
  splice l off bytes !! i =
    if decide (Z.to_nat off <= i < Z.to_nat off + length bytes)%nat then bytes !! (i - Z.to_nat off)%nat
    else l !! i.
Proof.
  unfold splice, zlen. intros Ho Hl.
  assert (Ht : length (take (Z.to_nat off) l) = Z.to_nat off) by (rewrite length_take; lia).
  case_decide as Hi.
  - rewrite lookup_app_r, lookup_app_l by lia. by rewrite Ht.
  - destruct (decide (i < Z.to_nat off)%nat).
    + by rewrite lookup_app_l, lookup_take_lt by lia.
    + rewrite !lookup_app_r by lia. rewrite lookup_drop. f_equal. lia.
Qed.

Lemma zlen_slice l off n : 0 <= off -> 0 <= n -> off + n <= zlen l -> zlen (slice l off n) = n.
Proof. unfold zlen, slice. intros. rewrite length_take, length_drop. lia. Qed.

Lemma zlen_splice l off bytes :
  0 <= off -> off + zlen bytes <= zlen l -> zlen (splice l off bytes) = zlen l.
Proof. unfold zlen, splice. intros. rewrite !length_app, length_take, length_drop. lia. Qed.

Lemma slice_splice_inside l off bytes o n :
  0 <= off -> off + zlen bytes <= zlen l -> off <= o -> 0 <= n -> o + n <= off + zlen bytes ->
  slice (splice l off bytes) o n = slice bytes (o - off) n.
Proof.
  intros. apply list_eq. intros i. rewrite !lookup_slice by lia. case_decide as Hi; [|done].
  rewrite lookup_splice by lia. unfold zlen in *. rewrite decide_True by lia. f_equal. lia.
Qed.

Lemma slice_splice_outside l off bytes o n :
  0 <= off -> off + zlen bytes <= zlen l -> 0 <= o -> 0 <= n -> o + n <= off \/ off + zlen bytes <= o ->
  slice (splice l off bytes) o n = slice l o n.
Proof.
  intros ? ? ? ? Hd. apply list_eq. intros i. rewrite !lookup_slice by lia. case_decide as Hi; [|done].
  rewrite lookup_splice by lia. unfold zlen in *. rewrite decide_False by lia. done.
Qed.

Lemma slice_all l n : n = zlen l -> slice l 0 n = l.
Proof. intros ->. unfold slice, zlen. rewrite drop_0. apply take_ge. lia. Qed.

Lemma slice_slice l o n o' n' :
  0 <= o -> 0 <= n -> 0 <= o' -> 0 <= n' -> o' + n' <= n -> slice (slice l o n) o' n' = slice l (o + o') n'.
Proof.
  intros. apply list_eq. intros i. rewrite !lookup_slice by lia.
  destruct (decide (i < Z.to_nat n')%nat); [|done]. rewrite decide_True by lia. f_equal. lia.
Qed.

(** Equal ranges have equal parts. *)
Lemma slice_part (k l : list A) (o o' n m : Z) :
  0 <= o -> 0 <= o' -> 0 <= m <= n -> slice k o n = slice l o' n -> slice k o m = slice l o' m.
Proof.
  intros ? ? ? Heq. rewrite <- (Z.add_0_r o), <- (Z.add_0_r o').
  rewrite <- (slice_slice k o n), <- (slice_slice l o' n) by lia. by rewrite Heq.
Qed.
End Bytes.

(** ** Lists whose elements are pairwise related *)

Fixpoint pairwise {A} (R : A -> A -> Prop) (l : list A) : Prop :=
  match l with [] => True | a :: l => Forall (R a) l /\ pairwise R l end.

Lemma pairwise_lookup {A} (R : A -> A -> Prop) l :
  pairwise R l <-> forall i j a b, (i < j)%nat -> l !! i = Some a -> l !! j = Some b -> R a b.
Proof.
  induction l as [|c l IH]; simpl; [split; [intros ? i j a b _ Ha; by rewrite lookup_nil in Ha|done]|].
  rewrite IH, Forall_lookup. split.
  - intros [Hc Hl] [|i] [|j] a b Hij Ha Hb; try lia; simpl in *.
    + simplify_eq. eauto.
    + apply (Hl i j); [lia|done|done].
  - intros Hl. split.
    + intros i b Hb. apply (Hl 0%nat (S i)); [lia|done|done].
    + intros i j a b Hij Ha Hb. apply (Hl (S i) (S j)); [lia|done|done].
Qed.

#[global] Instance pairwise_perm {A} (R : A -> A -> Prop) `{!Symmetric R} :
  Proper ((≡ₚ) ==> iff) (pairwise R).
Proof.
  assert (H : forall l k, l ≡ₚ k -> pairwise R l -> pairwise R k).
  { induction 1 as [|a l k Hp IH|a b l|l k m H1 IH1 H2 IH2]; simpl; [done| | |by auto].
    - intros [Ha Hl]. split; [by rewrite <- Hp|auto].
    - rewrite !Forall_cons. intros ([Hba Hb] & Ha & Hl). split_and!; auto. }
  intros l k Hp. split; eauto using Permutation_sym.
Qed.

(** ** Alignment *)

Lemma MAXALIGN_mul len : MAXALIGN len = 8 * ((len + 7) / 8).
Proof.
  unfold MAXALIGN. change (Z.lnot 7) with (Z.lnot (Z.ones 3)). rewrite <- Z.ldiff_land.
  rewrite Z.ldiff_ones_r by lia. rewrite Z.shiftl_mul_pow2, Z.shiftr_div_pow2 by lia. change (2 ^ 3) with 8. lia.
Qed.

Definition aligned (x : Z) : Prop := x mod 8 = 0.

Lemma MAXALIGN_bounds len : len <= MAXALIGN len < len + 8 /\ aligned (MAXALIGN len).
Proof. rewrite MAXALIGN_mul. unfold aligned. zdiv_lia. Qed.

Lemma MAXALIGN_aligned x : aligned x -> MAXALIGN x = x.
Proof. rewrite MAXALIGN_mul. unfold aligned. zdiv_lia. Qed.

Lemma MAXALIGN_eqb x : (x =? MAXALIGN x) = true <-> aligned x.
Proof.
  rewrite Z.eqb_eq. split; [|intros; by rewrite MAXALIGN_aligned].
  intros ->. apply MAXALIGN_bounds.
Qed.

Lemma aligned_sub x y : aligned x -> aligned y -> aligned (x - y).
Proof. unfold aligned. intros. rewrite Zminus_mod. rewrite H, H0. done. Qed.
Lemma aligned_add x y : aligned x -> aligned y -> aligned (x + y).
Proof. unfold aligned. intros. rewrite Zplus_mod. rewrite H, H0. done. Qed.

(** ** The invariant and the content of a page *)

Section PageOk.
Context {bs : BlockSize}.

Lemma BLCKSZ_bounds : 256 <= BLCKSZ <= 32768 /\ aligned BLCKSZ.
Proof.
  unfold aligned. pose proof BLCKSZ_valid.
  repeat match goal with H : _ \/ _ |- _ => destruct H as [H|H] end; rewrite H; vm_compute; intuition discriminate.
Qed.

(** A line pointer: unused ones own no bytes, the bytes of the others lie
    between [upper] and [special] with their padding. *)
Definition lp_ok (upper special : Z) (lp : ItemIdData) : Prop :=
  in_u 15 (lp_off lp) /\ in_u 15 (lp_len lp) /\
  (lp_flags lp = LP_UNUSED -> lp_len lp = 0) /\
  (lp_len lp <> 0 -> upper <= lp_off lp /\ lp_off lp + MAXALIGN (lp_len lp) <= special /\ aligned (lp_off lp)).

(** No byte belongs to two items. *)
Definition apart (a b : ItemIdData) : Prop :=
  lp_len a <> 0 -> lp_len b <> 0 ->
  lp_off a + MAXALIGN (lp_len a) <= lp_off b \/ lp_off b + MAXALIGN (lp_len b) <= lp_off a.

Definition linp_ok (upper special : Z) (l : list ItemIdData) : Prop :=
  Forall (lp_ok upper special) l /\ pairwise apart l.

Record page_ok (p : PageHeaderData) : Prop := {
  ok_lower : pd_lower p = linp_end p;
  ok_upper : pd_lower p <= pd_upper p;
  ok_special : pd_upper p <= pd_special p <= BLCKSZ;
  ok_aligned : aligned (pd_upper p) /\ aligned (pd_special p);
  ok_data : zlen (pd_data p) = BLCKSZ;
  ok_linp : linp_ok (pd_upper p) (pd_special p) (pd_linp p) }.

#[global] Instance apart_sym : Symmetric apart.
Proof. intros a b H Hb Ha. destruct (H Ha Hb); auto. Qed.

#[global] Instance linp_ok_perm upper special : Proper ((≡ₚ) ==> iff) (linp_ok upper special).
Proof. intros l k Hp. unfold linp_ok. by rewrite Hp. Qed.

(** What a reader finds behind a line pointer. *)
Inductive lp_view :=
  | VUnused
  | VPointer (flags off : Z)
  | VItem (flags : Z) (bytes : list Z).

Definition view (data : list Z) (lp : ItemIdData) : lp_view :=
  if ItemIdHasStorage lp then VItem (lp_flags lp) (slice data (lp_off lp) (lp_len lp))
  else if ItemIdIsUsed lp then VPointer (lp_flags lp) (lp_off lp) else VUnused.

Definition page_view (p : PageHeaderData) : list lp_view := view (pd_data p) <$> pd_linp p.

(** The bytes the items take, with their padding. *)
Definition storage (l : list ItemIdData) : Z := foldr Z.add 0 (MAXALIGN <$> (lp_len <$> l)).
End PageOk.

(** ** Consequences of the invariant *)

Section Facts.
Context {bs : BlockSize}.
Implicit Types (p : PageHeaderData) (l : list ItemIdData).

Lemma header_size p : 24 <= GetPageHeaderSize p <= 40.
Proof. unfold GetPageHeaderSize. destruct (PageIs8BXidHeapVersion p); vm_compute; intuition discriminate. Qed.

(** The bounds of a valid page, for [lia]. *)
Lemma page_bounds p :
  page_ok p ->
  24 <= GetPageHeaderSize p <= 40 /\ pd_lower p = GetPageHeaderSize p + 4 * zlen (pd_linp p) /\
  0 <= zlen (pd_linp p) /\ pd_lower p <= pd_upper p <= pd_special p /\ pd_special p <= BLCKSZ <= 32768.
Proof.
  intros [Hlo Hup Hsp _ _ _]. unfold linp_end, sizeof_ItemIdData in Hlo.
  pose proof (header_size p). pose proof BLCKSZ_bounds. pose proof (zlen_nonneg (pd_linp p)). lia.
Qed.

Lemma max_offset p : page_ok p -> PageGetMaxOffsetNumber p = zlen (pd_linp p).
Proof.
  intros H%page_bounds. unfold PageGetMaxOffsetNumber, sizeof_ItemIdData.
  destruct (Z.leb_spec (pd_lower p) (GetPageHeaderSize p)); [lia|].
  replace (pd_lower p - GetPageHeaderSize p) with (zlen (pd_linp p) * 4) by lia.
  rewrite Z.quot_mul by lia. apply uN_small. unfold in_u. lia.
Qed.

Lemma header_not_corrupted p h : page_ok p -> h <= GetPageHeaderSize p -> header_corrupted h p = false.
Proof.
  intros H%page_bounds Hh. unfold header_corrupted. bool_cases; simpl; try done; lia.
Qed.

Lemma special_aligned p : page_ok p -> (pd_special p =? MAXALIGN (pd_special p)) = true.
Proof. intros H. apply MAXALIGN_eqb, (ok_aligned p H). Qed.

Lemma get_item p n lp : pd_linp p !! Z.to_nat (n - 1) = Some lp -> 1 <= n -> PageGetItemId p n = Done lp.
Proof. intros Hlp Hn. unfold PageGetItemId, zlookup. destruct (Z.leb_spec 0 (n - 1)); [by rewrite Hlp|lia]. Qed.

(** *** Line pointers *)

Lemma lp_ok_weaken upper upper' special lp : upper' <= upper -> lp_ok upper special lp -> lp_ok upper' special lp.
Proof. intros ? (? & ? & ? & Hs). split_and!; try done. intros Hl. destruct (Hs Hl) as (? & ? & ?). split_and!; [lia|done..]. Qed.

Lemma linp_ok_weaken upper upper' special l :
  upper' <= upper -> linp_ok upper special l -> linp_ok upper' special l.
Proof. intros ? [Hl ?]. split; [|done]. eapply Forall_impl; [exact Hl|]. intros lp. by apply lp_ok_weaken. Qed.

(** A new item below [upper] is apart from all the others. *)
Lemma linp_ok_cons upper upper' special lp l :
  linp_ok upper special l -> lp_ok upper' special lp -> lp_off lp + MAXALIGN (lp_len lp) <= upper ->
  upper' <= upper -> linp_ok upper' special (lp :: l).
Proof.
  intros Hl Hlp Hbelow Hle. destruct (linp_ok_weaken _ upper' _ _ Hle Hl) as [Hl' Hp].
  split; [by constructor|]. split; [|done].
  destruct Hl as [Hl _]. eapply Forall_impl; [exact Hl|].
  intros b (_ & _ & _ & Hb) Ha Hblen. destruct (Hb Hblen). lia.
Qed.

Lemma linp_ok_tail upper special lp l : linp_ok upper special (lp :: l) -> linp_ok upper special l.
Proof. intros [Hf Hp]. split; [by inversion Hf|apply Hp]. Qed.

Lemma linp_lookup p i lp : page_ok p -> pd_linp p !! i = Some lp -> lp_ok (pd_upper p) (pd_special p) lp.
Proof. intros [_ _ _ _ _ [Hl _]] Hi. by eapply Forall_lookup_1 in Hl. Qed.

Lemma has_storage lp : ItemIdHasStorage lp = true <-> lp_len lp <> 0.
Proof. unfold ItemIdHasStorage. rewrite negb_true_iff, Z.eqb_neq. done. Qed.

Lemma unused_view upper special data lp :
  lp_ok upper special lp -> ItemIdIsUsed lp = false -> view data lp = VUnused.
Proof.
  intros (_ & _ & Hu & _) Hused. unfold view. rewrite Hused. unfold ItemIdIsUsed, ItemIdHasStorage in *.
  apply negb_false_iff, Z.eqb_eq in Hused. by rewrite Hu.
Qed.

(** *** Bytes *)

(** Items are inside the data. *)
Lemma lp_in_data p lp :
  page_ok p -> lp_ok (pd_upper p) (pd_special p) lp -> lp_len lp <> 0 ->
  pd_lower p <= lp_off lp /\ 0 < lp_len lp <= MAXALIGN (lp_len lp) /\
  lp_off lp + MAXALIGN (lp_len lp) <= zlen (pd_data p).
Proof.
  intros H (? & Hlen & _ & Hs) Hne. destruct (Hs Hne) as (? & ? & ?).
  rewrite (ok_data p H). pose proof (page_bounds p H). pose proof (MAXALIGN_bounds (lp_len lp)).
  unfold in_u in Hlen. lia.
Qed.

Lemma page_write_in p off bytes :
  linp_end p <= off -> off + zlen bytes <= zlen (pd_data p) ->
  page_write p off bytes = Done (set_data (splice (pd_data p) off bytes) p).
Proof. intros. unfold page_write. bool_cases; cbn; done || lia. Qed.

Lemma page_read_in p off n :
  0 <= off -> 0 <= n -> off + n <= zlen (pd_data p) -> page_read p off n = Done (slice (pd_data p) off n).
Proof. intros. unfold page_read. bool_cases; cbn; done || lia. Qed.

Lemma linp_end_set p l : linp_end (set_linp l p) = GetPageHeaderSize p + 4 * zlen l.
Proof. done. Qed.

(** A write below all items changes none of them. *)
Lemma view_splice_below upper special data off bytes lp :
  lp_ok upper special lp -> 0 <= off -> off + zlen bytes <= upper -> upper <= zlen data ->
  view (splice data off bytes) lp = view data lp.
Proof.
  intros (Ho & Hlen & _ & Hs) Hoff Hb Hu. unfold view. destruct (ItemIdHasStorage lp) eqn:Hst; [|done].
  apply has_storage in Hst. destruct (Hs Hst) as (? & ? & ?).
  rewrite slice_splice_outside; [done|..]; unfold in_u in *; lia.
Qed.
End Facts.

(** ** PageAddItem *)

Section AddItem.
Context {bs : BlockSize}.
Implicit Types (p : PageHeaderData) (l : list ItemIdData).

(** Only the hint changed. *)
Definition same_but_flags p p' : Prop := exists f, p' = set_pd_flags f p.

Lemma page_ok_flags p f : page_ok p -> page_ok (set_pd_flags f p).
Proof. intros []. by constructor. Qed.

Lemma unused_no_storage upper special lp :
  lp_ok upper special lp -> ItemIdIsUsed lp = false -> ItemIdHasStorage lp = false.
Proof.
  intros (_ & _ & Hu & _). unfold ItemIdIsUsed, ItemIdHasStorage. rewrite !negb_false_iff, !Z.eqb_eq. auto.
Qed.

(** The search ends at the first unused line pointer. *)
Lemma find_unused_spec p storage n fuel :
  page_ok p -> 1 <= n <= zlen (pd_linp p) + 1 -> zlen (pd_linp p) + 1 - n < Z.of_nat fuel ->
  exists m, find_unused fuel storage p n (zlen (pd_linp p) + 1) = Done m /\ n <= m <= zlen (pd_linp p) + 1 /\
    (m <= zlen (pd_linp p) -> exists lp, pd_linp p !! Z.to_nat (m - 1) = Some lp /\ ItemIdIsUsed lp = false) /\
    (forall i lp, n <= i < m -> pd_linp p !! Z.to_nat (i - 1) = Some lp -> ItemIdIsUsed lp = true).
Proof.
  intros H. revert n. induction fuel as [|fuel IH]; intros n Hn Hf; [lia|]. simpl find_unused.
  destruct (Z.ltb_spec n (zlen (pd_linp p) + 1)) as [Hlt|Hge]; cycle 1.
  { exists n. split_and!; [done|lia|lia|lia|intros; lia]. }
  destruct (pd_linp p !! Z.to_nat (n - 1)) as [lp|] eqn:Hlp; cycle 1.
  { apply lookup_ge_None_1 in Hlp. unfold zlen in *. lia. }
  rewrite (get_item _ _ _ Hlp) by lia. runs.
  pose proof (linp_lookup p _ _ H Hlp) as Hok.
  destruct (ItemIdIsUsed lp) eqn:Hu; cbn [negb andb].
  - destruct (IH (n + 1)) as (m & Hr & Hm & Hfound & Hused); [lia..|].
    exists m. split_and!; [done|lia|lia|done|].
    intros i lp' Hi Hlp'. destruct (decide (i = n)) as [->|]; [congruence|]. apply (Hused i); [lia|done].
  - rewrite (unused_no_storage _ _ _ Hok Hu), andb_false_r. cbn [negb].
    exists n. split_and!; [done|lia|lia| |intros; lia]. intros _. by exists lp.
Qed.

(** The numbers of a heap page are valid. *)
Lemma offset_valid n : n <= MaxHeapTuplesPerPage -> OffsetNumberIsValid n = negb (n =? InvalidOffsetNumber).
Proof.
  intros Hn. unfold OffsetNumberIsValid. rewrite (proj2 (Z.leb_le n MaxOffsetNumber)); [apply andb_true_r|]. etrans; [exact Hn|].
  pose proof BLCKSZ_valid as Hb. unfold MaxHeapTuplesPerPage, MaxOffsetNumber. destruct Hb as [-> |[-> |[-> |[-> |[-> |[-> |[-> | ->]]]]]]]; by vm_compute.
Qed.

(** What [select_offset] decides. *)
Definition selected p (offsetNumber : Z) (overwrite : bool) (n : Z) (shuffle : bool) : Prop :=
  (OffsetNumberIsValid offsetNumber = true -> n = offsetNumber) /\ 1 <= n /\
  (OffsetNumberIsValid offsetNumber = false -> n <= zlen (pd_linp p) + 1) /\
  ((n = zlen (pd_linp p) + 1 \/ shuffle = true) \/ zlen (pd_linp p) + 1 < n \/
   exists lp, shuffle = false /\ n <= zlen (pd_linp p) /\ pd_linp p !! Z.to_nat (n - 1) = Some lp /\ ItemIdIsUsed lp = false) /\
  (shuffle = true -> n <= zlen (pd_linp p)) /\
  (OffsetNumberIsValid offsetNumber = false -> PageHasFreeLinePointers p = false -> n = zlen (pd_linp p) + 1).

Lemma select_offset_spec p offsetNumber overwrite :
  page_ok p -> in_u 16 offsetNumber ->
  exists choice p',
    select_offset p (zlen (pd_linp p) + 1) offsetNumber overwrite = Done (choice, p') /\ same_but_flags p p' /\
    match choice with
    | None => OffsetNumberIsValid offsetNumber = true /\ overwrite = true
    | Some (n, shuffle) => selected p offsetNumber overwrite n shuffle
    end.
Proof.
  intros H Hoff. pose proof (zlen_nonneg (pd_linp p)) as Hlen. unfold select_offset, in_u in *.
  assert (Hsame : same_but_flags p p) by (exists (pd_flags p); by destruct p).
  destruct (OffsetNumberIsValid offsetNumber) eqn:Hvalid; cycle 1.
  - destruct (PageHasFreeLinePointers p) eqn:Hhint; cycle 1.
    { do 2 eexists. split_and!; [done..|]. unfold selected. split_and!; try lia; try congruence; auto. }
    destruct (find_unused_spec p true 1 (Z.to_nat (zlen (pd_linp p) + 1)) H) as (m & Hm & Hrange & Hfound & _);
      [lia..|]. rewrite Hm. runs.
    do 2 eexists. split; [reflexivity|]. split.
    { destruct (_ <=? m); [by eexists|done]. }
    unfold selected. split_and!; try lia; try done; try congruence.
    destruct (decide (m = zlen (pd_linp p) + 1)); [tauto|].
    destruct Hfound as (lp & Hlp & Hused); [lia|]. do 2 right. exists lp. split_and!; [done|lia|done..].
  - assert (1 <= offsetNumber) by (unfold OffsetNumberIsValid, InvalidOffsetNumber in Hvalid; lia). destruct overwrite.
    + destruct (Z.ltb_spec offsetNumber (zlen (pd_linp p) + 1)) as [Hlt|Hge]; cycle 1.
      { do 2 eexists. split_and!; [done..|]. unfold selected. split_and!; try lia; try congruence; done. }
      destruct (pd_linp p !! Z.to_nat (offsetNumber - 1)) as [lp|] eqn:Hlp; cycle 1.
      { apply lookup_ge_None_1 in Hlp. unfold zlen in *. lia. }
      rewrite (get_item _ _ _ Hlp) by lia. runs.
      destruct (ItemIdIsUsed lp || ItemIdHasStorage lp) eqn:Hu; [by eauto 10|].
      apply orb_false_iff in Hu as [Hu _].
      do 2 eexists. split_and!; [done..|]. unfold selected. split_and!; try lia; try done; try congruence.
      do 2 right. exists lp. split_and!; [done|lia|done..].
    + do 2 eexists. split_and!; [done..|]. unfold selected.
      destruct (Z.ltb_spec offsetNumber (zlen (pd_linp p) + 1)); split_and!; try lia; try congruence; done || tauto.
Qed.

(** *** The page with the new item *)

Definition with_item p (l : list ItemIdData) (item : list Z) (lower upper : Z) : PageHeaderData :=
  set_bounds lower upper (set_data (splice (pd_data p) upper item) (set_linp l p)).

Section Placed.
Variables (p : PageHeaderData) (l l0 : list ItemIdData) (item : list Z).
Let upper := pd_upper p - MAXALIGN (zlen item).
Let lower := GetPageHeaderSize p + 4 * zlen l.
Hypotheses (Hp : page_ok p) (Hitem : 0 < zlen item) (Hfits : lower <= upper)
  (Hl0 : linp_ok (pd_upper p) (pd_special p) l0)
  (Hl : l ≡ₚ ItemIdSetNormal upper (zlen item) :: l0).

Lemma placed_bounds :
  24 <= lower <= upper /\ upper + zlen item <= upper + MAXALIGN (zlen item) /\
  upper + MAXALIGN (zlen item) = pd_upper p /\ aligned upper /\ pd_upper p <= BLCKSZ <= 32768.
Proof using Hp Hitem Hfits.
  pose proof (page_bounds p Hp). pose proof (MAXALIGN_bounds (zlen item)) as [? Hal]. pose proof (zlen_nonneg l).
  split_and!; try lia. apply aligned_sub; [apply (ok_aligned p Hp)|done].
Qed.

Lemma placed_lp :
  ItemIdSetNormal upper (zlen item) = MkItemId upper LP_NORMAL (zlen item).
Proof using Hp Hitem Hfits.
  pose proof placed_bounds. unfold ItemIdSetNormal. rewrite !uN_small by (unfold in_u; lia). done.
Qed.

Lemma placed_ok : page_ok (with_item p l item lower upper).
Proof using Hp Hitem Hfits Hl0 Hl.
  pose proof placed_bounds as (? & ? & ? & ? & ?). pose proof (page_bounds p Hp). pose proof (ok_aligned p Hp).
  constructor; cbn; try done; try lia; [tauto| |].
  - rewrite zlen_splice; [apply (ok_data p Hp)|lia|]. rewrite (ok_data p Hp). lia.
  - rewrite Hl, placed_lp. apply linp_ok_cons with (upper := pd_upper p); [done| |cbn; lia|lia].
    unfold lp_ok, in_u. cbn. split_and!; try lia; try done. intros _. split_and!; [lia|lia|done].
Qed.

Lemma placed_view_new : view (splice (pd_data p) upper item) (ItemIdSetNormal upper (zlen item)) = VItem LP_NORMAL item.
Proof using Hp Hitem Hfits.
  pose proof placed_bounds as (? & ? & ? & ? & ?). rewrite placed_lp. unfold view.
  assert (Hst : ItemIdHasStorage (MkItemId upper LP_NORMAL (zlen item)) = true) by (apply has_storage; cbn; lia).
  rewrite Hst. cbn. rewrite slice_splice_inside; rewrite ?(ok_data p Hp); try lia.
  by rewrite Z.sub_diag, slice_all.
Qed.

Lemma placed_view_old k :
  Forall (lp_ok (pd_upper p) (pd_special p)) k ->
  view (splice (pd_data p) upper item) <$> k = view (pd_data p) <$> k.
Proof using Hp Hitem Hfits.
  pose proof placed_bounds as (? & ? & ? & ? & ?). rewrite Forall_forall. intros Hk.
  apply list_fmap_ext. intros i lp Hi. apply view_splice_below with (upper := pd_upper p) (special := pd_special p);
    rewrite ?(ok_data p Hp); [|lia..]. apply Hk, list_elem_of_lookup. eauto.
Qed.
End Placed.

Lemma exact_free_space p : page_ok p -> PageGetExactFreeSpace p = pd_upper p - pd_lower p.
Proof. intros H%page_bounds. unfold PageGetExactFreeSpace. bool_cases; lia. Qed.

Lemma insert_perm l n (lp : ItemIdData) : take n l ++ [lp] ++ drop n l ≡ₚ lp :: l.
Proof. cbn. rewrite <- Permutation_middle. by rewrite take_drop. Qed.

Lemma replace_perm l n (old lp : ItemIdData) :
  l !! n = Some old -> l ≡ₚ old :: delete n l /\ <[n := lp]> l ≡ₚ lp :: delete n l.
Proof.
  intros Hn. split; [by apply delete_Permutation|].
  rewrite (delete_Permutation (<[n := lp]> l) n lp) by (apply list_lookup_insert_eq; by eapply lookup_lt_Some).
  f_equiv. by rewrite !delete_take_drop, take_insert_ge, drop_insert_lt by lia.
Qed.

(** The two ways an item gets its line pointer. *)
Definition inserted_at p p' (n : Z) (item : list Z) : Prop :=
  n <= zlen (page_view p) + 1 /\
  page_view p' = take (Z.to_nat (n - 1)) (page_view p) ++ [VItem LP_NORMAL item] ++ drop (Z.to_nat (n - 1)) (page_view p) /\
  PageGetExactFreeSpace p' = PageGetExactFreeSpace p - MAXALIGN (zlen item) - sizeof_ItemIdData.

Definition recycled_at p p' (n : Z) (item : list Z) : Prop :=
  page_view p !! Z.to_nat (n - 1) = Some VUnused /\
  page_view p' = <[Z.to_nat (n - 1) := VItem LP_NORMAL item]> (page_view p) /\
  PageGetExactFreeSpace p' = PageGetExactFreeSpace p - MAXALIGN (zlen item).

Lemma zlen_page_view p : zlen (page_view p) = zlen (pd_linp p).
Proof. unfold page_view, zlen. by rewrite length_fmap. Qed.

Lemma insert_item p n item :
  page_ok p -> 0 < zlen item -> 1 <= n <= zlen (pd_linp p) + 1 ->
  pd_lower p + 4 <= pd_upper p - MAXALIGN (zlen item) ->
  let upper := pd_upper p - MAXALIGN (zlen item) in
  let l := take (Z.to_nat (n - 1)) (pd_linp p) ++ [ItemIdSetNormal upper (zlen item)]
           ++ drop (Z.to_nat (n - 1)) (pd_linp p) in
  let p' := with_item p l item (pd_lower p + 4) upper in
  page_write (set_linp l p) upper item = Done (set_data (splice (pd_data p) upper item) (set_linp l p)) /\
  page_ok p' /\ inserted_at p p' n item.
Proof.
  intros H Hitem Hn Hfits upper l p'. pose proof (page_bounds p H).
  assert (Hperm : l ≡ₚ ItemIdSetNormal upper (zlen item) :: pd_linp p) by apply insert_perm.
  assert (Hzl : zlen l = zlen (pd_linp p) + 1) by (unfold zlen; rewrite (Permutation_length Hperm); cbn; lia).
  assert (Hlo : pd_lower p + 4 = GetPageHeaderSize p + 4 * zlen l) by lia.
  assert (Hf' : GetPageHeaderSize p + 4 * zlen l <= upper) by (unfold upper; lia).
  pose proof (placed_bounds p l item H Hitem Hf') as (? & ? & ? & ? & ?). pose proof (ok_linp p H) as Hl0.
  assert (Hok : page_ok p').
  { unfold p'. rewrite Hlo. by apply placed_ok with (l0 := pd_linp p). }
  split_and!; [|done|].
  - rewrite page_write_in; [done|rewrite linp_end_set; lia|]. cbn. rewrite (ok_data p H). unfold upper in *. lia.
  - unfold inserted_at. rewrite zlen_page_view, !exact_free_space by done. cbn. split_and!; [lia| |unfold upper, sizeof_ItemIdData; lia].
    unfold page_view. cbn. unfold l. rewrite !fmap_app, fmap_take, fmap_drop.
    rewrite (placed_view_old p l item H Hitem Hf') by apply Hl0. cbn. unfold upper. by rewrite (placed_view_new p l item H Hitem Hf').
Qed.

Lemma recycle_item p n item old :
  page_ok p -> 0 < zlen item -> 1 <= n -> pd_linp p !! Z.to_nat (n - 1) = Some old -> ItemIdIsUsed old = false ->
  pd_lower p <= pd_upper p - MAXALIGN (zlen item) ->
  let upper := pd_upper p - MAXALIGN (zlen item) in
  let l := <[Z.to_nat (n - 1) := ItemIdSetNormal upper (zlen item)]> (pd_linp p) in
  let p' := with_item p l item (pd_lower p) upper in
  page_write (set_linp l p) upper item = Done (set_data (splice (pd_data p) upper item) (set_linp l p)) /\
  page_ok p' /\ recycled_at p p' n item.
Proof.
  intros H Hitem Hn Hold Hunused Hfits upper l p'. pose proof (page_bounds p H).
  pose proof (replace_perm _ _ _ (ItemIdSetNormal upper (zlen item)) Hold) as [Hp0 Hperm].
  assert (Hzl : zlen l = zlen (pd_linp p)) by (unfold zlen, l; by rewrite length_insert).
  assert (Hlo : pd_lower p = GetPageHeaderSize p + 4 * zlen l) by lia.
  assert (Hf' : GetPageHeaderSize p + 4 * zlen l <= upper) by (unfold upper; lia).
  pose proof (placed_bounds p l item H Hitem Hf') as (? & ? & ? & ? & ?). pose proof (ok_linp p H) as Hl0.
  pose proof (linp_lookup p _ _ H Hold) as Hlpok.
  assert (Hok : page_ok p').
  { unfold p'. rewrite Hlo. apply placed_ok with (l0 := delete (Z.to_nat (n - 1)) (pd_linp p)); try done.
    rewrite Hp0 in Hl0. by apply linp_ok_tail in Hl0. }
  split_and!; [|done|].
  - rewrite page_write_in; [done|rewrite linp_end_set; lia|]. cbn. rewrite (ok_data p H). unfold upper in *. lia.
  - unfold recycled_at. rewrite !exact_free_space by done. cbn. split_and!; [| |unfold upper; lia].
    + unfold page_view. rewrite list_lookup_fmap, Hold. cbn. f_equal. by eapply unused_view.
    + unfold page_view. cbn. unfold l. rewrite list_fmap_insert.
      rewrite (placed_view_old p l item H Hitem Hf') by apply Hl0. unfold upper. by rewrite (placed_view_new p l item H Hitem Hf').
Qed.

Lemma after_max_offset p : page_ok p -> OffsetNumberNext (PageGetMaxOffsetNumber p) = zlen (pd_linp p) + 1.
Proof.
  intros H. rewrite max_offset by done. apply page_bounds in H. unfold OffsetNumberNext.
  rewrite uN_small; [lia|unfold in_u; lia].
Qed.

(** What no operation on items changes. *)
Definition same_frame p p' : Prop :=
  pd_special p' = pd_special p /\ pd_pagesize_version p' = pd_pagesize_version p.

(** What comes after the choice of the place. *)
Lemma add_at_spec p item n (shuffle is_heap : bool) :
  let limit := zlen (pd_linp p) + 1 in
  let grow := (n =? limit) || shuffle in
  let lower := if grow then pd_lower p + sizeof_ItemIdData else pd_lower p in
  let upper := pd_upper p - MAXALIGN (zlen item) in
  let lp := ItemIdSetNormal upper (zlen item) in
  page_ok p -> 0 < zlen item -> 1 <= n <= limit -> lower <= upper ->
  (grow = false -> exists old, pd_linp p !! Z.to_nat (n - 1) = Some old /\ ItemIdIsUsed old = false) ->
  exists p',
    (p ← (if grow
          then Done (set_linp (take (Z.to_nat (n - 1)) (pd_linp p) ++ [lp] ++ drop (Z.to_nat (n - 1)) (pd_linp p)) p)
          else put_item_id p n lp);
     p ← page_write p upper item;
     mret (n, set_bounds (u16 lower) (u16 upper) p)) = Done (n, p') /\
    page_ok p' /\ same_frame p p' /\ (if grow then inserted_at p p' n item else recycled_at p p' n item).
Proof.
  intros limit grow lower upper lp H Hitem Hn Hfits Hold. pose proof (page_bounds p H) as Hb.
  pose proof (MAXALIGN_bounds (zlen item)) as [Hal _].
  assert (Hwrap : u16 lower = lower /\ u16 upper = upper).
  { unfold lower, upper, sizeof_ItemIdData in *. destruct grow; rewrite !uN_small by (unfold in_u; lia); done. }
  destruct Hwrap as [-> ->]. unfold lower, sizeof_ItemIdData in *. destruct grow.
  - destruct (insert_item p n item H Hitem Hn Hfits) as (Hw & Hok & Hin). runs.
    fold upper in Hw. fold lp in Hw. rewrite Hw. runs. eexists. split_and!; [done|exact Hok|by split|exact Hin].
  - destruct (Hold eq_refl) as (old & Hlp & Hu).
    destruct (recycle_item p n item old H Hitem (proj1 Hn) Hlp Hu Hfits) as (Hw & Hok & Hin).
    unfold put_item_id. pose proof (lookup_lt_Some _ _ _ Hlp).
    rewrite zupdate_in by (unfold zlen; lia). unfold zset. runs.
    fold upper in Hw. fold lp in Hw. rewrite Hw. runs.
    eexists. split_and!; [done|exact Hok|by split|exact Hin].
Qed.

(** The heart of [PageAddItem]: once the place is known, the item is added
    exactly when it fits. *)
Lemma PageAddItem_at p item offsetNumber overwrite is_heap n shuffle p1 :
  page_ok p -> 0 < zlen item ->
  select_offset p (zlen (pd_linp p) + 1) offsetNumber overwrite = Done (Some (n, shuffle), p1) ->
  same_but_flags p p1 -> selected p offsetNumber overwrite n shuffle ->
  let grow := (n =? zlen (pd_linp p) + 1) || shuffle in
  let fits := (n <=? zlen (pd_linp p) + 1) && negb (is_heap && (MaxHeapTuplesPerPage <? n))
              && (pd_lower p + (if grow then 4 else 0) <=? pd_upper p - MAXALIGN (zlen item)) in
  exists p',
    PageAddItem p item offsetNumber overwrite is_heap = Done (if fits then n else 0, p') /\ page_ok p' /\
    same_frame p p' /\
    (if fits then (if grow then inserted_at p p' n item else recycled_at p p' n item)
     else page_view p' = page_view p /\ PageGetExactFreeSpace p' = PageGetExactFreeSpace p).
Proof.
  intros H Hitem Hsel Hsame (Hgiven & Hn & Hauto & Hplace & Hsh & _) grow fits.
  unfold PageAddItem. rewrite header_not_corrupted by (done || lia). rewrite after_max_offset, Hsel by done.
  runs. destruct Hsame as [f ->]. pose proof (page_ok_flags p f H) as H1.
  assert (Hstay : page_ok (set_pd_flags f p) /\ same_frame p (set_pd_flags f p) /\
                  page_view (set_pd_flags f p) = page_view p /\
                  PageGetExactFreeSpace (set_pd_flags f p) = PageGetExactFreeSpace p) by done.
  unfold fits.
  destruct (Z.ltb_spec (zlen (pd_linp p) + 1) n) as [Hbig|Hsmall].
  { rewrite (proj2 (Z.leb_gt _ _)) by lia. cbn. eexists; split; [done|exact Hstay]. }
  rewrite (proj2 (Z.leb_le _ _)) by lia.
  destruct (is_heap && (MaxHeapTuplesPerPage <? n)) eqn:Hheap; cbn [andb negb]; [eexists; split; [done|exact Hstay]|].
  pose proof (add_at_spec (set_pd_flags f p) item n shuffle is_heap) as Hadd. cbn zeta in Hadd.
  cbn [set_pd_flags pd_linp pd_lower pd_upper] in *. fold grow in Hadd |- *.
  replace (pd_lower p + (if grow then 4 else 0)) with (if grow then pd_lower p + sizeof_ItemIdData else pd_lower p)
    by (unfold sizeof_ItemIdData; destruct grow; lia).
  rewrite Z.ltb_antisym. destruct (Z.leb_spec (if grow then pd_lower p + sizeof_ItemIdData else pd_lower p)
    (pd_upper p - MAXALIGN (zlen item))) as [Hfits|]; cbn [negb]; [|eexists; split; [done|exact Hstay]].
  destruct Hadd as (p' & Hrun & Hok & Hframe & Hres); [done|done|lia|done| |].
  { intros [Hne Hs]%orb_false_iff. apply Z.eqb_neq in Hne.
    destruct Hplace as [[?|?]|[?|(lp & _ & _ & ? & ?)]]; [done|congruence|lia|by exists lp]. }
  exists p'. split_and!; [exact Hrun|done|exact Hframe|]. destruct grow; exact Hres.
Qed.

Lemma offset_valid_iff n : 0 <= n -> OffsetNumberIsValid n = true <-> 1 <= n <= MaxOffsetNumber.
Proof. unfold OffsetNumberIsValid, InvalidOffsetNumber. lia. Qed.

(** C30 [PageAddItem] on a valid page: it never leaves the page or reports
    corruption, keeps the invariant, and either adds the item with every other
    item unchanged, or changes nothing but the hint and returns 0.  An offset
    number from 1 to [MaxOffsetNumber] is the place of the item; with any other,
    also one that is too large, the place is looked for, as with 0. *)
Theorem PageAddItem_correct p item offsetNumber overwrite is_heap :
  page_ok p -> 0 < zlen item -> in_u 16 offsetNumber ->
  (exists n p',
    PageAddItem p item offsetNumber overwrite is_heap = Done (n, p') /\ page_ok p' /\ same_frame p p' /\
    ((n = 0 /\ page_view p' = page_view p /\ PageGetExactFreeSpace p' = PageGetExactFreeSpace p) \/
     (1 <= n /\ (1 <= offsetNumber <= MaxOffsetNumber -> n = offsetNumber) /\ (is_heap = true -> n <= MaxHeapTuplesPerPage) /\
      (inserted_at p p' n item \/ recycled_at p p' n item)))) /\
  (MaxOffsetNumber < offsetNumber ->
    PageAddItem p item offsetNumber overwrite is_heap = PageAddItem p item InvalidOffsetNumber overwrite is_heap).
Proof.
  intros H Hitem Hoff. assert (Hvalid := offset_valid_iff offsetNumber ltac:(unfold in_u in Hoff; lia)). split.
  - destruct (select_offset_spec p offsetNumber overwrite H Hoff) as (choice & p1 & Hsel & Hsame & Hc).
    destruct choice as [[n shuffle]|].
    + destruct (PageAddItem_at p item offsetNumber overwrite is_heap n shuffle p1) as (p' & Hrun & Hok & Hfr & Hres);
        [done..|]. do 2 eexists. split_and!; [exact Hrun|done|done|]. destruct Hc as (Hg & Hn & _).
      destruct (_ && _ && _) eqn:Hfits in Hres |- *; [right|by left].
      apply andb_true_iff in Hfits as [[_ Hheap%negb_true_iff]%andb_true_iff _]. split_and!; [done|by rewrite <- Hvalid| |].
      * intros ->. cbn in Hheap. lia.
      * destruct (_ || _) in Hres; auto.
    + exists 0, p1. unfold PageAddItem. rewrite header_not_corrupted by (done || lia).
      rewrite after_max_offset, Hsel by done. destruct Hsame as [f ->]. split_and!; [done|by apply page_ok_flags|by split|].
      by left.
  - intros Hbig. unfold PageAddItem, select_offset. replace (OffsetNumberIsValid offsetNumber) with false; [done|].
    destruct (OffsetNumberIsValid offsetNumber); [|done]. pose proof (proj1 Hvalid eq_refl). lia.
Qed.

Lemma heap_free_space_spec p :
  page_ok p ->
  exists space, PageGetHeapFreeSpace p = Done space /\
    (0 < space ->
       space = pd_upper p - pd_lower p - 4 /\
       (MaxHeapTuplesPerPage <= zlen (pd_linp p) ->
        PageHasFreeLinePointers p = true /\
        exists m lp, 1 <= m <= zlen (pd_linp p) /\ pd_linp p !! Z.to_nat (m - 1) = Some lp /\ ItemIdIsUsed lp = false)).
Proof.
  intros H. pose proof (page_bounds p H). unfold PageGetHeapFreeSpace. rewrite max_offset by done.
  assert (Hspace : 0 < PageGetFreeSpace p -> PageGetFreeSpace p = pd_upper p - pd_lower p - 4).
  { unfold PageGetFreeSpace, sizeof_ItemIdData. bool_cases; lia. }
  destruct (Z.ltb_spec 0 (PageGetFreeSpace p)) as [Hpos|]; [|eexists; split; [done|lia]].
  destruct (Z.leb_spec MaxHeapTuplesPerPage (zlen (pd_linp p))) as [Hmax|]; cycle 1.
  { eexists. split; [done|]. intros _. split; [auto|lia]. }
  destruct (PageHasFreeLinePointers p) eqn:Hhint; [|eexists; split; [done|lia]].
  destruct (find_unused_spec p false 1 (Z.to_nat (zlen (pd_linp p) + 1)) H) as (m & Hm & Hr & Hfound & _); [lia..|].
  rewrite Hm. runs. eexists. split; [done|].
  destruct (Z.ltb_spec (zlen (pd_linp p)) m); [lia|]. intros _. split; [auto|]. intros _. split; [done|].
  destruct Hfound as (lp & ? & ?); [done|]. exists m, lp. split_and!; [lia|done|done|done].
Qed.

(** [PageGetHeapFreeSpace] answers on every valid heap page, and a heap tuple no
    larger than its answer is always accepted by [PageAddItem]. *)
Theorem PageGetHeapFreeSpace_honoured p item :
  page_ok p -> zlen (pd_linp p) <= MaxHeapTuplesPerPage -> 0 < zlen item ->
  exists space n p',
    PageGetHeapFreeSpace p = Done space /\ PageAddItem p item 0 false true = Done (n, p') /\
    (MAXALIGN (zlen item) <= space -> 1 <= n).
Proof.
  intros H Hheap Hitem. destruct (heap_free_space_spec p H) as (space & Hfree & Hspace).
  assert (Hoff : in_u 16 0) by (unfold in_u; lia).
  destruct (find_unused_spec p true 1 (Z.to_nat (zlen (pd_linp p) + 1)) H) as (m & Hm & Hr & _ & Hused);
    [pose proof (zlen_nonneg (pd_linp p)); lia..|].
  destruct (select_offset_spec p 0 false H Hoff) as ([[n shuffle]|] & p1 & Hsel & Hsame & Hc); [|by destruct Hc].
  destruct (PageAddItem_at p item 0 false true n shuffle p1) as (p' & Hrun & _); [done..|].
  do 3 eexists. split_and!; [exact Hfree|exact Hrun|]. intros Hle. destruct Hc as (_ & Hn & Hauto & _ & _ & Hnohint).
  pose proof (MAXALIGN_bounds (zlen item)) as [? _]. destruct Hspace as [Hs Hfull]; [lia|].
  pose proof (page_bounds p H). specialize (Hauto eq_refl).
  assert (Hmax : n <= MaxHeapTuplesPerPage).
  { unfold select_offset in Hsel. cbn in Hsel. destruct (Z.le_gt_cases MaxHeapTuplesPerPage (zlen (pd_linp p))); cycle 1; [lia|].
    destruct Hfull as [Hhint (i & lp & Hi & Hlp & Hfree')]; [done|]. rewrite Hhint, Hm in Hsel. cbn in Hsel. injection Hsel as <- _ _.
    destruct (Z.le_gt_cases m (zlen (pd_linp p))); [lia|]. specialize (Hused i lp ltac:(lia) Hlp). congruence. }
  rewrite (proj2 (Z.leb_le n _)), (proj2 (Z.ltb_ge _ n)) by lia. cbn.
  destruct (_ || _); rewrite (proj2 (Z.leb_le _ _)) by lia; lia.
Qed.
End AddItem.

(** ** Compaction

    [compactify] on items that come in decreasing order and do not overlap:
    [place] is where the item with a given index ends up. *)

Section Compact.
Context {bs : BlockSize}.
Implicit Types (p : PageHeaderData) (l : list ItemIdData) (its : list itemIdSortData).

Definition total its : Z := foldr Z.add 0 (alignedlen <$> its).

Lemma total_cons it its : total (it :: its) = alignedlen it + total its.
Proof. done. Qed.

Fixpoint place its (upper i : Z) : Z :=
  match its with
  | [] => 0
  | it :: its =>
      if offsetindex it =? i then upper - alignedlen it else place its (upper - alignedlen it) i
  end.

Fixpoint chained (lo : Z) its (upper : Z) : Prop :=
  match its with
  | [] => True
  | it :: its =>
      lo <= itemoff it /\ 0 < alignedlen it /\ itemoff it + alignedlen it <= upper /\ chained lo its (itemoff it)
  end.

Lemma chained_mono lo its upper upper' : upper <= upper' -> chained lo its upper -> chained lo its upper'.
Proof. destruct its; simpl; [done|]. intros ? (? & ? & ? & ?). split_and!; [done|done|lia|done]. Qed.

Lemma chained_in lo its upper it :
  chained lo its upper -> it ∈ its -> lo <= itemoff it /\ 0 < alignedlen it /\ itemoff it + alignedlen it <= upper.
Proof.
  revert upper. induction its as [|it' its IH]; simpl; intros upper Hc Hin; [by apply not_elem_of_nil in Hin|].
  destruct Hc as (? & ? & ? & Hc). apply elem_of_cons in Hin as [->|Hin]; [done|].
  destruct (IH _ Hc Hin) as (? & ? & ?). split_and!; [done|done|lia].
Qed.

Lemma total_chained lo its upper : lo <= upper -> chained lo its upper -> 0 <= total its <= upper - lo.
Proof.
  revert upper. induction its as [|it its IH]; intros upper Hlo Hc; [cbn; lia|]. rewrite total_cons.
  destruct Hc as (? & ? & ? & Hc). specialize (IH (itemoff it) ltac:(lia) Hc). lia.
Qed.

(** The place of an item is in the compacted area, *)
Lemma place_bounds lo its upper it :
  NoDup (offsetindex <$> its) -> chained lo its upper -> it ∈ its ->
  upper - total its <= place its upper (offsetindex it) /\
  place its upper (offsetindex it) + alignedlen it <= upper.
Proof.
  revert upper. induction its as [|it' its IH]; intros upper Hnd Hc Hin; [by apply not_elem_of_nil in Hin|].
  rewrite total_cons. simpl place.
  apply NoDup_cons in Hnd as [Hni Hnd]. destruct Hc as (? & ? & ? & Hc).
  assert (Hc' : chained lo its (upper - alignedlen it')) by (eapply chained_mono; [|done]; lia).
  assert (Ht : 0 <= total its).
  { destruct its as [|i its']; [done|]. apply (total_chained lo _ (itemoff it')); [lia|done]. }
  apply elem_of_cons in Hin as [->|Hin]; [rewrite Z.eqb_refl; lia|].
  destruct (Z.eqb_spec (offsetindex it') (offsetindex it)) as [He|].
  - exfalso. apply Hni. rewrite He. by apply list_elem_of_fmap_2.
  - specialize (IH _ Hnd Hc' Hin). lia.
Qed.

(** the places of different items are apart, *)
Lemma place_apart lo its upper a b :
  NoDup (offsetindex <$> its) -> chained lo its upper -> a ∈ its -> b ∈ its -> offsetindex a <> offsetindex b ->
  place its upper (offsetindex a) + alignedlen a <= place its upper (offsetindex b) \/
  place its upper (offsetindex b) + alignedlen b <= place its upper (offsetindex a).
Proof.
  revert upper. induction its as [|it its IH]; simpl; intros upper Hnd Hc Ha Hb Hne; [by apply not_elem_of_nil in Ha|].
  apply NoDup_cons in Hnd as [Hni Hnd]. destruct Hc as (? & ? & ? & Hc).
  assert (Hc' : chained lo its (upper - alignedlen it)) by (eapply chained_mono; [|done]; lia).
  assert (Hin : forall x, x ∈ its -> offsetindex it <> offsetindex x).
  { intros x Hx He. apply Hni. rewrite He. by apply list_elem_of_fmap_2. }
  apply elem_of_cons in Ha as [->|Ha]; apply elem_of_cons in Hb as [->|Hb]; [done| | |].
  - rewrite Z.eqb_refl, (proj2 (Z.eqb_neq _ _)) by auto.
    pose proof (place_bounds _ _ _ _ Hnd Hc' Hb). lia.
  - rewrite Z.eqb_refl, (proj2 (Z.eqb_neq (offsetindex it) _)) by auto.
    pose proof (place_bounds _ _ _ _ Hnd Hc' Ha). lia.
  - rewrite !(proj2 (Z.eqb_neq (offsetindex it) _)) by auto. by apply IH.
Qed.

(** and aligned. *)
Lemma place_aligned its upper i :
  aligned upper -> Forall (fun it => aligned (alignedlen it)) its -> aligned (place its upper i).
Proof.
  intros Hu Hf. revert upper Hu. induction Hf as [|it its Hit Hf IH]; intros upper Hu; simpl; [done|].
  destruct (_ =? _); [by apply aligned_sub|apply IH; by apply aligned_sub].
Qed.

Lemma put_item p n old lp :
  pd_linp p !! Z.to_nat n = Some old -> 0 <= n ->
  put_item_id p (n + 1) lp = Done (set_linp (<[Z.to_nat n := lp]> (pd_linp p)) p).
Proof.
  intros Hlp%lookup_lt_Some Hn. unfold put_item_id. rewrite Z.add_simpl_r.
  by rewrite zupdate_in by (unfold zlen; lia).
Qed.

Lemma compactify_spec (install : bool) its upper p :
  chained (linp_end p) its upper -> upper <= zlen (pd_data p) -> NoDup (offsetindex <$> its) ->
  (forall it, it ∈ its -> 0 <= offsetindex it /\ is_Some (pd_linp p !! Z.to_nat (offsetindex it))) ->
  exists l d,
    compactify install its upper p = Done (upper - total its, set_data d (set_linp l p)) /\
    zlen d = zlen (pd_data p) /\ length l = length (pd_linp p) /\
    (forall i, (forall it, it ∈ its -> offsetindex it <> Z.of_nat i) -> l !! i = pd_linp p !! i) /\
    (forall it lp, it ∈ its -> pd_linp p !! Z.to_nat (offsetindex it) = Some lp ->
       l !! Z.to_nat (offsetindex it) =
         Some (set_lp_off (if install then olditemid it else lp) (place its upper (offsetindex it)))) /\
    (forall it, it ∈ its ->
       slice d (place its upper (offsetindex it)) (alignedlen it) = slice (pd_data p) (itemoff it) (alignedlen it)) /\
    (forall o n, upper <= o -> 0 <= n -> slice d o n = slice (pd_data p) o n).
Proof.
  revert upper p. induction its as [|it its IH]; intros upper p Hc Hu Hnd Hidx.
  { exists (pd_linp p), (pd_data p). cbn. rewrite Z.sub_0_r. destruct p.
    split_and!; try done; intros * Hin; by apply not_elem_of_nil in Hin. }
  destruct Hc as (Hlo & Hal & Hend & Hc). apply NoDup_cons in Hnd as [Hni Hnd].
  assert (Hhdr : 24 <= linp_end p).
  { unfold linp_end, sizeof_ItemIdData. pose proof (header_size p). pose proof (zlen_nonneg (pd_linp p)). lia. }
  destruct (Hidx it) as [Hi0 [old Hold]]; [by left|].
  pose (upper' := upper - alignedlen it). pose (bytes := slice (pd_data p) (itemoff it) (alignedlen it)).
  assert (Hbytes : zlen bytes = alignedlen it) by (apply zlen_slice; lia).
  pose (lp' := set_lp_off (if install then olditemid it else old) upper').
  pose (p' := set_linp (<[Z.to_nat (offsetindex it) := lp']> (pd_linp p)) (set_data (splice (pd_data p) upper' bytes) p)).
  assert (Hother : forall x, x ∈ its -> offsetindex it <> offsetindex x).
  { intros x Hx He. apply Hni. rewrite He. by apply list_elem_of_fmap_2. }
  assert (Hend' : linp_end p' = linp_end p).
  { unfold p'. rewrite linp_end_set. unfold linp_end, zlen, sizeof_ItemIdData. by rewrite length_insert. }
  assert (Hlen : zlen (pd_data p') = zlen (pd_data p)) by (cbn; apply zlen_splice; unfold upper' in *; lia).
  destruct (IH upper' p') as (l & d & Hrun & Hd & Hl & Hsame & Hmoved & Hbits & Habove); clear IH.
  { rewrite Hend'. eapply chained_mono; [|done]. unfold upper'. lia. }
  { rewrite Hlen. unfold upper'. lia. }
  { done. }
  { intros x Hx. destruct (Hidx x) as [? Hs]; [by right|]. split; [done|]. cbn.
    rewrite list_lookup_insert_ne; [done|]. specialize (Hother x Hx). lia. }
  exists l, d. cbn [compactify]. fold upper'. rewrite page_read_in by lia. runs. fold bytes.
  rewrite page_write_in by (unfold upper' in *; lia). runs.
  rewrite (get_item _ _ old) by (cbn; rewrite ?Z.add_simpl_r; done || lia). runs.
  rewrite (put_item _ _ old) by done. runs. fold lp'.
  split_and!.
  - etransitivity; [exact Hrun|]. rewrite total_cons. unfold upper'. do 2 f_equal; lia.
  - by rewrite Hd.
  - rewrite Hl. cbn. by rewrite length_insert.
  - intros i Hi. rewrite Hsame by (intros x Hx; apply Hi; by right). cbn.
    apply list_lookup_insert_ne. specialize (Hi it ltac:(by left)). lia.
  - intros x lp Hx Hlp. simpl place. fold upper'. apply elem_of_cons in Hx as [->|Hx].
    + rewrite Z.eqb_refl, Hsame; [cbn|].
      * rewrite list_lookup_insert_eq by (by eapply lookup_lt_Some). unfold lp'. by simplify_eq.
      * intros y Hy. specialize (Hother y Hy). lia.
    + rewrite (proj2 (Z.eqb_neq _ _)) by auto. apply Hmoved; [done|]. cbn.
      rewrite list_lookup_insert_ne; [done|]. specialize (Hother x Hx). destruct (Hidx x) as [? _]; [by right|]. lia.
  - intros x Hx. simpl place. fold upper'. apply elem_of_cons in Hx as [->|Hx].
    + rewrite Z.eqb_refl, Habove by (unfold upper' in *; lia). cbn.
      rewrite slice_splice_inside by (unfold upper' in *; lia). rewrite Z.sub_diag. by apply slice_all.
    + rewrite (proj2 (Z.eqb_neq _ _)) by auto. rewrite Hbits by done. cbn.
      destruct (chained_in _ _ _ _ Hc Hx) as (? & ? & ?). apply slice_splice_outside; unfold upper' in *; lia.
  - intros o n Ho Hn. rewrite Habove by (unfold upper' in *; lia). cbn.
    apply slice_splice_outside; unfold upper' in *; lia.
Qed.

(** *** The items of the page, in line pointer order *)

Fixpoint entries (k : Z) l : list itemIdSortData :=
  match l with
  | [] => []
  | lp :: l =>
      if ItemIdHasStorage lp then MkSort k (lp_off lp) (MAXALIGN (lp_len lp)) lp :: entries (k + 1) l
      else entries (k + 1) l
  end.

Lemma elem_of_entries k l it :
  it ∈ entries k l <->
  exists j lp, l !! j = Some lp /\ lp_len lp <> 0 /\
    it = MkSort (k + Z.of_nat j) (lp_off lp) (MAXALIGN (lp_len lp)) lp.
Proof.
  revert k. induction l as [|lp l IH]; intros k; cbn [entries].
  { rewrite elem_of_nil. split; [done|]. intros (j & ? & Hj & _). by rewrite lookup_nil in Hj. }
  assert (Htail : it ∈ entries (k + 1) l <-> exists j lp', (lp :: l) !! S j = Some lp' /\ lp_len lp' <> 0 /\
    it = MkSort (k + Z.of_nat (S j)) (lp_off lp') (MAXALIGN (lp_len lp')) lp').
  { rewrite IH. cbn. split; intros (j & lp' & ? & ? & ->); exists j, lp'; split_and!; try done; f_equal; lia. }
  destruct (ItemIdHasStorage lp) eqn:Hst; [rewrite elem_of_cons|]; rewrite Htail; clear Htail.
  - apply has_storage in Hst. split.
    + intros [->|(j & lp' & ?)]; [|by exists (S j), lp']. exists 0%nat, lp. split_and!; [done..|f_equal; lia].
    + intros ([|j] & lp' & Hj & ? & ->); [left|right; by exists j, lp'].
      cbn in Hj. simplify_eq. f_equal. lia.
  - split; [intros (j & lp' & ?); by exists (S j), lp'|].
    intros ([|j] & lp' & Hj & Hne & ->); [|by exists j, lp']. cbn in Hj. simplify_eq.
    by apply has_storage in Hne; rewrite Hst in Hne.
Qed.

Lemma entries_index k l it : it ∈ entries k l -> k <= offsetindex it.
Proof. intros (j & lp & _ & _ & ->)%elem_of_entries. cbn. lia. Qed.

Lemma entries_nodup k l : NoDup (offsetindex <$> entries k l).
Proof.
  revert k. induction l as [|lp l IH]; intros k; cbn [entries]; [constructor|].
  destruct (ItemIdHasStorage lp); [|done]. rewrite fmap_cons. constructor; [|done].
  intros (it & He & Hin%entries_index)%list_elem_of_fmap. cbn in He. lia.
Qed.

Lemma total_entries k l : total (entries k l) = storage l.
Proof.
  revert k. induction l as [|lp l IH]; intros k; cbn [entries]; [done|].
  change (storage (lp :: l)) with (MAXALIGN (lp_len lp) + storage l).
  destruct (ItemIdHasStorage lp) eqn:Hst; [rewrite total_cons, IH; done|].
  unfold ItemIdHasStorage in Hst. apply negb_false_iff, Z.eqb_eq in Hst. rewrite Hst, IH. done.
Qed.

(** *** Sorting *)

#[global] Instance ItemOffCompare_total : Total ItemOffCompare.
Proof. intros a b. unfold ItemOffCompare. lia. Qed.
#[global] Instance ItemOffCompare_trans : Transitive ItemOffCompare.
Proof. intros a b c. unfold ItemOffCompare. lia. Qed.

Lemma total_perm its its' : its ≡ₚ its' -> total its = total its'.
Proof. induction 1; rewrite ?total_cons; lia || congruence. Qed.

Definition item_apart (a b : itemIdSortData) : Prop :=
  itemoff a + alignedlen a <= itemoff b \/ itemoff b + alignedlen b <= itemoff a.

(** Items of decreasing offset that are apart follow each other. *)
Lemma sorted_chained lo its upper :
  StronglySorted ItemOffCompare its -> NoDup (offsetindex <$> its) ->
  (forall a b, a ∈ its -> b ∈ its -> offsetindex a <> offsetindex b -> item_apart a b) ->
  (forall a, a ∈ its -> lo <= itemoff a /\ 0 < alignedlen a /\ itemoff a + alignedlen a <= upper) ->
  chained lo its upper.
Proof.
  intros Hs. revert upper. induction Hs as [|a its Hs IH Ha]; intros upper Hnd Hapart Hin; [done|].
  rewrite fmap_cons in Hnd. apply NoDup_cons in Hnd as [Hni Hnd]. cbn [chained].
  destruct (Hin a) as (? & ? & ?); [by left|]. split_and!; [done..|].
  apply IH; [done|intros; apply Hapart; [by right..|done]|].
  intros b Hb. destruct (Hin b) as (? & ? & ?); [by right|]. split_and!; [done..|].
  rewrite Forall_forall in Ha. specialize (Ha b Hb). unfold ItemOffCompare in Ha.
  destruct (Hapart a b) as [?|?]; [by left|by right| |lia|done].
  intros He. apply Hni. rewrite He. by apply list_elem_of_fmap_2.
Qed.

Lemma apart_lookup l i j a b :
  pairwise apart l -> l !! i = Some a -> l !! j = Some b -> i <> j -> apart a b.
Proof.
  rewrite pairwise_lookup. intros Hp Ha Hb Hne.
  destruct (decide (i < j)%nat); [by eapply (Hp i j)|symmetry; eapply (Hp j i); [lia|done..]].
Qed.

(** What [qsort] gives for the items of a valid array of line pointers. *)
Lemma sorted_entries lo upper special l :
  lo <= upper -> linp_ok upper special l ->
  let its := merge_sort ItemOffCompare (entries 0 l) in
  chained lo its special /\ NoDup (offsetindex <$> its) /\ total its = storage l /\
  (forall it, it ∈ its <-> it ∈ entries 0 l).
Proof.
  intros Hlo [Hok Hap] its. assert (Hperm : its ≡ₚ entries 0 l) by apply merge_sort_Permutation.
  assert (Hnd : NoDup (offsetindex <$> its)) by (rewrite Hperm; apply entries_nodup).
  assert (Hin : forall it, it ∈ its <-> it ∈ entries 0 l) by (intros it; by rewrite Hperm).
  split_and!; [|done|by rewrite (total_perm _ _ Hperm), total_entries|done].
  apply sorted_chained; [apply StronglySorted_merge_sort; apply _|done| |].
  - intros a b (i & lp & Hi & Hl & ->)%Hin%elem_of_entries (j & lp' & Hj & Hl' & ->)%Hin%elem_of_entries Hne.
    cbn in Hne. apply (apart_lookup l i j lp lp'); try done. lia.
  - intros a (i & lp & Hi & Hl & ->)%Hin%elem_of_entries. cbn.
    eapply Forall_lookup_1 in Hok; [|exact Hi]. destruct Hok as (_ & Hlen & _ & Hs). destruct (Hs Hl) as (? & ? & _).
    pose proof (MAXALIGN_bounds (lp_len lp)). unfold in_u in Hlen. lia.
Qed.

(** The items of a valid page fit. *)
Lemma storage_bounds upper special l : upper <= special -> linp_ok upper special l -> 0 <= storage l <= special - upper.
Proof.
  intros Hle Hl. destruct (sorted_entries upper upper special l) as (Hc & _ & <- & _); [lia|done|].
  by apply total_chained.
Qed.

(** *** The page after compaction *)

Lemma set_lp_off_small lp off :
  in_u 15 off -> set_lp_off lp off = MkItemId off (lp_flags lp) (lp_len lp).
Proof. intros. unfold set_lp_off. by rewrite uN_small. Qed.

(** Where [compactify] leaves a line pointer of the list [l]. *)
Definition moved its (special : Z) (i : nat) (lp : ItemIdData) : ItemIdData :=
  if ItemIdHasStorage lp then set_lp_off lp (place its special (Z.of_nat i)) else lp.

Section Moved.
Variables (upper special : Z) (l : list ItemIdData) (d d' : list Z).
Let its := merge_sort ItemOffCompare (entries 0 l).
Hypotheses (Hu : 0 <= upper <= special) (Hs : special <= 32768) (Hal : aligned special)
  (Hl : linp_ok upper special l)
  (Hbits : forall it, it ∈ its ->
     slice d' (place its special (offsetindex it)) (alignedlen it) = slice d (itemoff it) (alignedlen it)).

Lemma moved_item i lp :
  l !! i = Some lp -> lp_len lp <> 0 ->
  exists off, moved its special i lp = MkItemId off (lp_flags lp) (lp_len lp) /\
    off = place its special (Z.of_nat i) /\ in_u 15 off /\ aligned off /\ 0 < lp_len lp /\
    special - storage l <= off /\ off + MAXALIGN (lp_len lp) <= special /\
    slice d' off (lp_len lp) = slice d (lp_off lp) (lp_len lp).
Proof using Hu Hs Hal Hl Hbits.
  intros Hi Hne. destruct (sorted_entries upper upper special l) as (Hc & Hnd & Ht & Hin); [lia|done|].
  fold its in Hc, Hnd, Ht, Hin. pose proof (storage_bounds upper special l (proj2 Hu) Hl) as Hst.
  assert (Hit : MkSort (Z.of_nat i) (lp_off lp) (MAXALIGN (lp_len lp)) lp ∈ its).
  { apply Hin, elem_of_entries. exists i, lp. by split_and!. }
  destruct (place_bounds _ _ _ _ Hnd Hc Hit) as [Hlo Hhi]. specialize (Hbits _ Hit). cbn in Hlo, Hhi, Hbits.
  rewrite Ht in Hlo. pose proof Hl as [Hok _]. eapply Forall_lookup_1 in Hok; [|exact Hi].
  destruct Hok as (? & Hlen & _ & Hsto). destruct (Hsto Hne) as (? & ? & ?). pose proof (MAXALIGN_bounds (lp_len lp)).
  assert (Hoff : in_u 15 (place its special (Z.of_nat i))) by (unfold in_u in *; lia).
  exists (place its special (Z.of_nat i)). unfold moved. rewrite (proj2 (has_storage lp) Hne).
  rewrite set_lp_off_small by done. unfold in_u in Hlen. split_and!; try done; try lia.
  - apply place_aligned; [done|]. rewrite Forall_forall. intros it Hx%Hin.
    apply elem_of_entries in Hx as (j & lp' & _ & _ & ->). apply MAXALIGN_bounds.
  - apply slice_part with (n := MAXALIGN (lp_len lp)); try done; lia.
Qed.

Lemma moved_lp_ok i lp : l !! i = Some lp -> lp_ok (special - storage l) special (moved its special i lp).
Proof using Hu Hs Hal Hl Hbits.
  intros Hi. pose proof Hl as [Hok _]. eapply Forall_lookup_1 in Hok; [|exact Hi].
  destruct (decide (lp_len lp = 0)) as [Hz|Hne].
  - unfold moved. assert (ItemIdHasStorage lp = false) as -> by (unfold ItemIdHasStorage; by rewrite Hz).
    destruct Hok as (? & ? & ? & _). by split_and!.
  - destruct (moved_item i lp Hi Hne) as (off & -> & _ & ? & ? & ? & ? & ? & _).
    destruct Hok as (_ & Hlen & Hun & _). split_and!; cbn; done.
Qed.

Lemma moved_apart i j a b :
  l !! i = Some a -> l !! j = Some b -> i <> j -> apart (moved its special i a) (moved its special j b).
Proof using Hu Hs Hal Hl Hbits.
  intros Ha Hb Hne Hla Hlb.
  assert (Hlen : forall k lp, lp_len (moved its special k lp) = lp_len lp).
  { intros k lp. unfold moved. by destruct (ItemIdHasStorage lp). }
  rewrite !Hlen in *. destruct (moved_item i a Ha Hla) as (o & -> & -> & _).
  destruct (moved_item j b Hb Hlb) as (o' & -> & -> & _). cbn.
  destruct (sorted_entries upper upper special l) as (Hc & Hnd & Ht & Hin); [lia|done|].
  pose (x := MkSort (Z.of_nat i) (lp_off a) (MAXALIGN (lp_len a)) a).
  pose (y := MkSort (Z.of_nat j) (lp_off b) (MAXALIGN (lp_len b)) b).
  apply (place_apart _ _ special x y Hnd Hc); [| |cbn; lia];
    apply Hin, elem_of_entries; [exists i, a|exists j, b]; by split_and!.
Qed.

(** The compacted line pointers are valid and show the same content. *)
Lemma moved_ok k :
  length k = length l -> (forall i lp, l !! i = Some lp -> k !! i = Some (moved its special i lp)) ->
  linp_ok (special - storage l) special k /\ view d' <$> k = view d <$> l /\ lp_len <$> k = lp_len <$> l.
Proof using Hu Hs Hal Hl Hbits.
  intros Hlen Hk.
  assert (Hback : forall i lp', k !! i = Some lp' -> exists lp, l !! i = Some lp /\ lp' = moved its special i lp).
  { intros i lp' Hi. destruct (l !! i) as [lp|] eqn:Hli.
    - exists lp. rewrite (Hk _ _ Hli) in Hi. by simplify_eq.
    - apply lookup_ge_None_1 in Hli. apply lookup_lt_Some in Hi. lia. }
  split_and!; [split| |].
  - apply Forall_lookup_2. intros i lp' (lp & Hi & ->)%Hback. by apply moved_lp_ok.
  - apply pairwise_lookup. intros i j a b Hij (x & Hx & ->)%Hback (y & Hy & ->)%Hback.
    apply moved_apart; [done..|lia].
  - apply list_eq_same_length with (n := length l); rewrite ?length_fmap; [done..|].
    intros i x y Hi (lp' & -> & (lp & Hx & ->)%Hback)%list_lookup_fmap_Some
      (lp2 & -> & Hy)%list_lookup_fmap_Some. simplify_eq. unfold view.
    destruct (decide (lp_len lp = 0)) as [Hz|Hne].
    + unfold moved. assert (ItemIdHasStorage lp = false) as -> by (unfold ItemIdHasStorage; by rewrite Hz).
      by unfold ItemIdHasStorage; rewrite Hz.
    + destruct (moved_item i lp Hx Hne) as (off & -> & _ & _ & _ & _ & _ & _ & Hsl).
      unfold ItemIdHasStorage, ItemIdIsUsed. cbn [lp_len lp_off lp_flags].
      by rewrite (proj2 (Z.eqb_neq _ _) Hne), Hsl.
  - apply list_eq_same_length with (n := length l); rewrite ?length_fmap; [done..|].
    intros i x y Hi (lp' & -> & (lp & Hx & ->)%Hback)%list_lookup_fmap_Some
      (lp2 & -> & Hy)%list_lookup_fmap_Some. simplify_eq. unfold moved. by destruct (ItemIdHasStorage lp).
Qed.
End Moved.

(** [sort_and_move] packs the items of the line pointers [l] at the end of
    the page: always possible when the array on the stack has room. *)
Lemma sort_and_move_spec (install : bool) max p l :
  let its := merge_sort ItemOffCompare (entries 0 l) in
  page_ok p -> linp_ok (pd_upper p) (pd_special p) l -> (length l <= length (pd_linp p))%nat ->
  zlen (entries 0 l) <= max ->
  (forall i lp, l !! i = Some lp -> install = false \/ lp_len lp = 0 -> pd_linp p !! i = Some lp) ->
  exists k d,
    sort_and_move install max (entries 0 l) p = Done (pd_special p - storage l, set_data d (set_linp k p)) /\
    zlen d = zlen (pd_data p) /\ length k = length (pd_linp p) /\
    linp_ok (pd_special p - storage l) (pd_special p) (take (length l) k) /\
    view d <$> take (length l) k = view (pd_data p) <$> l /\
    lp_len <$> take (length l) k = lp_len <$> l.
Proof.
  intros its H Hl Hlen Hmax Hsame. pose proof (page_bounds p H) as Hb. pose proof (ok_data p H) as Hdata.
  pose proof (ok_lower p H) as Hlower. pose proof (ok_aligned p H) as [_ Hal].
  destruct (sorted_entries (linp_end p) (pd_upper p) (pd_special p) l) as (Hc & Hnd & Ht & Hin); [lia|done|].
  fold its in Hc, Hnd, Ht, Hin.
  pose proof (storage_bounds (pd_upper p) (pd_special p) l ltac:(lia) Hl) as Hst.
  destruct (compactify_spec install its (pd_special p) p) as (k & d & Hrun & Hd & Hk & Hkeep & Hmoved & Hbits & _);
    [done|lia|done| |].
  { intros it (i & lp & Hi & _ & ->)%Hin%elem_of_entries. cbn [offsetindex]. rewrite Z.add_0_l, Nat2Z.id. split; [lia|].
    apply lookup_lt_is_Some. apply lookup_lt_Some in Hi. lia. }
  exists k, d. unfold sort_and_move. rewrite (proj2 (Z.ltb_ge _ _)) by lia.
  change (foldr Z.add 0 (alignedlen <$> entries 0 l)) with (total (entries 0 l)). rewrite total_entries.
  rewrite (proj2 (Z.ltb_ge _ _)) by lia. fold its. rewrite Hrun, Ht. do 3 (split; [done|]).
  apply moved_ok with (upper := pd_upper p); [lia|lia|done..|rewrite length_take; lia|].
  intros i lp Hi. pose proof (lookup_lt_Some _ _ _ Hi). rewrite lookup_take_lt by lia. unfold moved.
  destruct (ItemIdHasStorage lp) eqn:Hhas.
  - pose proof (proj1 (has_storage lp) Hhas) as Hne. pose (it := MkSort (Z.of_nat i) (lp_off lp) (MAXALIGN (lp_len lp)) lp).
    assert (Hit : it ∈ its) by (apply Hin, elem_of_entries; exists i, lp; by split_and!).
    destruct (lookup_lt_is_Some_2 (pd_linp p) i) as [old Hold]; [lia|].
    specialize (Hmoved it old Hit). cbn [it offsetindex olditemid] in Hmoved. rewrite Nat2Z.id in Hmoved. rewrite (Hmoved Hold).
    destruct install; [done|]. rewrite (Hsame i lp Hi) in Hold by auto. by simplify_eq.
  - rewrite Hkeep; [|].
    + apply Hsame; [done|]. right. apply negb_false_iff, Z.eqb_eq in Hhas. done.
    + intros it (j & lp' & Hj & Hne & ->)%Hin%elem_of_entries He. cbn in He.
      assert (j = i) as -> by lia. simplify_eq. apply has_storage in Hne. congruence.
Qed.

Lemma length_entries k l : (length (entries k l) <= length l)%nat.
Proof. revert k. induction l as [|lp l IH]; intros k; cbn; [lia|]. specialize (IH (k + 1)). destruct (ItemIdHasStorage lp); cbn; lia. Qed.

Lemma storage_aligned l : aligned (storage l).
Proof.
  induction l as [|lp l IH]; [done|]. change (storage (lp :: l)) with (MAXALIGN (lp_len lp) + storage l).
  apply aligned_add; [apply MAXALIGN_bounds|done].
Qed.

(** *** PageRepairFragmentation *)

Lemma repair_items_spec p k l :
  Forall (lp_ok (pd_upper p) (pd_special p)) l -> repair_items p k l = Done (entries k l).
Proof.
  intros Hf. revert k. induction Hf as [|lp l Hok Hf IH]; intros k; cbn [repair_items entries]; [done|].
  destruct (ItemIdHasStorage lp) eqn:Hst; [|apply IH]. apply has_storage in Hst.
  destruct Hok as (_ & Hlen & _ & Hs). destruct (Hs Hst) as (? & ? & _). pose proof (MAXALIGN_bounds (lp_len lp)).
  unfold in_u in Hlen. rewrite (proj2 (Z.ltb_ge _ _)), (proj2 (Z.leb_gt _ _)) by lia. cbn [orb].
  rewrite IH. done.
Qed.

Lemma make_unused_lp_ok upper special lp : lp_ok upper special lp -> lp_ok upper special (make_unused lp).
Proof. unfold make_unused. destruct (ItemIdIsUsed lp); [done|]. intros _. split_and!; done. Qed.

Lemma make_unused_len upper special lp : lp_ok upper special lp -> lp_len (make_unused lp) = lp_len lp.
Proof.
  intros (_ & _ & Hu & _). unfold make_unused. destruct (ItemIdIsUsed lp) eqn:He; [done|].
  unfold ItemIdIsUsed in He. apply negb_false_iff, Z.eqb_eq in He. by rewrite Hu.
Qed.

Lemma make_unused_view upper special d lp : lp_ok upper special lp -> view d (make_unused lp) = view d lp.
Proof.
  intros Hok. unfold make_unused. destruct (ItemIdIsUsed lp) eqn:He; [done|].
  by rewrite (unused_view upper special d lp).
Qed.

Lemma pairwise_fmap {A} (R : A -> A -> Prop) (f : A -> A) (l : list A) :
  pairwise R l -> (forall a b, a ∈ l -> b ∈ l -> R a b -> R (f a) (f b)) -> pairwise R (f <$> l).
Proof.
  rewrite !pairwise_lookup. intros Hp Hf i j a b Hij (x & -> & Hx)%list_lookup_fmap_Some (y & -> & Hy)%list_lookup_fmap_Some.
  apply Hf; [by eapply list_elem_of_lookup_2..|by apply (Hp i j)].
Qed.

(** Clearing the unused line pointers changes nothing. *)
Lemma clear_unused_spec p :
  page_ok p ->
  let l := make_unused <$> pd_linp p in
  page_ok (set_linp l p) /\ page_view (set_linp l p) = page_view p /\ storage l = storage (pd_linp p).
Proof.
  intros H l. destruct (ok_linp p H) as [Hok Hap]. split_and!.
  - destruct H as [Hlo Hup Hsp Hal Hd _]. constructor; try done; cbn.
    + rewrite Hlo. unfold linp_end, l, zlen. cbn. by rewrite length_fmap.
    + split; [apply Forall_fmap; eapply Forall_impl; [exact Hok|]; intros lp; apply make_unused_lp_ok|].
      apply pairwise_fmap; [done|]. rewrite Forall_forall in Hok. intros a b Ha Hb Hab Hla Hlb.
      rewrite (make_unused_len _ _ _ (Hok a Ha)) in *. rewrite (make_unused_len _ _ _ (Hok b Hb)) in *.
      specialize (Hab Hla Hlb). unfold make_unused.
      destruct (Hok a Ha) as (_ & _ & Hua & _), (Hok b Hb) as (_ & _ & Hub & _). unfold ItemIdIsUsed.
      destruct (Z.eqb_spec (lp_flags a) LP_UNUSED); [by rewrite Hua in Hla|].
      destruct (Z.eqb_spec (lp_flags b) LP_UNUSED); [by rewrite Hub in Hlb|]. done.
  - unfold page_view. cbn. unfold l. rewrite <- list_fmap_compose. apply list_fmap_ext. intros i lp Hi. cbn.
    eapply make_unused_view. eapply Forall_lookup_1; [exact Hok|done].
  - unfold l, storage. f_equal. f_equal. rewrite <- list_fmap_compose. apply list_fmap_ext. intros i lp Hi. cbn.
    eapply make_unused_len. eapply Forall_lookup_1; [exact Hok|done].
Qed.

Lemma no_storage_ok upper special l :
  existsb ItemIdHasStorage l = false -> linp_ok upper special l -> linp_ok special special l /\ storage l = 0.
Proof.
  intros He [Hok Hap].
  assert (Hz : Forall (fun lp => lp_len lp = 0) l).
  { apply Forall_forall. intros lp Hin. destruct (decide (lp_len lp = 0)) as [|Hne%has_storage]; [done|].
    assert (existsb ItemIdHasStorage l = true); [|congruence]. apply existsb_exists. exists lp. split; [by apply list_elem_of_In|done]. }
  split; [split; [|done]|].
  - rewrite Forall_forall in Hok, Hz. apply Forall_forall. intros lp Hin. destruct (Hok lp Hin) as (? & ? & ? & _).
    split_and!; try done. intros Hne. by rewrite Hz in Hne.
  - unfold storage. clear -Hz. induction Hz as [|lp l Hlp Hz IH]; [done|]. cbn. rewrite Hlp. exact IH.
Qed.

(** The common part: the items end up packed against the special space. *)
Lemma repair_pack p :
  page_ok p -> zlen (pd_linp p) <= MaxHeapTuplesPerPage ->
  exists p',
    (if negb (existsb ItemIdHasStorage (pd_linp p)) then mret (set_bounds (pd_lower p) (pd_special p) p)
     else
       items ← repair_items p 0 (pd_linp p);
       r ← sort_and_move false MaxHeapTuplesPerPage items p;
       let '(upper, p) := (r : Z * PageHeaderData) in
       mret (set_bounds (pd_lower p) (u16 upper) p)) = Done p' /\
    page_ok p' /\ same_frame p p' /\ page_view p' = page_view p /\ pd_lower p' = pd_lower p /\
    pd_upper p' = pd_special p - storage (pd_linp p) /\ pd_flags p' = pd_flags p.
Proof.
  intros H Hmax. pose proof (page_bounds p H) as Hb. pose proof (ok_linp p H) as Hl. pose proof (ok_aligned p H) as [_ Hal].
  pose proof (storage_bounds (pd_upper p) (pd_special p) (pd_linp p) ltac:(lia) Hl) as Hst.
  destruct (existsb ItemIdHasStorage (pd_linp p)) eqn:Hex; cbn [negb].
  - rewrite repair_items_spec by apply Hl. runs.
    destruct (sort_and_move_spec false MaxHeapTuplesPerPage p (pd_linp p)) as (k & d & Hrun & Hd & Hk & Hkok & Hview & _);
      [done|done|lia| |done|].
    { unfold zlen in *. pose proof (length_entries 0 (pd_linp p)). lia. }
    rewrite take_ge in Hkok, Hview by lia. rewrite Hrun. runs. eexists. split; [done|].
    rewrite uN_small by (unfold in_u; lia). split_and!; try done.
    constructor; cbn; [|lia..| |by rewrite Hd, (ok_data p H)|done].
    + rewrite (ok_lower p H). unfold linp_end, zlen. cbn. by rewrite Hk.
    + split; [|done]. apply aligned_sub; [done|]. apply storage_aligned.
  - destruct (no_storage_ok _ _ _ Hex Hl) as [Hl' ->]. rewrite Z.sub_0_r. eexists. split; [done|].
    split_and!; try done. constructor; cbn; try done; try lia; [apply H|apply H].
Qed.

Lemma hint_set p : PageHasFreeLinePointers (PageSetHasFreeLinePointers p) = true.
Proof.
  unfold PageHasFreeLinePointers, has_flag, PageSetHasFreeLinePointers. cbn [set_pd_flags pd_flags].
  rewrite negb_true_iff, Z.eqb_neq, Z.land_lor_distr_l, Z.lor_eq_0_iff. intros [_ He]. done.
Qed.

Lemma hint_clear p : PageHasFreeLinePointers (PageClearHasFreeLinePointers p) = false.
Proof.
  unfold PageHasFreeLinePointers, has_flag, PageClearHasFreeLinePointers. cbn [set_pd_flags pd_flags].
  rewrite <- Z.land_assoc. change (Z.land (Z.lnot PD_HAS_FREE_LINES) PD_HAS_FREE_LINES) with 0. by rewrite Z.land_0_r.
Qed.

(** An unused line pointer is what a reader sees as unused. *)
Lemma unused_in_view p :
  page_ok p -> existsb (fun lp => negb (ItemIdIsUsed lp)) (pd_linp p) = true <-> VUnused ∈ page_view p.
Proof.
  intros H. destruct (ok_linp p H) as [Hok _]. rewrite Forall_forall in Hok.
  rewrite existsb_exists. unfold page_view. rewrite list_elem_of_fmap. split.
  - intros (lp & Hin%list_elem_of_In & Hu%negb_true_iff). exists lp. split; [|done].
    by rewrite (unused_view _ _ _ _ (Hok lp Hin)).
  - intros (lp & Hv & Hin). exists lp. split; [by apply list_elem_of_In|]. unfold view in Hv.
    destruct (ItemIdHasStorage lp); [done|]. by destruct (ItemIdIsUsed lp).
Qed.

Lemma repair_fragmentation_spec p :
  page_ok p -> zlen (pd_linp p) <= MaxHeapTuplesPerPage ->
  exists p',
    PageRepairFragmentation p = Done p' /\ page_ok p' /\ same_frame p p' /\
    page_view p' = page_view p /\ pd_lower p' = pd_lower p /\
    pd_upper p' = pd_special p - storage (pd_linp p) /\
    (PageHasFreeLinePointers p' = true <-> VUnused ∈ page_view p).
Proof.
  intros H Hmax. pose proof (header_size p). unfold PageRepairFragmentation.
  rewrite header_not_corrupted by (done || (unfold SizeOfPageHeaderData; lia)).
  rewrite special_aligned by done. cbn [negb orb]. rewrite max_offset, Z.ltb_irrefl by done.
  destruct (clear_unused_spec p H) as (Hok1 & Hview1 & Hst1).
  set (p1 := set_linp (make_unused <$> pd_linp p) p) in *.
  destruct (repair_pack p1 Hok1) as (p2 & Hrun & Hok2 & [Hsp Hv] & Hview & Hlo & Hup & _).
  { cbn. unfold zlen in *. by rewrite length_fmap. }
  rewrite Hrun. runs. pose proof (unused_in_view p1 Hok1) as Hun. rewrite Hview1 in Hun.
  assert (Hup' : pd_upper p2 = pd_special p - storage (pd_linp p)) by (rewrite Hup, <- Hst1; done).
  eexists. split; [done|]. destruct (existsb (fun lp => negb (ItemIdIsUsed lp)) (pd_linp p1)).
  - split_and!; try done; [by apply page_ok_flags|by rewrite <- Hview1|rewrite hint_set; tauto].
  - split_and!; try done; [by apply page_ok_flags|by rewrite <- Hview1|]. rewrite hint_clear.
    split; [done|]. intros Hx. by apply Hun in Hx.
Qed.

(** C31 [PageRepairFragmentation] on a valid heap page: every line pointer shows
    what it showed before, all free bytes are in one piece (the items with
    their padding are packed against the special space), the invariant holds,
    and the hint tells exactly whether a line pointer is free. *)
Theorem PageRepairFragmentation_correct p :
  page_ok p -> zlen (pd_linp p) <= MaxHeapTuplesPerPage ->
  exists p',
    PageRepairFragmentation p = Done p' /\ page_ok p' /\ same_frame p p' /\
    page_view p' = page_view p /\ pd_lower p' = pd_lower p /\
    pd_upper p' = pd_special p - storage (pd_linp p) /\
    (PageHasFreeLinePointers p' = true <-> VUnused ∈ page_view p).
Proof. apply repair_fragmentation_spec. Qed.

(** *** PageIndexTupleDelete *)

(** Index pages: the short header, and every line pointer has an item of
    aligned length. *)
Definition index_ok p : Prop :=
  PageIs8BXidHeapVersion p = false /\ Forall (fun len => 0 < len /\ aligned len) (lp_len <$> pd_linp p).

Lemma index_lp p i lp :
  page_ok p -> index_ok p -> pd_linp p !! i = Some lp ->
  pd_upper p <= lp_off lp /\ lp_off lp + lp_len lp <= pd_special p /\ aligned (lp_off lp) /\
  0 < lp_len lp /\ aligned (lp_len lp) /\ in_u 15 (lp_off lp) /\ in_u 15 (lp_len lp) /\ lp_flags lp <> LP_UNUSED.
Proof.
  intros H [_ Hix] Hi. pose proof (linp_lookup p i lp H Hi) as (Ho & Hl & Hu & Hs).
  assert (Hlen : 0 < lp_len lp /\ aligned (lp_len lp)).
  { rewrite Forall_fmap in Hix. by eapply Forall_lookup_1 in Hix. }
  destruct Hlen as [Hpos Hal]. destruct Hs as (? & Hend & ?); [lia|]. rewrite MAXALIGN_aligned in Hend by done.
  split_and!; try done. intros ?. lia.
Qed.

(** The element at [i] after the deletion of element [k] was at [undelete k i]. *)
Definition undelete (k i : nat) : nat := if decide (i < k)%nat then i else S i.

Lemma lookup_undelete {A} (l : list A) k i : delete k l !! i = l !! undelete k i.
Proof. unfold undelete. case_decide; [by apply list_lookup_delete_lt|apply list_lookup_delete_ge; lia]. Qed.

Lemma undelete_ne k i : undelete k i <> k.
Proof. unfold undelete. case_decide; lia. Qed.

Lemma undelete_inj k i j : i <> j -> undelete k i <> undelete k j.
Proof. unfold undelete. repeat case_decide; lia. Qed.

Lemma splice_nil {A} (l : list A) off : splice l off [] = l.
Proof. unfold splice. cbn. rewrite Nat.add_0_r. apply take_drop. Qed.

Section Delete.
Variables (p : PageHeaderData) (k : nat) (tup : ItemIdData).
Hypotheses (Hp : page_ok p) (Hix : index_ok p) (Hk : pd_linp p !! k = Some tup).
Let upper := pd_upper p.
Let size := lp_len tup.
Let offset := lp_off tup.
Let bytes := slice (pd_data p) upper (offset - upper).
Let d := splice (pd_data p) (upper + size) bytes.
Let shift (ii : ItemIdData) := if lp_off ii <=? offset then set_lp_off ii (lp_off ii + size) else ii.

(** A line pointer that stays, and what becomes of it. *)
Lemma shift_spec i ii :
  delete k (pd_linp p) !! i = Some ii ->
  exists off, shift ii = MkItemId off (lp_flags ii) (lp_len ii) /\ in_u 15 off /\ aligned off /\
    upper + size <= off /\ off + lp_len ii <= pd_special p /\
    (off = lp_off ii + size /\ lp_off ii + lp_len ii <= offset \/ off = lp_off ii /\ offset + size <= lp_off ii) /\
    slice d off (lp_len ii) = slice (pd_data p) (lp_off ii) (lp_len ii).
Proof using Hp Hix Hk.
  rewrite lookup_undelete. intros Hj. pose proof (undelete_ne k i) as Hjk. set (j := undelete k i) in *.
  destruct (index_lp p k tup Hp Hix Hk) as (? & ? & ? & ? & ? & ? & ? & _).
  pose proof (page_bounds p Hp). pose proof (ok_data p Hp) as Hd.
  assert (Hb : zlen bytes = offset - upper) by (apply zlen_slice; unfold offset, upper; lia).
  destruct (index_lp p j ii Hp Hix Hj) as (? & ? & ? & ? & ? & ? & ? & _).
  destruct (ok_linp p Hp) as [_ Hap]. pose proof (apart_lookup _ _ _ _ _ Hap Hj Hk Hjk ltac:(lia) ltac:(lia)) as Hside.
  rewrite !MAXALIGN_aligned in Hside by done. unfold shift. unfold d, offset, size, upper, in_u in *.
  destruct (Z.leb_spec (lp_off ii) (lp_off tup)).
  - exists (lp_off ii + lp_len tup). rewrite set_lp_off_small by (unfold in_u; lia).
    split_and!; try done; try lia; [by apply aligned_add|].
    rewrite slice_splice_inside by lia. unfold bytes. rewrite slice_slice by lia. f_equal. lia.
  - exists (lp_off ii). split_and!; try done; try lia; [by destruct ii|].
    apply slice_splice_outside; lia.
Qed.

Lemma shift_len ii : lp_len (shift ii) = lp_len ii.
Proof. unfold shift. by destruct (_ <=? _). Qed.

Let p' := set_bounds (pd_lower p - 4) (upper + size) (set_data d (set_linp (shift <$> delete k (pd_linp p)) p)).

Lemma deleted_ok : page_ok p'.
Proof using Hp Hix Hk.
  destruct (index_lp p k tup Hp Hix Hk) as (? & ? & ? & ? & ? & ? & ? & _).
  pose proof (page_bounds p Hp). destruct (ok_linp p Hp) as [Hok Hap]. pose proof (ok_aligned p Hp) as [? ?].
  pose proof (ok_data p Hp) as Hd.
  assert (Hlen : length (delete k (pd_linp p)) = (length (pd_linp p) - 1)%nat).
  { apply length_delete. by exists tup. }
  pose proof (lookup_lt_Some _ _ _ Hk).
  constructor; cbn; try done; [|lia|unfold upper, size; lia| | |].
  - unfold linp_end, zlen. cbn. rewrite length_fmap, Hlen. unfold sizeof_ItemIdData.
    change (pd_lower p - 4 = GetPageHeaderSize p + 4 * Z.of_nat (length (pd_linp p) - 1)). unfold zlen in *. lia.
  - split; [by apply aligned_add|done].
  - unfold d. rewrite zlen_splice; [done|unfold upper, size; lia|]. unfold bytes. rewrite zlen_slice; unfold upper, size, offset; lia.
  - split.
    + apply Forall_fmap, Forall_lookup_2. intros i ii Hi. destruct (shift_spec i ii Hi) as (off & Heq & ? & ? & ? & ? & _).
      cbn. rewrite Heq. rewrite lookup_undelete in Hi.
      destruct (index_lp p _ ii Hp Hix Hi) as (? & ? & ? & ? & ? & ? & ? & ?).
      split_and!; cbn; try done. intros _. rewrite MAXALIGN_aligned by done. done.
    + apply pairwise_lookup. intros i j a b Hij (x & -> & Hx)%list_lookup_fmap_Some (y & -> & Hy)%list_lookup_fmap_Some.
      destruct (shift_spec i x Hx) as (o & -> & _ & _ & _ & _ & Ho & _).
      destruct (shift_spec j y Hy) as (o' & -> & _ & _ & _ & _ & Ho' & _).
      rewrite lookup_undelete in Hx, Hy. pose proof (undelete_inj k i j ltac:(lia)) as Hne.
      pose proof (apart_lookup _ _ _ _ _ Hap Hx Hy Hne) as Hxy. unfold apart in *. cbn.
      destruct (index_lp p _ x Hp Hix Hx) as (_ & _ & _ & ? & ? & _).
      destruct (index_lp p _ y Hp Hix Hy) as (_ & _ & _ & ? & ? & _). rewrite !MAXALIGN_aligned in * by done.
      unfold size, offset in *. lia.
Qed.

Lemma deleted_index_ok : index_ok p'.
Proof using Hp Hix Hk.
  destruct Hix as [Hv Hf]. split; [done|]. cbn. rewrite <- list_fmap_compose.
  rewrite (list_fmap_ext _ lp_len) by (intros; apply shift_len). rewrite list_fmap_delete.
  by apply Forall_delete.
Qed.

Lemma deleted_view : page_view p' = delete k (page_view p).
Proof using Hp Hix Hk.
  unfold page_view. rewrite <- list_fmap_delete. cbn. rewrite <- list_fmap_compose.
  apply list_fmap_ext. intros i ii Hi. cbn. destruct (shift_spec i ii Hi) as (off & -> & _ & _ & _ & _ & _ & Hsl).
  rewrite lookup_undelete in Hi. destruct (index_lp p _ ii Hp Hix Hi) as (_ & _ & _ & ? & _).
  unfold view, ItemIdHasStorage. cbn [lp_len lp_off lp_flags]. rewrite Hsl.
  rewrite (proj2 (Z.eqb_neq _ _)) by lia. done.
Qed.
End Delete.

(** The run of [PageIndexTupleDelete] on an index page. *)
Lemma tuple_delete_run p n tup :
  page_ok p -> index_ok p -> 1 <= n -> pd_linp p !! Z.to_nat (n - 1) = Some tup ->
  exists p',
    PageIndexTupleDelete p n = Done p' /\ page_ok p' /\ index_ok p' /\ same_frame p p' /\
    page_view p' = delete (Z.to_nat (n - 1)) (page_view p) /\
    pd_lower p' = pd_lower p - 4 /\ pd_upper p' = pd_upper p + lp_len tup.
Proof.
  intros H Hix Hn Htup. pose proof (page_bounds p H) as Hb. pose proof (lookup_lt_Some _ _ _ Htup) as Hlt.
  destruct (index_lp p _ tup H Hix Htup) as (? & ? & Hal & ? & Hals & ? & ? & _).
  set (k := Z.to_nat (n - 1)) in *. set (bytes := slice (pd_data p) (pd_upper p) (lp_off tup - pd_upper p)).
  assert (Hbytes : zlen bytes = lp_off tup - pd_upper p) by (apply zlen_slice; rewrite ?(ok_data p H); lia).
  unfold PageIndexTupleDelete.
  rewrite header_not_corrupted by (done || (unfold SizeOfPageHeaderData; lia)). rewrite max_offset by done.
  rewrite (proj2 (Z.leb_gt _ _)), (proj2 (Z.ltb_ge _ _)) by (unfold zlen; lia). cbn [orb].
  rewrite (proj1 Hix), (get_item _ _ tup) by done. runs.
  rewrite !(proj2 (Z.ltb_ge _ _)), !(proj2 (MAXALIGN_eqb _)) by (done || lia). cbn [orb negb].
  replace (Z.to_nat n) with (S k) by lia. fold k. rewrite <- delete_take_drop.
  set (l := delete k (pd_linp p)).
  assert (Hmove : (if pd_upper (set_linp l p) <? lp_off tup
     then bytes ← page_read (set_linp l p) (pd_upper (set_linp l p)) (lp_off tup - pd_upper (set_linp l p));
          page_write (set_linp l p) (pd_upper (set_linp l p) + lp_len tup) bytes
     else mret (set_linp l p))
    = Done (set_data (splice (pd_data p) (pd_upper p + lp_len tup) bytes) (set_linp l p))).
  { assert (Hl : zlen l = zlen (pd_linp p) - 1).
    { unfold l, zlen. rewrite length_delete by done. lia. }
    cbn. destruct (Z.ltb_spec (pd_upper p) (lp_off tup)).
    - rewrite page_read_in by (cbn; rewrite ?(ok_data p H); lia). runs. cbn. fold bytes.
      rewrite page_write_in; [done|rewrite linp_end_set; lia|cbn; rewrite ?(ok_data p H); lia].
    - assert (bytes = []) as -> by (apply length_zero_iff_nil; unfold zlen in Hbytes; lia). by rewrite splice_nil. }
  rewrite Hmove. runs. cbn [set_data set_linp set_bounds pd_lower pd_upper pd_linp].
  change (pd_upper (set_linp l p)) with (pd_upper p). unfold sizeof_ItemIdData.
  rewrite !uN_small by (unfold in_u; cbn; lia).
  pose proof (deleted_ok p k tup H Hix Htup) as Hok. pose proof (deleted_index_ok p k tup H Hix Htup) as Hix'.
  pose proof (deleted_view p k tup H Hix Htup) as Hview.
  eexists. split; [|split_and!; [exact Hok|exact Hix'|by split|exact Hview|done|done]].
  destruct (negb _) eqn:Hempty; [done|]. f_equal. fold l. cbn.
  assert (l = []) as ->; [|done]. apply length_zero_iff_nil. unfold l. rewrite length_delete by done.
  apply negb_false_iff in Hempty. unfold PageIsEmpty in Hempty. apply Z.leb_le in Hempty.
  change (pd_lower p - 4 <= GetPageHeaderSize p) in Hempty. unfold zlen in *. lia.
Qed.

(** [PageIndexTupleDelete]: the line pointer disappears, the others keep
    their order and their items, the space of the item and of its line
    pointer becomes free; a number without an item is an error. *)
Theorem PageIndexTupleDelete_correct p n :
  page_ok p -> index_ok p ->
  if (1 <=? n) && (n <=? zlen (page_view p)) then
    exists p' flags bytes,
      PageIndexTupleDelete p n = Done p' /\ page_ok p' /\ index_ok p' /\ same_frame p p' /\
      page_view p !! Z.to_nat (n - 1) = Some (VItem flags bytes) /\
      page_view p' = delete (Z.to_nat (n - 1)) (page_view p) /\
      PageGetExactFreeSpace p' = PageGetExactFreeSpace p + zlen bytes + sizeof_ItemIdData
  else PageIndexTupleDelete p n = Report ERRCODE_INVALID_ROW_COUNT_IN_RESULT_OFFSET_CLAUSE.
Proof.
  intros H Hix. rewrite zlen_page_view. pose proof (page_bounds p H).
  destruct (_ && _) eqn:Hn.
  - apply andb_true_iff in Hn as [H1 H2]. apply Z.leb_le in H1, H2.
    destruct (lookup_lt_is_Some_2 (pd_linp p) (Z.to_nat (n - 1))) as [tup Htup]; [unfold zlen in *; lia|].
    destruct (tuple_delete_run p n tup H Hix H1 Htup) as (p' & Hrun & Hok & Hix' & Hfr & Hview & Hlo & Hup).
    destruct (index_lp p _ tup H Hix Htup) as (? & ? & Hal & ? & Hals & ? & ? & _).
    exists p', (lp_flags tup), (slice (pd_data p) (lp_off tup) (lp_len tup)). split_and!; try done.
    + unfold page_view. rewrite list_lookup_fmap, Htup. cbn. unfold view.
      by rewrite (proj2 (has_storage tup)) by lia.
    + rewrite !exact_free_space by done. rewrite zlen_slice; rewrite ?(ok_data p H); unfold sizeof_ItemIdData; lia.
  - unfold PageIndexTupleDelete.
    rewrite header_not_corrupted by (done || (unfold SizeOfPageHeaderData; lia)). rewrite max_offset by done.
    apply andb_false_iff in Hn. rewrite !Z.leb_gt in Hn.
    assert ((n <=? 0) || (zlen (pd_linp p) <? n) = true) as ->; [|done].
    rewrite orb_true_iff, Z.leb_le, Z.ltb_lt. lia.
Qed.

(** *** PageIndexMultiDelete *)

(** The elements whose number, counted from [k], is not in [itemnos]. *)
Fixpoint keep {A} (k : Z) (itemnos : list Z) (v : list A) : list A :=
  match v with
  | [] => []
  | x :: v => if decide (k ∈ itemnos) then keep (k + 1) itemnos v else x :: keep (k + 1) itemnos v
  end.

(** Increasing item numbers in [lo, hi). *)
Fixpoint ascending (lo : Z) (itemnos : list Z) (hi : Z) : Prop :=
  match itemnos with
  | [] => True
  | n :: itemnos => lo <= n < hi /\ ascending (n + 1) itemnos hi
  end.

Lemma ascending_ge lo itemnos hi n : ascending lo itemnos hi -> n ∈ itemnos -> lo <= n < hi.
Proof.
  revert lo. induction itemnos as [|m itemnos IH]; intros lo; [by intros _ ?%not_elem_of_nil|].
  cbn. intros [? Ha] [->|Hin]%elem_of_cons; [done|]. specialize (IH _ Ha Hin). lia.
Qed.

Lemma ascending_weaken lo lo' itemnos hi : lo' <= lo -> ascending lo itemnos hi -> ascending lo' itemnos hi.
Proof. destruct itemnos; cbn; [done|]. intros ? [? ?]. split; [lia|done]. Qed.

Section Keep.
Context {A : Type}.
Implicit Types v : list A.

Lemma keep_past k n itemnos v : n < k -> keep k (n :: itemnos) v = keep k itemnos v.
Proof.
  revert k. induction v as [|x v IH]; intros k Hk; cbn [keep]; [done|]. rewrite IH by lia.
  assert (k ∈ n :: itemnos <-> k ∈ itemnos) by (rewrite elem_of_cons; split; [intros [?|?]; [lia|done]|auto]).
  by rewrite (decide_ext (k ∈ n :: itemnos) (k ∈ itemnos)).
Qed.

Lemma keep_nil k v : keep k [] v = v.
Proof. revert k. induction v as [|x v IH]; intros k; cbn [keep]; [done|]. rewrite decide_False by apply not_elem_of_nil. by rewrite IH. Qed.

(** Removing the smallest number last. *)
Lemma keep_delete k n itemnos hi v :
  k <= n -> ascending (n + 1) itemnos hi -> keep k (n :: itemnos) v = delete (Z.to_nat (n - k)) (keep k itemnos v).
Proof.
  revert k. induction v as [|x v IH]; intros k Hk Ha; cbn [keep]; [by destruct (Z.to_nat (n - k))|].
  rewrite (decide_False (P := k ∈ itemnos)) by (intros Hin; pose proof (ascending_ge _ _ _ _ Ha Hin); lia).
  destruct (decide (k = n)) as [->|].
  - rewrite decide_True by left. rewrite Z.sub_diag. cbn. apply keep_past. lia.
  - rewrite decide_False.
    + rewrite IH by (done || lia). replace (Z.to_nat (n - k)) with (S (Z.to_nat (n - (k + 1)))) by lia. done.
    + intros [?|Hin]%elem_of_cons; [done|]. pose proof (ascending_ge _ _ _ _ Ha Hin). lia.
Qed.

Lemma keep_lookup_below k itemnos v i :
  (forall n, n ∈ itemnos -> k + Z.of_nat i < n) -> keep k itemnos v !! i = v !! i.
Proof.
  revert k i. induction v as [|x v IH]; intros k i Hn; cbn [keep]; [done|].
  rewrite decide_False by (intros Hin; specialize (Hn k Hin); lia). destruct i as [|i]; [done|]. cbn.
  apply IH. intros n Hin. specialize (Hn n Hin). lia.
Qed.
End Keep.

Lemma fmap_keep {A B} (f : A -> B) k itemnos (v : list A) : f <$> keep k itemnos v = keep k itemnos (f <$> v).
Proof. revert k. induction v as [|x v IH]; intros k; cbn; [done|]. case_decide; cbn; by rewrite <- IH. Qed.

(** Deleting one by one, from the last to the first. *)
Lemma delete_each_spec p lo itemnos :
  page_ok p -> index_ok p -> 1 <= lo -> ascending lo itemnos (zlen (pd_linp p) + 1) ->
  exists p',
    delete_each p itemnos = Done p' /\ page_ok p' /\ index_ok p' /\ same_frame p p' /\
    page_view p' = keep 1 itemnos (page_view p).
Proof.
  intros H Hix. revert lo. induction itemnos as [|n itemnos IH]; intros lo Hlo Ha.
  { exists p. rewrite keep_nil. split_and!; done || by split. }
  destruct Ha as [Hn Ha]. destruct (IH (n + 1) ltac:(lia) Ha) as (p' & Hrun & Hok & Hix' & [Hf1 Hf2] & Hview).
  assert (exists tup, pd_linp p' !! Z.to_nat (n - 1) = Some tup) as [tup Htup].
  { destruct (lookup_lt_is_Some_2 (page_view p) (Z.to_nat (n - 1))) as [w Hw].
    { unfold page_view. rewrite length_fmap. unfold zlen in *. lia. }
    rewrite <- (keep_lookup_below 1 itemnos) in Hw by (intros m Hm; pose proof (ascending_ge _ _ _ _ Ha Hm); lia).
    rewrite <- Hview in Hw. unfold page_view in Hw. apply list_lookup_fmap_Some in Hw as (tup & _ & ?). by exists tup. }
  destruct (tuple_delete_run p' n tup Hok Hix' ltac:(lia) Htup) as (q & Hq & Hqok & Hqix & [Hg1 Hg2] & Hqview & _).
  exists q. cbn [delete_each]. rewrite Hrun. runs. split_and!; try done; [split; congruence|].
  rewrite Hqview, Hview. symmetry. apply keep_delete with (hi := zlen (pd_linp p) + 1); [lia|done].
Qed.

(** The scan of the line pointers takes the entries of the items to keep; all
    item numbers are used up exactly when they are in order and in range. *)
Lemma items_to_keep_spec p l offnum nused itemnos :
  Forall (fun lp => pd_upper p <= lp_off lp /\ lp_off lp + lp_len lp <= pd_special p /\ aligned (lp_off lp) /\ 0 < lp_len lp) l ->
  exists its rest,
    items_to_keep p offnum nused itemnos l = Done (its, rest) /\
    (rest = [] <-> ascending offnum itemnos (offnum + zlen l)) /\
    (rest = [] -> its = entries nused (keep offnum itemnos l)).
Proof.
  intros Hf. revert offnum nused itemnos. induction Hf as [|lp l (Hup & Hsp & Hal & Hpos) Hf IH]; intros offnum nused itemnos.
  { exists [], itemnos. split_and!; [done| |done]. destruct itemnos; cbn; [done|]. split; [done|].
    rewrite Z.add_0_r. lia. }
  assert (Hz : offnum + zlen (lp :: l) = offnum + 1 + zlen l) by (unfold zlen; cbn; lia). rewrite Hz. clear Hz.
  assert (Hkeep : forall its', (exists n rest', itemnos = n :: rest' /\ n <> offnum) \/ itemnos = [] ->
    its' = entries (nused + 1) (keep (offnum + 1) itemnos l) -> ascending (offnum + 1) itemnos (offnum + 1 + zlen l) ->
    MkSort nused (lp_off lp) (MAXALIGN (lp_len lp)) lp :: its' = entries nused (keep offnum itemnos (lp :: l))).
  { intros its' Hi -> Ha. cbn [keep]. rewrite decide_False.
    - cbn [entries]. by rewrite (proj2 (has_storage lp)) by lia.
    - intros Hin. pose proof (ascending_ge _ _ _ _ Ha Hin). lia. }
  cbn [items_to_keep]. rewrite !(proj2 (Z.ltb_ge _ _)), (proj2 (MAXALIGN_eqb _)) by (done || lia). cbn [orb negb].
  destruct itemnos as [|n rest].
  - destruct (IH (offnum + 1) (nused + 1) []) as (its & r & Hrun & Hr & Hits). rewrite Hrun. runs. cbn [fst snd].
    eexists _, _. split_and!; [done|exact Hr|]. intros Hr0. apply Hkeep; auto. by apply Hr.
  - destruct (Z.eqb_spec offnum n) as [->|Hne].
    + destruct (IH (n + 1) nused rest) as (its & r & Hrun & Hr & Hits). rewrite Hrun.
      eexists _, _. split_and!; [done| |].
      * rewrite Hr. cbn. pose proof (zlen_nonneg l). intuition lia.
      * intros Hr0. cbn [keep]. rewrite decide_True by left. rewrite keep_past by lia. auto.
    + destruct (IH (offnum + 1) (nused + 1) (n :: rest)) as (its & r & Hrun & Hr & Hits). rewrite Hrun. runs. cbn [fst snd].
      eexists _, _. split_and!; [done| |].
      * rewrite Hr. cbn. intuition lia.
      * intros Hr0. apply Hkeep; [left; eauto|auto|by apply Hr].
Qed.

Lemma keep_sublist {A} k itemnos (v : list A) : keep k itemnos v `sublist_of` v.
Proof. revert k. induction v as [|x v IH]; intros k; cbn; [done|]. case_decide; by constructor. Qed.

Lemma Forall_sublist {A} (P : A -> Prop) (v w : list A) : v `sublist_of` w -> Forall P w -> Forall P v.
Proof. induction 1; [done| |]; intros [? ?]%Forall_cons; auto. Qed.

Lemma pairwise_sublist {A} (R : A -> A -> Prop) (v w : list A) : v `sublist_of` w -> pairwise R w -> pairwise R v.
Proof.
  induction 1 as [|x v w Hs IH|x v w Hs IH]; cbn; [done| |]; intros [Hf Hp]; [|auto].
  split; [by eapply Forall_sublist|auto].
Qed.

Lemma linp_ok_sublist upper special l k : k `sublist_of` l -> linp_ok upper special l -> linp_ok upper special k.
Proof.
  intros Hs [Hf Hp]. split; [by eapply Forall_sublist|by eapply pairwise_sublist].
Qed.

Lemma entries_all k l : Forall (fun lp => lp_len lp <> 0) l -> length (entries k l) = length l.
Proof.
  intros Hf. revert k. induction Hf as [|lp l Hlp Hf IH]; intros k; cbn [entries]; [done|].
  rewrite (proj2 (has_storage lp) Hlp). cbn. by rewrite IH.
Qed.

Lemma storage_lens l k : lp_len <$> l = lp_len <$> k -> storage l = storage k.
Proof. intros He. unfold storage. by rewrite He. Qed.

(** Packing the items to keep. *)
Lemma multi_pack p itemnos :
  let kept := keep 1 itemnos (pd_linp p) in
  page_ok p -> index_ok p -> zlen (pd_linp p) <= MaxIndexTuplesPerPage ->
  exists p',
    (r ← sort_and_move true MaxIndexTuplesPerPage (entries 0 kept) p;
     let '(upper, p) := (r : Z * PageHeaderData) in
     mret (set_bounds (u16 (SizeOfPageHeaderData + sizeof_ItemIdData * zlen (entries 0 kept))) (u16 upper)
             (set_linp (take (length (entries 0 kept)) (pd_linp p)) p))) = Done p' /\
    page_ok p' /\ index_ok p' /\ same_frame p p' /\ page_view p' = keep 1 itemnos (page_view p) /\
    pd_upper p' = pd_special p - storage (pd_linp p').
Proof.
  intros kept H Hix Hmax. pose proof (page_bounds p H) as Hb. pose proof (ok_aligned p H) as [_ Hal].
  assert (Hsub : kept `sublist_of` pd_linp p) by apply keep_sublist.
  assert (Hkok : linp_ok (pd_upper p) (pd_special p) kept) by (eapply linp_ok_sublist; [done|apply H]).
  assert (Hlens : Forall (fun len => 0 < len /\ aligned len) (lp_len <$> kept)).
  { destruct Hix as [_ Hf]. rewrite Forall_fmap in *. by eapply Forall_sublist. }
  assert (Hne : Forall (fun lp => lp_len lp <> 0) kept).
  { rewrite Forall_fmap in Hlens. eapply Forall_impl; [exact Hlens|]. intros lp [Hlp _]. lia. }
  pose proof (entries_all 0 kept Hne) as Hent. pose proof (sublist_length _ _ Hsub) as Hlen.
  pose proof (storage_bounds (pd_upper p) (pd_special p) kept ltac:(lia) Hkok) as Hst.
  destruct (sort_and_move_spec true MaxIndexTuplesPerPage p kept) as (k & d & Hrun & Hd & Hk & Hok' & Hview & Hlen');
    [done|done|done|unfold zlen in *; lia| |].
  { intros i lp Hi [?|Hz]; [done|]. eapply Forall_lookup_1 in Hne; [|exact Hi]. done. }
  rewrite Hrun. runs. cbn [pd_linp set_data set_linp]. rewrite Hent. eexists. split; [done|].
  set (k' := take (length kept) k) in *. assert (Hk' : length k' = length kept) by (unfold k'; rewrite length_take; lia).
  assert (Hhdr : GetPageHeaderSize p = SizeOfPageHeaderData) by (unfold GetPageHeaderSize; by rewrite (proj1 Hix)).
  rewrite !uN_small by (unfold in_u, zlen, sizeof_ItemIdData in *; lia). unfold SizeOfPageHeaderData in *.
  split_and!.
  - constructor; cbn; [| | | |by rewrite Hd, (ok_data p H)|done].
    + unfold linp_end, zlen. cbn. change (GetPageHeaderSize (set_bounds _ _ _)) with (GetPageHeaderSize p). lia.
    + unfold zlen, sizeof_ItemIdData in *. lia.
    + lia.
    + split; [|done]. apply aligned_sub; [done|]. apply storage_aligned.
  - split; [apply Hix|]. cbn. by rewrite Hlen'.
  - by split.
  - unfold page_view. cbn. rewrite Hview. apply fmap_keep.
  - cbn. f_equal. symmetry. by apply storage_lens.
Qed.

(** C32 [PageIndexMultiDelete] is the deletion of the items one by one: it removes
    exactly the given item numbers, and leaves the page at least as compact. *)
Theorem PageIndexMultiDelete_correct p itemnos :
  page_ok p -> index_ok p -> zlen (pd_linp p) <= MaxIndexTuplesPerPage ->
  ascending 1 itemnos (zlen (pd_linp p) + 1) ->
  exists p' q,
    PageIndexMultiDelete p itemnos = Done p' /\ delete_each p itemnos = Done q /\
    page_ok p' /\ index_ok p' /\ same_frame p p' /\
    page_view p' = keep 1 itemnos (page_view p) /\ page_view q = page_view p' /\
    (PAGE_INDEX_CAN_TUPLE_DELETE < zlen itemnos -> pd_upper p' = pd_special p' - storage (pd_linp p')).
Proof.
  intros H Hix Hmax Ha. pose proof (header_size p).
  destruct (delete_each_spec p 1 itemnos H Hix ltac:(lia) Ha) as (q & Hq & Hqok & Hqix & Hqf & Hqview).
  unfold PageIndexMultiDelete. destruct (Z.leb_spec (zlen itemnos) PAGE_INDEX_CAN_TUPLE_DELETE) as [|Hmany].
  { exists q, q. split_and!; try done. lia. }
  rewrite header_not_corrupted, special_aligned by (done || lia). cbn [negb orb].
  destruct (items_to_keep_spec p (pd_linp p) 1 0 itemnos) as (its & rest & Hrun & Hrest & Hits).
  { apply Forall_lookup_2. intros i lp Hi. destruct (index_lp p i lp H Hix Hi) as (? & ? & ? & ? & _). done. }
  rewrite Z.add_comm in Ha. rewrite (proj2 Hrest Ha) in *. rewrite Hrun, (Hits eq_refl). runs. rewrite (proj1 Hix).
  destruct (multi_pack p itemnos H Hix Hmax) as (p' & Hp' & Hok & Hix' & [Hsp ?] & Hview & Hup).
  exists p', q. split_and!; try done; [congruence|]. intros _. rewrite Hsp. exact Hup.
Qed.

(** Item numbers out of order or out of range are noticed before the page is
    touched. *)
Lemma PageIndexMultiDelete_invalid p itemnos :
  page_ok p -> index_ok p -> PAGE_INDEX_CAN_TUPLE_DELETE < zlen itemnos ->
  ~ ascending 1 itemnos (zlen (pd_linp p) + 1) ->
  PageIndexMultiDelete p itemnos = Report ERRCODE_INVALID_ROW_COUNT_IN_RESULT_OFFSET_CLAUSE.
Proof.
  intros H Hix Hmany Ha. pose proof (header_size p). unfold PageIndexMultiDelete.
  rewrite (proj2 (Z.leb_gt _ _)) by lia.
  rewrite header_not_corrupted, special_aligned by (done || lia). cbn [negb orb].
  destruct (items_to_keep_spec p (pd_linp p) 1 0 itemnos) as (its & rest & Hrun & Hrest & Hits).
  { apply Forall_lookup_2. intros i lp Hi. destruct (index_lp p i lp H Hix Hi) as (? & ? & ? & ? & _). done. }
  rewrite Hrun. runs. destruct rest; [|done]. exfalso. apply Ha. rewrite Z.add_comm. by apply Hrest.
Qed.
End Compact.

(** ** Initialisation and header check *)

Section Init.
Context {bs : BlockSize}.
Implicit Types p : PageHeaderData.

(** The size and version field. *)
Definition known_version (v : Z) : Prop :=
  v = PG_COMM_PAGE_LAYOUT_VERSION \/ v = PG_HEAP_PAGE_LAYOUT_VERSION \/ v = PG_SEGMENT_PAGE_LAYOUT_VERSION.

Lemma size_and_version v :
  known_version v -> Z.land (Z.lor BLCKSZ v) 0xFF00 = BLCKSZ /\ Z.land (Z.lor BLCKSZ v) 0x00FF = v.
Proof.
  unfold known_version, PG_COMM_PAGE_LAYOUT_VERSION, PG_HEAP_PAGE_LAYOUT_VERSION, PG_SEGMENT_PAGE_LAYOUT_VERSION.
  intros [-> | [-> | ->]]; pose proof BLCKSZ_valid as Hb; repeat destruct Hb as [Hb|Hb]; rewrite Hb; done.
Qed.

(** The header check passes on every valid page of this build. *)
Lemma valid_header p :
  page_ok p -> PageGetPageSize p = BLCKSZ -> known_version (PageGetPageLayoutVersion p) ->
  Z.land (pd_flags p) (Z.lnot PD_VALID_FLAG_BITS) = 0 -> PageHeaderIsValid p = true.
Proof.
  intros H Hsize Hver Hflags. pose proof (page_bounds p H). unfold PageHeaderIsValid.
  rewrite Hsize, Z.eqb_refl, Hflags, Z.eqb_refl, special_aligned by done. rewrite !(proj2 (Z.leb_le _ _)) by lia.
  assert (((PageGetPageLayoutVersion p =? PG_COMM_PAGE_LAYOUT_VERSION)
         || (PageGetPageLayoutVersion p =? PG_HEAP_PAGE_LAYOUT_VERSION)
         || (PageGetPageLayoutVersion p =? PG_SEGMENT_PAGE_LAYOUT_VERSION)) = true) as ->; [|done].
  unfold known_version in Hver. rewrite !orb_true_iff, !Z.eqb_eq. tauto.
Qed.

(** [PageInit]: an empty valid page with a special space of the asked size
    (rounded up), which passes the header check. *)
Theorem PageInit_correct (specialSize : Z) (isHeap : bool) :
  0 <= specialSize ->
  (if isHeap then SizeOfHeapPageHeaderData else SizeOfPageHeaderData) + MAXALIGN specialSize <= BLCKSZ ->
  let p := PageInit specialSize isHeap in
  page_ok p /\ page_view p = [] /\ PageHeaderIsValid p = true /\ PageIs8BXidHeapVersion p = isHeap /\
  PageGetSpecialSize p = MAXALIGN specialSize /\ PageGetMaxOffsetNumber p = 0 /\
  PageGetExactFreeSpace p = BLCKSZ - MAXALIGN specialSize - GetPageHeaderSize p.
Proof.
  intros Hs Hfit p. pose proof (MAXALIGN_bounds specialSize) as [? Hal]. pose proof BLCKSZ_bounds as [? HalB].
  assert (Hv : known_version (if isHeap then PG_HEAP_PAGE_LAYOUT_VERSION else PG_COMM_PAGE_LAYOUT_VERSION))
    by (unfold known_version; destruct isHeap; auto).
  destruct (size_and_version _ Hv) as [Hsize Hver].
  assert (Hheap : PageIs8BXidHeapVersion p = isHeap).
  { unfold PageIs8BXidHeapVersion, PageGetPageLayoutVersion. cbn [p PageInit pd_pagesize_version]. rewrite Hver. by destruct isHeap. }
  assert (Hhdr : GetPageHeaderSize p = if isHeap then SizeOfHeapPageHeaderData else SizeOfPageHeaderData)
    by (unfold GetPageHeaderSize; by rewrite Hheap).
  assert (Hms : 0 <= MAXALIGN specialSize <= BLCKSZ - 24).
  { unfold SizeOfHeapPageHeaderData, SizeOfPageHeaderData in *. destruct isHeap; lia. }
  assert (Hu : u16 (BLCKSZ - MAXALIGN specialSize) = BLCKSZ - MAXALIGN specialSize).
  { apply uN_small. unfold in_u. lia. }
  assert (Hok : page_ok p).
  { constructor.
    - unfold linp_end. rewrite Hhdr. cbn. by destruct isHeap.
    - cbn. rewrite Hu. destruct isHeap; lia.
    - cbn. rewrite Hu. lia.
    - cbn. rewrite Hu. split; by apply aligned_sub.
    - cbn. unfold zeroes, zlen. rewrite length_replicate. lia.
    - cbn. by split. }
  split_and!; try done.
  - apply valid_header; [done|exact Hsize| |done]. unfold PageGetPageLayoutVersion. cbn [p PageInit pd_pagesize_version]. by rewrite Hver.
  - unfold PageGetSpecialSize, PageGetPageSize. cbn [p PageInit pd_pagesize_version pd_special].
    rewrite Hsize, Hu. rewrite uN_small; [lia|unfold in_u; lia].
  - by rewrite max_offset.
  - rewrite exact_free_space, Hhdr by done. cbn. rewrite Hu. lia.
Qed.

(** ** Dictionaries *)

Lemma read_two p off :
  0 <= off -> off + 2 <= zlen (pd_data p) ->
  exists lo hi, page_read p off 2 = Done [lo; hi].
Proof.
  intros. rewrite page_read_in by lia. pose proof (zlen_slice (pd_data p) off 2 ltac:(lia) ltac:(lia) ltac:(lia)) as Hl.
  destruct (slice (pd_data p) off 2) as [|lo [|hi [|]]]; unfold zlen in Hl; cbn in Hl; try lia. eauto.
Qed.

(** Tuples of a heap page that are long enough to have a header. *)
Definition heap_view (w : lp_view) : Prop :=
  match w with VItem flags bytes => flags = LP_NORMAL /\ 22 <= zlen bytes | _ => True end.

Lemma heap_lp p lp :
  page_ok p -> lp_ok (pd_upper p) (pd_special p) lp -> heap_view (view (pd_data p) lp) -> ItemIdHasStorage lp = true ->
  lp_flags lp = LP_NORMAL /\ 22 <= lp_len lp.
Proof.
  intros H Hok Hv Hst. unfold view in Hv. rewrite Hst in Hv. cbn in Hv. apply has_storage in Hst.
  destruct (lp_in_data p lp H Hok Hst) as (? & ? & ?). pose proof (page_bounds p H).
  rewrite zlen_slice in Hv by lia. done.
Qed.

Lemma any_compressed_done p l :
  page_ok p -> Forall (lp_ok (pd_upper p) (pd_special p)) l -> Forall heap_view (view (pd_data p) <$> l) ->
  exists c, any_compressed p l = Done c.
Proof.
  intros H Hok. rewrite Forall_fmap. induction Hok as [|lp l Hlp Hok IH]; cbn [any_compressed]; intros Hv; [by eexists|].
  apply Forall_cons in Hv as [Hv Hvs]. destruct (IH Hvs) as [c Hc]. destruct (ItemIdIsUsed lp); [|by exists c].
  destruct (ItemIdHasStorage lp) eqn:Hst; cbn [andb]; [|by exists c].
  destruct (heap_lp p lp H Hlp Hv Hst) as [_ ?]. apply has_storage in Hst.
  destruct (lp_in_data p lp H Hlp Hst) as (? & ? & ?). pose proof (page_bounds p H).
  unfold tuple_is_compressed. destruct (read_two p (lp_off lp + 20)) as (lo & hi & ->); [lia..|]. runs. cbn [zlookup].
  change (zlookup [lo; hi] 0) with (Some lo). change (zlookup [lo; hi] 1) with (Some hi). runs.
  destruct (negb _); eauto.
Qed.

(** Everything above [upper] moves up by the size of the dictionary. *)
Section Moved.
Variable p : PageHeaderData.
Hypotheses (Hp : page_ok p) (Hview : Forall heap_view (page_view p)).
Let dict := BLCKSZ - pd_special p.
Let bytes := slice (pd_data p) (pd_upper p) (pd_special p - pd_upper p).
Let d := splice (pd_data p) (pd_upper p + dict) bytes.
Let up (lp : ItemIdData) := if negb (ItemIdIsUsed lp) || negb (ItemIdHasStorage lp) then lp
                            else ItemIdSetNormal (lp_off lp + dict) (lp_len lp).

Lemma up_spec lp :
  lp ∈ pd_linp p ->
  (ItemIdHasStorage lp = false /\ up lp = lp) \/
  (ItemIdHasStorage lp = true /\ up lp = MkItemId (lp_off lp + dict) LP_NORMAL (lp_len lp) /\ lp_flags lp = LP_NORMAL /\
   pd_upper p <= lp_off lp /\ 0 < lp_len lp <= MAXALIGN (lp_len lp) /\
   lp_off lp + MAXALIGN (lp_len lp) <= pd_special p /\ aligned (lp_off lp) /\ in_u 15 (lp_off lp + dict)).
Proof using Hp Hview.
  intros Hin. destruct (ok_linp p Hp) as [Hok _]. rewrite Forall_forall in Hok. specialize (Hok lp Hin).
  unfold page_view in Hview. rewrite Forall_fmap, Forall_forall in Hview. specialize (Hview lp Hin).
  unfold up. destruct (ItemIdHasStorage lp) eqn:Hst; [right|left; split; [done|]]; cycle 1.
  { by rewrite orb_true_r. }
  destruct (heap_lp p lp Hp Hok Hview Hst) as [Hf _]. destruct Hok as (_ & Hlen & _ & Hs).
  pose proof (proj1 (has_storage lp) Hst) as Hne. destruct (Hs Hne) as (? & ? & ?).
  pose proof (MAXALIGN_bounds (lp_len lp)). pose proof (page_bounds p Hp). unfold in_u, dict in *.
  assert (ItemIdIsUsed lp = true) as -> by (unfold ItemIdIsUsed; by rewrite Hf). cbn [negb orb].
  unfold ItemIdSetNormal. rewrite !uN_small by (unfold in_u; lia). split_and!; done || lia.
Qed.

Lemma moved_up_ok :
  page_ok (PageClearCompressed (set_special BLCKSZ (set_bounds (pd_lower p) (pd_upper p + dict)
             (set_linp (up <$> pd_linp p) (set_data d p))))).
Proof using Hp Hview.
  pose proof (page_bounds p Hp). pose proof (ok_data p Hp) as Hd. pose proof (ok_aligned p Hp) as [? ?].
  pose proof BLCKSZ_bounds as [? ?]. destruct (ok_linp p Hp) as [Hok Hap].
  assert (Hdict : aligned dict) by (by apply aligned_sub).
  assert (Hb : zlen bytes = pd_special p - pd_upper p) by (apply zlen_slice; lia).
  constructor; cbn; [| | | | |split].
  - rewrite (ok_lower p Hp). unfold linp_end, zlen. cbn. by rewrite length_fmap.
  - unfold dict. lia.
  - unfold dict. lia.
  - split; [by apply aligned_add|done].
  - unfold d. rewrite zlen_splice; [done|unfold dict; lia|]. rewrite Hb. unfold dict. lia.
  - apply Forall_fmap, Forall_forall. intros lp Hin. cbn. rewrite Forall_forall in Hok. specialize (Hok lp Hin).
    destruct (up_spec lp Hin) as [[Hst ->]|(Hst & -> & _ & ? & ? & ? & ? & ?)].
    + destruct Hok as (? & ? & ? & _). split_and!; try done. intros Hne%has_storage. congruence.
    + destruct Hok as (_ & ? & _ & _). split_and!; cbn; try done. intros _. unfold dict in *.
      split_and!; [lia|lia|by apply aligned_add].
  - apply pairwise_fmap; [done|]. intros a b Ha Hb' Hab Hla Hlb.
    destruct (up_spec a Ha) as [[Hsa Hea]|(Hsa & Hea & _)]; rewrite Hea in *; [by apply has_storage in Hla; congruence|].
    destruct (up_spec b Hb') as [[Hsb Heb]|(Hsb & Heb & _)]; rewrite Heb in *; [by apply has_storage in Hlb; congruence|].
    cbn in *. specialize (Hab Hla Hlb). lia.
Qed.

Lemma moved_up_view : view d <$> (up <$> pd_linp p) = page_view p.
Proof using Hp Hview.
  pose proof (page_bounds p Hp). pose proof (ok_data p Hp) as Hd.
  assert (Hb : zlen bytes = pd_special p - pd_upper p) by (apply zlen_slice; lia).
  rewrite <- list_fmap_compose. unfold page_view. apply list_fmap_ext. intros i lp Hi. cbn.
  apply list_elem_of_lookup_2 in Hi. destruct (up_spec lp Hi) as [[Hst ->]|(Hst & -> & Hf & ? & ? & ? & ? & ?)].
  - unfold view. by rewrite Hst.
  - unfold view. rewrite Hst, Hf. unfold ItemIdHasStorage. cbn [lp_len lp_off lp_flags].
    rewrite (proj2 (Z.eqb_neq _ _)) by lia. cbn [negb]. f_equal. unfold d.
    rewrite slice_splice_inside by (rewrite ?Hb; unfold dict; lia). unfold bytes. rewrite slice_slice by (unfold dict; lia).
    f_equal. lia.
Qed.
End Moved.

Lemma compressed_cleared p : PageIsCompressed (PageClearCompressed p) = false.
Proof.
  unfold PageIsCompressed, has_flag, PageClearCompressed. cbn [set_pd_flags pd_flags].
  rewrite <- Z.land_assoc. change (Z.land (Z.lnot PD_COMPRESSED_PAGE) PD_COMPRESSED_PAGE) with 0. by rewrite Z.land_0_r.
Qed.

Lemma empty_linp p : page_ok p -> PageIsEmpty p = true -> pd_linp p = [].
Proof.
  intros H%page_bounds He%Z.leb_le. apply length_zero_iff_nil. unfold zlen in H. lia.
Qed.

(** [PageFreeDict] on a valid heap page: tuples are never lost, a page whose
    dictionary is in use does not change, and a page with tuples gets the
    space of the dictionary.  An empty page forgets the dictionary but its
    special space stays where it was: the bytes stay unusable. *)
Theorem PageFreeDict_correct p :
  page_ok p -> PageGetPageSize p = BLCKSZ -> Forall heap_view (page_view p) ->
  exists freed p',
    PageFreeDict p = Done (freed, p') /\ page_ok p' /\ page_view p' = page_view p /\
    (if freed : bool then
       PageIsCompressed p' = false /\
       (if PageIsEmpty p then PageGetSpecialSize p' = PageGetSpecialSize p
        else PageGetSpecialSize p' = 0 /\
             PageGetExactFreeSpace p' = PageGetExactFreeSpace p + PageGetSpecialSize p)
     else p' = p).
Proof.
  intros H Hsize Hview. pose proof (page_bounds p H) as Hb. unfold PageFreeDict.
  destruct (PageIsEmpty p) eqn:Hempty.
  - exists true. eexists. split; [done|]. pose proof (empty_linp p H Hempty) as Hnil. split_and!; try done.
    + apply page_ok_flags. destruct H as [? ? ? [? ?] ? ?]. constructor; cbn; [done|lia|lia|by split|done|rewrite Hnil; by split].
    + by apply compressed_cleared.
  - destruct (PageIsAllVisible p); [|by exists false, p]. unfold PageCheckAndFreeDict.
    rewrite header_not_corrupted by (done || lia).
    destruct (any_compressed_done p (pd_linp p) H) as [c Hc]; [apply H|done|]. rewrite Hc. runs.
    destruct c; [by exists false, p|].
    assert (Hdict : PageGetSpecialSize p = BLCKSZ - pd_special p).
    { unfold PageGetSpecialSize. rewrite Hsize. apply uN_small. unfold in_u. lia. }
    rewrite Hsize, Hdict. replace (BLCKSZ - (BLCKSZ - pd_special p) - pd_upper p) with (pd_special p - pd_upper p) by lia.
    set (bytes := slice (pd_data p) (pd_upper p) (pd_special p - pd_upper p)).
    pose proof (ok_data p H) as Hd.
    assert (Hbl : zlen bytes = pd_special p - pd_upper p) by (apply zlen_slice; lia).
    assert (Hmove : (if 0 <? pd_special p - pd_upper p
       then bytes ← page_read p (pd_upper p) (pd_special p - pd_upper p);
            page_write p (pd_upper p + (BLCKSZ - pd_special p)) bytes
       else mret p) = Done (set_data (splice (pd_data p) (pd_upper p + (BLCKSZ - pd_special p)) bytes) p)).
    { destruct (Z.ltb_spec 0 (pd_special p - pd_upper p)).
      - rewrite page_read_in by lia. runs. fold bytes. pose proof (ok_lower p H). rewrite page_write_in; [done|lia|lia].
      - assert (bytes = []) as -> by (apply length_zero_iff_nil; unfold zlen in Hbl; lia). rewrite splice_nil. by destruct p. }
    rewrite Hmove. runs. pose proof (moved_up_ok p H Hview) as Hok. pose proof (moved_up_view p H Hview) as Hv.
    assert (Hw : u16 BLCKSZ = BLCKSZ /\ u16 (pd_upper p + (BLCKSZ - pd_special p)) = pd_upper p + (BLCKSZ - pd_special p))
      by (split; apply uN_small; unfold in_u; lia).
    destruct Hw as [-> ->]. exists true. eexists. split; [done|]. split; [exact Hok|]. split; [exact Hv|].
    split; [apply compressed_cleared|]. split.
    + unfold PageGetSpecialSize, PageGetPageSize in *. cbn [PageClearCompressed set_pd_flags set_special set_bounds set_linp
        set_data pd_pagesize_version pd_special]. rewrite Hsize, Z.sub_diag. done.
    + rewrite (exact_free_space p H). etransitivity; [exact (exact_free_space _ Hok)|]. cbn. lia.
Qed.

End Init.

(** ** Runs on small pages *)

#[global] Instance pairwise_dec {A} (R : A -> A -> Prop) `{!forall a b, Decision (R a b)} l : Decision (pairwise R l).
Proof. induction l as [|a l IH]; cbn [pairwise]; [left; exact I|apply and_dec; [apply Forall_dec|]; done]. Defined.

#[global] Instance lp_ok_dec upper special lp : Decision (lp_ok upper special lp).
Proof. unfold lp_ok, in_u, aligned. apply _. Defined.

#[global] Instance apart_dec a b : Decision (apart a b).
Proof. unfold apart. apply _. Defined.

(** The invariant evaluates on a concrete page. *)
Definition page_okb {bs : BlockSize} (p : PageHeaderData) : bool :=
  bool_decide (pd_lower p = linp_end p) && bool_decide (pd_lower p <= pd_upper p) &&
  bool_decide (pd_upper p <= pd_special p <= BLCKSZ) && bool_decide (pd_upper p mod 8 = 0 /\ pd_special p mod 8 = 0) &&
  bool_decide (zlen (pd_data p) = BLCKSZ) &&
  bool_decide (Forall (lp_ok (pd_upper p) (pd_special p)) (pd_linp p) /\ pairwise apart (pd_linp p)).

Lemma page_okb_ok {bs : BlockSize} p : page_okb p = true -> page_ok p.
Proof. unfold page_okb. rewrite !andb_true_iff, !bool_decide_eq_true. intros [[[[[? ?] ?] ?] ?] ?]. by constructor. Qed.

Module Runs.
#[local] Existing Instance block_256.

Definition result (r : run (Z * PageHeaderData)) (p : PageHeaderData) : PageHeaderData :=
  match r with Done (_, p) => p | _ => p end.
Definition add (n : nat) (b : Z) (heap : bool) (p : PageHeaderData) : PageHeaderData :=
  result (PageAddItem p (replicate n b) 0 false heap) p.

(** A heap page of three tuples, the second one dead and gone. *)
Definition heap3 : PageHeaderData :=
  let p := add 24 3 true (add 30 2 true (add 25 1 true (PageInit 0 true))) in
  set_linp (<[1%nat := ItemIdSetUnused]> (pd_linp p)) p.
(** An index page of four items. *)
Definition index4 : PageHeaderData := add 16 4 false (add 8 3 false (add 24 2 false (add 16 1 false (PageInit 16 false)))).
(** A page with a dictionary of 32 bytes. *)
Definition dict1 : PageHeaderData :=
  set_pd_flags (Z.lor PD_ALL_VISIBLE PD_COMPRESSED_PAGE) (add 30 0 true (PageReinitWithDict (PageInit 0 true) 32)).

Example heap3_view : page_view heap3 = [VItem 1 (replicate 25 1); VUnused; VItem 1 (replicate 24 3)].
Proof. reflexivity. Qed.
Example heap3_repair :
  match PageRepairFragmentation heap3 with
  | Done p => page_okb p = true /\ pd_upper p = 200 /\ page_view p = page_view heap3
  | _ => False
  end.
Proof. vm_compute. repeat split. Qed.
Example index4_delete :
  match PageIndexMultiDelete index4 [1; 3; 4] with
  | Done p => page_view p = [VItem 1 (replicate 24 2)] /\ pd_upper p = 216
  | _ => False
  end.
Proof. vm_compute. repeat split. Qed.

Lemma heap3_ok : page_ok heap3 /\ zlen (pd_linp heap3) <= MaxHeapTuplesPerPage.
Proof. split; [apply page_okb_ok; vm_compute; reflexivity|vm_compute; congruence]. Qed.
Lemma index4_ok : page_ok index4 /\ index_ok index4 /\ zlen (pd_linp index4) <= MaxIndexTuplesPerPage.
Proof.
  split; [apply page_okb_ok; vm_compute; reflexivity|]. split; [split; [done|]|vm_compute; congruence].
  change (lp_len <$> pd_linp index4) with [16; 24; 8; 16]. repeat constructor.
Qed.

End Runs.

(** ** The theorems at these pages *)

Import Runs.
#[local] Existing Instance block_256.

Lemma PageInit_correct_witness : page_ok (PageInit 20 true) /\ PageGetExactFreeSpace (PageInit 20 true) = 192.
Proof.
  destruct (PageInit_correct 20 true) as (Hok & _ & _ & _ & _ & _ & Hfree); [lia|vm_compute; congruence|].
  split; [exact Hok|rewrite Hfree; reflexivity].
Defined.

Lemma PageAddItem_correct_witness :
  exists p', PageAddItem heap3 (replicate 40 9) 0 false true = Done (4, p') /\ page_ok p'.
Proof.
  destruct (PageAddItem_correct heap3 (replicate 40 9) 0 false true) as [(n & p' & Hrun & Hok & _) _];
    [apply heap3_ok|vm_compute; congruence|vm_compute; split; congruence|].
  exists p'. split; [|exact Hok]. vm_compute in Hrun |- *. injection Hrun as _ <-. reflexivity.
Defined.

Lemma PageGetHeapFreeSpace_honoured_witness :
  PageGetHeapFreeSpace heap3 = Done 112 /\
  exists n p', PageAddItem heap3 (replicate 40 9) 0 false true = Done (n, p') /\ 1 <= n.
Proof.
  split; [reflexivity|].
  destruct (PageGetHeapFreeSpace_honoured heap3 (replicate 40 9)) as (space & n & p' & Hs & Hrun & Hn);
    [apply heap3_ok..|vm_compute; congruence|].
  exists n, p'. split; [exact Hrun|]. apply Hn. assert (Hs' : PageGetHeapFreeSpace heap3 = Done 112) by reflexivity.
  rewrite Hs in Hs'. injection Hs' as ->. vm_compute. congruence.
Defined.

Lemma PageRepairFragmentation_correct_witness :
  exists p', PageRepairFragmentation heap3 = Done p' /\ page_view p' = page_view heap3 /\ pd_upper p' = 200.
Proof.
  destruct (PageRepairFragmentation_correct heap3) as (p' & Hrun & _ & _ & Hview & _ & Hup & _); [apply heap3_ok..|].
  exists p'. split; [exact Hrun|]. split; [exact Hview|]. rewrite Hup. reflexivity.
Defined.

Lemma PageIndexTupleDelete_correct_witness :
  PageIndexTupleDelete index4 5 = Report ERRCODE_INVALID_ROW_COUNT_IN_RESULT_OFFSET_CLAUSE /\
  exists p', PageIndexTupleDelete index4 2 = Done p' /\ page_view p' = delete 1%nat (page_view index4).
Proof.
  pose proof (PageIndexTupleDelete_correct index4 5 (proj1 index4_ok) (proj1 (proj2 index4_ok))) as H5.
  pose proof (PageIndexTupleDelete_correct index4 2 (proj1 index4_ok) (proj1 (proj2 index4_ok))) as H2.
  assert (Hlen : zlen (page_view index4) = 4) by (vm_compute; reflexivity). rewrite Hlen in H5, H2.
  split; [exact H5|]. destruct H2 as (p' & f & b & Hrun & _ & _ & _ & _ & Hview & _).
  exists p'. split; [exact Hrun|exact Hview].
Defined.

Lemma PageIndexMultiDelete_correct_witness :
  exists p', PageIndexMultiDelete index4 [1; 3; 4] = Done p' /\ page_view p' = [VItem 1 (replicate 24 2)].
Proof.
  destruct (PageIndexMultiDelete_correct index4 [1; 3; 4]) as (p' & q & Hrun & _ & _ & _ & _ & Hview & _);
    [apply index4_ok..|vm_compute; repeat split; congruence|].
  exists p'. split; [exact Hrun|rewrite Hview; reflexivity].
Defined.

Lemma PageIndexMultiDelete_invalid_witness :
  PageIndexMultiDelete index4 [1; 4; 3] = Report ERRCODE_INVALID_ROW_COUNT_IN_RESULT_OFFSET_CLAUSE.
Proof.
  apply PageIndexMultiDelete_invalid; [apply index4_ok..|vm_compute; reflexivity|]. cbn. lia.
Defined.

Lemma PageFreeDict_correct_witness :
  exists p', PageFreeDict dict1 = Done (true, p') /\ page_view p' = page_view dict1.
Proof.
  destruct (PageFreeDict_correct dict1) as (freed & p' & Hrun & _ & Hview & _);
    [apply page_okb_ok; vm_compute; reflexivity|reflexivity|repeat constructor; vm_compute; congruence|].
  exists p'. split; [|exact Hview]. vm_compute in Hrun |- *. injection Hrun as _ <-. reflexivity.
Defined.
