(* ===== verification/Pglz.v ===== *)
(** The compression of large values
    ([src/src/common/backend/utils/adt/pg_lzcompress.cpp],
    [src/src/include/utils/pg_lzcompress.h]).

    A string of bytes is a list of [Z]; a [char *] into the source is its
    index, a pointer to a history entry its index in [hist_entries].  The
    history is the shared, mutable structure of the source: an array of heads
    and an array of doubly linked entries that are recycled in a circle.  The
    output buffer is the list of the bytes written so far, of limited room.
    Whatever touches memory outside its array is [Outside]. *)
From S2P Require Import Prelude.
#[local] Open Scope Z_scope.

Definition INT_MAX : Z := 2147483647.

(** ** Strategies *)

Record PGLZ_Strategy := MkStrategy {
  min_input_size : Z;
  max_input_size : Z;
  min_comp_rate : Z;
  first_success_by : Z;
  match_size_good : Z;
  match_size_drop : Z }.

Definition strategy_default_data : PGLZ_Strategy := MkStrategy 32 INT_MAX 25 1024 128 10.
Definition strategy_always_data : PGLZ_Strategy := MkStrategy 0 INT_MAX 0 INT_MAX 128 6.

Definition PGLZ_HISTORY_LISTS : Z := 8192.
Definition PGLZ_HISTORY_MASK : Z := PGLZ_HISTORY_LISTS - 1.
Definition PGLZ_HISTORY_SIZE : Z := 4096.
Definition PGLZ_MAX_MATCH : Z := 273.

(** The room behind the header in a buffer of [PGLZ_MAX_OUTPUT] bytes. *)
Definition output_room (slen : Z) : Z := slen + 4.

(** ** The history *)

Record PGLZ_HistEntry := MkHist {
  next : option Z;
  prev : option Z;
  hindex : Z;
  pos : Z }.

Definition set_next (n : option Z) (e : PGLZ_HistEntry) : PGLZ_HistEntry := MkHist n (prev e) (hindex e) (pos e).
Definition set_prev (p : option Z) (e : PGLZ_HistEntry) : PGLZ_HistEntry := MkHist (next e) p (hindex e) (pos e).

Record History := MkHistory {
  hist_start : list (option Z);
  hist_entries : list PGLZ_HistEntry;
  hist_next : Z;
  hist_recycle : bool }.

Definition set_start (h : History) (i : Z) (v : option Z) : run History :=
  l ← inside (zupdate (hist_start h) i v);
  mret (MkHistory l (hist_entries h) (hist_next h) (hist_recycle h)).

Definition set_entry (h : History) (i : Z) (e : PGLZ_HistEntry) : run History :=
  l ← inside (zupdate (hist_entries h) i e);
  mret (MkHistory (hist_start h) l (hist_next h) (hist_recycle h)).

(** Changing one field of the entry behind a pointer, if there is one. *)
Definition update_entry (h : History) (i : option Z) (f : PGLZ_HistEntry -> PGLZ_HistEntry) : run History :=
  match i with
  | None => mret h
  | Some i => e ← inside (zlookup (hist_entries h) i); set_entry h i (f e)
  end.

Section Compress.

(** Whether [char] is signed is a matter of the platform. *)
Variable char_signed : bool.

Definition char_value (b : Z) : Z := if char_signed then sN 8 b else b.

Section Source.
(** The source; [dend] is its length. *)
Variable source : list Z.
Let dend : Z := zlen source.

Definition pglz_hist_idx (s : Z) : run Z :=
  b0 ← inside (zlookup source s);
  if dend - s <? 4 then mret (Z.land (char_value b0) PGLZ_HISTORY_MASK)
  else
    b1 ← inside (zlookup source (s + 1));
    b2 ← inside (zlookup source (s + 2));
    b3 ← inside (zlookup source (s + 3));
    mret (Z.land (Z.lxor (Z.lxor (Z.lxor (Z.shiftl b0 9) (Z.shiftl b1 6)) (Z.shiftl b2 3)) b3) PGLZ_HISTORY_MASK).

(** An entry about to be used again leaves the list it is in. *)
Definition delink (h : History) (myhe : PGLZ_HistEntry) : run History :=
  h ← (match prev myhe with
       | None => set_start h (hindex myhe) (next myhe)
       | Some _ => update_entry h (prev myhe) (set_next (next myhe))
       end);
  update_entry h (next myhe) (set_prev (prev myhe)).

Definition pglz_hist_add (h : History) (s : Z) : run History :=
  idx ← pglz_hist_idx s;
  let hn := hist_next h in
  h ← (if hist_recycle h then myhe ← inside (zlookup (hist_entries h) hn); delink h myhe else mret h);
  first ← inside (zlookup (hist_start h) idx);
  h ← set_entry h hn (MkHist first None idx s);
  h ← update_entry h first (set_prev (Some hn));
  h ← set_start h idx (Some hn);
  let hn := hn + 1 in
  mret (if PGLZ_HISTORY_SIZE <=? hn then MkHistory (hist_start h) (hist_entries h) 0 true
        else MkHistory (hist_start h) (hist_entries h) hn (hist_recycle h)).

(** ** Looking for a match *)

(** The comparison of characters; [thislen] are equal already. *)
Fixpoint extend (fuel : nat) (ip hp thislen : Z) : run Z :=
  match fuel with
  | O => Outside
  | S fuel =>
      if ip <? dend then
        a ← inside (zlookup source ip);
        b ← inside (zlookup source hp);
        if (a =? b) && (thislen <? PGLZ_MAX_MATCH) then extend fuel (ip + 1) (hp + 1) (thislen + 1)
        else mret thislen
      else mret thislen
  end.

(** [memcmp(ip, hp, len) == 0]; both ranges are inside the source. *)
Definition same_bytes (ip hp len : Z) : run bool :=
  if (0 <=? ip) && (0 <=? hp) && (ip + len <=? dend) && (hp + len <=? dend)
  then mret (bool_decide (take (Z.to_nat len) (drop (Z.to_nat ip) source) = take (Z.to_nat len) (drop (Z.to_nat hp) source)))
  else Outside.

Definition match_length (ip hp len : Z) : run Z :=
  if 16 <=? len then
    same ← same_bytes ip hp len;
    if same : bool then extend (Z.to_nat (dend - ip) + 1) (ip + len) (hp + len) len else mret 0
  else extend (Z.to_nat (dend - ip) + 1) ip hp 0.

Fixpoint find_loop (fuel : nat) (h : History) (input len off good_match good_drop : Z) (hent : option Z) : run (Z * Z) :=
  match hent with
  | None => mret (len, off)
  | Some i =>
      match fuel with
      | O => Outside
      | S fuel =>
          he ← inside (zlookup (hist_entries h) i);
          let thisoff := input - pos he in
          if 0x0fff <=? thisoff then mret (len, off)
          else
            thislen ← match_length input (pos he) len;
            let '(len, off) := if len <? thislen then (thislen, thisoff) else (len, off) in
            match next he with
            | None => mret (len, off)
            | Some _ =>
                if good_match <=? len then mret (len, off)
                else find_loop fuel h input len off (good_match - Z.quot (good_match * good_drop) 100) good_drop (next he)
            end
      end
  end.

(** A list has at most as many entries as there are. *)
Definition pglz_find_match (h : History) (input good_match good_drop : Z) : run (option (Z * Z)) :=
  idx ← pglz_hist_idx input;
  hent ← inside (zlookup (hist_start h) idx);
  r ← find_loop (Z.to_nat PGLZ_HISTORY_SIZE) h input 0 0 good_match good_drop hent;
  let '(len, off) := (r : Z * Z) in
  mret (if 2 <? len then Some (len, off) else None).

(** ** Output *)

(** [ctrlp] is [None] while it points to the dummy. *)
Record Output := MkOutput {
  out : list Z;
  ctrlp : option Z;
  ctrlb : Z;
  ctrl : Z }.

Definition put_byte (b : Z) (o : Output) : run Output :=
  if zlen (out o) <? output_room dend then mret (MkOutput (out o ++ [b]) (ctrlp o) (ctrlb o) (ctrl o)) else Outside.

(** [*ctrlp = ctrlb]. *)
Definition store_ctrl (o : Output) : run Output :=
  match ctrlp o with
  | None => mret o
  | Some i => l ← inside (zupdate (out o) i (ctrlb o)); mret (MkOutput l (ctrlp o) (ctrlb o) (ctrl o))
  end.

Definition pglz_out_ctrl (o : Output) : run Output :=
  if ctrl o =? 0 then
    o ← store_ctrl o;
    let i := zlen (out o) in
    o ← put_byte 0 o;
    mret (MkOutput (out o) (Some i) 0 1)
  else mret o.

Definition shift_ctrl (o : Output) : Output := MkOutput (out o) (ctrlp o) (ctrlb o) (u8 (Z.shiftl (ctrl o) 1)).

Definition pglz_out_literal (byte : Z) (o : Output) : run Output :=
  o ← pglz_out_ctrl o;
  o ← put_byte (u8 byte) o;
  mret (shift_ctrl o).

Definition pglz_out_tag (len off : Z) (o : Output) : run Output :=
  o ← pglz_out_ctrl o;
  let o := shift_ctrl (MkOutput (out o) (ctrlp o) (Z.lor (ctrlb o) (ctrl o)) (ctrl o)) in
  if 17 <? len then
    o ← put_byte (u8 (Z.lor (Z.shiftr (Z.land off 0xf00) 4) 0x0f)) o;
    o ← put_byte (u8 (Z.land off 0xff)) o;
    put_byte (u8 (len - 18)) o
  else
    o ← put_byte (u8 (Z.lor (Z.shiftr (Z.land off 0xf00) 4) (len - 3))) o;
    put_byte (u8 (Z.land off 0xff)) o.

(** ** pglz_compress *)

Fixpoint add_matched (n : nat) (h : History) (dp : Z) : run (History * Z) :=
  match n with
  | O => mret (h, dp)
  | S n => h ← pglz_hist_add h dp; add_matched n h (dp + 1)
  end.

(** The main loop; [None] is [return false]. *)
Fixpoint compress_loop (fuel : nat) (good_match good_drop first_success_by result_max : Z)
  (h : History) (o : Output) (found_match : bool) (dp : Z) : run (option Output) :=
  if dp <? dend then
    match fuel with
    | O => Outside
    | S fuel =>
        if result_max <=? zlen (out o) then mret None
        else if negb found_match && (first_success_by <=? zlen (out o)) then mret None
        else
          m ← pglz_find_match h dp good_match good_drop;
          match m with
          | Some (match_len, match_off) =>
              o ← pglz_out_tag match_len match_off o;
              r ← add_matched (Z.to_nat match_len) h dp;
              let '(h, dp) := (r : History * Z) in
              compress_loop fuel good_match good_drop first_success_by result_max h o true dp
          | None =>
              b ← inside (zlookup source dp);
              o ← pglz_out_literal b o;
              h ← pglz_hist_add h dp;
              compress_loop fuel good_match good_drop first_success_by result_max h o found_match (dp + 1)
          end
    end
  else mret (Some o).

Definition clamp (lo hi x : Z) : Z := if hi <? x then hi else if x <? lo then lo else x.

Definition max_result (slen need_rate : Z) : Z :=
  if Z.quot INT_MAX 100 <? slen then s32 (Z.quot slen 100 * (100 - need_rate))
  else Z.quot (s32 (slen * (100 - need_rate))) 100.

(** [entries]: what earlier calls left in the array of entries.  The result is
    the compressed data behind the header, whose [rawsize] is the length of
    the source; [None] is [false]. *)
Definition pglz_compress (entries : list PGLZ_HistEntry) (strategy : option PGLZ_Strategy) : run (option (list Z)) :=
  let strategy := match strategy with Some s => s | None => strategy_default_data end in
  if (match_size_good strategy <=? 0) || (dend <? min_input_size strategy) || (max_input_size strategy <? dend)
  then mret None
  else
    let good_match := clamp 17 PGLZ_MAX_MATCH (match_size_good strategy) in
    let good_drop := clamp 0 100 (match_size_drop strategy) in
    let need_rate := clamp 0 99 (min_comp_rate strategy) in
    let result_max := max_result dend need_rate in
    let h := MkHistory (replicate (Z.to_nat PGLZ_HISTORY_LISTS) None) entries 0 false in
    r ← compress_loop (length source) good_match good_drop (first_success_by strategy) result_max h
          (MkOutput [] None 0 0) false 0;
    match r with
    | None => mret None
    | Some o =>
        o ← store_ctrl o;
        mret (if result_max <=? zlen (out o) then None else Some (out o))
    end.
End Source.
End Compress.

(** ** pglz_decompress *)

Section Decompress.
(** The data behind the header and the header's [rawsize]. *)
Variables (payload : list Z) (rawsize : Z).
Let srcend : Z := zlen payload.

(** The copy of [len] bytes of the output, one by one. *)
Fixpoint copy_bytes (len : nat) (off : Z) (dest : list Z) : run (list Z) :=
  match len with
  | O => mret dest
  | S len =>
      b ← inside (zlookup dest (zlen dest - off));
      copy_bytes len off (dest ++ [b])
  end.

(** The items of one control byte.  [dp] is the position in the output, which
    is past the end when an item does not fit. *)
Fixpoint items_loop (n : nat) (ctrl sp dp : Z) (dest : list Z) : run (Z * Z * list Z) :=
  match n with
  | O => mret (sp, dp, dest)
  | S n =>
      if sp <? srcend then
        if negb (Z.land ctrl 1 =? 0) then
          b0 ← inside (zlookup payload sp);
          b1 ← inside (zlookup payload (sp + 1));
          let len := Z.land b0 0x0f + 3 in
          let off := Z.lor (Z.shiftl (Z.land b0 0xf0) 4) b1 in
          let sp := sp + 2 in
          r ← (if len =? 18 then b2 ← inside (zlookup payload sp); mret (len + b2, sp + 1) else mret (len, sp));
          let '(len, sp) := (r : Z * Z) in
          if rawsize <? dp + len then mret (sp, dp + len, dest)
          else
            dest ← copy_bytes (Z.to_nat len) off dest;
            items_loop n (Z.shiftr ctrl 1) sp (dp + len) dest
        else if rawsize <=? dp then mret (sp, dp, dest)
        else
          b ← inside (zlookup payload sp);
          items_loop n (Z.shiftr ctrl 1) (sp + 1) (dp + 1) (dest ++ [b])
      else mret (sp, dp, dest)
  end.

Fixpoint decompress_loop (fuel : nat) (sp dp : Z) (dest : list Z) : run (Z * Z * list Z) :=
  if (sp <? srcend) && (dp <? rawsize) then
    match fuel with
    | O => Outside
    | S fuel =>
        ctrl ← inside (zlookup payload sp);
        r ← items_loop 8 ctrl (sp + 1) dp dest;
        let '(sp, dp, dest) := (r : Z * Z * list Z) in
        decompress_loop fuel sp dp dest
    end
  else mret (sp, dp, dest).

Definition pglz_decompress : run (list Z) :=
  r ← decompress_loop (length payload) 0 0 [];
  let '(sp, dp, dest) := (r : Z * Z * list Z) in
  if negb (dp =? rawsize) || negb (sp =? srcend) then Report ERRCODE_DATA_CORRUPTED else mret dest.
End Decompress.
