(* ===== verification/PglzSpec.v ===== *)
(** Contracts of the compression of large values (Pglz.v): the history lists
    the positions of the last 4096 bytes by hash, a match found in it is a
    match, the output is the encoding of a list of tokens, and decompression
    gives the source back. *)
From S2P Require Import Prelude Pglz.
#[local] Open Scope Z_scope.

(** ** The neighbours of a position *)

Section Neighbours.
Variable hash : Z -> Z.

(** [o] is the largest (smallest) position of hash [k] in [lo, hi). *)
Definition is_last (lo hi k : Z) (o : option Z) : Prop :=
  match o with
  | Some q => lo <= q < hi /\ hash q = k /\ forall r, q < r < hi -> hash r <> k
  | None => forall r, lo <= r < hi -> hash r <> k
  end.

Definition is_first (lo hi k : Z) (o : option Z) : Prop :=
  match o with
  | Some q => lo <= q < hi /\ hash q = k /\ forall r, lo <= r < q -> hash r <> k
  | None => forall r, lo <= r < hi -> hash r <> k
  end.

Lemma is_last_snoc lo hi k o :
  lo <= hi -> is_last lo hi k o -> is_last lo (hi + 1) k (if decide (hash hi = k) then Some hi else o).
Proof.
  intros Hle Ho. case_decide as Hk; [cbn; split_and!; [lia|lia|done|lia]|].
  destruct o as [q|]; cbn in *.
  - destruct Ho as (? & ? & Hr). split_and!; [lia|lia|done|]. intros r Hrr.
    destruct (decide (r = hi)) as [->|]; [done|apply Hr; lia].
  - intros r Hrr. destruct (decide (r = hi)) as [->|]; [done|apply Ho; lia].
Qed.

Lemma is_last_drop lo hi k o :
  is_last lo hi k o -> is_last (lo + 1) hi k (if decide (o = Some lo) then None else o).
Proof.
  intros Ho. case_decide as He.
  - subst o. cbn in *. intros r Hr. apply Ho. lia.
  - destruct o as [q|]; cbn in *; [|intros r Hr; apply Ho; lia].
    destruct Ho as (? & ? & ?). assert (q <> lo) by congruence. split_and!; [lia|lia|done|done].
Qed.

Lemma is_first_snoc lo hi k o :
  lo <= hi -> is_first lo hi k o ->
  is_first lo (hi + 1) k (match o with Some q => Some q | None => if decide (hash hi = k) then Some hi else None end).
Proof.
  intros Hle Ho. destruct o as [q|]; cbn in *.
  - destruct Ho as (? & ? & ?). split_and!; [lia|lia|done|done].
  - case_decide as Hk; cbn.
    + split_and!; [lia|lia|done|done].
    + intros r Hr. destruct (decide (r = hi)) as [->|]; [done|apply Ho; lia].
Qed.

End Neighbours.

(** ** The history *)

Definition slot (q : Z) : Z := q mod PGLZ_HISTORY_SIZE.

Lemma slot_range q : 0 <= slot q < PGLZ_HISTORY_SIZE.
Proof. unfold slot, PGLZ_HISTORY_SIZE. zdiv_lia. Qed.

Lemma slot_inj q r : - PGLZ_HISTORY_SIZE < q - r < PGLZ_HISTORY_SIZE -> slot q = slot r -> q = r.
Proof. unfold slot, PGLZ_HISTORY_SIZE. zdiv_lia. Qed.

Section History.
Variable hash : Z -> Z.
Hypothesis hash_range : forall q, 0 <= hash q < PGLZ_HISTORY_LISTS.

(** The lists of the history hold the positions in [lo, hi) by hash, the
    latest first: an entry points to the positions of the same hash before
    and after its own. *)
Record holds (lo hi : Z) (h : History) : Prop := {
  holds_window : 0 <= lo <= hi /\ hi - lo <= PGLZ_HISTORY_SIZE;
  holds_start_len : zlen (hist_start h) = PGLZ_HISTORY_LISTS;
  holds_entries_len : zlen (hist_entries h) = PGLZ_HISTORY_SIZE;
  holds_entry : forall q, lo <= q < hi ->
    exists n p, zlookup (hist_entries h) (slot q) = Some (MkHist (slot <$> n) (slot <$> p) (hash q) q) /\
                is_last hash lo q (hash q) n /\ is_first hash (q + 1) hi (hash q) p;
  holds_start : forall k, 0 <= k < PGLZ_HISTORY_LISTS ->
    exists o, zlookup (hist_start h) k = Some (slot <$> o) /\ is_last hash lo hi k o }.

(** Only the counters differ. *)
Lemma holds_counters lo hi h n r :
  holds lo hi h -> holds lo hi (MkHistory (hist_start h) (hist_entries h) n r).
Proof. intros []. by constructor. Qed.

Lemma set_entry_run h q e :
  zlen (hist_entries h) = PGLZ_HISTORY_SIZE ->
  set_entry h (slot q) e = Done (MkHistory (hist_start h) (zset (hist_entries h) (slot q) e) (hist_next h) (hist_recycle h)).
Proof.
  intros Hl. pose proof (slot_range q). unfold set_entry. by rewrite zupdate_in by lia.
Qed.

Lemma set_start_run h k v :
  zlen (hist_start h) = PGLZ_HISTORY_LISTS -> 0 <= k < PGLZ_HISTORY_LISTS ->
  set_start h k v = Done (MkHistory (zset (hist_start h) k v) (hist_entries h) (hist_next h) (hist_recycle h)).
Proof. intros Hl Hk. unfold set_start. by rewrite zupdate_in by lia. Qed.

Lemma lookup_entry_set (l : list PGLZ_HistEntry) q r e :
  zlen l = PGLZ_HISTORY_SIZE -> - PGLZ_HISTORY_SIZE < q - r < PGLZ_HISTORY_SIZE ->
  zlookup (zset l (slot q) e) (slot r) = if decide (q = r) then Some e else zlookup l (slot r).
Proof.
  intros Hl Hd. pose proof (slot_range q). pose proof (slot_range r). rewrite zlookup_zset by lia.
  destruct (decide (q = r)) as [->|Hne]; [by rewrite decide_True|].
  rewrite decide_False; [done|]. intros He. by apply Hne, slot_inj.
Qed.

(** The oldest position leaves. *)
Lemma delink_spec lo hi h :
  holds lo hi h -> lo < hi ->
  exists e h', zlookup (hist_entries h) (slot lo) = Some e /\ delink h e = Done h' /\ holds (lo + 1) hi h' /\
    hist_next h' = hist_next h /\ hist_recycle h' = hist_recycle h.
Proof.
  intros H Hlt. destruct (holds_window _ _ _ H) as [Hw Hsz].
  destruct (holds_entry _ _ _ H lo) as (n & p & He & Hn & Hp); [lia|].
  assert (n = None) as -> by (destruct n as [q|]; [cbn in Hn; lia|done]). clear Hn.
  exists (MkHist None (slot <$> p) (hash lo) lo). unfold delink. cbn [prev next hindex fmap option_fmap option_map].
  destruct p as [r|]; cbn [fmap option_fmap option_map] in *.
  - destruct Hp as (Hr & Hhr & Hno). destruct (holds_entry _ _ _ H r) as (n & p & Her & Hn & Hp); [lia|].
    cbn [update_entry]. rewrite Her. runs. rewrite set_entry_run by apply H. runs.
    eexists. split_and!; [done|done| |done|done]. constructor; cbn.
    + lia.
    + apply H.
    + rewrite zlen_zset. apply H.
    + intros q Hq. rewrite lookup_entry_set by (apply H || lia). case_decide as Hrq.
      * subst q. exists None, p. split_and!; [done| |done]. cbn. intros x Hx. rewrite Hhr. apply Hno. lia.
      * destruct (holds_entry _ _ _ H q) as (n' & p' & Heq & Hn' & Hp'); [lia|]. exists n', p'. split_and!; [done| |done].
        assert (Hne : n' <> Some lo).
        { intros ->. cbn in Hn'. destruct Hn' as (_ & Hhq & Hbetween). destruct (decide (r < q)).
          - apply (Hbetween r); [lia|congruence].
          - apply (Hno q); [lia|congruence]. }
        apply is_last_drop in Hn'. by rewrite decide_False in Hn'.
    + intros k Hk. destruct (holds_start _ _ _ H k Hk) as (o & Ho & Hlast). exists o. split; [done|].
      assert (Hne : o <> Some lo).
      { intros ->. cbn in Hlast. destruct Hlast as (_ & Hhk & Hbetween). apply (Hbetween r); [lia|congruence]. }
      apply is_last_drop in Hlast. by rewrite decide_False in Hlast.
  - rewrite set_start_run by (apply H || apply hash_range). runs. eexists. split_and!; [done|done| |done|done].
    cbn in Hp. constructor; cbn.
    + lia.
    + rewrite zlen_zset. apply H.
    + apply H.
    + intros q Hq. destruct (holds_entry _ _ _ H q) as (n' & p' & Heq & Hn' & Hp'); [lia|].
      exists n', p'. split_and!; [done| |done].
      assert (Hne : n' <> Some lo).
      { intros ->. cbn in Hn'. destruct Hn' as (_ & Hhq & _). apply (Hp q); [lia|congruence]. }
      apply is_last_drop in Hn'. by rewrite decide_False in Hn'.
    + intros k Hk. pose proof (hash_range lo). rewrite zlookup_zset by (rewrite ?(holds_start_len _ _ _ H); lia).
      case_decide as Hhk; [subst k; by exists None|].
      destruct (holds_start _ _ _ H k Hk) as (o & Ho & Hlast). exists o. split; [done|].
      assert (Hne : o <> Some lo) by (intros ->; cbn in Hlast; by destruct Hlast as (_ & ? & _)).
      apply is_last_drop in Hlast. by rewrite decide_False in Hlast.
Qed.

(** A new position enters. *)
Lemma push_spec lo hi h :
  holds lo hi h -> hi - lo < PGLZ_HISTORY_SIZE ->
  exists h',
    (first ← inside (zlookup (hist_start h) (hash hi));
     h ← set_entry h (slot hi) (MkHist first None (hash hi) hi);
     h ← update_entry h first (set_prev (Some (slot hi)));
     set_start h (hash hi) (Some (slot hi))) = Done h' /\
    holds lo (hi + 1) h' /\ hist_next h' = hist_next h /\ hist_recycle h' = hist_recycle h.
Proof.
  intros H Hroom. destruct (holds_window _ _ _ H) as [Hw _]. pose proof (hash_range hi) as Hrange.
  destruct (holds_start _ _ _ H (hash hi) Hrange) as (o & Ho & Hlast). rewrite Ho. runs.
  rewrite set_entry_run by apply H. runs.
  set (e := MkHist (slot <$> o) None (hash hi) hi). set (es := zset (hist_entries h) (slot hi) e).
  assert (Hes : zlen es = PGLZ_HISTORY_SIZE) by (unfold es; rewrite zlen_zset; apply H).
  assert (exists es', update_entry (MkHistory (hist_start h) es (hist_next h) (hist_recycle h)) (slot <$> o) (set_prev (Some (slot hi)))
      = Done (MkHistory (hist_start h) es' (hist_next h) (hist_recycle h)) /\ zlen es' = PGLZ_HISTORY_SIZE /\
      zlookup es' (slot hi) = Some e /\
      forall q, lo <= q < hi -> zlookup es' (slot q) =
        if decide (o = Some q) then set_prev (Some (slot hi)) <$> zlookup (hist_entries h) (slot q)
        else zlookup (hist_entries h) (slot q)) as (es' & Hrun & Hlen & Hnew & Hold).
  { assert (Hq : forall q, lo <= q < hi -> zlookup es (slot q) = zlookup (hist_entries h) (slot q)).
    { intros q Hq. unfold es. rewrite lookup_entry_set by (apply H || lia). by rewrite decide_False by lia. }
    destruct o as [f|]; cbn [fmap option_fmap option_map update_entry].
    - destruct Hlast as (Hf & _). destruct (holds_entry _ _ _ H f Hf) as (n & p & Hef & _). cbn [hist_entries].
      rewrite (Hq f Hf), Hef. runs. rewrite set_entry_run by done. cbn [hist_entries hist_start hist_next hist_recycle]. eexists. split; [done|].
      split; [by rewrite zlen_zset|]. split.
      + rewrite lookup_entry_set by (done || lia). rewrite decide_False by lia. unfold es.
        rewrite lookup_entry_set by (apply H || lia). by rewrite decide_True.
      + intros q Hqr. rewrite lookup_entry_set by (done || lia). case_decide as Hfq.
        * subst q. rewrite decide_True by done. by rewrite Hef.
        * rewrite decide_False by congruence. by apply Hq.
    - eexists. split_and!; [done|done| |].
      + unfold es. rewrite lookup_entry_set by (apply H || lia). by rewrite decide_True.
      + intros q Hqr. by apply Hq. }
  rewrite Hrun. runs. rewrite set_start_run by (apply H || done). eexists. split_and!; [done| |done|done].
  constructor; cbn.
  - lia.
  - rewrite zlen_zset. apply H.
  - done.
  - intros q Hq. destruct (decide (q = hi)) as [->|Hne].
    { exists o, None. split_and!; [done|done|cbn; lia]. }
    destruct (holds_entry _ _ _ H q) as (n & p & Heq & Hn & Hp); [lia|]. rewrite Hold by lia.
    case_decide as Hoq.
    + subst o. destruct Hlast as (_ & Hhq & Hbetween). exists n, (Some hi). rewrite Heq. split_and!; [done|done|].
      assert (p = None) as ->.
      { destruct p as [x|]; [|done]. destruct Hp as (? & Hx & _). exfalso. apply (Hbetween x); [lia|congruence]. }
      apply is_first_snoc in Hp; [|lia]. by rewrite decide_True in Hp.
    + exists n, p. split_and!; [done|done|]. apply is_first_snoc in Hp as Hp'; [|lia]. destruct p as [x|]; [done|].
      rewrite decide_False in Hp'; [done|]. intros Hhh. destruct o as [y|]; cbn in Hlast.
      * destruct Hlast as (Hy & Hhy & Hbetween). assert (y <> q) by congruence. destruct (decide (y < q)).
        -- apply (Hbetween q); [lia|congruence].
        -- apply (Hp y); [lia|congruence].
      * apply (Hlast q); [lia|congruence].
  - intros k Hk. rewrite zlookup_zset by (rewrite ?(holds_start_len _ _ _ H); lia).
    destruct (holds_start _ _ _ H k Hk) as (o' & Ho' & Hlast'). apply is_last_snoc in Hlast'; [|lia].
    case_decide as Hhk; [by exists (Some hi)|by exists o'].
Qed.
End History.

(** ** The history of a source *)

Section Source.
Variables (char_signed : bool) (source : list Z).

Definition hash_at (s : Z) : Z := match pglz_hist_idx char_signed source s with Done k => k | _ => 0 end.

Lemma land_mask x : 0 <= Z.land x PGLZ_HISTORY_MASK < PGLZ_HISTORY_LISTS.
Proof.
  change PGLZ_HISTORY_MASK with (Z.ones 13). rewrite Z.land_ones by lia. apply Z.mod_pos_bound. done.
Qed.

Lemma hist_idx_spec s :
  0 <= s < zlen source -> exists k, pglz_hist_idx char_signed source s = Done k /\ 0 <= k < PGLZ_HISTORY_LISTS.
Proof.
  intros Hs. unfold pglz_hist_idx. destruct (zlookup_is_Some source s Hs) as [b0 ->]. runs.
  destruct (Z.ltb_spec (zlen source - s) 4); [eexists; split; [done|apply land_mask]|].
  destruct (zlookup_is_Some source (s + 1)) as [b1 ->]; [lia|].
  destruct (zlookup_is_Some source (s + 2)) as [b2 ->]; [lia|].
  destruct (zlookup_is_Some source (s + 3)) as [b3 ->]; [lia|]. runs. eexists. split; [done|apply land_mask].
Qed.

Lemma hist_idx_done s : 0 <= s < zlen source -> pglz_hist_idx char_signed source s = Done (hash_at s).
Proof. intros (k & Hk & _)%hist_idx_spec. unfold hash_at. by rewrite Hk. Qed.

(** The hash of the positions of the source; the others do not occur. *)
Definition hash (s : Z) : Z := if decide (0 <= s < zlen source) then hash_at s else 0.

Lemma hash_range s : 0 <= hash s < PGLZ_HISTORY_LISTS.
Proof.
  unfold hash. case_decide as Hs; [|done]. destruct (hist_idx_spec s Hs) as (k & Hk & ?). unfold hash_at. by rewrite Hk.
Qed.

Lemma hist_idx_hash s : 0 <= s < zlen source -> pglz_hist_idx char_signed source s = Done (hash s).
Proof. intros Hs. unfold hash. rewrite decide_True by done. by apply hist_idx_done. Qed.

(** The history when the first [dp] positions have been added. *)
Definition history_at (dp : Z) (h : History) : Prop :=
  holds hash (Z.max 0 (dp - PGLZ_HISTORY_SIZE)) dp h /\
  hist_next h = slot dp /\ hist_recycle h = (PGLZ_HISTORY_SIZE <=? dp).

Lemma history_initial entries :
  zlen entries = PGLZ_HISTORY_SIZE ->
  history_at 0 (MkHistory (replicate (Z.to_nat PGLZ_HISTORY_LISTS) None) entries 0 false).
Proof.
  intros He. split; [|done]. constructor; cbn; [done|done|done|lia|].
  intros k Hk. exists None. split; [|cbn; lia]. unfold zlookup. rewrite (proj2 (Z.leb_le 0 k)) by lia.
  apply lookup_replicate. split; [done|]. unfold PGLZ_HISTORY_LISTS in *. lia.
Qed.

Lemma next_slot dp :
  0 <= dp ->
  (PGLZ_HISTORY_SIZE <= slot dp + 1 -> slot (dp + 1) = 0 /\ PGLZ_HISTORY_SIZE <= dp + 1) /\
  (slot dp + 1 < PGLZ_HISTORY_SIZE -> slot (dp + 1) = slot dp + 1 /\ dp + 1 <> PGLZ_HISTORY_SIZE).
Proof. unfold slot, PGLZ_HISTORY_SIZE. zdiv_lia. Qed.

Lemma hist_add_spec h dp :
  history_at dp h -> 0 <= dp < zlen source ->
  exists h', pglz_hist_add char_signed source h dp = Done h' /\ history_at (dp + 1) h'.
Proof.
  intros (H & Hnext & Hrec) Hdp. unfold pglz_hist_add. rewrite hist_idx_hash by done. runs.
  assert (Hd : exists h1, (if hist_recycle h then myhe ← inside (zlookup (hist_entries h) (hist_next h)); delink h myhe else mret h)
      = Done h1 /\ holds hash (Z.max 0 (dp + 1 - PGLZ_HISTORY_SIZE)) dp h1 /\
      hist_next h1 = hist_next h /\ hist_recycle h1 = hist_recycle h).
  { rewrite Hrec. destruct (Z.leb_spec PGLZ_HISTORY_SIZE dp) as [Hfull|Hroom].
    - assert (Hslot : hist_next h = slot (dp - PGLZ_HISTORY_SIZE)).
      { rewrite Hnext. unfold slot, PGLZ_HISTORY_SIZE. zdiv_lia. }
      rewrite Z.max_r in H by lia.
      destruct (delink_spec hash hash_range (dp - PGLZ_HISTORY_SIZE) dp h H) as (e & h1 & He & Hrun & H1 & ? & ?);
        [unfold PGLZ_HISTORY_SIZE; lia|].
      exists h1. rewrite Hslot, He. runs. split_and!; [done| |congruence|congruence].
      replace (Z.max 0 (dp + 1 - PGLZ_HISTORY_SIZE)) with (dp - PGLZ_HISTORY_SIZE + 1) by lia. done.
    - exists h. split_and!; [done| |done|done]. rewrite Z.max_l in H by lia. by rewrite Z.max_l by lia. }
  destruct Hd as (h1 & -> & H1 & Hn1 & Hr1). runs.
  destruct (push_spec hash hash_range _ dp h1 H1) as (h2 & Hrun & H2 & Hn2 & Hr2); [unfold PGLZ_HISTORY_SIZE in *; lia|].
  rewrite <- Hnext in Hrun.
  destruct (inside (zlookup (hist_start h1) (hash dp))) as [first|c|]; [|done..]. runs. cbn [mbind run_bind] in Hrun.
  destruct (set_entry h1 (hist_next h) _) as [ha|c|]; [|done..]. runs. cbn [mbind run_bind] in Hrun.
  destruct (update_entry ha first _) as [hb|c|]; [|done..]. runs. cbn [mbind run_bind] in Hrun. rewrite Hrun. runs.
  eexists. split; [done|]. destruct (next_slot dp) as [Hwrap Hstep]; [lia|].
  unfold history_at. rewrite Hnext, Hr2, Hr1, Hrec. destruct (Z.leb_spec PGLZ_HISTORY_SIZE (slot dp + 1)) as [Hle|Hlt].
  - destruct (Hwrap Hle) as [-> ?]. split; [by apply holds_counters|]. split; [done|]. cbn. symmetry. by apply Z.leb_le.
  - destruct (Hstep Hlt) as [-> ?]. split; [by apply holds_counters|]. split; [done|]. cbn.
    destruct (Z.leb_spec PGLZ_HISTORY_SIZE dp), (Z.leb_spec PGLZ_HISTORY_SIZE (dp + 1)); done || lia.
Qed.

Lemma add_matched_spec n h dp :
  history_at dp h -> 0 <= dp -> dp + Z.of_nat n <= zlen source ->
  exists h', add_matched char_signed source n h dp = Done (h', dp + Z.of_nat n) /\ history_at (dp + Z.of_nat n) h'.
Proof.
  revert h dp. induction n as [|n IH]; intros h dp H Hdp Hn; cbn [add_matched].
  { exists h. by rewrite Z.add_0_r. }
  destruct (hist_add_spec h dp H) as (h1 & -> & H1); [lia|]. runs.
  destruct (IH h1 (dp + 1) H1) as (h2 & -> & H2); [lia..|]. exists h2.
  by replace (dp + 1 + Z.of_nat n) with (dp + Z.of_nat (S n)) in * by lia.
Qed.

(** What a reader of the list of a hash meets. *)
Fixpoint walk (fuel : nat) (h : History) (hent : option Z) : run (list Z) :=
  match hent with
  | None => mret []
  | Some i =>
      match fuel with
      | O => Outside
      | S fuel => he ← inside (zlookup (hist_entries h) i); l ← walk fuel h (next he); mret (pos he :: l)
      end
  end.

(** The positions of hash [k] in [lo, lo + n), the latest first. *)
Fixpoint positions (k lo : Z) (n : nat) : list Z :=
  match n with
  | O => []
  | S n => let q := lo + Z.of_nat n in if decide (hash q = k) then q :: positions k lo n else positions k lo n
  end.

Lemma positions_last k lo n o :
  is_last hash lo (lo + Z.of_nat n) k o ->
  positions k lo n = match o with None => [] | Some q => q :: positions k lo (Z.to_nat (q - lo)) end.
Proof.
  induction n as [|n IH]; cbn [positions]; intros Ho.
  { destruct o as [q|]; [cbn in Ho; lia|done]. }
  case_decide as Hk.
  - destruct o as [q|]; cbn in Ho.
    + destruct Ho as (? & ? & Hno). destruct (decide (q = lo + Z.of_nat n)) as [->|].
      * f_equal. f_equal. lia.
      * exfalso. apply (Hno (lo + Z.of_nat n)); [lia|done].
    + exfalso. apply (Ho (lo + Z.of_nat n)); [lia|done].
  - apply IH. destruct o as [q|]; cbn in *.
    + destruct Ho as (? & ? & Hno). assert (q <> lo + Z.of_nat n) by congruence. split_and!; [lia|lia|done|].
      intros r Hr. apply Hno. lia.
    + intros r Hr. apply Ho. lia.
Qed.

Lemma walk_spec lo hi h k o fuel :
  holds hash lo hi h -> is_last hash lo hi k o -> (match o with Some q => q - lo | None => -1 end) < Z.of_nat fuel ->
  walk fuel h (slot <$> o) = Done (positions k lo (Z.to_nat (hi - lo))).
Proof.
  intros H. pose proof (holds_window _ _ _ _ H) as [Hw _].
  assert (Hgen : forall fuel m o, lo <= m <= hi -> is_last hash lo m k o ->
    (match o with Some q => q - lo | None => -1 end) < Z.of_nat fuel ->
    walk fuel h (slot <$> o) = Done (positions k lo (Z.to_nat (m - lo)))); [|intros; apply Hgen; [lia|done|done]].
  clear o fuel. induction fuel as [|fuel IH]; intros m o Hm Ho Hf; rewrite (positions_last k lo _ o)
    by (replace (lo + Z.of_nat (Z.to_nat (m - lo))) with m by lia; done).
  { destruct o as [q|]; [|done]. cbn in Ho. lia. }
  destruct o as [q|]; [|done]. destruct Ho as (Hq & Hk & _).
  destruct (holds_entry _ _ _ _ H q) as (n & p & He & Hn & _); [lia|].
  cbn [fmap option_fmap option_map walk]. rewrite He. runs. cbn [next pos].
  rewrite Hk in Hn. rewrite (IH q n); [done|lia|done|]. destruct n as [r|]; [cbn in Hn; lia|lia].
Qed.

(** ** Matches *)

Definition equal_for (ip hp n : Z) : Prop :=
  forall k, 0 <= k < n -> zlookup source (ip + k) = zlookup source (hp + k).

Definition matches (dp off len : Z) : Prop :=
  1 <= off < 4095 /\ off <= dp /\ 0 <= len <= PGLZ_MAX_MATCH /\ dp + len <= zlen source /\ equal_for dp (dp - off) len.

Lemma extend_match_spec fuel ip hp thislen :
  0 <= hp <= ip -> ip <= zlen source -> thislen <= PGLZ_MAX_MATCH -> zlen source - ip < Z.of_nat fuel ->
  exists n, extend source fuel ip hp thislen = Done (thislen + n) /\ 0 <= n /\ ip + n <= zlen source /\
            thislen + n <= PGLZ_MAX_MATCH /\ equal_for ip hp n.
Proof.
  revert ip hp thislen. induction fuel as [|fuel IH]; intros ip hp thislen Hhp Hip Hlen Hf; [lia|]. cbn [extend].
  assert (Hstop : exists n, mret thislen = Done (thislen + n) /\ 0 <= n /\ ip + n <= zlen source /\
            thislen + n <= PGLZ_MAX_MATCH /\ equal_for ip hp n).
  { exists 0. rewrite !Z.add_0_r. split_and!; try done; lia || (intros k Hk; lia). }
  destruct (Z.ltb_spec ip (zlen source)) as [Hlt|]; [|done].
  destruct (zlookup_is_Some source ip) as [a Ha]; [lia|]. destruct (zlookup_is_Some source hp) as [b Hb]; [lia|].
  rewrite Ha, Hb. runs. destruct (Z.eqb_spec a b) as [->|]; [|done].
  destruct (Z.ltb_spec thislen PGLZ_MAX_MATCH); [|done]. cbn [andb].
  destruct (IH (ip + 1) (hp + 1) (thislen + 1)) as (n & Hrun & ? & ? & ? & Heq); [lia..|].
  exists (n + 1). split_and!; [rewrite Hrun; f_equal; lia|lia..|].
  intros k Hk. destruct (decide (k = 0)) as [->|]; [rewrite !Z.add_0_r; congruence|].
  specialize (Heq (k - 1) ltac:(lia)).
  by replace (ip + 1 + (k - 1)) with (ip + k) in Heq by lia; replace (hp + 1 + (k - 1)) with (hp + k) in Heq by lia.
Qed.

Lemma same_bytes_spec ip hp len :
  0 <= hp <= ip -> 0 <= len -> ip + len <= zlen source ->
  exists b, same_bytes source ip hp len = Done b /\ (b = true -> equal_for ip hp len).
Proof.
  intros Hhp Hlen Hip. unfold same_bytes. rewrite !(proj2 (Z.leb_le _ _)) by lia. cbn [andb].
  eexists. split; [done|]. rewrite bool_decide_eq_true. intros He k Hk. unfold zlookup.
  rewrite !(proj2 (Z.leb_le _ _)) by lia.
  apply (f_equal (fun l => l !! Z.to_nat k)) in He. rewrite !lookup_take_lt, !lookup_drop in He by lia.
  by replace (Z.to_nat (ip + k)) with (Z.to_nat ip + Z.to_nat k)%nat by lia;
    replace (Z.to_nat (hp + k)) with (Z.to_nat hp + Z.to_nat k)%nat by lia.
Qed.

Lemma equal_for_app ip hp n m : equal_for ip hp n -> equal_for (ip + n) (hp + n) m -> equal_for ip hp (n + m).
Proof.
  intros Hn Hm k Hk. destruct (decide (k < n)); [apply Hn; lia|]. specialize (Hm (k - n) ltac:(lia)).
  by replace (ip + n + (k - n)) with (ip + k) in Hm by lia; replace (hp + n + (k - n)) with (hp + k) in Hm by lia.
Qed.

Lemma match_length_spec ip hp len :
  0 <= hp <= ip -> 0 <= len <= PGLZ_MAX_MATCH -> ip + len <= zlen source ->
  exists n, match_length source ip hp len = Done n /\ 0 <= n <= PGLZ_MAX_MATCH /\ ip + n <= zlen source /\ equal_for ip hp n.
Proof.
  intros Hhp Hlen Hip. unfold match_length. destruct (Z.leb_spec 16 len).
  - destruct (same_bytes_spec ip hp len) as ([|] & -> & Hsame); [lia..| |]; runs; cycle 1.
    { exists 0. split_and!; try done; [lia|intros k Hk; lia]. }
    destruct (extend_match_spec (Z.to_nat (zlen source - ip) + 1) (ip + len) (hp + len) len) as (n & -> & ? & ? & ? & Heq); [lia..|].
    exists (len + n). split_and!; [done|lia..|]. apply equal_for_app; auto.
  - destruct (extend_match_spec (Z.to_nat (zlen source - ip) + 1) ip hp 0) as (n & -> & ? & ? & ? & Heq); [done || lia..|].
    exists n. split_and!; [done|lia..|done].
Qed.

Lemma find_loop_spec lo dp h k good_drop :
  holds hash lo dp h -> dp < zlen source ->
  forall fuel m o len off good_match,
    is_last hash lo m k o -> lo <= m <= dp -> len = 0 \/ matches dp off len ->
    (match o with Some q => q - lo | None => -1 end) < Z.of_nat fuel ->
    exists len' off', find_loop source fuel h dp len off good_match good_drop (slot <$> o) = Done (len', off') /\
      (len' = 0 \/ matches dp off' len').
Proof.
  intros H Hdp. pose proof (holds_window _ _ _ _ H) as [Hw _].
  induction fuel as [|fuel IH]; intros m o len off good_match Ho Hm Hlen Hf.
  { destruct o as [q|]; cbn in Ho; [lia|]. cbn. by eauto. }
  destruct o as [q|]; [|cbn; by eauto]. destruct Ho as (Hq & Hk & _).
  destruct (holds_entry _ _ _ _ H q) as (n & p & He & Hn & _); [lia|].
  cbn [fmap option_fmap option_map find_loop]. rewrite He. runs. cbn [next pos].
  destruct (Z.leb_spec 4095 (dp - q)); [by eauto|].
  destruct (match_length_spec dp q len) as (t & -> & Ht & ? & Heq); [lia|destruct Hlen as [->|(_ & _ & ? & ? & _)]; [done|lia]| |].
  { destruct Hlen as [->|(_ & _ & ? & ? & _)]; lia. }
  runs. set (r := if len <? t then (t, dp - q) else (len, off)).
  assert (Hr : fst r = 0 \/ matches dp (snd r) (fst r)).
  { unfold r. destruct (Z.ltb_spec len t); [|done]. right. cbn. unfold matches.
    replace (dp - (dp - q)) with q by lia. split_and!; done || lia. }
  destruct r as [len' off']. cbn in Hr. rewrite Hk in Hn.
  destruct n as [x|]; cbn [fmap option_fmap option_map]; [|by eauto].
  destruct (good_match <=? len'); [by eauto|].
  apply (IH q (Some x)); [done|lia|done|]. cbn in Hn. lia.
Qed.

Lemma find_match_body fuel dp h good_match good_drop :
  Z.of_nat fuel = PGLZ_HISTORY_SIZE -> history_at dp h -> 0 <= dp < zlen source ->
  exists r,
    (idx ← pglz_hist_idx char_signed source dp;
     hent ← inside (zlookup (hist_start h) idx);
     r ← find_loop source fuel h dp 0 0 good_match good_drop hent;
     let '(len, off) := (r : Z * Z) in
     mret (if 2 <? len then Some (len, off) else None)) = Done r /\
    match r with Some (len, off) => 3 <= len /\ matches dp off len | None => True end.
Proof.
  intros Hfuel (H & _) Hdp. rewrite hist_idx_hash by done. runs.
  destruct (holds_start _ _ _ _ H (hash dp) (hash_range dp)) as (o & -> & Ho). runs.
  destruct (find_loop_spec _ dp h (hash dp) good_drop H (proj2 Hdp) fuel dp o 0 0 good_match)
    as (len & off & -> & Hm); [done|unfold PGLZ_HISTORY_SIZE; lia|by left| |].
  { rewrite Hfuel. unfold PGLZ_HISTORY_SIZE in *. destruct o as [q|]; [cbn in Ho|]; lia. }
  runs. eexists. split; [done|]. destruct (Z.ltb_spec 2 len); [|done]. split; [lia|]. destruct Hm; [lia|done].
Qed.

(** A match that is found is one: the bytes at the distance [off] before are
    those that follow, and a tag can express it. *)
Lemma find_match_spec dp h good_match good_drop :
  history_at dp h -> 0 <= dp < zlen source ->
  exists r, pglz_find_match char_signed source h dp good_match good_drop = Done r /\
    match r with Some (len, off) => 3 <= len /\ matches dp off len | None => True end.
Proof. intros. unfold pglz_find_match. apply find_match_body; [apply Z2Nat.id; done|done|done]. Qed.
End Source.

(** ** Tokens *)

Inductive token := Literal (b : Z) | Copy (len off : Z).

Definition token_ok (t : token) : Prop :=
  match t with Literal b => in_u 8 b | Copy len off => 3 <= len <= PGLZ_MAX_MATCH /\ 1 <= off < 4095 end.

(** The bytes of a token and its bit in the control byte. *)
Definition token_bytes (t : token) : list Z :=
  match t with
  | Literal b => [b]
  | Copy len off =>
      let high := Z.shiftr (Z.land off 0xf00) 4 in
      if 17 <? len then [Z.lor high 0x0f; Z.land off 0xff; len - 18] else [Z.lor high (len - 3); Z.land off 0xff]
  end.
Definition token_bit (t : token) : Z := match t with Literal _ => 0 | Copy _ _ => 1 end.

Fixpoint control (ts : list token) : Z := match ts with [] => 0 | t :: ts => token_bit t + 2 * control ts end.
Definition bytes_of (ts : list token) : list Z := concat (token_bytes <$> ts).
Definition group_bytes (ts : list token) : list Z := control ts :: bytes_of ts.
(** Groups of tokens under one control byte. *)
Definition encode (groups : list (list token)) : list Z := concat (group_bytes <$> groups).

Definition full (groups : list (list token)) : Prop := Forall (fun g => length g = 8%nat) groups.

Lemma bytes_of_cons t ts : bytes_of (t :: ts) = token_bytes t ++ bytes_of ts.
Proof. done. Qed.
Lemma bytes_of_snoc ts t : bytes_of (ts ++ [t]) = bytes_of ts ++ token_bytes t.
Proof. unfold bytes_of. rewrite fmap_app, concat_app. cbn. by rewrite app_nil_r. Qed.
Lemma encode_cons g gs : encode (g :: gs) = group_bytes g ++ encode gs.
Proof. done. Qed.
Lemma encode_snoc gs g : encode (gs ++ [g]) = encode gs ++ group_bytes g.
Proof. unfold encode. rewrite fmap_app, concat_app. cbn. by rewrite app_nil_r. Qed.

Lemma token_bytes_len t : 1 <= zlen (token_bytes t) <= 3.
Proof. destruct t as [b|len off]; cbn; [done|]. destruct (_ <? _); done. Qed.

Lemma control_range ts : 0 <= control ts < 2 ^ Z.of_nat (length ts).
Proof.
  induction ts as [|t ts IH]; [done|]. cbn [control length]. rewrite Nat2Z.inj_succ, Z.pow_succ_r by lia.
  destruct t; cbn; lia.
Qed.

Lemma control_snoc ts t : control (ts ++ [t]) = control ts + token_bit t * 2 ^ Z.of_nat (length ts).
Proof.
  induction ts as [|u ts IH]; cbn [control app length]; [cbn; lia|].
  rewrite IH, Nat2Z.inj_succ, Z.pow_succ_r by lia. lia.
Qed.

Lemma control_bit t ts : negb (Z.land (control (t :: ts)) 1 =? 0) = bool_decide (token_bit t = 1).
Proof.
  change 1 with (Z.ones 1) at 1. rewrite Z.land_ones by lia. cbn [control].
  replace ((token_bit t + 2 * control ts) mod 2 ^ 1) with (token_bit t); [by destruct t|].
  destruct t; cbn [token_bit]; change (2 ^ 1) with 2; zdiv_lia.
Qed.

Lemma control_shift t ts : Z.shiftr (control (t :: ts)) 1 = control ts.
Proof. rewrite Z.shiftr_div_pow2 by lia. change (2 ^ 1) with 2. cbn [control]. destruct t; cbn [token_bit]; zdiv_lia. Qed.

(** Setting the next bit. *)
Lemma lor_pow2 a k : 0 <= a < 2 ^ k -> 0 <= k -> Z.lor a (2 ^ k) = a + 2 ^ k.
Proof.
  intros Ha Hk.
  assert (Hland : Z.land a (2 ^ k) = 0).
  { apply Z.bits_inj'. intros i Hi. rewrite Z.land_spec, Z.pow2_bits_eqb, Z.bits_0 by lia.
    destruct (Z.eqb_spec k i) as [->|]; [|by rewrite andb_false_r].
    rewrite Z.testbit_eqb, Z.div_small by lia. done. }
  by rewrite <- Z.lxor_lor, <- Z.add_nocarry_lxor.
Qed.

Definition tag_bits_of (off x : Z) : bool :=
  let b0 := Z.lor (Z.shiftr (Z.land off 0xf00) 4) x in
  (u8 b0 =? b0) && (u8 (Z.land off 0xff) =? Z.land off 0xff) && (Z.land b0 0x0f =? x) &&
  (Z.lor (Z.shiftl (Z.land b0 0xf0) 4) (Z.land off 0xff) =? off).

Lemma tag_bits_all : forallb (fun off => forallb (tag_bits_of off) (seqZ 0 16)) (seqZ 0 4096) = true.
Proof. vm_compute. reflexivity. Qed.

(** The two bytes of a tag. *)
Lemma tag_bits off x :
  0 <= off < 4096 -> 0 <= x < 16 ->
  let b0 := Z.lor (Z.shiftr (Z.land off 0xf00) 4) x in
  u8 b0 = b0 /\ u8 (Z.land off 0xff) = Z.land off 0xff /\ Z.land b0 0x0f = x /\
  Z.lor (Z.shiftl (Z.land b0 0xf0) 4) (Z.land off 0xff) = off.
Proof.
  intros Hoff Hx b0. pose proof tag_bits_all as Hall. rewrite forallb_forall in Hall.
  specialize (Hall off ltac:(apply list_elem_of_In, elem_of_seqZ; lia)). rewrite forallb_forall in Hall.
  specialize (Hall x ltac:(apply list_elem_of_In, elem_of_seqZ; lia)). unfold tag_bits_of in Hall.
  rewrite !andb_true_iff, !Z.eqb_eq in Hall. tauto.
Qed.

(** ** The output buffer *)

Section Buffer.
Variable source : list Z.

(** The buffer while it is open for the next token of the group [cur], and
    before anything is written. *)
Definition open_group (o : Output) (gs : list (list token)) (cur : list token) : Prop :=
  full gs /\ (length cur <= 8)%nat /\
  exists x, out o = encode gs ++ x :: bytes_of cur /\ ctrlp o = Some (zlen (encode gs)) /\
            ctrlb o = control cur /\ ctrl o = u8 (2 ^ Z.of_nat (length cur)).

Definition represents (o : Output) (gs : list (list token)) (cur : list token) : Prop :=
  (gs = [] /\ cur = [] /\ o = MkOutput [] None 0 0) \/ (cur <> [] /\ open_group o gs cur).

Lemma put_byte_run b o :
  zlen (out o) < output_room (zlen source) ->
  put_byte source b o = Done (MkOutput (out o ++ [b]) (ctrlp o) (ctrlb o) (ctrl o)).
Proof. intros. unfold put_byte. by rewrite (proj2 (Z.ltb_lt _ _)). Qed.

(** Writing the control byte completes the group. *)
Lemma store_ctrl_spec o gs cur :
  open_group o gs cur ->
  store_ctrl o = Done (MkOutput (encode (gs ++ [cur])) (ctrlp o) (ctrlb o) (ctrl o)) /\
  zlen (encode (gs ++ [cur])) = zlen (out o).
Proof.
  intros (_ & _ & x & Hout & Hp & Hb & _). unfold store_ctrl. rewrite Hp. pose proof (zlen_nonneg (encode gs)).
  rewrite zupdate_in by (rewrite Hout, zlen_app, zlen_cons; pose proof (zlen_nonneg (bytes_of cur)); lia). runs.
  rewrite Hout, Hb, encode_snoc. unfold group_bytes. split; [|by rewrite !zlen_app, !zlen_cons].
  do 2 f_equal. unfold zset, zlen. rewrite Nat2Z.id.
  rewrite <- (Nat.add_0_r (length (encode gs))). by rewrite insert_app_r.
Qed.

Lemma ctrl_zero n : (n <= 8)%nat -> u8 (2 ^ Z.of_nat n) = if decide (n = 8%nat) then 0 else 2 ^ Z.of_nat n.
Proof. intros Hn. do 9 (destruct n as [|n]; [done|]). lia. Qed.

Lemma out_ctrl_spec o gs cur :
  represents o gs cur -> zlen (out o) < output_room (zlen source) ->
  exists o' gs' cur', pglz_out_ctrl source o = Done o' /\ open_group o' gs' cur' /\ (length cur' < 8)%nat /\
    concat gs' ++ cur' = concat gs ++ cur /\ zlen (out o) <= zlen (out o') <= zlen (out o) + 1 /\ ctrl o' = 2 ^ Z.of_nat (length cur').
Proof.
  intros Hrep Hroom. unfold pglz_out_ctrl. destruct Hrep as [(-> & -> & ->)|(Hne & Hopen)].
  { cbn [ctrl out]. rewrite Z.eqb_refl. cbn [store_ctrl ctrlp]. runs. rewrite put_byte_run by done. runs.
    eexists _, [], []. split_and!; [done| |cbn; lia|done|unfold zlen; cbn; lia..|done].
    split; [constructor|]. split; [cbn; lia|]. by exists 0. }
  pose proof Hopen as (Hfull & Hlen & x & Hout & Hp & Hb & Hc). rewrite Hc, ctrl_zero by done.
  destruct (decide (length cur = 8%nat)) as [H8|H8].
  - destruct (store_ctrl_spec o gs cur Hopen) as [-> Hz]. rewrite Z.eqb_refl. runs.
    rewrite put_byte_run by (cbn; lia). runs. cbn [out].
    eexists _, (gs ++ [cur]), []. split_and!; [done| |cbn; lia|rewrite concat_app; cbn; by rewrite !app_nil_r| | |done].
    + split; [by apply Forall_app_2; [|constructor]|]. split; [cbn; lia|]. exists 0. by cbn.
    + cbn [out]. rewrite zlen_app, zlen_cons. change (zlen (@nil Z)) with 0. lia.
    + cbn [out]. rewrite zlen_app, zlen_cons. change (zlen (@nil Z)) with 0. lia.
  - assert (2 ^ Z.of_nat (length cur) <> 0) by (apply Z.pow_nonzero; lia).
    rewrite (proj2 (Z.eqb_neq _ _)) by done. exists o, gs, cur. split_and!; try done; [lia..|].
    rewrite Hc, ctrl_zero by done. by rewrite decide_False.
Qed.

Definition emit (t : token) (o : Output) : run Output :=
  match t with Literal b => pglz_out_literal source b o | Copy len off => pglz_out_tag source len off o end.

(** Writing a token. *)
Lemma emit_spec t o gs cur :
  token_ok t -> represents o gs cur -> zlen (out o) + 4 <= output_room (zlen source) ->
  exists o' gs' cur', emit t o = Done o' /\ represents o' gs' cur' /\
    concat gs' ++ cur' = (concat gs ++ cur) ++ [t] /\ zlen (out o) < zlen (out o').
Proof.
  intros Ht Hrep Hroom.
  destruct (out_ctrl_spec o gs cur Hrep) as (o1 & gs1 & cur1 & Hrun & Hopen & Hlt & Hconcat & Hlen & Hctrl); [lia|].
  destruct Hopen as (Hfull & _ & x & Hout & Hp & Hb & _).
  assert (Hfin : forall o2, out o2 = out o1 ++ token_bytes t -> ctrlp o2 = ctrlp o1 ->
    ctrlb o2 = ctrlb o1 + token_bit t * ctrl o1 -> ctrl o2 = u8 (Z.shiftl (ctrl o1) 1) -> represents o2 gs1 (cur1 ++ [t])).
  { intros o2 H1 H2 H3 H4. right. split; [by destruct cur1|]. split; [done|]. rewrite length_app. cbn [length].
    split; [lia|]. exists x. split_and!.
    - rewrite H1, Hout, bytes_of_snoc, <- app_assoc. done.
    - congruence.
    - rewrite H3, Hb, control_snoc, Hctrl. done.
    - rewrite H4, Hctrl, Z.shiftl_mul_pow2 by lia. rewrite Nat2Z.inj_add, Z.pow_add_r by lia. done. }
  assert (Hbound : zlen (out o) < zlen (out o1 ++ token_bytes t)).
  { rewrite zlen_app. pose proof (token_bytes_len t). lia. }
  unfold emit. destruct t as [b|len off]; cbn in Ht.
  - unfold pglz_out_literal. rewrite (uN_small 8 b), Hrun by done. runs. rewrite put_byte_run by lia. runs.
    eexists _, gs1, (cur1 ++ [Literal b]). split_and!; [done| |by rewrite app_assoc, Hconcat|].
    + apply Hfin; cbn; [done|done|lia|done].
    + exact Hbound.
  - unfold pglz_out_tag. rewrite Hrun. runs. destruct Ht as [Hlenr Hoff]. unfold PGLZ_MAX_MATCH in Hlenr.
    assert (Hlor : Z.lor (ctrlb o1) (ctrl o1) = ctrlb o1 + token_bit (Copy len off) * ctrl o1).
    { rewrite Hctrl, Hb, lor_pow2; [cbn; lia|apply control_range|lia]. }
    cbn [token_bytes] in *. destruct (Z.ltb_spec 17 len).
    + destruct (tag_bits off 15) as (-> & -> & _); [lia..|]. rewrite (uN_small 8 (len - 18)) by (unfold in_u; lia).
      do 3 (rewrite put_byte_run by (cbn [shift_ctrl out]; rewrite ?zlen_app, ?zlen_cons; change (zlen (@nil Z)) with 0; lia);
            cbn [shift_ctrl out ctrlp ctrlb ctrl]; runs).
      eexists _, gs1, _. split_and!; [done|apply Hfin|by rewrite app_assoc, Hconcat|]; cbn [out ctrlp ctrlb ctrl];
        rewrite <- ?app_assoc; done.
    + destruct (tag_bits off (len - 3)) as (-> & -> & _); [lia..|].
      do 2 (rewrite put_byte_run by (cbn [shift_ctrl out]; rewrite ?zlen_app, ?zlen_cons; change (zlen (@nil Z)) with 0; lia);
            cbn [shift_ctrl out ctrlp ctrlb ctrl]; runs).
      eexists _, gs1, _. split_and!; [done|apply Hfin|by rewrite app_assoc, Hconcat|]; cbn [out ctrlp ctrlb ctrl];
        rewrite <- ?app_assoc; done.
Qed.
End Buffer.

(** ** The meaning of tokens *)

Definition expand_token (dest : list Z) (t : token) : run (list Z) :=
  match t with Literal b => mret (dest ++ [b]) | Copy len off => copy_bytes (Z.to_nat len) off dest end.

Fixpoint expand (dest : list Z) (ts : list token) : run (list Z) :=
  match ts with [] => mret dest | t :: ts => dest ← expand_token dest t; expand dest ts end.

Lemma expand_app dest ts us : expand dest (ts ++ us) = (d ← expand dest ts; expand d us).
Proof.
  revert dest. induction ts as [|t ts IH]; intros dest; cbn [app expand]; [done|].
  destruct (expand_token dest t); [|done..]. apply IH.
Qed.

Lemma copy_bytes_len n off dest d : copy_bytes n off dest = Done d -> zlen d = zlen dest + Z.of_nat n.
Proof.
  revert dest. induction n as [|n IH]; intros dest; cbn [copy_bytes]; [intros [= <-]; lia|].
  destruct (zlookup dest _); [|done]. runs. intros H%IH. rewrite zlen_app, zlen_cons in H.
  change (zlen (@nil Z)) with 0 in H. lia.
Qed.

(** The length of what a token stands for. *)
Definition token_len (t : token) : Z := match t with Literal _ => 1 | Copy len _ => len end.

Lemma expand_token_len dest t d : token_ok t -> expand_token dest t = Done d -> zlen d = zlen dest + token_len t /\ 0 < token_len t.
Proof.
  destruct t as [b|len off]; cbn.
  - intros _ [= <-]. rewrite zlen_app, zlen_cons. change (zlen (@nil Z)) with 0. lia.
  - intros Ht H%copy_bytes_len. lia.
Qed.

Lemma expand_len dest ts d : Forall token_ok ts -> expand dest ts = Done d -> zlen dest + Z.of_nat (length ts) <= zlen d.
Proof.
  intros Hts. revert dest. induction Hts as [|t ts Ht Hts IH]; intros dest; cbn [expand length]; [intros [= <-]; lia|].
  destruct (expand_token dest t) as [e|c|] eqn:He; [|done..]. runs. intros H%IH.
  apply expand_token_len in He; [|done]. lia.
Qed.

(** A copy reproduces a match of the source. *)
Lemma copy_run source n dp off :
  1 <= off <= dp -> dp + Z.of_nat n <= zlen source -> equal_for source dp (dp - off) (Z.of_nat n) ->
  copy_bytes n off (take (Z.to_nat dp) source) = Done (take (Z.to_nat (dp + Z.of_nat n)) source).
Proof.
  revert dp. induction n as [|n IH]; intros dp Hoff Hdp Heq; cbn [copy_bytes]; [by rewrite Z.add_0_r|].
  assert (Hlen : zlen (take (Z.to_nat dp) source) = dp) by (unfold zlen in *; rewrite length_take; lia).
  rewrite Hlen. destruct (zlookup_is_Some source dp) as [b Hb]; [lia|].
  assert (Hsrc : zlookup (take (Z.to_nat dp) source) (dp - off) = Some b).
  { specialize (Heq 0 ltac:(lia)). rewrite !Z.add_0_r in Heq. rewrite <- Hb, Heq. unfold zlookup.
    rewrite (proj2 (Z.leb_le 0 (dp - off))) by lia. apply lookup_take_lt. lia. }
  assert (Hsnoc : take (Z.to_nat dp) source ++ [b] = take (Z.to_nat (dp + 1)) source).
  { replace (Z.to_nat (dp + 1)) with (S (Z.to_nat dp)) by lia. symmetry. apply take_S_r.
    unfold zlookup in Hb. by rewrite (proj2 (Z.leb_le 0 dp)) in Hb by lia. }
  rewrite Hsrc. runs. rewrite Hsnoc, IH; [f_equal; f_equal; lia|lia|lia|].
  intros k Hk. specialize (Heq (k + 1) ltac:(lia)).
  by replace (dp + 1 + k) with (dp + (k + 1)) by lia; replace (dp + 1 - off + k) with (dp - off + (k + 1)) by lia.
Qed.

(** ** The main loop *)

Section Compress.
Variables (char_signed : bool) (source : list Z).
Hypothesis source_bytes : Forall (in_u 8) source.

(** After [dp] bytes the tokens written stand for these bytes. *)
Definition written (o : Output) (dp : Z) : Prop :=
  exists gs cur, represents o gs cur /\ Forall token_ok (concat gs ++ cur) /\
    expand [] (concat gs ++ cur) = Done (take (Z.to_nat dp) source).

Lemma source_byte dp b : zlookup source dp = Some b -> in_u 8 b.
Proof.
  unfold zlookup. destruct (0 <=? dp); [|done]. intros Hb.
  eapply Forall_lookup_1 in source_bytes; [|exact Hb]. done.
Qed.

Lemma written_token o dp t d :
  written o dp -> zlen (out o) + 4 <= output_room (zlen source) -> token_ok t ->
  expand_token (take (Z.to_nat dp) source) t = Done (take (Z.to_nat d) source) ->
  exists o', emit source t o = Done o' /\ written o' d.
Proof.
  intros (gs & cur & Hrep & Hok & Hexp) Hroom Ht Hstep.
  destruct (emit_spec source t o gs cur Ht Hrep Hroom) as (o' & gs' & cur' & Hrun & Hrep' & Hconcat & _).
  exists o'. split; [done|]. exists gs', cur'. rewrite Hconcat. split_and!; [done|by apply Forall_app_2; [|constructor]|].
  rewrite expand_app, Hexp. runs. cbn [expand]. by rewrite Hstep.
Qed.

Lemma compress_loop_spec fuel good_match good_drop first_success_by result_max h o found_match dp :
  history_at char_signed source dp h -> written o dp -> 0 <= dp <= zlen source -> zlen source - dp <= Z.of_nat fuel ->
  result_max <= zlen source ->
  exists r, compress_loop char_signed source fuel good_match good_drop first_success_by result_max h o found_match dp = Done r /\
    match r with Some o' => written o' (zlen source) | None => True end.
Proof.
  revert h o found_match dp. induction fuel as [|fuel IH]; intros h o found_match dp H Hw Hdp Hf Hmax; cbn [compress_loop].
  { destruct (Z.ltb_spec dp (zlen source)); [lia|]. exists (Some o). split; [done|]. by replace (zlen source) with dp by lia. }
  destruct (Z.ltb_spec dp (zlen source)) as [Hlt|]; cycle 1.
  { exists (Some o). split; [done|]. by replace (zlen source) with dp by lia. }
  destruct (Z.leb_spec result_max (zlen (out o))); [by exists None|].
  destruct (negb found_match && _); [by exists None|].
  assert (Hroom : zlen (out o) + 4 <= output_room (zlen source)) by (unfold output_room; lia).
  destruct (find_match_spec char_signed source dp h good_match good_drop H) as (m & -> & Hm); [lia|]. runs.
  destruct m as [[len off]|].
  - destruct Hm as (H3 & Hoff & Hback & Hlen & Hend & Heq).
    destruct (written_token o dp (Copy len off) (dp + len) Hw Hroom) as (o' & Hrun & Hw'); [cbn; lia| |].
    { cbn. rewrite copy_run; rewrite ?Z2Nat.id by lia; [done|lia|lia|done]. }
    cbn [emit] in Hrun. rewrite Hrun. runs.
    destruct (add_matched_spec char_signed source (Z.to_nat len) h dp H) as (h' & -> & H'); [lia|lia|]. runs.
    rewrite Z2Nat.id in * by lia. apply IH; [done|done|lia|lia|done].
  - destruct (zlookup_is_Some source dp) as [b Hb]; [lia|]. rewrite Hb. runs.
    destruct (written_token o dp (Literal b) (dp + 1) Hw Hroom) as (o' & Hrun & Hw').
    { cbn. by eapply source_byte. }
    { cbn. replace (Z.to_nat (dp + 1)) with (S (Z.to_nat dp)) by lia. f_equal. symmetry. apply take_S_r.
      unfold zlookup in Hb. by rewrite (proj2 (Z.leb_le 0 dp)) in Hb by lia. }
    cbn [emit] in Hrun. rewrite Hrun. runs.
    destruct (hist_add_spec char_signed source h dp H) as (h' & -> & H'); [lia|]. runs.
    apply IH; [done|done|lia|lia|done].
Qed.
End Compress.

(** ** Decompression of tokens *)

Section Decompress.
Variables (payload : list Z) (rawsize : Z).

Lemma payload_at pre bytes post i b :
  payload = pre ++ bytes ++ post -> bytes !! i = Some b -> zlookup payload (zlen pre + Z.of_nat i) = Some b.
Proof.
  intros -> Hb. unfold zlookup, zlen. rewrite (proj2 (Z.leb_le _ _)) by lia.
  replace (Z.to_nat (Z.of_nat (length pre) + Z.of_nat i)) with (length pre + i)%nat by lia.
  rewrite lookup_app_r by lia. replace (length pre + i - length pre)%nat with i by lia.
  by rewrite lookup_app_l by (by eapply lookup_lt_Some).
Qed.

(** One group: all its tokens are expanded. *)
Lemma items_loop_spec n ts pre post dest d :
  payload = pre ++ bytes_of ts ++ post -> (length ts <= n)%nat -> ((length ts < n)%nat -> post = []) ->
  Forall token_ok ts -> expand dest ts = Done d -> zlen d <= rawsize ->
  items_loop payload rawsize n (control ts) (zlen pre) (zlen dest) dest = Done (zlen pre + zlen (bytes_of ts), zlen d, d).
Proof.
  revert n pre dest. induction ts as [|t ts IH]; intros n pre dest Hpay Hn Hpost Hok Hexp Hd.
  { cbn in Hexp. injection Hexp as ->. change (zlen (bytes_of [])) with 0. rewrite Z.add_0_r.
    destruct n as [|n]; [done|]. cbn [items_loop]. rewrite Hpost in Hpay by (cbn; lia). cbn in Hpay.
    rewrite Hpay, app_nil_r, Z.ltb_irrefl. done. }
  destruct n as [|n]; [cbn in Hn; lia|]. apply Forall_cons_1 in Hok as [Ht Hok]. cbn [expand] in Hexp.
  destruct (expand_token dest t) as [e|c|] eqn:He; [|done..]. cbn [mbind run_bind] in Hexp.
  pose proof (expand_token_len _ _ _ Ht He) as [Hel Htl]. pose proof (expand_len _ _ _ Hok Hexp) as Hle.
  rewrite bytes_of_cons, <- app_assoc in Hpay. rewrite bytes_of_cons, zlen_app.
  pose proof (token_bytes_len t) as Htb. cbn [items_loop].
  rewrite (proj2 (Z.ltb_lt _ _)); [|rewrite Hpay, !zlen_app; pose proof (zlen_nonneg (bytes_of ts)); pose proof (zlen_nonneg post); lia].
  specialize (IH n (pre ++ token_bytes t) e).
  rewrite zlen_app in IH. rewrite control_bit, control_shift.
  assert (Hnext : items_loop payload rawsize n (control ts) (zlen pre + zlen (token_bytes t)) (zlen e) e =
    Done (zlen pre + (zlen (token_bytes t) + zlen (bytes_of ts)), zlen d, d)).
  { rewrite IH; [f_equal; f_equal; f_equal; lia|by rewrite <- app_assoc|cbn in Hn; lia|intros; apply Hpost; cbn; lia|done..]. }
  destruct t as [b|len off]; cbn [token_bit token_bytes expand_token token_len] in *.
  - rewrite bool_decide_false by done. rewrite (proj2 (Z.leb_gt _ _)) by lia.
    pose proof (payload_at pre [b] _ 0 b Hpay eq_refl) as Hb. rewrite Z.add_0_r in Hb. rewrite Hb. runs.
    injection He as <-. rewrite <- Hel. exact Hnext.
  - rewrite bool_decide_true by done. destruct Ht as [Hlen Hoff]. unfold PGLZ_MAX_MATCH in Hlen.
    set (high := Z.shiftr (Z.land off 0xf00) 4) in *. destruct (Z.ltb_spec 17 len).
    + destruct (tag_bits off 15) as (_ & _ & Hlow & Hall); [lia..|]. fold high in Hlow, Hall.
      pose proof (payload_at pre _ _ 0 _ Hpay eq_refl) as H0. pose proof (payload_at pre _ _ 1 _ Hpay eq_refl) as H1.
      pose proof (payload_at pre _ _ 2 _ Hpay eq_refl) as H2.
      change (Z.of_nat 0) with 0 in H0. change (Z.of_nat 1) with 1 in H1. change (Z.of_nat 2) with 2 in H2.
      rewrite Z.add_0_r in H0. rewrite H0. runs. rewrite H1. runs. rewrite Hlow, Hall. change (15 + 3 =? 18) with true.
      rewrite H2. runs. replace (15 + 3 + (len - 18)) with len by lia.
      rewrite (proj2 (Z.ltb_ge _ _)), He, <- Hel by lia. runs.
      etransitivity; [|exact Hnext]. f_equal. rewrite !zlen_cons. change (zlen (@nil Z)) with 0. lia.
    + destruct (tag_bits off (len - 3)) as (_ & _ & Hlow & Hall); [lia..|]. fold high in Hlow, Hall.
      pose proof (payload_at pre _ _ 0 _ Hpay eq_refl) as H0. pose proof (payload_at pre _ _ 1 _ Hpay eq_refl) as H1.
      change (Z.of_nat 0) with 0 in H0. change (Z.of_nat 1) with 1 in H1.
      rewrite Z.add_0_r in H0. rewrite H0. runs. rewrite H1. runs. rewrite Hlow, Hall.
      replace (len - 3 + 3) with len by lia. rewrite (proj2 (Z.eqb_neq len 18)) by lia. runs.
      rewrite (proj2 (Z.ltb_ge _ _)), He, <- Hel by lia. runs. exact Hnext.
Qed.

(** One group in front of the rest [post] of the data. *)
Lemma decompress_group fuel pre g post dest e :
  payload = pre ++ group_bytes g ++ post -> (length g <= 8)%nat -> (length g = 8%nat \/ post = []) -> g <> [] ->
  Forall token_ok g -> expand dest g = Done e -> zlen e <= rawsize ->
  decompress_loop payload rawsize (S fuel) (zlen pre) (zlen dest) dest =
    decompress_loop payload rawsize fuel (zlen (pre ++ group_bytes g)) (zlen e) e.
Proof.
  intros Hpay Hg Hpost Hne Hok Hexp He. pose proof (expand_len _ _ _ Hok Hexp) as Hlt.
  assert (0 < length g)%nat by (destruct g; [done|cbn; lia]). cbn [decompress_loop].
  assert (Hctrl : zlookup payload (zlen pre) = Some (control g)).
  { rewrite <- (Z.add_0_r (zlen pre)). exact (payload_at pre (group_bytes g) post 0 _ Hpay eq_refl). }
  rewrite (proj2 (Z.ltb_lt (zlen pre) _)) by (apply zlookup_range in Hctrl; lia).
  rewrite (proj2 (Z.ltb_lt (zlen dest) _)) by lia. cbn [andb]. rewrite Hctrl. runs.
  pose proof (items_loop_spec 8 g (pre ++ [control g]) post dest e) as Hitems.
  rewrite zlen_app, zlen_cons in Hitems. change (zlen (@nil Z)) with 0 in Hitems. rewrite Z.add_0_r in Hitems.
  rewrite Hitems; [|rewrite <- app_assoc; exact Hpay|done|intros; destruct Hpost; [lia|done]|done..]. runs.
  unfold group_bytes. rewrite zlen_app, zlen_cons. f_equal. lia.
Qed.

Lemma decompress_loop_spec fuel gs cur pre dest d :
  payload = pre ++ encode (gs ++ [cur]) -> full gs -> (length cur <= 8)%nat -> cur <> [] ->
  Forall token_ok (concat gs ++ cur) -> expand dest (concat gs ++ cur) = Done d -> zlen d = rawsize ->
  (length gs < fuel)%nat ->
  decompress_loop payload rawsize fuel (zlen pre) (zlen dest) dest = Done (zlen payload, rawsize, d).
Proof.
  revert fuel pre dest. induction gs as [|g gs IH]; intros fuel pre dest Hpay Hfull Hcur Hne Hok Hexp Hd Hf;
    (destruct fuel as [|fuel]; [lia|]); cbn [app] in Hpay; rewrite encode_cons in Hpay; cbn [concat app] in Hok, Hexp.
  - rewrite (decompress_group fuel pre cur (encode []) dest d); try done; [|by right|lia].
    cbn [encode fmap list_fmap concat] in Hpay. rewrite app_nil_r in Hpay. rewrite <- Hpay.
    destruct fuel; cbn [decompress_loop]; rewrite Z.ltb_irrefl; cbn; by rewrite Hd.
  - apply Forall_cons_1 in Hfull as [Hg Hfull]. rewrite <- app_assoc in Hok, Hexp. rewrite expand_app in Hexp.
    apply Forall_app in Hok as [Hgok Hok]. destruct (expand dest g) as [e|c|] eqn:He; [|done..]. cbn [mbind run_bind] in Hexp.
    pose proof (expand_len _ _ _ Hok Hexp) as Hlt.
    rewrite (decompress_group fuel pre g (encode (gs ++ [cur])) dest e); try done; [|lia|by left|by destruct g|lia].
    apply IH; [by rewrite <- app_assoc|done..|cbn in Hf; lia].
Qed.
End Decompress.

(** ** The theorems *)

Lemma max_result_le slen need_rate :
  0 <= slen <= INT_MAX -> 0 <= need_rate <= 99 -> max_result slen need_rate <= slen.
Proof.
  unfold INT_MAX, max_result. intros Hs Hn. change (Z.quot INT_MAX 100) with 21474836.
  destruct (Z.ltb_spec 21474836 slen).
  - assert (0 <= Z.quot slen 100 * 100 <= slen) by zdiv_lia.
    rewrite sN_small by (unfold in_s; nia || lia). nia.
  - rewrite sN_small by (unfold in_s; nia). apply Z.quot_le_upper_bound; nia.
Qed.

Lemma clamp_range lo hi x : lo <= hi -> lo <= clamp lo hi x <= hi.
Proof. unfold clamp. intros. bool_cases; lia. Qed.

(** C33 Round trip: on any source of bytes, whatever the strategy and whatever
    earlier calls left in the history, [pglz_compress] ends without leaving
    its buffers; if it succeeds the result is shorter than the source, and
    [pglz_decompress] gives the source back. *)
Theorem pglz_roundtrip char_signed source entries strategy :
  Forall (in_u 8) source -> zlen source <= INT_MAX -> zlen entries = PGLZ_HISTORY_SIZE ->
  exists r,
    pglz_compress char_signed source entries strategy = Done r /\
    match r with
    | Some payload => zlen payload < zlen source /\ pglz_decompress payload (zlen source) = Done source
    | None => True
    end.
Proof.
  intros Hbytes Hsize Hentries. unfold pglz_compress.
  set (st := match strategy with Some s => s | None => strategy_default_data end).
  destruct (_ || _ || _); [by exists None|]. set (rmax := max_result (zlen source) (clamp 0 99 (min_comp_rate st))).
  assert (Hmax : rmax <= zlen source).
  { apply max_result_le; [pose proof (zlen_nonneg source); lia|by apply clamp_range]. }
  destruct (compress_loop_spec char_signed source Hbytes (length source) (clamp 17 PGLZ_MAX_MATCH (match_size_good st))
    (clamp 0 100 (match_size_drop st)) (first_success_by st) rmax
    (MkHistory (replicate (Z.to_nat PGLZ_HISTORY_LISTS) None) entries 0 false) (MkOutput [] None 0 0) false 0)
    as (r & -> & Hr).
  { by apply history_initial. }
  { exists [], []. split_and!; [by left|constructor|done]. }
  { pose proof (zlen_nonneg source). lia. }
  { unfold zlen. lia. }
  { done. }
  runs. destruct r as [o|]; [|by exists None]. destruct Hr as (gs & cur & Hrep & Hok & Hexp).
  rewrite take_ge in Hexp by (unfold zlen; lia). destruct Hrep as [(-> & -> & ->)|(Hne & Hopen)].
  - cbn in Hexp. injection Hexp as <-. cbn [store_ctrl ctrlp]. runs. cbn [out].
    eexists. split; [done|]. destruct (Z.leb_spec rmax (zlen (@nil Z))) as [|Hlt]; [done|]. change (zlen (@nil Z)) with 0 in *. lia.
  - destruct (store_ctrl_spec o gs cur Hopen) as [-> Hz]. destruct Hopen as (Hfull & Hcur & _). runs. cbn [out].
    eexists. split; [done|]. destruct (Z.leb_spec rmax (zlen (encode (gs ++ [cur])))); [done|]. split; [lia|].
    unfold pglz_decompress.
    assert (Hlen : (length gs < length (encode (gs ++ [cur])))%nat).
    { clear. induction gs as [|g gs IH]; cbn [app]; rewrite encode_cons, length_app; cbn [group_bytes length]; lia. }
    pose proof (decompress_loop_spec (encode (gs ++ [cur])) (zlen source) _ gs cur [] [] source eq_refl Hfull Hcur Hne Hok Hexp eq_refl Hlen) as Hrun.
    change (zlen (@nil Z)) with 0 in Hrun. rewrite Hrun. runs. by rewrite !Z.eqb_refl.
Qed.

(** The history: when the positions before [dp] have been added one after
    the other to an empty history, the list of every hash holds exactly the
    positions among the last 4096 with that hash, the latest first; the links
    never leave the arrays. *)
Theorem pglz_history_correct char_signed source entries dp k :
  zlen entries = PGLZ_HISTORY_SIZE -> 0 <= dp <= zlen source -> 0 <= k < PGLZ_HISTORY_LISTS ->
  exists h first,
    add_matched char_signed source (Z.to_nat dp) (MkHistory (replicate (Z.to_nat PGLZ_HISTORY_LISTS) None) entries 0 false) 0
      = Done (h, dp) /\
    zlookup (hist_start h) k = Some first /\
    walk (Z.to_nat PGLZ_HISTORY_SIZE) h first =
      Done (positions char_signed source k (Z.max 0 (dp - PGLZ_HISTORY_SIZE)) (Z.to_nat (Z.min dp PGLZ_HISTORY_SIZE))).
Proof.
  intros Hent Hdp Hk.
  destruct (add_matched_spec char_signed source (Z.to_nat dp) _ 0 (history_initial char_signed source entries Hent))
    as (h & Hrun & (H & _)); [lia|lia|]. rewrite Z.add_0_l, Z2Nat.id in * by lia.
  destruct (holds_start _ _ _ _ H k Hk) as (o & Ho & Hlast). exists h, (slot <$> o). split_and!; [done|done|].
  assert (Hfuel : Z.of_nat (Z.to_nat PGLZ_HISTORY_SIZE) = PGLZ_HISTORY_SIZE) by (apply Z2Nat.id; done).
  revert Hfuel. generalize (Z.to_nat PGLZ_HISTORY_SIZE). intros fuel Hfuel.
  rewrite (walk_spec _ _ _ _ _ _ _ _ H Hlast).
  - do 2 f_equal. lia.
  - rewrite Hfuel. unfold PGLZ_HISTORY_SIZE in *. destruct o as [q|]; [cbn in Hlast|]; lia.
Qed.

Lemma first_tag_outside n ctl b0 b1 rest rawsize :
  Z.odd ctl = true -> 0 <= Z.land b0 0x0f -> Z.land b0 0x0f <> 15 -> Z.land b0 0x0f + 3 <= rawsize ->
  items_loop (ctl :: b0 :: b1 :: rest) rawsize (S n) ctl 1 0 [] = Outside.
Proof.
  intros Hodd Hl Hlow Hraw. cbn [items_loop]. rewrite !zlen_cons. pose proof (zlen_nonneg rest).
  rewrite (proj2 (Z.ltb_lt 1 _)) by lia.
  assert (Hbit : Z.land ctl 1 = 1).
  { change 1 with (Z.ones 1) at 1. rewrite Z.land_ones by lia. change (2 ^ 1) with 2. by rewrite Zmod_odd, Hodd. }
  rewrite Hbit. cbn [Z.eqb negb]. change (zlookup (ctl :: b0 :: b1 :: rest) 1) with (Some b0).
  change (zlookup (ctl :: b0 :: b1 :: rest) (1 + 1)) with (Some b1). runs.
  rewrite (proj2 (Z.eqb_neq _ 18)) by lia. runs. rewrite (proj2 (Z.ltb_ge _ _)) by lia.
  replace (Z.to_nat (Z.land b0 15 + 3)) with (S (Z.to_nat (Z.land b0 15 + 2))) by lia. cbn [copy_bytes].
  assert (zlookup (@nil Z) (zlen (@nil Z) - Z.lor (Z.shiftl (Z.land b0 240) 4) b1) = None) as ->; [|done].
  unfold zlookup. destruct (0 <=? _); [|done]. apply lookup_nil.
Qed.

(** On a corrupt input [pglz_decompress] trusts the tags: when the first
    item is a reference back, whatever the offset, it reads before the output
    buffer (only an assertion of debug builds looks at the offset). *)
Theorem pglz_decompress_trusts_tags ctl b0 b1 rest rawsize :
  Z.odd ctl = true -> in_u 8 b0 -> Z.land b0 0x0f <> 15 -> Z.land b0 0x0f + 3 <= rawsize ->
  pglz_decompress (ctl :: b0 :: b1 :: rest) rawsize = Outside.
Proof.
  intros Hodd Hb0 Hlow Hraw. assert (Hl : 0 <= Z.land b0 0x0f) by (apply Z.land_nonneg; right; lia).
  unfold pglz_decompress. cbn [length decompress_loop]. rewrite !zlen_cons. pose proof (zlen_nonneg rest).
  rewrite !(proj2 (Z.ltb_lt _ _)) by lia. cbn [andb].
  change (zlookup (ctl :: b0 :: b1 :: rest) 0) with (Some ctl). runs. change (0 + 1) with 1.
  by rewrite (first_tag_outside 7).
Qed.

(** ** Runs *)

Module Runs.
Definition entry0 : PGLZ_HistEntry := MkHist None None 0 0.
Definition entries0 : list PGLZ_HistEntry := replicate 4096 entry0.
Definition text : list Z := concat (replicate 10 [97; 98; 99; 100; 101; 102]) ++ [1; 2; 3].

Lemma entries0_len : zlen entries0 = PGLZ_HISTORY_SIZE.
Proof. unfold entries0, zlen. by rewrite length_replicate. Qed.

Example text_compressed :
  pglz_compress true text entries0 None = Done (Some [64; 97; 98; 99; 100; 101; 102; 15; 6; 36; 1; 0; 2; 3]).
Proof. vm_compute. reflexivity. Qed.
End Runs.

Lemma pglz_roundtrip_witness :
  exists payload, pglz_compress true Runs.text Runs.entries0 None = Done (Some payload) /\
    zlen payload = 14 /\ pglz_decompress payload 63 = Done Runs.text.
Proof.
  destruct (pglz_roundtrip true Runs.text Runs.entries0 None) as (r & Hrun & Hr);
    [repeat constructor; vm_compute; congruence|vm_compute; congruence|exact Runs.entries0_len|].
  rewrite Runs.text_compressed in Hrun. injection Hrun as <-.
  eexists. split; [exact Runs.text_compressed|]. split; [reflexivity|]. destruct Hr as [_ Hr]. exact Hr.
Defined.

Lemma pglz_history_correct_witness :
  exists h first, add_matched true Runs.text 9 (MkHistory (replicate (Z.to_nat PGLZ_HISTORY_LISTS) None) Runs.entries0 0 false) 0 = Done (h, 9) /\
    walk (Z.to_nat PGLZ_HISTORY_SIZE) h first = Done [7; 1].
Proof.
  destruct (pglz_history_correct true Runs.text Runs.entries0 9 (hash true Runs.text 1)) as (h & first & Hrun & _ & Hwalk);
    [exact Runs.entries0_len|vm_compute; split; congruence|vm_compute; split; congruence|].
  exists h, first. split; [exact Hrun|]. rewrite Hwalk. vm_compute. reflexivity.
Defined.

Lemma pglz_decompress_trusts_tags_witness : pglz_decompress [1; 0; 5] 3 = Outside.
Proof. apply (pglz_decompress_trusts_tags 1 0 5 [] 3); vm_compute; repeat split; congruence. Defined.
