(* ===== verification/BitUtils.v ===== *)
(** Bit-twiddling: [src/src/common/port/pg_bitutils.cpp] and
    [src/src/include/port/pg_bitutils.h], in the portable variants (without the
    compiler builtins and the POPCNT instruction).

    The tables are copied from the source; a loop that shifts a word by a byte
    has fuel for the bytes of the word.  The specifications are [ones], the
    number of one-bits, and [lowest_bit]. *)
From S2P Require Import Prelude.

(** ** Tables *)

Definition pg_leftmost_one_pos : list Z :=
  [0; 0; 1; 1; 2; 2; 2; 2; 3; 3; 3; 3; 3; 3; 3; 3;
   4; 4; 4; 4; 4; 4; 4; 4; 4; 4; 4; 4; 4; 4; 4; 4;
   5; 5; 5; 5; 5; 5; 5; 5; 5; 5; 5; 5; 5; 5; 5; 5;
   5; 5; 5; 5; 5; 5; 5; 5; 5; 5; 5; 5; 5; 5; 5; 5;
   6; 6; 6; 6; 6; 6; 6; 6; 6; 6; 6; 6; 6; 6; 6; 6;
   6; 6; 6; 6; 6; 6; 6; 6; 6; 6; 6; 6; 6; 6; 6; 6;
   6; 6; 6; 6; 6; 6; 6; 6; 6; 6; 6; 6; 6; 6; 6; 6;
   6; 6; 6; 6; 6; 6; 6; 6; 6; 6; 6; 6; 6; 6; 6; 6;
   7; 7; 7; 7; 7; 7; 7; 7; 7; 7; 7; 7; 7; 7; 7; 7;
   7; 7; 7; 7; 7; 7; 7; 7; 7; 7; 7; 7; 7; 7; 7; 7;
   7; 7; 7; 7; 7; 7; 7; 7; 7; 7; 7; 7; 7; 7; 7; 7;
   7; 7; 7; 7; 7; 7; 7; 7; 7; 7; 7; 7; 7; 7; 7; 7;
   7; 7; 7; 7; 7; 7; 7; 7; 7; 7; 7; 7; 7; 7; 7; 7;
   7; 7; 7; 7; 7; 7; 7; 7; 7; 7; 7; 7; 7; 7; 7; 7;
   7; 7; 7; 7; 7; 7; 7; 7; 7; 7; 7; 7; 7; 7; 7; 7;
   7; 7; 7; 7; 7; 7; 7; 7; 7; 7; 7; 7; 7; 7; 7; 7].

Definition pg_rightmost_one_pos : list Z :=
  [0; 0; 1; 0; 2; 0; 1; 0; 3; 0; 1; 0; 2; 0; 1; 0;
   4; 0; 1; 0; 2; 0; 1; 0; 3; 0; 1; 0; 2; 0; 1; 0;
   5; 0; 1; 0; 2; 0; 1; 0; 3; 0; 1; 0; 2; 0; 1; 0;
   4; 0; 1; 0; 2; 0; 1; 0; 3; 0; 1; 0; 2; 0; 1; 0;
   6; 0; 1; 0; 2; 0; 1; 0; 3; 0; 1; 0; 2; 0; 1; 0;
   4; 0; 1; 0; 2; 0; 1; 0; 3; 0; 1; 0; 2; 0; 1; 0;
   5; 0; 1; 0; 2; 0; 1; 0; 3; 0; 1; 0; 2; 0; 1; 0;
   4; 0; 1; 0; 2; 0; 1; 0; 3; 0; 1; 0; 2; 0; 1; 0;
   7; 0; 1; 0; 2; 0; 1; 0; 3; 0; 1; 0; 2; 0; 1; 0;
   4; 0; 1; 0; 2; 0; 1; 0; 3; 0; 1; 0; 2; 0; 1; 0;
   5; 0; 1; 0; 2; 0; 1; 0; 3; 0; 1; 0; 2; 0; 1; 0;
   4; 0; 1; 0; 2; 0; 1; 0; 3; 0; 1; 0; 2; 0; 1; 0;
   6; 0; 1; 0; 2; 0; 1; 0; 3; 0; 1; 0; 2; 0; 1; 0;
   4; 0; 1; 0; 2; 0; 1; 0; 3; 0; 1; 0; 2; 0; 1; 0;
   5; 0; 1; 0; 2; 0; 1; 0; 3; 0; 1; 0; 2; 0; 1; 0;
   4; 0; 1; 0; 2; 0; 1; 0; 3; 0; 1; 0; 2; 0; 1; 0].

Definition pg_number_of_ones : list Z :=
  [0; 1; 1; 2; 1; 2; 2; 3; 1; 2; 2; 3; 2; 3; 3; 4;
   1; 2; 2; 3; 2; 3; 3; 4; 2; 3; 3; 4; 3; 4; 4; 5;
   1; 2; 2; 3; 2; 3; 3; 4; 2; 3; 3; 4; 3; 4; 4; 5;
   2; 3; 3; 4; 3; 4; 4; 5; 3; 4; 4; 5; 4; 5; 5; 6;
   1; 2; 2; 3; 2; 3; 3; 4; 2; 3; 3; 4; 3; 4; 4; 5;
   2; 3; 3; 4; 3; 4; 4; 5; 3; 4; 4; 5; 4; 5; 5; 6;
   2; 3; 3; 4; 3; 4; 4; 5; 3; 4; 4; 5; 4; 5; 5; 6;
   3; 4; 4; 5; 4; 5; 5; 6; 4; 5; 5; 6; 5; 6; 6; 7;
   1; 2; 2; 3; 2; 3; 3; 4; 2; 3; 3; 4; 3; 4; 4; 5;
   2; 3; 3; 4; 3; 4; 4; 5; 3; 4; 4; 5; 4; 5; 5; 6;
   2; 3; 3; 4; 3; 4; 4; 5; 3; 4; 4; 5; 4; 5; 5; 6;
   3; 4; 4; 5; 4; 5; 5; 6; 4; 5; 5; 6; 5; 6; 6; 7;
   2; 3; 3; 4; 3; 4; 4; 5; 3; 4; 4; 5; 4; 5; 5; 6;
   3; 4; 4; 5; 4; 5; 5; 6; 4; 5; 5; 6; 5; 6; 6; 7;
   3; 4; 4; 5; 4; 5; 5; 6; 4; 5; 5; 6; 5; 6; 6; 7;
   4; 5; 5; 6; 5; 6; 6; 7; 5; 6; 6; 7; 6; 7; 7; 8].

(** ** Operations *)

(** [while ((word >> shift) == 0) shift -= 8;] of a word whose highest byte
    starts at [shift]. *)
Fixpoint leftmost_loop (fuel : nat) (word shift : Z) : option Z :=
  match fuel with
  | O => None
  | S fuel' =>
      if Z.shiftr word shift =? 0 then leftmost_loop fuel' word (shift - 8)
      else
        pos ← zlookup pg_leftmost_one_pos (Z.land (Z.shiftr word shift) 255);
        Some (shift + pos)
  end.

Definition pg_leftmost_one_pos32 (word : Z) : option Z := leftmost_loop 4 word (32 - 8).
Definition pg_leftmost_one_pos64 (word : Z) : option Z := leftmost_loop 8 word (64 - 8).

Fixpoint rightmost_loop (fuel : nat) (word result : Z) : option Z :=
  match fuel with
  | O => None
  | S fuel' =>
      if Z.land word 255 =? 0 then rightmost_loop fuel' (Z.shiftr word 8) (result + 8)
      else
        pos ← zlookup pg_rightmost_one_pos (Z.land word 255);
        Some (result + pos)
  end.

Definition pg_rightmost_one_pos32 (word : Z) : option Z := rightmost_loop 4 word 0.
Definition pg_rightmost_one_pos64 (word : Z) : option Z := rightmost_loop 8 word 0.

Definition pg_nextpower2_64 (num : Z) : option Z :=
  if Z.land num (num - 1) =? 0 then Some num
  else
    pos ← pg_leftmost_one_pos64 num;
    Some (u64 (Z.shiftl 1 (pos + 1))).

Fixpoint popcount_loop (fuel : nat) (word result : Z) : option Z :=
  if word =? 0 then Some result
  else match fuel with
  | O => None
  | S fuel' =>
      n ← zlookup pg_number_of_ones (Z.land word 255);
      popcount_loop fuel' (Z.shiftr word 8) (result + n)
  end.

Definition pg_popcount32_slow (word : Z) : option Z := popcount_loop 4 word 0.
Definition pg_popcount64_slow (word : Z) : option Z := popcount_loop 8 word 0.

(** The 64-bit load [*words] on a little-endian machine. *)
Fixpoint load_word (bytes : list Z) : Z :=
  match bytes with
  | [] => 0
  | b :: bytes' => b + 256 * load_word bytes'
  end.

(** [while (bytes >= 8)]. *)
Fixpoint popcount_words (fuel : nat) (buf : list Z) (popcnt : Z) : option (list Z * Z) :=
  match fuel with
  | O => None
  | S fuel' =>
      if 8 <=? zlen buf then
        n ← pg_popcount64_slow (load_word (take 8 buf));
        popcount_words fuel' (drop 8 buf) (popcnt + n)
      else Some (buf, popcnt)
  end.

(** [while (bytes--)]. *)
Fixpoint popcount_bytes (buf : list Z) (popcnt : Z) : option Z :=
  match buf with
  | [] => Some popcnt
  | b :: buf' => n ← zlookup pg_number_of_ones b; popcount_bytes buf' (popcnt + n)
  end.

(** [aligned]: the address of the buffer is a multiple of 8. *)
Definition pg_popcount (aligned : bool) (buf : list Z) : option Z :=
  '(buf, popcnt) ← (if aligned then popcount_words (S (length buf)) buf 0 else Some (buf, 0));
  popcount_bytes buf popcnt.

Definition pg_rotate_right32 (word n : Z) : Z :=
  Z.lor (Z.shiftr word n) (u32 (Z.shiftl word (32 - n))).

(** ** Specifications *)

(** The number of one-bits among the [n] lowest bits. *)
Fixpoint ones (n : nat) (w : Z) : Z :=
  match n with O => 0 | S n' => Z.b2z (Z.odd w) + ones n' (Z.div2 w) end.

(** [r] is the position of the lowest one-bit. *)
Definition lowest_bit (w r : Z) : Prop :=
  0 <= r /\ Z.testbit w r = true /\ forall i, 0 <= i < r -> Z.testbit w i = false.

(** ** Facts *)

Definition check_bytes (P : Z -> bool) : bool := forallb (fun k => P (Z.of_nat k)) (seq 0 256).

Lemma check_bytes_spec P : check_bytes P = true -> forall b, in_u 8 b -> P b = true.
Proof.
  unfold check_bytes. rewrite forallb_forall. intros H b Hb. unfold in_u in Hb.
  rewrite <- (Z2Nat.id b) by lia. apply H, in_seq. lia.
Qed.

Lemma table_ones b : in_u 8 b -> zlookup pg_number_of_ones b = Some (ones 8 b).
Proof.
  intros Hb. apply (check_bytes_spec (fun b => bool_decide (zlookup pg_number_of_ones b = Some (ones 8 b)))) in Hb.
  - by apply bool_decide_eq_true in Hb.
  - by vm_compute.
Qed.

Lemma table_leftmost b : in_u 8 b -> b <> 0 -> zlookup pg_leftmost_one_pos b = Some (Z.log2 b).
Proof.
  intros Hb Hne. apply (check_bytes_spec (fun b => bool_decide (b <> 0 -> zlookup pg_leftmost_one_pos b = Some (Z.log2 b)))) in Hb.
  - apply bool_decide_eq_true in Hb. auto.
  - by vm_compute.
Qed.

Definition lowest_bitb (w r : Z) : bool :=
  (0 <=? r) && Z.testbit w r && (Z.land w (2 ^ r - 1) =? 0).

Lemma lowest_bitb_spec w r : lowest_bitb w r = true -> lowest_bit w r.
Proof.
  unfold lowest_bitb. intros [[Hr Ht]%andb_true_iff Hl]%andb_true_iff.
  apply Z.leb_le in Hr. apply Z.eqb_eq in Hl. split; [done|]. split; [done|]. intros i Hi.
  assert (E : Z.testbit (Z.land w (2 ^ r - 1)) i = false) by (rewrite Hl; apply Z.bits_0).
  rewrite Z.land_spec in E. replace (2 ^ r - 1) with (Z.ones r) in E by (rewrite Z.ones_equiv; lia).
  rewrite Z.ones_spec_low, andb_true_r in E by lia. done.
Qed.

Lemma lowest_bit_unique w r r' : lowest_bit w r -> lowest_bit w r' -> r = r'.
Proof.
  intros (H0 & H1 & H2) (H0' & H1' & H2'). destruct (Z.lt_total r r') as [Hl|[|Hl]]; [|done|].
  - rewrite H2' in H1 by lia. done.
  - rewrite H2 in H1' by lia. done.
Qed.

Lemma table_rightmost b : in_u 8 b -> b <> 0 ->
  exists r, zlookup pg_rightmost_one_pos b = Some r /\ lowest_bit b r /\ r < 8.
Proof.
  intros Hb Hne. apply (check_bytes_spec (fun b => (b =? 0) ||
    match zlookup pg_rightmost_one_pos b with Some r => lowest_bitb b r && (r <? 8) | None => false end)) in Hb.
  - destruct (Z.eqb_spec b 0); [done|]. cbn [orb] in Hb.
    destruct (zlookup pg_rightmost_one_pos b) as [r|]; [|done].
    apply andb_true_iff in Hb as [Hl Hr]. exists r. split; [done|]. split; [by apply lowest_bitb_spec|lia].
  - by vm_compute.
Qed.

Lemma land_255 w : Z.land w 255 = w mod 256.
Proof. change 255 with (Z.ones 8). by rewrite Z.land_ones. Qed.

Lemma byte_range w : in_u 8 (Z.land w 255).
Proof. rewrite land_255. apply Z.mod_pos_bound. lia. Qed.

Lemma ones_0 n : ones n 0 = 0.
Proof. induction n as [|n IH]; [done|]. cbn [ones]. change (Z.div2 0) with 0. rewrite IH. done. Qed.

Lemma ones_range n w : 0 <= ones n w <= Z.of_nat n.
Proof.
  revert w. induction n as [|n IH]; intros w; cbn [ones]; [lia|].
  specialize (IH (Z.div2 w)). destruct (Z.odd w); simpl Z.b2z; lia.
Qed.

Lemma ones_add n m w : ones (n + m) w = ones n w + ones m (Z.shiftr w (Z.of_nat n)).
Proof.
  revert w. induction n as [|n IH]; intros w; cbn [ones Nat.add].
  - change (Z.of_nat 0) with 0. by rewrite Z.shiftr_0_r.
  - rewrite IH, Z.div2_spec, Z.shiftr_shiftr by lia.
    replace (1 + Z.of_nat n) with (Z.of_nat (S n)) by lia. lia.
Qed.

(** [ones] looks at the low bits only. *)
Lemma ones_ext n w w' :
  (forall i, 0 <= i < Z.of_nat n -> Z.testbit w i = Z.testbit w' i) -> ones n w = ones n w'.
Proof.
  revert w w'. induction n as [|n IH]; intros w w' H; cbn [ones]; [done|].
  rewrite <- !Z.bit0_odd, H by lia. f_equal. apply IH. intros i Hi.
  rewrite !Z.div2_spec, !Z.shiftr_spec by lia. apply H. lia.
Qed.

Lemma ones_byte w : ones 8 (Z.land w 255) = ones 8 w.
Proof.
  apply ones_ext. intros i Hi. rewrite Z.land_spec. change 255 with (Z.ones 8).
  rewrite Z.ones_spec_low by lia. apply andb_true_r.
Qed.

Lemma shiftr_byte_range n w : 0 <= w < 2 ^ (8 * Z.of_nat (S n)) -> 0 <= Z.shiftr w 8 < 2 ^ (8 * Z.of_nat n).
Proof.
  intros Hw. rewrite Z.shiftr_div_pow2 by lia. change (2 ^ 8) with 256.
  replace (8 * Z.of_nat (S n)) with (8 + 8 * Z.of_nat n) in Hw by lia.
  rewrite Z.pow_add_r in Hw by lia. change (2 ^ 8) with 256 in Hw.
  split; [apply Z.div_pos|apply Z.div_lt_upper_bound]; lia.
Qed.

Lemma popcount_loop_spec fuel w r :
  0 <= w < 2 ^ (8 * Z.of_nat fuel) -> popcount_loop fuel w r = Some (r + ones (8 * fuel) w).
Proof.
  revert w r. induction fuel as [|fuel IH]; intros w r Hw.
  - change (2 ^ (8 * Z.of_nat 0)) with 1 in Hw. assert (w = 0) as -> by lia. simpl. f_equal. lia.
  - cbn [popcount_loop]. destruct (Z.eqb_spec w 0) as [->|Hne]; [rewrite ones_0; f_equal; lia|].
    rewrite (table_ones _ (byte_range w)). sbind.
    rewrite IH by (by apply shiftr_byte_range). f_equal.
    replace (8 * S fuel)%nat with (8 + 8 * fuel)%nat by lia. rewrite ones_add.
    change (Z.of_nat 8) with 8. rewrite ones_byte. lia.
Qed.

Lemma popcount32_spec w : in_u 32 w -> pg_popcount32_slow w = Some (ones 32 w).
Proof.
  intros Hw. pose proof (popcount_loop_spec 4 w 0) as H.
  change (8 * Z.of_nat 4) with 32 in H. change (8 * 4)%nat with 32%nat in H.
  rewrite Z.add_0_l in H. by apply H.
Qed.

Lemma popcount64_spec w : in_u 64 w -> pg_popcount64_slow w = Some (ones 64 w).
Proof.
  intros Hw. pose proof (popcount_loop_spec 8 w 0) as H.
  change (8 * Z.of_nat 8) with 64 in H. change (8 * 8)%nat with 64%nat in H.
  rewrite Z.add_0_l in H. by apply H.
Qed.

Lemma rightmost_loop_spec fuel w r :
  0 < w < 2 ^ (8 * Z.of_nat fuel) ->
  exists k, rightmost_loop fuel w r = Some (r + k) /\ lowest_bit w k /\ k < 8 * Z.of_nat fuel.
Proof.
  revert w r. induction fuel as [|fuel IH]; intros w r Hw.
  { change (2 ^ (8 * Z.of_nat 0)) with 1 in Hw. lia. }
  cbn [rightmost_loop]. destruct (Z.eqb_spec (Z.land w 255) 0) as [Hz|Hnz].
  - destruct (shiftr_byte_range fuel w ltac:(lia)) as [H0 H1].
    assert (Hbits : forall i, 0 <= i < 8 -> Z.testbit w i = false).
    { intros i Hi. assert (E : Z.testbit (Z.land w 255) i = false) by (rewrite Hz; apply Z.bits_0).
      rewrite Z.land_spec in E. change 255 with (Z.ones 8) in E.
      rewrite Z.ones_spec_low, andb_true_r in E by lia. done. }
    assert (Hne : Z.shiftr w 8 <> 0).
    { intros E. apply Z.shiftr_eq_0_iff in E. rewrite land_255 in Hz.
      destruct E as [|[_ Hlog]]; [lia|]. apply Z.log2_lt_pow2 in Hlog; [|lia].
      rewrite Z.mod_small in Hz by lia. lia. }
    destruct (IH (Z.shiftr w 8) (r + 8)) as (k & -> & (Hk0 & Hk1 & Hk2) & Hk); [lia|].
    exists (8 + k). split; [f_equal; lia|]. split; [|lia]. split; [lia|]. split.
    + rewrite Z.shiftr_spec in Hk1 by lia. by rewrite Z.add_comm.
    + intros i Hi. destruct (Z_lt_ge_dec i 8); [apply Hbits; lia|].
      specialize (Hk2 (i - 8) ltac:(lia)). rewrite Z.shiftr_spec in Hk2 by lia.
      by replace (i - 8 + 8) with i in Hk2 by lia.
  - destruct (table_rightmost _ (byte_range w) Hnz) as (k & -> & (Hk0 & Hk1 & Hk2) & Hk). sbind.
    exists k. split; [done|]. split; [|lia].
    assert (Hb : forall i, 0 <= i < 8 -> Z.testbit (Z.land w 255) i = Z.testbit w i).
    { intros i Hi. rewrite Z.land_spec. change 255 with (Z.ones 8).
      rewrite Z.ones_spec_low by lia. apply andb_true_r. }
    split; [done|]. split; [by rewrite <- Hb by lia|]. intros i Hi. rewrite <- Hb by lia. auto.
Qed.

Lemma rightmost32_spec w : in_u 32 w -> w <> 0 ->
  exists k, pg_rightmost_one_pos32 w = Some k /\ lowest_bit w k /\ k < 32.
Proof.
  intros Hw Hne. unfold in_u in Hw. apply (rightmost_loop_spec 4 w 0). change (8 * Z.of_nat 4) with 32. lia.
Qed.

Lemma leftmost_loop_spec fuel w :
  0 < w < 2 ^ (8 * Z.of_nat fuel) -> leftmost_loop fuel w (8 * Z.of_nat fuel - 8) = Some (Z.log2 w).
Proof.
  intros Hw. induction fuel as [|fuel IH].
  { change (2 ^ (8 * Z.of_nat 0)) with 1 in Hw. lia. }
  cbn [leftmost_loop]. replace (8 * Z.of_nat (S fuel) - 8) with (8 * Z.of_nat fuel) by lia.
  replace (8 * Z.of_nat (S fuel)) with (8 + 8 * Z.of_nat fuel) in Hw by lia.
  set (sh := 8 * Z.of_nat fuel) in *. rewrite Z.pow_add_r in Hw by lia.
  assert (Hp : 0 < 2 ^ sh) by (apply Z.pow_pos_nonneg; lia).
  pose proof (Z.shiftr_div_pow2 w sh ltac:(lia)) as Hd.
  destruct (Z.eqb_spec (Z.shiftr w sh) 0) as [Hz|Hnz].
  - apply IH. rewrite Hd in Hz. apply Z.div_small_iff in Hz; lia.
  - assert (Hb : 0 < Z.shiftr w sh < 256).
    { rewrite Hd in *. split; [|apply Z.div_lt_upper_bound; lia].
      assert (0 <= w / 2 ^ sh) by (apply Z.div_pos; lia). lia. }
    rewrite land_255, Z.mod_small by lia. rewrite table_leftmost by (unfold in_u; lia). sbind.
    f_equal. rewrite Z.log2_shiftr by lia.
    assert (sh <= Z.log2 w); [|lia].
    apply Z.log2_le_pow2; [lia|]. rewrite Hd in Hb.
    pose proof (Z.mul_div_le w (2 ^ sh) Hp). nia.
Qed.

Lemma leftmost32_spec w : in_u 32 w -> w <> 0 -> pg_leftmost_one_pos32 w = Some (Z.log2 w).
Proof. intros Hw Hne. unfold in_u in Hw. apply (leftmost_loop_spec 4). change (8 * Z.of_nat 4) with 32. lia. Qed.

Lemma leftmost64_spec w : in_u 64 w -> w <> 0 -> pg_leftmost_one_pos64 w = Some (Z.log2 w).
Proof. intros Hw Hne. unfold in_u in Hw. apply (leftmost_loop_spec 8). change (8 * Z.of_nat 8) with 64. lia. Qed.

(** *** The byte buffer *)

Definition bytes_ones (buf : list Z) : Z := foldr (fun b n => ones 8 b + n) 0 buf.

Lemma bytes_ones_app l1 l2 : bytes_ones (l1 ++ l2) = bytes_ones l1 + bytes_ones l2.
Proof.
  induction l1 as [|b l1 IH]; [done|]. cbn [app]. unfold bytes_ones in *. cbn [foldr]. rewrite IH. lia.
Qed.

Lemma load_word_range l : Forall (in_u 8) l -> 0 <= load_word l < 2 ^ (8 * Z.of_nat (length l)).
Proof.
  induction 1 as [|b l Hb _ IH]; [simpl; lia|]. cbn [load_word length].
  replace (8 * Z.of_nat (S (length l))) with (8 + 8 * Z.of_nat (length l)) by lia.
  rewrite Z.pow_add_r by lia. unfold in_u in Hb. lia.
Qed.

Lemma load_word_ones l : Forall (in_u 8) l -> ones (8 * length l) (load_word l) = bytes_ones l.
Proof.
  induction 1 as [|b l Hb Hl IH]; [done|]. cbn [load_word length].
  replace (8 * S (length l))%nat with (8 + 8 * length l)%nat by lia. rewrite ones_add.
  change (Z.of_nat 8) with 8. rewrite Z.shiftr_div_pow2 by lia. change (2 ^ 8) with 256.
  unfold in_u in Hb. change (2 ^ 8) with 256 in Hb.
  replace (b + 256 * load_word l) with (load_word l * 256 + b) by lia.
  rewrite Z.div_add_l, (Z.div_small b), Z.add_0_r, IH by lia.
  assert (Hm : (load_word l * 256 + b) mod 256 = b)
    by (rewrite Z.add_comm, Z.mod_add, Z.mod_small; lia).
  rewrite <- ones_byte, land_255, Hm. done.
Qed.

Lemma popcount_bytes_spec buf n : Forall (in_u 8) buf -> popcount_bytes buf n = Some (n + bytes_ones buf).
Proof.
  intros H. revert n. induction H as [|b buf Hb _ IH]; intros n.
  - simpl. f_equal. lia.
  - cbn [popcount_bytes]. rewrite table_ones by done. sbind. rewrite IH. f_equal.
    unfold bytes_ones. cbn [foldr]. lia.
Qed.

Lemma popcount_words_spec fuel buf n :
  Forall (in_u 8) buf -> (length buf < fuel)%nat ->
  exists buf' n', popcount_words fuel buf n = Some (buf', n') /\ Forall (in_u 8) buf' /\
    n' + bytes_ones buf' = n + bytes_ones buf.
Proof.
  revert buf n. induction fuel as [|fuel IH]; intros buf n Hb Hf; [lia|]. cbn [popcount_words].
  destruct (Z.leb_spec 8 (zlen buf)) as [H8|]; [|by exists buf, n].
  unfold zlen in H8. assert (Hlen : length (take 8 buf) = 8%nat) by (rewrite length_take; lia).
  assert (Ht : Forall (in_u 8) (take 8 buf)) by (by apply Forall_take).
  pose proof (load_word_range _ Ht) as Hr. rewrite Hlen in Hr.
  rewrite popcount64_spec by done. sbind.
  pose proof (load_word_ones _ Ht) as Ho. rewrite Hlen in Ho. change (8 * 8)%nat with 64%nat in Ho.
  destruct (IH (drop 8 buf) (n + ones 64 (load_word (take 8 buf)))) as (buf' & n' & -> & Hb' & He);
    [by apply Forall_drop|rewrite length_drop; lia|].
  exists buf', n'. split; [done|]. split; [done|]. rewrite He, Ho.
  rewrite <- (take_drop 8 buf) at 3. rewrite bytes_ones_app. lia.
Qed.

(** ** Properties *)

(** The bit utilities against their specification, for every word: the
    population counts are the number of one-bits, the leftmost position is
    the binary logarithm, the rightmost position is the lowest one-bit. *)
Theorem pg_bitutils_correct w :
  (in_u 32 w -> pg_popcount32_slow w = Some (ones 32 w)) /\
  (in_u 64 w -> pg_popcount64_slow w = Some (ones 64 w)) /\
  (in_u 32 w -> w <> 0 -> pg_leftmost_one_pos32 w = Some (Z.log2 w)) /\
  (in_u 64 w -> w <> 0 -> pg_leftmost_one_pos64 w = Some (Z.log2 w)) /\
  (in_u 32 w -> w <> 0 -> exists r, pg_rightmost_one_pos32 w = Some r /\ lowest_bit w r) /\
  (in_u 64 w -> w <> 0 -> exists r, pg_rightmost_one_pos64 w = Some r /\ lowest_bit w r).
Proof.
  split_and!.
  - apply popcount32_spec.
  - apply popcount64_spec.
  - apply leftmost32_spec.
  - apply leftmost64_spec.
  - intros Hw Hne. destruct (rightmost32_spec w Hw Hne) as (r & Hr & Hl & _). eauto.
  - intros Hw Hne. unfold in_u in Hw. destruct (rightmost_loop_spec 8 w 0) as (r & Hr & Hl & _);
      [change (8 * Z.of_nat 8) with 64; lia|]. exists r. split; [exact Hr|done].
Qed.

(** [pg_popcount] counts the one-bits of the buffer, whether it takes the
    64-bit loop or not. *)
Theorem pg_popcount_correct aligned buf :
  Forall (in_u 8) buf -> pg_popcount aligned buf = Some (bytes_ones buf).
Proof.
  intros Hb. unfold pg_popcount. destruct aligned; sbind.
  - destruct (popcount_words_spec (S (length buf)) buf 0 Hb) as (buf' & n' & -> & Hb' & He); [lia|].
    sbind. rewrite popcount_bytes_spec by done. f_equal. lia.
  - by rewrite popcount_bytes_spec by done.
Qed.

(** [pg_nextpower2_64] on the range its assertion allows returns the
    smallest power of two that is not below its argument. *)
Theorem pg_nextpower2_64_correct num :
  0 < num <= 2 ^ 63 ->
  exists k, pg_nextpower2_64 num = Some (2 ^ k) /\ num <= 2 ^ k /\ 0 <= k <= 63 /\
    forall j, 0 <= j -> num <= 2 ^ j -> k <= j.
Proof.
  intros Hn. unfold pg_nextpower2_64.
  pose proof (Z.log2_spec num ltac:(lia)) as [Hlo Hhi]. pose proof (Z.log2_nonneg num) as Hnn.
  rewrite Z.pow_succ_r in Hhi by lia.
  assert (H63 : Z.log2 num <= 63) by (change 63 with (Z.log2 (2 ^ 63)); apply Z.log2_le_mono; lia).
  destruct (Z.eqb_spec (Z.land num (num - 1)) 0) as [Hz|Hnz].
  - apply land_pred_pow2 in Hz; [|lia]. exists (Z.log2 num). rewrite <- Hz.
    split; [done|]. split; [done|]. split; [lia|]. intros j Hj Hle.
    apply Z.log2_le_mono in Hle. rewrite Z.log2_pow2 in Hle by lia. done.
  - assert (Hne : num <> 2 ^ Z.log2 num).
    { intros E. apply Hnz. rewrite E. by apply pow2_land_pred. }
    assert (Hlt : Z.log2 num < 63).
    { destruct (Z.eq_dec (Z.log2 num) 63) as [E|]; [|lia]. rewrite E in *. lia. }
    rewrite leftmost64_spec by (unfold in_u; lia). sbind. exists (Z.log2 num + 1).
    rewrite Z.shiftl_mul_pow2, Z.mul_1_l by lia. rewrite Z.pow_add_r by lia.
    assert (2 ^ Z.log2 num <= 2 ^ 62) by (apply Z.pow_le_mono_r; lia).
    rewrite uN_small by (unfold in_u; lia). split; [done|]. split; [lia|]. split; [lia|].
    intros j Hj Hle. destruct (Z_lt_ge_dec j (Z.log2 num + 1)); [|lia].
    assert (2 ^ j <= 2 ^ Z.log2 num) by (apply Z.pow_le_mono_r; lia). lia.
Qed.

Lemma pg_popcount_correct_witness : pg_popcount true [255; 1; 0; 7; 128; 3; 0; 0; 254; 1] = Some 23.
Proof. rewrite pg_popcount_correct; [reflexivity|]. repeat constructor; vm_compute; congruence. Defined.

Lemma pg_bitutils_correct_witness :
  pg_popcount32_slow 4026531855 = Some 8 /\ pg_leftmost_one_pos64 40 = Some 5.
Proof.
  split.
  - apply (pg_bitutils_correct 4026531855). vm_compute. split; congruence.
  - apply (pg_bitutils_correct 40); [vm_compute; split; congruence|lia].
Defined.

Lemma pg_nextpower2_64_correct_witness :
  exists k, pg_nextpower2_64 1000 = Some (2 ^ k) /\ 1000 <= 2 ^ k.
Proof.
  destruct (pg_nextpower2_64_correct 1000 ltac:(lia)) as (k & Hrun & Hle & _).
  exists k. split; [exact Hrun|exact Hle].
Defined.
