(* ===== verification/HashFunc.v ===== *)
(** The hash functions of [src/src/gausskernel/storage/access/hash/hashfunc.cpp]:
    Bob Jenkins' [mix] and [final], [hash_any], [hash_uint32] and
    [hash_new_uint32].

    A key is its list of bytes; [bigendian] is WORDS_BIGENDIAN and [aligned]
    says whether the key's address is a multiple of 4.  Reading a byte past the
    end of the key is [None]. *)
From S2P Require Import Prelude.

(** ** 32-bit arithmetic *)

Definition add32 (x y : Z) : Z := u32 (x + y).
Definition sub32 (x y : Z) : Z := u32 (x - y).

(** [rot(x, k)] *)
Definition rot (x k : Z) : Z := Z.lor (u32 (Z.shiftl x k)) (Z.shiftr x (32 - k)).

Definition mix (a b c : Z) : Z * Z * Z :=
  let a := sub32 a c in
  let a := Z.lxor a (rot c 4) in
  let c := add32 c b in
  let b := sub32 b a in
  let b := Z.lxor b (rot a 6) in
  let a := add32 a c in
  let c := sub32 c b in
  let c := Z.lxor c (rot b 8) in
  let b := add32 b a in
  let a := sub32 a c in
  let a := Z.lxor a (rot c 16) in
  let c := add32 c b in
  let b := sub32 b a in
  let b := Z.lxor b (rot a 19) in
  let a := add32 a c in
  let c := sub32 c b in
  let c := Z.lxor c (rot b 4) in
  let b := add32 b a in
  (a, b, c).

(** [final(a, b, c)]; only [c] is used afterwards. *)
Definition final (a b c : Z) : Z :=
  let c := Z.lxor c b in
  let c := sub32 c (rot b 14) in
  let a := Z.lxor a c in
  let a := sub32 a (rot c 11) in
  let b := Z.lxor b a in
  let b := sub32 b (rot a 25) in
  let c := Z.lxor c b in
  let c := sub32 c (rot b 16) in
  let a := Z.lxor a c in
  let a := sub32 a (rot c 4) in
  let b := Z.lxor b a in
  let b := sub32 b (rot a 14) in
  let c := Z.lxor c b in
  let c := sub32 c (rot b 24) in
  c.

(** ** [hash_any] *)

(** [x += ((uint32)k[i] << sh)] *)
Definition add_byte (k : list Z) (i sh x : Z) : option Z :=
  v ← zlookup k i; Some (add32 x (u32 (Z.shiftl v sh))).

(** [x += ((uint32)k[i] << sh)] when [c] holds: the case labels from the one
    of [len] on fall through. *)
Definition add_byte_if (cond : bool) (k : list Z) (i sh x : Z) : option Z :=
  if cond then add_byte k i sh x else Some x.

(** The four bytes from [i] on, in the order given by the shifts. *)
Definition load_shifts (k : list Z) (i s0 s1 s2 s3 : Z) : option Z :=
  v0 ← zlookup k i; v1 ← zlookup k (i + 1); v2 ← zlookup k (i + 2); v3 ← zlookup k (i + 3);
  Some (u32 (Z.shiftl v0 s0 + Z.shiftl v1 s1 + Z.shiftl v2 s2 + Z.shiftl v3 s3)).

(** [ka[i]]: the machine's load of an aligned 32-bit word. *)
Definition load_ka (bigendian : bool) (k : list Z) (i : Z) : option Z :=
  v0 ← zlookup k (4 * i); v1 ← zlookup k (4 * i + 1);
  v2 ← zlookup k (4 * i + 2); v3 ← zlookup k (4 * i + 3);
  Some (if bigendian then v3 + 256 * (v2 + 256 * (v1 + 256 * v0))
        else v0 + 256 * (v1 + 256 * (v2 + 256 * v3))).

(** [while (len >= 12)], with the rest of the key. *)
Fixpoint hash_loop_aligned (bigendian : bool) (fuel : nat) (k : list Z) (a b c : Z)
  : option (list Z * (Z * Z * Z)) :=
  match fuel with
  | O => None
  | S fuel' =>
      if 12 <=? zlen k then
        w0 ← load_ka bigendian k 0; w1 ← load_ka bigendian k 1; w2 ← load_ka bigendian k 2;
        let '(a, b, c) := mix (add32 a w0) (add32 b w1) (add32 c w2) in
        hash_loop_aligned bigendian fuel' (drop 12 k) a b c
      else Some (k, (a, b, c))
  end.

Fixpoint hash_loop_unaligned (bigendian : bool) (fuel : nat) (k : list Z) (a b c : Z)
  : option (list Z * (Z * Z * Z)) :=
  match fuel with
  | O => None
  | S fuel' =>
      if 12 <=? zlen k then
        let load i := if bigendian then load_shifts k i 24 16 8 0 else load_shifts k i 0 8 16 24 in
        w0 ← load 0; w1 ← load 4; w2 ← load 8;
        let '(a, b, c) := mix (add32 a w0) (add32 b w1) (add32 c w2) in
        hash_loop_unaligned bigendian fuel' (drop 12 k) a b c
      else Some (k, (a, b, c))
  end.

(** The last 11 bytes, aligned: [switch (len)] with the byte shifts of the two
    byte orders. *)
Definition tail_aligned (bigendian : bool) (k : list Z) (a b c : Z) : option (Z * Z * Z) :=
  let len := zlen k in
  if 8 <=? len then
    c ← add_byte_if (11 <=? len) k 10 (if bigendian then 8 else 24) c;
    c ← add_byte_if (10 <=? len) k 9 16 c;
    c ← add_byte_if (9 <=? len) k 8 (if bigendian then 24 else 8) c;
    w1 ← load_ka bigendian k 1;
    w0 ← load_ka bigendian k 0;
    Some (add32 a w0, add32 b w1, c)
  else if 4 <=? len then
    b ← add_byte_if (7 <=? len) k 6 (if bigendian then 8 else 16) b;
    b ← add_byte_if (6 <=? len) k 5 (if bigendian then 16 else 8) b;
    b ← add_byte_if (5 <=? len) k 4 (if bigendian then 24 else 0) b;
    w0 ← load_ka bigendian k 0;
    Some (add32 a w0, b, c)
  else
    a ← add_byte_if (3 <=? len) k 2 (if bigendian then 8 else 16) a;
    a ← add_byte_if (2 <=? len) k 1 (if bigendian then 16 else 8) a;
    a ← add_byte_if (1 <=? len) k 0 (if bigendian then 24 else 0) a;
    Some (a, b, c).

(** The last 11 bytes, not aligned. *)
Definition tail_unaligned (bigendian : bool) (k : list Z) (a b c : Z) : option (Z * Z * Z) :=
  let len := zlen k in
  c ← add_byte_if (11 <=? len) k 10 (if bigendian then 8 else 24) c;
  c ← add_byte_if (10 <=? len) k 9 16 c;
  c ← add_byte_if (9 <=? len) k 8 (if bigendian then 24 else 8) c;
  b ← add_byte_if (8 <=? len) k 7 (if bigendian then 0 else 24) b;
  b ← add_byte_if (7 <=? len) k 6 (if bigendian then 8 else 16) b;
  b ← add_byte_if (6 <=? len) k 5 (if bigendian then 16 else 8) b;
  b ← add_byte_if (5 <=? len) k 4 (if bigendian then 24 else 0) b;
  a ← add_byte_if (4 <=? len) k 3 (if bigendian then 0 else 24) a;
  a ← add_byte_if (3 <=? len) k 2 (if bigendian then 8 else 16) a;
  a ← add_byte_if (2 <=? len) k 1 (if bigendian then 16 else 8) a;
  a ← add_byte_if (1 <=? len) k 0 (if bigendian then 24 else 0) a;
  Some (a, b, c).

Definition hash_init (keylen : Z) : Z := u32 (2654435769 (* 0x9e3779b9 *) + u32 keylen + 3923095).

Definition hash_any (bigendian aligned : bool) (k : list Z) : option Z :=
  let s := hash_init (zlen k) in
  '(a, b, c) ←
    (if aligned then
       '(k, (a, b, c)) ← hash_loop_aligned bigendian (S (length k)) k s s s;
       tail_aligned bigendian k a b c
     else
       '(k, (a, b, c)) ← hash_loop_unaligned bigendian (S (length k)) k s s s;
       tail_unaligned bigendian k a b c);
  Some (final a b c).

Definition hash_uint32 (k : Z) : Z :=
  let s := hash_init 4 in
  final (add32 s k) s s.

Definition hash_new_uint32 (k : Z) : Z :=
  let a := add32 3735928559 (* 0xdeadbeef *) k in
  let b := 3735928559 in
  let c := u32 (3923095 + 4) in
  let '(_, _, c) := mix a b c in c.

(** The bytes of a 32-bit value in memory. *)
Definition uint32_bytes (bigendian : bool) (k : Z) : list Z :=
  let le := [k mod 256; k / 2 ^ 8 mod 256; k / 2 ^ 16 mod 256; k / 2 ^ 24 mod 256] in
  if bigendian then rev le else le.

(** ** Facts *)

Lemma add32_range x y : in_u 32 (add32 x y).
Proof. apply uN_range. lia. Qed.
Lemma sub32_range x y : in_u 32 (sub32 x y).
Proof. apply uN_range. lia. Qed.

Lemma lxor_range n x y : 0 <= n -> in_u n x -> in_u n y -> in_u n (Z.lxor x y).
Proof.
  intros Hn Hx Hy. unfold in_u in *.
  assert (H0 : 0 <= Z.lxor x y) by (apply Z.lxor_nonneg; lia).
  split; [done|]. destruct (Z.eq_dec (Z.lxor x y) 0) as [->|Hne]; [apply Z.pow_pos_nonneg; lia|].
  apply Z.log2_lt_pow2; [lia|].
  destruct (Z.eq_dec x 0) as [->|]; [rewrite Z.lxor_0_l in *; apply Z.log2_lt_pow2; lia|].
  destruct (Z.eq_dec y 0) as [->|]; [rewrite Z.lxor_0_r in *; apply Z.log2_lt_pow2; lia|].
  eapply Z.le_lt_trans; [apply Z.log2_lxor; lia|].
  apply Z.max_lub_lt; apply Z.log2_lt_pow2; lia.
Qed.

Lemma lor_range n x y : 0 <= n -> in_u n x -> in_u n y -> in_u n (Z.lor x y).
Proof.
  intros Hn Hx Hy. unfold in_u in *.
  assert (H0 : 0 <= Z.lor x y) by (apply Z.lor_nonneg; lia).
  split; [done|]. destruct (Z.eq_dec (Z.lor x y) 0) as [->|Hne]; [apply Z.pow_pos_nonneg; lia|].
  apply Z.log2_lt_pow2; [lia|]. rewrite Z.log2_lor by lia.
  destruct (Z.eq_dec x 0) as [->|]; destruct (Z.eq_dec y 0) as [->|];
    rewrite ?Z.lor_0_l, ?Z.lor_0_r in *; try done;
    apply Z.max_lub_lt; try (apply Z.log2_lt_pow2; lia); change (Z.log2 0) with 0;
    destruct (Z.eq_dec n 0) as [->|]; try lia; change (2 ^ 0) with 1 in *; lia.
Qed.

Lemma rot_range x k : 0 <= k <= 32 -> in_u 32 x -> in_u 32 (rot x k).
Proof.
  intros Hk Hx. apply lor_range; [lia|apply uN_range; lia|]. unfold in_u in *.
  rewrite Z.shiftr_div_pow2 by lia. assert (0 < 2 ^ (32 - k)) by (apply Z.pow_pos_nonneg; lia).
  split; [apply Z.div_pos; lia|]. apply Z.div_lt_upper_bound; [lia|]. nia.
Qed.

Lemma add32_sub32 x y : in_u 32 x -> add32 (sub32 x y) y = x.
Proof.
  intros Hx. unfold add32, sub32, uN. rewrite Zplus_mod_idemp_l.
  replace (x - y + y) with x by lia. by apply Z.mod_small.
Qed.

Lemma sub32_add32 x y : in_u 32 x -> sub32 (add32 x y) y = x.
Proof.
  intros Hx. unfold add32, sub32, uN. rewrite Zminus_mod_idemp_l.
  replace (x + y - y) with x by lia. by apply Z.mod_small.
Qed.

Lemma lxor_cancel x y : Z.lxor (Z.lxor x y) y = x.
Proof. by rewrite Z.lxor_assoc, Z.lxor_nilpotent, Z.lxor_0_r. Qed.

Lemma add32_add32 x y z : add32 (add32 x y) z = add32 x (y + z).
Proof. unfold add32, uN. rewrite Zplus_mod_idemp_l. f_equal. lia. Qed.

Lemma add32_u32_r x y : add32 x (u32 y) = add32 x y.
Proof. unfold add32, uN. by rewrite Zplus_mod_idemp_r. Qed.

Create HintDb hash32.
#[export] Hint Resolve add32_range sub32_range : hash32.
#[export] Hint Extern 3 (in_u 32 (Z.lxor _ _)) => apply lxor_range; [lia| |] : hash32.
#[export] Hint Extern 3 (in_u 32 (rot _ _)) => apply rot_range; [lia|] : hash32.

(** The inverse of [mix]: the steps undone from the last to the first. *)
Definition unmix (a b c : Z) : Z * Z * Z :=
  let b := sub32 b a in
  let c := Z.lxor c (rot b 4) in
  let c := add32 c b in
  let a := sub32 a c in
  let b := Z.lxor b (rot a 19) in
  let b := add32 b a in
  let c := sub32 c b in
  let a := Z.lxor a (rot c 16) in
  let a := add32 a c in
  let b := sub32 b a in
  let c := Z.lxor c (rot b 8) in
  let c := add32 c b in
  let a := sub32 a c in
  let b := Z.lxor b (rot a 6) in
  let b := add32 b a in
  let c := sub32 c b in
  let a := Z.lxor a (rot c 4) in
  let a := add32 a c in
  (a, b, c).

(** Naming the value of a [let]. *)
Lemma let_name {A B} (e : A) (f : A -> B) (P : B -> Prop) :
  (forall x, x = e -> P (f x)) -> P (let x := e in f x).
Proof. intros H. by apply H. Qed.

Lemma let_value {A B} (e v : A) (f : A -> B) r : e = v -> f v = r -> (let x := e in f x) = r.
Proof. by intros ->. Qed.

(** ** The two code paths *)

Definition bytes_wf (k : list Z) : Prop := Forall (in_u 8) k.

Lemma znth_byte k i : bytes_wf k -> 0 <= i < zlen k -> in_u 8 (znth k i).
Proof.
  intros Hk Hi. unfold zlen in Hi. apply (Forall_lookup_1 _ k (Z.to_nat i)); [done|].
  apply list_lookup_lookup_total_lt. lia.
Qed.

Lemma load_same (be : bool) k i :
  bytes_wf k -> 0 <= i -> 4 * i + 4 <= zlen k ->
  (if be then load_shifts k (4 * i) 24 16 8 0 else load_shifts k (4 * i) 0 8 16 24) =
    load_ka be k i.
Proof.
  intros Hk Hi Hl. unfold load_shifts, load_ka.
  rewrite !zlookup_in by lia.
  pose proof (znth_byte k (4 * i) Hk ltac:(lia)). pose proof (znth_byte k (4 * i + 1) Hk ltac:(lia)).
  pose proof (znth_byte k (4 * i + 2) Hk ltac:(lia)). pose proof (znth_byte k (4 * i + 3) Hk ltac:(lia)).
  unfold in_u in *.
  destruct be; sbind; rewrite !Z.shiftl_mul_pow2 by lia; f_equal; rewrite uN_small; unfold in_u; lia.
Qed.

(** A machine load is the sum of the shifted bytes. *)
Lemma load_aligned_same (be : bool) fuel k a b c :
  bytes_wf k -> hash_loop_unaligned be fuel k a b c = hash_loop_aligned be fuel k a b c.
Proof.
  revert k a b c. induction fuel as [|fuel IH]; intros k a b c Hk; [done|].
  cbn [hash_loop_unaligned hash_loop_aligned].
  destruct (Z.leb_spec 12 (zlen k)); [|done]. cbv zeta.
  pose proof (load_same be k 0 Hk ltac:(lia) ltac:(lia)) as E0.
  pose proof (load_same be k 1 Hk ltac:(lia) ltac:(lia)) as E1.
  pose proof (load_same be k 2 Hk ltac:(lia) ltac:(lia)) as E2.
  change (4 * 0) with 0 in E0. change (4 * 1) with 4 in E1. change (4 * 2) with 8 in E2.
  rewrite E0, E1, E2. destruct (load_ka be k 0); sbind; [|done].
  destruct (load_ka be k 1); sbind; [|done]. destruct (load_ka be k 2); sbind; [|done].
  destruct (mix _ _ _) as [[a' b'] c']. apply IH. by apply Forall_drop.
Qed.

(** At most eleven bytes are left, so the two switches are compared for each
    length. *)
Lemma tail_same (be : bool) k a b c :
  zlen k < 12 -> tail_unaligned be k a b c = tail_aligned be k a b c.
Proof.
  intros Hl. unfold tail_unaligned, tail_aligned, add_byte_if, add_byte, load_ka.
  change (4 * 0) with 0. change (4 * 1) with 4.
  change (0 + 1) with 1. change (0 + 2) with 2. change (0 + 3) with 3.
  change (4 + 1) with 5. change (4 + 2) with 6. change (4 + 3) with 7.
  do 12 (destruct k as [|? k];
    [cbv -[add32 uN Z.shiftl Z.mul Z.add];
     repeat (rewrite ?add32_u32_r, ?add32_add32 || rewrite Z.shiftl_mul_pow2 by (destruct be; lia));
     destruct be;
     repeat match goal with
     | |- Some _ = Some _ => apply f_equal
     | |- (_, _) = (_, _) => apply f_equal2
     | |- add32 ?x _ = add32 ?x _ => apply f_equal
     end; lia|]).
  unfold zlen in Hl. cbn [length] in Hl. lia.
Qed.

Lemma load_ka_total be k i : 0 <= i -> 4 * i + 4 <= zlen k -> exists w, load_ka be k i = Some w.
Proof. intros Hi Hl. unfold load_ka. rewrite !zlookup_in by lia. sbind. eauto. Qed.

Lemma loop_total be fuel k a b c :
  (length k < fuel)%nat ->
  exists k' s, hash_loop_aligned be fuel k a b c = Some (k', s) /\ zlen k' < 12.
Proof.
  revert k a b c. induction fuel as [|fuel IH]; intros k a b c Hf; [lia|].
  cbn [hash_loop_aligned]. destruct (Z.leb_spec 12 (zlen k)) as [Hl|]; [|eauto].
  destruct (load_ka_total be k 0) as (w0 & ->); [lia|lia|].
  destruct (load_ka_total be k 1) as (w1 & ->); [lia|lia|].
  destruct (load_ka_total be k 2) as (w2 & ->); [lia|lia|]. sbind.
  destruct (mix _ _ _) as [[a' b'] c']. apply IH. rewrite length_drop. unfold zlen in Hl. lia.
Qed.

Lemma tail_total be k a b c : zlen k < 12 -> exists s, tail_aligned be k a b c = Some s.
Proof.
  intros Hl. unfold tail_aligned, add_byte_if, add_byte, load_ka.
  change (4 * 0) with 0. change (4 * 1) with 4.
  change (0 + 1) with 1. change (0 + 2) with 2. change (0 + 3) with 3.
  change (4 + 1) with 5. change (4 + 2) with 6. change (4 + 3) with 7.
  do 12 (destruct k as [|? k]; [cbv -[add32 uN Z.shiftl Z.mul Z.add]; by eexists|]).
  unfold zlen in Hl. cbn [length] in Hl. lia.
Qed.

Lemma lxor_undo x y r : x = Z.lxor y r -> Z.lxor x r = y.
Proof. intros ->. apply lxor_cancel. Qed.
Lemma sub_undo x y z : x = add32 y z -> in_u 32 y -> sub32 x z = y.
Proof. intros ->. apply sub32_add32. Qed.
Lemma add_undo x y z : x = sub32 y z -> in_u 32 y -> add32 x z = y.
Proof. intros ->. apply add32_sub32. Qed.

(** Introduces the next [let] of [mix] as an equation, with the range of its
    value. *)
Ltac name_step P x :=
  match goal with |- P ?t => match t with let v := ?e in @?f v => apply (let_name e f P) end end;
  cbv beta;
  let E := fresh "E" in
  intros x E; assert (in_u 32 x) by (rewrite E; auto with hash32).

(** Undoes one step of [mix]: gives the next [let] of [unmix] its value. *)
Ltac undo_step :=
  match goal with |- ?t = _ => match t with let v := ?e in @?f v => eapply (let_value e _ f) end end;
  [first [eapply lxor_undo; eassumption
         |eapply sub_undo; eassumption
         |eapply add_undo; eassumption]
  |cbv beta].

Lemma hash_any_agree bigendian k :
  bytes_wf k ->
  exists h, hash_any bigendian true k = Some h /\ hash_any bigendian false k = Some h.
Proof.
  intros Hk. unfold hash_any. set (s := hash_init (zlen k)). cbv zeta.
  rewrite load_aligned_same by done.
  destruct (loop_total bigendian (S (length k)) k s s s) as (k' & [[a b] c] & -> & Hl); [lia|]. sbind.
  rewrite tail_same by done. destruct (tail_total bigendian k' a b c Hl) as ([[a' b'] c'] & ->). sbind.
  eauto.
Qed.

(** ** Properties *)

(** [mix] is reversible, as its comment says: [unmix] recovers the three
    words it was given. *)
Theorem mix_reversible a b c :
  in_u 32 a -> in_u 32 b -> in_u 32 c ->
  let '(a', b', c') := mix a b c in unmix a' b' c' = (a, b, c).
Proof.
  intros Ha Hb Hc. set (P := fun r : Z * Z * Z => let '(a', b', c') := r in unmix a' b' c' = (a, b, c)).
  change (P (mix a b c)). cbv delta [mix]. cbv beta.
  name_step P a1. name_step P a2. name_step P c1. name_step P b1. name_step P b2. name_step P a3.
  name_step P c2. name_step P c3. name_step P b3. name_step P a4. name_step P a5. name_step P c4.
  name_step P b4. name_step P b5. name_step P a6. name_step P c5. name_step P c6. name_step P b6.
  cbv delta [P unmix]. cbv beta iota. do 18 undo_step. done.
Qed.

(** [hash_any] reads only the key and gives the same value on the aligned
    and the unaligned code path, on machines of either byte order. *)
Theorem hash_any_paths_agree bigendian k :
  bytes_wf k ->
  exists h, hash_any bigendian true k = Some h /\ hash_any bigendian false k = Some h.
Proof. apply hash_any_agree. Qed.

(** [hash_uint32] "has the same result as [hash_any(&k, sizeof(uint32))]",
    on machines of either byte order and for either code path. *)
Theorem hash_uint32_hash_any bigendian aligned k :
  in_u 32 k -> hash_any bigendian aligned (uint32_bytes bigendian k) = Some (hash_uint32 k).
Proof.
  intros Hk. set (v0 := k mod 256). set (v1 := k / 2 ^ 8 mod 256).
  set (v2 := k / 2 ^ 16 mod 256). set (v3 := k / 2 ^ 24 mod 256).
  assert (Ek : k = v0 + 256 * (v1 + 256 * (v2 + 256 * v3))).
  { unfold v0, v1, v2, v3, in_u in *. change (2 ^ 8) with 256. change (2 ^ 16) with (256 * 256).
    change (2 ^ 24) with (256 * 256 * 256). change (2 ^ 32) with (256 * 256 * 256 * 256) in Hk.
    rewrite <- !Z.div_div by lia. Z.to_euclidean_division_equations. lia. }
  assert (Hlen : zlen (uint32_bytes bigendian k) = 4) by (by destruct bigendian).
  assert (Hw : bytes_wf (uint32_bytes bigendian k)).
  { assert (forall x, in_u 8 (x mod 256)) by (intros; apply Z.mod_pos_bound; lia).
    unfold bytes_wf, uint32_bytes. destruct bigendian; cbn [rev app];
      repeat (apply Forall_cons_2; [done|]); apply Forall_nil_2. }
  assert (Hload : forall a b c, tail_aligned bigendian (uint32_bytes bigendian k) a b c =
                                Some (add32 a k, b, c)).
  { intros a b c. unfold tail_aligned. rewrite Hlen.
    change (8 <=? 4) with false. change (4 <=? 4) with true. change (7 <=? 4) with false.
    change (6 <=? 4) with false. change (5 <=? 4) with false. cbv iota. unfold add_byte_if. sbind.
    assert (El : load_ka bigendian (uint32_bytes bigendian k) 0 = Some k); [|by rewrite El].
    transitivity (Some (v0 + 256 * (v1 + 256 * (v2 + 256 * v3)))); [by destruct bigendian|by rewrite <- Ek]. }
  assert (Hrun : hash_any bigendian true (uint32_bytes bigendian k) = Some (hash_uint32 k)).
  { unfold hash_any, hash_uint32. rewrite Hlen. cbn [hash_loop_aligned]. rewrite Hlen.
    change (12 <=? 4) with false. cbv iota. sbind. rewrite Hload. by sbind. }
  destruct aligned; [done|]. rewrite <- Hrun. unfold hash_any. rewrite load_aligned_same by done.
  cbn [hash_loop_aligned]. rewrite Hlen. change (12 <=? 4) with false. cbv iota. sbind.
  rewrite tail_same by lia. done.
Qed.

(** ** The properties on concrete values *)

Lemma mix_reversible_witness :
  let '(a', b', c') := mix 1 2 4294967295 in unmix a' b' c' = (1, 2, 4294967295).
Proof. apply mix_reversible; vm_compute; split; congruence. Defined.

Lemma hash_any_paths_agree_witness :
  exists h, hash_any false true [1; 2; 3; 4; 5; 255; 7; 8; 9; 10; 11; 12; 13; 14; 15] = Some h /\
    hash_any false false [1; 2; 3; 4; 5; 255; 7; 8; 9; 10; 11; 12; 13; 14; 15] = Some h.
Proof. apply hash_any_paths_agree. repeat constructor; vm_compute; congruence. Defined.

Lemma hash_uint32_hash_any_witness :
  hash_any true false [18; 52; 86; 120] = Some (hash_uint32 305419896).
Proof. apply (hash_uint32_hash_any true false 305419896). vm_compute. split; congruence. Defined.
