(* ===== verification/Bitmapset.v ===== *)
(** Bitmap sets: [src/src/common/backend/nodes/bitmapset.cpp] and
    [src/src/include/nodes/bitmapset.h].

    A [Bitmapset *] is [None] for NULL and [Some words] for an array of
    32-bit words ([nwords] is its length).  Functions that recycle their
    arguments return the new set; memory management is not modelled.  The
    abstract value of a set is the number whose bits are its members
    ([bms_val]), and membership is [Z.testbit] of it. *)
From S2P Require Import Prelude BitUtils HashFunc.

Definition BITS_PER_BITMAPWORD : Z := 32.
Definition WORDNUM (x : Z) : Z := Z.quot x BITS_PER_BITMAPWORD.
Definition BITNUM (x : Z) : Z := Z.rem x BITS_PER_BITMAPWORD.

Definition RIGHTMOST_ONE (x : Z) : Z := s32 (Z.land (s32 x) (s32 (- s32 x))).
Definition HAS_MULTIPLE_ONES (x : Z) : bool := negb (u32 (RIGHTMOST_ONE x) =? x).

Definition bmw_rightmost_one_pos (w : Z) : option Z := pg_rightmost_one_pos32 w.
Definition bmw_popcount (w : Z) : option Z := pg_popcount32_slow w.

(** [(bitmapword)1 << bitnum] and [~w]. *)
Definition bmw_bit (bitnum : Z) : Z := u32 (Z.shiftl 1 bitnum).
Definition bmw_not (w : Z) : Z := u32 (Z.lnot w).

Definition Bitmapset : Type := option (list Z).

Inductive BMS_Comparison := BMS_EQUAL | BMS_SUBSET1 | BMS_SUBSET2 | BMS_DIFFERENT.
Inductive BMS_Membership := BMS_EMPTY_SET | BMS_SINGLETON | BMS_MULTIPLE.

#[global] Instance BMS_Comparison_eq_dec : EqDecision BMS_Comparison.
Proof. solve_decision. Defined.
#[global] Instance BMS_Membership_eq_dec : EqDecision BMS_Membership.
Proof. solve_decision. Defined.

(** ** Queries on one set *)

Definition bms_copy (a : Bitmapset) : Bitmapset := a.

(** [for (...) if (words[i] != 0) return false; return true;] *)
Fixpoint words_empty (l : list Z) : bool :=
  match l with [] => true | w :: l' => if negb (w =? 0) then false else words_empty l' end.

Definition bms_is_empty (a : Bitmapset) : bool :=
  match a with None => true | Some l => words_empty l end.

Definition bms_make_singleton (x : Z) : result Bitmapset :=
  if x <? 0 then Ereport ERRCODE_DATA_EXCEPTION
  else
    let wordnum := WORDNUM x in
    let bitnum := BITNUM x in
    Ok (Some (zset (replicate (Z.to_nat (wordnum + 1)) 0) wordnum (bmw_bit bitnum))).

Definition bms_free (a : Bitmapset) : Bitmapset := None.

Definition bms_is_member (x : Z) (a : Bitmapset) : result bool :=
  if x <? 0 then Ereport ERRCODE_DATA_EXCEPTION
  else match a with
  | None => Ok false
  | Some l =>
      let wordnum := WORDNUM x in
      let bitnum := BITNUM x in
      if zlen l <=? wordnum then Ok false
      else if negb (Z.land (znth l wordnum) (bmw_bit bitnum) =? 0) then Ok true
      else Ok false
  end.

(** ** Binary operations *)

(** [for (i = 0; i < n; i++) result->words[i] = f(result->words[i], other->words[i])]
    up to the shorter length. *)
Fixpoint combine_words (f : Z -> Z -> Z) (result other : list Z) : list Z :=
  match result, other with
  | r :: result', o :: other' => f r o :: combine_words f result' other'
  | _, _ => result
  end.

Definition words_or := combine_words Z.lor.
Definition words_and := combine_words Z.land.
Definition words_and_not := combine_words (fun r o => Z.land r (bmw_not o)).

Definition bms_union (a b : Bitmapset) : Bitmapset :=
  match a, b with
  | None, _ => bms_copy b
  | _, None => bms_copy a
  | Some la, Some lb =>
      if zlen la <=? zlen lb then Some (words_or lb la) else Some (words_or la lb)
  end.

Definition bms_intersect (a b : Bitmapset) : Bitmapset :=
  match a, b with
  | Some la, Some lb =>
      if zlen la <=? zlen lb then Some (words_and la lb) else Some (words_and lb la)
  | _, _ => None
  end.

Definition bms_difference (a b : Bitmapset) : Bitmapset :=
  match a, b with
  | None, _ => None
  | _, None => bms_copy a
  | Some la, Some lb => Some (words_and_not la lb)
  end.

Definition bms_add_member (a : Bitmapset) (x : Z) : result Bitmapset :=
  if x <? 0 then Ereport ERRCODE_DATA_EXCEPTION
  else match a with
  | None => bms_make_singleton x
  | Some l =>
      let wordnum := WORDNUM x in
      let bitnum := BITNUM x in
      if zlen l <=? wordnum then
        r ← bms_make_singleton x;
        Ok (match r with Some lr => Some (words_or lr l) | None => None end)
      else Ok (Some (zset l wordnum (Z.lor (znth l wordnum) (bmw_bit bitnum))))
  end.

Definition bms_del_member (a : Bitmapset) (x : Z) : result Bitmapset :=
  if x <? 0 then Ereport ERRCODE_DATA_EXCEPTION
  else match a with
  | None => Ok None
  | Some l =>
      let wordnum := WORDNUM x in
      let bitnum := BITNUM x in
      if wordnum <? zlen l then
        Ok (Some (zset l wordnum (Z.land (znth l wordnum) (bmw_not (bmw_bit bitnum)))))
      else Ok a
  end.

Definition bms_add_members (a b : Bitmapset) : Bitmapset :=
  match a, b with
  | None, _ => bms_copy b
  | _, None => a
  | Some la, Some lb =>
      if zlen la <? zlen lb then Some (words_or lb la) else Some (words_or la lb)
  end.

(** The second loop clears the words that [b] does not have. *)
Definition bms_int_members (a b : Bitmapset) : Bitmapset :=
  match a, b with
  | None, _ => None
  | _, None => None
  | Some la, Some lb =>
      let shortlen := Nat.min (length la) (length lb) in
      Some (take shortlen (words_and la lb) ++ replicate (length la - shortlen) 0)
  end.

Definition bms_del_members (a b : Bitmapset) : Bitmapset :=
  match a, b with
  | None, _ => None
  | _, None => a
  | Some la, Some lb => Some (words_and_not la lb)
  end.

Definition bms_join (a b : Bitmapset) : Bitmapset :=
  match a, b with
  | None, _ => b
  | _, None => a
  | Some la, Some lb =>
      if zlen la <? zlen lb then Some (words_or lb la) else Some (words_or la lb)
  end.

(** ** Comparisons *)

(** The two loops of [bms_equal]. *)
Fixpoint words_equal (shorter longer : list Z) : bool :=
  match shorter, longer with
  | x :: s, y :: l => if negb (x =? y) then false else words_equal s l
  | _, l => words_empty l
  end.

Definition bms_equal (a b : Bitmapset) : bool :=
  match a, b with
  | None, None => true
  | None, _ => bms_is_empty b
  | _, None => bms_is_empty a
  | Some la, Some lb => if zlen la <=? zlen lb then words_equal la lb else words_equal lb la
  end.

Fixpoint words_subset (la lb : list Z) : bool :=
  match la, lb with
  | x :: la', y :: lb' => if negb (Z.land x (bmw_not y) =? 0) then false else words_subset la' lb'
  | [], _ => true
  | _, [] => words_empty la
  end.

Definition bms_is_subset (a b : Bitmapset) : bool :=
  match a, b with
  | None, _ => true
  | _, None => bms_is_empty a
  | Some la, Some lb => words_subset la lb
  end.

(** The loops over the extra words of [bms_subset_compare]: a non-zero word
    refutes the inclusion named by [refuted]. *)
Fixpoint compare_extra (refuted other result : BMS_Comparison) (l : list Z) : BMS_Comparison :=
  match l with
  | [] => result
  | w :: l' =>
      if negb (w =? 0) then
        if decide (result = refuted) then BMS_DIFFERENT else compare_extra refuted other other l'
      else compare_extra refuted other result l'
  end.

(** The step for a pair of common words; [None] is [return BMS_DIFFERENT]. *)
Definition compare_common (result : BMS_Comparison) (aword bword : Z) : option BMS_Comparison :=
  result ← (if negb (Z.land aword (bmw_not bword) =? 0) then
              if decide (result = BMS_SUBSET1) then None else Some BMS_SUBSET2
            else Some result);
  if negb (Z.land bword (bmw_not aword) =? 0) then
    if decide (result = BMS_SUBSET2) then None else Some BMS_SUBSET1
  else Some result.

Fixpoint compare_words (result : BMS_Comparison) (la lb : list Z) : BMS_Comparison :=
  match la, lb with
  | x :: la', y :: lb' =>
      match compare_common result x y with
      | Some result => compare_words result la' lb'
      | None => BMS_DIFFERENT
      end
  | _, [] => compare_extra BMS_SUBSET1 BMS_SUBSET2 result la
  | [], _ => compare_extra BMS_SUBSET2 BMS_SUBSET1 result lb
  end.

Definition bms_subset_compare (a b : Bitmapset) : BMS_Comparison :=
  match a, b with
  | None, None => BMS_EQUAL
  | None, _ => if bms_is_empty b then BMS_EQUAL else BMS_SUBSET1
  | _, None => if bms_is_empty a then BMS_EQUAL else BMS_SUBSET2
  | Some la, Some lb => compare_words BMS_EQUAL la lb
  end.

Fixpoint words_overlap (la lb : list Z) : bool :=
  match la, lb with
  | x :: la', y :: lb' => if negb (Z.land x y =? 0) then true else words_overlap la' lb'
  | _, _ => false
  end.

Definition bms_overlap (a b : Bitmapset) : bool :=
  match a, b with
  | Some la, Some lb => words_overlap la lb
  | _, _ => false
  end.

Fixpoint words_nonempty_difference (la lb : list Z) : bool :=
  match la, lb with
  | x :: la', y :: lb' =>
      if negb (Z.land x (bmw_not y) =? 0) then true else words_nonempty_difference la' lb'
  | _, _ => negb (words_empty la)
  end.

Definition bms_nonempty_difference (a b : Bitmapset) : bool :=
  match a, b with
  | None, _ => false
  | _, None => negb (bms_is_empty a)
  | Some la, Some lb => words_nonempty_difference la lb
  end.

(** ** Counting *)

Fixpoint singleton_loop (l : list Z) (wordnum res : Z) : option (result Z) :=
  match l with
  | [] => Some (if res <? 0 then Ereport ERRCODE_UNEXPECTED_NULL_VALUE else Ok res)
  | w :: l' =>
      if negb (w =? 0) then
        if (0 <=? res) || HAS_MULTIPLE_ONES w then Some (Ereport ERRCODE_DATA_EXCEPTION)
        else
          pos ← bmw_rightmost_one_pos w;
          singleton_loop l' (wordnum + 1) (wordnum * BITS_PER_BITMAPWORD + pos)
      else singleton_loop l' (wordnum + 1) res
  end.

Definition bms_singleton_member (a : Bitmapset) : option (result Z) :=
  match a with
  | None => Some (Ereport ERRCODE_UNEXPECTED_NULL_VALUE)
  | Some l => singleton_loop l 0 (-1)
  end.

Fixpoint count_words (l : list Z) (result : Z) : option Z :=
  match l with
  | [] => Some result
  | w :: l' =>
      result ← (if negb (w =? 0) then n ← bmw_popcount w; Some (result + n) else Some result);
      count_words l' result
  end.

Definition bms_num_members (a : Bitmapset) : option Z :=
  match a with None => Some 0 | Some l => count_words l 0 end.

Fixpoint membership_loop (l : list Z) (result : BMS_Membership) : BMS_Membership :=
  match l with
  | [] => result
  | w :: l' =>
      if negb (w =? 0) then
        if bool_decide (result <> BMS_EMPTY_SET) || HAS_MULTIPLE_ONES w then BMS_MULTIPLE
        else membership_loop l' BMS_SINGLETON
      else membership_loop l' result
  end.

Definition bms_membership (a : Bitmapset) : BMS_Membership :=
  match a with None => BMS_EMPTY_SET | Some l => membership_loop l BMS_EMPTY_SET end.

(** [while ((w & BYTE_VALUE) == 0) { w >>= BYTE_NUMBER; result += BYTE_NUMBER; }] *)
Fixpoint skip_bytes (fuel : nat) (w result : Z) : option (Z * Z) :=
  match fuel with
  | O => None
  | S fuel' =>
      if Z.land w 255 =? 0 then skip_bytes fuel' (Z.shiftr w 8) (result + 8)
      else Some (w, result)
  end.

(** [None] in the inner option is the result [false]. *)
Fixpoint get_singleton_loop (l : list Z) (wordnum result : Z) : option (option Z) :=
  match l with
  | [] => Some (if result <? 0 then None else Some result)
  | w :: l' =>
      if negb (w =? 0) then
        if (0 <=? result) || HAS_MULTIPLE_ONES w then Some None
        else
          '(w, result) ← skip_bytes 4 w (wordnum * BITS_PER_BITMAPWORD);
          pos ← bmw_rightmost_one_pos w;
          get_singleton_loop l' (wordnum + 1) (result + pos)
      else get_singleton_loop l' (wordnum + 1) result
  end.

Definition bms_get_singleton_member (a : Bitmapset) : option (option Z) :=
  match a with None => Some None | Some l => get_singleton_loop l 0 (-1) end.

(** The loop over the preceding words. *)
Definition bms_member_index (a : Bitmapset) (x : Z) : option (result Z) :=
  match bms_is_member x a with
  | Ereport c => Some (Ereport c)
  | Ok false => Some (Ok (-1))
  | Ok true =>
      match a with
      | None => Some (Ok (-1))
      | Some l =>
          let wordnum := WORDNUM x in
          let bitnum := BITNUM x in
          result ← count_words (take (Z.to_nat wordnum) l) 0;
          let mask := u32 (bmw_bit bitnum - 1) in
          n ← bmw_popcount (Z.land (znth l wordnum) mask);
          Some (Ok (result + n))
      end
  end.

(** ** Iteration *)

(** The words, and the member found or -1. *)
Fixpoint first_member_loop (l : list Z) (wordnum : Z) : option (list Z * Z) :=
  match l with
  | [] => Some ([], -1)
  | w :: l' =>
      if negb (w =? 0) then
        let r := u32 (RIGHTMOST_ONE w) in
        pos ← bmw_rightmost_one_pos r;
        Some (Z.land w (bmw_not r) :: l', wordnum * BITS_PER_BITMAPWORD + pos)
      else
        '(l', x) ← first_member_loop l' (wordnum + 1);
        Some (w :: l', x)
  end.

Definition bms_first_member (a : Bitmapset) : option (Bitmapset * Z) :=
  match a with
  | None => Some (None, -1)
  | Some l => '(l, x) ← first_member_loop l 0; Some (Some l, x)
  end.

(** [l] holds the words from [wordnum] on. *)
Fixpoint next_member_loop (l : list Z) (wordnum mask : Z) : option Z :=
  match l with
  | [] => Some (-2)
  | w :: l' =>
      let w := Z.land w mask in
      if negb (w =? 0) then
        pos ← bmw_rightmost_one_pos w; Some (wordnum * BITS_PER_BITMAPWORD + pos)
      else next_member_loop l' (wordnum + 1) (bmw_not 0)
  end.

Definition bms_next_member (a : Bitmapset) (prevbit : Z) : option (result Z) :=
  if prevbit <? -1 then Some (Ereport ERRCODE_INVALID_PARAMETER_VALUE)
  else match a with
  | None => Some (Ok (-2))
  | Some l =>
      let prevbit := s32 (prevbit + 1) in
      let mask := u32 (Z.shiftl (bmw_not 0) (BITNUM prevbit)) in
      r ← next_member_loop (drop (Z.to_nat (WORDNUM prevbit)) l) (WORDNUM prevbit) mask;
      Some (Ok r)
  end.

(** ** Hashing *)

(** [for (lastword = nwords; --lastword >= 0;) if (words[lastword] != 0) break;] *)
Fixpoint lastword_loop (lastword : nat) (l : list Z) : Z :=
  match lastword with
  | O => -1
  | S lastword' =>
      if negb (znth l (Z.of_nat lastword') =? 0) then Z.of_nat lastword'
      else lastword_loop lastword' l
  end.

(** The words are hashed as they lie in memory, which is word aligned. *)
Definition bms_hash_value (bigendian : bool) (a : Bitmapset) : option Z :=
  match a with
  | None => Some 0
  | Some l =>
      let lastword := lastword_loop (length l) l in
      if lastword <? 0 then Some 0
      else hash_any bigendian true
             (flat_map (uint32_bytes bigendian) (take (Z.to_nat (lastword + 1)) l))
  end.

(** ** The abstract value of a set *)

Definition words_val (l : list Z) : Z := foldr (fun w v => w + 2 ^ 32 * v) 0 l.
Definition bms_val (a : Bitmapset) : Z := match a with None => 0 | Some l => words_val l end.

(** Membership, for [0 <= x]. *)
Definition mem (a : Bitmapset) (x : Z) : bool := Z.testbit (bms_val a) x.

(** All words are 32-bit words, and every member is an [int]. *)
Definition words_wf (l : list Z) : Prop := Forall (in_u 32) l.
Definition bms_wf (a : Bitmapset) : Prop :=
  match a with None => True | Some l => words_wf l /\ zlen l <= 2 ^ 26 end.

(** The members in increasing order. *)
Definition words_members (l : list Z) : list Z :=
  filter (fun x => Z.testbit (words_val l) x = true) (seqZ 0 (32 * zlen l)).
Definition members (a : Bitmapset) : list Z :=
  match a with None => [] | Some l => words_members l end.

Section WordFacts.

Lemma in_u_bits n w i : 0 <= n -> in_u n w -> n <= i -> Z.testbit w i = false.
Proof.
  intros Hn Hw Hi. unfold in_u in Hw.
  rewrite <- (Z.mod_small w (2 ^ n)) by done. apply Z.mod_pow2_bits_high. lia.
Qed.

Lemma bits_ext a b : (forall i, 0 <= i -> Z.testbit a i = Z.testbit b i) -> a = b.
Proof. intros H. apply Z.bits_inj'. exact H. Qed.

Lemma bmw_not_range w : in_u 32 (bmw_not w).
Proof. apply uN_range. lia. Qed.

Lemma bmw_not_bits w i : 0 <= i < 32 -> Z.testbit (bmw_not w) i = negb (Z.testbit w i).
Proof. intros Hi. unfold bmw_not, uN. rewrite Z.mod_pow2_bits_low by lia. apply Z.lnot_spec. lia. Qed.

Lemma bmw_bit_eq b : 0 <= b < 32 -> bmw_bit b = 2 ^ b.
Proof.
  intros Hb. unfold bmw_bit. rewrite Z.shiftl_mul_pow2, Z.mul_1_l by lia. apply uN_small.
  split; [apply Z.pow_nonneg; lia|]. apply Z.pow_lt_mono_r; lia.
Qed.

Lemma bmw_bit_bits b i : 0 <= b < 32 -> 0 <= i -> Z.testbit (bmw_bit b) i = (b =? i).
Proof. intros Hb Hi. rewrite bmw_bit_eq by done. apply Z.pow2_bits_eqb. lia. Qed.

Lemma bmw_bit_range b : in_u 32 (bmw_bit b).
Proof. apply uN_range. lia. Qed.

Lemma land_range n x y : 0 <= n -> in_u n x -> 0 <= y -> in_u n (Z.land x y).
Proof.
  intros Hn Hx Hy. unfold in_u in *. split; [apply Z.land_nonneg; lia|].
  destruct (Z.eq_dec (Z.land x y) 0) as [->|Hne]; [lia|].
  assert (H0 : 0 <= Z.land x y) by (apply Z.land_nonneg; lia).
  apply Z.log2_lt_pow2; [lia|]. eapply Z.le_lt_trans; [apply Z.log2_land; lia|].
  destruct (Z.eq_dec x 0) as [->|]; [rewrite Z.land_0_l in Hne; done|].
  eapply Z.le_lt_trans; [apply Z.le_min_l|]. apply Z.log2_lt_pow2; lia.
Qed.

Lemma land_and_not_bits x y i :
  in_u 32 x -> 0 <= i -> Z.testbit (Z.land x (bmw_not y)) i = Z.testbit x i && negb (Z.testbit y i).
Proof.
  intros Hx Hi. rewrite Z.land_spec. destruct (Z_lt_ge_dec i 32).
  - by rewrite bmw_not_bits by lia.
  - by rewrite (in_u_bits 32 x) by (done || lia).
Qed.

(** *** Lists of words *)

Lemma words_val_cons_bits w v i :
  in_u 32 w -> 0 <= i ->
  Z.testbit (w + 2 ^ 32 * v) i = if i <? 32 then Z.testbit w i else Z.testbit v (i - 32).
Proof.
  intros Hw Hi. unfold in_u in Hw. destruct (Z.ltb_spec i 32).
  - rewrite <- (Z.mod_pow2_bits_low _ 32) by lia.
    rewrite Z.mul_comm, Z.mod_add, Z.mod_small by lia. done.
  - replace i with ((i - 32) + 32) at 1 by lia. rewrite <- Z.div_pow2_bits by lia.
    rewrite Z.mul_comm, Z.div_add, Z.div_small by lia. by rewrite Z.add_0_l.
Qed.

Lemma words_val_nonneg l : words_wf l -> 0 <= words_val l.
Proof. induction 1 as [|w l Hw _ IH]; simpl; [lia|]. unfold in_u in Hw. lia. Qed.

Lemma words_val_range l : words_wf l -> 0 <= words_val l < 2 ^ (32 * zlen l).
Proof.
  induction 1 as [|w l Hw _ IH]; [unfold zlen; simpl; lia|].
  change (zlen (w :: l)) with (Z.of_nat (S (length l))). cbn [words_val foldr].
  fold (words_val l). unfold zlen in IH. unfold in_u in Hw.
  replace (32 * Z.of_nat (S (length l))) with (32 + 32 * Z.of_nat (length l)) by lia.
  rewrite Z.pow_add_r by lia. lia.
Qed.

Lemma words_val_bits_nil i : Z.testbit (words_val []) i = false.
Proof. apply Z.bits_0. Qed.

Lemma words_val_bits_cons w l i :
  words_wf (w :: l) -> 0 <= i ->
  Z.testbit (words_val (w :: l)) i =
    if i <? 32 then Z.testbit w i else Z.testbit (words_val l) (i - 32).
Proof. intros Hw Hi. destruct (Forall_cons_1 _ _ _ Hw) as [Hw' _]. by apply words_val_cons_bits. Qed.

Lemma znth_cons (w : Z) l k :
  0 <= k -> znth (w :: l) k = if k =? 0 then w else znth l (k - 1).
Proof.
  intros Hk. unfold znth. destruct (Z.eqb_spec k 0) as [->|]; [done|].
  replace (Z.to_nat k) with (S (Z.to_nat (k - 1))) by lia. done.
Qed.

(** The bit [i] of the set is the bit [BITNUM i] of the word [WORDNUM i]. *)
Lemma words_val_index l i :
  words_wf l -> 0 <= i ->
  Z.testbit (words_val l) i =
    if WORDNUM i <? zlen l then Z.testbit (znth l (WORDNUM i)) (BITNUM i) else false.
Proof.
  intros Hl Hi. unfold WORDNUM, BITNUM, BITS_PER_BITMAPWORD.
  rewrite Z.quot_div_nonneg, Z.rem_mod_nonneg by lia.
  revert i Hi. induction Hl as [|w l Hw Hl IH]; intros i Hi.
  - rewrite words_val_bits_nil. change (zlen []) with 0.
    destruct (Z.ltb_spec (i / 32) 0); [|done]. zdiv_lia.
  - rewrite words_val_bits_cons by (done || by constructor).
    change (zlen (w :: l)) with (Z.of_nat (S (length l))). rewrite znth_cons by zdiv_lia.
    destruct (Z.ltb_spec i 32).
    + replace (i / 32) with 0 by zdiv_lia. replace (i mod 32) with i by zdiv_lia.
      destruct (Z.ltb_spec 0 (Z.of_nat (S (length l)))); [done|lia].
    + rewrite IH by lia. unfold zlen.
      replace ((i - 32) / 32) with (i / 32 - 1) by zdiv_lia.
      replace ((i - 32) mod 32) with (i mod 32) by zdiv_lia.
      destruct (Z.eqb_spec (i / 32) 0); [zdiv_lia|].
      destruct (Z.ltb_spec (i / 32 - 1) (Z.of_nat (length l)));
        destruct (Z.ltb_spec (i / 32) (Z.of_nat (S (length l)))); try lia; done.
Qed.

Lemma wordnum_facts x : 0 <= x ->
  0 <= WORDNUM x <= x /\ 0 <= BITNUM x < 32 /\ x = 32 * WORDNUM x + BITNUM x.
Proof. intros Hx. unfold WORDNUM, BITNUM, BITS_PER_BITMAPWORD. zdiv_lia. Qed.

Lemma words_wf_zset l i w : words_wf l -> in_u 32 w -> words_wf (zset l i w).
Proof. intros Hl Hw. by apply Forall_insert. Qed.

Lemma words_wf_znth l i : words_wf l -> 0 <= i < zlen l -> in_u 32 (znth l i).
Proof.
  intros Hl Hi. unfold zlen in Hi. apply (Forall_lookup_1 _ l (Z.to_nat i)); [done|].
  apply list_lookup_lookup_total_lt. lia.
Qed.

(** Replacing one word. *)
Lemma words_val_zset l k w i :
  words_wf l -> in_u 32 w -> 0 <= k < zlen l -> 0 <= i ->
  Z.testbit (words_val (zset l k w)) i =
    if WORDNUM i =? k then Z.testbit w (BITNUM i) else Z.testbit (words_val l) i.
Proof.
  intros Hl Hw Hk Hi. destruct (wordnum_facts i Hi) as (Hwi & _ & _).
  rewrite !words_val_index by (done || by apply words_wf_zset). rewrite zlen_zset.
  destruct (Z.eqb_spec (WORDNUM i) k) as [->|Hne].
  - rewrite znth_zset_eq by done. destruct (Z.ltb_spec k (zlen l)); [done|lia].
  - rewrite znth_zset_ne by lia. done.
Qed.

(** *** Bitwise combination *)

Lemma combine_words_wf f r o :
  (forall x y, in_u 32 x -> in_u 32 y -> in_u 32 (f x y)) ->
  words_wf r -> words_wf o -> words_wf (combine_words f r o) /\ length (combine_words f r o) = length r.
Proof.
  intros Hf Hr. revert o. induction Hr as [|x r Hx Hr IH]; intros [|y o] Ho; cbn [combine_words];
    try (split; [by constructor|done]).
  destruct (Forall_cons_1 _ _ _ Ho) as [Hy Ho']. destruct (IH o Ho') as [Hw Hlen].
  split; [constructor; auto|]. cbn [length]. by rewrite Hlen.
Qed.

Lemma combine_words_bits f g r o i :
  (forall x y, in_u 32 x -> in_u 32 y -> in_u 32 (f x y)) ->
  (forall x y j, in_u 32 x -> in_u 32 y -> 0 <= j < 32 ->
     Z.testbit (f x y) j = g (Z.testbit x j) (Z.testbit y j)) ->
  (forall b, g b false = b) \/ (length r <= length o)%nat ->
  (forall b, g false b = false) \/ (length o <= length r)%nat -> g false false = false ->
  words_wf r -> words_wf o -> 0 <= i ->
  Z.testbit (words_val (combine_words f r o)) i =
    g (Z.testbit (words_val r) i) (Z.testbit (words_val o) i).
Proof.
  intros Hfr Hfb H1 H2 H0 Hr. revert o i H1 H2.
  induction Hr as [|x r Hx Hr IH]; intros [|y o] i H1 H2 Ho Hi; cbn [combine_words].
  - by rewrite !words_val_bits_nil.
  - rewrite words_val_bits_nil. destruct H2 as [->|H2]; [done|]. cbn [length] in H2. lia.
  - rewrite words_val_bits_nil. destruct H1 as [H1|H1]; [by rewrite H1|]. cbn [length] in H1. lia.
  - destruct (Forall_cons_1 _ _ _ Ho) as [Hy Ho'].
    assert (Hwf : words_wf (f x y :: combine_words f r o))
      by (constructor; [auto|by apply combine_words_wf]).
    rewrite !words_val_bits_cons by (done || by constructor).
    destruct (Z.ltb_spec i 32); [apply Hfb; done|].
    apply IH; [destruct H1 as [|H1]; [by left|right; cbn [length] in H1; lia]
              |destruct H2 as [|H2]; [by left|right; cbn [length] in H2; lia]|done|lia].
Qed.

Lemma words_or_bits r o i :
  words_wf r -> words_wf o -> (length o <= length r)%nat -> 0 <= i ->
  Z.testbit (words_val (words_or r o)) i = Z.testbit (words_val r) i || Z.testbit (words_val o) i.
Proof.
  intros Hr Ho Hl Hi. apply (combine_words_bits Z.lor orb); try done.
  - intros x y Hx Hy. by apply lor_range.
  - intros. apply Z.lor_spec.
  - left. by intros [].
  - by right.
Qed.

Lemma words_and_bits r o i :
  words_wf r -> words_wf o -> (length r <= length o)%nat -> 0 <= i ->
  Z.testbit (words_val (words_and r o)) i = Z.testbit (words_val r) i && Z.testbit (words_val o) i.
Proof.
  intros Hr Ho Hl Hi. apply (combine_words_bits Z.land andb); try done.
  - intros x y Hx Hy. apply land_range; [lia|done|apply Hy].
  - intros. apply Z.land_spec.
  - by right.
  - by left.
Qed.

Lemma words_and_not_bits r o i :
  words_wf r -> words_wf o -> 0 <= i ->
  Z.testbit (words_val (words_and_not r o)) i =
    Z.testbit (words_val r) i && negb (Z.testbit (words_val o) i).
Proof.
  intros Hr Ho Hi. apply (combine_words_bits _ (fun a b => a && negb b)); try done.
  - intros x y Hx Hy. apply land_range; [lia|done|apply bmw_not_range].
  - intros x y j Hx Hy Hj. apply land_and_not_bits; [done|lia].
  - left. by intros [].
  - by left.
Qed.

Lemma words_or_wf r o : words_wf r -> words_wf o -> words_wf (words_or r o) /\ length (words_or r o) = length r.
Proof. apply combine_words_wf. intros. by apply lor_range. Qed.
Lemma words_and_wf r o : words_wf r -> words_wf o -> words_wf (words_and r o) /\ length (words_and r o) = length r.
Proof. apply combine_words_wf. intros x y Hx Hy. apply land_range; [lia|done|apply Hy]. Qed.
Lemma words_and_not_wf r o :
  words_wf r -> words_wf o -> words_wf (words_and_not r o) /\ length (words_and_not r o) = length r.
Proof. apply combine_words_wf. intros x y Hx Hy. apply land_range; [lia|done|apply bmw_not_range]. Qed.
End WordFacts.

(** ** Set operations *)

Section SetFacts.

Lemma mem_None x : mem None x = false.
Proof. apply Z.bits_0. Qed.

(** [r] is well formed and has the members given by [f]. *)
Definition denotes (r : Bitmapset) (f : Z -> bool) : Prop :=
  bms_wf r /\ forall x, 0 <= x -> mem r x = f x.

Lemma denotes_or r o (f : Z -> bool) :
  bms_wf (Some r) -> bms_wf (Some o) -> zlen o <= zlen r ->
  (forall x, f x = mem (Some r) x || mem (Some o) x) -> denotes (Some (words_or r o)) f.
Proof.
  intros [Hr Hlr] [Ho _] Hl Hf. unfold zlen in *. destruct (words_or_wf r o Hr Ho) as [Hw Hlen].
  split; [split; [done|]; unfold zlen; by rewrite Hlen|].
  intros x Hx. rewrite Hf. apply words_or_bits; [done|done|lia|done].
Qed.

Lemma union_denotes a b :
  bms_wf a -> bms_wf b -> denotes (bms_union a b) (fun x => mem a x || mem b x).
Proof.
  intros Ha Hb. destruct a as [la|], b as [lb|]; cbn [bms_union bms_copy].
  - destruct (Z.leb_spec (zlen la) (zlen lb)); apply denotes_or; try done; try lia.
    intros x. apply orb_comm.
  - split; [done|]. intros x _. by rewrite mem_None, orb_false_r.
  - split; [done|]. intros x _. by rewrite mem_None.
  - split; [done|]. intros x _. by rewrite !mem_None.
Qed.

(** [bms_add_members] and [bms_join] compute the same words as [bms_union]. *)
Lemma add_members_denotes a b :
  bms_wf a -> bms_wf b -> denotes (bms_add_members a b) (fun x => mem a x || mem b x).
Proof.
  intros Ha Hb. destruct a as [la|], b as [lb|]; try exact (union_denotes _ _ Ha Hb).
  cbn [bms_add_members]. destruct (Z.ltb_spec (zlen la) (zlen lb)); apply denotes_or; try done; try lia.
  intros x. apply orb_comm.
Qed.

Lemma join_denotes a b :
  bms_wf a -> bms_wf b -> denotes (bms_join a b) (fun x => mem a x || mem b x).
Proof. intros Ha Hb. destruct a, b; exact (add_members_denotes _ _ Ha Hb). Qed.

Lemma intersect_denotes a b :
  bms_wf a -> bms_wf b -> denotes (bms_intersect a b) (fun x => mem a x && mem b x).
Proof.
  intros Ha Hb. destruct a as [la|], b as [lb|]; cbn [bms_intersect];
    try (split; [done|]; intros x _; rewrite !mem_None; by rewrite ?andb_false_r).
  destruct Ha as [Ha Hla], Hb as [Hb Hlb]. unfold zlen in *.
  destruct (Z.leb_spec (Z.of_nat (length la)) (Z.of_nat (length lb))).
  - destruct (words_and_wf la lb Ha Hb) as [Hw Hl].
    split; [split; [done|]; unfold zlen; by rewrite Hl|]. intros x Hx. apply words_and_bits; [done|done|lia|done].
  - destruct (words_and_wf lb la Hb Ha) as [Hw Hl].
    split; [split; [done|]; unfold zlen; by rewrite Hl|]. intros x Hx. rewrite andb_comm.
    apply words_and_bits; [done|done|lia|done].
Qed.

Lemma difference_denotes a b :
  bms_wf a -> bms_wf b -> denotes (bms_difference a b) (fun x => mem a x && negb (mem b x)).
Proof.
  intros Ha Hb. destruct a as [la|], b as [lb|]; cbn [bms_difference bms_copy].
  - destruct Ha as [Ha Hla], Hb as [Hb Hlb]. destruct (words_and_not_wf la lb Ha Hb) as [Hw Hl].
    split; [split; [done|]; unfold zlen in *; by rewrite Hl|]. intros x Hx. by apply words_and_not_bits.
  - split; [done|]. intros x _. by rewrite mem_None, andb_true_r.
  - split; [done|]. intros x _. by rewrite !mem_None.
  - split; [done|]. intros x _. by rewrite !mem_None.
Qed.

Lemma del_members_denotes a b :
  bms_wf a -> bms_wf b -> denotes (bms_del_members a b) (fun x => mem a x && negb (mem b x)).
Proof. intros Ha Hb. destruct a, b; exact (difference_denotes _ _ Ha Hb). Qed.

Lemma words_val_app_zeros l n : words_val (l ++ replicate n 0) = words_val l.
Proof.
  induction l as [|w l IH]; cbn [app].
  - induction n as [|n IHn]; [done|]. cbn [replicate]. unfold words_val in *. cbn [foldr]. rewrite IHn. done.
  - unfold words_val in *. cbn [foldr]. by rewrite IH.
Qed.

(** After the first loop [bms_int_members] differs from [bms_intersect] only in
    zero words. *)
Lemma int_members_words la lb :
  words_val (take (Nat.min (length la) (length lb)) (words_and la lb)) =
  words_val (if zlen la <=? zlen lb then words_and la lb else words_and lb la).
Proof.
  assert (Hcomm : forall x y, Z.land x y = Z.land y x) by apply Z.land_comm.
  revert lb. induction la as [|x la IH]; intros [|y lb]; try done.
  change (words_and (x :: la) (y :: lb)) with (Z.land x y :: words_and la lb).
  change (words_and (y :: lb) (x :: la)) with (Z.land y x :: words_and lb la).
  cbn [length Nat.min take]. specialize (IH lb). unfold zlen in *. cbn [length].
  replace (Z.of_nat (S (length la)) <=? Z.of_nat (S (length lb)))
    with (Z.of_nat (length la) <=? Z.of_nat (length lb))
    by (destruct (Z.leb_spec (Z.of_nat (length la)) (Z.of_nat (length lb)));
        destruct (Z.leb_spec (Z.of_nat (S (length la))) (Z.of_nat (S (length lb)))); lia).
  rewrite (Hcomm y x). unfold words_val in *. cbn [foldr]. rewrite IH.
  destruct (_ <=? _); done.
Qed.

Lemma int_members_denotes a b :
  bms_wf a -> bms_wf b -> denotes (bms_int_members a b) (fun x => mem a x && mem b x).
Proof.
  intros Ha Hb. destruct (intersect_denotes a b Ha Hb) as [Hw Hm].
  destruct a as [la|], b as [lb|]; cbn [bms_int_members]; try done.
  - destruct Ha as [Ha Hla], Hb as [Hb _]. split.
    + destruct (words_and_wf la lb Ha Hb) as [Hwa Hl]. split.
      * apply Forall_app. split; [by apply Forall_take|]. apply Forall_replicate. unfold in_u. lia.
      * unfold zlen in *. rewrite length_app, length_take, length_replicate. lia.
    + intros x Hx. rewrite <- Hm by done. unfold mem. cbn [bms_val bms_intersect].
      rewrite words_val_app_zeros, int_members_words. by destruct (_ <=? _).
Qed.

(** *** One element *)

Lemma singleton_denotes x : 0 <= x < 2 ^ 31 ->
  exists l, bms_make_singleton x = Ok (Some l) /\ denotes (Some l) (fun y => y =? x) /\
    zlen l = WORDNUM x + 1.
Proof.
  intros Hx. unfold bms_make_singleton. destruct (Z.ltb_spec x 0); [lia|].
  destruct (wordnum_facts x ltac:(lia)) as (Hw & Hb & Ex). eexists. split; [done|].
  set (z := replicate (Z.to_nat (WORDNUM x + 1)) 0).
  assert (Hlen : zlen z = WORDNUM x + 1) by (unfold z, zlen; rewrite length_replicate; lia).
  assert (Hz : words_wf z) by (apply Forall_replicate; unfold in_u; lia).
  assert (Hv : words_val z = 0) by apply (words_val_app_zeros []).
  rewrite zlen_zset. split; [|done]. split.
  - split; [apply words_wf_zset; [done|apply bmw_bit_range]|]. rewrite zlen_zset, Hlen. lia.
  - intros y Hy. unfold mem. cbn [bms_val]. destruct (wordnum_facts y Hy) as (Hwy & Hby & Ey).
    rewrite words_val_zset by (done || apply bmw_bit_range || lia). rewrite Hv, Z.bits_0.
    rewrite bmw_bit_bits by lia.
    destruct (Z.eqb_spec (WORDNUM y) (WORDNUM x)); destruct (Z.eqb_spec (BITNUM x) (BITNUM y));
      destruct (Z.eqb_spec y x); try done; try lia; subst; lia.
Qed.

Lemma is_member_spec a x : bms_wf a ->
  bms_is_member x a = if x <? 0 then Ereport ERRCODE_DATA_EXCEPTION else Ok (mem a x).
Proof.
  intros Ha. unfold bms_is_member. destruct (Z.ltb_spec x 0); [done|].
  destruct a as [l|]; [|by rewrite mem_None].
  destruct Ha as [Hl _]. destruct (wordnum_facts x) as (Hw & Hb & _); [done|].
  unfold mem. cbn [bms_val]. rewrite words_val_index by done.
  destruct (Z.leb_spec (zlen l) (WORDNUM x)); destruct (Z.ltb_spec (WORDNUM x) (zlen l)); try lia; [done|].
  assert (E : Z.land (znth l (WORDNUM x)) (bmw_bit (BITNUM x)) =
              if Z.testbit (znth l (WORDNUM x)) (BITNUM x) then 2 ^ BITNUM x else 0).
  { apply bits_ext. intros i Hi. rewrite Z.land_spec, bmw_bit_bits by lia.
    destruct (Z.eqb_spec (BITNUM x) i) as [<-|Hne]; rewrite ?andb_true_r, ?andb_false_r;
      destruct (Z.testbit (znth l (WORDNUM x)) (BITNUM x)); rewrite ?Z.bits_0; try done.
    - by rewrite Z.pow2_bits_true by lia.
    - by rewrite Z.pow2_bits_false by lia. }
  rewrite E. destruct (Z.testbit _ _); [|done].
  assert (0 < 2 ^ BITNUM x) by (apply Z.pow_pos_nonneg; lia).
  destruct (Z.eqb_spec (2 ^ BITNUM x) 0); [lia|done].
Qed.

Lemma add_member_denotes a x : bms_wf a -> 0 <= x < 2 ^ 31 ->
  exists r, bms_add_member a x = Ok r /\ denotes r (fun y => (y =? x) || mem a y).
Proof.
  intros Ha Hx. unfold bms_add_member. destruct (Z.ltb_spec x 0); [lia|].
  destruct (singleton_denotes x Hx) as (ls & Es & [Hws Hms] & Hls).
  destruct a as [l|].
  2: { exists (Some ls). split; [done|]. split; [done|]. intros y Hy. rewrite Hms by done.
       by rewrite mem_None, orb_false_r. }
  destruct (wordnum_facts x) as (Hw & Hb & Ex); [lia|].
  destruct (Z.leb_spec (zlen l) (WORDNUM x)).
  - rewrite Es. sbind. eexists. split; [done|]. destruct Ha as [Hl Hll]. destruct Hws as [Hws Hlls].
    destruct (words_or_wf ls l Hws Hl) as [Hwf Hlen].
    split; [split; [done|]; unfold zlen in *; by rewrite Hlen|].
    intros y Hy. rewrite <- Hms by done. apply words_or_bits; [done|done|unfold zlen in *; lia|done].
  - eexists. split; [done|]. destruct Ha as [Hl Hll].
    pose proof (words_wf_znth l (WORDNUM x) Hl ltac:(lia)) as Hn.
    assert (Hr : in_u 32 (Z.lor (znth l (WORDNUM x)) (bmw_bit (BITNUM x))))
      by (apply lor_range; [lia|done|apply bmw_bit_range]).
    split; [split; [by apply words_wf_zset|by rewrite zlen_zset]|].
    intros y Hy. destruct (wordnum_facts y Hy) as (Hwy & Hby & Ey). unfold mem. cbn [bms_val].
    rewrite words_val_zset by (done || lia). rewrite (words_val_index l y) by done.
    destruct (Z.eqb_spec (WORDNUM y) (WORDNUM x)) as [Ew|Hne].
    + rewrite Z.lor_spec, bmw_bit_bits, Ew by lia.
      destruct (Z.ltb_spec (WORDNUM x) (zlen l)); [|lia]. rewrite orb_comm. f_equal.
      destruct (Z.eqb_spec (BITNUM x) (BITNUM y)); destruct (Z.eqb_spec y x); subst; try done; lia.
    + destruct (Z.eqb_spec y x); [subst; done|done].
Qed.

Lemma del_member_denotes a x : bms_wf a -> 0 <= x ->
  exists r, bms_del_member a x = Ok r /\ denotes r (fun y => negb (y =? x) && mem a y).
Proof.
  intros Ha Hx. unfold bms_del_member. destruct (Z.ltb_spec x 0); [lia|].
  destruct a as [l|].
  2: { exists None. split; [done|]. split; [done|]. intros y Hy. by rewrite mem_None, andb_false_r. }
  destruct (wordnum_facts x) as (Hw & Hb & Ex); [lia|]. destruct Ha as [Hl Hll].
  destruct (Z.ltb_spec (WORDNUM x) (zlen l)).
  - eexists. split; [done|]. pose proof (words_wf_znth l (WORDNUM x) Hl ltac:(lia)) as Hn.
    assert (Hr : in_u 32 (Z.land (znth l (WORDNUM x)) (bmw_not (bmw_bit (BITNUM x)))))
      by (apply land_range; [lia|done|apply bmw_not_range]).
    split; [split; [by apply words_wf_zset|by rewrite zlen_zset]|].
    intros y Hy. destruct (wordnum_facts y Hy) as (Hwy & Hby & Ey). unfold mem. cbn [bms_val].
    rewrite words_val_zset by (done || lia). rewrite (words_val_index l y) by done.
    destruct (Z.eqb_spec (WORDNUM y) (WORDNUM x)) as [Ew|Hne].
    + rewrite land_and_not_bits, bmw_bit_bits, Ew by (done || lia).
      destruct (Z.ltb_spec (WORDNUM x) (zlen l)); [|lia]. rewrite andb_comm. f_equal. f_equal.
      destruct (Z.eqb_spec (BITNUM x) (BITNUM y)); destruct (Z.eqb_spec y x); subst; try done; lia.
    + destruct (Z.eqb_spec y x); [subst; done|done].
  - exists (Some l). split; [done|]. split; [done|]. intros y Hy.
    destruct (Z.eqb_spec y x) as [->|]; [|done]. unfold mem. cbn [bms_val]. rewrite words_val_index by done.
    destruct (Z.ltb_spec (WORDNUM x) (zlen l)); [lia|done].
Qed.
End SetFacts.

(** ** Comparisons *)

Section CompareFacts.

Lemma words_empty_val l : words_wf l -> words_empty l = (words_val l =? 0).
Proof.
  induction 1 as [|w l Hw Hl IH]; [done|]. cbn [words_empty words_val foldr]. fold (words_val l).
  pose proof (words_val_nonneg l Hl). unfold in_u in Hw. rewrite IH.
  destruct (Z.eqb_spec w 0); destruct (Z.eqb_spec (words_val l) 0);
    destruct (Z.eqb_spec (w + 2 ^ 32 * words_val l) 0); cbn [negb]; try done; lia.
Qed.

Lemma words_equal_val ls ll :
  words_wf ls -> words_wf ll -> zlen ls <= zlen ll ->
  words_equal ls ll = (words_val ls =? words_val ll).
Proof.
  intros Hs. revert ll. induction Hs as [|x s Hx Hs IH]; intros [|y l] Hl Hle; try done.
  - cbn [words_equal]. rewrite words_empty_val by done. apply Z.eqb_sym.
  - destruct (Forall_cons_1 _ _ _ Hl) as [Hy Hl']. cbn [words_equal words_val foldr].
    fold (words_val s). fold (words_val l).
    rewrite IH; [|done|unfold zlen in *; cbn [length] in Hle; lia].
    unfold in_u in *. pose proof (words_val_nonneg s Hs). pose proof (words_val_nonneg l Hl').
    destruct (Z.eqb_spec x y); destruct (Z.eqb_spec (words_val s) (words_val l));
      destruct (Z.eqb_spec (x + 2 ^ 32 * words_val s) (y + 2 ^ 32 * words_val l));
      cbn [negb]; try done; lia.
Qed.

Lemma bms_is_empty_val a : bms_wf a -> bms_is_empty a = (bms_val a =? 0).
Proof. destruct a as [l|]; [|done]. intros [Hl _]. by apply words_empty_val. Qed.

Lemma bms_equal_val a b : bms_wf a -> bms_wf b -> bms_equal a b = (bms_val a =? bms_val b).
Proof.
  intros Ha Hb. destruct a as [la|], b as [lb|]; cbn [bms_equal].
  - destruct Ha as [Ha _], Hb as [Hb _]. cbn [bms_val].
    destruct (Z.leb_spec (zlen la) (zlen lb)); rewrite words_equal_val by (done || lia); [done|].
    apply Z.eqb_sym.
  - by apply bms_is_empty_val.
  - rewrite bms_is_empty_val by done. apply Z.eqb_sym.
  - done.
Qed.

(** Equal values are equal sets. *)
Lemma val_mem_eq a b : bms_val a = bms_val b <-> forall x, 0 <= x -> mem a x = mem b x.
Proof.
  split; [by unfold mem; intros ->|]. intros H. by apply bits_ext.
Qed.

(** Inclusion of the bits of two numbers. *)
Definition incl (v w : Z) : Prop :=
  forall i, 0 <= i -> Z.testbit v i = true -> Z.testbit w i = true.

Lemma incl_0 w : incl 0 w.
Proof. intros i _. by rewrite Z.bits_0. Qed.

Lemma incl_zero_r v : 0 <= v -> incl v 0 -> v = 0.
Proof.
  intros Hv H. apply bits_ext. intros i Hi. rewrite Z.bits_0.
  destruct (Z.testbit v i) eqn:E; [|done]. apply H in E; [|done]. by rewrite Z.bits_0 in E.
Qed.

Lemma word_incl x y : in_u 32 x -> in_u 32 y -> Z.land x (bmw_not y) = 0 <-> incl x y.
Proof.
  intros Hx Hy. split; intros H.
  - intros i Hi Ht. pose proof (land_and_not_bits x y i Hx Hi) as E.
    rewrite H, Z.bits_0, Ht in E. by destruct (Z.testbit y i).
  - apply bits_ext. intros i Hi. rewrite land_and_not_bits, Z.bits_0 by done.
    destruct (Z.testbit x i) eqn:E; [|done]. by rewrite (H i Hi E).
Qed.

Lemma incl_cons x v y w :
  in_u 32 x -> in_u 32 y -> incl (x + 2 ^ 32 * v) (y + 2 ^ 32 * w) <-> incl x y /\ incl v w.
Proof.
  intros Hx Hy. split.
  - intros H. split; intros i Hi Ht.
    + destruct (Z_lt_ge_dec i 32); [|by rewrite (in_u_bits 32) in Ht by (done || lia)].
      specialize (H i Hi). rewrite !words_val_cons_bits in H by done.
      destruct (Z.ltb_spec i 32); [auto|lia].
    + specialize (H (i + 32) ltac:(lia)). rewrite !words_val_cons_bits in H by (done || lia).
      destruct (Z.ltb_spec (i + 32) 32); [lia|]. replace (i + 32 - 32) with i in H by lia. auto.
  - intros [Hxy Hvw] i Hi. rewrite !words_val_cons_bits by done.
    destruct (Z.ltb_spec i 32); [auto|]. apply Hvw. lia.
Qed.

Lemma words_subset_val la lb :
  words_wf la -> words_wf lb -> words_subset la lb = true <-> incl (words_val la) (words_val lb).
Proof.
  intros Ha. revert lb. induction Ha as [|x la Hx Ha IH]; intros lb Hb.
  - split; [intros _; apply incl_0|done].
  - destruct lb as [|y lb].
    + change (words_subset (x :: la) []) with (words_empty (x :: la)).
      assert (Hxa : words_wf (x :: la)) by (by constructor).
      rewrite words_empty_val by done. change (words_val []) with 0. split.
      * intros ->%Z.eqb_eq. apply incl_0.
      * intros H. apply Z.eqb_eq, incl_zero_r; [by apply words_val_nonneg|done].
    + destruct (Forall_cons_1 _ _ _ Hb) as [Hy Hb']. cbn [words_subset words_val foldr].
      fold (words_val la). fold (words_val lb). rewrite incl_cons, <- word_incl, <- IH by done.
      destruct (Z.eqb_spec (Z.land x (bmw_not y)) 0); cbn [negb]; intuition congruence.
Qed.

Lemma bms_is_subset_val a b :
  bms_wf a -> bms_wf b -> bms_is_subset a b = true <-> incl (bms_val a) (bms_val b).
Proof.
  intros Ha Hb. destruct a as [la|], b as [lb|]; cbn [bms_is_subset].
  - apply words_subset_val; [apply Ha|apply Hb].
  - rewrite bms_is_empty_val by done. cbn [bms_val]. split.
    + intros ->%Z.eqb_eq. apply incl_0.
    + intros H. apply Z.eqb_eq, incl_zero_r; [apply words_val_nonneg, Ha|done].
  - split; [intros _; apply incl_0|done].
  - split; [intros _; apply incl_0|done].
Qed.

(** The status of [bms_subset_compare] in terms of the two inclusions. *)
Definition comparison (ab ba : bool) : BMS_Comparison :=
  match ab, ba with
  | true, true => BMS_EQUAL
  | true, false => BMS_SUBSET1
  | false, true => BMS_SUBSET2
  | false, false => BMS_DIFFERENT
  end.

Lemma compare_extra_spec1 p q l :
  p || q = true ->
  compare_extra BMS_SUBSET1 BMS_SUBSET2 (comparison p q) l = comparison (p && words_empty l) q.
Proof.
  revert p q. induction l as [|w l IH]; intros p q Hpq; cbn [compare_extra words_empty].
  - by rewrite andb_true_r.
  - destruct (negb (w =? 0)); [|by apply IH].
    rewrite andb_false_r. destruct p, q; try done; cbn [comparison decide];
      (destruct (decide _) as [|]; [done|]) || idtac; try (change BMS_SUBSET2 with (comparison false true); by rewrite IH).
Qed.

Lemma compare_extra_spec2 p q l :
  p || q = true ->
  compare_extra BMS_SUBSET2 BMS_SUBSET1 (comparison p q) l = comparison p (q && words_empty l).
Proof.
  revert p q. induction l as [|w l IH]; intros p q Hpq; cbn [compare_extra words_empty].
  - by rewrite andb_true_r.
  - destruct (negb (w =? 0)); [|by apply IH].
    rewrite andb_false_r. destruct p, q; try done; cbn [comparison decide];
      (destruct (decide _) as [|]; [done|]) || idtac; try (change BMS_SUBSET1 with (comparison true false); by rewrite IH).
Qed.

Lemma compare_common_spec p q x y :
  p || q = true ->
  compare_common (comparison p q) x y =
    let p' := p && (Z.land x (bmw_not y) =? 0) in
    let q' := q && (Z.land y (bmw_not x) =? 0) in
    if p' || q' then Some (comparison p' q') else None.
Proof.
  intros Hpq. unfold compare_common. cbv zeta.
  destruct (Z.land x (bmw_not y) =? 0); destruct (Z.land y (bmw_not x) =? 0); destruct p, q; done.
Qed.

Lemma compare_words_spec p q la lb :
  p || q = true ->
  compare_words (comparison p q) la lb = comparison (p && words_subset la lb) (q && words_subset lb la).
Proof.
  revert p q lb. induction la as [|x la IH]; intros p q lb Hpq.
  - destruct lb as [|y lb].
    + cbn [compare_words compare_extra]. change (words_subset [] []) with true. by rewrite !andb_true_r.
    + change (compare_words (comparison p q) [] (y :: lb))
        with (compare_extra BMS_SUBSET2 BMS_SUBSET1 (comparison p q) (y :: lb)).
      rewrite compare_extra_spec2 by done. change (words_subset [] (y :: lb)) with true.
      by rewrite andb_true_r.
  - destruct lb as [|y lb].
    + change (compare_words (comparison p q) (x :: la) [])
        with (compare_extra BMS_SUBSET1 BMS_SUBSET2 (comparison p q) (x :: la)).
      rewrite compare_extra_spec1 by done. change (words_subset [] (x :: la)) with true.
      by rewrite andb_true_r.
    + cbn [compare_words words_subset]. rewrite compare_common_spec by done. cbv zeta.
      destruct (p && (Z.land x (bmw_not y) =? 0)) eqn:Ep;
        destruct (q && (Z.land y (bmw_not x) =? 0)) eqn:Eq; cbn [orb];
        rewrite ?IH by done;
        destruct p, q; cbn [andb] in *; try done; rewrite ?Ep, ?Eq; cbn [negb andb]; done.
Qed.

Lemma subset_compare_spec a b :
  bms_subset_compare a b = comparison (bms_is_subset a b) (bms_is_subset b a).
Proof.
  destruct a as [la|], b as [lb|]; cbn [bms_subset_compare bms_is_subset]; try done.
  change BMS_EQUAL with (comparison true true). by rewrite compare_words_spec.
Qed.

Lemma words_nonempty_difference_spec la lb :
  words_nonempty_difference la lb = negb (words_subset la lb).
Proof.
  revert lb. induction la as [|x la IH]; intros [|y lb]; try done.
  cbn [words_nonempty_difference words_subset]. destruct (negb _); [done|]. apply IH.
Qed.

Lemma nonempty_difference_spec a b : bms_nonempty_difference a b = negb (bms_is_subset a b).
Proof.
  destruct a as [la|], b as [lb|]; try done. apply words_nonempty_difference_spec.
Qed.

Lemma word_overlap x y : Z.land x y <> 0 <-> exists i, 0 <= i /\ Z.testbit x i = true /\ Z.testbit y i = true.
Proof.
  split.
  - intros H. destruct (Z_lt_ge_dec (Z.land x y) 0) as [Hn|Hp].
    + (* infinitely many common bits *)
      assert (Hx : x < 0 /\ y < 0) by (by apply Z.land_neg).
      set (i := Z.max (Z.log2 (Z.pred (- x))) (Z.log2 (Z.pred (- y))) + 1).
      pose proof (Z.log2_nonneg (Z.pred (- x))).
      exists i. split; [lia|]. split; (apply Z.bits_above_log2_neg; lia).
    + exists (Z.log2 (Z.land x y)). pose proof (Z.log2_nonneg (Z.land x y)). split; [done|].
      assert (Hb : Z.testbit (Z.land x y) (Z.log2 (Z.land x y)) = true) by (apply Z.bit_log2; lia).
      rewrite Z.land_spec in Hb. by apply andb_true_iff in Hb.
  - intros (i & Hi & Hx & Hy) E. assert (Hb : Z.testbit (Z.land x y) i = true)
      by (rewrite Z.land_spec, Hx, Hy; done). by rewrite E, Z.bits_0 in Hb.
Qed.

Lemma words_overlap_val la lb :
  words_wf la -> words_wf lb ->
  words_overlap la lb = true <->
  exists i, 0 <= i /\ Z.testbit (words_val la) i = true /\ Z.testbit (words_val lb) i = true.
Proof.
  intros Ha. revert lb. induction Ha as [|x la Hx Ha IH]; intros [|y lb] Hb.
  1-3: split; [done|intros (i & _ & H1 & H2); by rewrite ?words_val_bits_nil in *].
  destruct (Forall_cons_1 _ _ _ Hb) as [Hy Hb']. cbn [words_overlap].
  assert (Hxa : words_wf (x :: la)) by (by constructor).
  destruct (Z.eqb_spec (Z.land x y) 0) as [E|Hne]; cbn [negb].
  - rewrite IH by done. split.
    + intros (i & Hi & H1 & H2). exists (i + 32). rewrite !words_val_bits_cons by (done || lia).
      destruct (Z.ltb_spec (i + 32) 32); [lia|]. replace (i + 32 - 32) with i by lia. auto with lia.
    + intros (i & Hi & H1 & H2). rewrite words_val_bits_cons in H1, H2 by done.
      destruct (Z.ltb_spec i 32).
      * exfalso. assert (Hc : Z.land x y <> 0) by (apply word_overlap; eauto). done.
      * exists (i - 32). auto with lia.
  - split; [intros _|done]. apply word_overlap in Hne as (i & Hi & H1 & H2). exists i.
    rewrite !words_val_bits_cons by done. destruct (Z.ltb_spec i 32); [done|].
    by rewrite (in_u_bits 32 x) in H1 by (done || lia).
Qed.

Lemma overlap_val a b :
  bms_wf a -> bms_wf b ->
  bms_overlap a b = true <-> exists i, 0 <= i /\ mem a i = true /\ mem b i = true.
Proof.
  intros Ha Hb. destruct a as [la|], b as [lb|]; cbn [bms_overlap];
    try (split; [done|intros (i & _ & H1 & H2); by rewrite ?mem_None in *]).
  apply words_overlap_val; [apply Ha|apply Hb].
Qed.
End CompareFacts.

(** ** Counting *)

Section CountFacts.

Lemma sN_shift n x : exists k, sN n x = x + k * 2 ^ n.
Proof.
  unfold sN. exists (- ((x + 2 ^ (n - 1)) / 2 ^ n)).
  destruct (Z.eq_dec (2 ^ n) 0) as [E|Hne]; [rewrite E, !Z.mod_0_r; lia|].
  pose proof (Z.div_mod (x + 2 ^ (n - 1)) (2 ^ n) Hne). lia.
Qed.

Lemma u32_shift x k : u32 (x + k * 2 ^ 32) = u32 x.
Proof. unfold uN. apply Z.mod_add. lia. Qed.

Lemma u32_land x y : u32 (Z.land x y) = Z.land (u32 x) (u32 y).
Proof.
  unfold uN. rewrite <- !Z.land_ones by lia. apply bits_ext. intros i Hi.
  rewrite !Z.land_spec. by destruct (Z.testbit x i), (Z.testbit y i), (Z.testbit (Z.ones 32) i).
Qed.

(** [x & -x] is the lowest one-bit. *)
Lemma land_opp x j : lowest_bit x j -> Z.land x (- x) = 2 ^ j.
Proof.
  intros (Hj & Ht & Hlow). assert (Hp : 0 < 2 ^ j) by (apply Z.pow_pos_nonneg; lia).
  assert (Hm : x mod 2 ^ j = 0).
  { apply bits_ext. intros i Hi. rewrite Z.bits_0. destruct (Z_lt_ge_dec i j).
    - rewrite Z.mod_pow2_bits_low by done. by apply Hlow.
    - apply Z.mod_pow2_bits_high. lia. }
  set (q := x / 2 ^ j). assert (Ex : x = q * 2 ^ j) by (pose proof (Z.div_mod x (2 ^ j)); lia).
  assert (Hq : Z.testbit q 0 = true) by (unfold q; rewrite Z.div_pow2_bits by lia; done).
  rewrite Z.bit0_odd in Hq. apply Z.odd_spec in Hq as [k Hk].
  assert (Hx1 : forall i, 0 <= i -> Z.testbit (x - 1) i =
    if i <? j then true else Z.testbit (2 * k) (i - j)).
  { intros i Hi. replace (x - 1) with (2 * k * 2 ^ j + Z.ones j) by (rewrite Z.ones_equiv; lia).
    destruct (Z.ltb_spec i j).
    - rewrite <- (Z.mod_pow2_bits_low _ j) by done.
      rewrite Z.add_comm, Z.mod_add, Z.mod_small by (rewrite ?Z.ones_equiv; lia).
      apply Z.ones_spec_low. lia.
    - replace i with ((i - j) + j) at 1 by lia. rewrite <- Z.div_pow2_bits by lia.
      rewrite Z.div_add_l, Z.div_small by (rewrite ?Z.ones_equiv; lia). by rewrite Z.add_0_r. }
  apply bits_ext. intros i Hi. replace (- x) with (Z.lnot (x - 1)) by (unfold Z.lnot; lia).
  rewrite Z.land_spec, Z.lnot_spec, Hx1, Z.pow2_bits_eqb by done.
  destruct (Z.ltb_spec i j); [rewrite Hlow by lia; destruct (Z.eqb_spec j i); [lia|done]|].
  destruct (Z.eqb_spec j i) as [->|Hne].
  - rewrite Ht. replace (i - i) with 0 by lia. by rewrite Z.testbit_even_0.
  - assert (E : Z.testbit x i = Z.testbit (2 * k) (i - j)); [|rewrite E; apply andb_negb_r].
    rewrite Ex, Z.mul_pow2_bits, Hk by lia. replace (i - j) with (Z.succ (i - j - 1)) by lia.
    rewrite Z.testbit_odd_succ, Z.testbit_even_succ by lia. done.
Qed.

Lemma rightmost_one_spec x j :
  in_u 32 x -> lowest_bit x j -> j < 32 -> u32 (RIGHTMOST_ONE x) = 2 ^ j.
Proof.
  intros Hx Hj Hlt. unfold RIGHTMOST_ONE.
  destruct (sN_shift 32 (Z.land (s32 x) (s32 (- s32 x)))) as [k ->]. rewrite u32_shift, u32_land.
  destruct (sN_shift 32 x) as [k1 Ek1]. destruct (sN_shift 32 (- s32 x)) as [k2 ->].
  rewrite Ek1, !u32_shift. replace (- (x + k1 * 2 ^ 32)) with (- x + (- k1) * 2 ^ 32) by lia.
  rewrite u32_shift, <- u32_land, (land_opp x j Hj). apply uN_small.
  destruct Hj as [Hj _]. split; [apply Z.pow_nonneg; lia|]. apply Z.pow_lt_mono_r; lia.
Qed.

(** A non-zero word has a lowest bit, found by [bmw_rightmost_one_pos]. *)
Lemma word_lowest w : in_u 32 w -> w <> 0 ->
  exists j, bmw_rightmost_one_pos w = Some j /\ lowest_bit w j /\ 0 <= j < 32 /\
    u32 (RIGHTMOST_ONE w) = 2 ^ j /\ HAS_MULTIPLE_ONES w = negb (w =? 2 ^ j).
Proof.
  intros Hw Hne. destruct (rightmost32_spec w Hw Hne) as (j & Hr & Hl & Hlt).
  pose proof (rightmost_one_spec w j Hw Hl Hlt) as E. exists j. split; [done|]. split; [done|].
  split; [destruct Hl; lia|]. split; [done|]. unfold HAS_MULTIPLE_ONES. by rewrite E, Z.eqb_sym.
Qed.

(** The lowest bit of a list of words. *)
Lemma lowest_cons w l j : words_wf (w :: l) -> j < 32 -> lowest_bit w j -> lowest_bit (words_val (w :: l)) j.
Proof.
  intros Hl Hlt (Hj & Ht & Hlow). split; [done|]. split.
  - rewrite words_val_bits_cons by done. by destruct (Z.ltb_spec j 32); [|lia].
  - intros i Hi. rewrite words_val_bits_cons by (done || lia).
    destruct (Z.ltb_spec i 32); [auto|lia].
Qed.

Lemma lowest_skip l j : words_wf l -> lowest_bit (words_val l) j -> lowest_bit (words_val (0 :: l)) (32 + j).
Proof.
  intros Hl (Hj & Ht & Hlow).
  assert (H0 : words_wf (0 :: l)) by (constructor; [unfold in_u; lia|done]).
  split; [lia|]. split.
  - rewrite words_val_bits_cons by (done || lia). destruct (Z.ltb_spec (32 + j) 32); [lia|].
    by replace (32 + j - 32) with j by lia.
  - intros i Hi. rewrite words_val_bits_cons by (done || lia).
    destruct (Z.ltb_spec i 32); [apply Z.bits_0|apply Hlow; lia].
Qed.

(** A single bit. *)
Definition single (v j : Z) : Prop := 0 <= j /\ v = 2 ^ j.

Lemma single_bits v j : single v j <-> 0 <= j /\ forall i, 0 <= i -> Z.testbit v i = (j =? i).
Proof.
  split; intros [Hj H]; (split; [done|]).
  - intros i Hi. rewrite H. by apply Z.pow2_bits_eqb.
  - apply bits_ext. intros i Hi. rewrite H, Z.pow2_bits_eqb by done. done.
Qed.

Lemma single_cons w l j :
  words_wf (w :: l) -> w <> 0 -> single (words_val (w :: l)) j <-> single w j /\ words_val l = 0.
Proof.
  intros Hl Hne. destruct (Forall_cons_1 _ _ _ Hl) as [Hw Hl'].
  pose proof (words_val_nonneg l Hl') as Hv. cbn [words_val foldr]. fold (words_val l). split.
  - intros Hs. pose proof Hs as Hs'. apply single_bits in Hs' as [Hj Hb].
    destruct (word_lowest w Hw Hne) as (k & _ & Hk & Hk32 & _).
    pose proof (lowest_cons w l k Hl ltac:(lia) Hk) as (_ & Hkt & _).
    change (words_val (w :: l)) with (w + 2 ^ 32 * words_val l) in Hkt.
    rewrite Hb in Hkt by lia. apply Z.eqb_eq in Hkt. subst k. destruct Hs as [_ Hs].
    assert (2 ^ j < 2 ^ 32) by (apply Z.pow_lt_mono_r; lia). unfold in_u in Hw.
    assert (words_val l = 0) by lia. split; [split; [lia|]|]; lia.
  - intros [[Hj ->] ->]. split; lia.
Qed.

Lemma single_skip l j : words_wf l -> single (words_val (0 :: l)) j <-> 32 <= j /\ single (words_val l) (j - 32).
Proof.
  intros Hl. cbn [words_val foldr]. fold (words_val l). pose proof (words_val_nonneg l Hl) as Hv.
  rewrite Z.add_0_l. split.
  - intros [Hj E]. destruct (Z_lt_ge_dec j 32).
    + assert (2 ^ j < 2 ^ 32) by (apply Z.pow_lt_mono_r; lia). assert (0 < 2 ^ j) by (apply Z.pow_pos_nonneg; lia).
      exfalso. destruct (Z.eq_dec (words_val l) 0) as [E0|]; [rewrite E0 in E|]; lia.
    + split; [lia|]. split; [lia|]. replace j with (32 + (j - 32)) in E by lia.
      rewrite Z.pow_add_r in E by lia. lia.
  - intros [Hj [_ E]]. split; [lia|]. rewrite E, <- Z.pow_add_r by lia. f_equal. lia.
Qed.

(** The three outcomes of counting up to two. *)
Inductive cardinality (v : Z) : BMS_Membership -> Z -> Prop :=
  | card_empty x : v = 0 -> cardinality v BMS_EMPTY_SET x
  | card_single x : single v x -> cardinality v BMS_SINGLETON x
  | card_multiple x : v <> 0 -> (forall j, ~ single v j) -> cardinality v BMS_MULTIPLE x.

Lemma card_cons w l j m x :
  words_wf (w :: l) -> w <> 0 -> lowest_bit w j -> cardinality (words_val l) m x ->
  cardinality (words_val (w :: l))
    (if negb (w =? 2 ^ j) then BMS_MULTIPLE
     else match m with BMS_EMPTY_SET => BMS_SINGLETON | _ => BMS_MULTIPLE end) j.
Proof.
  intros Hl Hne Hj Hm. destruct (Forall_cons_1 _ _ _ Hl) as [Hw Hl'].
  pose proof (words_val_nonneg l Hl') as Hv. unfold in_u in Hw.
  assert (Hnz : words_val (w :: l) <> 0) by (cbn [words_val foldr]; fold (words_val l); lia).
  assert (Huniq : forall k, single w k -> k = j).
  { intros k Hk. apply single_bits in Hk as [Hk Hb]. destruct Hj as (Hj & Ht & _).
    rewrite Hb in Ht by done. by apply Z.eqb_eq in Ht. }
  destruct (Z.eqb_spec w (2 ^ j)) as [E|Hn]; cbn [negb].
  - destruct Hm as [x Hm|x Hm|x Hm1 Hm2].
    + apply card_single, single_cons; [done|done|]. split; [|done]. split; [apply Hj|done].
    + apply card_multiple; [done|]. intros k Hk. apply single_cons in Hk as [_ Hk]; [|done|done].
      destruct Hm as [Hx Hm]. rewrite Hk in Hm. assert (0 < 2 ^ x) by (apply Z.pow_pos_nonneg; lia). lia.
    + apply card_multiple; [done|]. intros k Hk. apply single_cons in Hk as [_ Hk]; done.
  - apply card_multiple; [done|]. intros k Hk. apply single_cons in Hk as [Hk _]; [|done|done].
    apply Hn. rewrite (Huniq k Hk) in Hk. apply Hk.
Qed.

Lemma card_skip l m x : words_wf l -> cardinality (words_val l) m x -> cardinality (words_val (0 :: l)) m (32 + x).
Proof.
  intros Hl Hm. destruct Hm as [x Hm|x Hm|x Hm1 Hm2].
  - apply card_empty. cbn [words_val foldr]. fold (words_val l). lia.
  - apply card_single, single_skip; [done|]. destruct Hm as [Hx Hm]. split; [lia|].
    replace (32 + x - 32) with x by lia. done.
  - apply card_multiple; [cbn [words_val foldr]; fold (words_val l); lia|].
    intros j Hj. apply single_skip in Hj as [_ Hj]; [|done]. by eapply Hm2.
Qed.

(** The loops that count up to two.  [seen] is [result >= 0]. *)
Definition after (seen : bool) (m : BMS_Membership) : BMS_Membership :=
  if seen then match m with BMS_EMPTY_SET => BMS_SINGLETON | _ => BMS_MULTIPLE end else m.

Lemma singleton_loop_spec l k res :
  words_wf l -> 0 <= k -> -1 <= res ->
  exists m x, cardinality (words_val l) m x /\
    singleton_loop l k res =
      Some (match after (0 <=? res) m with
            | BMS_EMPTY_SET => Ereport ERRCODE_UNEXPECTED_NULL_VALUE
            | BMS_SINGLETON => Ok (if 0 <=? res then res else 32 * k + x)
            | BMS_MULTIPLE => Ereport ERRCODE_DATA_EXCEPTION
            end) /\
    membership_loop l (if 0 <=? res then BMS_SINGLETON else BMS_EMPTY_SET) = after (0 <=? res) m.
Proof.
  intros Hl. revert k res. induction Hl as [|w l Hw Hl IH]; intros k res Hk Hres.
  - exists BMS_EMPTY_SET, 0. split; [by apply card_empty|]. cbn [singleton_loop membership_loop].
    destruct (Z.leb_spec 0 res); destruct (Z.ltb_spec res 0); try lia; done.
  - assert (Hwl : words_wf (w :: l)) by (by constructor).
    cbn [singleton_loop membership_loop]. destruct (Z.eqb_spec w 0) as [->|Hne]; cbn [negb].
    + destruct (IH (k + 1) res ltac:(lia) Hres) as (m & x & Hm & -> & ->).
      exists m, (32 + x). split; [by apply card_skip|]. split; [|done].
      destruct (after _ m); do 2 f_equal. destruct (0 <=? res); lia.
    + destruct (word_lowest w Hw Hne) as (j & Hr & Hj & Hj32 & _ & Hmul). rewrite Hmul, Hr. sbind.
      unfold BITS_PER_BITMAPWORD.
      destruct (IH (k + 1) (k * 32 + j) ltac:(lia) ltac:(lia)) as (m & x & Hm & E1 & E2).
      destruct (Z.leb_spec 0 (k * 32 + j)); [|lia].
      pose proof (card_cons w l j m x Hwl Hne Hj Hm) as Hc. eexists _, j. split; [exact Hc|].
      destruct (Z.leb_spec 0 res); cbn [orb bool_decide].
      * rewrite bool_decide_eq_true_2 by done. cbn [orb after].
        destruct (negb (w =? 2 ^ j)); [done|]. by destruct m.
      * rewrite bool_decide_eq_false_2 by (intros Hn; by apply Hn). cbn [orb after].
        destruct (negb (w =? 2 ^ j)); [done|]. rewrite E1, E2. cbn [after].
        split; [|done]. destruct m; try done. do 2 f_equal. lia.
Qed.

Lemma skip_bytes_spec fuel w r res :
  0 < w < 2 ^ (8 * Z.of_nat fuel) -> rightmost_loop fuel w r = Some res ->
  exists w' r' p, skip_bytes fuel w r = Some (w', r') /\ rightmost_loop 4 w' 0 = Some p /\ r' + p = res.
Proof.
  revert w r. induction fuel as [|fuel IH]; intros w r Hw Hrun; [done|].
  cbn [skip_bytes rightmost_loop] in *. destruct (Z.eqb_spec (Z.land w 255) 0) as [E|Hne].
  - apply IH; [|done]. destruct (shiftr_byte_range fuel w) as [H0 H1]; [lia|].
    split; [|done]. destruct (rightmost_loop_spec (S fuel) w 0 Hw) as (j & _ & (Hj & Ht & _) & _).
    assert (Hj8 : 8 <= j).
    { destruct (Z_lt_ge_dec j 8); [|lia]. exfalso.
      assert (Hb : Z.testbit (Z.land w 255) j = true).
      { rewrite Z.land_spec, Ht. change 255 with (Z.ones 8). by apply Z.ones_spec_low. }
      by rewrite E, Z.bits_0 in Hb. }
    destruct (Z.eq_dec (Z.shiftr w 8) 0) as [E0|]; [|lia]. exfalso.
    assert (Hb : Z.testbit (Z.shiftr w 8) (j - 8) = true)
      by (rewrite Z.shiftr_spec by lia; by replace (j - 8 + 8) with j by lia).
    by rewrite E0, Z.bits_0 in Hb.
  - destruct (table_rightmost _ (byte_range w) Hne) as (p & Hp & _). rewrite Hp in Hrun.
    injection Hrun as <-. exists w, r, p. split; [done|]. split; [|done].
    cbn [rightmost_loop]. destruct (Z.eqb_spec (Z.land w 255) 0); [done|]. rewrite Hp. done.
Qed.

Lemma get_singleton_loop_spec l k res :
  words_wf l -> 0 <= k ->
  get_singleton_loop l k res =
    option_map (fun r => match r with Ok x => Some x | Ereport _ => None end) (singleton_loop l k res).
Proof.
  intros Hl. revert k res. induction Hl as [|w l Hw Hl IH]; intros k res Hk;
    cbn [get_singleton_loop singleton_loop]; [by destruct (res <? 0)|].
  destruct (Z.eqb_spec w 0) as [->|Hne]; cbn [negb]; [apply IH; lia|].
  destruct ((0 <=? res) || HAS_MULTIPLE_ONES w); [done|].
  destruct (word_lowest w Hw Hne) as (j & Hr & Hj & Hj32 & _). rewrite Hr. sbind.
  unfold in_u in Hw.
  assert (Hrun : rightmost_loop 4 w (k * BITS_PER_BITMAPWORD) = Some (k * BITS_PER_BITMAPWORD + j)).
  { destruct (rightmost_loop_spec 4 w (k * BITS_PER_BITMAPWORD)) as (j' & -> & Hj' & _);
      [change (8 * Z.of_nat 4) with 32; lia|]. do 2 f_equal. by apply (lowest_bit_unique w). }
  destruct (skip_bytes_spec 4 w _ _ ltac:(change (8 * Z.of_nat 4) with 32; lia) Hrun)
    as (w' & r' & p & -> & Hp & Esum). sbind.
  change (bmw_rightmost_one_pos w') with (rightmost_loop 4 w' 0). rewrite Hp. sbind.
  rewrite Esum. apply IH. lia.
Qed.

(** *** Population *)

Lemma count_words_spec l r : words_wf l -> count_words l r = Some (r + ones (32 * length l) (words_val l)).
Proof.
  intros Hl. revert r. induction Hl as [|w l Hw Hl IH]; intros r; cbn [count_words].
  - simpl. f_equal. lia.
  - assert (Hwl : words_wf (w :: l)) by (by constructor).
    assert (E : ones (32 * length (w :: l)) (words_val (w :: l)) =
                ones 32 w + ones (32 * length l) (words_val l)).
    { cbn [length]. replace (32 * S (length l))%nat with (32 + 32 * length l)%nat by lia.
      rewrite ones_add. f_equal.
      - apply ones_ext. intros i Hi. rewrite words_val_bits_cons by (done || lia).
        destruct (Z.ltb_spec i 32); [done|lia].
      - f_equal. rewrite Z.shiftr_div_pow2 by lia. cbn [words_val foldr]. fold (words_val l).
        change (Z.of_nat 32) with 32. unfold in_u in Hw.
        rewrite Z.mul_comm, Z.div_add, Z.div_small by lia. lia. }
    rewrite E. destruct (Z.eqb_spec w 0) as [->|Hne]; cbn [negb].
    + sbind. rewrite IH, ones_0. do 2 f_equal. 
    + unfold bmw_popcount. rewrite popcount32_spec by done. sbind. rewrite IH. f_equal. lia.
Qed.

(** The members of a number below a bound. *)
Definition bits_of (v : Z) (m n : Z) : list Z := filter (fun x => Z.testbit v x = true) (seqZ m n).

Lemma bits_of_split v m n1 n2 : 0 <= n1 -> 0 <= n2 ->
  bits_of v m (n1 + n2) = bits_of v m n1 ++ bits_of v (m + n1) n2.
Proof. intros H1 H2. unfold bits_of. rewrite seqZ_app by lia. apply list.filter_app. Qed.

Lemma bits_of_1 v m : bits_of v m 1 = if Z.testbit v m then [m] else [].
Proof.
  unfold bits_of. assert (E : seqZ m 1 = [m]) by (unfold seqZ; cbn; f_equal; lia). rewrite E.
  rewrite list.filter_cons, list.filter_nil. by destruct (Z.testbit v m).
Qed.

Lemma ones_bits_of v n : ones n v = zlen (bits_of v 0 (Z.of_nat n)).
Proof.
  induction n as [|n IH]; [done|].
  replace (S n) with (n + 1)%nat by lia. rewrite ones_add, IH.
  rewrite Nat2Z.inj_add, bits_of_split by lia. unfold zlen. rewrite length_app.
  change (Z.of_nat 1) with 1. rewrite bits_of_1, Z.add_0_l.
  cbn [ones]. rewrite <- Z.bit0_odd, Z.shiftr_spec by lia. rewrite Z.add_0_l.
  destruct (Z.testbit v (Z.of_nat n)); cbn [Z.b2z length]; lia.
Qed.

Lemma words_members_bits l : words_members l = bits_of (words_val l) 0 (32 * zlen l).
Proof. done. Qed.

Lemma elem_of_members a x : bms_wf a -> x ∈ members a <-> 0 <= x /\ mem a x = true.
Proof.
  intros Ha. destruct a as [l|]; cbn [members].
  - destruct Ha as [Hl _]. unfold words_members. rewrite list_elem_of_filter, elem_of_seqZ. unfold mem. cbn [bms_val].
    split; [intros [Ht [? _]]; done|]. intros [Hx Ht]. split; [done|]. split; [done|].
    destruct (Z_lt_ge_dec x (32 * zlen l)); [lia|].
    pose proof (words_val_range l Hl). pose proof (zlen_nonneg l).
    by rewrite (in_u_bits (32 * zlen l)) in Ht by (done || lia).
  - rewrite mem_None. split; [by intros ?%list.not_elem_of_nil|by intros [_ ?]].
Qed.

Lemma members_NoDup a : NoDup (members a).
Proof. destruct a; [|constructor]. apply list.NoDup_filter, NoDup_seqZ. Qed.

(** The cardinality read off the list of members. *)
Lemma cardinality_members a m x :
  bms_wf a -> cardinality (bms_val a) m x ->
  match m with
  | BMS_EMPTY_SET => members a = []
  | BMS_SINGLETON => members a = [x]
  | BMS_MULTIPLE => exists y z l, members a = y :: z :: l
  end.
Proof.
  intros Ha Hm. pose proof (members_NoDup a) as Hnd.
  assert (Hnil : bms_val a = 0 <-> members a = []).
  { split.
    - intros E. destruct (members a) as [|y l] eqn:El; [done|].
      assert (Hy : y ∈ members a) by (rewrite El; left). apply elem_of_members in Hy as [_ Hy]; [|done].
      unfold mem in Hy. by rewrite E, Z.bits_0 in Hy.
    - intros E. apply bits_ext. intros i Hi. rewrite Z.bits_0.
      destruct (Z.testbit (bms_val a) i) eqn:Et; [|done].
      assert (Hin : i ∈ members a) by (apply elem_of_members; done). rewrite E in Hin. by apply list.not_elem_of_nil in Hin. }
  assert (Hone : forall y, members a = [y] -> single (bms_val a) y).
  { intros y E. assert (Hy : y ∈ members a) by (rewrite E; left).
    apply elem_of_members in Hy as [Hy0 Hy]; [|done]. apply single_bits. split; [done|]. intros i Hi.
    destruct (Z.eqb_spec y i) as [<-|Hne]; [done|].
    destruct (Z.testbit (bms_val a) i) eqn:Et; [|done].
    assert (Hin : i ∈ members a) by (apply elem_of_members; done). rewrite E in Hin.
    apply list_elem_of_singleton in Hin. congruence. }
  destruct Hm as [x Hm|x Hm|x Hm1 Hm2].
  - by apply Hnil.
  - apply single_bits in Hm as [Hx Hb].
    assert (Hall : forall y, y ∈ members a -> y = x).
    { intros y Hy. apply elem_of_members in Hy as [Hy0 Hy]; [|done]. unfold mem in Hy.
      rewrite Hb in Hy by done. apply Z.eqb_eq in Hy. done. }
    destruct (members a) as [|y [|z l]] eqn:E.
    + assert (Hin : x ∈ members a) by (apply elem_of_members; [done|split; [done|unfold mem; rewrite Hb by done; apply Z.eqb_refl]]).
      rewrite E in Hin. by apply list.not_elem_of_nil in Hin.
    + f_equal. apply Hall. left.
    + assert (y = x) by (apply Hall; left). assert (z = x) by (apply Hall; right; left). subst.
      apply list.NoDup_cons in Hnd as [Hnd _]. exfalso. apply Hnd. left.
  - destruct (members a) as [|y [|z l]] eqn:E.
    + exfalso. by apply Hm1, Hnil.
    + exfalso. by apply (Hm2 y), Hone.
    + eauto.
Qed.
End CountFacts.

(** ** Iteration *)

Section IterationFacts.

(** The bits of a concatenation. *)
Lemma concat_bits n v1 v2 i :
  0 <= n -> 0 <= v1 < 2 ^ n -> 0 <= i ->
  Z.testbit (v1 + 2 ^ n * v2) i = if i <? n then Z.testbit v1 i else Z.testbit v2 (i - n).
Proof.
  intros Hn Hv Hi. destruct (Z.ltb_spec i n).
  - rewrite <- (Z.mod_pow2_bits_low _ n) by lia.
    rewrite Z.mul_comm, Z.mod_add, Z.mod_small by lia. done.
  - replace i with ((i - n) + n) at 1 by lia. rewrite <- Z.div_pow2_bits by lia.
    rewrite Z.mul_comm, Z.div_add, Z.div_small by lia. by rewrite Z.add_0_l.
Qed.

Lemma words_val_app l1 l2 : words_val (l1 ++ l2) = words_val l1 + 2 ^ (32 * zlen l1) * words_val l2.
Proof.
  induction l1 as [|w l1 IH]; [unfold zlen; simpl Z.of_nat; cbn [app]; change (words_val []) with 0; lia|].
  cbn [app words_val foldr]. fold (words_val (l1 ++ l2)). fold (words_val l1). rewrite IH.
  change (zlen (w :: l1)) with (Z.of_nat (S (length l1))).
  replace (32 * Z.of_nat (S (length l1))) with (32 + 32 * zlen l1) by (unfold zlen; lia).
  rewrite Z.pow_add_r by (unfold zlen; lia). lia.
Qed.

(** The first [k] words and the rest. *)
Lemma words_val_split l k i :
  words_wf l -> 0 <= k <= zlen l -> 0 <= i ->
  Z.testbit (words_val l) i =
    if i <? 32 * k then Z.testbit (words_val (take (Z.to_nat k) l)) i
    else Z.testbit (words_val (drop (Z.to_nat k) l)) (i - 32 * k).
Proof.
  intros Hl Hk Hi. unfold zlen in Hk.
  assert (Hlen : zlen (take (Z.to_nat k) l) = k) by (unfold zlen; rewrite length_take; lia).
  rewrite <- (take_drop (Z.to_nat k) l) at 1. rewrite words_val_app, Hlen.
  apply concat_bits; [lia| |done].
  pose proof (words_val_range (take (Z.to_nat k) l)) as Hr. rewrite Hlen in Hr.
  apply Hr. by apply Forall_take.
Qed.

(** *** [bms_next_member] *)

(** The masked first word and the words after it. *)
Lemma next_member_loop_spec l k mask :
  words_wf l -> in_u 32 mask ->
  exists r, next_member_loop l k mask = Some r /\
    let v := match l with [] => 0 | w :: l' => words_val (Z.land w mask :: l') end in
    (r = -2 /\ v = 0) \/ exists j, lowest_bit v j /\ r = 32 * k + j.
Proof.
  intros Hl. revert k mask. induction Hl as [|w l Hw Hl IH]; intros k mask Hm; cbn [next_member_loop].
  - exists (-2). split; [done|]. by left.
  - assert (Hwm : in_u 32 (Z.land w mask)) by (apply land_range; [lia|done|apply Hm]).
    assert (Hwl : words_wf (Z.land w mask :: l)) by (by constructor).
    destruct (Z.eqb_spec (Z.land w mask) 0) as [E|Hne]; cbn [negb].
    + destruct (IH (k + 1) (bmw_not 0) (bmw_not_range 0)) as (r & -> & Hr). exists r. split; [done|].
      rewrite E. cbv zeta in *.
      assert (Ev : match l with [] => 0 | w :: l' => words_val (Z.land w (bmw_not 0) :: l') end = words_val l).
      { destruct l as [|w' l']; [done|]. destruct (Forall_cons_1 _ _ _ Hl) as [Hw' _].
        assert (E' : Z.land w' (bmw_not 0) = w'); [|by rewrite E'].
        apply bits_ext. intros i Hi. rewrite land_and_not_bits, Z.bits_0 by done. apply andb_true_r. }
      rewrite Ev in Hr. destruct Hr as [[-> Hv]|(j & Hj & ->)].
      * left. split; [done|]. cbn [words_val foldr]. fold (words_val l). lia.
      * right. exists (32 + j). split; [by apply lowest_skip|lia].
    + destruct (word_lowest _ Hwm Hne) as (j & -> & Hj & Hj32 & _). sbind.
      eexists. split; [done|]. right. exists j. split; [|unfold BITS_PER_BITMAPWORD; lia].
      apply lowest_cons; [done|lia|done].
Qed.

Lemma mask_bits b i : 0 <= b < 32 -> 0 <= i < 32 ->
  Z.testbit (u32 (Z.shiftl (bmw_not 0) b)) i = (b <=? i).
Proof.
  intros Hb Hi. unfold uN. rewrite Z.mod_pow2_bits_low, Z.shiftl_spec by lia.
  destruct (Z.leb_spec b i).
  - rewrite bmw_not_bits by lia. by rewrite Z.bits_0.
  - apply Z.testbit_neg_r. lia.
Qed.

Lemma next_member_spec a prev :
  bms_wf a -> -1 <= prev < 2 ^ 31 - 1 ->
  exists r, bms_next_member a prev = Some (Ok r) /\
    ((r = -2 /\ forall x, prev < x -> mem a x = false) \/
     (prev < r /\ mem a r = true /\ forall x, prev < x < r -> mem a x = false)).
Proof.
  intros Ha Hp. unfold bms_next_member. destruct (Z.ltb_spec prev (-1)); [lia|].
  destruct a as [l|].
  2: { exists (-2). split; [done|]. left. split; [done|]. intros. apply mem_None. }
  destruct Ha as [Hl Hll]. rewrite sN_small by (unfold in_s; lia). set (p := prev + 1).
  destruct (wordnum_facts p) as (Hwp & Hbp & Ep); [lia|].
  set (mask := u32 _). assert (Hmask : in_u 32 mask) by (apply uN_range; lia).
  destruct (next_member_loop_spec (drop (Z.to_nat (WORDNUM p)) l) (WORDNUM p) mask) as (r & -> & Hr);
    [by apply Forall_drop|done|]. sbind. exists r. split; [done|].
  destruct (Z_lt_ge_dec (WORDNUM p) (zlen l)) as [Hin|Hout].
  2: { rewrite drop_ge in Hr by (unfold zlen in Hout; lia). cbv zeta in Hr.
       destruct Hr as [[-> _]|(j & (_ & Hj & _) & _)]; [|by rewrite Z.bits_0 in Hj].
       left. split; [done|]. intros x Hx. unfold mem. cbn [bms_val]. rewrite words_val_index by (done || lia).
       destruct (wordnum_facts x) as (? & ? & ?); [lia|]. destruct (Z.ltb_spec (WORDNUM x) (zlen l)); [lia|done]. }
  destruct (drop (Z.to_nat (WORDNUM p)) l) as [|w l'] eqn:Ed.
  { exfalso. assert (Hz : length (drop (Z.to_nat (WORDNUM p)) l) = 0%nat) by (by rewrite Ed).
    rewrite length_drop in Hz. unfold zlen in Hin. lia. }
  assert (Hwl : words_wf (w :: l')) by (rewrite <- Ed; by apply Forall_drop).
  destruct (Forall_cons_1 _ _ _ Hwl) as [Hw Hl'].
  assert (Hwm : in_u 32 (Z.land w mask)) by (apply land_range; [lia|done|apply Hmask]).
  assert (Hwml : words_wf (Z.land w mask :: l')) by (by constructor).
  cbv zeta in Hr. set (v := words_val (Z.land w mask :: l')) in Hr.
  assert (Hbits : forall i, 0 <= i -> Z.testbit v i = (BITNUM p <=? i) && mem (Some l) (32 * WORDNUM p + i)).
  { intros i Hi. unfold v, mem. cbn [bms_val]. rewrite (words_val_split l (WORDNUM p)) by (done || lia).
    destruct (Z.ltb_spec (32 * WORDNUM p + i) (32 * WORDNUM p)); [lia|].
    replace (32 * WORDNUM p + i - 32 * WORDNUM p) with i by lia. rewrite Ed.
    rewrite !words_val_bits_cons by done. destruct (Z.ltb_spec i 32).
    - unfold mask. rewrite Z.land_spec, mask_bits by lia. apply andb_comm.
    - destruct (Z.leb_spec (BITNUM p) i); [done|lia]. }
  destruct Hr as [[-> Hv]|(j & (Hj & Ht & Hlow) & ->)].
  - left. split; [done|]. intros x Hx. specialize (Hbits (x - 32 * WORDNUM p)).
    rewrite Hv, Z.bits_0 in Hbits. replace (32 * WORDNUM p + (x - 32 * WORDNUM p)) with x in Hbits by lia.
    destruct (Z.leb_spec (BITNUM p) (x - 32 * WORDNUM p)); [|lia]. symmetry. apply Hbits. lia.
  - rewrite Hbits in Ht by done. apply andb_true_iff in Ht as [Hge Ht]. apply Z.leb_le in Hge.
    right. split; [lia|]. split; [done|]. intros x Hx. specialize (Hlow (x - 32 * WORDNUM p) ltac:(lia)).
    rewrite Hbits in Hlow by lia. replace (32 * WORDNUM p + (x - 32 * WORDNUM p)) with x in Hlow by lia.
    destruct (Z.leb_spec (BITNUM p) (x - 32 * WORDNUM p)); [done|lia].
Qed.

(** The typical loop: [x = -1; while ((x = bms_next_member(a, x)) >= 0) ...] *)
Fixpoint bms_iterate (fuel : nat) (a : Bitmapset) (x : Z) : option (list Z) :=
  match fuel with
  | O => None
  | S fuel' =>
      match bms_next_member a x with
      | Some (Ok x) => if 0 <=? x then l ← bms_iterate fuel' a x; Some (x :: l) else Some []
      | _ => None
      end
  end.

Lemma filter_nil_all (v : Z) l :
  (forall x, x ∈ l -> Z.testbit v x <> true) -> filter (fun x => Z.testbit v x = true) l = [].
Proof.
  induction l as [|x l IH]; intros H; [done|]. rewrite list.filter_cons_False.
  - apply IH. intros y Hy. apply H. by right.
  - apply H. left.
Qed.

(** The first one-bit of a range. *)
Lemma bits_of_first v m n r :
  m <= r < m + n -> Z.testbit v r = true -> (forall x, m <= x < r -> Z.testbit v x = false) ->
  bits_of v m n = r :: bits_of v (r + 1) (m + n - (r + 1)).
Proof.
  intros Hr Ht Hlow. replace n with ((r - m) + (1 + (m + n - (r + 1)))) at 1 by lia.
  rewrite !bits_of_split by lia. replace (m + (r - m)) with r by lia. rewrite bits_of_1, Ht.
  assert (E : bits_of v m (r - m) = []).
  { unfold bits_of. apply filter_nil_all. intros x Hx. apply elem_of_seqZ in Hx.
    rewrite Hlow by lia. done. }
  by rewrite E.
Qed.

Lemma bits_of_none v m n : (forall x, m <= x < m + n -> Z.testbit v x = false) -> bits_of v m n = [].
Proof.
  intros H. unfold bits_of. apply filter_nil_all. intros x Hx. apply elem_of_seqZ in Hx.
  rewrite H by lia. done.
Qed.

Lemma member_bound a x : bms_wf a -> 0 <= x -> mem a x = true ->
  exists l, a = Some l /\ x < 32 * zlen l /\ zlen l <= 2 ^ 26.
Proof.
  intros Ha Hx Hm. destruct a as [l|]; [|by rewrite mem_None in Hm]. destruct Ha as [Hl Hll].
  exists l. split; [done|]. split; [|done].
  assert (Hin : x ∈ members (Some l)) by (by apply elem_of_members).
  apply list_elem_of_filter in Hin as [_ Hin]. apply elem_of_seqZ in Hin. lia.
Qed.

Lemma iterate_spec fuel l prev :
  bms_wf (Some l) -> mem (Some l) (2 ^ 31 - 1) = false -> -1 <= prev < 2 ^ 31 - 1 ->
  let rest := bits_of (words_val l) (prev + 1) (32 * zlen l - (prev + 1)) in
  (length rest < fuel)%nat -> bms_iterate fuel (Some l) prev = Some rest.
Proof.
  intros Ha Hmax. revert prev. induction fuel as [|fuel IH]; intros prev Hp rest Hf; [lia|].
  cbn [bms_iterate]. destruct (next_member_spec (Some l) prev Ha) as (r & -> & Hr); [lia|].
  destruct Hr as [[-> Hnone]|(Hgt & Ht & Hlow)].
  - unfold rest. rewrite bits_of_none; [done|]. intros x Hx. apply Hnone. lia.
  - destruct (Z.leb_spec 0 r); [|lia].
    destruct (member_bound (Some l) r Ha ltac:(lia) Ht) as (l' & [= <-] & Hrl & Hll).
    assert (E : rest = r :: bits_of (words_val l) (r + 1) (32 * zlen l - (r + 1))).
    { unfold rest. rewrite (bits_of_first _ _ _ r); [|lia|done|intros x Hx; apply Hlow; lia].
      do 2 f_equal. lia. }
    assert (r <> 2 ^ 31 - 1) by congruence.
    rewrite E in *. cbn [length] in Hf. rewrite IH by lia. done.
Qed.

(** *** [bms_first_member] *)

Lemma clear_lowest w j : in_u 32 w -> lowest_bit w j -> 0 <= j < 32 ->
  in_u 32 (Z.land w (bmw_not (2 ^ j))) /\
  forall i, 0 <= i -> Z.testbit (Z.land w (bmw_not (2 ^ j))) i = negb (i =? j) && Z.testbit w i.
Proof.
  intros Hw Hj Hj32. split; [apply land_range; [lia|done|apply bmw_not_range]|]. intros i Hi.
  rewrite land_and_not_bits, Z.pow2_bits_eqb by (done || lia). rewrite andb_comm.
  by rewrite (Z.eqb_sym j i).
Qed.

Lemma lowest_pow2 j : 0 <= j -> lowest_bit (2 ^ j) j.
Proof.
  intros Hj. split; [done|]. split; [by apply Z.pow2_bits_true|].
  intros i Hi. apply Z.pow2_bits_false. lia.
Qed.

Lemma first_member_loop_spec l k :
  words_wf l -> 0 <= k ->
  exists l' r, first_member_loop l k = Some (l', r) /\ words_wf l' /\ length l' = length l /\
    ((r = -1 /\ words_val l = 0 /\ l' = l) \/
     exists j, r = 32 * k + j /\ lowest_bit (words_val l) j /\
       forall i, 0 <= i -> Z.testbit (words_val l') i = negb (i =? j) && Z.testbit (words_val l) i).
Proof.
  intros Hl. revert k. induction Hl as [|w l Hw Hl IH]; intros k Hk; cbn [first_member_loop].
  - exists [], (-1). split_and!; try done; [by constructor|by left].
  - assert (Hwl : words_wf (w :: l)) by (by constructor).
    destruct (Z.eqb_spec w 0) as [->|Hne]; cbn [negb].
    + destruct (IH (k + 1) ltac:(lia)) as (l' & r & -> & Hl' & Hlen & Hr). sbind.
      assert (H0 : words_wf (0 :: l')) by (constructor; [unfold in_u; lia|done]).
      exists (0 :: l'), r. split; [done|]. split; [done|]. split; [cbn [length]; by rewrite Hlen|].
      destruct Hr as [(-> & Hv & ->)|(j & -> & Hj & Hb)].
      * left. split_and!; try done. cbn [words_val foldr]. fold (words_val l). lia.
      * right. exists (32 + j). split; [lia|]. split; [by apply lowest_skip|]. intros i Hi.
        rewrite !words_val_bits_cons by done. destruct Hj as [Hj _].
        destruct (Z.ltb_spec i 32); [rewrite Z.bits_0; by rewrite andb_false_r|].
        rewrite Hb by lia. f_equal. f_equal.
        destruct (Z.eqb_spec (i - 32) j); destruct (Z.eqb_spec i (32 + j)); try done; lia.
    + destruct (word_lowest w Hw Hne) as (j & _ & Hj & Hj32 & Hone & _). cbv zeta. rewrite Hone.
      assert (Hp : in_u 32 (2 ^ j)) by (split; [apply Z.pow_nonneg; lia|apply Z.pow_lt_mono_r; lia]).
      assert (Hpn : 2 ^ j <> 0) by (assert (0 < 2 ^ j) by (apply Z.pow_pos_nonneg; lia); lia).
      destruct (word_lowest _ Hp Hpn) as (j' & Hr & Hj' & _).
      assert (j' = j) as -> by (eapply lowest_bit_unique; [exact Hj'|apply lowest_pow2; lia]).
      rewrite Hr. sbind. destruct (clear_lowest w j Hw Hj Hj32) as [Hcw Hcb].
      assert (Hcl : words_wf (Z.land w (bmw_not (2 ^ j)) :: l)) by (by constructor).
      eexists _, _. split; [done|]. split; [done|]. split; [done|]. right. exists j.
      split; [unfold BITS_PER_BITMAPWORD; lia|]. split; [apply lowest_cons; [done|lia|done]|].
      intros i Hi. rewrite !words_val_bits_cons by done.
      destruct (Z.ltb_spec i 32); [by apply Hcb|]. destruct (Z.eqb_spec i j); [lia|done].
Qed.

(** *** [bms_member_index] *)

Lemma member_index_spec a x :
  bms_wf a -> 0 <= x -> mem a x = true ->
  bms_member_index a x = Some (Ok (ones (Z.to_nat x) (bms_val a))).
Proof.
  intros Ha Hx Hm. unfold bms_member_index. rewrite is_member_spec by done.
  destruct (Z.ltb_spec x 0); [lia|]. rewrite Hm.
  destruct (member_bound a x Ha Hx Hm) as (l & -> & Hb & _). destruct Ha as [Hl _].
  destruct (wordnum_facts x Hx) as (Hw & Hbn & Ex). cbv zeta.
  assert (Hin : 0 <= WORDNUM x < zlen l) by lia. pose proof Hin as Hin'. unfold zlen in Hin'.
  rewrite count_words_spec by (by apply Forall_take). sbind.
  pose proof (words_wf_znth l (WORDNUM x) Hl Hin) as Hwd.
  rewrite bmw_bit_eq by done. assert (0 < 2 ^ BITNUM x) by (apply Z.pow_pos_nonneg; lia).
  assert (2 ^ BITNUM x <= 2 ^ 31) by (apply Z.pow_le_mono_r; lia).
  rewrite uN_small by (unfold in_u; lia).
  replace (2 ^ BITNUM x - 1) with (Z.ones (BITNUM x)) by (rewrite Z.ones_equiv; lia).
  assert (Hr : in_u 32 (Z.land (znth l (WORDNUM x)) (Z.ones (BITNUM x)))).
  { apply land_range; [lia|done|]. rewrite Z.ones_equiv. lia. }
  unfold bmw_popcount. rewrite popcount32_spec by done. sbind. do 2 f_equal. cbn [bms_val].
  replace (Z.to_nat x) with (32 * Z.to_nat (WORDNUM x) + Z.to_nat (BITNUM x))%nat by lia.
  rewrite ones_add, length_take, Nat.min_l by lia. rewrite Z.add_0_l. f_equal.
  - apply ones_ext. intros i Hi. symmetry. rewrite (words_val_split l (WORDNUM x)) by (done || lia).
    destruct (Z.ltb_spec i (32 * WORDNUM x)); [done|lia].
  - replace 32%nat with (Z.to_nat (BITNUM x) + (32 - Z.to_nat (BITNUM x)))%nat at 1 by lia.
    rewrite ones_add.
    assert (E : Z.shiftr (Z.land (znth l (WORDNUM x)) (Z.ones (BITNUM x))) (Z.of_nat (Z.to_nat (BITNUM x))) = 0).
    { apply bits_ext. intros i Hi. rewrite Z.shiftr_spec, Z.land_spec, Z.bits_0 by done.
      rewrite Z.ones_spec_high by lia. apply andb_false_r. }
    rewrite E, ones_0, Z.add_0_r. apply ones_ext. intros i Hi.
    rewrite Z.land_spec, Z.ones_spec_low, andb_true_r by lia.
    rewrite Z.shiftr_spec by lia.
    rewrite (words_val_index l) by (done || lia).
    assert (Hwi : WORDNUM (i + Z.of_nat (32 * Z.to_nat (WORDNUM x))) = WORDNUM x /\
                  BITNUM (i + Z.of_nat (32 * Z.to_nat (WORDNUM x))) = i).
    { destruct (wordnum_facts (i + Z.of_nat (32 * Z.to_nat (WORDNUM x)))) as (? & ? & ?); lia. }
    destruct Hwi as [-> ->]. destruct (Z.ltb_spec (WORDNUM x) (zlen l)); [done|lia].
Qed.

Lemma members_split a x :
  bms_wf a -> 0 <= x -> mem a x = true ->
  exists l2, members a = bits_of (bms_val a) 0 x ++ x :: l2.
Proof.
  intros Ha Hx Hm. destruct (member_bound a x Ha Hx Hm) as (l & -> & Hb & _).
  cbn [members bms_val]. rewrite words_members_bits.
  replace (32 * zlen l) with (x + (1 + (32 * zlen l - (x + 1)))) by lia.
  rewrite !bits_of_split by lia. rewrite Z.add_0_l, bits_of_1. unfold mem in Hm. cbn [bms_val] in Hm.
  rewrite Hm. eexists. done.
Qed.
End IterationFacts.

(** ** Hashing *)

Section HashFacts.

Definition last_nonzero (l : list Z) : Prop := match list.last l with Some w => w <> 0 | None => True end.

Lemma lastword_spec n l :
  (n <= length l)%nat ->
  -1 <= lastword_loop n l < Z.of_nat n /\
  (0 <= lastword_loop n l -> znth l (lastword_loop n l) <> 0) /\
  forall i, lastword_loop n l < i < Z.of_nat n -> znth l i = 0.
Proof.
  induction n as [|n IH]; intros Hn; cbn [lastword_loop]; [split; [lia|split; intros; lia]|].
  destruct (Z.eqb_spec (znth l (Z.of_nat n)) 0) as [E|Hne]; cbn [negb].
  - destruct IH as (H1 & H2 & H3); [lia|]. split; [lia|]. split; [done|]. intros i Hi.
    destruct (Z.eq_dec i (Z.of_nat n)) as [->|]; [done|]. apply H3. lia.
  - split; [lia|]. split; [done|]. intros; lia.
Qed.

(** The words that are hashed. *)
Definition hashed_words (l : list Z) : list Z := take (Z.to_nat (lastword_loop (length l) l + 1)) l.

Lemma hashed_words_spec l :
  words_wf l -> words_wf (hashed_words l) /\ words_val (hashed_words l) = words_val l /\
    last_nonzero (hashed_words l) /\ (lastword_loop (length l) l < 0 <-> hashed_words l = []).
Proof.
  intros Hl. destruct (lastword_spec (length l) l) as (H1 & H2 & H3); [done|].
  unfold hashed_words. set (k := lastword_loop (length l) l) in *.
  assert (Ht : words_wf (take (Z.to_nat (k + 1)) l)) by (by apply Forall_take).
  assert (Hlen : length (take (Z.to_nat (k + 1)) l) = Z.to_nat (k + 1)) by (rewrite length_take; lia).
  split; [done|]. split; [|split].
  - apply bits_ext. intros i Hi. destruct (wordnum_facts i Hi) as (Hw & _ & _).
    rewrite !words_val_index by done. unfold zlen. rewrite Hlen.
    destruct (Z.ltb_spec (WORDNUM i) (Z.of_nat (Z.to_nat (k + 1)))).
    + destruct (Z.ltb_spec (WORDNUM i) (Z.of_nat (length l))); [|lia].
      f_equal. unfold znth. apply lookup_total_take_lt. lia.
    + destruct (Z.ltb_spec (WORDNUM i) (Z.of_nat (length l))); [|done].
      rewrite H3 by lia. by rewrite Z.bits_0.
  - unfold last_nonzero. rewrite list.last_lookup, Hlen. destruct (Z_lt_ge_dec k 0).
    + replace (Z.to_nat (k + 1)) with 0%nat by lia. done.
    + replace (Init.Nat.pred (Z.to_nat (k + 1))) with (Z.to_nat k) by lia.
      rewrite lookup_take_lt by lia. rewrite list_lookup_lookup_total_lt by lia. apply H2. lia.
  - split; intros Hk.
    + by replace (Z.to_nat (k + 1)) with 0%nat by lia.
    + rewrite Hk in Hlen. cbn [length] in Hlen. lia.
Qed.

(** Without trailing zeros the words are determined by the value. *)
Lemma words_canonical l1 l2 :
  words_wf l1 -> words_wf l2 -> last_nonzero l1 -> last_nonzero l2 ->
  words_val l1 = words_val l2 -> l1 = l2.
Proof.
  assert (Hzero : forall l, words_wf l -> last_nonzero l -> words_val l = 0 -> l = []).
  { induction 1 as [|w l Hw Hl IH]; [done|]. intros Hn Hv. exfalso.
    cbn [words_val foldr] in Hv. fold (words_val l) in Hv. unfold in_u in Hw.
    pose proof (words_val_nonneg l Hl). assert (w = 0 /\ words_val l = 0) as [-> Hv'] by lia.
    destruct l as [|w' l]; [by unfold last_nonzero in Hn; cbn in Hn|].
    assert (w' :: l = []); [|done]. apply IH; [|done].
    unfold last_nonzero in *. by rewrite list.last_cons_cons in Hn. }
  intros Hl1. revert l2. induction Hl1 as [|w1 l1 Hw1 Hl1 IH]; intros l2 Hl2 Hn1 Hn2 Hv.
  - symmetry. by apply Hzero.
  - destruct l2 as [|w2 l2]; [apply Hzero; [by constructor|done..]|].
    destruct (Forall_cons_1 _ _ _ Hl2) as [Hw2 Hl2'].
    cbn [words_val foldr] in Hv. fold (words_val l1) (words_val l2) in Hv. unfold in_u in *.
    pose proof (words_val_nonneg l1 Hl1). pose proof (words_val_nonneg l2 Hl2').
    assert (w1 = w2 /\ words_val l1 = words_val l2) as [-> Hv'] by lia. f_equal.
    apply IH; [done| | |done].
    + unfold last_nonzero in *. destruct l1; [done|]. by rewrite list.last_cons_cons in Hn1.
    + unfold last_nonzero in *. destruct l2; [done|]. by rewrite list.last_cons_cons in Hn2.
Qed.

Lemma uint32_bytes_wf be w : bytes_wf (uint32_bytes be w).
Proof.
  assert (forall x, in_u 8 (x mod 256)) by (intros; apply Z.mod_pos_bound; lia).
  unfold bytes_wf, uint32_bytes. destruct be; cbn [rev app];
    repeat (apply Forall_cons_2; [done|]); apply Forall_nil_2.
Qed.

Lemma flat_bytes_wf be l : bytes_wf (flat_map (uint32_bytes be) l).
Proof.
  induction l as [|w l IH]; [constructor|]. cbn [flat_map]. apply Forall_app.
  split; [apply uint32_bytes_wf|done].
Qed.

Lemma hash_value_hashed be a l :
  a = Some l -> words_wf l ->
  bms_hash_value be a =
    match hashed_words l with [] => Some 0 | l' => hash_any be true (flat_map (uint32_bytes be) l') end.
Proof.
  intros -> Hl. cbn [bms_hash_value]. cbv zeta. destruct (hashed_words_spec l Hl) as (_ & _ & _ & Hk).
  destruct (Z.ltb_spec (lastword_loop (length l) l) 0) as [Hlt|Hge].
  - by rewrite (proj1 Hk Hlt).
  - fold (hashed_words l). destruct (hashed_words l) as [|w l'] eqn:E; [|done].
    assert (lastword_loop (length l) l < 0) by (by apply Hk). lia.
Qed.

Lemma hash_value_total be a : bms_wf a -> exists h, bms_hash_value be a = Some h.
Proof.
  intros Ha. destruct a as [l|]; [|by exists 0]. destruct Ha as [Hl _].
  rewrite (hash_value_hashed be _ l) by done. destruct (hashed_words l) as [|w l']; [by exists 0|].
  destruct (hash_any_agree be (flat_map (uint32_bytes be) (w :: l'))) as (h & Hh & _); [apply flat_bytes_wf|].
  by exists h.
Qed.

Lemma hash_value_val be a b : bms_wf a -> bms_wf b -> bms_val a = bms_val b ->
  bms_hash_value be a = bms_hash_value be b.
Proof.
  intros Ha Hb Hv.
  assert (Hnone : forall l, words_wf l -> words_val l = 0 -> bms_hash_value be (Some l) = Some 0).
  { intros l Hl Hz. rewrite (hash_value_hashed be _ l) by done.
    destruct (hashed_words_spec l Hl) as (Hw & Hvl & Hn & _).
    assert (E : hashed_words l = []); [|by rewrite E].
    apply words_canonical; [done|constructor|done|done|]. by rewrite Hvl, Hz. }
  destruct a as [la|], b as [lb|]; cbn [bms_val] in Hv; [| | |done].
  - destruct Ha as [Hla _], Hb as [Hlb _].
    rewrite (hash_value_hashed be _ la), (hash_value_hashed be _ lb) by done.
    destruct (hashed_words_spec la Hla) as (Hwa & Hva & Hna & _).
    destruct (hashed_words_spec lb Hlb) as (Hwb & Hvb & Hnb & _).
    assert (E : hashed_words la = hashed_words lb); [|by rewrite E].
    apply words_canonical; [done|done|done|done|congruence].
  - rewrite Hnone; [done|apply Ha|done].
  - symmetry. rewrite Hnone; [done|apply Hb|done].
Qed.
End HashFacts.

(** ** Properties *)

(** The set operations compute on words what they mean on sets: for
    arguments of any two lengths, NULL included, the result is well formed
    and has exactly the members of the union, intersection or difference,
    for the functions that copy and for those that recycle their arguments. *)
Theorem bms_set_operations_correct a b :
  bms_wf a -> bms_wf b ->
  denotes (bms_union a b) (fun x => mem a x || mem b x) /\
  denotes (bms_add_members a b) (fun x => mem a x || mem b x) /\
  denotes (bms_join a b) (fun x => mem a x || mem b x) /\
  denotes (bms_intersect a b) (fun x => mem a x && mem b x) /\
  denotes (bms_int_members a b) (fun x => mem a x && mem b x) /\
  denotes (bms_difference a b) (fun x => mem a x && negb (mem b x)) /\
  denotes (bms_del_members a b) (fun x => mem a x && negb (mem b x)) /\
  denotes (bms_copy a) (mem a).
Proof.
  intros Ha Hb. split_and!.
  - by apply union_denotes.
  - by apply add_members_denotes.
  - by apply join_denotes.
  - by apply intersect_denotes.
  - by apply int_members_denotes.
  - by apply difference_denotes.
  - by apply del_members_denotes.
  - done.
Qed.

(** The operations on one element: a negative element is an error for all
    four; otherwise membership is tested, an element is added (extending the
    array when it does not fit) or removed, and a singleton made, without
    touching any other member. *)
Theorem bms_member_operations_correct a x :
  bms_wf a -> x < 2 ^ 31 ->
  if x <? 0 then
    bms_is_member x a = Ereport ERRCODE_DATA_EXCEPTION /\
    bms_make_singleton x = Ereport ERRCODE_DATA_EXCEPTION /\
    bms_add_member a x = Ereport ERRCODE_DATA_EXCEPTION /\
    bms_del_member a x = Ereport ERRCODE_DATA_EXCEPTION
  else
    bms_is_member x a = Ok (mem a x) /\
    (exists r, bms_make_singleton x = Ok r /\ denotes r (fun y => y =? x)) /\
    (exists r, bms_add_member a x = Ok r /\ denotes r (fun y => (y =? x) || mem a y)) /\
    (exists r, bms_del_member a x = Ok r /\ denotes r (fun y => negb (y =? x) && mem a y)).
Proof.
  intros Ha Hx. pose proof (is_member_spec a x Ha) as Hm.
  destruct (Z.ltb_spec x 0) as [Hneg|Hpos].
  - unfold bms_make_singleton, bms_add_member, bms_del_member.
    destruct (Z.ltb_spec x 0); [done|lia].
  - split; [done|]. split; [|split].
    + destruct (singleton_denotes x) as (l & Hr & Hd & _); [lia|]. by exists (Some l).
    + apply add_member_denotes; [done|lia].
    + by apply del_member_denotes.
Qed.

(** The comparisons decide the relations of sets, whatever the lengths of
    the arrays: equality and emptiness, inclusion, overlap, non-empty
    difference, and the four-way answer of [bms_subset_compare]. *)
Theorem bms_comparisons_correct a b :
  bms_wf a -> bms_wf b ->
  (bms_equal a b = true <-> forall x, 0 <= x -> mem a x = mem b x) /\
  (bms_is_empty a = true <-> forall x, 0 <= x -> mem a x = false) /\
  (bms_is_subset a b = true <-> forall x, 0 <= x -> mem a x = true -> mem b x = true) /\
  (bms_overlap a b = true <-> exists x, 0 <= x /\ mem a x = true /\ mem b x = true) /\
  (bms_nonempty_difference a b = negb (bms_is_subset a b)) /\
  bms_subset_compare a b = comparison (bms_is_subset a b) (bms_is_subset b a).
Proof.
  intros Ha Hb. split_and!.
  - rewrite bms_equal_val, Z.eqb_eq by done. apply val_mem_eq.
  - rewrite bms_is_empty_val, Z.eqb_eq by done. change 0 with (bms_val None) at 1.
    rewrite val_mem_eq. split; intros H x Hx; rewrite H by done; by rewrite mem_None.
  - by apply bms_is_subset_val.
  - by apply overlap_val.
  - apply nonempty_difference_spec.
  - apply subset_compare_spec.
Qed.

(** Counting agrees with the list of members: [bms_num_members],
    [bms_membership], and the two functions that ask for the only member, with
    their errors. *)
Theorem bms_counting_correct a :
  bms_wf a ->
  bms_num_members a = Some (zlen (members a)) /\
  bms_membership a =
    match members a with [] => BMS_EMPTY_SET | [_] => BMS_SINGLETON | _ => BMS_MULTIPLE end /\
  bms_singleton_member a =
    Some (match members a with
          | [] => Ereport ERRCODE_UNEXPECTED_NULL_VALUE
          | [x] => Ok x
          | _ => Ereport ERRCODE_DATA_EXCEPTION
          end) /\
  bms_get_singleton_member a = Some (match members a with [x] => Some x | _ => None end).
Proof.
  intros Ha. destruct a as [l|]; [|done]. destruct Ha as [Hl Hll].
  destruct (singleton_loop_spec l 0 (-1) Hl) as (m & x & Hm & Hs & Hms); [lia|lia|].
  assert (Hmem := cardinality_members (Some l) m x (conj Hl Hll) Hm).
  cbn [bms_num_members bms_membership bms_singleton_member bms_get_singleton_member].
  rewrite get_singleton_loop_spec, Hs, count_words_spec by (done || lia).
  cbn [Z.leb] in Hms. change (0 <=? -1) with false in *. cbv iota in *. rewrite Hms. cbn [after].
  split; [|destruct m; [rewrite Hmem|rewrite Hmem|destruct Hmem as (y & z & l' & ->)]; done].
  cbn [members]. rewrite words_members_bits, ones_bits_of, Z.add_0_l. do 3 f_equal. unfold zlen. lia.
Qed.

(** Iteration: [bms_next_member] answers the smallest member above its
    argument, or -2, and an argument below -1 is an error; the documented loop
    from -1 visits exactly the members in increasing order; [bms_member_index]
    is the position of a member in that order, or -1. *)
Theorem bms_iteration_correct a prev x :
  bms_wf a -> prev < 2 ^ 31 - 1 -> 0 <= x ->
  (if prev <? -1 then bms_next_member a prev = Some (Ereport ERRCODE_INVALID_PARAMETER_VALUE)
   else exists r, bms_next_member a prev = Some (Ok r) /\
     ((r = -2 /\ forall y, prev < y -> mem a y = false) \/
      (prev < r /\ mem a r = true /\ forall y, prev < y < r -> mem a y = false))) /\
  (mem a (2 ^ 31 - 1) = false ->
   bms_iterate (S (length (members a))) a (-1) = Some (members a)) /\
  (if mem a x then exists i l1 l2, bms_member_index a x = Some (Ok i) /\
     members a = l1 ++ x :: l2 /\ zlen l1 = i
   else bms_member_index a x = Some (Ok (-1))).
Proof.
  intros Ha Hp Hx. split; [|split].
  - destruct (Z.ltb_spec prev (-1)).
    + unfold bms_next_member. by destruct (Z.ltb_spec prev (-1)); [|lia].
    + apply next_member_spec; [done|lia].
  - intros Hmax. destruct a as [l|]; [|done]. cbn [members]. rewrite words_members_bits.
    rewrite (iterate_spec _ l (-1)); [|done|done|lia|]; rewrite Z.add_0_l || idtac;
      replace (-1 + 1) with 0 by lia; rewrite Z.sub_0_r; [done|lia].
  - destruct (mem a x) eqn:Hm.
    + destruct (members_split a x Ha Hx Hm) as (l2 & E). eexists _, _, l2.
      split; [by apply member_index_spec|]. split; [exact E|].
      rewrite ones_bits_of. do 2 f_equal. lia.
    + unfold bms_member_index. rewrite is_member_spec by done.
      destruct (Z.ltb_spec x 0); [lia|]. by rewrite Hm.
Qed.

(** [bms_first_member] returns -1 for an empty set, and otherwise the
    smallest member, which it removes; nothing else changes. *)
Theorem bms_first_member_correct a :
  bms_wf a ->
  exists r x, bms_first_member a = Some (r, x) /\
    match members a with
    | [] => x = -1 /\ r = a
    | y :: _ => x = y /\ denotes r (fun z => negb (z =? y) && mem a z)
    end.
Proof.
  intros Ha. destruct a as [l|]; [|by exists None, (-1)]. destruct Ha as [Hl Hll]. cbn [bms_first_member].
  destruct (first_member_loop_spec l 0 Hl) as (l' & r & -> & Hl' & Hlen & Hr); [lia|]. sbind.
  exists (Some l'), r. split; [done|]. cbn [members]. rewrite words_members_bits.
  destruct Hr as [(-> & Hv & ->)|(j & -> & (Hj & Ht & Hlow) & Hb)].
  - rewrite Hv, bits_of_none; [done|]. intros. apply Z.bits_0.
  - destruct (member_bound (Some l) j (conj Hl Hll) Hj Ht) as (l0 & [= <-] & Hjl & _).
    rewrite (bits_of_first _ _ _ j); [|lia|done|intros; apply Hlow; lia].
    split; [lia|]. split; [split; [done|unfold zlen in *; lia]|]. exact Hb.
Qed.

(** [bms_hash_value] never fails and depends on the set only: sets that
    [bms_equal] identifies have the same hash value, trailing zero words or
    not, and all empty sets hash to 0. *)
Theorem bms_hash_value_correct bigendian a b :
  bms_wf a -> bms_wf b -> bms_equal a b = true ->
  exists h, bms_hash_value bigendian a = Some h /\ bms_hash_value bigendian b = Some h /\
    (bms_is_empty a = true -> h = 0).
Proof.
  intros Ha Hb He. rewrite bms_equal_val in He by done. apply Z.eqb_eq in He.
  destruct (hash_value_total bigendian a Ha) as (h & Hh). exists h. split; [done|].
  split; [by rewrite <- (hash_value_val bigendian a b)|].
  rewrite bms_is_empty_val by done. intros Hz%Z.eqb_eq.
  assert (E : bms_hash_value bigendian a = bms_hash_value bigendian None)
    by (apply hash_value_val; done). rewrite Hh in E. by injection E.
Qed.

(** ** The properties on concrete sets *)

(** {1, 33, 40} with a trailing zero word, and {33}. *)
Definition bms_example : Bitmapset := Some [2; 258; 0].
Definition bms_example2 : Bitmapset := Some [0; 2].

Lemma bms_example_wf : bms_wf bms_example /\ bms_wf bms_example2.
Proof. repeat split; repeat constructor; vm_compute; congruence. Qed.

Lemma bms_set_operations_correct_witness :
  denotes (bms_difference bms_example bms_example2)
    (fun x => mem bms_example x && negb (mem bms_example2 x)) /\
  bms_difference bms_example bms_example2 = Some [2; 256; 0].
Proof.
  split; [|reflexivity].
  apply (bms_set_operations_correct bms_example bms_example2); apply bms_example_wf.
Defined.

Lemma bms_member_operations_correct_witness :
  bms_is_member 40 bms_example = Ok true /\ bms_is_member (-1) bms_example = Ereport ERRCODE_DATA_EXCEPTION.
Proof.
  split.
  - apply (bms_member_operations_correct bms_example 40); [apply bms_example_wf|lia].
  - apply (bms_member_operations_correct bms_example (-1)); [apply bms_example_wf|lia].
Defined.

Lemma bms_comparisons_correct_witness :
  bms_subset_compare bms_example bms_example2 = BMS_SUBSET2 /\
  bms_subset_compare bms_example bms_example2 =
    comparison (bms_is_subset bms_example bms_example2) (bms_is_subset bms_example2 bms_example).
Proof.
  split; [reflexivity|].
  apply (bms_comparisons_correct bms_example bms_example2); apply bms_example_wf.
Defined.

Lemma bms_counting_correct_witness : bms_singleton_member bms_example2 = Some (Ok 33).
Proof. apply (bms_counting_correct bms_example2). apply bms_example_wf. Defined.

Lemma bms_iteration_correct_witness :
  bms_iterate 4 bms_example (-1) = Some [1; 33; 40].
Proof.
  apply (bms_iteration_correct bms_example 0 0); [apply bms_example_wf|lia|lia|reflexivity].
Defined.

Lemma bms_first_member_correct_witness :
  exists r x, bms_first_member bms_example = Some (r, x) /\ x = 1.
Proof.
  destruct (bms_first_member_correct bms_example (proj1 bms_example_wf)) as (r & x & Hr & Hx & _).
  exists r, x. split; [exact Hr|exact Hx].
Defined.

Lemma bms_hash_value_correct_witness :
  exists h, bms_hash_value false (Some [2; 258; 0]) = Some h /\ bms_hash_value false (Some [2; 258]) = Some h.
Proof.
  destruct (bms_hash_value_correct false bms_example (Some [2; 258])) as (h & H1 & H2 & _).
  - apply bms_example_wf.
  - repeat split; repeat constructor; vm_compute; congruence.
  - reflexivity.
  - exists h. split; [exact H1|exact H2].
Defined.
