(* ===== verification/Xid.v ===== *)
(** Transaction identifiers, commit sequence numbers and snapshots
    (include/access/transam.h, include/c.h, include/access/clog.h,
    include/utils/snapshot.h, include/utils/snapmgr.h).

    A [TransactionId] and a [CommitSeqNo] are 64-bit unsigned integers, hence
    [Z]; a commit sequence number (CSN) carries two flag bits: "commit in
    progress" and "the low bits are the parent transaction". *)
From S2P Require Import Prelude.
From Stdlib Require Import Lia Btauto.

(** [flag m b] is the truth value of the C expression [m & b]. *)
Definition flag (m b : Z) : bool := negb (Z.land m b =? 0).

(** ** Transaction identifiers *)

Definition InvalidTransactionId : Z := 0.
Definition BootstrapTransactionId : Z := 1.
Definition FrozenTransactionId : Z := 2.
Definition FirstNormalTransactionId : Z := 3.

Definition TransactionIdIsValid (xid : Z) : bool := negb (xid =? InvalidTransactionId).
Definition TransactionIdIsNormal (xid : Z) : bool := FirstNormalTransactionId <=? xid.
Definition TransactionIdEquals (id1 id2 : Z) : bool := id1 =? id2.
Definition TransactionIdPrecedes (id1 id2 : Z) : bool := id1 <? id2.
Definition TransactionIdFollowsOrEquals (id1 id2 : Z) : bool := id2 <=? id1.

(** The 32-bit identifiers stored in a tuple are offsets from a 64-bit base
    of the page, except for the three special ones. *)
Definition ShortTransactionIdToNormal (base xid : Z) : Z :=
  if TransactionIdIsNormal xid then u64 (xid + base) else xid.

Definition NormalTransactionIdToShort (base xid : Z) : Z :=
  if TransactionIdIsNormal xid then u32 (xid - base) else u32 xid.

(** ** Status of a transaction in the commit log *)

Inductive CLogXidStatus :=
  | CLOG_XID_STATUS_IN_PROGRESS
  | CLOG_XID_STATUS_COMMITTED
  | CLOG_XID_STATUS_ABORTED
  | CLOG_XID_STATUS_SUB_COMMITTED.

#[global] Instance CLogXidStatus_eq_dec : EqDecision CLogXidStatus.
Proof. solve_decision. Defined.

Inductive TransactionIdStatus := XID_COMMITTED | XID_ABORTED | XID_INPROGRESS.

#[global] Instance TransactionIdStatus_eq_dec : EqDecision TransactionIdStatus.
Proof. solve_decision. Defined.

(** ** Commit sequence numbers *)

Definition COMMITSEQNO_INPROGRESS : Z := 0.
Definition COMMITSEQNO_ABORTED : Z := 1.
Definition COMMITSEQNO_FROZEN : Z := 2.
Definition COMMITSEQNO_COMMIT_INPROGRESS : Z := Z.shiftl 1 62.
Definition COMMITSEQNO_SUBTRANS_BIT : Z := Z.shiftl 1 63.
Definition MAX_COMMITSEQNO : Z := Z.shiftl 1 60 - 1.
Definition COMMITSEQNO_RESERVE_MASK : Z := u64 (Z.lnot MAX_COMMITSEQNO).
Definition InvalidCommitSeqNo : Z := 0.

Definition COMMITSEQNO_IS_ABORTED (csn : Z) : bool := csn =? COMMITSEQNO_ABORTED.
Definition COMMITSEQNO_IS_COMMITTED (csn : Z) : bool :=
  (COMMITSEQNO_FROZEN <=? Z.land csn MAX_COMMITSEQNO)
  && (Z.land csn COMMITSEQNO_RESERVE_MASK =? 0).
Definition COMMITSEQNO_IS_COMMITTING (csn : Z) : bool :=
  Z.land csn COMMITSEQNO_COMMIT_INPROGRESS =? COMMITSEQNO_COMMIT_INPROGRESS.
Definition COMMITSEQNO_IS_SUBTRANS (csn : Z) : bool :=
  Z.land csn COMMITSEQNO_SUBTRANS_BIT =? COMMITSEQNO_SUBTRANS_BIT.
Definition GET_COMMITSEQNO (csn : Z) : Z := Z.land csn MAX_COMMITSEQNO.
Definition GET_PARENTXID (csn : Z) : Z := Z.land csn MAX_COMMITSEQNO.

(** ** Snapshots *)

Inductive SnapshotSatisfiesMethod :=
  | SNAPSHOT_MVCC
  | SNAPSHOT_VERSION_MVCC
  | SNAPSHOT_DELTA
  | SNAPSHOT_LOST
  | SNAPSHOT_NOW
  | SNAPSHOT_SELF
  | SNAPSHOT_ANY
  | SNAPSHOT_TOAST
  | SNAPSHOT_DIRTY
  | SNAPSHOT_HISTORIC_MVCC
  | SNAPSHOT_DECODE_MVCC.

#[global] Instance SnapshotSatisfiesMethod_eq_dec : EqDecision SnapshotSatisfiesMethod.
Proof. solve_decision. Defined.

(** The fields of a snapshot that visibility reads; the arrays are lists (with
    their counts).  [gtm_local] says that [gtm_snapshot_type] is
    [GTM_SNAPSHOT_TYPE_LOCAL]. *)
Record SnapshotData := MkSnapshot {
  satisfies : SnapshotSatisfiesMethod;
  snap_xmin : Z;
  snap_xmax : Z;
  snap_xip : list Z;
  snap_subxip : list Z;
  snapshotcsn : Z;
  prepared_array : list Z;
  curcid : Z;
  gtm_local : bool }.

Definition IsVersionMVCCSnapshot (s : SnapshotData) : bool :=
  match satisfies s with
  | SNAPSHOT_VERSION_MVCC | SNAPSHOT_DELTA | SNAPSHOT_LOST => true
  | _ => false
  end.

Definition IsMVCCSnapshot (s : SnapshotData) : bool :=
  match satisfies s with
  | SNAPSHOT_MVCC | SNAPSHOT_HISTORIC_MVCC | SNAPSHOT_DECODE_MVCC => true
  | _ => IsVersionMVCCSnapshot s
  end.

(** ** Settings

    The global variables the modelled code only reads: configuration
    parameters, the role of the instance, and thread state that does not
    change during a call.  The build modelled is the single-node one
    ([ENABLE_MULTIPLE_NODES] off, [ENABLE_LITE_MODE] on, so that [ENABLE_DMS]
    is false and no transaction status is fetched from another node). *)

Record MultiXactMember := MkMember { mxm_xid : Z; mxm_status : Z }.

(** One entry of the stack of transaction states of this backend: the state is
    being aborted (or undone) or not, its xid, its sub-committed children. *)
Record TransactionStateData := MkXactState {
  state_aborting : bool;
  transactionId : Z;
  childXids : list Z }.

Class Session := {
  SS_STANDBY_MODE : bool;
  RecoveryInProgress : bool;
  InRecovery : bool;
  IsRoachStandbyCluster : bool;
  IsBootstrapProcessingMode : bool;
  IS_DISASTER_RECOVER_MODE : bool;
  GTM_LITE_MODE : bool;
  IsInitdb : bool;
  StreamThreadAmI : bool;
  useLocalSnapshot : bool;
  bInAbortTransaction : bool;
  xc_maintenance_mode : bool;
  XactReadOnly : bool;
  enable_show_any_tuples : bool;
  enable_cluster_resize : bool;
  XactIsoLevel : Z;
  (** transaction horizons and limits *)
  TransactionXmin : Z;
  RecentXmin : Z;
  recentGlobalXmin : Z;
  recentLocalXmin : Z;
  globalRecycleXid : Z;
  ReplicationSlotCatalogXmin : Z;
  startupMaxXid : Z;
  (** the current transaction: its command id, its stack of states (innermost
      first) and its combo command ids, by combo id *)
  currentCommandId : Z;
  CurrentTransactionState : list TransactionStateData;
  comboCids : list (Z * Z);
  (** the members of a multixact, which never change: [GetMultiXactIdMembers] *)
  GetMultiXactIdMembers : Z -> list MultiXactMember
}.

(** A primary in normal operation, outside any transaction. *)
Definition normal_session : Session := {|
  SS_STANDBY_MODE := false; RecoveryInProgress := false; InRecovery := false;
  IsRoachStandbyCluster := false; IsBootstrapProcessingMode := false;
  IS_DISASTER_RECOVER_MODE := false; GTM_LITE_MODE := false; IsInitdb := false;
  StreamThreadAmI := false; useLocalSnapshot := false; bInAbortTransaction := false;
  xc_maintenance_mode := false; XactReadOnly := false; enable_show_any_tuples := false;
  enable_cluster_resize := false; XactIsoLevel := 1; TransactionXmin := 3;
  RecentXmin := 3; recentGlobalXmin := 3; recentLocalXmin := 3; globalRecycleXid := 3;
  ReplicationSlotCatalogXmin := 3; startupMaxXid := 3; currentCommandId := 0;
  CurrentTransactionState := []; comboCids := []; GetMultiXactIdMembers := fun _ => [] |}.

(** ** Lemmas: the classes of CSNs *)

Lemma land_flag_eq csn b : 0 <= b ->
  (Z.land csn (Z.shiftl 1 b) =? Z.shiftl 1 b) = Z.testbit csn b.
Proof.
  intros Hb. rewrite Z.shiftl_1_l. destruct (Z.testbit csn b) eqn:Ht.
  - apply Z.eqb_eq. apply Z.bits_inj'. intros k Hk.
    rewrite Z.land_spec, Z.pow2_bits_eqb by done.
    destruct (Z.eqb_spec b k) as [->|]; [by rewrite Ht|by rewrite andb_false_r].
  - apply Z.eqb_neq. intros Heq.
    assert (Z.testbit (Z.land csn (2 ^ b)) b = true) as Hc.
    { rewrite Heq. by apply Z.pow2_bits_true. }
    rewrite Z.land_spec, Ht in Hc. done.
Qed.

Lemma committing_testbit csn : COMMITSEQNO_IS_COMMITTING csn = Z.testbit csn 62.
Proof. by apply land_flag_eq. Qed.

Lemma subtrans_testbit csn : COMMITSEQNO_IS_SUBTRANS csn = Z.testbit csn 63.
Proof. by apply land_flag_eq. Qed.

Lemma reserve_testbit b : 60 <= b < 64 -> Z.testbit COMMITSEQNO_RESERVE_MASK b = true.
Proof.
  intros Hb. assert (b = 60 \/ b = 61 \/ b = 62 \/ b = 63) as [-> | [-> | [-> | ->]]] by lia; done.
Qed.

Lemma committed_no_flags csn b :
  COMMITSEQNO_IS_COMMITTED csn = true -> 60 <= b < 64 -> Z.testbit csn b = false.
Proof.
  intros [_ H]%andb_true_iff Hb. apply Z.eqb_eq in H.
  assert (Z.testbit (Z.land csn COMMITSEQNO_RESERVE_MASK) b = false) as H'
    by (rewrite H; apply Z.bits_0).
  rewrite Z.land_spec, reserve_testbit, andb_true_r in H' by done. done.
Qed.

Lemma committed_not_committing csn :
  COMMITSEQNO_IS_COMMITTED csn = true -> COMMITSEQNO_IS_COMMITTING csn = false.
Proof. intros. rewrite committing_testbit. by apply committed_no_flags. Qed.

Lemma committed_not_subtrans csn :
  COMMITSEQNO_IS_COMMITTED csn = true -> COMMITSEQNO_IS_SUBTRANS csn = false.
Proof. intros. rewrite subtrans_testbit. by apply committed_no_flags. Qed.

Lemma aborted_spec csn : COMMITSEQNO_IS_ABORTED csn = true -> csn = COMMITSEQNO_ABORTED.
Proof. apply Z.eqb_eq. Qed.

Lemma committed_nonzero csn : COMMITSEQNO_IS_COMMITTED csn = true ->
  csn <> InvalidCommitSeqNo /\ csn <> COMMITSEQNO_ABORTED.
Proof. intros H. split; intros ->; vm_compute in H; done. Qed.

Lemma land_max csn : Z.land csn MAX_COMMITSEQNO = csn mod 2 ^ 60.
Proof. change MAX_COMMITSEQNO with (Z.ones 60). by rewrite Z.land_ones. Qed.

Lemma committed_small csn : COMMITSEQNO_FROZEN <= csn <= MAX_COMMITSEQNO ->
  COMMITSEQNO_IS_COMMITTED csn = true.
Proof.
  change COMMITSEQNO_FROZEN with 2. change MAX_COMMITSEQNO with (2 ^ 60 - 1).
  intros H. unfold COMMITSEQNO_IS_COMMITTED. rewrite land_max, Z.mod_small by lia.
  apply andb_true_iff. split; [apply Z.leb_le; apply H|]. apply Z.eqb_eq.
  apply Z.bits_inj'. intros k Hk. rewrite Z.land_spec, Z.bits_0.
  destruct (Z.lt_ge_cases k 60) as [Hlt|Hge].
  - apply andb_false_iff. right.
    assert (COMMITSEQNO_RESERVE_MASK = 15 * 2 ^ 60) as -> by reflexivity.
    by rewrite Z.mul_pow2_bits_low.
  - rewrite (Z.bits_above_log2 csn k); [done|lia|].
    apply Z.lt_le_trans with 60; [|done]. apply Z.log2_lt_pow2; lia.
Qed.

(** A flagged CSN is recognised by its flags and carries its payload in the
    low 60 bits. *)
Lemma csn_flags p c s : 0 <= p <= MAX_COMMITSEQNO ->
  let v := Z.lor (if s : bool then COMMITSEQNO_SUBTRANS_BIT else 0)
                 (Z.lor (if c : bool then COMMITSEQNO_COMMIT_INPROGRESS else 0) p) in
  COMMITSEQNO_IS_COMMITTING v = c /\ COMMITSEQNO_IS_SUBTRANS v = s /\ GET_PARENTXID v = p.
Proof.
  change MAX_COMMITSEQNO with (2 ^ 60 - 1). intros Hp v.
  assert (Hbit : forall b, 60 <= b -> Z.testbit p b = false).
  { intros b Hb. destruct (Z.eq_dec p 0) as [->|]; [apply Z.bits_0|].
    apply Z.bits_above_log2; [lia|]. apply Z.lt_le_trans with 60; [|done].
    apply Z.log2_lt_pow2; lia. }
  rewrite committing_testbit, subtrans_testbit. unfold v. rewrite !Z.lor_spec, !Hbit by lia.
  split_and!; [by destruct c, s|by destruct c, s|].
  unfold GET_PARENTXID. change MAX_COMMITSEQNO with (Z.ones 60).
  rewrite !Z.land_lor_distr_l. rewrite (Z.land_ones p) by lia. rewrite Z.mod_small by lia.
  by destruct c, s.
Qed.
