(* ===== verification/XactLog.v ===== *)
(** The transaction logs: the commit log
    ([src/src/gausskernel/storage/access/transam/clog.cpp]) and the CSN log
    ([csnlog.cpp] in the same directory).

    The commit log keeps two bits per transaction, four transactions to a
    byte; the CSN log keeps a 64-bit CSN per transaction.  Both are arrays on
    pages kept by an SLRU pool; here a log is the contents of its pages, read
    and written by page number and offset, and the pool (slots, locks,
    eviction, disk) is not modelled: an entry never written reads as zero, as
    on a page that was just extended.

    The entries of a transaction tree are updated page by page, under the lock
    of one page at a time.  [CLogSetTreeStatus] and [CSNLogSetCommitSeqNo]
    therefore return the list of the states of the log other backends can see
    between the page updates; the last one is the final state. *)
From S2P Require Import Prelude Xid.
From stdpp Require Import gmap.
#[local] Open Scope Z_scope.

(** ** The commit log *)

Definition CLOG_BITS_PER_XACT : Z := 2.
Definition CLOG_XACTS_PER_BYTE : Z := 4.
Definition CLOG_XACT_BITMASK : Z := Z.shiftl 1 CLOG_BITS_PER_XACT - 1.
Definition CLOG_XACTS_PER_LSN_GROUP : Z := 32.

Definition InvalidXLogRecPtr : Z := 0.

Definition CLogXidStatus_code (st : CLogXidStatus) : Z :=
  match st with
  | CLOG_XID_STATUS_IN_PROGRESS => 0
  | CLOG_XID_STATUS_COMMITTED => 1
  | CLOG_XID_STATUS_ABORTED => 2
  | CLOG_XID_STATUS_SUB_COMMITTED => 3
  end.

Definition CLogXidStatus_of (code : Z) : CLogXidStatus :=
  if code =? 1 then CLOG_XID_STATUS_COMMITTED
  else if code =? 2 then CLOG_XID_STATUS_ABORTED
  else if code =? 3 then CLOG_XID_STATUS_SUB_COMMITTED
  else CLOG_XID_STATUS_IN_PROGRESS.

(** The bytes of the pages and the latest commit LSN of each group, by page
    number and index in the page. *)
Record Clog := MkClog {
  clog_bytes : gmap (Z * Z) Z;
  clog_group_lsn : gmap (Z * Z) Z }.

Section Clog.
Context {bs : BlockSize} {ses : Session}.

Definition CLOG_XACTS_PER_PAGE : Z := BLCKSZ * CLOG_XACTS_PER_BYTE.

Definition TransactionIdToPage (xid : Z) : Z := xid / CLOG_XACTS_PER_PAGE.
Definition TransactionIdToPgIndex (xid : Z) : Z := xid mod CLOG_XACTS_PER_PAGE.
Definition TransactionIdToByte (xid : Z) : Z := TransactionIdToPgIndex xid / CLOG_XACTS_PER_BYTE.
Definition TransactionIdToBIndex (xid : Z) : Z := xid mod CLOG_XACTS_PER_BYTE.
Definition GetLSNIndex (xid : Z) : Z :=
  (xid mod CLOG_XACTS_PER_PAGE) / CLOG_XACTS_PER_LSN_GROUP.

Definition clog_byte (c : Clog) (pageno byteno : Z) : Z :=
  default 0 (clog_bytes c !! (pageno, byteno)).
Definition group_lsn (c : Clog) (pageno lsnindex : Z) : Z :=
  default 0 (clog_group_lsn c !! (pageno, lsnindex)).

(** The new value of the byte: the two bits of the transaction replaced. *)
Definition set_bits (byteval bshift code : Z) : Z :=
  let mask := Z.shiftl (Z.shiftl 1 CLOG_BITS_PER_XACT - 1) bshift in
  u8 (Z.lor (u8 (Z.land byteval (Z.lnot mask))) (Z.shiftl code bshift)).

Definition get_bits (byteval bshift : Z) : Z :=
  Z.land (Z.shiftr byteval bshift) CLOG_XACT_BITMASK.

Definition CLogSetStatusBit (xid : Z) (status : CLogXidStatus) (lsn : Z) (c : Clog) :
  result Clog :=
  let byteno := TransactionIdToByte xid in
  let pageno := TransactionIdToPage xid in
  let bshift := TransactionIdToBIndex xid * CLOG_BITS_PER_XACT in
  let byteval := clog_byte c pageno byteno in
  let curval := CLogXidStatus_of (get_bits byteval bshift) in
  if InRecovery && bool_decide (status = CLOG_XID_STATUS_SUB_COMMITTED)
     && bool_decide (curval = CLOG_XID_STATUS_COMMITTED) then Ok c
  else if SS_STANDBY_MODE then Ok c
  else if negb (bool_decide (curval = CLOG_XID_STATUS_IN_PROGRESS)
     || (bool_decide (curval = CLOG_XID_STATUS_SUB_COMMITTED)
         && negb (bool_decide (status = CLOG_XID_STATUS_IN_PROGRESS)))
     || bool_decide (curval = status)
     || (bool_decide (curval = CLOG_XID_STATUS_COMMITTED)
         && bool_decide (status = CLOG_XID_STATUS_SUB_COMMITTED)))
  then Ereport ERRCODE_INTERNAL_ERROR
  else
    let byteval := set_bits byteval bshift (CLogXidStatus_code status) in
    let lsnindex := GetLSNIndex xid in
    Ok {| clog_bytes := <[(pageno, byteno) := byteval]> (clog_bytes c);
          clog_group_lsn :=
            if negb (lsn =? InvalidXLogRecPtr) && (group_lsn c pageno lsnindex <? lsn)
            then <[(pageno, lsnindex) := lsn]> (clog_group_lsn c)
            else clog_group_lsn c |}.

(** The status and "an LSN late enough" for the commit record. *)
Definition CLogGetStatus (xid : Z) (c : Clog) : CLogXidStatus * Z :=
  let pageno := TransactionIdToPage xid in
  let byteno := TransactionIdToByte xid in
  let bshift := TransactionIdToBIndex xid * CLOG_BITS_PER_XACT in
  (CLogXidStatus_of (get_bits (clog_byte c pageno byteno) bshift),
   group_lsn c pageno (GetLSNIndex xid)).

(** [for (i = 0; i < nsubxids; i++) CLogSetStatusBit(subxids[i], status, ...)] *)
Fixpoint set_subxids (subxids : list Z) (status : CLogXidStatus) (lsn : Z) (c : Clog) :
  result Clog :=
  match subxids with
  | [] => Ok c
  | x :: rest => c ← CLogSetStatusBit x status lsn c; set_subxids rest status lsn c
  end.

Definition CLogSetPageStatusInternal (xid : Z) (subxids : list Z) (status : CLogXidStatus)
    (lsn : Z) (c : Clog) : result Clog :=
  if negb (bool_decide (status = CLOG_XID_STATUS_COMMITTED)
     || bool_decide (status = CLOG_XID_STATUS_ABORTED)
     || (bool_decide (status = CLOG_XID_STATUS_SUB_COMMITTED) && negb (TransactionIdIsValid xid)))
  then Ereport ERRCODE_INTERNAL_ERROR
  else
    c ← (if TransactionIdIsValid xid then
           c ← (if bool_decide (status = CLOG_XID_STATUS_COMMITTED)
                then set_subxids subxids CLOG_XID_STATUS_SUB_COMMITTED lsn c else Ok c);
           CLogSetStatusBit xid status lsn c
         else Ok c);
    set_subxids subxids status lsn c.

(** The three ways to get the lock (at once, as a member of a group whose
    leader does the update, by waiting) run [CLogSetPageStatusInternal] once,
    under the lock of the page. *)
Definition CLogSetPageStatus (xid : Z) (subxids : list Z) (status : CLogXidStatus)
    (lsn : Z) (c : Clog) : result Clog :=
  CLogSetPageStatusInternal xid subxids status lsn c.

(** The longest prefix of the array whose entries are on the page, and the
    rest: the inner loops that count [num_on_page]. *)
Fixpoint span_page (page_of : Z -> Z) (pageno : Z) (xids : list Z) : list Z * list Z :=
  match xids with
  | [] => ([], [])
  | x :: rest =>
      if page_of x =? pageno
      then let (on_page, others) := span_page page_of pageno rest in (x :: on_page, others)
      else ([], xids)
  end.

(** The rest of the array cut into its runs of entries of one page. *)
Fixpoint page_runs (page_of : Z -> Z) (fuel : nat) (xids : list Z) : list (list Z) :=
  match fuel, xids with
  | S fuel, x :: rest =>
      let (on_page, others) := span_page page_of (page_of x) rest in
      (x :: on_page) :: page_runs page_of fuel others
  | _, _ => []
  end.

(** The states after each page update, oldest first. *)
Fixpoint set_runs (runs : list (list Z)) (status : CLogXidStatus) (lsn : Z) (c : Clog) :
  result (list Clog) :=
  match runs with
  | [] => Ok []
  | run :: runs =>
      c ← CLogSetPageStatus InvalidTransactionId run status lsn c;
      cs ← set_runs runs status lsn c;
      Ok (c :: cs)
  end.

Definition set_status_by_pages (subxids : list Z) (status : CLogXidStatus) (lsn : Z)
    (c : Clog) : result (list Clog) :=
  set_runs (page_runs TransactionIdToPage (length subxids) subxids) status lsn c.

Definition CLogSetTreeStatus (xid : Z) (subxids : list Z) (status : CLogXidStatus)
    (lsn : Z) (c : Clog) : result (list Clog) :=
  if negb (bool_decide (status = CLOG_XID_STATUS_COMMITTED)
           || bool_decide (status = CLOG_XID_STATUS_ABORTED))
  then Ereport ERRCODE_INTERNAL_ERROR
  else
    let (first_page, others) := span_page TransactionIdToPage (TransactionIdToPage xid) subxids in
    match others with
    | [] => c ← CLogSetPageStatus xid subxids status lsn c; Ok [c]
    | _ =>
        cs1 ← (if bool_decide (status = CLOG_XID_STATUS_COMMITTED)
               then set_status_by_pages others CLOG_XID_STATUS_SUB_COMMITTED lsn c else Ok []);
        c ← CLogSetPageStatus xid first_page status lsn (List.last cs1 c);
        cs2 ← set_status_by_pages others status lsn c;
        Ok (cs1 ++ c :: cs2)
    end.
End Clog.

(** ** The CSN log *)

(** The entries of the pages, by xid. *)
Abbreviation Csnlog := (gmap Z Z).

Section CsnLog.
Context {bs : BlockSize} {ses : Session}.

Definition CSNLOG_XACTS_PER_PAGE : Z := BLCKSZ / 8.
Definition TransactionIdToCSNPage (xid : Z) : Z := xid / CSNLOG_XACTS_PER_PAGE.

Definition csnlog_entry (l : Csnlog) (xid : Z) : Z := default COMMITSEQNO_INPROGRESS (l !! xid).

Definition CSNLogSetCSN (xid csn : Z) (l : Csnlog) : result Csnlog :=
  let value := csnlog_entry l xid in
  if (COMMITSEQNO_IS_COMMITTED value && COMMITSEQNO_IS_ABORTED csn)
     || (COMMITSEQNO_IS_ABORTED value && COMMITSEQNO_IS_COMMITTED csn)
  then Ereport ERRCODE_INTERNAL_ERROR
  else if negb (COMMITSEQNO_IS_ABORTED value) then Ok (<[xid := csn]> l)
  else Ok l.

Fixpoint set_csns (subxids : list Z) (csn : Z) (l : Csnlog) : result Csnlog :=
  match subxids with
  | [] => Ok l
  | x :: rest => l ← CSNLogSetCSN x csn l; set_csns rest csn l
  end.

(** [pageno] selects the page and its lock; the page is always readable. *)
Definition CSNLogSetPageStatus (xid : Z) (subxids : list Z) (csn topxid : Z) (l : Csnlog) :
  result Csnlog :=
  if SS_STANDBY_MODE then Ok l
  else
    let commit_in_progress :=
      Z.land csn COMMITSEQNO_COMMIT_INPROGRESS =? COMMITSEQNO_COMMIT_INPROGRESS in
    l ← (if TransactionIdIsValid xid then CSNLogSetCSN xid csn l else Ok l);
    let set_csn :=
      if commit_in_progress
      then Z.lor (Z.lor COMMITSEQNO_SUBTRANS_BIT topxid) COMMITSEQNO_COMMIT_INPROGRESS
      else csn in
    set_csns subxids set_csn l.

Fixpoint set_csn_runs (runs : list (list Z)) (csn topxid : Z) (l : Csnlog) :
  result (list Csnlog) :=
  match runs with
  | [] => Ok []
  | run :: runs =>
      l ← CSNLogSetPageStatus InvalidTransactionId run csn topxid l;
      ls ← set_csn_runs runs csn topxid l;
      Ok (l :: ls)
  end.

Definition CSNLogSetCommitSeqNo (xid : Z) (subxids : list Z) (csn : Z) (l : Csnlog) :
  result (list Csnlog) :=
  let topxid := xid in
  if (useLocalSnapshot || IsRoachStandbyCluster) && (csn <=? COMMITSEQNO_ABORTED) then Ok [l]
  else
    csn ← (if (csn =? InvalidCommitSeqNo) || (xid =? BootstrapTransactionId) then
             if IsBootstrapProcessingMode then Ok COMMITSEQNO_FROZEN
             else Ereport ERRCODE_IO_ERROR
           else Ok csn);
    let (on_page, others) := span_page TransactionIdToCSNPage (TransactionIdToCSNPage xid) subxids in
    l ← CSNLogSetPageStatus xid on_page csn topxid l;
    ls ← set_csn_runs (page_runs TransactionIdToCSNPage (length others) others) csn topxid l;
    Ok (l :: ls).

Definition SubTransSetParent (xid parent : Z) (l : Csnlog) : Csnlog :=
  if SS_STANDBY_MODE then l
  else
    let newcsn := Z.lor COMMITSEQNO_SUBTRANS_BIT parent in
    let cur := csnlog_entry l xid in
    if negb (cur =? newcsn) && negb (cur =? Z.lor newcsn COMMITSEQNO_COMMIT_INPROGRESS)
    then <[xid := newcsn]> l
    else l.

Definition InternalGetCommitSeqNo (xid : Z) (l : Csnlog) : Z :=
  if negb (TransactionIdIsNormal xid) && (xid =? InvalidTransactionId) then COMMITSEQNO_ABORTED
  else if negb (TransactionIdIsNormal xid)
          && ((xid =? FrozenTransactionId) || (xid =? BootstrapTransactionId))
  then COMMITSEQNO_FROZEN
  else csnlog_entry l xid.

Definition CSNLogGetCommitSeqNo (xid : Z) (l : Csnlog) : Z := InternalGetCommitSeqNo xid l.

(** The recursion follows parents.  The lock of the page of the child is given
    up before the page of the parent is locked, so the log may change on the
    way: the entries are read in successive states [s], [later] of the system.
    [None] when the fuel is used up. *)
Fixpoint RecursiveGetCommitSeqNo {S : Type} (log : S -> Csnlog) (fuel : nat) (xid : Z)
    (s : S) (later : list S) : option (Z * (S * list S)) :=
  match fuel with
  | O => None
  | Datatypes.S fuel =>
      let csn := InternalGetCommitSeqNo xid (log s) in
      if COMMITSEQNO_IS_SUBTRANS csn && COMMITSEQNO_IS_COMMITTING csn
      then
        let parentXid := GET_PARENTXID csn in
        match later with
        | [] => RecursiveGetCommitSeqNo log fuel parentXid s []
        | s :: later => RecursiveGetCommitSeqNo log fuel parentXid s later
        end
      else Some (csn, (s, later))
  end.

(** The parent entry, and the outcome when the top transaction has already
    overwritten the entry with its CSN ([force_wait_parent] is false). *)
Definition SubTransGetParent (xid : Z) (l : Csnlog) : Z * option CLogXidStatus :=
  let csn := CSNLogGetCommitSeqNo xid l in
  if COMMITSEQNO_IS_SUBTRANS csn then (GET_PARENTXID csn, None)
  else (InvalidTransactionId,
        if COMMITSEQNO_IS_ABORTED csn then Some CLOG_XID_STATUS_ABORTED
        else if COMMITSEQNO_IS_COMMITTED csn then Some CLOG_XID_STATUS_COMMITTED
        else None).

(** [SubTransGetTopmostTransaction]: up to the last xid that is not before
    [TransactionXmin]; a parent that does not precede its child is an error. *)
Fixpoint SubTransGetTopmostTransaction_loop (fuel : nat) (parentXid previousXid : Z)
    (l : Csnlog) : option (result Z) :=
  match fuel with
  | O => None
  | S fuel =>
      if negb (TransactionIdIsValid parentXid) then Some (Ok previousXid)
      else
        let previousXid := parentXid in
        if TransactionIdPrecedes parentXid TransactionXmin then Some (Ok previousXid)
        else
          let parentXid := fst (SubTransGetParent parentXid l) in
          if negb (TransactionIdPrecedes parentXid previousXid)
          then Some (Ereport ERRCODE_IO_ERROR)
          else SubTransGetTopmostTransaction_loop fuel parentXid previousXid l
  end.

Definition SubTransGetTopmostTransaction (xid : Z) (l : Csnlog) : option (result Z) :=
  SubTransGetTopmostTransaction_loop (S (S (Z.to_nat xid))) xid xid l.
End CsnLog.

(** ** Facts about the commit log *)

Section ClogFacts.
Context {bs : BlockSize} {ses : Session}.

Definition clog_status (c : Clog) (xid : Z) : CLogXidStatus := fst (CLogGetStatus xid c).
Definition commit_lsn (c : Clog) (xid : Z) : Z := snd (CLogGetStatus xid c).

Definition clog_wf (c : Clog) : Prop :=
  (forall p b, 0 <= clog_byte c p b < 256) /\ (forall p i, 0 <= group_lsn c p i).

(** The two bits at a position, bit by bit. *)
Lemma get_bits_testbit b s k : 0 <= s -> 0 <= k ->
  Z.testbit (get_bits b s) k = Z.testbit b (k + s) && (k <? 2).
Proof.
  intros Hs Hk. unfold get_bits. change CLOG_XACT_BITMASK with (Z.ones 2).
  rewrite Z.land_spec, Z.shiftr_spec, Z.testbit_ones_nonneg by lia. done.
Qed.

Lemma set_bits_testbit b s code k : 0 <= s -> 0 <= k < 8 ->
  Z.testbit (set_bits b s code) k
  = Z.testbit b k && negb (Z.testbit (Z.ones 2) (k - s)) || Z.testbit code (k - s).
Proof.
  intros Hs Hk. unfold set_bits, uN. change (Z.shiftl 1 CLOG_BITS_PER_XACT - 1) with (Z.ones 2).
  rewrite !Z.mod_pow2_bits_low, Z.lor_spec, !Z.mod_pow2_bits_low, Z.land_spec, Z.lnot_spec,
    !Z.shiftl_spec by lia. done.
Qed.

Lemma code_bits code k : 0 <= code < 4 -> 2 <= k -> Z.testbit code k = false.
Proof.
  intros Hc Hk. destruct (Z.eq_dec code 0) as [->|]; [apply Z.bits_0|].
  apply Z.bits_above_log2; [lia|]. assert (Z.log2 code < 2) by (apply Z.log2_lt_pow2; lia). lia.
Qed.

Lemma set_get_bits b code i j :
  0 <= code < 4 -> 0 <= i < 4 -> 0 <= j < 4 ->
  0 <= set_bits b (i * 2) code < 256 /\
  get_bits (set_bits b (i * 2) code) (j * 2) = (if i =? j then code else get_bits b (j * 2)).
Proof.
  intros Hc Hi Hj. split; [apply (uN_range 8); lia|].
  apply Z.bits_inj'. intros k Hk. rewrite get_bits_testbit by lia.
  destruct (Z.ltb_spec k 2) as [Hk2|Hk2].
  - rewrite andb_true_r, set_bits_testbit by lia.
    destruct (Z.eqb_spec i j) as [->|Hne].
    + replace (k + j * 2 - j * 2) with k by lia. rewrite Z.testbit_ones_nonneg by lia.
      destruct (Z.ltb_spec k 2); [|lia]. by rewrite andb_false_r.
    + rewrite get_bits_testbit by lia. destruct (Z.ltb_spec k 2); [|lia]. rewrite andb_true_r.
      destruct (Z.lt_ge_cases (k + j * 2 - i * 2) 0).
      * rewrite (Z.testbit_neg_r (Z.ones 2)), (Z.testbit_neg_r code) by lia. by rewrite andb_true_r, orb_false_r.
      * rewrite Z.testbit_ones_nonneg by lia. destruct (Z.ltb_spec (k + j * 2 - i * 2) 2); [lia|].
        rewrite (code_bits code) by lia. by rewrite andb_true_r, orb_false_r.
  - rewrite andb_false_r. destruct (i =? j); [by rewrite code_bits|].
    rewrite get_bits_testbit by lia. destruct (Z.ltb_spec k 2); [lia|]. by rewrite andb_false_r.
Qed.

Lemma status_code_of st : CLogXidStatus_of (CLogXidStatus_code st) = st.
Proof. by destruct st. Qed.

Lemma status_code_range st : 0 <= CLogXidStatus_code st < 4.
Proof. destruct st; simpl; lia. Qed.

Lemma XACTS_PER_PAGE_pos : 0 < CLOG_XACTS_PER_PAGE /\ exists k, CLOG_XACTS_PER_PAGE = 4 * k.
Proof.
  unfold CLOG_XACTS_PER_PAGE, CLOG_XACTS_PER_BYTE. pose proof BLCKSZ_valid.
  split; [lia|]. exists BLCKSZ. lia.
Qed.

Lemma xid_position_inj x y :
  TransactionIdToPage x = TransactionIdToPage y ->
  TransactionIdToByte x = TransactionIdToByte y ->
  TransactionIdToBIndex x = TransactionIdToBIndex y -> x = y.
Proof.
  unfold TransactionIdToPage, TransactionIdToByte, TransactionIdToBIndex,
    TransactionIdToPgIndex, CLOG_XACTS_PER_BYTE.
  destruct XACTS_PER_PAGE_pos as [Hp [k Hk]]. set (n := CLOG_XACTS_PER_PAGE) in *.
  intros Hq Hb Hi. rewrite (Z.div_mod x n), (Z.div_mod y n), Hq by lia. f_equal.
  assert (forall z, (z mod n) mod 4 = z mod 4) as Hm.
  { intros z. rewrite (Z.div_mod z n) at 2 by lia. rewrite Hk at 2.
    replace (4 * k * (z / n) + z mod n) with (z mod n + k * (z / n) * 4) by lia.
    by rewrite Z.mod_add. }
  rewrite (Z.div_mod (x mod n) 4), (Z.div_mod (y mod n) 4), Hb, !Hm by lia. lia.
Qed.

Lemma BIndex_range x : 0 <= TransactionIdToBIndex x < 4.
Proof. apply Z.mod_pos_bound. unfold CLOG_XACTS_PER_BYTE. lia. Qed.

(** [clog_updated xs st lsn c c']: the transactions [xs] have status [st] and
    a late enough LSN in [c'], and nothing else has changed since [c]. *)
Record clog_updated (xs : list Z) (st : CLogXidStatus) (lsn : Z) (c c' : Clog) : Prop := {
  cu_wf : clog_wf c';
  cu_in : forall y, y ∈ xs -> clog_status c' y = st;
  cu_in_lsn : forall y, y ∈ xs -> lsn <= commit_lsn c' y;
  cu_out : forall y, y ∉ xs -> clog_status c' y = clog_status c y;
  cu_lsn : forall y, commit_lsn c y <= commit_lsn c' y }.

(** The changes of status [CLogSetStatusBit] accepts. *)
Definition may_become (cur st : CLogXidStatus) : Prop :=
  cur = CLOG_XID_STATUS_IN_PROGRESS
  \/ (cur = CLOG_XID_STATUS_SUB_COMMITTED /\ st <> CLOG_XID_STATUS_IN_PROGRESS)
  \/ cur = st.

Hypothesis Hprimary : SS_STANDBY_MODE = false.

Lemma CLogSetStatusBit_ok x st lsn c :
  clog_wf c -> 0 <= lsn -> may_become (clog_status c x) st ->
  exists c', CLogSetStatusBit x st lsn c = Ok c' /\ clog_updated [x] st lsn c c'.
Proof.
  intros [Hbytes Hlsns] Hlsn Hmay. unfold CLogSetStatusBit.
  set (cur := CLogXidStatus_of _).
  assert (Hcur : cur = clog_status c x) by done. rewrite Hcur. clear Hcur cur.
  rewrite Hprimary.
  destruct (InRecovery && bool_decide (st = CLOG_XID_STATUS_SUB_COMMITTED)
     && bool_decide (clog_status c x = CLOG_XID_STATUS_COMMITTED)) eqn:Hrec.
  { exfalso. apply andb_true_iff in Hrec as [[_ H1]%andb_true_iff H2].
    apply bool_decide_eq_true in H1, H2. unfold may_become in Hmay. subst st.
    rewrite H2 in Hmay. destruct Hmay as [?|[[? _]|?]]; done. }
  assert (Hg : bool_decide (clog_status c x = CLOG_XID_STATUS_IN_PROGRESS)
     || (bool_decide (clog_status c x = CLOG_XID_STATUS_SUB_COMMITTED)
         && negb (bool_decide (st = CLOG_XID_STATUS_IN_PROGRESS)))
     || bool_decide (clog_status c x = st)
     || (bool_decide (clog_status c x = CLOG_XID_STATUS_COMMITTED)
         && bool_decide (st = CLOG_XID_STATUS_SUB_COMMITTED)) = true).
  { destruct Hmay as [->|[[-> Hst]| ->]].
    - done.
    - rewrite (bool_decide_eq_false_2 (st = _)) by done. by rewrite !orb_true_r.
    - rewrite (bool_decide_eq_true_2 (st = st)) by done. by rewrite !orb_true_r. }
  rewrite Hg. clear Hg. cbn [negb]. eexists. split; [reflexivity|].
  set (p := TransactionIdToPage x). set (b := TransactionIdToByte x).
  set (nb := set_bits _ _ _). set (li := GetLSNIndex x).
  assert (Hnb : 0 <= nb < 256 /\ forall j, 0 <= j < 4 ->
    get_bits nb (j * 2) = if TransactionIdToBIndex x =? j then CLogXidStatus_code st
                          else get_bits (clog_byte c p b) (j * 2)).
  { pose proof (fun j Hj => set_get_bits (clog_byte c p b) (CLogXidStatus_code st)
      (TransactionIdToBIndex x) j (status_code_range st) (BIndex_range x) Hj) as Hb.
    split; [by apply (Hb 0)|]. intros j Hj. by apply Hb. }
  destruct Hnb as [Hnb0 Hnb].
  assert (Hbyte : forall p' b', default 0 (<[(p, b) := nb]> (clog_bytes c) !! (p', b'))
    = if decide ((p', b') = (p, b)) then nb else clog_byte c p' b').
  { intros. destruct (decide _) as [[= -> ->]|Hne]; [by rewrite lookup_insert_eq|].
    by rewrite lookup_insert_ne by congruence. }
  assert (Hstat : forall y, clog_status
    {| clog_bytes := <[(p, b) := nb]> (clog_bytes c);
       clog_group_lsn := if negb (lsn =? InvalidXLogRecPtr) && (group_lsn c p li <? lsn)
                         then <[(p, li) := lsn]> (clog_group_lsn c) else clog_group_lsn c |} y
    = if decide (y = x) then st else clog_status c y).
  { intros y. unfold clog_status, CLogGetStatus, clog_byte at 1. cbn [fst clog_bytes].
    rewrite Hbyte. unfold CLOG_BITS_PER_XACT. destruct (decide _) as [[= Hp Hb]|Hne].
    - rewrite Hnb by apply BIndex_range. destruct (Z.eqb_spec (TransactionIdToBIndex x) (TransactionIdToBIndex y)).
      + rewrite decide_True by (symmetry; by apply xid_position_inj). apply status_code_of.
      + rewrite decide_False by congruence. unfold clog_status, CLogGetStatus. cbn [fst].
        by rewrite Hp, Hb.
    - rewrite decide_False; [done|]. intros ->. done. }
  assert (Hl : forall p' i', group_lsn
    {| clog_bytes := <[(p, b) := nb]> (clog_bytes c);
       clog_group_lsn := if negb (lsn =? InvalidXLogRecPtr) && (group_lsn c p li <? lsn)
                         then <[(p, li) := lsn]> (clog_group_lsn c) else clog_group_lsn c |} p' i'
    = if decide ((p', i') = (p, li)) then Z.max (group_lsn c p li) lsn else group_lsn c p' i').
  { intros p' i'. unfold group_lsn at 1. cbn [clog_group_lsn]. pose proof (Hlsns p li).
    change InvalidXLogRecPtr with 0.
    destruct (Z.eqb_spec lsn 0) as [->|Hz]; cbn [negb andb].
    - destruct (decide _) as [[= -> ->]|]; [|done]. rewrite Z.max_l by done. done.
    - destruct (Z.ltb_spec (group_lsn c p li) lsn).
      + destruct (decide _) as [[= -> ->]|]; [rewrite lookup_insert_eq; simpl; lia|].
        by rewrite lookup_insert_ne by congruence.
      + destruct (decide _) as [[= -> ->]|]; [|done]. rewrite Z.max_l by done. done. }
  constructor.
  - split.
    + intros p' b'. unfold clog_byte. cbn [clog_bytes]. rewrite Hbyte.
      destruct (decide _); [done|apply Hbytes].
    + intros p' i'. rewrite Hl. pose proof (Hlsns p li). pose proof (Hlsns p' i').
      destruct (decide _); lia.
  - intros y ->%list_elem_of_singleton. rewrite Hstat. by rewrite decide_True.
  - intros y ->%list_elem_of_singleton. unfold commit_lsn, CLogGetStatus. cbn [snd].
    fold p li. rewrite Hl, decide_True by done. lia.
  - intros y Hy. rewrite Hstat. rewrite decide_False; [done|]. intros ->. by apply Hy, list_elem_of_singleton.
  - intros y. unfold commit_lsn, CLogGetStatus. cbn [snd]. rewrite Hl.
    destruct (decide _) as [[= -> ->]|]; lia.
Qed.

Lemma clog_updated_nil st lsn c : clog_wf c -> clog_updated [] st lsn c c.
Proof. intros. constructor; try done; by intros y ?%list.not_elem_of_nil. Qed.

Lemma clog_updated_ext xs ys st lsn c c' :
  (forall y, y ∈ xs <-> y ∈ ys) -> clog_updated xs st lsn c c' -> clog_updated ys st lsn c c'.
Proof.
  intros Heq H. constructor; try apply H; intros y Hy.
  - apply (cu_in _ _ _ _ _ H). by apply Heq.
  - apply (cu_in_lsn _ _ _ _ _ H). by apply Heq.
  - apply (cu_out _ _ _ _ _ H). by rewrite Heq.
Qed.

(** A later update covers an earlier one of some of the same transactions. *)
Lemma clog_updated_cover xs ys st1 st2 lsn c c1 c2 :
  clog_updated xs st1 lsn c c1 -> clog_updated ys st2 lsn c1 c2 ->
  (forall y, y ∈ xs -> y ∈ ys) -> clog_updated ys st2 lsn c c2.
Proof.
  intros H1 H2 Hsub. constructor; try apply H2.
  - intros y Hy. rewrite (cu_out _ _ _ _ _ H2 y Hy). apply (cu_out _ _ _ _ _ H1). auto.
  - intros y. pose proof (cu_lsn _ _ _ _ _ H1 y). pose proof (cu_lsn _ _ _ _ _ H2 y). lia.
Qed.

Lemma clog_updated_app xs ys st lsn c c1 c2 :
  clog_updated xs st lsn c c1 -> clog_updated ys st lsn c1 c2 ->
  clog_updated (xs ++ ys) st lsn c c2.
Proof.
  intros H1 H2. constructor.
  - apply H2.
  - intros y Hy. destruct (decide (y ∈ ys)) as [Hys|Hys]; [by apply (cu_in _ _ _ _ _ H2)|].
    rewrite (cu_out _ _ _ _ _ H2 y Hys). apply (cu_in _ _ _ _ _ H1).
    apply elem_of_app in Hy. tauto.
  - intros y Hy. destruct (decide (y ∈ ys)) as [Hys|Hys]; [by apply (cu_in_lsn _ _ _ _ _ H2)|].
    apply elem_of_app in Hy. pose proof (cu_lsn _ _ _ _ _ H2 y).
    pose proof (cu_in_lsn _ _ _ _ _ H1 y ltac:(tauto)). lia.
  - intros y [Hx Hy]%not_elem_of_app. by rewrite (cu_out _ _ _ _ _ H2), (cu_out _ _ _ _ _ H1).
  - intros y. pose proof (cu_lsn _ _ _ _ _ H1 y). pose proof (cu_lsn _ _ _ _ _ H2 y). lia.
Qed.

(** A status that a transaction may still become after an update. *)
Lemma clog_updated_may xs st lsn c c' y :
  clog_updated xs st lsn c c' -> may_become (clog_status c y) st ->
  may_become (clog_status c' y) st.
Proof.
  intros H Hm. destruct (decide (y ∈ xs)) as [Hy|Hy].
  - rewrite (cu_in _ _ _ _ _ H y Hy). by right; right.
  - by rewrite (cu_out _ _ _ _ _ H y Hy).
Qed.

Lemma set_subxids_ok xs st lsn c :
  clog_wf c -> 0 <= lsn -> (forall x, x ∈ xs -> may_become (clog_status c x) st) ->
  exists c', set_subxids xs st lsn c = Ok c' /\ clog_updated xs st lsn c c'.
Proof.
  revert c. induction xs as [|x xs IH]; intros c Hwf Hlsn Hmay; cbn [set_subxids].
  { exists c. split; [done|]. by apply clog_updated_nil. }
  destruct (CLogSetStatusBit_ok x st lsn c) as (c1 & -> & Hc1); [done|done|apply Hmay; left|].
  sbind. destruct (IH c1) as (c2 & -> & Hc2); [apply Hc1|done| |].
  { intros y Hy. eapply clog_updated_may; [done|]. apply Hmay. by right. }
  exists c2. split; [done|]. by apply (clog_updated_app [x] xs st lsn c c1 c2).
Qed.

Definition unfinished (st : CLogXidStatus) : Prop :=
  st = CLOG_XID_STATUS_IN_PROGRESS \/ st = CLOG_XID_STATUS_SUB_COMMITTED.

Lemma unfinished_may cur st : unfinished cur -> st <> CLOG_XID_STATUS_IN_PROGRESS ->
  may_become cur st.
Proof. intros [->| ->] ?; [by left|by right; left]. Qed.

(** One page update for subtransactions only. *)
Lemma CLogSetPageStatus_subs xs st lsn c :
  clog_wf c -> 0 <= lsn -> st <> CLOG_XID_STATUS_IN_PROGRESS ->
  (forall x, x ∈ xs -> may_become (clog_status c x) st) ->
  exists c', CLogSetPageStatus InvalidTransactionId xs st lsn c = Ok c'
    /\ clog_updated xs st lsn c c'.
Proof.
  intros Hwf Hlsn Hst Hmay. unfold CLogSetPageStatus, CLogSetPageStatusInternal.
  destruct st; [done| | |]; simpl; sbind; by apply set_subxids_ok.
Qed.

(** One page update that sets the main transaction. *)
Lemma CLogSetPageStatus_main xid xs st lsn c :
  clog_wf c -> 0 <= lsn -> TransactionIdIsValid xid = true ->
  st = CLOG_XID_STATUS_COMMITTED \/ st = CLOG_XID_STATUS_ABORTED ->
  (forall x, x ∈ xid :: xs -> unfinished (clog_status c x)) ->
  exists c', CLogSetPageStatus xid xs st lsn c = Ok c' /\ clog_updated (xs ++ xid :: xs) st lsn c c'.
Proof.
  intros Hwf Hlsn Hv Hst Hunf. unfold CLogSetPageStatus, CLogSetPageStatusInternal.
  rewrite Hv. cbn [negb andb].
  assert (Hmay : forall x, x ∈ xid :: xs -> may_become (clog_status c x) st).
  { intros x Hx. apply unfinished_may; [by apply Hunf|]. by destruct Hst as [->| ->]. }
  assert (exists c1, (if bool_decide (st = CLOG_XID_STATUS_COMMITTED)
      then set_subxids xs CLOG_XID_STATUS_SUB_COMMITTED lsn c else Ok c) = Ok c1 /\
    clog_updated (if bool_decide (st = CLOG_XID_STATUS_COMMITTED) then xs else [])
      CLOG_XID_STATUS_SUB_COMMITTED lsn c c1) as (c1 & Hc1 & Hu1).
  { destruct (bool_decide _).
    - apply set_subxids_ok; [done|done|]. intros x Hx. apply unfinished_may; [|done].
      apply Hunf. by right.
    - exists c. split; [done|]. by apply clog_updated_nil. }
  replace (negb _) with false by (by destruct Hst as [->| ->]).
  rewrite Hc1. sbind.
  assert (Hmay1 : forall x, x ∈ xid :: xs -> may_become (clog_status c1 x) st).
  { intros x Hx. destruct (decide (x ∈ if bool_decide (st = CLOG_XID_STATUS_COMMITTED) then xs else []))
      as [Hin|Hin].
    - rewrite (cu_in _ _ _ _ _ Hu1 x Hin). right; left. split; [done|].
      by destruct Hst as [->| ->].
    - rewrite (cu_out _ _ _ _ _ Hu1 x Hin). auto. }
  destruct (CLogSetStatusBit_ok xid st lsn c1) as (c2 & Hc2 & Hu2);
    [apply Hu1|done|apply Hmay1; left|]. rewrite Hc2. sbind.
  destruct (set_subxids_ok xs st lsn c2) as (c3 & Hc3 & Hu3); [apply Hu2|done| |].
  { intros x Hx. eapply clog_updated_may; [done|]. apply Hmay1. by right. }
  rewrite Hc3. exists c3. split; [done|].
  pose proof (clog_updated_app _ _ _ _ _ _ _ Hu2 Hu3) as Hu23.
  eapply (clog_updated_cover _ ([xid] ++ xs)) in Hu23; [|exact Hu1|].
  - eapply clog_updated_ext; [|exact Hu23]. intros y. rewrite !elem_of_app, list_elem_of_singleton.
    rewrite elem_of_cons. tauto.
  - intros y Hy. apply elem_of_app. right. destruct (bool_decide _); [done|].
    by apply list.not_elem_of_nil in Hy.
Qed.

Lemma span_page_app f p xs on others :
  span_page f p xs = (on, others) -> xs = on ++ others /\ (length others <= length xs)%nat.
Proof.
  revert on others. induction xs as [|x xs IH]; intros on others; simpl.
  { intros [= <- <-]. split; [done|]. simpl. lia. }
  destruct (f x =? p).
  - destruct (span_page f p xs) as [on' others'] eqn:He. intros [= <- <-].
    destruct (IH _ _ eq_refl) as [-> Hl]. simpl. split; [done|]. lia.
  - intros [= <- <-]. split; [done|]. simpl. lia.
Qed.

Lemma page_runs_concat f fuel xs : (length xs <= fuel)%nat -> concat (page_runs f fuel xs) = xs.
Proof.
  revert xs. induction fuel as [|fuel IH]; intros [|x xs] Hf; simpl in *; try done; [lia|].
  destruct (span_page f (f x) xs) as [on others] eqn:He.
  apply span_page_app in He as [-> Hl]. simpl. rewrite IH by lia. done.
Qed.

Lemma last_cons_default {A} (x d : A) l : List.last (x :: l) d = List.last l x.
Proof.
  revert x d. induction l as [|y l IH]; intros x d; [done|].
  change (List.last (y :: l) d = List.last (y :: l) x). by rewrite (IH y d), (IH y x).
Qed.

Lemma last_app_cons {A} (d d' x : A) l1 l2 :
  List.last (l1 ++ x :: l2) d = List.last (x :: l2) d'.
Proof.
  revert d. induction l1 as [|y l1 IH]; intros d; cbn [app]; rewrite !last_cons_default; [done|].
  by rewrite (IH y), last_cons_default.
Qed.

(** Running over pages of subtransactions: the visible states change only
    them, each to the new status or not yet. *)
Definition clog_progress (xs : list Z) (st : CLogXidStatus) (c s : Clog) : Prop :=
  clog_wf s /\ (forall y, y ∉ xs -> clog_status s y = clog_status c y)
  /\ (forall y, y ∈ xs -> clog_status s y = st \/ clog_status s y = clog_status c y).

Lemma clog_updated_progress xs ys st lsn c s :
  clog_updated xs st lsn c s -> (forall y, y ∈ xs -> y ∈ ys) -> clog_progress ys st c s.
Proof.
  intros H Hsub. split_and!; [apply H| |].
  - intros y Hy. apply (cu_out _ _ _ _ _ H). auto.
  - intros y Hy. destruct (decide (y ∈ xs)); [left; by apply (cu_in _ _ _ _ _ H)|right].
    by apply (cu_out _ _ _ _ _ H).
Qed.

Lemma set_runs_ok runs st lsn c :
  clog_wf c -> 0 <= lsn -> st <> CLOG_XID_STATUS_IN_PROGRESS ->
  (forall x, x ∈ concat runs -> may_become (clog_status c x) st) ->
  exists cs, set_runs runs st lsn c = Ok cs
    /\ Forall (clog_progress (concat runs) st c) cs
    /\ clog_updated (concat runs) st lsn c (List.last cs c).
Proof.
  revert c. induction runs as [|run runs IH]; intros c Hwf Hlsn Hst Hmay; cbn [set_runs concat].
  { exists []. split_and!; [done|done|]. by apply clog_updated_nil. }
  cbn [concat] in Hmay.
  destruct (CLogSetPageStatus_subs run st lsn c) as (c1 & -> & Hu1); [done|done|done| |].
  { intros x Hx. apply Hmay, elem_of_app. by left. }
  sbind. destruct (IH c1) as (cs & -> & Hprog & Hlast); [apply Hu1|done|done| |].
  { intros x Hx. eapply clog_updated_may; [done|]. apply Hmay, elem_of_app. by right. }
  sbind. exists (c1 :: cs). split_and!; [done| |].
  - constructor.
    { eapply clog_updated_progress; [done|]. intros y Hy. apply elem_of_app. by left. }
    eapply Forall_impl; [exact Hprog|]. intros s (Hs & Hout & Hin). split_and!; [done| |].
    + intros y [Hy1 Hy2]%not_elem_of_app. rewrite Hout by done. by apply (cu_out _ _ _ _ _ Hu1).
    + intros y Hy. destruct (decide (y ∈ concat runs)) as [Hc|Hc].
      * destruct (Hin y Hc) as [?|Heq]; [by left|]. destruct (decide (y ∈ run)).
        { left. rewrite Heq. by apply (cu_in _ _ _ _ _ Hu1). }
        right. rewrite Heq. by apply (cu_out _ _ _ _ _ Hu1).
      * left. rewrite Hout by done. apply (cu_in _ _ _ _ _ Hu1).
        apply elem_of_app in Hy. tauto.
  - rewrite last_cons_default. by eapply clog_updated_app.
Qed.

(** The shape of a tree update: the pages of the children that are not with
    the parent (sub-committed, on commit only), the page of the parent, the
    other pages again. *)
Lemma CLogSetTreeStatus_run xid subxids st lsn c :
  clog_wf c -> 0 <= lsn -> TransactionIdIsValid xid = true ->
  st = CLOG_XID_STATUS_COMMITTED \/ st = CLOG_XID_STATUS_ABORTED ->
  (forall x, x ∈ xid :: subxids -> clog_status c x = CLOG_XID_STATUS_IN_PROGRESS) ->
  exists on others cs1 c1 cs2, subxids = on ++ others
    /\ CLogSetTreeStatus xid subxids st lsn c = Ok (cs1 ++ c1 :: cs2)
    /\ Forall (clog_progress others CLOG_XID_STATUS_SUB_COMMITTED c) cs1
    /\ clog_updated (if decide (st = CLOG_XID_STATUS_COMMITTED) then others else [])
         CLOG_XID_STATUS_SUB_COMMITTED lsn c (List.last cs1 c)
    /\ (st = CLOG_XID_STATUS_ABORTED -> cs1 = [])
    /\ clog_updated (on ++ xid :: on) st lsn (List.last cs1 c) c1
    /\ Forall (clog_progress others st c1) cs2
    /\ clog_updated others st lsn c1 (List.last cs2 c1).
Proof.
  intros Hwf Hlsn Hv Hst Hip. unfold CLogSetTreeStatus, set_status_by_pages.
  replace (negb _) with false by (by destruct Hst as [->| ->]).
  destruct (span_page _ _ subxids) as [on others] eqn:Hsp.
  apply span_page_app in Hsp as [-> _].
  set (runs := page_runs TransactionIdToPage (length others) others).
  assert (Hruns : concat runs = others) by (by apply page_runs_concat).
  set (cs1r := if bool_decide (st = CLOG_XID_STATUS_COMMITTED)
    then set_runs runs CLOG_XID_STATUS_SUB_COMMITTED lsn c else Ok []).
  assert (H1 : exists cs1, cs1r = Ok cs1
    /\ Forall (clog_progress others CLOG_XID_STATUS_SUB_COMMITTED c) cs1
    /\ clog_updated (if decide (st = CLOG_XID_STATUS_COMMITTED) then others else [])
         CLOG_XID_STATUS_SUB_COMMITTED lsn c (List.last cs1 c)
    /\ (st = CLOG_XID_STATUS_ABORTED -> cs1 = [])).
  { unfold cs1r. destruct Hst as [->| ->]; simpl.
    - destruct (set_runs_ok runs CLOG_XID_STATUS_SUB_COMMITTED lsn c) as (cs & -> & Hp & Hu);
        [done|done|done| |].
      + intros x Hx. left. apply Hip. rewrite Hruns in Hx. right. apply elem_of_app. by right.
      + rewrite Hruns in Hp, Hu. exists cs. split_and!; done.
    - exists []. split_and!; [done|done| |done]. by apply clog_updated_nil. }
  destruct H1 as (cs1 & Hcs1 & Hp1 & Hu1 & Ha1).
  assert (Hunf : forall x, x ∈ xid :: on ++ others -> unfinished (clog_status (List.last cs1 c) x)).
  { intros x Hx. destruct (decide (x ∈ if decide (st = CLOG_XID_STATUS_COMMITTED) then others else []))
      as [Hin|Hin].
    - right. by apply (cu_in _ _ _ _ _ Hu1).
    - left. rewrite (cu_out _ _ _ _ _ Hu1 x Hin). by apply Hip. }
  destruct (CLogSetPageStatus_main xid on st lsn (List.last cs1 c)) as (c1 & Hc1 & Hu2);
    [apply Hu1|done|done|done| |].
  { intros x Hx. apply Hunf. set_unfold. tauto. }
  destruct (set_runs_ok runs st lsn c1) as (cs2 & Hcs2 & Hp2 & Hu3);
    [apply Hu2|done|by destruct Hst as [->| ->]| |].
  { rewrite Hruns. intros x Hx. eapply clog_updated_may; [exact Hu2|].
    apply unfinished_may; [|by destruct Hst as [->| ->]]. apply Hunf. set_unfold. tauto. }
  rewrite Hruns in Hp2, Hu3.
  exists on, others, cs1, c1, cs2. split_and!; try done.
  destruct others as [|y others].
  - assert (cs1 = []) as ->.
    { unfold cs1r in Hcs1. subst runs. simpl in Hcs1. destruct (bool_decide _); by injection Hcs1. }
    assert (cs2 = []) as -> by (subst runs; simpl in Hcs2; by injection Hcs2).
    rewrite app_nil_r. simpl in Hc1. rewrite Hc1. done.
  - rewrite Hcs1. sbind. rewrite Hc1. sbind. rewrite Hcs2. done.
Qed.

(** The commit status other backends derive for a member of the tree: a
    sub-committed child is committed when its top transaction is. *)
Definition tree_committed (s : Clog) (top x : Z) : bool :=
  match clog_status s x with
  | CLOG_XID_STATUS_COMMITTED => true
  | CLOG_XID_STATUS_SUB_COMMITTED => bool_decide (clog_status s top = CLOG_XID_STATUS_COMMITTED)
  | _ => false
  end.

Lemma tree_commit_states xid subxids lsn c :
  clog_wf c -> 0 <= lsn -> TransactionIdIsValid xid = true -> xid ∉ subxids ->
  (forall x, x ∈ xid :: subxids -> clog_status c x = CLOG_XID_STATUS_IN_PROGRESS) ->
  exists cs, CLogSetTreeStatus xid subxids CLOG_XID_STATUS_COMMITTED lsn c = Ok cs
    /\ Forall (fun s => (forall x, x ∈ subxids ->
         tree_committed s xid x = bool_decide (clog_status s xid = CLOG_XID_STATUS_COMMITTED))
         /\ (forall y, y ∉ xid :: subxids -> clog_status s y = clog_status c y)) cs
    /\ clog_updated (xid :: subxids) CLOG_XID_STATUS_COMMITTED lsn c (List.last cs c).
Proof.
  intros Hwf Hlsn Hv Hni Hip.
  destruct (CLogSetTreeStatus_run xid subxids CLOG_XID_STATUS_COMMITTED lsn c)
    as (on & others & cs1 & c1 & cs2 & -> & -> & Hp1 & Hu1 & _ & Hu2 & Hp2 & Hu3); [done..|by left|done|].
  rewrite decide_True in Hu1 by done. apply not_elem_of_app in Hni as [Hni1 Hni2].
  assert (Hxid : clog_status c1 xid = CLOG_XID_STATUS_COMMITTED).
  { apply (cu_in _ _ _ _ _ Hu2). set_solver. }
  assert (Hc1 : forall x, x ∈ on ++ others -> clog_status c1 x = CLOG_XID_STATUS_COMMITTED
    \/ clog_status c1 x = CLOG_XID_STATUS_SUB_COMMITTED).
  { intros x Hx. destruct (decide (x ∈ on ++ xid :: on)) as [Hin|Hin].
    - left. by apply (cu_in _ _ _ _ _ Hu2).
    - right. rewrite (cu_out _ _ _ _ _ Hu2) by done. apply (cu_in _ _ _ _ _ Hu1). set_solver. }
  assert (Hout1 : forall y, y ∉ xid :: on ++ others -> clog_status c1 y = clog_status c y).
  { intros y Hy. rewrite (cu_out _ _ _ _ _ Hu2), (cu_out _ _ _ _ _ Hu1); [done|set_solver..]. }
  eexists. split_and!; [done| |].
  - apply Forall_app. split; [|constructor].
    + eapply Forall_impl; [exact Hp1|]. intros s (_ & Hout & Hin). split.
      * intros x Hx. unfold tree_committed. rewrite (Hout xid) by done.
        rewrite (Hip xid) by left. rewrite bool_decide_false by done.
        assert (clog_status s x = CLOG_XID_STATUS_IN_PROGRESS
          \/ clog_status s x = CLOG_XID_STATUS_SUB_COMMITTED) as [->| ->]; [|done..].
        destruct (decide (x ∈ others)) as [Ho|Ho].
        { destruct (Hin x Ho) as [->|Heq]; [by right|left]. rewrite Heq. apply Hip. by right. }
        left. rewrite Hout by done. apply Hip. by right.
      * intros y Hy. apply Hout. set_solver.
    + split; [|done]. intros x Hx. unfold tree_committed. rewrite Hxid.
      by destruct (Hc1 x Hx) as [->| ->].
    + eapply Forall_impl; [exact Hp2|]. intros s (_ & Hout & Hin). split.
      * intros x Hx. unfold tree_committed. rewrite (Hout xid) by done. rewrite Hxid.
        rewrite bool_decide_true by done. destruct (decide (x ∈ others)) as [Ho|Ho].
        { destruct (Hin x Ho) as [->|Heq]; [done|]. rewrite Heq. by destruct (Hc1 x Hx) as [->| ->]. }
        rewrite Hout by done. by destruct (Hc1 x Hx) as [->| ->].
      * intros y Hy. rewrite Hout by set_solver. by apply Hout1.
  - rewrite (last_app_cons c c), last_cons_default.
    pose proof (clog_updated_app _ _ _ _ _ _ _ Hu2 Hu3) as Hu.
    eapply clog_updated_cover in Hu; [|exact Hu1|intros; apply elem_of_app; by right].
    eapply clog_updated_ext; [|exact Hu]. intros y. set_unfold. tauto.
Qed.

Lemma tree_abort_states xid subxids lsn c :
  clog_wf c -> 0 <= lsn -> TransactionIdIsValid xid = true -> xid ∉ subxids ->
  (forall x, x ∈ xid :: subxids -> clog_status c x = CLOG_XID_STATUS_IN_PROGRESS) ->
  exists cs, CLogSetTreeStatus xid subxids CLOG_XID_STATUS_ABORTED lsn c = Ok cs
    /\ Forall (fun s => (forall x, x ∈ xid :: subxids -> tree_committed s xid x = false)
         /\ (forall y, y ∉ xid :: subxids -> clog_status s y = clog_status c y)) cs
    /\ clog_updated (xid :: subxids) CLOG_XID_STATUS_ABORTED lsn c (List.last cs c).
Proof.
  intros Hwf Hlsn Hv Hni Hip.
  destruct (CLogSetTreeStatus_run xid subxids CLOG_XID_STATUS_ABORTED lsn c)
    as (on & others & cs1 & c1 & cs2 & -> & -> & _ & _ & Ha & Hu2 & Hp2 & Hu3); [done..|by right|done|].
  rewrite (Ha eq_refl) in *. simpl in *.
  assert (Hc1 : forall x, x ∈ xid :: on ++ others -> clog_status c1 x = CLOG_XID_STATUS_ABORTED
    \/ clog_status c1 x = CLOG_XID_STATUS_IN_PROGRESS).
  { intros x Hx. destruct (decide (x ∈ on ++ xid :: on)) as [Hin|Hin].
    - left. by apply (cu_in _ _ _ _ _ Hu2).
    - right. rewrite (cu_out _ _ _ _ _ Hu2) by done. by apply Hip. }
  eexists. split_and!; [done| |].
  - constructor.
    + split; [|intros; apply (cu_out _ _ _ _ _ Hu2); set_solver].
      intros x Hx. unfold tree_committed. by destruct (Hc1 x Hx) as [->| ->].
    + eapply Forall_impl; [exact Hp2|]. intros s (_ & Hout & Hin). split.
      * intros x Hx. unfold tree_committed.
        assert (clog_status s x = CLOG_XID_STATUS_ABORTED
          \/ clog_status s x = CLOG_XID_STATUS_IN_PROGRESS) as [->| ->]; [|done..].
        destruct (decide (x ∈ others)) as [Ho|Ho].
        { destruct (Hin x Ho) as [->|Heq]; [by left|]. rewrite Heq. auto. }
        rewrite Hout by done. auto.
      * intros y Hy. rewrite Hout by set_solver. apply (cu_out _ _ _ _ _ Hu2). set_solver.
  - change (clog_updated (xid :: on ++ others) CLOG_XID_STATUS_ABORTED lsn c (List.last (c1 :: cs2) c)).
    rewrite last_cons_default.
    pose proof (clog_updated_app _ _ _ _ _ _ _ Hu2 Hu3) as Hu.
    eapply clog_updated_ext; [|exact Hu]. intros y. set_unfold. tauto.
Qed.
End ClogFacts.

(** ** Facts about the CSN log *)

Section CsnFacts.
Context {bs : BlockSize} {ses : Session}.

(** [csn_updated xs v l l']: the entries [xs] hold [v] in [l'], the others are
    as in [l]; [csn_progress]: some of them may not have been reached yet. *)
Definition csn_updated (xs : list Z) (v : Z) (l l' : Csnlog) : Prop :=
  (forall y, y ∈ xs -> csnlog_entry l' y = v)
  /\ (forall y, y ∉ xs -> csnlog_entry l' y = csnlog_entry l y).

Definition csn_progress (xs : list Z) (v : Z) (l l' : Csnlog) : Prop :=
  (forall y, y ∉ xs -> csnlog_entry l' y = csnlog_entry l y)
  /\ (forall y, y ∈ xs -> csnlog_entry l' y = v \/ csnlog_entry l' y = csnlog_entry l y).

(** An entry that [v] may overwrite. *)
Definition settable (v e : Z) : Prop :=
  (COMMITSEQNO_IS_COMMITTED e = false /\ COMMITSEQNO_IS_ABORTED e = false) \/ e = v.

Lemma csn_updated_app xs ys v l l1 l2 :
  csn_updated xs v l l1 -> csn_updated ys v l1 l2 -> csn_updated (xs ++ ys) v l l2.
Proof.
  intros [Hi1 Ho1] [Hi2 Ho2]. split; intros y Hy.
  - destruct (decide (y ∈ ys)); [auto|]. rewrite Ho2 by done. apply Hi1.
    apply elem_of_app in Hy. tauto.
  - apply not_elem_of_app in Hy as [??]. by rewrite Ho2, Ho1.
Qed.

Lemma csn_updated_settable xs v l l' y :
  csn_updated xs v l l' -> settable v (csnlog_entry l y) -> settable v (csnlog_entry l' y).
Proof.
  intros [Hi Ho] Hs. destruct (decide (y ∈ xs)); [right; auto|]. by rewrite Ho.
Qed.

Lemma csnlog_entry_insert x y v l :
  csnlog_entry (<[x := v]> l) y = if decide (y = x) then v else csnlog_entry l y.
Proof.
  unfold csnlog_entry. destruct (decide _) as [->|]; [by rewrite lookup_insert_eq|].
  by rewrite lookup_insert_ne.
Qed.

Lemma CSNLogSetCSN_ok x v l : settable v (csnlog_entry l x) ->
  exists l', CSNLogSetCSN x v l = Ok l' /\ csn_updated [x] v l l'.
Proof.
  intros Hs. unfold CSNLogSetCSN. set (e := csnlog_entry l x) in *.
  assert ((COMMITSEQNO_IS_COMMITTED e && COMMITSEQNO_IS_ABORTED v)
     || (COMMITSEQNO_IS_ABORTED e && COMMITSEQNO_IS_COMMITTED v) = false) as ->.
  { destruct Hs as [[-> ->]| ->]; [done|].
    destruct (COMMITSEQNO_IS_ABORTED v) eqn:Ha; [|by rewrite andb_false_r].
    by apply aborted_spec in Ha as ->. }
  assert (Hset : csn_updated [x] v l (<[x := v]> l)).
  { split; intros y Hy; rewrite csnlog_entry_insert.
    - apply list_elem_of_singleton in Hy as ->. by rewrite decide_True.
    - rewrite decide_False; [done|]. intros ->. by apply Hy, list_elem_of_singleton. }
  destruct (COMMITSEQNO_IS_ABORTED e) eqn:He; cbn [negb].
  - exists l. split; [done|]. split; [|done]. intros y ->%list_elem_of_singleton.
    destruct Hs as [[_ Hs]|Hs]; [congruence|done].
  - eauto.
Qed.

Lemma set_csns_ok xs v l : (forall x, x ∈ xs -> settable v (csnlog_entry l x)) ->
  exists l', set_csns xs v l = Ok l' /\ csn_updated xs v l l'.
Proof.
  revert l. induction xs as [|x xs IH]; intros l Hs; cbn [set_csns].
  { exists l. split; [done|]. split; [|done]. by intros y ?%list.not_elem_of_nil. }
  destruct (CSNLogSetCSN_ok x v l) as (l1 & -> & Hu1); [apply Hs; left|]. sbind.
  destruct (IH l1) as (l2 & -> & Hu2).
  { intros y Hy. eapply csn_updated_settable; [done|]. apply Hs. by right. }
  exists l2. split; [done|]. by apply (csn_updated_app [x] xs v l l1 l2).
Qed.

(** The value given to the children: while the commit is in progress they
    point to the top transaction. *)
Definition child_csn (csn topxid : Z) : Z :=
  if COMMITSEQNO_IS_COMMITTING csn
  then Z.lor (Z.lor COMMITSEQNO_SUBTRANS_BIT topxid) COMMITSEQNO_COMMIT_INPROGRESS
  else csn.

Hypothesis Hprimary : SS_STANDBY_MODE = false.

Lemma CSNLogSetPageStatus_subs xs csn top l :
  (forall x, x ∈ xs -> settable (child_csn csn top) (csnlog_entry l x)) ->
  exists l', CSNLogSetPageStatus InvalidTransactionId xs csn top l = Ok l'
    /\ csn_updated xs (child_csn csn top) l l'.
Proof. intros Hs. unfold CSNLogSetPageStatus. rewrite Hprimary. simpl. by apply set_csns_ok. Qed.

Lemma CSNLogSetPageStatus_main xid xs csn top l :
  TransactionIdIsValid xid = true -> xid ∉ xs -> settable csn (csnlog_entry l xid) ->
  (forall x, x ∈ xs -> settable (child_csn csn top) (csnlog_entry l x)) ->
  exists l0 l', CSNLogSetPageStatus xid xs csn top l = Ok l'
    /\ csn_updated [xid] csn l l0 /\ csn_updated xs (child_csn csn top) l0 l'.
Proof.
  intros Hv Hni Hx Hs. unfold CSNLogSetPageStatus. rewrite Hprimary, Hv.
  destruct (CSNLogSetCSN_ok xid csn l Hx) as (l0 & -> & Hu0). sbind.
  destruct (set_csns_ok xs (child_csn csn top) l0) as (l1 & Hl1 & Hu1); [|by exists l0, l1].
  intros y Hy. destruct Hu0 as [_ Ho]. rewrite Ho; [auto|].
  rewrite list_elem_of_singleton. by intros ->.
Qed.

Lemma set_csn_runs_ok runs csn top l :
  (forall x, x ∈ concat runs -> settable (child_csn csn top) (csnlog_entry l x)) ->
  exists ls, set_csn_runs runs csn top l = Ok ls
    /\ Forall (csn_progress (concat runs) (child_csn csn top) l) ls
    /\ csn_updated (concat runs) (child_csn csn top) l (List.last ls l).
Proof.
  revert l. induction runs as [|run runs IH]; intros l Hs; cbn [set_csn_runs concat].
  { exists []. split_and!; [done|done|]. split; [|done]. by intros y ?%list.not_elem_of_nil. }
  cbn [concat] in Hs.
  destruct (CSNLogSetPageStatus_subs run csn top l) as (l1 & -> & Hu1).
  { intros x Hx. apply Hs, elem_of_app. by left. }
  sbind. destruct (IH l1) as (ls & -> & Hp & Hu).
  { intros x Hx. eapply csn_updated_settable; [done|]. apply Hs, elem_of_app. by right. }
  sbind. exists (l1 :: ls). split_and!; [done| |].
  - constructor.
    + split; intros y Hy; [|destruct (decide (y ∈ run)); [left; by apply Hu1|right; by apply Hu1]].
      apply Hu1. intros ?. apply Hy, elem_of_app. by left.
    + eapply Forall_impl; [exact Hp|]. intros s [Hout Hin]. split.
      * intros y [Hy1 Hy2]%not_elem_of_app. rewrite Hout by done. by apply Hu1.
      * intros y Hy. destruct (decide (y ∈ concat runs)) as [Hc|Hc].
        -- destruct (Hin y Hc) as [?|Heq]; [by left|]. rewrite Heq.
           destruct (decide (y ∈ run)); [left; by apply Hu1|right; by apply Hu1].
        -- left. rewrite Hout by done. apply Hu1. apply elem_of_app in Hy. tauto.
  - rewrite last_cons_default. by eapply csn_updated_app.
Qed.

(** The states of the log while a tree is updated: the top transaction has its
    CSN in all of them, a child has the new value or still the old one. *)
Definition csn_tree_state (xid : Z) (subxids : list Z) (csn : Z) (l s : Csnlog) : Prop :=
  csnlog_entry s xid = csn
  /\ (forall x, x ∈ subxids ->
        csnlog_entry s x = child_csn csn xid \/ csnlog_entry s x = csnlog_entry l x)
  /\ (forall y, y ∉ xid :: subxids -> csnlog_entry s y = csnlog_entry l y).

Lemma CSNLogSetCommitSeqNo_run xid subxids csn l :
  TransactionIdIsNormal xid = true -> xid ∉ subxids -> csn <> InvalidCommitSeqNo ->
  (useLocalSnapshot || IsRoachStandbyCluster = false \/ COMMITSEQNO_ABORTED < csn) ->
  settable csn (csnlog_entry l xid) ->
  (forall x, x ∈ subxids -> settable (child_csn csn xid) (csnlog_entry l x)) ->
  exists ls, CSNLogSetCommitSeqNo xid subxids csn l = Ok ls
    /\ Forall (csn_tree_state xid subxids csn l) ls
    /\ csnlog_entry (List.last ls l) xid = csn
    /\ csn_updated subxids (child_csn csn xid) (<[xid := csn]> l) (List.last ls l).
Proof.
  intros Hn Hni Hcsn Hloc Hx Hs. unfold CSNLogSetCommitSeqNo.
  assert (((useLocalSnapshot || IsRoachStandbyCluster) && (csn <=? COMMITSEQNO_ABORTED)) = false) as ->.
  { destruct Hloc as [->|Hlt]; [done|]. destruct (Z.leb_spec csn COMMITSEQNO_ABORTED); [lia|].
    by rewrite andb_false_r. }
  assert ((csn =? InvalidCommitSeqNo) || (xid =? BootstrapTransactionId) = false) as ->.
  { apply Z.leb_le in Hn. unfold FirstNormalTransactionId in Hn.
    unfold InvalidCommitSeqNo, BootstrapTransactionId in *.
    destruct (Z.eqb_spec csn 0), (Z.eqb_spec xid 1); try done; lia. }
  sbind. assert (Hv : TransactionIdIsValid xid = true).
  { unfold TransactionIdIsValid. apply Z.leb_le in Hn. unfold FirstNormalTransactionId in Hn.
    unfold InvalidTransactionId. destruct (Z.eqb_spec xid 0); [lia|done]. }
  destruct (span_page _ _ subxids) as [on others] eqn:Hsp.
  apply span_page_app in Hsp as [-> _]. apply not_elem_of_app in Hni as [Hni1 Hni2].
  destruct (CSNLogSetPageStatus_main xid on csn xid l) as (l0 & l1 & -> & Hu0 & Hu1); [done..| |].
  { intros x Hx'. apply Hs, elem_of_app. by left. }
  sbind. set (runs := page_runs _ _ others).
  assert (Hruns : concat runs = others) by (by apply page_runs_concat).
  assert (Hl0 : forall y, y <> xid -> csnlog_entry l0 y = csnlog_entry l y).
  { intros y Hy. apply Hu0. by rewrite list_elem_of_singleton. }
  assert (Hl0x : csnlog_entry l0 xid = csn) by (apply Hu0; left).
  destruct (set_csn_runs_ok runs csn xid l1) as (ls & -> & Hp & Hu2).
  { rewrite Hruns. intros x Hx'. eapply csn_updated_settable; [exact Hu1|].
    rewrite Hl0 by (intros ->; done). apply Hs, elem_of_app. by right. }
  rewrite Hruns in Hp, Hu2. sbind. exists (l1 :: ls). split_and!; [done| | |].
  - assert (H1 : csn_tree_state xid (on ++ others) csn l l1).
    { split_and!.
      - destruct Hu1 as [_ Ho]. by rewrite Ho.
      - intros x Hx'. destruct (decide (x ∈ on)); [left; by apply Hu1|right].
        destruct Hu1 as [_ Ho]. rewrite Ho by done. apply Hl0. intros ->.
        apply elem_of_app in Hx'. tauto.
      - intros y [Hy1 [Hy2 Hy3]%not_elem_of_app]%not_elem_of_cons.
        destruct Hu1 as [_ Ho]. rewrite Ho by done. by apply Hl0. }
    constructor; [done|]. destruct H1 as (Ht & Hc & Ho).
    eapply Forall_impl; [exact Hp|]. intros s [Hout Hin]. split_and!.
    + by rewrite Hout.
    + intros x Hx'. destruct (decide (x ∈ others)) as [Hxo|Hxo].
      * destruct (Hin x Hxo) as [?|Heq]; [by left|]. rewrite Heq. auto.
      * rewrite Hout by done. auto.
    + intros y Hy. rewrite Hout; [auto|]. apply not_elem_of_cons in Hy as [_ [_ ?]%not_elem_of_app]. done.
  - rewrite last_cons_default. destruct Hu2 as [_ Ho2]. rewrite Ho2 by done.
    destruct Hu1 as [_ Ho1]. by rewrite Ho1.
  - rewrite last_cons_default. eapply csn_updated_app; [|exact Hu2].
    split; intros y Hy; [by apply Hu1|]. destruct Hu1 as [_ Ho1]. rewrite Ho1 by done.
    rewrite csnlog_entry_insert. destruct (decide (y = xid)) as [->|]; [done|]. by apply Hl0.
Qed.

(** The entry of a child of [xid] while the commit is in progress. *)
Definition child_pointer (xid : Z) : Z :=
  Z.lor (Z.lor COMMITSEQNO_SUBTRANS_BIT xid) COMMITSEQNO_COMMIT_INPROGRESS.

Lemma child_pointer_flags xid : 0 <= xid <= MAX_COMMITSEQNO ->
  COMMITSEQNO_IS_COMMITTING (child_pointer xid) = true
  /\ COMMITSEQNO_IS_SUBTRANS (child_pointer xid) = true
  /\ GET_PARENTXID (child_pointer xid) = xid.
Proof.
  intros Hx. unfold child_pointer. rewrite <- Z.lor_assoc, (Z.lor_comm xid).
  apply (csn_flags xid true true Hx).
Qed.

Lemma InternalGet_normal x l : TransactionIdIsNormal x = true ->
  InternalGetCommitSeqNo x l = csnlog_entry l x.
Proof. intros Hn. unfold InternalGetCommitSeqNo. by rewrite Hn. Qed.

(** What a reader that follows the parent entry finds, in any sequence of
    states that show the top transaction with the same CSN. *)
Lemma read_tree {S} (log : S -> Csnlog) xid x csn s later :
  TransactionIdIsNormal xid = true -> TransactionIdIsNormal x = true -> xid <= MAX_COMMITSEQNO ->
  COMMITSEQNO_IS_SUBTRANS csn = false ->
  Forall (fun s => csnlog_entry (log s) xid = csn) (s :: later) ->
  csnlog_entry (log s) x = child_pointer xid \/ csnlog_entry (log s) x = csn ->
  option_map fst (RecursiveGetCommitSeqNo log 2 x s later) = Some csn.
Proof.
  intros Hn Hnx Hmax Hsub Hall Hx.
  assert (0 <= xid) by (apply Z.leb_le in Hn; unfold FirstNormalTransactionId in Hn; lia).
  destruct (child_pointer_flags xid) as (Hf1 & Hf2 & Hf3); [done|].
  cbn [RecursiveGetCommitSeqNo]. rewrite InternalGet_normal by done.
  destruct Hx as [->| ->]; [|by rewrite Hsub].
  rewrite Hf1, Hf2, Hf3. simpl. inversion Hall as [|? ? Hs Hlater]; subst.
  destruct later as [|s' later]; rewrite InternalGet_normal by done.
  - by rewrite Hsub.
  - inversion Hlater as [|? ? Hs' _]. rewrite Hs'. by rewrite Hsub.
Qed.
End CsnFacts.

(** ** The parent chain *)

Section Parents.
Context {bs : BlockSize} {ses : Session}.

(** [parent_chain l x t]: following parent entries from [x] one reaches [t],
    every entry on the way preceding the one before. *)
Inductive parent_chain (l : Csnlog) : Z -> Z -> Prop :=
  | chain_refl x : parent_chain l x x
  | chain_step x t : TransactionIdPrecedes x TransactionXmin = false ->
      TransactionIdIsValid (fst (SubTransGetParent x l)) = true ->
      TransactionIdPrecedes (fst (SubTransGetParent x l)) x = true ->
      parent_chain l (fst (SubTransGetParent x l)) t -> parent_chain l x t.

Lemma topmost_loop_spec l fuel x prev :
  0 <= x -> (Z.to_nat x < fuel)%nat -> TransactionIdIsValid x = true ->
  exists r, SubTransGetTopmostTransaction_loop fuel x prev l = Some r /\
  match r with
  | Ok t => parent_chain l x t
      /\ (TransactionIdPrecedes t TransactionXmin = true
          \/ TransactionIdIsValid (fst (SubTransGetParent t l)) = false)
  | Ereport c => c = ERRCODE_IO_ERROR /\ exists t, parent_chain l x t
      /\ TransactionIdPrecedes (fst (SubTransGetParent t l)) t = false
  end.
Proof.
  revert x prev. induction fuel as [|fuel IH]; intros x prev Hx Hf Hv; [lia|].
  cbn [SubTransGetTopmostTransaction_loop]. rewrite Hv. cbn [negb].
  destruct (TransactionIdPrecedes x TransactionXmin) eqn:Hp.
  { exists (Ok x). split; [done|]. split; [constructor|by left]. }
  destruct (TransactionIdPrecedes (fst (SubTransGetParent x l)) x) eqn:Hlt; cbn [negb].
  2: { eexists. split; [done|]. split; [done|]. exists x. split; [constructor|done]. }
  destruct (TransactionIdIsValid (fst (SubTransGetParent x l))) eqn:Hv'.
  - set (p := fst (SubTransGetParent x l)) in *.
    assert (0 <= p).
    { unfold p, SubTransGetParent, GET_PARENTXID, InvalidTransactionId.
      destruct (COMMITSEQNO_IS_SUBTRANS _); simpl; [|lia].
      rewrite land_max. apply Z.mod_pos_bound. lia. }
    unfold TransactionIdPrecedes in Hlt. apply Z.ltb_lt in Hlt.
    destruct (IH p x) as (r & -> & Hr); [done|lia|done|]. exists r. split; [done|].
    assert (Hc : forall t, parent_chain l p t -> parent_chain l x t).
    { intros t Ht. apply chain_step; [done|done|by apply Z.ltb_lt|done]. }
    destruct r as [t|c].
    + destruct Hr as [Ht Ho]. auto.
    + destruct Hr as [-> [t [Ht Ho]]]. split; [done|]. exists t. auto.
  - destruct fuel as [|fuel].
    { unfold TransactionIdIsValid, InvalidTransactionId in Hv. destruct (Z.eqb_spec x 0); [done|lia]. }
    cbn [SubTransGetTopmostTransaction_loop]. rewrite Hv'. cbn [negb].
    exists (Ok x). split; [done|]. split; [constructor|by right].
Qed.

(** C39 [SubTransGetTopmostTransaction] terminates on every CSN log, corrupt
    or not: it returns an ancestor that has no parent entry or precedes
    [TransactionXmin], or reports the I/O error exactly at an ancestor whose
    parent entry does not precede it. *)
Theorem SubTransGetTopmostTransaction_correct (l : Csnlog) (xid : Z)
    (Hxid : TransactionIdIsNormal xid = true) :
  exists r, SubTransGetTopmostTransaction xid l = Some r /\
  match r with
  | Ok t => parent_chain l xid t
      /\ (TransactionIdPrecedes t TransactionXmin = true
          \/ TransactionIdIsValid (fst (SubTransGetParent t l)) = false)
  | Ereport c => c = ERRCODE_IO_ERROR /\ exists t, parent_chain l xid t
      /\ TransactionIdPrecedes (fst (SubTransGetParent t l)) t = false
  end.
Proof.
  apply Z.leb_le in Hxid. unfold FirstNormalTransactionId in Hxid.
  apply topmost_loop_spec; [lia|lia|].
  unfold TransactionIdIsValid, InvalidTransactionId. destruct (Z.eqb_spec xid 0); [lia|done].
Qed.
End Parents.

Lemma SubTransGetTopmostTransaction_correct_witness :
  let ses := normal_session in
  let l := SubTransSetParent 12 11 (SubTransSetParent 11 10 ∅) in
  exists r, SubTransGetTopmostTransaction 12 l = Some r /\
  match r with
  | Ok t => parent_chain l 12 t
      /\ (TransactionIdPrecedes t TransactionXmin = true
          \/ TransactionIdIsValid (fst (SubTransGetParent t l)) = false)
  | Ereport c => c = ERRCODE_IO_ERROR /\ exists t, parent_chain l 12 t
      /\ TransactionIdPrecedes (fst (SubTransGetParent t l)) t = false
  end.
Proof.
  exact (SubTransGetTopmostTransaction_correct (ses := normal_session) _ 12 eq_refl).
Defined.

(** ** Properties *)

Section Properties.
Context {bs : BlockSize} {ses : Session}.

(** C37 Committing or aborting a transaction tree in the commit log is atomic
    for concurrent readers, although it takes one page update after another:
    in every state between two page updates a child counts as committed
    exactly when its top transaction does (a sub-committed child defers to
    it), no other transaction's status changes, and no state change is
    refused.  At the end every member has the final status and an LSN at
    least that of the commit record, and no LSN has decreased. *)
Theorem CLogSetTreeStatus_atomic (c : Clog) (xid : Z) (subxids : list Z) (lsn : Z)
    (Hprimary : SS_STANDBY_MODE = false) (Hwf : clog_wf c) (Hlsn : 0 <= lsn)
    (Hvalid : TransactionIdIsValid xid = true) (Hni : xid ∉ subxids)
    (Hip : forall x, x ∈ xid :: subxids -> clog_status c x = CLOG_XID_STATUS_IN_PROGRESS) :
  (exists cs, CLogSetTreeStatus xid subxids CLOG_XID_STATUS_COMMITTED lsn c = Ok cs
    /\ Forall (fun s => (forall x, x ∈ subxids ->
         tree_committed s xid x = bool_decide (clog_status s xid = CLOG_XID_STATUS_COMMITTED))
         /\ (forall y, y ∉ xid :: subxids -> clog_status s y = clog_status c y)) cs
    /\ clog_updated (xid :: subxids) CLOG_XID_STATUS_COMMITTED lsn c (List.last cs c))
  /\ (exists cs, CLogSetTreeStatus xid subxids CLOG_XID_STATUS_ABORTED lsn c = Ok cs
    /\ Forall (fun s => (forall x, x ∈ xid :: subxids -> tree_committed s xid x = false)
         /\ (forall y, y ∉ xid :: subxids -> clog_status s y = clog_status c y)) cs
    /\ clog_updated (xid :: subxids) CLOG_XID_STATUS_ABORTED lsn c (List.last cs c)).
Proof. split; [by apply tree_commit_states|by apply tree_abort_states]. Qed.

Lemma committing_csn c0 : 0 <= c0 <= MAX_COMMITSEQNO ->
  let v := Z.lor COMMITSEQNO_COMMIT_INPROGRESS c0 in
  COMMITSEQNO_IS_COMMITTING v = true /\ COMMITSEQNO_IS_SUBTRANS v = false
  /\ COMMITSEQNO_ABORTED < v.
Proof.
  intros Hc v. destruct (csn_flags c0 true false Hc) as (H1 & H2 & _). rewrite Z.lor_0_l in *.
  split_and!; [done|done|]. unfold v.
  assert (0 <= COMMITSEQNO_COMMIT_INPROGRESS) by done.
  pose proof (Z.lor_nonneg COMMITSEQNO_COMMIT_INPROGRESS c0) as [_ Hn].
  destruct (Z.lt_ge_cases COMMITSEQNO_ABORTED (Z.lor COMMITSEQNO_COMMIT_INPROGRESS c0)); [done|].
  exfalso. change COMMITSEQNO_ABORTED with 1 in *.
  rewrite committing_testbit in H1.
  assert (Z.lor COMMITSEQNO_COMMIT_INPROGRESS c0 = 0 \/ Z.lor COMMITSEQNO_COMMIT_INPROGRESS c0 = 1)
    as [He|He] by lia; rewrite He in H1; done.
Qed.

Lemma committing_settable v e : COMMITSEQNO_IS_COMMITTING e = true -> settable v e.
Proof.
  intros H. left. split.
  - destruct (COMMITSEQNO_IS_COMMITTED e) eqn:He; [|done].
    by rewrite (committed_not_committing e He) in H.
  - destruct (COMMITSEQNO_IS_ABORTED e) eqn:He; [|done]. apply aborted_spec in He as ->. done.
Qed.

(** C38 The two-phase update of the CSN log at commit.  Marking the tree
    "commit in progress" and then storing the CSN, each page by page, never
    fails; while the marks are written no member reads as committed or
    aborted that did not before; and in every state the second phase passes
    through, whatever states the reader's steps fall into, every member of
    the tree reads as committed with the one CSN, the children through their
    parent entry if need be. *)
Theorem CSNLogSetCommitSeqNo_atomic (l : Csnlog) (xid : Z) (subxids : list Z) (c0 csn : Z)
    (Hprimary : SS_STANDBY_MODE = false)
    (Hxid : TransactionIdIsNormal xid = true) (Hmax : xid <= MAX_COMMITSEQNO)
    (Hsub : forall x, x ∈ subxids -> TransactionIdIsNormal x = true) (Hni : xid ∉ subxids)
    (Hc0 : 0 <= c0 <= MAX_COMMITSEQNO) (Hcsn : COMMITSEQNO_FROZEN <= csn <= MAX_COMMITSEQNO)
    (Hpend : forall x, x ∈ xid :: subxids ->
       COMMITSEQNO_IS_COMMITTED (csnlog_entry l x) = false
       /\ COMMITSEQNO_IS_ABORTED (csnlog_entry l x) = false) :
  exists ls1 ls2,
    CSNLogSetCommitSeqNo xid subxids (Z.lor COMMITSEQNO_COMMIT_INPROGRESS c0) l = Ok ls1
    /\ CSNLogSetCommitSeqNo xid subxids csn (List.last ls1 l) = Ok ls2
    /\ Forall (fun s => forall x, x ∈ xid :: subxids ->
         COMMITSEQNO_IS_COMMITTED (csnlog_entry s x) = false
         /\ COMMITSEQNO_IS_ABORTED (csnlog_entry s x) = false) ls1
    /\ (forall s later x, Forall (fun s => s ∈ ls2) (s :: later) -> x ∈ xid :: subxids ->
         option_map fst (RecursiveGetCommitSeqNo (fun s => s) 2 x s later) = Some csn)
    /\ (forall x, x ∈ xid :: subxids -> csnlog_entry (List.last ls2 l) x = csn)
    /\ (forall s y, s ∈ ls1 ++ ls2 -> y ∉ xid :: subxids -> csnlog_entry s y = csnlog_entry l y).
Proof.
  destruct (committing_csn c0 Hc0) as (Hv1 & Hv2 & Hv3).
  set (v := Z.lor COMMITSEQNO_COMMIT_INPROGRESS c0) in *.
  assert (Hcc : COMMITSEQNO_IS_COMMITTED csn = true) by (by apply committed_small).
  pose proof (committed_not_committing csn Hcc) as Hnc.
  assert (Hnorm : forall x, x ∈ xid :: subxids -> TransactionIdIsNormal x = true).
  { intros x [->|Hx]%elem_of_cons; auto. }
  assert (Hptr : child_csn v xid = child_pointer xid) by (unfold child_csn; by rewrite Hv1).
  assert (Hfin : child_csn csn xid = csn) by (unfold child_csn; by rewrite Hnc).
  assert (0 <= xid) by (apply Z.leb_le in Hxid; unfold FirstNormalTransactionId in Hxid; lia).
  destruct (child_pointer_flags xid) as (Hp1 & Hp2 & Hp3); [done|].
  destruct (CSNLogSetCommitSeqNo_run Hprimary xid subxids v l) as (ls1 & Hr1 & Hst1 & Ht1 & Hu1);
    [done|done| |by right|left; by apply Hpend; left|intros x Hx; left; by apply Hpend; right|].
  { unfold InvalidCommitSeqNo. change COMMITSEQNO_ABORTED with 1 in Hv3. lia. }
  rewrite Hptr in Hu1. set (m := List.last ls1 l) in *.
  destruct (CSNLogSetCommitSeqNo_run Hprimary xid subxids csn m) as (ls2 & Hr2 & Hst2 & Ht2 & Hu2);
    [done|done|by apply committed_nonzero|right| | |].
  { change COMMITSEQNO_FROZEN with 2 in Hcsn. change COMMITSEQNO_ABORTED with 1. lia. }
  { rewrite Ht1. by apply committing_settable. }
  { intros x Hx. destruct Hu1 as [Hi _]. rewrite Hi by done. by apply committing_settable. }
  rewrite Hfin in Hu2. exists ls1, ls2. split_and!; [done|done| | | |].
  - eapply Forall_impl; [exact Hst1|]. intros s (Hs1 & Hs2 & _) x [->|Hx]%elem_of_cons.
    + rewrite Hs1. destruct (committing_settable 0 v Hv1) as [?|Hz]; [done|].
      by rewrite Hz in Hv1.
    + destruct (Hs2 x Hx) as [->| ->]; [|by apply Hpend; right]. rewrite Hptr.
      destruct (committing_settable 0 _ Hp1) as [?|Hz]; [done|]. by rewrite Hz in Hp1.
  - intros s later x Hall Hx. rewrite list.Forall_forall in Hst2.
    apply (read_tree (fun s => s) xid x csn s later); [done|auto|done|by apply committed_not_subtrans| |].
    + eapply Forall_impl; [exact Hall|]. intros s' Hs'. by apply Hst2.
    + apply Forall_cons_1 in Hall as [Hs _]. destruct (Hst2 s Hs) as (Hs1 & Hs2 & _).
      apply elem_of_cons in Hx as [->|Hx]; [by right|].
      rewrite Hfin in Hs2. destruct (Hs2 x Hx) as [?|Heq]; [by right|left].
      rewrite Heq. by apply Hu1.
  - intros x Hx. assert (List.last ls2 l = List.last ls2 m) as Hl.
    { destruct ls2; [|by rewrite !last_cons_default]. exfalso.
      simpl in Ht2. rewrite Ht1 in Ht2. congruence. }
    rewrite Hl. apply elem_of_cons in Hx as [->|Hx]; [done|]. by apply Hu2.
  - intros s y [Hs|Hs]%elem_of_app Hy; rewrite list.Forall_forall in Hst1, Hst2.
    + by apply Hst1.
    + destruct (Hst2 s Hs) as (_ & _ & Ho). rewrite Ho by done.
      apply not_elem_of_cons in Hy as [Hy1 Hy2]. destruct Hu1 as [_ Ho1].
      rewrite Ho1, csnlog_entry_insert by done. by rewrite decide_False.
Qed.
End Properties.

Lemma CLogSetTreeStatus_atomic_witness :
  let ses := normal_session in let bs := block_256 in
  let c := MkClog ∅ ∅ in
  (exists cs, CLogSetTreeStatus 1020 [1022; 1025; 2050] CLOG_XID_STATUS_COMMITTED 7 c = Ok cs
    /\ Forall (fun s => (forall x, x ∈ [1022; 1025; 2050] ->
         tree_committed s 1020 x = bool_decide (clog_status s 1020 = CLOG_XID_STATUS_COMMITTED))
         /\ (forall y, y ∉ [1020; 1022; 1025; 2050] -> clog_status s y = clog_status c y)) cs
    /\ clog_updated [1020; 1022; 1025; 2050] CLOG_XID_STATUS_COMMITTED 7 c (List.last cs c))
  /\ (exists cs, CLogSetTreeStatus 1020 [1022; 1025; 2050] CLOG_XID_STATUS_ABORTED 7 c = Ok cs
    /\ Forall (fun s => (forall x, x ∈ [1020; 1022; 1025; 2050] -> tree_committed s 1020 x = false)
         /\ (forall y, y ∉ [1020; 1022; 1025; 2050] -> clog_status s y = clog_status c y)) cs
    /\ clog_updated [1020; 1022; 1025; 2050] CLOG_XID_STATUS_ABORTED 7 c (List.last cs c)).
Proof.
  intros ses bs c.
  refine (CLogSetTreeStatus_atomic (bs := block_256) (ses := normal_session) c 1020
    [1022; 1025; 2050] 7 eq_refl _ _ eq_refl _ _).
  - split; intros p b; unfold clog_byte, group_lsn, c; simpl; rewrite lookup_empty; simpl; lia.
  - lia.
  - rewrite !elem_of_cons. intros [?|[?|[?|?%list.not_elem_of_nil]]]; done.
  - intros x _. unfold clog_status, CLogGetStatus, clog_byte, c. simpl. rewrite lookup_empty. simpl.
    unfold get_bits. by rewrite Z.shiftr_0_l.
Defined.

Lemma CSNLogSetCommitSeqNo_atomic_witness :
  let ses := normal_session in let bs := block_256 in
  let l := SubTransSetParent 40 20 ∅ in
  exists ls1 ls2,
    CSNLogSetCommitSeqNo 20 [22; 40] (Z.lor COMMITSEQNO_COMMIT_INPROGRESS 9) l = Ok ls1
    /\ CSNLogSetCommitSeqNo 20 [22; 40] 10 (List.last ls1 l) = Ok ls2
    /\ Forall (fun s => forall x, x ∈ [20; 22; 40] ->
         COMMITSEQNO_IS_COMMITTED (csnlog_entry s x) = false
         /\ COMMITSEQNO_IS_ABORTED (csnlog_entry s x) = false) ls1
    /\ (forall s later x, Forall (fun s => s ∈ ls2) (s :: later) -> x ∈ [20; 22; 40] ->
         option_map fst (RecursiveGetCommitSeqNo (fun s => s) 2 x s later) = Some 10)
    /\ (forall x, x ∈ [20; 22; 40] -> csnlog_entry (List.last ls2 l) x = 10)
    /\ (forall s y, s ∈ ls1 ++ ls2 -> y ∉ [20; 22; 40] -> csnlog_entry s y = csnlog_entry l y).
Proof.
  intros ses bs l.
  refine (CSNLogSetCommitSeqNo_atomic (bs := block_256) (ses := normal_session) l 20
    [22; 40] 9 10 eq_refl eq_refl _ _ _ _ _ _).
  - by vm_compute.
  - intros x [->|[->|?%list.not_elem_of_nil]%elem_of_cons]%elem_of_cons; done.
  - rewrite !elem_of_cons. intros [?|[?|?%list.not_elem_of_nil]]; done.
  - by split; vm_compute.
  - by split; vm_compute.
  - intros x Hx. change (x ∈ [20; 22; 40]) in Hx. rewrite !elem_of_cons in Hx.
    destruct Hx as [->|[->|[->|?%list.not_elem_of_nil]]]; [..|done]; split; vm_compute; reflexivity.
Defined.
