(* ===== verification/HeapTuple.v ===== *)
(** The heap tuple header ([src/src/include/access/htup.h]) and combo command
    ids ([src/src/common/backend/utils/time/combocid.cpp]).

    Only the fields of the header that visibility reads are modelled: the two
    32-bit transaction ids (offsets from the bases of the page), the command
    id, the tuple's forward link and the two words of flag bits.  A header is
    the shared contents of the tuple in its page. *)
From S2P Require Import Prelude Xid.
From stdpp Require Import gmap.
#[local] Open Scope Z_scope.

(** ** Flag bits *)

Definition HEAP_COMBOCID : Z := 0x0020.
Definition HEAP_XMAX_EXCL_LOCK : Z := 0x0040.
Definition HEAP_XMAX_SHARED_LOCK : Z := 0x0080.
Definition HEAP_XMAX_KEYSHR_LOCK : Z := Z.lor HEAP_XMAX_EXCL_LOCK HEAP_XMAX_SHARED_LOCK.
Definition HEAP_LOCK_MASK : Z :=
  Z.lor (Z.lor HEAP_XMAX_EXCL_LOCK HEAP_XMAX_SHARED_LOCK) HEAP_XMAX_KEYSHR_LOCK.
Definition HEAP_XMIN_COMMITTED : Z := 0x0100.
Definition HEAP_XMIN_INVALID : Z := 0x0200.
Definition HEAP_XMIN_FROZEN : Z := Z.lor HEAP_XMIN_INVALID HEAP_XMIN_COMMITTED.
Definition HEAP_XMAX_COMMITTED : Z := 0x0400.
Definition HEAP_XMAX_INVALID : Z := 0x0800.
Definition HEAP_XMAX_IS_MULTI : Z := 0x1000.
(** in [t_infomask2] *)
Definition HEAP_XMAX_LOCK_ONLY : Z := 0x0800.

(** ** The tuple and its page *)

Record HeapTupleHeaderData := MkHeader {
  t_xmin : Z;
  t_xmax : Z;
  t_cid : Z;
  t_ctid : Z * Z;
  t_infomask2 : Z;
  t_infomask : Z }.

(** [HeapPageHeader]: the bases of the transaction ids on the page, its LSN. *)
Record HeapPage := MkPage {
  pd_xid_base : Z;
  pd_multi_base : Z;
  pd_lsn : Z }.

(** [HeapTupleData], the pointer to the header apart. *)
Record HeapTupleData := MkTuple {
  t_self : Z * Z;
  t_xid_base : Z;
  t_multi_base : Z }.

Definition HeapTupleCopyBaseFromPage (tup : HeapTupleData) (page : HeapPage) : HeapTupleData :=
  {| t_self := t_self tup;
     t_xid_base := pd_xid_base page;
     t_multi_base := pd_multi_base page |}.

Definition HEAP_XMAX_IS_LOCKED_ONLY (infomask infomask2 : Z) : bool :=
  flag infomask2 HEAP_XMAX_LOCK_ONLY || flag infomask HEAP_XMAX_SHARED_LOCK
  || (Z.land infomask (Z.lor HEAP_XMAX_IS_MULTI HEAP_LOCK_MASK) =? HEAP_XMAX_EXCL_LOCK).

Definition HeapTupleHeaderXminCommitted (tup : HeapTupleHeaderData) : bool :=
  flag (t_infomask tup) HEAP_XMIN_COMMITTED.
Definition HeapTupleHeaderXminInvalid (tup : HeapTupleHeaderData) : bool :=
  Z.land (t_infomask tup) (Z.lor HEAP_XMIN_COMMITTED HEAP_XMIN_INVALID) =? HEAP_XMIN_INVALID.
Definition HeapTupleHeaderXminFrozen (tup : HeapTupleHeaderData) : bool :=
  Z.land (t_infomask tup) HEAP_XMIN_FROZEN =? HEAP_XMIN_FROZEN.

Definition HeapTupleHeaderGetXmin (page : HeapPage) (tup : HeapTupleHeaderData) : Z :=
  ShortTransactionIdToNormal (pd_xid_base page) (t_xmin tup).
Definition HeapTupleHeaderGetXmax (page : HeapPage) (tup : HeapTupleHeaderData) : Z :=
  ShortTransactionIdToNormal
    (if flag (t_infomask tup) HEAP_XMAX_IS_MULTI then pd_multi_base page else pd_xid_base page)
    (t_xmax tup).
Abbreviation HeapTupleHeaderGetRawXmax := HeapTupleHeaderGetXmax.

Definition HeapTupleGetRawXmin (htup : HeapTupleData) (tup : HeapTupleHeaderData) : Z :=
  ShortTransactionIdToNormal (t_xid_base htup) (t_xmin tup).
Definition HeapTupleGetRawXmax (htup : HeapTupleData) (tup : HeapTupleHeaderData) : Z :=
  ShortTransactionIdToNormal
    (if flag (t_infomask tup) HEAP_XMAX_IS_MULTI then t_multi_base htup else t_xid_base htup)
    (t_xmax tup).

Definition HeapTupleHeaderGetRawCommandId (tup : HeapTupleHeaderData) : Z := t_cid tup.

Definition set_infomask (tup : HeapTupleHeaderData) (m : Z) : HeapTupleHeaderData :=
  {| t_xmin := t_xmin tup; t_xmax := t_xmax tup; t_cid := t_cid tup; t_ctid := t_ctid tup;
     t_infomask2 := t_infomask2 tup; t_infomask := m |}.

(** [tup->t_infomask |= bits] *)
Definition or_infomask (tup : HeapTupleHeaderData) (bits : Z) : HeapTupleHeaderData :=
  set_infomask tup (Z.lor (t_infomask tup) bits).

Definition HeapTupleHeaderSetCmin (cid : Z) (tup : HeapTupleHeaderData) : HeapTupleHeaderData :=
  {| t_xmin := t_xmin tup; t_xmax := t_xmax tup; t_cid := cid; t_ctid := t_ctid tup;
     t_infomask2 := t_infomask2 tup;
     t_infomask := Z.land (t_infomask tup) (Z.lnot HEAP_COMBOCID) |}.

Definition HeapTupleHeaderSetCmax (cid : Z) (iscombo : bool) (tup : HeapTupleHeaderData) :
  HeapTupleHeaderData :=
  {| t_xmin := t_xmin tup; t_xmax := t_xmax tup; t_cid := cid; t_ctid := t_ctid tup;
     t_infomask2 := t_infomask2 tup;
     t_infomask := if iscombo then Z.lor (t_infomask tup) HEAP_COMBOCID
                   else Z.land (t_infomask tup) (Z.lnot HEAP_COMBOCID) |}.

(** ** Multixacts *)

Definition MultiXactStatusForUpdate : Z := 3.
Definition ISUPDATE_from_mxstatus (status : Z) : bool := MultiXactStatusForUpdate <? status.

(** The loop that finds the updater among the members. *)
Fixpoint find_updater (members : list MultiXactMember) : Z :=
  match members with
  | [] => InvalidTransactionId
  | m :: rest => if ISUPDATE_from_mxstatus (mxm_status m) then mxm_xid m else find_updater rest
  end.

(** ** Combo command ids *)

(** The table of the combo ids in use, and the hash index from the pair to
    the combo id (at first NULL, created on first use: here empty). *)
Record ComboState := MkCombo {
  comboHash : gmap (Z * Z) Z;
  usedCombos : list (Z * Z) }.

(** Reading outside the table is an access outside the array. *)
Definition GetRealCmin (combos : list (Z * Z)) (combocid : Z) : option Z :=
  fst <$> zlookup combos combocid.
Definition GetRealCmax (combos : list (Z * Z)) (combocid : Z) : option Z :=
  snd <$> zlookup combos combocid.

Definition HeapTupleHeaderGetCmin (combos : list (Z * Z)) (tup : HeapTupleHeaderData) : option Z :=
  let cid := HeapTupleHeaderGetRawCommandId tup in
  if flag (t_infomask tup) HEAP_COMBOCID then GetRealCmin combos cid else Some cid.
Definition HeapTupleHeaderGetCmax (combos : list (Z * Z)) (tup : HeapTupleHeaderData) : option Z :=
  let cid := HeapTupleHeaderGetRawCommandId tup in
  if flag (t_infomask tup) HEAP_COMBOCID then GetRealCmax combos cid else Some cid.

Definition GetComboCommandId (cmin cmax : Z) (s : ComboState) : Z * ComboState :=
  match comboHash s !! (cmin, cmax) with
  | Some combocid => (combocid, s)
  | None =>
      let combocid := zlen (usedCombos s) in
      (combocid, {| comboHash := <[(cmin, cmax) := combocid]> (comboHash s);
                    usedCombos := usedCombos s ++ [(cmin, cmax)] |})
  end.

Section Combo.
Context {ses : Session}.

(** Whether a combo id is needed depends on whether the inserting transaction
    is the current one; [is_current] stands for
    [TransactionIdIsCurrentTransactionId] (Transam.v). *)
Definition HeapTupleHeaderAdjustCmax (is_current : Z -> bool) (page : HeapPage)
    (tup : HeapTupleHeaderData) (cmax : Z) (s : ComboState) : option (Z * bool * ComboState) :=
  if negb (HeapTupleHeaderXminCommitted tup) && is_current (HeapTupleHeaderGetXmin page tup)
  then
    cmin ← HeapTupleHeaderGetCmin (usedCombos s) tup;
    let (combo, s) := GetComboCommandId cmin cmax s in
    Some (combo, true, s)
  else Some (cmax, false, s).

(** [CheckStreamCombocid]: a combo id unknown to this thread; outside a
    stream thread that is a PANIC. *)
Definition CheckStreamCombocid (tup : HeapTupleHeaderData) : result bool :=
  let cid := HeapTupleHeaderGetRawCommandId tup in
  if zlen comboCids <=? cid then
    if StreamThreadAmI then Ok true else Ereport ERRCODE_INTERNAL_ERROR
  else Ok false.
End Combo.

Definition AtEOXact_ComboCid (s : ComboState) : ComboState :=
  {| comboHash := ∅; usedCombos := [] |}.

(** ** Lemmas: flag bits *)

Lemma flag_pow2 m b : 0 <= b -> flag m (2 ^ b) = Z.testbit m b.
Proof.
  intros Hb. unfold flag. destruct (Z.testbit m b) eqn:Ht.
  - destruct (Z.eqb_spec (Z.land m (2 ^ b)) 0) as [He|]; [exfalso|done].
    assert (Z.testbit (Z.land m (2 ^ b)) b = true) as Hc.
    { by rewrite Z.land_spec, Ht, Z.pow2_bits_true. }
    by rewrite He, Z.bits_0 in Hc.
  - rewrite (proj2 (Z.eqb_eq _ _)); [done|]. apply Z.bits_inj'. intros k Hk.
    rewrite Z.land_spec, Z.pow2_bits_eqb, Z.bits_0 by done.
    destruct (Z.eqb_spec b k) as [->|]; [by rewrite Ht|by rewrite andb_false_r].
Qed.

Lemma flag_lor m c b : 0 <= b -> flag (Z.lor m c) (2 ^ b) = flag m (2 ^ b) || flag c (2 ^ b).
Proof. intros. by rewrite !flag_pow2, Z.lor_spec by done. Qed.

(** ** Combo ids: invariant and properties *)

(** The hash maps a pair to a combo id exactly when the table holds the pair
    at that index. *)
Definition combo_wf (s : ComboState) : Prop :=
  forall p i, comboHash s !! p = Some i <-> (0 <= i < zlen (usedCombos s) /\ zlookup (usedCombos s) i = Some p).

Lemma zlookup_app_l {A} (l k : list A) i : 0 <= i < zlen l -> zlookup (l ++ k) i = zlookup l i.
Proof.
  intros Hi. unfold zlookup, zlen in *. destruct (0 <=? i); [|done]. apply lookup_app_l. lia.
Qed.

Lemma zlookup_last {A} (l : list A) x : zlookup (l ++ [x]) (zlen l) = Some x.
Proof.
  unfold zlookup, zlen. destruct (Z.leb_spec 0 (Z.of_nat (length l))); [|lia].
  rewrite Nat2Z.id. by apply list_lookup_middle.
Qed.

Lemma GetComboCommandId_spec cmin cmax s : combo_wf s ->
  let (c, s') := GetComboCommandId cmin cmax s in
  combo_wf s' /\ GetRealCmin (usedCombos s') c = Some cmin
  /\ GetRealCmax (usedCombos s') c = Some cmax
  /\ (usedCombos s' = usedCombos s \/ usedCombos s' = usedCombos s ++ [(cmin, cmax)]).
Proof.
  intros Hwf. unfold GetComboCommandId, GetRealCmin, GetRealCmax.
  destruct (comboHash s !! (cmin, cmax)) as [c|] eqn:Hh.
  - pose proof (proj1 (Hwf _ _) Hh) as [_ Hl]. rewrite Hl. split_and!; auto.
  - cbn [usedCombos comboHash]. rewrite zlookup_last. split_and!; [|done|done|by right].
    intros p i. cbn [usedCombos comboHash]. rewrite zlen_app. change (zlen [(cmin, cmax)]) with 1.
    pose proof (zlen_nonneg (usedCombos s)) as Hn. split.
    + intros Hp. destruct (decide (p = (cmin, cmax))) as [->|Hne].
      * rewrite lookup_insert_eq in Hp. injection Hp as <-. rewrite zlookup_last. split; [lia|done].
      * rewrite lookup_insert_ne in Hp by done. apply Hwf in Hp as [Hi Hp].
        rewrite zlookup_app_l by done. split; [lia|done].
    + intros [Hi Hp]. destruct (Z.eq_dec i (zlen (usedCombos s))) as [->|Hne].
      * rewrite zlookup_last in Hp. injection Hp as <-. by rewrite lookup_insert_eq.
      * rewrite zlookup_app_l in Hp by lia. assert (Hh' : comboHash s !! p = Some i).
        { apply Hwf. split; [lia|done]. }
        rewrite lookup_insert_ne; [done|]. intros <-. congruence.
Qed.

(** The round trip of command ids: deleting a tuple in the transaction
    that inserted it keeps both command ids, through a combo id; the combo
    ids handed out before keep their meaning, the same pair gets the same
    combo id, and a tuple inserted by another transaction stores [cmax]
    itself. *)
Theorem combo_roundtrip (is_current : Z -> bool) (page : HeapPage) (tup : HeapTupleHeaderData)
    (cmin cmax : Z) (s : ComboState) (Hwf : combo_wf s)
    (Hcmin : HeapTupleHeaderGetCmin (usedCombos s) tup = Some cmin) :
  exists c iscombo s',
    HeapTupleHeaderAdjustCmax is_current page tup cmax s = Some (c, iscombo, s')
    /\ combo_wf s'
    /\ HeapTupleHeaderGetCmax (usedCombos s') (HeapTupleHeaderSetCmax c iscombo tup) = Some cmax
    /\ iscombo = negb (HeapTupleHeaderXminCommitted tup) && is_current (HeapTupleHeaderGetXmin page tup)
    /\ (iscombo = true ->
        HeapTupleHeaderGetCmin (usedCombos s') (HeapTupleHeaderSetCmax c iscombo tup) = Some cmin
        /\ GetComboCommandId cmin cmax s' = (c, s'))
    /\ (forall i p, zlookup (usedCombos s) i = Some p -> zlookup (usedCombos s') i = Some p).
Proof.
  unfold HeapTupleHeaderAdjustCmax, HeapTupleHeaderGetCmax.
  destruct (negb _ && _) eqn:Hc.
  - rewrite Hcmin. sbind. pose proof (GetComboCommandId_spec cmin cmax s Hwf) as H.
    destruct (GetComboCommandId cmin cmax s) as [c s'] eqn:Hg.
    destruct H as (Hwf' & Hmin & Hmax & Hused). exists c, true, s'.
    assert (Hfl : flag (t_infomask (HeapTupleHeaderSetCmax c true tup)) HEAP_COMBOCID = true).
    { change HEAP_COMBOCID with (2 ^ 5). cbn [HeapTupleHeaderSetCmax t_infomask].
      change HEAP_COMBOCID with (2 ^ 5). rewrite flag_lor by lia. apply orb_true_r. }
    unfold HeapTupleHeaderGetCmin. rewrite Hfl. split_and!; try done.
    + intros _. split; [done|]. unfold GetComboCommandId in *.
      destruct (comboHash s !! (cmin, cmax)) as [c'|] eqn:Hh; injection Hg as <- <-.
      * by rewrite Hh.
      * cbn [comboHash]. by rewrite lookup_insert_eq.
    + intros i p Hp. destruct Hused as [->| ->]; [done|].
      apply zlookup_Some_range in Hp as Hr. by rewrite zlookup_app_l.
  - eexists _, _, _. split; [reflexivity|]. split_and!; try done.
    assert (flag (t_infomask (HeapTupleHeaderSetCmax cmax false tup)) HEAP_COMBOCID = false) as ->; [|done].
    unfold flag. cbn [HeapTupleHeaderSetCmax t_infomask].
    rewrite <- Z.land_assoc, (Z.land_comm (Z.lnot _)), Z.land_lnot_diag, Z.land_0_r. done.
Qed.

Lemma combo_roundtrip_witness :
  let s := MkCombo {[ (1, 2) := 0 ]} [(1, 2)] in
  let tup := MkHeader 10 0 1 (0, 1) 0 0 in
  exists c iscombo s',
    HeapTupleHeaderAdjustCmax (fun _ => true) (MkPage 0 0 0) tup 4 s = Some (c, iscombo, s')
    /\ combo_wf s'
    /\ HeapTupleHeaderGetCmax (usedCombos s') (HeapTupleHeaderSetCmax c iscombo tup) = Some 4
    /\ iscombo = negb (HeapTupleHeaderXminCommitted tup) && true
    /\ (iscombo = true ->
        HeapTupleHeaderGetCmin (usedCombos s') (HeapTupleHeaderSetCmax c iscombo tup) = Some 1
        /\ GetComboCommandId 1 4 s' = (c, s'))
    /\ (forall i p, zlookup (usedCombos s) i = Some p -> zlookup (usedCombos s') i = Some p).
Proof.
  intros s tup. refine (combo_roundtrip (fun _ => true) (MkPage 0 0 0) tup 1 4 s _ eq_refl).
  intros p i. unfold s. cbn [comboHash usedCombos]. rewrite lookup_singleton_Some. split.
  - intros [<- <-]. split; [unfold zlen; simpl; lia|done].
  - intros [Hi Hp]. change (zlen [(1, 2)]) with 1 in Hi. assert (i = 0) as -> by lia.
    injection Hp as <-. done.
Defined.
