(* ===== verification/Transam.v ===== *)
(** Transaction status: the interface to the transaction logs
    ([src/src/gausskernel/storage/access/transam/transam.cpp]), the test for
    running transactions ([storage/ipc/procarray.cpp]), the current
    transaction ([transam/xact.cpp]), multixacts ([transam/multixact.cpp],
    [access/heap/heapam.cpp]) and what a snapshot sees of a transaction
    ([src/src/common/backend/utils/time/snapmgr.cpp]).

    These functions read memory that other backends change at any moment.  A
    computation runs in a [World]: the shared state at the present instant,
    the states it will go through next, and what belongs to this backend, the
    single-entry caches of [t_thrd.xact_cxt] and the tuple under examination.
    Every access to the shared state lets one step of time pass ([tick]), so a
    function that asks twice may get answers from different instants.  The
    theorems quantify over all such histories. *)
From S2P Require Import Prelude Xid XactLog HeapTuple.
From stdpp Require Import gmap.
#[local] Open Scope Z_scope.

(** ** The shared state *)

(** An entry of the array of running transactions (another backend's). *)
Record PGXACT := MkPGXACT {
  pgxact_xid : Z;
  pgxact_next_xid : Z;
  pgxact_subxids : list Z;
  needToSyncXid : Z }.

Record Shared := MkShared {
  sh_clog : Clog;
  sh_csnlog : Csnlog;
  sh_procs : list PGXACT;
  latestCompletedXid : Z;
  (** WAL is flushed up to here *)
  sh_flushed : Z;
  (** what the tuple has become for someone who locks the page again now *)
  sh_view : option (HeapPage * HeapTupleHeaderData) }.

(** ** This backend *)

(** [t_thrd.xact_cxt]: the single-item caches and the latest answers. *)
Record Thrd := MkThrd {
  cachedFetchXid : Z;
  cachedFetchXidStatus : CLogXidStatus;
  cachedCommitLSN : Z;
  cachedFetchCSNXid : Z;
  cachedFetchCSN : Z;
  latestFetchXid : Z;
  latestFetchXidStatus : CLogXidStatus;
  latestFetchCSNXid : Z;
  latestFetchCSN : Z }.

Definition empty_thrd : Thrd :=
  MkThrd 0 CLOG_XID_STATUS_IN_PROGRESS 0 0 0 0 CLOG_XID_STATUS_IN_PROGRESS 0 0.

Record World := MkWorld {
  w_now : Shared;
  w_later : list Shared;
  w_thrd : Thrd;
  w_page : HeapPage;
  w_tuple : HeapTupleHeaderData;
  w_htup : HeapTupleData;
  (** [MarkBufferDirtyHint] was called *)
  w_dirty : bool;
  (** the fields a dirty snapshot returns *)
  w_out_xmin : Z;
  w_out_xmax : Z;
  (** [*has_cur_xact_write] *)
  w_cur_write : bool }.

Definition set_time (now : Shared) (later : list Shared) (w : World) : World :=
  MkWorld now later (w_thrd w) (w_page w) (w_tuple w) (w_htup w) (w_dirty w)
    (w_out_xmin w) (w_out_xmax w) (w_cur_write w).
Definition set_thrd (t : Thrd) (w : World) : World :=
  MkWorld (w_now w) (w_later w) t (w_page w) (w_tuple w) (w_htup w) (w_dirty w)
    (w_out_xmin w) (w_out_xmax w) (w_cur_write w).
Definition set_tuple (page : HeapPage) (tup : HeapTupleHeaderData) (w : World) : World :=
  MkWorld (w_now w) (w_later w) (w_thrd w) page tup (w_htup w) (w_dirty w)
    (w_out_xmin w) (w_out_xmax w) (w_cur_write w).
Definition set_htup (h : HeapTupleData) (w : World) : World :=
  MkWorld (w_now w) (w_later w) (w_thrd w) (w_page w) (w_tuple w) h (w_dirty w)
    (w_out_xmin w) (w_out_xmax w) (w_cur_write w).
Definition set_dirty (w : World) : World :=
  MkWorld (w_now w) (w_later w) (w_thrd w) (w_page w) (w_tuple w) (w_htup w) true
    (w_out_xmin w) (w_out_xmax w) (w_cur_write w).
Definition set_out (xmin xmax : Z) (w : World) : World :=
  MkWorld (w_now w) (w_later w) (w_thrd w) (w_page w) (w_tuple w) (w_htup w) (w_dirty w)
    xmin xmax (w_cur_write w).
Definition set_cur_write (w : World) : World :=
  MkWorld (w_now w) (w_later w) (w_thrd w) (w_page w) (w_tuple w) (w_htup w) (w_dirty w)
    (w_out_xmin w) (w_out_xmax w) true.

(** ** Computations

    A run returns a value and the new world, reports an error, or has no
    defined result: it read outside an array, or the fuel of a loop of the
    model ran out. *)

Inductive outcome (A : Type) :=
  | Ret (a : A) (w : World)
  | Raise (c : errcode)
  | Undefined.
Arguments Ret {A} _ _.
Arguments Raise {A} _.
Arguments Undefined {A}.

Definition M (A : Type) : Type := World -> outcome A.

#[global] Instance M_ret : MRet M := fun A a w => Ret a w.
#[global] Instance M_bind : MBind M := fun A B f m w =>
  match m w with
  | Ret a w => f a w
  | Raise c => Raise c
  | Undefined => Undefined
  end.

#[global] Instance M_fmap : FMap M := fun A B f m w =>
  match m w with
  | Ret a w => Ret (f a) w
  | Raise c => Raise c
  | Undefined => Undefined
  end.

Definition getw : M World := fun w => Ret w w.
Definition modify (f : World -> World) : M unit := fun w => Ret tt (f w).
Definition raise {A} (c : errcode) : M A := fun _ => Raise c.
Definition of_option {A} (o : option A) : M A := fun w =>
  match o with Some a => Ret a w | None => Undefined end.
Definition of_result {A} (r : result A) : M A := fun w =>
  match r with Ok a => Ret a w | Ereport c => Raise c end.

(** The shared state at the next access. *)
Definition tick : M Shared := fun w =>
  match w_later w with
  | [] => Ret (w_now w) w
  | s :: later => Ret s (set_time s later w)
  end.

Definition get_thrd : M Thrd := w ← getw; mret (w_thrd w).

Definition set_cached_clog (xid : Z) (st : CLogXidStatus) (lsn : Z) : M unit :=
  modify (fun w => let t := w_thrd w in set_thrd
    (MkThrd xid st lsn (cachedFetchCSNXid t) (cachedFetchCSN t)
       (latestFetchXid t) (latestFetchXidStatus t) (latestFetchCSNXid t) (latestFetchCSN t)) w).
Definition set_cached_csn (xid csn : Z) : M unit :=
  modify (fun w => let t := w_thrd w in set_thrd
    (MkThrd (cachedFetchXid t) (cachedFetchXidStatus t) (cachedCommitLSN t) xid csn
       (latestFetchXid t) (latestFetchXidStatus t) (latestFetchCSNXid t) (latestFetchCSN t)) w).
Definition set_latest_clog (xid : Z) (st : CLogXidStatus) : M unit :=
  modify (fun w => let t := w_thrd w in set_thrd
    (MkThrd (cachedFetchXid t) (cachedFetchXidStatus t) (cachedCommitLSN t)
       (cachedFetchCSNXid t) (cachedFetchCSN t) xid st (latestFetchCSNXid t) (latestFetchCSN t)) w).
Definition set_latest_csn (xid csn : Z) : M unit :=
  modify (fun w => let t := w_thrd w in set_thrd
    (MkThrd (cachedFetchXid t) (cachedFetchXidStatus t) (cachedCommitLSN t)
       (cachedFetchCSNXid t) (cachedFetchCSN t) (latestFetchXid t) (latestFetchXidStatus t)
       xid csn) w).

Section Transam.
Context {bs : BlockSize} {ses : Session}.

(** ** The current transaction (xact.cpp) *)

(** The binary search in the sorted array of child xids. *)
Fixpoint search_childXids (fuel : nat) (childXids : list Z) (xid low high : Z) : option bool :=
  match fuel with
  | O => None
  | S fuel =>
      if low <=? high then
        let middle := low + Z.quot (high - low) 2 in
        probe ← zlookup childXids middle;
        if TransactionIdEquals probe xid then Some true
        else if TransactionIdPrecedes probe xid
        then search_childXids fuel childXids xid (middle + 1) high
        else search_childXids fuel childXids xid low (middle - 1)
      else Some false
  end.

Fixpoint search_states (states : list TransactionStateData) (xid : Z) : option bool :=
  match states with
  | [] => Some false
  | s :: parents =>
      if state_aborting s then search_states parents xid
      else if negb (TransactionIdIsValid (transactionId s)) then search_states parents xid
      else if TransactionIdEquals xid (transactionId s) then Some true
      else
        let children := childXids s in
        found ← search_childXids (S (length children)) children xid 0 (zlen children - 1);
        if found : bool then Some true else search_states parents xid
  end.

Definition TransactionIdIsCurrentTransactionId (xid : Z) : M bool :=
  if negb (TransactionIdIsNormal xid) then mret false
  else of_option (search_states CurrentTransactionState xid).

(** ** The logs (transam.cpp) *)

Definition SetLatestFetchState (xid result : Z) : M unit := set_latest_csn xid result.

Definition CLogGetStatusM (xid : Z) : M (CLogXidStatus * Z) :=
  s ← tick; mret (CLogGetStatus xid (sh_clog s)).

Definition GetCSNByCLog (xid : Z) (isCommit : bool) : M Z :=
  if isCommit then mret COMMITSEQNO_FROZEN
  else
    st ← CLogGetStatusM xid;
    if bool_decide (fst st = CLOG_XID_STATUS_COMMITTED) then mret COMMITSEQNO_FROZEN
    else mret COMMITSEQNO_ABORTED.

(** A snapshot argument is [None] for NULL. *)
Definition FetchCSNFromCache (xid : Z) (snapshot : option SnapshotData) (isMvcc : bool) : M Z :=
  t ← get_thrd;
  let try_use_cache :=
    SetLatestFetchState (cachedFetchCSNXid t) (cachedFetchCSN t);;
    mret (cachedFetchCSN t) in
  if negb (TransactionIdEquals xid (cachedFetchCSNXid t)) then mret InvalidCommitSeqNo
  else match snapshot with
  | None => try_use_cache
  | Some snap =>
      if IsVersionMVCCSnapshot snap || bool_decide (satisfies snap = SNAPSHOT_DECODE_MVCC)
      then mret InvalidCommitSeqNo
      else if negb isMvcc || GTM_LITE_MODE then try_use_cache
      else if IsMVCCSnapshot snap && negb (TransactionIdPrecedes xid (snap_xmin snap))
              && (cachedFetchCSN t =? COMMITSEQNO_FROZEN)
      then mret InvalidCommitSeqNo
      else try_use_cache
  end.

(** The recursion through parent entries, one access per entry. *)
Definition CSNLogGetNestCommitSeqNo (xid : Z) : M Z :=
  _ ← tick;
  w ← getw;
  r ← of_option (RecursiveGetCommitSeqNo sh_csnlog (S (Z.to_nat xid)) xid (w_now w) (w_later w));
  let '(csn, (now, later)) := r in
  modify (set_time now later);;
  mret csn.

(** The xid below which the commit log answers. *)
Definition csn_horizon (isMvcc : bool) (snapshot : option SnapshotData) : Z :=
  let mvcc_snapshot :=
    match snapshot with Some snap => IsMVCCSnapshot snap | None => false end in
  if match snapshot with
     | Some snap => bool_decide (satisfies snap = SNAPSHOT_DECODE_MVCC)
     | None => false end
  then ReplicationSlotCatalogXmin
  else if negb isMvcc || GTM_LITE_MODE then
    if negb (TransactionIdIsValid recentGlobalXmin) then recentLocalXmin else recentGlobalXmin
  else match snapshot with
  | Some snap => if mvcc_snapshot then snap_xmin snap else RecentXmin
  | None => RecentXmin
  end.

(** The CSN log is read without failure, so the recovery of [PG_CATCH] has no
    counterpart. *)
Definition TransactionIdGetCommitSeqNo (xid : Z) (isCommit isMvcc isNest : bool)
    (snapshot : option SnapshotData) : M Z :=
  cacheCsn ← FetchCSNFromCache xid snapshot isMvcc;
  if negb (cacheCsn =? InvalidCommitSeqNo) then mret cacheCsn
  else if negb (TransactionIdIsNormal xid) then
    t ← get_thrd;
    set_latest_csn InvalidTransactionId (latestFetchCSN t);;
    if TransactionIdEquals xid BootstrapTransactionId || TransactionIdEquals xid FrozenTransactionId
    then mret COMMITSEQNO_FROZEN
    else mret COMMITSEQNO_ABORTED
  else
    let horizon := csn_horizon isMvcc snapshot in
    let version :=
      match snapshot with Some snap => IsVersionMVCCSnapshot snap | None => false end in
    result ← (if negb IS_DISASTER_RECOVER_MODE && negb version
                 && TransactionIdPrecedes xid horizon
              then GetCSNByCLog xid isCommit
              else if isNest then CSNLogGetNestCommitSeqNo xid
              else s ← tick; mret (CSNLogGetCommitSeqNo xid (sh_csnlog s)));
    (if COMMITSEQNO_IS_COMMITTED result || COMMITSEQNO_IS_ABORTED result
     then set_cached_csn xid result else mret tt);;
    set_latest_csn xid result;;
    mret result.

Definition TransactionLogFetch (xid : Z) : M CLogXidStatus :=
  t ← get_thrd;
  if TransactionIdEquals xid (cachedFetchXid t) then
    set_latest_clog (cachedFetchXid t) (cachedFetchXidStatus t);;
    mret (cachedFetchXidStatus t)
  else if negb (TransactionIdIsNormal xid) then
    set_latest_clog InvalidTransactionId (latestFetchXidStatus t);;
    if TransactionIdEquals xid BootstrapTransactionId then mret CLOG_XID_STATUS_COMMITTED
    else if TransactionIdEquals xid FrozenTransactionId then mret CLOG_XID_STATUS_COMMITTED
    else mret CLOG_XID_STATUS_ABORTED
  else
    r ← CLogGetStatusM xid;
    let (xidstatus, xidlsn) := (r : CLogXidStatus * Z) in
    (if negb (bool_decide (xidstatus = CLOG_XID_STATUS_IN_PROGRESS))
        && negb (bool_decide (xidstatus = CLOG_XID_STATUS_SUB_COMMITTED))
     then set_cached_clog xid xidstatus xidlsn else mret tt);;
    set_latest_clog xid xidstatus;;
    mret xidstatus.

(** The recursion on the parent of a sub-committed transaction, with fuel. *)
Fixpoint DidCommit_rec (fuel : nat) (xid : Z) : M bool :=
  match fuel with
  | O => of_option None
  | S fuel =>
      xidstatus ← TransactionLogFetch xid;
      match xidstatus with
      | CLOG_XID_STATUS_COMMITTED => mret true
      | CLOG_XID_STATUS_SUB_COMMITTED =>
          if TransactionIdPrecedes xid TransactionXmin then mret false
          else
            s ← tick;
            let (parentXid, status) := SubTransGetParent xid (sh_csnlog s) in
            if negb (TransactionIdIsValid parentXid)
            then mret (bool_decide (status = Some CLOG_XID_STATUS_COMMITTED))
            else DidCommit_rec fuel parentXid
      | _ => mret false
      end
  end.

Definition TransactionIdDidCommit (xid : Z) : M bool := DidCommit_rec (S (Z.to_nat xid)) xid.

Fixpoint DidAbort_rec (fuel : nat) (xid : Z) : M bool :=
  match fuel with
  | O => of_option None
  | S fuel =>
      xidstatus ← TransactionLogFetch xid;
      match xidstatus with
      | CLOG_XID_STATUS_ABORTED => mret true
      | CLOG_XID_STATUS_SUB_COMMITTED =>
          if TransactionIdPrecedes xid TransactionXmin then mret true
          else
            s ← tick;
            let (parentXid, status) := SubTransGetParent xid (sh_csnlog s) in
            if negb (TransactionIdIsValid parentXid)
            then mret (negb (bool_decide (status = Some CLOG_XID_STATUS_COMMITTED)))
            else DidAbort_rec fuel parentXid
      | _ => mret false
      end
  end.

Definition TransactionIdDidAbort (xid : Z) : M bool := DidAbort_rec (S (Z.to_nat xid)) xid.

Definition UHeapTransactionIdDidCommit (xid : Z) : M bool :=
  if xid =? FrozenTransactionId then mret true
  else if TransactionIdIsNormal xid && TransactionIdPrecedes xid globalRecycleXid then mret true
  else TransactionIdDidCommit xid.

Definition XACT_READ_UNCOMMITTED : Z := 0.

Definition LatestFetchTransactionIdDidAbort (xid : Z) : M bool :=
  t ← get_thrd;
  if negb (TransactionIdIsValid startupMaxXid) || TransactionIdPrecedes xid startupMaxXid
     || ((XACT_READ_UNCOMMITTED =? XactIsoLevel) || useLocalSnapshot)
  then mret true
  else if negb (TransactionIdEquals xid (latestFetchXid t)) then mret true
  else
    let xidstatus := latestFetchXidStatus t in
    if bool_decide (xidstatus = CLOG_XID_STATUS_ABORTED)
       || bool_decide (xidstatus = CLOG_XID_STATUS_SUB_COMMITTED)
    then mret true
    else if TransactionIdEquals xid (latestFetchCSNXid t) && COMMITSEQNO_IS_ABORTED (latestFetchCSN t)
    then mret true
    else mret false.

Definition LatestFetchCSNDidAbort (xid : Z) : M bool :=
  t ← get_thrd;
  if (XACT_READ_UNCOMMITTED =? XactIsoLevel) || useLocalSnapshot then mret true
  else if negb (TransactionIdEquals xid (latestFetchCSNXid t)) then mret true
  else if COMMITSEQNO_IS_ABORTED (latestFetchCSN t) then mret true
  else mret false.

(** [LatestTransactionStatusError]: an ERROR. *)
Definition LatestTransactionStatusError {A} : M A := raise ERRCODE_INTERNAL_ERROR.

Definition TransactionIdIsKnownCompleted (xid : Z) : M bool :=
  t ← get_thrd;
  mret (TransactionIdEquals xid (cachedFetchXid t) || TransactionIdEquals xid (cachedFetchCSNXid t)).

Definition TransactionIdGetCommitLSN (xid : Z) : M Z :=
  t ← get_thrd;
  if TransactionIdEquals xid (cachedFetchXid t) then mret (cachedCommitLSN t)
  else if negb (TransactionIdIsNormal xid) then mret InvalidXLogRecPtr
  else r ← CLogGetStatusM xid; mret (snd r).

Definition TransactionIdGetStatus (xid : Z) : M TransactionIdStatus :=
  csn ← TransactionIdGetCommitSeqNo xid false true true None;
  if COMMITSEQNO_IS_COMMITTED csn then mret XID_COMMITTED
  else if COMMITSEQNO_IS_ABORTED csn then mret XID_ABORTED
  else mret XID_INPROGRESS.

(** The writers: the states of the two logs others can see on the way. *)
Definition with_csnlog (l : Csnlog) (cs : list Clog) : list (Clog * Csnlog) :=
  (fun c => (c, l)) <$> cs.

Definition UpdateCSNLogAtTransactionEND (xid : Z) (subxids : list Z) (csn : Z)
    (isCommit : bool) (l : Csnlog) : result (list Csnlog) :=
  if TransactionIdIsNormal xid && isCommit
  then CSNLogSetCommitSeqNo xid subxids (Z.land csn (Z.lnot COMMITSEQNO_COMMIT_INPROGRESS)) l
  else Ok [].

Definition TransactionIdAsyncCommitTree (xid : Z) (xids : list Z) (lsn csn : Z)
    (logs : Clog * Csnlog) : result (list (Clog * Csnlog)) :=
  let (c, l) := logs in
  cs ← CLogSetTreeStatus xid xids CLOG_XID_STATUS_COMMITTED lsn c;
  let c' := List.last cs c in
  ls ← (if RecoveryInProgress then
          if 0 <? csn then CSNLogSetCommitSeqNo xid xids csn l else Ok []
        else UpdateCSNLogAtTransactionEND xid xids csn true l);
  Ok (with_csnlog l cs ++ ((fun l => (c', l)) <$> ls)).

Definition TransactionIdCommitTree (xid : Z) (xids : list Z) (csn : Z) (logs : Clog * Csnlog) :
  result (list (Clog * Csnlog)) :=
  TransactionIdAsyncCommitTree xid xids InvalidXLogRecPtr csn logs.

Definition TransactionIdAbortTree (xid : Z) (xids : list Z) (logs : Clog * Csnlog) :
  result (list (Clog * Csnlog)) :=
  let (c, l) := logs in
  cs ← CLogSetTreeStatus xid xids CLOG_XID_STATUS_ABORTED InvalidXLogRecPtr c;
  ls ← CSNLogSetCommitSeqNo xid xids COMMITSEQNO_ABORTED l;
  Ok (with_csnlog l cs ++ ((fun l => (List.last cs c, l)) <$> ls)).

(** ** Running transactions (procarray.cpp) *)

(** The loop over the entries of the other backends: the [needToSyncXid] of
    the entry that shows the transaction running, if there is one. *)
Fixpoint search_procs (bCareNextxid : bool) (xid : Z) (procs : list PGXACT) : option Z :=
  match procs with
  | [] => None
  | p :: rest =>
      let pxid :=
        if negb (TransactionIdIsValid (pgxact_xid p)) then
          if bCareNextxid && TransactionIdIsValid (pgxact_next_xid p)
          then Some (pgxact_next_xid p) else None
        else Some (pgxact_xid p) in
      match pxid with
      | None => search_procs bCareNextxid xid rest
      | Some pxid =>
          if TransactionIdEquals pxid xid then Some (needToSyncXid p)
          else if TransactionIdPrecedes xid pxid then search_procs bCareNextxid xid rest
          else if existsb (fun cxid => TransactionIdEquals cxid xid) (pgxact_subxids p)
          then Some (needToSyncXid p)
          else search_procs bCareNextxid xid rest
      end
  end.

(** [ProcXactHashTableLookup]: the hash table finds the entry by its xid. *)
Definition ProcXactHashTableLookup (xid : Z) (procs : list PGXACT) : option Z :=
  needToSyncXid <$> List.find (fun p => TransactionIdEquals (pgxact_xid p) xid) procs.

(** The answer and the new value of [*needSync], given its present value. *)
Definition TransactionIdIsInProgress_full (xid needSync : Z)
    (shortcutByRecentXmin bCareNextxid isTopXact checkLatestCompletedXid : bool) : M (bool * Z) :=
  if shortcutByRecentXmin && TransactionIdPrecedes xid globalRecycleXid then mret (false, needSync)
  else
    known ← TransactionIdIsKnownCompleted xid;
    if known : bool then mret (false, needSync)
    else
      current ← TransactionIdIsCurrentTransactionId xid;
      if current : bool then mret (true, needSync)
      else if negb RecoveryInProgress then
        s ← tick;
        if checkLatestCompletedXid && TransactionIdPrecedes (latestCompletedXid s) xid
        then mret (true, needSync)
        else
          let found := if isTopXact && negb bCareNextxid
                       then ProcXactHashTableLookup xid (sh_procs s)
                       else search_procs bCareNextxid xid (sh_procs s) in
          match found with
          | Some sync => mret (true, sync)
          | None => mret (false, needSync)
          end
      else
        csn ← TransactionIdGetCommitSeqNo xid false false true None;
        if COMMITSEQNO_IS_COMMITTED csn || COMMITSEQNO_IS_ABORTED csn
        then mret (false, needSync) else mret (true, needSync).

(** With the default arguments, and with [needSync] as visibility calls it. *)
Definition TransactionIdIsInProgress (xid : Z) : M bool :=
  fst <$> TransactionIdIsInProgress_full xid 0 false false false true.
Definition TransactionIdIsInProgress_sync (xid : Z) : M (bool * Z) :=
  TransactionIdIsInProgress_full xid 0 false false false false.

(** A transaction is not over while it is in the array or beyond
    [latestCompletedXid]. *)
Definition xact_active (s : Shared) (xid : Z) : bool :=
  TransactionIdPrecedes (latestCompletedXid s) xid
  || match search_procs false xid (sh_procs s) with Some _ => true | None => false end.

(** [SyncWaitXidEnd]: the lock on the page is given up, time passes until the
    transaction is over, the page is locked again, and the tuple is what it
    has become by then.  A transaction that does not end in time is an
    error. *)
Fixpoint wait_end (xid : Z) (now : Shared) (later : list Shared) : option (Shared * list Shared) :=
  match later with
  | [] => if xact_active now xid then None else Some (now, [])
  | s :: rest => if xact_active s xid then wait_end xid s rest else Some (s, rest)
  end.

Definition SyncWaitXidEnd (xid : Z) : M unit := fun w =>
  match wait_end xid (w_now w) (w_later w) with
  | None => Raise ERRCODE_LOCK_WAIT_TIMEOUT
  | Some (now, later) =>
      let w := set_time now later w in
      match sh_view now with
      | Some (page, tup) => Ret tt (set_tuple page tup w)
      | None => Ret tt w
      end
  end.

(** ** Multixacts *)

Definition MultiXactIdGetUpdateXid (xmax : Z) : Z := find_updater (GetMultiXactIdMembers xmax).

Fixpoint any_member (test : Z -> M bool) (members : list MultiXactMember) : M bool :=
  match members with
  | [] => mret false
  | m :: rest => b ← test (mxm_xid m); if b : bool then mret true else any_member test rest
  end.

Definition MultiXactIdIsRunning (multi : Z) : M bool :=
  let members := GetMultiXactIdMembers multi in
  if zlen members <=? 0 then mret false
  else
    current ← any_member TransactionIdIsCurrentTransactionId members;
    if current : bool then mret true
    else any_member TransactionIdIsInProgress members.

Definition HeapTupleHeaderMultiXactGetUpdateXid (page : HeapPage) (tup : HeapTupleHeaderData) : Z :=
  MultiXactIdGetUpdateXid (HeapTupleHeaderGetRawXmax page tup).
Definition HeapTupleMultiXactGetUpdateXid (htup : HeapTupleData) (tup : HeapTupleHeaderData) : Z :=
  MultiXactIdGetUpdateXid (HeapTupleGetRawXmax htup tup).

Definition HeapTupleHeaderGetUpdateXid (page : HeapPage) (tup : HeapTupleHeaderData) : Z :=
  if negb (flag (t_infomask tup) HEAP_XMAX_INVALID) && flag (t_infomask tup) HEAP_XMAX_IS_MULTI
     && negb (flag (t_infomask2 tup) HEAP_XMAX_LOCK_ONLY)
  then HeapTupleHeaderMultiXactGetUpdateXid page tup
  else HeapTupleHeaderGetRawXmax page tup.

(** ** Snapshots (snapmgr.cpp) *)

Definition TransactionIdIsPreparedAtSnapshot (xid : Z) (snapshot : SnapshotData) : bool :=
  existsb (fun x => xid =? x) (prepared_array snapshot).

(** The answer and whether [*sync] was set. *)
Definition IsXidVisibleInGtmLiteLocalSnapshot (xid : Z) (snapshot : SnapshotData)
    (hint_status : TransactionIdStatus) (xmin_equal_xmax : bool) : M (bool * bool) :=
  if bool_decide (hint_status = XID_ABORTED) || xmin_equal_xmax then mret (false, false)
  else if negb bInAbortTransaction && TransactionIdIsPreparedAtSnapshot xid snapshot then
    if bool_decide (hint_status = XID_COMMITTED) then mret (true, false)
    else if xc_maintenance_mode then mret (false, false)
    else
      SyncWaitXidEnd xid;;
      c ← TransactionIdDidCommit xid;
      mret (c, true)
  else mret (false, false).

(** [RecheckXidFinish] *)
Definition RecheckXidFinish (xid : Z) : M unit :=
  b ← TransactionIdIsInProgress xid;
  if b : bool then raise ERRCODE_INTERNAL_ERROR else mret tt.

(** [CSNLogSetCommitSeqNo(xid, 0, NULL, csn)] on the shared log: all later
    instants show the entry too. *)
Definition write_csn_entry (xid csn : Z) (s : Shared) : Shared :=
  {| sh_clog := sh_clog s;
     sh_csnlog := <[xid := csn]> (sh_csnlog s);
     sh_procs := sh_procs s;
     latestCompletedXid := latestCompletedXid s;
     sh_flushed := sh_flushed s;
     sh_view := sh_view s |}.

Definition CSNLogSetCommitSeqNoM (xid csn : Z) : M unit := fun w =>
  match CSNLogSetCommitSeqNo xid [] csn (sh_csnlog (w_now w)) with
  | Ereport c => Raise c
  | Ok ls =>
      if decide (List.last ls (sh_csnlog (w_now w)) = sh_csnlog (w_now w)) then Ret tt w
      else Ret tt (set_time (write_csn_entry xid csn (w_now w))
                     (write_csn_entry xid csn <$> w_later w) w)
  end.

(** The rounds of [loop:] in [XidVisibleInSnapshot]: at most two.  The result
    is the answer, [*hintstatus] and [*sync]. *)
Fixpoint XidVisible_loop (rounds : nat) (looped : bool) (xid : Z) (snapshot : SnapshotData)
    (sync : bool) : M (bool * TransactionIdStatus * bool) :=
  match rounds with
  | O => of_option None
  | S rounds =>
      csn ← TransactionIdGetCommitSeqNo xid false true false (Some snapshot);
      if COMMITSEQNO_IS_COMMITTED csn then
        mret (csn <? snapshotcsn snapshot, XID_COMMITTED, sync)
      else if COMMITSEQNO_IS_COMMITTING csn then
        if SS_STANDBY_MODE then raise ERRCODE_INTERNAL_ERROR
        else if looped then
          RecheckXidFinish xid;;
          CSNLogSetCommitSeqNoM xid COMMITSEQNO_ABORTED;;
          SetLatestFetchState xid COMMITSEQNO_ABORTED;;
          mret (false, XID_ABORTED, sync)
        else if negb (COMMITSEQNO_IS_SUBTRANS csn)
                && (snapshotcsn snapshot <=? GET_COMMITSEQNO csn)
        then mret (false, XID_INPROGRESS, sync)
        else if xc_maintenance_mode || bInAbortTransaction then mret (false, XID_INPROGRESS, sync)
        else
          let parentXid :=
            if COMMITSEQNO_IS_SUBTRANS csn then GET_PARENTXID csn else InvalidTransactionId in
          SyncWaitXidEnd (if TransactionIdIsValid parentXid then parentXid else xid);;
          XidVisible_loop rounds true xid snapshot true
      else mret (false, if csn =? COMMITSEQNO_ABORTED then XID_ABORTED else XID_INPROGRESS, sync)
  end.

Definition XidVisibleInSnapshot (xid : Z) (snapshot : SnapshotData) :
  M (bool * TransactionIdStatus * bool) :=
  XidVisible_loop 2 false xid snapshot false.

Definition UHeapXidVisibleInSnapshot (xid : Z) (snapshot : SnapshotData)
    (hintstatus : TransactionIdStatus) : M (bool * TransactionIdStatus * bool) :=
  if (negb GTM_LITE_MODE || gtm_local snapshot) && TransactionIdPrecedes xid (snap_xmin snapshot)
  then mret (true, hintstatus, false)
  else XidVisibleInSnapshot xid snapshot.

Definition XidVisibleInDecodeSnapshot (xid : Z) (snapshot : SnapshotData) :
  M (bool * TransactionIdStatus) :=
  csn ← TransactionIdGetCommitSeqNo xid false true false (Some snapshot);
  if COMMITSEQNO_IS_COMMITTED csn then mret (csn <? snapshotcsn snapshot, XID_COMMITTED)
  else mret (false, if csn =? COMMITSEQNO_ABORTED then XID_ABORTED else XID_INPROGRESS).

Fixpoint CommittedXidVisible_loop (rounds : nat) (looped : bool) (xid : Z)
    (snapshot : SnapshotData) : M bool :=
  match rounds with
  | O => of_option None
  | S rounds =>
      csn ← TransactionIdGetCommitSeqNo xid true true false (Some snapshot);
      if COMMITSEQNO_IS_COMMITTING csn then
        if SS_STANDBY_MODE then raise ERRCODE_INTERNAL_ERROR
        else if looped then
          CSNLogSetCommitSeqNoM xid COMMITSEQNO_FROZEN;;
          SetLatestFetchState xid COMMITSEQNO_FROZEN;;
          mret true
        else if negb (COMMITSEQNO_IS_SUBTRANS csn)
                && (snapshotcsn snapshot <=? GET_COMMITSEQNO csn)
        then mret false
        else if xc_maintenance_mode || bInAbortTransaction then mret false
        else
          let parentXid :=
            if COMMITSEQNO_IS_SUBTRANS csn then GET_PARENTXID csn else InvalidTransactionId in
          SyncWaitXidEnd (if TransactionIdIsValid parentXid then parentXid else xid);;
          CommittedXidVisible_loop rounds true xid snapshot
      else if negb (COMMITSEQNO_IS_COMMITTED csn) then mret true
      else mret (csn <? snapshotcsn snapshot)
  end.

Definition CommittedXidVisibleInSnapshot (xid : Z) (snapshot : SnapshotData) : M bool :=
  if (negb GTM_LITE_MODE || gtm_local snapshot) && TransactionIdPrecedes xid (snap_xmin snapshot)
  then mret true
  else CommittedXidVisible_loop 2 false xid snapshot.

Definition CommittedXidVisibleInDecodeSnapshot (xid : Z) (snapshot : SnapshotData) : M bool :=
  csn ← TransactionIdGetCommitSeqNo xid true true false (Some snapshot);
  if COMMITSEQNO_IS_COMMITTING csn then mret false
  else if negb (COMMITSEQNO_IS_COMMITTED csn) then mret true
  else mret (csn <? snapshotcsn snapshot).
End Transam.
