(* ===== verification/TransamSpec.v ===== *)
(** What the transaction status functions promise (the contracts of the
    definitions of Transam.v).

    The history of a run is described by its outcome: which transactions
    commit in the end ([oc]) and with which CSN ([ocsn]).  [consistent] says
    what every instant of the shared state has to do with the outcome (the
    commit protocol: commit log first, then CSN log, then the array of running
    transactions), [evolves] what can change between two instants, [snap_ok]
    what it means that a snapshot was taken before these instants.

    The contracts are stated with weakest preconditions and proved for every
    history: the answers of the functions are related to the outcome and to
    the instant of their last access. *)
From S2P Require Import Prelude Xid XactLog HeapTuple Transam.
From stdpp Require Import gmap sorting.
#[local] Open Scope Z_scope.

(** ** Weakest preconditions

    [wp m Q w]: run in [w], the computation [m] returns with [Q], or gives up
    waiting for another transaction; it reports no other error and never
    leaves its arrays. *)
Definition wp {A} (m : M A) (Q : A -> World -> Prop) (w : World) : Prop :=
  match m w with
  | Ret a w' => Q a w'
  | Raise c => c = ERRCODE_LOCK_WAIT_TIMEOUT
  | Undefined => False
  end.

Lemma wp_ret {A} (a : A) Q w : Q a w -> wp (mret a) Q w.
Proof. done. Qed.

Lemma wp_bind {A B} (m : M A) (k : A -> M B) Q w :
  wp m (fun a w' => wp (k a) Q w') w -> wp (m ≫= k) Q w.
Proof. unfold wp, mbind, M_bind. by destruct (m w). Qed.

Lemma wp_fmap {A B} (f : A -> B) (m : M A) Q w :
  wp m (fun a w' => Q (f a) w') w -> wp (f <$> m) Q w.
Proof. unfold wp, fmap, M_fmap. by destruct (m w). Qed.

Lemma wp_mono {A} (m : M A) (P Q : A -> World -> Prop) w :
  wp m P w -> (forall a w', P a w' -> Q a w') -> wp m Q w.
Proof. unfold wp. destruct (m w); auto. Qed.

Lemma wp_getw Q w : Q w w -> wp getw Q w.
Proof. done. Qed.

Lemma wp_modify f Q w : Q tt (f w) -> wp (modify f) Q w.
Proof. done. Qed.

Lemma wp_of_option {A} (o : option A) a Q w : o = Some a -> Q a w -> wp (of_option o) Q w.
Proof. intros ->. done. Qed.

(** ** The current transaction *)

Section Current.
Context {ses : Session}.

Definition state_has (xid : Z) (s : TransactionStateData) : bool :=
  negb (state_aborting s) && TransactionIdIsValid (transactionId s)
  && ((xid =? transactionId s) || existsb (Z.eqb xid) (childXids s)).

Definition is_current (xid : Z) : bool :=
  TransactionIdIsNormal xid && existsb (state_has xid) CurrentTransactionState.

(** The arrays of child xids are sorted. *)
Definition session_sorted : Prop :=
  Forall (fun s => StronglySorted Z.lt (childXids s)) CurrentTransactionState.

Lemma sorted_lt l i j x y : StronglySorted Z.lt l ->
  zlookup l i = Some x -> zlookup l j = Some y -> i < j -> x < y.
Proof.
  unfold zlookup. intros Hs. destruct (Z.leb_spec 0 i), (Z.leb_spec 0 j); try done.
  intros Hi Hj Hlt. assert (Z.to_nat i < Z.to_nat j)%nat as Hn by lia. revert Hi Hj Hn.
  generalize (Z.to_nat i) (Z.to_nat j). clear -Hs.
  induction Hs as [|z l Hs IH Hf]; intros i j Hi Hj Hn; [done|].
  destruct j as [|j]; [lia|]. destruct i as [|i]; simpl in *.
  - injection Hi as ->. rewrite list.Forall_forall in Hf. apply Hf. by eapply list_elem_of_lookup_2.
  - eapply IH; eauto. lia.
Qed.

Lemma search_childXids_spec fuel l xid low high :
  StronglySorted Z.lt l -> 0 <= low -> high < zlen l ->
  high - low + 1 < Z.of_nat fuel -> 0 < Z.of_nat fuel ->
  (forall i x, zlookup l i = Some x -> x = xid -> low <= i <= high) ->
  search_childXids fuel l xid low high = Some (existsb (Z.eqb xid) l).
Proof.
  intros Hs. revert low high. induction fuel as [|fuel IH]; intros low high Hlow Hhigh Hf Hf0 Hin; [lia|].
  cbn [search_childXids]. destruct (Z.leb_spec low high).
  - assert (Hmid : low <= low + Z.quot (high - low) 2 <= high) by zdiv_lia.
    set (middle := low + Z.quot (high - low) 2) in *.
    rewrite zlookup_in by lia. sbind. set (probe := znth l middle) in *.
    assert (Hp : zlookup l middle = Some probe) by (apply zlookup_in; lia).
    unfold TransactionIdEquals, TransactionIdPrecedes.
    destruct (Z.eqb_spec probe xid) as [Heq|Hne].
    + symmetry. f_equal. apply existsb_exists. exists probe. split; [|lia].
      apply list_elem_of_In. unfold zlookup in Hp. destruct (0 <=? middle); [|done].
      by eapply list_elem_of_lookup_2.
    + destruct (Z.ltb_spec probe xid); apply IH; try lia; intros i x Hx ->;
        specialize (Hin i xid Hx eq_refl).
      * destruct (Z.lt_trichotomy i middle) as [Hlt|[->|]]; [|congruence|lia].
        pose proof (sorted_lt l i middle xid probe Hs Hx Hp Hlt). lia.
      * destruct (Z.lt_trichotomy i middle) as [|[->|Hlt]]; [lia|congruence|].
        pose proof (sorted_lt l middle i probe xid Hs Hp Hx Hlt). lia.
  - symmetry. f_equal. destruct (existsb (Z.eqb xid) l) eqn:He; [|done]. exfalso.
    apply existsb_exists in He as [x [Hx ->%Z.eqb_eq]].
    apply list_elem_of_In, list_elem_of_lookup in Hx as [i Hi].
    specialize (Hin (Z.of_nat i) x). unfold zlookup in Hin.
    destruct (Z.leb_spec 0 (Z.of_nat i)); [|lia]. rewrite Nat2Z.id in Hin.
    specialize (Hin Hi eq_refl). lia.
Qed.

Lemma search_states_spec states xid :
  Forall (fun s => StronglySorted Z.lt (childXids s)) states ->
  search_states states xid = Some (existsb (state_has xid) states).
Proof.
  induction 1 as [|s states Hs _ IH]; [done|]. cbn [search_states existsb].
  unfold state_has at 1. destruct (state_aborting s); [done|]. cbn [negb andb].
  destruct (TransactionIdIsValid (transactionId s)); [|done]. cbn [negb andb].
  unfold TransactionIdEquals. destruct (xid =? transactionId s); [done|]. cbn [orb].
  rewrite (search_childXids_spec _ _ _ _ _ Hs); [|lia|lia|unfold zlen; lia|lia|].
  - sbind. by destruct (existsb (Z.eqb xid) (childXids s)).
  - intros i x Hx _. pose proof (zlookup_Some_range _ _ _ Hx). lia.
Qed.

Lemma wp_TransactionIdIsCurrentTransactionId xid Q w : session_sorted ->
  Q (is_current xid) w -> wp (TransactionIdIsCurrentTransactionId xid) Q w.
Proof.
  intros Hs HQ. unfold TransactionIdIsCurrentTransactionId, is_current in *.
  destruct (TransactionIdIsNormal xid); [|by apply wp_ret].
  eapply wp_of_option; [by apply search_states_spec|]. done.
Qed.
End Current.

(** ** Histories *)

(** The outcome of a history: does the transaction commit, with which CSN; is
    it marked sub-committed at some time; the top transaction a committing
    child points to (0: none). *)
Class History := {
  oc : Z -> bool;
  ocsn : Z -> Z;
  subcommits : Z -> bool;
  top_of : Z -> Z }.

Section History.
Context {bs : BlockSize} {ses : Session} {his : History}.

Abbreviation st_clog s x := (clog_status (sh_clog s) x).
Abbreviation st_csn s x := (csnlog_entry (sh_csnlog s) x).

(** The special transactions: bootstrap and frozen have committed, no other
    xid below the first normal one ever does. *)
Definition special_ok : Prop := forall x, TransactionIdIsNormal x = false ->
  if (x =? BootstrapTransactionId) || (x =? FrozenTransactionId)
  then oc x = true /\ ocsn x = COMMITSEQNO_FROZEN
  else oc x = false.

(** The final result of the transaction is in the commit log, or the CSN log
    shows the abort. *)
Definition recorded (s : Shared) (x : Z) : Prop :=
  st_clog s x = CLOG_XID_STATUS_COMMITTED \/ st_clog s x = CLOG_XID_STATUS_ABORTED
  \/ COMMITSEQNO_IS_ABORTED (st_csn s x) = true.

(** The transaction is over, as far as some observer can already tell. *)
Definition settled (s : Shared) (x : Z) : Prop :=
  TransactionIdIsNormal x = false \/ xact_active s x = false \/ recorded s x.

(** The transaction was started: it is in the array or not beyond
    [latestCompletedXid]. *)
Definition known (s : Shared) (x : Z) : Prop :=
  TransactionIdPrecedes (latestCompletedXid s) x = false
  \/ search_procs false x (sh_procs s) <> None.

(** One instant and the outcome. *)
Record consistent (s : Shared) : Prop := {
  c_special : forall x, TransactionIdIsNormal x = false -> xact_active s x = false;
  c_clog_commit : forall x, TransactionIdIsNormal x = true ->
    st_clog s x = CLOG_XID_STATUS_COMMITTED -> oc x = true;
  c_clog_abort : forall x, TransactionIdIsNormal x = true ->
    st_clog s x = CLOG_XID_STATUS_ABORTED -> oc x = false;
  (** the CSN is stored after the commit log was written *)
  c_csn_commit : forall x, TransactionIdIsNormal x = true ->
    COMMITSEQNO_IS_COMMITTED (st_csn s x) = true ->
    st_clog s x = CLOG_XID_STATUS_COMMITTED /\ st_csn s x = ocsn x;
  c_csn_abort : forall x, TransactionIdIsNormal x = true ->
    COMMITSEQNO_IS_ABORTED (st_csn s x) = true ->
    oc x = false
    /\ (st_clog s x = CLOG_XID_STATUS_ABORTED \/ xact_active s x = false);
  (** the CSN is announced in the CSN log before the commit log is written *)
  c_announced : forall x, TransactionIdIsNormal x = true ->
    st_clog s x = CLOG_XID_STATUS_COMMITTED ->
    COMMITSEQNO_IS_COMMITTED (st_csn s x) = true \/ COMMITSEQNO_IS_COMMITTING (st_csn s x) = true;
  (** a transaction leaves the array after both logs were written; one that
      crashed is in neither and did not commit *)
  c_done : forall x, TransactionIdIsNormal x = true -> is_current x = false ->
    xact_active s x = false -> oc x = true ->
    st_clog s x = CLOG_XID_STATUS_COMMITTED /\ COMMITSEQNO_IS_COMMITTED (st_csn s x) = true;
  (** only a transaction of before the last startup can have crashed without
      a trace *)
  c_crashed : forall x, TransactionIdIsNormal x = true -> is_current x = false ->
    TransactionIdPrecedes x startupMaxXid = false -> xact_active s x = false -> oc x = false ->
    st_clog s x <> CLOG_XID_STATUS_IN_PROGRESS;
  (** the current transaction has not begun to end *)
  c_current : forall x, is_current x = true ->
    st_clog s x = CLOG_XID_STATUS_IN_PROGRESS
    /\ COMMITSEQNO_IS_COMMITTED (st_csn s x) = false
    /\ COMMITSEQNO_IS_ABORTED (st_csn s x) = false
    /\ COMMITSEQNO_IS_COMMITTING (st_csn s x) = false;
  (** parent entries: parents have lower xids; a sub-committed child shares the
      outcome of its parent, and ends no later *)
  c_parent : forall x, TransactionIdIsNormal x = true ->
    COMMITSEQNO_IS_SUBTRANS (st_csn s x) = true ->
    let p := GET_PARENTXID (st_csn s x) in
    TransactionIdIsNormal p = true /\ p < x
    /\ (subcommits x = true -> oc x = oc p)
    /\ (xact_active s p = false -> xact_active s x = false);
  c_subcommitted : forall x, TransactionIdIsNormal x = true ->
    st_clog s x = CLOG_XID_STATUS_SUB_COMMITTED -> subcommits x = true;
  (** while the commit is in progress a child points to its top transaction *)
  c_top : forall x, TransactionIdIsNormal x = true ->
    COMMITSEQNO_IS_SUBTRANS (st_csn s x) = true -> COMMITSEQNO_IS_COMMITTING (st_csn s x) = true ->
    GET_PARENTXID (st_csn s x) = top_of x;
  c_top_csn : forall x, TransactionIdIsNormal x = true -> TransactionIdIsNormal (top_of x) = true ->
    oc x = oc (top_of x) /\ (oc x = true -> ocsn x = ocsn (top_of x)) /\ is_current x = false
    /\ COMMITSEQNO_IS_SUBTRANS (st_csn s (top_of x)) = false
    /\ (xact_active s (top_of x) = false -> xact_active s x = false)
    /\ (COMMITSEQNO_IS_COMMITTED (st_csn s (top_of x)) = true ->
        st_clog s x = CLOG_XID_STATUS_COMMITTED)
    /\ (COMMITSEQNO_IS_ABORTED (st_csn s (top_of x)) = true -> settled s x);
  (** an announced CSN is a lower bound of the final one *)
  c_committing : forall x, TransactionIdIsNormal x = true ->
    COMMITSEQNO_IS_COMMITTING (st_csn s x) = true -> COMMITSEQNO_IS_SUBTRANS (st_csn s x) = false ->
    oc x = true -> GET_COMMITSEQNO (st_csn s x) <= ocsn x;
  c_horizon : forall x, TransactionIdPrecedes x RecentXmin = true ->
    xact_active s x = false /\ is_current x = false }.

(** What time can change: nothing that is over becomes undone. *)
Record evolves (s s' : Shared) : Prop := {
  e_active : forall x, xact_active s x = false -> xact_active s' x = false;
  e_recorded : forall x, recorded s x -> recorded s' x;
  e_known : forall x, known s x -> known s' x }.

#[global] Instance evolves_preorder : PreOrder evolves.
Proof.
  split.
  - intros s. constructor; auto.
  - intros s1 s2 s3 H1 H2. constructor; intros x Hx.
    + by apply H2, H1.
    + by apply H2, H1.
    + by apply H2, H1.
Qed.

(** The snapshot was taken before the instant: what it counts as finished is
    over, and whoever has not begun to commit will get a later CSN. *)
Record snap_ok (snap : SnapshotData) (s : Shared) : Prop := {
  sn_csn : COMMITSEQNO_FROZEN < snapshotcsn snap;
  sn_xmin : forall x, TransactionIdIsNormal x = true ->
    TransactionIdPrecedes x (snap_xmin snap) = true ->
    xact_active s x = false /\ is_current x = false
    /\ (oc x = true -> ocsn x < snapshotcsn snap);
  sn_uncommitted : forall x, TransactionIdIsNormal x = true ->
    COMMITSEQNO_IS_COMMITTED (st_csn s x) = false -> COMMITSEQNO_IS_COMMITTING (st_csn s x) = false ->
    oc x = true -> snapshotcsn snap <= ocsn x }.

(** The snapshot sees the transaction. *)
Definition sees (snap : SnapshotData) (x : Z) : bool := oc x && (ocsn x <? snapshotcsn snap).

(** *** Tuples *)

Definition xmin_of (page : HeapPage) (tup : HeapTupleHeaderData) : Z :=
  HeapTupleHeaderGetXmin page tup.

(** The transaction that deleted or updated the tuple, if [t_xmax] is not just
    a locker. *)
Definition deleter (page : HeapPage) (tup : HeapTupleHeaderData) : option Z :=
  if HEAP_XMAX_IS_LOCKED_ONLY (t_infomask tup) (t_infomask2 tup) then None
  else if flag (t_infomask tup) HEAP_XMAX_IS_MULTI
  then Some (HeapTupleHeaderMultiXactGetUpdateXid page tup)
  else Some (HeapTupleHeaderGetXmax page tup).

Definition known_committed (s : Shared) (x : Z) : Prop :=
  oc x = true /\ settled s x /\ is_current x = false.
Definition known_aborted (s : Shared) (x : Z) : Prop :=
  oc x = false /\ settled s x /\ is_current x = false.

(** The hint bits tell the truth, the xids of the tuple were assigned, and a
    tuple of the current transaction was deleted by nobody else. *)
Record tuple_ok (s : Shared) (page : HeapPage) (tup : HeapTupleHeaderData) : Prop := {
  t_known : known s (xmin_of page tup);
  t_known_xmax : flag (t_infomask tup) HEAP_XMAX_IS_MULTI = false ->
    known s (HeapTupleHeaderGetXmax page tup);
  t_hint_xmin_committed : HeapTupleHeaderXminCommitted tup = true ->
    HeapTupleHeaderXminFrozen tup = false -> known_committed s (xmin_of page tup);
  t_hint_xmin_invalid : HeapTupleHeaderXminInvalid tup = true ->
    known_aborted s (xmin_of page tup);
  t_hint_xmax_committed : forall d, flag (t_infomask tup) HEAP_XMAX_COMMITTED = true ->
    deleter page tup = Some d -> known_committed s d;
  t_hint_xmax_invalid : forall d, flag (t_infomask tup) HEAP_XMAX_INVALID = true ->
    deleter page tup = Some d -> known_aborted s d;
  t_own : forall d, HeapTupleHeaderXminCommitted tup = false ->
    is_current (xmin_of page tup) = true -> deleter page tup = Some d ->
    is_current d = true \/ known_aborted s d }.

(** *** The invariant of a run *)

(** The caches hold only final answers. *)
Record cache_ok (t : Thrd) (s : Shared) : Prop := {
  k_clog : TransactionIdIsNormal (cachedFetchXid t) = true ->
    recorded s (cachedFetchXid t)
    /\ ((cachedFetchXidStatus t = CLOG_XID_STATUS_COMMITTED /\ oc (cachedFetchXid t) = true)
        \/ (cachedFetchXidStatus t = CLOG_XID_STATUS_ABORTED /\ oc (cachedFetchXid t) = false));
  k_clog_special : TransactionIdIsNormal (cachedFetchXid t) = false ->
    cachedFetchXid t = InvalidTransactionId
    /\ cachedFetchXidStatus t = CLOG_XID_STATUS_IN_PROGRESS;
  k_csn : TransactionIdIsNormal (cachedFetchCSNXid t) = true ->
    is_current (cachedFetchCSNXid t) = false
    /\ settled s (cachedFetchCSNXid t)
    /\ ((COMMITSEQNO_IS_COMMITTED (cachedFetchCSN t) = true
         /\ oc (cachedFetchCSNXid t) = true
         /\ (cachedFetchCSN t = COMMITSEQNO_FROZEN
             \/ cachedFetchCSN t = ocsn (cachedFetchCSNXid t)))
        \/ (cachedFetchCSN t = COMMITSEQNO_ABORTED /\ oc (cachedFetchCSNXid t) = false));
  k_csn_special : TransactionIdIsNormal (cachedFetchCSNXid t) = false ->
    cachedFetchCSNXid t = InvalidTransactionId /\ cachedFetchCSN t = InvalidCommitSeqNo }.

(** Every instant of the run, now and later, is consistent, evolves from the
    ones before, and shows a tuple that is in order. *)
Record history_ok (P : Shared -> Prop) (now : Shared) (later : list Shared) : Prop := {
  h_all : Forall (fun s => consistent s /\ P s
    /\ (forall page tup, sh_view s = Some (page, tup) -> tuple_ok s page tup)) (now :: later);
  h_sorted : StronglySorted evolves (now :: later) }.

(** [P] is what the caller further knows of all instants: the snapshot it
    holds. *)
Record Inv (P : Shared -> Prop) (w : World) : Prop := {
  i_history : history_ok P (w_now w) (w_later w);
  i_cache : cache_ok (w_thrd w) (w_now w);
  i_tuple : tuple_ok (w_now w) (w_page w) (w_tuple w) }.

(** What the tuple is now and may become. *)
Definition views (w : World) : list (option (HeapPage * HeapTupleHeaderData)) :=
  sh_view <$> (w_now w :: w_later w).

(** [frame P w w']: time has passed and the caches have changed, nothing else. *)
Record frame (P : Shared -> Prop) (w w' : World) : Prop := {
  f_inv : Inv P w';
  f_evolves : evolves (w_now w) (w_now w');
  f_views : views w' `suffix_of` views w;
  f_page : w_page w' = w_page w;
  f_tuple : w_tuple w' = w_tuple w;
  f_htup : w_htup w' = w_htup w;
  f_dirty : w_dirty w' = w_dirty w;
  f_out : w_out_xmin w' = w_out_xmin w /\ w_out_xmax w' = w_out_xmax w;
  f_write : w_cur_write w' = w_cur_write w }.

(** The settings under which the contracts hold: a primary in normal
    operation. *)
Record session_ok : Prop := {
  s_special : special_ok;
  s_sorted : session_sorted;
  s_recovery : RecoveryInProgress = false;
  s_dr : IS_DISASTER_RECOVER_MODE = false;
  s_gtm : GTM_LITE_MODE = false;
  s_standby : SS_STANDBY_MODE = false;
  s_roach : IsRoachStandbyCluster = false;
  s_local : useLocalSnapshot = false;
  s_maintenance : xc_maintenance_mode = false;
  s_abort : bInAbortTransaction = false;
  s_startup : startupMaxXid = InvalidTransactionId \/ TransactionIdIsNormal startupMaxXid = true }.
End History.

(** ** Monotonicity *)

Section Facts.
Context {bs : BlockSize} {ses : Session} {his : History}.

Lemma settled_mono s s' x : evolves s s' -> settled s x -> settled s' x.
Proof.
  intros He [Hn|[Ha|Hr]]; [by left|right; left; by apply He|right; right; by apply He].
Qed.

Lemma known_committed_mono s s' x : evolves s s' -> known_committed s x -> known_committed s' x.
Proof. intros He (H1 & H2 & H3). split_and!; [done|by eapply settled_mono|done]. Qed.

Lemma known_aborted_mono s s' x : evolves s s' -> known_aborted s x -> known_aborted s' x.
Proof. intros He (H1 & H2 & H3). split_and!; [done|by eapply settled_mono|done]. Qed.

Lemma tuple_ok_mono s s' page tup : evolves s s' -> tuple_ok s page tup -> tuple_ok s' page tup.
Proof.
  intros He H. constructor.
  - apply He, H.
  - intros Hm. by apply He, H.
  - intros. eapply known_committed_mono; [done|]. by apply H.
  - intros. eapply known_aborted_mono; [done|]. by apply H.
  - intros. eapply known_committed_mono; [done|]. by eapply H.
  - intros. eapply known_aborted_mono; [done|]. by eapply H.
  - intros d H1 H2 H3. destruct (t_own _ _ _ H d H1 H2 H3) as [?|?]; [by left|right].
    by eapply known_aborted_mono.
Qed.

Lemma recorded_commit s x : consistent s -> TransactionIdIsNormal x = true ->
  recorded s x -> oc x = true -> clog_status (sh_clog s) x = CLOG_XID_STATUS_COMMITTED.
Proof.
  intros Hc Hn [H|[H|H]] Ho; [done| |].
  - by rewrite (c_clog_abort s Hc x Hn H) in Ho.
  - destruct (c_csn_abort s Hc x Hn H) as [H' _]. by rewrite H' in Ho.
Qed.

Lemma settled_commit s x : consistent s -> TransactionIdIsNormal x = true ->
  is_current x = false -> settled s x -> oc x = true ->
  clog_status (sh_clog s) x = CLOG_XID_STATUS_COMMITTED.
Proof.
  intros Hc Hn Hcur [H|[H|H]] Ho; [congruence| |by apply recorded_commit].
  by apply (c_done s Hc x Hn Hcur H Ho).
Qed.

Lemma recorded_not_current s x : consistent s -> recorded s x -> is_current x = false.
Proof.
  intros Hc Hr. destruct (is_current x) eqn:Hcur; [|done]. exfalso.
  destruct (c_current s Hc x Hcur) as (H1 & H2 & H3 & H4).
  destruct Hr as [H|[H|H]]; congruence.
Qed.

Lemma current_normal x : is_current x = true -> TransactionIdIsNormal x = true.
Proof. by intros [? _]%andb_true_iff. Qed.

Lemma special_not_current x : TransactionIdIsNormal x = false -> is_current x = false.
Proof. intros H. unfold is_current. by rewrite H. Qed.

Lemma cache_ok_mono t s s' : evolves s s' -> cache_ok t s -> cache_ok t s'.
Proof.
  intros He H. constructor; intros Hn.
  - destruct (k_clog t s H Hn) as [H1 H2]. split; [by apply He|done].
  - by apply (k_clog_special t s H).
  - destruct (k_csn t s H Hn) as (H1 & H2 & H3). split_and!; [done|by eapply settled_mono|done].
  - by apply (k_csn_special t s H).
Qed.

(** ** The invariant *)

Lemma Inv_now P w : Inv P w -> consistent (w_now w) /\ P (w_now w).
Proof. intros [[H _] _ _]. apply Forall_cons_1 in H as [(H1 & H2 & _) _]. done. Qed.

Lemma frame_refl P w : Inv P w -> frame P w w.
Proof. intros H. constructor; try done. Qed.

Lemma frame_trans P w1 w2 w3 : frame P w1 w2 -> frame P w2 w3 -> frame P w1 w3.
Proof.
  intros H1 H2. constructor.
  - apply H2.
  - etrans; [apply H1|apply H2].
  - etrans; [apply H2|apply H1].
  - by rewrite (f_page _ _ _ H2), (f_page _ _ _ H1).
  - by rewrite (f_tuple _ _ _ H2), (f_tuple _ _ _ H1).
  - by rewrite (f_htup _ _ _ H2), (f_htup _ _ _ H1).
  - by rewrite (f_dirty _ _ _ H2), (f_dirty _ _ _ H1).
  - destruct (f_out _ _ _ H2) as [-> ->]. apply H1.
  - by rewrite (f_write _ _ _ H2), (f_write _ _ _ H1).
Qed.

(** Time moves on to a later instant of the history. *)
Lemma Inv_time P w s later :
  Inv P w -> w_later w = s :: later -> frame P w (set_time s later w).
Proof.
  intros [[Hall Hs] Hc Ht] Hl. rewrite Hl in *.
  inversion Hs as [|? ? Hs' Hf]; subst. apply Forall_cons_1 in Hall as [_ Hall].
  assert (He : evolves (w_now w) s) by (by apply Forall_cons_1 in Hf as [? _]).
  constructor; try done; [constructor; simpl; [by constructor| |]|].
  - by eapply cache_ok_mono.
  - by eapply tuple_ok_mono.
  - unfold views. rewrite Hl. simpl. by apply suffix_cons_r.
Qed.

Lemma wp_tick P Q w :
  Inv P w -> (forall w', frame P w w' -> w_thrd w' = w_thrd w -> Q (w_now w') w') -> wp tick Q w.
Proof.
  intros Hi HQ. unfold wp, tick. destruct (w_later w) as [|s later] eqn:Hl.
  - apply HQ; [by apply frame_refl|done].
  - apply (HQ (set_time s later w)); [by apply Inv_time|done].
Qed.

(** Changing the caches only. *)
Lemma Inv_thrd P w t : Inv P w -> cache_ok t (w_now w) -> frame P w (set_thrd t w).
Proof. intros Hi Hc. constructor; try done. destruct Hi. by constructor. Qed.

Lemma wp_get_thrd Q w : Q (w_thrd w) w -> wp get_thrd Q w.
Proof. done. Qed.

Context (P : Shared -> Prop).

(** *** The commit log *)

Lemma wp_CLogGetStatusM xid Q w : Inv P w ->
  (forall w' lsn, frame P w w' -> w_thrd w' = w_thrd w ->
     Q (clog_status (sh_clog (w_now w')) xid, lsn) w') ->
  wp (CLogGetStatusM xid) Q w.
Proof.
  intros Hi HQ. unfold CLogGetStatusM, wp, mbind, M_bind, tick.
  destruct (w_later w) as [|s later] eqn:Hl.
  - specialize (HQ w (snd (CLogGetStatus xid (sh_clog (w_now w)))) (frame_refl P w Hi) eq_refl). done.
  - specialize (HQ (set_time s later w) (snd (CLogGetStatus xid (sh_clog s)))
      (Inv_time P w s later Hi Hl) eq_refl). done.
Qed.

(** The status fetched, from the cache or the log, agrees with the log as far
    as final results go; the "latest" fields remember the answer. *)
Definition fetched (xid : Z) (st : CLogXidStatus) (w' : World) : Prop :=
  (st = CLOG_XID_STATUS_COMMITTED -> oc xid = true)
  /\ (st = CLOG_XID_STATUS_ABORTED -> oc xid = false)
  /\ (st = CLOG_XID_STATUS_IN_PROGRESS \/ st = CLOG_XID_STATUS_SUB_COMMITTED ->
        (TransactionIdIsNormal xid = true /\ clog_status (sh_clog (w_now w')) xid = st)
        \/ (xid = InvalidTransactionId /\ st = CLOG_XID_STATUS_IN_PROGRESS))
  /\ (TransactionIdIsNormal xid = true ->
        latestFetchXid (w_thrd w') = xid /\ latestFetchXidStatus (w_thrd w') = st).

Lemma wp_TransactionLogFetch xid Q w : special_ok -> Inv P w ->
  (forall st w', frame P w w' -> fetched xid st w' -> Q st w') ->
  wp (TransactionLogFetch xid) Q w.
Proof.
  intros Hsp Hi HQ. unfold TransactionLogFetch. apply wp_bind, wp_get_thrd.
  unfold TransactionIdEquals at 1. destruct (Z.eqb_spec xid (cachedFetchXid (w_thrd w))) as [Heq|Hne].
  - apply wp_bind, wp_modify, wp_ret. apply HQ.
    + apply Inv_thrd; [done|]. pose proof (i_cache _ _ Hi) as Hc. constructor; apply Hc.
    + pose proof (i_cache _ _ Hi) as Hc. destruct (TransactionIdIsNormal xid) eqn:Hn.
      * destruct (k_clog _ _ Hc) as [_ Hk]; [by rewrite <- Heq|]. rewrite <- Heq in Hk.
        unfold fetched. destruct Hk as [[-> Ho]|[-> Ho]]; (split; [done|]); (split; [done|]);
          (split; [by intros [?|?]|done]).
      * destruct (k_clog_special _ _ Hc) as [H1 H2]; [by rewrite <- Heq|].
        rewrite H2, Heq, H1. split_and!; try done. by right.
  - destruct (TransactionIdIsNormal xid) eqn:Hn; cbn [negb].
    + apply wp_bind, wp_CLogGetStatusM; [done|]. intros w1 lsn Hf Ht.
      destruct (Inv_now P w1) as [Hcons _]; [apply Hf|].
      set (st := clog_status (sh_clog (w_now w1)) xid).
      assert (Hset : forall t, cache_ok t (w_now w1) ->
        latestFetchXid t = xid -> latestFetchXidStatus t = st ->
        Q st (set_thrd t w1)).
      { intros t Hc H1 H2. apply HQ.
        - eapply frame_trans; [exact Hf|]. apply Inv_thrd; [apply Hf|done].
        - split_and!; [|auto..].
          + by apply (c_clog_commit _ Hcons).
          + by apply (c_clog_abort _ Hcons). }
      pose proof (i_cache _ _ (f_inv _ _ _ Hf)) as Hc.
      assert (Hfin : st = CLOG_XID_STATUS_COMMITTED \/ st = CLOG_XID_STATUS_ABORTED ->
        cache_ok (MkThrd xid st lsn (cachedFetchCSNXid (w_thrd w1)) (cachedFetchCSN (w_thrd w1))
          xid st (latestFetchCSNXid (w_thrd w1)) (latestFetchCSN (w_thrd w1))) (w_now w1)).
      { intros Hst. constructor; cbn [cachedFetchXid cachedFetchXidStatus cachedFetchCSNXid cachedFetchCSN];
          try apply Hc; [|congruence]. intros _. split; [destruct Hst; [by left|by right; left]|].
        destruct Hst as [Hst|Hst]; [left|right]; (split; [done|]).
        - by apply (c_clog_commit _ Hcons).
        - by apply (c_clog_abort _ Hcons). }
      assert (Hno : cache_ok (MkThrd (cachedFetchXid (w_thrd w1)) (cachedFetchXidStatus (w_thrd w1))
          (cachedCommitLSN (w_thrd w1)) (cachedFetchCSNXid (w_thrd w1)) (cachedFetchCSN (w_thrd w1))
          xid st (latestFetchCSNXid (w_thrd w1)) (latestFetchCSN (w_thrd w1))) (w_now w1)).
      { constructor; apply Hc. }
      destruct (decide (st = CLOG_XID_STATUS_COMMITTED \/ st = CLOG_XID_STATUS_ABORTED)) as [Hst|Hst].
      * replace (negb _ && negb _) with true by (by destruct Hst as [->| ->]).
        apply wp_bind, wp_modify, wp_bind, wp_modify, wp_ret, (Hset _ (Hfin Hst)); done.
      * replace (negb _ && negb _) with false by (destruct st; [done|tauto|tauto|done]).
        apply wp_bind, wp_ret, wp_bind, wp_modify, wp_ret, (Hset _ Hno); done.
    + assert (Hl : forall st w', w' = set_thrd (MkThrd (cachedFetchXid (w_thrd w))
          (cachedFetchXidStatus (w_thrd w)) (cachedCommitLSN (w_thrd w))
          (cachedFetchCSNXid (w_thrd w)) (cachedFetchCSN (w_thrd w)) InvalidTransactionId
          (latestFetchXidStatus (w_thrd w)) (latestFetchCSNXid (w_thrd w))
          (latestFetchCSN (w_thrd w))) w ->
        (if (xid =? BootstrapTransactionId) || (xid =? FrozenTransactionId)
         then st = CLOG_XID_STATUS_COMMITTED else st = CLOG_XID_STATUS_ABORTED) -> Q st w').
      { intros st w' -> Hst. apply HQ.
        - apply Inv_thrd; [done|]. pose proof (i_cache _ _ Hi) as Hc. constructor; apply Hc.
        - specialize (Hsp xid Hn). unfold fetched. rewrite Hn.
          destruct (_ || _); subst st.
          + split; [intros _; apply Hsp|]. split; [done|]. split; [by intros [?|?]|done].
          + split; [done|]. split; [intros _; apply Hsp|]. split; [by intros [?|?]|done]. }
      apply wp_bind, wp_modify. unfold TransactionIdEquals.
      destruct (xid =? BootstrapTransactionId); [by apply wp_ret, Hl|].
      destruct (xid =? FrozenTransactionId); by apply wp_ret, Hl.
Qed.

(** What a negative answer of [TransactionIdDidCommit] leaves behind: if the
    transaction itself was the last one looked up, then its entry showed an
    abort, an unfinished tree, or a crash. *)
Definition latest_shows_abort (xid : Z) (w : World) : Prop :=
  latestFetchXid (w_thrd w) = xid ->
  latestFetchXidStatus (w_thrd w) = CLOG_XID_STATUS_ABORTED
  \/ latestFetchXidStatus (w_thrd w) = CLOG_XID_STATUS_SUB_COMMITTED
  \/ TransactionIdPrecedes xid startupMaxXid = true
  \/ TransactionIdIsNormal xid = false.

Lemma parent_entry s x p st : consistent s -> TransactionIdIsNormal x = true ->
  SubTransGetParent x (sh_csnlog s) = (p, st) ->
  (TransactionIdIsValid p = true /\ TransactionIdIsNormal p = true /\ p < x
   /\ (subcommits x = true -> oc x = oc p) /\ st = None)
  \/ (TransactionIdIsValid p = false /\
      (st = Some CLOG_XID_STATUS_COMMITTED -> oc x = true)).
Proof.
  intros Hc Hn. unfold SubTransGetParent, CSNLogGetCommitSeqNo. rewrite InternalGet_normal by done.
  destruct (COMMITSEQNO_IS_SUBTRANS _) eqn:Hs.
  - intros [= <- <-]. left. destruct (c_parent s Hc x Hn Hs) as (H1 & H2 & H3 & _).
    split_and!; try done. unfold TransactionIdIsValid, InvalidTransactionId.
    apply Z.leb_le in H1. unfold FirstNormalTransactionId in H1.
    destruct (Z.eqb_spec (GET_PARENTXID (csnlog_entry (sh_csnlog s) x)) 0); [lia|done].
  - intros [= <- <-]. right. split; [done|].
    destruct (COMMITSEQNO_IS_ABORTED _); [done|].
    destruct (COMMITSEQNO_IS_COMMITTED _) eqn:Hcm; [|done]. intros _.
    destruct (c_csn_commit s Hc x Hn Hcm) as [H1 _]. by apply (c_clog_commit s Hc).
Qed.

(** A transaction that is over and whose entry is still "in progress" crashed
    before the last startup. *)
Lemma crashed_entry s x : consistent s -> TransactionIdIsNormal x = true ->
  is_current x = false -> settled s x ->
  clog_status (sh_clog s) x = CLOG_XID_STATUS_IN_PROGRESS ->
  oc x = false /\ TransactionIdPrecedes x startupMaxXid = true.
Proof.
  intros Hc Hn Hcur Hset Hst.
  assert (Ho : oc x = false).
  { destruct (oc x) eqn:Ho; [|done]. by rewrite (settled_commit s x Hc Hn Hcur Hset Ho) in Hst. }
  split; [done|]. destruct (TransactionIdPrecedes x startupMaxXid) eqn:Hp; [done|].
  exfalso. refine (c_crashed s Hc x Hn Hcur Hp _ Ho Hst).
  destruct Hset as [H|[H|[H|[H|H]]]]; try congruence.
  destruct (c_csn_abort s Hc x Hn H) as [_ [?|?]]; congruence.
Qed.

(** The recursion of [DidCommit]: a positive answer is right at any time, a
    negative one if the transaction was over at the start. *)
Lemma wp_DidCommit_rec fuel xid Q w : special_ok -> Inv P w ->
  (Z.to_nat xid < fuel)%nat ->
  (forall b w', frame P w w' ->
     (b = true -> oc xid = true) ->
     (b = false -> is_current xid = false -> settled (w_now w) xid ->
        oc xid = false /\ latest_shows_abort xid w') ->
     (TransactionIdIsNormal xid = true ->
        latestFetchXid (w_thrd w') <= xid) ->
     Q b w') ->
  wp (DidCommit_rec fuel xid) Q w.
Proof.
  intros Hsp. revert xid Q w. induction fuel as [|fuel IH]; intros xid Q w Hi Hf HQ; [lia|].
  cbn [DidCommit_rec]. apply wp_bind, wp_TransactionLogFetch; [done|done|].
  intros st w1 Hf1 (Hcm & Hab & Hun & Hlat).
  assert (Hi1 : Inv P w1) by apply Hf1. destruct (Inv_now P w1 Hi1) as [Hcons _].
  assert (Hle : TransactionIdIsNormal xid = true -> latestFetchXid (w_thrd w1) <= xid).
  { intros Hn. destruct (Hlat Hn) as [-> _]. lia. }
  assert (Hsp0 : TransactionIdIsNormal xid = false -> latest_shows_abort xid w1).
  { intros Hn _. by right; right; right. }
  assert (Hneg : st <> CLOG_XID_STATUS_COMMITTED -> is_current xid = false ->
    settled (w_now w) xid -> oc xid = false /\ latest_shows_abort xid w1).
  { intros Hst Hcur Hset. eapply settled_mono in Hset; [|apply Hf1].
    destruct (TransactionIdIsNormal xid) eqn:Hn.
    - destruct (Hlat eq_refl) as [_ Hls]. destruct st; [|done| |].
      + destruct Hun as [[_ Hun]|[-> _]]; [by left| |done].
        destruct (crashed_entry _ xid Hcons Hn Hcur Hset Hun) as [? ?].
        split; [done|]. intros _. by right; right; left.
      + split; [auto|]. intros _. by left.
      + destruct Hun as [[_ Hun]|[_ ?]]; [by right| |done]. split; [|intros _; by right; left].
        destruct (oc xid) eqn:Ho; [|done].
        by rewrite (settled_commit _ xid Hcons Hn Hcur Hset Ho) in Hun.
    - split; [|auto]. assert (Hz : st = CLOG_XID_STATUS_ABORTED \/ xid = InvalidTransactionId).
      { destruct st; [|done|by left|]; right; destruct Hun as [[? _]|[? _]]; auto; congruence. }
      destruct Hz as [Hz| ->]; [auto|]. apply (Hsp InvalidTransactionId Hn). }
  destruct st.
  - apply wp_ret, HQ; [done|done|intros _; by apply Hneg|done].
  - apply wp_ret, HQ; [done|by intros _; apply Hcm|done|done].
  - apply wp_ret, HQ; [done|done|intros _; by apply Hneg|done].
  - destruct (TransactionIdPrecedes xid TransactionXmin).
    { apply wp_ret, HQ; [done|done|intros _; by apply Hneg|done]. }
    apply wp_bind, (wp_tick P); [done|]. intros w2 Hf2 Ht2. assert (Hi2 : Inv P w2) by apply Hf2.
    destruct (Inv_now P w2 Hi2) as [Hcons2 _].
    pose proof (frame_trans _ _ _ _ Hf1 Hf2) as Hf12.
    assert (Hsub : TransactionIdIsNormal xid = true
      /\ clog_status (sh_clog (w_now w1)) xid = CLOG_XID_STATUS_SUB_COMMITTED).
    { destruct Hun as [?|[_ ?]]; [by right|done|done]. }
    destruct Hsub as [Hn Hsub]. pose proof (c_subcommitted _ Hcons xid Hn Hsub) as Hsc.
    assert (Hneg2 : is_current xid = false -> settled (w_now w) xid ->
      oc xid = false /\ latest_shows_abort xid w2).
    { unfold latest_shows_abort. rewrite Ht2. by apply Hneg. }
    destruct (SubTransGetParent xid (sh_csnlog (w_now w2))) as [p pst] eqn:Hpe.
    apply (parent_entry _ _ _ _ Hcons2 Hn) in Hpe
      as [(Hv & Hpn & Hlt & Hoc & ->)|[Hv Hoc]]; rewrite Hv; cbn [negb].
    + assert (0 <= p) by (apply Z.leb_le in Hpn; unfold FirstNormalTransactionId in Hpn; lia).
      apply IH; [done|lia|]. intros b w3 Hf3 Hb1 Hb2 Hb3.
      apply HQ; [by eapply frame_trans|rewrite Hoc by done; done| |specialize (Hb3 Hpn); lia].
      intros -> Hcur Hset. split; [by apply Hneg|]. intros Hl. specialize (Hb3 Hpn). lia.
    + apply wp_ret, HQ; [done| | |by rewrite Ht2].
      * intros Hb%bool_decide_eq_true. auto.
      * intros _. by apply Hneg2.
Qed.

Lemma wp_TransactionIdDidCommit xid Q w : special_ok -> Inv P w ->
  (forall b w', frame P w w' ->
     (b = true -> oc xid = true) ->
     (b = false -> is_current xid = false -> settled (w_now w) xid ->
        oc xid = false /\ latest_shows_abort xid w') -> Q b w') ->
  wp (TransactionIdDidCommit xid) Q w.
Proof.
  intros Hsp Hi HQ. apply wp_DidCommit_rec; [done|done|lia|]. intros b w' Hf H1 H2 _. auto.
Qed.

(** After a negative answer the check of the latest status finds the abort. *)
Lemma wp_LatestFetchTransactionIdDidAbort xid Q w :
  latest_shows_abort xid w -> (TransactionIdIsNormal xid = false ->
    TransactionIdPrecedes xid startupMaxXid = true \/ TransactionIdIsValid startupMaxXid = false) ->
  Q true w -> wp (LatestFetchTransactionIdDidAbort xid) Q w.
Proof.
  intros Hl Hsp HQ. unfold LatestFetchTransactionIdDidAbort. apply wp_bind, wp_get_thrd.
  destruct (negb (TransactionIdIsValid startupMaxXid)) eqn:Hv; [by apply wp_ret|].
  destruct (TransactionIdPrecedes xid startupMaxXid) eqn:Hp; [by apply wp_ret|].
  cbn [orb]. destruct (_ || _); [by apply wp_ret|].
  unfold TransactionIdEquals. destruct (Z.eqb_spec xid (latestFetchXid (w_thrd w))) as [He|];
    cbn [negb]; [|by apply wp_ret].
  destruct Hl as [->|[->|[?|Hn]]]; [done|by apply wp_ret|by apply wp_ret|congruence|].
  destruct (Hsp Hn) as [?|Hv']; [congruence|]. by rewrite Hv' in Hv.
Qed.
(** *** CSNs *)

(** A final answer about a transaction. *)
Definition final_csn (xid v : Z) (s : Shared) : Prop :=
  (COMMITSEQNO_IS_COMMITTED v = true /\ known_committed s xid
   /\ (v = COMMITSEQNO_FROZEN \/ v = ocsn xid))
  \/ (v = COMMITSEQNO_ABORTED /\ known_aborted s xid).

Definition latest_csn_is (xid v : Z) (w : World) : Prop :=
  TransactionIdIsNormal xid = true ->
  latestFetchCSNXid (w_thrd w) = xid /\ latestFetchCSN (w_thrd w) = v.

Lemma final_csn_cache t s : cache_ok t s -> TransactionIdIsNormal (cachedFetchCSNXid t) = true ->
  final_csn (cachedFetchCSNXid t) (cachedFetchCSN t) s.
Proof.
  intros Hc Hn. destruct (k_csn t s Hc Hn) as (H1 & H2 & [(H3 & H4 & H5)|[H3 H4]]); [left|right];
    split_and!; done.
Qed.

Lemma wp_FetchCSNFromCache xid snap isMvcc Q w : GTM_LITE_MODE = false -> Inv P w ->
  (forall w', frame P w w' -> Q InvalidCommitSeqNo w') ->
  (forall v w', frame P w w' -> TransactionIdIsNormal xid = true ->
     final_csn xid v (w_now w') -> latest_csn_is xid v w' ->
     (forall s, snap = Some s -> IsMVCCSnapshot s = true -> isMvcc = true ->
        v = COMMITSEQNO_FROZEN -> TransactionIdPrecedes xid (snap_xmin s) = true) ->
     Q v w') ->
  wp (FetchCSNFromCache xid snap isMvcc) Q w.
Proof.
  intros Hg Hi H0 H1. unfold FetchCSNFromCache. apply wp_bind, wp_get_thrd.
  set (t := w_thrd w). assert (Hc : cache_ok t (w_now w)) by apply Hi.
  unfold TransactionIdEquals. destruct (Z.eqb_spec xid (cachedFetchCSNXid t)) as [Heq|]; cbn [negb];
    [|by apply wp_ret, H0, frame_refl].
  assert (Huse : (forall s, snap = Some s -> IsMVCCSnapshot s = true -> isMvcc = true ->
        cachedFetchCSN t = COMMITSEQNO_FROZEN -> TransactionIdPrecedes xid (snap_xmin s) = true) ->
    wp (SetLatestFetchState (cachedFetchCSNXid t) (cachedFetchCSN t);; mret (cachedFetchCSN t)) Q w).
  { intros Hfr. apply wp_bind, wp_modify, wp_ret.
    set (w' := set_thrd _ w).
    assert (Hf : frame P w w').
    { apply Inv_thrd; [done|]. constructor; apply Hc. }
    destruct (TransactionIdIsNormal xid) eqn:Hn.
    - apply H1; [done|done| | |done].
      + rewrite Heq. apply final_csn_cache; [done|by rewrite <- Heq].
      + intros _. by split.
    - destruct (k_csn_special t _ Hc) as [_ ->]; [by rewrite <- Heq|]. auto. }
  destruct snap as [s|]; [|by apply Huse].
  destruct (_ || _); [by apply wp_ret, H0, frame_refl|].
  rewrite Hg, orb_false_r. destruct isMvcc; cbn [negb]; [|by apply Huse].
  destruct (IsMVCCSnapshot s && negb (TransactionIdPrecedes xid (snap_xmin s))
    && (cachedFetchCSN t =? COMMITSEQNO_FROZEN)) eqn:Hskip; [by apply wp_ret, H0, frame_refl|].
  apply Huse. intros s' [= <-] Hm _ Hfz. rewrite Hm, Hfz in Hskip. simpl in Hskip.
  by destruct (TransactionIdPrecedes xid (snap_xmin s)).
Qed.

(** Storing an answer in the latest-answer fields, and in the cache if it is
    final. *)
Lemma wp_remember xid v Q w :
  Inv P w -> TransactionIdIsNormal xid = true ->
  (COMMITSEQNO_IS_COMMITTED v || COMMITSEQNO_IS_ABORTED v = true -> final_csn xid v (w_now w)) ->
  (forall w', frame P w w' -> w_now w' = w_now w -> latest_csn_is xid v w' -> Q v w') ->
  wp ((if COMMITSEQNO_IS_COMMITTED v || COMMITSEQNO_IS_ABORTED v
       then set_cached_csn xid v else mret tt);; set_latest_csn xid v;; mret v) Q w.
Proof.
  intros Hi Hn Hfin HQ. pose proof (i_cache _ _ Hi) as Hc.
  destruct (_ || _).
  - apply wp_bind, wp_modify, wp_bind, wp_modify, wp_ret, HQ; [|done|by intros _].
    apply (Inv_thrd P w); [done|].
    constructor; cbn [cachedFetchXid cachedFetchXidStatus cachedFetchCSNXid cachedFetchCSN];
      try apply Hc; [|intros Hn'; simpl in *; congruence].
    intros _. destruct (Hfin eq_refl) as [(H1 & (H2 & H3 & H4) & H5)|[H1 (H2 & H3 & H4)]];
      split_and!; try done; [left|right]; done.
  - apply wp_bind, wp_ret, wp_bind, wp_modify, wp_ret, HQ; [|done|by intros _].
    apply (Inv_thrd P w); [done|]. constructor; apply Hc.
Qed.

(** The answer of the commit log for a transaction that is over. *)
Lemma wp_GetCSNByCLog xid isCommit Q w : Inv P w -> TransactionIdIsNormal xid = true ->
  xact_active (w_now w) xid = false -> is_current xid = false ->
  (isCommit = true -> oc xid = true) ->
  (forall v w', frame P w w' -> final_csn xid v (w_now w') ->
     (COMMITSEQNO_IS_COMMITTED v = true -> v = COMMITSEQNO_FROZEN) -> Q v w') ->
  wp (GetCSNByCLog xid isCommit) Q w.
Proof.
  intros Hi Hn Ha Hcur Hic HQ. unfold GetCSNByCLog, final_csn, known_committed, known_aborted in *.
  destruct isCommit.
  - apply wp_ret, HQ; [by apply frame_refl| |done]. left. split_and!; [done|auto|by right; left|done|by left].
  - apply wp_bind, wp_CLogGetStatusM; [done|]. intros w1 lsn Hf _. cbn [fst].
    assert (Hset : settled (w_now w1) xid).
    { eapply settled_mono; [apply Hf|]. by right; left. }
    destruct (Inv_now P w1) as [Hcons _]; [apply Hf|].
    destruct (bool_decide _) eqn:Hb.
    + apply bool_decide_eq_true in Hb. apply wp_ret, HQ; [done| |done]. left.
      split_and!; [done|by apply (c_clog_commit _ Hcons)|done|done|by left].
    + apply bool_decide_eq_false in Hb. apply wp_ret, HQ; [done| |done]. right.
      split_and!; [done| |done|done].
      destruct (oc xid) eqn:Ho; [|done]. exfalso. apply Hb. by apply settled_commit.
Qed.

(** A final entry of the CSN log. *)
Lemma final_entry s xid : consistent s -> TransactionIdIsNormal xid = true ->
  COMMITSEQNO_IS_COMMITTED (csnlog_entry (sh_csnlog s) xid)
    || COMMITSEQNO_IS_ABORTED (csnlog_entry (sh_csnlog s) xid) = true ->
  final_csn xid (csnlog_entry (sh_csnlog s) xid) s.
Proof.
  intros Hc Hn [H|H]%orb_true_iff; unfold final_csn, known_committed, known_aborted.
  - left. destruct (c_csn_commit s Hc xid Hn H) as [H1 H2].
    assert (Hr : recorded s xid) by (by left).
    split_and!; [done|by apply (c_clog_commit s Hc)|by right; right| |by right].
    by eapply recorded_not_current.
  - right. assert (Hr : recorded s xid) by (by right; right).
    destruct (c_csn_abort s Hc xid Hn H) as [H1 _].
    split_and!; [by apply aborted_spec|done|by right; right|by eapply recorded_not_current].
Qed.

(** With an MVCC snapshot: a final answer that compares with the CSN of the
    snapshot as the outcome does, or the entry of the log as it is. *)
Definition snap_answer (snap : SnapshotData) (xid v : Z) (s : Shared) : Prop :=
  (final_csn xid v s /\ (COMMITSEQNO_IS_COMMITTED v = true -> (v <? snapshotcsn snap) = sees snap xid))
  \/ (TransactionIdIsNormal xid = true /\ v = csnlog_entry (sh_csnlog s) xid
      /\ COMMITSEQNO_IS_COMMITTED v = false /\ COMMITSEQNO_IS_ABORTED v = false).

Lemma sees_of snap s xid v : snap_ok snap s -> oc xid = true ->
  v = ocsn xid \/ (v = COMMITSEQNO_FROZEN /\ TransactionIdIsNormal xid = true
                   /\ TransactionIdPrecedes xid (snap_xmin snap) = true) ->
  (v <? snapshotcsn snap) = sees snap xid.
Proof.
  intros Hsn Ho [->|(-> & Hn & Hp)]; unfold sees; rewrite Ho; [done|]. cbn [andb].
  destruct (sn_xmin _ _ Hsn xid Hn Hp) as (_ & _ & H). specialize (H Ho).
  pose proof (sn_csn _ _ Hsn). destruct (Z.ltb_spec COMMITSEQNO_FROZEN (snapshotcsn snap)); [|lia].
  destruct (Z.ltb_spec (ocsn xid) (snapshotcsn snap)); [done|lia].
Qed.

Lemma InvalidCommitSeqNo_final xid v s : final_csn xid v s -> (v =? InvalidCommitSeqNo) = false.
Proof.
  intros [[H _]|[-> _]]; [|done]. apply Z.eqb_neq. by apply committed_nonzero.
Qed.

(** The answer for an xid that is not normal. *)
Lemma special_final xid s : special_ok -> TransactionIdIsNormal xid = false ->
  if TransactionIdEquals xid BootstrapTransactionId || TransactionIdEquals xid FrozenTransactionId
  then final_csn xid COMMITSEQNO_FROZEN s /\ ocsn xid = COMMITSEQNO_FROZEN
  else final_csn xid COMMITSEQNO_ABORTED s.
Proof.
  intros Hsp Hn. specialize (Hsp xid Hn). unfold TransactionIdEquals.
  destruct (_ || _); [destruct Hsp as [H1 H2]; split; [left|done]|right];
    unfold known_committed, known_aborted; rewrite (special_not_current xid Hn);
    (split_and!; try done; first [by left|by left]).
Qed.

(** With an MVCC snapshot that is not a decoding one. *)
Lemma wp_TransactionIdGetCommitSeqNo_snap xid isCommit snap Q w : session_ok -> Inv P w ->
  (forall s, P s -> snap_ok snap s) -> IsMVCCSnapshot snap = true ->
  satisfies snap <> SNAPSHOT_DECODE_MVCC ->
  (isCommit = true -> oc xid = true) ->
  (forall v w', frame P w w' -> snap_answer snap xid v (w_now w') -> latest_csn_is xid v w' ->
     Q v w') ->
  wp (TransactionIdGetCommitSeqNo xid isCommit true false (Some snap)) Q w.
Proof.
  intros Hses Hi HP Hm Hd Hic HQ. unfold TransactionIdGetCommitSeqNo.
  apply wp_bind, wp_FetchCSNFromCache; [apply Hses|done| |].
  2:{ intros v w1 Hf Hn Hfin Hl Hfz. rewrite (InvalidCommitSeqNo_final _ _ _ Hfin). apply wp_ret, HQ; [done| |done].
      left. split; [done|]. intros Hcm. destruct Hfin as [(_ & (Ho & _ & _) & Hv)|[-> _]]; [|done].
      destruct (Inv_now P w1) as [_ HPw]; [apply Hf|].
      apply (sees_of snap (w_now w1)); [by apply HP|done|].
      destruct Hv as [Hv|Hv]; [|by left]. right. split_and!; [done|done|by apply Hfz]. }
  intros w1 Hf1. cbn [Z.eqb negb]. assert (Hi1 : Inv P w1) by apply Hf1.
  destruct (Inv_now P w1 Hi1) as [_ HP1].
  change (InvalidCommitSeqNo =? InvalidCommitSeqNo) with true. cbn [negb].
  destruct (TransactionIdIsNormal xid) eqn:Hn; cbn [negb].
  2:{ apply wp_bind, wp_get_thrd, wp_bind, wp_modify.
      assert (Hf2 : forall t, cache_ok t (w_now w1) -> frame P w (set_thrd t w1)).
      { intros t Ht. eapply frame_trans; [exact Hf1|]. by apply Inv_thrd. }
      assert (Hc : forall a b, cache_ok (MkThrd (cachedFetchXid (w_thrd w1))
        (cachedFetchXidStatus (w_thrd w1)) (cachedCommitLSN (w_thrd w1))
        (cachedFetchCSNXid (w_thrd w1)) (cachedFetchCSN (w_thrd w1)) (latestFetchXid (w_thrd w1))
        (latestFetchXidStatus (w_thrd w1)) a b) (w_now w1)).
      { intros a b. pose proof (i_cache _ _ Hi1) as Hc. constructor; apply Hc. }
      pose proof (special_final xid (w_now w1) (s_special Hses) Hn) as Hsf.
      destruct (_ || _); apply wp_ret, HQ; try (by apply Hf2, Hc); try (intros ?; congruence).
      - left. destruct Hsf as [Hsf Hoc]. split; [done|]. intros _.
        destruct Hsf as [(_ & (Ho & _) & _)|[? _]]; [|done].
        apply (sees_of snap (w_now w1)); [by apply HP|done|by left].
      - left. split; [done|done]. }
  match goal with |- wp (mbind _ ?m) _ _ => set (result := m) end.
  assert (Hres : forall Q', (forall v w2, frame P w w2 -> snap_answer snap xid v (w_now w2) -> Q' v w2) ->
    wp result Q' w1).
  { intros Q' HQ'. unfold result. destruct (_ && _) eqn:Hlow.
    - unfold csn_horizon in Hlow. rewrite (bool_decide_false _ Hd), (s_gtm Hses), Hm in Hlow.
      simpl in Hlow. apply andb_true_iff in Hlow as [_ Hlow].
      destruct (sn_xmin _ _ (HP _ HP1) xid Hn Hlow) as (Ha & Hcur & Hcsn).
      apply wp_GetCSNByCLog; [done|done|done|done|done|]. intros v w2 Hf2 Hfin Hv.
      apply HQ'; [by eapply frame_trans|]. left. split; [done|]. intros Hcm. specialize (Hv Hcm) as ->.
      destruct Hfin as [(_ & (Ho & _) & _)|[? _]]; [|done].
      destruct (Inv_now P w2) as [_ HP2]; [apply Hf2|].
      apply (sees_of snap (w_now w2)); [by apply HP|done|by right].
    - apply wp_bind, (wp_tick P); [done|]. intros w2 Hf2 _. apply wp_ret, HQ'; [by eapply frame_trans|].
      unfold CSNLogGetCommitSeqNo. rewrite InternalGet_normal by done.
      destruct (Inv_now P w2) as [Hcons HP2]; [apply Hf2|].
      destruct (COMMITSEQNO_IS_COMMITTED (csnlog_entry (sh_csnlog (w_now w2)) xid)
        || COMMITSEQNO_IS_ABORTED (csnlog_entry (sh_csnlog (w_now w2)) xid)) eqn:Hfin.
      + left. pose proof (final_entry _ _ Hcons Hn Hfin) as He. split; [done|]. intros Hcm.
        destruct (c_csn_commit _ Hcons xid Hn Hcm) as [_ Hv].
        destruct He as [(_ & (Ho & _) & _)|[He _]]; [|by rewrite He in Hcm].
        apply (sees_of snap (w_now w2)); [by apply HP|done|by left].
      + right. apply orb_false_iff in Hfin as [? ?]. done. }
  apply wp_bind, Hres. intros v w2 Hf2 Hsa.
  apply wp_remember; [apply Hf2|done| |].
  - intros Hv. destruct Hsa as [[? _]|(_ & _ & H1 & H2)]; [done|].
    destruct (COMMITSEQNO_IS_COMMITTED v), (COMMITSEQNO_IS_ABORTED v); done.
  - intros w3 Hf3 Hnow Hl. apply HQ; [by eapply frame_trans|by rewrite Hnow|done].
Qed.

(** *** Running transactions *)

Lemma known_completed_settled t s xid : consistent s -> cache_ok t s ->
  TransactionIdEquals xid (cachedFetchXid t) || TransactionIdEquals xid (cachedFetchCSNXid t) = true ->
  settled s xid /\ is_current xid = false.
Proof.
  intros Hcons Hc. destruct (TransactionIdIsNormal xid) eqn:Hn.
  2:{ intros _. split; [by left|by apply special_not_current]. }
  unfold TransactionIdEquals. intros [Heq%Z.eqb_eq|Heq%Z.eqb_eq]%orb_true_iff; subst xid.
  - destruct (k_clog _ _ Hc Hn) as [Hr _]. split; [by right; right|by eapply recorded_not_current].
  - destruct (k_csn _ _ Hc Hn) as (H1 & H2 & _). done.
Qed.

(** The answer of the test for running transactions is right at the instant
    of its only access. *)
Lemma wp_TransactionIdIsInProgress_full xid latest Q w : session_ok -> Inv P w ->
  (latest = true \/ known (w_now w) xid) ->
  (forall b sync w', frame P w w' ->
     (b = true -> is_current xid = true \/ xact_active (w_now w') xid = true) ->
     (b = false -> is_current xid = false /\ settled (w_now w') xid) -> Q (b, sync) w') ->
  wp (TransactionIdIsInProgress_full xid 0 false false false latest) Q w.
Proof.
  intros Hses Hi Hkn HQ. unfold TransactionIdIsInProgress_full, TransactionIdIsKnownCompleted.
  cbn [andb]. apply wp_bind, wp_bind, wp_get_thrd, wp_ret.
  destruct (Inv_now P w Hi) as [Hcons _].
  destruct (_ || _) eqn:Hk.
  { apply wp_ret, HQ; [by apply frame_refl|done|]. intros _.
    destruct (known_completed_settled _ _ _ Hcons (i_cache _ _ Hi) Hk). done. }
  apply wp_bind, wp_TransactionIdIsCurrentTransactionId; [apply Hses|].
  destruct (is_current xid) eqn:Hcur; [apply wp_ret, HQ; [by apply frame_refl|by left|done]|].
  rewrite (s_recovery Hses). cbn [negb]. apply wp_bind, (wp_tick P); [done|]. intros w1 Hf _.
  cbn [andb]. unfold xact_active in HQ.
  destruct (latest && TransactionIdPrecedes (latestCompletedXid (w_now w1)) xid) eqn:Hl.
  { apply andb_true_iff in Hl as [_ Hl]. apply wp_ret, HQ; [done| |done]. intros _. right. by rewrite Hl. }
  destruct (search_procs false xid (sh_procs (w_now w1))) eqn:Hs.
  { apply wp_ret, HQ; [done| |done]. intros _. right. by rewrite Hs, orb_true_r. }
  apply wp_ret, HQ; [done|done|]. intros _. split; [done|]. right; left. unfold xact_active.
  rewrite Hs, orb_false_r. destruct Hkn as [-> |Hkn]; [by simpl in Hl|].
  apply (e_known _ _ (f_evolves _ _ _ Hf)) in Hkn as [Hkn|Hkn]; [done|congruence].
Qed.

Lemma wp_TransactionIdIsInProgress xid Q w : session_ok -> Inv P w ->
  (forall b w', frame P w w' ->
     (b = true -> is_current xid = true \/ xact_active (w_now w') xid = true) ->
     (b = false -> is_current xid = false /\ settled (w_now w') xid) -> Q b w') ->
  wp (TransactionIdIsInProgress xid) Q w.
Proof.
  intros Hses Hi HQ. unfold TransactionIdIsInProgress.
  apply wp_fmap, wp_TransactionIdIsInProgress_full; [done|done|by left|]. intros b sync w'. apply HQ.
Qed.

Lemma wp_any_member (test : Z -> M bool) (Ob : World -> World -> Z -> bool -> Prop) members Q w :
  (forall x w0 Q', Inv P w0 ->
     (forall b w', frame P w0 w' -> Ob w0 w' x b -> Q' b w') -> wp (test x) Q' w0) ->
  (forall w0 w1 w2 x b, frame P w0 w1 -> Ob w0 w1 x b -> frame P w1 w2 -> Ob w0 w2 x b) ->
  (forall w0 w1 w2 x b, frame P w0 w1 -> Ob w1 w2 x b -> frame P w1 w2 -> Ob w0 w2 x b) ->
  Inv P w ->
  (forall b w', frame P w w' ->
     (b = true -> exists m, m ∈ members /\ Ob w w' (mxm_xid m) true) ->
     (b = false -> forall m, m ∈ members -> Ob w w' (mxm_xid m) false) -> Q b w') ->
  wp (any_member test members) Q w.
Proof.
  intros Htest Hlater Hearlier. revert Q w. induction members as [|m ms IH]; intros Q w Hi HQ.
  - apply wp_ret, HQ; [by apply frame_refl|done|]. intros _ m Hm. by apply list.not_elem_of_nil in Hm.
  - cbn [any_member]. apply wp_bind, Htest; [done|]. intros b w1 Hf1 Hb. destruct b.
    + apply wp_ret, HQ; [done| |done]. intros _. exists m. split; [by left|done].
    + apply IH; [apply Hf1|]. intros b w2 Hf2 H1 H2.
      apply HQ; [by eapply frame_trans| |].
      * intros ->. destruct (H1 eq_refl) as (m' & Hm' & Ho). exists m'. split; [by right|].
        by eapply Hearlier.
      * intros ->. intros m' [->|Hm']%elem_of_cons; [by eapply Hlater|].
        eapply Hearlier; [done| |done]. by apply H2.
Qed.

(** A member runs: it is the current transaction, or was found running. *)
Definition ran (w w' : World) (x : Z) : Prop :=
  is_current x = true
  \/ exists s, evolves (w_now w) s /\ evolves s (w_now w') /\ consistent s /\ xact_active s x = true.

Lemma wp_MultiXactIdIsRunning multi Q w : session_ok -> Inv P w ->
  (forall b w', frame P w w' ->
     (b = true -> exists m, m ∈ GetMultiXactIdMembers multi /\ ran w w' (mxm_xid m)) ->
     (b = false -> forall m, m ∈ GetMultiXactIdMembers multi ->
        is_current (mxm_xid m) = false /\ settled (w_now w') (mxm_xid m)) -> Q b w') ->
  wp (MultiXactIdIsRunning multi) Q w.
Proof.
  intros Hses Hi HQ. unfold MultiXactIdIsRunning.
  destruct (Z.leb_spec (zlen (GetMultiXactIdMembers multi)) 0) as [Hz|_].
  { apply wp_ret, HQ; [by apply frame_refl|done|]. intros _ m Hm.
    destruct (GetMultiXactIdMembers multi); [by apply list.not_elem_of_nil in Hm|].
    unfold zlen in Hz. simpl in Hz. lia. }
  apply wp_bind, (wp_any_member _ (fun _ _ x b => is_current x = b)); [|done|done|done|].
  { intros x w0 Q' Hi0 HQ'. apply wp_TransactionIdIsCurrentTransactionId; [apply Hses|].
    apply HQ'; [by apply frame_refl|done]. }
  intros b w1 Hf1 H1 H2. destruct b.
  { apply wp_ret, HQ; [done| |done]. intros _. destruct (H1 eq_refl) as (m & Hm & Hc).
    exists m. split; [done|by left]. }
  apply (wp_any_member _ (fun w w' x b => if b then ran w w' x
    else is_current x = false /\ settled (w_now w') x)); [| | |apply Hf1|].
  - intros x w0 Q' Hi0 HQ'. apply wp_TransactionIdIsInProgress; [done|done|].
    intros b w' Hf Ht Hff. apply HQ'; [done|]. destruct b; [|auto].
    destruct (Ht eq_refl) as [?|?]; [by left|right]. exists (w_now w').
    split_and!; [apply Hf|done|by destruct (Inv_now P w' (f_inv _ _ _ Hf))|done].
  - intros w0 w1' w2 x b Hf H Hf'. destruct b.
    + destruct H as [?|(s & ? & ? & ? & ?)]; [by left|right]. exists s. split_and!; [done| |done..].
      etrans; [done|apply Hf'].
    + destruct H as [? Hs]. split; [done|]. eapply settled_mono; [apply Hf'|done].
  - intros w0 w1' w2 x b Hf H Hf'. destruct b; [|done].
    destruct H as [?|(s & ? & ? & ? & ?)]; [by left|right]. exists s. split_and!; [|done..].
    etrans; [apply Hf|done].
  - intros b w2 Hf2 H3 H4. apply HQ; [by eapply frame_trans| |].
    + intros ->. destruct (H3 eq_refl) as (m & Hm & [?|(s & ? & ? & ? & ?)]); exists m; (split; [done|]);
        [by left|right]. exists s. split_and!; [|done..]. etrans; [apply Hf1|done].
    + intros -> m Hm. apply (H4 eq_refl m Hm).
Qed.

(** *** The status of a transaction *)

(** A final answer, or the transaction is not seen to have ended. *)
Definition nest_answer (xid v : Z) (s : Shared) : Prop :=
  final_csn xid v s \/ (COMMITSEQNO_IS_COMMITTED v = false /\ COMMITSEQNO_IS_ABORTED v = false).

Lemma nest_entry s xid v : consistent s -> TransactionIdIsNormal xid = true ->
  v = csnlog_entry (sh_csnlog s) xid -> nest_answer xid v s.
Proof.
  intros Hc Hn ->.
  destruct (COMMITSEQNO_IS_COMMITTED (csnlog_entry (sh_csnlog s) xid)
    || COMMITSEQNO_IS_ABORTED (csnlog_entry (sh_csnlog s) xid)) eqn:Hf.
  - left. by apply final_entry.
  - right. by apply orb_false_iff in Hf.
Qed.

(** The entry of the top transaction answers for the child. *)
Lemma nest_top s xid v : consistent s -> TransactionIdIsNormal xid = true ->
  TransactionIdIsNormal (top_of xid) = true ->
  v = csnlog_entry (sh_csnlog s) (top_of xid) -> nest_answer xid v s.
Proof.
  intros Hc Hn Ht ->. destruct (c_top_csn s Hc xid Hn Ht) as (Ho & Hv & Hcur & _ & _ & Hcm & Hab).
  destruct (nest_entry s (top_of xid) _ Hc Ht eq_refl) as [[(H1 & (H2 & _ & _) & H3)|[H1 (H2 & _)]]|?];
    [| |by right]; left; [left|right]; unfold known_committed, known_aborted.
  - rewrite Ho, Hv by congruence. split_and!; try done. right; right; left. by apply Hcm.
  - rewrite Ho. split_and!; try done. apply Hab. by rewrite H1.
Qed.

Lemma recursive_plain fuel xid s later :
  COMMITSEQNO_IS_SUBTRANS (InternalGetCommitSeqNo xid (sh_csnlog s))
    && COMMITSEQNO_IS_COMMITTING (InternalGetCommitSeqNo xid (sh_csnlog s)) = false ->
  RecursiveGetCommitSeqNo sh_csnlog (S fuel) xid s later
  = Some (InternalGetCommitSeqNo xid (sh_csnlog s), (s, later)).
Proof. intros H. cbn [RecursiveGetCommitSeqNo]. by rewrite H. Qed.

Lemma wp_of_recursion v now later Q w r : r = Some (v, (now, later)) -> Q v (set_time now later w) ->
  wp (A := Z) (r ← of_option r; let '(csn, (now, later)) := r in modify (set_time now later);; mret csn) Q w.
Proof. intros -> HQ. done. Qed.

Lemma set_time_same w : set_time (w_now w) (w_later w) w = w.
Proof. by destruct w. Qed.

Lemma wp_CSNLogGetNestCommitSeqNo xid Q w : Inv P w -> TransactionIdIsNormal xid = true ->
  (forall v w', frame P w w' -> nest_answer xid v (w_now w') -> Q v w') ->
  wp (CSNLogGetNestCommitSeqNo xid) Q w.
Proof.
  intros Hi Hn HQ. unfold CSNLogGetNestCommitSeqNo. apply wp_bind, (wp_tick P); [done|].
  intros w1 Hf1 _. apply wp_bind, wp_getw. assert (Hi1 : Inv P w1) by apply Hf1.
  destruct (Inv_now P w1 Hi1) as [Hcons _].
  assert (Hx : 3 <= xid) by (apply Z.leb_le in Hn; done).
  destruct (Z.to_nat xid) as [|fuel] eqn:Hfuel; [lia|].
  destruct (COMMITSEQNO_IS_SUBTRANS (InternalGetCommitSeqNo xid (sh_csnlog (w_now w1)))
    && COMMITSEQNO_IS_COMMITTING (InternalGetCommitSeqNo xid (sh_csnlog (w_now w1)))) eqn:Hsub.
  2:{ eapply wp_of_recursion; [by apply recursive_plain|]. rewrite set_time_same.
      apply HQ; [done|]. rewrite InternalGet_normal by done. by apply nest_entry. }
  rewrite InternalGet_normal in Hsub by done. apply andb_true_iff in Hsub as [Hs1 Hs2].
  pose proof (c_top _ Hcons xid Hn Hs1 Hs2) as Htop.
  destruct (c_parent _ Hcons xid Hn Hs1) as [Hp _]. rewrite Htop in Hp.
  assert (Hnext : forall s later, frame P w1 (set_time s later w1) ->
    RecursiveGetCommitSeqNo sh_csnlog (S (S fuel)) xid (w_now w1) (w_later w1)
      = RecursiveGetCommitSeqNo sh_csnlog (S fuel) (top_of xid) s later ->
    wp (A := Z) (r ← of_option (RecursiveGetCommitSeqNo sh_csnlog (S (S fuel)) xid (w_now w1) (w_later w1));
        let '(csn, (now, later)) := r in modify (set_time now later);; mret csn) Q w1).
  { intros s later Hf Hr. destruct (Inv_now P _ (f_inv _ _ _ Hf)) as [Hcons' _]. simpl in Hcons'.
    rewrite Hr. destruct (c_top_csn s Hcons' xid Hn Hp) as (_ & _ & _ & Hns & _).
    eapply wp_of_recursion; [apply recursive_plain; rewrite InternalGet_normal by done; by rewrite Hns|].
    apply HQ; [by eapply frame_trans|]. rewrite InternalGet_normal by done.
    by apply nest_top. }
  destruct (w_later w1) as [|s later] eqn:Hl.
  - apply (Hnext (w_now w1) []).
    + rewrite <- Hl, set_time_same. by apply frame_refl.
    + cbn [RecursiveGetCommitSeqNo]. rewrite InternalGet_normal by done. by rewrite Hs1, Hs2, Htop.
  - apply (Hnext s later).
    + by apply Inv_time.
    + cbn [RecursiveGetCommitSeqNo]. rewrite (InternalGet_normal xid) by done.
      by rewrite Hs1, Hs2, Htop.
Qed.

Lemma wp_TransactionIdGetStatus xid Q w : session_ok -> Inv P w ->
  (forall st w', frame P w w' ->
     (st = XID_COMMITTED -> known_committed (w_now w') xid) ->
     (st = XID_ABORTED -> known_aborted (w_now w') xid /\
        latest_csn_is xid COMMITSEQNO_ABORTED w') -> Q st w') ->
  wp (TransactionIdGetStatus xid) Q w.
Proof.
  intros Hses Hi HQ. unfold TransactionIdGetStatus.
  assert (Hend : forall v w', frame P w w' -> nest_answer xid v (w_now w') -> latest_csn_is xid v w' ->
    wp (A := TransactionIdStatus) (if COMMITSEQNO_IS_COMMITTED v then mret XID_COMMITTED
        else if COMMITSEQNO_IS_ABORTED v then mret XID_ABORTED else mret XID_INPROGRESS) Q w').
  { intros v w' Hf Hna Hl.
    destruct (COMMITSEQNO_IS_COMMITTED v) eqn:Hcm; [|destruct (COMMITSEQNO_IS_ABORTED v) eqn:Hab];
      apply wp_ret, HQ; try done; intros _;
      destruct Hna as [[(H1 & H2 & _)|[-> H2]]|[? ?]]; first [done|congruence]. }
  apply wp_bind. unfold TransactionIdGetCommitSeqNo.
  apply wp_bind, wp_FetchCSNFromCache; [apply Hses|done| |].
  2:{ intros v w1 Hf Hn Hfin Hl _. rewrite (InvalidCommitSeqNo_final _ _ _ Hfin).
      apply wp_ret, Hend; [done|by left|done]. }
  intros w1 Hf1. change (InvalidCommitSeqNo =? InvalidCommitSeqNo) with true. cbn [negb].
  assert (Hi1 : Inv P w1) by apply Hf1.
  destruct (TransactionIdIsNormal xid) eqn:Hn; cbn [negb].
  2:{ apply wp_bind, wp_get_thrd, wp_bind, wp_modify.
      set (w2 := set_thrd _ w1).
      assert (Hf2 : frame P w w2).
      { eapply frame_trans; [exact Hf1|]. apply Inv_thrd; [done|].
        pose proof (i_cache _ _ Hi1) as Hc. constructor; apply Hc. }
      pose proof (special_final xid (w_now w1) (s_special Hses) Hn) as Hsf.
      destruct (_ || _); apply wp_ret, Hend; try done; try (intros ?; congruence); left; apply Hsf. }
  match goal with |- wp (mbind _ ?m) _ _ => set (result := m) end.
  assert (Hres : forall Q', (forall v w2, frame P w w2 -> nest_answer xid v (w_now w2) -> Q' v w2) ->
    wp result Q' w1).
  { intros Q' HQ'. unfold result, csn_horizon. rewrite (s_dr Hses), (s_gtm Hses). cbn [negb andb orb].
    destruct (TransactionIdPrecedes xid RecentXmin) eqn:Hlow.
    - destruct (Inv_now P w1 Hi1) as [Hcons _]. destruct (c_horizon _ Hcons xid Hlow) as [Ha Hcur].
      apply wp_GetCSNByCLog; [done|done|done|done|done|]. intros v w2 Hf2 Hfin _.
      apply HQ'; [by eapply frame_trans|by left].
    - apply wp_CSNLogGetNestCommitSeqNo; [done|done|]. intros v w2 Hf2 Hna.
      apply HQ'; [by eapply frame_trans|done]. }
  apply wp_bind, Hres. intros v w2 Hf2 Hna. apply wp_remember; [apply Hf2|done| |].
  - intros Hv. destruct Hna as [?|[H1 H2]]; [done|]. by rewrite H1, H2 in Hv.
  - intros w3 Hf3 Hnow Hl. apply Hend; [by eapply frame_trans|by rewrite Hnow|done].
Qed.

(** *** Waiting for the end of a transaction *)

(** Time has passed, the caches have changed, and the tuple may be the one
    found when the page was locked again. *)
Record sframe (w w' : World) : Prop := {
  sf_inv : Inv P w';
  sf_evolves : evolves (w_now w) (w_now w');
  sf_views : views w' `suffix_of` views w;
  sf_tuple : (w_page w' = w_page w /\ w_tuple w' = w_tuple w)
    \/ Some (w_page w', w_tuple w') ∈ views w;
  sf_htup : w_htup w' = w_htup w;
  sf_write : w_cur_write w' = w_cur_write w }.

Lemma views_later w w' : views w' `suffix_of` views w ->
  (length (w_later w') <= length (w_later w))%nat.
Proof. intros H%suffix_length. unfold views in H. simpl in H. rewrite !length_fmap in H. lia. Qed.

Lemma frame_sframe w w' : frame P w w' -> sframe w w'.
Proof. intros [H1 H2 H3 H4 H5 H6 H7 H8 H9]. constructor; auto. Qed.

Lemma sframe_frame w1 w2 w3 : sframe w1 w2 -> frame P w2 w3 -> sframe w1 w3.
Proof.
  intros H1 H2. constructor.
  - apply H2.
  - etrans; [apply H1|apply H2].
  - etrans; [apply H2|apply H1].
  - rewrite (f_page _ _ _ H2), (f_tuple _ _ _ H2). apply H1.
  - by rewrite (f_htup _ _ _ H2), (sf_htup _ _ H1).
  - by rewrite (f_write _ _ _ H2), (sf_write _ _ H1).
Qed.

Lemma history_tail now s later : history_ok P now (s :: later) -> history_ok P s later /\ evolves now s.
Proof.
  intros [Hall Hs]. apply Forall_cons_1 in Hall as [_ Hall].
  inversion Hs as [|? ? Hs' Hf]; subst. apply Forall_cons_1 in Hf as [He _]. done.
Qed.

Lemma wait_end_spec xid now later now' later' :
  history_ok P now later -> wait_end xid now later = Some (now', later') ->
  history_ok P now' later' /\ evolves now now' /\ xact_active now' xid = false
  /\ (now' :: later') `suffix_of` (now :: later)
  /\ (later <> [] -> (length later' < length later)%nat).
Proof.
  revert now. induction later as [|s later IH]; intros now Hh; cbn [wait_end].
  - destruct (xact_active now xid) eqn:Ha; [done|]. intros [= <- <-]. split_and!; try done; reflexivity.
  - destruct (history_tail _ _ _ Hh) as [Hh' He]. destruct (xact_active s xid) eqn:Ha.
    + intros Hw. destruct (IH s Hh' Hw) as (? & ? & ? & Hsuf & ?).
      split_and!; [done|by etrans|done|by apply suffix_cons_r|].
      apply suffix_length in Hsuf. simpl in *. lia.
    + intros [= <- <-]. split_and!; try done; [by apply suffix_cons_r|simpl; lia].
Qed.

Lemma wp_SyncWaitXidEnd xid Q w : Inv P w ->
  (forall w', sframe w w' -> w_thrd w' = w_thrd w -> xact_active (w_now w') xid = false ->
     (w_later w <> [] -> (length (w_later w') < length (w_later w))%nat) -> Q tt w') ->
  wp (SyncWaitXidEnd xid) Q w.
Proof.
  intros Hi HQ. unfold wp, SyncWaitXidEnd.
  destruct (wait_end xid (w_now w) (w_later w)) as [[now later]|] eqn:Hw; [|done].
  destruct (wait_end_spec _ _ _ _ _ (i_history _ _ Hi) Hw) as (Hh & He & Ha & Hsuf & Hlen).
  pose proof (cache_ok_mono _ _ _ He (i_cache _ _ Hi)) as Hc.
  pose proof (h_all _ _ _ Hh) as Hall. apply Forall_cons_1 in Hall as [(_ & HP & Hv) _].
  cbn zeta. destruct (sh_view now) as [[page tup]|] eqn:Hview; apply HQ; try done.
  - constructor; simpl; [|done|by apply suffix_fmap| |done|done].
    + constructor; [done|done|by apply Hv].
    + right. rewrite <- Hview. apply list_elem_of_fmap_2.
      eapply elem_of_suffix; [by left|done].
  - constructor; simpl; [|done|by apply suffix_fmap|by left|done|done].
    constructor; [done|done|]. eapply tuple_ok_mono; [done|apply Hi].
Qed.

(** *** Marking a transaction aborted in the CSN log *)

Section Write.
Context (x : Z) (Hx : TransactionIdIsNormal x = true) (Hox : oc x = false) (Hcur : is_current x = false).

Abbreviation write := (write_csn_entry x COMMITSEQNO_ABORTED).

Lemma write_entry s y : csnlog_entry (sh_csnlog (write s)) y
  = if x =? y then COMMITSEQNO_ABORTED else csnlog_entry (sh_csnlog s) y.
Proof.
  unfold write_csn_entry. simpl. rewrite csnlog_entry_insert.
  destruct (decide (y = x)), (Z.eqb_spec x y); congruence.
Qed.

Lemma write_evolves s s' : evolves s s' -> evolves (write s) (write s').
Proof.
  intros He. constructor.
  - apply He.
  - intros y Hy. unfold recorded in *. rewrite write_entry in *.
    destruct (x =? y); [by right; right|]. by apply He.
  - apply He.
Qed.

Lemma evolves_write s : evolves s (write s).
Proof.
  constructor; [done| |done]. intros y Hy. unfold recorded in *. rewrite write_entry.
  destruct (x =? y); [by right; right|done].
Qed.

Lemma write_consistent s : xact_active s x = false -> consistent s -> consistent (write s).
Proof.
  intros Ha Hc.
  assert (Hclog : forall y, clog_status (sh_clog (write s)) y = clog_status (sh_clog s) y) by done.
  assert (Hact : forall y, xact_active (write s) y = xact_active s y) by done.
  constructor; try apply Hc; intros y; rewrite ?write_entry, ?Hclog, ?Hact.
  - destruct (x =? y); [done|]. apply (c_csn_commit s Hc).
  - destruct (Z.eqb_spec x y) as [<-|]; [|apply (c_csn_abort s Hc)]. intros _ _. auto.
  - destruct (Z.eqb_spec x y) as [<-|]; [|apply (c_announced s Hc)]. intros Hn Hcl.
    rewrite (c_clog_commit s Hc x Hn Hcl) in Hox. done.
  - destruct (Z.eqb_spec x y) as [<-|]; [|apply (c_done s Hc)]. congruence.
  - destruct (Z.eqb_spec x y) as [<-|]; [|apply (c_current s Hc)]. congruence.
  - destruct (x =? y); [done|]. apply (c_parent s Hc).
  - destruct (x =? y); [done|]. apply (c_top s Hc).
  - intros Hn Ht. destruct (c_top_csn s Hc y Hn Ht) as (H1 & H2 & H3 & H4 & H5 & H6 & H7).
    destruct (Z.eqb_spec x (top_of y)) as [He|].
    + split_and!; try done. intros _. right; left. rewrite Hact. apply H5. by rewrite <- He.
    + split_and!; try done. intros Hab. eapply settled_mono; [apply evolves_write|auto].
  - destruct (x =? y); [done|]. apply (c_committing s Hc).
Qed.

Lemma write_history now later : (forall s, P s -> P (write s)) -> xact_active now x = false ->
  history_ok P now later -> history_ok P (write now) (write <$> later).
Proof.
  intros HP Ha [Hall Hs].
  assert (Hin : Forall (fun s => xact_active s x = false) (now :: later)).
  { constructor; [done|]. inversion Hs as [|? ? _ Hf]; subst. eapply list.Forall_impl; [exact Hf|].
    intros s He. by apply He. }
  constructor; change (write now :: (write <$> later)) with (write <$> (now :: later)).
  - apply Forall_fmap. eapply Forall_impl; [apply Forall_and; split; [exact Hall|exact Hin]|].
    cbn beta. intros s [(H1 & H2 & H3) H4]. simpl. split_and!; [by apply write_consistent|by apply HP|].
    intros page tup Hv. eapply tuple_ok_mono; [apply evolves_write|by apply H3].
  - clear Hall Hin. induction Hs as [|s l Hs IH Hf]; [constructor|]. simpl. constructor; [done|].
    apply Forall_fmap. eapply Forall_impl; [exact Hf|]. intros s' He. by apply write_evolves.
Qed.
End Write.

(** *** What a snapshot sees *)

(** The record of the last answer shows the abort. *)
Definition latest_csn_abort (xid : Z) (w : World) : Prop :=
  TransactionIdIsNormal xid = true ->
  latestFetchCSNXid (w_thrd w) = xid /\ latestFetchCSN (w_thrd w) = COMMITSEQNO_ABORTED.

Lemma wp_LatestFetchCSNDidAbort xid Q w : latest_csn_abort xid w ->
  TransactionIdIsNormal xid = true -> Q true w -> wp (LatestFetchCSNDidAbort xid) Q w.
Proof.
  intros Hl Hn HQ. unfold LatestFetchCSNDidAbort. apply wp_bind, wp_get_thrd.
  destruct (_ || _); [by apply wp_ret|]. destruct (Hl Hn) as [-> ->].
  unfold TransactionIdEquals. rewrite Z.eqb_refl. by apply wp_ret.
Qed.

Lemma wp_CSNLogSetCommitSeqNoM_abort x Q w : session_ok -> Inv P w -> (forall s, P s -> P (write_csn_entry x COMMITSEQNO_ABORTED s)) ->
  TransactionIdIsNormal x = true -> oc x = false -> is_current x = false ->
  xact_active (w_now w) x = false ->
  COMMITSEQNO_IS_COMMITTED (csnlog_entry (sh_csnlog (w_now w)) x) = false ->
  (forall w', frame P w w' -> Q tt w') ->
  wp (CSNLogSetCommitSeqNoM x COMMITSEQNO_ABORTED) Q w.
Proof.
  intros Hses Hi HP Hn Ho Hcur Ha H1 HQ. set (l := sh_csnlog (w_now w)) in *.
  assert (Hset : CSNLogSetCommitSeqNo x [] COMMITSEQNO_ABORTED l
    = Ok [if COMMITSEQNO_IS_ABORTED (csnlog_entry l x) then l else <[x := COMMITSEQNO_ABORTED]> l]).
  { unfold CSNLogSetCommitSeqNo. rewrite (s_local Hses), (s_roach Hses).
    assert (Hb : (x =? BootstrapTransactionId) = false).
    { apply Z.leb_le in Hn. unfold FirstNormalTransactionId, BootstrapTransactionId in *. lia. }
    rewrite Hb. simpl. unfold CSNLogSetPageStatus. rewrite (s_standby Hses).
    assert (Hv : TransactionIdIsValid x = true).
    { apply Z.leb_le in Hn. unfold TransactionIdIsValid, FirstNormalTransactionId, InvalidTransactionId in *. lia. }
    rewrite Hv. unfold CSNLogSetCSN. fold l. rewrite H1. simpl.
    destruct (COMMITSEQNO_IS_ABORTED (csnlog_entry l x)); done. }
  unfold wp, CSNLogSetCommitSeqNoM. fold l. rewrite Hset. cbn [List.last].
  destruct (decide _) as [He|_].
  - by apply HQ, frame_refl.
  - apply HQ. constructor; try done; [|apply evolves_write|].
    2:{ unfold views. simpl. rewrite <- list_fmap_compose. reflexivity. }
    constructor; simpl.
    + apply write_history; try done. apply Hi.
    + eapply cache_ok_mono; [apply evolves_write|apply Hi].
    + eapply tuple_ok_mono; [apply evolves_write|apply Hi].
Qed.

Section Snapshot.
Context (snap : SnapshotData) (Hses : session_ok).
Context (HP : forall s, P s -> snap_ok snap s).
Context (HPw : forall s x, P s -> oc x = false -> P (write_csn_entry x COMMITSEQNO_ABORTED s)).
Context (Hm : IsMVCCSnapshot snap = true) (Hd : satisfies snap <> SNAPSHOT_DECODE_MVCC).

(** The answer is what the outcome says, and the hint status is true. *)
Definition vis_ok (xid : Z) (b : bool) (st : TransactionIdStatus) (w' : World) : Prop :=
  b = sees snap xid
  /\ (st = XID_COMMITTED -> known_committed (w_now w') xid)
  /\ (st = XID_ABORTED -> known_aborted (w_now w') xid /\ latest_csn_abort xid w').

Lemma sees_false x : oc x = false \/ snapshotcsn snap <= ocsn x -> sees snap x = false.
Proof.
  unfold sees. intros [->|H]; [done|]. destruct (oc x); [|done]. simpl.
  by apply Z.ltb_ge.
Qed.

(** An entry that is not final belongs to a transaction that the snapshot does
    not see, or to one that is committing. *)
Lemma entry_unseen s x : consistent s -> P s -> TransactionIdIsNormal x = true ->
  COMMITSEQNO_IS_COMMITTED (csnlog_entry (sh_csnlog s) x) = false ->
  COMMITSEQNO_IS_COMMITTING (csnlog_entry (sh_csnlog s) x) = false ->
  sees snap x = false.
Proof.
  intros Hc HPs Hn H1 H2. apply sees_false. destruct (oc x) eqn:Ho; [right|by left].
  by apply (sn_uncommitted _ _ (HP s HPs)).
Qed.

(** One look at the CSN: the answer, or the transaction is committing. *)
Lemma look xid v w' : Inv P w' -> snap_answer snap xid v (w_now w') -> latest_csn_is xid v w' ->
  (COMMITSEQNO_IS_COMMITTED v = true /\ vis_ok xid (v <? snapshotcsn snap) XID_COMMITTED w')
  \/ (COMMITSEQNO_IS_COMMITTED v = false /\ COMMITSEQNO_IS_COMMITTING v = false
      /\ vis_ok xid false (if v =? COMMITSEQNO_ABORTED then XID_ABORTED else XID_INPROGRESS) w')
  \/ (COMMITSEQNO_IS_COMMITTED v = false /\ COMMITSEQNO_IS_ABORTED v = false
      /\ COMMITSEQNO_IS_COMMITTING v = true
      /\ TransactionIdIsNormal xid = true /\ v = csnlog_entry (sh_csnlog (w_now w')) xid
      /\ is_current xid = false).
Proof.
  intros Hi Hsa Hl. destruct (Inv_now P w' Hi) as [Hc HPw'].
  destruct Hsa as [[[(H1 & H2 & _)|[-> H2]] Hv]|(Hn & Hv & H1 & H2)].
  - left. split; [done|]. split; [by apply Hv|done].
  - right; left. split; [done|]. split; [done|]. split; [|by split].
    symmetry. apply sees_false. left. apply H2.
  - right. destruct (COMMITSEQNO_IS_COMMITTING v) eqn:H3.
    + right. split_and!; try done. destruct (is_current xid) eqn:Hcur; [|done].
      destruct (c_current _ Hc xid Hcur) as (_ & _ & _ & H4). congruence.
    + left. split; [done|]. split; [done|]. subst v. unfold COMMITSEQNO_IS_ABORTED in H2. rewrite H2.
      split; [|done]. symmetry. by apply (entry_unseen (w_now w')).
Qed.

(** The second round, after the wait. *)
Lemma wp_XidVisible_looped rounds xid Q w : Inv P w -> xact_active (w_now w) xid = false ->
  (forall b st w', frame P w w' -> vis_ok xid b st w' -> Q (b, st, true) w') ->
  wp (XidVisible_loop (S rounds) true xid snap true) Q w.
Proof.
  intros Hi Ha HQ. cbn [XidVisible_loop].
  apply wp_bind, wp_TransactionIdGetCommitSeqNo_snap; [done|done|done|done|done|done|].
  intros v w1 Hf1 Hsa Hl. assert (Hi1 : Inv P w1) by apply Hf1.
  destruct (look xid v w1 Hi1 Hsa Hl) as [[-> Hv]|[(-> & -> & Hv)|(Hcm & Hab & -> & Hn & Hv & Hcur)]].
  - apply wp_ret, HQ; done.
  - apply wp_ret, HQ; done.
  - rewrite Hcm, (s_standby Hses). destruct (Inv_now P w1 Hi1) as [Hc1 _].
    assert (Ha1 : xact_active (w_now w1) xid = false) by (by apply Hf1).
    assert (Ho : oc xid = false).
    { destruct (oc xid) eqn:Ho; [|done]. exfalso.
      destruct (c_done _ Hc1 xid Hn Hcur Ha1 Ho) as [_ Hcm']. congruence. }
    apply wp_bind. unfold RecheckXidFinish. apply wp_bind, wp_TransactionIdIsInProgress; [done|done|].
    intros b w2 Hf2 Ht _. destruct b.
    { exfalso. destruct (Ht eq_refl) as [?|Hact]; [congruence|].
      by rewrite (e_active _ _ (f_evolves _ _ _ Hf2) xid Ha1) in Hact. }
    assert (Ha2 : xact_active (w_now w2) xid = false) by (by apply Hf2).
    assert (Hi2 : Inv P w2) by apply Hf2. destruct (Inv_now P w2 Hi2) as [Hc2 _].
    apply wp_ret, wp_bind.
    assert (Hend : forall w3, frame P w2 w3 -> settled (w_now w3) xid ->
      wp (A := bool * TransactionIdStatus * bool) (SetLatestFetchState xid COMMITSEQNO_ABORTED;; mret (false, XID_ABORTED, true)) Q w3).
    { intros w3 Hf3 Hset. apply wp_bind, wp_modify, wp_ret, HQ.
      - eapply frame_trans; [exact Hf1|]. eapply frame_trans; [exact Hf2|].
        eapply frame_trans; [exact Hf3|]. apply Inv_thrd; [apply Hf3|].
        pose proof (i_cache _ _ (f_inv _ _ _ Hf3)) as Hc. constructor; apply Hc.
      - split; [by rewrite sees_false; [|left]|]. split; [done|]. intros _. by split. }
    apply wp_CSNLogSetCommitSeqNoM_abort; try done; [auto| |].
    + destruct (COMMITSEQNO_IS_COMMITTED (csnlog_entry (sh_csnlog (w_now w2)) xid)) eqn:Hcm2; [|done].
      destruct (c_csn_commit _ Hc2 xid Hn Hcm2) as [Hcl _].
      by rewrite (c_clog_commit _ Hc2 xid Hn Hcl) in Ho.
    + intros w3 Hf3. apply Hend; [done|]. right; left. by apply Hf3.
Qed.

(** Whom a reader waits for: the top transaction for a child, and when it is
    over the child is over. *)
Lemma wait_target s s' xid v : consistent s -> consistent s' -> TransactionIdIsNormal xid = true ->
  v = csnlog_entry (sh_csnlog s) xid -> COMMITSEQNO_IS_COMMITTING v = true ->
  let parentXid := if COMMITSEQNO_IS_SUBTRANS v then GET_PARENTXID v else InvalidTransactionId in
  xact_active s' (if TransactionIdIsValid parentXid then parentXid else xid) = false ->
  xact_active s' xid = false.
Proof.
  intros Hc Hc' Hn -> Hcm. cbn zeta. destruct (COMMITSEQNO_IS_SUBTRANS _) eqn:Hs; [|done].
  rewrite (c_top s Hc xid Hn Hs Hcm). destruct (c_parent s Hc xid Hn Hs) as [Hp _].
  rewrite (c_top s Hc xid Hn Hs Hcm) in Hp.
  assert (Hv : TransactionIdIsValid (top_of xid) = true).
  { apply Z.leb_le in Hp. unfold TransactionIdIsValid, FirstNormalTransactionId, InvalidTransactionId in *. lia. }
  rewrite Hv. by apply (c_top_csn s' Hc' xid Hn Hp).
Qed.

Lemma sframe_trans w1 w2 w3 : frame P w1 w2 -> sframe w2 w3 -> sframe w1 w3.
Proof.
  intros H1 H2. constructor.
  - apply H2.
  - etrans; [apply H1|apply H2].
  - etrans; [apply H2|apply H1].
  - destruct (sf_tuple _ _ H2) as [[-> ->]|Hv].
    + left. by rewrite (f_page _ _ _ H1), (f_tuple _ _ _ H1).
    + right. eapply elem_of_suffix; [exact Hv|apply H1].
  - by rewrite (sf_htup _ _ H2), (f_htup _ _ _ H1).
  - by rewrite (sf_write _ _ H2), (f_write _ _ _ H1).
Qed.

(** The transaction was in the middle of its commit, and its final CSN decides:
    it may be below that of the snapshot. *)
Definition csn_undecided (xid : Z) (s : Shared) : Prop :=
  let csn := csnlog_entry (sh_csnlog s) xid in
  COMMITSEQNO_IS_COMMITTING csn = true
  /\ (COMMITSEQNO_IS_SUBTRANS csn = true \/ GET_COMMITSEQNO csn < snapshotcsn snap).

(** [XidVisibleInSnapshot] answers what the outcome of the transaction says,
    whatever the instants of its accesses; it waits only for a transaction in the
    middle of its commit, and without a wait the tuple stays the one it was. *)
Lemma wp_XidVisibleInSnapshot xid Q w : Inv P w ->
  (forall b st sync w', sframe w w' -> vis_ok xid b st w' ->
     (if sync : bool then w_later w <> [] -> (length (w_later w') < length (w_later w))%nat
      else frame P w w') ->
     (sync = true -> exists s, evolves (w_now w) s /\ evolves s (w_now w') /\ csn_undecided xid s) -> Q (b, st, sync) w') ->
  wp (XidVisibleInSnapshot xid snap) Q w.
Proof.
  intros Hi HQ. unfold XidVisibleInSnapshot.
  change 2%nat with (S 1). remember 1%nat as rounds eqn:Hr. cbn [XidVisible_loop].
  apply wp_bind, wp_TransactionIdGetCommitSeqNo_snap; [done|done|done|done|done|done|].
  intros v w1 Hf1 Hsa Hl. assert (Hi1 : Inv P w1) by apply Hf1.
  pose proof (frame_sframe _ _ Hf1) as Hs1.
  destruct (look xid v w1 Hi1 Hsa Hl) as [[-> Hv]|[(-> & -> & Hv)|(Hcm & Hab & Hci & Hn & Hv & Hcur)]].
  - by apply wp_ret, HQ.
  - by apply wp_ret, HQ.
  - rewrite Hcm, Hci, (s_standby Hses), (s_maintenance Hses), (s_abort Hses).
    destruct (Inv_now P w1 Hi1) as [Hc1 HP1]. cbn [orb].
    destruct (negb (COMMITSEQNO_IS_SUBTRANS v) && (snapshotcsn snap <=? GET_COMMITSEQNO v)) eqn:Hlate.
    { apply wp_ret, HQ; [done| |done|done]. split; [|done]. symmetry. apply sees_false.
      apply andb_true_iff in Hlate as [Hst%negb_true_iff Hle%Z.leb_le].
      destruct (oc xid) eqn:Ho; [right|by left].
      rewrite Hv in *. pose proof (c_committing _ Hc1 xid Hn Hci Hst Ho). lia. }
    apply wp_bind, wp_SyncWaitXidEnd; [done|]. intros w2 Hs2 Ht2 Ha Hlen.
    assert (Hi2 : Inv P w2) by apply Hs2. destruct (Inv_now P w2 Hi2) as [Hc2 _].
    pose proof (wait_target _ _ xid v Hc1 Hc2 Hn Hv Hci Ha) as Ha2.
    rewrite Hr. apply wp_XidVisible_looped; [done|done|].
    intros b st w3 Hf3 Hok. apply HQ; [|done| |].
    + eapply sframe_frame; [|done]. by eapply sframe_trans.
    + pose proof (views_later _ _ (f_views _ _ _ Hf1)). pose proof (views_later _ _ (f_views _ _ _ Hf3)).
      pose proof (views_later _ _ (sf_views _ _ Hs2)). intros Hne.
      assert (length (w_later w) <> 0%nat) by (by destruct (w_later w)).
      destruct (decide (w_later w1 = [])) as [He|He]; [rewrite He in *; simpl in *; lia|].
      specialize (Hlen He). lia.
    + intros _. exists (w_now w1). split; [apply Hf1|]. split; [etrans; [apply Hs2|apply Hf3]|]. unfold csn_undecided. rewrite <- Hv. split; [done|].
      apply andb_false_iff in Hlate as [Hst%negb_false_iff|Hle%Z.leb_gt]; auto.
Qed.

(** The same for a transaction that a hint bit or the commit log shows
    committed. *)
Lemma wp_CommittedXidVisible_looped rounds xid Q w : Inv P w -> xact_active (w_now w) xid = false ->
  oc xid = true -> is_current xid = false ->
  (forall w', frame P w w' -> Q (sees snap xid) w') ->
  wp (CommittedXidVisible_loop (S rounds) true xid snap) Q w.
Proof.
  intros Hi Ha Ho Hcur HQ. cbn [CommittedXidVisible_loop].
  apply wp_bind, wp_TransactionIdGetCommitSeqNo_snap; [done|done|done|done|done|done|].
  intros v w1 Hf1 Hsa Hl. assert (Hi1 : Inv P w1) by apply Hf1.
  assert (Hdone : v = csnlog_entry (sh_csnlog (w_now w1)) xid -> TransactionIdIsNormal xid = true ->
    COMMITSEQNO_IS_COMMITTED v = true).
  { intros -> Hn. destruct (Inv_now P w1 Hi1) as [Hc1 _]. apply (c_done _ Hc1 xid Hn Hcur); [|done].
    by apply Hf1. }
  destruct Hsa as [[[(Hcm & _)|[-> [? _]]] Hv]|(Hn & Hv & Hcm & _)]; [|congruence|].
  - rewrite (committed_not_committing v Hcm), Hcm, (Hv Hcm). cbn [negb]. by apply wp_ret, HQ.
  - rewrite (Hdone Hv Hn) in Hcm. done.
Qed.

Lemma wp_CommittedXidVisibleInSnapshot xid Q w : Inv P w -> known_committed (w_now w) xid ->
  (forall w', sframe w w' -> Q (sees snap xid) w') ->
  wp (CommittedXidVisibleInSnapshot xid snap) Q w.
Proof.
  intros Hi (Ho & Hset & Hcur) HQ. unfold CommittedXidVisibleInSnapshot.
  destruct (Inv_now P w Hi) as [Hc HP0].
  destruct (_ && TransactionIdPrecedes xid (snap_xmin snap)) eqn:Hlow.
  { apply andb_true_iff in Hlow as [_ Hlow].
    assert (Hsee : sees snap xid = true).
    { unfold sees. rewrite Ho. apply Z.ltb_lt. destruct (TransactionIdIsNormal xid) eqn:Hn.
      - by apply (sn_xmin _ _ (HP _ HP0) xid Hn Hlow).
      - pose proof (s_special Hses xid Hn) as Hsp. pose proof (sn_csn _ _ (HP _ HP0)).
        destruct (_ || _); [destruct Hsp as [_ ->]; done|congruence]. }
    apply wp_ret. rewrite <- Hsee. by apply HQ, frame_sframe, frame_refl. }
  change 2%nat with (S 1). remember 1%nat as rounds eqn:Hr. cbn [CommittedXidVisible_loop].
  apply wp_bind, wp_TransactionIdGetCommitSeqNo_snap; [done|done|done|done|done|done|].
  intros v w1 Hf1 Hsa Hl. assert (Hi1 : Inv P w1) by apply Hf1.
  pose proof (frame_sframe _ _ Hf1) as Hs1. destruct (Inv_now P w1 Hi1) as [Hc1 HP1].
  destruct Hsa as [[[(Hcm & _)|[-> [? _]]] Hv]|(Hn & Hv & Hcm & Hab)]; [|congruence|].
  { rewrite (committed_not_committing v Hcm), Hcm, (Hv Hcm). cbn [negb]. by apply wp_ret, HQ. }
  assert (Hci : COMMITSEQNO_IS_COMMITTING v = true).
  { assert (Hcl : clog_status (sh_clog (w_now w1)) xid = CLOG_XID_STATUS_COMMITTED).
    { apply settled_commit; try done. eapply settled_mono; [apply Hf1|done]. }
    destruct (c_announced _ Hc1 xid Hn Hcl); congruence. }
  rewrite Hci, (s_standby Hses), (s_maintenance Hses), (s_abort Hses). cbn [orb].
  destruct (negb (COMMITSEQNO_IS_SUBTRANS v) && (snapshotcsn snap <=? GET_COMMITSEQNO v)) eqn:Hlate.
  { apply wp_ret. apply andb_true_iff in Hlate as [Hst%negb_true_iff Hle%Z.leb_le].
    replace false with (sees snap xid); [by apply HQ|]. apply sees_false. right.
    rewrite Hv in *. pose proof (c_committing _ Hc1 xid Hn Hci Hst Ho). lia. }
  apply wp_bind, wp_SyncWaitXidEnd; [done|]. intros w2 Hs2 Ht2 Ha Hlen.
  assert (Hi2 : Inv P w2) by apply Hs2. destruct (Inv_now P w2 Hi2) as [Hc2 _].
  pose proof (wait_target _ _ xid v Hc1 Hc2 Hn Hv Hci Ha) as Ha2.
  rewrite Hr. apply wp_CommittedXidVisible_looped; [done|done|done|done|].
  intros w3 Hf3. apply HQ. eapply sframe_frame; [|done]. by eapply sframe_trans.
Qed.
End Snapshot.
End Facts.

(** Aborting a transaction that does not commit keeps a snapshot in order. *)
Lemma snap_ok_write `{ses : Session} `{his : History} snap s x : snap_ok snap s -> oc x = false ->
  snap_ok snap (write_csn_entry x COMMITSEQNO_ABORTED s).
Proof.
  intros [H1 H2 H3] Ho. constructor; [done|done|]. intros y Hn. rewrite write_entry.
  destruct (Z.eqb_spec x y) as [<-|]; [congruence|]. by apply H3.
Qed.

(** ** A run

    Transaction 10 commits with CSN 20 and transaction 11 aborts.  First both
    run, 10 has announced CSN 15 as its lower bound; later both are over.  The
    other transactions below 10 crashed before the last startup, those above
    11 have not begun.  The snapshot, with CSN 21, sees 10. *)
Module Scenario.

Definition session : Session := {|
  SS_STANDBY_MODE := false; RecoveryInProgress := false; InRecovery := false;
  IsRoachStandbyCluster := false; IsBootstrapProcessingMode := false;
  IS_DISASTER_RECOVER_MODE := false; GTM_LITE_MODE := false; IsInitdb := false;
  StreamThreadAmI := false; useLocalSnapshot := false; bInAbortTransaction := false;
  xc_maintenance_mode := false; XactReadOnly := false; enable_show_any_tuples := false;
  enable_cluster_resize := false; XactIsoLevel := 1; TransactionXmin := 3;
  RecentXmin := 9; recentGlobalXmin := 9; recentLocalXmin := 9; globalRecycleXid := 3;
  ReplicationSlotCatalogXmin := 3; startupMaxXid := 10; currentCommandId := 5;
  CurrentTransactionState := [MkXactState false 12 []]; comboCids := [];
  GetMultiXactIdMembers := fun multi => if multi =? 7 then [MkMember 10 5] else [MkMember 11 1] |}.

Definition outcome : History := {|
  oc := fun x => (x =? 1) || (x =? 2) || (x =? 10);
  ocsn := fun x => if x =? 10 then 20 else 2;
  subcommits := fun _ => false;
  top_of := fun _ => 0 |}.

#[local] Existing Instances session outcome block_256.

Definition before : Shared := {|
  sh_clog := MkClog ∅ ∅;
  sh_csnlog := {[ 10 := Z.lor COMMITSEQNO_COMMIT_INPROGRESS 15 ]};
  sh_procs := [MkPGXACT 10 0 [] 0; MkPGXACT 11 0 [] 0];
  latestCompletedXid := 9; sh_flushed := 0; sh_view := None |}.

Definition after : Shared := {|
  sh_clog := MkClog {[ (0, 2) := 144 ]} ∅;
  sh_csnlog := <[ 11 := COMMITSEQNO_ABORTED ]> {[ 10 := 20 ]};
  sh_procs := []; latestCompletedXid := 11; sh_flushed := 0; sh_view := None |}.

Definition page : HeapPage := MkPage 0 0 0.

(** Inserted by 10, deleted by 11. *)
Definition tuple : HeapTupleHeaderData := MkHeader 10 11 0 (0, 1) 0 0.

Definition snapshot : SnapshotData := {|
  satisfies := SNAPSHOT_MVCC; snap_xmin := 10; snap_xmax := 13; snapshotcsn := 21;
  curcid := 5; gtm_local := false; prepared_array := []; snap_xip := []; snap_subxip := [] |}.

Definition world : World :=
  MkWorld before [before; after] empty_thrd page tuple (MkTuple (0, 1) 0 0) false 0 0 false.

Ltac split_eqb := repeat match goal with
  | |- context [?a =? ?b] => destruct (Z.eqb_spec a b); subst
  | H : context [?a =? ?b] |- _ => destruct (Z.eqb_spec a b); subst
  end.

Lemma clog_before x : clog_status (sh_clog before) x = CLOG_XID_STATUS_IN_PROGRESS.
Proof.
  unfold clog_status, CLogGetStatus, clog_byte. simpl. rewrite lookup_empty. simpl.
  unfold get_bits. by rewrite Z.shiftr_0_l.
Qed.

Lemma clog_after x : 3 <= x -> clog_status (sh_clog after) x
  = if x =? 10 then CLOG_XID_STATUS_COMMITTED
    else if x =? 11 then CLOG_XID_STATUS_ABORTED else CLOG_XID_STATUS_IN_PROGRESS.
Proof.
  intros Hx. destruct (decide (8 <= x <= 11)) as [Hr|Hr].
  - assert (x = 8 \/ x = 9 \/ x = 10 \/ x = 11) as [->|[->|[->| ->]]] by lia; vm_compute; reflexivity.
  - unfold clog_status, CLogGetStatus, clog_byte. simpl.
    rewrite lookup_singleton_ne; [simpl; unfold get_bits; rewrite Z.shiftr_0_l; split_eqb; done || lia|].
    unfold TransactionIdToPage, TransactionIdToByte, TransactionIdToPgIndex, CLOG_XACTS_PER_PAGE,
      CLOG_XACTS_PER_BYTE. simpl. intros [= H1 H2].
    assert (x = 8 \/ x = 9 \/ x = 10 \/ x = 11) by (zdiv_lia). lia.
Qed.

Lemma csn_before x : csnlog_entry (sh_csnlog before) x
  = if x =? 10 then Z.lor COMMITSEQNO_COMMIT_INPROGRESS 15 else 0.
Proof.
  unfold csnlog_entry. simpl. destruct (Z.eqb_spec x 10) as [->|]; [done|].
  by rewrite lookup_singleton_ne by done.
Qed.

Lemma csn_after x : csnlog_entry (sh_csnlog after) x
  = if x =? 11 then 1 else if x =? 10 then 20 else 0.
Proof.
  unfold csnlog_entry. simpl. destruct (Z.eqb_spec x 11) as [->|]; [done|].
  rewrite lookup_insert_ne by done. destruct (Z.eqb_spec x 10) as [->|]; [done|].
  by rewrite lookup_singleton_ne by done.
Qed.

Lemma active_before x : xact_active before x = (9 <? x).
Proof.
  unfold xact_active, TransactionIdPrecedes. cbn -[Z.eqb Z.ltb].
  unfold TransactionIdEquals, TransactionIdPrecedes.
  change (TransactionIdIsValid 10) with true. change (TransactionIdIsValid 11) with true.
  cbn -[Z.eqb Z.ltb]. destruct (Z.ltb_spec 9 x); [done|]. split_eqb; try lia.
  rewrite (proj2 (Z.ltb_lt x 10)), (proj2 (Z.ltb_lt x 11)) by lia. done.
Qed.

Lemma active_after x : xact_active after x = (11 <? x).
Proof. unfold xact_active. simpl. apply orb_false_r. Qed.

Lemma current_is x : is_current x = (x =? 12).
Proof.
  unfold is_current, state_has, TransactionIdIsNormal, FirstNormalTransactionId. simpl.
  split_eqb; [done|]. by rewrite andb_false_r.
Qed.

Lemma session_in_order : session_ok.
Proof.
  constructor; try done; [|by repeat constructor|by right].
  intros x Hn. unfold TransactionIdIsNormal, FirstNormalTransactionId, BootstrapTransactionId,
    FrozenTransactionId in *. simpl. apply Z.leb_gt in Hn. split_eqb; simpl; try done; lia.
Qed.

Lemma not_normal x : TransactionIdIsNormal x = false -> x < 3.
Proof. apply Z.leb_gt. Qed.
Lemma normal x : TransactionIdIsNormal x = true -> 3 <= x.
Proof. apply Z.leb_le. Qed.

Lemma oc_normal x : 3 <= x -> oc x = (x =? 10).
Proof. intros Hx. simpl. split_eqb; simpl; done || lia. Qed.

Lemma before_consistent : consistent before.
Proof.
  constructor; intros x; rewrite ?csn_before, ?clog_before, ?active_before, ?current_is; try done.
  - intros Hn%not_normal. lia.
  - intros _. by destruct (x =? 10).
  - intros _. by destruct (x =? 10).
  - intros Hn%normal. rewrite oc_normal by done. intros _ Ha Ho. split_eqb; [|done]. lia.
  - intros _ _. unfold TransactionIdPrecedes. simpl. intros ?%Z.ltb_ge ?%Z.ltb_ge. lia.
  - intros ->%Z.eqb_eq. done.
  - intros _. by destruct (x =? 10).
  - intros _. by destruct (x =? 10).
  - intros _. destruct (Z.eqb_spec x 10) as [->|]; [|done]. by vm_compute.
  - unfold TransactionIdPrecedes. simpl. intros ?%Z.ltb_lt. split_eqb; lia.
Qed.

Lemma after_consistent : consistent after.
Proof.
  constructor; intros x; rewrite ?csn_after, ?active_after, ?current_is;
    try (intros Hn%normal; rewrite ?clog_after, ?oc_normal by done).
  - intros Hn%not_normal. lia.
  - by destruct (x =? 10), (x =? 11).
  - destruct (Z.eqb_spec x 10), (Z.eqb_spec x 11); congruence.
  - destruct (Z.eqb_spec x 10), (Z.eqb_spec x 11); try subst x; done || lia.
  - destruct (Z.eqb_spec x 10), (Z.eqb_spec x 11); try subst x; done || lia || auto.
  - destruct (Z.eqb_spec x 10), (Z.eqb_spec x 11); try subst x; done || lia || auto.
  - destruct (Z.eqb_spec x 10), (Z.eqb_spec x 11); try subst x; done || lia.
  - intros _. unfold TransactionIdPrecedes. simpl. intros ?%Z.ltb_ge ?%Z.ltb_ge.
    destruct (Z.eqb_spec x 10), (Z.eqb_spec x 11); try subst x; done || lia.
  - intros ->%Z.eqb_eq. rewrite clog_after by done. done.
  - by destruct (x =? 10), (x =? 11).
  - by destruct (x =? 10), (x =? 11).
  - by destruct (x =? 10), (x =? 11).
  - done.
  - by destruct (x =? 10), (x =? 11).
  - unfold TransactionIdPrecedes. simpl. intros ?%Z.ltb_lt. split_eqb; lia.
Qed.

Lemma run_evolves : evolves before after.
Proof.
  constructor; intros x.
  - rewrite active_before, active_after. lia.
  - unfold recorded. rewrite clog_before, csn_before. intros [?|[?|H]]; try done. by destruct (x =? 10).
  - unfold known, TransactionIdPrecedes. cbn -[Z.eqb Z.ltb]. unfold TransactionIdEquals, TransactionIdPrecedes.
    change (TransactionIdIsValid 10) with true. change (TransactionIdIsValid 11) with true.
    cbn -[Z.eqb Z.ltb].
    rewrite !Z.ltb_ge. destruct (Z.leb_spec x 11); [by left|]. intros [?|Hs]; [lia|].
    exfalso. apply Hs. split_eqb; try lia.
    by rewrite (proj2 (Z.ltb_ge x 10)), (proj2 (Z.ltb_ge x 11)) by lia.
Qed.

Lemma snapshot_in_order s : s = before \/ s = after -> snap_ok snapshot s.
Proof.
  intros Hs. constructor; [done|intros x Hn%normal Hx%Z.ltb_lt|intros x Hn%normal];
    cbn [snap_xmin snapshotcsn snapshot] in *; rewrite ?current_is, oc_normal by done.
  - split_and!; [destruct Hs as [->| ->]; rewrite ?active_before, ?active_after; lia|lia|].
    intros ->%Z.eqb_eq. lia.
  - destruct (Z.eqb_spec x 10) as [->|]; [|done]. by destruct Hs as [->| ->].
Qed.

Lemma tuple_in_order : tuple_ok before page tuple.
Proof.
  by constructor; unfold xmin_of; simpl; try done; right.
Qed.

Lemma run_in_order : Inv (snap_ok snapshot) world.
Proof.
  assert (Hall : forall s, s = before \/ s = after -> consistent s /\ snap_ok snapshot s
    /\ (forall page tup, sh_view s = Some (page, tup) -> tuple_ok s page tup)).
  { intros s Hs. split_and!; [|by apply snapshot_in_order|by destruct Hs as [->| ->]].
    destruct Hs as [->| ->]; [apply before_consistent|apply after_consistent]. }
  constructor.
  - constructor; cbn [w_now w_later world].
    + repeat apply Forall_cons_2; auto using Forall_nil_2.
    + repeat apply SSorted_cons; try apply SSorted_nil; repeat apply Forall_cons_2;
        try apply Forall_nil_2; first [apply run_evolves|reflexivity].
  - by constructor.
  - apply tuple_in_order.
Qed.
End Scenario.

(** ** Properties *)

Section Properties.
Context {bs : BlockSize} {ses : Session} {his : History}.


(** C6 Snapshot isolation of transactions: [XidVisibleInSnapshot] answers
    whether the transaction commits with a CSN below that of the snapshot
    ([sees]), whatever the transaction does while the question is asked, and
    whichever cache, log or lock wait the answer comes from; so every question
    about a transaction gets the same answer for the whole life of the
    snapshot.  It waits only if it has met the transaction in the middle of its
    commit, with the answer still depending on the final CSN ([csn_undecided]);
    without a wait the tuple does not change under the reader.  The hint status
    it returns is true and may be written on the tuple.
    [CommittedXidVisibleInSnapshot] gives the same answer for a transaction
    already known to be committed. *)
Theorem XidVisibleInSnapshot_correct (snap : SnapshotData) (xid : Z) (w : World)
    (Hses : session_ok) (Hi : Inv (snap_ok snap) w)
    (Hm : IsMVCCSnapshot snap = true) (Hd : satisfies snap <> SNAPSHOT_DECODE_MVCC) :
  wp (XidVisibleInSnapshot xid snap) (fun '(visible, hintstatus, sync) w' =>
    visible = sees snap xid
    /\ (hintstatus = XID_COMMITTED -> known_committed (w_now w') xid)
    /\ (hintstatus = XID_ABORTED -> known_aborted (w_now w') xid)
    /\ (if sync : bool then sframe (snap_ok snap) w w' else frame (snap_ok snap) w w')
    /\ (sync = true -> exists s, evolves (w_now w) s /\ evolves s (w_now w') /\ csn_undecided snap xid s)) w
  /\ (known_committed (w_now w) xid ->
      wp (CommittedXidVisibleInSnapshot xid snap) (fun visible w' =>
        visible = sees snap xid /\ sframe (snap_ok snap) w w') w).
Proof.
  split.
  - apply (wp_XidVisibleInSnapshot (snap_ok snap)); try done; [by intros; apply snap_ok_write|].
    intros b st sync w' Hs (H1 & H2 & H3) Hsync Hwait. split_and!; [done|done| | |done].
    + intros Hst. by apply H3.
    + destruct sync; auto.
  - intros Hk. apply (wp_CommittedXidVisibleInSnapshot (snap_ok snap)); try done.
Qed.
End Properties.

#[local] Existing Instances Scenario.session Scenario.outcome block_256.


(** The reader waits for transaction 10, which turns out to have committed
    before the snapshot. *)
Lemma XidVisibleInSnapshot_correct_witness :
  (exists w', XidVisibleInSnapshot 10 Scenario.snapshot Scenario.world = Ret (true, XID_COMMITTED, true) w')
  /\ wp (XidVisibleInSnapshot 10 Scenario.snapshot) (fun '(visible, hintstatus, sync) w' =>
      visible = sees Scenario.snapshot 10
      /\ (hintstatus = XID_COMMITTED -> known_committed (w_now w') 10)
      /\ (hintstatus = XID_ABORTED -> known_aborted (w_now w') 10)
      /\ (if sync : bool then sframe (snap_ok Scenario.snapshot) Scenario.world w'
          else frame (snap_ok Scenario.snapshot) Scenario.world w')
      /\ (sync = true -> exists s, evolves (w_now Scenario.world) s /\ evolves s (w_now w') /\ csn_undecided Scenario.snapshot 10 s)) Scenario.world.
Proof.
  split; [eexists; vm_compute; reflexivity|].
  refine (proj1 (XidVisibleInSnapshot_correct Scenario.snapshot 10 Scenario.world
    Scenario.session_in_order Scenario.run_in_order eq_refl _)). done.
Defined.
