(* ===== verification/Visibility.v ===== *)
(** Tuple visibility
    ([src/src/gausskernel/storage/access/heap/heapam_visibility.cpp]).

    The tests run in the [World] of Transam.v: the tuple under examination, its
    page and the state other backends change meanwhile.  They answer for the
    tuple and leave hint bits on it.  A [return] in the middle of a C function
    is the result of the branch here; what follows a block with returns in it
    is a definition of its own ([_xmax], [_recheck]).  Comparisons with
    [NeedSyncXact] do not appear: it is [false] in the single-node build. *)
From S2P Require Import Prelude Xid XactLog HeapTuple Transam.
From stdpp Require Import gmap.
#[local] Open Scope Z_scope.

(** ** Results *)

Inductive TM_Result :=
  | TM_Ok
  | TM_Invisible
  | TM_SelfModified
  | TM_Updated
  | TM_Deleted
  | TM_BeingModified
  | TM_SelfCreated
  | TM_SelfUpdated
  | TM_WouldBlock.

#[global] Instance TM_Result_eq_dec : EqDecision TM_Result.
Proof. solve_decision. Defined.

Inductive HTSV_Result :=
  | HEAPTUPLE_DEAD
  | HEAPTUPLE_LIVE
  | HEAPTUPLE_RECENTLY_DEAD
  | HEAPTUPLE_INSERT_IN_PROGRESS
  | HEAPTUPLE_DELETE_IN_PROGRESS.

#[global] Instance HTSV_Result_eq_dec : EqDecision HTSV_Result.
Proof. solve_decision. Defined.

(** The buffer that holds the tuple: is its relation WAL-logged? *)
Class Buffer := BufferIsPermanent : bool.

Definition get_tuple : M HeapTupleHeaderData := w ← getw; mret (w_tuple w).
Definition get_page : M HeapPage := w ← getw; mret (w_page w).
Definition get_htup : M HeapTupleData := w ← getw; mret (w_htup w).

(** The current values of the accessors, with the page of the tuple. *)
Definition XminM : M Z :=
  page ← get_page; tuple ← get_tuple; mret (HeapTupleHeaderGetXmin page tuple).
Definition XmaxM : M Z :=
  page ← get_page; tuple ← get_tuple; mret (HeapTupleHeaderGetXmax page tuple).

Section Visibility.
Context {bs : BlockSize} {ses : Session} {buf : Buffer}.

Definition UpdateXidM : M Z :=
  page ← get_page; tuple ← get_tuple; mret (HeapTupleHeaderMultiXactGetUpdateXid page tuple).
Definition GetCmin : M Z := tuple ← get_tuple; of_option (HeapTupleHeaderGetCmin comboCids tuple).
Definition GetCmax : M Z := tuple ← get_tuple; of_option (HeapTupleHeaderGetCmax comboCids tuple).

Definition locked_only (tuple : HeapTupleHeaderData) : bool :=
  HEAP_XMAX_IS_LOCKED_ONLY (t_infomask tuple) (t_infomask2 tuple).

(** ** Hint bits *)

Definition SetHintBits (infomask xid : Z) : M unit :=
  if SS_STANDBY_MODE then mret tt
  else if (useLocalSnapshot && negb (flag infomask HEAP_XMIN_COMMITTED)) || RecoveryInProgress
          || IsRoachStandbyCluster then mret tt
  else if (XACT_READ_UNCOMMITTED =? XactIsoLevel) && negb (flag infomask HEAP_XMIN_COMMITTED)
  then mret tt
  else if enable_cluster_resize then mret tt
  else
    tuple ← get_tuple;
    page ← get_page;
    if flag (t_infomask tuple) infomask then mret tt
    else
      too_early ← (if TransactionIdIsValid xid then
        commitLSN ← TransactionIdGetCommitLSN xid;
        if BufferIsPermanent then
          s ← tick;
          mret ((sh_flushed s <? commitLSN) && (pd_lsn page <? commitLSN))
        else mret false
      else mret false);
      if too_early : bool then mret tt
      else
        modify (set_tuple page (or_infomask tuple infomask));;
        modify set_dirty.

(** ** The inserting transaction

    The block that decides about an inserter that is neither marked committed
    nor the current transaction, the same in [HeapTupleSatisfiesSelf], [-Now],
    [-Update] and [-Dirty]: [running] is what they do while it runs,
    [invisible] what they answer when it aborted, [next] what follows when it
    committed.  [test] is the test for running transactions they use. *)
Definition settle_xmin {A} (test : Z -> M bool) (running : M A) (invisible : A) (next : M A) : M A :=
  xmin ← XminM;
  inprogress ← test xmin;
  if inprogress : bool then running
  else
    committed ← TransactionIdDidCommit xmin;
    if committed : bool then
      SetHintBits HEAP_XMIN_COMMITTED xmin;;
      next
    else
      aborted ← LatestFetchTransactionIdDidAbort xmin;
      (if negb aborted then LatestTransactionStatusError else mret tt);;
      SetHintBits HEAP_XMIN_INVALID InvalidTransactionId;;
      mret invisible.

(** The end of the same functions, for a deleter that is not a multixact, is
    not the current transaction and was not found running: [alive] if it
    aborted or only locked the tuple, [deleted] if it committed. *)
Definition settle_xmax {A} (alive : A) (deleted : M A) : M A :=
  xmax ← XmaxM;
  committed ← TransactionIdDidCommit xmax;
  if negb committed then
    aborted ← LatestFetchTransactionIdDidAbort xmax;
    (if negb aborted then LatestTransactionStatusError else mret tt);;
    SetHintBits HEAP_XMAX_INVALID InvalidTransactionId;;
    mret alive
  else
    tuple ← get_tuple;
    if locked_only tuple then
      SetHintBits HEAP_XMAX_INVALID InvalidTransactionId;;
      mret alive
    else
      SetHintBits HEAP_XMAX_COMMITTED xmax;;
      deleted.

(** ** HeapTupleSatisfiesSelf *)

Definition DealCurrentTansactionNotCommited : M bool :=
  tuple ← get_tuple;
  if flag (t_infomask tuple) HEAP_XMAX_INVALID then mret true
  else if locked_only tuple then mret true
  else if flag (t_infomask tuple) HEAP_XMAX_IS_MULTI then
    xmax ← UpdateXidM;
    current ← TransactionIdIsCurrentTransactionId xmax;
    mret (negb current)
  else
    xmax ← XmaxM;
    current ← TransactionIdIsCurrentTransactionId xmax;
    if negb current then
      SetHintBits HEAP_XMAX_INVALID InvalidTransactionId;;
      mret true
    else mret false.

(** From "by here, the inserting transaction has committed", the same in
    [HeapTupleSatisfiesSelf] and [HeapTupleSatisfiesDirty] but for what they do
    with a deleter that runs. *)
Definition self_xmax (running : Z -> M bool) : M bool :=
  tuple ← get_tuple;
  if flag (t_infomask tuple) HEAP_XMAX_INVALID then mret true
  else if flag (t_infomask tuple) HEAP_XMAX_COMMITTED then mret (locked_only tuple)
  else if flag (t_infomask tuple) HEAP_XMAX_IS_MULTI then
    if locked_only tuple then mret true
    else
      xmax ← UpdateXidM;
      current ← TransactionIdIsCurrentTransactionId xmax;
      if current : bool then mret false
      else
        inprogress ← TransactionIdIsInProgress xmax;
        if inprogress : bool then running xmax
        else
          committed ← TransactionIdDidCommit xmax;
          mret (negb committed)
  else
    xmax ← XmaxM;
    current ← TransactionIdIsCurrentTransactionId xmax;
    if current : bool then mret (locked_only tuple)
    else
      inprogress ← TransactionIdIsInProgress xmax;
      if inprogress : bool then running xmax
      else settle_xmax true (mret false).

Definition HeapTupleSatisfiesSelf : M bool :=
  tuple ← get_tuple;
  if negb (HeapTupleHeaderXminCommitted tuple) then
    if HeapTupleHeaderXminInvalid tuple then mret false
    else
      xmin ← XminM;
      current ← TransactionIdIsCurrentTransactionId xmin;
      if current : bool then DealCurrentTansactionNotCommited
      else settle_xmin TransactionIdIsInProgress (mret false) false (self_xmax (fun _ => mret true))
  else self_xmax (fun _ => mret true).

(** ** HeapTupleSatisfiesNow

    [track] says that [has_cur_xact_write] is not NULL. *)

Definition IsInProgress_needSync (xid : Z) : M bool := fst <$> TransactionIdIsInProgress_sync xid.

Definition note_cur_write (track : bool) (cid : M Z) (bound : Z) : M unit :=
  if track then c ← cid; if c <? bound then modify set_cur_write else mret tt
  else mret tt.

Definition HeapTupleSatisfiesNow_own (track : bool) : M bool :=
  note_cur_write track GetCmin currentCommandId;;
  cmin ← GetCmin;
  if currentCommandId <=? cmin then mret false
  else
    tuple ← get_tuple;
    if flag (t_infomask tuple) HEAP_XMAX_INVALID then mret true
    else if locked_only tuple then mret true
    else if flag (t_infomask tuple) HEAP_XMAX_IS_MULTI then
      xmax ← UpdateXidM;
      if negb (TransactionIdIsValid xmax) then mret true
      else
        current ← TransactionIdIsCurrentTransactionId xmax;
        mret (negb current)
    else
      xmax ← XmaxM;
      current ← TransactionIdIsCurrentTransactionId xmax;
      if negb current then
        SetHintBits HEAP_XMAX_INVALID InvalidTransactionId;;
        mret true
      else
        cmax ← GetCmax;
        mret (currentCommandId <=? cmax).

Definition HeapTupleSatisfiesNow_xmax (track : bool) : M bool :=
  tuple ← get_tuple;
  if flag (t_infomask tuple) HEAP_XMAX_INVALID then mret true
  else if flag (t_infomask tuple) HEAP_XMAX_COMMITTED then mret (locked_only tuple)
  else if flag (t_infomask tuple) HEAP_XMAX_IS_MULTI then
    if locked_only tuple then mret true
    else
      xmax ← UpdateXidM;
      if negb (TransactionIdIsValid xmax) then mret true
      else
        current ← TransactionIdIsCurrentTransactionId xmax;
        if current : bool then
          cmax ← GetCmax;
          mret (currentCommandId <=? cmax)
        else
          inprogress ← TransactionIdIsInProgress xmax;
          if inprogress : bool then mret true
          else
            committed ← TransactionIdDidCommit xmax;
            mret (negb committed)
  else
    xmax ← XmaxM;
    current ← TransactionIdIsCurrentTransactionId xmax;
    if current : bool then
      note_cur_write track GetCmax currentCommandId;;
      if locked_only tuple then mret true
      else
        cmax ← GetCmax;
        mret (currentCommandId <=? cmax)
    else
      inprogress ← IsInProgress_needSync xmax;
      if inprogress : bool then mret true
      else settle_xmax true (mret false).

Definition HeapTupleSatisfiesNow (track : bool) : M bool :=
  tuple ← get_tuple;
  if negb (flag (t_infomask tuple) HEAP_XMIN_COMMITTED) then
    if flag (t_infomask tuple) HEAP_XMIN_INVALID then mret false
    else
      xmin ← XminM;
      current ← TransactionIdIsCurrentTransactionId xmin;
      if current : bool then HeapTupleSatisfiesNow_own track
      else settle_xmin IsInProgress_needSync (mret false) false (HeapTupleSatisfiesNow_xmax track)
  else HeapTupleSatisfiesNow_xmax track.

Definition HeapTupleSatisfiesAny : M bool := mret true.

Definition HeapTupleSatisfiesToast : M bool :=
  tuple ← get_tuple;
  if negb (HeapTupleHeaderXminCommitted tuple) then
    if HeapTupleHeaderXminInvalid tuple then mret false
    else
      xmin ← XminM;
      mret (TransactionIdIsValid xmin)
  else mret true.

(** ** HeapTupleSatisfiesDirty

    The fields [xmin] and [xmax] of the snapshot are results. *)

Definition set_out_xmin (x : Z) : M unit := modify (fun w => set_out x (w_out_xmax w) w).
Definition set_out_xmax (x : Z) : M unit := modify (fun w => set_out (w_out_xmin w) x w).

Definition HeapTupleSatisfiesDirty : M bool :=
  modify (set_out InvalidTransactionId InvalidTransactionId);;
  tuple ← get_tuple;
  if negb (HeapTupleHeaderXminCommitted tuple) then
    if HeapTupleHeaderXminInvalid tuple then mret false
    else
      xmin ← XminM;
      current ← TransactionIdIsCurrentTransactionId xmin;
      if current : bool then DealCurrentTansactionNotCommited
      else settle_xmin TransactionIdIsInProgress (set_out_xmin xmin;; mret true) false
             (self_xmax (fun xmax => set_out_xmax xmax;; mret true))
  else self_xmax (fun xmax => set_out_xmax xmax;; mret true).

(** ** HeapTupleSatisfiesUpdate *)

Definition SNAPSHOT_UPDATE_NEED_SYNC : Z := Z.shiftl 1 0.

(** Deleted, or replaced by a newer version. *)
Definition updated_or_deleted : M TM_Result :=
  tuple ← get_tuple;
  htup ← get_htup;
  mret (if negb (bool_decide (t_self htup = t_ctid tuple)) then TM_Updated else TM_Deleted).

(** Deleted by the current transaction, at command [cmax]. *)
Definition self_modified (curcid : Z) : M TM_Result :=
  cmax ← GetCmax;
  mret (if curcid <=? cmax then TM_SelfModified else TM_Invisible).

Definition HeapTupleSatisfiesUpdate_own (curcid : Z) (self_visible : bool) : M TM_Result :=
  cmin ← GetCmin;
  if curcid <? cmin then mret TM_Invisible
  else if (cmin =? curcid) && negb self_visible then mret TM_SelfCreated
  else
    tuple ← get_tuple;
    if flag (t_infomask tuple) HEAP_XMAX_INVALID then mret TM_Ok
    else if locked_only tuple then
      xmax ← XmaxM;
      if flag (t_infomask tuple) HEAP_XMAX_IS_MULTI then
        running ← MultiXactIdIsRunning xmax;
        mret (if running : bool then TM_BeingModified else TM_Ok)
      else
        inprogress ← TransactionIdIsInProgress xmax;
        mret (if inprogress : bool then TM_BeingModified else TM_Ok)
    else if flag (t_infomask tuple) HEAP_XMAX_IS_MULTI then
      xmax ← UpdateXidM;
      current ← TransactionIdIsCurrentTransactionId xmax;
      if negb current then
        raw ← XmaxM;
        running ← MultiXactIdIsRunning raw;
        mret (if running : bool then TM_BeingModified else TM_Ok)
      else self_modified curcid
    else
      xmax ← XmaxM;
      current ← TransactionIdIsCurrentTransactionId xmax;
      if negb current then
        SetHintBits HEAP_XMAX_INVALID InvalidTransactionId;;
        mret TM_Ok
      else self_modified curcid.

(** [t_xmax] is a multixact. *)
Definition HeapTupleSatisfiesUpdate_multi (curcid : Z) : M TM_Result :=
  tuple ← get_tuple;
  if locked_only tuple then
    xmax ← XmaxM;
    running ← (if flag (t_infomask tuple) HEAP_LOCK_MASK then MultiXactIdIsRunning xmax
               else mret false);
    if running : bool then mret TM_BeingModified
    else
      SetHintBits HEAP_XMAX_INVALID InvalidTransactionId;;
      mret TM_Ok
  else
    xmax ← UpdateXidM;
    current ← TransactionIdIsCurrentTransactionId xmax;
    if current : bool then self_modified curcid
    else
      inprogress ← TransactionIdIsInProgress xmax;
      if inprogress : bool then mret TM_BeingModified
      else
        committed ← TransactionIdDidCommit xmax;
        if committed : bool then updated_or_deleted
        else
          raw ← XmaxM;
          running ← MultiXactIdIsRunning raw;
          if negb running then
            SetHintBits HEAP_XMAX_INVALID InvalidTransactionId;;
            mret TM_Ok
          else mret TM_BeingModified.

Definition HeapTupleSatisfiesUpdate_xmax (curcid : Z) : M TM_Result :=
  tuple ← get_tuple;
  if flag (t_infomask tuple) HEAP_XMAX_INVALID then mret TM_Ok
  else if flag (t_infomask tuple) HEAP_XMAX_COMMITTED then
    if locked_only tuple then mret TM_Ok else updated_or_deleted
  else if flag (t_infomask tuple) HEAP_XMAX_IS_MULTI then
    HeapTupleSatisfiesUpdate_multi curcid
  else
    xmax ← XmaxM;
    current ← TransactionIdIsCurrentTransactionId xmax;
    if current : bool then
      if locked_only tuple then mret TM_BeingModified else self_modified curcid
    else
      inprogress ← TransactionIdIsInProgress xmax;
      if inprogress : bool then mret TM_BeingModified
      else settle_xmax TM_Ok updated_or_deleted.

(** The rounds of [restart:]: one more after each wait for the inserter. *)
Fixpoint HeapTupleSatisfiesUpdate_rounds (rounds : nat) (curcid : Z) (self_visible : bool) :
  M TM_Result :=
  match rounds with
  | O => of_option None
  | S rounds =>
      tuple ← get_tuple;
      if negb (HeapTupleHeaderXminCommitted tuple) then
        if HeapTupleHeaderXminInvalid tuple then mret TM_Invisible
        else
          xmin ← XminM;
          current ← TransactionIdIsCurrentTransactionId xmin;
          if current : bool then HeapTupleSatisfiesUpdate_own curcid self_visible
          else
            r ← TransactionIdIsInProgress_sync xmin;
            let '(inprogress, needSync) := (r : bool * Z) in
            settle_xmin (fun _ => mret inprogress)
              (if flag needSync SNAPSHOT_UPDATE_NEED_SYNC then
                 SyncWaitXidEnd xmin;;
                 HeapTupleSatisfiesUpdate_rounds rounds curcid self_visible
               else mret TM_Invisible)
              TM_Invisible (HeapTupleSatisfiesUpdate_xmax curcid)
      else HeapTupleSatisfiesUpdate_xmax curcid
  end.

Definition HeapTupleSatisfiesUpdate (curcid : Z) (self_visible : bool) : M TM_Result :=
  HeapTupleSatisfiesUpdate_rounds 2 curcid self_visible.

(** ** HeapTupleSatisfiesMVCC *)

(** [hintstatus] is written on the tuple. *)
Definition hint_xmin (hintstatus : TransactionIdStatus) : M unit :=
  xmin ← XminM;
  match hintstatus with
  | XID_COMMITTED => SetHintBits HEAP_XMIN_COMMITTED xmin
  | XID_ABORTED =>
      aborted ← LatestFetchCSNDidAbort xmin;
      (if negb aborted then LatestTransactionStatusError else mret tt);;
      SetHintBits HEAP_XMIN_INVALID InvalidTransactionId
  | XID_INPROGRESS => mret tt
  end.

Definition hint_xmax (hintstatus : TransactionIdStatus) : M unit :=
  xmax ← XmaxM;
  match hintstatus with
  | XID_COMMITTED => SetHintBits HEAP_XMAX_COMMITTED xmax
  | XID_ABORTED =>
      aborted ← LatestFetchCSNDidAbort xmax;
      (if negb aborted then LatestTransactionStatusError else mret tt);;
      SetHintBits HEAP_XMAX_INVALID InvalidTransactionId
  | XID_INPROGRESS => mret tt
  end.

(** The second opinion for a transaction the snapshot does not see, in the
    mode with mixed local and global snapshots; [bypass] is the condition
    under which it is not asked for, besides [!GTM_LITE_MODE] and the type of
    the snapshot.  The result tells also whether the reader waited. *)
Definition gtm_lite_visible (bypass : bool) (xid : Z) (snapshot : SnapshotData)
    (hintstatus : TransactionIdStatus) (xmin_equal_xmax : bool) : M (bool * bool) :=
  if negb GTM_LITE_MODE || bypass || negb (gtm_local snapshot) then mret (false, false)
  else IsXidVisibleInGtmLiteLocalSnapshot xid snapshot hintstatus xmin_equal_xmax.

Definition XminEqualXmax : M bool := xmin ← XminM; xmax ← XmaxM; mret (xmin =? xmax).

(** The tuple was inserted by the current transaction. *)
Definition HeapTupleSatisfiesMVCC_own (track : bool) (snapshot : SnapshotData) : M bool :=
  note_cur_write track GetCmin (curcid snapshot);;
  tuple ← get_tuple;
  stream ← (if flag (t_infomask tuple) HEAP_COMBOCID then of_result (CheckStreamCombocid tuple)
            else mret false);
  if stream : bool then mret true
  else
    cmin ← GetCmin;
    if curcid snapshot <=? cmin then mret false
    else if flag (t_infomask tuple) HEAP_XMAX_INVALID then mret true
    else if locked_only tuple then mret true
    else if flag (t_infomask tuple) HEAP_XMAX_IS_MULTI then
      xmax ← UpdateXidM;
      current ← TransactionIdIsCurrentTransactionId xmax;
      if negb current then mret true
      else
        cmax ← GetCmax;
        mret (curcid snapshot <=? cmax)
    else
      xmax ← XmaxM;
      current ← TransactionIdIsCurrentTransactionId xmax;
      if negb current then
        SetHintBits HEAP_XMAX_INVALID InvalidTransactionId;;
        mret true
      else
        note_cur_write track GetCmax (curcid snapshot);;
        cmax ← GetCmax;
        mret (curcid snapshot <=? cmax).

(** [t_xmax] is a multixact with an updater. *)
Definition HeapTupleSatisfiesMVCC_multi (snapshot : SnapshotData) : M bool :=
  xmax ← UpdateXidM;
  current ← TransactionIdIsCurrentTransactionId xmax;
  if current : bool then
    cmax ← GetCmax;
    mret (curcid snapshot <=? cmax)
  else
    inprogress ← TransactionIdIsInProgress xmax;
    if inprogress : bool then mret true
    else
      committed ← TransactionIdDidCommit xmax;
      if committed : bool then
        visible ← CommittedXidVisibleInSnapshot xmax snapshot;
        mret (negb visible)
      else mret true.

(** From [recheck_xmax:]; another round follows a wait after which the tuple
    has another [xmax]. *)
Fixpoint HeapTupleSatisfiesMVCC_xmax (rounds : nat) (track : bool) (snapshot : SnapshotData) :
  M bool :=
  match rounds with
  | O => of_option None
  | S rounds =>
      tuple ← get_tuple;
      if flag (t_infomask tuple) HEAP_XMAX_INVALID then mret true
      else if locked_only tuple then mret true
      else if flag (t_infomask tuple) HEAP_XMAX_IS_MULTI then
        HeapTupleSatisfiesMVCC_multi snapshot
      else if negb (flag (t_infomask tuple) HEAP_XMAX_COMMITTED) then
        xmax ← XmaxM;
        current ← (if negb (IsVersionMVCCSnapshot snapshot)
                   then TransactionIdIsCurrentTransactionId xmax else mret false);
        if current : bool then
          note_cur_write track GetCmax (curcid snapshot);;
          cmax ← GetCmax;
          mret (curcid snapshot <=? cmax)
        else
          r ← XidVisibleInSnapshot xmax snapshot;
          let '(visible, hintstatus, sync) := (r : bool * TransactionIdStatus * bool) in
          xmax' ← XmaxM;
          if sync && negb (xmax =? xmax') then HeapTupleSatisfiesMVCC_xmax rounds track snapshot
          else
            hint_xmax hintstatus;;
            if visible : bool then mret false
            else
              xmax' ← XmaxM;
              r ← gtm_lite_visible xc_maintenance_mode xmax' snapshot hintstatus false;
              let '(gvisible, gsync) := (r : bool * bool) in
              if gvisible : bool then mret false
              else
                xmax' ← XmaxM;
                if (sync || gsync) && negb (xmax =? xmax')
                then HeapTupleSatisfiesMVCC_xmax rounds track snapshot
                else mret true
      else
        xmax ← XmaxM;
        visible ← CommittedXidVisibleInSnapshot xmax snapshot;
        if visible : bool then mret false
        else
          xmax ← XmaxM;
          r ← gtm_lite_visible false xmax snapshot XID_COMMITTED false;
          mret (negb (fst r))
  end.

(** There are at most two more rounds than there are later instants
    (VisibilitySpec.v). *)
Definition HeapTupleSatisfiesMVCC_recheck (track : bool) (snapshot : SnapshotData) : M bool :=
  w ← getw;
  HeapTupleSatisfiesMVCC_xmax (S (S (length (w_later w)))) track snapshot.

Definition HeapTupleSatisfiesMVCC (track : bool) (snapshot : SnapshotData) : M bool :=
  if XactReadOnly && enable_show_any_tuples then mret true
  else
    tuple ← get_tuple;
    if negb (HeapTupleHeaderXminCommitted tuple) then
      if HeapTupleHeaderXminInvalid tuple then mret false
      else
        xmin ← XminM;
        current ← (if negb (IsVersionMVCCSnapshot snapshot)
                   then TransactionIdIsCurrentTransactionId xmin else mret false);
        if current : bool then HeapTupleSatisfiesMVCC_own track snapshot
        else
          r ← XidVisibleInSnapshot xmin snapshot;
          let '(visible, hintstatus, _) := (r : bool * TransactionIdStatus * bool) in
          hint_xmin hintstatus;;
          if visible : bool then HeapTupleSatisfiesMVCC_recheck track snapshot
          else
            xmin ← XminM;
            equal ← XminEqualXmax;
            r ← gtm_lite_visible xc_maintenance_mode xmin snapshot hintstatus equal;
            if fst (r : bool * bool) then HeapTupleSatisfiesMVCC_recheck track snapshot
            else mret false
    else if negb (HeapTupleHeaderXminFrozen tuple) then
      xmin ← XminM;
      visible ← CommittedXidVisibleInSnapshot xmin snapshot;
      if visible : bool then HeapTupleSatisfiesMVCC_recheck track snapshot
      else
        xmin ← XminM;
        equal ← XminEqualXmax;
        r ← gtm_lite_visible false xmin snapshot XID_COMMITTED equal;
        if fst (r : bool * bool) then HeapTupleSatisfiesMVCC_recheck track snapshot
        else mret false
    else HeapTupleSatisfiesMVCC_recheck track snapshot.

Definition HeapTupleSatisfiesVersionMVCC (snapshot : SnapshotData) : M bool :=
  HeapTupleSatisfiesMVCC false snapshot.

Definition HeapTupleSatisfiesLost (snapshot : SnapshotData) : M bool :=
  v ← HeapTupleSatisfiesVersionMVCC snapshot;
  if v : bool then negb <$> HeapTupleSatisfiesNow false else mret false.

Definition HeapTupleSatisfiesDelta (snapshot : SnapshotData) : M bool :=
  v ← HeapTupleSatisfiesVersionMVCC snapshot;
  if negb v then HeapTupleSatisfiesNow false else mret false.

(** ** HeapTupleSatisfiesVacuum *)

Definition RawXminM : M Z := htup ← get_htup; tuple ← get_tuple; mret (HeapTupleGetRawXmin htup tuple).
Definition RawXmaxM : M Z := htup ← get_htup; tuple ← get_tuple; mret (HeapTupleGetRawXmax htup tuple).

(** In initdb, or without a local snapshot, the first result; else the tuple
    is kept. *)
Definition unless_local (r : HTSV_Result) : HTSV_Result :=
  if negb useLocalSnapshot || IsInitdb then r else HEAPTUPLE_LIVE.

(** The transaction with status [st] committed: recheck in the commit log what
    the CSN log shows in progress. *)
Definition status_committed (st : TransactionIdStatus) (xid : Z) : M bool :=
  match st with
  | XID_COMMITTED => mret true
  | XID_INPROGRESS => TransactionIdDidCommit xid
  | XID_ABORTED => mret false
  end.
Definition status_running (st : TransactionIdStatus) (xid : Z) : M bool :=
  match st with
  | XID_INPROGRESS => TransactionIdIsInProgress xid
  | _ => mret false
  end.

(** The tuple is only locked. *)
Definition HeapTupleSatisfiesVacuum_locked : M HTSV_Result :=
  tuple ← get_tuple;
  if negb (flag (t_infomask tuple) HEAP_XMAX_COMMITTED) then
    xmax ← RawXmaxM;
    running ← (if flag (t_infomask tuple) HEAP_XMAX_IS_MULTI then MultiXactIdIsRunning xmax
               else
                 st ← TransactionIdGetStatus xmax;
                 status_running st xmax);
    if running : bool then mret HEAPTUPLE_LIVE
    else
      SetHintBits HEAP_XMAX_INVALID InvalidTransactionId;;
      mret HEAPTUPLE_LIVE
  else mret HEAPTUPLE_LIVE.

(** The deleter committed: the comparison with the horizon. *)
Definition dead_or_recent (xmax OldestXmin : Z) : HTSV_Result :=
  if negb (TransactionIdPrecedes xmax OldestXmin) then HEAPTUPLE_RECENTLY_DEAD else HEAPTUPLE_DEAD.

(** [t_xmax] is a multixact with an updater. *)
Definition HeapTupleSatisfiesVacuum_multi (OldestXmin : Z) : M HTSV_Result :=
  tuple ← get_tuple;
  page ← get_page;
  let xmax := HeapTupleHeaderGetUpdateXid page tuple in
  inprogress ← TransactionIdIsInProgress xmax;
  if inprogress : bool then mret HEAPTUPLE_DELETE_IN_PROGRESS
  else
    committed ← TransactionIdDidCommit xmax;
    if committed : bool then mret (dead_or_recent xmax OldestXmin)
    else
      raw ← XmaxM;
      running ← MultiXactIdIsRunning raw;
      (if negb running then SetHintBits HEAP_XMAX_INVALID InvalidTransactionId else mret tt);;
      mret HEAPTUPLE_LIVE.

(** [t_xmax] is a deleter not yet known to have committed. *)
Definition HeapTupleSatisfiesVacuum_single (OldestXmin : Z) : M HTSV_Result :=
  xmax ← RawXmaxM;
  st ← TransactionIdGetStatus xmax;
  running ← status_running st xmax;
  if running : bool then mret HEAPTUPLE_DELETE_IN_PROGRESS
  else
    committed ← status_committed st xmax;
    if committed : bool then
      SetHintBits HEAP_XMAX_COMMITTED xmax;;
      mret (unless_local (dead_or_recent xmax OldestXmin))
    else
      xmax' ← XmaxM;
      aborted ← LatestFetchTransactionIdDidAbort xmax';
      (if negb aborted then LatestTransactionStatusError else mret tt);;
      SetHintBits HEAP_XMAX_INVALID InvalidTransactionId;;
      mret HEAPTUPLE_LIVE.

(** From "the inserter committed". *)
Definition HeapTupleSatisfiesVacuum_xmax (OldestXmin : Z) : M HTSV_Result :=
  tuple ← get_tuple;
  if flag (t_infomask tuple) HEAP_XMAX_INVALID then mret HEAPTUPLE_LIVE
  else if locked_only tuple then HeapTupleSatisfiesVacuum_locked
  else if flag (t_infomask tuple) HEAP_XMAX_IS_MULTI then
    HeapTupleSatisfiesVacuum_multi OldestXmin
  else if negb (flag (t_infomask tuple) HEAP_XMAX_COMMITTED) then
    HeapTupleSatisfiesVacuum_single OldestXmin
  else
    xmax ← RawXmaxM;
    mret (unless_local (dead_or_recent xmax OldestXmin)).

(** The tuple was inserted by the current transaction. *)
Definition HeapTupleSatisfiesVacuum_own : M HTSV_Result :=
  tuple ← get_tuple;
  if flag (t_infomask tuple) HEAP_XMAX_INVALID then mret HEAPTUPLE_INSERT_IN_PROGRESS
  else if locked_only tuple then mret HEAPTUPLE_INSERT_IN_PROGRESS
  else
    xmax ← RawXmaxM;
    current ← TransactionIdIsCurrentTransactionId xmax;
    mret (if current : bool then HEAPTUPLE_DELETE_IN_PROGRESS
          else HEAPTUPLE_INSERT_IN_PROGRESS).

Definition HeapTupleSatisfiesVacuum (OldestXmin : Z) (isAnalyzing : bool) : M HTSV_Result :=
  page ← get_page;
  htup ← get_htup;
  modify (set_htup (HeapTupleCopyBaseFromPage htup page));;
  tuple ← get_tuple;
  if negb (HeapTupleHeaderXminCommitted tuple) then
    if HeapTupleHeaderXminInvalid tuple then mret HEAPTUPLE_DEAD
    else
      xmin ← RawXminM;
      st ← TransactionIdGetStatus xmin;
      current ← TransactionIdIsCurrentTransactionId xmin;
      if current : bool then
        HeapTupleSatisfiesVacuum_own
      else
        running ← status_running st xmin;
        if running : bool then mret HEAPTUPLE_INSERT_IN_PROGRESS
        else
          committed ← status_committed st xmin;
          if committed : bool then
            (if negb isAnalyzing then SetHintBits HEAP_XMIN_COMMITTED xmin else mret tt);;
            HeapTupleSatisfiesVacuum_xmax OldestXmin
          else
            xmin' ← XminM;
            aborted ← LatestFetchTransactionIdDidAbort xmin';
            (if negb aborted then LatestTransactionStatusError else mret tt);;
            SetHintBits HEAP_XMIN_INVALID InvalidTransactionId;;
            mret (unless_local HEAPTUPLE_DEAD)
  else HeapTupleSatisfiesVacuum_xmax OldestXmin.

(** ** Tests of the hint bits only *)

Definition HeapTupleIsSurelyDead (htup : HeapTupleData) (tup : HeapTupleHeaderData) (OldestXmin : Z) : bool :=
  if negb (HeapTupleHeaderXminCommitted tup) then HeapTupleHeaderXminInvalid tup
  else if flag (t_infomask tup) HEAP_XMAX_INVALID then false
  else if locked_only tup then false
  else if flag (t_infomask tup) HEAP_XMAX_IS_MULTI then false
  else if negb (flag (t_infomask tup) HEAP_XMAX_COMMITTED) then false
  else TransactionIdPrecedes (HeapTupleGetRawXmax htup tup) OldestXmin.

Definition HeapTupleIsOnlyLocked : M bool :=
  tuple ← get_tuple;
  if flag (t_infomask tuple) HEAP_XMAX_INVALID then mret true
  else if flag (t_infomask2 tuple) HEAP_XMAX_LOCK_ONLY then mret true
  else
    raw ← RawXmaxM;
    if negb (TransactionIdIsValid raw) then mret true
    else if negb (flag (t_infomask tuple) HEAP_XMAX_IS_MULTI) then mret false
    else
      htup ← get_htup;
      let xmax := HeapTupleMultiXactGetUpdateXid htup tuple in
      if negb (TransactionIdIsValid xmax) then mret true
      else
        current ← TransactionIdIsCurrentTransactionId xmax;
        if current : bool then mret false
        else
          inprogress ← TransactionIdIsInProgress xmax;
          if inprogress : bool then mret false
          else
            committed ← TransactionIdDidCommit xmax;
            mret (negb committed).

(** ** HeapTupleSatisfiesHistoricMVCC

    Logical decoding.  The arrays of the snapshot are sorted, so the library's
    [bsearch] finds what they contain.  [resolve] is
    [ResolveCminCmaxDuringDecoding]: the command ids of the tuple as recorded
    in the WAL and the logical mapping files, if they are there. *)

Definition TransactionIdInArray (xid : Z) (xip : list Z) : bool := existsb (Z.eqb xid) xip.

(** What the snapshot says of the deleter. *)
Definition HeapTupleSatisfiesHistoricMVCC_xmax (resolve : option (Z * Z)) (snapshot : SnapshotData)
    (xmax : Z) : M bool :=
  tuple ← get_tuple;
  if flag (t_infomask tuple) HEAP_XMAX_INVALID then mret true
  else if TransactionIdInArray xmax (snap_subxip snapshot) then
    match resolve with
    | None => raise ERRCODE_NO_DATA_FOUND
    | Some (_, cmax) => mret (curcid snapshot <=? cmax)
    end
  else if TransactionIdPrecedes xmax (snap_xmin snapshot) then
    if flag (t_infomask tuple) HEAP_XMAX_COMMITTED then mret false
    else negb <$> TransactionIdDidCommit xmax
  else if TransactionIdFollowsOrEquals xmax (snap_xmax snapshot) then mret true
  else mret (negb (TransactionIdInArray xmax (snap_xip snapshot))).

Definition HeapTupleSatisfiesHistoricMVCC (resolve : option (Z * Z)) (snapshot : SnapshotData) :
  M bool :=
  tuple ← get_tuple;
  xmin ← XminM;
  xmax ← XmaxM;
  if HeapTupleHeaderXminInvalid tuple then mret false
  else if TransactionIdInArray xmin (snap_subxip snapshot) then
    match resolve with
    | None => raise ERRCODE_NO_DATA_FOUND
    | Some (cmin, _) =>
        if curcid snapshot <=? cmin then mret false
        else HeapTupleSatisfiesHistoricMVCC_xmax resolve snapshot xmax
    end
  else if TransactionIdPrecedes xmin (snap_xmin snapshot) then
    committed ← (if negb (HeapTupleHeaderXminCommitted tuple) then TransactionIdDidCommit xmin
                 else mret true);
    if negb committed then mret false
    else HeapTupleSatisfiesHistoricMVCC_xmax resolve snapshot xmax
  else if TransactionIdFollowsOrEquals xmin (snap_xmax snapshot) then mret false
  else if TransactionIdInArray xmin (snap_xip snapshot)
  then HeapTupleSatisfiesHistoricMVCC_xmax resolve snapshot xmax
  else mret false.

(** ** HeapTupleSatisfiesDecodeMVCC

    The parts answer [Some visible] when that determines the visibility. *)

Definition HeapTupleUncommitedXminCheckDecodeMVCC (snapshot : SnapshotData) : M (option bool) :=
  tuple ← get_tuple;
  if HeapTupleHeaderXminInvalid tuple then mret (Some false)
  else
    xmin ← XminM;
    current ← (if negb (IsVersionMVCCSnapshot snapshot)
               then TransactionIdIsCurrentTransactionId xmin else mret false);
    if current : bool then
      if flag (t_infomask tuple) HEAP_XMAX_INVALID || locked_only tuple then mret (Some true)
      else
        xmax ← XmaxM;
        current ← TransactionIdIsCurrentTransactionId xmax;
        if negb current then
          SetHintBits HEAP_XMAX_INVALID InvalidTransactionId;;
          mret (Some true)
        else mret None
    else
      r ← XidVisibleInDecodeSnapshot xmin snapshot;
      let '(visible, status) := (r : bool * TransactionIdStatus) in
      hint_xmin status;;
      if visible : bool then mret None
      else
        equal ← XminEqualXmax;
        r ← gtm_lite_visible xc_maintenance_mode xmin snapshot status equal;
        mret (if fst (r : bool * bool) then None else Some false).

Definition HeapTupleCommitedXminCheckDecodeMVCC (snapshot : SnapshotData) : M (option bool) :=
  tuple ← get_tuple;
  if HeapTupleHeaderXminFrozen tuple then mret None
  else
    xmin ← XminM;
    visible ← CommittedXidVisibleInDecodeSnapshot xmin snapshot;
    if visible : bool then mret None
    else
      equal ← XminEqualXmax;
      r ← gtm_lite_visible false xmin snapshot XID_COMMITTED equal;
      mret (if fst (r : bool * bool) then None else Some false).

Definition HeapTupleXmaxCheckDecodeMVCC (snapshot : SnapshotData) : M (option bool) :=
  tuple ← get_tuple;
  if flag (t_infomask tuple) HEAP_XMAX_INVALID || locked_only tuple
     || flag (t_infomask tuple) HEAP_XMAX_IS_MULTI
  then mret (Some true)
  else if negb (flag (t_infomask tuple) HEAP_XMAX_COMMITTED) then
    xmax ← XmaxM;
    r ← XidVisibleInDecodeSnapshot xmax snapshot;
    let '(visible, status) := (r : bool * TransactionIdStatus) in
    hint_xmax status;;
    if visible : bool then mret None
    else
      r ← gtm_lite_visible xc_maintenance_mode xmax snapshot status false;
      mret (if fst (r : bool * bool) then None else Some true)
  else
    xmax ← XmaxM;
    visible ← CommittedXidVisibleInDecodeSnapshot xmax snapshot;
    if visible : bool then mret None
    else
      r ← gtm_lite_visible false xmax snapshot XID_COMMITTED false;
      mret (if fst (r : bool * bool) then None else Some true).

Definition HeapTupleSatisfiesDecodeMVCC (snapshot : SnapshotData) : M bool :=
  if XactReadOnly && enable_show_any_tuples then mret true
  else
    tuple ← get_tuple;
    v ← (if negb (HeapTupleHeaderXminCommitted tuple)
         then HeapTupleUncommitedXminCheckDecodeMVCC snapshot
         else HeapTupleCommitedXminCheckDecodeMVCC snapshot);
    match (v : option bool) with
    | Some visible => mret visible
    | None =>
        v ← HeapTupleXmaxCheckDecodeMVCC snapshot;
        mret (default false (v : option bool))
    end.

(** ** The dispatch on the type of the snapshot *)

Definition HeapTupleSatisfiesVisibility (resolve : option (Z * Z)) (track : bool)
    (snapshot : SnapshotData) : M bool :=
  match satisfies snapshot with
  | SNAPSHOT_MVCC => HeapTupleSatisfiesMVCC track snapshot
  | SNAPSHOT_VERSION_MVCC => HeapTupleSatisfiesVersionMVCC snapshot
  | SNAPSHOT_DELTA => HeapTupleSatisfiesDelta snapshot
  | SNAPSHOT_LOST => HeapTupleSatisfiesLost snapshot
  | SNAPSHOT_NOW => HeapTupleSatisfiesNow track
  | SNAPSHOT_SELF => HeapTupleSatisfiesSelf
  | SNAPSHOT_ANY => HeapTupleSatisfiesAny
  | SNAPSHOT_TOAST => HeapTupleSatisfiesToast
  | SNAPSHOT_DIRTY => HeapTupleSatisfiesDirty
  | SNAPSHOT_HISTORIC_MVCC => HeapTupleSatisfiesHistoricMVCC resolve snapshot
  | SNAPSHOT_DECODE_MVCC => HeapTupleSatisfiesDecodeMVCC snapshot
  end.

(** An error unless the isolation level uses one snapshot for the whole
    transaction ([IsolationUsesXactSnapshot]), or the tuple is visible or the
    current transaction's own. *)
Definition XACT_REPEATABLE_READ : Z := 2.

Definition HeapTupleCheckVisible (resolve : option (Z * Z)) (snapshot : SnapshotData) : M unit :=
  if negb (XACT_REPEATABLE_READ <=? XactIsoLevel) then mret tt
  else
    visible ← HeapTupleSatisfiesVisibility resolve false snapshot;
    if visible : bool then mret tt
    else
      xmin ← XminM;
      current ← TransactionIdIsCurrentTransactionId xmin;
      if negb current then raise ERRCODE_T_R_SERIALIZATION_FAILURE else mret tt.
End Visibility.
