(* ===== verification/VisibilitySpec.v ===== *)
(** What the visibility tests promise (the contracts and the properties of the
    definitions of Visibility.v).

    A test may look at the state of other backends several times, at different
    instants, and it changes hint bits.  The theorems say that its answer is
    right at a single instant of the call ([observed]), for the fates that the
    transactions of the tuple have at that instant, and that what it writes on
    the tuple is true ([hframe]). *)
From S2P Require Import Prelude Xid XactLog HeapTuple Transam TransamSpec Visibility.
From stdpp Require Import gmap sorting.
#[local] Open Scope Z_scope.

(** ** Hint bits *)

Definition HINTS : Z :=
  Z.lor (Z.lor HEAP_XMIN_COMMITTED HEAP_XMIN_INVALID) (Z.lor HEAP_XMAX_COMMITTED HEAP_XMAX_INVALID).

(** The same tuple with more hint bits. *)
Definition hinted (tup tup' : HeapTupleHeaderData) : Prop :=
  exists bits, Z.land bits HINTS = bits /\ tup' = or_infomask tup bits.

Lemma hinted_refl tup : hinted tup tup.
Proof.
  exists 0. split; [done|]. unfold or_infomask, set_infomask. rewrite Z.lor_0_r. by destruct tup.
Qed.

Lemma hinted_trans t1 t2 t3 : hinted t1 t2 -> hinted t2 t3 -> hinted t1 t3.
Proof.
  intros (b1 & H1 & ->) (b2 & H2 & ->). exists (Z.lor b1 b2). split.
  - by rewrite Z.land_lor_distr_l, H1, H2.
  - unfold or_infomask, set_infomask. simpl. by rewrite Z.lor_assoc.
Qed.

Lemma hinted_bit tup bits : Z.land bits HINTS = bits -> hinted tup (or_infomask tup bits).
Proof. intros H. by exists bits. Qed.

(** The other bits of the infomask stay. *)
Lemma hinted_land tup tup' K : hinted tup tup' -> Z.land HINTS K = 0 ->
  Z.land (t_infomask tup') K = Z.land (t_infomask tup) K.
Proof.
  intros (bits & Hb & ->) HK. simpl. rewrite Z.land_lor_distr_l.
  rewrite <- Hb, <- Z.land_assoc, HK, Z.land_0_r. apply Z.lor_0_r.
Qed.

Lemma hinted_flag tup tup' K : hinted tup tup' -> Z.land HINTS K = 0 ->
  flag (t_infomask tup') K = flag (t_infomask tup) K.
Proof. intros H HK. unfold flag. by rewrite (hinted_land tup tup' K H HK). Qed.

Lemma hinted_fields tup tup' : hinted tup tup' ->
  t_xmin tup' = t_xmin tup /\ t_xmax tup' = t_xmax tup /\ t_cid tup' = t_cid tup
  /\ t_ctid tup' = t_ctid tup /\ t_infomask2 tup' = t_infomask2 tup.
Proof. by intros (bits & _ & ->). Qed.

Lemma hinted_keeps tup tup' K : hinted tup tup' ->
  flag (t_infomask tup) K = true -> flag (t_infomask tup') K = true.
Proof.
  intros (bits & _ & ->). unfold flag. simpl. intros Hf. apply negb_true_iff, Z.eqb_neq.
  apply negb_true_iff, Z.eqb_neq in Hf. intros H0. apply Hf. rewrite Z.land_lor_distr_l in H0.
  by apply Z.lor_eq_0_iff in H0 as [? _].
Qed.

Section Hinted.
Context {bs : BlockSize} {ses : Session} (tup tup' : HeapTupleHeaderData) (H : hinted tup tup').

Lemma hinted_multi : flag (t_infomask tup') HEAP_XMAX_IS_MULTI = flag (t_infomask tup) HEAP_XMAX_IS_MULTI.
Proof. by apply hinted_flag. Qed.

Lemma hinted_locked_only : locked_only tup' = locked_only tup.
Proof.
  unfold locked_only, HEAP_XMAX_IS_LOCKED_ONLY.
  destruct (hinted_fields _ _ H) as (_ & _ & _ & _ & ->).
  rewrite (hinted_flag tup tup' HEAP_XMAX_SHARED_LOCK H eq_refl).
  by rewrite (hinted_land tup tup' (Z.lor HEAP_XMAX_IS_MULTI HEAP_LOCK_MASK) H eq_refl).
Qed.

Lemma hinted_xmin page : xmin_of page tup' = xmin_of page tup.
Proof. unfold xmin_of, HeapTupleHeaderGetXmin. by destruct (hinted_fields _ _ H) as (-> & _). Qed.

Lemma hinted_xmax page : HeapTupleHeaderGetXmax page tup' = HeapTupleHeaderGetXmax page tup.
Proof.
  unfold HeapTupleHeaderGetXmax. destruct (hinted_fields _ _ H) as (_ & -> & _). by rewrite hinted_multi.
Qed.

Lemma hinted_deleter page : deleter page tup' = deleter page tup.
Proof.
  unfold deleter. fold (locked_only tup) (locked_only tup'). rewrite hinted_locked_only, hinted_multi.
  unfold HeapTupleHeaderMultiXactGetUpdateXid. by rewrite hinted_xmax.
Qed.

Lemma hinted_cmin : HeapTupleHeaderGetCmin comboCids tup' = HeapTupleHeaderGetCmin comboCids tup.
Proof.
  unfold HeapTupleHeaderGetCmin, HeapTupleHeaderGetRawCommandId.
  destruct (hinted_fields _ _ H) as (_ & _ & -> & _).
  by rewrite (hinted_flag tup tup' HEAP_COMBOCID H eq_refl).
Qed.

Lemma hinted_cmax : HeapTupleHeaderGetCmax comboCids tup' = HeapTupleHeaderGetCmax comboCids tup.
Proof.
  unfold HeapTupleHeaderGetCmax, HeapTupleHeaderGetRawCommandId.
  destruct (hinted_fields _ _ H) as (_ & _ & -> & _).
  by rewrite (hinted_flag tup tup' HEAP_COMBOCID H eq_refl).
Qed.
End Hinted.

(** The flags of a tuple with one more hint. *)
Lemma flag_or m b1 b2 : 0 <= b1 -> 0 <= b2 ->
  flag (Z.lor m (2 ^ b1)) (2 ^ b2) = flag m (2 ^ b2) || (b1 =? b2).
Proof.
  intros H1 H2. rewrite flag_lor by done. f_equal. rewrite flag_pow2 by done. by apply Z.pow2_bits_eqb.
Qed.

Lemma land_pow2 m b : 0 <= b -> Z.land m (2 ^ b) = if Z.testbit m b then 2 ^ b else 0.
Proof.
  intros Hb. apply Z.bits_inj'. intros k Hk. rewrite Z.land_spec, Z.pow2_bits_eqb by done.
  destruct (Z.eqb_spec b k) as [->|].
  - destruct (Z.testbit m k); [by rewrite Z.pow2_bits_true|by rewrite Z.bits_0].
  - rewrite andb_false_r. destruct (Z.testbit m b); [|by rewrite Z.bits_0].
    symmetry. by apply Z.pow2_bits_false.
Qed.

Lemma XminInvalid_flags tup : HeapTupleHeaderXminInvalid tup
  = flag (t_infomask tup) HEAP_XMIN_INVALID && negb (flag (t_infomask tup) HEAP_XMIN_COMMITTED).
Proof.
  unfold HeapTupleHeaderXminInvalid.
  change HEAP_XMIN_COMMITTED with (2 ^ 8). change HEAP_XMIN_INVALID with (2 ^ 9).
  rewrite !flag_pow2, Z.land_lor_distr_r, !land_pow2 by done.
  by destruct (Z.testbit (t_infomask tup) 8), (Z.testbit (t_infomask tup) 9).
Qed.

Lemma XminFrozen_flags tup : HeapTupleHeaderXminFrozen tup
  = flag (t_infomask tup) HEAP_XMIN_INVALID && flag (t_infomask tup) HEAP_XMIN_COMMITTED.
Proof.
  unfold HeapTupleHeaderXminFrozen, HEAP_XMIN_FROZEN.
  change HEAP_XMIN_COMMITTED with (2 ^ 8). change HEAP_XMIN_INVALID with (2 ^ 9).
  rewrite !flag_pow2, Z.land_lor_distr_r, !land_pow2 by done.
  by destruct (Z.testbit (t_infomask tup) 8), (Z.testbit (t_infomask tup) 9).
Qed.

(** What the visibility tests do to a header: hint bits, but never both hints
    about the inserter, which together mean "frozen". *)
Record hint_step (tup tup' : HeapTupleHeaderData) : Prop := {
  hs_hinted : hinted tup tup';
  hs_invalid : HeapTupleHeaderXminInvalid tup = true -> HeapTupleHeaderXminInvalid tup' = true;
  hs_frozen : HeapTupleHeaderXminFrozen tup' = HeapTupleHeaderXminFrozen tup }.

Lemma hint_step_refl tup : hint_step tup tup.
Proof. split; [apply hinted_refl|done|done]. Qed.

Lemma hint_step_trans t1 t2 t3 : hint_step t1 t2 -> hint_step t2 t3 -> hint_step t1 t3.
Proof. intros [H1 H1' F1] [H2 H2' F2]. split; [by eapply hinted_trans|auto|congruence]. Qed.

(** ** Frames *)

Section Facts.
Context {bs : BlockSize} {ses : Session} {his : History} {buf : Buffer} (P : Shared -> Prop).

(** Time has passed, caches have changed, and the tuple has more hint bits. *)
Record hframe (w w' : World) : Prop := {
  hf_inv : Inv P w';
  hf_evolves : evolves (w_now w) (w_now w');
  hf_views : views w' `suffix_of` views w;
  hf_page : w_page w' = w_page w;
  hf_step : hint_step (w_tuple w) (w_tuple w');
  hf_htup : w_htup w' = w_htup w;
  hf_out : w_out_xmin w' = w_out_xmin w /\ w_out_xmax w' = w_out_xmax w }.

Lemma frame_hframe w w' : frame P w w' -> hframe w w'.
Proof.
  intros H. constructor; try apply H. rewrite (f_tuple _ _ _ H). apply hint_step_refl.
Qed.

Lemma hf_tuple w w' : hframe w w' -> hinted (w_tuple w) (w_tuple w').
Proof. intros H. apply H. Qed.

Lemma hframe_refl w : Inv P w -> hframe w w.
Proof. intros H. by apply frame_hframe, frame_refl. Qed.

Lemma hframe_trans w1 w2 w3 : hframe w1 w2 -> hframe w2 w3 -> hframe w1 w3.
Proof.
  intros H1 H2. constructor.
  - apply H2.
  - etrans; [apply H1|apply H2].
  - etrans; [apply H2|apply H1].
  - by rewrite (hf_page _ _ H2), (hf_page _ _ H1).
  - eapply hint_step_trans; [apply H1|apply H2].
  - by rewrite (hf_htup _ _ H2), (hf_htup _ _ H1).
  - destruct (hf_out _ _ H2) as [-> ->]. apply H1.
Qed.

Lemma frame_h w1 w2 w3 : frame P w1 w2 -> hframe w2 w3 -> hframe w1 w3.
Proof. intros H. by apply hframe_trans, frame_hframe. Qed.

Lemma h_frame w1 w2 w3 : hframe w1 w2 -> frame P w2 w3 -> hframe w1 w3.
Proof. intros H1 H2. eapply hframe_trans; [done|]. by apply frame_hframe. Qed.

(** Only the results that are not part of the invariant change. *)
Lemma hframe_same w w' : Inv P w -> w_now w' = w_now w -> w_later w' = w_later w ->
  w_thrd w' = w_thrd w -> w_page w' = w_page w -> w_tuple w' = w_tuple w -> w_htup w' = w_htup w ->
  w_out_xmin w' = w_out_xmin w -> w_out_xmax w' = w_out_xmax w -> hframe w w'.
Proof.
  intros [H1 H2 H3] E1 E2 E3 E4 E5 E6 E7 E8. constructor; rewrite ?E1; try done.
  - constructor; by rewrite ?E1, ?E2, ?E3, ?E4, ?E5.
  - unfold views. by rewrite E1, E2.
  - rewrite E5. apply hint_step_refl.
Qed.

(** The reads. *)
Lemma wp_get_tuple Q w : Q (w_tuple w) w -> wp get_tuple Q w.
Proof. done. Qed.
Lemma wp_get_page Q w : Q (w_page w) w -> wp get_page Q w.
Proof. done. Qed.
Lemma wp_get_htup Q w : Q (w_htup w) w -> wp get_htup Q w.
Proof. done. Qed.
Lemma wp_XminM Q w : Q (xmin_of (w_page w) (w_tuple w)) w -> wp XminM Q w.
Proof. done. Qed.
Lemma wp_XmaxM Q w : Q (HeapTupleHeaderGetXmax (w_page w) (w_tuple w)) w -> wp XmaxM Q w.
Proof. done. Qed.
Lemma wp_UpdateXidM Q w :
  Q (HeapTupleHeaderMultiXactGetUpdateXid (w_page w) (w_tuple w)) w -> wp UpdateXidM Q w.
Proof. done. Qed.

(** ** SetHintBits *)

(** The hint is true of the tuple. *)
Definition hint_fits (s : Shared) (page : HeapPage) (tup : HeapTupleHeaderData) (m : Z) : Prop :=
  (m = HEAP_XMIN_COMMITTED /\ known_committed s (xmin_of page tup))
  \/ (m = HEAP_XMIN_INVALID /\ known_aborted s (xmin_of page tup))
  \/ (m = HEAP_XMAX_COMMITTED /\ forall d, deleter page tup = Some d -> known_committed s d)
  \/ (m = HEAP_XMAX_INVALID /\ forall d, deleter page tup = Some d -> known_aborted s d).

Lemma hint_fits_HINTS s page tup m : hint_fits s page tup m -> Z.land m HINTS = m.
Proof. by intros [[-> _]|[[-> _]|[[-> _]|[-> _]]]]. Qed.

Lemma hint_fits_mono s s' page tup m : evolves s s' -> hint_fits s page tup m -> hint_fits s' page tup m.
Proof.
  intros He [[-> H]|[[-> H]|[[-> H]|[-> H]]]].
  - left. split; [done|]. by eapply known_committed_mono.
  - right; left. split; [done|]. by eapply known_aborted_mono.
  - right; right; left. split; [done|]. intros d Hd. eapply known_committed_mono; [done|auto].
  - right; right; right. split; [done|]. intros d Hd. eapply known_aborted_mono; [done|auto].
Qed.

Lemma tuple_ok_hint s page tup m : tuple_ok s page tup -> hint_fits s page tup m ->
  tuple_ok s page (or_infomask tup m).
Proof.
  intros Hok Hm. assert (H : hinted tup (or_infomask tup m)).
  { apply hinted_bit. by eapply hint_fits_HINTS. }
  set (tup' := or_infomask tup m) in *.
  assert (Hfl : forall b, 0 <= b -> flag (t_infomask tup') (2 ^ b)
    = flag (t_infomask tup) (2 ^ b) || flag m (2 ^ b)) by (intros; by apply flag_lor).
  constructor; rewrite ?(hinted_xmin tup tup' H), ?(hinted_xmax tup tup' H), ?(hinted_multi tup tup' H),
    ?(hinted_deleter tup tup' H); try apply Hok.
  - rewrite XminFrozen_flags. unfold HeapTupleHeaderXminCommitted.
    change HEAP_XMIN_COMMITTED with (2 ^ 8). change HEAP_XMIN_INVALID with (2 ^ 9).
    rewrite !Hfl by done. intros Hc Hf. destruct Hm as [[-> ?]|[[-> _]|[[-> _]|[-> _]]]]; [done| | |].
    + exfalso. rewrite orb_false_r in Hc. rewrite Hc, orb_true_r in Hf. done.
    + rewrite orb_false_r in Hc. rewrite !orb_false_r in Hf. apply Hok; [done|].
      by rewrite XminFrozen_flags.
    + rewrite orb_false_r in Hc. rewrite !orb_false_r in Hf. apply Hok; [done|].
      by rewrite XminFrozen_flags.
  - rewrite XminInvalid_flags.
    change HEAP_XMIN_COMMITTED with (2 ^ 8). change HEAP_XMIN_INVALID with (2 ^ 9).
    rewrite !Hfl by done. intros Hc. destruct Hm as [[-> _]|[[-> ?]|[[-> _]|[-> _]]]]; [|done| |].
    + by rewrite orb_true_r, andb_false_r in Hc.
    + rewrite !orb_false_r in Hc. apply Hok. by rewrite XminInvalid_flags.
    + rewrite !orb_false_r in Hc. apply Hok. by rewrite XminInvalid_flags.
  - intros d. change HEAP_XMAX_COMMITTED with (2 ^ 10). rewrite Hfl by done. intros Hc Hd.
    destruct Hm as [[-> _]|[[-> _]|[[-> ?]|[-> _]]]]; [..|by auto|]; rewrite orb_false_r in Hc;
      by eapply (t_hint_xmax_committed _ _ _ Hok).
  - intros d. change HEAP_XMAX_INVALID with (2 ^ 11). rewrite Hfl by done. intros Hc Hd.
    destruct Hm as [[-> _]|[[-> _]|[[-> _]|[-> ?]]]]; [..|by auto]; rewrite orb_false_r in Hc;
      by eapply (t_hint_xmax_invalid _ _ _ Hok).
  - intros d Hc. apply Hok. unfold HeapTupleHeaderXminCommitted in *.
    change HEAP_XMIN_COMMITTED with (2 ^ 8) in *. rewrite Hfl in Hc by done.
    by apply orb_false_iff in Hc as [? _].
Qed.

(** A new hint about the inserter is the first one. *)
Lemma hint_step_fits s page tup m : tuple_ok s page tup -> hint_fits s page tup m ->
  flag (t_infomask tup) m = false -> hint_step tup (or_infomask tup m).
Proof.
  intros Hok Hm Hnew. assert (Hx : forall b, 0 <= b -> flag (t_infomask (or_infomask tup m)) (2 ^ b)
    = flag (t_infomask tup) (2 ^ b) || flag m (2 ^ b)) by (intros; by apply flag_lor).
  pose proof (Hx 8 ltac:(done)) as H8. pose proof (Hx 9 ltac:(done)) as H9.
  change (2 ^ 8) with HEAP_XMIN_COMMITTED in H8. change (2 ^ 9) with HEAP_XMIN_INVALID in H9.
  split; [apply hinted_bit; by eapply hint_fits_HINTS| |]; rewrite ?XminInvalid_flags, ?XminFrozen_flags, H8, H9;
    destruct Hm as [[-> Hc]|[[-> Ha]|[[-> _]|[-> _]]]]; cbn; rewrite ?orb_false_r, ?orb_true_r, ?andb_true_r; try done.
  - intros [Hi _]%andb_true_iff. destruct (t_hint_xmin_invalid _ _ _ Hok) as [Hno _].
    { by rewrite XminInvalid_flags, Hi, Hnew. }
    destruct Hc as [Hyes _]. congruence.
  - intros [Hi _]%andb_true_iff. congruence.
  - rewrite Hnew, andb_false_r. destruct (flag (t_infomask tup) HEAP_XMIN_INVALID) eqn:Hi; [|done].
    destruct (t_hint_xmin_invalid _ _ _ Hok) as [Hno _]; [by rewrite XminInvalid_flags, Hi, Hnew|].
    destruct Hc as [Hyes _]. congruence.
  - rewrite Hnew. cbn. destruct (flag (t_infomask tup) HEAP_XMIN_COMMITTED) eqn:Hi; [|done].
    destruct (t_hint_xmin_committed _ _ _ Hok) as [Hno _]; [done|by rewrite XminFrozen_flags, Hnew|].
    destruct Ha as [Hyes _]. congruence.
Qed.

Lemma wp_TransactionIdGetCommitLSN xid Q w : Inv P w ->
  (forall lsn w', frame P w w' -> w_thrd w' = w_thrd w -> Q lsn w') -> wp (TransactionIdGetCommitLSN xid) Q w.
Proof.
  intros Hi HQ. unfold TransactionIdGetCommitLSN. apply wp_bind, wp_get_thrd.
  destruct (TransactionIdEquals _ _); [by apply wp_ret, HQ; [apply frame_refl|]|].
  destruct (negb _); [by apply wp_ret, HQ; [apply frame_refl|]|].
  apply wp_bind, (wp_CLogGetStatusM P); [done|]. intros w' lsn Hf Ht. apply wp_ret. by apply HQ.
Qed.

(** Only this hint was added. *)
Definition hint_by (m : Z) (w w' : World) : Prop :=
  w_tuple w' = w_tuple w \/ w_tuple w' = or_infomask (w_tuple w) m.

(** What is known of a value can be used with the run that gave it. *)
Lemma wp_run {A} (m : M A) Q w : wp m Q w -> wp m (fun a w' => Q a w' /\ m w = Ret a w') w.
Proof. unfold wp. destruct (m w); [by split|done|done]. Qed.

(** The commit record is on disk, or written no later than the page: the hint
    cannot reach the disk before it. *)
Definition durable (xid : Z) (w w' : World) : Prop :=
  TransactionIdIsValid xid = true -> BufferIsPermanent = true ->
  exists lsn w1, TransactionIdGetCommitLSN xid w = Ret lsn w1
    /\ (lsn <= sh_flushed (w_now w') \/ lsn <= pd_lsn (w_page w)).

Lemma wp_SetHintBits_full m xid Q w : Inv P w -> hint_fits (w_now w) (w_page w) (w_tuple w) m ->
  (forall w', hframe w w' ->
     w_tuple w' = w_tuple w /\ w_dirty w' = w_dirty w
     \/ w_tuple w' = or_infomask (w_tuple w) m /\ w_dirty w' = true /\ durable xid w w' -> Q tt w') ->
  wp (SetHintBits m xid) Q w.
Proof.
  intros Hi Hm HQ. unfold SetHintBits.
  assert (Hno : wp (mret tt) Q w) by (by apply wp_ret, HQ; [apply hframe_refl|left]).
  destruct SS_STANDBY_MODE; [done|]. destruct (_ || _ || _); [done|]. destruct (_ && _); [done|].
  destruct enable_cluster_resize; [done|].
  apply wp_bind, wp_get_tuple, wp_bind, wp_get_page.
  destruct (flag (t_infomask (w_tuple w)) m) eqn:Hnew; [done|].
  assert (Hset : forall w1 (early : bool), frame P w w1 -> (early = false -> durable xid w w1) ->
    wp (A := unit) (if early then mret tt
        else modify (set_tuple (w_page w) (or_infomask (w_tuple w) m));; modify set_dirty) Q w1).
  { intros w1 early Hf1 Hdur. destruct early.
    { apply wp_ret, HQ; [by apply frame_hframe|left]. split; apply Hf1. }
    apply wp_bind, wp_modify, wp_modify, HQ; [|right; split_and!; [done|done|exact (Hdur eq_refl)]].
    assert (Hi1 : Inv P w1) by apply Hf1.
    constructor; simpl; try apply Hf1; try done.
    - constructor; simpl; [apply Hi1|apply Hi1|]. apply tuple_ok_hint.
      + rewrite <- (f_page _ _ _ Hf1), <- (f_tuple _ _ _ Hf1). apply Hi1.
      + eapply hint_fits_mono; [apply Hf1|done].
    - apply (hint_step_fits (w_now w) (w_page w)); [apply Hi|done|done]. }
  unfold durable in Hset.
  apply wp_bind. destruct (TransactionIdIsValid xid).
  - apply wp_bind. eapply wp_mono; [apply wp_run, (wp_TransactionIdGetCommitLSN xid (fun _ w1 => frame P w w1));
      [done|by intros]|].
    intros lsn w1 [Hf1 Hrun]. cbn beta. destruct BufferIsPermanent.
    + apply wp_bind, (wp_tick P); [apply Hf1|]. intros w2 Hf2 _. apply wp_ret.
      apply Hset; [by eapply frame_trans|]. intros Hb _ _. exists lsn, w1. split; [done|].
      apply andb_false_iff in Hb as [Hb|Hb]; apply Z.ltb_ge in Hb; [by left|by right].
    + by apply wp_ret; apply (Hset w1 false).
  - apply wp_ret. by apply (Hset w false); [apply frame_refl|].
Qed.

Lemma wp_SetHintBits_by m xid Q w : Inv P w -> hint_fits (w_now w) (w_page w) (w_tuple w) m ->
  (forall w', hframe w w' -> hint_by m w w' -> Q tt w') -> wp (SetHintBits m xid) Q w.
Proof.
  intros Hi Hm HQ. apply wp_SetHintBits_full; [done|done|]. intros w' Hh Hc. apply HQ; [done|].
  destruct Hc as [[? _]|(? & _ & _)]; [by left|by right].
Qed.

Lemma wp_SetHintBits m xid Q w : Inv P w -> hint_fits (w_now w) (w_page w) (w_tuple w) m ->
  (forall w', hframe w w' -> Q tt w') -> wp (SetHintBits m xid) Q w.
Proof. intros Hi Hm HQ. apply wp_SetHintBits_by; auto. Qed.

(** The settings under which a hint without a commit record is never left out. *)
Definition hints_allowed : Prop :=
  (XACT_READ_UNCOMMITTED =? XactIsoLevel) = false /\ enable_cluster_resize = false.
#[local] Instance hints_allowed_dec : Decision hints_allowed := _.

Lemma SetHintBits_marks m Q w : session_ok -> hints_allowed ->
  wp (SetHintBits m InvalidTransactionId) Q w ->
  wp (SetHintBits m InvalidTransactionId) (fun u w' => Q u w'
    /\ (flag (t_infomask (w_tuple w)) m = true /\ w_tuple w' = w_tuple w
        \/ w_tuple w' = or_infomask (w_tuple w) m)) w.
Proof.
  intros Hses [H1 H2]. unfold wp, SetHintBits.
  rewrite (s_standby Hses), (s_local Hses), (s_recovery Hses), (s_roach Hses), H1, H2. cbn.
  cbv [get_tuple get_page mbind M_bind getw modify mret M_ret].
  destruct (flag (t_infomask (w_tuple w)) m); cbn; auto.
Qed.

Lemma wp_SetHintBits_marks Q w : session_ok -> Inv P w -> known_aborted (w_now w) (xmin_of (w_page w) (w_tuple w)) ->
  (forall w', hframe w w' -> (hints_allowed ->
     flag (t_infomask (w_tuple w)) HEAP_XMIN_INVALID = true /\ w_tuple w' = w_tuple w
     \/ w_tuple w' = or_infomask (w_tuple w) HEAP_XMIN_INVALID) -> Q tt w') ->
  wp (SetHintBits HEAP_XMIN_INVALID InvalidTransactionId) Q w.
Proof.
  intros Hses Hi Ha HQ.
  assert (Hfit : hint_fits (w_now w) (w_page w) (w_tuple w) HEAP_XMIN_INVALID) by (right; left; done).
  assert (Hw : wp (SetHintBits HEAP_XMIN_INVALID InvalidTransactionId) (fun _ w' => hframe w w') w)
    by (by apply wp_SetHintBits).
  destruct (decide hints_allowed) as [Hal|Hno].
  - eapply wp_mono; [exact (SetHintBits_marks _ _ w Hses Hal Hw)|]. intros [] w' [Hh Hm]. by apply HQ.
  - eapply wp_mono; [exact Hw|]. intros [] w' Hh. by apply HQ.
Qed.

(** ** Fates *)

(** What an instant says of a transaction.  While a commit is under way a
    transaction may be seen both running and committed. *)
Inductive fate := Mine | Running | Committed | Aborted.

Definition fate_at (s : Shared) (x : Z) (f : fate) : Prop :=
  match f with
  | Mine => is_current x = true
  | Running => is_current x = false /\ xact_active s x = true
  | Committed => known_committed s x
  | Aborted => known_aborted s x
  end.

(** The inserter of a frozen tuple is no longer known, but committed. *)
Definition inserter_fate (s : Shared) (page : HeapPage) (tup : HeapTupleHeaderData) (f : fate) : Prop :=
  if HeapTupleHeaderXminFrozen tup then f = Committed else fate_at s (xmin_of page tup) f.

(** A tuple that nobody deleted is like one whose deleter aborted. *)
Definition deleter_fate (s : Shared) (page : HeapPage) (tup : HeapTupleHeaderData) (f : fate) : Prop :=
  match deleter page tup with None => f = Aborted | Some d => fate_at s d f end.

(** At one instant of the call. *)
Definition observed (w w' : World) (R : Shared -> Prop) : Prop :=
  exists s, evolves (w_now w) s /\ evolves s (w_now w') /\ consistent s /\ R s.

(** The answer [b] is the one [spec] gives for fates the transactions of the
    tuple have at one instant. *)
Definition answers {A} (spec : fate -> fate -> A) (w : World) (b : A) (w' : World) : Prop :=
  hframe w w' /\ observed w w' (fun s => exists fi fd,
    inserter_fate s (w_page w) (w_tuple w) fi /\ deleter_fate s (w_page w) (w_tuple w) fd
    /\ b = spec fi fd).

Lemma fate_total s x : exists f, fate_at s x f.
Proof.
  destruct (is_current x) eqn:Hc; [by exists Mine|].
  destruct (xact_active s x) eqn:Ha; [by exists Running|].
  destruct (oc x) eqn:Ho; [exists Committed|exists Aborted]; unfold fate_at, known_committed, known_aborted;
    split_and!; try done; by right; left.
Qed.

Lemma deleter_fate_total s page tup : exists f, deleter_fate s page tup f.
Proof. unfold deleter_fate. destruct (deleter page tup) as [d|]; [apply fate_total|by exists Aborted]. Qed.

Lemma hframe_now w w' : hframe w w' -> consistent (w_now w') /\ P (w_now w').
Proof. intros H. apply Inv_now. apply H. Qed.

(** The answer is given at the last instant. *)
Lemma answers_now {A} (spec : fate -> fate -> A) w b w' fi fd : hframe w w' ->
  inserter_fate (w_now w') (w_page w) (w_tuple w) fi ->
  deleter_fate (w_now w') (w_page w) (w_tuple w) fd -> b = spec fi fd -> answers spec w b w'.
Proof.
  intros H Hi Hd Hb. split; [done|]. exists (w_now w'). split; [apply H|].
  split; [reflexivity|]. split; [by apply (hframe_now w w')|]. by exists fi, fd.
Qed.

(** An answer that does not depend on the deleter. *)
Lemma answers_inserter {A} (spec : fate -> fate -> A) w b w' fi : hframe w w' ->
  inserter_fate (w_now w') (w_page w) (w_tuple w) fi -> (forall fd, b = spec fi fd) -> answers spec w b w'.
Proof.
  intros H Hi Hb. destruct (deleter_fate_total (w_now w') (w_page w) (w_tuple w)) as [fd Hd].
  by eapply answers_now.
Qed.

Lemma inserter_not_frozen s page tup f : HeapTupleHeaderXminCommitted tup = false ->
  fate_at s (xmin_of page tup) f -> inserter_fate s page tup f.
Proof.
  intros Hc Hf. unfold inserter_fate. rewrite XminFrozen_flags.
  unfold HeapTupleHeaderXminCommitted in Hc. by rewrite Hc, andb_false_r.
Qed.

(** The tuple is marked invalid, or marked committed. *)
Lemma inserter_invalid s page tup : tuple_ok s page tup -> HeapTupleHeaderXminCommitted tup = false ->
  HeapTupleHeaderXminInvalid tup = true -> inserter_fate s page tup Aborted.
Proof. intros Hok Hc Hi. apply inserter_not_frozen; [done|]. by apply Hok. Qed.

Lemma inserter_committed s page tup : tuple_ok s page tup -> HeapTupleHeaderXminCommitted tup = true ->
  inserter_fate s page tup Committed.
Proof.
  intros Hok Hc. unfold inserter_fate. destruct (HeapTupleHeaderXminFrozen tup) eqn:Hf; [done|].
  by apply Hok.
Qed.

Lemma inserter_mono s s' page tup f : evolves s s' -> f <> Running ->
  inserter_fate s page tup f -> inserter_fate s' page tup f.
Proof.
  intros He Hf. unfold inserter_fate. destruct (HeapTupleHeaderXminFrozen tup); [done|].
  destruct f; simpl; [done|done| |]; intros H; [by eapply known_committed_mono|by eapply known_aborted_mono].
Qed.

(** *** What the deleter is *)

Lemma deleter_locked page tup : locked_only tup = true -> deleter page tup = None.
Proof. unfold deleter, locked_only. by intros ->. Qed.

Lemma deleter_multi page tup : locked_only tup = false -> flag (t_infomask tup) HEAP_XMAX_IS_MULTI = true ->
  deleter page tup = Some (HeapTupleHeaderMultiXactGetUpdateXid page tup).
Proof. unfold deleter, locked_only. by intros -> ->. Qed.

Lemma deleter_plain page tup : locked_only tup = false -> flag (t_infomask tup) HEAP_XMAX_IS_MULTI = false ->
  deleter page tup = Some (HeapTupleHeaderGetXmax page tup).
Proof. unfold deleter, locked_only. by intros -> ->. Qed.

Lemma deleter_fate_locked s page tup : locked_only tup = true -> deleter_fate s page tup Aborted.
Proof. intros H. unfold deleter_fate. by rewrite (deleter_locked _ _ H). Qed.

Lemma deleter_fate_is s page tup d f : deleter page tup = Some d -> fate_at s d f -> deleter_fate s page tup f.
Proof. unfold deleter_fate. by intros ->. Qed.

Lemma deleter_fate_invalid s page tup : tuple_ok s page tup ->
  flag (t_infomask tup) HEAP_XMAX_INVALID = true -> deleter_fate s page tup Aborted.
Proof.
  intros Hok Hf. unfold deleter_fate. destruct (deleter page tup) as [d|] eqn:Hd; [|done].
  by apply (t_hint_xmax_invalid _ _ _ Hok).
Qed.

Lemma deleter_fate_committed s page tup : tuple_ok s page tup ->
  flag (t_infomask tup) HEAP_XMAX_COMMITTED = true -> locked_only tup = false ->
  deleter_fate s page tup Committed.
Proof.
  intros Hok Hf Hlo. unfold deleter_fate. destruct (deleter page tup) as [d|] eqn:Hd.
  - by apply (t_hint_xmax_committed _ _ _ Hok).
  - destruct (flag (t_infomask tup) HEAP_XMAX_IS_MULTI) eqn:Hm;
      [rewrite deleter_multi in Hd by done|rewrite deleter_plain in Hd by done]; done.
Qed.

Lemma deleter_fate_hinted s page tup tup' f : hinted tup tup' ->
  deleter_fate s page tup' f -> deleter_fate s page tup f.
Proof. intros H. unfold deleter_fate. by rewrite (hinted_deleter tup tup' H). Qed.

Lemma deleter_fate_mono s s' page tup f : evolves s s' -> f <> Running ->
  deleter_fate s page tup f -> deleter_fate s' page tup f.
Proof.
  intros He Hf. unfold deleter_fate. destruct (deleter page tup) as [d|]; [|done].
  destruct f; simpl; [done|done| |]; intros H; [by eapply known_committed_mono|by eapply known_aborted_mono].
Qed.

(** The hints that follow from the fate of the deleter; [w0] is the world in
    which the tuple was examined. *)
Lemma wp_hint_aborted w0 Q w : Inv P w -> w_page w = w_page w0 -> w_tuple w = w_tuple w0 ->
  deleter_fate (w_now w) (w_page w0) (w_tuple w0) Aborted ->
  (forall w1, hframe w w1 -> deleter_fate (w_now w1) (w_page w0) (w_tuple w0) Aborted -> Q tt w1) ->
  wp (SetHintBits HEAP_XMAX_INVALID InvalidTransactionId) Q w.
Proof.
  intros Hi Hp Ht Hfd HQ. apply wp_SetHintBits; [done| |].
  - right; right; right. split; [done|]. rewrite Hp, Ht. unfold deleter_fate in Hfd. intros d Hd.
    by rewrite Hd in Hfd.
  - intros w1 Hh. apply HQ; [done|]. eapply deleter_fate_mono; [apply Hh|done|done].
Qed.

Lemma wp_hint_committed w0 xid Q w : Inv P w -> w_page w = w_page w0 -> w_tuple w = w_tuple w0 ->
  deleter_fate (w_now w) (w_page w0) (w_tuple w0) Committed ->
  (forall w1, hframe w w1 -> deleter_fate (w_now w1) (w_page w0) (w_tuple w0) Committed -> Q tt w1) ->
  wp (SetHintBits HEAP_XMAX_COMMITTED xid) Q w.
Proof.
  intros Hi Hp Ht Hfd HQ. apply wp_SetHintBits; [done| |].
  - right; right; left. split; [done|]. rewrite Hp, Ht. unfold deleter_fate in Hfd. intros d Hd.
    by rewrite Hd in Hfd.
  - intros w1 Hh. apply HQ; [done|]. eapply deleter_fate_mono; [apply Hh|done|done].
Qed.

(** ** The shared blocks *)

Lemma startup_special x : session_ok -> TransactionIdIsNormal x = false ->
  TransactionIdPrecedes x startupMaxXid = true \/ TransactionIdIsValid startupMaxXid = false.
Proof.
  intros Hses Hn. destruct (s_startup Hses) as [->|Hs]; [by right|left].
  apply Z.leb_gt in Hn. apply Z.leb_le in Hs. apply Z.ltb_lt. unfold FirstNormalTransactionId in *. lia.
Qed.

(** The test for running transactions as the blocks use it, in [w]. *)
Definition running_at (test : Z -> M bool) (x : Z) (w : World) : Prop :=
  forall Q : bool -> World -> Prop,
    (forall b w', frame P w w' ->
       (b = true -> is_current x = true \/ xact_active (w_now w') x = true) ->
       (b = false -> is_current x = false /\ settled (w_now w') x) -> Q b w') ->
    wp (test x) Q w.

Lemma running_default x w : session_ok -> Inv P w -> running_at TransactionIdIsInProgress x w.
Proof. intros Hses Hi Q HQ. by apply (wp_TransactionIdIsInProgress P). Qed.

Lemma wp_InProgress_sync x Q w : session_ok -> Inv P w -> known (w_now w) x ->
  (forall b sync w', frame P w w' ->
     (b = true -> is_current x = true \/ xact_active (w_now w') x = true) ->
     (b = false -> is_current x = false /\ settled (w_now w') x) -> Q (b, sync) w') ->
  wp (TransactionIdIsInProgress_sync x) Q w.
Proof.
  intros Hses Hi Hk HQ. by apply (wp_TransactionIdIsInProgress_full P); [done|done|right|].
Qed.

Lemma running_needSync x w : session_ok -> Inv P w -> known (w_now w) x ->
  running_at IsInProgress_needSync x w.
Proof.
  intros Hses Hi Hk Q HQ. apply wp_fmap, wp_InProgress_sync; [done|done|done|].
  intros b sync w'. apply HQ.
Qed.

(** A result that is already there. *)
Lemma running_known (b : bool) x w : Inv P w ->
  (b = true -> is_current x = true \/ xact_active (w_now w) x = true) ->
  (b = false -> is_current x = false /\ settled (w_now w) x) -> running_at (fun _ => mret b) x w.
Proof. intros Hi H1 H2 Q HQ. by apply wp_ret, HQ; [apply frame_refl|..]. Qed.

(** Whether a transaction that is over committed. *)
Lemma wp_DidCommit_settled x Q w : session_ok -> Inv P w -> is_current x = false -> settled (w_now w) x ->
  (forall b w', frame P w w' -> (b = true -> known_committed (w_now w') x) ->
     (b = false -> known_aborted (w_now w') x
        /\ forall Q', Q' true w' -> wp (LatestFetchTransactionIdDidAbort x) Q' w') -> Q b w') ->
  wp (TransactionIdDidCommit x) Q w.
Proof.
  intros Hses Hi Hcur Hset HQ. apply (wp_TransactionIdDidCommit P); [apply Hses|done|].
  intros b w' Hf H1 H2. assert (Hset' : settled (w_now w') x) by (eapply settled_mono; [apply Hf|done]).
  apply HQ; [done| |]; intros ->.
  - split; [auto|done].
  - destruct (H2 eq_refl Hcur Hset) as [Ho Hl]. split; [done|]. intros Q' HQ'.
    apply wp_LatestFetchTransactionIdDidAbort; [done| |done]. by apply startup_special.
Qed.

Lemma wp_settle_xmin_by {A} test running (invisible : A) next Q w : session_ok -> Inv P w ->
  is_current (xmin_of (w_page w) (w_tuple w)) = false ->
  running_at test (xmin_of (w_page w) (w_tuple w)) w ->
  (forall w1, frame P w w1 -> xact_active (w_now w1) (xmin_of (w_page w) (w_tuple w)) = true ->
     wp running Q w1) ->
  (forall w1, hframe w w1 -> known_aborted (w_now w1) (xmin_of (w_page w) (w_tuple w)) ->
     Q invisible w1) ->
  (forall w1, hframe w w1 -> known_committed (w_now w1) (xmin_of (w_page w) (w_tuple w)) ->
     hint_by HEAP_XMIN_COMMITTED w w1 -> wp next Q w1) ->
  wp (settle_xmin test running invisible next) Q w.
Proof.
  intros Hses Hi Hcur Htest Hrun Hinv Hnext. unfold settle_xmin.
  set (x := xmin_of (w_page w) (w_tuple w)) in *.
  apply wp_bind, wp_XminM, wp_bind. fold x. apply Htest.
  intros b w1 Hf1 H1 H2. destruct b.
  { destruct (H1 eq_refl) as [?|Ha]; [congruence|]. by apply Hrun. }
  destruct (H2 eq_refl) as [_ Hset]. assert (Hi1 : Inv P w1) by apply Hf1.
  apply wp_bind, wp_DidCommit_settled; [done|done|done|done|].
  intros b w2 Hf2 Hc Ha. pose proof (frame_trans P _ _ _ Hf1 Hf2) as Hf. assert (Hi2 : Inv P w2) by apply Hf2.
  assert (Hx : xmin_of (w_page w2) (w_tuple w2) = x) by (by rewrite (f_page _ _ _ Hf), (f_tuple _ _ _ Hf)).
  destruct b.
  - specialize (Hc eq_refl). apply wp_bind, wp_SetHintBits_by; [done|left; by rewrite Hx|].
    intros w3 Hf3 Hby. apply Hnext; [by eapply frame_h| |].
    + eapply known_committed_mono; [apply Hf3|done].
    + unfold hint_by in *. by rewrite (f_tuple _ _ _ Hf) in Hby.
  - destruct (Ha eq_refl) as [Hab Hl]. apply wp_bind, Hl. cbn [negb]. apply wp_bind, wp_ret, wp_bind,
      wp_SetHintBits; [done|right; left; by rewrite Hx|].
    intros w3 Hf3. apply wp_ret, Hinv; [by eapply frame_h|]. eapply known_aborted_mono; [apply Hf3|done].
Qed.

Lemma wp_settle_xmin {A} test running (invisible : A) next Q w : session_ok -> Inv P w ->
  is_current (xmin_of (w_page w) (w_tuple w)) = false ->
  running_at test (xmin_of (w_page w) (w_tuple w)) w ->
  (forall w1, frame P w w1 -> xact_active (w_now w1) (xmin_of (w_page w) (w_tuple w)) = true ->
     wp running Q w1) ->
  (forall w1, hframe w w1 -> known_aborted (w_now w1) (xmin_of (w_page w) (w_tuple w)) ->
     Q invisible w1) ->
  (forall w1, hframe w w1 -> known_committed (w_now w1) (xmin_of (w_page w) (w_tuple w)) ->
     wp next Q w1) ->
  wp (settle_xmin test running invisible next) Q w.
Proof. intros. apply wp_settle_xmin_by; auto. Qed.

Lemma wp_settle_xmax {A} (alive : A) deleted Q w : session_ok -> Inv P w ->
  let xmax := HeapTupleHeaderGetXmax (w_page w) (w_tuple w) in
  is_current xmax = false -> settled (w_now w) xmax ->
  flag (t_infomask (w_tuple w)) HEAP_XMAX_IS_MULTI = false ->
  (forall w1, hframe w w1 -> deleter_fate (w_now w1) (w_page w) (w_tuple w) Aborted -> Q alive w1) ->
  (forall w1, hframe w w1 -> deleter_fate (w_now w1) (w_page w) (w_tuple w) Committed ->
     wp deleted Q w1) ->
  wp (settle_xmax alive deleted) Q w.
Proof.
  intros Hses Hi xmax Hcur Hset Hmulti Halive Hdel. unfold settle_xmax.
  apply wp_bind, wp_XmaxM, wp_bind, wp_DidCommit_settled; [done|done|done|done|].
  fold xmax. intros b w1 Hf1 Hc Ha. assert (Hi1 : Inv P w1) by apply Hf1.
  assert (Ed : deleter (w_page w1) (w_tuple w1) = deleter (w_page w) (w_tuple w))
    by (by rewrite (f_page _ _ _ Hf1), (f_tuple _ _ _ Hf1)).
  assert (Hd : forall d, deleter (w_page w) (w_tuple w) = Some d -> d = xmax).
  { intros d. destruct (locked_only (w_tuple w)) eqn:Hlo; [by rewrite deleter_locked|].
    rewrite deleter_plain by done. by intros [= <-]. }
  destruct b; cbn [negb].
  - specialize (Hc eq_refl). apply wp_bind, wp_get_tuple. rewrite (f_tuple _ _ _ Hf1).
    destruct (locked_only (w_tuple w)) eqn:Hlo.
    + apply wp_bind, wp_SetHintBits; [done| |].
      * right; right; right. split; [done|]. rewrite Ed, deleter_locked by done. done.
      * intros w2 Hf2. apply wp_ret, Halive; [by eapply frame_h|]. by apply deleter_fate_locked.
    + apply wp_bind, wp_SetHintBits; [done| |].
      * right; right; left. split; [done|]. rewrite Ed. by intros d ->%Hd.
      * intros w2 Hf2. apply Hdel; [by eapply frame_h|]. eapply deleter_fate_is; [by apply deleter_plain|].
        eapply known_committed_mono; [apply Hf2|done].
  - destruct (Ha eq_refl) as [Hab Hl]. apply wp_bind, Hl. cbn [negb]. apply wp_bind, wp_ret, wp_bind,
      wp_SetHintBits; [done| |].
    + right; right; right. split; [done|]. rewrite Ed. by intros d ->%Hd.
    + intros w2 Hf2. apply wp_ret, Halive; [by eapply frame_h|].
      unfold deleter_fate. destruct (deleter (w_page w) (w_tuple w)) as [d|] eqn:Hdd; [|done].
      rewrite (Hd d eq_refl). eapply known_aborted_mono; [apply Hf2|done].
Qed.

(** ** Self and Dirty *)

Definition gone (fd : fate) : bool :=
  match fd with Mine | Committed => true | Running | Aborted => false end.

(** Visible "for itself": inserted by a committed transaction or the current
    one, and not deleted by such a transaction. *)
Definition self_visible (fi fd : fate) : bool := gone fi && negb (gone fd).

(** The same, with the effects of running transactions. *)
Definition dirty_visible (fi fd : fate) : bool :=
  match fi with Running => true | _ => self_visible fi fd end.

Lemma wp_current x Q w : session_ok -> Q (is_current x) w -> wp (TransactionIdIsCurrentTransactionId x) Q w.
Proof. intros Hses HQ. apply wp_TransactionIdIsCurrentTransactionId; [apply Hses|done]. Qed.

(** A transaction that is neither current nor running: the outcome. *)
Lemma wp_DidCommit_fate d Q w : session_ok -> Inv P w -> is_current d = false -> settled (w_now w) d ->
  (forall w', frame P w w' -> fate_at (w_now w') d Committed -> Q true w') ->
  (forall w', frame P w w' -> fate_at (w_now w') d Aborted -> Q false w') ->
  wp (TransactionIdDidCommit d) Q w.
Proof.
  intros Hses Hi Hcur Hset H1 H2. apply wp_DidCommit_settled; [done|done|done|done|].
  intros [] w' Hf Hc Ha; [by apply H1; [|apply Hc]|by apply H2; [|apply Ha]].
Qed.

Lemma wp_self_xmax running Q w : session_ok -> Inv P w ->
  (forall b fd w1, hframe w w1 -> deleter_fate (w_now w1) (w_page w) (w_tuple w) fd ->
     b = negb (gone fd) -> fd <> Running -> Q b w1) ->
  (forall x w1, frame P w w1 -> fate_at (w_now w1) x Running ->
     deleter (w_page w) (w_tuple w) = Some x \/ deleter (w_page w) (w_tuple w) = None ->
     wp (running x) Q w1) ->
  wp (self_xmax running) Q w.
Proof.
  intros Hses Hi Hfin Hrun. unfold self_xmax. apply wp_bind, wp_get_tuple.
  pose proof (i_tuple _ _ Hi) as Hok. set (tup := w_tuple w) in *. set (page := w_page w) in *.
  assert (Hr : hframe w w) by (by apply hframe_refl).
  destruct (flag (t_infomask tup) HEAP_XMAX_INVALID) eqn:Hinv.
  { apply wp_ret, (Hfin _ Aborted); [done|by apply deleter_fate_invalid|done|done]. }
  destruct (flag (t_infomask tup) HEAP_XMAX_COMMITTED) eqn:Hcom.
  { apply wp_ret. destruct (locked_only tup) eqn:Hlo.
    - apply (Hfin _ Aborted); [done|by apply deleter_fate_locked|done|done].
    - apply (Hfin _ Committed); [done| |done|done]. unfold deleter_fate.
      destruct (deleter page tup) as [d|] eqn:Hd; [by apply (t_hint_xmax_committed _ _ _ Hok)|].
      destruct (flag (t_infomask tup) HEAP_XMAX_IS_MULTI) eqn:Hm;
        [rewrite deleter_multi in Hd by done|rewrite deleter_plain in Hd by done]; done. }
  destruct (flag (t_infomask tup) HEAP_XMAX_IS_MULTI) eqn:Hm.
  - destruct (locked_only tup) eqn:Hlo.
    { apply wp_ret, (Hfin _ Aborted); [done|by apply deleter_fate_locked|done|done]. }
    apply wp_bind, wp_UpdateXidM. fold tup page. set (d := HeapTupleHeaderMultiXactGetUpdateXid page tup).
    pose proof (deleter_multi page tup Hlo Hm) as Hd. fold d in Hd.
    apply wp_bind, wp_current; [done|]. destruct (is_current d) eqn:Hcur.
    { apply wp_ret, (Hfin _ Mine); [done|by eapply deleter_fate_is|done|done]. }
    apply wp_bind, (wp_TransactionIdIsInProgress P); [done|done|]. intros b w1 Hf1 Ht Hn. destruct b.
    { destruct (Ht eq_refl) as [?|Ha]; [congruence|]. by apply Hrun; [|split|left]. }
    destruct (Hn eq_refl) as [_ Hset].
    apply wp_bind, wp_DidCommit_fate; [done|apply Hf1|done|done|..]; intros w2 Hf2 Hfd; apply wp_ret;
      (eapply Hfin; [by eapply frame_hframe, frame_trans|by eapply deleter_fate_is|done|done]).
  - apply wp_bind, wp_XmaxM. fold tup page. set (d := HeapTupleHeaderGetXmax page tup).
    pose proof (deleter_plain page tup) as Hd. fold d in Hd.
    apply wp_bind, wp_current; [done|]. destruct (is_current d) eqn:Hcur.
    { apply wp_ret. destruct (locked_only tup) eqn:Hlo.
      - apply (Hfin _ Aborted); [done|by apply deleter_fate_locked|done|done].
      - apply (Hfin _ Mine); [done| |done|done]. eapply deleter_fate_is; [by apply Hd|done]. }
    apply wp_bind, (wp_TransactionIdIsInProgress P); [done|done|]. intros b w1 Hf1 Ht Hn. destruct b.
    { destruct (Ht eq_refl) as [?|Ha]; [congruence|]. apply Hrun; [done|by split|].
      destruct (locked_only tup) eqn:Hlo; [right; by apply deleter_locked|left; by apply Hd]. }
    destruct (Hn eq_refl) as [_ Hset].
    assert (E : w_page w1 = page /\ w_tuple w1 = tup) by (split; apply Hf1). destruct E as [E1 E2].
    apply wp_settle_xmax; rewrite ?E1, ?E2; [done|apply Hf1|done|done|done|..]; intros w2 Hf2 Hfd.
    + apply (Hfin _ Aborted); [by eapply frame_h|done|done|done].
    + apply wp_ret, (Hfin _ Committed); [by eapply frame_h|done|done|done].
Qed.

(** The tuple was inserted by the current transaction: what deleted it is the
    current transaction too, or aborted. *)
Lemma wp_DealCurrent Q w : session_ok -> Inv P w ->
  HeapTupleHeaderXminCommitted (w_tuple w) = false ->
  is_current (xmin_of (w_page w) (w_tuple w)) = true ->
  (forall b fd w1, hframe w w1 -> deleter_fate (w_now w1) (w_page w) (w_tuple w) fd ->
     b = negb (gone fd) -> fd <> Running -> Q b w1) ->
  wp DealCurrentTansactionNotCommited Q w.
Proof.
  intros Hses Hi Hxc Hxm Hfin. unfold DealCurrentTansactionNotCommited. apply wp_bind, wp_get_tuple.
  pose proof (i_tuple _ _ Hi) as Hok. set (tup := w_tuple w) in *. set (page := w_page w) in *.
  assert (Hr : hframe w w) by (by apply hframe_refl).
  destruct (flag (t_infomask tup) HEAP_XMAX_INVALID) eqn:Hinv.
  { apply wp_ret, (Hfin _ Aborted); [done|by apply deleter_fate_invalid|done|done]. }
  destruct (locked_only tup) eqn:Hlo.
  { apply wp_ret, (Hfin _ Aborted); [done|by apply deleter_fate_locked|done|done]. }
  destruct (flag (t_infomask tup) HEAP_XMAX_IS_MULTI) eqn:Hm.
  - pose proof (deleter_multi page tup Hlo Hm) as Hd.
    apply wp_bind, wp_UpdateXidM, wp_bind, wp_current; [done|]. apply wp_ret. fold tup page.
    set (d := HeapTupleHeaderMultiXactGetUpdateXid page tup) in *.
    destruct (is_current d) eqn:Hcur.
    + apply (Hfin _ Mine); [done|by eapply deleter_fate_is|done|done].
    + destruct (t_own _ _ _ Hok _ Hxc Hxm Hd) as [?|Ha]; [congruence|].
      apply (Hfin _ Aborted); [done|by eapply deleter_fate_is|done|done].
  - pose proof (deleter_plain page tup Hlo Hm) as Hd.
    apply wp_bind, wp_XmaxM, wp_bind, wp_current; [done|]. fold tup page.
    set (d := HeapTupleHeaderGetXmax page tup) in *.
    destruct (is_current d) eqn:Hcur; cbn [negb].
    + apply wp_ret, (Hfin _ Mine); [done|by eapply deleter_fate_is|done|done].
    + destruct (t_own _ _ _ Hok _ Hxc Hxm Hd) as [?|Ha]; [congruence|].
      apply wp_bind, wp_SetHintBits; [done| |].
      * right; right; right. split; [done|]. fold tup page. rewrite Hd. by intros d' [= <-].
      * intros w1 Hf1. apply wp_ret, (Hfin _ Aborted); [done| |done|done].
        eapply deleter_fate_is; [done|]. eapply known_aborted_mono; [apply Hf1|done].
Qed.

Lemma frame_known w w' : frame P w w' -> known (w_now w) (xmin_of (w_page w) (w_tuple w)) ->
  known (w_now w') (xmin_of (w_page w) (w_tuple w)).
Proof. intros H. apply H. Qed.

(** The common shape of the tests: marked, own, or decided by the block. *)
Lemma wp_Self Q w : session_ok -> Inv P w -> (forall b w', answers self_visible w b w' -> Q b w') ->
  wp HeapTupleSatisfiesSelf Q w.
Proof.
  intros Hses Hi HQ. unfold HeapTupleSatisfiesSelf. apply wp_bind, wp_get_tuple.
  pose proof (i_tuple _ _ Hi) as Hok. set (tup := w_tuple w) in *. set (page := w_page w) in *.
  assert (Hr : hframe w w) by (by apply hframe_refl).
  assert (Hrest : forall w1, hframe w w1 -> inserter_fate (w_now w1) page tup Committed ->
    wp (self_xmax (fun _ => mret true)) Q w1).
  { intros w1 Hf1 Hci. apply wp_self_xmax; [done|apply Hf1|..].
    - intros b fd w2 Hf2 Hfd -> _. apply HQ. eapply (answers_now _ _ _ _ Committed fd);
        [by eapply hframe_trans| | |done].
      + eapply inserter_mono; [apply Hf2|done|done].
      + rewrite (hf_page _ _ Hf1) in Hfd. eapply deleter_fate_hinted; [apply Hf1|done].
    - intros x w2 Hf2 Hrun Hd. apply wp_ret, HQ.
      assert (Hf : hframe w w2) by (by eapply h_frame).
      rewrite (hf_page _ _ Hf1), (hinted_deleter tup _ (hf_tuple _ _ Hf1)) in Hd.
      destruct Hd as [Hd|Hd].
      + eapply (answers_now _ _ _ _ Committed Running); [done| |by eapply deleter_fate_is|done].
        eapply inserter_mono; [apply Hf2|done|done].
      + eapply (answers_now _ _ _ _ Committed Aborted); [done| | |done].
        * eapply inserter_mono; [apply Hf2|done|done].
        * unfold deleter_fate. fold tup page. fold page in Hd. by rewrite Hd. }
  destruct (HeapTupleHeaderXminCommitted tup) eqn:Hxc; cbn [negb].
  { apply Hrest; [done|]. by apply inserter_committed. }
  destruct (HeapTupleHeaderXminInvalid tup) eqn:Hxi.
  { apply wp_ret, HQ. eapply answers_inserter; [done|by apply inserter_invalid|done]. }
  apply wp_bind, wp_XminM, wp_bind, wp_current; [done|]. fold tup page.
  destruct (is_current (xmin_of page tup)) eqn:Hcur.
  { apply wp_DealCurrent; [done|done|done|done|]. intros b fd w1 Hf1 Hfd -> _. apply HQ.
    eapply (answers_now _ _ _ _ Mine fd); [done|by apply inserter_not_frozen|done|done]. }
  apply wp_settle_xmin; [done|done|done|by apply running_default|..].
  - intros w1 Hf1 Ha. apply wp_ret, HQ. eapply (answers_inserter _ _ _ _ Running);
      [by apply frame_hframe|by apply inserter_not_frozen|done].
  - intros w1 Hf1 Ha. apply HQ. eapply (answers_inserter _ _ _ _ Aborted);
      [done|by apply inserter_not_frozen|done].
  - intros w1 Hf1 Hc. apply Hrest; [done|]. by apply inserter_not_frozen.
Qed.

(** The results are not part of the invariant. *)
Lemma hframe_set_out a b w w2 : hframe (set_out a b w) w2 ->
  hframe w (set_out (w_out_xmin w) (w_out_xmax w) w2).
Proof.
  intros H. constructor; try apply H; try done.
  destruct (hf_inv _ _ H) as [H1 H2 H3]. by constructor.
Qed.

(** The world but for the two results of a dirty snapshot. *)
Definition restore (w w' : World) : World := set_out (w_out_xmin w) (w_out_xmax w) w'.

(** The results of a dirty snapshot: the inserter if it runs, and else the
    deleter, or a locker, that runs. *)
Definition dirty_answers (w : World) (b : bool) (w' : World) : Prop :=
  hframe w (restore w w') /\ observed w w' (fun s => exists fi fd,
    inserter_fate s (w_page w) (w_tuple w) fi /\ deleter_fate s (w_page w) (w_tuple w) fd
    /\ b = dirty_visible fi fd
    /\ w_out_xmin w' = match fi with Running => xmin_of (w_page w) (w_tuple w) | _ => InvalidTransactionId end
    /\ (w_out_xmax w' = InvalidTransactionId \/ fate_at s (w_out_xmax w') Running)
    /\ (gone fi = true -> fd = Running -> deleter (w_page w) (w_tuple w) = Some (w_out_xmax w'))).

Lemma Inv_set_out a b w : Inv P w -> Inv P (set_out a b w).
Proof. intros [H1 H2 H3]. by constructor. Qed.

Lemma wp_Dirty Q w : session_ok -> Inv P w -> (forall b w', dirty_answers w b w' -> Q b w') ->
  wp HeapTupleSatisfiesDirty Q w.
Proof.
  intros Hses Hi0 HQ0. unfold HeapTupleSatisfiesDirty. apply wp_bind, wp_modify.
  set (w0 := set_out InvalidTransactionId InvalidTransactionId w).
  assert (Hi : Inv P w0) by (by apply Inv_set_out).
  apply wp_bind, wp_get_tuple. pose proof (i_tuple _ _ Hi) as Hok.
  set (tup := w_tuple w0) in *. set (page := w_page w0) in *.
  assert (HQ : forall b a c w1 fi fd, hframe w0 w1 ->
    inserter_fate (w_now w1) page tup fi -> deleter_fate (w_now w1) page tup fd ->
    b = dirty_visible fi fd ->
    a = match fi with Running => xmin_of page tup | _ => InvalidTransactionId end ->
    (c = InvalidTransactionId \/ fate_at (w_now w1) c Running) ->
    (gone fi = true -> fd = Running -> deleter page tup = Some c) ->
    Q b (set_out a c w1)).
  { intros b a c w1 fi fd Hf H1 H2 H3 H4 H5 H6. apply HQ0. split; [exact (hframe_set_out _ _ w w1 Hf)|].
    exists (w_now w1). split; [apply Hf|]. split; [reflexivity|].
    split; [by apply (hframe_now w0 w1)|]. by exists fi, fd. }
  assert (Hout : forall w1, hframe w0 w1 -> set_out InvalidTransactionId InvalidTransactionId w1 = w1).
  { intros w1 Hf. destruct (hf_out _ _ Hf) as [H1 H2]. destruct w1. simpl in *. by rewrite H1, H2. }
  assert (HQ' : forall b w1 fi fd, hframe w0 w1 ->
    inserter_fate (w_now w1) page tup fi -> deleter_fate (w_now w1) page tup fd ->
    b = dirty_visible fi fd -> fi <> Running -> (gone fi = true -> fd <> Running) -> Q b w1).
  { intros b w1 fi fd Hf H1 H2 H3 H4 H5. rewrite <- (Hout w1 Hf). eapply HQ; try done; [by destruct fi|by left|].
    intros Hg Hfd. by destruct (H5 Hg). }
  assert (Hr : hframe w0 w0) by (by apply hframe_refl).
  assert (Hrest : forall w1, hframe w0 w1 -> inserter_fate (w_now w1) page tup Committed ->
    wp (self_xmax (fun xmax => set_out_xmax xmax;; mret true)) Q w1).
  { intros w1 Hf1 Hci. apply wp_self_xmax; [done|apply Hf1|..].
    - intros b fd w2 Hf2 Hfd -> Hnr. eapply (HQ' _ _ Committed fd); [by eapply hframe_trans| | |done|done|done].
      + eapply inserter_mono; [apply Hf2|done|done].
      + rewrite (hf_page _ _ Hf1) in Hfd. eapply deleter_fate_hinted; [apply Hf1|done].
    - intros x w2 Hf2 Hrun Hd. apply wp_bind, wp_modify, wp_ret.
      assert (Hf : hframe w0 w2) by (by eapply h_frame).
      rewrite (hf_page _ _ Hf1), (hinted_deleter tup _ (hf_tuple _ _ Hf1)) in Hd. fold page in Hd.
      assert (Hci2 : inserter_fate (w_now w2) page tup Committed)
        by (eapply inserter_mono; [apply Hf2|done|done]).
      destruct (hf_out _ _ Hf) as [-> _].
      destruct Hd as [Hd|Hd].
      + eapply (HQ _ _ _ _ Committed Running); try done; [by eapply deleter_fate_is|by right].
      + eapply (HQ _ _ _ _ Committed Aborted); try done; [|by right].
        unfold deleter_fate. by rewrite Hd. }
  destruct (HeapTupleHeaderXminCommitted tup) eqn:Hxc; cbn [negb].
  { apply Hrest; [done|]. by apply inserter_committed. }
  assert (Hins : forall w1, hframe w0 w1 -> inserter_fate (w_now w1) page tup Aborted -> Q false w1).
  { intros w1 Hf Hfi. destruct (deleter_fate_total (w_now w1) page tup) as [fd Hfd].
    by eapply (HQ' _ _ Aborted fd). }
  destruct (HeapTupleHeaderXminInvalid tup) eqn:Hxi.
  { apply wp_ret, Hins; [done|]. by apply inserter_invalid. }
  apply wp_bind, wp_XminM, wp_bind, wp_current; [done|]. fold tup page.
  destruct (is_current (xmin_of page tup)) eqn:Hcur.
  { apply wp_DealCurrent; [done|done|done|done|]. intros b fd w1 Hf1 Hfd -> Hnr.
    eapply (HQ' _ _ Mine fd); [done|by apply inserter_not_frozen|done..]. }
  apply wp_settle_xmin; [done|done|done|by apply running_default|..].
  - intros w1 Hf1 Ha. apply wp_bind, wp_modify, wp_ret.
    assert (Hf : hframe w0 w1) by (by apply frame_hframe). destruct (hf_out _ _ Hf) as [_ ->].
    destruct (deleter_fate_total (w_now w1) page tup) as [fd Hfd].
    eapply (HQ _ _ _ _ Running fd); try done; [|by left]. by apply inserter_not_frozen.
  - intros w1 Hf1 Ha. apply Hins; [done|]. by apply inserter_not_frozen.
  - intros w1 Hf1 Hc. apply Hrest; [done|]. by apply inserter_not_frozen.
Qed.

(** ** Command ids *)

Definition cids_ok (tup : HeapTupleHeaderData) : Prop :=
  is_Some (HeapTupleHeaderGetCmin comboCids tup) /\ is_Some (HeapTupleHeaderGetCmax comboCids tup).
Definition cmin_of (tup : HeapTupleHeaderData) : Z := default 0 (HeapTupleHeaderGetCmin comboCids tup).
Definition cmax_of (tup : HeapTupleHeaderData) : Z := default 0 (HeapTupleHeaderGetCmax comboCids tup).

Lemma wp_GetCmin Q w : cids_ok (w_tuple w) -> Q (cmin_of (w_tuple w)) w -> wp GetCmin Q w.
Proof.
  intros [[c Hc] _] HQ. unfold cmin_of in HQ. rewrite Hc in HQ. apply wp_bind, wp_get_tuple.
  by apply (wp_of_option _ c).
Qed.

Lemma wp_GetCmax Q w : cids_ok (w_tuple w) -> Q (cmax_of (w_tuple w)) w -> wp GetCmax Q w.
Proof.
  intros [_ [c Hc]] HQ. unfold cmax_of in HQ. rewrite Hc in HQ. apply wp_bind, wp_get_tuple.
  by apply (wp_of_option _ c).
Qed.

Lemma hinted_cids tup tup' : hinted tup tup' -> cids_ok tup -> cids_ok tup'.
Proof. intros H. unfold cids_ok. by rewrite (hinted_cmin tup tup' H), (hinted_cmax tup tup' H). Qed.
Lemma hinted_cmin_of tup tup' : hinted tup tup' -> cmin_of tup' = cmin_of tup.
Proof. intros H. unfold cmin_of. by rewrite (hinted_cmin tup tup' H). Qed.
Lemma hinted_cmax_of tup tup' : hinted tup tup' -> cmax_of tup' = cmax_of tup.
Proof. intros H. unfold cmax_of. by rewrite (hinted_cmax tup tup' H). Qed.

(** The flag for a write of the current transaction is not part of the
    invariant; nothing else changes. *)
Record same_but_flag (w w' : World) : Prop := {
  sb_now : w_now w' = w_now w;
  sb_later : w_later w' = w_later w;
  sb_thrd : w_thrd w' = w_thrd w;
  sb_page : w_page w' = w_page w;
  sb_tuple : w_tuple w' = w_tuple w;
  sb_htup : w_htup w' = w_htup w;
  sb_out_xmin : w_out_xmin w' = w_out_xmin w;
  sb_out_xmax : w_out_xmax w' = w_out_xmax w }.

Lemma same_hframe w w' : Inv P w -> same_but_flag w w' -> hframe w w'.
Proof. intros Hi []. by apply hframe_same. Qed.

Lemma wp_note_cur_write track cid bound Q w :
  wp cid (fun _ w' => w' = w) w -> (forall w', same_but_flag w w' -> Q tt w') ->
  wp (note_cur_write track cid bound) Q w.
Proof.
  intros Hc HQ. unfold note_cur_write. destruct track; [|by apply wp_ret, HQ].
  apply wp_bind. eapply wp_mono; [exact Hc|]. intros c w' ->. cbn beta.
  destruct (c <? bound); [by apply wp_modify, HQ|by apply wp_ret, HQ].
Qed.

(** ** Now *)

(** Visible now: as for itself, but without the changes of the current command.
    For a tuple of the current transaction that it also deleted through a
    multixact, the command of the deletion is not looked at ([multi]). *)
Definition now_visible (multi : bool) (cmin cmax : Z) (fi fd : fate) : bool :=
  match fi with
  | Mine => (cmin <? currentCommandId)
      && negb (match fd with Mine => multi || (cmax <? currentCommandId) | _ => false end)
  | Committed => negb (match fd with Committed => true | Mine => cmax <? currentCommandId | _ => false end)
  | _ => false
  end.

Definition now_answers (w : World) : bool -> World -> Prop :=
  answers (now_visible (flag (t_infomask (w_tuple w)) HEAP_XMAX_IS_MULTI)
             (cmin_of (w_tuple w)) (cmax_of (w_tuple w))) w.

(** The fate of the deleter, or its absence, from [HeapTupleSatisfiesNow_xmax]
    and [_own]. *)
Lemma invalid_xid_fate s : session_ok -> fate_at s InvalidTransactionId Aborted.
Proof.
  intros Hses. unfold fate_at, known_aborted. split_and!; [by apply (s_special Hses InvalidTransactionId)|by left|].
  by apply special_not_current.
Qed.

Lemma not_valid_xid x : TransactionIdIsValid x = false -> x = InvalidTransactionId.
Proof. unfold TransactionIdIsValid. destruct (Z.eqb_spec x InvalidTransactionId); done. Qed.

Lemma wp_Now_xmax track Q w : session_ok -> Inv P w -> cids_ok (w_tuple w) ->
  let cmax := cmax_of (w_tuple w) in
  (forall b fd w1, hframe w w1 -> deleter_fate (w_now w1) (w_page w) (w_tuple w) fd ->
     b = now_visible (flag (t_infomask (w_tuple w)) HEAP_XMAX_IS_MULTI) 0 cmax Committed fd -> Q b w1) ->
  wp (HeapTupleSatisfiesNow_xmax track) Q w.
Proof.
  intros Hses Hi Hcid cmax Hfin. unfold HeapTupleSatisfiesNow_xmax. apply wp_bind, wp_get_tuple.
  pose proof (i_tuple _ _ Hi) as Hok. set (tup := w_tuple w) in *. set (page := w_page w) in *.
  assert (Hr : hframe w w) by (by apply hframe_refl).
  assert (Hlocked : locked_only tup = true -> Q true w).
  { intros Hlo. apply (Hfin _ Aborted); [done|by apply deleter_fate_locked|done]. }
  destruct (flag (t_infomask tup) HEAP_XMAX_INVALID) eqn:Hinv.
  { apply wp_ret, (Hfin _ Aborted); [done|by apply deleter_fate_invalid|done]. }
  destruct (flag (t_infomask tup) HEAP_XMAX_COMMITTED) eqn:Hcom.
  { apply wp_ret. destruct (locked_only tup) eqn:Hlo; [auto|].
    apply (Hfin _ Committed); [done|by apply deleter_fate_committed|done]. }
  assert (Hcmax : forall w1, same_but_flag w w1 -> deleter_fate (w_now w1) page tup Mine ->
    wp (cmax ← GetCmax; mret (currentCommandId <=? cmax)) Q w1).
  { intros w1 Hsb Hfd. apply wp_bind, wp_GetCmax; [by rewrite (sb_tuple _ _ Hsb)|]. apply wp_ret.
    apply (Hfin _ Mine); [by apply same_hframe|done|]. rewrite (sb_tuple _ _ Hsb). fold tup cmax.
    simpl. apply Z.leb_antisym. }
  destruct (flag (t_infomask tup) HEAP_XMAX_IS_MULTI) eqn:Hm.
  - destruct (locked_only tup) eqn:Hlo; [apply wp_ret; auto|].
    apply wp_bind, wp_UpdateXidM. fold tup page. set (d := HeapTupleHeaderMultiXactGetUpdateXid page tup).
    pose proof (deleter_multi page tup Hlo Hm) as Hd. fold d in Hd.
    destruct (TransactionIdIsValid d) eqn:Hv; cbn [negb].
    2:{ apply wp_ret, (Hfin _ Aborted); [done| |done]. eapply deleter_fate_is; [done|].
        rewrite (not_valid_xid d Hv). by apply invalid_xid_fate. }
    apply wp_bind, wp_current; [done|]. destruct (is_current d) eqn:Hcur.
    { apply Hcmax; [done|by eapply deleter_fate_is]. }
    apply wp_bind, (wp_TransactionIdIsInProgress P); [done|done|]. intros b w1 Hf1 Ht Hn. destruct b.
    { destruct (Ht eq_refl) as [?|Ha]; [congruence|].
      apply wp_ret, (Hfin _ Running); [by apply frame_hframe|by eapply deleter_fate_is|done]. }
    destruct (Hn eq_refl) as [_ Hset].
    apply wp_bind, wp_DidCommit_fate; [done|apply Hf1|done|done|..]; intros w2 Hf2 Hfd; apply wp_ret;
      (eapply Hfin; [by eapply frame_hframe, frame_trans|by eapply deleter_fate_is|done]).
  - apply wp_bind, wp_XmaxM. fold tup page. set (d := HeapTupleHeaderGetXmax page tup).
    pose proof (deleter_plain page tup) as Hd. fold d in Hd.
    apply wp_bind, wp_current; [done|]. destruct (is_current d) eqn:Hcur.
    { apply wp_bind, wp_note_cur_write; [by apply wp_GetCmax|]. intros w1 Hsb.
      destruct (locked_only tup) eqn:Hlo.
      - apply wp_ret, (Hfin _ Aborted); [by apply same_hframe|by apply deleter_fate_locked|done].
      - apply Hcmax; [done|]. eapply deleter_fate_is; [by apply Hd|done]. }
    apply wp_bind, (running_needSync d); [done|done|by apply Hok|].
    intros b w1 Hf1 Ht Hn. destruct b.
    { destruct (Ht eq_refl) as [?|Ha]; [congruence|]. apply wp_ret.
      destruct (locked_only tup) eqn:Hlo.
      - apply (Hfin _ Aborted); [by apply frame_hframe|by apply deleter_fate_locked|done].
      - apply (Hfin _ Running); [by apply frame_hframe| |done]. eapply deleter_fate_is; [by apply Hd|done]. }
    destruct (Hn eq_refl) as [_ Hset].
    assert (E : w_page w1 = page /\ w_tuple w1 = tup) by (split; apply Hf1). destruct E as [E1 E2].
    apply wp_settle_xmax; rewrite ?E1, ?E2; [done|apply Hf1|done|done|done|..]; intros w2 Hf2 Hfd.
    + apply (Hfin _ Aborted); [by eapply frame_h|done|done].
    + apply wp_ret, (Hfin _ Committed); [by eapply frame_h|done|done].
Qed.

Lemma wp_Now_own track Q w : session_ok -> Inv P w -> cids_ok (w_tuple w) ->
  HeapTupleHeaderXminCommitted (w_tuple w) = false ->
  is_current (xmin_of (w_page w) (w_tuple w)) = true ->
  (forall b fd w1, hframe w w1 -> deleter_fate (w_now w1) (w_page w) (w_tuple w) fd ->
     b = now_visible (flag (t_infomask (w_tuple w)) HEAP_XMAX_IS_MULTI)
           (cmin_of (w_tuple w)) (cmax_of (w_tuple w)) Mine fd -> Q b w1) ->
  wp (HeapTupleSatisfiesNow_own track) Q w.
Proof.
  intros Hses Hi Hcid Hxc Hxm Hfin. unfold HeapTupleSatisfiesNow_own.
  pose proof (i_tuple _ _ Hi) as Hok. set (tup := w_tuple w) in *. set (page := w_page w) in *.
  apply wp_bind, wp_note_cur_write; [by apply wp_GetCmin|]. intros w1 Hsb.
  assert (Hr : hframe w w1) by (by apply same_hframe).
  assert (E : w_page w1 = page /\ w_tuple w1 = tup) by (split; apply Hsb). destruct E as [E1 E2].
  assert (Hok1 : tuple_ok (w_now w1) page tup) by (by rewrite (sb_now _ _ Hsb)).
  apply wp_bind, wp_GetCmin; rewrite ?E2; [done|].
  unfold now_visible in Hfin. destruct (Z.leb_spec currentCommandId (cmin_of tup)) as [Hlt|Hlt].
  { destruct (deleter_fate_total (w_now w1) page tup) as [fd Hfd].
    apply wp_ret, (Hfin _ fd); [done|done|].
    by rewrite (proj2 (Z.ltb_ge (cmin_of tup) currentCommandId)). }
  rewrite (proj2 (Z.ltb_lt (cmin_of tup) currentCommandId)) in Hfin by done. cbn [andb] in Hfin.
  apply wp_bind, wp_get_tuple. rewrite E2.
  destruct (flag (t_infomask tup) HEAP_XMAX_INVALID) eqn:Hinv.
  { apply wp_ret, (Hfin _ Aborted); [done|by apply deleter_fate_invalid|done]. }
  destruct (locked_only tup) eqn:Hlo.
  { apply wp_ret, (Hfin _ Aborted); [done|by apply deleter_fate_locked|done]. }
  destruct (flag (t_infomask tup) HEAP_XMAX_IS_MULTI) eqn:Hm.
  - apply wp_bind, wp_UpdateXidM. rewrite E1, E2.
    pose proof (deleter_multi page tup Hlo Hm) as Hd.
    set (d := HeapTupleHeaderMultiXactGetUpdateXid page tup) in *.
    destruct (TransactionIdIsValid d) eqn:Hv; cbn [negb].
    2:{ apply wp_ret, (Hfin _ Aborted); [done| |done]. eapply deleter_fate_is; [done|].
        rewrite (not_valid_xid d Hv). by apply invalid_xid_fate. }
    apply wp_bind, wp_current; [done|]. apply wp_ret. destruct (is_current d) eqn:Hcur.
    + apply (Hfin _ Mine); [done|by eapply deleter_fate_is|done].
    + destruct (t_own _ _ _ Hok1 _ Hxc Hxm Hd) as [?|Ha]; [congruence|].
      apply (Hfin _ Aborted); [done|by eapply deleter_fate_is|done].
  - apply wp_bind, wp_XmaxM. rewrite E1, E2. pose proof (deleter_plain page tup Hlo Hm) as Hd.
    set (d := HeapTupleHeaderGetXmax page tup) in *.
    apply wp_bind, wp_current; [done|]. destruct (is_current d) eqn:Hcur; cbn [negb].
    + apply wp_bind, wp_GetCmax; rewrite ?E2; [done|].
      apply wp_ret, (Hfin _ Mine); [done|by eapply deleter_fate_is|]. simpl. apply Z.leb_antisym.
    + destruct (t_own _ _ _ Hok1 _ Hxc Hxm Hd) as [?|Ha]; [congruence|].
      apply wp_bind, wp_SetHintBits; [apply Hr| |].
      * right; right; right. split; [done|]. rewrite E1, E2, Hd. by intros d' [= <-].
      * intros w2 Hf2. apply wp_ret, (Hfin _ Aborted); [by eapply hframe_trans| |done].
        eapply deleter_fate_is; [done|]. eapply known_aborted_mono; [apply Hf2|done].
Qed.

Lemma wp_Now track Q w : session_ok -> Inv P w -> cids_ok (w_tuple w) ->
  (forall b w', now_answers w b w' -> Q b w') -> wp (HeapTupleSatisfiesNow track) Q w.
Proof.
  intros Hses Hi Hcid HQ. unfold HeapTupleSatisfiesNow. apply wp_bind, wp_get_tuple.
  pose proof (i_tuple _ _ Hi) as Hok. unfold now_answers in HQ.
  set (tup := w_tuple w) in *. set (page := w_page w) in *.
  assert (Hr : hframe w w) by (by apply hframe_refl).
  assert (Hrest : forall w1, hframe w w1 -> inserter_fate (w_now w1) page tup Committed ->
    wp (HeapTupleSatisfiesNow_xmax track) Q w1).
  { intros w1 Hf1 Hci. pose proof (hf_tuple _ _ Hf1) as Hh.
    apply wp_Now_xmax; [done|apply Hf1|by eapply hinted_cids|].
    intros b fd w2 Hf2 Hfd ->. apply HQ. eapply (answers_now _ _ _ _ Committed fd);
      [by eapply hframe_trans| | |].
    - eapply inserter_mono; [apply Hf2|done|done].
    - rewrite (hf_page _ _ Hf1) in Hfd. by eapply deleter_fate_hinted.
    - by rewrite (hinted_cmax_of _ _ Hh). }
  fold (HeapTupleHeaderXminCommitted tup).
  destruct (HeapTupleHeaderXminCommitted tup) eqn:Hxc; cbn [negb].
  { apply Hrest; [done|]. by apply inserter_committed. }
  pose proof (XminInvalid_flags tup) as Hxi. unfold HeapTupleHeaderXminCommitted in Hxc.
  rewrite Hxc, andb_true_r in Hxi. rewrite <- Hxi. fold (HeapTupleHeaderXminCommitted tup) in Hxc.
  destruct (HeapTupleHeaderXminInvalid tup) eqn:Hinv.
  { apply wp_ret, HQ. eapply answers_inserter; [done|by apply inserter_invalid|done]. }
  apply wp_bind, wp_XminM, wp_bind, wp_current; [done|]. fold tup page.
  destruct (is_current (xmin_of page tup)) eqn:Hcur.
  { apply wp_Now_own; [done|done|done|done|done|]. intros b fd w1 Hf1 Hfd ->. apply HQ.
    eapply (answers_now _ _ _ _ Mine fd); [done|by apply inserter_not_frozen|done|done]. }
  apply wp_settle_xmin; [done|done|done|apply running_needSync; [done|done|apply Hok]|..].
  - intros w1 Hf1 Ha. apply wp_ret, HQ. eapply (answers_inserter _ _ _ _ Running);
      [by apply frame_hframe|by apply inserter_not_frozen|done].
  - intros w1 Hf1 Ha. apply HQ. eapply (answers_inserter _ _ _ _ Aborted);
      [done|by apply inserter_not_frozen|done].
  - intros w1 Hf1 Hc. apply Hrest; [done|]. by apply inserter_not_frozen.
Qed.

(** ** MVCC *)

Section MVCC.
Context (snap : SnapshotData) (Hses : session_ok) (Hsat : satisfies snap = SNAPSHOT_MVCC).
Context (HP : forall s, P s -> snap_ok snap s).
Context (HPw : forall s x, P s -> oc x = false -> P (write_csn_entry x COMMITSEQNO_ABORTED s)).

(** The versions of the row that a reader may find when it locks the page
    again are inserted by the same transaction [X]; who deleted a version is a
    matter of its [t_xmax] ([D]); at most one deleter ([F]) commits, and once
    it has the version on the page shows it. *)
Context (X : Z) (D : Z -> option Z) (F : option Z).

Record row_ok (page : HeapPage) (tup : HeapTupleHeaderData) : Prop := {
  r_valid : 0 < X;
  r_xmin : xmin_of page tup = X;
  r_deleter : deleter page tup = D (HeapTupleHeaderGetXmax page tup);
  r_xmax : flag (t_infomask tup) HEAP_XMAX_INVALID = false -> locked_only tup = false ->
    flag (t_infomask tup) HEAP_XMAX_IS_MULTI = false -> 0 < HeapTupleHeaderGetXmax page tup;
  r_cids : cids_ok tup;
  r_final : forall d, deleter page tup = Some d -> oc d = true -> F = Some d }.

Definition view_ok (s : Shared) : Prop := forall page tup, sh_view s = Some (page, tup) ->
  row_ok page tup /\ (forall d, F = Some d -> known_committed s d -> deleter page tup = Some d).

Context (HV : forall s, P s -> view_ok s).

Lemma hinted_row_ok page tup tup' : hinted tup tup' -> row_ok page tup -> row_ok page tup'.
Proof.
  intros H [H1 H2 H3 H4 H5 H6]. constructor; rewrite ?(hinted_xmin tup tup' H), ?(hinted_xmax tup tup' H),
    ?(hinted_multi tup tup' H), ?(hinted_deleter tup tup' H), ?(hinted_locked_only tup tup' H); try done.
  - intros Hf. apply H4. destruct (flag (t_infomask tup) HEAP_XMAX_INVALID) eqn:Hf'; [|done].
    by rewrite (hinted_keeps tup tup' _ H Hf') in Hf.
  - by eapply hinted_cids.
Qed.

Lemma view_instant w v : Inv P w -> Some v ∈ views w ->
  exists s, sh_view s = Some v /\ P s /\ evolves (w_now w) s.
Proof.
  intros Hi Hv. unfold views in Hv. apply list_elem_of_fmap in Hv as (s & Hview & Hin).
  destruct (i_history _ _ Hi) as [Hall Hs]. rewrite list.Forall_forall in Hall.
  destruct (Hall s Hin) as (_ & HPs & _). exists s. split_and!; [done|done|].
  apply elem_of_cons in Hin as [->|Hin]; [reflexivity|].
  apply StronglySorted_inv in Hs as [_ Hs]. rewrite list.Forall_forall in Hs. by apply Hs.
Qed.

Lemma sframe_row w w' : Inv P w -> row_ok (w_page w) (w_tuple w) -> sframe P w w' ->
  row_ok (w_page w') (w_tuple w').
Proof.
  intros Hi Hrow Hs. destruct (sf_tuple _ _ _ Hs) as [[-> ->]|Hv]; [done|].
  destruct (view_instant w _ Hi Hv) as (s & Hview & HPs & _). by apply (HV s HPs).
Qed.

(** A deleter that is known to have committed stays. *)
Lemma sframe_final w w' d : Inv P w -> row_ok (w_page w) (w_tuple w) -> sframe P w w' ->
  deleter (w_page w) (w_tuple w) = Some d -> known_committed (w_now w) d ->
  deleter (w_page w') (w_tuple w') = Some d.
Proof.
  intros Hi Hrow Hs Hd Hk. destruct (sf_tuple _ _ _ Hs) as [[-> ->]|Hv]; [done|].
  destruct (view_instant w _ Hi Hv) as (s & Hview & HPs & He). apply (HV s HPs _ _ Hview).
  - apply (r_final _ _ Hrow); [done|apply Hk].
  - by eapply known_committed_mono.
Qed.

(** Time has passed, the caches have changed, and the tuple, or the one found
    when the page was locked again, has more hint bits. *)
Record vframe (w w' : World) : Prop := {
  vf_inv : Inv P w';
  vf_evolves : evolves (w_now w) (w_now w');
  vf_views : views w' `suffix_of` views w;
  vf_tuple : exists tup, hinted tup (w_tuple w')
    /\ ((w_page w' = w_page w /\ tup = w_tuple w) \/ Some (w_page w', tup) ∈ views w) }.

Lemma sframe_vframe w w' : sframe P w w' -> vframe w w'.
Proof.
  intros [H1 H2 H3 H4 _ _]. constructor; [done..|]. exists (w_tuple w'). split; [apply hinted_refl|done].
Qed.

Lemma hframe_vframe w w' : hframe w w' -> vframe w w'.
Proof.
  intros H. constructor; try apply H. exists (w_tuple w). split; [apply H|]. left.
  split; [apply H|done].
Qed.

Lemma vframe_trans w1 w2 w3 : vframe w1 w2 -> vframe w2 w3 -> vframe w1 w3.
Proof.
  intros [H1 H2 H3 (t2 & Hh2 & H4)] [G1 G2 G3 (t3 & Hh3 & G4)]. constructor;
    [done|by etrans|by etrans|]. destruct G4 as [[Hp ->]|Hv].
  - exists t2. split; [by eapply hinted_trans|]. destruct H4 as [[Hp' ->]|Hv]; [left|right].
    + by rewrite Hp.
    + by rewrite Hp.
  - exists t3. split; [done|]. right. by eapply elem_of_suffix.
Qed.

(** What the snapshot sees of a transaction: all of it if its CSN is lower, of
    the current transaction the commands before the current one. *)
Definition xact_visible (x cid : Z) : bool :=
  if is_current x then cid <? curcid snap else sees snap x.

(** The version is visible if the snapshot sees its insertion and does not see
    its deletion. *)
Definition mvcc_visible (page : HeapPage) (tup : HeapTupleHeaderData) : bool :=
  xact_visible (xmin_of page tup) (cmin_of tup)
  && negb (match deleter page tup with Some d => xact_visible d (cmax_of tup) | None => false end).

(** The answer is that of the snapshot for the version on the page at the end,
    or the version was updated through a multixact by a transaction that was
    still running at some instant. *)
Record mv_ok (w : World) (b : bool) (w' : World) : Prop := {
  mv_frame : vframe w w';
  mv_row : row_ok (w_page w') (w_tuple w');
  mv_answer : b = mvcc_visible (w_page w') (w_tuple w')
    \/ (b = true /\ flag (t_infomask (w_tuple w')) HEAP_XMAX_IS_MULTI = true
        /\ exists d, deleter (w_page w') (w_tuple w') = Some d
           /\ observed w w' (fun s => fate_at s d Running)) }.

Lemma mv_ok_later w w1 b w' : vframe w w1 -> mv_ok w1 b w' -> mv_ok w b w'.
Proof.
  intros He [H1 H2 H3]. constructor; [by eapply vframe_trans|done|].
  destruct H3 as [?|(? & ? & d & ? & s & ? & ? & ? & ?)]; [by left|right]. split; [done|]. split; [done|].
  exists d. split; [done|]. exists s. split_and!; [etrans; [apply He|done]|done..].
Qed.

Lemma mvcc_not_mvcc : IsMVCCSnapshot snap = true /\ satisfies snap <> SNAPSHOT_DECODE_MVCC
  /\ IsVersionMVCCSnapshot snap = false.
Proof. unfold IsMVCCSnapshot, IsVersionMVCCSnapshot. by rewrite Hsat. Qed.

Lemma wp_Visible x Q w : Inv P w ->
  (forall b st sync w', sframe P w w' -> vis_ok snap x b st w' ->
     (if sync : bool then w_later w <> [] -> (length (w_later w') < length (w_later w))%nat
      else frame P w w') -> Q (b, st, sync) w') ->
  wp (XidVisibleInSnapshot x snap) Q w.
Proof. intros ? HQ. apply (wp_XidVisibleInSnapshot P); try done; try apply mvcc_not_mvcc. intros. by apply HQ. Qed.

Lemma wp_CommittedVisible x Q w : Inv P w -> known_committed (w_now w) x ->
  (forall w', sframe P w w' -> Q (sees snap x) w') -> wp (CommittedXidVisibleInSnapshot x snap) Q w.
Proof. intros. by apply (wp_CommittedXidVisibleInSnapshot P); try apply mvcc_not_mvcc. Qed.

Lemma wp_gtm_lite bypass x st eq Q w : Q (false, false) w ->
  wp (gtm_lite_visible bypass x snap st eq) Q w.
Proof. intros HQ. unfold gtm_lite_visible. rewrite (s_gtm Hses). by apply wp_ret. Qed.

Lemma aborted_normal x : 0 < x -> oc x = false -> TransactionIdIsNormal x = true.
Proof.
  intros Hx Ho. destruct (TransactionIdIsNormal x) eqn:Hn; [done|]. pose proof (s_special Hses x Hn) as Hsp.
  apply Z.leb_gt in Hn. unfold FirstNormalTransactionId, BootstrapTransactionId, FrozenTransactionId in *.
  assert (x = 1 \/ x = 2) as [->| ->] by lia; simpl in Hsp; destruct Hsp; congruence.
Qed.

(** Writing the hint status on the tuple. *)
Lemma wp_hint_xmin b st Q w : Inv P w -> row_ok (w_page w) (w_tuple w) -> vis_ok snap X b st w ->
  (forall w', hframe w w' -> Q tt w') -> wp (hint_xmin st) Q w.
Proof.
  intros Hi Hrow (_ & Hc & Ha) HQ. unfold hint_xmin. apply wp_bind, wp_XminM.
  rewrite (r_xmin _ _ Hrow). destruct st.
  - apply wp_SetHintBits; [done| |done]. left. rewrite (r_xmin _ _ Hrow). auto.
  - destruct (Ha eq_refl) as [Hab Hl]. apply wp_bind, wp_LatestFetchCSNDidAbort; [done| |].
    + apply aborted_normal; [apply Hrow|apply Hab].
    + apply wp_bind, wp_ret, wp_SetHintBits; [done| |done]. right; left. by rewrite (r_xmin _ _ Hrow).
  - apply wp_ret, HQ. by apply hframe_refl.
Qed.

Lemma wp_hint_xmax b st Q w : Inv P w ->
  let x := HeapTupleHeaderGetXmax (w_page w) (w_tuple w) in
  vis_ok snap x b st w -> 0 < x -> deleter (w_page w) (w_tuple w) = Some x ->
  (forall w', hframe w w' -> Q tt w') -> wp (hint_xmax st) Q w.
Proof.
  intros Hi x (_ & Hc & Ha) Hx Hd HQ. unfold hint_xmax. apply wp_bind, wp_XmaxM. fold x. destruct st.
  - apply wp_SetHintBits; [done| |done]. right; right; left. split; [done|]. rewrite Hd.
    intros d [= <-]. auto.
  - destruct (Ha eq_refl) as [Hab Hl]. apply wp_bind, wp_LatestFetchCSNDidAbort; [done| |].
    + apply aborted_normal; [done|apply Hab].
    + apply wp_bind, wp_ret, wp_SetHintBits; [done| |done]. right; right; right. split; [done|].
      rewrite Hd. by intros d [= <-].
  - apply wp_ret, HQ. by apply hframe_refl.
Qed.


(** *** The deleter *)

Section Recheck.
Context (HXc : is_current X = false) (HXs : sees snap X = true).

(** What the snapshot sees of the deleter decides. *)
Lemma visible_by_deleter page tup : row_ok page tup ->
  mvcc_visible page tup
  = negb (match deleter page tup with Some d => xact_visible d (cmax_of tup) | None => false end).
Proof.
  intros Hr. unfold mvcc_visible. rewrite (r_xmin _ _ Hr). unfold xact_visible at 1. by rewrite HXc, HXs.
Qed.

Lemma visible_not_deleted page tup : row_ok page tup -> deleter page tup = None -> mvcc_visible page tup = true.
Proof. intros Hr Hd. by rewrite visible_by_deleter, Hd. Qed.

Lemma visible_own page tup d : row_ok page tup -> deleter page tup = Some d -> is_current d = true ->
  mvcc_visible page tup = (curcid snap <=? cmax_of tup).
Proof.
  intros Hr Hd Hc. rewrite visible_by_deleter, Hd by done. unfold xact_visible. rewrite Hc.
  by rewrite Z.leb_antisym.
Qed.

Lemma visible_other page tup d : row_ok page tup -> deleter page tup = Some d -> is_current d = false ->
  mvcc_visible page tup = negb (sees snap d).
Proof. intros Hr Hd Hc. rewrite visible_by_deleter, Hd by done. unfold xact_visible. by rewrite Hc. Qed.

Lemma visible_aborted s page tup d : row_ok page tup -> deleter page tup = Some d -> known_aborted s d ->
  mvcc_visible page tup = true.
Proof.
  intros Hr Hd (Ho & _ & Hc). rewrite (visible_other _ _ d) by done. unfold sees. by rewrite Ho.
Qed.

(** The rounds that are left suffice: one for each later instant, one for the
    tuple at hand and one for the tuple on the page at the last instant. *)
Definition enough (rounds : nat) (w : World) : Prop :=
  (length (w_later w) + 2 <= rounds)%nat
  \/ (w_later w = [] /\ sh_view (w_now w) = Some (w_page w, w_tuple w) /\ (1 <= rounds)%nat).

Lemma enough_next rounds w w' : enough (S rounds) w -> sframe P w w' ->
  (w_later w <> [] -> (length (w_later w') < length (w_later w))%nat) ->
  HeapTupleHeaderGetXmax (w_page w') (w_tuple w') <> HeapTupleHeaderGetXmax (w_page w) (w_tuple w) ->
  enough rounds w'.
Proof.
  intros He Hs Hlen Hne. destruct (w_later w) as [|s l] eqn:Hl.
  - destruct (sf_tuple _ _ _ Hs) as [[E1 E2]|Hv]; [by rewrite E1, E2 in Hne|].
    pose proof (views_later _ _ (sf_views _ _ _ Hs)) as Hll. rewrite Hl in Hll.
    assert (Hl' : w_later w' = []) by (destruct (w_later w'); simpl in *; [done|lia]).
    pose proof (sf_views _ _ _ Hs) as Hsuf. unfold views in Hsuf, Hv. rewrite Hl, Hl' in Hsuf.
    rewrite Hl in Hv. simpl in Hsuf, Hv. apply list_elem_of_singleton in Hv.
    assert (Hnow : sh_view (w_now w') = sh_view (w_now w)).
    { destruct Hsuf as [k Hk]. destruct k as [|? k]; [by injection Hk|].
      apply (f_equal length) in Hk. rewrite length_app in Hk. simpl in Hk. lia. }
    destruct He as [He|(_ & Hview & _)].
    + right. split; [done|]. split; [by rewrite Hnow|]. rewrite Hl in He. simpl in He. lia.
    + rewrite Hview in Hv. injection Hv as E1 E2. by rewrite E1, E2 in Hne.
  - destruct He as [He|(? & _)]; [left|congruence]. specialize (Hlen ltac:(done)).
    rewrite Hl in He. simpl in *. lia.
Qed.

Lemma hframe_row w w' : row_ok (w_page w) (w_tuple w) -> hframe w w' -> row_ok (w_page w') (w_tuple w').
Proof.
  intros Hr H. rewrite (hf_page _ _ H). eapply hinted_row_ok; [apply H|done].
Qed.

(** An answer for a tuple that stayed the same but for hints. *)
Lemma mv_hinted w b w' : row_ok (w_page w) (w_tuple w) -> hframe w w' ->
  b = mvcc_visible (w_page w) (w_tuple w) -> mv_ok w b w'.
Proof.
  intros Hr H Hb. pose proof (hf_tuple _ _ H) as Hh. constructor.
  - by apply hframe_vframe.
  - by eapply hframe_row.
  - left. rewrite (hf_page _ _ H), Hb. unfold mvcc_visible.
    by rewrite (hinted_xmin _ _ Hh), (hinted_deleter _ _ Hh), (hinted_cmin_of _ _ Hh), (hinted_cmax_of _ _ Hh).
Qed.

(** The deleter is known to have committed. *)
Lemma wp_committed_deleter d Q w : Inv P w -> row_ok (w_page w) (w_tuple w) ->
  deleter (w_page w) (w_tuple w) = Some d -> known_committed (w_now w) d ->
  (forall w', mv_ok w (negb (sees snap d)) w' -> Q (sees snap d) w') ->
  wp (CommittedXidVisibleInSnapshot d snap) Q w.
Proof.
  intros Hi Hr Hd Hk HQ. apply wp_CommittedVisible; [done|done|]. intros w' Hs. apply HQ.
  pose proof (sframe_row w w' Hi Hr Hs) as Hr'. constructor; [by apply sframe_vframe|done|left].
  rewrite (visible_other _ _ d); [done|done|by eapply sframe_final|apply Hk].
Qed.

(** *** The end of the test *)

(** A deletion by the current transaction. *)
Lemma wp_deleted_own w d Q w1 : Inv P w -> row_ok (w_page w) (w_tuple w) -> same_but_flag w w1 ->
  deleter (w_page w) (w_tuple w) = Some d -> is_current d = true ->
  (forall b w', mv_ok w b w' -> Q b w') -> wp (cmax ← GetCmax; mret (curcid snap <=? cmax)) Q w1.
Proof.
  intros Hi Hrow Hsb Hd Hc HQ. apply wp_bind, wp_GetCmax; rewrite ?(sb_tuple _ _ Hsb); [apply Hrow|].
  apply wp_ret, HQ, mv_hinted; [done|by apply same_hframe|]. symmetry. by eapply visible_own.
Qed.

Lemma wp_MVCC_multi Q w : Inv P w -> row_ok (w_page w) (w_tuple w) ->
  locked_only (w_tuple w) = false -> flag (t_infomask (w_tuple w)) HEAP_XMAX_IS_MULTI = true ->
  (forall b w', mv_ok w b w' -> Q b w') -> wp (HeapTupleSatisfiesMVCC_multi snap) Q w.
Proof.
  intros Hi Hrow Hlo Hm HQ. unfold HeapTupleSatisfiesMVCC_multi.
  set (tup := w_tuple w) in *. set (page := w_page w) in *.
  pose proof (deleter_multi page tup Hlo Hm) as Hd. apply wp_bind, wp_UpdateXidM. fold tup page.
  set (d := HeapTupleHeaderMultiXactGetUpdateXid page tup) in *.
  apply wp_bind, wp_current; [done|]. destruct (is_current d) eqn:Hcur; [by apply (wp_deleted_own w d)|].
  apply wp_bind, (wp_TransactionIdIsInProgress P); [done|done|]. intros b w1 Hf1 Ht Hn.
  pose proof (frame_hframe _ _ Hf1) as Hh1. pose proof (hframe_row _ _ Hrow Hh1) as Hrow1.
  assert (Hd1 : deleter (w_page w1) (w_tuple w1) = Some d)
    by (by rewrite (f_page _ _ _ Hf1), (f_tuple _ _ _ Hf1)).
  destruct b.
  { destruct (Ht eq_refl) as [?|Ha]; [congruence|]. apply wp_ret, HQ.
    constructor; [by apply hframe_vframe|done|right]. rewrite (f_tuple _ _ _ Hf1).
    split; [done|]. split; [done|]. exists d. split; [by rewrite <- (f_tuple _ _ _ Hf1)|].
    exists (w_now w1). split; [apply Hf1|]. split; [reflexivity|]. split; [|done].
    by apply (hframe_now w w1). }
  destruct (Hn eq_refl) as [_ Hset].
  apply wp_bind, wp_DidCommit_fate; [done|apply Hf1|done|done|..]; intros w2 Hf2 Hfd.
  + pose proof (frame_trans P _ _ _ Hf1 Hf2) as Hf. pose proof (frame_hframe _ _ Hf) as Hh.
    pose proof (hframe_row _ _ Hrow Hh) as Hrow2.
    apply wp_bind, (wp_committed_deleter d); [apply Hf2|done| |done|].
    * by rewrite (f_page _ _ _ Hf), (f_tuple _ _ _ Hf).
    * intros w3 Hmv. apply wp_ret, HQ. eapply mv_ok_later; [by apply hframe_vframe|done].
  + pose proof (frame_trans P _ _ _ Hf1 Hf2) as Hf. apply wp_ret, HQ, mv_hinted; [done|by apply frame_hframe|].
    symmetry. by eapply visible_aborted.
Qed.

Lemma wp_MVCC_xmax rounds track Q w : Inv P w -> row_ok (w_page w) (w_tuple w) -> enough rounds w ->
  (forall b w', mv_ok w b w' -> Q b w') -> wp (HeapTupleSatisfiesMVCC_xmax rounds track snap) Q w.
Proof.
  revert w. induction rounds as [|rounds IH]; intros w Hi Hrow Hen HQ.
  { destruct Hen as [?|(_ & _ & ?)]; lia. }
  cbn [HeapTupleSatisfiesMVCC_xmax]. apply wp_bind, wp_get_tuple.
  pose proof (i_tuple _ _ Hi) as Hok. set (tup := w_tuple w) in *. set (page := w_page w) in *.
  assert (Hr : hframe w w) by (by apply hframe_refl).
  assert (Hnone : deleter page tup = None -> wp (A := bool) (mret true) Q w).
  { intros Hd. apply wp_ret, HQ, mv_hinted; [done|done|]. by rewrite visible_not_deleted. }
  destruct (flag (t_infomask tup) HEAP_XMAX_INVALID) eqn:Hinv.
  { destruct (deleter page tup) as [d|] eqn:Hd; [|auto]. apply wp_ret, HQ, mv_hinted; [done|done|].
    symmetry. eapply (visible_aborted (w_now w)); [done|done|]. by apply (t_hint_xmax_invalid _ _ _ Hok). }
  destruct (locked_only tup) eqn:Hlo; [apply Hnone; by apply deleter_locked|].
  destruct (flag (t_infomask tup) HEAP_XMAX_IS_MULTI) eqn:Hm.
  - by apply wp_MVCC_multi.
  - pose proof (deleter_plain page tup Hlo Hm) as Hd.
    assert (Hpos : 0 < HeapTupleHeaderGetXmax page tup) by (by apply Hrow).
    set (d := HeapTupleHeaderGetXmax page tup) in *.
    destruct (flag (t_infomask tup) HEAP_XMAX_COMMITTED) eqn:Hcom; cbn [negb].
    { pose proof (t_hint_xmax_committed _ _ _ Hok d Hcom Hd) as Hk.
      apply wp_bind, wp_XmaxM. fold tup page. fold d.
      apply wp_bind, (wp_committed_deleter d); [done|done|done|done|]. intros w1 Hmv.
      destruct (sees snap d); [by apply wp_ret, HQ|].
      apply wp_bind, wp_XmaxM, wp_bind, wp_gtm_lite, wp_ret. by apply HQ. }
    destruct mvcc_not_mvcc as (_ & _ & ->). cbn [negb]. apply wp_bind, wp_XmaxM. fold tup page. fold d.
    apply wp_bind, wp_current; [done|]. destruct (is_current d) eqn:Hcur.
    { apply wp_bind, wp_note_cur_write; [apply wp_GetCmax; [apply Hrow|done]|]. intros w1 Hsb.
      by apply (wp_deleted_own w d). }
    apply wp_bind, wp_Visible; [done|]. intros b st sync w1 Hs1 Hvis Hsync.
    pose proof (sframe_row w w1 Hi Hrow Hs1) as Hrow1. assert (Hi1 : Inv P w1) by apply Hs1.
    apply wp_bind, wp_XmaxM. destruct (sync && negb (d =? _)) eqn:Hre.
    { apply andb_true_iff in Hre as [-> Hne%negb_true_iff%Z.eqb_neq].
      apply IH; [done|done| |].
      - eapply enough_next; [done|done|done|]. fold page tup. fold d. congruence.
      - intros b' w2 Hmv. apply HQ. eapply mv_ok_later; [by apply sframe_vframe|done]. }
    assert (Hsame : HeapTupleHeaderGetXmax (w_page w1) (w_tuple w1) = d).
    { destruct sync.
      - simpl in Hre. by apply negb_false_iff, Z.eqb_eq in Hre.
      - by rewrite (f_page _ _ _ Hsync), (f_tuple _ _ _ Hsync). }
    assert (Hd1 : deleter (w_page w1) (w_tuple w1) = Some d).
    { rewrite (r_deleter _ _ Hrow1), Hsame. unfold d. by rewrite <- (r_deleter _ _ Hrow). }
    apply wp_bind, (wp_hint_xmax b); rewrite ?Hsame; [done|done|done|done|]. intros w2 Hh2.
    assert (Hans : mv_ok w (negb (sees snap d)) w2).
    { eapply mv_ok_later; [by apply sframe_vframe|]. apply mv_hinted; [done|done|].
      by rewrite (visible_other _ _ d). }
    assert (Hsame2 : HeapTupleHeaderGetXmax (w_page w2) (w_tuple w2) = d).
    { by rewrite (hf_page _ _ Hh2), (hinted_xmax _ _ (hf_tuple _ _ Hh2)). }
    destruct Hvis as [-> _]. destruct (sees snap d) eqn:Hsee; [by apply wp_ret, HQ|].
    apply wp_bind, wp_XmaxM, wp_bind, wp_gtm_lite, wp_bind, wp_XmaxM.
    rewrite Hsame2, Z.eqb_refl, andb_false_r. by apply wp_ret, HQ.
Qed.

Lemma wp_MVCC_recheck track Q w : Inv P w -> row_ok (w_page w) (w_tuple w) ->
  (forall b w', mv_ok w b w' -> Q b w') -> wp (HeapTupleSatisfiesMVCC_recheck track snap) Q w.
Proof.
  intros Hi Hrow HQ. apply wp_bind, wp_getw. apply wp_MVCC_xmax; [done|done| |done]. left. lia.
Qed.
End Recheck.

(** *** The whole test *)

Lemma combo_known tup : cids_ok tup -> flag (t_infomask tup) HEAP_COMBOCID = true ->
  CheckStreamCombocid tup = Ok false.
Proof.
  intros [[c Hc] _] Hf. unfold HeapTupleHeaderGetCmin, GetRealCmin in Hc. rewrite Hf in Hc.
  unfold CheckStreamCombocid.
  destruct (zlookup comboCids (HeapTupleHeaderGetRawCommandId tup)) eqn:Hl; [|done].
  apply zlookup_Some_range in Hl. by rewrite (proj2 (Z.leb_gt _ _)) by apply Hl.
Qed.

Lemma wp_MVCC_own track Q w : Inv P w -> row_ok (w_page w) (w_tuple w) ->
  HeapTupleHeaderXminCommitted (w_tuple w) = false -> is_current X = true ->
  (forall b w', mv_ok w b w' -> Q b w') -> wp (HeapTupleSatisfiesMVCC_own track snap) Q w.
Proof.
  intros Hi Hrow Hxc HX HQ. unfold HeapTupleSatisfiesMVCC_own.
  apply wp_bind, wp_note_cur_write; [apply wp_GetCmin; [apply Hrow|done]|]. intros w1 Hsb.
  pose proof (same_hframe w w1 Hi Hsb) as Hh1. assert (Hi1 : Inv P w1) by apply Hh1.
  apply wp_bind, wp_get_tuple. rewrite (sb_tuple _ _ Hsb).
  pose proof (i_tuple _ _ Hi) as Hok.
  set (tup := w_tuple w) in *. set (page := w_page w) in *.
  assert (Hx : is_current (xmin_of page tup) = true) by (by rewrite (r_xmin _ _ Hrow)).
  assert (Hvis : forall d, deleter page tup = d -> mvcc_visible page tup
    = (cmin_of tup <? curcid snap)
      && negb (match d with Some d => xact_visible d (cmax_of tup) | None => false end)).
  { intros d <-. unfold mvcc_visible. f_equal. unfold xact_visible. by rewrite Hx. }
  assert (Hfin : forall b w2, hframe w w2 -> b = mvcc_visible page tup -> Q b w2).
  { intros b w2 Hh Hb. by apply HQ, mv_hinted. }
  assert (Hstream : forall Q', Q' false w1 -> wp (if flag (t_infomask tup) HEAP_COMBOCID
    then of_result (CheckStreamCombocid tup) else mret false) Q' w1).
  { intros Q' HQ'. destruct (flag _ _) eqn:Hf; [|done].
    rewrite (combo_known tup) by first [apply Hrow|done]. done. }
  apply wp_bind, Hstream, wp_bind, wp_GetCmin; rewrite (sb_tuple _ _ Hsb); [apply Hrow|]. fold tup.
  destruct (Z.leb_spec (curcid snap) (cmin_of tup)) as [Hle|Hlt].
  { apply wp_ret, Hfin; [done|]. rewrite (Hvis _ eq_refl). by rewrite (proj2 (Z.ltb_ge _ _) Hle). }
  apply Z.ltb_lt in Hlt. rewrite Hlt in Hvis. cbn [andb] in Hvis.
  assert (Habort : forall d, deleter page tup = Some d -> known_aborted (w_now w) d ->
    true = mvcc_visible page tup).
  { intros d Hd (Ho & _ & Hc). rewrite (Hvis _ Hd). unfold xact_visible, sees. by rewrite Hc, Ho. }
  assert (Hmine : forall d, deleter page tup = Some d -> is_current d = true ->
    (curcid snap <=? cmax_of tup) = mvcc_visible page tup).
  { intros d Hd Hc. rewrite (Hvis _ Hd). unfold xact_visible. rewrite Hc. apply Z.leb_antisym. }
  assert (Hcmax : forall d w2, same_but_flag w w2 -> deleter page tup = Some d -> is_current d = true ->
    wp (cmax ← GetCmax; mret (curcid snap <=? cmax)) Q w2).
  { intros d w2 Hs2 Hd Hc. apply wp_bind, wp_GetCmax; rewrite ?(sb_tuple _ _ Hs2); [apply Hrow|].
    apply wp_ret, Hfin; [by apply same_hframe|]. by eapply Hmine. }
  destruct (flag (t_infomask tup) HEAP_XMAX_INVALID) eqn:Hinv.
  { apply wp_ret, Hfin; [done|]. destruct (deleter page tup) as [d|] eqn:Hd.
    - apply (Habort d); [done|]. by apply (t_hint_xmax_invalid _ _ _ Hok).
    - by rewrite (Hvis None eq_refl). }
  destruct (locked_only tup) eqn:Hlo.
  { apply wp_ret, Hfin; [done|]. by rewrite (Hvis _ (deleter_locked _ _ Hlo)). }
  assert (E1 : w_page w1 = page) by apply Hsb. assert (E2 : w_tuple w1 = tup) by apply Hsb.
  destruct (flag (t_infomask tup) HEAP_XMAX_IS_MULTI) eqn:Hm.
  - pose proof (deleter_multi page tup Hlo Hm) as Hd. apply wp_bind, wp_UpdateXidM. rewrite E1, E2.
    set (d := HeapTupleHeaderMultiXactGetUpdateXid page tup) in *.
    apply wp_bind, wp_current; [done|]. destruct (is_current d) eqn:Hcur; [by eapply Hcmax|].
    destruct (t_own _ _ _ Hok _ Hxc Hx Hd) as [?|Ha]; [congruence|].
    apply wp_ret, Hfin; [done|]. by eapply Habort.
  - pose proof (deleter_plain page tup Hlo Hm) as Hd. apply wp_bind, wp_XmaxM. rewrite E1, E2.
    set (d := HeapTupleHeaderGetXmax page tup) in *.
    apply wp_bind, wp_current; [done|]. destruct (is_current d) eqn:Hcur; cbn [negb].
    + apply wp_bind, wp_note_cur_write; [apply wp_GetCmax; [rewrite E2; apply Hrow|done]|].
      intros w2 Hsb2. eapply Hcmax; [|done|done].
      destruct Hsb, Hsb2. constructor; congruence.
    + destruct (t_own _ _ _ Hok _ Hxc Hx Hd) as [?|Ha]; [congruence|].
      apply wp_bind, wp_SetHintBits; [done| |].
      * right; right; right. split; [done|]. rewrite E1, E2, Hd, (sb_now _ _ Hsb). by intros d' [= <-].
      * intros w2 Hh2. apply wp_ret, Hfin; [by eapply hframe_trans|]. by eapply Habort.
Qed.

(** The inserter of a frozen tuple is one every snapshot sees. *)
Definition frozen_ok (tup : HeapTupleHeaderData) : Prop :=
  HeapTupleHeaderXminFrozen tup = true -> is_current X = false /\ sees snap X = true.

Lemma wp_MVCC track Q w : XactReadOnly && enable_show_any_tuples = false -> Inv P w ->
  row_ok (w_page w) (w_tuple w) -> frozen_ok (w_tuple w) ->
  (forall b w', mv_ok w b w' -> Q b w') -> wp (HeapTupleSatisfiesMVCC track snap) Q w.
Proof.
  intros Hshow Hi Hrow Hfr HQ. unfold HeapTupleSatisfiesMVCC. rewrite Hshow. apply wp_bind, wp_get_tuple.
  pose proof (i_tuple _ _ Hi) as Hok. destruct mvcc_not_mvcc as (_ & _ & Hversion). rewrite Hversion.
  pose proof (r_xmin _ _ Hrow) as HX.
  assert (Hafter : forall w1, vframe w w1 -> row_ok (w_page w1) (w_tuple w1) ->
    is_current X = false -> sees snap X = true -> wp (HeapTupleSatisfiesMVCC_recheck track snap) Q w1).
  { intros w1 Hv Hr1 Hc Hs. apply wp_MVCC_recheck; [done|done|apply Hv|done|].
    intros b w2 Hmv. apply HQ. by eapply mv_ok_later. }
  assert (Hunseen : forall w1, vframe w w1 -> row_ok (w_page w1) (w_tuple w1) ->
    is_current X = false -> sees snap X = false -> Q false w1).
  { intros w1 Hv Hr1 Hc Hs. apply HQ. constructor; [done|done|left].
    unfold mvcc_visible, xact_visible. by rewrite (r_xmin _ _ Hr1), Hc, Hs. }
  assert (Hlite : forall bypass x st eq w1, vframe w w1 -> row_ok (w_page w1) (w_tuple w1) ->
    is_current X = false -> sees snap X = false ->
    wp (r ← gtm_lite_visible bypass x snap st eq;
        if fst (r : bool * bool) then HeapTupleSatisfiesMVCC_recheck track snap else mret false) Q w1).
  { intros. apply wp_bind, wp_gtm_lite, wp_ret. by apply Hunseen. }
  destruct (HeapTupleHeaderXminCommitted (w_tuple w)) eqn:Hxc; cbn [negb].
  - destruct (HeapTupleHeaderXminFrozen (w_tuple w)) eqn:Hf; cbn [negb].
    { destruct (Hfr Hf). by apply Hafter; [apply hframe_vframe, hframe_refl|..]. }
    pose proof (t_hint_xmin_committed _ _ _ Hok Hxc Hf) as Hk. rewrite HX in Hk.
    assert (Hcur : is_current X = false) by apply Hk.
    apply wp_bind, wp_XminM. rewrite HX. apply wp_bind, wp_CommittedVisible; [done|done|].
    intros w1 Hs1. pose proof (sframe_row w w1 Hi Hrow Hs1) as Hrow1. apply sframe_vframe in Hs1.
    destruct (sees snap X) eqn:Hsee; [by apply Hafter|].
    apply wp_bind, wp_XminM, wp_bind, wp_bind, wp_XminM, wp_bind, wp_XmaxM, wp_ret. by apply Hlite.
  - destruct (HeapTupleHeaderXminInvalid (w_tuple w)) eqn:Hinv.
    { destruct (t_hint_xmin_invalid _ _ _ Hok Hinv) as (Ho & _ & Hc). rewrite HX in Ho, Hc.
      apply wp_ret, Hunseen; [by apply hframe_vframe, hframe_refl|done|done|]. unfold sees. by rewrite Ho. }
    apply wp_bind, wp_XminM. cbn [negb]. apply wp_bind, wp_current; [done|]. rewrite HX.
    destruct (is_current X) eqn:Hcur; [by apply wp_MVCC_own|].
    apply wp_bind, wp_Visible; [done|]. intros b st sync w1 Hs1 Hvis _.
    pose proof (sframe_row w w1 Hi Hrow Hs1) as Hrow1. assert (Hi1 : Inv P w1) by apply Hs1.
    apply sframe_vframe in Hs1. apply wp_bind, (wp_hint_xmin b); [done|done|done|]. intros w2 Hh2.
    assert (Hv2 : vframe w w2) by (eapply vframe_trans; [done|by apply hframe_vframe]).
    assert (Hrow2 : row_ok (w_page w2) (w_tuple w2)) by (by eapply hframe_row).
    destruct Hvis as [-> _]. destruct (sees snap X) eqn:Hsee; [by apply Hafter|].
    apply wp_bind, wp_XminM, wp_bind, wp_bind, wp_XminM, wp_bind, wp_XmaxM, wp_ret. by apply Hlite.
Qed.
End MVCC.

(** ** Vacuum *)

(** What the result is for the fates of the transactions.  For a tuple of the
    current transaction with a multixact in [t_xmax], the multixact id itself
    is looked up among the current transaction ids. *)
Definition own_deleted (page : HeapPage) (tup : HeapTupleHeaderData) (fd : fate) : bool :=
  if flag (t_infomask tup) HEAP_XMAX_IS_MULTI
  then negb (flag (t_infomask tup) HEAP_XMAX_INVALID) && negb (locked_only tup)
       && is_current (HeapTupleHeaderGetXmax page tup)
  else match fd with Mine => true | _ => false end.

Definition vacuum_result (OldestXmin : Z) (page : HeapPage) (tup : HeapTupleHeaderData)
    (fi fd : fate) : HTSV_Result :=
  match fi with
  | Aborted => HEAPTUPLE_DEAD
  | Running => HEAPTUPLE_INSERT_IN_PROGRESS
  | Mine => if own_deleted page tup fd then HEAPTUPLE_DELETE_IN_PROGRESS else HEAPTUPLE_INSERT_IN_PROGRESS
  | Committed =>
      match fd with
      | Aborted => HEAPTUPLE_LIVE
      | Mine | Running => HEAPTUPLE_DELETE_IN_PROGRESS
      | Committed => dead_or_recent (default InvalidTransactionId (deleter page tup)) OldestXmin
      end
  end.

(** What is known once the status of a transaction was fetched. *)
Definition status_ok (x : Z) (st : TransactionIdStatus) (w : World) : Prop :=
  match st with
  | XID_COMMITTED => known_committed (w_now w) x
  | XID_ABORTED => known_aborted (w_now w) x /\ latest_csn_is x COMMITSEQNO_ABORTED w
  | XID_INPROGRESS => True
  end.

Lemma wp_GetStatus x Q w : session_ok -> Inv P w ->
  (forall st w', frame P w w' -> status_ok x st w' -> Q st w') -> wp (TransactionIdGetStatus x) Q w.
Proof.
  intros Hses Hi HQ. apply (wp_TransactionIdGetStatus P); [done|done|]. intros st w' Hf H1 H2.
  apply HQ; [done|]. destruct st; simpl; auto.
Qed.

Lemma wp_status_running x st Q w : session_ok -> Inv P w -> status_ok x st w ->
  (forall b w', frame P w w' -> (b = true -> is_current x = true \/ xact_active (w_now w') x = true) ->
     (b = false -> status_ok x st w' /\ is_current x = false
        /\ (st = XID_INPROGRESS -> settled (w_now w') x)) -> Q b w') ->
  wp (status_running st x) Q w.
Proof.
  intros Hses Hi Hst HQ. destruct st; simpl in *.
  - apply wp_ret, HQ; [by apply frame_refl|done|]. intros _. split; [done|]. split; [apply Hst|done].
  - apply wp_ret, HQ; [by apply frame_refl|done|]. intros _. split; [done|]. split; [apply Hst|done].
  - apply wp_TransactionIdIsInProgress with (P := P); [done|done|]. intros b w' Hf H1 H2.
    apply HQ; [done|done|]. intros Hb. destruct (H2 Hb). done.
Qed.

Lemma wp_LatestFetch_csn x Q w : session_ok -> latest_csn_is x COMMITSEQNO_ABORTED w -> Q true w ->
  wp (LatestFetchTransactionIdDidAbort x) Q w.
Proof.
  intros Hses Hl HQ. unfold LatestFetchTransactionIdDidAbort. apply wp_bind, wp_get_thrd.
  destruct (negb (TransactionIdIsValid startupMaxXid) || _ || _) eqn:Hs; [exact HQ|].
  destruct (TransactionIdIsNormal x) eqn:Hn.
  - destruct (Hl Hn) as [-> ->]. unfold TransactionIdEquals. rewrite Z.eqb_refl.
    destruct (x =? latestFetchXid (w_thrd w)); [|exact HQ]. destruct (bool_decide _ || _); exact HQ.
  - exfalso. apply orb_false_iff in Hs as [[H1 H2]%orb_false_iff _].
    destruct (startup_special x Hses Hn) as [?|H3]; [congruence|]. by rewrite H3 in H1.
Qed.

Lemma wp_status_committed x st Q w : session_ok -> Inv P w -> status_ok x st w -> is_current x = false ->
  (st = XID_INPROGRESS -> settled (w_now w) x) ->
  (forall w', frame P w w' -> known_committed (w_now w') x -> Q true w') ->
  (forall w', frame P w w' -> known_aborted (w_now w') x ->
     (forall Q', Q' true w' -> wp (LatestFetchTransactionIdDidAbort x) Q' w') -> Q false w') ->
  wp (status_committed st x) Q w.
Proof.
  intros Hses Hi Hst Hcur Hset HQ1 HQ2. destruct st; simpl in *.
  - apply wp_ret, HQ1; [by apply frame_refl|done].
  - destruct Hst as [Hk Hl]. apply wp_ret, HQ2; [by apply frame_refl|done|].
    intros Q' HQ'. by apply wp_LatestFetch_csn.
  - apply wp_DidCommit_settled; [done|done|done|by apply Hset|]. intros [] w' Hf Hc Ha.
    + by apply HQ1, Hc.
    + destruct (Ha eq_refl). by apply HQ2.
Qed.

Section Vacuum.
Context (Hses : session_ok) (OldestXmin : Z).

(** The bases of the tuple are those of its page. *)
Definition bases_ok (w : World) : Prop := exists self,
  w_htup w = {| t_self := self; t_xid_base := pd_xid_base (w_page w); t_multi_base := pd_multi_base (w_page w) |}.

Lemma hframe_bases w w' : hframe w w' -> bases_ok w -> bases_ok w'.
Proof. intros H [self Hs]. exists self. by rewrite (hf_htup _ _ H), (hf_page _ _ H). Qed.

Lemma wp_RawXminM Q w : bases_ok w -> Q (xmin_of (w_page w) (w_tuple w)) w -> wp RawXminM Q w.
Proof.
  intros [self Hs] HQ. apply wp_bind, wp_get_htup, wp_bind, wp_get_tuple, wp_ret. rewrite Hs. exact HQ.
Qed.
Lemma wp_RawXmaxM Q w : bases_ok w -> Q (HeapTupleHeaderGetXmax (w_page w) (w_tuple w)) w -> wp RawXmaxM Q w.
Proof.
  intros [self Hs] HQ. apply wp_bind, wp_get_htup, wp_bind, wp_get_tuple, wp_ret. rewrite Hs. exact HQ.
Qed.

Lemma not_local r : unless_local r = r.
Proof. unfold unless_local. by rewrite (s_local Hses). Qed.

(** A tuple that is only locked is live; the lock may be marked over. *)
Lemma wp_Vacuum_locked Q w : Inv P w -> bases_ok w -> locked_only (w_tuple w) = true ->
  (forall w1, hframe w w1 -> Q HEAPTUPLE_LIVE w1) -> wp HeapTupleSatisfiesVacuum_locked Q w.
Proof.
  intros Hi Hb Hlo HQ. unfold HeapTupleSatisfiesVacuum_locked. apply wp_bind, wp_get_tuple.
  assert (Hr : hframe w w) by (by apply hframe_refl).
  destruct (negb _); [|apply wp_ret; auto]. apply wp_bind, wp_RawXmaxM; [done|].
  set (xmax := HeapTupleHeaderGetXmax (w_page w) (w_tuple w)).
  assert (Hend : forall (b : bool) w1, frame P w w1 -> wp (A := HTSV_Result)
    (if b then mret HEAPTUPLE_LIVE
     else SetHintBits HEAP_XMAX_INVALID InvalidTransactionId;; mret HEAPTUPLE_LIVE) Q w1).
  { intros [] w1 Hf1; [by apply wp_ret, HQ, frame_hframe|].
    apply wp_bind, wp_SetHintBits; [apply Hf1| |].
    - right; right; right. split; [done|]. by rewrite (f_tuple _ _ _ Hf1), deleter_locked.
    - intros w2 Hh2. apply wp_ret, HQ. by eapply frame_h. }
  apply wp_bind. destruct (flag _ HEAP_XMAX_IS_MULTI).
  - apply (wp_MultiXactIdIsRunning P); [done|done|]. intros b w1 Hf1 _ _. by apply Hend.
  - apply wp_bind, wp_GetStatus; [done|done|]. intros st w1 Hf1 Hst.
    apply (wp_status_running xmax); [done|apply Hf1|done|]. intros b w2 Hf2 _ _. apply Hend.
    by eapply frame_trans.
Qed.

(** The results of the deleting part, for the tuple of [w]. *)
Definition vacuum_fin (w : World) (r : HTSV_Result) (w1 : World) : Prop :=
  hframe w w1 /\ exists fd, deleter_fate (w_now w1) (w_page w) (w_tuple w) fd
    /\ r = vacuum_result OldestXmin (w_page w) (w_tuple w) Committed fd.

Lemma vacuum_in_progress w d w1 : deleter (w_page w) (w_tuple w) = Some d -> hframe w w1 ->
  is_current d = true \/ xact_active (w_now w1) d = true -> vacuum_fin w HEAPTUPLE_DELETE_IN_PROGRESS w1.
Proof.
  intros Hd Hf Ht. split; [done|]. destruct (is_current d) eqn:Hcur.
  - exists Mine. split; [by eapply deleter_fate_is|done].
  - destruct Ht as [?|Ha]; [done|]. exists Running. split; [by eapply deleter_fate_is|done].
Qed.

Lemma vacuum_dead w d w1 : deleter (w_page w) (w_tuple w) = Some d -> hframe w w1 ->
  known_committed (w_now w1) d -> vacuum_fin w (dead_or_recent d OldestXmin) w1.
Proof.
  intros Hd Hf Hk. split; [done|]. exists Committed. split; [by eapply deleter_fate_is|]. simpl. by rewrite Hd.
Qed.

Lemma vacuum_live w w1 : hframe w w1 -> deleter_fate (w_now w1) (w_page w) (w_tuple w) Aborted ->
  vacuum_fin w HEAPTUPLE_LIVE w1.
Proof. intros Hf Hfd. split; [done|]. by exists Aborted. Qed.

Lemma wp_Vacuum_multi Q w : Inv P w ->
  flag (t_infomask (w_tuple w)) HEAP_XMAX_INVALID = false -> locked_only (w_tuple w) = false ->
  flag (t_infomask (w_tuple w)) HEAP_XMAX_IS_MULTI = true ->
  (forall r w1, vacuum_fin w r w1 -> Q r w1) -> wp (HeapTupleSatisfiesVacuum_multi OldestXmin) Q w.
Proof.
  intros Hi Hinv Hlo Hm Hfin. unfold HeapTupleSatisfiesVacuum_multi.
  apply wp_bind, wp_get_tuple, wp_bind, wp_get_page.
  set (tup := w_tuple w) in *. set (page := w_page w) in *.
  pose proof (deleter_multi page tup Hlo Hm) as Hd.
  assert (Hupd : HeapTupleHeaderGetUpdateXid page tup = HeapTupleHeaderMultiXactGetUpdateXid page tup).
  { unfold HeapTupleHeaderGetUpdateXid. rewrite Hinv, Hm. unfold locked_only, HEAP_XMAX_IS_LOCKED_ONLY in Hlo.
    destruct (flag (t_infomask2 tup) HEAP_XMAX_LOCK_ONLY); done. }
  cbn zeta. rewrite Hupd. set (d := HeapTupleHeaderMultiXactGetUpdateXid page tup) in *.
  apply wp_bind, (wp_TransactionIdIsInProgress P); [done|done|]. intros b w1 Hf1 Ht Hn.
  destruct b; [apply wp_ret, Hfin; apply (vacuum_in_progress w d); [done|by apply frame_hframe|auto]|].
  destruct (Hn eq_refl) as [Hcur Hset].
  apply wp_bind, wp_DidCommit_fate; [done|apply Hf1|done|done|..]; intros w2 Hf2 Hfd;
    pose proof (frame_trans P _ _ _ Hf1 Hf2) as Hf.
  - apply wp_ret, Hfin, vacuum_dead; [done|by apply frame_hframe|done].
  - apply wp_bind, wp_XmaxM, wp_bind, (wp_MultiXactIdIsRunning P); [done|apply Hf2|].
    intros b w3 Hf3 _ _. pose proof (frame_trans P _ _ _ Hf Hf3) as Hf'.
    assert (Hab : deleter_fate (w_now w3) page tup Aborted).
    { eapply deleter_fate_is; [done|]. eapply known_aborted_mono; [apply Hf3|done]. }
    apply wp_bind. destruct b; cbn [negb]; [by apply wp_ret, wp_ret, Hfin, vacuum_live; [apply frame_hframe|]|].
    apply (wp_hint_aborted w); [apply Hf'|apply Hf'|apply Hf'|done|]. intros w4 Hh4 Hfd4.
    apply wp_ret, Hfin, vacuum_live; [by eapply frame_h|done].
Qed.

Lemma wp_Vacuum_single Q w : Inv P w -> bases_ok w -> locked_only (w_tuple w) = false ->
  flag (t_infomask (w_tuple w)) HEAP_XMAX_IS_MULTI = false ->
  (forall r w1, vacuum_fin w r w1 -> Q r w1) -> wp (HeapTupleSatisfiesVacuum_single OldestXmin) Q w.
Proof.
  intros Hi Hb Hlo Hm Hfin. unfold HeapTupleSatisfiesVacuum_single. apply wp_bind, wp_RawXmaxM; [done|].
  set (tup := w_tuple w) in *. set (page := w_page w) in *.
  pose proof (deleter_plain page tup Hlo Hm) as Hd. set (d := HeapTupleHeaderGetXmax page tup) in *.
  apply wp_bind, wp_GetStatus; [done|done|]. intros st w1 Hf1 Hst.
  apply wp_bind, (wp_status_running d); [done|apply Hf1|done|]. intros b w2 Hf2 Ht Hn.
  pose proof (frame_trans P _ _ _ Hf1 Hf2) as Hf.
  destruct b; [apply wp_ret, Hfin; apply (vacuum_in_progress w d); [done|by apply frame_hframe|auto]|].
  destruct (Hn eq_refl) as (Hst2 & Hcur & Hset).
  apply wp_bind, wp_status_committed; [done|apply Hf|done|done|done| |].
  - intros w3 Hf3 Hk. pose proof (frame_trans P _ _ _ Hf Hf3) as Hf'.
    apply wp_bind, (wp_hint_committed w); [apply Hf'|apply Hf'|apply Hf'|by eapply deleter_fate_is|].
    intros w4 Hh4 _. apply wp_ret. rewrite not_local. apply Hfin, vacuum_dead; [done|by eapply frame_h|].
    eapply known_committed_mono; [apply Hh4|done].
  - intros w3 Hf3 Hk Hl. pose proof (frame_trans P _ _ _ Hf Hf3) as Hf'.
    apply wp_bind, wp_XmaxM. rewrite (f_page _ _ _ Hf'), (f_tuple _ _ _ Hf'). fold page tup. fold d.
    apply wp_bind, Hl. cbn [negb]. apply wp_bind, wp_ret, wp_bind, (wp_hint_aborted w);
      [apply Hf'|apply Hf'|apply Hf'|by eapply deleter_fate_is|].
    intros w4 Hh4 Hfd4. apply wp_ret, Hfin, vacuum_live; [by eapply frame_h|done].
Qed.

(** From "the inserter committed". *)
Lemma wp_Vacuum_xmax Q w : Inv P w -> bases_ok w ->
  (forall r w1, vacuum_fin w r w1 -> Q r w1) -> wp (HeapTupleSatisfiesVacuum_xmax OldestXmin) Q w.
Proof.
  intros Hi Hb Hfin. unfold HeapTupleSatisfiesVacuum_xmax. apply wp_bind, wp_get_tuple.
  pose proof (i_tuple _ _ Hi) as Hok. assert (Hr : hframe w w) by (by apply hframe_refl).
  destruct (flag (t_infomask (w_tuple w)) HEAP_XMAX_INVALID) eqn:Hinv.
  { apply wp_ret, Hfin, vacuum_live; [done|by apply deleter_fate_invalid]. }
  destruct (locked_only (w_tuple w)) eqn:Hlo.
  { apply wp_Vacuum_locked; [done|done|done|]. intros w1 Hh1.
    apply Hfin, vacuum_live; [done|by apply deleter_fate_locked]. }
  destruct (flag (t_infomask (w_tuple w)) HEAP_XMAX_IS_MULTI) eqn:Hm; [by apply wp_Vacuum_multi|].
  destruct (flag (t_infomask (w_tuple w)) HEAP_XMAX_COMMITTED) eqn:Hcom; cbn [negb];
    [|by apply wp_Vacuum_single].
  apply wp_bind, wp_RawXmaxM; [done|]. apply wp_ret. rewrite not_local.
  pose proof (deleter_plain (w_page w) (w_tuple w) Hlo Hm) as Hd.
  apply Hfin, vacuum_dead; [done|done|]. by apply (t_hint_xmax_committed _ _ _ Hok).
Qed.

(** The tuple was inserted by the current transaction. *)
Lemma wp_Vacuum_own Q w : Inv P w -> bases_ok w -> HeapTupleHeaderXminCommitted (w_tuple w) = false ->
  is_current (xmin_of (w_page w) (w_tuple w)) = true ->
  (forall r fd, deleter_fate (w_now w) (w_page w) (w_tuple w) fd ->
     r = vacuum_result OldestXmin (w_page w) (w_tuple w) Mine fd -> Q r w) ->
  wp HeapTupleSatisfiesVacuum_own Q w.
Proof.
  intros Hi Hb Hxc Hcur Hfin. unfold HeapTupleSatisfiesVacuum_own. apply wp_bind, wp_get_tuple.
  pose proof (i_tuple _ _ Hi) as Hok. unfold vacuum_result, own_deleted in Hfin.
  set (tup := w_tuple w) in *. set (page := w_page w) in *.
  destruct (flag (t_infomask tup) HEAP_XMAX_INVALID) eqn:Hinv.
  { apply wp_ret, (Hfin _ Aborted); [by apply deleter_fate_invalid|].
    by destruct (flag (t_infomask tup) HEAP_XMAX_IS_MULTI). }
  destruct (locked_only tup) eqn:Hlo.
  { apply wp_ret, (Hfin _ Aborted); [by apply deleter_fate_locked|].
    by destruct (flag (t_infomask tup) HEAP_XMAX_IS_MULTI). }
  apply wp_bind, wp_RawXmaxM; [done|]. fold page tup. apply wp_bind, wp_current; [done|]. apply wp_ret.
  destruct (flag (t_infomask tup) HEAP_XMAX_IS_MULTI) eqn:Hmu.
  - destruct (deleter_fate_total (w_now w) page tup) as [fd Hfd]. by apply (Hfin _ fd Hfd).
  - pose proof (deleter_plain page tup Hlo Hmu) as Hd. set (d := HeapTupleHeaderGetXmax page tup) in *.
    destruct (is_current d) eqn:Hdc; [by apply (Hfin _ Mine); [eapply deleter_fate_is|]|].
    destruct (t_own _ _ _ Hok _ Hxc Hcur Hd) as [?|Ha]; [congruence|].
    by apply (Hfin _ Aborted); [eapply deleter_fate_is|].
Qed.

Definition with_bases (w : World) : World := set_htup (HeapTupleCopyBaseFromPage (w_htup w) (w_page w)) w.

Lemma Inv_with_bases w : Inv P w -> Inv P (with_bases w).
Proof. intros [H1 H2 H3]. by constructor. Qed.

(** A tuple found dead because its inserter aborted is marked. *)
Definition marks_aborted (w : World) (r : HTSV_Result) (w' : World) : Prop :=
  hints_allowed -> r = HEAPTUPLE_DEAD -> HeapTupleHeaderXminFrozen (w_tuple w) = false ->
  oc (xmin_of (w_page w) (w_tuple w)) = false -> HeapTupleHeaderXminInvalid (w_tuple w') = true.

Lemma marked_invalid tup tup' : HeapTupleHeaderXminCommitted tup = false ->
  flag (t_infomask tup) HEAP_XMIN_INVALID = true /\ tup' = tup \/ tup' = or_infomask tup HEAP_XMIN_INVALID ->
  HeapTupleHeaderXminInvalid tup' = true.
Proof.
  unfold HeapTupleHeaderXminCommitted. intros Hc Hm. rewrite XminInvalid_flags.
  destruct Hm as [[Hm ->]| ->]; [by rewrite Hm, Hc|].
  change (flag (t_infomask (or_infomask tup HEAP_XMIN_INVALID)) HEAP_XMIN_INVALID)
    with (flag (Z.lor (t_infomask tup) (2 ^ 9)) (2 ^ 9)).
  change (flag (t_infomask (or_infomask tup HEAP_XMIN_INVALID)) HEAP_XMIN_COMMITTED)
    with (flag (Z.lor (t_infomask tup) (2 ^ 9)) (2 ^ 8)).
  rewrite !flag_or by done. change (2 ^ 8) with HEAP_XMIN_COMMITTED. rewrite Hc. by rewrite orb_true_r.
Qed.

(** The inserter is another transaction, of status [st]. *)
Lemma wp_Vacuum_other (isAnalyzing : bool) w0 w1 st Q (page := w_page w0) (tup := w_tuple w0) (x := xmin_of page tup) :
  frame P w0 w1 -> status_ok x st w1 -> is_current x = false -> HeapTupleHeaderXminCommitted tup = false ->
  (forall w2, hframe w0 w2 -> inserter_fate (w_now w2) page tup Committed ->
     wp (HeapTupleSatisfiesVacuum_xmax OldestXmin) Q w2) ->
  (forall r w', answers (vacuum_result OldestXmin page tup) w0 r w' -> marks_aborted w0 r w' -> Q r w') ->
  wp (running ← status_running st x;
      if running : bool then mret HEAPTUPLE_INSERT_IN_PROGRESS
      else
        committed ← status_committed st x;
        if committed : bool then
          (if negb isAnalyzing then SetHintBits HEAP_XMIN_COMMITTED x else mret tt);;
          HeapTupleSatisfiesVacuum_xmax OldestXmin
        else
          xmin' ← XminM;
          aborted ← LatestFetchTransactionIdDidAbort xmin';
          (if negb aborted then LatestTransactionStatusError else mret tt);;
          SetHintBits HEAP_XMIN_INVALID InvalidTransactionId;;
          mret (unless_local HEAPTUPLE_DEAD)) Q w1.
Proof.
  intros Hf1 Hst Hcur Hxc Hrest HQ.
  apply wp_bind, (wp_status_running x); [done|apply Hf1|done|]. intros b w2 Hf2 Ht Hn.
  pose proof (frame_trans P _ _ _ Hf1 Hf2) as Hf. destruct b.
  { destruct (Ht eq_refl) as [?|Ha]; [congruence|]. apply wp_ret, HQ; [|done].
    eapply (answers_inserter _ _ _ _ Running); [by apply frame_hframe|by apply inserter_not_frozen|done]. }
  destruct (Hn eq_refl) as (Hst2 & _ & Hset).
  apply wp_bind, wp_status_committed; [done|apply Hf|done|done|done| |].
  - intros w3 Hf3 Hk. pose proof (frame_trans P _ _ _ Hf Hf3) as Hf'. apply wp_bind.
    destruct isAnalyzing; cbn [negb].
    + apply wp_ret, Hrest; [by apply frame_hframe|]. by apply inserter_not_frozen.
    + apply wp_SetHintBits; [apply Hf'| |].
      * left. by rewrite (f_page _ _ _ Hf'), (f_tuple _ _ _ Hf').
      * intros w4 Hh4. apply Hrest; [by eapply frame_h|]. apply inserter_not_frozen; [done|].
        eapply known_committed_mono; [apply Hh4|done].
  - intros w3 Hf3 Hk Hl. pose proof (frame_trans P _ _ _ Hf Hf3) as Hf'.
    apply wp_bind, wp_XminM. rewrite (f_page _ _ _ Hf'), (f_tuple _ _ _ Hf'). fold page tup. fold x.
    apply wp_bind, Hl. cbn [negb]. apply wp_bind, wp_ret, wp_bind, wp_SetHintBits_marks; [done|apply Hf'| |].
    + by rewrite (f_page _ _ _ Hf'), (f_tuple _ _ _ Hf').
    + intros w4 Hh4 Hm. apply wp_ret. rewrite not_local. apply HQ; cycle 1.
      { intros Ha _ _ _. apply (marked_invalid tup); [done|]. specialize (Hm Ha). by rewrite (f_tuple _ _ _ Hf') in Hm. }
      eapply (answers_inserter _ _ _ _ Aborted); [by eapply frame_h|apply inserter_not_frozen; [done|]|done].
      eapply known_aborted_mono; [apply Hh4|done].
Qed.

Lemma wp_Vacuum isAnalyzing Q w : Inv P w ->
  (forall r w', answers (vacuum_result OldestXmin (w_page w) (w_tuple w)) (with_bases w) r w' ->
     marks_aborted w r w' -> Q r w') ->
  wp (HeapTupleSatisfiesVacuum OldestXmin isAnalyzing) Q w.
Proof.
  intros Hi0 HQ. unfold HeapTupleSatisfiesVacuum.
  apply wp_bind, wp_get_page, wp_bind, wp_get_htup, wp_bind, wp_modify.
  fold (with_bases w). pose proof (Inv_with_bases w Hi0) as Hi.
  assert (Hb : bases_ok (with_bases w)) by (by exists (t_self (w_htup w))).
  change (w_page w) with (w_page (with_bases w)) in HQ.
  change (w_tuple w) with (w_tuple (with_bases w)) in HQ.
  change (marks_aborted w) with (marks_aborted (with_bases w)) in HQ.
  set (w0 := with_bases w) in *. clearbody w0. clear Hi0 w.
  apply wp_bind, wp_get_tuple. pose proof (i_tuple _ _ Hi) as Hok.
  set (tup := w_tuple w0) in *. set (page := w_page w0) in *.
  assert (Hr : hframe w0 w0) by (by apply hframe_refl).
  assert (Hrest : forall w1, hframe w0 w1 -> inserter_fate (w_now w1) page tup Committed ->
    wp (HeapTupleSatisfiesVacuum_xmax OldestXmin) Q w1).
  { intros w1 Hf1 Hci. pose proof (hf_tuple _ _ Hf1) as Hh. pose proof (hf_page _ _ Hf1) as Hp.
    apply wp_Vacuum_xmax; [apply Hf1|by eapply hframe_bases|].
    intros r w2 (Hf2 & fd & Hfd & ->). apply HQ; cycle 1.
    { intros _ _ Hfz Hno. fold tup in Hfz. fold page tup in Hno. unfold inserter_fate in Hci. rewrite Hfz in Hci. destruct Hci as [Hyes _].
      rewrite Hno in Hyes. done. }
    eapply (answers_now _ _ _ _ Committed fd);
      [by eapply hframe_trans| | |].
    - eapply inserter_mono; [apply Hf2|done|done].
    - rewrite Hp in Hfd. by eapply deleter_fate_hinted.
    - simpl. by rewrite Hp, (hinted_deleter _ _ Hh). }
  destruct (HeapTupleHeaderXminCommitted tup) eqn:Hxc; cbn [negb].
  { apply Hrest; [done|]. by apply inserter_committed. }
  destruct (HeapTupleHeaderXminInvalid tup) eqn:Hxi.
  { apply wp_ret, HQ; [|by intros _ _ _ _]. eapply answers_inserter; [done|by apply inserter_invalid|done]. }
  apply wp_bind, wp_RawXminM; [done|]. fold page tup. set (x := xmin_of page tup).
  apply wp_bind, wp_GetStatus; [done|done|]. intros st w1 Hf1 Hst.
  apply wp_bind, wp_current; [done|]. destruct (is_current x) eqn:Hcur.
  { assert (Hf1h : hframe w0 w1) by (by apply frame_hframe).
    assert (E1 : w_page w1 = page) by apply Hf1. assert (E2 : w_tuple w1 = tup) by apply Hf1.
    apply wp_Vacuum_own; rewrite ?E1, ?E2; [apply Hf1|by eapply hframe_bases|done|done|].
    intros r fd Hfd ->. apply HQ; [|cbn; by destruct (own_deleted _ _ _)].
    eapply (answers_now _ _ _ _ Mine fd); [done| |done|done]. by apply inserter_not_frozen. }
  by apply (wp_Vacuum_other isAnalyzing w0).
Qed.
End Vacuum.

(** ** Update *)

Section Update.
Context (Hses : session_ok) (command : Z) (own_visible : bool).

Lemma sframe_sframe w1 w2 w3 : sframe P w1 w2 -> sframe P w2 w3 -> sframe P w1 w3.
Proof.
  intros H1 H2. constructor.
  - apply H2.
  - etrans; [apply H1|apply H2].
  - etrans; [apply H2|apply H1].
  - destruct (sf_tuple _ _ _ H2) as [[-> ->]|Hv]; [apply H1|right].
    eapply elem_of_suffix; [exact Hv|apply H1].
  - by rewrite (sf_htup _ _ _ H2), (sf_htup _ _ _ H1).
  - by rewrite (sf_write _ _ _ H2), (sf_write _ _ _ H1).
Qed.

(** The transaction holds the tuple through its [t_xmax]: it deletes, updates
    or locks it. *)
Definition holds (page : HeapPage) (tup : HeapTupleHeaderData) (x : Z) : Prop :=
  let xmax := HeapTupleHeaderGetXmax page tup in
  if flag (t_infomask tup) HEAP_XMAX_IS_MULTI
  then exists m, m ∈ GetMultiXactIdMembers xmax /\ x = mxm_xid m else x = xmax.

(** Some holder ran. *)
Definition busy (w w' : World) : Prop :=
  exists x, holds (w_page w) (w_tuple w) x /\ ran w w' x.

(** The hints exclude that somebody holds the tuple, or every holder is over. *)
Definition unheld (s : Shared) (page : HeapPage) (tup : HeapTupleHeaderData) : Prop :=
  flag (t_infomask tup) HEAP_XMAX_INVALID = true
  \/ flag (t_infomask tup) HEAP_XMAX_COMMITTED = true
  \/ flag (t_infomask tup) HEAP_LOCK_MASK = false /\ locked_only tup = true
  \/ forall x, holds page tup x -> is_current x = false /\ settled s x.

(** What the result is for the fates of the transactions; [locked] says that
    a transaction that holds the tuple without deleting it still runs. *)
Definition update_result (newer : bool) (cmin cmax : Z) (locked : bool) (fi fd : fate) : TM_Result :=
  let own := if command <=? cmax then TM_SelfModified else TM_Invisible in
  let free := if locked then TM_BeingModified else TM_Ok in
  match fi with
  | Aborted | Running => TM_Invisible
  | Mine =>
      if command <? cmin then TM_Invisible
      else if (cmin =? command) && negb own_visible then TM_SelfCreated
      else match fd with Mine => own | _ => free end
  | Committed =>
      match fd with
      | Committed => if newer then TM_Updated else TM_Deleted
      | Mine => own
      | Running => TM_BeingModified
      | Aborted => free
      end
  end.

Definition newer (w : World) : bool := negb (bool_decide (t_self (w_htup w) = t_ctid (w_tuple w))).

(** The answer for the tuple of [w], with the fates at the last instant. *)
Record update_fin (w : World) (fi fd : fate) (r : TM_Result) (w1 : World) : Prop := {
  uf_frame : hframe w w1;
  uf_deleter : deleter_fate (w_now w1) (w_page w) (w_tuple w) fd;
  uf_result : exists locked,
    r = update_result (newer w) (cmin_of (w_tuple w)) (cmax_of (w_tuple w)) locked fi fd;
  uf_ok : r = TM_Ok -> unheld (w_now w1) (w_page w) (w_tuple w);
  uf_busy : r = TM_BeingModified -> busy w w1 }.

Lemma unheld_mono s s' page tup : evolves s s' -> unheld s page tup -> unheld s' page tup.
Proof.
  intros He [H|[H|[H|H]]]; [by left|by right; left|by right; right; left|right; right; right].
  intros x Hx. destruct (H x Hx). split; [done|by eapply settled_mono].
Qed.

Lemma hinted_holds page tup tup' x : hinted tup tup' -> holds page tup' x -> holds page tup x.
Proof. intros H. unfold holds. by rewrite (hinted_multi tup tup' H), (hinted_xmax tup tup' H). Qed.

Lemma ran_earlier w w1 w' x : evolves (w_now w) (w_now w1) -> ran w1 w' x -> ran w w' x.
Proof.
  intros He [?|(s & ? & ? & ? & ?)]; [by left|right]. exists s. split_and!; [by etrans|done..].
Qed.

Lemma ran_later w w1 w' x : evolves (w_now w1) (w_now w') -> ran w w1 x -> ran w w' x.
Proof.
  intros He [?|(s & ? & ? & ? & ?)]; [by left|right]. exists s. split_and!; [done|by etrans|done..].
Qed.

Lemma running_ran w w1 x : hframe w w1 -> is_current x = true \/ xact_active (w_now w1) x = true -> ran w w1 x.
Proof.
  intros H [?|?]; [by left|right]. exists (w_now w1).
  split_and!; [apply H|reflexivity|by apply (hframe_now w w1)|done].
Qed.

Lemma hinted_newer w w1 : hframe w w1 -> newer w1 = newer w.
Proof.
  intros H. unfold newer. rewrite (hf_htup _ _ H).
  by destruct (hinted_fields _ _ (hf_tuple _ _ H)) as (_ & _ & _ & -> & _).
Qed.

(** The answer may be given for the tuple with fewer hints. *)
Lemma update_fin_earlier w w1 fd r w2 : hframe w w1 -> update_fin w1 Committed fd r w2 ->
  (unheld (w_now w2) (w_page w1) (w_tuple w1) -> unheld (w_now w2) (w_page w) (w_tuple w)) ->
  update_fin w Committed fd r w2.
Proof.
  intros H [G1 G2 [l G3] G4 G5] Hun. pose proof (hf_tuple _ _ H) as Hh. pose proof (hf_page _ _ H) as Hp.
  constructor.
  - by eapply hframe_trans.
  - rewrite Hp in G2. by eapply deleter_fate_hinted.
  - exists l. by rewrite G3, (hinted_newer _ _ H), (hinted_cmin_of _ _ Hh), (hinted_cmax_of _ _ Hh).
  - auto.
  - intros Hr. destruct (G5 Hr) as (x & Hx & Hran). exists x. rewrite Hp in Hx.
    split; [by eapply hinted_holds|]. eapply ran_earlier; [apply H|done].
Qed.

Lemma updater_holds page tup d : flag (t_infomask tup) HEAP_XMAX_IS_MULTI = true ->
  d = HeapTupleHeaderMultiXactGetUpdateXid page tup -> d = InvalidTransactionId \/ holds page tup d.
Proof.
  intros Hm ->. unfold holds. rewrite Hm. unfold HeapTupleHeaderMultiXactGetUpdateXid, MultiXactIdGetUpdateXid.
  induction (GetMultiXactIdMembers (HeapTupleHeaderGetXmax page tup)) as [|m ms IH]; simpl; [by left|].
  destruct (ISUPDATE_from_mxstatus (mxm_status m)); [right; exists m; split; [by left|done]|].
  destruct IH as [?|(m' & ? & ?)]; [by left|right]. exists m'. split; [by right|done].
Qed.

Lemma running_valid s x : session_ok -> consistent s -> is_current x = true \/ xact_active s x = true ->
  x <> InvalidTransactionId.
Proof.
  intros _ Hc H ->. destruct H as [H|H]; [done|]. by rewrite (c_special _ Hc) in H.
Qed.

(** *** The end of the test *)

Lemma update_free w fi fd (b : bool) w1 : hframe w w1 -> deleter_fate (w_now w1) (w_page w) (w_tuple w) fd ->
  (forall l, update_result (newer w) (cmin_of (w_tuple w)) (cmax_of (w_tuple w)) l fi fd
    = if l then TM_BeingModified else TM_Ok) ->
  (b = true -> busy w w1) -> (b = false -> unheld (w_now w1) (w_page w) (w_tuple w)) ->
  update_fin w fi fd (if b then TM_BeingModified else TM_Ok) w1.
Proof.
  intros H1 H2 H3 H4 H5. constructor; [done|done|by exists b|destruct b; auto; done|destruct b; auto; done].
Qed.

Lemma wp_MultiRunning w0 w fi fd Q : hframe w0 w -> w_tuple w = w_tuple w0 ->
  flag (t_infomask (w_tuple w0)) HEAP_XMAX_IS_MULTI = true ->
  (forall w1, frame P w w1 -> deleter_fate (w_now w1) (w_page w0) (w_tuple w0) fd) ->
  (forall l, update_result (newer w0) (cmin_of (w_tuple w0)) (cmax_of (w_tuple w0)) l fi fd
    = if l then TM_BeingModified else TM_Ok) ->
  (forall (b : bool) w1, frame P w w1 -> update_fin w0 fi fd (if b then TM_BeingModified else TM_Ok) w1 -> Q b w1) ->
  wp (MultiXactIdIsRunning (HeapTupleHeaderGetXmax (w_page w0) (w_tuple w0))) Q w.
Proof.
  intros Hh Ht Hm Hfd Hres HQ. apply (wp_MultiXactIdIsRunning P); [done|apply Hh|].
  intros b w1 Hf H1 H2. apply HQ; [done|].
  assert (Hh1 : hframe w0 w1) by (by eapply h_frame).
  apply update_free; [done|auto|done| |].
  - intros Hb. destruct (H1 Hb) as (m & Hin & Hran). exists (mxm_xid m).
    unfold holds. rewrite Hm. split; [by exists m|]. eapply ran_earlier; [apply Hh|done].
  - intros Hb. right; right; right. unfold holds. rewrite Hm. intros x (m & Hin & ->). auto.
Qed.

Lemma wp_self_modified w0 w fi Q : hframe w0 w -> same_but_flag w0 w \/ frame P w0 w ->
  cids_ok (w_tuple w0) ->
  deleter_fate (w_now w) (w_page w0) (w_tuple w0) Mine ->
  (forall l, update_result (newer w0) (cmin_of (w_tuple w0)) (cmax_of (w_tuple w0)) l fi Mine
    = if command <=? cmax_of (w_tuple w0) then TM_SelfModified else TM_Invisible) ->
  (forall r, update_fin w0 fi Mine r w -> Q r w) -> wp (self_modified command) Q w.
Proof.
  intros Hh Hsame Hc Hfd Hres HQ.
  assert (Ht : w_tuple w = w_tuple w0) by (destruct Hsame as [H|H]; apply H).
  apply wp_bind, wp_GetCmax; rewrite Ht; [done|]. apply wp_ret, HQ. constructor; [done|done| | |].
  - exists false. by rewrite Hres.
  - by destruct (command <=? _).
  - by destruct (command <=? _).
Qed.

Lemma wp_updated_or_deleted w0 w Q : hframe w0 w ->
  deleter_fate (w_now w) (w_page w0) (w_tuple w0) Committed ->
  (forall r, update_fin w0 Committed Committed r w -> Q r w) -> wp updated_or_deleted Q w.
Proof.
  intros Hh Hfd HQ. apply wp_bind, wp_get_tuple, wp_bind, wp_get_htup, wp_ret, HQ.
  assert (Hn : negb (bool_decide (t_self (w_htup w) = t_ctid (w_tuple w))) = newer w0)
    by exact (hinted_newer _ _ Hh).
  rewrite Hn. constructor; [done|done|by exists false|by destruct (newer w0)|by destruct (newer w0)].
Qed.

(** The hint that the inserter committed says nothing of the holders. *)
Lemma unheld_hint s w w1 : w_page w1 = w_page w -> hint_by HEAP_XMIN_COMMITTED w w1 ->
  unheld s (w_page w1) (w_tuple w1) -> unheld s (w_page w) (w_tuple w).
Proof.
  intros Hp [Ht|Ht]; rewrite Hp, Ht; [done|].
  assert (Hh : hinted (w_tuple w) (or_infomask (w_tuple w) HEAP_XMIN_COMMITTED)) by (by apply hinted_bit).
  unfold unheld. rewrite (hinted_locked_only _ _ Hh), (hinted_flag _ _ HEAP_LOCK_MASK Hh eq_refl).
  assert (Hfl : forall b, 9 <= b -> flag (t_infomask (or_infomask (w_tuple w) HEAP_XMIN_COMMITTED)) (2 ^ b)
    = flag (t_infomask (w_tuple w)) (2 ^ b)).
  { intros b Hb. simpl. change HEAP_XMIN_COMMITTED with (2 ^ 8). rewrite flag_or by lia.
    rewrite (proj2 (Z.eqb_neq _ _)) by lia. apply orb_false_r. }
  change HEAP_XMAX_INVALID with (2 ^ 11). change HEAP_XMAX_COMMITTED with (2 ^ 10). rewrite !Hfl by done.
  intros [H|[H|[H|H]]]; [by left|by right; left|by right; right; left|right; right; right].
  intros x Hx. apply H. unfold holds in *. by rewrite (hinted_multi _ _ Hh), (hinted_xmax _ _ Hh).
Qed.

(** *** The operation *)

Lemma wp_Update_own Q w : Inv P w -> cids_ok (w_tuple w) ->
  HeapTupleHeaderXminCommitted (w_tuple w) = false ->
  is_current (xmin_of (w_page w) (w_tuple w)) = true ->
  (forall fd r w1, update_fin w Mine fd r w1 -> Q r w1) ->
  wp (HeapTupleSatisfiesUpdate_own command own_visible) Q w.
Proof.
  intros Hi Hcid Hxc Hxm Hfin. unfold HeapTupleSatisfiesUpdate_own.
  pose proof (i_tuple _ _ Hi) as Hok.
  apply wp_bind, wp_GetCmin; [done|].
  assert (Hr : hframe w w) by (by apply hframe_refl).
  assert (Hearly : forall r, (forall fd, update_result (newer w) (cmin_of (w_tuple w)) (cmax_of (w_tuple w)) false Mine fd = r) ->
    r <> TM_Ok -> r <> TM_BeingModified -> Q r w).
  { intros r Hres H1 H2. destruct (deleter_fate_total (w_now w) (w_page w) (w_tuple w)) as [fd Hfd].
    apply (Hfin fd). constructor; [done|done|by exists false|done|done]. }
  unfold update_result in Hearly.
  destruct (command <? cmin_of (w_tuple w)) eqn:Hc1; [by apply wp_ret, Hearly|].
  destruct ((cmin_of (w_tuple w) =? command) && negb own_visible) eqn:Hc2; [by apply wp_ret, Hearly|].
  assert (Hres : forall fd l, update_result (newer w) (cmin_of (w_tuple w)) (cmax_of (w_tuple w)) l Mine fd
    = match fd with
      | Mine => if command <=? cmax_of (w_tuple w) then TM_SelfModified else TM_Invisible
      | _ => if l then TM_BeingModified else TM_Ok end).
  { intros fd l. unfold update_result. rewrite Hc1, Hc2. by destruct fd. }
  clear Hearly. apply wp_bind, wp_get_tuple.
  destruct (flag (t_infomask (w_tuple w)) HEAP_XMAX_INVALID) eqn:Hinv.
  { apply wp_ret, (Hfin Aborted), (update_free w Mine Aborted false);
      [done|by apply deleter_fate_invalid|exact (Hres Aborted)|done|by left]. }
  destruct (locked_only (w_tuple w)) eqn:Hlo.
  { assert (Hfd : forall s, deleter_fate s (w_page w) (w_tuple w) Aborted) by (intros; by apply deleter_fate_locked).
    apply wp_bind, wp_XmaxM. destruct (flag (t_infomask (w_tuple w)) HEAP_XMAX_IS_MULTI) eqn:Hm.
    - apply wp_bind, (wp_MultiRunning w w Mine Aborted); [done|done|done|done|exact (Hres Aborted)|].
      intros b w1 Hf Hu. by eapply wp_ret, Hfin.
    - apply wp_bind, (wp_TransactionIdIsInProgress P); [done|done|]. intros b w1 Hf Ht Hn.
      assert (Hh1 : hframe w w1) by (by apply frame_hframe). apply wp_ret, (Hfin Aborted).
      apply update_free; [done|done|exact (Hres Aborted)| |].
      + intros Hb. eexists. unfold holds. rewrite Hm. split; [done|]. apply running_ran; auto.
      + intros Hb. right; right; right. unfold holds. rewrite Hm. intros x ->. auto. }
  destruct (flag (t_infomask (w_tuple w)) HEAP_XMAX_IS_MULTI) eqn:Hm.
  - pose proof (deleter_multi (w_page w) (w_tuple w) Hlo Hm) as Hd.
    apply wp_bind, wp_UpdateXidM, wp_bind, wp_current; [done|].
    set (d := HeapTupleHeaderMultiXactGetUpdateXid (w_page w) (w_tuple w)) in *.
    destruct (is_current d) eqn:Hcur; cbn [negb].
    + apply (wp_self_modified w w Mine); [done|by right; apply frame_refl|done|by eapply deleter_fate_is|exact (Hres Mine)|].
      intros r Hu. by eapply Hfin.
    + destruct (t_own _ _ _ Hok _ Hxc Hxm Hd) as [?|Ha]; [congruence|].
      apply wp_bind, wp_XmaxM, wp_bind, (wp_MultiRunning w w Mine Aborted); [done|done|done| |exact (Hres Aborted)|].
      * intros w1 Hf. eapply deleter_fate_is; [done|]. eapply known_aborted_mono; [apply Hf|done].
      * intros b w1 Hf Hu. by eapply wp_ret, Hfin.
  - pose proof (deleter_plain (w_page w) (w_tuple w) Hlo Hm) as Hd.
    apply wp_bind, wp_XmaxM, wp_bind, wp_current; [done|].
    set (d := HeapTupleHeaderGetXmax (w_page w) (w_tuple w)) in *.
    destruct (is_current d) eqn:Hcur; cbn [negb].
    + apply (wp_self_modified w w Mine); [done|by right; apply frame_refl|done|by eapply deleter_fate_is|exact (Hres Mine)|].
      intros r Hu. by eapply Hfin.
    + destruct (t_own _ _ _ Hok _ Hxc Hxm Hd) as [?|Ha]; [congruence|].
      apply wp_bind, wp_SetHintBits; [done| |].
      * right; right; right. split; [done|]. rewrite Hd. by intros d' [= <-].
      * intros w1 Hh1. apply wp_ret, (Hfin Aborted), (update_free w Mine Aborted false); [done| |exact (Hres Aborted)|done|].
        -- eapply deleter_fate_is; [done|]. eapply known_aborted_mono; [apply Hh1|done].
        -- intros _. right; right; right. unfold holds. rewrite Hm. intros x ->. fold d. split; [done|].
           eapply settled_mono; [apply Hh1|]. apply Ha.
Qed.

(** The tuple is free; the hint says so. *)
Lemma wp_update_free w w1 Q : frame P w w1 -> deleter_fate (w_now w1) (w_page w) (w_tuple w) Aborted ->
  unheld (w_now w1) (w_page w) (w_tuple w) ->
  (forall r w2, update_fin w Committed Aborted r w2 -> Q r w2) ->
  wp (SetHintBits HEAP_XMAX_INVALID InvalidTransactionId;; mret TM_Ok) Q w1.
Proof.
  intros Hf Hfd Hun HQ. apply wp_bind, (wp_hint_aborted w); [apply Hf|apply Hf|apply Hf|done|].
  intros w2 Hh2 Hfd2. apply wp_ret, HQ, (update_free w Committed Aborted false);
    [by eapply frame_h|done|done|done|].
  intros _. eapply unheld_mono; [apply Hh2|done].
Qed.

(** A transaction that holds the tuple runs. *)
Lemma update_busy w w1 x fd : frame P w w1 -> deleter_fate (w_now w1) (w_page w) (w_tuple w) fd ->
  fd = Running \/ fd = Aborted -> holds (w_page w) (w_tuple w) x ->
  is_current x = true \/ xact_active (w_now w1) x = true ->
  update_fin w Committed fd TM_BeingModified w1.
Proof.
  intros Hf Hfd Hcase Hh Hx. assert (Hh1 : hframe w w1) by (by apply frame_hframe).
  constructor; [done|done| |done|].
  - exists true. by destruct Hcase as [-> | ->].
  - intros _. exists x. split; [done|]. by apply running_ran.
Qed.

Lemma wp_update_self w d Q : Inv P w -> cids_ok (w_tuple w) ->
  deleter (w_page w) (w_tuple w) = Some d -> is_current d = true ->
  (forall r w2, update_fin w Committed Mine r w2 -> Q r w2) -> wp (self_modified command) Q w.
Proof.
  intros Hi Hc Hd Hcur HQ. apply (wp_self_modified w w Committed);
    [by apply hframe_refl|by right; apply frame_refl|done|by eapply deleter_fate_is|done|]. intros r. apply HQ.
Qed.

Lemma wp_Update_multi Q w : Inv P w -> cids_ok (w_tuple w) ->
  flag (t_infomask (w_tuple w)) HEAP_XMAX_IS_MULTI = true ->
  (forall fd r w1, update_fin w Committed fd r w1 -> Q r w1) ->
  wp (HeapTupleSatisfiesUpdate_multi command) Q w.
Proof.
  intros Hi Hcid Hm Hfin. unfold HeapTupleSatisfiesUpdate_multi. apply wp_bind, wp_get_tuple.
  assert (Hr : hframe w w) by (by apply hframe_refl).
  set (tup := w_tuple w) in *. set (page := w_page w) in *.
  destruct (locked_only tup) eqn:Hlo.
  { assert (Hfd : forall s, deleter_fate s page tup Aborted) by (intros; by apply deleter_fate_locked).
    apply wp_bind, wp_XmaxM, wp_bind. destruct (flag (t_infomask tup) HEAP_LOCK_MASK) eqn:Hlm.
    - apply (wp_MultiRunning w w Committed Aborted); [done|done|done|done|done|].
      intros [] w1 Hf Hu; [by eapply wp_ret, Hfin|].
      apply (wp_update_free w); [done|done|by apply (uf_ok _ _ _ _ _ Hu)|apply Hfin].
    - apply wp_ret, (wp_update_free w); [by apply frame_refl|done|by right; right; left|apply Hfin]. }
  pose proof (deleter_multi page tup Hlo Hm) as Hd.
  apply wp_bind, wp_UpdateXidM, wp_bind, wp_current; [done|]. fold page tup.
  set (d := HeapTupleHeaderMultiXactGetUpdateXid page tup) in *.
  destruct (is_current d) eqn:Hcur; [by apply (wp_update_self w d); [..|apply Hfin]|].
  apply wp_bind, (wp_TransactionIdIsInProgress P); [done|done|]. intros b w1 Hf1 Ht Hn. destruct b.
  { destruct (Ht eq_refl) as [?|Ha]; [congruence|].
    apply wp_ret, (Hfin Running), (update_busy w w1 d); [done|by eapply deleter_fate_is|by left| |by right].
    destruct (updater_holds page tup d Hm eq_refl) as [E|?]; [|done]. exfalso.
    apply (running_valid (w_now w1) d); [done| |by right|done]. apply (hframe_now w w1). by apply frame_hframe. }
  destruct (Hn eq_refl) as [_ Hset].
  apply wp_bind, wp_DidCommit_fate; [done|apply Hf1|done|done|..]; intros w2 Hf2 Hfd;
    pose proof (frame_trans P _ _ _ Hf1 Hf2) as Hf.
  - apply (wp_updated_or_deleted w); [by apply frame_hframe|by eapply deleter_fate_is|]. intros r. apply Hfin.
  - apply wp_bind, wp_XmaxM. rewrite (f_page _ _ _ Hf), (f_tuple _ _ _ Hf).
    apply wp_bind, (wp_MultiRunning w w2 Committed Aborted); [by apply frame_hframe|apply Hf|done| |done|].
    + intros w3 Hf3. eapply deleter_fate_is; [done|]. eapply known_aborted_mono; [apply Hf3|done].
    + intros [] w3 Hf3 Hu; cbn [negb]; [by eapply wp_ret, Hfin|].
      apply (wp_update_free w); [by eapply frame_trans|apply Hu|by apply (uf_ok _ _ _ _ _ Hu)|apply Hfin].
Qed.

Lemma wp_Update_xmax Q w : Inv P w -> cids_ok (w_tuple w) ->
  (forall fd r w1, update_fin w Committed fd r w1 -> Q r w1) ->
  wp (HeapTupleSatisfiesUpdate_xmax command) Q w.
Proof.
  intros Hi Hcid Hfin. unfold HeapTupleSatisfiesUpdate_xmax. pose proof (i_tuple _ _ Hi) as Hok.
  apply wp_bind, wp_get_tuple. assert (Hr : hframe w w) by (by apply hframe_refl).
  set (tup := w_tuple w) in *. set (page := w_page w) in *.
  destruct (flag (t_infomask tup) HEAP_XMAX_INVALID) eqn:Hinv.
  { apply wp_ret, (Hfin Aborted), (update_free w Committed Aborted false);
      [done|by apply deleter_fate_invalid|done|done|by left]. }
  destruct (flag (t_infomask tup) HEAP_XMAX_COMMITTED) eqn:Hcom.
  { destruct (locked_only tup) eqn:Hlo.
    - apply wp_ret, (Hfin Aborted), (update_free w Committed Aborted false);
        [done|by apply deleter_fate_locked|done|done|by right; left].
    - apply (wp_updated_or_deleted w w); [done|by apply deleter_fate_committed|]. intros r. apply Hfin. }
  destruct (flag (t_infomask tup) HEAP_XMAX_IS_MULTI) eqn:Hm; [by apply wp_Update_multi|].
  pose proof (deleter_plain page tup) as Hd. apply wp_bind, wp_XmaxM, wp_bind, wp_current; [done|].
  fold page tup. set (d := HeapTupleHeaderGetXmax page tup) in *.
  assert (Hhold : holds page tup d) by (unfold holds; by rewrite Hm).
  destruct (is_current d) eqn:Hcur.
  { destruct (locked_only tup) eqn:Hlo; [|by apply (wp_update_self w d); [done|done|apply Hd| |apply Hfin]].
    apply wp_ret, (Hfin Aborted), (update_busy w w d); [by apply frame_refl| |by right|done|by left].
    by apply deleter_fate_locked. }
  apply wp_bind, (wp_TransactionIdIsInProgress P); [done|done|]. intros b w1 Hf1 Ht Hn. destruct b.
  { destruct (Ht eq_refl) as [?|Ha]; [congruence|].
    apply wp_ret, (Hfin (if locked_only tup then Aborted else Running)), (update_busy w w1 d);
      [done| |destruct (locked_only tup); auto|done|by right]. fold page tup.
    destruct (locked_only tup) eqn:Hlo; [by apply deleter_fate_locked|by eapply deleter_fate_is; [apply Hd|]]. }
  destruct (Hn eq_refl) as [_ Hset].
  assert (E : w_page w1 = page /\ w_tuple w1 = tup) by (split; apply Hf1). destruct E as [E1 E2].
  apply wp_settle_xmax; rewrite ?E1, ?E2; [done|apply Hf1|done|done|done|..]; intros w2 Hf2 Hfd.
  - apply (Hfin Aborted), (update_free w Committed Aborted false); [by eapply frame_h|done|done|done|].
    intros _. right; right; right. unfold holds. fold page tup. rewrite Hm. intros x ->. split; [done|].
    eapply settled_mono; [apply Hf2|done].
  - apply (wp_updated_or_deleted w); [by eapply frame_h|done|]. intros r. apply Hfin.
Qed.

(** The tuple found after a wait is inserted by the same transaction. *)
Context (X : Z) (HV : forall s page tup, P s -> sh_view s = Some (page, tup) ->
  xmin_of page tup = X /\ cids_ok tup).

(** The answer is right for the tuple at hand, or the one found after waiting
    for its inserter. *)
Definition update_ok (w : World) (r : TM_Result) (w' : World) : Prop :=
  exists w0, sframe P w w0 /\ exists fi fd,
    inserter_fate (w_now w') (w_page w0) (w_tuple w0) fi /\ update_fin w0 fi fd r w'.

Lemma wp_Update_rounds rounds Q w : Inv P w -> xmin_of (w_page w) (w_tuple w) = X -> cids_ok (w_tuple w) ->
  (2 <= rounds)%nat \/ (1 <= rounds)%nat /\ xact_active (w_now w) X = false /\ is_current X = false ->
  (forall r w', update_ok w r w' -> Q r w') ->
  wp (HeapTupleSatisfiesUpdate_rounds rounds command own_visible) Q w.
Proof.
  revert w. induction rounds as [|rounds IH]; intros w Hi HX Hcid Hen HQ; [lia|].
  cbn [HeapTupleSatisfiesUpdate_rounds]. apply wp_bind, wp_get_tuple.
  pose proof (i_tuple _ _ Hi) as Hok. set (tup := w_tuple w) in *. set (page := w_page w) in *.
  assert (Hr : hframe w w) by (by apply hframe_refl).
  assert (Hfin : forall fi fd r w1, inserter_fate (w_now w1) page tup fi -> update_fin w fi fd r w1 -> Q r w1).
  { intros fi fd r w1 H1 H2. apply HQ. exists w. split; [by apply frame_sframe, frame_refl|]. by exists fi, fd. }
  assert (Hgone : forall fi w1, hframe w w1 -> inserter_fate (w_now w1) page tup fi ->
    fi = Aborted \/ fi = Running -> Q TM_Invisible w1).
  { intros fi w1 Hh Hfi Hc. destruct (deleter_fate_total (w_now w1) page tup) as [fd Hfd].
    apply (Hfin fi fd); [done|]. constructor; [done|done| |done|done]. exists false. by destruct Hc as [-> | ->]. }
  assert (Hrest : forall w1, hframe w w1 -> inserter_fate (w_now w1) page tup Committed ->
    hint_by HEAP_XMIN_COMMITTED w w1 -> wp (HeapTupleSatisfiesUpdate_xmax command) Q w1).
  { intros w1 Hf1 Hci Hby. pose proof (hf_tuple _ _ Hf1) as Hh.
    apply wp_Update_xmax; [apply Hf1|by eapply hinted_cids|]. intros fd r w2 Hu.
    apply (Hfin Committed fd).
    - eapply inserter_mono; [apply (uf_frame _ _ _ _ _ Hu)|done|done].
    - eapply update_fin_earlier; [done|done|]. apply unheld_hint; [by apply Hf1|done]. }
  destruct (HeapTupleHeaderXminCommitted tup) eqn:Hxc; cbn [negb].
  { apply Hrest; [done|by apply inserter_committed|by left]. }
  destruct (HeapTupleHeaderXminInvalid tup) eqn:Hxi.
  { apply wp_ret, (Hgone Aborted); [done|by apply inserter_invalid|by left]. }
  apply wp_bind, wp_XminM, wp_bind, wp_current; [done|]. fold page tup.
  destruct (is_current (xmin_of page tup)) eqn:Hcur.
  { apply wp_Update_own; [done|done|done|done|]. intros fd r w1 Hu. apply (Hfin Mine fd); [|done].
    by apply inserter_not_frozen. }
  apply wp_bind, wp_InProgress_sync; [done|done|apply Hok|]. intros b sync w1 Hf1 Ht Hn.
  pose proof (frame_hframe _ _ Hf1) as Hh1.
  assert (E : w_page w1 = page /\ w_tuple w1 = tup) by (split; apply Hf1). destruct E as [E1 E2].
  apply wp_settle_xmin_by; rewrite ?E1, ?E2; [done|apply Hf1|done|by apply running_known; [apply Hf1|..]|..].
  - intros w2 Hf2 Ha. pose proof (frame_trans P _ _ _ Hf1 Hf2) as Hf.
    destruct (flag sync SNAPSHOT_UPDATE_NEED_SYNC).
    + apply wp_bind, (wp_SyncWaitXidEnd P); [apply Hf|]. intros w3 Hs3 _ Hina _.
      pose proof (sframe_trans P _ _ _ Hf Hs3) as Hs.
      rewrite HX in *. assert (HX3 : xmin_of (w_page w3) (w_tuple w3) = X /\ cids_ok (w_tuple w3)).
      { destruct (sf_tuple _ _ _ Hs) as [[-> ->]|Hv]; [done|].
        destruct (view_instant w _ Hi Hv) as (s & Hview & HPs & _). by apply (HV s). }
      apply IH; [apply Hs|apply HX3|apply HX3| |].
      * right. split; [|done]. destruct Hen as [?|(_ & Hina' & _)]; [lia|]. exfalso.
        apply (e_active _ _ (f_evolves _ _ _ Hf)) in Hina'. congruence.
      * intros r w' (w0 & Hs0 & Hans). apply HQ. exists w0. split; [|done]. by eapply sframe_sframe.
    + apply wp_ret, (Hgone Running); [by apply frame_hframe| |by right]. by apply inserter_not_frozen.
  - intros w2 Hf2 Hk. apply (Hgone Aborted); [by eapply frame_h| |by left]. by apply inserter_not_frozen.
  - intros w2 Hf2 Hk Hby. apply Hrest; [by eapply frame_h|by apply inserter_not_frozen|].
    unfold hint_by in *. by rewrite E2 in Hby.
Qed.

Lemma wp_Update Q w : Inv P w -> xmin_of (w_page w) (w_tuple w) = X -> cids_ok (w_tuple w) ->
  (forall r w', update_ok w r w' -> Q r w') ->
  wp (HeapTupleSatisfiesUpdate command own_visible) Q w.
Proof. intros. apply wp_Update_rounds; [done|done|done|by left|done]. Qed.
End Update.
End Facts.

(** ** Properties *)

Section Properties.
Context {bs : BlockSize} {ses : Session} {his : History} {buf : Buffer}.

(** C8 Hint bits are true and durable.  Called with a hint that fits the tuple
    ("the inserter committed" of a transaction that did, and so on),
    [SetHintBits] either leaves the tuple alone or adds exactly that bit and
    marks the buffer dirty; all other bits and fields stay, and the tuple
    remains in order.  A bit that depends on a commit record is added to a page
    of a WAL-logged relation only when that record has been flushed, or the
    page carries an LSN at least that of the record, so the hint cannot reach
    the disk before the record does. *)
Theorem SetHintBits_correct (P : Shared -> Prop) (infomask xid : Z) (w : World) (Hi : Inv P w)
    (Hfits : hint_fits (w_now w) (w_page w) (w_tuple w) infomask) :
  wp (SetHintBits infomask xid) (fun _ w' => hframe P w w'
    /\ (w_tuple w' = w_tuple w /\ w_dirty w' = w_dirty w
        \/ w_tuple w' = or_infomask (w_tuple w) infomask /\ w_dirty w' = true /\ durable xid w w')) w.
Proof. by apply (wp_SetHintBits_full P); [..|auto]. Qed.

(** [HeapTupleSatisfiesSelf] and [HeapTupleSatisfiesDirty] are right at one
    instant of the call: for the fates the inserter and the deleter have at
    that instant (current, running, committed, aborted), the first answers
    "inserted by a committed or the current transaction, and not deleted by
    one", the second counts running inserters as well and returns in the
    snapshot the running inserter, or the running transaction that deletes or
    locks the tuple.  Whatever the hint bits of the tuple, the caches and the
    changes of the logs during the call, the only trace they leave on the tuple
    are true hint bits. *)
Theorem HeapTupleSatisfiesSelf_Dirty_correct (P : Shared -> Prop) (w : World)
    (Hses : session_ok) (Hi : Inv P w) :
  wp HeapTupleSatisfiesSelf (answers P self_visible w) w
  /\ wp HeapTupleSatisfiesDirty (dirty_answers P w) w.
Proof. split; [by apply (wp_Self P)|by apply (wp_Dirty P)]. Qed.

(** [HeapTupleSatisfiesNow] answers for one instant of the call whether the
    tuple is visible to the current command: inserted by a committed
    transaction or by an earlier command of the current one, and not deleted by
    a committed transaction or by an earlier command of the current one.  The
    command ids are those of the combo-id table.  The one exception is a tuple
    of the current transaction that it deleted itself through a multixact: it
    is invisible whatever the command of the deletion. *)
Theorem HeapTupleSatisfiesNow_correct (P : Shared -> Prop) (track : bool) (w : World)
    (Hses : session_ok) (Hi : Inv P w) (Hcids : cids_ok (w_tuple w)) :
  wp (HeapTupleSatisfiesNow track) (now_answers P w) w.
Proof. by apply (wp_Now P). Qed.


(** What an MVCC reader knows of every instant: the snapshot it holds, and
    the versions of the row. *)
Definition reader_sees (snap : SnapshotData) (X : Z) (D : Z -> option Z) (F : option Z) (s : Shared) :
  Prop := snap_ok snap s /\ view_ok X D F s.

Lemma view_ok_write X D F s x : view_ok X D F s -> oc x = false ->
  view_ok X D F (write_csn_entry x COMMITSEQNO_ABORTED s).
Proof.
  intros Hv Hx page tup Hview. destruct (Hv page tup Hview) as [H1 H2]. split; [done|].
  intros d Hd (Ho & Hset & Hc). apply H2; [done|]. split_and!; [done| |done].
  destruct Hset as [?|[?|Hr]]; [by left|by right; left|right; right].
  unfold recorded in *. rewrite write_entry in Hr. destruct (Z.eqb_spec x d) as [->|]; [congruence|done].
Qed.

(** C1 Snapshot isolation of rows: under an MVCC snapshot
    [HeapTupleSatisfiesMVCC] answers what the snapshot sees ([mvcc_visible]): a
    version is visible exactly if its inserter committed before the snapshot,
    or is the current transaction in an earlier command, and its deleter did
    not or is not.  The answer does not depend on how the transactions proceed
    during the call, on hint bits, caches, or waits for transactions in the
    middle of their commit, after which the version is read again; it is about
    the version on the page at the end.  The loop back to [recheck_xmax] ends.
    The exception: a version deleted through a multixact is reported visible
    while its updater is found in the array of running transactions. *)
Theorem HeapTupleSatisfiesMVCC_correct (snap : SnapshotData) (X : Z) (D : Z -> option Z) (F : option Z)
    (track : bool) (w : World)
    (Hses : session_ok) (Hsat : satisfies snap = SNAPSHOT_MVCC)
    (Hshow : XactReadOnly && enable_show_any_tuples = false)
    (Hi : Inv (reader_sees snap X D F) w)
    (Hrow : row_ok X D F (w_page w) (w_tuple w)) (Hfrozen : frozen_ok snap X (w_tuple w)) :
  wp (HeapTupleSatisfiesMVCC track snap) (mv_ok (reader_sees snap X D F) snap X D F w) w.
Proof.
  apply (wp_MVCC (reader_sees snap X D F)) with (X := X) (D := D) (F := F); try done.
  - by intros s [? _].
  - intros s x [H1 H2] Ho. split; [by apply snap_ok_write|by apply view_ok_write].
  - by intros s [_ ?].
Qed.

(** A version is removable: its inserter aborted, or its deleter committed
    before every transaction the horizon stands for. *)
Definition removable (s : Shared) (OldestXmin : Z) (page : HeapPage) (tup : HeapTupleHeaderData) : Prop :=
  (HeapTupleHeaderXminFrozen tup = false /\ known_aborted s (xmin_of page tup))
  \/ exists d, deleter page tup = Some d /\ known_committed s d /\ TransactionIdPrecedes d OldestXmin = true.

Lemma sees_finished snap d : special_ok -> COMMITSEQNO_FROZEN < snapshotcsn snap ->
  (TransactionIdIsNormal d = true -> ocsn d < snapshotcsn snap) -> oc d = true -> sees snap d = true.
Proof.
  intros Hspec Hcsn Hd Ho. unfold sees. rewrite Ho. apply Z.ltb_lt. destruct (TransactionIdIsNormal d) eqn:Hn; [by apply Hd|].
  pose proof (Hspec d Hn) as Hsp. destruct (_ || _); [destruct Hsp as [_ ->]; done|congruence].
Qed.

Lemma sees_low snap s d : session_ok -> snap_ok snap s -> oc d = true ->
  TransactionIdPrecedes d (snap_xmin snap) = true -> sees snap d = true.
Proof.
  intros Hses Hs Ho Hlow. apply sees_finished; [apply Hses|apply (sn_csn _ _ Hs)| |done]. intros Hn. by apply (sn_xmin _ _ Hs d Hn Hlow).
Qed.

Lemma removable_invisible snap s OldestXmin page tup : session_ok -> removable s OldestXmin page tup ->
  snap_ok snap s -> OldestXmin <= snap_xmin snap -> mvcc_visible snap page tup = false.
Proof.
  intros Hses Hrem Hs Hle. unfold mvcc_visible, xact_visible.
  destruct Hrem as [[_ (Ho & _ & Hc)]|(d & -> & (Ho & _ & Hc) & Hlt)].
  - rewrite Hc. unfold sees. by rewrite Ho.
  - rewrite Hc, (sees_low snap s d) by (try done; unfold TransactionIdPrecedes in *; lia).
    apply andb_false_r.
Qed.

(** Another backend with a snapshot: its session has its own current transaction,
    which has not ended, command id and combo command ids. *)
Record reads (reader : Session) (snap : SnapshotData) (s : Shared) : Prop := {
  rd_snap : snap_ok (ses := reader) snap s;
  rd_current : forall x, is_current (ses := reader) x = true -> ~ settled s x;
  rd_multi : @GetMultiXactIdMembers reader = @GetMultiXactIdMembers ses }.

Lemma removable_unread (reader : Session) snap s OldestXmin page tup : session_ok (ses := ses) -> removable s OldestXmin page tup ->
  reads reader snap s -> OldestXmin <= snap_xmin snap -> mvcc_visible (ses := reader) snap page tup = false.
Proof.
  intros Hses Hrem [Hs Hcur Hmulti] Hle. assert (Hno : forall x, settled s x -> is_current (ses := reader) x = false).
  { intros x Hx. destruct (is_current (ses := reader) x) eqn:E; [|done]. by destruct (Hcur x E). }
  assert (Hdel : deleter (ses := reader) page tup = deleter (ses := ses) page tup).
  { unfold deleter, HeapTupleHeaderMultiXactGetUpdateXid, MultiXactIdGetUpdateXid. by rewrite Hmulti. }
  unfold mvcc_visible, xact_visible. rewrite Hdel. destruct Hrem as [[_ (Ho & Hset & _)]|(d & -> & (Ho & Hset & _) & Hlt)].
  - rewrite (Hno _ Hset). unfold sees. by rewrite Ho.
  - rewrite (Hno _ Hset), (sees_finished snap d); [apply andb_false_r|apply Hses|apply (sn_csn (ses := reader) _ _ Hs)| |done].
    intros Hn. apply (sn_xmin (ses := reader) _ _ Hs d Hn); [unfold TransactionIdPrecedes in *; lia|done].
Qed.

(** What the comments promise for the fates of inserter and deleter. *)
Definition vacuum_status (OldestXmin : Z) (page : HeapPage) (tup : HeapTupleHeaderData) (fi fd : fate) : HTSV_Result :=
  match fi, fd with
  | Aborted, _ => HEAPTUPLE_DEAD
  | Running, _ => HEAPTUPLE_INSERT_IN_PROGRESS
  | Mine, Mine => HEAPTUPLE_DELETE_IN_PROGRESS
  | Mine, _ => HEAPTUPLE_INSERT_IN_PROGRESS
  | Committed, Aborted => HEAPTUPLE_LIVE
  | Committed, Committed => dead_or_recent (default InvalidTransactionId (deleter page tup)) OldestXmin
  | Committed, _ => HEAPTUPLE_DELETE_IN_PROGRESS
  end.

(** A version of the current transaction itself with a multixact in [t_xmax]. *)
Definition own_multi (page : HeapPage) (tup : HeapTupleHeaderData) : bool :=
  is_current (xmin_of page tup) && flag (t_infomask tup) HEAP_XMAX_IS_MULTI.

Lemma vacuum_result_status (P : Shared -> Prop) OldestXmin w r w' : own_multi (w_page w) (w_tuple w) = false ->
  answers P (vacuum_result OldestXmin (w_page w) (w_tuple w)) w r w' -> answers P (vacuum_status OldestXmin (w_page w) (w_tuple w)) w r w'.
Proof.
  intros Hown [Hf (s & H1 & H2 & Hc & fi & fd & Hfi & Hfd & ->)]. split; [done|]. exists s. split_and!; [done..|]. exists fi, fd. split_and!; [done..|].
  destruct fi; [|by destruct fd..]. unfold inserter_fate in Hfi. destruct (HeapTupleHeaderXminFrozen _); [done|]. cbn in Hfi.
  unfold own_multi in Hown. rewrite Hfi in Hown. cbn in Hown. cbn. unfold own_deleted. rewrite Hown. by destruct fd.
Qed.

(** C2 Vacuum removes only what nobody sees.  [HeapTupleSatisfiesVacuum]
    classifies the tuple by the fates of its transactions at one instant of the
    call ([vacuum_status]; a version of the current transaction itself with a
    multixact in its [t_xmax] is left out).  When it answers HEAPTUPLE_DEAD, for
    whatever tuple, the inserter aborted, or the deleter committed and precedes
    [OldestXmin]; then the version is invisible to every snapshot now in use whose
    xmin is not below that horizon, by the very rule of
    [HeapTupleSatisfiesMVCC_correct]: to snapshots of this backend, and to those of
    every other backend ([reads]), whichever its current transaction and command.
    [HeapTupleIsSurelyDead], which looks only at the hint bits, says "dead" only in
    these cases. *)
Theorem HeapTupleSatisfiesVacuum_correct (P : Shared -> Prop) (OldestXmin : Z) (isAnalyzing : bool)
    (w : World) (page := w_page w) (tup := w_tuple w) (Hses : session_ok) (Hi : Inv P w) :
  wp (HeapTupleSatisfiesVacuum OldestXmin isAnalyzing) (fun r w' =>
    (own_multi page tup = false -> answers P (vacuum_status OldestXmin page tup) (with_bases w) r w')
    /\ (r = HEAPTUPLE_DEAD -> removable (w_now w') OldestXmin page tup
        /\ (forall snap, snap_ok snap (w_now w') -> OldestXmin <= snap_xmin snap ->
              mvcc_visible snap page tup = false)
        /\ (forall reader snap, reads reader snap (w_now w') -> OldestXmin <= snap_xmin snap ->
              mvcc_visible (ses := reader) snap page tup = false))) w
  /\ (HeapTupleIsSurelyDead (HeapTupleCopyBaseFromPage (w_htup w) page) tup OldestXmin = true ->
      removable (w_now w) OldestXmin page tup).
Proof.
  split.
  - apply (wp_Vacuum P); [done|done|]. intros r w' Ha _. split; [intros Hown; by apply vacuum_result_status|]. intros Hr.
    assert (Hrem : removable (w_now w') OldestXmin page tup);
      [|split_and!; [done|intros; by eapply removable_invisible|intros; by eapply removable_unread]].
    destruct Ha as (_ & s & He1 & He2 & Hc & fi & fd & Hfi & Hfd & Hres). rewrite Hr in Hres.
    destruct fi; simpl in Hres; [by destruct (own_deleted _ _ _)|done| |].
    + destruct fd; try done. right. unfold deleter_fate in Hfd.
      change (w_page (with_bases w)) with page in *. change (w_tuple (with_bases w)) with tup in *.
      fold page tup in Hres. destruct (deleter page tup) as [d|]; [|done]. exists d. split; [done|].
      split; [by eapply known_committed_mono|]. 
      assert (Hdr : HEAPTUPLE_DEAD = dead_or_recent d OldestXmin) by exact Hres.
      unfold dead_or_recent in Hdr. by destruct (TransactionIdPrecedes d OldestXmin).
    + left. unfold inserter_fate in Hfi. change (w_tuple (with_bases w)) with tup in *.
      destruct (HeapTupleHeaderXminFrozen tup); [done|]. split; [done|]. by eapply known_aborted_mono.
  - pose proof (i_tuple _ _ Hi) as Hok. unfold HeapTupleIsSurelyDead.
    destruct (HeapTupleHeaderXminCommitted tup) eqn:Hc; cbn [negb].
    + destruct (flag (t_infomask tup) HEAP_XMAX_INVALID); [done|].
      destruct (locked_only tup) eqn:Hlo; [done|].
      destruct (flag (t_infomask tup) HEAP_XMAX_IS_MULTI) eqn:Hm; [done|].
      destruct (flag (t_infomask tup) HEAP_XMAX_COMMITTED) eqn:Hx; [|done]. cbn [negb]. intros Hlt.
      right. exists (HeapTupleHeaderGetXmax page tup). pose proof (deleter_plain page tup Hlo Hm) as Hd.
      split; [done|]. split; [by apply (t_hint_xmax_committed _ _ _ Hok)|exact Hlt].
    + intros Hinv. left. split; [|by apply Hok]. rewrite XminFrozen_flags.
      unfold HeapTupleHeaderXminCommitted in Hc. by rewrite Hc, andb_false_r.
Qed.
End Properties.

(** ** Runs

    Instances of the theorems in the run of [Scenario]. *)
Module Runs.
Import Scenario.
#[local] Existing Instances session outcome block_256.

Lemma instants_in_order (P : Shared -> Prop) now later :
  Forall (fun s => s = before \/ s = after) (now :: later) -> StronglySorted evolves (now :: later) ->
  (forall s, s = before \/ s = after -> P s) -> history_ok P now later.
Proof.
  intros Hin Hs HP. constructor; [|done]. eapply list.Forall_impl; [exact Hin|]. intros s Hc.
  split_and!; [|by apply HP|by destruct Hc as [-> | ->]].
  destruct Hc as [-> | ->]; [apply before_consistent|apply after_consistent].
Qed.

Lemma run_in_order_for (P : Shared -> Prop) : (forall s, s = before \/ s = after -> P s) -> Inv P world.
Proof.
  intros HP. pose proof run_in_order as [Hh Hc Ht]. constructor; [|done|done].
  apply instants_in_order; [|apply Hh|done]. repeat apply Forall_cons_2; auto using Forall_nil_2.
Qed.

Lemma row_in_order : row_ok 10 Some None page tuple.
Proof.
  constructor; try done. by intros d [= <-].
Qed.

(** The same transactions, both over; the tuple was inserted at initdb and
    deleted by 10. *)
Definition deleted : HeapTupleHeaderData := MkHeader 2 10 0 (0, 1) 0 0.
Definition ended (tup : HeapTupleHeaderData) : World :=
  MkWorld after [] empty_thrd page tup (MkTuple (0, 1) 0 0) false 0 0 false.

Lemma known_after x : x <= 11 -> known after x.
Proof. intros Hx. left. unfold TransactionIdPrecedes. simpl. apply Z.ltb_ge. lia. Qed.

Lemma ended_in_order (P : Shared -> Prop) tup : (forall s, s = before \/ s = after -> P s) ->
  tuple_ok after page tup -> Inv P (ended tup).
Proof.
  intros HP Ht. constructor; [|by constructor|done]. apply instants_in_order; [| |done].
  - apply Forall_cons_2; [by right|apply Forall_nil_2].
  - apply SSorted_cons; [apply SSorted_nil|apply Forall_nil_2].
Qed.

Lemma deleted_in_order : tuple_ok after page deleted.
Proof. constructor; unfold xmin_of; simpl; try done; intros; by apply known_after. Qed.

Lemma committed_after : known_committed after 10.
Proof. split_and!; [done|by right; left|done]. Qed.

(** Another backend, in the transaction 14, with a snapshot taken after. *)
Definition other : Session := {|
  SS_STANDBY_MODE := false; RecoveryInProgress := false; InRecovery := false;
  IsRoachStandbyCluster := false; IsBootstrapProcessingMode := false;
  IS_DISASTER_RECOVER_MODE := false; GTM_LITE_MODE := false; IsInitdb := false;
  StreamThreadAmI := false; useLocalSnapshot := false; bInAbortTransaction := false;
  xc_maintenance_mode := false; XactReadOnly := false; enable_show_any_tuples := false;
  enable_cluster_resize := false; XactIsoLevel := 1; TransactionXmin := 12;
  RecentXmin := 12; recentGlobalXmin := 9; recentLocalXmin := 9; globalRecycleXid := 3;
  ReplicationSlotCatalogXmin := 3; startupMaxXid := 10; currentCommandId := 0;
  CurrentTransactionState := [MkXactState false 14 []]; comboCids := [];
  GetMultiXactIdMembers := @GetMultiXactIdMembers session |}.
Definition late : SnapshotData := {|
  satisfies := SNAPSHOT_MVCC; snap_xmin := 12; snap_xmax := 15; snapshotcsn := 21;
  curcid := 0; gtm_local := false; prepared_array := []; snap_xip := []; snap_subxip := [] |}.

Lemma other_current x : is_current (ses := other) x = (x =? 14).
Proof.
  unfold is_current, state_has, TransactionIdIsNormal, FirstNormalTransactionId. simpl. split_eqb; [done|]. by rewrite andb_false_r.
Qed.

Lemma other_reads : reads other late after.
Proof.
  constructor; [|intros x|done].
  - constructor; [done|intros x Hn%normal Hx%Z.ltb_lt|intros x Hn%normal]; cbn [snap_xmin snapshotcsn late] in *; rewrite ?other_current, oc_normal by done.
    + split_and!; [rewrite active_after; lia|lia|]. intros ->%Z.eqb_eq. done.
    + destruct (Z.eqb_spec x 10) as [->|]; done.
  - rewrite other_current. intros ->%Z.eqb_eq. intros [H|[H|[H|[H|H]]]]; try done; rewrite ?clog_after in H by done; done.
Qed.

(** A tuple every snapshot sees, updated by 10 through the multixact 7. *)
Definition shared_tuple : HeapTupleHeaderData := MkHeader 2 7 0 (0, 1) 0 (Z.lor HEAP_XMIN_FROZEN HEAP_XMAX_IS_MULTI).
Definition commit_run : World :=
  MkWorld before [before; after; after] empty_thrd page shared_tuple (MkTuple (0, 1) 0 0) false 0 0 false.

Lemma commit_run_in_order (P : Shared -> Prop) : (forall s, s = before \/ s = after -> P s) -> Inv P commit_run.
Proof.
  intros HP. constructor; [|by constructor|].
  - apply instants_in_order; cbn [w_now w_later commit_run]; [..|done].
    + repeat apply Forall_cons_2; auto using Forall_nil_2.
    + repeat apply SSorted_cons; try apply SSorted_nil; repeat apply Forall_cons_2;
        try apply Forall_nil_2; first [apply run_evolves|reflexivity].
  - constructor; unfold xmin_of; try done. by left.
Qed.
End Runs.

#[local] Existing Instances Scenario.session Scenario.outcome block_256.
#[local] Instance permanent : Buffer := true.

(** C10 Two reads under one snapshot disagree.  There is a run, in order in
    every respect, in which [HeapTupleSatisfiesMVCC], called twice for the same
    tuple with the same snapshot, answers first "visible" and then "not
    visible": the tuple was updated through a multixact by a transaction that
    the snapshot sees and that is in the middle of its commit at the first
    call.  For a deleter that is not in a multixact the code waits for the end
    of the commit in this situation. *)
Theorem HeapTupleSatisfiesMVCC_multixact_unrepeatable :
  let snap := Scenario.snapshot in
  let w := Runs.commit_run in
  Inv (reader_sees snap 2 (fun _ => Some 10) (Some 10)) w
  /\ row_ok 2 (fun _ => Some 10) (Some 10) (w_page w) (w_tuple w) /\ frozen_ok snap 2 (w_tuple w)
  /\ deleter (w_page w) (w_tuple w) = Some 10 /\ sees snap 10 = true
  /\ exists w', (first ← HeapTupleSatisfiesMVCC false snap;
                 second ← HeapTupleSatisfiesMVCC false snap;
                 mret (first, second)) w = Ret (true, false) w'.
Proof.
  cbn zeta. split_and!; [|constructor; try done; by intros d [= <-]|done|done|done|].
  - apply Runs.commit_run_in_order. intros s Hs. split; [by apply Scenario.snapshot_in_order|].
    intros page tup. by destruct Hs as [-> | ->].
  - eexists. vm_compute. reflexivity.
Qed.

Lemma SetHintBits_correct_witness :
  (exists w', SetHintBits HEAP_XMIN_COMMITTED 10 (Runs.ended Scenario.tuple) = Ret tt w'
     /\ t_infomask (w_tuple w') = HEAP_XMIN_COMMITTED)
  /\ wp (SetHintBits HEAP_XMIN_COMMITTED 10) (fun _ w' =>
    hframe (fun _ => True) (Runs.ended Scenario.tuple) w'
    /\ (w_tuple w' = Scenario.tuple /\ w_dirty w' = false
        \/ w_tuple w' = or_infomask Scenario.tuple HEAP_XMIN_COMMITTED /\ w_dirty w' = true
           /\ durable 10 (Runs.ended Scenario.tuple) w')) (Runs.ended Scenario.tuple).
Proof.
  split; [eexists; split; vm_compute; reflexivity|].
  apply (SetHintBits_correct (fun _ => True)).
  - apply Runs.ended_in_order; [done|]. eapply tuple_ok_mono; [apply Scenario.run_evolves|].
    apply Scenario.tuple_in_order.
  - left. split; [done|]. apply Runs.committed_after.
Defined.

Lemma HeapTupleSatisfiesSelf_Dirty_correct_witness :
  (exists w', HeapTupleSatisfiesDirty Scenario.world = Ret true w' /\ w_out_xmin w' = 10)
  /\ wp HeapTupleSatisfiesSelf (answers (snap_ok Scenario.snapshot) self_visible Scenario.world) Scenario.world
  /\ wp HeapTupleSatisfiesDirty (dirty_answers (snap_ok Scenario.snapshot) Scenario.world) Scenario.world.
Proof.
  split; [eexists; split; vm_compute; reflexivity|].
  apply HeapTupleSatisfiesSelf_Dirty_correct; [apply Scenario.session_in_order|apply Scenario.run_in_order].
Defined.

Lemma HeapTupleSatisfiesNow_correct_witness :
  (exists w', HeapTupleSatisfiesNow false (Runs.ended Runs.deleted) = Ret false w')
  /\ wp (HeapTupleSatisfiesNow false) (now_answers (fun _ => True) (Runs.ended Runs.deleted))
       (Runs.ended Runs.deleted).
Proof.
  split; [eexists; vm_compute; reflexivity|].
  apply HeapTupleSatisfiesNow_correct; [apply Scenario.session_in_order| |split; by eexists].
  apply Runs.ended_in_order; [done|apply Runs.deleted_in_order].
Defined.


(** The reader waits for the inserter, which turns out to have committed
    before the snapshot; the deleter aborted. *)
Lemma HeapTupleSatisfiesMVCC_correct_witness :
  (exists w', HeapTupleSatisfiesMVCC false Scenario.snapshot Scenario.world = Ret true w')
  /\ wp (HeapTupleSatisfiesMVCC false Scenario.snapshot)
       (mv_ok (reader_sees Scenario.snapshot 10 Some None) Scenario.snapshot 10 Some None Scenario.world)
       Scenario.world.
Proof.
  split; [eexists; vm_compute; reflexivity|].
  apply HeapTupleSatisfiesMVCC_correct; [apply Scenario.session_in_order|done|done| |apply Runs.row_in_order|done].
  apply Runs.run_in_order_for. intros s Hs. split; [by apply Scenario.snapshot_in_order|].
  intros page tup. by destruct Hs as [-> | ->].
Defined.

Lemma HeapTupleSatisfiesVacuum_correct_witness :
  let w := Runs.ended Runs.deleted in
  (exists w', HeapTupleSatisfiesVacuum 12 false w = Ret HEAPTUPLE_DEAD w')
  /\ wp (HeapTupleSatisfiesVacuum 12 false) (fun r w' =>
    answers (fun _ => True) (vacuum_status 12 Scenario.page Runs.deleted) (with_bases w) r w'
    /\ (r = HEAPTUPLE_DEAD -> forall reader snap, reads (ses := Scenario.session) reader snap (w_now w') -> 12 <= snap_xmin snap ->
           mvcc_visible (ses := reader) snap Scenario.page Runs.deleted = false)) w
  /\ reads Runs.other Runs.late (w_now w).
Proof.
  cbn zeta. split; [eexists; vm_compute; reflexivity|]. split; [|apply Runs.other_reads].
  eapply wp_mono; [refine (proj1 (HeapTupleSatisfiesVacuum_correct (fun _ => True) 12 false (Runs.ended Runs.deleted)
    Scenario.session_in_order _)); apply Runs.ended_in_order; [done|apply Runs.deleted_in_order]|].
  intros r w' [Ha Hd]. split; [by apply Ha; vm_compute|]. intros Hr. apply (proj2 (proj2 (Hd Hr))).
Defined.
