(* ===== verification/PruneHeap.v ===== *)
(** Heap pruning
    ([src/src/gausskernel/storage/access/heap/pruneheap.cpp],
    [storage/access/redo/redo_pruneheap.cpp], [redo_heapam.cpp],
    [access/common/heaptuple.cpp], [access/heap/heapam.cpp]).

    An UPDATE that changes no indexed column puts the new version on the page
    of the old one and links the versions ([t_ctid]); the indexes point to the
    first line pointer of this HOT chain only.  Pruning removes the dead
    versions at the start of the chains.  The scan of the page makes a plan
    ([PruneState]), [heap_page_prune_execute] carries it out, here and when
    the WAL record is replayed.

    The tuple headers are read from the bytes of the page (BufPage.v).  The
    visibility tests are reached through the interface [VacuumTest]; [S] is the
    state they run in, which Visibility.v instantiates with the [World]. *)
From S2P Require Import Prelude Xid HeapTuple Transam Visibility FsmPage FreeSpace BufPage.
#[local] Open Scope Z_scope.

(** ** Tuple headers on the page *)

(** in [t_infomask2] *)
Definition HEAP_HOT_UPDATED : Z := 0x4000.
Definition HEAP_ONLY_TUPLE : Z := 0x8000.

Definition HeapTupleHeaderIsHotUpdated (tup : HeapTupleHeaderData) : bool :=
  flag (t_infomask2 tup) HEAP_HOT_UPDATED && negb (flag (t_infomask tup) HEAP_XMAX_INVALID)
  && negb (HeapTupleHeaderXminInvalid tup).
Definition HeapTupleHeaderIsHeapOnly (tup : HeapTupleHeaderData) : bool :=
  flag (t_infomask2 tup) HEAP_ONLY_TUPLE.

Definition HeapTupleGetUpdateXid {ses : Session} (htup : HeapTupleData) (tup : HeapTupleHeaderData) : Z :=
  if negb (flag (t_infomask tup) HEAP_XMAX_INVALID) && flag (t_infomask tup) HEAP_XMAX_IS_MULTI
     && negb (flag (t_infomask2 tup) HEAP_XMAX_LOCK_ONLY)
  then HeapTupleMultiXactGetUpdateXid htup tup
  else HeapTupleGetRawXmax htup tup.

(** The struct [HeapTupleHeaderData] in memory, little-endian, without
    padding: the offsets of its fields, its size up to [t_bits]. *)
Fixpoint le_value (bytes : list Z) : Z :=
  match bytes with [] => 0 | b :: bytes => b + 256 * le_value bytes end.
Definition field (bytes : list Z) (off len : Z) : Z := le_value (slice bytes off len).

Definition SizeofHeapTupleHeader : Z := 23.
Definition offset_t_infomask : Z := 20.

Definition tuple_header (bytes : list Z) : HeapTupleHeaderData :=
  {| t_xmin := field bytes 0 4;
     t_xmax := field bytes 4 4;
     t_cid := field bytes 8 4;
     t_ctid := (Z.lor (Z.shiftl (field bytes 12 2) 16) (field bytes 14 2), field bytes 16 2);
     t_infomask2 := field bytes 18 2;
     t_infomask := field bytes offset_t_infomask 2 |}.

Definition ItemIdIsNormal (lp : ItemIdData) : bool := lp_flags lp =? LP_NORMAL.
Definition ItemIdIsRedirected (lp : ItemIdData) : bool := lp_flags lp =? LP_REDIRECT.
Definition ItemIdIsDead (lp : ItemIdData) : bool := lp_flags lp =? LP_DEAD.
Definition ItemIdSetRedirect (link : Z) : ItemIdData := MkItemId (uN 15 link) LP_REDIRECT 0.
Definition ItemIdSetDead : ItemIdData := MkItemId 0 LP_DEAD 0.

Definition read_header (p : PageHeaderData) (lp : ItemIdData) : run HeapTupleHeaderData :=
  bytes ← page_read p (lp_off lp) SizeofHeapTupleHeader;
  mret (tuple_header bytes).
Definition write_infomask (p : PageHeaderData) (lp : ItemIdData) (m : Z) : run PageHeaderData :=
  page_write p (lp_off lp + offset_t_infomask) [m mod 256; m / 256 mod 256].

(** ** The page in its buffer

    [pd_prune_xid] is a 32-bit xid relative to the base of the page. *)
Record HeapBuffer := MkHeap {
  hb_page : PageHeaderData;
  hb_head : HeapPage;
  pd_prune_xid : Z;
  hb_dirty : bool }.

Definition set_hb_page (p : PageHeaderData) (b : HeapBuffer) : HeapBuffer :=
  MkHeap p (hb_head b) (pd_prune_xid b) (hb_dirty b).
Definition MarkBufferDirty (b : HeapBuffer) : HeapBuffer :=
  MkHeap (hb_page b) (hb_head b) (pd_prune_xid b) true.
Definition PageSetLSN (lsn : Z) (b : HeapBuffer) : HeapBuffer :=
  MkHeap (hb_page b) (MkPage (pd_xid_base (hb_head b)) (pd_multi_base (hb_head b)) lsn)
    (pd_prune_xid b) (hb_dirty b).

Definition PD_PAGE_FULL : Z := 0x0002.
Definition PageIsFull (p : PageHeaderData) : bool := has_flag p PD_PAGE_FULL.
Definition PageClearFull (p : PageHeaderData) : PageHeaderData :=
  set_pd_flags (Z.land (pd_flags p) (Z.lnot PD_PAGE_FULL)) p.

Definition HeapPageGetPruneXid (b : HeapBuffer) : Z :=
  ShortTransactionIdToNormal (pd_xid_base (hb_head b)) (pd_prune_xid b).
Definition HeapPageSetPruneXid (xid : Z) (b : HeapBuffer) : HeapBuffer :=
  MkHeap (hb_page b) (hb_head b) (NormalTransactionIdToShort (pd_xid_base (hb_head b)) xid) (hb_dirty b).
Definition PageIsPrunable (b : HeapBuffer) (oldestxmin : Z) : bool :=
  TransactionIdIsValid (HeapPageGetPruneXid b) && TransactionIdPrecedes (HeapPageGetPruneXid b) oldestxmin.

(** [HeapTupleData] of the item: its place and the bases of the page. *)
Definition htup_at (head : HeapPage) (self : Z * Z) : HeapTupleData :=
  {| t_self := self; t_xid_base := pd_xid_base head; t_multi_base := pd_multi_base head |}.

(** ** HeapKeepInvisibleTuple

    Dead rows of pg_partition can be kept.  Deforming a tuple and the catalog
    lookups of the three checks are not modelled. *)
Class PartitionCatalog := {
  t_tableOid : Z;
  fastgetattr : list Z -> Z -> option Z;
  PartitionLocalIndexSkipping : Z -> bool;
  PartitionInvisibleMetadataKeep : Z -> bool;
  PartitionParentOidIsLive : Z -> bool }.

Section Keep.
Context {cat : PartitionCatalog}.

Definition PartitionRelationId : Z := 9016.
Definition Anum_pg_partition_parttype : Z := 2.
Definition Anum_pg_partition_parentid : Z := 3.
Definition Anum_pg_partition_reloptions : Z := 27.
Definition CheckPartOidIndex : Z := 1.

Definition keepInvisibleArray : list (Z * (Z -> bool)) :=
  [(Anum_pg_partition_parttype, PartitionLocalIndexSkipping);
   (Anum_pg_partition_reloptions, PartitionInvisibleMetadataKeep);
   (Anum_pg_partition_parentid, PartitionParentOidIsLive)].

Fixpoint keep_from (tuple : list Z) (i : Z) (opts : list (Z * (Z -> bool))) (ret : bool) : bool :=
  match opts with
  | [] => ret
  | (checkAttnum, checkKeepFunc) :: opts =>
      if negb (PartitionRelationId =? t_tableOid) || negb ret then false
      else match fastgetattr tuple checkAttnum with
      | None => false
      | Some checkDatum =>
          if i =? CheckPartOidIndex then
            match fastgetattr tuple Anum_pg_partition_parttype with
            | None => false
            | Some parttype =>
                let isSubpart := parttype =? 115 in
                keep_from tuple (i + 1) opts (ret && (isSubpart || checkKeepFunc checkDatum))
            end
          else keep_from tuple (i + 1) opts (ret && checkKeepFunc checkDatum)
      end
  end.

(** 115 is the letter s. *)
Definition HeapKeepInvisibleTuple (tuple : list Z) : bool := keep_from tuple 0 keepInvisibleArray true.
End Keep.

(** ** The plan *)

Record PruneState := MkPrune {
  new_prune_xid : Z;
  latestRemovedXid : Z;
  redirected : list (Z * Z);
  nowdead : list Z;
  nowunused : list Z;
  marked : list bool }.

(** The visibility tests that pruning calls: [HeapTupleSatisfiesVacuum], which
    may leave hint bits on the tuple, and [TransactionIdDidCommit]. *)
Class VacuumTest (S : Type) := {
  vt_satisfies : HeapPage -> HeapTupleData -> HeapTupleHeaderData -> Z -> S ->
    run (HTSV_Result * HeapTupleHeaderData * S);
  vt_did_commit : Z -> S -> run (bool * S) }.

#[global] Instance world_test {bs : BlockSize} {ses : Session} {buf : Buffer} : VacuumTest World := {
  vt_satisfies page htup tup OldestXmin w :=
    match HeapTupleSatisfiesVacuum OldestXmin false (set_htup htup (set_tuple page tup w)) with
    | Ret r w => Done (r, w_tuple w, w)
    | Raise c => Report c
    | Undefined => Outside
    end;
  vt_did_commit xid w :=
    match TransactionIdDidCommit xid w with
    | Ret b w => Done (b, w)
    | Raise c => Report c
    | Undefined => Outside
    end }.

(** A run of the scan: the state of the tests, the buffer, the plan so far. *)
Record Scan (S : Type) := MkScan {
  sc_state : S;
  sc_heap : HeapBuffer;
  sc_plan : PruneState }.
Arguments MkScan {S} _ _ _.
Arguments sc_state {S} _.
Arguments sc_heap {S} _.
Arguments sc_plan {S} _.

Definition PM (S A : Type) : Type := Scan S -> run (A * Scan S).

#[global] Instance PM_ret S : MRet (PM S) := fun A a s => Done (a, s).
#[global] Instance PM_bind S : MBind (PM S) := fun A B f m s =>
  match m s with
  | Done (a, s) => f a s
  | Report c => Report c
  | Outside => Outside
  end.

Section Prune.
Context {bs : BlockSize} {ses : Session} {cat : PartitionCatalog} {S : Type} {vt : VacuumTest S}.

Abbreviation PM := (PM S).

Definition lift {A} (r : run A) : PM A := fun s => a ← r; Done (a, s).
Definition get_page : PM PageHeaderData := fun s => Done (hb_page (sc_heap s), s).
Definition get_head : PM HeapPage := fun s => Done (hb_head (sc_heap s), s).
Definition get_plan : PM PruneState := fun s => Done (sc_plan s, s).
Definition put_page (p : PageHeaderData) : PM unit := fun s =>
  Done (tt, MkScan (sc_state s) (set_hb_page p (sc_heap s)) (sc_plan s)).
Definition put_plan (ps : PruneState) : PM unit := fun s => Done (tt, MkScan (sc_state s) (sc_heap s) ps).
Definition in_state {A} (f : S -> run (A * S)) : PM A := fun s =>
  r ← f (sc_state s); Done (fst r, MkScan (snd r) (sc_heap s) (sc_plan s)).

Definition item_id (offnum : Z) : PM ItemIdData := p ← get_page; lift (PageGetItemId p offnum).
Definition header (lp : ItemIdData) : PM HeapTupleHeaderData := p ← get_page; lift (read_header p lp).
Definition is_marked (offnum : Z) : PM bool := ps ← get_plan; lift (inside (zlookup (marked ps) offnum)).

(** *** The record functions

    An array with its counter is a list; an entry beyond the capacity is
    outside the array. *)

Definition mark (offnum : Z) (ps : PruneState) : run (list bool) := inside (zupdate (marked ps) offnum true).

Definition heap_prune_record_prunable (xid : Z) : PM unit :=
  ps ← get_plan;
  if negb (TransactionIdIsValid (new_prune_xid ps)) || TransactionIdPrecedes xid (new_prune_xid ps)
  then put_plan (MkPrune xid (latestRemovedXid ps) (redirected ps) (nowdead ps) (nowunused ps) (marked ps))
  else mret tt.

Definition heap_prune_record_redirect (offnum rdoffnum : Z) : PM unit :=
  ps ← get_plan;
  if MaxHeapTuplesPerPage <=? zlen (redirected ps) then lift Outside
  else
    m ← lift (mark offnum ps);
    m ← lift (inside (zupdate m rdoffnum true));
    put_plan (MkPrune (new_prune_xid ps) (latestRemovedXid ps) (redirected ps ++ [(offnum, rdoffnum)])
                (nowdead ps) (nowunused ps) m).

Definition heap_prune_record_dead (offnum : Z) : PM unit :=
  ps ← get_plan;
  if MaxHeapTuplesPerPage <=? zlen (nowdead ps) then lift Outside
  else
    m ← lift (mark offnum ps);
    put_plan (MkPrune (new_prune_xid ps) (latestRemovedXid ps) (redirected ps)
                (nowdead ps ++ [offnum]) (nowunused ps) m).

Definition heap_prune_record_unused (offnum : Z) : PM unit :=
  ps ← get_plan;
  if MaxHeapTuplesPerPage <=? zlen (nowunused ps) then lift Outside
  else
    m ← lift (mark offnum ps);
    put_plan (MkPrune (new_prune_xid ps) (latestRemovedXid ps) (redirected ps)
                (nowdead ps) (nowunused ps ++ [offnum]) m).

Definition set_latest (xid : Z) : PM unit :=
  ps ← get_plan;
  put_plan (MkPrune (new_prune_xid ps) xid (redirected ps) (nowdead ps) (nowunused ps) (marked ps)).

Definition HeapTupleHeaderAdvanceLatestRemovedXid (htup : HeapTupleData) (tup : HeapTupleHeaderData) : PM unit :=
  let xmin := HeapTupleGetRawXmin htup tup in
  let xmax := HeapTupleGetUpdateXid htup tup in
  committed ← (if HeapTupleHeaderXminCommitted tup then mret true
               else if negb (HeapTupleHeaderXminInvalid tup) then in_state (vt_did_commit xmin)
               else mret false);
  if committed : bool then
    ps ← get_plan;
    if negb (xmax =? xmin) && (latestRemovedXid ps <? xmax) then set_latest xmax else mret tt
  else mret tt.

(** [HeapTupleSatisfiesVacuum] for the tuple behind a line pointer; the hint
    bits go to the page. *)
Definition satisfies_vacuum (htup : HeapTupleData) (lp : ItemIdData) (OldestXmin : Z) : PM HTSV_Result :=
  head ← get_head;
  tup ← header lp;
  r ← in_state (fun s => r ← vt_satisfies head htup tup OldestXmin s; Done (fst r, snd r));
  let '(res, tup) := (r : HTSV_Result * HeapTupleHeaderData) in
  p ← get_page;
  p ← lift (write_infomask p lp (t_infomask tup));
  put_page p;;
  mret res.

Definition keep_invisible (lp : ItemIdData) : PM bool :=
  p ← get_page;
  bytes ← lift (page_read p (lp_off lp) (lp_len lp));
  mret (HeapKeepInvisibleTuple bytes).

(** *** heap_prune_chain *)

Section Chain.
Context (blkno OldestXmin : Z).

(** A heap-only tuple is not the start of a chain: it is removed here when it
    is dead and leads nowhere. *)
Definition prune_heap_only (rootlp : ItemIdData) (rootoffnum : Z) : PM Z :=
  head ← get_head;
  let htup := htup_at head (blkno, rootoffnum) in
  r ← satisfies_vacuum htup rootlp OldestXmin;
  tup ← header rootlp;
  if bool_decide (r = HEAPTUPLE_DEAD) && negb (HeapTupleHeaderIsHotUpdated tup) then
    keep ← keep_invisible rootlp;
    if keep : bool then mret 0
    else
      heap_prune_record_unused rootoffnum;;
      HeapTupleHeaderAdvanceLatestRemovedXid htup tup;;
      mret 1
  else mret 0.

(** The local variables of the walk along the chain. *)
Record Chain := MkChain {
  chainitems : list Z;
  latestdead : Z;
  keepInvisible : bool }.

Definition chain_push (offnum : Z) (c : Chain) : PM Chain :=
  if MaxHeapTuplesPerPage <=? zlen (chainitems c) then lift Outside
  else mret (MkChain (chainitems c ++ [offnum]) (latestdead c) (keepInvisible c)).

(** The examination of a member of the chain: is it dead, recently dead? *)
Definition examine (htup : HeapTupleData) (lp : ItemIdData) (offnum : Z) (c : Chain) :
  PM (bool * bool * Chain) :=
  r ← satisfies_vacuum htup lp OldestXmin;
  tup ← header lp;
  match r with
  | HEAPTUPLE_DEAD =>
      keep ← keep_invisible lp;
      HeapTupleHeaderAdvanceLatestRemovedXid htup tup;;
      mret (true, false, MkChain (chainitems c) offnum keep)
  | HEAPTUPLE_RECENTLY_DEAD =>
      heap_prune_record_prunable (HeapTupleGetUpdateXid htup tup);;
      mret (false, true, c)
  | HEAPTUPLE_DELETE_IN_PROGRESS =>
      heap_prune_record_prunable (HeapTupleGetUpdateXid htup tup);;
      mret (false, false, c)
  | HEAPTUPLE_LIVE | HEAPTUPLE_INSERT_IN_PROGRESS => mret (false, false, c)
  end.

Definition FirstOffsetNumber : Z := 1.

(** The examination and what follows it in the loop: the next offset and
    [prior_xmax], or [None] at the end of the chain. *)
Definition visit (htup : HeapTupleData) (lp : ItemIdData) (offnum : Z) (c : Chain) :
  PM (option (Z * Z) * Chain) :=
  r ← examine htup lp offnum c;
  let '(tupdead, recent_dead, c) := (r : bool * bool * Chain) in
  if negb tupdead && negb recent_dead then mret (None, c)
  else
    tup ← header lp;
    if negb (HeapTupleHeaderIsHotUpdated tup) then mret (None, c)
    else mret (Some (snd (t_ctid tup), HeapTupleGetUpdateXid htup tup), c).

(** The loop.  The array [chainitems] is full before the fuel is used up. *)
Fixpoint follow_chain (fuel : nat) (rootlp : ItemIdData) (offnum prior_xmax : Z) (c : Chain) : PM Chain :=
  match fuel with
  | O => lift Outside
  | Datatypes.S fuel =>
      p ← get_page;
      head ← get_head;
      if (offnum <? FirstOffsetNumber) || (PageGetMaxOffsetNumber p <? offnum) then mret c
      else
        m ← is_marked offnum;
        if m : bool then mret c
        else
          lp ← item_id offnum;
          if negb (ItemIdIsUsed lp) then mret c
          else if ItemIdIsRedirected lp then
            if 0 <? zlen (chainitems c) then mret c
            else
              c ← chain_push offnum c;
              follow_chain fuel rootlp (lp_off rootlp) prior_xmax c
          else if ItemIdIsDead lp then mret c
          else
            tup ← header lp;
            let htup := htup_at head (blkno, offnum) in
            if TransactionIdIsValid prior_xmax
               && negb (TransactionIdEquals (HeapTupleGetRawXmin htup tup) prior_xmax) then mret c
            else
              c ← chain_push offnum c;
              r ← visit htup lp offnum c;
              match (r : option (Z * Z) * Chain) with
              | (None, c) => mret c
              | (Some (offnum, prior_xmax), c) => follow_chain fuel rootlp offnum prior_xmax c
              end
  end.

(** The loop that removes the members up to the last dead one: from index [i]
    on, [prev] is the member before; the index at the end and the count. *)
Fixpoint remove_dead (fuel : nat) (c : Chain) (i ndeleted : Z) : PM (Z * Z) :=
  match fuel with
  | O => lift Outside
  | Datatypes.S fuel =>
      let nchain := zlen (chainitems c) in
      if i <? nchain then
        prev ← lift (inside (zlookup (chainitems c) (i - 1)));
        if negb (prev =? latestdead c) then
          if keepInvisible c && (i =? nchain - 1) then mret (i, ndeleted)
          else
            off ← lift (inside (zlookup (chainitems c) i));
            heap_prune_record_unused off;;
            remove_dead fuel c (i + 1) (ndeleted + 1)
        else mret (i, ndeleted)
      else mret (i, ndeleted)
  end.

(** What follows the loop over the chain. *)
Definition prune_chain_items (rootlp : ItemIdData) (rootoffnum : Z) (c : Chain) : PM Z :=
  let nchain := zlen (chainitems c) in
  let latest := if keepInvisible c && (nchain =? 1) then InvalidOffsetNumber else latestdead c in
  if OffsetNumberIsValid latest then
    r ← remove_dead (Datatypes.S (length (chainitems c))) c 1 0;
    let '(i, ndeleted) := (r : Z * Z) in
    let ndeleted := if ItemIdIsNormal rootlp then ndeleted + 1 else ndeleted in
    (if nchain <=? i then heap_prune_record_dead rootoffnum
     else
       target ← lift (inside (zlookup (chainitems c) i));
       heap_prune_record_redirect rootoffnum target);;
    mret ndeleted
  else if (nchain <? 2) && ItemIdIsRedirected rootlp then
    heap_prune_record_dead rootoffnum;;
    mret 0
  else mret 0.

Definition chain_fuel : nat := Datatypes.S (Datatypes.S (Z.to_nat MaxHeapTuplesPerPage)).

Definition heap_prune_chain (rootoffnum : Z) : PM Z :=
  rootlp ← item_id rootoffnum;
  heap_only ← (if ItemIdIsNormal rootlp then
                 tup ← header rootlp;
                 mret (HeapTupleHeaderIsHeapOnly tup)
               else mret false);
  if heap_only : bool then prune_heap_only rootlp rootoffnum
  else
    c ← follow_chain chain_fuel rootlp rootoffnum InvalidTransactionId (MkChain [] InvalidOffsetNumber false);
    prune_chain_items rootlp rootoffnum c.

(** The scan of the page: [n] line pointers from [offnum] on. *)
Fixpoint scan_items (n : nat) (offnum ndeleted : Z) : PM Z :=
  match n with
  | O => mret ndeleted
  | Datatypes.S n =>
      m ← is_marked offnum;
      if m : bool then scan_items n (offnum + 1) ndeleted
      else
        itemid ← item_id offnum;
        if negb (ItemIdIsUsed itemid) || ItemIdIsDead itemid then scan_items n (offnum + 1) ndeleted
        else
          d ← heap_prune_chain offnum;
          scan_items n (offnum + 1) (ndeleted + d)
  end.
End Chain.

(** ** heap_page_prune_execute *)

Fixpoint put_redirects (redirected : list (Z * Z)) (p : PageHeaderData) : run PageHeaderData :=
  match redirected with
  | [] => mret p
  | (fromoff, tooff) :: redirected =>
      p ← put_item_id p fromoff (ItemIdSetRedirect tooff);
      put_redirects redirected p
  end.

Fixpoint put_each (lp : ItemIdData) (offs : list Z) (p : PageHeaderData) : run PageHeaderData :=
  match offs with
  | [] => mret p
  | off :: offs => p ← put_item_id p off lp; put_each lp offs p
  end.

Definition heap_page_prune_execute (p : PageHeaderData) (redirected : list (Z * Z))
    (nowdead nowunused : list Z) (repairFragmentation : bool) : run PageHeaderData :=
  p ← put_redirects redirected p;
  p ← put_each ItemIdSetDead nowdead p;
  p ← put_each ItemIdSetUnused nowunused p;
  if repairFragmentation then PageRepairFragmentation p else mret p.

(** *** The WAL record *)

(** [xl_heap_clean], the offsets that follow it, and XLOG_HEAP2_NO_REPAIR_PAGE
    negated. *)
Record xl_heap_clean := MkClean {
  xl_latestRemovedXid : Z;
  xl_nredirected : Z;
  xl_ndead : Z;
  xl_offsets : list Z;
  xl_repair : bool }.

Fixpoint flatten (redirected : list (Z * Z)) : list Z :=
  match redirected with [] => [] | (a, b) :: redirected => a :: b :: flatten redirected end.

Definition log_heap_clean (redirected : list (Z * Z)) (nowdead nowunused : list Z)
    (latest_removed_xid : Z) (repair_fragmentation : bool) : xl_heap_clean :=
  {| xl_latestRemovedXid := latest_removed_xid;
     xl_nredirected := u16 (zlen redirected);
     xl_ndead := u16 (zlen nowdead);
     xl_offsets := flatten redirected ++ nowdead ++ nowunused;
     xl_repair := repair_fragmentation |}.

Fixpoint pairs (offs : list Z) : list (Z * Z) :=
  match offs with a :: b :: offs => (a, b) :: pairs offs | _ => [] end.

(** Replay: the record is cut into the arrays by its counts; [wantspace] says
    that the caller asks for the free space. *)
Definition HeapXlogCleanOperatorPage (wantspace : bool) (lsn : Z) (xlrec : xl_heap_clean) (b : HeapBuffer) :
  run (option Z * HeapBuffer) :=
  let n := Z.to_nat (xl_nredirected xlrec * 2) in
  let rest := drop n (xl_offsets xlrec) in
  if zlen (xl_offsets xlrec) <? xl_nredirected xlrec * 2 + xl_ndead xlrec then Outside
  else
    p ← heap_page_prune_execute (hb_page b) (pairs (take n (xl_offsets xlrec)))
          (take (Z.to_nat (xl_ndead xlrec)) rest) (drop (Z.to_nat (xl_ndead xlrec)) rest) (xl_repair xlrec);
    freespace ← (if wantspace then
                   space ← PageGetHeapFreeSpace p;
                   mret (Some space)
                 else mret None);
    mret (freespace, PageSetLSN lsn (set_hb_page p b)).

(** ** heap_page_prune *)

(** What the caller and the other subsystems get: the number of deleted
    tuples, [*latest_removed_xid], the count for the statistics and the WAL
    record. *)
Record PruneResult := MkPruned {
  ndeleted : Z;
  latest_removed_xid : Z;
  reclaimed : option Z;
  wal : option xl_heap_clean }.

Section PagePrune.
Context (blkno : Z) (RelationNeedsWAL : bool) (XLogInsert : xl_heap_clean -> Z).

Definition initial_plan (latest : Z) : PruneState :=
  MkPrune InvalidTransactionId latest [] [] [] (replicate (Z.to_nat (MaxHeapTuplesPerPage + 1)) false).

Definition heap_page_prune (OldestXmin : Z) (report_stats : bool) (latest : Z) (repair_fragmentation : bool)
    (s : S) (b : HeapBuffer) : run (PruneResult * S * HeapBuffer) :=
  let maxoff := PageGetMaxOffsetNumber (hb_page b) in
  r ← scan_items blkno OldestXmin (Z.to_nat maxoff) FirstOffsetNumber 0 (MkScan s b (initial_plan latest));
  let '(ndeleted, sc) := (r : Z * Scan S) in
  let ps := sc_plan sc in
  let b := sc_heap sc in
  let prune := (0 <? zlen (redirected ps)) || (0 <? zlen (nowdead ps)) || (0 <? zlen (nowunused ps)) in
  r ← (if prune then
         p ← heap_page_prune_execute (hb_page b) (redirected ps) (nowdead ps) (nowunused ps) repair_fragmentation;
         let b := HeapPageSetPruneXid (new_prune_xid ps) (set_hb_page p b) in
         let b := MarkBufferDirty (set_hb_page (PageClearFull (hb_page b)) b) in
         if RelationNeedsWAL then
           let rec := log_heap_clean (redirected ps) (nowdead ps) (nowunused ps) (latestRemovedXid ps)
                        repair_fragmentation in
           mret (Some rec, PageSetLSN (XLogInsert rec) b)
         else mret (None, b)
       else if negb (HeapPageGetPruneXid b =? new_prune_xid ps) || PageIsFull (hb_page b) then
         let b := HeapPageSetPruneXid (new_prune_xid ps) b in
         mret (None, MarkBufferDirty (set_hb_page (PageClearFull (hb_page b)) b))
       else mret (None, b));
  let '(wal, b) := (r : option xl_heap_clean * HeapBuffer) in
  let reclaimed := if report_stats && (zlen (nowdead ps) <? ndeleted)
                   then Some (ndeleted - zlen (nowdead ps)) else None in
  mret (MkPruned ndeleted (latestRemovedXid ps) reclaimed wal, sc_state sc, b).

(** ** heap_page_prune_opt

    [unlocked] is what the caller sees without a lock, [locked] the page once
    the cleanup lock was got ([None]: it was not).  The result is [None] when
    the page was left alone. *)
Record Relation := MkRelation {
  rd_is_catalog : bool;
  rd_in_logical_decoding : bool;
  rd_fillfactor : Z }.

Definition RelationGetTargetPageFreeSpace (relation : Relation) : Z :=
  Z.quot (BLCKSZ * (100 - rd_fillfactor relation)) 100.

(** The horizon; catalogs are kept for the replication slots. *)
Definition prune_horizon (relation : Relation) : Z :=
  if rd_is_catalog relation || rd_in_logical_decoding relation then
    if negb (ReplicationSlotCatalogXmin =? 0) && (ReplicationSlotCatalogXmin <? recentGlobalXmin)
    then ReplicationSlotCatalogXmin else recentGlobalXmin
  else recentGlobalXmin.

Definition page_is_tight (minfree : Z) (b : HeapBuffer) : run bool :=
  if PageIsFull (hb_page b) then mret true
  else
    space ← PageGetHeapFreeSpace (hb_page b);
    mret (space <? minfree).

Definition heap_page_prune_opt (SSIsServerModeReadOnly IsPostmasterEnvironment isInSwitchover : bool)
    (upgrade_mode : Z) (relation : Relation) (s : S) (unlocked : HeapBuffer) (locked : option HeapBuffer) :
  run (option (PruneResult * S * HeapBuffer)) :=
  if RecoveryInProgress || SSIsServerModeReadOnly then mret None
  else
    let oldest_xmin := prune_horizon relation in
    if (useLocalSnapshot && IsPostmasterEnvironment) || IsRoachStandbyCluster || (upgrade_mode =? 1)
       || isInSwitchover then mret None
    else if negb (PageIsPrunable unlocked oldest_xmin) then mret None
    else
      let minfree := Z.max (RelationGetTargetPageFreeSpace relation) (Z.quot BLCKSZ 10) in
      tight ← page_is_tight minfree unlocked;
      if tight : bool then
        match locked with
        | None => mret None
        | Some b =>
            tight ← page_is_tight minfree b;
            if tight : bool then
              r ← heap_page_prune oldest_xmin true InvalidTransactionId true s b;
              mret (Some r)
            else mret None
        end
      else mret None.
End PagePrune.

(** ** heap_get_root_tuples *)

Section Roots.
Context (head : HeapPage) (p : PageHeaderData).

(** The inner loop, from [nextoffnum] on.  It has no bound of its own:
    [Outside] also when the fuel ends. *)
Fixpoint collect_chain (fuel : nat) (root nextoffnum prior_xmax : Z) (root_offsets : list Z) :
  run (list Z) :=
  match fuel with
  | O => Outside
  | Datatypes.S fuel =>
      lp ← PageGetItemId p nextoffnum;
      if negb (ItemIdIsNormal lp) then mret root_offsets
      else
        tup ← read_header p lp;
        let htup := htup_at head (0, 0) in
        if TransactionIdIsValid prior_xmax
           && negb (TransactionIdEquals prior_xmax (HeapTupleGetRawXmin htup tup)) then mret root_offsets
        else
          root_offsets ← inside (zupdate root_offsets (nextoffnum - 1) root);
          if negb (HeapTupleHeaderIsHotUpdated tup) then mret root_offsets
          else collect_chain fuel root (snd (t_ctid tup)) (HeapTupleGetUpdateXid htup tup) root_offsets
  end.

Definition collect_item (offnum : Z) (root_offsets : list Z) : run (list Z) :=
  let fuel := Datatypes.S (length (pd_linp p)) in
  lp ← PageGetItemId p offnum;
  if negb (ItemIdIsUsed lp) || ItemIdIsDead lp then mret root_offsets
  else if ItemIdIsNormal lp then
    tup ← read_header p lp;
    if HeapTupleHeaderIsHeapOnly tup then mret root_offsets
    else
      root_offsets ← inside (zupdate root_offsets (offnum - 1) offnum);
      if negb (HeapTupleHeaderIsHotUpdated tup) then mret root_offsets
      else collect_chain fuel offnum (snd (t_ctid tup)) (HeapTupleGetUpdateXid (htup_at head (0, 0)) tup)
             root_offsets
  else collect_chain fuel offnum (lp_off lp) InvalidTransactionId root_offsets.

Fixpoint collect_items (n : nat) (offnum : Z) (root_offsets : list Z) : run (list Z) :=
  match n with
  | O => mret root_offsets
  | Datatypes.S n => root_offsets ← collect_item offnum root_offsets; collect_items n (offnum + 1) root_offsets
  end.

Definition heap_get_root_tuples : run (list Z) :=
  collect_items (Z.to_nat (PageGetMaxOffsetNumber p)) FirstOffsetNumber
    (replicate (Z.to_nat MaxHeapTuplesPerPage) 0).
End Roots.
End Prune.
