(* ===== verification/HotChain.v ===== *)
(** HOT chains: what a page of tuples means to the functions of PruneHeap.v.

    On the content of a page ([page_view], BufPageSpec.v): the tuples and
    redirects, the successor of a line pointer in its chain ([hot_next]), the
    order a heap page is in ([hot_ok]), and what hint bits may change. *)
From S2P Require Import Prelude Xid HeapTuple Transam TransamSpec Visibility VisibilitySpec FsmPage FreeSpace BufPage BufPageSpec PruneHeap.
From stdpp Require Import list.
#[local] Open Scope Z_scope.

(** ** Bytes of a header *)

Lemma le_value_two a b : le_value [a; b] = a + 256 * b.
Proof. simpl. lia. Qed.

Lemma le_value_range bytes : Forall (in_u 8) bytes -> in_u (8 * zlen bytes) (le_value bytes).
Proof.
  induction 1 as [|b bytes Hb _ IH]; [done|]. unfold in_u in *. cbn [le_value]. rewrite zlen_cons.
  pose proof (zlen_nonneg bytes). rewrite Z.mul_add_distr_l, Z.pow_add_r by lia. lia.
Qed.

Lemma Forall_slice {A} (P : A -> Prop) (l : list A) off n : Forall P l -> Forall P (slice l off n).
Proof. intros. by apply Forall_take, Forall_drop. Qed.

(** The tuple with another infomask. *)
Definition with_infomask (bytes : list Z) (m : Z) : list Z :=
  splice bytes offset_t_infomask [m mod 256; m / 256 mod 256].

Section Header.
Context (bytes : list Z) (Hlen : SizeofHeapTupleHeader <= zlen bytes).

Lemma field_other m off len : 0 <= off -> 0 <= len -> off + len <= 20 -> field (with_infomask bytes m) off len = field bytes off len.
Proof.
  intros. unfold field, with_infomask, offset_t_infomask. f_equal. change SizeofHeapTupleHeader with 23 in Hlen.
  apply slice_splice_outside; try lia. unfold zlen in *; cbn [length]; lia.
Qed.

Lemma field_infomask m : in_u 16 m -> field (with_infomask bytes m) offset_t_infomask 2 = m.
Proof.
  intros Hm. unfold field, with_infomask, offset_t_infomask. change SizeofHeapTupleHeader with 23 in Hlen.
  assert (Hz : forall a b : Z, zlen [a; b] = 2) by done.
  rewrite slice_splice_inside by (rewrite ?Hz; lia). change (slice [m mod 256; m / 256 mod 256] (20 - 20) 2)
    with [m mod 256; m / 256 mod 256]. rewrite le_value_two. unfold in_u in Hm.
  change (2 ^ 16) with 65536 in Hm. zdiv_lia.
Qed.

Lemma tuple_header_with m : in_u 16 m -> tuple_header (with_infomask bytes m) = set_infomask (tuple_header bytes) m.
Proof.
  intros Hm. unfold tuple_header, set_infomask. cbn [t_xmin t_xmax t_cid t_ctid t_infomask2].
  rewrite field_infomask by done. rewrite !field_other by lia. done.
Qed.

Lemma zlen_with m : zlen (with_infomask bytes m) = zlen bytes.
Proof.
  unfold with_infomask, offset_t_infomask. change SizeofHeapTupleHeader with 23 in Hlen.
  apply zlen_splice; unfold zlen in *; cbn [length]; lia.
Qed.

Lemma field_short off len : 0 <= off -> 0 <= len -> off + len <= 23 -> field (slice bytes 0 SizeofHeapTupleHeader) off len = field bytes off len.
Proof. intros. unfold field. rewrite slice_slice by (unfold SizeofHeapTupleHeader; lia). done. Qed.

Lemma tuple_header_short : tuple_header (slice bytes 0 SizeofHeapTupleHeader) = tuple_header bytes.
Proof. unfold tuple_header. by rewrite !field_short by (unfold offset_t_infomask; lia). Qed.

Lemma infomask_range : Forall (in_u 8) bytes -> in_u 16 (t_infomask (tuple_header bytes)).
Proof.
  intros Hb. cbn [tuple_header t_infomask]. unfold field, offset_t_infomask.
  change SizeofHeapTupleHeader with 23 in Hlen.
  pose proof (le_value_range (slice bytes 20 2) (Forall_slice _ _ _ _ Hb)) as H.
  rewrite zlen_slice in H by lia. exact H.
Qed.

Lemma Forall_with m : Forall (in_u 8) bytes -> Forall (in_u 8) (with_infomask bytes m).
Proof.
  intros Hb. unfold with_infomask, splice. apply Forall_app. split; [by apply Forall_take|].
  apply Forall_app. split; [|by apply Forall_drop].
  repeat constructor; unfold in_u; change (2 ^ 8) with 256; zdiv_lia.
Qed.
End Header.

Lemma with_with bytes m m' : SizeofHeapTupleHeader <= zlen bytes ->
  with_infomask (with_infomask bytes m) m' = with_infomask bytes m'.
Proof.
  intros Hlen. pose proof (zlen_with bytes Hlen m) as Hz. change SizeofHeapTupleHeader with 23 in Hlen.
  unfold with_infomask, offset_t_infomask in *. assert (Hz2 : forall a b : Z, zlen [a; b] = 2) by done.
  apply list_eq. intros i. rewrite !lookup_splice by (rewrite ?Hz, ?Hz2; lia). cbn [length].
  by case_decide.
Qed.

(** Hint bits leave the infomask a 16-bit word. *)
Lemma hinted_range tup tup' : hinted tup tup' -> in_u 16 (t_infomask tup) -> in_u 16 (t_infomask tup').
Proof.
  intros (bits & Hb & ->) Hm. cbn [or_infomask set_infomask t_infomask].
  assert (Hbits : 0 <= bits).
  { rewrite <- Hb. apply Z.land_nonneg. right. done. }
  unfold in_u in *. assert (Hnn : 0 <= Z.lor (t_infomask tup) bits) by (apply Z.lor_nonneg; lia).
  split; [done|].
  assert (H : forall n, 16 <= n -> Z.testbit (Z.lor (t_infomask tup) bits) n = false).
  { intros n Hn. rewrite Z.lor_spec. apply orb_false_iff. split.
    - destruct (Z.eq_dec (t_infomask tup) 0) as [->|]; [apply Z.bits_0|].
      apply Z.bits_above_log2; [lia|]. apply Z.lt_le_trans with 16; [|done]. apply Z.log2_lt_pow2; lia.
    - rewrite <- Hb, Z.land_spec. rewrite (Z.bits_above_log2 HINTS n); [by rewrite andb_false_r|done|].
      apply Z.lt_le_trans with 16; [|done]. by vm_compute. }
  destruct (Z.lt_ge_cases (Z.lor (t_infomask tup) bits) (2 ^ 16)) as [|Hge]; [done|exfalso].
  assert (Hlog : 16 <= Z.log2 (Z.lor (t_infomask tup) bits)) by (apply Z.log2_le_pow2; lia).
  specialize (H _ Hlog). rewrite Z.bit_log2 in H by lia. done.
Qed.

Lemma hinted_set tup tup' : hinted tup tup' -> set_infomask tup (t_infomask tup') = tup'.
Proof. by intros (bits & _ & ->). Qed.

(** ** The content of a heap page *)

(** Line pointers are numbered from 1. *)
Definition line (v : list lp_view) (k : Z) : option lp_view := zlookup v (k - 1).

Definition tup_of (w : lp_view) : option HeapTupleHeaderData :=
  match w with VItem f bytes => if f =? LP_NORMAL then Some (tuple_header bytes) else None | _ => None end.
Definition link_of (w : lp_view) : option Z :=
  match w with VPointer f off => if f =? LP_REDIRECT then Some off else None | _ => None end.

Definition tup_at (v : list lp_view) (k : Z) : option HeapTupleHeaderData := line v k ≫= tup_of.
Definition link_at (v : list lp_view) (k : Z) : option Z := line v k ≫= link_of.

(** A normal item is a tuple; only redirects and dead line pointers are without
    storage. *)
Definition item_ok (w : lp_view) : Prop :=
  match w with
  | VUnused => True
  | VPointer f _ => f = LP_DEAD \/ f = LP_REDIRECT
  | VItem f bytes => f = LP_NORMAL /\ SizeofHeapTupleHeader <= zlen bytes /\ Forall (in_u 8) bytes
  end.

(** More hint bits on one item, or on any. *)
Definition hint_item (w w' : lp_view) : Prop :=
  w' = w \/ exists bytes m, w = VItem LP_NORMAL bytes /\ w' = VItem LP_NORMAL (with_infomask bytes m)
    /\ hint_step (tuple_header bytes) (tuple_header (with_infomask bytes m)).
Definition hint_view (v v' : list lp_view) : Prop := Forall2 hint_item v v'.

Lemma item_ok_hint w w' : item_ok w -> hint_item w w' -> item_ok w'.
Proof.
  intros Hw [->|(bytes & m & -> & -> & Hh)]; [done|]. destruct Hw as (H1 & H2 & H3). simpl.
  split_and!; [done|by rewrite zlen_with|by apply Forall_with].
Qed.

Lemma hint_item_refl w : hint_item w w.
Proof. by left. Qed.

Lemma hint_item_trans w1 w2 w3 : item_ok w1 -> hint_item w1 w2 -> hint_item w2 w3 -> hint_item w1 w3.
Proof.
  intros Hok H12 H23. destruct H12 as [->|(bytes & m & -> & -> & Hh)]; [done|].
  destruct H23 as [->|(bytes' & m' & Heq & -> & Hh')]; [by right; exists bytes, m|].
  injection Heq as <-. destruct Hok as (_ & Hl & _). rewrite with_with in Hh' |- * by done.
  right. exists bytes, m'. split_and!; [done|done|]. by eapply hint_step_trans.
Qed.

Lemma hint_view_refl v : hint_view v v.
Proof. unfold hint_view. induction v; constructor; [apply hint_item_refl|done]. Qed.

Lemma hint_view_trans v1 v2 v3 : Forall item_ok v1 -> hint_view v1 v2 -> hint_view v2 v3 -> hint_view v1 v3.
Proof.
  intros Hok H. revert v3. induction H as [|w1 w2 v1 v2 Hw Hv IH]; intros v3 H3.
  - inversion H3. constructor.
  - apply Forall2_cons_inv_l in H3 as (w3 & v3' & Hw' & Hv' & ->). pose proof (Forall_inv Hok) as Hok1. pose proof (Forall_inv_tail Hok) as Hok2.
    constructor; [by eapply hint_item_trans|by apply IH].
Qed.

Lemma hint_view_line v v' k : hint_view v v' ->
  match line v k with
  | Some w => exists w', line v' k = Some w' /\ hint_item w w'
  | None => line v' k = None
  end.
Proof.
  intros H. unfold line, zlookup. destruct (0 <=? k - 1); [|done].
  destruct (v !! Z.to_nat (k - 1)) as [w|] eqn:Hw.
  - destruct (Forall2_lookup_l _ _ _ _ _ H Hw) as (w' & ? & ?). by exists w'.
  - apply lookup_ge_None in Hw. apply lookup_ge_None. by rewrite <- (Forall2_length _ _ _ H).
Qed.

Lemma hint_view_tup v v' k h : hint_view v v' -> tup_at v k = Some h ->
  exists h', tup_at v' k = Some h' /\ hint_step h h'.
Proof.
  intros Hv. unfold tup_at. pose proof (hint_view_line v v' k Hv) as H. destruct (line v k) as [w|]; [|done].
  destruct H as (w' & -> & Hi). cbn. intros Ht.
  destruct Hi as [->|(bytes & m & -> & -> & Hh)]; [exists h; split; [done|apply hint_step_refl]|].
  cbn in Ht. injection Ht as <-. by exists (tuple_header (with_infomask bytes m)).
Qed.

Lemma hint_view_tup_inv v v' k h' : hint_view v v' -> tup_at v' k = Some h' ->
  exists h, tup_at v k = Some h /\ hint_step h h'.
Proof.
  intros Hv. unfold tup_at. pose proof (hint_view_line v v' k Hv) as H. destruct (line v k) as [w|]; [|by rewrite H].
  destruct H as (w' & -> & Hi). cbn. intros Ht.
  destruct Hi as [->|(bytes & m & -> & -> & Hh)]; [exists h'; split; [done|apply hint_step_refl]|].
  cbn in Ht. injection Ht as <-. by exists (tuple_header bytes).
Qed.

Lemma hint_view_link v v' k : hint_view v v' -> link_at v' k = link_at v k.
Proof.
  intros Hv. unfold link_at. pose proof (hint_view_line v v' k Hv) as H. destruct (line v k) as [w|]; [|by rewrite H].
  destruct H as (w' & -> & Hi). cbn. by destruct Hi as [->|(bytes & m & -> & -> & Hh)].
Qed.

(** ** Chains *)

Section Chains.
Context {ses : Session} (head : HeapPage).

Definition raw_xmin (h : HeapTupleHeaderData) : Z := HeapTupleGetRawXmin (htup_at head (0, 0)) h.
Definition update_xid (h : HeapTupleHeaderData) : Z := HeapTupleGetUpdateXid (htup_at head (0, 0)) h.

(** The tuple [h2] is the next version of [h]: it was inserted by the
    transaction that updated [h]. *)
Definition follows (h h2 : HeapTupleHeaderData) : bool :=
  negb (TransactionIdIsValid (update_xid h) && negb (TransactionIdEquals (raw_xmin h2) (update_xid h))).

(** The successor of a line pointer in its HOT chain. *)
Definition hot_next (v : list lp_view) (k : Z) : option Z :=
  match tup_at v k, link_at v k with
  | Some h, _ =>
      if HeapTupleHeaderIsHotUpdated h then
        let n := snd (t_ctid h) in
        match tup_at v n with
        | Some h2 => if follows h h2 then Some n else None
        | None => None
        end
      else None
  | None, Some n => match tup_at v n with Some _ => Some n | None => None end
  | None, None => None
  end.

Lemma hint_raw_xmin h h' : hint_step h h' -> raw_xmin h' = raw_xmin h.
Proof. intros [Hh _ _]. unfold raw_xmin, HeapTupleGetRawXmin. by destruct (hinted_fields _ _ Hh) as (-> & _). Qed.

Lemma hint_hot h h' : hint_step h h' -> HeapTupleHeaderIsHotUpdated h' = true ->
  HeapTupleHeaderIsHotUpdated h = true.
Proof.
  intros [Hh Hi _]. unfold HeapTupleHeaderIsHotUpdated. destruct (hinted_fields _ _ Hh) as (_ & _ & _ & _ & ->).
  intros [[-> H2]%andb_true_iff H3]%andb_true_iff. cbn [andb]. apply andb_true_iff. split.
  - apply negb_true_iff in H2. apply negb_true_iff. destruct (flag (t_infomask h) HEAP_XMAX_INVALID) eqn:Hx; [|done].
    by rewrite (hinted_keeps _ _ _ Hh Hx) in H2.
  - apply negb_true_iff in H3. apply negb_true_iff. destruct (HeapTupleHeaderXminInvalid h); [|done].
    by rewrite Hi in H3.
Qed.

Lemma hot_not_invalid h : HeapTupleHeaderIsHotUpdated h = true -> flag (t_infomask h) HEAP_XMAX_INVALID = false.
Proof. intros [[_ H]%andb_true_iff _]%andb_true_iff. by apply negb_true_iff in H. Qed.

Lemma hint_update_xid h h' : hint_step h h' -> HeapTupleHeaderIsHotUpdated h' = true -> update_xid h' = update_xid h.
Proof.
  intros Hh Hu. pose proof (hot_not_invalid _ Hu) as Hi'. pose proof (hot_not_invalid _ (hint_hot _ _ Hh Hu)) as Hi.
  destruct Hh as [Hh _ _]. destruct (hinted_fields _ _ Hh) as (_ & Hx & _ & _ & Hm).
  unfold update_xid, HeapTupleGetUpdateXid, HeapTupleMultiXactGetUpdateXid, HeapTupleGetRawXmax.
  by rewrite Hi, Hi', (hinted_flag h h' HEAP_XMAX_IS_MULTI Hh eq_refl), Hx, Hm.
Qed.

Lemma hint_follows h h' h2 h2' : hint_step h h' -> hint_step h2 h2' -> HeapTupleHeaderIsHotUpdated h' = true ->
  follows h' h2' = follows h h2.
Proof. intros H1 H2 Hu. unfold follows. by rewrite (hint_update_xid h h'), (hint_raw_xmin h2 h2'). Qed.

Lemma hint_heap_only h h' : hint_step h h' -> HeapTupleHeaderIsHeapOnly h' = HeapTupleHeaderIsHeapOnly h.
Proof. intros [Hh _ _]. unfold HeapTupleHeaderIsHeapOnly. by destruct (hinted_fields _ _ Hh) as (_ & _ & _ & _ & ->). Qed.

Lemma hint_ctid h h' : hint_step h h' -> t_ctid h' = t_ctid h.
Proof. intros [Hh _ _]. by destruct (hinted_fields _ _ Hh) as (_ & _ & _ & -> & _). Qed.

(** Hints can cut a chain, they never make one. *)
Lemma hint_next v v' k n : hint_view v v' -> hot_next v' k = Some n -> hot_next v k = Some n.
Proof.
  intros Hv. unfold hot_next. rewrite (hint_view_link v v' k Hv).
  destruct (tup_at v' k) as [h'|] eqn:Hk'.
  - destruct (hint_view_tup_inv _ _ _ _ Hv Hk') as (h & -> & Hh).
    destruct (HeapTupleHeaderIsHotUpdated h') eqn:Hu; [|done]. rewrite (hint_hot _ _ Hh Hu).
    rewrite (hint_ctid _ _ Hh). destruct (tup_at v' (snd (t_ctid h))) as [h2'|] eqn:H2'; [|done].
    destruct (hint_view_tup_inv _ _ _ _ Hv H2') as (h2 & -> & Hh2). by rewrite (hint_follows h h' h2 h2').
  - destruct (tup_at v k) as [h|] eqn:Hk; [by destruct (hint_view_tup _ _ _ _ Hv Hk) as (? & ? & _); simplify_eq|].
    destruct (link_at v k) as [m|]; [|done]. destruct (tup_at v' m) as [h2'|] eqn:H2'; [|done].
    by destruct (hint_view_tup_inv _ _ _ _ Hv H2') as (h2 & -> & Hh2).
Qed.

(** ** The order of a heap page *)

Record hot_ok (v : list lp_view) : Prop := {
  ho_items : Forall item_ok v;
  ho_link : forall k n, link_at v k = Some n -> exists h, tup_at v n = Some h;
  ho_heap_only : forall k n h, hot_next v k = Some n -> tup_at v n = Some h -> HeapTupleHeaderIsHeapOnly h = true;
  ho_unique : forall j k n, hot_next v j = Some n -> hot_next v k = Some n -> j = k;
  ho_acyclic : exists rank : Z -> nat, forall k n, hot_next v k = Some n -> (rank k < rank n)%nat }.

Lemma hint_hot_ok v v' : hint_view v v' -> hot_ok v -> hot_ok v'.
Proof.
  intros Hv Hok. constructor.
  - pose proof (ho_items _ Hok) as Hi. revert Hi. clear Hok. induction Hv as [|w w' v v' Hw Hv IH]; [done|].
    rewrite !Forall_cons. intros [H1 H2]. split; [by eapply item_ok_hint|auto].
  - intros k n. rewrite (hint_view_link v v' k Hv). intros Hl. destruct (ho_link _ Hok _ _ Hl) as [h Hh].
    destruct (hint_view_tup _ _ _ _ Hv Hh) as (h' & ? & _). by exists h'.
  - intros k n h' Hn Ht. destruct (hint_view_tup_inv _ _ _ _ Hv Ht) as (h & Ht0 & Hh).
    rewrite (hint_heap_only _ _ Hh). eapply (ho_heap_only _ Hok); [by eapply hint_next|done].
  - intros j k n Hj Hk. by eapply (ho_unique _ Hok); eapply hint_next.
  - destruct (ho_acyclic _ Hok) as [rank Hr]. exists rank. intros k n Hn. eapply Hr. by eapply hint_next.
Qed.
End Chains.
