(* ===== verification/PruneScan.v ===== *)
(** The scan of heap pruning (PruneHeap.v): [heap_prune_chain] and the loop of
    [heap_page_prune] over the line pointers.

    The scan is verified against what it needs of the visibility tests
    ([VacuumLaws]; Visibility.v provides it, see PruneHeapSpec.v).  Its plan is
    described on the content of the page ([plan_ok]).  The walk along a chain
    keeps [walking]: the members so far, the last dead one, and that all
    members are gone as soon as a tuple that comes next is. *)
From S2P Require Import Prelude Xid HeapTuple Transam TransamSpec Visibility VisibilitySpec FsmPage FreeSpace BufPage BufPageSpec PruneHeap HotChain.
From stdpp Require Import list relations.
#[local] Open Scope Z_scope.

(** ** Line pointers and tuples of a valid page *)

Section Page.
Context {bs : BlockSize}.
Implicit Types (p : PageHeaderData).

Lemma zlen_view p : zlen (page_view p) = zlen (pd_linp p).
Proof. unfold zlen, page_view. by rewrite length_fmap. Qed.

Lemma line_range v k w : line v k = Some w -> 1 <= k <= zlen v.
Proof. unfold line. intros H%zlookup_range. lia. Qed.

Lemma line_lookup v k w : line v k = Some w <-> 1 <= k /\ v !! Z.to_nat (k - 1) = Some w.
Proof. unfold line, zlookup. destruct (Z.leb_spec 0 (k - 1)); [|split; [done|lia]]. intuition lia. Qed.

Lemma line_item p k w : line (page_view p) k = Some w ->
  exists lp, pd_linp p !! Z.to_nat (k - 1) = Some lp /\ PageGetItemId p k = Done lp /\ w = view (pd_data p) lp.
Proof.
  intros (Hk & Hw)%line_lookup. unfold page_view in Hw. rewrite list_lookup_fmap in Hw.
  destruct (pd_linp p !! Z.to_nat (k - 1)) as [lp|] eqn:Hlp; [|done]. injection Hw as <-.
  exists lp. split_and!; [done|by apply get_item|done].
Qed.

Lemma line_in p k : 1 <= k <= zlen (pd_linp p) -> exists w, line (page_view p) k = Some w.
Proof. intros Hk. unfold line. apply zlookup_is_Some. rewrite zlen_view. lia. Qed.

(** The states of a line pointer as its content shows them. *)
Lemma view_cases p lp : page_ok p -> lp_ok (pd_upper p) (pd_special p) lp -> item_ok (view (pd_data p) lp) ->
  match view (pd_data p) lp with
  | VUnused => ItemIdIsUsed lp = false
  | VPointer f off => f = lp_flags lp /\ off = lp_off lp /\ ItemIdIsUsed lp = true /\ (f = LP_DEAD \/ f = LP_REDIRECT)
  | VItem f bytes => f = LP_NORMAL /\ lp_flags lp = LP_NORMAL /\ zlen bytes = lp_len lp
      /\ bytes = slice (pd_data p) (lp_off lp) (lp_len lp) /\ SizeofHeapTupleHeader <= lp_len lp
      /\ Forall (in_u 8) bytes
  end.
Proof.
  intros Hp Hlp. unfold view. destruct (ItemIdHasStorage lp) eqn:Hs.
  - apply has_storage in Hs. destruct (lp_in_data p lp Hp Hlp Hs) as (H1 & H2 & H3).
    pose proof (page_bounds p Hp). destruct Hlp as (Ho & _).
    intros (Hf & Hl & Hb). rewrite zlen_slice in * by (unfold in_u in *; lia). done.
  - destruct (ItemIdIsUsed lp) eqn:Hu; [|done]. intros Hf. done.
Qed.

Lemma tuple_item p k h : page_ok p -> Forall item_ok (page_view p) -> tup_at (page_view p) k = Some h ->
  exists lp bytes, pd_linp p !! Z.to_nat (k - 1) = Some lp /\ PageGetItemId p k = Done lp
    /\ lp_ok (pd_upper p) (pd_special p) lp /\ view (pd_data p) lp = VItem LP_NORMAL bytes
    /\ line (page_view p) k = Some (VItem LP_NORMAL bytes)
    /\ h = tuple_header bytes /\ lp_flags lp = LP_NORMAL /\ zlen bytes = lp_len lp
    /\ bytes = slice (pd_data p) (lp_off lp) (lp_len lp) /\ SizeofHeapTupleHeader <= lp_len lp
    /\ Forall (in_u 8) bytes.
Proof.
  intros Hp Hv Ht. unfold tup_at in Ht. destruct (line (page_view p) k) as [w|] eqn:Hl; [|done].
  destruct (line_item p k w Hl) as (lp & Hlp & Hget & ->). cbn in Ht.
  pose proof (linp_lookup p _ _ Hp Hlp) as Hlok.
  assert (Hok : item_ok (view (pd_data p) lp)).
  { apply line_lookup in Hl as [_ Hl]. by eapply Forall_lookup_1 in Hv. }
  pose proof (view_cases p lp Hp Hlok Hok) as Hc.
  destruct (view (pd_data p) lp) as [| |f bytes] eqn:Hvw; try done.
  destruct Hc as (-> & H1 & H2 & H3 & H4 & H5). cbn in Ht. injection Ht as <-.
  exists lp, bytes. by split_and!.
Qed.

Lemma read_header_at p lp bytes : page_ok p -> lp_ok (pd_upper p) (pd_special p) lp ->
  SizeofHeapTupleHeader <= lp_len lp -> bytes = slice (pd_data p) (lp_off lp) (lp_len lp) ->
  read_header p lp = Done (tuple_header bytes).
Proof.
  intros Hp Hlp Hlen ->. change SizeofHeapTupleHeader with 23 in Hlen.
  destruct (lp_in_data p lp Hp Hlp ltac:(lia)) as (H1 & H2 & H3). pose proof (page_bounds p Hp).
  unfold read_header. rewrite page_read_in by (unfold SizeofHeapTupleHeader; lia). runs. f_equal.
  rewrite <- (tuple_header_short (slice (pd_data p) (lp_off lp) (lp_len lp))). f_equal.
  rewrite slice_slice by (unfold SizeofHeapTupleHeader; lia). f_equal. lia.
Qed.

(** Storing the infomask changes this item only. *)
Lemma write_infomask_at p k lp bytes m : page_ok p -> pd_linp p !! Z.to_nat (k - 1) = Some lp -> 1 <= k ->
  view (pd_data p) lp = VItem LP_NORMAL bytes -> SizeofHeapTupleHeader <= lp_len lp ->
  bytes = slice (pd_data p) (lp_off lp) (lp_len lp) ->
  exists d, write_infomask p lp m = Done (set_data d p) /\ page_ok (set_data d p)
    /\ page_view (set_data d p) = <[Z.to_nat (k - 1) := VItem LP_NORMAL (with_infomask bytes m)]> (page_view p).
Proof.
  intros Hp Hlp Hk Hview Hlen Hbytes. change SizeofHeapTupleHeader with 23 in Hlen.
  pose proof (linp_lookup p _ _ Hp Hlp) as Hlok.
  destruct (lp_in_data p lp Hp Hlok ltac:(lia)) as (H1 & H2 & H3). pose proof (page_bounds p Hp) as Hb.
  unfold write_infomask, offset_t_infomask.
  set (word := [m mod 256; m / 256 mod 256]). assert (Hz : zlen word = 2) by done.
  assert (Hend : linp_end p = pd_lower p) by (by rewrite (ok_lower p Hp)).
  rewrite page_write_in by lia. eexists. split; [done|]. split.
  - destruct Hp as [? ? ? ? ? ?]. constructor; cbn; try done. rewrite zlen_splice; [done|lia..].
  - unfold page_view. cbn [set_data pd_data pd_linp]. apply list_eq. intros i.
    destruct (decide (i = Z.to_nat (k - 1))) as [->|Hne].
    + rewrite list_lookup_insert_eq by (rewrite length_fmap; by eapply lookup_lt_Some).
      rewrite list_lookup_fmap, Hlp. cbn. f_equal. unfold view in Hview |- *.
      destruct (ItemIdHasStorage lp); [|by destruct (ItemIdIsUsed lp)]. injection Hview as -> _. f_equal.
      subst bytes. apply list_eq. intros j. unfold with_infomask, offset_t_infomask. fold word.
      rewrite lookup_splice by (rewrite ?zlen_slice by lia; lia).
      rewrite !lookup_slice by lia. destruct (decide (j < Z.to_nat (lp_len lp))%nat) as [Hj|Hj].
      * rewrite lookup_splice by lia. cbn [length word]. repeat case_decide; try lia; [|done]. f_equal. lia.
      * rewrite decide_False; [done|]. cbn [length word]. lia.
    + rewrite list_lookup_insert_ne by done. rewrite !list_lookup_fmap.
      destruct (pd_linp p !! i) as [lq|] eqn:Hlq; [|done]. cbn. f_equal.
      pose proof (linp_lookup p _ _ Hp Hlq) as Hlqok. unfold view.
      destruct (ItemIdHasStorage lq) eqn:Hs; [|done]. apply has_storage in Hs. f_equal.
      destruct (lp_in_data p lq Hp Hlqok Hs) as (H4 & H5 & H6).
      assert (Hap : apart lp lq).
      { destruct (ok_linp p Hp) as [_ Hpw]. eapply apart_lookup; [done|done|done|done]. }
      specialize (Hap ltac:(lia) Hs). apply slice_splice_outside; lia.
Qed.

(** The tests on a line pointer against its content. *)
Definition line_tests p k lp : Prop :=
  match view (pd_data p) lp with
  | VUnused => ItemIdIsUsed lp = false /\ tup_at (page_view p) k = None /\ link_at (page_view p) k = None
  | VPointer f off =>
      ItemIdIsUsed lp = true /\ ItemIdIsNormal lp = false /\ tup_at (page_view p) k = None
      /\ ((ItemIdIsRedirected lp = true /\ ItemIdIsDead lp = false /\ link_at (page_view p) k = Some (lp_off lp))
          \/ (ItemIdIsRedirected lp = false /\ ItemIdIsDead lp = true /\ link_at (page_view p) k = None))
  | VItem f bytes =>
      ItemIdIsUsed lp = true /\ ItemIdIsNormal lp = true /\ ItemIdIsRedirected lp = false /\ ItemIdIsDead lp = false
      /\ link_at (page_view p) k = None /\ exists h, tup_at (page_view p) k = Some h
  end.

Lemma line_tests_ok p k lp : page_ok p -> Forall item_ok (page_view p) -> pd_linp p !! Z.to_nat (k - 1) = Some lp -> 1 <= k ->
  line_tests p k lp.
Proof.
  intros Hp Hit Hlp Hk. pose proof (linp_lookup _ _ _ Hp Hlp) as Hok.
  assert (Hl : line (page_view p) k = Some (view (pd_data p) lp)).
  { apply line_lookup. split; [done|]. unfold page_view. by rewrite list_lookup_fmap, Hlp. }
  assert (Hi : item_ok (view (pd_data p) lp)).
  { apply line_lookup in Hl as [_ Hl]. by eapply Forall_lookup_1 in Hit. }
  pose proof (view_cases _ _ Hp Hok Hi) as Hc. unfold line_tests, tup_at, link_at. rewrite Hl. cbn.
  unfold ItemIdIsNormal, ItemIdIsRedirected, ItemIdIsDead.
  destruct (view (pd_data p) lp) as [|f off|f bytes]; cbn.
  - done.
  - destruct Hc as (-> & -> & Hu & [E|E]); rewrite E; split_and!; try done; [right|left]; done.
  - destruct Hc as (-> & E & _). unfold ItemIdIsUsed. rewrite E. cbn. split_and!; try done. eauto.
Qed.
End Page.

(** ** What pruning needs of the visibility tests *)

(** [vl_tuple]: the tuple is in order in this state.  [vl_settled]: the fate of
    its inserter is certain.  [vl_dead]: it is dead for the horizon.
    [vl_gone]: no snapshot of the horizon sees it. *)
Class VacuumLaws (S : Type) {vt : VacuumTest S} {ses : Session} (head : HeapPage) (OldestXmin : Z) := {
  vl_inv : S -> Prop;
  vl_le : S -> S -> Prop;
  vl_tuple : S -> HeapTupleHeaderData -> Prop;
  vl_settled : S -> HeapTupleHeaderData -> Prop;
  vl_gone : S -> HeapTupleHeaderData -> Prop;
  vl_dead : HeapTupleHeaderData -> Prop;
  vl_preorder :: PreOrder vl_le;
  vl_tuple_mono : forall s s' h, vl_le s s' -> vl_tuple s h -> vl_tuple s' h;
  vl_settled_mono : forall s s' h, vl_le s s' -> vl_settled s h -> vl_settled s' h;
  vl_gone_mono : forall s s' h, vl_le s s' -> vl_gone s h -> vl_gone s' h;
  vl_settled_hint : forall s h h', hint_step h h' -> vl_settled s h -> vl_settled s h';
  vl_gone_hint : forall s h h', hint_step h h' -> vl_gone s h -> vl_gone s h';
  vl_dead_hint : forall h h', hint_step h h' -> (vl_dead h' <-> vl_dead h);
  vl_commit : forall xid s, vl_inv s ->
    exists b s', vt_did_commit xid s = Done (b, s') /\ vl_inv s' /\ vl_le s s';
  vl_test : forall self h s, vl_inv s -> vl_tuple s h ->
    exists r h' s', vt_satisfies head (htup_at head self) h OldestXmin s = Done (r, h', s')
      /\ vl_inv s' /\ vl_le s s' /\ hint_step h h' /\ vl_tuple s' h'
      (** a dead tuple is gone for good, and so is the certainty about the
          inserter of its next version *)
      /\ (r = HEAPTUPLE_DEAD -> vl_dead h /\ vl_settled s' h' /\ vl_gone s' h'
          /\ forall h2, HeapTupleHeaderIsHotUpdated h' = true -> follows head h' h2 = true -> vl_settled s' h2)
      (** the answer is stable once the fate of the inserter is certain *)
      /\ (vl_settled s h -> vl_dead h -> r = HEAPTUPLE_DEAD)
      (** a recently dead version is gone when the next one is *)
      /\ (r = HEAPTUPLE_RECENTLY_DEAD -> forall h2 s2, HeapTupleHeaderIsHotUpdated h' = true ->
          follows head h' h2 = true -> vl_le s' s2 -> vl_tuple s2 h2 -> vl_gone s2 h2 -> vl_gone s2 h') }.

(** ** Runs of the scan *)

Definition pwp {S A} (m : PM S A) (Q : A -> Scan S -> Prop) (sc : Scan S) : Prop :=
  match m sc with Done (a, sc') => Q a sc' | _ => False end.

Lemma pwp_ret {S A} (a : A) (Q : A -> Scan S -> Prop) sc : Q a sc -> pwp (mret a) Q sc.
Proof. done. Qed.
Lemma pwp_bind {S A B} (m : PM S A) (k : A -> PM S B) Q sc :
  pwp m (fun a sc' => pwp (k a) Q sc') sc -> pwp (m ≫= k) Q sc.
Proof. unfold pwp, mbind, PM_bind. by destruct (m sc) as [[a sc']| |]. Qed.
Lemma pwp_lift {S A} (r : run A) (a : A) (Q : A -> Scan S -> Prop) sc : r = Done a -> Q a sc -> pwp (lift r) Q sc.
Proof. by intros ->. Qed.

Section Scan.
Context {bs : BlockSize} {ses : Session} {cat : PartitionCatalog} {S : Type} {vt : VacuumTest S}.
Context (head : HeapPage) (OldestXmin : Z) {laws : VacuumLaws S head OldestXmin} (blkno : Z).
Implicit Types (sc : Scan S) (v : list lp_view) (ps : PruneState).

Abbreviation page_of sc := (hb_page (sc_heap sc)).
Abbreviation content sc := (page_view (hb_page (sc_heap sc))).
Abbreviation hot_next := (hot_next head).
Abbreviation follows := (follows head).

(** The page is in order, its tuples too, and the fate of the inserter of a
    tuple behind a redirect is certain. *)
Record base_ok sc : Prop := {
  b_page : page_ok (page_of sc);
  b_lines : zlen (pd_linp (page_of sc)) <= MaxHeapTuplesPerPage;
  b_head : hb_head (sc_heap sc) = head;
  b_hot : hot_ok head (content sc);
  b_inv : vl_inv (sc_state sc);
  b_tuples : forall k h, tup_at (content sc) k = Some h -> vl_tuple (sc_state sc) h;
  b_links : forall k n h, link_at (content sc) k = Some n -> tup_at (content sc) n = Some h ->
    vl_settled (sc_state sc) h }.

(** Time has passed, and the tuples in [T] may have more hint bits. *)
Record hints_on (T : Z -> Prop) sc sc' : Prop := {
  hi_le : vl_le (sc_state sc) (sc_state sc');
  hi_page : exists d, sc_heap sc' = set_hb_page (set_data d (page_of sc)) (sc_heap sc);
  hi_view : hint_view (content sc) (content sc');
  hi_other : forall k, ~ T k -> line (content sc') k = line (content sc) k }.

Lemma same_heap_hints T sc sc' : vl_le (sc_state sc) (sc_state sc') -> sc_heap sc' = sc_heap sc -> hints_on T sc sc'.
Proof.
  intros Hle Hh. constructor; rewrite ?Hh; [done| |apply hint_view_refl|done].
  exists (pd_data (page_of sc)). by destruct (sc_heap sc) as [[] ? ? ?].
Qed.

Lemma hints_on_refl T sc : hints_on T sc sc.
Proof. by apply same_heap_hints. Qed.

Lemma hints_on_trans T sc1 sc2 sc3 : base_ok sc1 -> hints_on T sc1 sc2 -> hints_on T sc2 sc3 -> hints_on T sc1 sc3.
Proof.
  intros Hb [L1 [d1 P1] V1 O1] [L2 [d2 P2] V2 O2]. constructor.
  - by etrans.
  - exists d2. by rewrite P2, P1.
  - eapply hint_view_trans; [apply Hb|done|done].
  - intros k Hk. by rewrite O2, O1.
Qed.

Lemma hints_on_weaken (T T' : Z -> Prop) sc sc' : (forall k, T k -> T' k) -> hints_on T sc sc' -> hints_on T' sc sc'.
Proof. intros HT [L P V O]. constructor; try done. intros k Hk. apply O. auto. Qed.

Lemma hints_linp T sc sc' : hints_on T sc sc' -> pd_linp (page_of sc') = pd_linp (page_of sc).
Proof. intros [_ [d ->] _ _]. done. Qed.

(** With time the page stays in order. *)
Lemma base_ok_time sc st ps : base_ok sc -> vl_inv st -> vl_le (sc_state sc) st ->
  base_ok (MkScan st (sc_heap sc) ps).
Proof.
  intros [? ? ? ? ? Ht Hl] Hi Hle. constructor; cbn; try done.
  - intros k h Hk. eapply vl_tuple_mono; [done|by eapply Ht].
  - intros k n h Hk Hn. eapply vl_settled_mono; [done|by eapply Hl].
Qed.

Lemma base_ok_plan sc ps : base_ok sc -> base_ok (MkScan (sc_state sc) (sc_heap sc) ps).
Proof. intros H. apply base_ok_time; [done|apply H|done]. Qed.

Lemma pwp_item k w (Q : ItemIdData -> Scan S -> Prop) sc :
  line (content sc) k = Some w ->
  (forall lp, pd_linp (page_of sc) !! Z.to_nat (k - 1) = Some lp -> w = view (pd_data (page_of sc)) lp -> Q lp sc) ->
  pwp (item_id k) Q sc.
Proof.
  intros Hl HQ. destruct (line_item _ _ _ Hl) as (lp & H1 & H2 & H3). unfold item_id.
  apply pwp_bind. cbn. eapply pwp_lift; [done|]. by apply HQ.
Qed.

(** The line pointer of a tuple, and the tuple. *)
Definition tuple_lp sc (k : Z) (lp : ItemIdData) : Prop := pd_linp (page_of sc) !! Z.to_nat (k - 1) = Some lp.

Lemma tuple_lp_item sc k lp h : base_ok sc -> tuple_lp sc k lp -> tup_at (content sc) k = Some h ->
  exists bytes, PageGetItemId (page_of sc) k = Done lp
    /\ lp_ok (pd_upper (page_of sc)) (pd_special (page_of sc)) lp /\ view (pd_data (page_of sc)) lp = VItem LP_NORMAL bytes
    /\ line (content sc) k = Some (VItem LP_NORMAL bytes) /\ h = tuple_header bytes /\ lp_flags lp = LP_NORMAL
    /\ bytes = slice (pd_data (page_of sc)) (lp_off lp) (lp_len lp) /\ SizeofHeapTupleHeader <= lp_len lp
    /\ zlen bytes = lp_len lp /\ Forall (in_u 8) bytes.
Proof.
  intros Hb Hlp Ht. destruct (tuple_item _ _ _ (b_page _ Hb) (ho_items _ _ (b_hot _ Hb)) Ht)
    as (lp' & bytes & H1 & H2 & H3 & H4 & H5 & H6 & H7 & H8 & H9 & H10 & H11).
  unfold tuple_lp in Hlp. rewrite H1 in Hlp. injection Hlp as ->. exists bytes. by split_and!.
Qed.

Lemma pwp_header k lp h (Q : HeapTupleHeaderData -> Scan S -> Prop) sc :
  base_ok sc -> tuple_lp sc k lp -> tup_at (content sc) k = Some h -> Q h sc -> pwp (header lp) Q sc.
Proof.
  intros Hb Hlp Ht HQ. destruct (tuple_lp_item _ _ _ _ Hb Hlp Ht)
    as (bytes & _ & H2 & _ & _ & -> & _ & H7 & H8 & _ & _).
  unfold header. apply pwp_bind. cbn. eapply pwp_lift; [|exact HQ].
  apply read_header_at; try done. apply Hb.
Qed.

Lemma pwp_keep k lp h (Q : bool -> Scan S -> Prop) sc :
  base_ok sc -> tuple_lp sc k lp -> tup_at (content sc) k = Some h -> (forall b, Q b sc) -> pwp (keep_invisible lp) Q sc.
Proof.
  intros Hb Hlp Ht HQ. destruct (tuple_lp_item _ _ _ _ Hb Hlp Ht)
    as (bytes & _ & H2 & _ & _ & _ & _ & _ & H8 & _ & _).
  change SizeofHeapTupleHeader with 23 in H8.
  destruct (lp_in_data _ lp (b_page _ Hb) H2 ltac:(lia)) as (? & ? & ?). pose proof (page_bounds _ (b_page _ Hb)).
  unfold keep_invisible. apply pwp_bind. cbn. apply pwp_bind. eapply pwp_lift; [apply page_read_in; lia|].
  apply pwp_ret, HQ.
Qed.

(** What [HeapTupleSatisfiesVacuum] says about the tuple [h] it left as [h']. *)
Definition tested (st : S) (h : HeapTupleHeaderData) (r : HTSV_Result) (h' : HeapTupleHeaderData) (st' : S) : Prop :=
  (r = HEAPTUPLE_DEAD -> vl_dead h /\ vl_settled st' h' /\ vl_gone st' h'
    /\ forall h2, HeapTupleHeaderIsHotUpdated h' = true -> follows h' h2 = true -> vl_settled st' h2)
  /\ (vl_settled st h -> vl_dead h -> r = HEAPTUPLE_DEAD)
  /\ (r = HEAPTUPLE_RECENTLY_DEAD -> forall h2 s2, HeapTupleHeaderIsHotUpdated h' = true ->
      follows h' h2 = true -> vl_le st' s2 -> vl_tuple s2 h2 -> vl_gone s2 h2 -> vl_gone s2 h').

Lemma line_insert v k j w : 1 <= k <= zlen v ->
  line (<[Z.to_nat (k - 1) := w]> v) j = if decide (j = k) then Some w else line v j.
Proof.
  intros Hk. unfold line, zlookup, zlen in *. case_decide as Hj.
  - subst j. rewrite (proj2 (Z.leb_le 0 (k - 1))) by lia. apply list_lookup_insert_eq. lia.
  - destruct (Z.leb_spec 0 (j - 1)); [|done]. apply list_lookup_insert_ne. lia.
Qed.

Lemma tup_at_line v v' k : line v' k = line v k -> tup_at v' k = tup_at v k.
Proof. intros H. unfold tup_at. by rewrite H. Qed.

(** A test of the tuple [k], its hint bits on the page. *)
Lemma pwp_satisfies k lp h self (Q : HTSV_Result -> Scan S -> Prop) sc :
  base_ok sc -> tuple_lp sc k lp -> tup_at (content sc) k = Some h ->
  (forall r h' sc', base_ok sc' -> hints_on (eq k) sc sc' -> sc_plan sc' = sc_plan sc ->
     tup_at (content sc') k = Some h' -> hint_step h h' -> tested (sc_state sc) h r h' (sc_state sc') -> Q r sc') ->
  pwp (satisfies_vacuum (htup_at head self) lp OldestXmin) Q sc.
Proof.
  intros Hb Hlp Ht HQ. destruct (tuple_lp_item _ _ _ _ Hb Hlp Ht)
    as (bytes & H1 & H2 & Hview & Hline & Hh & H6 & H7 & H8 & H9 & H10).
  destruct (vl_test self h (sc_state sc) (b_inv _ Hb) (b_tuples _ Hb _ _ Ht))
    as (r & h' & st' & Hrun & Hi' & Hle & Hstep & Htup' & Htested).
  unfold satisfies_vacuum. apply pwp_bind. cbn. rewrite (b_head _ Hb). apply pwp_bind.
  eapply (pwp_header k); [done|done|done|]. apply pwp_bind. unfold pwp at 1, in_state.
  cbn [mbind run_bind]. rewrite Hrun. cbn [fst snd sc_state sc_heap sc_plan].
  apply pwp_bind. cbn. apply pwp_bind.
  pose proof (line_range _ _ _ Hline) as Hk. rewrite zlen_view in Hk.
  destruct (write_infomask_at (page_of sc) k lp bytes (t_infomask h') (b_page _ Hb) Hlp ltac:(lia) Hview H8 H7)
    as (d & Hw & Hpok & Hv). eapply pwp_lift; [exact Hw|]. apply pwp_bind. cbn. apply pwp_ret.
  set (sc' := MkScan st' (set_hb_page (set_data d (page_of sc)) (sc_heap sc)) (sc_plan sc)).
  assert (Hh' : tuple_header (with_infomask bytes (t_infomask h')) = h').
  { rewrite tuple_header_with; [|lia|].
    - rewrite <- Hh. apply hinted_set, Hstep.
    - eapply hinted_range; [apply Hstep|]. rewrite Hh. apply infomask_range; [lia|done]. }
  assert (Hline' : forall j, line (content sc') j =
    if decide (j = k) then Some (VItem LP_NORMAL (with_infomask bytes (t_infomask h'))) else line (content sc) j).
  { intros j. change (content sc') with (page_view (set_data d (page_of sc))). rewrite Hv. apply line_insert. by rewrite zlen_view. }
  assert (Hhv : hint_view (content sc) (content sc')).
  { change (content sc') with (page_view (set_data d (page_of sc))). rewrite Hv.
    apply line_lookup in Hline as [_ Hlk]. unfold hint_view. rewrite <- (list_insert_id _ _ _ Hlk) at 1.
    apply Forall2_insert; [apply hint_view_refl|]. right. exists bytes, (t_infomask h').
    split_and!; [done|done|]. by rewrite Hh', <- Hh. }
  assert (Htk : tup_at (content sc') k = Some h').
  { unfold tup_at. rewrite Hline', decide_True by done. cbn. by rewrite Hh'. }
  assert (Hto : forall j, j <> k -> tup_at (content sc') j = tup_at (content sc) j).
  { intros j Hj. apply tup_at_line. by rewrite Hline', decide_False. }
  apply (HQ r h' sc'); [|constructor|done..].
  - constructor; try exact Hpok; try exact Hi'; try apply Hb.
    + by eapply hint_hot_ok; [exact Hhv|apply Hb].
    + intros j hj Hj. destruct (decide (j = k)) as [->|Hne].
      * rewrite Htk in Hj. by injection Hj as <-.
      * rewrite Hto in Hj by done. eapply vl_tuple_mono; [exact Hle|by eapply Hb].
    + intros j n hn Hj Hn. rewrite (hint_view_link _ _ _ Hhv) in Hj.
      destruct (hint_view_tup_inv _ _ _ _ Hhv Hn) as (hn0 & Hn0 & Hs).
      eapply vl_settled_hint; [done|]. eapply vl_settled_mono; [exact Hle|]. by eapply (b_links _ Hb).
  - done.
  - by exists d.
  - done.
  - intros j Hj. rewrite Hline', decide_False; [done|congruence].
Qed.

(** ** The examination of a tuple *)

(** The hints for later and for standbys apart. *)
Definition same_plan ps ps' : Prop :=
  redirected ps' = redirected ps /\ nowdead ps' = nowdead ps /\ nowunused ps' = nowunused ps
  /\ marked ps' = marked ps.

Lemma same_plan_trans ps1 ps2 ps3 : same_plan ps1 ps2 -> same_plan ps2 ps3 -> same_plan ps1 ps3.
Proof. unfold same_plan. intuition congruence. Qed.

Lemma pwp_prunable xid (Q : unit -> Scan S -> Prop) sc : base_ok sc ->
  (forall sc', base_ok sc' -> sc_state sc' = sc_state sc -> sc_heap sc' = sc_heap sc ->
     same_plan (sc_plan sc) (sc_plan sc') -> Q tt sc') -> pwp (heap_prune_record_prunable xid) Q sc.
Proof.
  intros Hb HQ. unfold heap_prune_record_prunable. apply pwp_bind. cbn.
  destruct (_ || _); [|by apply pwp_ret, HQ]. unfold pwp, put_plan.
  apply HQ; [by apply base_ok_plan|done..].
Qed.

Lemma pwp_advance self h (Q : unit -> Scan S -> Prop) sc : base_ok sc ->
  (forall sc', base_ok sc' -> vl_le (sc_state sc) (sc_state sc') -> sc_heap sc' = sc_heap sc ->
     same_plan (sc_plan sc) (sc_plan sc') -> Q tt sc') ->
  pwp (HeapTupleHeaderAdvanceLatestRemovedXid (htup_at head self) h) Q sc.
Proof.
  intros Hb HQ. unfold HeapTupleHeaderAdvanceLatestRemovedXid. cbv zeta.
  assert (Hlast : forall b sc', base_ok sc' -> vl_le (sc_state sc) (sc_state sc') -> sc_heap sc' = sc_heap sc ->
    same_plan (sc_plan sc) (sc_plan sc') ->
    pwp (S := S) (if b : bool then
           ps ← get_plan;
           if negb (HeapTupleGetUpdateXid (htup_at head self) h =? HeapTupleGetRawXmin (htup_at head self) h)
              && (latestRemovedXid ps <? HeapTupleGetUpdateXid (htup_at head self) h)
           then set_latest (HeapTupleGetUpdateXid (htup_at head self) h) else mret tt
         else mret tt) Q sc').
  { intros b sc' Hb' Hle Hh Hp. destruct b; [|by apply pwp_ret, HQ]. apply pwp_bind. cbn.
    destruct (_ && _); [|by apply pwp_ret, HQ]. unfold set_latest. apply pwp_bind. cbn. unfold pwp, put_plan.
    apply HQ; [by apply base_ok_plan|done..]. }
  apply pwp_bind. destruct (HeapTupleHeaderXminCommitted h); [apply pwp_ret; by apply (Hlast true)|].
  destruct (negb (HeapTupleHeaderXminInvalid h)); [|apply pwp_ret; by apply (Hlast false)].
  destruct (vl_commit (HeapTupleGetRawXmin (htup_at head self) h) (sc_state sc) (b_inv _ Hb))
    as (b & st' & Hrun & Hi & Hle).
  unfold pwp at 1, in_state. rewrite Hrun. cbn [mbind run_bind fst snd].
  apply (Hlast b); [by apply base_ok_time|done..].
Qed.

(** What is known after the tuple [k] of a chain was visited. *)
Record visit_post (k : Z) (h : HeapTupleHeaderData) (c : Chain) sc (next : option (Z * Z)) (c' : Chain) sc'
    (h' : HeapTupleHeaderData) : Prop := {
  vp_base : base_ok sc';
  vp_hints : hints_on (eq k) sc sc';
  vp_plan : same_plan (sc_plan sc) (sc_plan sc');
  vp_items : chainitems c' = chainitems c;
  vp_tuple : tup_at (content sc') k = Some h';
  vp_step : hint_step h h';
  vp_next : next = None \/ (HeapTupleHeaderIsHotUpdated h' = true /\ next = Some (snd (t_ctid h'), update_xid head h'));
  vp_verdict :
    (latestdead c' = latestdead c /\ keepInvisible c' = keepInvisible c
     /\ (vl_settled (sc_state sc) h -> ~ vl_dead h)
     /\ (next <> None -> forall h2 s2, HeapTupleHeaderIsHotUpdated h' = true -> follows h' h2 = true ->
           vl_le (sc_state sc') s2 -> vl_tuple s2 h2 -> vl_gone s2 h2 -> vl_gone s2 h'))
    \/ (latestdead c' = k /\ vl_gone (sc_state sc') h' /\ vl_settled (sc_state sc') h'
        /\ (forall h2, HeapTupleHeaderIsHotUpdated h' = true -> follows h' h2 = true -> vl_settled (sc_state sc') h2)
        /\ (next = None -> HeapTupleHeaderIsHotUpdated h' = false)) }.

Lemma tuple_lp_hints T k lp sc sc' : hints_on T sc sc' -> tuple_lp sc k lp -> tuple_lp sc' k lp.
Proof. intros Hh. unfold tuple_lp. by rewrite (hints_linp _ _ _ Hh). Qed.

(** The end of a visit: the next member, or the end of the chain. *)
Lemma pwp_advance_chain k lp h' self c (Q : option (Z * Z) * Chain -> Scan S -> Prop) sc :
  base_ok sc -> tuple_lp sc k lp -> tup_at (content sc) k = Some h' ->
  (forall next, next = None /\ HeapTupleHeaderIsHotUpdated h' = false
     \/ HeapTupleHeaderIsHotUpdated h' = true /\ next = Some (snd (t_ctid h'), update_xid head h') -> Q (next, c) sc) ->
  pwp (tup ← header lp;
       if negb (HeapTupleHeaderIsHotUpdated tup) then mret (None, c)
       else mret (Some (snd (t_ctid tup), HeapTupleGetUpdateXid (htup_at head self) tup), c)) Q sc.
Proof.
  intros Hb Hlp Ht HQ. apply pwp_bind. eapply (pwp_header k); [done..|].
  destruct (HeapTupleHeaderIsHotUpdated h') eqn:Hu; cbn [negb]; apply pwp_ret, HQ; [by right|by left].
Qed.

Lemma pwp_visit k lp h c (Q : option (Z * Z) * Chain -> Scan S -> Prop) sc :
  base_ok sc -> tuple_lp sc k lp -> tup_at (content sc) k = Some h ->
  (forall next c' sc' h', visit_post k h c sc next c' sc' h' -> Q (next, c') sc') ->
  pwp (visit OldestXmin (htup_at head (blkno, k)) lp k c) Q sc.
Proof.
  intros Hb Hlp Ht HQ. unfold visit, examine. apply pwp_bind. apply pwp_bind.
  eapply (pwp_satisfies k); [done..|]. intros r h' sc1 Hb1 Hh1 Hp1 Ht1 Hs1 (Hdead & Hstable & Hrecent).
  pose proof (tuple_lp_hints _ _ _ _ _ Hh1 Hlp) as Hlp1. apply pwp_bind. eapply (pwp_header k); [done..|].
  assert (Hsame : same_plan (sc_plan sc) (sc_plan sc1)) by (by rewrite Hp1).
  assert (Halive : r <> HEAPTUPLE_DEAD -> vl_settled (sc_state sc) h -> ~ vl_dead h) by auto.
  (* the tuple stays when time passes *)
  assert (Hkeep : forall sc2, vl_le (sc_state sc1) (sc_state sc2) -> sc_heap sc2 = sc_heap sc1 ->
    tuple_lp sc2 k lp /\ tup_at (content sc2) k = Some h' /\ hints_on (eq k) sc sc2).
  { intros sc2 Hle Hhp. assert (Hh2 : hints_on (eq k) sc1 sc2) by (by apply same_heap_hints).
    unfold tuple_lp. rewrite Hhp. split_and!; [done|done|by eapply hints_on_trans]. }
  destruct r.
  - apply pwp_bind. eapply (pwp_keep k); [done..|]. intros keep. apply pwp_bind.
    apply pwp_advance; [done|]. intros sc2 Hb2 Hle2 Hhp2 Hp2. apply pwp_ret. cbn.
    destruct (Hkeep sc2 Hle2 Hhp2) as (Hlp2 & Ht2 & Hh2).
    eapply pwp_advance_chain; [done..|]. intros next Hn. apply (HQ next _ sc2 h').
    destruct (Hdead eq_refl) as (_ & Hset & Hgone & Hnextset).
    constructor; try done; [by eapply same_plan_trans|intuition|]. right. split_and!; [done| | | |].
    + by eapply vl_gone_mono.
    + by eapply vl_settled_mono.
    + intros h2 Hu Hf. eapply vl_settled_mono; [done|by apply Hnextset].
    + intros ->. by destruct Hn as [[_ ?]|[_ ?]].
  - apply pwp_ret. cbn. apply pwp_ret, (HQ None _ sc1 h'). constructor; try done; [by left|].
    left. split_and!; [done|done|by apply Halive|done].
  - apply pwp_bind. apply pwp_prunable; [done|]. intros sc2 Hb2 Hst2 Hhp2 Hp2. apply pwp_ret. cbn.
    destruct (Hkeep sc2 ltac:(by rewrite Hst2) Hhp2) as (Hlp2 & Ht2 & Hh2).
    eapply pwp_advance_chain; [done..|]. intros next Hn. apply (HQ next _ sc2 h').
    constructor; try done; [by eapply same_plan_trans|intuition|]. left. split_and!; [done|done|by apply Halive|].
    intros _. rewrite Hst2. by apply Hrecent.
  - apply pwp_ret. cbn. apply pwp_ret, (HQ None _ sc1 h'). constructor; try done; [by left|].
    left. split_and!; [done|done|by apply Halive|done].
  - apply pwp_bind. apply pwp_prunable; [done|]. intros sc2 Hb2 Hst2 Hhp2 Hp2. apply pwp_ret. cbn.
    destruct (Hkeep sc2 ltac:(by rewrite Hst2) Hhp2) as (Hlp2 & Ht2 & Hh2).
    apply pwp_ret, (HQ None _ sc2 h'). constructor; try done; [by eapply same_plan_trans|by left|].
    left. split_and!; [done|done|by apply Halive|done].
Qed.

(** ** Paths and plans *)

(** The members [l] follow [x] in its chain. *)
Fixpoint linked v (x : Z) (l : list Z) : Prop :=
  match l with [] => True | y :: l => hot_next v x = Some y /\ linked v y l end.

Lemma linked_app v x l y k : linked v x (l ++ y :: k) <-> linked v x (l ++ [y]) /\ linked v y k.
Proof. revert x. induction l as [|z l IH]; intros x; simpl; [tauto|]. rewrite IH. tauto. Qed.

(** The last member of the chain. *)
Fixpoint last_of (x : Z) (l : list Z) : Z :=
  match l with [] => x | y :: l => last_of y l end.

Lemma last_of_app x l y k : last_of x (l ++ y :: k) = last_of y k.
Proof. revert x. induction l as [|z l IH]; intros x; [done|]. apply IH. Qed.

Lemma linked_snoc v x l y : linked v x (l ++ [y]) <-> linked v x l /\ hot_next v (last_of x l) = Some y.
Proof. revert x. induction l as [|z l IH]; intros x; simpl; [tauto|]. rewrite IH. tauto. Qed.

Lemma last_of_snoc x l y : last_of x (l ++ [y]) = y.
Proof. by rewrite last_of_app. Qed.

Lemma last_of_in x l : last_of x l ∈ x :: l.
Proof. revert x. induction l as [|y l IH]; intros x; [by left|]. right. apply IH. Qed.

Lemma next_tup v x n : hot_next v x = Some n -> exists h, tup_at v n = Some h.
Proof.
  unfold HotChain.hot_next. destruct (tup_at v x) as [h|].
  - destruct (HeapTupleHeaderIsHotUpdated h); [|done].
    destruct (tup_at v (snd (t_ctid h))) as [h2|] eqn:H2; [|done].
    destruct (HotChain.follows head h h2); [|done]. intros [= <-]. by exists h2.
  - destruct (link_at v x) as [m|]; [|done]. destruct (tup_at v m) as [h2|] eqn:H2; [|done].
    intros [= <-]. by exists h2.
Qed.

(** A chain has no cycle. *)
Lemma linked_rank v x l (rank : Z -> nat) : (forall k n, hot_next v k = Some n -> (rank k < rank n)%nat) ->
  linked v x l -> Forall (fun y => (rank x < rank y)%nat) l.
Proof.
  intros Hr. revert x. induction l as [|y l IH]; intros x; simpl; [constructor|]. intros [Hn Hl].
  specialize (Hr _ _ Hn). constructor; [done|]. eapply Forall_impl; [by apply IH|]. simpl. lia.
Qed.

Lemma linked_nodup v x l : hot_ok head v -> linked v x l -> NoDup (x :: l).
Proof.
  intros Hok. destruct (ho_acyclic _ _ Hok) as [rank Hr]. revert x.
  induction l as [|y l IH]; intros x Hl; [by repeat constructor; apply not_elem_of_nil|].
  pose proof (linked_rank v x _ rank Hr Hl) as Hx. destruct Hl as [Hn Hl]. constructor; [|by apply IH].
  intros Hin. rewrite Forall_forall in Hx. specialize (Hx _ Hin). lia.
Qed.

Lemma hot_next_same v v' x n : line v' x = line v x -> line v' n = line v n ->
  hot_next v x = Some n -> hot_next v' x = Some n.
Proof.
  intros Hx Hn. unfold HotChain.hot_next.
  assert (Ht : tup_at v' x = tup_at v x) by (by apply tup_at_line).
  assert (Hl : link_at v' x = link_at v x) by (unfold link_at; by rewrite Hx).
  assert (Hn' : tup_at v' n = tup_at v n) by (by apply tup_at_line). rewrite Ht, Hl.
  destruct (tup_at v x) as [h|].
  - destruct (HeapTupleHeaderIsHotUpdated h); [|done].
    destruct (tup_at v (snd (t_ctid h))) as [h2|] eqn:H2; [|done].
    destruct (HotChain.follows head h h2) eqn:Hf; [|done]. intros [= <-]. by rewrite Hn', H2, Hf.
  - destruct (link_at v x) as [m|]; [|done]. destruct (tup_at v m) as [h2|] eqn:H2; [|done].
    intros [= <-]. by rewrite Hn', H2.
Qed.

Definition all_of ps : list Z :=
  nowunused ps ++ nowdead ps ++ (redirected ps).*1 ++ (redirected ps).*2.

Lemma elem_of_all ps k :
  k ∈ all_of ps <-> k ∈ nowunused ps \/ k ∈ nowdead ps \/ k ∈ (redirected ps).*1 \/ k ∈ (redirected ps).*2.
Proof. unfold all_of. rewrite !elem_of_app. done. Qed.

(** The start of a chain: a redirect, or a tuple that indexes point to. *)
Definition root_of (P : HeapTupleHeaderData -> Prop) v (k : Z) : Prop :=
  link_at v k <> None \/ exists h, tup_at v k = Some h /\ HeapTupleHeaderIsHeapOnly h = false /\ P h.

(** The plan after the line pointers below [cur] were scanned. *)
Record plan_ok (cur : Z) (st : S) v ps : Prop := {
  pl_unused : forall u, u ∈ nowunused ps ->
    exists h, tup_at v u = Some h /\ HeapTupleHeaderIsHeapOnly h = true /\ vl_gone st h;
  pl_root : forall d, d ∈ nowdead ps \/ d ∈ (redirected ps).*1 -> root_of (vl_gone st) v d;
  (** what follows a removed tuple is removed or the target of a redirect *)
  pl_closed : forall u n, u ∈ nowunused ps -> hot_next v u = Some n ->
    n ∈ nowunused ps \/ n ∈ (redirected ps).*2;
  pl_dead : forall d n, d ∈ nowdead ps -> hot_next v d = Some n -> n ∈ nowunused ps;
  (** a redirect skips removed tuples only *)
  pl_redirect : forall j n, (j, n) ∈ redirected ps ->
    exists l, linked v j (l ++ [n]) /\ Forall (fun u => u ∈ nowunused ps) l;
  pl_settled : forall j n h, (j, n) ∈ redirected ps -> tup_at v n = Some h -> vl_settled st h;
  (** a removed tuple that nothing removed leads to is an end *)
  pl_entry : forall x n, n ∈ nowunused ps -> hot_next v x = Some n ->
    x ∈ nowunused ps \/ x ∈ nowdead ps \/ x ∈ (redirected ps).*1 \/ hot_next v n = None;
  (** a redirect that was left alone leads to a tuple that stays *)
  pl_link : forall x n, x < cur -> link_at v x = Some n ->
    x ∈ nowdead ps \/ x ∈ (redirected ps).*1
    \/ (n ∉ nowunused ps /\ exists h, tup_at v n = Some h /\ ~ vl_dead h);
  pl_nodup : NoDup (all_of ps);
  pl_marked : zlen (marked ps) = MaxHeapTuplesPerPage + 1
    /\ forall k, 0 <= k <= MaxHeapTuplesPerPage -> zlookup (marked ps) k = Some (bool_decide (k ∈ all_of ps)) }.

Lemma all_lines cur st v ps k : plan_ok cur st v ps -> k ∈ all_of ps -> exists w, line v k = Some w.
Proof.
  intros Hp. rewrite elem_of_all.
  assert (Htup : forall h, tup_at v k = Some h -> exists w, line v k = Some w).
  { unfold tup_at. intros h. destruct (line v k) as [w|]; [|done]. by exists w. }
  assert (Hroot : root_of (vl_gone st) v k -> exists w, line v k = Some w).
  { intros [H|(h & H & _)]; [|by eapply Htup]. unfold link_at in H. destruct (line v k) as [w|]; [by exists w|done]. }
  intros [H|[H|[H|H]]].
  - destruct (pl_unused _ _ _ _ Hp _ H) as (h & Ht & _). by eapply Htup.
  - apply Hroot. eapply (pl_root _ _ _ _ Hp). by left.
  - apply Hroot. eapply (pl_root _ _ _ _ Hp). by right.
  - apply list_elem_of_fmap in H as ([j n] & -> & Hjn). destruct (pl_redirect _ _ _ _ Hp _ _ Hjn) as (l & Hl & _).
    apply linked_snoc in Hl as [_ Hl]. apply next_tup in Hl as [h Ht]. by eapply Htup.
Qed.

Lemma linked_same v v' x l : Forall (fun y => line v' y = line v y) (x :: l) -> linked v x l -> linked v' x l.
Proof.
  revert x. induction l as [|y l IH]; intros x Hl; [done|]. intros [Hn Hk].
  apply Forall_cons in Hl as [Hx Hl]. split; [|by apply IH].
  apply Forall_cons in Hl as [Hy _]. by eapply hot_next_same.
Qed.

(** Time and hints on tuples outside the plan change nothing. *)
Lemma plan_ok_hints cur st st' v v' ps ps' : plan_ok cur st v ps -> vl_le st st' -> hint_view v v' ->
  (forall k, k ∈ all_of ps -> line v' k = line v k) -> same_plan ps ps' -> plan_ok cur st' v' ps'.
Proof.
  intros [H1 H2 H3 H4 H5 H6 H7 H8 H9 H10] Hle Hv Hsame (E1 & E2 & E3 & E4).
  assert (Eall : all_of ps' = all_of ps) by (unfold all_of; by rewrite E1, E2, E3).
  assert (Htup : forall k, k ∈ all_of ps -> tup_at v' k = tup_at v k) by (intros; by apply tup_at_line, Hsame).
  constructor; rewrite ?Eall, ?E1, ?E2, ?E3, ?E4; try done.
  - intros u Hu. destruct (H1 u Hu) as (h & Ht & Ho & Hg). exists h. rewrite Htup by (apply elem_of_all; auto).
    split_and!; [done|done|by eapply vl_gone_mono].
  - intros d Hd. destruct (H2 d Hd) as [Hl|(h & Ht & Ho & Hg)].
    + left. by rewrite (hint_view_link _ _ _ Hv).
    + right. exists h. rewrite Htup by (apply elem_of_all; tauto). split_and!; [done|done|by eapply vl_gone_mono].
  - intros u n Hu Hn. eapply H3; [done|]. by eapply hint_next.
  - intros d n Hd Hn. eapply H4; [done|]. by eapply hint_next.
  - intros j n Hjn. destruct (H5 j n Hjn) as (l & Hl & Hu). exists l. split; [|done].
    eapply linked_same; [|exact Hl]. constructor; [apply Hsame, elem_of_all|].
    + right; right; left. apply list_elem_of_fmap. by exists (j, n).
    + apply Forall_app. split; [|constructor; [|constructor]].
      * eapply Forall_impl; [exact Hu|]. intros u Huu. apply Hsame, elem_of_all. by left.
      * apply Hsame, elem_of_all. right; right; right. apply list_elem_of_fmap. by exists (j, n).
  - intros j n h Hjn Ht. rewrite Htup in Ht.
    + eapply vl_settled_mono; [done|]. by eapply H6.
    + apply elem_of_all. right; right; right. apply list_elem_of_fmap. by exists (j, n).
  - intros x n Hn Hx. destruct (H7 x n Hn (hint_next _ _ _ _ _ Hv Hx)) as [?|[?|[?|Hnone]]]; [tauto..|].
    right; right; right. destruct (HotChain.hot_next head v' n) as [m|] eqn:Hm; [|done].
    apply (hint_next _ _ _ _ _ Hv) in Hm. congruence.
  - intros x n Hx. rewrite (hint_view_link _ _ _ Hv). intros Hl.
    destruct (H8 x n Hx Hl) as [?|[?|[Hn (h & Ht & Hd)]]]; [tauto..|]. right; right. split; [done|].
    destruct (hint_view_tup _ _ _ _ Hv Ht) as (h' & Ht' & Hs). exists h'. split; [done|]. by rewrite (vl_dead_hint _ _ Hs).
Qed.

(** ** The walk along a chain *)

Definition path v (root : Z) (items : list Z) : Prop :=
  match items with [] => True | x :: l => x = root /\ linked v x l end.
Definition next_of v (root : Z) (items : list Z) (y : Z) : Prop :=
  match items with [] => y = root | x :: l => hot_next v (last_of x l) = Some y end.

Lemma path_snoc v root items y : path v root (items ++ [y]) <-> path v root items /\ next_of v root items y.
Proof. destruct items as [|x l]; simpl; [tauto|]. rewrite linked_snoc. tauto. Qed.

Lemma path_nodup v root items : hot_ok head v -> path v root items -> NoDup items.
Proof. intros Hok. destruct items as [|x l]; [constructor|]. intros [_ Hl]. by eapply linked_nodup. Qed.

Lemma path_same v v' root items : Forall (fun y => line v' y = line v y) items -> path v root items -> path v' root items.
Proof. destruct items as [|x l]; [done|]. intros Hs [-> Hl]. split; [done|]. by eapply linked_same. Qed.

(** What the walk found: no dead tuple, or the last dead one [d]; then the
    tuples up to it are gone. *)
Definition verdict (st : S) v (root : Z) (items : list Z) (c : Chain) : Prop :=
  (latestdead c = InvalidOffsetNumber /\ keepInvisible c = false
   /\ forall n h, link_at v root = Some n -> items !! 1%nat = Some n -> tup_at v n = Some h -> ~ vl_dead h)
  \/ (latestdead c ∈ items
      /\ (exists h, tup_at v (latestdead c) = Some h /\ vl_settled st h)
      /\ (forall a b x h, items = a ++ latestdead c :: b -> x ∈ a ++ [latestdead c] -> tup_at v x = Some h -> vl_gone st h)
      /\ (forall n h, hot_next v (latestdead c) = Some n -> tup_at v n = Some h -> vl_settled st h)).

Record walked (root : Z) (items : list Z) (c : Chain) sc : Prop := {
  wd_base : base_ok sc;
  wd_plan : plan_ok root (sc_state sc) (content sc) (sc_plan sc);
  wd_items : chainitems c = items;
  wd_path : path (content sc) root items;
  wd_fresh : forall x, x ∈ items -> x ∉ all_of (sc_plan sc);
  wd_tuples : forall x, x ∈ items -> x <> root -> exists h, tup_at (content sc) x = Some h;
  wd_verdict : verdict (sc_state sc) (content sc) root items c }.

(** The local variables [offnum] and [prior_xmax] point to the next member. *)
Definition pointed v (root : Z) (items : list Z) (offnum prior : Z) : Prop :=
  match items with
  | [] => offnum = root /\ prior = InvalidTransactionId
  | x :: l =>
      let z := last_of x l in
      (tup_at v z = None /\ link_at v z = Some offnum /\ prior = InvalidTransactionId)
      \/ exists h, tup_at v z = Some h /\ HeapTupleHeaderIsHotUpdated h = true
           /\ offnum = snd (t_ctid h) /\ prior = update_xid head h
  end.

(** The tuple [hy] is the next version of the last member, if that is one. *)
Definition leads v (items : list Z) (hy : HeapTupleHeaderData) : Prop :=
  match items with
  | [] => True
  | x :: l => forall hz, tup_at v (last_of x l) = Some hz ->
      HeapTupleHeaderIsHotUpdated hz = true /\ follows hz hy = true
  end.

(** When a tuple that comes next is gone, all members are. *)
Definition doomed (st : S) v (items : list Z) : Prop :=
  forall hy s2, vl_le st s2 -> vl_tuple s2 hy -> vl_gone s2 hy ->
    leads v items hy ->
    forall x h, x ∈ items -> tup_at v x = Some h -> vl_gone s2 h.

Record walking (root : Z) (items : list Z) (offnum prior : Z) (c : Chain) sc : Prop := {
  wk_walked : walked root items c sc;
  wk_pointed : pointed (content sc) root items offnum prior;
  wk_doomed : doomed (sc_state sc) (content sc) items }.

(** The chain ended: a dead or redirecting last member leads to nothing that is
    not in the plan. *)
Definition ended (root : Z) (items : list Z) (c : Chain) sc : Prop :=
  match items with
  | [] => False
  | x :: l => latestdead c = last_of x l \/ link_at (content sc) (last_of x l) <> None ->
      forall n, hot_next (content sc) (last_of x l) = Some n -> n ∈ all_of (sc_plan sc)
  end.

Lemma pointed_next v root items offnum prior h : pointed v root items offnum prior -> tup_at v offnum = Some h ->
  (TransactionIdIsValid prior && negb (TransactionIdEquals (raw_xmin head h) prior)) = false ->
  next_of v root items offnum /\ leads v items h.
Proof.
  destruct items as [|x l]; [by intros [-> _]|]. simpl. unfold HotChain.hot_next.
  intros [(-> & -> & ->)|(hz & Hz & Hu & -> & ->)] Ht Hx; rewrite ?Hz, ?Hu, Ht.
  - split; [done|]. intros hz [=].
  - assert (Hf : follows hz h = true) by (unfold HotChain.follows; by rewrite Hx).
    rewrite Hf. split; [done|]. intros hz' [= <-]. done.
Qed.

(** No other tuple comes next. *)
Lemma pointed_only v root x l offnum prior n : pointed v root (x :: l) offnum prior ->
  hot_next v (last_of x l) = Some n ->
  n = offnum /\ exists h, tup_at v offnum = Some h
    /\ (TransactionIdIsValid prior && negb (TransactionIdEquals (raw_xmin head h) prior)) = false.
Proof.
  simpl. unfold HotChain.hot_next. intros [(-> & -> & ->)|(hz & -> & -> & -> & ->)].
  - destruct (tup_at v offnum) as [h|]; [|done]. intros [= <-]. split; [done|]. by exists h.
  - destruct (tup_at v (snd (t_ctid hz))) as [h2|] eqn:H2; [|done].
    destruct (HotChain.follows head hz h2) eqn:Hf; [|done]. intros [= <-]. split; [done|]. exists h2.
    split; [done|]. unfold HotChain.follows in Hf. by apply negb_true_iff in Hf.
Qed.

Lemma verdict_hints st st' v v' root items c : vl_le st st' -> hint_view v v' ->
  (forall x, x ∈ items -> line v' x = line v x) -> verdict st v root items c -> verdict st' v' root items c.
Proof.
  intros Hle Hv Hs. assert (Ht : forall x, x ∈ items -> tup_at v' x = tup_at v x) by (intros; by apply tup_at_line, Hs).
  intros [(H1 & H2 & H3)|(H1 & (hd & H2 & H3) & H4 & H5)]; [left|right].
  - split_and!; [done|done|]. intros n h. rewrite (hint_view_link _ _ _ Hv). intros Hl Hi.
    rewrite Ht by (by eapply list_elem_of_lookup_2). by eapply H3.
  - split_and!; [done| | |].
    + exists hd. rewrite Ht by done. split; [done|by eapply vl_settled_mono].
    + intros a b x h Hab Hx. rewrite Ht.
      * intros Hh. eapply vl_gone_mono; [done|by eapply H4].
      * rewrite Hab. rewrite elem_of_app in Hx |- *. rewrite list_elem_of_singleton in Hx. set_solver.
    + intros n h' Hn Hh'. destruct (hint_view_tup_inv _ _ _ _ Hv Hh') as (h & Hh & Hstep).
      eapply vl_settled_hint; [done|]. eapply vl_settled_mono; [done|]. eapply H5; [|done]. by eapply hint_next.
Qed.

Lemma walked_hints root items c y sc sc' : walked root items c sc -> base_ok sc' -> hints_on (eq y) sc sc' ->
  y ∉ all_of (sc_plan sc) -> y ∉ items -> same_plan (sc_plan sc) (sc_plan sc') -> walked root items c sc'.
Proof.
  intros [Hb Hp Hi Hpath Hf Ht Hv] Hb' Hh Hy Hyi Hsame.
  assert (Hs : forall x, x <> y -> line (content sc') x = line (content sc) x).
  { intros x Hx. apply Hh. congruence. }
  assert (Hsi : forall x, x ∈ items -> line (content sc') x = line (content sc) x) by (intros x Hx; apply Hs; congruence).
  constructor; try done.
  - eapply plan_ok_hints; [exact Hp|apply Hh|apply Hh| |exact Hsame]. intros k Hk. apply Hs. congruence.
  - eapply path_same; [|exact Hpath]. by apply Forall_forall.
  - destruct Hsame as (E1 & E2 & E3 & _). intros x Hx. unfold all_of. rewrite E1, E2, E3. by apply Hf.
  - intros x Hx Hne. rewrite (tup_at_line _ _ _ (Hsi x Hx)). by apply Ht.
  - eapply verdict_hints; [apply Hh|apply Hh|done|done].
Qed.

Lemma pointed_same v v' root items offnum prior : (forall x, x ∈ items -> line v' x = line v x) ->
  pointed v root items offnum prior -> pointed v' root items offnum prior.
Proof.
  intros Hs. destruct items as [|x l]; [done|]. simpl.
  pose proof (last_of_in x l) as Hin.
  rewrite (tup_at_line _ _ _ (Hs _ Hin)). unfold link_at. by rewrite (Hs _ Hin).
Qed.

Lemma leads_same v v' items hy : (forall x, x ∈ items -> line v' x = line v x) -> leads v' items hy -> leads v items hy.
Proof.
  intros Hs. destruct items as [|x l]; [done|]. simpl. by rewrite (tup_at_line _ _ _ (Hs _ (last_of_in x l))).
Qed.

Lemma leads_snoc v items y hy : leads v (items ++ [y]) hy <-> forall hz, tup_at v y = Some hz ->
  HeapTupleHeaderIsHotUpdated hz = true /\ follows hz hy = true.
Proof. destruct items as [|x l]; simpl; [done|]. by rewrite last_of_snoc. Qed.

Lemma ended_snoc root items y c sc : ended root (items ++ [y]) c sc <->
  (latestdead c = y \/ link_at (content sc) y <> None ->
   forall n, hot_next (content sc) y = Some n -> n ∈ all_of (sc_plan sc)).
Proof. destruct items as [|x l]; simpl; [done|]. by rewrite last_of_snoc. Qed.

Lemma pointed_snoc v root items y h : tup_at v y = Some h -> HeapTupleHeaderIsHotUpdated h = true ->
  pointed v root (items ++ [y]) (snd (t_ctid h)) (update_xid head h).
Proof. intros. destruct items as [|x l]; simpl; rewrite ?last_of_snoc; right; by exists h. Qed.

(** A member [y] was visited: the walk goes on, or ended. *)
Section Visit.
Context (root : Z) (items : list Z) (y prior : Z) (c : Chain) (sc : Scan S) (h : HeapTupleHeaderData).
Context (Hw : walking root items y prior c sc) (Hy : tup_at (content sc) y = Some h)
  (Hprior : (TransactionIdIsValid prior && negb (TransactionIdEquals (raw_xmin head h) prior)) = false)
  (Hfresh : y ∉ all_of (sc_plan sc)).
Context (next : option (Z * Z)) (c' : Chain) (sc' : Scan S) (h' : HeapTupleHeaderData)
  (Hv : visit_post y h (MkChain (items ++ [y]) (latestdead c) (keepInvisible c)) sc next c' sc' h').

Lemma visit_not_member : y ∉ items.
Proof.
  destruct Hw as [[Hb _ _ Hpath _ _ _] Hpt _]. destruct (pointed_next _ _ _ _ _ _ Hpt Hy Hprior) as [Hn _].
  assert (Hnd : NoDup (items ++ [y])).
  { eapply path_nodup; [apply (b_hot _ Hb)|]. by apply path_snoc. }
  apply NoDup_app in Hnd as (_ & Hnd & _). intros Hin. apply (Hnd _ Hin). by left.
Qed.

Lemma visit_before : walked root items c sc'.
Proof.
  eapply walked_hints; [apply Hw|apply Hv|apply Hv|done|apply visit_not_member|apply Hv].
Qed.

Lemma visit_lines x : x ∈ items -> line (content sc') x = line (content sc) x.
Proof. intros Hx. apply (vp_hints _ _ _ _ _ _ _ _ Hv). pose proof visit_not_member. congruence. Qed.

Lemma visit_next : next_of (content sc') root items y /\ leads (content sc') items h'.
Proof.
  eapply pointed_next; [|apply Hv|].
  - eapply pointed_same; [apply visit_lines|apply Hw].
  - rewrite (hint_raw_xmin _ _ _ (vp_step _ _ _ _ _ _ _ _ Hv)). exact Hprior.
Qed.

(** When the visited tuple is gone, all members are. *)
Lemma visit_doom s2 : vl_le (sc_state sc') s2 -> vl_gone s2 h' -> forall x hx, x ∈ items ++ [y] ->
  tup_at (content sc') x = Some hx -> vl_gone s2 hx.
Proof.
  intros Hle Hg x hx Hx Htx. apply elem_of_app in Hx as [Hx| ->%list_elem_of_singleton].
  - assert (Hle0 : vl_le (sc_state sc) s2) by (etrans; [apply Hv|done]).
    rewrite (tup_at_line _ _ _ (visit_lines x Hx)) in Htx.
    apply (wk_doomed _ _ _ _ _ _ Hw h' s2 Hle0) with (x := x); try done.
    + eapply vl_tuple_mono; [exact Hle|]. eapply (b_tuples _ (vp_base _ _ _ _ _ _ _ _ Hv)). apply Hv.
    + eapply leads_same; [apply visit_lines|apply visit_next].
  - rewrite (vp_tuple _ _ _ _ _ _ _ _ Hv) in Htx. by injection Htx as <-.
Qed.

Lemma visit_verdict : verdict (sc_state sc') (content sc') root (items ++ [y]) c'.
Proof.
  destruct visit_next as [Hn _]. pose proof (vp_tuple _ _ _ _ _ _ _ _ Hv) as Hty.
  destruct (vp_verdict _ _ _ _ _ _ _ _ Hv) as [(E1 & E2 & Halive & _)|(E1 & Hg & Hset & Hnext & _)].
  - pose proof (wd_verdict _ _ _ _ visit_before) as Hold. unfold verdict in *. rewrite E1, E2. cbn [latestdead keepInvisible].
    destruct Hold as [(H1 & H2 & H3)|(H1 & H2 & H4 & H5)]; [left|right].
    + split_and!; [done|done|]. intros n hn Hl Hi Htn.
      apply lookup_snoc_Some in Hi as [[_ Hi]|[_ <-]].
      * by eapply H3.
      * rewrite Hty in Htn. injection Htn as <-.
        rewrite (vl_dead_hint _ _ (vp_step _ _ _ _ _ _ _ _ Hv)). apply Halive.
        rewrite (hint_view_link _ _ _ (hi_view _ _ _ (vp_hints _ _ _ _ _ _ _ _ Hv))) in Hl.
        by eapply (b_links _ (wd_base _ _ _ _ (wk_walked _ _ _ _ _ _ Hw))).
    + split_and!; [by apply elem_of_app; left|done| |done].
      intros a b x hx Hab Hx. destruct b as [|w b _] using rev_ind.
      * apply app_inj_tail in Hab as [_ Hab]. pose proof visit_not_member. congruence.
      * rewrite app_comm_cons, app_assoc in Hab. apply app_inj_tail in Hab as [Hab _]. by eapply H4.
  - right. rewrite E1. split_and!; [by apply elem_of_app; right; left|by exists h'| |].
    + intros a b x hx Hab Hx. apply (visit_doom (sc_state sc')); [done|done|]. rewrite Hab.
      rewrite elem_of_app in Hx |- *. rewrite list_elem_of_singleton in Hx. set_solver.
    + intros n hn Hyn Htn. unfold HotChain.hot_next in Hyn. rewrite Hty in Hyn.
      destruct (HeapTupleHeaderIsHotUpdated h') eqn:Hu; [|done].
      destruct (tup_at (content sc') (snd (t_ctid h'))) as [h2|] eqn:H2; [|done].
      destruct (HotChain.follows head h' h2) eqn:Hf; [|done]. injection Hyn as <-.
      rewrite H2 in Htn. injection Htn as <-. by apply Hnext.
Qed.

Lemma visit_walked : walked root (items ++ [y]) c' sc'.
Proof.
  pose proof visit_before as [Hb Hp _ Hpath Hf Ht _]. destruct visit_next as [Hn _].
  destruct (vp_plan _ _ _ _ _ _ _ _ Hv) as (E1 & E2 & E3 & _).
  constructor; [done|done| | | | |apply visit_verdict].
  - by rewrite (vp_items _ _ _ _ _ _ _ _ Hv).
  - by apply path_snoc.
  - intros x Hx. apply elem_of_app in Hx as [Hx| ->%list_elem_of_singleton]; [by apply Hf|].
    unfold all_of. by rewrite E1, E2, E3.
  - intros x Hx Hne. apply elem_of_app in Hx as [Hx| ->%list_elem_of_singleton]; [by apply Ht|].
    exists h'. apply Hv.
Qed.

Lemma visit_ended : next = None -> ended root (items ++ [y]) c' sc'.
Proof.
  intros Hnext. pose proof (vp_tuple _ _ _ _ _ _ _ _ Hv) as Hty.
  apply ended_snoc. intros [Hld|Hld] n Hn.
  - destruct (vp_verdict _ _ _ _ _ _ _ _ Hv) as [(E1 & _)|(_ & _ & _ & _ & Hhot)].
    + exfalso. cbn in E1. rewrite Hld in E1.
      pose proof (wd_verdict _ _ _ _ (wk_walked _ _ _ _ _ _ Hw)) as [(H1 & _)|(H1 & _)].
      * rewrite H1 in E1. unfold tup_at in Hy. destruct (line (content sc) y) as [w|] eqn:Hl; [|done].
        apply line_range in Hl. unfold InvalidOffsetNumber in E1. lia.
      * rewrite <- E1 in H1. by apply visit_not_member.
    + unfold HotChain.hot_next in Hn. by rewrite Hty, Hhot in Hn.
  - exfalso. apply Hld. unfold link_at, tup_at in *. destruct (line (content sc') y) as [[]|]; done.
Qed.

Lemma visit_walking o p : next = Some (o, p) -> walking root (items ++ [y]) o p c' sc'.
Proof.
  intros Hnext. destruct (vp_next _ _ _ _ _ _ _ _ Hv) as [?|[Hu Hn]]; [congruence|].
  rewrite Hnext in Hn. injection Hn as -> ->. pose proof (vp_tuple _ _ _ _ _ _ _ _ Hv) as Hty.
  constructor; [apply visit_walked| |].
  - by apply pointed_snoc.
  - intros hy s2 Hle Htup Hg Hlast x hx Hx Htx.
    assert (Hf : follows h' hy = true).
    { eapply leads_snoc; done. }
    eapply visit_doom; [exact Hle| |exact Hx|exact Htx].
    destruct (vp_verdict _ _ _ _ _ _ _ _ Hv) as [(_ & _ & _ & Hlaw)|(_ & Hgy & _)].
    + apply (Hlaw ltac:(congruence) hy); done.
    + by eapply vl_gone_mono.
Qed.
End Visit.

Lemma nodup_bound (l : list Z) n : NoDup l -> (forall x, x ∈ l -> 1 <= x <= n) -> zlen l <= Z.max 0 n.
Proof.
  intros Hnd Hin. assert (Hs : l ⊆+ seqZ 1 n).
  { apply NoDup_submseteq; [done|]. intros x Hx. apply elem_of_seqZ. specialize (Hin x Hx). lia. }
  apply submseteq_length in Hs. rewrite length_seqZ in Hs. unfold zlen. lia.
Qed.

Lemma pwp_marked cur k (Q : bool -> Scan S -> Prop) sc : plan_ok cur (sc_state sc) (content sc) (sc_plan sc) ->
  0 <= k <= MaxHeapTuplesPerPage -> Q (bool_decide (k ∈ all_of (sc_plan sc))) sc -> pwp (is_marked k) Q sc.
Proof.
  intros Hp Hk HQ. unfold is_marked. apply pwp_bind. cbn. eapply pwp_lift; [|exact HQ].
  by rewrite (proj2 (pl_marked _ _ _ _ Hp)).
Qed.

Lemma pwp_push items c offnum (Q : Chain -> Scan S -> Prop) sc : chainitems c = items -> zlen items < MaxHeapTuplesPerPage ->
  Q (MkChain (items ++ [offnum]) (latestdead c) (keepInvisible c)) sc -> pwp (chain_push offnum c) Q sc.
Proof.
  intros Hi Hlen HQ. unfold chain_push. rewrite Hi. destruct (Z.leb_spec MaxHeapTuplesPerPage (zlen items)); [lia|].
  by apply pwp_ret.
Qed.

(** The first member is a redirect or a tuple. *)
Definition starts v (root : Z) : Prop := link_at v root <> None \/ exists h, tup_at v root = Some h.

Lemma starts_line v root : starts v root -> exists w, line v root = Some w.
Proof. unfold starts, link_at, tup_at. destruct (line v root) as [w|]; [by exists w|]. intros [H|(h & H)]; done. Qed.

Lemma starts_hint v v' root : hint_view v v' -> starts v root -> starts v' root.
Proof.
  intros Hv [H|(h & H)]; [left; by rewrite (hint_view_link _ _ _ Hv)|right].
  destruct (hint_view_tup _ _ _ _ Hv H) as (h' & ? & _). by exists h'.
Qed.

Lemma members_bound root items c sc : walked root items c sc -> starts (content sc) root ->
  forall x, x ∈ items -> 1 <= x <= zlen (pd_linp (page_of sc)).
Proof.
  intros Hw Hs x Hx. rewrite <- zlen_view. assert (H : exists w, line (content sc) x = Some w).
  { destruct (decide (x = root)) as [->|Hne]; [by apply starts_line|].
    destruct (wd_tuples _ _ _ _ Hw x Hx Hne) as (h & Ht). unfold tup_at in Ht.
    destruct (line (content sc) x) as [w|]; [by exists w|done]. }
  destruct H as [w Hl]. by eapply line_range.
Qed.

Lemma room_for root items c sc y : walked root items c sc -> starts (content sc) root ->
  next_of (content sc) root items y -> zlen items < MaxHeapTuplesPerPage.
Proof.
  intros Hw Hs Hn. pose proof (wd_base _ _ _ _ Hw) as Hb.
  assert (Hnd : NoDup (items ++ [y])).
  { eapply path_nodup; [apply (b_hot _ Hb)|]. apply path_snoc. split; [apply Hw|done]. }
  assert (Hin : forall x, x ∈ items ++ [y] -> 1 <= x <= zlen (pd_linp (page_of sc))).
  { intros x Hx. apply elem_of_app in Hx as [Hx| ->%list_elem_of_singleton]; [by eapply members_bound|].
    rewrite <- zlen_view. destruct items as [|z l].
    - simpl in Hn. subst y. destruct (starts_line _ _ Hs) as [w Hl]. by eapply line_range.
    - apply next_tup in Hn as [h Ht]. unfold tup_at in Ht. destruct (line (content sc) y) as [w|] eqn:Hl; [|done].
      by eapply line_range. }
  pose proof (nodup_bound _ _ Hnd Hin) as Hlen. pose proof (b_lines _ Hb). rewrite zlen_app in Hlen.
  change (zlen [y]) with 1 in Hlen. pose proof (zlen_nonneg items). lia.
Qed.

(** The walk stops where nothing unplanned comes next. *)
Lemma walk_stops root items offnum prior c sc : walking root items offnum prior c sc -> items <> [] ->
  (forall h, tup_at (content sc) offnum = Some h ->
     (TransactionIdIsValid prior && negb (TransactionIdEquals (raw_xmin head h) prior)) = true
     \/ offnum ∈ all_of (sc_plan sc)) ->
  ended root items c sc.
Proof.
  intros [_ Hpt _] Hne Hstop. destruct items as [|x l]; [done|]. intros _ n Hn.
  destruct (pointed_only _ _ _ _ _ _ _ Hpt Hn) as (-> & h & Ht & Hx).
  destruct (Hstop h Ht) as [?|?]; [congruence|done].
Qed.

Lemma walk_redirect root offnum prior c sc n : walking root [] offnum prior c sc -> link_at (content sc) root = Some n ->
  root ∉ all_of (sc_plan sc) ->
  walking root [root] n InvalidTransactionId (MkChain [root] (latestdead c) (keepInvisible c)) sc.
Proof.
  intros [[Hb Hp Hi Hpath Hf Ht Hv] Hpt _] Hl Hfresh.
  assert (Hnt : tup_at (content sc) root = None).
  { unfold link_at, tup_at in *. by destruct (line (content sc) root) as [[]|]. }
  constructor; [constructor; try done| |].
  - intros x ->%list_elem_of_singleton. done.
  - intros x ->%list_elem_of_singleton. done.
  - destruct Hv as [(H1 & H2 & _)|(H1 & _)]; [left|by apply not_elem_of_nil in H1]. by split_and!.
  - simpl. left. by split_and!.
  - intros hy s2 _ _ _ _ x h ->%list_elem_of_singleton. by rewrite Hnt.
Qed.

(** The tests on a line pointer against its content. *)
Lemma lp_tests sc k lp : base_ok sc -> tuple_lp sc k lp -> 1 <= k ->
  line_tests (page_of sc) k lp.
Proof. intros Hb Hlp Hk. apply line_tests_ok; [apply Hb|apply (ho_items _ _ (b_hot _ Hb))|done|done]. Qed.

Lemma pwp_follow root rootlp fuel : forall items offnum prior c sc (Q : Chain -> Scan S -> Prop),
  walking root items offnum prior c sc -> starts (content sc) root -> tuple_lp sc root rootlp ->
  root ∉ all_of (sc_plan sc) -> MaxHeapTuplesPerPage + 1 <= Z.of_nat fuel + zlen items ->
  (forall items' c' sc', walked root items' c' sc' -> ended root items' c' sc' ->
     hints_on (fun _ => True) sc sc' -> same_plan (sc_plan sc) (sc_plan sc') -> Q c' sc') ->
  pwp (follow_chain blkno OldestXmin fuel rootlp offnum prior c) Q sc.
Proof.
  induction fuel as [|fuel IH]; intros items offnum prior c sc Q Hw Hst Hrlp Hroot Hfuel HQ.
  { exfalso. pose proof (members_bound _ _ _ _ (wk_walked _ _ _ _ _ _ Hw) Hst) as Hin.
    pose proof (wk_walked _ _ _ _ _ _ Hw) as Hwd. pose proof (wd_base _ _ _ _ Hwd) as Hb.
    pose proof (nodup_bound _ _ (path_nodup _ _ _ (b_hot _ Hb) (wd_path _ _ _ _ Hwd)) Hin).
    pose proof (b_lines _ Hb). pose proof (zlen_nonneg (pd_linp (page_of sc))). lia. }
  cbn [follow_chain]. pose proof (wk_walked _ _ _ _ _ _ Hw) as Hwd. pose proof (wd_base _ _ _ _ Hwd) as Hb.
  assert (Hout : (forall h, tup_at (content sc) offnum = Some h ->
     (TransactionIdIsValid prior && negb (TransactionIdEquals (raw_xmin head h) prior)) = true
     \/ offnum ∈ all_of (sc_plan sc)) -> items <> [] -> pwp (mret c) Q sc).
  { intros Hstop Hne. apply pwp_ret, (HQ items); [done|by eapply walk_stops|apply hints_on_refl|done]. }
  assert (Hempty : items = [] -> offnum = root /\ prior = InvalidTransactionId).
  { intros ->. apply (wk_pointed _ _ _ _ _ _ Hw). }
  apply pwp_bind. cbn. apply pwp_bind. cbn. rewrite (max_offset _ (b_page _ Hb)), (b_head _ Hb).
  unfold FirstOffsetNumber. destruct ((offnum <? 1) || (zlen (pd_linp (page_of sc)) <? offnum)) eqn:Hrange.
  { assert (Hno : forall w, line (content sc) offnum <> Some w).
    { intros w Hl%line_range. rewrite zlen_view in Hl. apply orb_true_iff in Hrange. lia. }
    apply Hout.
    - intros h. unfold tup_at. destruct (line (content sc) offnum) as [w|] eqn:Hl; [by destruct (Hno w)|done].
    - intros ->. destruct (Hempty eq_refl) as [-> _]. destruct (starts_line _ _ Hst) as [w Hl]. by apply (Hno w). }
  apply orb_false_iff in Hrange as [Hr1 Hr2]. apply Z.ltb_ge in Hr1, Hr2. pose proof (b_lines _ Hb) as Hlines.
  apply pwp_bind. eapply pwp_marked; [apply Hwd|lia|].
  case_bool_decide as Hmark.
  { apply Hout; [by auto|]. intros ->. destruct (Hempty eq_refl) as [-> _]. done. }
  apply pwp_bind. destruct (line_in (page_of sc) offnum ltac:(lia)) as [w Hl].
  eapply pwp_item; [exact Hl|]. intros lp Hlp Hwv. pose proof (lp_tests sc offnum lp Hb Hlp Hr1) as Htests. unfold line_tests in Htests.
  destruct (view (pd_data (page_of sc)) lp) as [|f off|f bytes] eqn:Hvw.
  - destruct Htests as (-> & Hnt & Hnl). cbn [negb]. apply Hout; [by intros h; rewrite Hnt|].
    intros ->. destruct (Hempty eq_refl) as [-> _]. destruct Hst as [?|(h & ?)]; congruence.
  - destruct Htests as (-> & _ & Hnt & Hcase). cbn [negb].
    destruct Hcase as [(-> & _ & Hlk)|(-> & -> & Hlk)].
    + destruct (Z.ltb_spec 0 (zlen (chainitems c))) as [Hlen|Hlen].
      { apply Hout; [by intros h; rewrite Hnt|]. intros ->. rewrite (wd_items _ _ _ _ Hwd) in Hlen. done. }
      assert (items = []) as ->.
      { rewrite (wd_items _ _ _ _ Hwd) in Hlen. destruct items; [done|]. unfold zlen in Hlen. cbn in Hlen. lia. }
      destruct (Hempty eq_refl) as [-> ->].
      assert (lp = rootlp) as -> by (unfold tuple_lp in Hrlp; congruence).
      apply pwp_bind. eapply (pwp_push []); [apply (wd_items _ _ _ _ Hwd)|change (zlen (@nil Z)) with 0; lia|].
      eapply (IH [root]); [by eapply walk_redirect|done|done|done| |exact HQ].
      change (zlen [root]) with 1. change (zlen (@nil Z)) with 0 in Hfuel. lia.
    + apply Hout; [by intros h; rewrite Hnt|]. intros ->. destruct (Hempty eq_refl) as [-> _].
      destruct Hst as [?|(h & ?)]; congruence.
  - destruct Htests as (-> & _ & -> & -> & Hnl & h & Ht). cbn [negb].
    apply pwp_bind. eapply (pwp_header offnum); [done..|].
    change (HeapTupleGetRawXmin (htup_at head (blkno, offnum)) h) with (raw_xmin head h).
    destruct (TransactionIdIsValid prior && negb (TransactionIdEquals (raw_xmin head h) prior)) eqn:Hx.
    { apply Hout; [intros h0 Hh0; left; congruence|]. intros ->. by destruct (Hempty eq_refl) as [_ ->]. }
    destruct (pointed_next _ _ _ _ _ _ (wk_pointed _ _ _ _ _ _ Hw) Ht Hx) as [Hn _].
    apply pwp_bind. eapply (pwp_push items); [apply Hwd|by eapply room_for|].
    apply pwp_bind. eapply (pwp_visit offnum); [done|done|exact Ht|]. intros next c' sc' h' Hv.
    pose proof (visit_walked _ _ _ _ _ _ _ Hw Ht Hx Hmark _ _ _ _ Hv) as Hwd'.
    assert (Hh : hints_on (fun _ => True) sc sc') by (eapply hints_on_weaken; [|apply Hv]; done).
    pose proof (vp_plan _ _ _ _ _ _ _ _ Hv) as Hsame.
    destruct next as [[o p]|].
    + eapply (IH (items ++ [offnum])).
      * by eapply visit_walking.
      * eapply starts_hint; [apply Hh|done].
      * by eapply tuple_lp_hints.
      * destruct Hsame as (E1 & E2 & E3 & _). unfold all_of. by rewrite E1, E2, E3.
      * rewrite zlen_app. change (zlen [offnum]) with 1. lia.
      * intros items2 c2 sc2 H1 H2 H3 H4. apply (HQ items2); [done|done| |by eapply same_plan_trans].
        by eapply hints_on_trans.
    + apply pwp_ret, (HQ (items ++ [offnum])); [done| |done|done]. by eapply visit_ended.
Qed.

(** ** Recording *)

(** The arrays of the plan. *)
Record arrays_ok v ps : Prop := {
  ar_lines : forall k, k ∈ all_of ps -> 1 <= k <= zlen v;
  ar_nodup : NoDup (all_of ps);
  ar_size : zlen (marked ps) = MaxHeapTuplesPerPage + 1;
  ar_marked : forall k, 0 <= k <= MaxHeapTuplesPerPage -> zlookup (marked ps) k = Some (bool_decide (k ∈ all_of ps)) }.

Lemma plan_arrays cur st v ps : plan_ok cur st v ps -> arrays_ok v ps.
Proof.
  intros Hp. constructor; try apply Hp. intros k Hk. destruct (all_lines _ _ _ _ _ Hp Hk) as [w Hl].
  by eapply line_range.
Qed.

Section Record.
Context (v : list lp_view) (Hv : zlen v <= MaxHeapTuplesPerPage).

Lemma count_bound ps k l : arrays_ok v ps -> k ∉ all_of ps -> 1 <= k <= zlen v ->
  (forall x, x ∈ l -> x ∈ all_of ps) -> NoDup l -> zlen l < MaxHeapTuplesPerPage.
Proof.
  intros Ha Hk Hr Hl Hnd. assert (H : zlen (k :: l) <= Z.max 0 (zlen v)).
  { apply nodup_bound; [constructor; [by intros ?%Hl|done]|]. intros x [->|Hx]%elem_of_cons; [done|]. by apply Ha, Hl. }
  rewrite zlen_cons in H. lia.
Qed.

Lemma all_nodup ps : NoDup (all_of ps) ->
  NoDup (nowunused ps) /\ NoDup (nowdead ps) /\ NoDup (redirected ps).*1 /\ NoDup (redirected ps).*2.
Proof. unfold all_of. rewrite !NoDup_app. tauto. Qed.

(** The entry of [marked] for one more line pointer. *)
Lemma mark_one m k (P Q : Z -> Prop) `{forall x, Decision (P x)} `{forall x, Decision (Q x)} :
  zlen m = MaxHeapTuplesPerPage + 1 ->
  (forall x, 0 <= x <= MaxHeapTuplesPerPage -> zlookup m x = Some (bool_decide (P x))) ->
  1 <= k <= zlen v -> (forall x, Q x <-> x = k \/ P x) ->
  exists m', zupdate m k true = Some m' /\ zlen m' = MaxHeapTuplesPerPage + 1
    /\ forall x, 0 <= x <= MaxHeapTuplesPerPage -> zlookup m' x = Some (bool_decide (Q x)).
Proof.
  intros Hlen Hm Hk HQ. exists (zset m k true). split; [apply zupdate_in; lia|]. rewrite zlen_zset. split; [done|].
  intros x Hx. rewrite zlookup_zset by lia. case_decide as He.
  - subst x. f_equal. symmetry. apply bool_decide_eq_true, HQ. by left.
  - rewrite Hm by done. f_equal. apply bool_decide_ext. rewrite HQ. intuition congruence.
Qed.

Lemma pwp_record_unused u (Q : unit -> Scan S -> Prop) sc : arrays_ok v (sc_plan sc) -> u ∉ all_of (sc_plan sc) ->
  1 <= u <= zlen v ->
  (forall ps', arrays_ok v ps' -> redirected ps' = redirected (sc_plan sc) -> nowdead ps' = nowdead (sc_plan sc) ->
     nowunused ps' = nowunused (sc_plan sc) ++ [u] -> Q tt (MkScan (sc_state sc) (sc_heap sc) ps')) ->
  pwp (heap_prune_record_unused u) Q sc.
Proof.
  intros Ha Hu Hr HQ. unfold heap_prune_record_unused. apply pwp_bind. cbn.
  destruct (all_nodup _ (ar_nodup _ _ Ha)) as (Hnd & _).
  pose proof (count_bound _ _ _ Ha Hu Hr (fun x Hx => proj2 (elem_of_all _ _) (or_introl Hx)) Hnd).
  destruct (Z.leb_spec MaxHeapTuplesPerPage (zlen (nowunused (sc_plan sc)))); [lia|]. apply pwp_bind.
  destruct (mark_one _ u _ (fun x => x = u \/ x ∈ all_of (sc_plan sc)) (ar_size _ _ Ha) (ar_marked _ _ Ha) Hr ltac:(done))
    as (m' & Hm & Hl & Hlk).
  eapply pwp_lift; [unfold mark; by rewrite Hm|]. unfold pwp, put_plan. apply HQ; try done.
  assert (He : all_of (MkPrune (new_prune_xid (sc_plan sc)) (latestRemovedXid (sc_plan sc)) (redirected (sc_plan sc))
    (nowdead (sc_plan sc)) (nowunused (sc_plan sc) ++ [u]) m') ≡ₚ u :: all_of (sc_plan sc)).
  { unfold all_of. cbn. rewrite <- app_assoc. cbn. by rewrite <- Permutation_middle. }
  constructor; cbn [marked].
  - intros k. rewrite He, elem_of_cons. intros [->|Hk]; [done|by apply Ha].
  - rewrite He. constructor; [done|apply Ha].
  - done.
  - intros k Hk. rewrite Hlk by done. f_equal. apply bool_decide_ext. by rewrite He, elem_of_cons.
Qed.

Lemma pwp_record_dead d (Q : unit -> Scan S -> Prop) sc : arrays_ok v (sc_plan sc) -> d ∉ all_of (sc_plan sc) ->
  1 <= d <= zlen v ->
  (forall ps', arrays_ok v ps' -> redirected ps' = redirected (sc_plan sc) -> nowdead ps' = nowdead (sc_plan sc) ++ [d] ->
     nowunused ps' = nowunused (sc_plan sc) -> Q tt (MkScan (sc_state sc) (sc_heap sc) ps')) ->
  pwp (heap_prune_record_dead d) Q sc.
Proof.
  intros Ha Hu Hr HQ. unfold heap_prune_record_dead. apply pwp_bind. cbn.
  destruct (all_nodup _ (ar_nodup _ _ Ha)) as (_ & Hnd & _).
  pose proof (count_bound _ _ _ Ha Hu Hr (fun x Hx => proj2 (elem_of_all _ _) (or_intror (or_introl Hx))) Hnd).
  destruct (Z.leb_spec MaxHeapTuplesPerPage (zlen (nowdead (sc_plan sc)))); [lia|]. apply pwp_bind.
  destruct (mark_one _ d _ (fun x => x = d \/ x ∈ all_of (sc_plan sc)) (ar_size _ _ Ha) (ar_marked _ _ Ha) Hr ltac:(done))
    as (m' & Hm & Hl & Hlk).
  eapply pwp_lift; [unfold mark; by rewrite Hm|]. unfold pwp, put_plan. apply HQ; try done.
  assert (He : all_of (MkPrune (new_prune_xid (sc_plan sc)) (latestRemovedXid (sc_plan sc)) (redirected (sc_plan sc))
    (nowdead (sc_plan sc) ++ [d]) (nowunused (sc_plan sc)) m') ≡ₚ d :: all_of (sc_plan sc)).
  { unfold all_of. cbn. rewrite <- app_assoc. cbn. by rewrite <- !Permutation_middle. }
  constructor; cbn [marked].
  - intros k. rewrite He, elem_of_cons. intros [->|Hk]; [done|by apply Ha].
  - rewrite He. constructor; [done|apply Ha].
  - done.
  - intros k Hk. rewrite Hlk by done. f_equal. apply bool_decide_ext. by rewrite He, elem_of_cons.
Qed.

Lemma pwp_record_redirect j n (Q : unit -> Scan S -> Prop) sc : arrays_ok v (sc_plan sc) -> j ∉ all_of (sc_plan sc) ->
  n ∉ all_of (sc_plan sc) -> j <> n -> 1 <= j <= zlen v -> 1 <= n <= zlen v ->
  (forall ps', arrays_ok v ps' -> redirected ps' = redirected (sc_plan sc) ++ [(j, n)] ->
     nowdead ps' = nowdead (sc_plan sc) ->
     nowunused ps' = nowunused (sc_plan sc) -> Q tt (MkScan (sc_state sc) (sc_heap sc) ps')) ->
  pwp (heap_prune_record_redirect j n) Q sc.
Proof.
  intros Ha Hj Hn Hne Hrj Hrn HQ. unfold heap_prune_record_redirect. apply pwp_bind. cbn.
  destruct (all_nodup _ (ar_nodup _ _ Ha)) as (_ & _ & Hnd & _).
  assert (Hc : zlen (redirected (sc_plan sc)).*1 < MaxHeapTuplesPerPage).
  { apply (count_bound _ _ _ Ha Hj Hrj); [|done]. intros x Hx. apply elem_of_all. tauto. }
  unfold zlen in Hc. rewrite length_fmap in Hc. fold (zlen (redirected (sc_plan sc))) in Hc.
  destruct (Z.leb_spec MaxHeapTuplesPerPage (zlen (redirected (sc_plan sc)))); [lia|]. apply pwp_bind.
  destruct (mark_one _ j _ (fun x => x = j \/ x ∈ all_of (sc_plan sc)) (ar_size _ _ Ha) (ar_marked _ _ Ha) Hrj ltac:(done))
    as (m1 & Hm1 & Hl1 & Hlk1).
  eapply pwp_lift; [unfold mark; by rewrite Hm1|]. apply pwp_bind.
  destruct (mark_one m1 n (fun x => x = j \/ x ∈ all_of (sc_plan sc)) (fun x => x = n \/ (x = j \/ x ∈ all_of (sc_plan sc)))
    Hl1 Hlk1 Hrn ltac:(done)) as (m2 & Hm2 & Hl2 & Hlk2).
  eapply pwp_lift; [by rewrite Hm2|]. unfold pwp, put_plan. apply HQ; try done.
  assert (He : all_of (MkPrune (new_prune_xid (sc_plan sc)) (latestRemovedXid (sc_plan sc))
    (redirected (sc_plan sc) ++ [(j, n)]) (nowdead (sc_plan sc)) (nowunused (sc_plan sc)) m2)
    ≡ₚ n :: j :: all_of (sc_plan sc)).
  { unfold all_of. cbn. rewrite !fmap_app, <- !app_assoc. cbn.
    rewrite (Permutation_app_comm (redirected (sc_plan sc)).*2 [n]). cbn.
    rewrite <- !Permutation_middle. first [done|apply Permutation_swap]. }
  constructor; cbn [marked].
  - intros k. rewrite He, !elem_of_cons. intros [->|[->|Hk]]; [done|done|by apply Ha].
  - rewrite He. constructor; [by rewrite elem_of_cons; intros [->|?]|]. constructor; [done|apply Ha].
  - done.
  - intros k Hk. rewrite Hlk2 by done. f_equal. apply bool_decide_ext. by rewrite He, !elem_of_cons.
Qed.

(** The loop over the members: those after the first up to the last dead one,
    or up to the one that is kept. *)
Lemma pwp_remove_dead c fuel : forall pre x post i ndel sc (Q : Z * Z -> Scan S -> Prop),
  chainitems c = pre ++ x :: post -> i = zlen pre + 1 -> (length post < fuel)%nat ->
  latestdead c ∈ x :: post -> NoDup (chainitems c) -> arrays_ok v (sc_plan sc) ->
  (forall y, y ∈ post -> y ∉ all_of (sc_plan sc) /\ 1 <= y <= zlen v) ->
  (forall removed rest ps', post = removed ++ rest ->
     last_of x removed = latestdead c \/ (keepInvisible c = true /\ rest = [latestdead c]) ->
     arrays_ok v ps' -> redirected ps' = redirected (sc_plan sc) -> nowdead ps' = nowdead (sc_plan sc) ->
     nowunused ps' = nowunused (sc_plan sc) ++ removed ->
     Q (i + zlen removed, ndel + zlen removed) (MkScan (sc_state sc) (sc_heap sc) ps')) ->
  pwp (remove_dead fuel c i ndel) Q sc.
Proof.
  induction fuel as [|fuel IH]; intros pre x post i ndel sc Q Hitems Hi Hfuel Hld Hnd Ha Hpost HQ; [lia|].
  cbn [remove_dead]. rewrite Hitems, zlen_app, zlen_cons. pose proof (zlen_nonneg pre). pose proof (zlen_nonneg post).
  assert (Hstop : last_of x [] = latestdead c \/ (keepInvisible c = true /\ post = [latestdead c]) ->
    Q (i, ndel) sc).
  { intros Hs. specialize (HQ [] post (sc_plan sc) eq_refl Hs Ha eq_refl eq_refl (eq_sym (app_nil_r _))).
    change (zlen (@nil Z)) with 0 in HQ. rewrite !Z.add_0_r in HQ. by destruct sc. }
  destruct (Z.ltb_spec i (zlen pre + (1 + zlen post))) as [Hlt|Hge].
  - destruct post as [|y post]; [change (zlen (@nil Z)) with 0 in Hlt; lia|].
    apply pwp_bind. eapply (pwp_lift _ x).
    { unfold zlookup. rewrite (proj2 (Z.leb_le 0 (i - 1))) by lia. rewrite lookup_app_r by (unfold zlen in *; lia).
      replace (Z.to_nat (i - 1) - length pre)%nat with 0%nat by (unfold zlen in *; lia). done. }
    destruct (Z.eqb_spec x (latestdead c)) as [He|Hne]; cbn [negb]; [apply pwp_ret, Hstop; by left|].
    assert (Hld' : latestdead c ∈ y :: post) by (apply elem_of_cons in Hld as [?|?]; [congruence|done]).
    rewrite zlen_cons. destruct (keepInvisible c && (i =? zlen pre + (1 + (1 + zlen post)) - 1)) eqn:Hkeep.
    { apply andb_true_iff in Hkeep as [Hk Hz%Z.eqb_eq]. apply pwp_ret, Hstop. right. split; [done|].
      assert (post = []) as ->. { destruct post; [done|]. rewrite zlen_cons in Hz. pose proof (zlen_nonneg post). lia. }
      apply list_elem_of_singleton in Hld' as ->. done. }
    apply pwp_bind. eapply (pwp_lift _ y).
    { unfold zlookup. rewrite (proj2 (Z.leb_le 0 i)) by lia. rewrite lookup_app_r by (unfold zlen in *; lia).
      replace (Z.to_nat i - length pre)%nat with 1%nat by (unfold zlen in *; lia). done. }
    apply pwp_bind. destruct (Hpost y ltac:(by left)) as [Hy1 Hy2]. apply pwp_record_unused; [done..|].
    intros ps1 Ha1 E1 E2 E3. eapply (IH (pre ++ [x]) y post); try done.
    + rewrite Hitems. by rewrite <- app_assoc.
    + rewrite zlen_app. change (zlen [x]) with 1. lia.
    + cbn in Hfuel. lia.
    + intros z Hz. cbn [sc_plan]. destruct (Hpost z ltac:(by right)) as [Hz1 Hz2]. split; [|done].
      rewrite elem_of_all in Hz1 |- *. rewrite E1, E2, E3, elem_of_app, list_elem_of_singleton.
      assert (z <> y); [|tauto]. intros ->. rewrite Hitems in Hnd. apply NoDup_app in Hnd as (_ & _ & Hnd).
      apply NoDup_cons in Hnd as [_ Hnd]. by apply NoDup_cons in Hnd as [Hnd _].
    + intros removed rest ps' Hpq Hend Ha' F1 F2 F3. cbn [sc_plan sc_state sc_heap] in *.
      specialize (HQ (y :: removed) rest ps'). rewrite zlen_cons in HQ.
      replace (i + 1 + zlen removed) with (i + (1 + zlen removed)) by lia.
      replace (ndel + 1 + zlen removed) with (ndel + (1 + zlen removed)) by lia.
      apply HQ; [by rewrite Hpq|done|done|congruence|congruence|]. rewrite F3, E3, <- app_assoc. done.
  - assert (post = []) as ->. { destruct post; [done|]. rewrite zlen_cons in Hge. pose proof (zlen_nonneg post). lia. }
    apply list_elem_of_singleton in Hld. apply pwp_ret, Hstop. by left.
Qed.
End Record.

(** ** The plan after a chain *)

Lemma link_no_tup v k n : link_at v k = Some n -> tup_at v k = None.
Proof. unfold link_at, tup_at. by destruct (line v k) as [[]|]. Qed.

Lemma tup_no_link v k h : tup_at v k = Some h -> link_at v k = None.
Proof. intros Ht. destruct (link_at v k) as [n|] eqn:Hl; [|done]. apply link_no_tup in Hl. congruence. Qed.

Lemma linked_pred v x l u y : hot_ok head v -> linked v x l -> u ∈ l -> hot_next v y = Some u -> y ∈ x :: l.
Proof.
  intros Hok. revert x. induction l as [|z l IH]; intros x; [by intros _ ?%not_elem_of_nil|].
  intros [Hn Hl] [->|Hu]%elem_of_cons Hy.
  - rewrite (ho_unique _ _ Hok _ _ _ Hy Hn). by left.
  - right. by eapply IH.
Qed.

Lemma linked_succ v x l y n : linked v x l -> y ∈ x :: l -> hot_next v y = Some n -> n ∈ l \/ y = last_of x l.
Proof.
  revert x. induction l as [|z l IH]; intros x; simpl; [by intros _ ->%list_elem_of_singleton; right|].
  intros [Hn Hl] [->|Hy]%elem_of_cons Hyn; [rewrite Hn in Hyn; injection Hyn as <-; left; by left|].
  destruct (IH z Hl Hy Hyn) as [?|?]; [left; by right|by right].
Qed.

Lemma linked_members v x l u : linked v x l -> u ∈ l -> exists y, hot_next v y = Some u.
Proof.
  revert x. induction l as [|z l IH]; intros x; [by intros _ ?%not_elem_of_nil|].
  intros [Hn Hl] [->|Hu]%elem_of_cons; [by exists x|by eapply IH].
Qed.

Lemma member_heap_only v x l u : hot_ok head v -> linked v x l -> u ∈ l ->
  exists h, tup_at v u = Some h /\ HeapTupleHeaderIsHeapOnly h = true.
Proof.
  intros Hok Hl Hu. destruct (linked_members _ _ _ _ Hl Hu) as [y Hy]. destruct (next_tup _ _ _ Hy) as [h Ht].
  exists h. split; [done|]. by eapply ho_heap_only.
Qed.

(** What follows an unplanned line pointer is planned only as removed. *)
Lemma next_planned cur st v ps x n : plan_ok cur st v ps -> hot_ok head v -> x ∉ all_of ps ->
  hot_next v x = Some n -> n ∈ all_of ps -> n ∈ nowunused ps.
Proof.
  intros Hp Hok Hx Hn Hall. destruct (next_tup _ _ _ Hn) as [h Ht].
  assert (Hroot : ~ root_of (vl_gone st) v n).
  { intros [Hl|(h' & Ht' & Ho & _)].
    - by rewrite (tup_no_link _ _ _ Ht) in Hl.
    - rewrite Ht in Ht'. injection Ht' as <-. by rewrite (ho_heap_only _ _ Hok _ _ _ Hn Ht) in Ho. }
  apply elem_of_all in Hall as [?|[Hd|[Hr|Hr]]]; [done| | |].
  - destruct Hroot. eapply (pl_root _ _ _ _ Hp). by left.
  - destruct Hroot. eapply (pl_root _ _ _ _ Hp). by right.
  - apply list_elem_of_fmap in Hr as ([j n'] & -> & Hjn). cbn in *.
    destruct (pl_redirect _ _ _ _ Hp _ _ Hjn) as (l & Hl & Hu). apply linked_snoc in Hl as [_ Hl].
    rewrite (ho_unique _ _ Hok _ _ _ Hn Hl) in Hx. destruct Hx. apply elem_of_all.
    pose proof (last_of_in j l) as [->|Hin]%elem_of_cons.
    + right; right; left. apply list_elem_of_fmap. by exists (j, n').
    + left. rewrite Forall_forall in Hu. by apply Hu.
Qed.

Section Update.
Context (st : S) (v : list lp_view) (ps ps' : PruneState) (root : Z) (removed : list Z).
Context (Hp : plan_ok root st v ps) (Hok : hot_ok head v) (Hlinked : linked v root removed).
Context (Hfresh : forall x, x ∈ root :: removed -> x ∉ all_of ps) (Hroot : root_of (vl_gone st) v root).
Context (Hgone : forall u h, u ∈ removed -> tup_at v u = Some h -> vl_gone st h).
Context (Harrays : arrays_ok v ps') (Hunused : nowunused ps' = nowunused ps ++ removed).

(** The root is recorded in [nowdead] or with its redirect. *)
Definition root_recorded : Prop :=
  (nowdead ps' = nowdead ps ++ [root] /\ redirected ps' = redirected ps
   /\ forall n, hot_next v (last_of root removed) = Some n -> n ∈ all_of ps)
  \/ exists t, nowdead ps' = nowdead ps /\ redirected ps' = redirected ps ++ [(root, t)]
     /\ hot_next v (last_of root removed) = Some t
     /\ forall h, tup_at v t = Some h -> vl_settled st h.

Context (Hrec : root_recorded).

Lemma upd_dead d : d ∈ nowdead ps' <-> d ∈ nowdead ps \/ (d = root /\ nowdead ps' = nowdead ps ++ [root]).
Proof.
  destruct Hrec as [(E & _)|(t & E & E2 & _)]; rewrite E.
  - rewrite elem_of_app, list_elem_of_singleton. tauto.
  - split; [tauto|]. intros [?|[_ Hbad]]; [done|]. apply (f_equal length) in Hbad. rewrite length_app in Hbad. simpl in Hbad. lia.
Qed.

Lemma upd_from : forall d, d ∈ (redirected ps').*1 -> d ∈ (redirected ps).*1 \/ d = root.
Proof.
  intros d. destruct Hrec as [(_ & E & _)|(t & _ & E & _)]; rewrite E; [tauto|].
  rewrite fmap_app, elem_of_app. cbn. rewrite list_elem_of_singleton. tauto.
Qed.

Lemma upd_old x : x ∈ nowdead ps \/ x ∈ (redirected ps).*1 -> x ∈ nowdead ps' \/ x ∈ (redirected ps').*1.
Proof.
  destruct Hrec as [(E1 & E2 & _)|(t & E1 & E2 & _)]; rewrite E1, E2; [rewrite elem_of_app; tauto|].
  rewrite fmap_app, elem_of_app. tauto.
Qed.

Lemma upd_root : root ∈ nowdead ps' \/ root ∈ (redirected ps').*1.
Proof.
  destruct Hrec as [(E1 & E2 & _)|(t & E1 & E2 & _)]; rewrite E1, E2.
  - left. apply elem_of_app. right. by left.
  - right. rewrite fmap_app, elem_of_app. right. by left.
Qed.

Lemma upd_target n : n ∈ (redirected ps).*2 -> n ∈ (redirected ps').*2.
Proof.
  destruct Hrec as [(_ & E & _)|(t & _ & E & _)]; rewrite E; [done|]. rewrite fmap_app, elem_of_app. tauto.
Qed.

Lemma upd_closed x n : x ∈ root :: removed -> hot_next v x = Some n ->
  n ∈ nowunused ps' \/ n ∈ (redirected ps').*2.
Proof.
  intros Hx Hn. rewrite Hunused. destruct (linked_succ _ _ _ _ _ Hlinked Hx Hn) as [Hr| ->].
  - left. apply elem_of_app. by right.
  - destruct Hrec as [(_ & _ & Hend)|(t & _ & E & Ht & _)].
    + left. apply elem_of_app. left. eapply next_planned; [done|done|by apply Hfresh|done|by apply Hend].
    + right. rewrite Hn in Ht. injection Ht as <-. rewrite E, fmap_app, elem_of_app. right. by left.
Qed.

Lemma plan_chain : plan_ok (root + 1) st v ps'.
Proof.
  destruct Hp as [H1 H2 H3 H4 H5 H6 H7 H8 H9 H10].
  constructor; [| | | | | | | |apply Harrays|split; apply Harrays].
  - intros u. rewrite Hunused, elem_of_app. intros [Hu|Hu]; [by apply H1|].
    destruct (member_heap_only _ _ _ _ Hok Hlinked Hu) as (h & Ht & Ho). exists h. split_and!; [done|done|by eapply Hgone].
  - intros d [Hd|Hd].
    + apply upd_dead in Hd as [?|[-> _]]; [apply H2; by left|done].
    + apply upd_from in Hd as [?| ->]; [apply H2; by right|done].
  - intros u n. rewrite Hunused at 1. rewrite elem_of_app. intros [Hu|Hu] Hn.
    + rewrite Hunused, elem_of_app. destruct (H3 u n Hu Hn) as [?|?]; [by left; left|right; by apply upd_target].
    + apply (upd_closed u); [by right|done].
  - intros d n Hd Hn. apply upd_dead in Hd as [Hd|[-> Hdead]].
    + rewrite Hunused. apply elem_of_app. left. by eapply H4.
    + destruct Hrec as [(_ & E & Hend)|(t & E & _)].
      2:{ exfalso. rewrite E in Hdead. apply (f_equal length) in Hdead. rewrite length_app in Hdead. simpl in Hdead. lia. }
      rewrite Hunused. apply elem_of_app. destruct (linked_succ _ _ _ _ _ Hlinked ltac:(by left) Hn) as [?|Hl]; [by right|left].
      eapply next_planned; [done|done|apply Hfresh; by left|done|]. apply Hend. by rewrite <- Hl.
  - intros j n Hjn. assert (Hor : (j, n) ∈ redirected ps \/ (j = root /\ hot_next v (last_of root removed) = Some n)).
    { destruct Hrec as [(_ & E & _)|(t & _ & E & Ht & _)]; rewrite E in Hjn; [by left|].
      apply elem_of_app in Hjn as [?|[= -> ->]%list_elem_of_singleton]; [by left|by right]. }
    destruct Hor as [Hold|[-> Hnew]].
    + destruct (H5 j n Hold) as (l & Hl & Hu). exists l. split; [done|]. eapply Forall_impl; [exact Hu|].
      intros u Huu. rewrite Hunused. apply elem_of_app. by left.
    + exists removed. split; [by apply linked_snoc|]. apply Forall_forall. intros u Hu. rewrite Hunused.
      apply elem_of_app. by right.
  - intros j n h Hjn Ht. destruct Hrec as [(_ & E & _)|(t & _ & E & _ & Hset)]; rewrite E in Hjn; [by eapply H6|].
    apply elem_of_app in Hjn as [?|[= -> ->]%list_elem_of_singleton]; [by eapply H6|by apply Hset].
  - intros x n. rewrite Hunused. rewrite !elem_of_app. intros [Hn|Hn] Hx.
    + destruct (H7 x n Hn Hx) as [?|[?|[?|?]]]; [by left; left| | |by right; right; right].
      * destruct (upd_old x ltac:(by left)); tauto.
      * destruct (upd_old x ltac:(by right)); tauto.
    + pose proof (linked_pred _ _ _ _ _ Hok Hlinked Hn Hx) as [->|?]%elem_of_cons; [|by left; right].
      destruct upd_root; tauto.
  - intros x n Hx Hl. destruct (decide (x = root)) as [->|Hne]; [destruct upd_root; tauto|].
    destruct (H8 x n ltac:(lia) Hl) as [?|[?|[Hnu (h & Ht & Hd)]]].
    + destruct (upd_old x ltac:(by left)); tauto.
    + destruct (upd_old x ltac:(by right)); tauto.
    + right; right. split; [|by exists h]. rewrite Hunused, elem_of_app. intros [?|Hin]; [done|].
      assert (Hnx : hot_next v x = Some n).
      { unfold HotChain.hot_next. by rewrite (link_no_tup _ _ _ Hl), Hl, Ht. }
      pose proof (linked_pred _ _ _ _ _ Hok Hlinked Hin Hnx) as [?|Hxr]%elem_of_cons; [done|].
      destruct (member_heap_only _ _ _ _ Hok Hlinked Hxr) as (hx & Htx & _). rewrite (link_no_tup _ _ _ Hl) in Htx. done.
Qed.
End Update.

(** Nothing was recorded. *)
Lemma plan_same_next cur st v ps : plan_ok cur st v ps ->
  (forall n, link_at v cur = Some n -> cur ∈ nowdead ps \/ cur ∈ (redirected ps).*1
     \/ (n ∉ nowunused ps /\ exists h, tup_at v n = Some h /\ ~ vl_dead h)) ->
  plan_ok (cur + 1) st v ps.
Proof.
  intros [H1 H2 H3 H4 H5 H6 H7 H8 H9 H10] Hcur. constructor; try done.
  intros x n Hx Hl. destruct (decide (x = cur)) as [->|]; [by apply Hcur|]. apply H8; [lia|done].
Qed.

(** *** How many tuples go away *)

Definition is_tuple v (k : Z) : Prop := is_Some (tup_at v k).
#[global] Instance is_tuple_dec v k : Decision (is_tuple v k) := _.

Definition gone_of ps : list Z := nowunused ps ++ nowdead ps ++ (redirected ps).*1.
Definition gone_count v ps : Z := zlen (filter (is_tuple v) (gone_of ps)).

Lemma gone_count_hints v v' ps : hint_view v v' -> gone_count v' ps = gone_count v ps.
Proof.
  intros Hv. unfold gone_count. do 2 f_equal. apply list_filter_iff. intros k. unfold is_tuple. split; intros [h Ht].
  - destruct (hint_view_tup_inv _ _ _ _ Hv Ht) as (h' & -> & _). by eexists.
  - destruct (hint_view_tup _ _ _ _ Hv Ht) as (h' & -> & _). by eexists.
Qed.

Lemma gone_count_same v ps ps' : same_plan ps ps' -> gone_count v ps' = gone_count v ps.
Proof. intros (E1 & E2 & E3 & _). unfold gone_count, gone_of. by rewrite E1, E2, E3. Qed.

Lemma gone_count_add v ps ps' l : gone_of ps' ≡ₚ l ++ gone_of ps ->
  gone_count v ps' = zlen (filter (is_tuple v) l) + gone_count v ps.
Proof. intros Hp. unfold gone_count, zlen. rewrite Hp, filter_app, length_app. lia. Qed.

Lemma filter_tuples v l : Forall (is_tuple v) l -> filter (is_tuple v) l = l.
Proof.
  induction 1 as [|x l Hx _ IH]; [done|]. rewrite filter_cons_True by done. by rewrite IH.
Qed.

(** *** The end of heap_prune_chain *)

(** The root of the chain and its line pointer. *)
Definition root_kind v (root : Z) (rootlp : ItemIdData) : Prop :=
  (ItemIdIsNormal rootlp = true /\ ItemIdIsRedirected rootlp = false
   /\ exists h, tup_at v root = Some h /\ HeapTupleHeaderIsHeapOnly h = false)
  \/ (ItemIdIsNormal rootlp = false /\ ItemIdIsRedirected rootlp = true /\ exists n, link_at v root = Some n).

Lemma root_kind_count v root rootlp : root_kind v root rootlp ->
  zlen (filter (is_tuple v) [root]) = if ItemIdIsNormal rootlp then 1 else 0.
Proof.
  intros [(-> & _ & h & Ht & _)|(-> & _ & n & Hl)].
  - rewrite filter_cons_True; [done|by exists h].
  - rewrite filter_cons_False; [done|]. intros [h Ht]. by rewrite (link_no_tup _ _ _ Hl) in Ht.
Qed.

Lemma last_of_split x l : exists a, x :: l = a ++ [last_of x l].
Proof.
  revert x. induction l as [|y l IH]; intros x; [by exists []|]. destruct (IH y) as [a Ha]. exists (x :: a). simpl. by rewrite Ha.
Qed.

(** The tuples before the place where the loop stops are gone. *)
Lemma removed_gone st v root l c removed rest u h : hot_ok head v -> linked v root l ->
  verdict st v root (root :: l) c -> latestdead c ∈ root :: l -> latestdead c <> InvalidOffsetNumber ->
  l = removed ++ rest ->
  last_of root removed = latestdead c \/ (keepInvisible c = true /\ rest = [latestdead c]) ->
  u ∈ root :: removed -> tup_at v u = Some h -> vl_gone st h.
Proof.
  intros Hok Hlk Hv Hld Hne -> Hend Hu Ht. destruct Hv as [(H1 & _)|(_ & _ & Hg & _)]; [done|].
  destruct Hend as [Hlast|[_ ->]].
  - destruct (last_of_split root removed) as [a Ha]. rewrite Hlast in Ha.
    apply (Hg a rest u h); [|by rewrite <- Ha|done]. rewrite app_comm_cons, Ha, <- app_assoc. done.
  - apply (Hg (root :: removed) [] u h); [done| |done]. apply elem_of_app. by left.
Qed.

Lemma target_settled st v root l c removed t rest h : linked v root l -> verdict st v root (root :: l) c ->
  latestdead c <> InvalidOffsetNumber -> l = removed ++ t :: rest ->
  last_of root removed = latestdead c \/ (keepInvisible c = true /\ t :: rest = [latestdead c]) ->
  tup_at v t = Some h -> vl_settled st h.
Proof.
  intros Hlk Hv Hne -> Hend Ht. apply linked_app in Hlk as [Hlk _]. apply linked_snoc in Hlk as [_ Hn].
  destruct Hv as [(H1 & _)|(_ & (hd & Hd & Hs) & _ & Hnext)]; [done|].
  destruct Hend as [Hlast|[_ [= -> ->]]]; [rewrite Hlast in Hn; by eapply Hnext|]. rewrite Ht in Hd. by injection Hd as ->.
Qed.

Lemma linked_prefix v x l k : linked v x (l ++ k) -> linked v x l.
Proof. revert x. induction l as [|y l IH]; intros x; simpl; [done|]. intros [? ?]. split; [done|by apply IH]. Qed.

(** What the end of [heap_prune_chain] leaves. *)
Definition chain_done (root : Z) (sc : Scan S) (n : Z) (sc' : Scan S) : Prop :=
  sc_state sc' = sc_state sc /\ sc_heap sc' = sc_heap sc
  /\ plan_ok (root + 1) (sc_state sc) (content sc) (sc_plan sc')
  /\ gone_count (content sc) (sc_plan sc') = n + gone_count (content sc) (sc_plan sc).

Section Finish.
Context (root : Z) (rootlp : ItemIdData) (l : list Z) (c : Chain) (sc : Scan S).
Context (Hw : walked root (root :: l) c sc) (Hend : ended root (root :: l) c sc) (Hkind : root_kind (content sc) root rootlp).

Lemma finish_starts : starts (content sc) root.
Proof.
  destruct Hkind as [(_ & _ & h & Ht & _)|(_ & _ & n & Hl)]; [right; by exists h|left; by rewrite Hl].
Qed.

Lemma finish_root_of (P : HeapTupleHeaderData -> Prop) : (forall h, tup_at (content sc) root = Some h -> P h) -> root_of P (content sc) root.
Proof.
  intros HP. destruct Hkind as [(_ & _ & h & Ht & Ho)|(_ & _ & n & Hl)]; [|left; by rewrite Hl].
  right. exists h. by split_and!; [|..|apply HP].
Qed.

(** The plan gets the removed members and the root. *)
Lemma finish_plan removed ps' : linked (content sc) root removed -> (forall x, x ∈ removed -> x ∈ l) ->
  (forall u h, u ∈ root :: removed -> tup_at (content sc) u = Some h -> vl_gone (sc_state sc) h) ->
  arrays_ok (content sc) ps' -> nowunused ps' = nowunused (sc_plan sc) ++ removed ->
  root_recorded (sc_state sc) (content sc) (sc_plan sc) ps' root removed ->
  chain_done root sc (zlen removed + if ItemIdIsNormal rootlp then 1 else 0) (MkScan (sc_state sc) (sc_heap sc) ps').
Proof.
  intros Hlk Hsub Hg Ha Hu Hrec. split_and!; [done|done|cbn|cbn].
  - eapply (plan_chain (sc_state sc) (content sc) (sc_plan sc) ps' root removed); try done.
    + apply Hw.
    + apply (wd_base _ _ _ _ Hw).
    + intros x [->|Hx]%elem_of_cons; apply Hw; [by left|right; by apply Hsub].
    + apply finish_root_of. intros h. apply Hg. by left.
    + intros u h Hin. apply Hg. by right.
  - rewrite (gone_count_add _ (sc_plan sc) ps' (removed ++ [root])).
    + rewrite filter_app, zlen_app, (root_kind_count _ _ _ Hkind). rewrite filter_tuples; [lia|].
      apply Forall_forall. intros u Huin. destruct (linked_members _ _ _ _ Hlk Huin) as [y Hy].
      destruct (next_tup _ _ _ Hy) as [h Ht]. by exists h.
    + unfold gone_of. rewrite Hu. destruct Hrec as [(E1 & E2 & _)|(t & E1 & E2 & _)]; rewrite E1, E2, ?fmap_app; cbn.
      * rewrite <- !app_assoc. cbn. rewrite <- !Permutation_middle.
        rewrite !(Permutation_app_comm removed). rewrite <- !app_assoc. cbn. done.
      * rewrite <- !app_assoc. cbn. rewrite !app_assoc. rewrite (Permutation_app_comm _ [root]). cbn.
        rewrite <- Permutation_middle. constructor. rewrite <- !app_assoc. by rewrite Permutation_app_swap_app.
Qed.

Lemma finish_bound x : x ∈ root :: l -> 1 <= x <= zlen (content sc).
Proof. rewrite zlen_view. by apply (members_bound _ _ _ _ Hw finish_starts). Qed.

Lemma finish_nodup : NoDup (root :: l).
Proof. eapply path_nodup; [apply (wd_base _ _ _ _ Hw)|apply (wd_path _ _ _ _ Hw)]. Qed.

Lemma pwp_finish_dead (Q : Z -> Scan S -> Prop) : latestdead c <> InvalidOffsetNumber ->
  (forall n sc', chain_done root sc n sc' -> Q n sc') ->
  pwp (r ← remove_dead (Datatypes.S (length (chainitems c))) c 1 0;
       let '(i, ndeleted) := (r : Z * Z) in
       let ndeleted := if ItemIdIsNormal rootlp then ndeleted + 1 else ndeleted in
       (if zlen (chainitems c) <=? i then heap_prune_record_dead root
        else
          target ← lift (inside (zlookup (chainitems c) i));
          heap_prune_record_redirect root target);;
       mret ndeleted) Q sc.
Proof.
  intros Hne HQ. pose proof (wd_base _ _ _ _ Hw) as Hb. pose proof (b_hot _ Hb) as Hok.
  destruct (wd_path _ _ _ _ Hw) as [_ Hlk]. pose proof (wd_verdict _ _ _ _ Hw) as Hv. pose proof (wd_items _ _ _ _ Hw) as Hi.
  assert (Hvl : zlen (content sc) <= MaxHeapTuplesPerPage) by (rewrite zlen_view; apply Hb).
  assert (Hld : latestdead c ∈ root :: l) by (destruct Hv as [(? & _)|(? & _)]; done).
  pose proof finish_nodup as Hnd. pose proof (wd_fresh _ _ _ _ Hw) as Hfresh.
  apply pwp_bind. eapply (pwp_remove_dead (content sc) Hvl c _ [] root l); try done.
  { rewrite Hi. simpl. lia. }
  { by rewrite Hi. }
  { eapply plan_arrays. apply Hw. }
  { intros y Hy. split; [apply Hfresh; by right|apply finish_bound; by right]. }
  intros removed rest ps1 Hl Hstop Ha1 E1 E2 E3. rewrite Hi, Hl, zlen_cons, zlen_app.
  assert (Hlk' : linked (content sc) root removed) by (rewrite Hl in Hlk; by eapply linked_prefix).
  assert (Hgone : forall u h, u ∈ root :: removed -> tup_at (content sc) u = Some h -> vl_gone (sc_state sc) h).
  { intros u h. eapply removed_gone; [exact Hok|exact Hlk|exact Hv|exact Hld|exact Hne|exact Hl|exact Hstop]. }
  assert (Hsub : forall x, x ∈ removed -> x ∈ l) by (intros x Hx; rewrite Hl; apply elem_of_app; by left).
  assert (Hnew : forall x, x ∈ root :: rest -> x ∉ all_of ps1).
  { intros x Hx. rewrite elem_of_all, E1, E2, E3, elem_of_app.
    assert (Hx0 : x ∉ all_of (sc_plan sc)).
    { apply Hfresh. apply elem_of_cons in Hx as [->|Hx]; [by left|right]. rewrite Hl. apply elem_of_app. by right. }
    rewrite elem_of_all in Hx0. assert (x ∉ removed); [|tauto]. intros Hr. apply NoDup_cons in Hnd as [Hnr Hnd].
    rewrite Hl in Hnd. apply NoDup_app in Hnd as (_ & Hdis & _).
    apply elem_of_cons in Hx as [->|Hx]; [apply Hnr; by apply Hsub|by eapply Hdis]. }
  replace (0 + zlen removed) with (zlen removed) by lia.
  assert (Hn : forall n, (if ItemIdIsNormal rootlp then n + 1 else n) = n + if ItemIdIsNormal rootlp then 1 else 0).
  { intros n. destruct (ItemIdIsNormal rootlp); lia. }
  apply pwp_bind. destruct rest as [|t rest].
  - rewrite (proj2 (Z.leb_le _ _)) by (change (zlen (@nil Z)) with 0; lia).
    apply (pwp_record_dead (content sc) Hvl); [done|apply Hnew; by left|apply finish_bound; by left|].
    intros ps2 Ha2 F1 F2 F3. cbn [sc_plan sc_state sc_heap] in *. apply pwp_ret. rewrite Hn. apply HQ, finish_plan; try done.
    + congruence.
    + left. rewrite F2, F1, E1, E2. split_and!; [done|done|]. rewrite app_nil_r in Hl. subst l.
      destruct Hstop as [Hlast|[_ Hbad]]; [|done]. apply Hend. by left.
  - rewrite zlen_cons. pose proof (zlen_nonneg rest). rewrite (proj2 (Z.leb_gt _ _)) by lia.
    apply pwp_bind. eapply (pwp_lift _ t).
    { unfold zlookup. rewrite (proj2 (Z.leb_le 0 _)) by (pose proof (zlen_nonneg removed); lia).
      replace (Z.to_nat (1 + zlen removed)) with (Datatypes.S (length removed)) by (unfold zlen; lia).
      rewrite app_comm_cons. by rewrite list_lookup_middle. }
    apply (pwp_record_redirect (content sc) Hvl); try done.
    + apply Hnew. by left.
    + apply Hnew. right. by left.
    + intros ->. apply NoDup_cons in Hnd as [Hnr _]. apply Hnr. rewrite Hl. apply elem_of_app. right. by left.
    + apply finish_bound. by left.
    + apply finish_bound. right. rewrite Hl. apply elem_of_app. right. by left.
    + intros ps2 Ha2 F1 F2 F3. cbn [sc_plan sc_state sc_heap] in *. apply pwp_ret. rewrite Hn. apply HQ, finish_plan; try done.
      * congruence.
      * right. exists t. rewrite F2, F1, E1, E2. split_and!; [done|done| |].
        -- rewrite Hl in Hlk. apply linked_app in Hlk as [Hlk _]. by apply linked_snoc in Hlk as [_ ?].
        -- intros h. eapply target_settled; [exact Hlk|exact Hv|exact Hne|exact Hl|exact Hstop].
Qed.
End Finish.

Lemma zlen_nil_inv {A} (l : list A) : zlen l <= 0 -> l = [].
Proof. destruct l; [done|]. rewrite zlen_cons. pose proof (zlen_nonneg l). lia. Qed.

Lemma pwp_finish root rootlp l c sc (Q : Z -> Scan S -> Prop) : walked root (root :: l) c sc ->
  ended root (root :: l) c sc -> root_kind (content sc) root rootlp ->
  (forall n sc', chain_done root sc n sc' -> Q n sc') ->
  pwp (prune_chain_items rootlp root c) Q sc.
Proof.
  intros Hw Hend Hkind HQ. pose proof (wd_base _ _ _ _ Hw) as Hb. pose proof (wd_verdict _ _ _ _ Hw) as Hv.
  pose proof (wd_items _ _ _ _ Hw) as Hi. pose proof (wd_fresh _ _ _ _ Hw) as Hfresh.
  assert (Hvl : zlen (content sc) <= MaxHeapTuplesPerPage) by (rewrite zlen_view; apply Hb).
  assert (Hld : latestdead c <= MaxHeapTuplesPerPage).
  { destruct Hv as [(-> & _)|(Hin & _)]; [pose proof (zlen_nonneg (content sc)); unfold InvalidOffsetNumber; lia|].
    pose proof (finish_bound root rootlp l c sc Hw Hkind _ Hin). lia. }
  unfold prune_chain_items. rewrite offset_valid by (destruct (_ && _); [pose proof (zlen_nonneg (content sc)); unfold InvalidOffsetNumber|]; lia).
  destruct (negb ((if keepInvisible c && (zlen (chainitems c) =? 1) then InvalidOffsetNumber else latestdead c)
    =? InvalidOffsetNumber)) eqn:Hlatest.
  { eapply (pwp_finish_dead root rootlp l); [done..| |done]. intros E. rewrite E in Hlatest. by destruct (_ && _). }
  assert (Halone : forall n, link_at (content sc) root = Some n -> latestdead c = InvalidOffsetNumber).
  { intros n Hl. apply negb_false_iff, Z.eqb_eq in Hlatest.
    destruct (keepInvisible c && (zlen (chainitems c) =? 1)) eqn:Hk; [|done].
    apply andb_true_iff in Hk as [_ Hk%Z.eqb_eq]. rewrite Hi, zlen_cons in Hk.
    assert (l = []) as -> by (apply zlen_nil_inv; lia).
    destruct Hv as [(? & _)|(Hin & (h & Ht & _) & _)]; [done|]. apply list_elem_of_singleton in Hin.
    rewrite Hin, (link_no_tup _ _ _ Hl) in Ht. done. }
  destruct ((zlen (chainitems c) <? 2) && ItemIdIsRedirected rootlp) eqn:Hred.
  - apply andb_true_iff in Hred as [Hlen%Z.ltb_lt Hred]. rewrite Hi, zlen_cons in Hlen.
    assert (l = []) as -> by (apply zlen_nil_inv; lia).
    assert (Hr : 1 <= root <= zlen (content sc)) by (eapply (finish_bound root rootlp []); [done..|by left]).
    pose proof Hkind as [(_ & ? & _)|(Hnorm & _ & n & Hl)]; [congruence|]. apply pwp_bind.
    apply (pwp_record_dead (content sc) Hvl); [eapply plan_arrays; apply Hw|apply Hfresh; by left|exact Hr|].
    intros ps1 Ha1 E1 E2 E3. apply pwp_ret. apply HQ.
    pose proof (finish_plan root rootlp [] c sc Hw Hkind [] ps1) as Hf.
    rewrite Hnorm in Hf. apply Hf; try done.
    + intros u h ->%list_elem_of_singleton Ht. by rewrite (link_no_tup _ _ _ Hl) in Ht.
    + by rewrite app_nil_r.
    + left. split_and!; [done|done|]. apply Hend. right. simpl. by rewrite Hl.
  - apply pwp_ret, HQ. split_and!; [done|done| |done].
    apply plan_same_next; [apply (wd_plan _ _ _ _ Hw)|]. intros n Hl. right; right.
    pose proof (Halone n Hl) as H0.
    destruct l as [|y l'].
    { exfalso. destruct Hkind as [(_ & _ & h & Ht & _)|(_ & Hr & _)].
      - by rewrite (tup_no_link _ _ _ Ht) in Hl.
      - rewrite Hr, Hi in Hred. done. }
    destruct (wd_path _ _ _ _ Hw) as (_ & Hn & _). assert (y = n) as ->.
    { unfold HotChain.hot_next in Hn. cbn [last_of] in Hn. rewrite (link_no_tup _ _ _ Hl), Hl in Hn.
      destruct (tup_at _ n); [by injection Hn|done]. }
    destruct (next_tup _ _ _ Hn) as [h Ht]. split.
    + intros Hu. apply (Hfresh n); [right; by left|]. apply elem_of_all. by left.
    + exists h. split; [exact Ht|]. destruct Hv as [(_ & _ & Halive)|(Hin & (h2 & Ht2 & _) & _)].
      * by apply (Halive n h).
      * exfalso. rewrite H0 in Ht2. unfold tup_at in Ht2. destruct (line _ InvalidOffsetNumber) as [w|] eqn:Hw0; [|done].
        apply line_range in Hw0. unfold InvalidOffsetNumber in Hw0. lia.
Qed.

(** ** heap_prune_chain and the scan *)

(** A heap-only tuple was removed. *)
Lemma plan_reap cur st v ps ps' h : plan_ok cur st v ps -> tup_at v cur = Some h -> HeapTupleHeaderIsHeapOnly h = true ->
  HeapTupleHeaderIsHotUpdated h = false -> vl_dead h -> vl_gone st h -> arrays_ok v ps' ->
  redirected ps' = redirected ps -> nowdead ps' = nowdead ps -> nowunused ps' = nowunused ps ++ [cur] ->
  plan_ok (cur + 1) st v ps'.
Proof.
  intros [H1 H2 H3 H4 H5 H6 H7 H8 H9 H10] Ht Ho Hhot Hdead Hgone Ha E1 E2 E3.
  assert (Hnone : hot_next v cur = None) by (unfold HotChain.hot_next; by rewrite Ht, Hhot).
  assert (Hin : forall x, x ∈ nowunused ps -> x ∈ nowunused ps ++ [cur]) by (intros; apply elem_of_app; by left).
  constructor; rewrite ?E1, ?E2, ?E3; [|done| | | |done| | |apply Ha|split; apply Ha].
  - intros u [Hu| ->%list_elem_of_singleton]%elem_of_app; [by apply H1|by exists h].
  - intros u n [Hu| ->%list_elem_of_singleton]%elem_of_app Hn; [|congruence].
    destruct (H3 u n Hu Hn) as [?|?]; [left; by apply Hin|by right].
  - intros d n Hd Hn. apply Hin. by eapply H4.
  - intros j n Hjn. destruct (H5 j n Hjn) as (l & Hl & Hu). exists l. split; [done|]. eapply Forall_impl; [exact Hu|apply Hin].
  - intros x n [Hn| ->%list_elem_of_singleton]%elem_of_app Hx; [|tauto].
    destruct (H7 x n Hn Hx) as [?|[?|[?|?]]]; [left; by apply Hin|tauto..].
  - intros x n Hx Hl. destruct (decide (x = cur)) as [->|Hne]; [by rewrite (tup_no_link _ _ _ Ht) in Hl|].
    destruct (H8 x n ltac:(lia) Hl) as [?|[?|[Hnu (hn & Htn & Hd)]]]; [tauto..|]. right; right. split; [|by exists hn].
    rewrite elem_of_app, list_elem_of_singleton. intros [?|E]; [done|]. rewrite E, Ht in Htn. by injection Htn as <-.
Qed.

(** The scan has reached [cur]. *)
Record scanned (cur : Z) (sc0 sc : Scan S) (n : Z) : Prop := {
  sn_base : base_ok sc;
  sn_plan : plan_ok cur (sc_state sc) (content sc) (sc_plan sc);
  sn_hints : hints_on (fun _ => True) sc0 sc;
  sn_count : gone_count (content sc) (sc_plan sc) = n }.

Lemma scanned_next cur sc0 sc n : scanned cur sc0 sc n ->
  (forall m, link_at (content sc) cur = Some m -> cur ∈ all_of (sc_plan sc)) -> scanned (cur + 1) sc0 sc n.
Proof.
  intros [Hb Hp Hh Hc] Hlk. constructor; try done. apply plan_same_next; [done|].
  intros m Hl. pose proof (Hlk m Hl) as Hall. apply elem_of_all in Hall as [Hu|[?|[?|Hr]]]; [|tauto..|].
  - destruct (pl_unused _ _ _ _ Hp _ Hu) as (h & Ht & _). by rewrite (tup_no_link _ _ _ Ht) in Hl.
  - apply list_elem_of_fmap in Hr as ([j n'] & E & Hjn). cbn in E. subst n'.
    destruct (pl_redirect _ _ _ _ Hp _ _ Hjn) as (l & Hlk2 & _). apply linked_snoc in Hlk2 as [_ Hn].
    destruct (next_tup _ _ _ Hn) as [h Ht]. by rewrite (tup_no_link _ _ _ Ht) in Hl.
Qed.

Lemma pwp_heap_only cur lp h sc0 sc n (Q : Z -> Scan S -> Prop) : base_ok sc0 -> scanned cur sc0 sc n -> tuple_lp sc cur lp ->
  tup_at (content sc) cur = Some h -> HeapTupleHeaderIsHeapOnly h = true -> cur ∉ all_of (sc_plan sc) ->
  (forall d sc', scanned (cur + 1) sc0 sc' (n + d) -> Q d sc') ->
  pwp (prune_heap_only blkno OldestXmin lp cur) Q sc.
Proof.
  intros Hb0 [Hb Hp Hh Hc] Hlp Ht Ho Hfresh HQ. unfold prune_heap_only. apply pwp_bind. cbn. rewrite (b_head _ Hb).
  apply pwp_bind. eapply (pwp_satisfies cur); [done..|]. intros r h' sc1 Hb1 Hh1 Hp1 Ht1 Hs1 (Hdead & _).
  pose proof (tuple_lp_hints _ _ _ _ _ Hh1 Hlp) as Hlp1. apply pwp_bind. eapply (pwp_header cur); [done..|].
  assert (Hn1 : scanned cur sc0 sc1 n).
  { constructor; [done| | |].
    - eapply plan_ok_hints; [exact Hp|apply Hh1|apply Hh1| |by rewrite Hp1]. intros k Hk. apply Hh1. congruence.
    - eapply hints_on_trans; [done|exact Hh|]. eapply hints_on_weaken; [|exact Hh1]. done.
    - rewrite Hp1, (gone_count_hints (content sc)); [done|apply Hh1]. }
  assert (Hskip : Q 0 sc1).
  { apply HQ. rewrite Z.add_0_r. apply scanned_next; [done|]. intros m Hl. by rewrite (tup_no_link _ _ _ Ht1) in Hl. }
  destruct (bool_decide (r = HEAPTUPLE_DEAD) && negb (HeapTupleHeaderIsHotUpdated h')) eqn:Hcond; [|by apply pwp_ret].
  apply andb_true_iff in Hcond as [Hr Hhot%negb_true_iff]. apply bool_decide_eq_true in Hr.
  destruct (Hdead Hr) as (Hd & _ & Hg & _).
  apply pwp_bind. eapply (pwp_keep cur); [done..|]. intros [|]; [by apply pwp_ret|].
  assert (Hvl : zlen (content sc1) <= MaxHeapTuplesPerPage) by (rewrite zlen_view; apply Hb1).
  assert (Hrange : 1 <= cur <= zlen (content sc1)).
  { unfold tup_at in Ht1. destruct (line (content sc1) cur) as [w|] eqn:Hl; [|done]. by eapply line_range. }
  destruct Hn1 as [_ Hpl1 Hhi1 Hc1]. apply pwp_bind.
  apply (pwp_record_unused (content sc1) Hvl); [by eapply plan_arrays|by rewrite Hp1|done|].
  intros ps2 Ha2 E1 E2 E3. apply pwp_bind. apply pwp_advance; [by apply base_ok_plan|].
  intros sc3 Hb3 Hle3 Hhp3 Hsame3. apply pwp_ret, HQ. cbn [sc_plan sc_state sc_heap] in *.
  assert (Hpl2 : plan_ok (cur + 1) (sc_state sc1) (content sc1) ps2).
  { eapply (plan_reap cur _ _ (sc_plan sc1)); try done.
    - by rewrite (hint_heap_only _ _ Hs1).
    - by rewrite (vl_dead_hint _ _ Hs1). }
  constructor; [done| | |]; rewrite ?Hhp3.
  - eapply plan_ok_hints; [exact Hpl2|exact Hle3|apply hint_view_refl|done|exact Hsame3].
  - eapply hints_on_trans; [done|exact Hhi1|]. by apply same_heap_hints.
  - rewrite (gone_count_same _ ps2) by done. rewrite (gone_count_add _ (sc_plan sc1) ps2 [cur]).
    + rewrite filter_tuples; [change (zlen [cur]) with 1; lia|]. constructor; [by exists h'|constructor].
    + unfold gone_of. rewrite E1, E2, E3, <- app_assoc. cbn. by rewrite <- Permutation_middle.
Qed.

Lemma pwp_chain cur sc0 sc n (Q : Z -> Scan S -> Prop) : base_ok sc0 -> scanned cur sc0 sc n ->
  starts (content sc) cur -> cur ∉ all_of (sc_plan sc) ->
  (forall d sc', scanned (cur + 1) sc0 sc' (n + d) -> Q d sc') ->
  pwp (heap_prune_chain blkno OldestXmin cur) Q sc.
Proof.
  intros Hb0 Hsn Hst Hfresh HQ. pose proof (sn_base _ _ _ _ Hsn) as Hb. unfold heap_prune_chain.
  destruct (starts_line _ _ Hst) as [w Hl]. pose proof (line_range _ _ _ Hl) as Hr.
  apply pwp_bind. eapply pwp_item; [exact Hl|]. intros lp Hlp Hw.
  pose proof (lp_tests sc cur lp Hb Hlp ltac:(lia)) as Htests. unfold line_tests in Htests.
  assert (Hrest : root_kind (content sc) cur lp ->
    pwp (c ← follow_chain blkno OldestXmin chain_fuel lp cur InvalidTransactionId (MkChain [] InvalidOffsetNumber false);
         prune_chain_items lp cur c) Q sc).
  { intros Hkind. apply pwp_bind. eapply (pwp_follow cur lp chain_fuel []); try done.
    - constructor; [constructor; try done; try apply Hsn| |].
      + by intros x ?%not_elem_of_nil.
      + by intros x ?%not_elem_of_nil.
      + left. split_and!; [done|done|]. by intros ? ? ? [=].
      + done.
      + intros hy s2 _ _ _ _ x h ?%not_elem_of_nil. done.
    - unfold chain_fuel. change (zlen (@nil Z)) with 0. lia.
    - intros items c sc1 Hw1 Hend Hh1 Hsame. destruct items as [|z l]; [done|].
      destruct (wd_path _ _ _ _ Hw1) as [-> _].
      eapply pwp_finish; [done|done| |].
      + destruct Hkind as [(H1 & H2 & h & Ht & Ho)|(H1 & H2 & m & Hm)]; [left|right]; (split_and!; [done|done|]).
        * destruct (hint_view_tup _ _ _ _ (hi_view _ _ _ Hh1) Ht) as (h' & Ht' & Hs). exists h'.
          split; [done|]. by rewrite (hint_heap_only _ _ Hs).
        * exists m. by rewrite (hint_view_link _ _ _ (hi_view _ _ _ Hh1)).
      + intros d sc2 (E1 & E2 & Hp2 & Hc2). apply HQ.
        assert (Hb2 : base_ok sc2).
        { destruct sc2 as [st2 b2 ps2]. cbn in E1, E2. subst st2 b2. apply base_ok_plan. apply Hw1. }
        constructor; [done|by rewrite E1, E2| |].
        * eapply hints_on_trans; [done|apply Hsn|]. eapply hints_on_trans; [done|exact Hh1|].
          apply same_heap_hints; [by rewrite E1|done].
        * rewrite E2, Hc2, (gone_count_same _ (sc_plan sc)) by done.
          rewrite (gone_count_hints (content sc)) by apply Hh1. rewrite (sn_count _ _ _ _ Hsn). lia. }
  destruct (view (pd_data (page_of sc)) lp) as [|f off|f bytes].
  - destruct Htests as (_ & Hnt & Hnl). destruct Hst as [?|(h & ?)]; congruence.
  - destruct Htests as (_ & Hnorm & Hnt & Hcase). rewrite Hnorm. apply pwp_bind, pwp_ret. apply Hrest.
    destruct Hcase as [(Hred & _ & Hlk)|(_ & _ & Hnl)]; [right; split_and!; [done|done|by eexists]|].
    destruct Hst as [?|(h & ?)]; congruence.
  - destruct Htests as (_ & Hnorm & Hred & _ & Hnl & h & Ht). rewrite Hnorm. apply pwp_bind, pwp_bind.
    eapply (pwp_header cur); [done..|]. apply pwp_ret. destruct (HeapTupleHeaderIsHeapOnly h) eqn:Ho.
    + eapply pwp_heap_only; [exact Hb0|exact Hsn|exact Hlp|exact Ht|exact Ho|exact Hfresh|exact HQ].
    + apply Hrest. left. rewrite Hnorm, Hred. split_and!; [done|done|]. by exists h.
Qed.

Lemma pwp_scan k : forall cur n sc0 sc (Q : Z -> Scan S -> Prop), base_ok sc0 -> scanned cur sc0 sc n -> 1 <= cur ->
  cur + Z.of_nat k = zlen (pd_linp (page_of sc)) + 1 ->
  (forall d sc', scanned (zlen (pd_linp (page_of sc)) + 1) sc0 sc' d -> Q d sc') ->
  pwp (scan_items blkno OldestXmin k cur n) Q sc.
Proof.
  induction k as [|k IH]; intros cur n sc0 sc Q Hb0 Hsn Hcur Hk HQ; cbn [scan_items].
  { apply pwp_ret, HQ. replace (zlen (pd_linp (page_of sc)) + 1) with cur by lia. done. }
  pose proof (sn_base _ _ _ _ Hsn) as Hb. pose proof (b_lines _ Hb) as Hlines.
  apply pwp_bind. eapply pwp_marked; [apply Hsn|lia|]. case_bool_decide as Hmark.
  { eapply (IH _ _ sc0); [done| |lia|lia|exact HQ]. by apply scanned_next. }
  destruct (line_in (page_of sc) cur ltac:(lia)) as [w Hl]. apply pwp_bind. eapply pwp_item; [exact Hl|].
  intros lp Hlp Hw. pose proof (lp_tests sc cur lp Hb Hlp Hcur) as Htests. unfold line_tests in Htests.
  assert (Hskip : link_at (content sc) cur = None -> pwp (scan_items blkno OldestXmin k (cur + 1) n) Q sc).
  { intros Hnl. eapply (IH _ _ sc0); [done| |lia|lia|exact HQ]. apply scanned_next; [done|]. intros m. by rewrite Hnl. }
  assert (Hgo : starts (content sc) cur -> pwp (d ← heap_prune_chain blkno OldestXmin cur; scan_items blkno OldestXmin k (cur + 1) (n + d)) Q sc).
  { intros Hst. apply pwp_bind. eapply pwp_chain; [exact Hb0|exact Hsn|exact Hst|exact Hmark|]. intros d sc' Hsn'.
    assert (Hlen : pd_linp (page_of sc') = pd_linp (page_of sc)).
    { rewrite (hints_linp _ _ _ (sn_hints _ _ _ _ Hsn')). by rewrite (hints_linp _ _ _ (sn_hints _ _ _ _ Hsn)). }
    eapply (IH _ _ sc0); [done|done|lia| |]; rewrite Hlen; [lia|done]. }
  destruct (view (pd_data (page_of sc)) lp) as [|f off|f bytes].
  - destruct Htests as (-> & _ & Hnl). by apply Hskip.
  - destruct Htests as (-> & _ & _ & [(_ & -> & Hlk)|(_ & -> & Hnl)]); cbn [negb orb]; [|by apply Hskip].
    apply Hgo. left. by rewrite Hlk.
  - destruct Htests as (-> & _ & _ & -> & _ & h & Ht). cbn [negb orb]. apply Hgo. right. by exists h.
Qed.
End Scan.
