(* ===== verification/PruneExec.v ===== *)
(** The execution of a prune plan (PruneHeap.v): [heap_page_prune_execute],
    its replay from the WAL record, and what becomes of the HOT chains.

    The content of the page afterwards is the function [pruned] of its content
    before and of the plan.  For a plan of the scan ([plan_ok], PruneScan.v) the
    pruned page is in order again, and every surviving tuple is reached from
    the same line pointers as before. *)
From S2P Require Import Prelude Xid HeapTuple Transam TransamSpec Visibility VisibilitySpec FsmPage FreeSpace BufPage BufPageSpec PruneHeap HotChain PruneScan.
From stdpp Require Import list relations gmap.
#[local] Open Scope Z_scope.

(** ** The content of a pruned page *)

(** What becomes of the line pointer [k] with the content [w].  An entry of
    [nowunused] is stored last, one of [redirected] first. *)
Definition pruned_line (redirected : list (Z * Z)) (nowdead nowunused : list Z) (k : Z) (w : lp_view) : lp_view :=
  if decide (k ∈ nowunused) then VUnused
  else if decide (k ∈ nowdead) then VPointer LP_DEAD 0
  else match (list_to_map (reverse redirected) : gmap Z Z) !! k with
  | Some n => VPointer LP_REDIRECT n
  | None => w
  end.

Definition pruned (redirected : list (Z * Z)) (nowdead nowunused : list Z) (v : list lp_view) : list lp_view :=
  imap (fun i w => pruned_line redirected nowdead nowunused (Z.of_nat i + 1) w) v.

Lemma zlen_pruned rs ds us v : zlen (pruned rs ds us v) = zlen v.
Proof. unfold zlen, pruned. by rewrite length_imap. Qed.

Lemma line_pruned rs ds us v k : line (pruned rs ds us v) k = pruned_line rs ds us k <$> line v k.
Proof.
  unfold line, zlookup, pruned. destruct (Z.leb_spec 0 (k - 1)); [|done]. rewrite list_lookup_imap.
  replace (Z.of_nat (Z.to_nat (k - 1)) + 1) with k by lia. done.
Qed.

Section Execute.
Context {bs : BlockSize}.
Implicit Types (p : PageHeaderData) (v : list lp_view).

(** A line pointer without storage is stored. *)
Lemma put_pointer p k lp : page_ok p -> 1 <= k <= zlen (pd_linp p) -> lp_ok (pd_upper p) (pd_special p) lp -> lp_len lp = 0 ->
  exists p', put_item_id p k lp = Done p' /\ page_ok p' /\ same_frame p p' /\ zlen (pd_linp p') = zlen (pd_linp p)
    /\ forall j, line (page_view p') j = if decide (j = k) then Some (view (pd_data p) lp) else line (page_view p) j.
Proof.
  intros Hp Hk Hlp Hlen. destruct (lookup_lt_is_Some_2 (pd_linp p) (Z.to_nat (k - 1))) as [old Hold].
  { unfold zlen in Hk. lia. }
  set (l := <[Z.to_nat (k - 1) := lp]> (pd_linp p)).
  assert (Hzl : zlen l = zlen (pd_linp p)) by (unfold zlen, l; by rewrite length_insert).
  exists (set_linp l p). split_and!; [| |done|done|].
  - pose proof (put_item p (k - 1) old lp Hold ltac:(lia)) as Hput. by rewrite Z.sub_add in Hput.
  - destruct Hp as [H1 H2 H3 H4 H5 H6]. constructor; cbn; try done.
    + rewrite H1. unfold linp_end. cbn. by rewrite Hzl.
    + destruct (replace_perm _ _ _ lp Hold) as [Hp0 Hp1]. rewrite Hp0 in H6. apply linp_ok_tail in H6 as [Hf Hpw].
      unfold l. rewrite Hp1. split; [by constructor|]. split; [|done]. apply Forall_forall. intros b _ Hne. done.
  - intros j. unfold page_view. cbn [set_linp pd_linp pd_data]. unfold l. rewrite list_fmap_insert.
    apply line_insert. rewrite <- zlen_view in Hk. exact Hk.
Qed.


Lemma line_ext v v' : (forall k, line v' k = line v k) -> v' = v.
Proof.
  intros H. apply list_eq. intros i. specialize (H (Z.of_nat i + 1)). unfold line, zlookup in H.
  rewrite Z.add_simpl_r, Nat2Z.id in H. rewrite (proj2 (Z.leb_le 0 _)) in H by lia. done.
Qed.

(** What a phase of the execution leaves: the lines [f] gives. *)
Definition phase p (f : Z -> lp_view -> lp_view) (r : run PageHeaderData) : Prop :=
  exists p', r = Done p' /\ page_ok p' /\ same_frame p p' /\ zlen (pd_linp p') = zlen (pd_linp p)
    /\ forall k, line (page_view p') k = f k <$> line (page_view p) k.

Lemma phase_ret p : page_ok p -> phase p (fun _ w => w) (Done p).
Proof. intros Hp. exists p. split_and!; try done. intros k. by destruct (line _ k). Qed.

Lemma phase_bind p f g r (k : PageHeaderData -> run PageHeaderData) : phase p f r ->
  (forall p', page_ok p' -> zlen (pd_linp p') = zlen (pd_linp p) -> phase p' g (k p')) ->
  phase p (fun j w => g j (f j w)) (r ≫= k).
Proof.
  intros (p1 & -> & Hp1 & [F1 F2] & Hz1 & Hl1) Hk. destruct (Hk p1 Hp1 Hz1) as (p2 & Hr & Hp2 & [F3 F4] & Hz2 & Hl2).
  exists p2. split_and!; [done|done|split; congruence|congruence|]. intros j. rewrite Hl2, Hl1. by destruct (line _ j).
Qed.

Lemma phase_ext p f g r : (forall k w, f k w = g k w) -> phase p f r -> phase p g r.
Proof.
  intros Hfg (p1 & ? & ? & ? & ? & Hl). exists p1. split_and!; try done. intros k. rewrite Hl.
  destruct (line _ k); [|done]. cbn. by rewrite Hfg.
Qed.

Lemma phase_put p k lp : page_ok p -> 1 <= k <= zlen (pd_linp p) -> lp_ok (pd_upper p) (pd_special p) lp -> lp_len lp = 0 ->
  phase p (fun j w => if decide (j = k) then view (pd_data p) lp else w) (put_item_id p k lp).
Proof.
  intros Hp Hk Hlp Hlen. destruct (put_pointer p k lp Hp Hk Hlp Hlen) as (p' & ? & ? & ? & ? & Hl).
  exists p'. split_and!; try done. intros j. rewrite Hl. case_decide; [subst j|by destruct (line _ j)].
  destruct (line_in p k Hk) as [w Hw]. by rewrite Hw.
Qed.

Lemma pointer_ok upper special off f : 0 <= off < 2 ^ 15 -> lp_ok upper special (MkItemId off f 0).
Proof. intros Hoff. by split_and!. Qed.

Lemma put_each_phase lp w ds : forall p, page_ok p -> Forall (fun k => 1 <= k <= zlen (pd_linp p)) ds ->
  (forall upper special, lp_ok upper special lp) -> lp_len lp = 0 -> (forall d, view d lp = w) ->
  phase p (fun k x => if decide (k ∈ ds) then w else x) (put_each lp ds p).
Proof.
  induction ds as [|k ds IH]; intros p Hp Hds Hlp Hlen Hview; cbn [put_each].
  - eapply phase_ext; [|by apply phase_ret]. intros k x. by rewrite decide_False by apply not_elem_of_nil.
  - apply Forall_cons in Hds as [Hk Hds].
    eapply phase_ext; [|eapply phase_bind; [by apply phase_put|]].
    + intros j x. cbn. rewrite Hview.
      instantiate (1 := fun j x => if decide (j ∈ ds) then w else x). cbn.
      destruct (decide (j ∈ ds)); [by rewrite decide_True by by right|].
      destruct (decide (j = k)) as [->|]; [by rewrite decide_True by by left|].
      rewrite decide_False; [done|]. by intros [?|?]%elem_of_cons.
    + intros p' Hp' Hz. apply IH; try done. by rewrite Hz.
Qed.

Definition redirect_to (m : gmap Z Z) (k : Z) (w : lp_view) : lp_view :=
  match m !! k with Some n => VPointer LP_REDIRECT n | None => w end.

Lemma put_redirects_phase rs : forall p, page_ok p ->
  Forall (fun r => 1 <= r.1 <= zlen (pd_linp p) /\ 0 <= r.2 < 2 ^ 15) rs ->
  phase p (redirect_to (list_to_map (reverse rs))) (put_redirects rs p).
Proof.
  induction rs as [|[k n] rs IH]; intros p Hp Hrs; cbn [put_redirects].
  - eapply phase_ext; [|by apply phase_ret]. intros k x. unfold redirect_to. change (list_to_map (reverse [])) with (∅ : gmap Z Z). by rewrite lookup_empty.
  - apply Forall_cons in Hrs as [[Hk Hn] Hrs]. cbn in Hk, Hn.
    eapply phase_ext; [|eapply phase_bind; [apply phase_put; [done|done| |done]|]].
    + intros j x. instantiate (1 := redirect_to (list_to_map (reverse rs))).
      unfold redirect_to. rewrite reverse_cons, list_to_map_app, lookup_union. cbn.
      unfold ItemIdSetRedirect. rewrite uN_small by done.
      destruct (list_to_map (reverse rs) !! j) as [m|]; [by destruct (_ !! j)|].
      rewrite left_id_L by apply _. case_decide as Hj; [subst j; by rewrite lookup_insert_eq|].
      by rewrite lookup_insert_ne, lookup_empty by done.
    + unfold ItemIdSetRedirect. rewrite uN_small by done. by apply pointer_ok.
    + intros p' Hp' Hz. apply IH; [done|]. by rewrite Hz.
Qed.

(** The entries of a plan fit the page. *)
Definition entries_fit (n : Z) (rs : list (Z * Z)) (ds us : list Z) : Prop :=
  Forall (fun r => 1 <= r.1 <= n /\ 0 <= r.2 < 2 ^ 15) rs /\ Forall (fun k => 1 <= k <= n) ds
  /\ Forall (fun k => 1 <= k <= n) us.

Lemma execute_spec p rs ds us (repair : bool) : page_ok p -> entries_fit (zlen (pd_linp p)) rs ds us ->
  (repair = true -> zlen (pd_linp p) <= MaxHeapTuplesPerPage) ->
  exists p', heap_page_prune_execute p rs ds us repair = Done p' /\ page_ok p' /\ same_frame p p'
    /\ page_view p' = pruned rs ds us (page_view p).
Proof.
  intros Hp (Hrs & Hds & Hus) Hrep.
  assert (Hph : phase p (fun k w => pruned_line rs ds us k w) (heap_page_prune_execute p rs ds us repair)).
  { unfold heap_page_prune_execute. eapply phase_ext; [|eapply phase_bind; [by apply put_redirects_phase|]].
    2:{ intros p1 Hp1 Hz1. eapply phase_bind; [eapply (put_each_phase _ (VPointer LP_DEAD 0)); try done; by rewrite Hz1|].
        intros p2 Hp2 Hz2. eapply phase_bind; [eapply (put_each_phase _ VUnused); try done; by rewrite Hz2, Hz1|].
        intros p3 Hp3 Hz3. instantiate (1 := fun _ w => w). destruct repair; [|by apply phase_ret].
        destruct (repair_fragmentation_spec p3 Hp3) as (p4 & Hr & Hp4 & Hf & Hv & _); [rewrite Hz3, Hz2, Hz1; auto|].
        exists p4. rewrite <- !zlen_view, Hv. split_and!; try done. intros k. by destruct (line _ k). }
    intros k w. cbn. unfold pruned_line, redirect_to. by case_decide; [|case_decide]. }
  destruct Hph as (p' & Hr & Hp' & Hf & _ & Hl). exists p'. split_and!; try done.
  apply line_ext. intros k. by rewrite Hl, line_pruned.
Qed.
End Execute.

(** ** Chains of the pruned page *)

Section Chains.
Context {bs : BlockSize} {ses : Session} {S : Type} {vt : VacuumTest S}.
Context (head : HeapPage) (OldestXmin : Z) {laws : VacuumLaws S head OldestXmin}.
Abbreviation hot_next := (hot_next head).

(** From [j] the chain leads to [k]. *)
Definition reaches (v : list lp_view) : Z -> Z -> Prop := rtc (fun x y => hot_next v x = Some y).

Lemma no_pred v x k : (forall y, hot_next v y <> Some k) -> reaches v x k -> x = k.
Proof. intros Hno Hr. apply rtc_inv_r in Hr as [?|(y & _ & Hy)]; [done|]. by destruct (Hno y). Qed.

(** Only one start leads to a line pointer. *)
Lemma start_unique v a b k : hot_ok head v -> reaches v a k -> reaches v b k ->
  (forall y, hot_next v y <> Some a) -> (forall y, hot_next v y <> Some b) -> a = b.
Proof.
  intros Hok Ha Hb Hna Hnb. revert k Ha Hb. refine (rtc_ind_r _ a _ _).
  - intros Hb. symmetry. by apply (no_pred v).
  - intros k n _ Hn IH Hb. apply rtc_inv_r in Hb as [->|(y & Hy & Hyn)]; [by destruct (Hnb k)|].
    rewrite (ho_unique _ _ Hok _ _ _ Hyn Hn) in Hy. by apply IH.
Qed.

Section Plan.
Context (v : list lp_view) (ps : PruneState) (st : S).
Context (Hok : hot_ok head v) (Hp : plan_ok head OldestXmin (zlen v + 1) st v ps).

Definition after : list lp_view := pruned (redirected ps) (nowdead ps) (nowunused ps) v.

Lemma plan_arrays_ok : arrays_ok v ps.
Proof. by eapply plan_arrays. Qed.

Lemma plan_nodup : NoDup (redirected ps).*1 /\ NoDup (redirected ps).*2
  /\ (forall k, k ∈ nowunused ps -> k ∉ nowdead ps /\ k ∉ (redirected ps).*1 /\ k ∉ (redirected ps).*2)
  /\ (forall k, k ∈ nowdead ps -> k ∉ (redirected ps).*1 /\ k ∉ (redirected ps).*2)
  /\ (forall k, k ∈ (redirected ps).*1 -> k ∉ (redirected ps).*2).
Proof.
  pose proof (ar_nodup _ _ plan_arrays_ok) as Hnd. unfold all_of in Hnd.
  apply NoDup_app in Hnd as (_ & Hu & Hnd). apply NoDup_app in Hnd as (_ & Hd & Hnd).
  apply NoDup_app in Hnd as (Hf & Hft & Ht). split_and!; try done.
  - intros k Hk. specialize (Hu k Hk). rewrite !elem_of_app in Hu. tauto.
  - intros k Hk. specialize (Hd k Hk). rewrite !elem_of_app in Hd. tauto.
Qed.

Lemma redirect_map k n : (list_to_map (reverse (redirected ps)) : gmap Z Z) !! k = Some n <-> (k, n) ∈ redirected ps.
Proof.
  rewrite <- elem_of_list_to_map; [by rewrite elem_of_reverse|].
  rewrite reverse_Permutation. apply plan_nodup.
Qed.

Lemma redirect_from k n : (k, n) ∈ redirected ps -> k ∈ (redirected ps).*1.
Proof. intros H. apply list_elem_of_fmap. by exists (k, n). Qed.
Lemma redirect_target k n : (k, n) ∈ redirected ps -> n ∈ (redirected ps).*2.
Proof. intros H. apply list_elem_of_fmap. by exists (k, n). Qed.

Lemma elem_of_gone k : k ∈ gone_of ps <-> k ∈ nowunused ps \/ k ∈ nowdead ps \/ k ∈ (redirected ps).*1.
Proof. unfold gone_of. rewrite !elem_of_app. done. Qed.
#[local] Instance gone_dec k : Decision (k ∈ gone_of ps) := _.

Lemma target_stays j n : (j, n) ∈ redirected ps -> n ∉ gone_of ps.
Proof.
  intros H%redirect_target. destruct plan_nodup as (_ & _ & Hu & Hd & Hf). rewrite elem_of_gone.
  intros [Hx|[Hx|Hx]]; [by apply Hu in Hx as (_ & _ & ?)|by apply Hd in Hx as (_ & ?)|by apply Hf in Hx].
Qed.

(** What the plan does not mention stays as it is. *)
Lemma after_line k : k ∉ gone_of ps -> line after k = line v k.
Proof.
  intros Hk. unfold after. rewrite line_pruned. rewrite elem_of_gone in Hk.
  destruct (line v k) as [w|]; [|done]. cbn. f_equal. unfold pruned_line.
  rewrite !decide_False by tauto. destruct (list_to_map _ !! k) as [n|] eqn:Hm; [|done].
  apply redirect_map in Hm. apply redirect_from in Hm. tauto.
Qed.

Lemma after_unused k w : k ∈ nowunused ps -> line v k = Some w -> line after k = Some VUnused.
Proof. intros Hk Hl. unfold after. rewrite line_pruned, Hl. cbn. unfold pruned_line. by rewrite decide_True. Qed.

Lemma after_dead k w : k ∈ nowdead ps -> line v k = Some w -> line after k = Some (VPointer LP_DEAD 0).
Proof.
  intros Hk Hl. unfold after. rewrite line_pruned, Hl. cbn. unfold pruned_line.
  rewrite decide_False, decide_True; [done|done|]. destruct plan_nodup as (_ & _ & Hu & _).
  intros Hx. by destruct (Hu k Hx) as [? _].
Qed.

Lemma after_redirect k n w : (k, n) ∈ redirected ps -> line v k = Some w -> line after k = Some (VPointer LP_REDIRECT n).
Proof.
  intros Hk Hl. unfold after. rewrite line_pruned, Hl. cbn. unfold pruned_line.
  pose proof (redirect_from _ _ Hk) as Hf. destruct plan_nodup as (_ & _ & Hu & Hd & _).
  rewrite !decide_False; [|by intros [Hx _]%Hd|by intros (_ & Hx & _)%Hu].
  by rewrite (proj2 (redirect_map k n) Hk).
Qed.

Lemma after_tup k : tup_at after k = if decide (k ∈ gone_of ps) then None else tup_at v k.
Proof.
  case_decide as Hk; [|by apply tup_at_line, after_line]. unfold tup_at.
  destruct (line after k) as [w|] eqn:Hl; [|done].
  assert (Hv : exists w0, line v k = Some w0).
  { unfold after in Hl. rewrite line_pruned in Hl. destruct (line v k) as [w0|]; [by exists w0|done]. }
  destruct Hv as [w0 Hv]. apply elem_of_gone in Hk as [Hk|[Hk|Hk]].
  - rewrite (after_unused k w0) in Hl by done. by injection Hl as <-.
  - rewrite (after_dead k w0) in Hl by done. by injection Hl as <-.
  - apply list_elem_of_fmap in Hk as ([j n] & -> & Hk). cbn in *.
    rewrite (after_redirect j n w0) in Hl by done. by injection Hl as <-.
Qed.

(** A start of a chain that the plan changes has no predecessor. *)
Lemma root_no_pred k : k ∈ nowdead ps \/ k ∈ (redirected ps).*1 -> forall y, hot_next v y <> Some k.
Proof.
  intros Hk y Hy. destruct (next_tup head _ _ _ Hy) as [h Ht].
  destruct (pl_root _ _ _ _ _ _ Hp k Hk) as [Hl|(h' & Ht' & Ho & _)].
  - by rewrite (tup_no_link _ _ _ Ht) in Hl.
  - rewrite Ht in Ht'. injection Ht' as <-. by rewrite (ho_heap_only _ _ Hok _ _ _ Hy Ht) in Ho.
Qed.

Lemma next_gone x n : hot_next v x = Some n -> n ∈ gone_of ps -> n ∈ nowunused ps.
Proof. intros Hx. rewrite elem_of_gone. intros [?|Hr]; [done|]. by destruct (root_no_pred n Hr x). Qed.

Lemma target_tup j n : (j, n) ∈ redirected ps -> exists h, tup_at v n = Some h.
Proof.
  intros Hjn. destruct (pl_redirect _ _ _ _ _ _ Hp _ _ Hjn) as (l & Hl & _).
  apply linked_snoc in Hl as [_ Hl]. by eapply next_tup.
Qed.

Lemma pred_of_target j n : (j, n) ∈ redirected ps -> exists y, hot_next v y = Some n /\ y ∈ gone_of ps.
Proof.
  intros Hjn. destruct (pl_redirect _ _ _ _ _ _ Hp _ _ Hjn) as (l & Hl & Hu). apply linked_snoc in Hl as [_ Hl].
  exists (last_of j l). split; [done|]. apply elem_of_gone.
  pose proof (last_of_in j l) as [->|Hin]%elem_of_cons; [right; right; by eapply redirect_from|].
  left. rewrite Forall_forall in Hu. by apply Hu.
Qed.

Lemma after_link k n : link_at after k = Some n ->
  (k, n) ∈ redirected ps \/ (k ∉ gone_of ps /\ link_at v k = Some n).
Proof.
  intros Hl. destruct (decide (k ∈ gone_of ps)) as [Hk|Hk].
  2:{ right. split; [done|]. unfold link_at in *. by rewrite <- after_line. }
  left. unfold link_at in Hl. destruct (line after k) as [w|] eqn:Hw; [|done].
  assert (Hv : exists w0, line v k = Some w0).
  { unfold after in Hw. rewrite line_pruned in Hw. destruct (line v k) as [w0|]; [by exists w0|done]. }
  destruct Hv as [w0 Hv]. apply elem_of_gone in Hk as [Hk|[Hk|Hk]].
  - rewrite (after_unused k w0) in Hw by done. by injection Hw as <-.
  - rewrite (after_dead k w0) in Hw by done. by injection Hw as <-.
  - apply list_elem_of_fmap in Hk as ([j m] & -> & Hk). cbn in *.
    rewrite (after_redirect j m w0) in Hw by done. injection Hw as <-. by injection Hl as <-.
Qed.

Lemma redirect_line j n : (j, n) ∈ redirected ps -> link_at after j = Some n.
Proof.
  intros Hjn. destruct (all_lines _ _ _ _ _ _ _ Hp (proj2 (elem_of_all ps j) ltac:(right; right; left; by eapply redirect_from)))
    as [w Hw]. unfold link_at. by rewrite (after_redirect j n w).
Qed.

(** The successor in the pruned page. *)
Lemma after_next x n : hot_next after x = Some n <->
  (x, n) ∈ redirected ps \/ (x ∉ gone_of ps /\ hot_next v x = Some n /\ n ∉ nowunused ps).
Proof.
  split.
  - intros Hx. destruct (decide (x ∈ gone_of ps)) as [Hg|Hg].
    + left. unfold HotChain.hot_next in Hx. rewrite after_tup, decide_True in Hx by done.
      destruct (link_at after x) as [m|] eqn:Hl; [|done]. destruct (tup_at after m); [|done]. injection Hx as <-.
      by apply after_link in Hl as [?|[? _]].
    + right. split; [done|]. assert (Hn : n ∉ gone_of ps).
      { destruct (next_tup head _ _ _ Hx) as [h Ht]. rewrite after_tup in Ht. by case_decide. }
      split; [|by intros Hu; apply Hn, elem_of_gone; left].
      eapply hot_next_same; [| |exact Hx]; by rewrite after_line.
  - intros [Hr|(Hx & Hn & Hu)].
    + unfold HotChain.hot_next. rewrite after_tup, decide_True by (apply elem_of_gone; right; right; by eapply redirect_from).
      rewrite (redirect_line _ _ Hr). rewrite after_tup, decide_False by (by eapply target_stays).
      destruct (target_tup _ _ Hr) as [h ->]. done.
    + assert (Hng : n ∉ gone_of ps) by (intros Hg; apply Hu; by eapply next_gone).
      eapply hot_next_same; [| |exact Hn]; by rewrite after_line.
Qed.

Lemma after_item k w : line after k = Some w -> item_ok w.
Proof.
  intros Hl. unfold after in Hl. rewrite line_pruned in Hl. destruct (line v k) as [w0|] eqn:Hw; [|done].
  injection Hl as <-. unfold pruned_line. case_decide; [done|]. case_decide; [by left|].
  destruct (_ !! k); [by right|]. apply line_lookup in Hw as [_ Hw].
  eapply Forall_lookup_1; [apply (ho_items _ _ Hok)|done].
Qed.

Lemma after_hot_ok : hot_ok head after.
Proof.
  constructor.
  - apply Forall_lookup. intros i w Hw. apply (after_item (Z.of_nat i + 1)). apply line_lookup. split; [lia|].
    by replace (Z.to_nat (Z.of_nat i + 1 - 1)) with i by lia.
  - intros k n Hl. apply after_link in Hl as [Hr|[Hk Hl]].
    + destruct (target_tup _ _ Hr) as [h Ht]. exists h. rewrite after_tup, decide_False; [done|by eapply target_stays].
    + destruct (ho_link _ _ Hok _ _ Hl) as [h Ht]. exists h. rewrite after_tup, decide_False; [done|].
      assert (Hn : hot_next v k = Some n) by (unfold HotChain.hot_next; by rewrite (link_no_tup _ _ _ Hl), Hl, Ht).
      intros Hg. pose proof (next_gone _ _ Hn Hg) as Hu. rewrite elem_of_gone in Hk.
      assert (Hr : k < zlen v + 1).
      { unfold link_at in Hl. destruct (line v k) as [w|] eqn:Hw; [|done]. apply line_range in Hw. lia. }
      destruct (pl_link _ _ _ _ _ _ Hp _ _ Hr Hl) as [?|[?|[? _]]]; tauto.
  - intros k n h Hn Ht. rewrite after_tup in Ht. case_decide as Hg; [done|].
    apply after_next in Hn as [Hr|(_ & Hn & _)].
    + destruct (pred_of_target _ _ Hr) as (y & Hy & _). by eapply (ho_heap_only _ _ Hok).
    + by eapply (ho_heap_only _ _ Hok).
  - intros j k n Hj Hk. destruct plan_nodup as (_ & Ht & _).
    apply after_next in Hj as [Hj|(Hj & Hjn & Hu)]; apply after_next in Hk as [Hk|(Hk & Hkn & Hu')].
    + assert (H : forall l : list (Z * Z), NoDup l.*2 -> (j, n) ∈ l -> (k, n) ∈ l -> j = k); [|by eapply H].
      intros l. induction l as [|[a b] l IH]; [by intros _ ?%not_elem_of_nil|]. cbn. intros [Hb Hnd]%NoDup_cons.
      intros [[= -> ->]|H1]%elem_of_cons [[= ->]|H2]%elem_of_cons; [done|..|by apply IH].
      * destruct Hb. apply list_elem_of_fmap. by exists (k, b).
      * subst b. destruct Hb. apply list_elem_of_fmap. by exists (j, n).
    + destruct (pred_of_target _ _ Hj) as (y & Hy & Hg). rewrite (ho_unique _ _ Hok _ _ _ Hy Hkn) in Hg. done.
    + destruct (pred_of_target _ _ Hk) as (y & Hy & Hg). rewrite (ho_unique _ _ Hok _ _ _ Hy Hjn) in Hg. done.
    + by eapply (ho_unique _ _ Hok).
  - destruct (ho_acyclic _ _ Hok) as [rank Hrank]. exists rank. intros k n [Hr|(_ & Hn & _)]%after_next; [|by apply Hrank].
    destruct (pl_redirect _ _ _ _ _ _ Hp _ _ Hr) as (l & Hl & _).
    pose proof (linked_rank head v k _ rank Hrank Hl) as Hf. apply Forall_app in Hf as [_ Hf]. by apply Forall_inv in Hf.
Qed.

(** A walk that enters the removed tuples started where the plan recorded its
    start. *)
Lemma enters_removed j y : j ∉ nowunused ps -> reaches v j y -> y ∈ nowunused ps -> (exists k, hot_next v y = Some k) ->
  j ∈ nowdead ps \/ j ∈ (redirected ps).*1.
Proof.
  intros Hj. revert y. refine (rtc_ind_r _ j _ _); [done|]. intros x n Hx Hxn IH Hn [k Hk].
  destruct (pl_entry _ _ _ _ _ _ Hp _ _ Hn Hxn) as [Hu|[Hd|[Hd|Hend]]]; [|left|right|congruence].
  - apply IH; [done|by exists n].
  - assert (j = x) as ->; [|done]. apply (no_pred v); [|done]. apply root_no_pred. by left.
  - assert (j = x) as ->; [|done]. apply (no_pred v); [|done]. apply root_no_pred. by right.
Qed.

(** Pruning keeps the way to the tuples that stay. *)
Lemma after_reaches j k : j ∉ nowunused ps -> k ∉ gone_of ps -> reaches after j k <-> reaches v j k.
Proof.
  intros Hj Hk. split.
  - clear Hj Hk. induction 1 as [x|x y z Hxy _ IH]; [done|]. etrans; [|exact IH].
    apply after_next in Hxy as [Hr|(_ & Hn & _)]; [|by apply rtc_once].
    destruct (pl_redirect _ _ _ _ _ _ Hp _ _ Hr) as (l & Hl & _). clear -Hl. revert x Hl.
    induction l as [|u l IH]; intros x; simpl; [intros [? _]; by apply rtc_once|]. intros [Hn Hl].
    eapply rtc_l; [done|by apply IH].
  - intros Hr. revert k Hr Hk. refine (rtc_ind_r _ j _ _); [done|]. intros y k Hy Hyk IH Hk.
    assert (Hku : k ∉ nowunused ps) by (intros ?; apply Hk, elem_of_gone; by left).
    assert (Hvia : forall a, (a, k) ∈ redirected ps -> j ∈ nowdead ps \/ j ∈ (redirected ps).*1 -> reaches after j k).
    { intros a Ha Hjd. assert (a = j) as ->; [|apply rtc_once, after_next; by left].
      destruct (pl_redirect _ _ _ _ _ _ Hp _ _ Ha) as (l & Hl & _).
      apply (start_unique v a j k); [done| | | |].
      - clear -Hl. revert a Hl. induction l as [|u l IH]; intros x; simpl; [intros [? _]; by apply rtc_once|].
        intros [Hn Hl]. eapply rtc_l; [done|by apply IH].
      - by eapply rtc_r.
      - apply root_no_pred. right. by eapply redirect_from.
      - by apply root_no_pred. }
    destruct (decide (y ∈ gone_of ps)) as [Hg|Hg].
    2:{ eapply rtc_r; [by apply IH|]. apply after_next. by right. }
    apply elem_of_gone in Hg as [Hu|[Hd|Hf]].
    + destruct (pl_closed _ _ _ _ _ _ Hp _ _ Hu Hyk) as [?|Ht]; [done|].
      apply list_elem_of_fmap in Ht as ([a b] & -> & Ha). cbn in *. eapply Hvia; [done|].
      eapply enters_removed; [done|done|done|by exists b].
    + by pose proof (pl_dead _ _ _ _ _ _ Hp _ _ Hd Hyk).
    + apply list_elem_of_fmap in Hf as ([a b] & -> & Ha). cbn in *.
      assert (j = a) as -> by (apply (no_pred v); [apply root_no_pred; right; by eapply redirect_from|done]).
      destruct (pl_redirect _ _ _ _ _ _ Hp _ _ Ha) as (l & Hl & Hall).
      destruct l as [|u l]; destruct Hl as [Hn _]; rewrite Hyk in Hn; injection Hn as <-.
      * apply rtc_once, after_next. by left.
      * by apply Forall_inv in Hall.
Qed.

(** *** The count of the tuples *)

Definition tuples (w : list lp_view) : list Z := filter (is_tuple w) (seqZ 1 (zlen w)).

Lemma elem_of_tuples w k : k ∈ tuples w <-> is_tuple w k.
Proof.
  unfold tuples. rewrite list_elem_of_filter, elem_of_seqZ. split; [by intros [? _]|]. intros Hk. split; [done|].
  destruct Hk as [h Ht]. unfold tup_at in Ht. destruct (line w k) as [x|] eqn:Hl; [|done]. apply line_range in Hl. lia.
Qed.

Lemma after_count : zlen (tuples after) = zlen (tuples v) - gone_count v ps.
Proof.
  assert (H : tuples v ≡ₚ filter (is_tuple v) (gone_of ps) ++ tuples after).
  { apply NoDup_Permutation.
    - apply NoDup_filter, NoDup_seqZ.
    - apply NoDup_app. split_and!; [| |apply NoDup_filter, NoDup_seqZ].
      + apply NoDup_filter. pose proof (ar_nodup _ _ plan_arrays_ok) as Hnd. unfold all_of in Hnd.
        rewrite !app_assoc in Hnd. apply NoDup_app in Hnd as [Hnd _]. unfold gone_of. by rewrite !app_assoc.
      + intros k [_ Hk]%list_elem_of_filter. rewrite elem_of_tuples. unfold is_tuple. rewrite after_tup.
        rewrite decide_True by done. by intros [].
    - intros k. rewrite elem_of_app, list_elem_of_filter, !elem_of_tuples. unfold is_tuple. rewrite after_tup.
      case_decide; [|tauto]. split; [auto|]. intros [[? _]|[? ?]]; done. }
  unfold gone_count, zlen. apply Permutation_length in H. rewrite H, length_app. lia.
Qed.

(** The tuples behind redirects are of settled inserters, if they were. *)
Lemma after_settled : (forall k n h, link_at v k = Some n -> tup_at v n = Some h -> vl_settled st h) ->
  forall k n h, link_at after k = Some n -> tup_at after n = Some h -> vl_settled st h.
Proof.
  intros Hs k n h Hl Ht. rewrite after_tup in Ht. case_decide; [done|].
  apply after_link in Hl as [Hr|[_ Hl]]; [by eapply (pl_settled _ _ _ _ _ _ Hp)|by eapply Hs].
Qed.
End Plan.
End Chains.

(** ** heap_page_prune *)

Section PagePrune.
Context {bs : BlockSize} {ses : Session} {cat : PartitionCatalog} {S : Type} {vt : VacuumTest S}.
Context (head : HeapPage) (OldestXmin : Z) {laws : VacuumLaws S head OldestXmin} (blkno : Z).
Context (RelationNeedsWAL : bool) (XLogInsert : xl_heap_clean -> Z).

Lemma max_tuples_bounds : 0 < MaxHeapTuplesPerPage < 2 ^ 15.
Proof.
  unfold MaxHeapTuplesPerPage. pose proof BLCKSZ_bounds as [H _]. change (MAXALIGN 23) with 24.
  unfold SizeOfHeapPageHeaderData, sizeof_ItemIdData. change (2 ^ 15) with 32768. zdiv_lia.
Qed.

Lemma initial_plan_ok st v latest : plan_ok head OldestXmin 1 st v (initial_plan latest).
Proof.
  pose proof max_tuples_bounds as Hm. constructor; cbn; try (by intros; set_solver).
  - intros x n Hx Hl. unfold link_at in Hl. destruct (line v x) as [w|] eqn:Hw; [|done].
    apply line_range in Hw. lia.
  - constructor.
  - assert (Hlen : length (replicate (Z.to_nat (MaxHeapTuplesPerPage + 1)) false) = Z.to_nat (MaxHeapTuplesPerPage + 1))
      by apply length_replicate.
    split; [unfold zlen; rewrite Hlen; lia|]. intros k Hk. unfold zlookup.
    rewrite (proj2 (Z.leb_le 0 k)) by lia. rewrite lookup_replicate_2 by lia. done.
Qed.

(** What [heap_page_prune] leaves: [v] is the content with the hint bits of the
    scan, [ps] the plan. *)
Record prune_done s b (r : PruneResult) s' b' (v : list lp_view) ps (repair : bool) : Prop := {
  pr_inv : vl_inv s';
  pr_le : vl_le s s';
  pr_hints : hint_view (page_view (hb_page b)) v;
  pr_hot : hot_ok head v;
  pr_plan : plan_ok head OldestXmin (zlen v + 1) s' v ps;
  pr_tuples : forall k h, tup_at v k = Some h -> vl_tuple s' h;
  pr_links : forall k n h, link_at v k = Some n -> tup_at v n = Some h -> vl_settled s' h;
  pr_page : page_ok (hb_page b');
  pr_frame : same_frame (hb_page b) (hb_page b');
  pr_view : page_view (hb_page b') = after v ps;
  pr_head : htup_at (hb_head b') = htup_at head;
  pr_count : ndeleted r = gone_count v ps;
  pr_wal : wal r = if RelationNeedsWAL && (0 <? zlen (all_of ps))
    then Some (log_heap_clean (redirected ps) (nowdead ps) (nowunused ps) (latestRemovedXid ps) repair) else None }.

Lemma pruned_nothing v : pruned [] [] [] v = v.
Proof.
  apply line_ext. intros k. rewrite line_pruned. by destruct (line v k).
Qed.

Lemma plan_entries v ps : arrays_ok v ps -> zlen v <= MaxHeapTuplesPerPage ->
  entries_fit (zlen v) (redirected ps) (nowdead ps) (nowunused ps).
Proof.
  intros Ha Hv. pose proof max_tuples_bounds as Hm.
  assert (Hr : forall k, k ∈ all_of ps -> 1 <= k <= zlen v) by apply Ha. split_and!; apply Forall_forall.
  - intros [k n] Hin. cbn.
    assert (Hk := Hr k (proj2 (elem_of_all _ _) ltac:(right; right; left; by eapply redirect_from))).
    assert (Hn := Hr n (proj2 (elem_of_all _ _) ltac:(right; right; right; by eapply redirect_target))). lia.
  - intros k Hk. apply Hr, elem_of_all. tauto.
  - intros k Hk. apply Hr, elem_of_all. tauto.
Qed.

Lemma nothing_planned ps : (0 <? zlen (redirected ps)) || (0 <? zlen (nowdead ps)) || (0 <? zlen (nowunused ps)) = false ->
  redirected ps = [] /\ nowdead ps = [] /\ nowunused ps = [].
Proof.
  intros [[H1 H2]%orb_false_iff H3]%orb_false_iff. apply Z.ltb_ge in H1, H2, H3. by split_and!; apply zlen_nil_inv.
Qed.

Lemma something_planned ps : (0 <? zlen (redirected ps)) || (0 <? zlen (nowdead ps)) || (0 <? zlen (nowunused ps))
  = (0 <? zlen (all_of ps)).
Proof.
  unfold all_of. rewrite !zlen_app. unfold zlen. rewrite !length_fmap.
  apply eq_true_iff_eq. rewrite !orb_true_iff, !Z.ltb_lt. lia.
Qed.

Lemma heap_page_prune_spec report_stats latest repair s b :
  base_ok head OldestXmin (MkScan s b (initial_plan latest)) ->
  exists r s' b' v ps,
    heap_page_prune blkno RelationNeedsWAL XLogInsert OldestXmin report_stats latest repair s b = Done (r, s', b')
    /\ prune_done s b r s' b' v ps repair.
Proof.
  intros Hb. pose proof (b_page _ _ _ Hb) as Hpage. cbn in Hpage.
  assert (Hscan : pwp (scan_items blkno OldestXmin (Z.to_nat (zlen (pd_linp (hb_page b)))) FirstOffsetNumber 0)
    (fun d sc => scanned head OldestXmin (zlen (pd_linp (hb_page b)) + 1) (MkScan s b (initial_plan latest)) sc d)
    (MkScan s b (initial_plan latest))).
  { eapply (pwp_scan head OldestXmin blkno); [done| |done| |by intros d sc'].
    - constructor; [done|apply initial_plan_ok|apply hints_on_refl|done].
    - pose proof (zlen_nonneg (pd_linp (hb_page b))). cbn. unfold FirstOffsetNumber. lia. }
  unfold pwp in Hscan. unfold heap_page_prune. rewrite (max_offset _ Hpage).
  destruct (scan_items _ _ _ _ _ _) as [[d sc]|c|]; [|done..]. destruct Hscan as [Hb' Hplan Hhints Hcount].
  runs. destruct sc as [s' b1 ps]. cbn [sc_state sc_heap sc_plan] in *.
  pose proof (hints_linp _ _ _ _ _ Hhints) as Hlinp. cbn in Hlinp.
  destruct (hi_page _ _ _ _ _ Hhints) as [dat Hb1]. cbn in Hb1.
  pose proof (plan_arrays _ _ _ _ _ _ Hplan) as Harr. pose proof (b_page _ _ _ Hb') as Hp1. cbn in Hp1.
  pose proof (b_lines _ _ _ Hb') as Hmax. cbn in Hmax.
  pose proof (plan_entries _ _ Harr ltac:(by rewrite zlen_view)) as Hfit. rewrite zlen_view in Hfit.
  destruct (execute_spec (hb_page b1) _ _ _ repair Hp1 Hfit (fun _ => Hmax)) as (p2 & Hrun & Hp2 & Hf2 & Hv2).
  assert (Hframe : same_frame (hb_page b) (hb_page b1)) by (by rewrite Hb1).
  assert (Hdone : forall r b2, htup_at (hb_head b2) = htup_at head -> page_ok (hb_page b2) -> same_frame (hb_page b1) (hb_page b2) ->
    page_view (hb_page b2) = after (page_view (hb_page b1)) ps -> ndeleted r = d ->
    wal r = (if RelationNeedsWAL && (0 <? zlen (all_of ps))
      then Some (log_heap_clean (redirected ps) (nowdead ps) (nowunused ps) (latestRemovedXid ps) repair) else None) ->
    prune_done s b r s' b2 (page_view (hb_page b1)) ps repair).
  { intros r b2 H1 H2 [H3 H3'] H4 H5 H6. destruct Hframe as [F1 F2].
    constructor; try done; try apply Hb'; [apply Hhints|apply Hhints| |split; congruence|by rewrite H5].
    rewrite zlen_view, Hlinp. done. }
  pose proof (b_head _ _ _ Hb') as Hhd. cbn in Hhd. pose proof (something_planned ps) as Hsome.
  destruct ((0 <? zlen (redirected ps)) || (0 <? zlen (nowdead ps)) || (0 <? zlen (nowunused ps))) eqn:Hprune.
  - rewrite Hrun. runs. destruct RelationNeedsWAL eqn:Hwal; runs; (do 5 eexists; split; [reflexivity|]);
      apply Hdone; cbn; try done; try (by rewrite Hhd); try (by rewrite <- Hsome); by apply page_ok_flags.
  - apply nothing_planned in Hprune as (E1 & E2 & E3).
    assert (Hafter : forall v, after v ps = v) by (intros v; unfold after; rewrite E1, E2, E3; apply pruned_nothing).
    rewrite <- Hsome in Hdone. rewrite andb_false_r in Hdone.
    destruct (_ || _); runs; (do 5 eexists; split; [reflexivity|]);
      apply Hdone; cbn; try done; try (by rewrite Hhd); by apply page_ok_flags.
Qed.
End PagePrune.

(** ** Replay *)

Lemma pairs_flatten rs : pairs (flatten rs) = rs.
Proof. induction rs as [|[a b] rs IH]; [done|]. cbn. by rewrite IH. Qed.

Lemma length_flatten rs : length (flatten rs) = (2 * length rs)%nat.
Proof. induction rs as [|[a b] rs IH]; [done|]. cbn. rewrite IH. lia. Qed.

Section Replay.
Context {bs : BlockSize}.

(** Replay cuts the record into the arrays that were logged. *)
Lemma replay_execute wantspace lsn rs ds us latest repair b : zlen rs < 2 ^ 16 -> zlen ds < 2 ^ 16 ->
  HeapXlogCleanOperatorPage wantspace lsn (log_heap_clean rs ds us latest repair) b =
  (p ← heap_page_prune_execute (hb_page b) rs ds us repair;
   freespace ← (if wantspace then space ← PageGetHeapFreeSpace p; mret (Some space) else mret None);
   mret (freespace, PageSetLSN lsn (set_hb_page p b))).
Proof.
  intros Hr Hd. unfold HeapXlogCleanOperatorPage, log_heap_clean. cbn.
  rewrite !uN_small by (unfold in_u; split; [apply zlen_nonneg|done]).
  pose proof (zlen_nonneg rs) as Hr0. pose proof (zlen_nonneg ds) as Hd0. pose proof (zlen_nonneg us).
  assert (Hn : Z.to_nat (zlen rs * 2) = length (flatten rs)) by (rewrite length_flatten; unfold zlen; lia).
  assert (Hnd : Z.to_nat (zlen ds) = length ds) by (unfold zlen; lia).
  assert (Hlen : zlen (flatten rs ++ ds ++ us) = zlen rs * 2 + zlen ds + zlen us).
  { rewrite !zlen_app. unfold zlen at 1. rewrite length_flatten. unfold zlen. lia. }
  rewrite Hlen, (proj2 (Z.ltb_ge _ _)) by lia.
  by rewrite Hn, Hnd, take_app_length, drop_app_length, take_app_length, drop_app_length, pairs_flatten.
Qed.

Lemma replay_spec wantspace lsn rs ds us latest repair b : page_ok (hb_page b) ->
  entries_fit (zlen (pd_linp (hb_page b))) rs ds us -> zlen (pd_linp (hb_page b)) <= MaxHeapTuplesPerPage ->
  zlen rs < 2 ^ 16 -> zlen ds < 2 ^ 16 ->
  exists freespace b',
    HeapXlogCleanOperatorPage wantspace lsn (log_heap_clean rs ds us latest repair) b = Done (freespace, b')
    /\ page_ok (hb_page b') /\ same_frame (hb_page b) (hb_page b')
    /\ page_view (hb_page b') = pruned rs ds us (page_view (hb_page b)) /\ pd_lsn (hb_head b') = lsn.
Proof.
  intros Hp Hfit Hmax Hr Hd. rewrite replay_execute by done.
  destruct (execute_spec _ _ _ _ repair Hp Hfit (fun _ => Hmax)) as (p' & -> & Hp' & Hf & Hv). runs.
  destruct wantspace; runs; [|by do 2 eexists].
  assert (Hspace : exists space, PageGetHeapFreeSpace p' = Done space).
  { destruct (heap_free_space_spec p' Hp') as (space & ? & _). by exists space. }
  destruct Hspace as [space ->]. runs. by do 2 eexists.
Qed.

(** Pages that differ in hint bits only are pruned to such pages. *)
Lemma pruned_hints rs ds us v v' : hint_view v v' -> hint_view (pruned rs ds us v) (pruned rs ds us v').
Proof.
  intros Hv. unfold hint_view. apply Forall2_same_length_lookup. unfold pruned. rewrite !length_imap.
  split; [by eapply Forall2_length|]. intros i x y. rewrite !list_lookup_imap.
  destruct (v !! i) as [w|] eqn:Hw; [|done]. destruct (Forall2_lookup_l _ _ _ _ _ Hv Hw) as (w' & -> & Hi).
  cbn. intros [= <-] [= <-]. unfold pruned_line. case_decide; [apply hint_item_refl|].
  case_decide; [apply hint_item_refl|]. by destruct (list_to_map _ !! _); [apply hint_item_refl|].
Qed.
End Replay.
