(* ===== verification/RootTuples.v ===== *)
(** [heap_get_root_tuples] (PruneHeap.v): for every tuple of a heap page, the
    line pointer that the indexes use for its HOT chain.

    The outer loop starts a walk at every redirect and at every tuple that is
    not heap-only; the walk enters the start for every tuple it comes to.  A
    walk ends because chains have no cycle ([hot_ok]); it stays on the page
    because the links of the tuples do ([ctids_in]). *)
From S2P Require Import Prelude Xid HeapTuple Transam TransamSpec Visibility VisibilitySpec FsmPage FreeSpace BufPage BufPageSpec PruneHeap HotChain PruneScan PruneExec.
From stdpp Require Import list relations.
#[local] Open Scope Z_scope.

(** A start of a chain: what indexes point to. *)
Definition chain_start (v : list lp_view) (j : Z) : Prop := root_of (fun _ => True) v j.

(** The links of the tuples are line pointers of the page. *)
Definition ctids_in (v : list lp_view) : Prop :=
  forall k h, tup_at v k = Some h -> HeapTupleHeaderIsHotUpdated h = true -> 1 <= snd (t_ctid h) <= zlen v.

Section Roots.
Context {bs : BlockSize} {ses : Session} (head : HeapPage) (p : PageHeaderData).
Abbreviation v := (page_view p).
Abbreviation hot_next := (hot_next head).
Abbreviation reaches := (reaches head).
Context (Hp : page_ok p) (Hok : hot_ok head v) (Hctid : ctids_in v) (Hmax : zlen v <= MaxHeapTuplesPerPage).

Lemma start_no_pred j : chain_start v j -> forall y, hot_next v y <> Some j.
Proof.
  intros Hj y Hy. destruct (next_tup head _ _ _ Hy) as [h Ht]. destruct Hj as [Hl|(h' & Ht' & Ho & _)].
  - by rewrite (tup_no_link _ _ _ Ht) in Hl.
  - rewrite Ht in Ht'. injection Ht' as <-. by rewrite (ho_heap_only _ _ Hok _ _ _ Hy Ht) in Ho.
Qed.

(** [n] and [prior] are what [collect_chain] goes on with after [x]. *)
Definition goes_on (x n prior : Z) : Prop := pointed head v x [x] n prior.

(** The entries of the tuples that [T] holds of are [root], the others are as
    before. *)
Definition entered (T : Z -> Prop) (root : Z) (offs offs' : list Z) : Prop :=
  zlen offs' = zlen offs
  /\ (forall k, T k -> zlookup offs' (k - 1) = Some root)
  /\ (forall k, ~ T k -> zlookup offs' (k - 1) = zlookup offs (k - 1)).

Lemma entered_refl (T : Z -> Prop) root offs : (forall k, ~ T k) -> entered T root offs offs.
Proof. intros HT. split_and!; [done|by intros k ?%HT|done]. Qed.

Lemma entered_ext (T T' : Z -> Prop) root offs offs' : (forall k, T k <-> T' k) -> entered T root offs offs' -> entered T' root offs offs'.
Proof. intros HT (? & H1 & H2). split_and!; [done|intros k; by rewrite <- HT; apply H1|intros k; by rewrite <- HT; apply H2]. Qed.

Lemma enter_one root k (offs : list Z) : 1 <= k <= zlen offs ->
  exists offs', zupdate offs (k - 1) root = Some offs' /\ entered (eq k) root offs offs'.
Proof.
  intros Hk. exists (zset offs (k - 1) root). split; [apply zupdate_in; lia|]. split_and!; [apply zlen_zset| |].
  - intros j <-. rewrite zlookup_zset by lia. by rewrite decide_True.
  - intros j Hj. destruct (Z.le_gt_cases 1 j) as [Hj1|Hj1].
    + rewrite zlookup_zset by lia. rewrite decide_False; [done|lia].
    + unfold zlookup. by rewrite (proj2 (Z.leb_gt 0 (j - 1))) by lia.
Qed.

Lemma entered_trans (T1 T2 T : Z -> Prop) root offs offs1 offs2 : (forall k, T k <-> T1 k \/ T2 k) ->
  (forall k, T1 k \/ ~ T1 k) -> (forall k, T2 k \/ ~ T2 k) ->
  entered T1 root offs offs1 -> entered T2 root offs1 offs2 -> entered T root offs offs2.
Proof.
  intros HT Hd1 Hd2 (Hz1 & H1 & H1') (Hz2 & H2 & H2'). split_and!; [congruence| |].
  - intros k Hk. destruct (Hd2 k) as [Hk2|Hk2]; [by apply H2|]. rewrite H2' by done. apply H1. apply HT in Hk. tauto.
  - intros k Hk. rewrite HT in Hk. rewrite H2', H1' by tauto. done.
Qed.

(** The tuples that come after [x]. *)
Definition later (x k : Z) : Prop := exists y, hot_next v x = Some y /\ reaches v y k.

Lemma later_none x : hot_next v x = None -> forall k, ~ later x k.
Proof. intros Hx k (y & Hy & _). congruence. Qed.

Lemma later_next x n k : hot_next v x = Some n -> later x k <-> n = k \/ later n k.
Proof.
  intros Hx. split.
  - intros (y & Hy & Hr). rewrite Hx in Hy. injection Hy as <-. apply rtc_inv in Hr as [->|(z & ? & ?)]; [by left|].
    right. by exists z.
  - intros [->|(z & Hz & Hr)]; [by exists k|]. exists n. split; [done|]. by eapply rtc_l.
Qed.

Lemma path_bound x l : linked head v x l -> (length l <= length v)%nat.
Proof.
  intros Hl. assert (Hnd : NoDup l) by (pose proof (linked_nodup head v x l Hok Hl) as H; by apply NoDup_cons in H as [_ H]).
  assert (Hin : forall y, y ∈ l -> 1 <= y <= zlen v).
  { intros y Hy. destruct (linked_members head _ _ _ _ Hl Hy) as [z Hz]. destruct (next_tup head _ _ _ Hz) as [h Ht].
    unfold tup_at in Ht. destruct (line v y) as [w|] eqn:Hw; [|done]. by eapply line_range. }
  pose proof (nodup_bound _ _ Hnd Hin). unfold zlen in *. lia.
Qed.

(** Whether a tuple comes later is decided by the walk. *)
Lemma later_dec x : forall k, later x k \/ ~ later x k.
Proof.
  assert (H : forall fuel x k, (forall l, linked head v x l -> (length l < fuel)%nat) -> later x k \/ ~ later x k).
  { clear x. induction fuel as [|fuel IH]; intros x k Hb; [specialize (Hb [] I); simpl in Hb; lia|].
    destruct (hot_next v x) as [n|] eqn:Hn; [|right; by apply later_none].
    rewrite (later_next _ _ _ Hn). destruct (decide (n = k)) as [->|Hne]; [by left; left|].
    destruct (IH n k) as [?|?]; [|by left; right|right; tauto].
    intros l Hl. specialize (Hb (n :: l) (conj Hn Hl)). simpl in Hb. lia. }
  intros k. apply (H (S (length v))). intros l Hl. apply path_bound in Hl. lia.
Qed.

Lemma goes_on_in x n prior : goes_on x n prior -> 1 <= n <= zlen v.
Proof.
  intros [(_ & Hl & _)|(h & Ht & Hu & -> & _)]; [|by eapply Hctid].
  destruct (ho_link _ _ Hok _ _ Hl) as [h Ht]. unfold tup_at in Ht.
  destruct (line v n) as [w|] eqn:Hw; [|done]. by eapply line_range.
Qed.

Lemma goes_on_end x n prior : goes_on x n prior ->
  (forall h, tup_at v n = Some h -> (TransactionIdIsValid prior && negb (TransactionIdEquals (raw_xmin head h) prior)) = true) ->
  hot_next v x = None.
Proof.
  intros Hg Hno. destruct (hot_next v x) as [m|] eqn:Hm; [|done].
  destruct (pointed_only head v x x [] _ _ _ Hg Hm) as (-> & h & Ht & Hx). specialize (Hno h Ht). congruence.
Qed.

Lemma collect_chain_spec root : forall fuel x n prior offs, goes_on x n prior ->
  (forall l, linked head v x l -> (length l < fuel)%nat) -> zlen v <= zlen offs ->
  exists offs', collect_chain head p fuel root n prior offs = Done offs' /\ entered (later x) root offs offs'.
Proof.
  induction fuel as [|fuel IH]; intros x n prior offs Hg Hb Hz; [specialize (Hb [] I); simpl in Hb; lia|].
  cbn [collect_chain]. pose proof (goes_on_in _ _ _ Hg) as Hn. rewrite zlen_view in Hn.
  destruct (line_in p n Hn) as [w Hw]. destruct (line_item _ _ _ Hw) as (lp & Hlp & Hget & ->). rewrite Hget. runs.
  pose proof (line_tests_ok p n lp Hp (ho_items _ _ Hok) Hlp ltac:(lia)) as Ht. unfold line_tests in Ht.
  assert (Hend : hot_next v x = None -> exists offs', Done offs = Done offs' /\ entered (later x) root offs offs').
  { intros Hx. exists offs. split; [done|]. by apply entered_refl, later_none. }
  assert (Hlast : tup_at v n = None -> exists offs', Done offs = Done offs' /\ entered (later x) root offs offs').
  { intros Hnt. apply Hend. eapply goes_on_end; [done|]. intros h. by rewrite Hnt. }
  destruct (view (pd_data p) lp) as [|f off|f bytes] eqn:Hvw.
  - destruct Ht as (Hu & Hnt & _). destruct (ItemIdIsNormal lp) eqn:Hnorm; [|by apply Hlast].
    unfold ItemIdIsUsed, ItemIdIsNormal in *. apply Z.eqb_eq in Hnorm. by rewrite Hnorm in Hu.
  - destruct Ht as (_ & -> & Hnt & _). by apply Hlast.
  - destruct Ht as (_ & -> & _ & _ & _ & h & Htup). cbn [negb].
    destruct (tuple_item p n h Hp (ho_items _ _ Hok) Htup) as (lp' & bytes' & H1 & H2 & H3 & H4 & H5 & H6 & H7 & H8 & H9 & H10 & H11).
    rewrite Hlp in H1. injection H1 as <-. rewrite (read_header_at p lp bytes' Hp H3 H10 H9), <- H6. runs.
    change (HeapTupleGetRawXmin (htup_at head (0, 0)) h) with (raw_xmin head h).
    destruct (TransactionIdIsValid prior && negb (TransactionIdEquals prior (raw_xmin head h))) eqn:Hx.
    { apply Hend. eapply goes_on_end; [done|]. intros h' Hh'. rewrite Htup in Hh'. injection Hh' as <-.
      unfold TransactionIdEquals in *. by rewrite Z.eqb_sym. }
    assert (Hx' : (TransactionIdIsValid prior && negb (TransactionIdEquals (raw_xmin head h) prior)) = false).
    { unfold TransactionIdEquals in *. by rewrite Z.eqb_sym. }
    destruct (pointed_next head v x [x] n prior h Hg Htup Hx') as [Hnext _]. cbn in Hnext.
    destruct (enter_one root n offs) as (offs1 & -> & He1); [rewrite zlen_view in Hz; lia|]. runs.
    assert (Hz1 : zlen v <= zlen offs1) by (by rewrite (proj1 He1)).
    assert (Hb' : forall l, linked head v n l -> (length l < fuel)%nat).
    { intros l Hl. specialize (Hb (n :: l) (conj Hnext Hl)). simpl in Hb. lia. }
    destruct (HeapTupleHeaderIsHotUpdated h) eqn:Hu; cbn [negb].
    + destruct (IH n (snd (t_ctid h)) (update_xid head h) offs1) as (offs2 & Hrun & He2); [|done|done|].
      { right. by exists h. }
      exists offs2. split; [exact Hrun|]. eapply (entered_trans (eq n) (later n)); [|..|exact He1|exact He2].
      * intros k. by apply later_next.
      * intros k. destruct (decide (n = k)); auto.
      * apply later_dec.
    + exists offs1. split; [done|]. eapply entered_ext; [|exact He1]. intros k. rewrite (later_next _ _ _ Hnext).
      assert (Hnn : hot_next v n = None) by (unfold HotChain.hot_next; by rewrite Htup, Hu).
      pose proof (later_none _ Hnn k). tauto.
Qed.

(** [k] is a tuple of the chain that starts at [j]. *)
Definition owned (j k : Z) : Prop := chain_start v j /\ is_tuple v k /\ reaches v j k.

Lemma owned_unique i j k : owned i k -> owned j k -> i = j.
Proof. intros (Hi & _ & Hik) (Hj & _ & Hjk). eapply start_unique; [done|done|done|by apply start_no_pred..]. Qed.

Lemma later_tuple x k : later x k -> is_tuple v k.
Proof.
  intros (y & Hy & Hr). apply rtc_inv_r in Hr as [<-|(z & _ & Hz)]; by eapply next_tup.
Qed.

Lemma later_reaches x k : later x k -> reaches v x k.
Proof. intros (y & Hy & Hr). by eapply rtc_l. Qed.

Lemma reaches_later x k : reaches v x k -> x = k \/ later x k.
Proof. intros Hr. apply rtc_inv in Hr as [->|(y & ? & ?)]; [by left|right]. by exists y. Qed.

Lemma owned_redirect j n k : link_at v j = Some n -> owned j k <-> later j k.
Proof.
  intros Hl. split.
  - intros (_ & [h Ht] & [->|?]%reaches_later); [|done]. by rewrite (link_no_tup _ _ _ Hl) in Ht.
  - intros Hk. split_and!; [left; by rewrite Hl|by eapply later_tuple|by apply later_reaches].
Qed.

Lemma owned_tuple j h k : tup_at v j = Some h -> HeapTupleHeaderIsHeapOnly h = false -> owned j k <-> j = k \/ later j k.
Proof.
  intros Ht Ho. split; [by intros (_ & _ & ?%reaches_later)|]. intros Hk. split_and!.
  - right. by exists h.
  - destruct Hk as [<-|Hk]; [by exists h|by eapply later_tuple].
  - destruct Hk as [<-|Hk]; [done|by apply later_reaches].
Qed.

Lemma not_owned j : link_at v j = None -> (forall h, tup_at v j = Some h -> HeapTupleHeaderIsHeapOnly h = true) ->
  forall k, ~ owned j k.
Proof. intros Hl Ht k ([?|(h & Hh & Ho & _)] & _); [done|]. specialize (Ht h Hh). congruence. Qed.

Lemma collect_item_spec j offs : 1 <= j <= zlen v -> zlen v <= zlen offs ->
  exists offs', collect_item head p j offs = Done offs' /\ entered (owned j) j offs offs'.
Proof.
  intros Hj Hz. unfold collect_item. rewrite zlen_view in Hj.
  destruct (line_in p j Hj) as [w Hw]. destruct (line_item _ _ _ Hw) as (lp & Hlp & Hget & ->). rewrite Hget. runs.
  pose proof (line_tests_ok p j lp Hp (ho_items _ _ Hok) Hlp ltac:(lia)) as Ht. unfold line_tests in Ht.
  assert (Hb : forall l, linked head v j l -> (length l < S (length (pd_linp p)))%nat).
  { intros l Hl. apply path_bound in Hl. unfold page_view in Hl. rewrite length_fmap in Hl. lia. }
  assert (Hskip : link_at v j = None -> (forall h, tup_at v j = Some h -> HeapTupleHeaderIsHeapOnly h = true) ->
    exists offs', Done offs = Done offs' /\ entered (owned j) j offs offs').
  { intros Hl Hh. exists offs. split; [done|]. by apply entered_refl, not_owned. }
  destruct (view (pd_data p) lp) as [|f off|f bytes] eqn:Hvw.
  - destruct Ht as (-> & Hnt & Hnl). apply Hskip; [done|by rewrite Hnt].
  - destruct Ht as (-> & Hnorm & Hnt & [(_ & -> & Hl)|(_ & -> & Hnl)]); cbn [negb orb]; [|apply Hskip; [done|by rewrite Hnt]].
    rewrite Hnorm. destruct (collect_chain_spec j (S (length (pd_linp p))) j (lp_off lp) InvalidTransactionId offs) as (offs' & Hrun & He);
      [by left|done|done|].
    exists offs'. split; [exact Hrun|]. eapply entered_ext; [|exact He]. intros k. by rewrite owned_redirect.
  - destruct Ht as (-> & -> & _ & -> & Hnl & h & Htup). cbn [negb orb].
    destruct (tuple_item p j h Hp (ho_items _ _ Hok) Htup) as (lp' & bytes' & H1 & _ & H3 & _ & _ & H6 & _ & _ & H9 & H10 & _).
    rewrite Hlp in H1. injection H1 as <-. rewrite (read_header_at p lp bytes' Hp H3 H10 H9), <- H6. runs.
    destruct (HeapTupleHeaderIsHeapOnly h) eqn:Ho.
    { apply Hskip; [done|]. intros h' Hh'. rewrite Htup in Hh'. by injection Hh' as <-. }
    destruct (enter_one j j offs) as (offs1 & -> & He1); [rewrite zlen_view in Hz; lia|]. runs.
    assert (Hz1 : zlen v <= zlen offs1) by (by rewrite (proj1 He1)).
    destruct (HeapTupleHeaderIsHotUpdated h) eqn:Hu; cbn [negb].
    + destruct (collect_chain_spec j (S (length (pd_linp p))) j (snd (t_ctid h)) (update_xid head h) offs1)
        as (offs2 & Hrun & He2); [by right; exists h|done|done|].
      exists offs2. split; [exact Hrun|]. eapply (entered_trans (eq j) (later j)); [|..|exact He1|exact He2].
      * intros k. by rewrite owned_tuple.
      * intros k. destruct (decide (j = k)); auto.
      * apply later_dec.
    + exists offs1. split; [done|]. eapply entered_ext; [|exact He1]. intros k. rewrite owned_tuple by done.
      assert (Hnn : hot_next v j = None) by (unfold HotChain.hot_next; by rewrite Htup, Hu).
      pose proof (later_none _ Hnn k). tauto.
Qed.

(** The array after the starts below [cur]. *)
Definition collected (cur : Z) (offs : list Z) : Prop :=
  zlen offs = MaxHeapTuplesPerPage
  /\ (forall j k, j < cur -> owned j k -> zlookup offs (k - 1) = Some j)
  /\ (forall k, 1 <= k <= MaxHeapTuplesPerPage -> (forall j, j < cur -> ~ owned j k) -> zlookup offs (k - 1) = Some 0).

Lemma owned_dec j k : owned j k \/ ~ owned j k.
Proof.
  destruct (link_at v j) as [n|] eqn:Hl; [rewrite (owned_redirect j n k Hl); apply later_dec|].
  destruct (tup_at v j) as [h|] eqn:Ht; [|right; apply not_owned; [done|by rewrite Ht]].
  destruct (HeapTupleHeaderIsHeapOnly h) eqn:Ho.
  - right. apply not_owned; [done|]. intros h'. rewrite Ht. by intros [= <-].
  - rewrite (owned_tuple j h k Ht Ho). destruct (decide (j = k)) as [->|]; [by left; left|].
    destruct (later_dec j k); [by left; right|right; tauto].
Qed.

Lemma collect_items_spec n : forall cur offs, 1 <= cur -> cur + Z.of_nat n = zlen v + 1 -> collected cur offs ->
  exists offs', collect_items head p n cur offs = Done offs' /\ collected (zlen v + 1) offs'.
Proof.
  induction n as [|n IH]; intros cur offs Hcur Hn Hc; cbn [collect_items].
  - exists offs. split; [done|]. by replace (zlen v + 1) with cur by lia.
  - destruct Hc as (Hz & H1 & H2).
    destruct (collect_item_spec cur offs) as (offs1 & -> & (Hz1 & He1 & He2)); [lia|lia|]. runs.
    apply IH; [lia|lia|]. split_and!; [congruence| |].
    + intros j k Hj Ho. destruct (owned_dec cur k) as [Hk|Hk].
      * rewrite (owned_unique j cur k) by done. by apply He1.
      * rewrite He2 by done. apply H1; [|done]. destruct (decide (j = cur)) as [->|]; [done|lia].
    + intros k Hk Hno. rewrite He2 by (apply Hno; lia). apply H2; [done|]. intros j Hj. apply Hno. lia.
Qed.

Lemma root_tuples_spec : exists roots, heap_get_root_tuples head p = Done roots /\ zlen roots = MaxHeapTuplesPerPage
  /\ (forall j k, owned j k -> zlookup roots (k - 1) = Some j)
  /\ (forall k, 1 <= k <= MaxHeapTuplesPerPage -> (forall j, ~ owned j k) -> zlookup roots (k - 1) = Some 0).
Proof.
  pose proof max_tuples_bounds as Hm. unfold heap_get_root_tuples. rewrite (max_offset _ Hp), <- zlen_view.
  pose proof (zlen_nonneg v) as Hnn.
  destruct (collect_items_spec (Z.to_nat (zlen v)) FirstOffsetNumber (replicate (Z.to_nat MaxHeapTuplesPerPage) 0))
    as (roots & Hrun & Hz & H1 & H2).
  - done.
  - unfold FirstOffsetNumber. lia.
  - split_and!.
    + unfold zlen. rewrite length_replicate. lia.
    + intros j k Hj Ho. exfalso. destruct Ho as ([Hl|(h & Ht & _)] & _ & _).
      * unfold link_at in Hl. destruct (line v j) as [w|] eqn:Hw; [|done]. apply line_range in Hw. unfold FirstOffsetNumber in Hj. lia.
      * unfold tup_at in Ht. destruct (line v j) as [w|] eqn:Hw; [|done]. apply line_range in Hw. unfold FirstOffsetNumber in Hj. lia.
    + intros k Hk _. unfold zlookup. rewrite (proj2 (Z.leb_le 0 (k - 1))) by lia. apply lookup_replicate_2. lia.
  - exists roots. split_and!; [done|done| |].
    + intros j k Ho. apply H1; [|done]. destruct Ho as ([Hl|(h & Ht & _)] & _ & _).
      * unfold link_at in Hl. destruct (line v j) as [w|] eqn:Hw; [|done]. apply line_range in Hw. lia.
      * unfold tup_at in Ht. destruct (line v j) as [w|] eqn:Hw; [|done]. apply line_range in Hw. lia.
    + intros k Hk Hno. apply H2; [done|]. intros j _. apply Hno.
Qed.
End Roots.
