(* ===== verification/PruneWorld.v ===== *)
(** Heap pruning with the visibility tests of the server.

    [HeapTupleSatisfiesVacuum] and [TransactionIdDidCommit] (Visibility.v,
    Transam.v), run in a [World], are what the scan of PruneScan.v needs
    ([world_laws]): they return, leave the tuples in order, and give up the
    versions that no snapshot sees. *)
From S2P Require Import Prelude Xid HeapTuple Transam TransamSpec Visibility VisibilitySpec FsmPage FreeSpace BufPage BufPageSpec PruneHeap HotChain PruneScan.
From stdpp Require Import list relations.
#[local] Open Scope Z_scope.

(** ** No waiting

    The two tests never wait for another transaction. *)

Definition no_wait {A} (m : M A) : Prop := forall w, m w <> Raise ERRCODE_LOCK_WAIT_TIMEOUT.

Lemma no_wait_ret {A} (a : A) : no_wait (mret a).
Proof. done. Qed.
Lemma no_wait_bind {A B} (m : M A) (k : A -> M B) : no_wait m -> (forall a, no_wait (k a)) -> no_wait (m ≫= k).
Proof. intros Hm Hk w. unfold mbind, M_bind. specialize (Hm w). destruct (m w); [apply Hk|congruence|done]. Qed.
Lemma no_wait_fmap {A B} (f : A -> B) (m : M A) : no_wait m -> no_wait (f <$> m).
Proof. intros Hm w. unfold fmap, M_fmap. specialize (Hm w). destruct (m w); [done|congruence|done]. Qed.
Lemma no_wait_getw : no_wait getw.
Proof. done. Qed.
Lemma no_wait_modify f : no_wait (modify f).
Proof. done. Qed.
Lemma no_wait_of_option {A} (o : option A) : no_wait (of_option o).
Proof. by destruct o. Qed.
Lemma no_wait_tick : no_wait tick.
Proof. intros w. unfold tick. by destruct (w_later w). Qed.
Lemma no_wait_error {A} : no_wait (@LatestTransactionStatusError A).
Proof. done. Qed.

(** Case analysis down to the primitive computations. *)
Ltac no_wait_step :=
  match goal with
  | |- no_wait (mret _) => apply no_wait_ret
  | |- no_wait (_ ≫= _) => apply no_wait_bind; [|intros]
  | |- no_wait (_ <$> _) => apply no_wait_fmap
  | |- no_wait (if ?b then _ else _) => case b
  | |- no_wait (match ?x with _ => _ end) => case x
  | |- no_wait getw => apply no_wait_getw
  | |- no_wait (modify _) => apply no_wait_modify
  | |- no_wait (of_option _) => apply no_wait_of_option
  | |- no_wait tick => apply no_wait_tick
  | |- no_wait LatestTransactionStatusError => apply no_wait_error
  | |- forall _, _ => intros
  end.
Ltac no_wait := repeat (cbv zeta; no_wait_step); auto.

Section NoWait.
Context {bs : BlockSize} {ses : Session} {buf : Buffer}.

Lemma no_wait_current x : no_wait (TransactionIdIsCurrentTransactionId x).
Proof. unfold TransactionIdIsCurrentTransactionId. no_wait. Qed.

Lemma no_wait_log_fetch x : no_wait (TransactionLogFetch x).
Proof. unfold TransactionLogFetch, get_thrd, set_latest_clog, set_cached_clog, CLogGetStatusM. no_wait. Qed.

Lemma no_wait_did_commit_rec fuel : forall x, no_wait (DidCommit_rec fuel x).
Proof. pose proof no_wait_log_fetch. induction fuel; intros x; cbn [DidCommit_rec]; no_wait. Qed.

Lemma no_wait_did_commit x : no_wait (TransactionIdDidCommit x).
Proof. apply no_wait_did_commit_rec. Qed.

Lemma no_wait_csn x c m n snap : no_wait (TransactionIdGetCommitSeqNo x c m n snap).
Proof.
  unfold TransactionIdGetCommitSeqNo, FetchCSNFromCache, GetCSNByCLog, CSNLogGetNestCommitSeqNo, get_thrd,
    SetLatestFetchState, set_cached_csn, set_latest_csn, CLogGetStatusM. no_wait.
Qed.

Lemma no_wait_status x : no_wait (TransactionIdGetStatus x).
Proof. pose proof no_wait_csn. unfold TransactionIdGetStatus. no_wait. Qed.

Lemma no_wait_in_progress x : no_wait (TransactionIdIsInProgress x).
Proof.
  pose proof no_wait_csn. pose proof no_wait_current.
  unfold TransactionIdIsInProgress, TransactionIdIsInProgress_full, TransactionIdIsKnownCompleted, get_thrd. no_wait.
Qed.

Lemma no_wait_any test members : (forall x, no_wait (test x)) -> no_wait (any_member test members).
Proof. intros Ht. induction members; cbn [any_member]; no_wait. Qed.

Lemma no_wait_multi x : no_wait (MultiXactIdIsRunning x).
Proof.
  unfold MultiXactIdIsRunning. no_wait; apply no_wait_any; [apply no_wait_current|apply no_wait_in_progress].
Qed.

Lemma no_wait_hint m x : no_wait (SetHintBits m x).
Proof. unfold SetHintBits, TransactionIdGetCommitLSN, CLogGetStatusM, get_tuple, Visibility.get_page, get_thrd. no_wait. Qed.

Lemma no_wait_abort x : no_wait (LatestFetchTransactionIdDidAbort x).
Proof. unfold LatestFetchTransactionIdDidAbort, get_thrd. no_wait. Qed.

Lemma no_wait_vacuum OldestXmin b : no_wait (HeapTupleSatisfiesVacuum OldestXmin b).
Proof.
  pose proof no_wait_current. pose proof no_wait_did_commit. pose proof no_wait_status. pose proof no_wait_in_progress.
  pose proof no_wait_multi. pose proof no_wait_hint. pose proof no_wait_abort.
  unfold HeapTupleSatisfiesVacuum, HeapTupleSatisfiesVacuum_own, HeapTupleSatisfiesVacuum_xmax, HeapTupleSatisfiesVacuum_single,
    HeapTupleSatisfiesVacuum_multi, HeapTupleSatisfiesVacuum_locked, status_running, status_committed,
    RawXminM, RawXmaxM, XminM, XmaxM, get_tuple, Visibility.get_page, get_htup. no_wait.
Qed.
End NoWait.

(** ** The laws *)

Section World.
Context {bs : BlockSize} {ses : Session} {his : History} {buf : Buffer}.
Context (P : Shared -> Prop) (changed : Z -> Z -> Prop).

(** Who changes rows, [changed x d]: the transaction [d] updated or deleted a
    row that [x] inserted.  It saw the row; so if it commits, [x] commits too,
    no later and with no later CSN. *)
Record changes_ok : Prop := {
  ch_outcome : forall x d, changed x d -> oc d = true -> oc x = true /\ ocsn x <= ocsn d;
  ch_active : forall s x d, P s -> changed x d -> oc d = true -> xact_active s d = false -> xact_active s x = false }.

Section Laws.
Context (head : HeapPage) (OldestXmin : Z).
Context (Hses : session_ok) (Hhints : hints_allowed) (Hhor : OldestXmin <= RecentXmin) (Hch : changes_ok).

(** The tuple is in order: the hint bits are true, and its deleter, if it
    commits, changed it. *)
Definition row_in_order (s : Shared) (h : HeapTupleHeaderData) : Prop :=
  tuple_ok s head h /\ forall d, deleter head h = Some d -> oc d = true -> changed (xmin_of head h) d.

(** The fate of the inserter is certain: the abort is marked, the tuple is
    frozen, or the inserter committed and is out of the array. *)
Definition inserter_settled (s : Shared) (h : HeapTupleHeaderData) : Prop :=
  HeapTupleHeaderXminInvalid h = true \/ HeapTupleHeaderXminFrozen h = true
  \/ (oc (xmin_of head h) = true /\ xact_active s (xmin_of head h) = false /\ is_current (xmin_of head h) = false).

Definition never_inserted (h : HeapTupleHeaderData) : Prop :=
  HeapTupleHeaderXminFrozen h = false /\ oc (xmin_of head h) = false.

Definition dead_row (h : HeapTupleHeaderData) : Prop :=
  never_inserted h
  \/ exists d, deleter head h = Some d /\ oc d = true /\ TransactionIdPrecedes d OldestXmin = true.

(** Gone: the inserter aborted, or the deleter committed, no later than some
    transaction below the horizon. *)
Definition row_gone (s : Shared) (h : HeapTupleHeaderData) : Prop :=
  (HeapTupleHeaderXminFrozen h = false /\ known_aborted s (xmin_of head h))
  \/ exists d d', deleter head h = Some d /\ known_committed s d /\ oc d' = true
       /\ TransactionIdPrecedes d' OldestXmin = true /\ ocsn d <= ocsn d'.

(** No snapshot of the horizon sees a row that is gone. *)
Lemma gone_invisible snap s h : row_gone s h -> snap_ok snap s -> OldestXmin <= snap_xmin snap ->
  mvcc_visible snap head h = false.
Proof.
  intros Hg Hs Hle. unfold mvcc_visible, xact_visible.
  destruct Hg as [[_ (Ho & _ & Hc)]|(d & d' & -> & (Ho & _ & Hc) & Ho' & Hlt & Hcsn)].
  - rewrite Hc. unfold sees. by rewrite Ho.
  - pose proof (sees_low snap s d' Hses Hs Ho' ltac:(unfold TransactionIdPrecedes in *; lia)) as Hsee.
    unfold sees in *. rewrite Hc, Ho. rewrite Ho' in Hsee. cbn in *. apply Z.ltb_lt in Hsee.
    assert ((ocsn d <? snapshotcsn snap) = true) as -> by (apply Z.ltb_lt; lia). apply andb_false_r.
Qed.

Section Hint.
Context (h h' : HeapTupleHeaderData) (Hstep : hint_step h h').

Lemma step_deleter : deleter head h' = deleter head h.
Proof. apply hinted_deleter, Hstep. Qed.
Lemma step_xmin : xmin_of head h' = xmin_of head h.
Proof. apply hinted_xmin, Hstep. Qed.
Lemma step_never : never_inserted h' <-> never_inserted h.
Proof. unfold never_inserted. by rewrite step_xmin, (hs_frozen _ _ Hstep). Qed.
Lemma step_dead : dead_row h' <-> dead_row h.
Proof. unfold dead_row. by rewrite step_never, step_deleter. Qed.
Lemma step_gone s : row_gone s h -> row_gone s h'.
Proof. unfold row_gone. by rewrite step_deleter, step_xmin, (hs_frozen _ _ Hstep). Qed.
Lemma step_settled s : inserter_settled s h -> inserter_settled s h'.
Proof.
  unfold inserter_settled. rewrite step_xmin, (hs_frozen _ _ Hstep). intros [H|H]; [left; by apply Hstep|by right].
Qed.
End Hint.

Lemma row_gone_mono s s' h : evolves s s' -> row_gone s h -> row_gone s' h.
Proof.
  intros He [[Hf Ha]|(d & d' & Hd & Hk & Hr)]; [left; split; [done|by eapply known_aborted_mono]|].
  right. exists d, d'. split_and!; [done|by eapply known_committed_mono|apply Hr..].
Qed.

Lemma settled_row_mono s s' h : evolves s s' -> inserter_settled s h -> inserter_settled s' h.
Proof.
  intros He [?|[?|(? & Ha & ?)]]; [by left|by right; left|]. right; right. split_and!; [done|by apply (e_active _ _ He)|done].
Qed.

Lemma row_in_order_mono s s' h : evolves s s' -> row_in_order s h -> row_in_order s' h.
Proof. intros He [Ht Hc]. split; [by eapply tuple_ok_mono|done]. Qed.

(** The deleter of an updated row is the transaction its next version names. *)
Lemma update_xid_deleter h d : HeapTupleHeaderIsHotUpdated h = true -> deleter head h = Some d -> update_xid head h = d.
Proof.
  intros Hu%hot_not_invalid. unfold deleter, update_xid, HeapTupleGetUpdateXid. rewrite Hu.
  destruct (HEAP_XMAX_IS_LOCKED_ONLY (t_infomask h) (t_infomask2 h)) eqn:Hlo; [done|].
  destruct (flag (t_infomask h) HEAP_XMAX_IS_MULTI) eqn:Hm; cbn.
  - assert (flag (t_infomask2 h) HEAP_XMAX_LOCK_ONLY = false) as ->.
    { unfold HEAP_XMAX_IS_LOCKED_ONLY in Hlo. by destruct (flag (t_infomask2 h) HEAP_XMAX_LOCK_ONLY). }
    by intros [= <-].
  - by intros [= <-].
Qed.

(** The next version of a row was inserted by the deleter, if that committed. *)
Lemma next_inserter h h2 d : HeapTupleHeaderIsHotUpdated h = true -> follows head h h2 = true ->
  deleter head h = Some d -> oc d = true -> xmin_of head h2 = d.
Proof.
  intros Hu Hf Hd Ho. unfold follows in Hf. rewrite (update_xid_deleter h d) in Hf by done.
  apply negb_true_iff, andb_false_iff in Hf as [Hf|Hf].
  - exfalso. unfold TransactionIdIsValid in Hf. apply negb_false_iff, Z.eqb_eq in Hf. subst d.
    pose proof (s_special Hses InvalidTransactionId eq_refl) as Hsp. cbn in Hsp. congruence.
  - apply negb_false_iff in Hf. by apply Z.eqb_eq in Hf.
Qed.

(** Below the horizon nobody runs. *)
Lemma horizon_over s d : TransamSpec.consistent s -> TransactionIdPrecedes d OldestXmin = true ->
  xact_active s d = false /\ is_current d = false.
Proof. intros Hc Hd. apply (c_horizon _ Hc). unfold TransactionIdPrecedes in *. lia. Qed.

Definition test_world (h : HeapTupleHeaderData) (self : Z * Z) (w : World) : World :=
  set_htup (htup_at head self) (set_tuple head h w).

Lemma Inv_test h self w : Inv P w -> row_in_order (w_now w) h -> Inv P (test_world h self w).
Proof. intros [H1 H2 _] [Ht _]. by constructor. Qed.

(** What [HeapTupleSatisfiesVacuum] says, for a row in order. *)
Lemma vacuum_laws w h r w' : Inv P w -> row_in_order (w_now w) h ->
  answers P (vacuum_result OldestXmin head h) w r w' -> w_page w = head -> w_tuple w = h ->
  (hints_allowed -> r = HEAPTUPLE_DEAD -> HeapTupleHeaderXminFrozen h = false ->
     oc (xmin_of head h) = false -> HeapTupleHeaderXminInvalid (w_tuple w') = true) ->
  (r = HEAPTUPLE_DEAD -> dead_row h /\ inserter_settled (w_now w') (w_tuple w') /\ row_gone (w_now w') (w_tuple w')
     /\ forall h2, HeapTupleHeaderIsHotUpdated (w_tuple w') = true -> follows head (w_tuple w') h2 = true ->
        inserter_settled (w_now w') h2)
  /\ (HeapTupleHeaderXminInvalid h = false -> inserter_settled (w_now w) h -> dead_row h -> r = HEAPTUPLE_DEAD)
  /\ (r = HEAPTUPLE_RECENTLY_DEAD -> forall h2 s2, HeapTupleHeaderIsHotUpdated (w_tuple w') = true ->
      follows head (w_tuple w') h2 = true -> evolves (w_now w') s2 -> row_in_order s2 h2 -> row_gone s2 h2 ->
      row_gone s2 (w_tuple w')).
Proof.
  intros Hi [Hok Hchg] (Hfr & s & He1 & He2 & Hc & fi & fd & Hfi & Hfd & Hr) Hpg Htp Hmark.
  rewrite Hpg, Htp in Hfi, Hfd. pose proof (hf_step _ _ _ Hfr) as Hstep. rewrite Htp in Hstep.
  set (h' := w_tuple w') in *.
  assert (Hprev : forall d, known_committed s d -> known_committed (w_now w') d) by (intros; by eapply known_committed_mono).
  (* a row with a committed deleter *)
  assert (Hnext : forall d h2, known_committed s d -> TransactionIdPrecedes d OldestXmin = true ->
    deleter head h = Some d -> HeapTupleHeaderIsHotUpdated h' = true -> follows head h' h2 = true ->
    inserter_settled (w_now w') h2).
  { intros d h2 (Ho & _ & Hcur) Hlow Hd Hu Hf. rewrite <- (step_deleter h h' Hstep) in Hd.
    right; right. rewrite (next_inserter h' h2 d Hu Hf Hd Ho).
    destruct (horizon_over _ d (proj1 (hframe_now _ _ _ Hfr)) Hlow). done. }
  split_and!.
  - intros ->. destruct fi; cbn in Hr; [by destruct (own_deleted _ _ _)|done| |].
    + destruct fd; try done. unfold deleter_fate in Hfd. destruct (deleter head h) as [d|] eqn:Hd; [|done].
      assert (Hlow : TransactionIdPrecedes d OldestXmin = true).
      { unfold dead_or_recent in Hr. cbn in Hr. by destruct (TransactionIdPrecedes d OldestXmin). }
      pose proof Hfd as (Ho & _ & _). pose proof (Hchg d eq_refl Ho) as Hcd. split_and!.
      * right. by exists d.
      * apply (step_settled h h' Hstep). unfold inserter_fate in Hfi.
        destruct (HeapTupleHeaderXminFrozen h) eqn:Hfz; [by right; left|]. destruct Hfi as (Hox & _ & Hcx).
        right; right. split_and!; [done| |done]. destruct (hframe_now _ _ _ Hfr) as [Hc' HP'].
        destruct (horizon_over _ d Hc' Hlow) as [Ha _]. by eapply (ch_active Hch).
      * apply (step_gone h h' Hstep). right. exists d, d. split_and!; [done|by apply Hprev|done|done|done].
      * intros h2. by apply Hnext with d.
    + unfold inserter_fate in Hfi. destruct (HeapTupleHeaderXminFrozen h) eqn:Hfz; [done|].
      pose proof Hfi as (Ho & _ & _). pose proof (Hmark Hhints eq_refl eq_refl Ho) as Hinv. split_and!.
      * by left.
      * by left.
      * apply (step_gone h h' Hstep). left. split; [done|]. by eapply known_aborted_mono.
      * intros h2 Hu. unfold HeapTupleHeaderIsHotUpdated in Hu. by rewrite Hinv, andb_false_r in Hu.
  - intros Hninv Hset Hdead. destruct Hset as [?|Hset]; [congruence|].
    assert (Hins : fi = Committed /\ ~ never_inserted h).
    { unfold inserter_fate in Hfi. unfold never_inserted. destruct (HeapTupleHeaderXminFrozen h) eqn:Hfz; [split; [done|by intros []]|].
      destruct Hset as [?|(Ho & Ha & Hcu)]; [done|]. split; [|intros [_ ?]; congruence].
      apply (e_active _ _ He1) in Ha. destruct fi; [cbn in Hfi; congruence|destruct Hfi; congruence|done|destruct Hfi; congruence]. }
    destruct Hins as [-> Hnn]. destruct Hdead as [?|(d & Hd & Ho & Hlow)]; [done|].
    destruct (horizon_over s d Hc Hlow) as [Ha Hcu]. unfold deleter_fate in Hfd. rewrite Hd in Hfd.
    assert (fd = Committed) as ->.
    { destruct fd; [cbn in Hfd; congruence|destruct Hfd; congruence|done|destruct Hfd; congruence]. }
    rewrite Hr. cbn. rewrite Hd. unfold dead_or_recent. cbn. by rewrite Hlow.
  - intros -> h2 s2 Hu Hf He [_ Hchg2] Hgone.
    destruct fi; cbn in Hr; [by destruct (own_deleted _ _ _)|done| |done]. destruct fd; try done.
    unfold deleter_fate in Hfd. destruct (deleter head h) as [d|] eqn:Hd; [|done]. pose proof Hfd as (Ho & _ & _).
    assert (Hd' : deleter head h' = Some d) by (by rewrite (step_deleter h h' Hstep)).
    pose proof (next_inserter h' h2 d Hu Hf Hd' Ho) as Hx.
    destruct Hgone as [[_ (Hno & _)]|(d2 & d' & Hd2 & (Ho2 & _) & Ho' & Hlow & Hcsn)]; [congruence|].
    destruct (ch_outcome Hch _ _ (Hchg2 d2 Hd2 Ho2) Ho2) as [_ Hle]. rewrite Hx in Hle.
    right. exists d, d'. split_and!; [done| |done|done|lia]. eapply known_committed_mono; [exact He|by apply Hprev].
Qed.

Lemma did_commit_laws xid w : Inv P w ->
  exists b w', TransactionIdDidCommit xid w = Ret b w' /\ Inv P w' /\ evolves (w_now w) (w_now w').
Proof.
  intros Hi. assert (Hw : wp (TransactionIdDidCommit xid) (fun _ w' => Inv P w' /\ evolves (w_now w) (w_now w')) w).
  { apply (wp_TransactionIdDidCommit P); [apply Hses|done|]. intros b w' Hf _ _. split; apply Hf. }
  unfold wp in Hw. pose proof (no_wait_did_commit xid w) as Hn.
  destruct (TransactionIdDidCommit xid w) as [b w'|c|]; [by exists b, w'|congruence|done].
Qed.

Lemma invalid_is_dead w h self : HeapTupleHeaderXminInvalid h = true ->
  HeapTupleSatisfiesVacuum OldestXmin false (test_world h self w) = Ret HEAPTUPLE_DEAD (test_world h self w).
Proof.
  intros Hinv. pose proof Hinv as Hfl. rewrite XminInvalid_flags in Hfl. apply andb_true_iff in Hfl as [_ Hcom%negb_true_iff].
  unfold HeapTupleSatisfiesVacuum. cbv [get_tuple Visibility.get_page get_htup mbind M_bind getw modify mret M_ret].
  cbn. unfold HeapTupleHeaderXminCommitted. rewrite Hcom, Hinv. done.
Qed.

Lemma test_laws self h w : Inv P w -> row_in_order (w_now w) h ->
  exists r h' w', vt_satisfies head (htup_at head self) h OldestXmin w = Done (r, h', w')
    /\ Inv P w' /\ evolves (w_now w) (w_now w') /\ hint_step h h' /\ row_in_order (w_now w') h'
    /\ (r = HEAPTUPLE_DEAD -> dead_row h /\ inserter_settled (w_now w') h' /\ row_gone (w_now w') h'
        /\ forall h2, HeapTupleHeaderIsHotUpdated h' = true -> follows head h' h2 = true -> inserter_settled (w_now w') h2)
    /\ (inserter_settled (w_now w) h -> dead_row h -> r = HEAPTUPLE_DEAD)
    /\ (r = HEAPTUPLE_RECENTLY_DEAD -> forall h2 s2, HeapTupleHeaderIsHotUpdated h' = true ->
        follows head h' h2 = true -> evolves (w_now w') (w_now s2) -> row_in_order (w_now s2) h2 -> row_gone (w_now s2) h2 ->
        row_gone (w_now s2) h').
Proof.
  intros Hi Hrow. pose proof (Inv_test h self w Hi Hrow) as Hi0. cbn.
  assert (Hw : wp (HeapTupleSatisfiesVacuum OldestXmin false) (fun r w' =>
    answers P (vacuum_result OldestXmin head h) (test_world h self w) r w' /\ marks_aborted (test_world h self w) r w')
    (test_world h self w)).
  { apply (wp_Vacuum P); [done|done|]. intros r w' Ha Hm. done. }
  unfold wp in Hw. pose proof (no_wait_vacuum OldestXmin false (test_world h self w)) as Hn.
  destruct (HeapTupleSatisfiesVacuum OldestXmin false (test_world h self w)) as [r w'|c|] eqn:Hrun; [|congruence|done].
  destruct Hw as [Ha Hm]. fold (test_world h self w). rewrite Hrun. pose proof (proj1 Ha) as Hfr.
  destruct (vacuum_laws (test_world h self w) h r w' Hi0 Hrow Ha eq_refl eq_refl Hm) as (H1 & H2 & H3).
  pose proof (hf_step _ _ _ Hfr) as Hstep. change (w_tuple (test_world h self w)) with h in Hstep.
  exists r, (w_tuple w'), w'. split_and!; [done|apply Hfr|apply Hfr|done| |done| |].
  - destruct Hrow as [_ Hchg]. split; [|by rewrite (step_deleter h _ Hstep), (step_xmin h _ Hstep)].
    pose proof (i_tuple _ _ (hf_inv _ _ _ Hfr)) as Hok. by rewrite (hf_page _ _ _ Hfr) in Hok.
  - intros Hset Hdead. destruct (HeapTupleHeaderXminInvalid h) eqn:Hinv; [|by apply H2].
    pose proof (invalid_is_dead w h self Hinv) as Hd. rewrite Hrun in Hd. by injection Hd as ->.
  - intros Hr h2 s2. by apply (H3 Hr h2 (w_now s2)).
Qed.

Definition time_passes (w w' : World) : Prop := evolves (w_now w) (w_now w').

#[global] Instance time_passes_preorder : PreOrder time_passes.
Proof. split; [by intros w; unfold time_passes|]. intros w1 w2 w3. unfold time_passes. by etrans. Qed.

Lemma commit_test_laws xid w : Inv P w ->
  exists b w', vt_did_commit xid w = Done (b, w') /\ Inv P w' /\ time_passes w w'.
Proof.
  intros Hi. destruct (did_commit_laws xid w Hi) as (b & w' & Hrun & ? & ?). exists b, w'. cbv [vt_did_commit world_test]. by rewrite Hrun.
Qed.

#[global] Instance world_laws : VacuumLaws World head OldestXmin := {
  vl_inv := Inv P;
  vl_le := time_passes;
  vl_tuple w := row_in_order (w_now w);
  vl_settled w := inserter_settled (w_now w);
  vl_gone w := row_gone (w_now w);
  vl_dead := dead_row;
  vl_preorder := time_passes_preorder;
  vl_tuple_mono w w' h := row_in_order_mono (w_now w) (w_now w') h;
  vl_settled_mono w w' h := settled_row_mono (w_now w) (w_now w') h;
  vl_gone_mono w w' h := row_gone_mono (w_now w) (w_now w') h;
  vl_settled_hint w h h' Hs := step_settled h h' Hs (w_now w);
  vl_gone_hint w h h' Hs := step_gone h h' Hs (w_now w);
  vl_dead_hint h h' Hs := step_dead h h' Hs;
  vl_commit := commit_test_laws;
  vl_test := test_laws }.
End Laws.
End World.
