(* ===== verification/PruneHeapSpec.v ===== *)
(** The properties of heap pruning (PruneHeap.v).

    [heap_page_prune] on a page in order ([heap_in_order]), with the visibility
    tests run in a [World]: what it removes no snapshot sees, the HOT chains of
    the surviving tuples keep their starts, the page is in order again, and the
    replay of the WAL record does the same to the page of a standby. *)
From S2P Require Import Prelude Xid HeapTuple Transam TransamSpec Visibility VisibilitySpec FsmPage FreeSpace BufPage BufPageSpec PruneHeap HotChain PruneScan PruneExec PruneWorld RootTuples.
From stdpp Require Import list relations.
#[local] Open Scope Z_scope.

Section Order.
Context {bs : BlockSize} {ses : Session} {his : History} {buf : Buffer} {cat : PartitionCatalog}.
Context (P : Shared -> Prop) (changed : Z -> Z -> Prop).

(** The bytes of the buffer as line pointers and tuples. *)
Definition content (b : HeapBuffer) : list lp_view := page_view (hb_page b).

(** A heap page in order: its layout, its chains, its tuples; the tuple a
    redirect leads to was inserted by a transaction whose fate is certain. *)
Record heap_in_order (s : Shared) (b : HeapBuffer) : Prop := {
  hp_page : page_ok (hb_page b);
  hp_lines : zlen (content b) <= MaxHeapTuplesPerPage;
  hp_hot : hot_ok (hb_head b) (content b);
  hp_rows : forall k h, tup_at (content b) k = Some h -> row_in_order changed (hb_head b) s h;
  hp_links : forall k n h, link_at (content b) k = Some n -> tup_at (content b) n = Some h ->
    inserter_settled (hb_head b) s h }.

(** The LSN of the page is not part of it. *)
Section Bases.
Context (head head' : HeapPage) (Hhead : htup_at head' = htup_at head).

Lemma same_bases : pd_xid_base head' = pd_xid_base head /\ pd_multi_base head' = pd_multi_base head.
Proof. pose proof (f_equal (fun f => f (0, 0)) Hhead) as H. cbv beta in H. unfold htup_at in H. by injection H. Qed.

Lemma bases_xmin h : xmin_of head' h = xmin_of head h.
Proof. unfold xmin_of, HeapTupleHeaderGetXmin. by destruct same_bases as [-> _]. Qed.

Lemma bases_xmax h : HeapTupleHeaderGetXmax head' h = HeapTupleHeaderGetXmax head h.
Proof. unfold HeapTupleHeaderGetXmax. by destruct same_bases as [-> ->]. Qed.

Lemma bases_deleter h : deleter head' h = deleter head h.
Proof. unfold deleter, HeapTupleHeaderMultiXactGetUpdateXid. by rewrite bases_xmax. Qed.

Lemma bases_row s h : row_in_order changed head s h -> row_in_order changed head' s h.
Proof.
  intros [[H1 H2 H3 H4 H5 H6 H7] Hc]. split; [|by rewrite bases_deleter, bases_xmin].
  constructor; rewrite ?bases_xmin, ?bases_xmax, ?bases_deleter; done.
Qed.

Lemma bases_settled s h : inserter_settled head s h -> inserter_settled head' s h.
Proof. unfold inserter_settled. by rewrite bases_xmin. Qed.

Lemma bases_next v k : hot_next head' v k = hot_next head v k.
Proof. unfold hot_next, follows, raw_xmin, update_xid. by rewrite Hhead. Qed.

Lemma bases_hot v : hot_ok head v -> hot_ok head' v.
Proof.
  intros [H1 H2 H3 H4 [rank H5]]. constructor; [done|done| | |exists rank]; intros *; rewrite ?bases_next; eauto.
Qed.

Lemma bases_reaches v j k : reaches head' v j k <-> reaches head v j k.
Proof.
  unfold reaches. split; (induction 1 as [x|x y z Hxy _ IH]; [done|]); (eapply rtc_l; [|exact IH]).
  - by rewrite <- bases_next.
  - by rewrite bases_next.
Qed.
End Bases.

Section Prune.
Context (Hses : session_ok) (Hhints : hints_allowed) (Hch : changes_ok P changed).
Context (blkno : Z) (RelationNeedsWAL : bool) (XLogInsert : xl_heap_clean -> Z) (OldestXmin : Z).
Context (Hhor : OldestXmin <= RecentXmin).

Lemma heap_base head w b latest : hb_head b = head -> Inv P w -> heap_in_order (w_now w) b ->
  base_ok (laws := world_laws P changed head OldestXmin Hses Hhints Hhor Hch) head OldestXmin
    (MkScan w b (initial_plan latest)).
Proof.
  intros <- Hi [H1 H2 H3 H4 H5]. constructor; try done. cbn. by rewrite <- zlen_view.
Qed.

(** What [heap_page_prune] does, for all properties. *)
Lemma prune_spec report_stats latest repair w b : Inv P w -> heap_in_order (w_now w) b ->
  exists r w' b' v ps,
    heap_page_prune blkno RelationNeedsWAL XLogInsert OldestXmin report_stats latest repair w b = Done (r, w', b')
    /\ prune_done (laws := world_laws P changed (hb_head b) OldestXmin Hses Hhints Hhor Hch)
         (hb_head b) OldestXmin RelationNeedsWAL w b r w' b' v ps repair.
Proof.
  intros Hi Hb. eapply heap_page_prune_spec. by apply heap_base.
Qed.

Section Done.
Context (w w' : World) (b b' : HeapBuffer) (r : PruneResult) (v : list lp_view) (ps : PruneState) (repair : bool).
Context (Hdone : prune_done (laws := world_laws P changed (hb_head b) OldestXmin Hses Hhints Hhor Hch)
  (hb_head b) OldestXmin RelationNeedsWAL w b r w' b' v ps repair).

Lemma done_in_order : zlen (content b) <= MaxHeapTuplesPerPage -> heap_in_order (w_now w') b'.
Proof.
  intros Hmax. pose proof (pr_view _ _ _ _ _ _ _ _ _ _ _ Hdone) as Hview.
  pose proof (pr_head _ _ _ _ _ _ _ _ _ _ _ Hdone) as Hhead.
  pose proof (pr_hot _ _ _ _ _ _ _ _ _ _ _ Hdone) as Hhot.
  pose proof (pr_plan _ _ _ _ _ _ _ _ _ _ _ Hdone) as Hplan.
  constructor; unfold content; rewrite ?Hview.
  - apply Hdone.
  - unfold after. rewrite zlen_pruned.
    pose proof (Forall2_length _ _ _ (pr_hints _ _ _ _ _ _ _ _ _ _ _ Hdone)) as Hl. unfold content, zlen in *. lia.
  - apply (bases_hot _ _ Hhead). by eapply after_hot_ok.
  - intros k h Ht. apply (bases_row _ _ Hhead). erewrite after_tup in Ht by done. case_decide; [done|].
    by apply (pr_tuples _ _ _ _ _ _ _ _ _ _ _ Hdone k).
  - intros k n h Hl Ht. apply (bases_settled _ _ Hhead).
    by apply (after_settled _ _ _ _ _ Hplan (pr_links _ _ _ _ _ _ _ _ _ _ _ Hdone) k n).
Qed.

Lemma done_snapshots k h snap : tup_at v k = Some h -> k ∈ gone_of ps -> snap_ok snap (w_now w') ->
  OldestXmin <= snap_xmin snap -> mvcc_visible snap (hb_head b) h = false.
Proof.
  intros Ht Hk Hs Hle. pose proof (pr_plan _ _ _ _ _ _ _ _ _ _ _ Hdone) as Hplan.
  apply (gone_invisible _ OldestXmin Hses) with (w_now w'); [|done|done].
  apply elem_of_gone in Hk as [Hk|Hk].
  - destruct (pl_unused _ _ _ _ _ _ Hplan k Hk) as (h' & Ht' & _ & Hg). rewrite Ht in Ht'. by injection Ht' as <-.
  - destruct (pl_root _ _ _ _ _ _ Hplan k Hk) as [Hl|(h' & Ht' & _ & Hg)]; [by rewrite (tup_no_link _ _ _ Ht) in Hl|].
    rewrite Ht in Ht'. by injection Ht' as <-.
Qed.

(** Each tuple of the page stays as it is, or goes unseen. *)
Lemma done_tuples k h : tup_at v k = Some h ->
  line (content b') k = line v k
  \/ (tup_at (content b') k = None
      /\ forall snap, snap_ok snap (w_now w') -> OldestXmin <= snap_xmin snap -> mvcc_visible snap (hb_head b) h = false).
Proof.
  intros Ht. unfold content. rewrite (pr_view _ _ _ _ _ _ _ _ _ _ _ Hdone).
  pose proof (pr_plan _ _ _ _ _ _ _ _ _ _ _ Hdone) as Hplan. destruct (decide (k ∈ gone_of ps)) as [Hk|Hk].
  - right. split; [erewrite after_tup by done; by rewrite decide_True|]. intros snap. by apply (done_snapshots k h).
  - left. by eapply after_line.
Qed.

Lemma done_reaches j k : line (content b') j <> Some VUnused -> is_tuple (content b') k ->
  reaches (hb_head b') (content b') j k <-> reaches (hb_head b) v j k.
Proof.
  intros Hj Hk. transitivity (reaches (hb_head b) (content b') j k).
  { by apply bases_reaches, (pr_head _ _ _ _ _ _ _ _ _ _ _ Hdone). } revert Hj Hk.
  unfold content, is_tuple. rewrite (pr_view _ _ _ _ _ _ _ _ _ _ _ Hdone).
  pose proof (pr_plan _ _ _ _ _ _ _ _ _ _ _ Hdone) as Hplan. intros Hj [h Hk].
  eapply after_reaches; [apply Hdone|done| |].
  - intros Hu. apply Hj. destruct (all_lines _ _ _ _ _ _ j Hplan (proj2 (elem_of_all _ _) (or_introl Hu))) as [x Hx].
    by eapply after_unused.
  - intros Hg. erewrite after_tup in Hk by done. by rewrite decide_True in Hk.
Qed.

Lemma done_count : ndeleted r = zlen (tuples v) - zlen (tuples (content b')).
Proof.
  unfold content. rewrite (pr_view _ _ _ _ _ _ _ _ _ _ _ Hdone), (pr_count _ _ _ _ _ _ _ _ _ _ _ Hdone).
  erewrite after_count by apply Hdone. lia.
Qed.
End Done.

(** The counts of the record fit their fields. *)
Lemma arrays_small v ps : arrays_ok v ps -> zlen v <= MaxHeapTuplesPerPage ->
  zlen (redirected ps) < 2 ^ 16 /\ zlen (nowdead ps) < 2 ^ 16.
Proof.
  intros Ha Hv. pose proof max_tuples_bounds as Hm.
  pose proof (nodup_bound _ _ (ar_nodup _ _ Ha) (ar_lines _ _ Ha)) as Hn.
  unfold all_of, zlen in *. rewrite !length_app, !length_fmap in Hn. lia.
Qed.

(** ** The properties *)

(** C3 Pruning returns, whatever the page holds in order and whatever happens
    meanwhile.  A tuple of the page stays as it is or is removed, and one that
    is removed is invisible to every snapshot from the horizon on; the count
    it returns is the number of the removed tuples. *)
Theorem heap_page_prune_safe report_stats latest repair w b : Inv P w -> heap_in_order (w_now w) b ->
  exists r w' b' v,
    heap_page_prune blkno RelationNeedsWAL XLogInsert OldestXmin report_stats latest repair w b = Done (r, w', b')
    /\ Inv P w' /\ evolves (w_now w) (w_now w') /\ hint_view (content b) v
    /\ (forall k h, tup_at v k = Some h -> line (content b') k = line v k
         \/ (tup_at (content b') k = None
             /\ forall snap, snap_ok snap (w_now w') -> OldestXmin <= snap_xmin snap ->
                  mvcc_visible snap (hb_head b) h = false))
    /\ ndeleted r = zlen (tuples v) - zlen (tuples (content b')).
Proof.
  intros Hi Hb. destruct (prune_spec report_stats latest repair w b Hi Hb) as (r & w' & b' & v & ps & Hrun & Hd).
  exists r, w', b', v. split_and!; [done|apply Hd|apply Hd|apply Hd| |by eapply done_count].
  intros k h. by eapply done_tuples.
Qed.

(** C4 Pruning keeps the page in order, and the HOT chains: every line pointer
    that is still in use leads to the same surviving tuples as before. *)
Theorem heap_page_prune_keeps_chains report_stats latest repair w b : Inv P w -> heap_in_order (w_now w) b ->
  exists r w' b' v,
    heap_page_prune blkno RelationNeedsWAL XLogInsert OldestXmin report_stats latest repair w b = Done (r, w', b')
    /\ heap_in_order (w_now w') b' /\ hint_view (content b) v
    /\ forall j k, line (content b') j <> Some VUnused -> is_tuple (content b') k ->
         reaches (hb_head b') (content b') j k <-> reaches (hb_head b) v j k.
Proof.
  intros Hi Hb. destruct (prune_spec report_stats latest repair w b Hi Hb) as (r & w' & b' & v & ps & Hrun & Hd).
  exists r, w', b', v. split_and!; [done|eapply done_in_order; [exact Hd|apply Hb]|apply Hd|].
  intros j k. by eapply done_reaches.
Qed.

(** C5 The replay of the WAL record on a standby, whose page holds the same
    but for hint bits, returns, with the same but for hint bits as the pruned
    page and with the LSN of the record. *)
Theorem heap_page_prune_replayed report_stats latest repair w b r w' b' rec standby wantspace lsn :
  Inv P w -> heap_in_order (w_now w) b ->
  heap_page_prune blkno RelationNeedsWAL XLogInsert OldestXmin report_stats latest repair w b = Done (r, w', b') ->
  wal r = Some rec -> page_ok (hb_page standby) -> Forall item_ok (content standby) -> hint_view (content standby) (content b) ->
  exists freespace standby',
    HeapXlogCleanOperatorPage wantspace lsn rec standby = Done (freespace, standby')
    /\ page_ok (hb_page standby') /\ hint_view (content standby') (content b') /\ pd_lsn (hb_head standby') = lsn.
Proof.
  intros Hi Hb Hrun Hrec Hs Hit Hv.
  destruct (prune_spec report_stats latest repair w b Hi Hb) as (r0 & w0 & b0 & v & ps & Hrun0 & Hd).
  rewrite Hrun in Hrun0. injection Hrun0 as <- <- <-.
  rewrite (pr_wal _ _ _ _ _ _ _ _ _ _ _ Hd) in Hrec. destruct (_ && _); [|done]. injection Hrec as <-.
  pose proof (plan_arrays_ok _ _ _ _ _ (pr_plan _ _ _ _ _ _ _ _ _ _ _ Hd)) as Harr.
  pose proof (pr_hints _ _ _ _ _ _ _ _ _ _ _ Hd) as Hbv.
  assert (Hz : zlen (content standby) = zlen v).
  { apply Forall2_length in Hv, Hbv. unfold zlen, content in *. congruence. }
  assert (Hzb : zlen v <= MaxHeapTuplesPerPage).
  { rewrite <- Hz. pose proof (hp_lines _ _ Hb). apply Forall2_length in Hv. unfold zlen in *. congruence. }
  pose proof (plan_entries _ _ Harr Hzb) as Hfit. rewrite <- Hz in Hfit.
  unfold content in Hfit, Hz. rewrite zlen_view in Hfit, Hz.
  destruct (arrays_small v ps Harr Hzb) as [Hr Hdd].
  destruct (replay_spec wantspace lsn _ _ _ (latestRemovedXid ps) repair standby Hs Hfit ltac:(lia) Hr Hdd)
    as (fs & st' & Hrep & Hok & _ & Hview & Hlsn).
  exists fs, st'. split_and!; [done|done| |done]. unfold content.
  rewrite Hview, (pr_view _ _ _ _ _ _ _ _ _ _ _ Hd). apply pruned_hints.
  by eapply hint_view_trans.
Qed.
(** The free space of a page in order can be computed. *)
Lemma tight_returns minfree b : page_ok (hb_page b) -> exists t, page_is_tight minfree b = Done t.
Proof.
  intros Hp. unfold page_is_tight. destruct (PageIsFull (hb_page b)); [by exists true|].
  destruct (heap_free_space_spec (hb_page b) Hp) as (space & -> & _). runs. by eexists.
Qed.
End Prune.

(** Pruning on access returns.  It leaves the page alone, or prunes it under
    the cleanup lock, with the horizon of the relation, after a transaction of
    the page passed that horizon; the page it leaves is in order. *)
Theorem heap_page_prune_opt_correct (Hses : session_ok) (Hhints : hints_allowed) (Hch : changes_ok P changed)
    blkno RelationNeedsWAL XLogInsert ro postmaster switchover upgrade rel w unlocked locked :
  recentGlobalXmin <= RecentXmin -> Inv P w -> page_ok (hb_page unlocked) ->
  (forall b, locked = Some b -> heap_in_order (w_now w) b) ->
  exists o, heap_page_prune_opt blkno RelationNeedsWAL XLogInsert ro postmaster switchover upgrade rel w unlocked locked = Done o
  /\ match o with
     | None => True
     | Some (r, w', b') => exists b, locked = Some b
         /\ PageIsPrunable unlocked (prune_horizon rel) = true
         /\ prune_horizon rel <= recentGlobalXmin
         /\ heap_page_prune blkno RelationNeedsWAL XLogInsert (prune_horizon rel) true InvalidTransactionId true w b
            = Done (r, w', b')
         /\ heap_in_order (w_now w') b'
     end.
Proof.
  intros Hrec Hi Hu Hl. unfold heap_page_prune_opt.
  assert (Hhor : prune_horizon rel <= recentGlobalXmin).
  { unfold prune_horizon. destruct (_ || _); [|lia]. destruct (negb _ && _) eqn:Hs; [|lia].
    apply andb_true_iff in Hs as [_ Hs%Z.ltb_lt]. lia. }
  destruct (RecoveryInProgress || ro); [by exists None|].
  destruct (_ || _ || _ || _); [by exists None|].
  destruct (PageIsPrunable unlocked (prune_horizon rel)) eqn:Hpr; [|by exists None]. cbn [negb].
  destruct (tight_returns (Z.max (RelationGetTargetPageFreeSpace rel) (Z.quot BLCKSZ 10)) unlocked Hu) as [t ->]. runs.
  destruct t; [|by exists None]. destruct locked as [b|]; [|by exists None].
  specialize (Hl b eq_refl).
  destruct (tight_returns (Z.max (RelationGetTargetPageFreeSpace rel) (Z.quot BLCKSZ 10)) b (hp_page _ _ Hl)) as [t ->]. runs.
  destruct t; [|by exists None].
  destruct (prune_spec Hses Hhints Hch blkno RelationNeedsWAL XLogInsert (prune_horizon rel) (Z.le_trans _ _ _ Hhor Hrec)
    true InvalidTransactionId true w b Hi Hl) as (r & w' & b' & v & ps & Hrun & Hd).
  rewrite Hrun. runs. eexists. split; [done|]. cbn beta iota. exists b.
  split_and!; [done|done|done|done|]. eapply done_in_order; [exact Hd|apply Hl].
Qed.
End Order.

(** C40 [heap_get_root_tuples] on a heap page in order ([page_ok], and [hot_ok], which
    pruning keeps: in particular no chain is a cycle; the links of the tuples are
    line pointers of the page, and these are at most [MaxHeapTuplesPerPage]) ends,
    and maps every tuple of a HOT chain to the line pointer where the chain starts,
    the one the indexes use; a line pointer that no chain leads to is mapped to 0. *)
Theorem heap_get_root_tuples_correct {bs : BlockSize} {ses : Session} (head : HeapPage) (p : PageHeaderData)
    (Hp : page_ok p) (Hhot : hot_ok head (page_view p)) (Hctid : ctids_in (page_view p))
    (Hmax : zlen (page_view p) <= MaxHeapTuplesPerPage) :
  exists roots, heap_get_root_tuples head p = Done roots /\ zlen roots = MaxHeapTuplesPerPage
  /\ (forall j k, chain_start (page_view p) j -> is_tuple (page_view p) k -> reaches head (page_view p) j k ->
       zlookup roots (k - 1) = Some j)
  /\ (forall k, 1 <= k <= MaxHeapTuplesPerPage ->
       (forall j, chain_start (page_view p) j -> is_tuple (page_view p) k -> ~ reaches head (page_view p) j k) ->
       zlookup roots (k - 1) = Some 0).
Proof.
  destruct (root_tuples_spec head p Hp Hhot Hctid Hmax) as (roots & Hrun & Hz & H1 & H2).
  exists roots. split_and!; [done|done|intros; by apply H1|].
  intros k Hk Hno. apply H2; [done|]. intros j (Hj & Ht & Hr). by apply (Hno j).
Qed.

(** ** A page to prune

    Transaction 10 updated the row of line pointer 1 twice and committed; 11
    inserted the row of line pointer 4 and aborted.  Both are over, and the
    horizon is 12. *)
Module Updates.
Import Scenario Runs.

Definition session : Session := {|
  SS_STANDBY_MODE := false; RecoveryInProgress := false; InRecovery := false;
  IsRoachStandbyCluster := false; IsBootstrapProcessingMode := false;
  IS_DISASTER_RECOVER_MODE := false; GTM_LITE_MODE := false; IsInitdb := false;
  StreamThreadAmI := false; useLocalSnapshot := false; bInAbortTransaction := false;
  xc_maintenance_mode := false; XactReadOnly := false; enable_show_any_tuples := false;
  enable_cluster_resize := false; XactIsoLevel := 1; TransactionXmin := 3;
  RecentXmin := 12; recentGlobalXmin := 12; recentLocalXmin := 12; globalRecycleXid := 3;
  ReplicationSlotCatalogXmin := 3; startupMaxXid := 10; currentCommandId := 5;
  CurrentTransactionState := [MkXactState false 12 []]; comboCids := [];
  GetMultiXactIdMembers := fun _ => [] |}.

Definition permanent : Buffer := true.

Definition catalog : PartitionCatalog := {|
  t_tableOid := 16384; fastgetattr := fun _ _ => None; PartitionLocalIndexSkipping := fun _ => false;
  PartitionInvisibleMetadataKeep := fun _ => false; PartitionParentOidIsLive := fun _ => true |}.

#[local] Existing Instances session outcome block_256 permanent catalog.

(** The 24 bytes of a tuple without columns. *)
Definition tuple_bytes (xmin xmax pos infomask2 infomask : Z) : list Z :=
  [xmin; 0; 0; 0; xmax; 0; 0; 0; 0; 0; 0; 0; 0; 0; 0; 0; pos; 0; 0; infomask2; 0; infomask; 24; 0].

Definition heap_page : PageHeaderData :=
  fold_left (fun p t => match PageAddItem p t 0 false true with Done (_, p) => p | _ => p end)
    [tuple_bytes 2 10 2 0x40 0; tuple_bytes 10 10 3 0xC0 0; tuple_bytes 10 0 3 0x80 0x08; tuple_bytes 11 0 4 0 0x08]
    (PageInit 0 true).

Definition heap : HeapBuffer := MkHeap heap_page page 10 false.
Definition start : World := Runs.ended tuple.
Definition by_ten (x d : Z) : Prop := d = 10 /\ (x = 2 \/ x = 10).
Definition over (s : Shared) : Prop := s = after.

Definition pruned_heap : run (PruneResult * World * HeapBuffer) :=
  heap_page_prune 0 true (fun _ => 77) 12 true 0 true start heap.

(** The row keeps its last version, behind a redirect. *)
Example heap_pruned :
  match pruned_heap with
  | Done (r, _, b') => ndeleted r = 3
      /\ content b' = [VPointer LP_REDIRECT 3; VUnused; VItem LP_NORMAL (tuple_bytes 10 0 3 0x80 0x09); VPointer LP_DEAD 0]
  | _ => False
  end.
Proof. vm_compute. done. Qed.

Lemma session_right : session_ok.
Proof.
  constructor; try done; [|by repeat constructor|by right].
  intros x Hn%not_normal. unfold BootstrapTransactionId, FrozenTransactionId. simpl. split_eqb; simpl; try done; lia.
Qed.

(** Only the horizon is another one than in [Scenario]. *)
Lemma over_consistent : TransamSpec.consistent after.
Proof.
  destruct after_consistent as [H1 H2 H3 H4 H5 H6 H7 H8 H9 H10 H11 H12 H13].
  constructor; try assumption.
  unfold TransactionIdPrecedes. intros x Hx%Z.ltb_lt. rewrite active_after.
  change (is_current x) with (@is_current Scenario.session x). rewrite current_is.
  change RecentXmin with 12 in Hx. split; [by apply Z.ltb_ge; lia|by apply Z.eqb_neq; lia].
Qed.

Lemma after_evolves : evolves after after.
Proof. done. Qed.

Lemma hints_right : hints_allowed.
Proof. done. Qed.

Lemma changes_right : changes_ok over by_ten.
Proof.
  constructor.
  - by intros x d [-> [-> | ->]] _.
  - by intros s x d -> [-> [-> | ->]].
Qed.

Lemma known_over x : x <= 11 -> known after x.
Proof. apply Runs.known_after. Qed.

(** Every tuple of the page. *)
Lemma rows_right k h : tup_at (content heap) k = Some h ->
  (k = 1 /\ h = MkHeader 2 10 0 (0, 2) 0x4000 0) \/ (k = 2 /\ h = MkHeader 10 10 0 (0, 3) 0xC000 0)
  \/ (k = 3 /\ h = MkHeader 10 0 0 (0, 3) 0x8000 0x0800) \/ (k = 4 /\ h = MkHeader 11 0 0 (0, 4) 0 0x0800).
Proof.
  intros Ht. assert (Hk : 1 <= k <= 4).
  { unfold tup_at in Ht. destruct (line (content heap) k) as [w|] eqn:Hl; [|done]. by apply line_range in Hl. }
  assert (k = 1 \/ k = 2 \/ k = 3 \/ k = 4) as [-> | [-> | [-> | ->]]] by lia;
    (vm_compute in Ht; injection Ht as <-); auto 6.
Qed.

Lemma next_right k n : hot_next (hb_head heap) (content heap) k = Some n -> (k = 1 /\ n = 2) \/ (k = 2 /\ n = 3).
Proof.
  intros Hk. assert (Hr : 1 <= k <= 4).
  { destruct (line (content heap) k) as [w|] eqn:Hl; [by apply line_range in Hl|].
    unfold hot_next, tup_at, link_at in Hk. by rewrite Hl in Hk. }
  assert (k = 1 \/ k = 2 \/ k = 3 \/ k = 4) as [-> | [-> | [-> | ->]]] by lia; vm_compute in Hk; simplify_eq; auto.
Qed.

Lemma links_right k n : link_at (content heap) k <> Some n.
Proof.
  intros Hk. assert (Hr : 1 <= k <= 4).
  { unfold link_at in Hk. destruct (line (content heap) k) as [w|] eqn:Hl; [by apply line_range in Hl|done]. }
  assert (k = 1 \/ k = 2 \/ k = 3 \/ k = 4) as [-> | [-> | [-> | ->]]] by lia; by vm_compute in Hk.
Qed.

Lemma hot_right : hot_ok (hb_head heap) (content heap).
Proof.
  constructor.
  - vm_compute content. repeat constructor; vm_compute; done.
  - by intros k n ?%links_right.
  - intros k n h Hn Ht. destruct (rows_right _ _ Ht) as [[-> _]|[[-> ->]|[[-> ->]|[-> _]]]]; [|done..|];
      apply next_right in Hn; lia.
  - intros j k n Hj%next_right Hk%next_right. lia.
  - exists Z.to_nat. intros k n Hn%next_right. lia.
Qed.

Lemma nobody_over : known_aborted after 0.
Proof. split_and!; vm_compute; auto 6. Qed.

Ltac row_hints :=
  constructor; unfold xmin_of; cbn; intros;
  first [apply known_over; vm_compute; discriminate
        |match goal with H : _ = _ |- _ => by vm_compute in H end
        |match goal with H : _ = Some _ |- _ => vm_compute in H; injection H as <-; apply nobody_over end].
Ltac row_right :=
  split; [row_hints|intros d Hd Ho; vm_compute in Hd; injection Hd as <-; first [discriminate Ho|unfold by_ten; vm_compute; auto]].

Lemma heap_right : heap_in_order by_ten after heap.
Proof.
  constructor.
  - apply page_okb_ok. by vm_compute.
  - vm_compute. discriminate.
  - apply hot_right.
  - intros k h Ht. destruct (rows_right _ _ Ht) as [[_ ->]|[[_ ->]|[[_ ->]|[_ ->]]]]; row_right.
  - by intros k n h ?%links_right.
Qed.

Lemma start_right : Inv over start.
Proof.
  constructor; [|by constructor|].
  - constructor; [|by repeat constructor].
    apply Forall_cons_2; [|apply Forall_nil_2]. split_and!; [apply over_consistent|done|done].
  - change (tuple_ok after page tuple). row_hints.
Qed.

Lemma links_in : ctids_in (content heap).
Proof.
  intros k h Ht Hu. destruct (rows_right _ _ Ht) as [[_ ->]|[[_ ->]|[[_ ->]|[_ ->]]]]; vm_compute; split; discriminate.
Qed.

Lemma pruned_logs : exists r w' b' rec, pruned_heap = Done (r, w', b') /\ wal r = Some rec.
Proof.
  assert (H : match pruned_heap with Done (r, _, _) => wal r | _ => None end <> None) by (vm_compute; discriminate).
  destruct pruned_heap as [[[r w'] b']|c|]; [|done..]. destruct (wal r) as [rec|] eqn:Hr; [|done]. by exists r, w', b', rec.
Qed.

Example heap_pruned_on_access :
  match heap_page_prune_opt 0 true (fun _ => 77) false true false 0 (MkRelation false false 10) start heap (Some heap) with
  | Done (Some (r, _, _)) => ndeleted r = 3
  | _ => False
  end.
Proof. by vm_compute. Qed.
End Updates.

(** ** Witnesses *)

#[local] Existing Instances Updates.session Scenario.outcome block_256 Updates.permanent Updates.catalog.
Import Updates.

Lemma heap_page_prune_safe_witness :
  exists r w' b' v, pruned_heap = Done (r, w', b')
    /\ Inv over w' /\ evolves (w_now start) (w_now w') /\ hint_view (content heap) v
    /\ (forall k h, tup_at v k = Some h -> line (content b') k = line v k
         \/ (tup_at (content b') k = None
             /\ forall snap, snap_ok snap (w_now w') -> 12 <= snap_xmin snap ->
                  mvcc_visible snap (hb_head heap) h = false))
    /\ ndeleted r = zlen (tuples v) - zlen (tuples (content b')).
Proof.
  apply (heap_page_prune_safe over by_ten session_right hints_right changes_right 0 true (fun _ => 77) 12 (Z.le_refl 12)
    true 0 true start heap start_right heap_right).
Defined.

Lemma heap_page_prune_keeps_chains_witness :
  exists r w' b' v, pruned_heap = Done (r, w', b')
    /\ heap_in_order by_ten (w_now w') b' /\ hint_view (content heap) v
    /\ forall j k, line (content b') j <> Some VUnused -> is_tuple (content b') k ->
         reaches (hb_head b') (content b') j k <-> reaches (hb_head heap) v j k.
Proof.
  apply (heap_page_prune_keeps_chains over by_ten session_right hints_right changes_right 0 true (fun _ => 77) 12 (Z.le_refl 12)
    true 0 true start heap start_right heap_right).
Defined.

Lemma heap_page_prune_opt_correct_witness :
  exists o, heap_page_prune_opt 0 true (fun _ => 77) false true false 0 (MkRelation false false 10) start heap (Some heap) = Done o
  /\ match o with
     | None => True
     | Some (r, w', b') => exists b, Some heap = Some b
         /\ PageIsPrunable heap (prune_horizon (MkRelation false false 10)) = true
         /\ prune_horizon (MkRelation false false 10) <= recentGlobalXmin
         /\ heap_page_prune 0 true (fun _ => 77) (prune_horizon (MkRelation false false 10)) true InvalidTransactionId true start b
            = Done (r, w', b')
         /\ heap_in_order by_ten (w_now w') b'
     end.
Proof.
  apply (heap_page_prune_opt_correct over by_ten session_right hints_right changes_right 0 true (fun _ => 77)
    false true false 0 (MkRelation false false 10) start heap (Some heap) (Z.le_refl 12) start_right (hp_page _ _ _ heap_right)).
  intros b [= <-]. exact heap_right.
Defined.

Lemma heap_get_root_tuples_correct_witness :
  exists roots, heap_get_root_tuples Scenario.page heap_page = Done roots /\ zlen roots = MaxHeapTuplesPerPage
  /\ (forall j k, chain_start (page_view heap_page) j -> is_tuple (page_view heap_page) k ->
       reaches Scenario.page (page_view heap_page) j k -> zlookup roots (k - 1) = Some j)
  /\ (forall k, 1 <= k <= MaxHeapTuplesPerPage ->
       (forall j, chain_start (page_view heap_page) j -> is_tuple (page_view heap_page) k ->
          ~ reaches Scenario.page (page_view heap_page) j k) ->
       zlookup roots (k - 1) = Some 0).
Proof.
  apply (heap_get_root_tuples_correct Scenario.page heap_page (hp_page _ _ _ heap_right) hot_right links_in (hp_lines _ _ _ heap_right)).
Defined.

Lemma heap_page_prune_replayed_witness :
  exists r w' b' rec freespace standby', pruned_heap = Done (r, w', b') /\ wal r = Some rec
    /\ HeapXlogCleanOperatorPage true 99 rec heap = Done (freespace, standby')
    /\ page_ok (hb_page standby') /\ hint_view (content standby') (content b') /\ pd_lsn (hb_head standby') = 99.
Proof.
  destruct pruned_logs as (r & w' & b' & rec & Hrun & Hrec). pose proof (hp_page _ _ _ heap_right) as Hpage.
  assert (Hitems : Forall item_ok (content heap)) by apply (ho_items _ _ hot_right).
  pose proof (hint_view_refl (content heap)) as Hview.
  assert (H : exists freespace standby',
    HeapXlogCleanOperatorPage true 99 rec heap = Done (freespace, standby')
    /\ page_ok (hb_page standby') /\ hint_view (content standby') (content b') /\ pd_lsn (hb_head standby') = 99).
  { unfold pruned_heap in Hrun.
    eapply (heap_page_prune_replayed over by_ten session_right hints_right changes_right 0 true (fun _ => 77) 12
      (Z.le_refl 12) true 0 true start heap r w' b' rec heap true 99 start_right heap_right);
      [exact Hrun|exact Hrec|exact Hpage|exact Hitems|exact Hview]. }
  destruct H as (freespace & standby' & H). exists r, w', b', rec, freespace, standby'.
  split; [exact Hrun|]. split; [exact Hrec|exact H].
Defined.
