(* ===== verification/Lock.v ===== *)
(** The shared lock table: [storage/lmgr/lock.cpp] and the wait queues of
    [storage/lmgr/proc.cpp].

    A LOCK with its list of PROCLOCKs and its queue of waiters is a record; the
    hash table of the PROCLOCKs is the union of these lists, so a PROCLOCK is
    found by the process in the list of its LOCK.  The PROCLOCK that a process
    waits with ([waitProcLock]) is its own one in the list of [waitLock].

    Every operation runs under the lock of its partition, so an operation is
    one step of the table ([LM], a state monad over [LockState]).  Left out:
    the table of local locks and the fast path, which decide whether the shared
    table is used at all; signals, statistics and the record of who blocks
    whom for messages ([ProcBlockerUpdate]). *)
From S2P Require Import Prelude.
From stdpp Require Import list gmap.
#[local] Open Scope Z_scope.

(** ** Lock modes *)

Definition NoLock : Z := 0.
Definition AccessShareLock : Z := 1.
Definition RowShareLock : Z := 2.
Definition RowExclusiveLock : Z := 3.
Definition ShareUpdateExclusiveLock : Z := 4.
Definition ShareLock : Z := 5.
Definition ShareRowExclusiveLock : Z := 6.
Definition ExclusiveLock : Z := 7.
Definition AccessExclusiveLock : Z := 8.
Definition MAX_LOCKMODES : Z := 10.

Definition LOCKBIT_ON (lockmode : Z) : Z := Z.shiftl 1 lockmode.
Definition LOCKBIT_OFF (lockmode : Z) : Z := Z.lnot (LOCKBIT_ON lockmode).
Definition lockbits (modes : list Z) : Z := fold_right (fun m mask => Z.lor (LOCKBIT_ON m) mask) 0 modes.

Definition LockConflicts : list Z :=
  [0;
   lockbits [AccessExclusiveLock];
   lockbits [ExclusiveLock; AccessExclusiveLock];
   lockbits [ShareLock; ShareRowExclusiveLock; ExclusiveLock; AccessExclusiveLock];
   lockbits [ShareUpdateExclusiveLock; ShareLock; ShareRowExclusiveLock; ExclusiveLock; AccessExclusiveLock];
   lockbits [RowExclusiveLock; ShareUpdateExclusiveLock; ShareRowExclusiveLock; ExclusiveLock; AccessExclusiveLock];
   lockbits [RowExclusiveLock; ShareUpdateExclusiveLock; ShareLock; ShareRowExclusiveLock; ExclusiveLock;
             AccessExclusiveLock];
   lockbits [RowShareLock; RowExclusiveLock; ShareUpdateExclusiveLock; ShareLock; ShareRowExclusiveLock;
             ExclusiveLock; AccessExclusiveLock];
   lockbits [AccessShareLock; RowShareLock; RowExclusiveLock; ShareUpdateExclusiveLock; ShareLock;
             ShareRowExclusiveLock; ExclusiveLock; AccessExclusiveLock]].

Record LockMethodData := {
  numLockModes : Z;
  conflictTab : list Z }.
Definition default_lockmethod : LockMethodData := {| numLockModes := AccessExclusiveLock; conflictTab := LockConflicts |}.
Definition user_lockmethod : LockMethodData := {| numLockModes := AccessExclusiveLock; conflictTab := LockConflicts |}.
Definition LockMethods : list (option LockMethodData) := [None; Some default_lockmethod; Some user_lockmethod].
Definition DEFAULT_LOCKMETHOD : Z := 1.
Definition USER_LOCKMETHOD : Z := 2.

Definition conflicts_of (t : LockMethodData) (lockmode : Z) : run Z := inside (zlookup (conflictTab t) lockmode).

Definition DoLockModesConflict (mode1 mode2 : Z) : run bool :=
  mask ← conflicts_of default_lockmethod mode1;
  mret (negb (Z.land mask (LOCKBIT_ON mode2) =? 0)).

(** ** The table *)

Record LOCKTAG := MkTag {
  locktag_field1 : Z;
  locktag_field2 : Z;
  locktag_field3 : Z;
  locktag_field4 : Z;
  locktag_field5 : Z;
  locktag_type : Z;
  locktag_lockmethodid : Z }.
#[global] Instance LOCKTAG_eq_dec : EqDecision LOCKTAG.
Proof. solve_decision. Defined.
#[global] Instance LOCKTAG_countable : Countable LOCKTAG.
Proof.
  refine (inj_countable' (fun t => (locktag_field1 t, locktag_field2 t, locktag_field3 t, locktag_field4 t,
    locktag_field5 t, locktag_type t, locktag_lockmethodid t))
    (fun '(a, b, c, d, e, f, g) => MkTag a b c d e f g) _). by intros [].
Defined.

(** A process is known by its number. *)
Record PROCLOCK := MkProcLock {
  myProc : Z;
  groupLeader : Z;
  holdMask : Z }.

Record LOCK := MkLock {
  grantMask : Z;
  waitMask : Z;
  procLocks : list PROCLOCK;
  waitProcs : list Z;
  requested : list Z;
  nRequested : Z;
  granted : list Z;
  nGranted : Z }.

Inductive wait_status := STATUS_OK | STATUS_ERROR | STATUS_FOUND | STATUS_WAITING | STATUS_FOUND_NEED_CANCEL.
#[global] Instance wait_status_eq_dec : EqDecision wait_status.
Proof. solve_decision. Defined.

(** [linked] says that [links] is in a list. *)
Record PGPROC := MkProc {
  pid : Z;
  vacuumFlags : Z;
  lockGroupLeader : option Z;
  lockGroupMembers : list Z;
  linked : bool;
  waitLock : option LOCKTAG;
  waitLockMode : Z;
  heldLocks : Z;
  waitStatus : wait_status }.

Definition PROC_IS_AUTOVACUUM : Z := 0x01.
Definition PROC_IS_REDIST : Z := 0x10.

Definition GetLocksMethodTable (tag : LOCKTAG) : run LockMethodData :=
  t ← inside (zlookup LockMethods (locktag_lockmethodid tag)); inside t.

(** The shared state, and of the thread that looks at it: the process of the
    redistribution that blocks it, whether it may cancel that, and the
    semaphores it has unlocked. *)
Record LockState := MkState {
  allProcs : gmap Z PGPROC;
  LockMethodLockHash : gmap LOCKTAG LOCK;
  blocking_redistribution_proc : option Z;
  redistribution_cancelable : bool;
  unlocked_sems : list Z }.

Definition set_procs (ps : gmap Z PGPROC) (s : LockState) : LockState :=
  MkState ps (LockMethodLockHash s) (blocking_redistribution_proc s) (redistribution_cancelable s) (unlocked_sems s).
Definition set_locks (ls : gmap LOCKTAG LOCK) (s : LockState) : LockState :=
  MkState (allProcs s) ls (blocking_redistribution_proc s) (redistribution_cancelable s) (unlocked_sems s).
Definition set_redist (o : option Z) (s : LockState) : LockState :=
  MkState (allProcs s) (LockMethodLockHash s) o (redistribution_cancelable s) (unlocked_sems s).
Definition set_cancelable (b : bool) (s : LockState) : LockState :=
  MkState (allProcs s) (LockMethodLockHash s) (blocking_redistribution_proc s) b (unlocked_sems s).
Definition set_sems (l : list Z) (s : LockState) : LockState :=
  MkState (allProcs s) (LockMethodLockHash s) (blocking_redistribution_proc s) (redistribution_cancelable s) l.

Definition LM (A : Type) : Type := LockState -> run (A * LockState).
#[global] Instance LM_ret : MRet LM := fun A a s => Done (a, s).
#[global] Instance LM_bind : MBind LM := fun A B f m s =>
  match m s with
  | Done (a, s) => f a s
  | Report c => Report c
  | Outside => Outside
  end.
Definition lift {A} (r : run A) : LM A := fun s => a ← r; Done (a, s).
Definition get_state : LM LockState := fun s => Done (s, s).
Definition modify (f : LockState -> LockState) : LM unit := fun s => Done (tt, f s).

Definition get_proc (p : Z) : LM PGPROC := s ← get_state; lift (inside (allProcs s !! p)).
Definition put_proc (p : Z) (proc : PGPROC) : LM unit := modify (fun s => set_procs (<[p := proc]> (allProcs s)) s).
Definition get_lock (tag : LOCKTAG) : LM LOCK := s ← get_state; lift (inside (LockMethodLockHash s !! tag)).
Definition put_lock (tag : LOCKTAG) (lock : LOCK) : LM unit :=
  modify (fun s => set_locks (<[tag := lock]> (LockMethodLockHash s)) s).

(** What the running thread is: its process, whether it takes part in a stream
    plan, and which processes run in the same one. *)
Class LockThread := {
  my_proc : Z;
  stream_mode : bool;
  inNodeGroup : Z -> Z -> bool }.

Definition LockWaiterCount (tag : LOCKTAG) : LM Z :=
  s ← get_state;
  mret (match LockMethodLockHash s !! tag with Some lock => nRequested lock | None => 0 end).

(** ** One lock *)

Definition holds (pl : PROCLOCK) (lockmode : Z) : bool := negb (Z.land (holdMask pl) (LOCKBIT_ON lockmode) =? 0).
Definition set_hold (mask : Z) (pl : PROCLOCK) : PROCLOCK := MkProcLock (myProc pl) (groupLeader pl) mask.

Definition of_proc (p : Z) (pl : PROCLOCK) : Prop := myProc pl = p.
#[global] Instance of_proc_dec p pl : Decision (of_proc p pl).
Proof. unfold of_proc. apply _. Defined.

Definition find_proclock (p : Z) (l : list PROCLOCK) : option PROCLOCK := snd <$> list_find (of_proc p) l.
Definition update_proclock (f : PROCLOCK -> PROCLOCK) (p : Z) (l : list PROCLOCK) : list PROCLOCK :=
  (fun pl => if decide (of_proc p pl) then f pl else pl) <$> l.
Definition delete_proclock (p : Z) (l : list PROCLOCK) : list PROCLOCK :=
  filter (fun pl => ~ of_proc p pl) l.

Definition bump (l : list Z) (i d : Z) : run (list Z) :=
  n ← inside (zlookup l i); inside (zupdate l i (n + d)).

(** *** SetupLockInTable

    [room] says that shared memory has room for a new PROCLOCK; the caller
    handles the case of no room for a LOCK. *)
Definition new_lock : LOCK :=
  MkLock 0 0 [] [] (replicate (Z.to_nat MAX_LOCKMODES) 0) 0 (replicate (Z.to_nat MAX_LOCKMODES) 0) 0.

Definition request (lock : LOCK) (lockmode : Z) : run LOCK :=
  r ← bump (requested lock) lockmode 1;
  mret (MkLock (grantMask lock) (waitMask lock) (procLocks lock) (waitProcs lock) r (nRequested lock + 1)
          (granted lock) (nGranted lock)).

Definition set_proclocks (l : list PROCLOCK) (lock : LOCK) : LOCK :=
  MkLock (grantMask lock) (waitMask lock) l (waitProcs lock) (requested lock) (nRequested lock) (granted lock) (nGranted lock).
Definition set_waitprocs (l : list Z) (lock : LOCK) : LOCK :=
  MkLock (grantMask lock) (waitMask lock) (procLocks lock) l (requested lock) (nRequested lock) (granted lock) (nGranted lock).
Definition set_waitmask (m : Z) (lock : LOCK) : LOCK :=
  MkLock (grantMask lock) m (procLocks lock) (waitProcs lock) (requested lock) (nRequested lock) (granted lock) (nGranted lock).

Definition SetupLockInTable (proc : Z) (tag : LOCKTAG) (lockmode : Z) (room_lock room_proclock : bool) : LM bool :=
  s ← get_state;
  let found := LockMethodLockHash s !! tag in
  if negb room_lock && bool_decide (found = None) then mret false
  else
    let lock := default new_lock found in
    p ← get_proc proc;
    match find_proclock proc (procLocks lock) with
    | None =>
        if negb room_proclock then
          (if nRequested lock =? 0 then modify (fun s => set_locks (delete tag (LockMethodLockHash s)) s) else mret tt);;
          mret false
        else
          let pl := MkProcLock proc (default proc (lockGroupLeader p)) 0 in
          lock ← lift (request (set_proclocks (procLocks lock ++ [pl]) lock) lockmode);
          put_lock tag lock;;
          mret true
    | Some pl =>
        lock ← lift (request lock lockmode);
        put_lock tag lock;;
        if holds pl lockmode then lift (Report ERRCODE_LOCK_NOT_AVAILABLE) else mret true
    end.

(** *** GrantLock, UnGrantLock *)

Definition grant_mode (m : Z) (pl : PROCLOCK) : PROCLOCK := set_hold (Z.lor (holdMask pl) (LOCKBIT_ON m)) pl.
Definition drop_mode (m : Z) (pl : PROCLOCK) : PROCLOCK := set_hold (Z.land (holdMask pl) (LOCKBIT_OFF m)) pl.

Definition GrantLock (lock : LOCK) (p : Z) (lockmode : Z) : run LOCK :=
  g ← bump (granted lock) lockmode 1;
  ng ← inside (zlookup g lockmode);
  nr ← inside (zlookup (requested lock) lockmode);
  let waitMask := if ng =? nr then Z.land (waitMask lock) (LOCKBIT_OFF lockmode) else waitMask lock in
  mret (MkLock (Z.lor (grantMask lock) (LOCKBIT_ON lockmode)) waitMask
          (update_proclock (grant_mode lockmode) p (procLocks lock))
          (waitProcs lock) (requested lock) (nRequested lock) g (nGranted lock + 1)).

Definition UnGrantLock (t : LockMethodData) (lock : LOCK) (lockmode : Z) (p : Z) : run (bool * LOCK) :=
  r ← bump (requested lock) lockmode (-1);
  g ← bump (granted lock) lockmode (-1);
  ng ← inside (zlookup g lockmode);
  let grantMask := if ng =? 0 then Z.land (grantMask lock) (LOCKBIT_OFF lockmode) else grantMask lock in
  conflicts ← conflicts_of t lockmode;
  let wakeupNeeded := negb (Z.land conflicts (waitMask lock) =? 0) in
  mret (wakeupNeeded,
    MkLock grantMask (waitMask lock)
      (update_proclock (drop_mode lockmode) p (procLocks lock))
      (waitProcs lock) r (nRequested lock - 1) g (nGranted lock - 1)).

(** *** LockCheckConflicts *)

Section Thread.
Context {th : LockThread}.

Definition IsOtherProcRedistribution (p : Z) : LM bool :=
  proc ← get_proc p;
  mret (negb (Z.land (vacuumFlags proc) PROC_IS_REDIST =? 0)).

Definition IsInSameTransaction (pid1 pid2 : Z) : bool := inNodeGroup pid1 pid2.

Definition IsInSameLockGroup (pl1 pl2 : PROCLOCK) : bool :=
  negb (myProc pl1 =? myProc pl2) && (groupLeader pl1 =? groupLeader pl2).

(** The locks of mode [i] that count as the own ones. *)
Fixpoint count_group (inLockGroup : bool) (pl : PROCLOCK) (mypid i : Z) (others : list PROCLOCK) : LM Z :=
  match others with
  | [] => mret 0
  | other :: others =>
      o ← get_proc (myProc other);
      n ← count_group inLockGroup pl mypid i others;
      let same := (negb inLockGroup && IsInSameTransaction (pid o) mypid)
                  || (inLockGroup && IsInSameLockGroup pl other) in
      mret (if same && holds other i then n + 1 else n)
  end.

Fixpoint other_locks (n : nat) (inLockGroup : bool) (lock : LOCK) (pl : PROCLOCK) (mypid i mask : Z) : LM Z :=
  match n with
  | O => mret mask
  | S n =>
      extra ← (if stream_mode || inLockGroup then count_group inLockGroup pl mypid i (procLocks lock) else mret 0);
      let myHolding := (if holds pl i then 1 else 0) + extra in
      g ← lift (inside (zlookup (granted lock) i));
      other_locks n inLockGroup lock pl mypid (i + 1) (if myHolding <? g then Z.lor mask (LOCKBIT_ON i) else mask)
  end.

(** Remember a redistribution that holds a conflicting lock. *)
Fixpoint find_redistribution (conflicts mypid : Z) (others : list PROCLOCK) : LM unit :=
  match others with
  | [] => mret tt
  | other :: others =>
      o ← get_proc (myProc other);
      redist ← (if negb (pid o =? mypid) && negb (Z.land conflicts (holdMask other) =? 0)
                then IsOtherProcRedistribution (myProc other) else mret false);
      (if redist : bool then modify (set_redist (Some (myProc other))) else mret tt);;
      find_redistribution conflicts mypid others
  end.

Definition LockCheckConflicts (t : LockMethodData) (lockmode : Z) (lock : LOCK) (proc : Z) : LM wait_status :=
  conflicts ← lift (conflicts_of t lockmode);
  if Z.land conflicts (grantMask lock) =? 0 then mret STATUS_OK
  else
    pl ← lift (inside (find_proclock proc (procLocks lock)));
    me ← get_proc my_proc;
    p ← get_proc proc;
    let inLockGroup := negb (groupLeader pl =? my_proc) || bool_decide (lockGroupLeader me <> None) in
    otherLocks ← other_locks (Z.to_nat (numLockModes t)) inLockGroup lock pl (pid p) 1 0;
    s ← get_state;
    (if redistribution_cancelable s && (lockmode =? AccessExclusiveLock)
     then find_redistribution conflicts (pid p) (procLocks lock) else mret tt);;
    if Z.land conflicts otherLocks =? 0 then mret STATUS_OK
    else
      s ← get_state;
      match blocking_redistribution_proc s with
      | Some q =>
          redist ← IsOtherProcRedistribution q;
          if redist : bool then mret STATUS_FOUND_NEED_CANCEL
          else modify (set_redist None);; mret STATUS_FOUND
      | None => mret STATUS_FOUND
      end.

(** ** The wait queue *)

Definition clear_wait (st : wait_status) (p : PGPROC) : PGPROC :=
  MkProc (pid p) (vacuumFlags p) (lockGroupLeader p) (lockGroupMembers p) false None (waitLockMode p) (heldLocks p) st.

Definition remove_proc (p : Z) (l : list Z) : list Z := filter (fun q => q <> p) l.

(** [ProcWakeup] of the process at the place the caller has reached in the
    queue. *)
Definition ProcWakeup (proc : Z) (st : wait_status) : LM unit :=
  p ← get_proc proc;
  if negb (linked p) then lift Outside
  else
    tag ← lift (inside (waitLock p));
    lock ← get_lock tag;
    put_lock tag (set_waitprocs (remove_proc proc (waitProcs lock)) lock);;
    put_proc proc (clear_wait st p);;
    modify (fun s => set_sems (unlocked_sems s ++ [proc]) s).

Fixpoint wakeup_loop (t : LockMethodData) (tag : LOCKTAG) (queue : list Z) (aheadRequests : Z) : LM unit :=
  match queue with
  | [] => mret tt
  | proc :: queue =>
      p ← get_proc proc;
      let lockmode := waitLockMode p in
      lock ← get_lock tag;
      conflicts ← lift (conflicts_of t lockmode);
      status ← (if Z.land conflicts aheadRequests =? 0 then LockCheckConflicts t lockmode lock proc
                else mret STATUS_FOUND);
      if bool_decide (status = STATUS_OK) then
        lock ← lift (GrantLock lock proc lockmode);
        put_lock tag lock;;
        ProcWakeup proc STATUS_OK;;
        wakeup_loop t tag queue aheadRequests
      else wakeup_loop t tag queue (Z.lor aheadRequests (LOCKBIT_ON lockmode))
  end.

Definition ProcLockWakeup (t : LockMethodData) (tag : LOCKTAG) : LM unit :=
  lock ← get_lock tag;
  wakeup_loop t tag (waitProcs lock) 0.

(** *** CleanUpLock, RemoveFromWaitQueue *)

Definition CleanUpLock (t : LockMethodData) (tag : LOCKTAG) (proc : Z) (wakeupNeeded : bool) : LM unit :=
  lock ← get_lock tag;
  pl ← lift (inside (find_proclock proc (procLocks lock)));
  let lock := if holdMask pl =? 0 then set_proclocks (delete_proclock proc (procLocks lock)) lock else lock in
  put_lock tag lock;;
  if nRequested lock =? 0 then modify (fun s => set_locks (delete tag (LockMethodLockHash s)) s)
  else if wakeupNeeded then ProcLockWakeup t tag
  else mret tt.

Definition RemoveFromWaitQueue (proc : Z) : LM unit :=
  p ← get_proc proc;
  tag ← lift (inside (waitLock p));
  t ← lift (GetLocksMethodTable tag);
  lock ← get_lock tag;
  let lockmode := waitLockMode p in
  r ← lift (bump (requested lock) lockmode (-1));
  nr ← lift (inside (zlookup r lockmode));
  ng ← lift (inside (zlookup (granted lock) lockmode));
  let mask := if ng =? nr then Z.land (waitMask lock) (LOCKBIT_OFF lockmode) else waitMask lock in
  put_lock tag (MkLock (grantMask lock) mask (procLocks lock) (remove_proc proc (waitProcs lock)) r (nRequested lock - 1)
                  (granted lock) (nGranted lock));;
  put_proc proc (clear_wait STATUS_ERROR p);;
  CleanUpLock t tag proc true.

(** *** ProcSleep

    Up to the point where the process waits for its semaphore.  The result
    says whether the lock was granted after all, a deadlock of two was found
    (with whom, what [RememberSimpleDeadLock] records), or the process is in
    the queue. *)
Inductive sleep_result := SLEEP_OK | SLEEP_ERROR (other : Z) | SLEEP_WAITING.

Definition group_held (leader : Z) (lock : LOCK) (held : Z) : Z :=
  fold_left (fun m pl => if groupLeader pl =? leader then Z.lor m (holdMask pl) else m) (procLocks lock) held.

(** The place in the queue: the number of waiters ahead, or at once. *)
Inductive place := Grant | At (n : nat) (deadlock : option Z).

Fixpoint find_place (t : LockMethodData) (lock : LOCK) (lockmode myHeldLocks : Z) (leader : option Z)
    (queue : list Z) (i : nat) (aheadRequests : Z) : LM place :=
  match queue with
  | [] => mret (At i None)
  | proc :: queue =>
      p ← get_proc proc;
      if bool_decide (leader <> None) && bool_decide (leader = lockGroupLeader p) then
        find_place t lock lockmode myHeldLocks leader queue (S i) aheadRequests
      else
        his ← lift (conflicts_of t (waitLockMode p));
        if negb (Z.land his myHeldLocks =? 0) then
          mine ← lift (conflicts_of t lockmode);
          if negb (Z.land mine (heldLocks p) =? 0) then mret (At i (Some proc))
          else
            status ← (if Z.land mine aheadRequests =? 0 then LockCheckConflicts t lockmode lock my_proc
                      else mret STATUS_FOUND);
            if bool_decide (status = STATUS_OK) then mret Grant else mret (At i None)
        else find_place t lock lockmode myHeldLocks leader queue (S i) (Z.lor aheadRequests (LOCKBIT_ON (waitLockMode p)))
  end.

Definition start_wait (tag : LOCKTAG) (lockmode : Z) (p : PGPROC) : PGPROC :=
  MkProc (pid p) (vacuumFlags p) (lockGroupLeader p) (lockGroupMembers p) true (Some tag) lockmode (heldLocks p) STATUS_WAITING.

Definition grant_now (tag : LOCKTAG) (lockmode : Z) : LM sleep_result :=
  lock ← get_lock tag;
  lock ← lift (GrantLock lock my_proc lockmode);
  put_lock tag lock;;
  mret SLEEP_OK.

Definition ProcSleep (t : LockMethodData) (tag : LOCKTAG) (lockmode : Z) : LM sleep_result :=
  lock ← get_lock tag;
  me ← get_proc my_proc;
  let leader := lockGroupLeader me in
  let myHeldLocks := match leader with Some l => group_held l lock (heldLocks me) | None => heldLocks me end in
  where_ ← (if myHeldLocks =? 0 then mret (At (length (waitProcs lock)) None)
            else find_place t lock lockmode myHeldLocks leader (waitProcs lock) 0 0);
  match where_ with
  | Grant => grant_now tag lockmode
  | At i deadlock =>
      status ← (if stream_mode then LockCheckConflicts t lockmode lock my_proc else mret STATUS_FOUND);
      if bool_decide (status = STATUS_OK) then grant_now tag lockmode
      else if bool_decide (waitStatus me = STATUS_WAITING) then lift (Report ERRCODE_DATA_CORRUPTED)
      else
        put_lock tag (set_waitmask (Z.lor (waitMask lock) (LOCKBIT_ON lockmode))
                        (set_waitprocs (take i (waitProcs lock) ++ my_proc :: drop i (waitProcs lock)) lock));;
        put_proc my_proc (start_wait tag lockmode me);;
        match deadlock with
        | Some other => RemoveFromWaitQueue my_proc;; mret (SLEEP_ERROR other)
        | None => mret SLEEP_WAITING
        end
  end.

(** *** LockAcquire, LockRelease: what they do to the shared table

    After the local table and the fast path did not settle the request.  A
    process that has to wait sleeps afterwards; it finds the table as whoever
    woke it left it. *)
Inductive acquire_result := LOCKACQUIRE_OK | LOCKACQUIRE_NOT_AVAIL | LOCKACQUIRE_WAIT | LOCKACQUIRE_DEADLOCK (other : Z).

Definition set_held (mask : Z) (p : PGPROC) : PGPROC :=
  MkProc (pid p) (vacuumFlags p) (lockGroupLeader p) (lockGroupMembers p) (linked p) (waitLock p) (waitLockMode p) mask (waitStatus p).

(** A waiting redistribution is cancelled first. *)
Fixpoint waiting_redistribution (queue : list Z) : LM wait_status :=
  match queue with
  | [] => mret STATUS_FOUND
  | proc :: queue =>
      redist ← IsOtherProcRedistribution proc;
      if redist : bool then modify (set_redist (Some proc));; mret STATUS_FOUND_NEED_CANCEL
      else waiting_redistribution queue
  end.

Definition acquire_status (t : LockMethodData) (lock : LOCK) (lockmode : Z) : LM wait_status :=
  conflicts ← lift (conflicts_of t lockmode);
  if negb (Z.land conflicts (waitMask lock) =? 0) then
    s ← get_state;
    if redistribution_cancelable s && (lockmode =? AccessExclusiveLock) then waiting_redistribution (waitProcs lock)
    else mret STATUS_FOUND
  else LockCheckConflicts t lockmode lock my_proc.

(** The request is taken back: the caller does not want to wait. *)
Definition withdraw (lock : LOCK) (lockmode : Z) : run LOCK :=
  pl ← inside (find_proclock my_proc (procLocks lock));
  let l := if holdMask pl =? 0 then delete_proclock my_proc (procLocks lock) else procLocks lock in
  r ← bump (requested lock) lockmode (-1);
  mret (MkLock (grantMask lock) (waitMask lock) l (waitProcs lock) r (nRequested lock - 1) (granted lock) (nGranted lock)).

Definition LockAcquireShared (tag : LOCKTAG) (lockmode : Z) (dontWait reportMemoryError room_lock room_proclock : bool) :
  LM acquire_result :=
  t ← lift (GetLocksMethodTable tag);
  room ← SetupLockInTable my_proc tag lockmode room_lock room_proclock;
  if negb room then
    (if reportMemoryError then lift (Report ERRCODE_OUT_OF_MEMORY) else mret LOCKACQUIRE_NOT_AVAIL)
  else
    lock ← get_lock tag;
    status ← acquire_status t lock lockmode;
    if bool_decide (status = STATUS_OK) then
      lock ← lift (GrantLock lock my_proc lockmode);
      put_lock tag lock;;
      mret LOCKACQUIRE_OK
    else if dontWait then
      lock ← lift (withdraw lock lockmode);
      put_lock tag lock;;
      mret LOCKACQUIRE_NOT_AVAIL
    else
      (if bool_decide (status = STATUS_FOUND_NEED_CANCEL) then modify (set_cancelable false) else mret tt);;
      pl ← lift (inside (find_proclock my_proc (procLocks lock)));
      me ← get_proc my_proc;
      put_proc my_proc (set_held (holdMask pl) me);;
      r ← ProcSleep t tag lockmode;
      mret (match r with
            | SLEEP_OK => LOCKACQUIRE_OK
            | SLEEP_ERROR other => LOCKACQUIRE_DEADLOCK other
            | SLEEP_WAITING => LOCKACQUIRE_WAIT
            end).

(** [LockRelease] and [LockRefindAndRelease]; false: the lock was not held. *)
Definition LockReleaseShared (tag : LOCKTAG) (lockmode : Z) (proc : Z) : LM bool :=
  t ← lift (GetLocksMethodTable tag);
  s ← get_state;
  match LockMethodLockHash s !! tag with
  | None => lift (Report ERRCODE_DATA_CORRUPTED)
  | Some lock =>
      match find_proclock proc (procLocks lock) with
      | None => lift (Report ERRCODE_DATA_CORRUPTED)
      | Some pl =>
          if negb (holds pl lockmode) then mret false
          else
            r ← lift (UnGrantLock t lock lockmode proc);
            put_lock tag (snd r);;
            CleanUpLock t tag proc (fst r);;
            mret true
      end
  end.

(** *** LockReleaseAll

    The scan of the PROCLOCKs of a process, after the local table has marked
    the modes to release ([marked], in the order of the lists of the process;
    with [allLocks] the marks do not matter). *)
Fixpoint release_modes (t : LockMethodData) (n : nat) (i releaseMask p : Z) (lock : LOCK) : run (bool * LOCK) :=
  match n with
  | O => mret (false, lock)
  | S n =>
      if negb (Z.land releaseMask (LOCKBIT_ON i) =? 0) then
        r ← UnGrantLock t lock i p;
        r' ← release_modes t n (i + 1) releaseMask p (snd r);
        mret (fst r || fst r', snd r')
      else release_modes t n (i + 1) releaseMask p lock
  end.

Definition release_proclock (t : LockMethodData) (allLocks : bool) (proc : Z) (tag : LOCKTAG) (mark : Z) : LM unit :=
  lock ← get_lock tag;
  pl ← lift (inside (find_proclock proc (procLocks lock)));
  releaseMask ← lift (if allLocks then mret (holdMask pl)
                      else if negb (Z.land mark (Z.lnot (holdMask pl)) =? 0) then Report ERRCODE_DATA_CORRUPTED else mret mark);
  if (releaseMask =? 0) && negb (holdMask pl =? 0) then mret tt
  else
    r ← lift (release_modes t (Z.to_nat (numLockModes t)) 1 releaseMask proc lock);
    put_lock tag (snd r);;
    CleanUpLock t tag proc (fst r).

Fixpoint release_scan (t : LockMethodData) (lockmethodid : Z) (allLocks : bool) (proc : Z) (marked : list (LOCKTAG * Z)) : LM unit :=
  match marked with
  | [] => mret tt
  | (tag, mark) :: marked =>
      (if locktag_lockmethodid tag =? lockmethodid then release_proclock t allLocks proc tag mark else mret tt);;
      release_scan t lockmethodid allLocks proc marked
  end.

Definition LockReleaseAllShared (lockmethodid : Z) (allLocks : bool) (proc : Z) (marked : list (LOCKTAG * Z)) : LM unit :=
  t ← lift (inside (zlookup LockMethods lockmethodid));
  t ← lift (inside t);
  release_scan t lockmethodid allLocks proc marked.

(** *** LockErrorCleanup, lock groups

    [LockErrorCleanup] of a process that has waited for a lock; the result
    says that the lock was granted after all. *)
Definition LockErrorCleanupShared : LM bool :=
  me ← get_proc my_proc;
  if linked me then RemoveFromWaitQueue my_proc;; mret false
  else mret (bool_decide (waitStatus me = STATUS_OK)).

Definition set_group (leader : option Z) (members : list Z) (p : PGPROC) : PGPROC :=
  MkProc (pid p) (vacuumFlags p) leader members (linked p) (waitLock p) (waitLockMode p) (heldLocks p) (waitStatus p).

Definition BecomeLockGroupLeader : LM unit :=
  me ← get_proc my_proc;
  if bool_decide (lockGroupLeader me = Some my_proc) then mret tt
  else put_proc my_proc (set_group (Some my_proc) (my_proc :: lockGroupMembers me) me).

Definition BecomeLockGroupMember (leader : Z) : LM unit :=
  me ← get_proc my_proc;
  put_proc my_proc (set_group (Some leader) (lockGroupMembers me) me);;
  l ← get_proc leader;
  put_proc leader (set_group (lockGroupLeader l) (lockGroupMembers l ++ [my_proc]) l).

Definition LockHasWaitersShared (tag : LOCKTAG) (lockmode : Z) (proc : Z) : LM bool :=
  t ← lift (GetLocksMethodTable tag);
  lock ← get_lock tag;
  pl ← lift (inside (find_proclock proc (procLocks lock)));
  if negb (holds pl lockmode) then mret false
  else
    conflicts ← lift (conflicts_of t lockmode);
    mret (negb (Z.land conflicts (waitMask lock) =? 0)).
End Thread.
