(* ===== verification/LockInv.v ===== *)
(** The invariant of the shared lock table (Lock.v) and what single moves do.

    [lock_ok] is the invariant of one lock: the counts and the masks agree with
    the lists, and holders of different lock groups do not conflict.
    [blocked_ok] says that nobody waits in vain: every waiter conflicts with a
    holder or with a waiter ahead.  [table_ok] is the invariant of the table.
    [check_spec] is the specification of [LockCheckConflicts]; the moves of a
    request between the queue, the holders and neither follow. *)
From S2P Require Import Prelude Lock.
From stdpp Require Import list gmap.
#[local] Open Scope Z_scope.

(** ** Masks *)

Lemma land_zero a b : 0 <= a -> 0 <= b -> Z.land a b = 0 <-> forall i, 0 <= i -> Z.testbit a i = true -> Z.testbit b i = false.
Proof.
  intros Ha Hb. split.
  - intros H i Hi Hai. assert (Hbit : Z.testbit (Z.land a b) i = false) by (rewrite H; apply Z.bits_0).
    rewrite Z.land_spec, Hai in Hbit. done.
  - intros H. apply Z.bits_inj'. intros i Hi. rewrite Z.land_spec, Z.bits_0. destruct (Z.testbit a i) eqn:Hai; [|done].
    by apply H.
Qed.

Lemma land_nonzero a b : 0 <= a -> 0 <= b -> Z.land a b <> 0 <-> exists i, 0 <= i /\ Z.testbit a i = true /\ Z.testbit b i = true.
Proof.
  intros Ha Hb. split.
  - intros Hn. set (i := Z.log2 (Z.land a b)). assert (Hp : 0 < Z.land a b) by (pose proof (Z.land_nonneg a b); lia).
    pose proof (Z.bit_log2 _ Hp) as Hbit. fold i in Hbit. rewrite Z.land_spec in Hbit. apply andb_true_iff in Hbit as [? ?].
    exists i. split_and!; [apply Z.log2_nonneg|done|done].
  - intros (i & Hi & Hai & Hbi) H. rewrite land_zero in H by done. by rewrite H in Hbi.
Qed.

Lemma bit_on m i : 0 <= m -> 0 <= i -> Z.testbit (LOCKBIT_ON m) i = bool_decide (m = i).
Proof.
  intros Hm Hi. unfold LOCKBIT_ON. rewrite Z.shiftl_1_l. destruct (decide (m = i)) as [->|Hne].
  - by rewrite Z.pow2_bits_true, bool_decide_true.
  - by rewrite Z.pow2_bits_false, bool_decide_false.
Qed.

Lemma bit_on_nonneg m : 0 <= LOCKBIT_ON m.
Proof. unfold LOCKBIT_ON. apply Z.shiftl_nonneg. lia. Qed.

Lemma bit_off m i : 0 <= m -> 0 <= i -> Z.testbit (LOCKBIT_OFF m) i = bool_decide (m <> i).
Proof.
  intros Hm Hi. unfold LOCKBIT_OFF. rewrite Z.lnot_spec, bit_on by done. by rewrite bool_decide_not.
Qed.

Lemma land_bit_on a m : 0 <= m -> (Z.land a (LOCKBIT_ON m) =? 0) = negb (Z.testbit a m).
Proof.
  intros Hm. unfold LOCKBIT_ON. rewrite Z.shiftl_1_l. destruct (Z.testbit a m) eqn:Hb; cbn.
  - apply Z.eqb_neq. intros H. assert (H' : Z.testbit (Z.land a (2 ^ m)) m = false) by (rewrite H; apply Z.bits_0).
    by rewrite Z.land_spec, Hb, Z.pow2_bits_true in H'.
  - apply Z.eqb_eq. apply Z.bits_inj'. intros i Hi. rewrite Z.land_spec, Z.bits_0.
    destruct (decide (m = i)) as [->|]; [by rewrite Hb|]. by rewrite Z.pow2_bits_false, andb_false_r.
Qed.

Lemma bit_lor a m i : 0 <= m -> Z.testbit (Z.lor a (LOCKBIT_ON m)) i = Z.testbit a i || bool_decide (m = i).
Proof.
  intros Hm. rewrite Z.lor_spec. destruct (decide (0 <= i)) as [Hi|Hi]; [by rewrite bit_on|].
  rewrite !Z.testbit_neg_r by lia. rewrite bool_decide_false by lia. done.
Qed.

Lemma bit_clear a m i : 0 <= m -> Z.testbit (Z.land a (LOCKBIT_OFF m)) i = Z.testbit a i && bool_decide (m <> i).
Proof.
  intros Hm. rewrite Z.land_spec. destruct (decide (0 <= i)) as [Hi|Hi]; [by rewrite bit_off|]. by rewrite !Z.testbit_neg_r by lia.
Qed.

Lemma mask_lor_nonneg a m : 0 <= a -> 0 <= Z.lor a (LOCKBIT_ON m).
Proof. intros Ha. apply Z.lor_nonneg. split; [done|apply bit_on_nonneg]. Qed.
Lemma mask_clear_nonneg a b : 0 <= a -> 0 <= Z.land a b.
Proof. intros Ha. apply Z.land_nonneg. by left. Qed.

Lemma land_lnot a b : 0 <= a -> (Z.land a (Z.lnot b) =? 0) = true <-> forall i, Z.testbit a i = true -> Z.testbit b i = true.
Proof.
  intros Ha. rewrite Z.eqb_eq. split.
  - intros H i Hi. destruct (Z.testbit b i) eqn:Hb; [done|]. assert (H0 : Z.testbit (Z.land a (Z.lnot b)) i = false) by (rewrite H; apply Z.bits_0).
    destruct (decide (0 <= i)); [|by rewrite Z.testbit_neg_r in Hi by lia]. by rewrite Z.land_spec, Z.lnot_spec, Hi, Hb in H0.
  - intros H. apply Z.bits_inj'. intros i Hi. rewrite Z.land_spec, Z.bits_0, Z.lnot_spec by done.
    destruct (Z.testbit a i) eqn:Hai; [by rewrite (H i Hai)|done].
Qed.

(** ** Modes *)

Definition mode_ok (m : Z) : Prop := 1 <= m <= 8.
Definition modes : list Z := [1; 2; 3; 4; 5; 6; 7; 8].

Lemma elem_of_modes m : m ∈ modes <-> mode_ok m.
Proof.
  unfold modes, mode_ok. rewrite !elem_of_cons. split.
  - intros H. repeat destruct H as [->|H]; try lia. by apply not_elem_of_nil in H.
  - intros H. assert (m = 1 \/ m = 2 \/ m = 3 \/ m = 4 \/ m = 5 \/ m = 6 \/ m = 7 \/ m = 8) by lia. tauto.
Qed.

Lemma mode_cases m : mode_ok m -> m = 1 \/ m = 2 \/ m = 3 \/ m = 4 \/ m = 5 \/ m = 6 \/ m = 7 \/ m = 8.
Proof. unfold mode_ok. lia. Qed.

(** The bits of the mask of a mode. *)
Definition conflict (m1 m2 : Z) : bool := Z.testbit (znth LockConflicts m1) m2.

Lemma conflict_range m1 m2 : mode_ok m1 -> conflict m1 m2 = true -> mode_ok m2.
Proof.
  intros Hm H. destruct (decide (mode_ok m2)) as [|Hn]; [done|]. exfalso. revert H.
  destruct (decide (0 <= m2)) as [Hp|Hp]; [|unfold conflict; by rewrite Z.testbit_neg_r by lia].
  assert (Hb : forall mask, 0 <= mask < 512 -> Z.testbit mask 0 = false -> Z.testbit mask m2 = false).
  { intros mask Hr H0. destruct (decide (m2 = 0)) as [->|]; [done|]. unfold mode_ok in Hn.
    destruct (decide (mask = 0)) as [->|]; [apply Z.bits_0|]. apply Z.bits_above_log2; [lia|].
    apply Z.log2_lt_pow2; [lia|]. assert (2 ^ 9 <= 2 ^ m2) by (apply Z.pow_le_mono_r; lia).
    change (2 ^ 9) with 512 in *. lia. }
  unfold conflict. rewrite Hb; [done| |]; destruct (mode_cases _ Hm) as [->|[->|[->|[->|[->|[->|[->| ->]]]]]]];
    vm_compute; try done; split; congruence.
Qed.

Lemma conflict_sym m1 m2 : mode_ok m1 -> mode_ok m2 -> conflict m1 m2 = conflict m2 m1.
Proof.
  intros H1%elem_of_modes H2%elem_of_modes.
  assert (H : forallb (fun a => forallb (fun b => Bool.eqb (conflict a b) (conflict b a)) modes) modes = true) by (vm_compute; done).
  rewrite forallb_forall in H. specialize (H m1 ltac:(by apply list_elem_of_In)). rewrite forallb_forall in H.
  specialize (H m2 ltac:(by apply list_elem_of_In)). by apply eqb_prop in H.
Qed.

Definition method_ok (t : LockMethodData) : Prop := numLockModes t = 8 /\ conflictTab t = LockConflicts.

Lemma conflicts_of_mode t m : method_ok t -> mode_ok m -> conflicts_of t m = Done (znth LockConflicts m).
Proof.
  intros [_ Ht] Hm. unfold conflicts_of. rewrite Ht, zlookup_in; [done|]. unfold mode_ok in Hm.
  change (zlen LockConflicts) with 9. lia.
Qed.

Lemma conflicts_nonneg m : mode_ok m -> 0 <= znth LockConflicts m.
Proof. intros Hm. destruct (mode_cases _ Hm) as [->|[->|[->|[->|[->|[->|[->| ->]]]]]]]; vm_compute; congruence. Qed.

Lemma conflicts_meet m mask : mode_ok m -> 0 <= mask ->
  Z.land (znth LockConflicts m) mask <> 0 <-> exists m', conflict m m' = true /\ Z.testbit mask m' = true.
Proof.
  intros Hm Hmask. rewrite land_nonzero by (try done; by apply conflicts_nonneg). split.
  - intros (i & _ & H1 & H2). by exists i.
  - intros (i & H1 & H2). exists i. split_and!; [|done|done]. apply conflict_range in H1; [|done]. unfold mode_ok in H1. lia.
Qed.

(** ** Total runs *)

Definition lwp {A} (m : LM A) (Q : A -> LockState -> Prop) (s : LockState) : Prop :=
  match m s with Done (a, s') => Q a s' | _ => False end.

Lemma lwp_ret {A} (a : A) (Q : A -> LockState -> Prop) s : Q a s -> lwp (mret a) Q s.
Proof. done. Qed.
Lemma lwp_bind {A B} (m : LM A) (k : A -> LM B) Q s : lwp m (fun a s' => lwp (k a) Q s') s -> lwp (m ≫= k) Q s.
Proof. unfold lwp, mbind, LM_bind. by destruct (m s) as [[a s']| |]. Qed.
Lemma lwp_mono {A} (m : LM A) (Q Q' : A -> LockState -> Prop) s : (forall a s', Q a s' -> Q' a s') -> lwp m Q s -> lwp m Q' s.
Proof. unfold lwp. destruct (m s) as [[a s']| |]; auto. Qed.
Lemma lwp_lift {A} (r : run A) (a : A) (Q : A -> LockState -> Prop) s : r = Done a -> Q a s -> lwp (lift r) Q s.
Proof. by intros ->. Qed.
Lemma lwp_get_state (Q : LockState -> LockState -> Prop) s : Q s s -> lwp get_state Q s.
Proof. done. Qed.
Lemma lwp_modify f (Q : unit -> LockState -> Prop) s : Q tt (f s) -> lwp (modify f) Q s.
Proof. done. Qed.
Lemma lwp_get_proc p proc (Q : PGPROC -> LockState -> Prop) s : allProcs s !! p = Some proc -> Q proc s -> lwp (get_proc p) Q s.
Proof. intros Hp HQ. unfold get_proc. apply lwp_bind. cbn. unfold lwp, lift. by rewrite Hp. Qed.
Lemma lwp_get_lock tag l (Q : LOCK -> LockState -> Prop) s : LockMethodLockHash s !! tag = Some l -> Q l s -> lwp (get_lock tag) Q s.
Proof. intros Hp HQ. unfold get_lock. apply lwp_bind. cbn. unfold lwp, lift. by rewrite Hp. Qed.
Lemma lwp_run {A} (m : LM A) Q s : lwp m Q s -> exists a s', m s = Done (a, s') /\ Q a s'.
Proof. unfold lwp. destruct (m s) as [[a s']| |]; [|done..]. by exists a, s'. Qed.

(** Runs that may report an error. *)
Definition lpe {A} (m : LM A) (Q : A -> LockState -> Prop) (E : errcode -> Prop) (s : LockState) : Prop :=
  match m s with Done (a, s') => Q a s' | Report c => E c | Outside => False end.

Lemma lpe_lwp {A} (m : LM A) Q E s : lwp m Q s -> lpe m Q E s.
Proof. unfold lwp, lpe. by destruct (m s) as [[a s']| |]. Qed.
Lemma lpe_bind {A B} (m : LM A) (k : A -> LM B) Q E s : lwp m (fun a s' => lpe (k a) Q E s') s -> lpe (m ≫= k) Q E s.
Proof. unfold lwp, lpe, mbind, LM_bind. by destruct (m s) as [[a s']| |]. Qed.
Lemma lpe_bind_err {A B} (m : LM A) (k : A -> LM B) Q E s : lpe m (fun a s' => lpe (k a) Q E s') E s -> lpe (m ≫= k) Q E s.
Proof. unfold lpe, mbind, LM_bind. by destruct (m s) as [[a s']| |]. Qed.
Lemma lpe_report {A} c (Q : A -> LockState -> Prop) E s : E c -> lpe (lift (Report c)) Q E s.
Proof. done. Qed.
Lemma lpe_assoc {A} (m : LM unit) (k : LM unit) (r : LM A) Q E s : lpe ((m;; k);; r) Q E s -> lpe (m;; k;; r) Q E s.
Proof. unfold lpe, mbind, LM_bind. by destruct (m s) as [[[] s']| |]. Qed.
Lemma lpe_mono {A} (m : LM A) (Q Q' : A -> LockState -> Prop) (E E' : errcode -> Prop) s :
  (forall a s', Q a s' -> Q' a s') -> (forall c, E c -> E' c) -> lpe m Q E s -> lpe m Q' E' s.
Proof. unfold lpe. destruct (m s) as [[a s']| |]; auto. Qed.

(** ** The invariant *)

Definition leader_of (p : Z) (proc : PGPROC) : Z := default p (lockGroupLeader proc).

(** Who holds the mode [m], who waits for it. *)
Definition holders (pls : list PROCLOCK) (m : Z) : list PROCLOCK := filter (fun pl => Z.testbit (holdMask pl) m = true) pls.
Definition waitmode (ps : gmap Z PGPROC) (w : Z) : Z := default 0 (waitLockMode <$> ps !! w).
Definition waiters (ps : gmap Z PGPROC) (q : list Z) (m : Z) : list Z := filter (fun w => waitmode ps w = m) q.

Definition has_hold (pls : list PROCLOCK) (p : Z) (mask : Z) : Prop :=
  exists pl, pl ∈ pls /\ myProc pl = p /\ holdMask pl = mask.

(** A process that waits for the lock [tag]. *)
Record waiting (ps : gmap Z PGPROC) (tag : LOCKTAG) (pls : list PROCLOCK) (w : Z) (proc : PGPROC) : Prop := {
  w_proc : ps !! w = Some proc;
  w_lock : waitLock proc = Some tag;
  w_linked : linked proc = true;
  w_mode : mode_ok (waitLockMode proc);
  w_status : waitStatus proc = STATUS_WAITING;
  w_held : has_hold pls w (heldLocks proc);
  w_new : Z.testbit (heldLocks proc) (waitLockMode proc) = false }.

Definition mask_ok (mask : Z) : Prop := 0 <= mask /\ forall m, Z.testbit mask m = true -> mode_ok m.

(** The lists of a lock. *)
Record shape (ps : gmap Z PGPROC) (tag : LOCKTAG) (pls : list PROCLOCK) (q : list Z) : Prop := {
  sh_nodup : NoDup (myProc <$> pls);
  sh_masks : forall pl, pl ∈ pls -> mask_ok (holdMask pl);
  sh_leader : forall pl, pl ∈ pls -> exists proc, ps !! myProc pl = Some proc /\ groupLeader pl = leader_of (myProc pl) proc;
  sh_queue : NoDup q;
  sh_waiting : forall w, w ∈ q -> exists proc, waiting ps tag pls w proc }.

(** Mutual exclusion: what different lock groups hold does not conflict. *)
Definition exclusion (pls : list PROCLOCK) : Prop :=
  forall pl1 pl2 m1 m2, pl1 ∈ pls -> pl2 ∈ pls -> groupLeader pl1 <> groupLeader pl2 ->
    Z.testbit (holdMask pl1) m1 = true -> Z.testbit (holdMask pl2) m2 = true -> conflict m1 m2 = false.

(** [pend] are the modes of requests that are counted and neither granted nor
    queued; [extra] are modes whose bit in [waitMask] is to be cleared. *)
Record lock_ok (ps : gmap Z PGPROC) (tag : LOCKTAG) (pend extra : list Z) (l : LOCK) : Prop := {
  lk_shape : shape ps tag (procLocks l) (waitProcs l);
  lk_sizes : zlen (granted l) = MAX_LOCKMODES /\ zlen (requested l) = MAX_LOCKMODES;
  lk_granted : forall m, mode_ok m -> zlookup (granted l) m = Some (zlen (holders (procLocks l) m));
  lk_requested : forall m, mode_ok m -> zlookup (requested l) m =
    Some (zlen (holders (procLocks l) m) + zlen (waiters ps (waitProcs l) m) + zlen (filter (fun r => r = m) pend));
  lk_total : nRequested l = foldr Z.add 0 (requested l) /\ nGranted l = foldr Z.add 0 (granted l);
  lk_rest : zlookup (requested l) 0 = Some 0 /\ zlookup (requested l) 9 = Some 0;
  lk_grantmask : 0 <= grantMask l /\ forall m, Z.testbit (grantMask l) m = true <-> holders (procLocks l) m <> [];
  lk_waitmask : 0 <= waitMask l /\ forall m, (waiters ps (waitProcs l) m <> [] -> Z.testbit (waitMask l) m = true)
    /\ (Z.testbit (waitMask l) m = true -> waiters ps (waitProcs l) m <> [] \/ m ∈ extra);
  lk_exclusion : exclusion (procLocks l) }.

(** Only processes of [idle] have a PROCLOCK without a reason. *)
Definition needed_ok (idle : list Z) (l : LOCK) : Prop :=
  forall pl, pl ∈ procLocks l -> holdMask pl <> 0 \/ myProc pl ∈ waitProcs l \/ myProc pl ∈ idle.

(** A holder outside the group [leader] conflicts with the mode [m]. *)
Definition held_conflict (pls : list PROCLOCK) (leader m : Z) : Prop :=
  exists pl m', pl ∈ pls /\ groupLeader pl <> leader /\ Z.testbit (holdMask pl) m' = true /\ conflict m m' = true.

(** The waiter [w] with [ahead] before it in the queue waits for a reason. *)
Definition blocked (ps : gmap Z PGPROC) (pls : list PROCLOCK) (ahead : list Z) (w : Z) : Prop :=
  exists proc, ps !! w = Some proc /\
    ((exists v, v ∈ ahead /\ conflict (waitLockMode proc) (waitmode ps v) = true)
     \/ held_conflict pls (leader_of w proc) (waitLockMode proc)).
Definition blocked_ok (ps : gmap Z PGPROC) (l : LOCK) : Prop :=
  forall ahead w behind, waitProcs l = ahead ++ w :: behind -> blocked ps (procLocks l) ahead w.

(** Lock groups: a leader leads itself. *)
Record groups_ok (ps : gmap Z PGPROC) : Prop := {
  gr_leader : forall p proc q, ps !! p = Some proc -> lockGroupLeader proc = Some q ->
    exists leader, ps !! q = Some leader /\ lockGroupLeader leader = Some q /\ p ∈ lockGroupMembers leader;
  gr_members : forall q leader p, ps !! q = Some leader -> p ∈ lockGroupMembers leader ->
    lockGroupLeader leader = Some q /\ exists proc, ps !! p = Some proc /\ lockGroupLeader proc = Some q }.

(** The same place in the groups. *)
Definition same_group (proc proc' : PGPROC) : Prop :=
  lockGroupLeader proc' = lockGroupLeader proc /\ lockGroupMembers proc' = lockGroupMembers proc.

Definition valid_tag (tag : LOCKTAG) : Prop := locktag_lockmethodid tag = DEFAULT_LOCKMETHOD \/ locktag_lockmethodid tag = USER_LOCKMETHOD.

Definition redist_ok (s : LockState) : Prop :=
  forall q, blocking_redistribution_proc s = Some q -> exists proc, allProcs s !! q = Some proc.

Record lock_good (ps : gmap Z PGPROC) (tag : LOCKTAG) (l : LOCK) : Prop := {
  lg_ok : lock_ok ps tag [] [] l;
  lg_needed : needed_ok [] l;
  lg_blocked : blocked_ok ps l;
  lg_used : nRequested l <> 0;
  lg_tag : valid_tag tag }.

Record table_ok (s : LockState) : Prop := {
  tb_groups : groups_ok (allProcs s);
  tb_locks : forall tag l, LockMethodLockHash s !! tag = Some l -> lock_good (allProcs s) tag l;
  tb_waits : forall p proc, allProcs s !! p = Some proc ->
    match waitLock proc with
    | Some tag => exists l, LockMethodLockHash s !! tag = Some l /\ p ∈ waitProcs l
    | None => linked proc = false /\ waitStatus proc <> STATUS_WAITING
    end;
  tb_redist : redist_ok s }.

(** *** What a state says *)

Definition holds_in (pls : list PROCLOCK) (p m : Z) : Prop := exists pl, pl ∈ pls /\ myProc pl = p /\ Z.testbit (holdMask pl) m = true.

(** [p] holds the mode [m] of the lock [tag]; it waits for it. *)
Definition holds_at (s : LockState) (tag : LOCKTAG) (p m : Z) : Prop :=
  exists l, LockMethodLockHash s !! tag = Some l /\ holds_in (procLocks l) p m.
Definition waits_at (s : LockState) (p : Z) (tag : LOCKTAG) (m : Z) : Prop :=
  exists proc, allProcs s !! p = Some proc /\ waitLock proc = Some tag /\ waitLockMode proc = m.

(** The lock group of a process; somebody outside it holds a conflicting mode;
    somebody waits for one. *)
Definition leader (s : LockState) (p : Z) : Z := from_option (leader_of p) p (allProcs s !! p).
Definition conflicting_holder (s : LockState) (tag : LOCKTAG) (p m : Z) : Prop :=
  exists q m', holds_at s tag q m' /\ leader s q <> leader s p /\ conflict m m' = true.
Definition conflicting_waiter (s : LockState) (tag : LOCKTAG) (m : Z) : Prop :=
  exists q m', waits_at s q tag m' /\ conflict m m' = true.

(** From [s] to [s'] the process [p] has given up the modes [drop], and the
    waiters [ws] got what they waited for and were woken, once each. *)
Record moved (s s' : LockState) (p : Z) (drop : LOCKTAG -> Z -> Prop) (ws : list Z) : Prop := {
  mv_sems : unlocked_sems s' = unlocked_sems s ++ ws;
  mv_holds : forall tag q m, holds_at s' tag q m
    <-> (holds_at s tag q m /\ ~ (q = p /\ drop tag m)) \/ (q ∈ ws /\ waits_at s q tag m);
  mv_waits : forall q tag m, waits_at s' q tag m <-> waits_at s q tag m /\ q ∉ ws;
  mv_were : forall w, w ∈ ws -> exists tag m, waits_at s w tag m;
  mv_once : NoDup ws;
  mv_procs : forall q, is_Some (allProcs s !! q) -> is_Some (allProcs s' !! q) }.

(** *** Lists *)

Lemma zlen_filter_nil {A} (P : A -> Prop) `{!forall x, Decision (P x)} (l : list A) : zlen (filter P l) = 0 <-> filter P l = [].
Proof. unfold zlen. destruct (filter P l); cbn; split; (done || lia). Qed.

Lemma filter_some {A} (P : A -> Prop) `{!forall x, Decision (P x)} (l : list A) : filter P l <> [] <-> exists x, x ∈ l /\ P x.
Proof.
  split.
  - destruct (filter P l) as [|x k] eqn:E; [done|]. intros _. exists x.
    assert (Hx : x ∈ filter P l) by (rewrite E; by left). apply list_elem_of_filter in Hx as [? ?]. done.
  - intros (x & Hx & HP) E. assert (Hin : x ∈ filter P l) by (by apply list_elem_of_filter). rewrite E in Hin.
    by apply not_elem_of_nil in Hin.
Qed.

Lemma filter_le {A} (P Q : A -> Prop) `{!forall x, Decision (P x)} `{!forall x, Decision (Q x)} (l : list A) :
  (forall x, x ∈ l -> P x -> Q x) -> zlen (filter P l) <= zlen (filter Q l).
Proof.
  unfold zlen. induction l as [|y l IH]; [done|]. intros HPQ. rewrite !filter_cons.
  assert (IH' := IH ltac:(intros x Hx; apply HPQ; by right)). pose proof (HPQ y ltac:(by left)).
  destruct (decide (P y)), (decide (Q y)); cbn [length]; try lia. tauto.
Qed.

Lemma filter_ge {A} (P Q : A -> Prop) `{!forall x, Decision (P x)} `{!forall x, Decision (Q x)} (l : list A) x :
  (forall x, Q x -> P x) -> x ∈ l -> P x -> ~ Q x -> zlen (filter Q l) < zlen (filter P l).
Proof.
  intros HQP Hx HP HQ. apply list_elem_of_split in Hx as (l1 & l2 & ->). rewrite !filter_app, !filter_cons, !zlen_app.
  rewrite (decide_True (P := P x)), (decide_False (P := Q x)) by done. rewrite zlen_cons.
  pose proof (filter_le Q P l1 ltac:(auto)). pose proof (filter_le Q P l2 ltac:(auto)). lia.
Qed.

(** One filter is longer than a stronger one: some element is in the first only. *)
Lemma filter_longer {A} (P Q : A -> Prop) `{!forall x, Decision (P x)} `{!forall x, Decision (Q x)} (l : list A) :
  (forall x, Q x -> P x) -> zlen (filter Q l) < zlen (filter P l) <-> exists x, x ∈ l /\ P x /\ ~ Q x.
Proof.
  intros HQP. split; [|intros (x & ? & ? & ?); by eapply filter_ge]. intros Hlt.
  destruct (decide (Exists (fun x => P x /\ ~ Q x) l)) as [He|Hn].
  - apply Exists_exists in He as (x & ? & ?). by exists x.
  - exfalso. assert (Hle : zlen (filter P l) <= zlen (filter Q l)); [|lia]. apply filter_le. intros x Hx HP.
    destruct (decide (Q x)); [done|]. destruct Hn. apply Exists_exists. by exists x.
Qed.

Lemma sum_insert (l : list Z) k n y : l !! k = Some n -> foldr Z.add 0 (<[k := y]> l) = foldr Z.add 0 l + (y - n).
Proof.
  revert k. induction l as [|x l IH]; intros [|k] Hn; try done.
  - injection Hn as ->. change (<[0%nat := y]> (n :: l)) with (y :: l). cbn. lia.
  - change (<[S k := y]> (x :: l)) with (x :: <[k := y]> l). cbn [foldr]. rewrite (IH k Hn). lia.
Qed.

Lemma bump_spec l i d n : zlookup l i = Some n -> exists l', bump l i d = Done l' /\ zlen l' = zlen l
  /\ zlookup l' i = Some (n + d) /\ (forall j, j <> i -> zlookup l' j = zlookup l j) /\ foldr Z.add 0 l' = foldr Z.add 0 l + d.
Proof.
  intros Hn. pose proof (zlookup_range _ _ _ Hn) as Hr. exists (zset l i (n + d)). unfold bump. rewrite Hn. runs.
  rewrite zupdate_in by done. split_and!; [done|apply zlen_zset| | |].
  - rewrite zlookup_zset by lia. by rewrite decide_True.
  - intros j Hj. destruct (decide (0 <= j)) as [Hp|Hp]; [|unfold zlookup; by rewrite (proj2 (Z.leb_gt 0 j)) by lia].
    rewrite zlookup_zset by lia. by rewrite decide_False.
  - unfold zlookup in Hn. rewrite (proj2 (Z.leb_le 0 i)) in Hn by lia. unfold zset. rewrite (sum_insert _ _ n) by done. lia.
Qed.

(** *** PROCLOCKs *)

Section ProcLocks.
Context (l : list PROCLOCK) (Hnd : NoDup (myProc <$> l)).

Lemma same_proclock pl pl' : pl ∈ l -> pl' ∈ l -> myProc pl = myProc pl' -> pl = pl'.
Proof.
  clear -Hnd. induction l as [|x k IH]; [by intros ?%not_elem_of_nil|]. apply NoDup_cons in Hnd as [Hx Hk].
  intros [->|H1]%elem_of_cons [->|H2]%elem_of_cons E; [done| | |by apply IH].
  - destruct Hx. apply list_elem_of_fmap. exists pl'. by rewrite E.
  - destruct Hx. apply list_elem_of_fmap. by exists pl.
Qed.

Lemma find_proclock_Some p pl : find_proclock p l = Some pl <-> pl ∈ l /\ myProc pl = p.
Proof.
  unfold find_proclock. split.
  - destruct (list_find (of_proc p) l) as [[i x]|] eqn:Hf; [|done]. intros [= ->].
    apply list_find_Some in Hf as (Hx & Hp & _). split; [by eapply list_elem_of_lookup_2|done].
  - intros [Hx Hp]. destruct (list_find (of_proc p) l) as [[i y]|] eqn:Hf.
    + apply list_find_Some in Hf as (Hy & Hyp & _). cbn. f_equal. apply same_proclock; [by eapply list_elem_of_lookup_2|done|].
      unfold of_proc in Hyp. congruence.
    + apply list_find_None in Hf. rewrite Forall_forall in Hf. by destruct (Hf pl Hx).
Qed.

Lemma find_proclock_None p : find_proclock p l = None <-> p ∉ myProc <$> l.
Proof.
  unfold find_proclock. rewrite fmap_None, list_find_None, Forall_forall. split.
  - intros H [x [-> Hx]]%list_elem_of_fmap. by apply (H x).
  - intros H x Hx E. apply H, list_elem_of_fmap. exists x. split; [by symmetry|done].
Qed.

Context (p : Z) (pl : PROCLOCK) (Hpl : pl ∈ l) (Hp : myProc pl = p).

Lemma proclock_split : exists l1 l2, l = l1 ++ pl :: l2 /\ (forall x, x ∈ l1 ++ l2 -> myProc x <> p).
Proof.
  destruct (list_elem_of_split _ _ Hpl) as (l1 & l2 & E). exists l1, l2. split; [done|]. intros x Hx Hxp.
  assert (Hxl : x ∈ l) by (rewrite E, elem_of_app, elem_of_cons; apply elem_of_app in Hx; tauto).
  assert (x = pl) as -> by (apply same_proclock; [done|done|congruence]).
  pose proof Hnd as Hn. rewrite E, fmap_app, fmap_cons in Hn. apply NoDup_app in Hn as (_ & Hn1 & Hn2).
  apply NoDup_cons in Hn2 as [Hn2 _]. apply elem_of_app in Hx as [Hx|Hx].
  - apply (Hn1 (myProc pl)); [by apply list_elem_of_fmap_2|by left].
  - by apply Hn2, list_elem_of_fmap_2.
Qed.

Lemma update_others f (k : list PROCLOCK) : (forall x, x ∈ k -> myProc x <> p) -> update_proclock f p k = k.
Proof.
  unfold update_proclock. induction k as [|x k IH]; [done|]. intros Hx. rewrite fmap_cons, decide_False by (apply Hx; by left).
  f_equal. apply IH. intros y Hy. apply Hx. by right.
Qed.

Lemma delete_others (k : list PROCLOCK) : (forall x, x ∈ k -> myProc x <> p) -> delete_proclock p k = k.
Proof.
  unfold delete_proclock. induction k as [|x k IH]; [done|]. intros Hx. rewrite filter_cons, decide_True by (apply Hx; by left).
  f_equal. apply IH. intros y Hy. apply Hx. by right.
Qed.

Lemma update_split f : exists l1 l2, l = l1 ++ pl :: l2 /\ update_proclock f p l = l1 ++ f pl :: l2
  /\ delete_proclock p l = l1 ++ l2 /\ (forall x, x ∈ l1 ++ l2 -> myProc x <> p).
Proof.
  destruct proclock_split as (l1 & l2 & E & Hx). exists l1, l2. rewrite E. split_and!; [done| | |done].
  - transitivity (update_proclock f p l1 ++ update_proclock f p [pl] ++ update_proclock f p l2).
    { unfold update_proclock. by rewrite fmap_app. }
    rewrite (update_others f l1), (update_others f l2) by (intros x Hxx; apply Hx, elem_of_app; tauto).
    unfold update_proclock. cbn. by rewrite decide_True.
  - unfold delete_proclock. rewrite filter_app, filter_cons, decide_False by (intros H; by apply H).
    f_equal; apply (delete_others); intros x Hxx; apply Hx, elem_of_app; tauto.
Qed.

Lemma update_count f (P : PROCLOCK -> Prop) `{!forall x, Decision (P x)} :
  zlen (filter P (update_proclock f p l)) = zlen (filter P l) - (if decide (P pl) then 1 else 0) + (if decide (P (f pl)) then 1 else 0).
Proof.
  destruct (update_split f) as (l1 & l2 & -> & -> & _). rewrite !filter_app, !filter_cons, !zlen_app.
  destruct (decide (P pl)), (decide (P (f pl))); rewrite ?zlen_cons; lia.
Qed.

Lemma elem_of_update f x : x ∈ update_proclock f p l <-> x = f pl \/ (x ∈ l /\ myProc x <> p).
Proof.
  destruct (update_split f) as (l1 & l2 & -> & -> & _ & Hx). rewrite !elem_of_app, !elem_of_cons. split.
  - intros [H|[H|H]]; [|by left|]; (right; split; [tauto|apply Hx, elem_of_app; tauto]).
  - intros [->|[[H|[->|H]] Hne]]; [by right; left|by left|done|by right; right].
Qed.

Lemma elem_of_delete x : x ∈ delete_proclock p l <-> x ∈ l /\ myProc x <> p.
Proof. unfold delete_proclock. rewrite list_elem_of_filter. unfold of_proc. tauto. Qed.

Lemma update_procs f : (forall x, myProc (f x) = myProc x) -> myProc <$> update_proclock f p l = myProc <$> l.
Proof. intros Hf. unfold update_proclock. rewrite <- list_fmap_compose. apply list_fmap_ext. intros i x _. cbn. by case_decide. Qed.

Lemma delete_procs : NoDup (myProc <$> delete_proclock p l).
Proof.
  destruct (update_split id) as (l1 & l2 & E & _ & -> & _). pose proof Hnd as Hn. rewrite E in Hn.
  rewrite fmap_app, fmap_cons in Hn. rewrite fmap_app. apply NoDup_app in Hn as (H1 & H2 & H3).
  apply NoDup_cons in H3 as [_ H3]. apply NoDup_app. split_and!; [done| |done]. intros x Hx Hx2. apply (H2 x); [done|by right].
Qed.
End ProcLocks.

(** ** LockCheckConflicts *)

(** Nothing but what the thread knows of a redistribution has changed. *)
Record same_table (s s' : LockState) : Prop := {
  st_procs : allProcs s' = allProcs s;
  st_locks : LockMethodLockHash s' = LockMethodLockHash s;
  st_sems : unlocked_sems s' = unlocked_sems s;
  st_redist : redist_ok s -> redist_ok s' }.
#[global] Instance same_table_preorder : PreOrder same_table.
Proof.
  split; [by intros s; constructor|]. intros s1 s2 s3 [A1 A2 A3 A4] [B1 B2 B3 B4]. constructor; [congruence..|auto].
Qed.

Section Check.
Context {th : LockThread} (Hstream : stream_mode = false).
Context (ps : gmap Z PGPROC) (Hgroups : groups_ok ps).
Context (tag : LOCKTAG) (pend extra : list Z) (l : LOCK) (Hl : lock_ok ps tag pend extra l).
Context (p : Z) (pl : PROCLOCK) (Hpl : pl ∈ procLocks l) (Hp : myProc pl = p).
Context (me : PGPROC) (Hme : ps !! my_proc = Some me).

Definition in_group : bool := negb (groupLeader pl =? my_proc) || bool_decide (lockGroupLeader me <> None).

(** The group of [pl] as the function sees it. *)
Definition grouped (x : PROCLOCK) : Prop := groupLeader x = groupLeader pl.

Lemma holder_bit x i : 0 <= i -> holds x i = Z.testbit (holdMask x) i.
Proof. intros Hi. unfold holds. rewrite land_bit_on by done. apply negb_involutive. Qed.

(** Without a group nobody else has the leader of [pl]. *)
Lemma alone x : in_group = false -> x ∈ procLocks l -> grouped x -> x = pl.
Proof.
  intros Hg Hx Hgx. unfold in_group in Hg. apply orb_false_iff in Hg as [Hg1 Hg2].
  apply negb_false_iff, Z.eqb_eq in Hg1. apply bool_decide_eq_false in Hg2.
  assert (Hnone : lockGroupLeader me = None) by (destruct (lockGroupLeader me); [by destruct Hg2|done]).
  assert (Hid : forall y, y ∈ procLocks l -> groupLeader y = my_proc -> myProc y = my_proc).
  { intros y Hy Hyl. destruct (sh_leader _ _ _ _ (lk_shape _ _ _ _ _ Hl) y Hy) as (proc & Hproc & Hlead). unfold leader_of in Hlead.
    destruct (lockGroupLeader proc) as [q|] eqn:Hq; cbn in Hlead; [|congruence].
    destruct (gr_leader _ Hgroups _ _ _ Hproc Hq) as (leader & Hql & Hqq & _). congruence. }
  apply (same_proclock _ (sh_nodup _ _ _ _ (lk_shape _ _ _ _ _ Hl))); [done|done|]. unfold grouped in Hgx.
  rewrite (Hid x Hx), (Hid pl Hpl) by congruence. done.
Qed.

Lemma count_group_spec mypid i (others : list PROCLOCK) Q s : allProcs s = ps -> 0 <= i ->
  (forall x, x ∈ others -> x ∈ procLocks l) ->
  Q (zlen (filter (fun x => Z.testbit (holdMask x) i = true /\ grouped x /\ myProc x <> p) others)) s ->
  lwp (count_group true pl mypid i others) Q s.
Proof.
  intros Hs Hi. revert Q. induction others as [|x others IH]; intros Q Hin HQ; [done|]. cbn [count_group].
  assert (Hx : x ∈ procLocks l) by (apply Hin; by left).
  destruct (sh_leader _ _ _ _ (lk_shape _ _ _ _ _ Hl) x Hx) as (proc & Hproc & _). rewrite <- Hs in Hproc.
  apply lwp_bind. eapply lwp_get_proc; [done|]. apply lwp_bind, IH; [intros y Hy; apply Hin; by right|].
  apply lwp_ret. revert HQ. rewrite filter_cons. cbn [negb andb orb]. rewrite holder_bit by done.
  unfold IsInSameLockGroup, grouped. rewrite Hp.
  destruct (decide _) as [(H1 & H2 & H3)|Hn].
  - rewrite H1, H2, Z.eqb_refl, (proj2 (Z.eqb_neq _ _)) by congruence. cbn. rewrite zlen_cons. by rewrite Z.add_comm.
  - destruct (negb (p =? myProc x) && (groupLeader pl =? groupLeader x) && Z.testbit (holdMask x) i) eqn:E; [|done].
    apply andb_true_iff in E as [[E1%negb_true_iff E2]%andb_true_iff E3]. apply Z.eqb_neq in E1. apply Z.eqb_eq in E2.
    destruct Hn. split_and!; [done|congruence|congruence].
Qed.

(** The mode [i] is held outside the group. *)
Definition held_outside (i : Z) : Prop := exists x, x ∈ procLocks l /\ Z.testbit (holdMask x) i = true /\ ~ grouped x.

Lemma own_count i : mode_ok i -> zlen (filter (fun x => Z.testbit (holdMask x) i = true /\ grouped x) (procLocks l))
  = (if holds pl i then 1 else 0)
    + (if in_group then zlen (filter (fun x => Z.testbit (holdMask x) i = true /\ grouped x /\ myProc x <> p) (procLocks l)) else 0).
Proof.
  intros Hi. rewrite holder_bit by (unfold mode_ok in Hi; lia).
  destruct (update_split (procLocks l) (sh_nodup _ _ _ _ (lk_shape _ _ _ _ _ Hl)) p pl Hpl Hp id) as (l1 & l2 & E & _ & _ & Hne).
  assert (Hother : forall k, (forall x, x ∈ k -> x ∈ l1 ++ l2) ->
    filter (fun x => Z.testbit (holdMask x) i = true /\ grouped x) k
    = if in_group then filter (fun x => Z.testbit (holdMask x) i = true /\ grouped x /\ myProc x <> p) k else []).
  { intros k. induction k as [|x k IH]; intros Hk; [by destruct in_group|]. rewrite !filter_cons.
    assert (Hxl : x ∈ l1 ++ l2) by (apply Hk; by left). pose proof (Hne x Hxl) as Hxp.
    assert (Hxin : x ∈ procLocks l) by (rewrite E, elem_of_app, elem_of_cons; apply elem_of_app in Hxl; tauto).
    rewrite IH by (intros y Hy; apply Hk; by right).
    destruct (decide (Z.testbit (holdMask x) i = true /\ grouped x)) as [Hd|Hd].
    - destruct in_group eqn:Hg; [rewrite decide_True by tauto; done|]. exfalso. apply Hxp. by rewrite (alone x Hg Hxin (proj2 Hd)).
    - destruct in_group; [rewrite decide_False by tauto; done|done]. }
  rewrite E, !filter_app, !filter_cons, !zlen_app.
  rewrite (Hother l1), (Hother l2) by (intros x Hx; apply elem_of_app; tauto).
  rewrite (decide_False (P := Z.testbit (holdMask pl) i = true /\ grouped pl /\ myProc pl <> p)) by tauto.
  destruct (decide (Z.testbit (holdMask pl) i = true /\ grouped pl)) as [[Hd _]|Hd].
  - rewrite Hd, zlen_cons. destruct in_group; rewrite ?zlen_app; [lia|done].
  - assert (Z.testbit (holdMask pl) i = false) as ->.
    { destruct (Z.testbit (holdMask pl) i); [by destruct Hd|done]. }
    destruct in_group; rewrite ?zlen_app; done.
Qed.

Lemma outside_iff i : mode_ok i ->
  zlen (filter (fun x => Z.testbit (holdMask x) i = true /\ grouped x) (procLocks l)) < zlen (holders (procLocks l) i) <-> held_outside i.
Proof.
  intros Hi. unfold holders, held_outside. rewrite filter_longer by tauto.
  split; intros (x & H1 & H2 & H3); exists x; tauto.
Qed.

Lemma other_locks_spec n mypid i mask Q s : allProcs s = ps -> 1 <= i -> i + Z.of_nat n <= 9 -> 0 <= mask ->
  (forall r, 0 <= r -> (forall j, Z.testbit r j = true <-> Z.testbit mask j = true \/ (i <= j < i + Z.of_nat n /\ held_outside j)) -> Q r s) ->
  lwp (other_locks n in_group l pl mypid i mask) Q s.
Proof.
  intros Hs. revert i mask Q. induction n as [|n IH]; intros i mask Q Hi Hn Hmask HQ; cbn [other_locks].
  - apply lwp_ret, HQ; [done|]. intros j. split; [by left|]. intros [?|[? _]]; [done|lia].
  - rewrite Hstream. cbn [orb]. assert (Hmi : mode_ok i) by (unfold mode_ok; lia).
    assert (Hnext : forall ex, ex = (if in_group then zlen (filter (fun x => Z.testbit (holdMask x) i = true /\ grouped x /\ myProc x <> p) (procLocks l)) else 0) ->
      lwp (g ← lift (inside (zlookup (granted l) i));
           other_locks n in_group l pl mypid (i + 1)
             (if (if holds pl i then 1 else 0) + ex <? g then Z.lor mask (LOCKBIT_ON i) else mask)) Q s).
    { intros ex ->. apply lwp_bind. eapply lwp_lift; [by rewrite (lk_granted _ _ _ _ _ Hl) by done|].
      rewrite <- own_count by done.
      set (b := _ <? _). assert (Hb : b = true <-> held_outside i) by (unfold b; rewrite Z.ltb_lt; by apply outside_iff).
      apply IH; [lia|lia| |].
      - destruct b; [|done]. apply Z.lor_nonneg. split; [done|apply bit_on_nonneg].
      - intros r Hr Hbits. apply HQ; [done|]. intros j. rewrite Hbits. clear Hbits.
        assert (Hm : Z.testbit (if b then Z.lor mask (LOCKBIT_ON i) else mask) j = true
          <-> Z.testbit mask j = true \/ (j = i /\ held_outside i)).
        { destruct b.
          - destruct (decide (0 <= j)) as [Hj|Hj]; [|rewrite !Z.testbit_neg_r by lia; split; [done|intros [?|[-> _]]; [done|lia]]].
            rewrite Z.lor_spec, orb_true_iff, bit_on, bool_decide_eq_true by lia. split.
            + intros [?|<-]; [by left|right; split; [done|by apply Hb]].
            + intros [?|[-> _]]; [by left|by right].
          - split; [by left|]. intros [?|[_ Ho]]; [done|]. by apply Hb in Ho. }
        rewrite Hm. split.
        + intros [[?|[-> ?]]|[? ?]]; [by left|right; split; [lia|done]|right; split; [lia|done]].
        + intros [?|[Hj Ho]]; [by left; left|]. destruct (decide (j = i)) as [->|]; [by left; right|]. right. split; [lia|done]. }
    destruct in_group eqn:Hg.
    + apply lwp_bind. eapply count_group_spec; [done|lia|done|]. by apply Hnext.
    + apply lwp_bind, lwp_ret. by apply Hnext.
Qed.

Lemma find_redistribution_spec conflicts mypid (others : list PROCLOCK) Q s : allProcs s = ps ->
  (forall x, x ∈ others -> x ∈ procLocks l) -> (forall s', same_table s s' -> Q tt s') ->
  lwp (find_redistribution conflicts mypid others) Q s.
Proof.
  revert s. induction others as [|x others IH]; intros s Hs Hin HQ; cbn [find_redistribution]; [apply lwp_ret; by apply HQ|].
  destruct (sh_leader _ _ _ _ (lk_shape _ _ _ _ _ Hl) x ltac:(apply Hin; by left)) as (proc & Hproc & _). rewrite <- Hs in Hproc.
  apply lwp_bind. eapply lwp_get_proc; [done|]. apply lwp_bind.
  assert (Hk : forall b : bool, lwp ((if b then modify (set_redist (Some (myProc x))) else mret tt);; find_redistribution conflicts mypid others) Q s).
  { intros b. apply lwp_bind. assert (Hin' : forall y, y ∈ others -> y ∈ procLocks l) by (intros y Hy; apply Hin; by right).
    destruct b; [|by apply IH]. apply lwp_modify, IH; [done..|]. intros s' Hss. apply HQ. etransitivity; [|done].
    constructor; [done..|]. intros _ q [= <-]. by exists proc. }
  destruct (_ && _); [|apply lwp_ret, (Hk false)]. unfold IsOtherProcRedistribution. apply lwp_bind. eapply lwp_get_proc; [done|].
  apply lwp_ret. exact (Hk _).
Qed.

(** The answer [st] to the question whether [P] holds. *)
Definition verdict (st : wait_status) (P : Prop) : Prop := (st = STATUS_OK -> ~ P) /\ (st <> STATUS_OK -> P).

Lemma held_conflict_iff m r : mode_ok m -> 0 <= r ->
  (forall j, Z.testbit r j = true <-> 1 <= j < 9 /\ held_outside j) ->
  Z.land (znth LockConflicts m) r <> 0 <-> held_conflict (procLocks l) (groupLeader pl) m.
Proof.
  intros Hm Hr Hbits. rewrite conflicts_meet by done. unfold held_conflict. split.
  - intros (m' & Hc & Hb). apply Hbits in Hb as [_ (x & Hx & Hhold & Hg)]. by exists x, m'.
  - intros (x & m' & Hx & Hg & Hhold & Hc). exists m'. split; [done|]. apply Hbits. split; [|by exists x].
    apply conflict_range in Hc; [|done]. unfold mode_ok in Hc. lia.
Qed.

Lemma grantmask_clear m : mode_ok m -> Z.land (znth LockConflicts m) (grantMask l) = 0 -> ~ held_conflict (procLocks l) (groupLeader pl) m.
Proof.
  intros Hm Hz (x & m' & Hx & _ & Hhold & Hc). destruct (lk_grantmask _ _ _ _ _ Hl) as [Hg0 Hg].
  revert Hz. apply conflicts_meet; [done|done|]. exists m'. split; [done|]. apply Hg, filter_some. by exists x.
Qed.

Lemma check_spec t m Q s : method_ok t -> mode_ok m -> allProcs s = ps -> redist_ok s ->
  (forall st s', same_table s s' -> verdict st (held_conflict (procLocks l) (groupLeader pl) m) -> Q st s') ->
  lwp (LockCheckConflicts t m l p) Q s.
Proof.
  intros Ht Hm Hs Hredist HQ. unfold LockCheckConflicts. apply lwp_bind. eapply lwp_lift; [by apply conflicts_of_mode|].
  destruct (Z.eqb_spec (Z.land (znth LockConflicts m) (grantMask l)) 0) as [Hz|Hz].
  { apply lwp_ret, HQ; [done|]. split; [intros _; by apply grantmask_clear|done]. }
  assert (Hfind : find_proclock p (procLocks l) = Some pl).
  { apply find_proclock_Some; [apply (sh_nodup _ _ _ _ (lk_shape _ _ _ _ _ Hl))|done]. }
  destruct (sh_leader _ _ _ _ (lk_shape _ _ _ _ _ Hl) pl Hpl) as (proc & Hproc & _). rewrite Hp in Hproc.
  apply lwp_bind. eapply lwp_lift; [by rewrite Hfind|].
  apply lwp_bind. eapply lwp_get_proc; [by rewrite Hs|]. apply lwp_bind. eapply lwp_get_proc; [by rewrite Hs|].
  fold in_group. apply lwp_bind. destruct Ht as [Hnum _]. rewrite Hnum. change (Z.to_nat 8) with 8%nat.
  apply other_locks_spec; [done|lia|lia|done|]. intros r Hr Hbits. apply lwp_bind, lwp_get_state.
  assert (Hbits' : forall j, Z.testbit r j = true <-> 1 <= j < 9 /\ held_outside j).
  { intros j. rewrite Hbits, Z.bits_0. change (Z.of_nat 8) with 8. split; [intros [?|?]; done|by right]. }
  pose proof (held_conflict_iff m r Hm Hr Hbits') as Hiff.
  assert (Hk : forall s', same_table s s' -> lwp (if Z.land (znth LockConflicts m) r =? 0 then mret STATUS_OK
    else s ← get_state; match blocking_redistribution_proc s with
      | Some q => redist ← IsOtherProcRedistribution q;
          if redist : bool then mret STATUS_FOUND_NEED_CANCEL else modify (set_redist None);; mret STATUS_FOUND
      | None => mret STATUS_FOUND end) Q s').
  { intros s' Hss. destruct (Z.eqb_spec (Z.land (znth LockConflicts m) r) 0) as [Hz'|Hz'].
    { apply lwp_ret, HQ; [done|]. split; [intros _; tauto|done]. }
    assert (Hno : forall st, st <> STATUS_OK -> verdict st (held_conflict (procLocks l) (groupLeader pl) m)).
    { intros st Hst. split; [done|]. intros _. tauto. }
    apply lwp_bind, lwp_get_state. destruct (blocking_redistribution_proc s') as [q|] eqn:Hq.
    - destruct (st_redist _ _ Hss Hredist q Hq) as (qp & Hqp). apply lwp_bind. unfold IsOtherProcRedistribution.
      apply lwp_bind. eapply lwp_get_proc; [done|]. apply lwp_ret. case_match; [apply lwp_ret, HQ; [done|by apply Hno]|].
      apply lwp_bind, lwp_modify, lwp_ret, HQ; [|by apply Hno]. etransitivity; [done|]. by constructor.
    - apply lwp_ret, HQ; [done|by apply Hno]. }
  apply lwp_bind. destruct (redistribution_cancelable s && _); [|by apply lwp_ret, Hk]. by apply find_redistribution_spec.
Qed.
End Check.

(** ** Moves of the lists *)

Lemma elem_of_remove p (q : list Z) w : w ∈ remove_proc p q <-> w ∈ q /\ w <> p.
Proof. unfold remove_proc. rewrite list_elem_of_filter. tauto. Qed.

Lemma remove_absent p (q : list Z) : p ∉ q -> remove_proc p q = q.
Proof.
  unfold remove_proc. induction q as [|x q IH]; [done|]. intros [Hx Hq]%not_elem_of_cons.
  rewrite filter_cons, decide_True by congruence. by rewrite IH.
Qed.

Lemma remove_middle p (q1 q2 : list Z) : NoDup (q1 ++ p :: q2) -> remove_proc p (q1 ++ p :: q2) = q1 ++ q2.
Proof.
  intros (H1 & H2 & [H3 _]%NoDup_cons)%NoDup_app. unfold remove_proc. rewrite filter_app, filter_cons, decide_False by (intros H; by apply H).
  change (remove_proc p q1 ++ remove_proc p q2 = q1 ++ q2).
  rewrite !remove_absent; [done|done|]. intros Hp. apply (H2 p Hp). by left.
Qed.

Lemma waitmode_lookup ps w proc : ps !! w = Some proc -> waitmode ps w = waitLockMode proc.
Proof. unfold waitmode. by intros ->. Qed.

Lemma waitmode_other ps w proc v : v <> w -> waitmode (<[w := proc]> ps) v = waitmode ps v.
Proof. intros Hv. unfold waitmode. by rewrite lookup_insert_ne. Qed.

Lemma waiters_eq ps ps' (q : list Z) m : (forall w, w ∈ q -> waitmode ps' w = waitmode ps w) -> waiters ps' q m = waiters ps q m.
Proof.
  unfold waiters. induction q as [|w q IH]; [done|]. intros Hq. rewrite !filter_cons, IH by (intros v Hv; apply Hq; by right).
  rewrite (Hq w) by (by left). done.
Qed.

Lemma waiters_app ps (q1 q2 : list Z) m : waiters ps (q1 ++ q2) m = waiters ps q1 m ++ waiters ps q2 m.
Proof. apply filter_app. Qed.

Lemma waiters_snoc ps (q : list Z) w m : waiters ps (q ++ [w]) m <> [] <-> waiters ps q m <> [] \/ waitmode ps w = m.
Proof.
  rewrite waiters_app. unfold waiters at 2. rewrite filter_cons. case_decide as E.
  - split; [by right|]. intros _ H. by apply app_eq_nil in H as [_ ?].
  - change (filter _ []) with (@nil Z). rewrite app_nil_r. tauto.
Qed.

Lemma waiters_some ps (q : list Z) m : waiters ps q m <> [] <-> exists w, w ∈ q /\ waitmode ps w = m.
Proof. apply filter_some. Qed.

Lemma waiters_remove ps p (q : list Z) m : NoDup q -> p ∈ q ->
  zlen (waiters ps (remove_proc p q) m) = zlen (waiters ps q m) - (if decide (waitmode ps p = m) then 1 else 0).
Proof.
  intros Hnd Hp. apply list_elem_of_split in Hp as (q1 & q2 & ->). rewrite remove_middle by done.
  unfold waiters. rewrite !filter_app, filter_cons, !zlen_app. case_decide; rewrite ?zlen_cons; lia.
Qed.

Section Shape.
Context (ps : gmap Z PGPROC) (tag : LOCKTAG) (pls : list PROCLOCK) (q : list Z) (Hs : shape ps tag pls q).

(** The hold mask of one that does not wait changes. *)
Lemma shape_update f p pl : p ∉ q -> pl ∈ pls -> myProc pl = p ->
  (forall x, myProc (f x) = myProc x) -> (forall x, groupLeader (f x) = groupLeader x) -> mask_ok (holdMask (f pl)) ->
  shape ps tag (update_proclock f p pls) q.
Proof.
  intros Hq Hpl Hp Hf1 Hf2 Hmask. pose proof (elem_of_update pls (sh_nodup _ _ _ _ Hs) p pl Hpl Hp f) as Hin. constructor.
  - rewrite update_procs by done. apply (sh_nodup _ _ _ _ Hs).
  - intros x [->|[Hx _]]%Hin; [done|by apply (sh_masks _ _ _ _ Hs)].
  - intros x [->|[Hx _]]%Hin; [rewrite Hf1, Hf2|]; by apply (sh_leader _ _ _ _ Hs).
  - apply (sh_queue _ _ _ _ Hs).
  - intros w Hw. destruct (sh_waiting _ _ _ _ Hs w Hw) as (proc & []). exists proc. constructor; try done.
    destruct w_held0 as (x & Hx & Hxw & Hxm). exists x. split_and!; [|done|done]. apply Hin. right. split; [done|congruence].
Qed.

Lemma shape_delete p pl : p ∉ q -> pl ∈ pls -> myProc pl = p -> shape ps tag (delete_proclock p pls) q.
Proof.
  intros Hq Hpl Hp. pose proof (elem_of_delete pls p) as Hin. constructor.
  - by apply (delete_procs pls (sh_nodup _ _ _ _ Hs) p pl).
  - intros x [Hx _]%Hin. by apply (sh_masks _ _ _ _ Hs).
  - intros x [Hx _]%Hin. by apply (sh_leader _ _ _ _ Hs).
  - apply (sh_queue _ _ _ _ Hs).
  - intros w Hw. destruct (sh_waiting _ _ _ _ Hs w Hw) as (proc & []). exists proc. constructor; try done.
    destruct w_held0 as (x & Hx & Hxw & Hxm). exists x. split_and!; [|done|done]. apply Hin. split; [done|congruence].
Qed.

(** A process of the same group changes and leaves the queue, if it is there. *)
Lemma shape_proc p proc proc' : ps !! p = Some proc -> (p ∈ myProc <$> pls -> leader_of p proc' = leader_of p proc) ->
  shape (<[p := proc']> ps) tag pls (remove_proc p q).
Proof.
  intros Hp Hlead. constructor.
  - apply (sh_nodup _ _ _ _ Hs).
  - apply (sh_masks _ _ _ _ Hs).
  - intros pl Hpl. destruct (sh_leader _ _ _ _ Hs pl Hpl) as (proc1 & H1 & H2).
    destruct (decide (myProc pl = p)) as [E|E]; [|exists proc1; by rewrite lookup_insert_ne].
    exists proc'. rewrite E, lookup_insert_eq. split; [done|]. rewrite H2, E, Hlead.
    + rewrite E, Hp in H1. by injection H1 as ->.
    + apply list_elem_of_fmap. by exists pl.
  - unfold remove_proc. apply NoDup_filter, (sh_queue _ _ _ _ Hs).
  - intros w [Hw Hwp]%elem_of_remove. destruct (sh_waiting _ _ _ _ Hs w Hw) as (proc1 & []). exists proc1. constructor; try done.
    by rewrite lookup_insert_ne.
Qed.

Lemma shape_add p proc : ps !! p = Some proc -> p ∉ myProc <$> pls ->
  shape ps tag (pls ++ [MkProcLock p (leader_of p proc) 0]) q.
Proof.
  intros Hp Hnew. constructor.
  - rewrite fmap_app. apply NoDup_app. split_and!; [apply (sh_nodup _ _ _ _ Hs)| |apply NoDup_singleton].
    intros x Hx. change (x ∉ [p]). rewrite list_elem_of_singleton. congruence.
  - intros x [Hx| ->%list_elem_of_singleton]%elem_of_app; [by apply (sh_masks _ _ _ _ Hs)|].
    split; [done|]. intros m Hm. cbn in Hm. by rewrite Z.bits_0 in Hm.
  - intros x [Hx| ->%list_elem_of_singleton]%elem_of_app; [by apply (sh_leader _ _ _ _ Hs)|]. by exists proc.
  - apply (sh_queue _ _ _ _ Hs).
  - intros w Hw. destruct (sh_waiting _ _ _ _ Hs w Hw) as (proc1 & []). exists proc1. constructor; try done.
    destruct w_held0 as (x & Hx & Hxw). exists x. split; [apply elem_of_app; by left|done].
Qed.
End Shape.

(** ** Moves of a request *)

Lemma update_holders f p pl (pls : list PROCLOCK) m : NoDup (myProc <$> pls) -> pl ∈ pls -> myProc pl = p ->
  zlen (holders (update_proclock f p pls) m)
  = zlen (holders pls m) - (if Z.testbit (holdMask pl) m then 1 else 0) + (if Z.testbit (holdMask (f pl)) m then 1 else 0).
Proof.
  intros Hnd Hpl Hp. unfold holders. rewrite (update_count pls Hnd p pl Hpl Hp f).
  repeat case_decide; repeat case_match; (done || lia).
Qed.

Lemma holders_some (pls : list PROCLOCK) m : holders pls m <> [] <-> exists x, x ∈ pls /\ Z.testbit (holdMask x) m = true.
Proof. apply filter_some. Qed.

Lemma holders_pos (pls : list PROCLOCK) m : holders pls m <> [] <-> 0 < zlen (holders pls m).
Proof. unfold zlen. destruct (holders pls m); cbn; split; (done || lia). Qed.

Lemma filter_one (m m' : Z) : zlen (filter (fun r => r = m') [m]) = if decide (m' = m) then 1 else 0.
Proof. rewrite filter_cons. repeat case_decide; (done || congruence). Qed.

Lemma zlen_zero {A} (l : list A) : zlen l = 0 <-> l = [].
Proof. unfold zlen. by destruct l. Qed.

Lemma bit_clear_if mask m (b : bool) i : 0 <= m ->
  Z.testbit (if b then Z.land mask (LOCKBIT_OFF m) else mask) i = Z.testbit mask i && negb (b && bool_decide (m = i)).
Proof. intros Hm. destruct b; [by rewrite bit_clear, bool_decide_not|by rewrite andb_true_r]. Qed.

(** The bit of [m] in the mask of the holders is cleared when it has none. *)
Lemma drop_grantmask {A} (H H' : Z -> list A) mask m (b : bool) : 0 <= m ->
  (0 <= mask /\ forall m', Z.testbit mask m' = true <-> H m' <> []) ->
  (b = true <-> H' m = []) -> (forall m', H' m' <> [] -> H m' <> []) -> (forall m', m' <> m -> H m' <> [] <-> H' m' <> []) ->
  let mask' := if b then Z.land mask (LOCKBIT_OFF m) else mask in
  0 <= mask' /\ forall m', Z.testbit mask' m' = true <-> H' m' <> [].
Proof.
  intros Hm [Hm0 Hmask] Hb Hless Hother mask'. split; [unfold mask'; destruct b; [by apply mask_clear_nonneg|done]|].
  intros m'. unfold mask'. rewrite bit_clear_if, andb_true_iff, Hmask by done.
  destruct (decide (m = m')) as [<-|Hne].
  - rewrite bool_decide_true, andb_true_r, negb_true_iff by done. destruct b.
    + split; [by intros []|]. intros Hn. destruct Hn. by apply Hb.
    + assert (H' m <> []) by (intros E%Hb; done). split; [done|]. split; [by apply Hless|done].
  - rewrite bool_decide_false, andb_false_r by done. rewrite Hother by congruence. tauto.
Qed.

(** The bit of [m] in the mask of the waiters is cleared when [m] has none. *)
Lemma settle_mask ps (q extra : list Z) m (b : bool) mask : mode_ok m -> (forall x, x ∈ extra -> x = m) ->
  (0 <= mask /\ forall m', (waiters ps q m' <> [] -> Z.testbit mask m' = true)
    /\ (Z.testbit mask m' = true -> waiters ps q m' <> [] \/ m' ∈ extra)) ->
  (b = true <-> waiters ps q m = []) ->
  let mask' := if b then Z.land mask (LOCKBIT_OFF m) else mask in
  0 <= mask' /\ forall m', (waiters ps q m' <> [] -> Z.testbit mask' m' = true)
    /\ (Z.testbit mask' m' = true -> waiters ps q m' <> [] \/ m' ∈ @nil Z).
Proof.
  intros Hm Hextra [Hwm0 Hwm] Hb mask'. assert (Hm0 : 0 <= m) by (unfold mode_ok in Hm; lia).
  split; [unfold mask'; destruct b; [by apply mask_clear_nonneg|done]|]. intros m'. unfold mask'. rewrite bit_clear_if by done.
  destruct (Hwm m') as [Hw1 Hw2].
  split.
  - intros Hw. rewrite Hw1 by done. destruct (b && bool_decide (m = m')) eqn:E; [|done].
    apply andb_true_iff in E as [E1%Hb E2%bool_decide_eq_true]. by subst m'.
  - intros [Hb1 Hb2]%andb_true_iff. left. destruct (Hw2 Hb1) as [|Hx%Hextra]; [done|]. subst m'. intros Hn%Hb.
    by rewrite Hn, bool_decide_true in Hb2.
Qed.

Lemma exclusion_grant ps tag (pls : list PROCLOCK) q : shape ps tag pls q -> forall p pl m, pl ∈ pls -> myProc pl = p -> mode_ok m ->
  exclusion pls -> ~ held_conflict pls (groupLeader pl) m -> exclusion (update_proclock (grant_mode m) p pls).
Proof.
  intros Hsh p pl m Hpl Hp Hm Hex Hno x y m1 m2 Hx Hy Hxy H1 H2. assert (Hm0 : 0 <= m) by (unfold mode_ok in Hm; lia).
  pose proof (elem_of_update pls (sh_nodup _ _ _ _ Hsh) p pl Hpl Hp (grant_mode m)) as Hin.
  assert (Hone : forall z m1 m2, z ∈ pls -> groupLeader pl <> groupLeader z -> Z.testbit (holdMask (grant_mode m pl)) m1 = true ->
    Z.testbit (holdMask z) m2 = true -> conflict m1 m2 = false).
  { intros z n1 n2 Hz Hgz Hz1 Hz2. cbn in Hz1. rewrite bit_lor in Hz1 by done.
    apply orb_true_iff in Hz1 as [Hz1|Hz1%bool_decide_eq_true]; [by apply (Hex pl z)|]. subst n1.
    destruct (conflict m n2) eqn:E; [|done]. destruct Hno. exists z, n2. by split_and!; [|congruence|..]. }
  assert (Hmode : forall n, Z.testbit (holdMask (grant_mode m pl)) n = true -> mode_ok n).
  { intros n. cbn. rewrite bit_lor by done. intros [H|H%bool_decide_eq_true]%orb_true_iff; [by apply (sh_masks _ _ _ _ Hsh pl Hpl)|by subst]. }
  apply Hin in Hx as [->|[Hx _]], Hy as [->|[Hy _]].
  - done.
  - by apply (Hone y).
  - rewrite conflict_sym; [by apply (Hone x m2 m1); [|cbn in Hxy|..]|by apply (sh_masks _ _ _ _ Hsh x Hx)|by apply Hmode].
  - by apply (Hex x y).
Qed.

Lemma exclusion_drop ps tag (pls : list PROCLOCK) q : shape ps tag pls q -> forall p pl m, pl ∈ pls -> myProc pl = p -> mode_ok m ->
  exclusion pls -> exclusion (update_proclock (drop_mode m) p pls).
Proof.
  intros Hsh p pl m Hpl Hp Hm Hex x y m1 m2 Hx Hy Hxy H1 H2. assert (Hm0 : 0 <= m) by (unfold mode_ok in Hm; lia).
  pose proof (elem_of_update pls (sh_nodup _ _ _ _ Hsh) p pl Hpl Hp (drop_mode m)) as Hin.
  assert (Hless : forall z n, z ∈ update_proclock (drop_mode m) p pls -> Z.testbit (holdMask z) n = true ->
    exists z', z' ∈ pls /\ groupLeader z' = groupLeader z /\ Z.testbit (holdMask z') n = true).
  { intros z n [->|[Hz _]]%Hin Hzn; [|by exists z]. exists pl. cbn in Hzn. rewrite bit_clear in Hzn by done.
    by apply andb_true_iff in Hzn as [? _]. }
  destruct (Hless x m1 Hx H1) as (x' & ? & Hgx & ?), (Hless y m2 Hy H2) as (y' & ? & Hgy & ?).
  apply (Hex x' y'); (done || congruence).
Qed.

(** What changes of a lock when the process [p] gets or drops a mode. *)
Record changed (f : PROCLOCK -> PROCLOCK) (p : Z) (l l' : LOCK) : Prop := {
  ch_procs : procLocks l' = update_proclock f p (procLocks l);
  ch_queue : waitProcs l' = waitProcs l }.

Section Grant.
Context (ps : gmap Z PGPROC) (tag : LOCKTAG) (l : LOCK).
Context (p : Z) (pl : PROCLOCK) (Hpl : pl ∈ procLocks l) (Hp : myProc pl = p) (m : Z) (Hm : mode_ok m).

Lemma grant_ok extra : lock_ok ps tag [m] extra l -> p ∉ waitProcs l -> (forall x, x ∈ extra -> x = m) ->
  Z.testbit (holdMask pl) m = false -> ~ held_conflict (procLocks l) (groupLeader pl) m ->
  exists l', GrantLock l p m = Done l' /\ lock_ok ps tag [] [] l' /\ changed (grant_mode m) p l l' /\ nRequested l' = nRequested l.
Proof.
  intros Hl Hq Hextra Hnew Hno. pose proof Hl as [Hsh [Hsg Hsr] Hg Hr [Ht1 Ht2] Hrest [Hgm0 Hgm] [Hwm0 Hwm] Hex].
  pose proof (sh_nodup _ _ _ _ Hsh) as Hnd. assert (Hm0 : 0 <= m) by (unfold mode_ok in Hm; lia).
  destruct (bump_spec _ m 1 _ (Hg m Hm)) as (g & Hbump & Hgl & Hgm1 & Hgo & Hgsum).
  unfold GrantLock. rewrite Hbump. runs. rewrite Hgm1, (Hr m Hm). runs.
  rewrite filter_one, decide_True by done.
  assert (Hcount : forall m', zlen (holders (update_proclock (grant_mode m) p (procLocks l)) m')
    = zlen (holders (procLocks l) m') + (if decide (m' = m) then 1 else 0)).
  { intros m'. rewrite (update_holders _ p pl) by done. cbn. rewrite bit_lor by done. case_decide as E.
    - subst m'. rewrite Hnew, bool_decide_true by done. cbn. lia.
    - rewrite bool_decide_false by congruence. rewrite orb_false_r. destruct (Z.testbit (holdMask pl) m'); lia. }
  eexists. split; [done|]. split; [|by split].
  constructor; cbn [procLocks waitProcs granted requested nRequested nGranted grantMask waitMask].
  - apply (shape_update _ _ _ _ Hsh (grant_mode m) p pl); try done. destruct (sh_masks _ _ _ _ Hsh pl Hpl) as [Hh1 Hh2].
    split; [by apply mask_lor_nonneg|]. intros m'. cbn. rewrite bit_lor by done.
    intros [H|H]%orb_true_iff; [by apply Hh2|]. by apply bool_decide_eq_true in H as <-.
  - split; [by rewrite Hgl|done].
  - intros m' Hm'. rewrite Hcount. case_decide as E; [subst m'; done|]. rewrite Hgo, Hg by done. f_equal. lia.
  - intros m' Hm'. rewrite Hcount, Hr by done. rewrite filter_one. change (zlen (filter _ [])) with 0. f_equal.
    repeat case_decide; (congruence || lia).
  - split; [done|]. lia.
  - done.
  - split; [by apply mask_lor_nonneg|]. intros m'. rewrite bit_lor by done.
    rewrite holders_pos, Hcount. rewrite orb_true_iff, Hgm, bool_decide_eq_true, holders_pos.
    case_decide; pose proof (zlen_nonneg (holders (procLocks l) m')); split; lia.
  - apply (settle_mask ps _ extra m _ (waitMask l)); [done|done|done|]. rewrite Z.eqb_eq, <- zlen_zero.
    change (zlen (filter _ [])) with 0. lia.
  - by apply (exclusion_grant _ _ _ _ Hsh p pl).
Qed.

(** Dropping a mode wakes somebody when a waiter conflicts with it. *)
Lemma ungrant_ok t : method_ok t -> lock_ok ps tag [] [] l -> p ∉ waitProcs l -> Z.testbit (holdMask pl) m = true ->
  exists wake l', UnGrantLock t l m p = Done (wake, l') /\ lock_ok ps tag [] [] l' /\ changed (drop_mode m) p l l'
    /\ nRequested l' = nRequested l - 1
    /\ (wake = false -> forall w, w ∈ waitProcs l -> conflict m (waitmode ps w) = false).
Proof.
  intros Ht Hl Hq Hold. pose proof Hl as [Hsh [Hsg Hsr] Hg Hr [Ht1 Ht2] Hrest [Hgm0 Hgm] [Hwm0 Hwm] Hex].
  pose proof (sh_nodup _ _ _ _ Hsh) as Hnd. assert (Hm0 : 0 <= m) by (unfold mode_ok in Hm; lia).
  destruct (bump_spec _ m (-1) _ (Hr m Hm)) as (r & Hrb & Hrl & Hrm & Hro & Hrsum).
  destruct (bump_spec _ m (-1) _ (Hg m Hm)) as (g & Hgb & Hgl & Hgm1 & Hgo & Hgsum).
  unfold UnGrantLock. rewrite Hrb. runs. rewrite Hgb. runs. rewrite Hgm1. runs. rewrite conflicts_of_mode by done. runs.
  assert (Hcount : forall m', zlen (holders (update_proclock (drop_mode m) p (procLocks l)) m')
    = zlen (holders (procLocks l) m') - (if decide (m' = m) then 1 else 0)).
  { intros m'. rewrite (update_holders _ p pl) by done. cbn. rewrite bit_clear by done. case_decide as E.
    - subst m'. rewrite Hold, bool_decide_false by tauto. cbn. lia.
    - rewrite bool_decide_true by congruence. rewrite andb_true_r. destruct (Z.testbit (holdMask pl) m'); lia. }
  do 2 eexists. split; [done|]. split; [|split; [by split|split; [done|]]].
  - constructor; cbn [procLocks waitProcs granted requested nRequested nGranted grantMask waitMask].
    + apply (shape_update _ _ _ _ Hsh (drop_mode m) p pl); try done. destruct (sh_masks _ _ _ _ Hsh pl Hpl) as [Hh1 Hh2].
      split; [by apply mask_clear_nonneg|]. intros m'. cbn. rewrite bit_clear by done. intros [H _]%andb_true_iff. by apply Hh2.
    + by rewrite Hgl, Hrl.
    + intros m' Hm'. rewrite Hcount. case_decide as E; [subst m'; done|]. rewrite Hgo, Hg by done. f_equal. lia.
    + intros m' Hm'. rewrite Hcount. case_decide as E; [subst m'; rewrite Hrm; f_equal; lia|].
      rewrite Hro, Hr by done. f_equal. lia.
    + split; [by rewrite Hrsum, Ht1|]. by rewrite Hgsum, Ht2.
    + destruct Hrest. unfold mode_ok in Hm. by rewrite !Hro by lia.
    + apply (drop_grantmask _ _ (grantMask l) m _ Hm0 (conj Hgm0 Hgm)).
      * rewrite Z.eqb_eq, <- zlen_zero, Hcount, decide_True by done. lia.
      * intros m'. rewrite !holders_pos, Hcount. case_decide; [lia|]. rewrite Z.sub_0_r. done.
      * intros m' Hm'. rewrite !holders_pos, Hcount, decide_False by done. by rewrite Z.sub_0_r.
    + done.
    + by apply (exclusion_drop _ _ _ _ Hsh p pl).
  - intros Hw%negb_false_iff%Z.eqb_eq w Hwq. destruct (conflict m (waitmode ps w)) eqn:E; [|done]. exfalso. revert Hw.
    apply conflicts_meet; [done|done|]. exists (waitmode ps w). split; [done|]. apply Hwm, waiters_some. by exists w.
Qed.
End Grant.

(** A process that does not wait for this lock changes. *)
Lemma lock_ok_proc ps tag pend extra l p proc proc' : lock_ok ps tag pend extra l -> p ∉ waitProcs l ->
  ps !! p = Some proc -> (p ∈ myProc <$> procLocks l -> leader_of p proc' = leader_of p proc) -> lock_ok (<[p := proc']> ps) tag pend extra l.
Proof.
  intros [Hsh Hs Hg Hr Ht Hrest Hgm [Hwm0 Hwm] Hex] Hq Hp Hlead.
  assert (Hsame : forall m, waiters (<[p := proc']> ps) (waitProcs l) m = waiters ps (waitProcs l) m).
  { intros m. apply waiters_eq. intros w Hw. apply waitmode_other. congruence. }
  constructor; try done.
  - pose proof (shape_proc _ _ _ _ Hsh p proc proc' Hp Hlead) as Hsh'. by rewrite remove_absent in Hsh'.
  - intros m Hm. by rewrite Hsame, Hr.
  - split; [done|]. intros m. rewrite Hsame. apply Hwm.
Qed.

(** A waiter leaves the queue; its request is left over. *)
Lemma unwait_ok ps tag l w proc proc' : lock_ok ps tag [] [] l -> w ∈ waitProcs l -> ps !! w = Some proc ->
  lockGroupLeader proc' = lockGroupLeader proc ->
  lock_ok (<[w := proc']> ps) tag [waitLockMode proc] [waitLockMode proc] (set_waitprocs (remove_proc w (waitProcs l)) l).
Proof.
  intros [Hsh Hs Hg Hr Ht Hrest Hgm [Hwm0 Hwm] Hex] Hw Hproc Hlead. pose proof (sh_queue _ _ _ _ Hsh) as Hnd.
  assert (Hcount : forall m, zlen (waiters (<[w := proc']> ps) (remove_proc w (waitProcs l)) m)
    = zlen (waiters ps (waitProcs l) m) - (if decide (waitLockMode proc = m) then 1 else 0)).
  { intros m. rewrite (waiters_eq ps); [|intros v [_ Hv]%elem_of_remove; by apply waitmode_other].
    rewrite waiters_remove by done. by rewrite (waitmode_lookup _ _ _ Hproc). }
  constructor; try done; cbn [procLocks waitProcs granted requested nRequested nGranted grantMask waitMask set_waitprocs].
  - apply (shape_proc _ _ _ _ Hsh w proc); [done|]. intros _. unfold leader_of. by rewrite Hlead.
  - intros m Hm. rewrite Hr, Hcount, filter_one by done. f_equal. change (zlen (filter _ [])) with 0.
    repeat case_decide; (congruence || lia).
  - split; [done|]. intros m. destruct (Hwm m) as [Hw1 Hw2]. split.
    + intros (v & [Hv Hvw]%elem_of_remove & Hvm)%waiters_some. apply Hw1, waiters_some. exists v.
      by rewrite waitmode_other in Hvm.
    + intros [(v & Hv & Hvm)%waiters_some|Hx%not_elem_of_nil]%Hw2; [|done]. destruct (decide (v = w)) as [->|Hvw].
      * right. apply list_elem_of_singleton. rewrite <- Hvm. by apply waitmode_lookup.
      * left. apply waiters_some. exists v. split; [by apply elem_of_remove|]. by rewrite waitmode_other.
Qed.

(** A request that is left over is taken back. *)
Lemma take_back_ok ps tag l m extra : lock_ok ps tag [m] extra l -> mode_ok m ->
  exists r, bump (requested l) m (-1) = Done r
    /\ zlookup r m = Some (zlen (holders (procLocks l) m) + zlen (waiters ps (waitProcs l) m))
    /\ lock_ok ps tag [] extra (MkLock (grantMask l) (waitMask l) (procLocks l) (waitProcs l) r (nRequested l - 1) (granted l) (nGranted l)).
Proof.
  intros [Hsh [Hsg Hsr] Hg Hr [Ht1 Ht2] Hrest Hgm [Hwm0 Hwm] Hex] Hm.
  destruct (bump_spec _ m (-1) _ (Hr m Hm)) as (r & Hrb & Hrl & Hrm & Hro & Hrsum). exists r. split; [done|].
  assert (Hrm' : zlookup r m = Some (zlen (holders (procLocks l) m) + zlen (waiters ps (waitProcs l) m))).
  { rewrite Hrm, filter_one, decide_True by done. f_equal. lia. }
  split; [done|]. constructor; try done; cbn [procLocks waitProcs granted requested nRequested nGranted grantMask waitMask].
  - by rewrite Hrl.
  - intros m' Hm'. change (zlen (filter _ [])) with 0. destruct (decide (m' = m)) as [->|Hne]; [rewrite Hrm'; f_equal; lia|].
    by rewrite Hro, Hr, filter_one, decide_False by done.
  - rewrite Hrsum. split; [lia|done].
  - unfold mode_ok in Hm. by rewrite !Hro by lia.
Qed.

(** An empty PROCLOCK is deleted. *)
Lemma delete_ok ps tag pend extra l p pl : lock_ok ps tag pend extra l -> p ∉ waitProcs l -> pl ∈ procLocks l -> myProc pl = p ->
  holdMask pl = 0 -> lock_ok ps tag pend extra (set_proclocks (delete_proclock p (procLocks l)) l).
Proof.
  intros [Hsh Hs Hg Hr Ht Hrest [Hgm0 Hgm] Hwm Hex] Hq Hpl Hp H0.
  assert (Hsame : forall m, holders (delete_proclock p (procLocks l)) m = holders (procLocks l) m).
  { intros m. destruct (update_split _ (sh_nodup _ _ _ _ Hsh) p pl Hpl Hp id) as (l1 & l2 & E & _ & -> & _).
    rewrite E. unfold holders. rewrite !filter_app, filter_cons, decide_False; [done|]. by rewrite H0, Z.bits_0. }
  constructor; try done; cbn [procLocks waitProcs granted requested nRequested nGranted grantMask waitMask set_proclocks].
  - by apply (shape_delete _ _ _ _ Hsh p pl).
  - intros m Hm. by rewrite Hsame, Hg.
  - intros m Hm. by rewrite Hsame, Hr.
  - split; [done|]. intros m. by rewrite Hsame.
  - intros x y m1 m2 [Hx _]%elem_of_delete [Hy _]%elem_of_delete. by apply Hex.
Qed.

(** A new PROCLOCK. *)
Lemma add_ok ps tag pend extra l p proc : lock_ok ps tag pend extra l -> ps !! p = Some proc -> p ∉ myProc <$> procLocks l ->
  lock_ok ps tag pend extra (set_proclocks (procLocks l ++ [MkProcLock p (leader_of p proc) 0]) l).
Proof.
  intros [Hsh Hs Hg Hr Ht Hrest [Hgm0 Hgm] Hwm Hex] Hproc Hnew.
  assert (Hsame : forall m, holders (procLocks l ++ [MkProcLock p (leader_of p proc) 0]) m = holders (procLocks l) m).
  { intros m. unfold holders. rewrite filter_app, filter_cons, decide_False by (cbn; by rewrite Z.bits_0). apply app_nil_r. }
  constructor; try done; cbn [procLocks waitProcs granted requested nRequested nGranted grantMask waitMask set_proclocks].
  - by apply shape_add.
  - intros m Hm. by rewrite Hsame, Hg.
  - intros m Hm. by rewrite Hsame, Hr.
  - split; [done|]. intros m. by rewrite Hsame.
  - assert (Hold : forall z m, z ∈ procLocks l ++ [MkProcLock p (leader_of p proc) 0] -> Z.testbit (holdMask z) m = true -> z ∈ procLocks l).
    { intros z m [?| ->%list_elem_of_singleton]%elem_of_app; [done|]. cbn. by rewrite Z.bits_0. }
    intros x y m1 m2 Hx Hy Hg' H1 H2. apply (Hex x y); [by eapply Hold|by eapply Hold|done..].
Qed.

(** A new request. *)
Lemma request_ok ps tag l m : lock_ok ps tag [] [] l -> mode_ok m ->
  exists l', request l m = Done l' /\ lock_ok ps tag [m] [] l' /\ procLocks l' = procLocks l /\ waitProcs l' = waitProcs l
    /\ waitMask l' = waitMask l /\ nRequested l' = nRequested l + 1.
Proof.
  intros [Hsh [Hsg Hsr] Hg Hr [Ht1 Ht2] Hrest Hgm [Hwm0 Hwm] Hex] Hm.
  destruct (bump_spec _ m 1 _ (Hr m Hm)) as (r & Hrb & Hrl & Hrm & Hro & Hrsum). unfold request. rewrite Hrb. runs.
  eexists. split; [done|]. split; [|done].
  constructor; try done; cbn [procLocks waitProcs granted requested nRequested nGranted grantMask waitMask].
  - by rewrite Hrl.
  - intros m' Hm'. rewrite filter_one. destruct (decide (m' = m)) as [->|Hne]; [rewrite Hrm; f_equal; change (zlen (filter _ [])) with 0; lia|].
    by rewrite Hro, Hr by done.
  - rewrite Hrsum. split; [lia|done].
  - unfold mode_ok in Hm. by rewrite !Hro by lia.
Qed.

Lemma new_lock_ok ps tag : lock_ok ps tag [] [] new_lock.
Proof.
  constructor; try done; cbn [procLocks waitProcs granted requested nRequested nGranted grantMask waitMask new_lock].
  - constructor; try done; try (intros x Hx; by apply not_elem_of_nil in Hx); apply NoDup_nil_2.
  - intros m Hm. by destruct (mode_cases _ Hm) as [->|[->|[->|[->|[->|[->|[->| ->]]]]]]].
  - intros m Hm. by destruct (mode_cases _ Hm) as [->|[->|[->|[->|[->|[->|[->| ->]]]]]]].
  - split; [done|]. intros m. rewrite Z.bits_0. by split; [|intros []].
  - split; [done|]. intros m. rewrite Z.bits_0. by split; [intros []|].
  - intros x y m1 m2 Hx. by apply not_elem_of_nil in Hx.
Qed.

(** A process queues up with its request. *)
Lemma enqueue_ok ps tag l p proc m i : lock_ok ps tag [m] [] l -> mode_ok m -> ps !! p = Some proc -> p ∉ waitProcs l ->
  has_hold (procLocks l) p (heldLocks proc) -> Z.testbit (heldLocks proc) m = false ->
  lock_ok (<[p := start_wait tag m proc]> ps) tag [] []
    (set_waitmask (Z.lor (waitMask l) (LOCKBIT_ON m)) (set_waitprocs (take i (waitProcs l) ++ p :: drop i (waitProcs l)) l)).
Proof.
  intros Hl Hm Hproc Hq Hheld Hnew. pose proof (lock_ok_proc _ _ _ _ _ p proc (start_wait tag m proc) Hl Hq Hproc (fun _ => eq_refl)) as Hl'.
  destruct Hl' as [Hsh Hs Hg Hr Ht Hrest Hgm [Hwm0 Hwm] Hex]. set (ps' := <[p := start_wait tag m proc]> ps) in *.
  assert (Hm0 : 0 <= m) by (unfold mode_ok in Hm; lia).
  assert (Hwp : waitmode ps' p = m) by (unfold ps', waitmode; by rewrite lookup_insert_eq).
  assert (Hperm : take i (waitProcs l) ++ p :: drop i (waitProcs l) ≡ₚ p :: waitProcs l).
  { rewrite <- Permutation_middle. by rewrite take_drop. }
  assert (Hcount : forall m', zlen (waiters ps' (take i (waitProcs l) ++ p :: drop i (waitProcs l)) m')
    = (if decide (m = m') then 1 else 0) + zlen (waiters ps' (waitProcs l) m')).
  { intros m'. rewrite <- (take_drop i (waitProcs l)) at 3. unfold waiters. rewrite !filter_app, filter_cons, Hwp, !zlen_app.
    case_decide; rewrite ?zlen_cons; lia. }
  constructor; try done; cbn [procLocks waitProcs granted requested nRequested nGranted grantMask waitMask set_waitprocs set_waitmask].
  - destruct Hsh as [H1 H2 H3 H4 H5]. constructor; try done.
    + rewrite Hperm. by apply NoDup_cons.
    + intros w Hw. rewrite Hperm in Hw. apply elem_of_cons in Hw as [->|Hw]; [|by apply H5].
      exists (start_wait tag m proc). constructor; try done. unfold ps'. by rewrite lookup_insert_eq.
  - intros m' Hm'. rewrite Hr, Hcount, filter_one by done. change (zlen (filter _ [])) with 0. f_equal.
    repeat case_decide; (congruence || lia).
  - split; [by apply mask_lor_nonneg|]. intros m'. rewrite bit_lor, orb_true_iff, bool_decide_eq_true by done.
    rewrite !waiters_some. setoid_rewrite Hperm. setoid_rewrite elem_of_cons. destruct (Hwm m') as [Hw1 Hw2]. rewrite waiters_some in Hw1, Hw2. split.
    + intros (w & [->|Hw] & Hwm'); [by right; congruence|left; apply Hw1; by exists w].
    + intros [Hb|<-]; [|left; exists p; split; [by left|done]]. destruct (Hw2 Hb) as [(w & Hw & ?)|Hx]; [|by right].
      left. exists w. split; [by right|done].
Qed.

(** ** The table around one lock *)

(** Everything but the lock [tag]. *)
Record rest_ok (s : LockState) (tag : LOCKTAG) : Prop := {
  rs_groups : groups_ok (allProcs s);
  rs_locks : forall tag' l, tag' <> tag -> LockMethodLockHash s !! tag' = Some l -> lock_good (allProcs s) tag' l;
  rs_waits : forall p proc, allProcs s !! p = Some proc ->
    match waitLock proc with
    | Some tag' => tag' = tag \/ exists l, LockMethodLockHash s !! tag' = Some l /\ p ∈ waitProcs l
    | None => linked proc = false /\ waitStatus proc <> STATUS_WAITING
    end;
  rs_redist : redist_ok s }.

(** [q] are the processes that wait for [tag]. *)
Definition waits_here (s : LockState) (tag : LOCKTAG) (q : list Z) : Prop :=
  forall p proc, allProcs s !! p = Some proc -> waitLock proc = Some tag -> p ∈ q.

Lemma table_split s tag : table_ok s -> rest_ok s tag /\
  match LockMethodLockHash s !! tag with
  | Some l => lock_good (allProcs s) tag l /\ waits_here s tag (waitProcs l)
  | None => waits_here s tag []
  end.
Proof.
  intros [Hg Hl Hw Hr]. split; [constructor; [done|by intros; apply Hl| |done]|].
  - intros p proc Hp. specialize (Hw p proc Hp). destruct (waitLock proc); [by right|done].
  - assert (Hh : forall p proc, allProcs s !! p = Some proc -> waitLock proc = Some tag -> exists l, LockMethodLockHash s !! tag = Some l /\ p ∈ waitProcs l).
    { intros p proc Hp Hpl. specialize (Hw p proc Hp). by rewrite Hpl in Hw. }
    destruct (LockMethodLockHash s !! tag) as [l|] eqn:E.
    + split; [by apply Hl|]. intros p proc Hp Hpl. by destruct (Hh p proc Hp Hpl) as (? & [= <-] & ?).
    + intros p proc Hp Hpl. by destruct (Hh p proc Hp Hpl) as (? & ? & ?).
Qed.

Lemma table_join s tag l : rest_ok s tag -> LockMethodLockHash s !! tag = Some l -> lock_good (allProcs s) tag l ->
  waits_here s tag (waitProcs l) -> table_ok s.
Proof.
  intros [Hg Hl Hw Hr] Htag Hgood Hh. constructor; [done| | |done].
  - intros tag' l' Hl'. destruct (decide (tag' = tag)) as [->|Hne]; [congruence|by apply Hl].
  - intros p proc Hp. pose proof (Hw p proc Hp) as Hwp. destruct (waitLock proc) as [tag'|] eqn:E; [|done].
    destruct (decide (tag' = tag)) as [->|Hne]; [|by destruct Hwp]. exists l. split; [done|]. by apply (Hh p proc).
Qed.

Lemma table_join_none s tag : rest_ok s tag -> LockMethodLockHash s !! tag = None -> waits_here s tag [] -> table_ok s.
Proof.
  intros [Hg Hl Hw Hr] Htag Hh. constructor; [done| | |done].
  - intros tag' l' Hl'. apply Hl; [congruence|done].
  - intros p proc Hp. pose proof (Hw p proc Hp) as Hwp. destruct (waitLock proc) as [tag'|] eqn:E; [|done].
    destruct Hwp as [->|]; [|done]. by destruct (not_elem_of_nil p (Hh p proc Hp E)).
Qed.

(** *** Who is blocked *)

(** Every hold of [pls] is in [pls']. *)
Definition holds_more (pls pls' : list PROCLOCK) : Prop :=
  forall x m, x ∈ pls -> Z.testbit (holdMask x) m = true ->
    exists x', x' ∈ pls' /\ myProc x' = myProc x /\ groupLeader x' = groupLeader x /\ Z.testbit (holdMask x') m = true.
#[global] Instance holds_more_preorder : PreOrder holds_more.
Proof.
  split; [intros l x m Hx Hb; by exists x|]. intros l1 l2 l3 H12 H23 x m Hx Hb. destruct (H12 x m Hx Hb) as (y & Hy & ? & ? & Hyb).
  destruct (H23 y m Hy Hyb) as (z & Hz & ? & ? & ?). exists z. split_and!; (done || congruence).
Qed.

Lemma held_conflict_more (pls pls' : list PROCLOCK) leader m : holds_more pls pls' -> held_conflict pls leader m -> held_conflict pls' leader m.
Proof.
  intros Hmore (x & m' & Hx & Hg & Hb & Hc). destruct (Hmore x m' Hx Hb) as (y & Hy & _ & Hgy & Hyb). exists y, m'.
  split_and!; (done || congruence).
Qed.

Lemma blocked_more ps ps' (pls pls' : list PROCLOCK) (ahead ahead' : list Z) w : blocked ps pls ahead w ->
  (forall v, v ∈ ahead -> v ∈ ahead' /\ waitmode ps' v = waitmode ps v) -> ps' !! w = ps !! w -> holds_more pls pls' ->
  blocked ps' pls' ahead' w.
Proof.
  intros (proc & Hproc & Hb) Hahead Hw Hmore. exists proc. split; [congruence|]. destruct Hb as [(v & Hv & Hc)|Hh].
  - left. exists v. destruct (Hahead v Hv) as [Hv' ->]. done.
  - right. by eapply held_conflict_more.
Qed.

Lemma lock_good_proc ps tag l p proc proc' : lock_good ps tag l -> p ∉ waitProcs l -> ps !! p = Some proc ->
  (p ∈ myProc <$> procLocks l -> leader_of p proc' = leader_of p proc) -> lock_good (<[p := proc']> ps) tag l.
Proof.
  intros [H1 H2 H3 H4 H5] Hq Hp Hlead. constructor; [by eapply lock_ok_proc|done| |done|done].
  intros ahead w behind E. assert (Hin : forall v, v ∈ ahead \/ v = w -> v <> p).
  { intros v Hv ->. apply Hq. rewrite E, elem_of_app, elem_of_cons. tauto. }
  eapply blocked_more; [by eapply H3| | |done].
  - intros v Hv. split; [done|]. apply waitmode_other. apply Hin. by left.
  - apply lookup_insert_ne. assert (w <> p) by (apply Hin; by right). congruence.
Qed.

Lemma groups_proc ps p proc proc' : groups_ok ps -> ps !! p = Some proc -> same_group proc proc' -> groups_ok (<[p := proc']> ps).
Proof.
  intros [Hg Hm] Hp [Hlead Hmem].
  assert (Hfrom : forall q x', <[p := proc']> ps !! q = Some x' -> exists x, ps !! q = Some x /\ same_group x x').
  { intros q x' Hx. destruct (decide (p = q)) as [<-|Hne]; [rewrite lookup_insert_eq in Hx; injection Hx as <-; by exists proc|].
    rewrite lookup_insert_ne in Hx by done. by exists x'. }
  assert (Hto : forall q x, ps !! q = Some x -> exists x', <[p := proc']> ps !! q = Some x' /\ same_group x x').
  { intros q x Hx. destruct (decide (p = q)) as [<-|Hne]; [exists proc'; rewrite lookup_insert_eq; split; [done|]; by assert (x = proc) as -> by congruence|].
    exists x. by rewrite lookup_insert_ne. }
  constructor.
  - intros x xp q Hx Hxq. destruct (Hfrom _ _ Hx) as (y & Hy & E & _). rewrite E in Hxq.
    destruct (Hg x y q Hy Hxq) as (z & Hz & Hzq & Hin). destruct (Hto q z Hz) as (z' & Hz' & E1 & E2). exists z'. rewrite E1, E2. done.
  - intros q x' y Hx Hin. destruct (Hfrom _ _ Hx) as (x & Hx0 & E1 & E2). rewrite E2 in Hin. rewrite E1.
    destruct (Hm q x y Hx0 Hin) as [Hq (z & Hz & Hzq)]. split; [done|]. destruct (Hto y z Hz) as (z' & Hz' & E3 & _). exists z'. by rewrite E3.
Qed.

(** A process that waits for [tag] or for nothing changes. *)
Lemma rest_proc s tag p proc proc' : rest_ok s tag -> allProcs s !! p = Some proc -> same_group proc proc' ->
  (waitLock proc = None \/ waitLock proc = Some tag) ->
  (waitLock proc' = Some tag \/ waitLock proc' = None /\ linked proc' = false /\ waitStatus proc' <> STATUS_WAITING) ->
  rest_ok (set_procs (<[p := proc']> (allProcs s)) s) tag.
Proof.
  intros [Hg Hl Hw Hr] Hp Hlead Hold Hnew. constructor; cbn.
  - by eapply groups_proc.
  - intros tag' l Hne Htag'. assert (Hgood := Hl tag' l Hne Htag'). eapply lock_good_proc; [done| |done|by intros _; unfold leader_of; rewrite (proj1 Hlead)].
    intros Hin. destruct (sh_waiting _ _ _ _ (lk_shape _ _ _ _ _ (lg_ok _ _ _ Hgood)) p Hin) as (x & []). destruct Hold; congruence.
  - intros q x. destruct (decide (p = q)) as [<-|Hne].
    + rewrite lookup_insert_eq. intros [= <-]. destruct Hnew as [->|(-> & ? & ?)]; [by left|done].
    + rewrite lookup_insert_ne by done. apply Hw.
  - intros q Hq. cbn in Hq |- *. destruct (Hr q Hq) as (x & Hx). destruct (decide (p = q)) as [<-|Hne]; [exists proc'; by rewrite lookup_insert_eq|].
    exists x. by rewrite lookup_insert_ne.
Qed.

Lemma rest_lock s tag l : rest_ok s tag -> rest_ok (set_locks (<[tag := l]> (LockMethodLockHash s)) s) tag.
Proof.
  intros [Hg Hl Hw Hr]. constructor; cbn; [done| | |done].
  - intros tag' l' Hne. rewrite lookup_insert_ne by done. by apply Hl.
  - intros p proc Hp. specialize (Hw p proc Hp). destruct (waitLock proc) as [tag'|]; [|done].
    destruct (decide (tag' = tag)) as [->|Hne]; [by left|]. by rewrite lookup_insert_ne.
Qed.

Lemma rest_delete s tag : rest_ok s tag -> rest_ok (set_locks (delete tag (LockMethodLockHash s)) s) tag.
Proof.
  intros [Hg Hl Hw Hr]. constructor; cbn; [done| | |done].
  - intros tag' l' Hne. rewrite lookup_delete_ne by done. by apply Hl.
  - intros p proc Hp. specialize (Hw p proc Hp). destruct (waitLock proc) as [tag'|]; [|done].
    destruct (decide (tag' = tag)) as [->|Hne]; [by left|]. by rewrite lookup_delete_ne.
Qed.

Lemma rest_same s s' tag : rest_ok s tag -> same_table s s' -> rest_ok s' tag.
Proof.
  intros [Hg Hl Hw Hr] [E1 E2 _ E3]. constructor; rewrite ?E1, ?E2; try done. by apply E3.
Qed.
