(* ===== verification/LockWait.v ===== *)
(** The wake up of waiters and the operations of the lock table that release:
    [ProcLockWakeup], [CleanUpLock], [LockRelease], [LockReleaseAll] and
    [RemoveFromWaitQueue] (Lock.v) keep [table_ok] (LockInv.v); [moved] and
    [left_queue] say what they do to who holds and who waits. *)
From S2P Require Import Prelude Lock LockInv.
From stdpp Require Import list gmap.
#[local] Open Scope Z_scope.

(** ** ProcLockWakeup *)

(** The lock [tag] is [l], the rest of the table is good. *)
Record here (s : LockState) (tag : LOCKTAG) (pend extra : list Z) (l : LOCK) : Prop := {
  hr_rest : rest_ok s tag;
  hr_lock : LockMethodLockHash s !! tag = Some l;
  hr_ok : lock_ok (allProcs s) tag pend extra l;
  hr_waits : waits_here s tag (waitProcs l) }.

Lemma here_same s s' tag pend extra l : here s tag pend extra l -> same_table s s' -> here s' tag pend extra l.
Proof.
  intros [H1 H2 H3 H4] Hss. pose proof Hss as [E1 E2 _ _]. constructor; [by eapply rest_same|congruence|by rewrite E1|].
  unfold waits_here. by rewrite E1.
Qed.

Lemma grant_commute l q p m l' : GrantLock (set_waitprocs q l) p m = Done l' ->
  GrantLock l p m = Done (set_waitprocs (waitProcs l) l') /\ waitProcs l' = q.
Proof.
  unfold GrantLock. cbn. destruct (bump (granted l) m 1) as [g| |]; cbn; [|done..].
  destruct (inside (zlookup g m)) as [ng| |]; cbn; [|done..]. destruct (inside (zlookup (requested l) m)) as [nr| |]; cbn; [|done..].
  by intros [= <-].
Qed.

Lemma update_more f p (pls : list PROCLOCK) : (forall x, myProc (f x) = myProc x) -> (forall x, groupLeader (f x) = groupLeader x) ->
  (forall x m, Z.testbit (holdMask x) m = true -> Z.testbit (holdMask (f x)) m = true) -> holds_more pls (update_proclock f p pls).
Proof.
  intros Hf1 Hf2 Hf3 x m Hx Hb. exists (if decide (of_proc p x) then f x else x). split.
  - unfold update_proclock. apply list_elem_of_fmap. by exists x.
  - case_decide; [|done]. split_and!; [done|done|]. by apply Hf3.
Qed.

Lemma grant_more m p (pls : list PROCLOCK) : 0 <= m -> holds_more pls (update_proclock (grant_mode m) p pls).
Proof. intros Hm. apply update_more; [done|done|]. intros x i Hi. cbn. by rewrite bit_lor, Hi by done. Qed.

(** Who comes before [w] in a queue. *)
Lemma before_split {A} (d q a b : list A) (w x : A) : NoDup (d ++ w :: q) -> d ++ w :: q = a ++ x :: b -> w ∈ b -> x ∈ d.
Proof.
  revert a. induction d as [|y d IH]; intros [|z a] Hnd E Hw; cbn in *; injection E as E1 E2; subst.
  - apply NoDup_cons in Hnd as [Hn _]. done.
  - apply NoDup_cons in Hnd as [Hn _]. destruct Hn. rewrite elem_of_app, elem_of_cons. by right; right.
  - by left.
  - apply NoDup_cons in Hnd as [_ Hnd]. right. by apply (IH a).
Qed.

(** What the wake up of [ws] does. *)
Record woke (tag : LOCKTAG) (s s' : LockState) (l l' : LOCK) (ws : list Z) : Prop := {
  wk_other : forall tag', tag' <> tag -> LockMethodLockHash s' !! tag' = LockMethodLockHash s !! tag';
  wk_sems : unlocked_sems s' = unlocked_sems s ++ ws;
  wk_queue : waitProcs l' = filter (fun w => w ∉ ws) (waitProcs l);
  wk_procs : forall p, allProcs s' !! p = if decide (p ∈ ws) then clear_wait STATUS_OK <$> allProcs s !! p else allProcs s !! p;
  wk_waited : forall w, w ∈ ws -> w ∈ waitProcs l;
  wk_holds : forall p m, holds_in (procLocks l') p m <-> holds_in (procLocks l) p m \/ (p ∈ ws /\ waitmode (allProcs s) p = m);
  wk_more : holds_more (procLocks l) (procLocks l');
  wk_requests : nRequested l' = nRequested l;
  wk_needed : needed_ok [] l -> needed_ok [] l';
  wk_ahead : forall a x b w, waitProcs l = a ++ x :: b -> x ∉ ws -> w ∈ ws -> w ∈ b -> conflict (waitmode (allProcs s) w) (waitmode (allProcs s) x) = false;
  wk_once : NoDup ws }.

Lemma woke_nil tag s s' l : same_table s s' -> woke tag s s' l l [].
Proof.
  intros [E2 E3 E1 _]. constructor; try done.
  - by rewrite E3.
  - by rewrite app_nil_r.
  - induction (waitProcs l) as [|x q IH]; [done|]. rewrite filter_cons, decide_True by apply not_elem_of_nil. by rewrite <- IH.
  - intros p. by rewrite E2.
  - intros w Hw. by apply not_elem_of_nil in Hw.
  - intros p m. split; [by left|]. by intros [?|[?%not_elem_of_nil ?]].
  - by intros a x b w _ _ ?%not_elem_of_nil.
  - by apply NoDup_nil_2.
Qed.

Lemma woke_waitmode tag s s' l l' ws p : woke tag s s' l l' ws -> waitmode (allProcs s') p = waitmode (allProcs s) p.
Proof. intros H. unfold waitmode. rewrite (wk_procs _ _ _ _ _ _ H). case_decide; [|done]. by destruct (allProcs s !! p). Qed.

Lemma woke_trans tag s1 s2 s3 l1 l2 l3 ws ws' : woke tag s1 s2 l1 l2 ws -> woke tag s2 s3 l2 l3 ws' -> woke tag s1 s3 l1 l3 (ws ++ ws').
Proof.
  intros H12 H23. pose proof (fun p => woke_waitmode _ _ _ _ _ _ p H12) as Hmode.
  destruct H12 as [A0 A1 A2 A3 A4 AH A5 A6 A7 A8 A9], H23 as [B0 B1 B2 B3 B4 BH B5 B6 B7 B8 B9]. constructor.
  - intros tag' Hne. by rewrite B0, A0.
  - by rewrite B1, A1, app_assoc.
  - rewrite B2, A2, list_filter_filter. apply list_filter_iff. intros x. rewrite elem_of_app. tauto.
  - intros p. rewrite B3, A3. pose proof (elem_of_app ws ws' p) as Happ.
    destruct (decide (p ∈ ws')), (decide (p ∈ ws)), (decide (p ∈ ws ++ ws')); try tauto. by destruct (allProcs s1 !! p).
  - intros w [Hw|Hw]%elem_of_app; [by apply A4|]. apply B4 in Hw. rewrite A2 in Hw. by apply list_elem_of_filter in Hw as [_ ?].
  - intros p m. rewrite BH, AH, Hmode, elem_of_app. tauto.
  - by etransitivity.
  - congruence.
  - auto.
  - intros a x b w E [Hx Hx']%not_elem_of_app [Hw|Hw]%elem_of_app Hb; [by eapply A8|]. rewrite <- !Hmode. eapply (B8 (filter (fun w => w ∉ ws) a) x (filter (fun w => w ∉ ws) b)); [|done|done|].
    + by rewrite A2, E, filter_app, filter_cons, decide_True by done.
    + apply list_elem_of_filter. split; [|done]. apply B4 in Hw. rewrite A2 in Hw. by apply list_elem_of_filter in Hw as [? _].
  - apply NoDup_app. split_and!; [done| |done]. intros x Hx Hx'. apply B4 in Hx'. rewrite A2 in Hx'. by apply list_elem_of_filter in Hx' as [? _].
Qed.

Lemma woke_same tag s s1 s2 l l' ws : same_table s s1 -> woke tag s1 s2 l l' ws -> woke tag s s2 l l' ws.
Proof. intros [E1 E2 E3 _] [H0 H1 H2 H3 H4 HH H5 H6 H7 H8 H9]. constructor; rewrite ?E1, ?E2, ?E3 in *; done. Qed.

Lemma grant_holds_in (pls : list PROCLOCK) (Hnd : NoDup (myProc <$> pls)) p pl m p' m' : pl ∈ pls -> myProc pl = p -> 0 <= m ->
  holds_in (update_proclock (grant_mode m) p pls) p' m' <-> holds_in pls p' m' \/ (p' = p /\ m = m').
Proof.
  intros Hpl Hp Hm. pose proof (elem_of_update pls Hnd p pl Hpl Hp (grant_mode m)) as Hin. split.
  - intros (x & [->|[Hx Hne]]%Hin & Hxp & Hb); [|left; by exists x]. cbn in Hxp, Hb. rewrite bit_lor in Hb by done.
    apply orb_true_iff in Hb as [Hb|Hb%bool_decide_eq_true]; [left; by exists pl|right; split; [congruence|done]].
  - intros [(x & Hx & Hxp & Hb)|[-> <-]].
    + destruct (decide (myProc x = p)) as [E|E].
      * assert (x = pl) as -> by (apply (same_proclock pls Hnd); [done|done|congruence]).
        exists (grant_mode m pl). split_and!; [apply Hin; by left|done|]. cbn. by rewrite bit_lor, Hb.
      * exists x. split_and!; [apply Hin; by right|done|done].
    + exists (grant_mode m pl). split_and!; [apply Hin; by left|done|]. cbn. by rewrite bit_lor, bool_decide_true, orb_true_r.
Qed.

Section Wakeup.
Context {th : LockThread} (Hstream : stream_mode = false) (tag : LOCKTAG) (t : LockMethodData) (Ht : method_ok t).

(** The first steps of [ProcWakeup] after the grant. *)
Lemma wake_one s l w proc pl : here s tag [] [] l -> w ∈ waitProcs l -> allProcs s !! w = Some proc ->
  pl ∈ procLocks l -> myProc pl = w -> ~ held_conflict (procLocks l) (groupLeader pl) (waitLockMode proc) ->
  (forall a x b, waitProcs l = a ++ x :: b -> w ∈ b -> conflict (waitLockMode proc) (waitmode (allProcs s) x) = false) ->
  exists s' l', (forall (K : LM unit) Q, lwp K Q s' ->
      lwp (lock ← lift (GrantLock l w (waitLockMode proc)); put_lock tag lock;; ProcWakeup w STATUS_OK;; K) Q s)
    /\ here s' tag [] [] l' /\ woke tag s s' l l' [w] /\ blocking_redistribution_proc s' = blocking_redistribution_proc s.
Proof.
  intros [Hrest Hlock Hok Hwaits] Hw Hproc Hpl Hplw Hno Hahead. set (m := waitLockMode proc) in *.
  pose proof Hok as [Hsh _ _ _ _ _ _ _ _]. destruct (sh_waiting _ _ _ _ Hsh w Hw) as (proc1 & Hwt).
  pose proof Hwt as [Hproc1 Hwl Hlinked Hmode _ Hheld Hnew]. assert (proc1 = proc) as -> by congruence.
  assert (Hplheld : holdMask pl = heldLocks proc).
  { destruct Hheld as (x & Hx & Hxw & <-). f_equal. apply (same_proclock _ (sh_nodup _ _ _ _ Hsh)); [done|done|congruence]. }
  set (q := remove_proc w (waitProcs l)). set (proc' := clear_wait STATUS_OK proc).
  pose proof (unwait_ok _ _ _ w proc proc' Hok Hw Hproc eq_refl) as Hun. fold m q in Hun.
  destruct (grant_ok (<[w := proc']> (allProcs s)) tag (set_waitprocs q l) w pl Hpl Hplw m Hmode [m] Hun) as (l' & Hgrant & Hok' & Hch & Hnr).
  { cbn. intros [_ H]%elem_of_remove. done. }
  { by intros x ->%list_elem_of_singleton. }
  { by rewrite Hplheld. }
  { done. }
  destruct (grant_commute _ _ _ _ _ Hgrant) as [Hgrant' Hq']. destruct Hch as [Hchp Hchq].
  change (procLocks (set_waitprocs q l)) with (procLocks l) in Hchp.
  set (s1 := set_locks (<[tag := set_waitprocs (waitProcs l) l']> (LockMethodLockHash s)) s).
  set (s2 := set_locks (<[tag := l']> (LockMethodLockHash s1)) s1).
  set (s3 := set_procs (<[w := proc']> (allProcs s2)) s2). set (s4 := set_sems (unlocked_sems s3 ++ [w]) s3).
  exists s4, l'. split_and!.
  - intros K Q HQ. apply lwp_bind. eapply lwp_lift; [done|]. apply lwp_bind, lwp_modify. unfold ProcWakeup.
    apply lwp_bind, lwp_bind. eapply lwp_get_proc; [done|]. rewrite Hlinked. cbn [negb].
    apply lwp_bind. eapply lwp_lift; [by rewrite Hwl|]. apply lwp_bind. eapply lwp_get_lock; [apply lookup_insert_eq|].
    apply lwp_bind, lwp_modify. apply lwp_bind, lwp_modify, lwp_modify. cbn [waitProcs set_waitprocs].
    assert (El : set_waitprocs (remove_proc w (waitProcs l)) (set_waitprocs (waitProcs l) l') = l').
    { fold q. rewrite <- Hq'. by destruct l'. }
    rewrite El. exact HQ.
  - assert (Hr3 : rest_ok s3 tag).
    { apply (rest_proc s2 tag w proc); [by apply rest_lock, rest_lock|done|done|by right|by right]. }
    constructor; [destruct Hr3; by constructor|apply lookup_insert_eq|done|].
    intros p x. cbn. rewrite Hq'. destruct (decide (w = p)) as [<-|Hne]; [by rewrite lookup_insert_eq; intros [= <-]|].
    rewrite lookup_insert_ne by done. intros Hp Hpl'. apply elem_of_remove. split; [by apply (Hwaits p x)|congruence].
  - constructor; try done.
    + intros tag' Hne. cbn. by rewrite !lookup_insert_ne.
    + rewrite Hq'. unfold q, remove_proc. apply list_filter_iff. intros x. by rewrite list_elem_of_singleton.
    + intros p. cbn. case_decide as Hp.
      * apply list_elem_of_singleton in Hp as ->. by rewrite lookup_insert_eq, Hproc.
      * rewrite list_elem_of_singleton in Hp. by rewrite lookup_insert_ne.
    + by intros x ->%list_elem_of_singleton.
    + intros p m'. rewrite Hchp, (grant_holds_in _ (sh_nodup _ _ _ _ Hsh) w pl) by (done || (unfold mode_ok in Hmode; lia)).
      rewrite list_elem_of_singleton. split; (intros [?|[-> E]]; [by left|right]); rewrite (waitmode_lookup _ _ _ Hproc) in *; done.
    + rewrite Hchp. apply grant_more. unfold mode_ok in Hmode. lia.
    + intros Hneed x. rewrite Hchp. intros [->|[Hx Hxw]]%(elem_of_update _ (sh_nodup _ _ _ _ Hsh) w pl Hpl Hplw).
      * left. cbn. intros H0. assert (Hb : Z.testbit (Z.lor (holdMask pl) (LOCKBIT_ON m)) m = false) by (rewrite H0; apply Z.bits_0).
        unfold mode_ok in Hmode. rewrite bit_lor, bool_decide_true, orb_true_r in Hb by lia. done.
      * destruct (Hneed x Hx) as [?|[?|?]]; [by left|right; left|by right; right]. rewrite Hq'. by apply elem_of_remove.
    + intros a x b v E _ ->%list_elem_of_singleton Hv. rewrite (waitmode_lookup _ _ _ Hproc). by apply (Hahead a x b).
    + apply NoDup_singleton.
  - done.
Qed.

(** The prefix [done] of the queue is blocked. *)
Definition blocked_prefix (ps : gmap Z PGPROC) (pls : list PROCLOCK) (done : list Z) : Prop :=
  forall ahead w behind, done = ahead ++ w :: behind -> blocked ps pls ahead w.

Lemma blocked_snoc ps pls (done : list Z) w : blocked_prefix ps pls done -> blocked ps pls done w -> blocked_prefix ps pls (done ++ [w]).
Proof.
  intros Hd Hw ahead v behind E. destruct behind as [|x behind _] using rev_ind.
  - apply app_inj_tail in E as [-> ->]. done.
  - rewrite app_comm_cons, app_assoc in E. apply app_inj_tail in E as [E _]. by eapply Hd.
Qed.

Lemma ahead_bits ps (done : list Z) ahead m : 0 <= ahead -> mode_ok m ->
  (forall m', Z.testbit ahead m' = true <-> waiters ps done m' <> []) ->
  Z.land (znth LockConflicts m) ahead <> 0 <-> exists v, v ∈ done /\ conflict m (waitmode ps v) = true.
Proof.
  intros H0 Hm Hbits. rewrite conflicts_meet by done. split.
  - intros (m' & Hc & (v & Hv & Hvm)%Hbits%waiters_some). exists v. by rewrite Hvm.
  - intros (v & Hv & Hc). exists (waitmode ps v). split; [done|]. apply Hbits, waiters_some. by exists v.
Qed.

Lemma wakeup_loop_spec (queue : list Z) : forall s l (done : list Z) ahead (Q : unit -> LockState -> Prop),
  here s tag [] [] l -> waitProcs l = done ++ queue -> blocked_prefix (allProcs s) (procLocks l) done ->
  0 <= ahead -> (forall m, Z.testbit ahead m = true <-> waiters (allProcs s) done m <> []) -> is_Some (allProcs s !! my_proc) ->
  (forall s' l' ws, here s' tag [] [] l' -> woke tag s s' l l' ws -> blocked_ok (allProcs s') l' -> Q tt s') ->
  lwp (wakeup_loop t tag queue ahead) Q s.
Proof.
  induction queue as [|w queue IH]; intros s l done ahead Q Hh Hq Hdone Ha Hbits [me Hme] HQ; cbn [wakeup_loop].
  { apply lwp_ret, (HQ s l []); [done|by apply woke_nil|]. intros a x b E. apply (Hdone a x b). by rewrite <- E, Hq, app_nil_r. }
  pose proof Hh as [Hrest Hlock Hok Hwaits]. pose proof (lk_shape _ _ _ _ _ Hok) as Hsh.
  assert (Hw : w ∈ waitProcs l) by (rewrite Hq, elem_of_app, elem_of_cons; tauto).
  destruct (sh_waiting _ _ _ _ Hsh w Hw) as (proc & [Hproc _ _ Hmode _ (pl & Hpl & Hplw & _) _]).
  apply lwp_bind. eapply lwp_get_proc; [done|]. apply lwp_bind. eapply lwp_get_lock; [done|].
  apply lwp_bind. eapply lwp_lift; [by apply conflicts_of_mode|]. apply lwp_bind.
  assert (Hlead : groupLeader pl = leader_of w proc).
  { destruct (sh_leader _ _ _ _ Hsh pl Hpl) as (x & Hx & ->). rewrite Hplw in *. congruence. }
  assert (Hskip : forall s1, same_table s s1 -> blocked (allProcs s) (procLocks l) done w ->
    lwp (wakeup_loop t tag queue (Z.lor ahead (LOCKBIT_ON (waitLockMode proc)))) Q s1).
  { intros s1 Hss Hb. pose proof (st_procs _ _ Hss) as E. apply (IH s1 l (done ++ [w])).
    - by eapply here_same.
    - by rewrite Hq, <- app_assoc.
    - rewrite E. by apply blocked_snoc.
    - by apply mask_lor_nonneg.
    - intros m. rewrite E, bit_lor, orb_true_iff, bool_decide_eq_true, Hbits by (unfold mode_ok in Hmode; lia).
      by rewrite waiters_snoc, (waitmode_lookup _ _ _ Hproc).
    - rewrite E. by exists me.
    - intros s' l' ws H1 H2. by apply (HQ s' l' ws), (woke_same _ _ s1). }
  destruct (Z.eqb_spec (Z.land (znth LockConflicts (waitLockMode proc)) ahead) 0) as [Hz|Hz].
  - eapply (check_spec Hstream (allProcs s) (rs_groups _ _ Hrest) tag [] [] l Hok w pl Hpl Hplw me Hme); [done|done|done|apply (rs_redist _ _ Hrest)|].
    intros st s1 Hss [Hv1 Hv2]. pose proof (st_procs _ _ Hss) as E. case_bool_decide as Hst.
    + destruct (wake_one s1 l w proc pl) as (s2 & l2 & Hrun & Hh2 & Hwoke & _); [by eapply here_same|done|congruence|done|done|by apply Hv1| |].
      { intros a x b Ex Hb. rewrite E. destruct (conflict (waitLockMode proc) (waitmode (allProcs s) x)) eqn:Hc; [|done]. exfalso.
        apply (ahead_bits (allProcs s) done ahead (waitLockMode proc) Ha Hmode Hbits); [|done]. exists x. split; [|done].
        pose proof (sh_queue _ _ _ _ Hsh) as Hnd. rewrite Hq in Ex, Hnd. by eapply before_split. }
      apply Hrun. pose proof (sh_queue _ _ _ _ Hsh) as Hnd. pose proof Hwoke as [_ _ Hq2 Hp2 _ _ Hmore _ _ _ _].
      assert (Hin : forall v, v ∈ done -> v ∉ [w]).
      { intros v Hv ->%list_elem_of_singleton. rewrite Hq in Hnd. apply NoDup_app in Hnd as (_ & Hd & _). apply (Hd w Hv). by left. }
      assert (Hmodes : forall v, waitmode (allProcs s2) v = waitmode (allProcs s) v).
      { intros v. rewrite <- E. by apply (woke_waitmode _ _ _ _ _ _ v Hwoke). }
      apply (IH s2 l2 done ahead); [done| | |done| | |].
      * rewrite Hq2, <- (remove_middle w done queue), <- Hq by by rewrite <- Hq. apply list_filter_iff.
        intros x. by rewrite list_elem_of_singleton.
      * intros a v b Ed. assert (Hv : v ∈ done) by (rewrite Ed, elem_of_app, elem_of_cons; tauto).
        eapply blocked_more; [by apply (Hdone a v b)|by intros; rewrite Hmodes| |done].
        rewrite Hp2, decide_False by (by apply Hin). by rewrite E.
      * intros m. rewrite Hbits. by rewrite (waiters_eq (allProcs s) (allProcs s2)) by (intros; apply Hmodes).
      * rewrite Hp2, E, Hme. case_decide; eauto.
      * intros s' l' ws H1 H2. eapply HQ; [done|]. eapply woke_same; [done|]. by eapply woke_trans.
    + apply Hskip; [done|]. exists proc. split; [done|]. right. rewrite <- Hlead. by apply Hv2.
  - apply lwp_ret. rewrite bool_decide_false by done. apply Hskip; [done|]. exists proc. split; [done|]. left.
    by apply (ahead_bits _ _ ahead).
Qed.
End Wakeup.

(** ** CleanUpLock and the operations that release *)

Definition no_drop (tag : LOCKTAG) (m : Z) : Prop := False.

Lemma moved_same s s' p : same_table s s' -> moved s s' p no_drop [].
Proof.
  intros [E1 E2 E3 _]. constructor.
  - by rewrite E3, app_nil_r.
  - intros tag q m. unfold holds_at, no_drop. rewrite E2, elem_of_nil. tauto.
  - intros q tag m. unfold waits_at. rewrite E1, elem_of_nil. tauto.
  - intros w Hw. by apply elem_of_nil in Hw.
  - by apply NoDup_nil_2.
  - intros q. by rewrite E1.
Qed.

(** Who is woken first waits no longer. *)
Lemma woken_once s1 s2 ws ws' : (forall q tag m, waits_at s2 q tag m <-> waits_at s1 q tag m /\ q ∉ ws) ->
  (forall w, w ∈ ws' -> exists tag m, waits_at s2 w tag m) -> NoDup ws -> NoDup ws' -> NoDup (ws ++ ws').
Proof.
  intros Hw Hwere H1 H2. apply NoDup_app. split_and!; [done| |done]. intros x Hx Hx'. destruct (Hwere x Hx') as (tag & m & H). by apply Hw in H as [_ ?].
Qed.

Lemma moved_trans s1 s2 s3 p drop drop' ws ws' : (forall tag m, ~ waits_at s1 p tag m) ->
  moved s1 s2 p drop ws -> moved s2 s3 p drop' ws' ->
  moved s1 s3 p (fun tag m => drop tag m \/ drop' tag m) (ws ++ ws').
Proof.
  intros Hp [A1 A2 A3 A4 A6 A5] [B1 B2 B3 B4 B6 B5]. constructor.
  - by rewrite B1, A1, app_assoc.
  - intros tag q m. rewrite B2, A2, A3, elem_of_app. split.
    + intros [[[[H1 H2]|[H1 H2]] H3]|[H1 [H2 H3]]]; [left; tauto|right; tauto|right; tauto].
    + intros [[H1 H2]|[[H1|H1] H2]]; [left; tauto| |].
      * left. split; [by right|]. intros [-> _]. by apply (Hp tag m).
      * destruct (decide (q ∈ ws)) as [Hq|Hq]; [|right; tauto]. left. split; [by right|]. intros [-> _]. by apply (Hp tag m).
  - intros q tag m. rewrite B3, A3, elem_of_app. tauto.
  - intros w [Hw|Hw]%elem_of_app; [by apply A4|]. destruct (B4 w Hw) as (tag & m & H). exists tag, m.
    by apply A3 in H as [? _].
  - by apply (woken_once s1 s2 ws ws').
  - intros q Hq. by apply B5, A5.
Qed.

Lemma moved_drop s s' p (drop drop' : LOCKTAG -> Z -> Prop) ws :
  (forall tag m, holds_at s tag p m -> drop tag m <-> drop' tag m) -> moved s s' p drop ws -> moved s s' p drop' ws.
Proof.
  intros Hd [H1 H2 H3 H4 H6 H5]. constructor; try done. intros tag q m. rewrite H2.
  split; (intros [[Hq Hn]|?]; [|by right]); left; (split; [done|]); intros [-> Hx]; apply Hn; (split; [done|]); by apply (Hd tag m Hq).
Qed.

Lemma waits_here_waits s tag q p m : waits_here s tag q -> waits_at s p tag m -> p ∈ q.
Proof. intros H (proc & Hp & Hl & _). by apply (H p proc). Qed.

Lemma waiting_waits ps tag pls q w proc s : shape ps tag pls q -> allProcs s = ps -> w ∈ q -> ps !! w = Some proc ->
  forall tag' m, waits_at s w tag' m <-> tag' = tag /\ m = waitLockMode proc.
Proof.
  intros Hsh Hs Hw Hproc tag' m. destruct (sh_waiting _ _ _ _ Hsh w Hw) as (x & []). assert (x = proc) as -> by congruence.
  unfold waits_at. rewrite Hs. split.
  - intros (y & Hy & Hyl & Hym). split; congruence.
  - intros [-> ->]. by exists proc.
Qed.

Lemma woke_moved tag s s' l l' ws p pend extra : here s tag pend extra l -> here s' tag [] [] l' -> woke tag s s' l l' ws -> moved s s' p no_drop ws.
Proof.
  intros [Hr Hlock Hok Hw] [Hr' Hlock' Hok' Hw'] [H0 H1 H2 H3 H4 H5 H6 H7 H8 _ H9]. pose proof (lk_shape _ _ _ _ _ Hok) as Hsh.
  assert (Hws : forall w proc, w ∈ ws -> allProcs s !! w = Some proc -> waitLock proc = Some tag).
  { intros w proc Hws Hproc. destruct (sh_waiting _ _ _ _ Hsh w (H4 w Hws)) as (x & []). congruence. }
  constructor.
  - done.
  - intros tag' q m. unfold no_drop. destruct (decide (tag' = tag)) as [->|Hne].
    + assert (Hq : (q ∈ ws /\ waits_at s q tag m) <-> (q ∈ ws /\ waitmode (allProcs s) q = m)).
      { split; intros [Hq Hm]; (split; [done|]).
        - destruct Hm as (proc & Hproc & _ & <-). by apply waitmode_lookup.
        - destruct (sh_waiting _ _ _ _ Hsh q (H4 q Hq)) as (x & [Hwp Hwl _ _ _ _ _]). exists x. split_and!; [done|done|].
          by rewrite (waitmode_lookup _ _ _ Hwp) in Hm. }
      rewrite Hq. unfold holds_at. rewrite Hlock, Hlock'. split.
      * intros (x & [= <-] & [Hh|Hh]%H5); [left; split; [by exists l|tauto]|by right].
      * intros [[(x & [= <-] & Hh) _]|Hh]; exists l'; (split; [done|]); apply H5; tauto.
    + unfold holds_at. rewrite (H0 tag' Hne). split; [intros Hh; left; split; [done|tauto]|].
      intros [[? _]|[Hq (proc & Hproc & Hl & _)]]; [done|]. rewrite (Hws q proc Hq Hproc) in Hl. congruence.
  - intros q tag' m. unfold waits_at. rewrite H3. case_decide as Hq.
    + split; [|tauto]. intros (proc & Hproc & Hl & _). destruct (allProcs s !! q); [|done]. by injection Hproc as <-.
    + tauto.
  - intros w Hws'. destruct (sh_waiting _ _ _ _ Hsh w (H4 w Hws')) as (x & []). exists tag, (waitLockMode x). by exists x.
  - done.
  - intros q [x Hx]. rewrite H3, Hx. case_decide; eauto.
Qed.

(** The counts of an empty lock. *)
Lemma sum_nonneg (l : list Z) : (forall x, x ∈ l -> 0 <= x) -> 0 <= foldr Z.add 0 l /\ (foldr Z.add 0 l = 0 -> forall x, x ∈ l -> x = 0).
Proof.
  induction l as [|y l IH]; intros Hp; cbn [foldr]; [split; [lia|by intros _ x ?%elem_of_nil]|].
  destruct IH as [IH1 IH2]; [intros x Hx; apply Hp; by right|]. pose proof (Hp y ltac:(by left)). split; [lia|].
  intros Hs x [->|Hx]%elem_of_cons; [lia|]. apply IH2; [lia|done].
Qed.

Lemma requested_counts ps tag pend extra l : lock_ok ps tag pend extra l ->
  0 <= nRequested l /\ (nRequested l = 0 -> forall m, mode_ok m -> zlen (holders (procLocks l) m) = 0 /\ zlen (waiters ps (waitProcs l) m) = 0).
Proof.
  intros [Hsh [Hsg Hsr] Hg Hr [Ht1 Ht2] [Hr0 Hr9] Hgm Hwm Hex].
  destruct (sum_nonneg (requested l)) as [Hs1 Hs2].
  { intros x (i & Hi)%list_elem_of_lookup_1. pose proof (lookup_lt_Some _ _ _ Hi) as Hlt. unfold zlen, MAX_LOCKMODES in Hsr.
    assert (Hzi : zlookup (requested l) (Z.of_nat i) = Some x).
    { unfold zlookup. rewrite (proj2 (Z.leb_le 0 _)), Nat2Z.id by lia. done. }
    destruct (decide (mode_ok (Z.of_nat i))) as [Hm|Hm].
    - rewrite (Hr _ Hm) in Hzi. injection Hzi as <-. pose proof (zlen_nonneg (holders (procLocks l) (Z.of_nat i))).
      pose proof (zlen_nonneg (waiters ps (waitProcs l) (Z.of_nat i))). pose proof (zlen_nonneg (filter (fun r => r = Z.of_nat i) pend)). lia.
    - assert (Z.of_nat i = 0 \/ Z.of_nat i = 9) as [E|E] by (unfold mode_ok in Hm; lia); rewrite E in Hzi; [rewrite Hr0 in Hzi|rewrite Hr9 in Hzi]; injection Hzi as <-; done. }
  rewrite Ht1. split; [done|]. intros H0 m Hm. specialize (Hs2 H0). pose proof (Hr m Hm) as Hrm.
  unfold zlookup in Hrm. destruct (0 <=? m); [|done]. apply list_elem_of_lookup_2, Hs2 in Hrm.
  pose proof (zlen_nonneg (holders (procLocks l) m)). pose proof (zlen_nonneg (waiters ps (waitProcs l) m)).
  pose proof (zlen_nonneg (filter (fun r => r = m) pend)). lia.
Qed.

Lemma no_requests ps tag pend extra l : lock_ok ps tag pend extra l -> nRequested l = 0 -> waitProcs l = [] /\ forall p m, ~ holds_in (procLocks l) p m.
Proof.
  intros Hok H0. pose proof (lk_shape _ _ _ _ _ Hok) as Hsh. destruct (requested_counts _ _ _ _ _ Hok) as [_ Hz]. specialize (Hz H0). split.
  - destruct (waitProcs l) as [|w q] eqn:E; [done|]. exfalso. destruct (sh_waiting _ _ _ _ Hsh w) as (proc & [Hwp _ _ Hwm _ _ _]); [by left|].
    destruct (Hz _ Hwm) as [_ Hw]. apply zlen_zero in Hw. assert (Hn : waiters ps (w :: q) (waitLockMode proc) <> []); [|done].
    apply waiters_some. exists w. split; [by left|by apply waitmode_lookup].
  - intros p m (pl & Hpl & _ & Hb). pose proof (proj2 (sh_masks _ _ _ _ Hsh pl Hpl) m Hb) as Hm.
    destruct (Hz _ Hm) as [Hh _]. apply zlen_zero in Hh. assert (Hn : holders (procLocks l) m <> []); [|done].
    apply holders_some. by exists pl.
Qed.

(** One lock of the table changes, or is deleted. *)
Lemma moved_lock s tag l l1 p (drop : Z -> Prop) : LockMethodLockHash s !! tag = Some l ->
  (forall q m, holds_in (procLocks l1) q m <-> holds_in (procLocks l) q m /\ ~ (q = p /\ drop m)) ->
  moved s (set_locks (<[tag := l1]> (LockMethodLockHash s)) s) p (fun tag' m => tag' = tag /\ drop m) [].
Proof.
  intros Hl Hh. constructor; cbn.
  - by rewrite app_nil_r.
  - intros tag' q m. rewrite elem_of_nil. unfold holds_at. cbn. destruct (decide (tag' = tag)) as [->|Hne].
    + rewrite lookup_insert_eq, Hl. split.
      * intros (x & [= <-] & Hx%Hh). left. split; [exists l; tauto|tauto].
      * intros [[(x & [= <-] & Hx) Hn]|[[] _]]. exists l1. split; [done|]. apply Hh. split; [done|]. intros [-> ?]. by apply Hn.
    + rewrite lookup_insert_ne by done. split; [intros ?; left; split; [done|tauto]|]. by intros [[? _]|[[] _]].
  - intros q tag' m. rewrite elem_of_nil. unfold waits_at. cbn. tauto.
  - intros w Hw. by apply elem_of_nil in Hw.
  - by apply NoDup_nil_2.
  - done.
Qed.

Lemma moved_delete s tag l p : LockMethodLockHash s !! tag = Some l -> (forall q m, ~ holds_in (procLocks l) q m) ->
  moved s (set_locks (delete tag (LockMethodLockHash s)) s) p no_drop [].
Proof.
  intros Hl Hh. constructor; cbn.
  - by rewrite app_nil_r.
  - intros tag' q m. rewrite elem_of_nil. unfold holds_at, no_drop. cbn. destruct (decide (tag' = tag)) as [->|Hne].
    + rewrite lookup_delete_eq, Hl. split; [by intros (x & ? & _)|]. intros [[(x & [= <-] & Hx) _]|[[] _]]. by apply Hh in Hx.
    + rewrite lookup_delete_ne by done. tauto.
  - intros q tag' m. rewrite elem_of_nil. unfold waits_at. cbn. tauto.
  - intros w Hw. by apply elem_of_nil in Hw.
  - by apply NoDup_nil_2.
  - done.
Qed.

Lemma delete_holds_in (pls : list PROCLOCK) (Hnd : NoDup (myProc <$> pls)) pl q m : pl ∈ pls -> holdMask pl = 0 ->
  holds_in (delete_proclock (myProc pl) pls) q m <-> holds_in pls q m.
Proof.
  intros Hpl H0. split; intros (x & Hx & Hxq & Hb).
  - apply elem_of_delete in Hx as [Hx _]. by exists x.
  - exists x. split_and!; [|done|done]. apply elem_of_delete. split; [done|]. intros E.
    assert (x = pl) as -> by (by apply (same_proclock pls Hnd)). by rewrite H0, Z.bits_0 in Hb.
Qed.

Lemma drop_holds_in (pls : list PROCLOCK) (Hnd : NoDup (myProc <$> pls)) p pl m q m' : pl ∈ pls -> myProc pl = p -> 0 <= m ->
  holds_in (update_proclock (drop_mode m) p pls) q m' <-> holds_in pls q m' /\ ~ (q = p /\ m' = m).
Proof.
  intros Hpl Hp Hm. pose proof (elem_of_update pls Hnd p pl Hpl Hp (drop_mode m)) as Hin. split.
  - intros (x & [->|[Hx Hne]]%Hin & Hxp & Hb).
    + cbn in Hxp, Hb. rewrite bit_clear in Hb by done. apply andb_true_iff in Hb as [Hb Hmm%bool_decide_eq_true].
      split; [by exists pl|]. intros [_ ?]. congruence.
    + split; [by exists x|]. intros [-> _]. congruence.
  - intros [(x & Hx & Hxp & Hb) Hn]. destruct (decide (myProc x = p)) as [E|E].
    + assert (x = pl) as -> by (apply (same_proclock pls Hnd); [done|done|congruence]).
      exists (drop_mode m pl). split_and!; [apply Hin; by left|done|]. cbn. rewrite bit_clear, Hb, bool_decide_true; [done| |done].
      intros <-. apply Hn. split; congruence.
    + exists x. split_and!; [apply Hin; by right|done|done].
Qed.

(** A process that does not wait is in no queue. *)
Lemma not_queued s tag pend extra l p : here s tag pend extra l -> (forall tag m, ~ waits_at s p tag m) -> p ∉ waitProcs l.
Proof.
  intros [_ _ Hok _] Hp Hin. destruct (sh_waiting _ _ _ _ (lk_shape _ _ _ _ _ Hok) p Hin) as (x & []).
  apply (Hp tag (waitLockMode x)). by exists x.
Qed.

Lemma here_lock s tag l pend extra pend' extra' l' : here s tag pend extra l -> lock_ok (allProcs s) tag pend' extra' l' -> waitProcs l' = waitProcs l ->
  here (set_locks (<[tag := l']> (LockMethodLockHash s)) s) tag pend' extra' l'.
Proof.
  intros [H1 H2 H3 H4] Hok Hq. constructor; [by apply rest_lock|apply lookup_insert_eq|done|]. unfold waits_here. rewrite Hq. apply H4.
Qed.

Lemma needed_drop p pl l : NoDup (myProc <$> procLocks l) -> pl ∈ procLocks l -> myProc pl = p -> needed_ok [p] l ->
  needed_ok [] (if holdMask pl =? 0 then set_proclocks (delete_proclock p (procLocks l)) l else l).
Proof.
  intros Hnd Hpl Hp Hneed. destruct (Z.eqb_spec (holdMask pl) 0) as [H0|H0]; intros x Hx; cbn in Hx |- *.
  - apply elem_of_delete in Hx as [Hx Hxp]. destruct (Hneed x Hx) as [?|[?|Hi%list_elem_of_singleton]]; [by left|by right; left|done].
  - destruct (Hneed x Hx) as [?|[?|Hi%list_elem_of_singleton]]; [by left|by right; left|]. left.
    assert (x = pl) as -> by (apply (same_proclock _ Hnd); [done|done|congruence]). done.
Qed.

(** [p] has given up the modes [drop] of the lock [l]. *)
Record dropped (ps : gmap Z PGPROC) (tag : LOCKTAG) (l l' : LOCK) (p : Z) (drop : Z -> Prop) (wake : bool) : Prop := {
  dr_ok : lock_ok ps tag [] [] l';
  dr_queue : waitProcs l' = waitProcs l;
  dr_holds : forall q m, holds_in (procLocks l') q m <-> holds_in (procLocks l) q m /\ ~ (q = p /\ drop m);
  dr_needed : needed_ok [p] l -> needed_ok [p] l';
  dr_blocked : wake = false -> blocked_ok ps l -> blocked_ok ps l';
  dr_proclock : forall pl, pl ∈ procLocks l -> myProc pl = p -> exists pl', pl' ∈ procLocks l' /\ myProc pl' = p
    /\ forall m, Z.testbit (holdMask pl') m = true <-> Z.testbit (holdMask pl) m = true /\ ~ drop m }.

Lemma dropped_trans ps tag l1 l2 l3 p drop drop' wake wake' : dropped ps tag l1 l2 p drop wake -> dropped ps tag l2 l3 p drop' wake' ->
  dropped ps tag l1 l3 p (fun m => drop m \/ drop' m) (wake || wake').
Proof.
  intros [A1 A2 A3 A4 A5 A6] [B1 B2 B3 B4 B5 B6]. constructor.
  - done.
  - congruence.
  - intros q m. rewrite B3, A3. tauto.
  - auto.
  - intros [Hw Hw']%orb_false_iff Hb. auto.
  - intros pl Hpl Hp. destruct (A6 pl Hpl Hp) as (pl2 & Hpl2 & Hp2 & Hb2). destruct (B6 pl2 Hpl2 Hp2) as (pl3 & Hpl3 & Hp3 & Hb3).
    exists pl3. split_and!; [done|done|]. intros m. rewrite Hb3, Hb2. tauto.
Qed.

Lemma dropped_iff ps tag l l' p (drop drop' : Z -> Prop) wake : (forall m, drop m <-> drop' m) ->
  dropped ps tag l l' p drop wake -> dropped ps tag l l' p drop' wake.
Proof.
  intros Hd [A1 A2 A3 A4 A5 A6]. constructor; try done.
  - intros q m. by rewrite A3, Hd.
  - intros pl Hpl Hp. destruct (A6 pl Hpl Hp) as (pl2 & ? & ? & Hb). exists pl2. split_and!; [done|done|]. intros m. by rewrite Hb, Hd.
Qed.

Lemma held_conflict_drop (pls : list PROCLOCK) (Hnd : NoDup (myProc <$> pls)) p pl m leader wm : pl ∈ pls -> myProc pl = p -> 0 <= m ->
  conflict wm m = false -> held_conflict pls leader wm -> held_conflict (update_proclock (drop_mode m) p pls) leader wm.
Proof.
  intros Hpl Hp Hm Hno (x & m' & Hx & Hg & Hb & Hc). pose proof (elem_of_update pls Hnd p pl Hpl Hp (drop_mode m)) as Hin.
  destruct (decide (myProc x = p)) as [E|E].
  - assert (x = pl) as -> by (apply (same_proclock pls Hnd); [done|done|congruence]). exists (drop_mode m pl), m'.
    split_and!; [apply Hin; by left|done| |done]. cbn. rewrite bit_clear, Hb, bool_decide_true; [done| |done]. intros ->. congruence.
  - exists x, m'. split_and!; [apply Hin; by right|done..].
Qed.

Lemma drop_one ps tag t l p pl m : method_ok t -> lock_ok ps tag [] [] l -> pl ∈ procLocks l -> myProc pl = p -> p ∉ waitProcs l ->
  mode_ok m -> Z.testbit (holdMask pl) m = true ->
  exists wake l', UnGrantLock t l m p = Done (wake, l') /\ dropped ps tag l l' p (fun m' => m' = m) wake /\ nRequested l' = nRequested l - 1.
Proof.
  intros Ht Hok Hpl Hp Hq Hm Hold. pose proof (lk_shape _ _ _ _ _ Hok) as Hsh. pose proof (sh_nodup _ _ _ _ Hsh) as Hnd.
  destruct (ungrant_ok ps tag l p pl Hpl Hp m Hm t Ht Hok Hq Hold) as (wake & l' & Hrun & Hok' & [Hch Hcq] & Hn & Hwake).
  exists wake, l'. split; [done|]. split; [|done]. assert (Hm0 : 0 <= m) by (unfold mode_ok in Hm; lia).
  pose proof (elem_of_update _ Hnd p pl Hpl Hp (drop_mode m)) as Hin. constructor; [done|done| | | |].
  - intros q m'. rewrite Hch. by apply (drop_holds_in _ Hnd p pl).
  - intros Hneed x. rewrite Hch, Hcq. intros [->|[Hx Hxp]]%Hin; [right; right; by apply list_elem_of_singleton|by apply Hneed].
  - intros Hw Hb a w b E. rewrite Hch. rewrite Hcq in E. destruct (Hb a w b E) as (proc & Hproc & Hbl). exists proc. split; [done|].
    destruct Hbl as [?|Hh]; [by left|]. right. apply (held_conflict_drop _ Hnd p pl); [done..| |done].
    assert (Hwq : w ∈ waitProcs l) by (rewrite E, elem_of_app, elem_of_cons; tauto).
    destruct (sh_waiting _ _ _ _ Hsh w Hwq) as (x & []). assert (x = proc) as -> by congruence.
    rewrite conflict_sym by done. rewrite <- (waitmode_lookup _ _ _ Hproc). by apply Hwake.
  - intros x Hx Hxp. assert (x = pl) as -> by (apply (same_proclock _ Hnd); [done|done|congruence]).
    exists (drop_mode m pl). rewrite Hch. split_and!; [apply Hin; by left|done|]. intros m'. cbn.
    rewrite bit_clear, andb_true_iff, bool_decide_eq_true by done. split; (intros [? ?]; split; [done|congruence]).
Qed.

Lemma release_modes_spec ps tag t releaseMask p : method_ok t -> forall n i l pl,
  lock_ok ps tag [] [] l -> pl ∈ procLocks l -> myProc pl = p -> p ∉ waitProcs l -> 1 <= i -> i + Z.of_nat n <= 9 ->
  (forall m, i <= m -> Z.testbit releaseMask m = true -> Z.testbit (holdMask pl) m = true) ->
  exists wake l', release_modes t n i releaseMask p l = Done (wake, l')
    /\ dropped ps tag l l' p (fun m => i <= m < i + Z.of_nat n /\ Z.testbit releaseMask m = true) wake.
Proof.
  intros Ht. induction n as [|n IH]; intros i l pl Hok Hpl Hp Hq Hi Hn Hmask; cbn [release_modes].
  - exists false, l. split; [done|]. constructor; try done.
    + intros q m. split; [intros ?; split; [done|]; intros [_ [? _]]; lia|tauto].
    + intros x Hx Hxp. exists x. split_and!; [done|done|]. intros m. split; [intros ?; split; [done|]; intros [? _]; lia|tauto].
  - rewrite land_bit_on, negb_involutive by lia. destruct (Z.testbit releaseMask i) eqn:Hb.
    + assert (Hmi : mode_ok i) by (unfold mode_ok; lia).
      destruct (drop_one ps tag t l p pl i) as (wake & l1 & Hrun & Hd & _); [done..|by apply Hmask|].
      destruct (dr_proclock _ _ _ _ _ _ _ Hd pl Hpl Hp) as (pl1 & Hpl1 & Hp1 & Hb1).
      destruct (IH (i + 1) l1 pl1) as (wake' & l' & Hrun' & Hd'); [apply (dr_ok _ _ _ _ _ _ _ Hd)|done|done| |lia|lia| |].
      { by rewrite (dr_queue _ _ _ _ _ _ _ Hd). }
      { intros m Hm Hbm. apply Hb1. split; [apply Hmask; [lia|done]|lia]. }
      exists (wake || wake'), l'. rewrite Hrun. runs. cbn [snd]. rewrite Hrun'. split; [done|].
      eapply dropped_iff; [|by eapply dropped_trans]. intros m. cbn. split; [intros [->|[? ?]]; (split; [lia|done])|].
      intros [Hm ?]. destruct (decide (m = i)) as [|]; [by left|right; split; [lia|done]].
    + destruct (IH (i + 1) l pl) as (wake' & l' & Hrun' & Hd'); [done..|lia|lia|intros; apply Hmask; [lia|done]|].
      exists wake', l'. split; [done|]. eapply dropped_iff; [|done]. intros m. cbn. split; intros [? ?]; (split; [|done]); [lia|].
      assert (m <> i) by congruence. lia.
Qed.

(** A mark of LockReleaseAll: modes that the process [p] holds. *)
Definition mark_ok (s : LockState) (p lockmethodid : Z) (allLocks : bool) (x : LOCKTAG * Z) : Prop :=
  locktag_lockmethodid (fst x) = lockmethodid -> 0 <= snd x /\ (exists m, holds_at s (fst x) p m)
    /\ forall m, allLocks = false -> Z.testbit (snd x) m = true -> holds_at s (fst x) p m.
Definition marks (lockmethodid : Z) (allLocks : bool) (marked : list (LOCKTAG * Z)) (tag : LOCKTAG) (m : Z) : Prop :=
  locktag_lockmethodid tag = lockmethodid /\ exists mark, (tag, mark) ∈ marked /\ (allLocks = true \/ Z.testbit mark m = true).

Lemma moved_nowait s s' p drop ws : moved s s' p drop ws -> (forall tag m, ~ waits_at s p tag m) -> forall tag m, ~ waits_at s' p tag m.
Proof. intros Hmv Hn tag m [H _]%(mv_waits _ _ _ _ _ Hmv). by apply (Hn tag m). Qed.

Lemma moved_own s s' p drop ws : moved s s' p drop ws -> (forall tag m, ~ waits_at s p tag m) ->
  forall tag m, holds_at s' tag p m <-> holds_at s tag p m /\ ~ drop tag m.
Proof.
  intros Hmv Hn tag m. rewrite (mv_holds _ _ _ _ _ Hmv). split.
  - intros [[H1 H2]|[_ H]]; [split; [done|tauto]|by apply Hn in H].
  - intros [H1 H2]. left. split; [done|tauto].
Qed.

(** A waiter that leaves the queue without the lock; [ws] got what they waited for,
    and were woken once each. *)
Record left_queue (s s' : LockState) (p : Z) (ws : list Z) : Prop := {
  lq_sems : unlocked_sems s' = unlocked_sems s ++ ws;
  lq_holds : forall tag q m, holds_at s' tag q m <-> holds_at s tag q m \/ (q ∈ ws /\ waits_at s q tag m);
  lq_waits : forall q tag m, waits_at s' q tag m <-> waits_at s q tag m /\ (q ∉ ws) /\ q <> p;
  lq_were : forall w, w ∈ ws -> w <> p /\ exists tag m, waits_at s w tag m;
  lq_procs : forall q, is_Some (allProcs s !! q) -> is_Some (allProcs s' !! q);
  lq_status : waitStatus <$> allProcs s' !! p = Some STATUS_ERROR;
  lq_once : NoDup ws }.

Lemma lock_ok_mask ps tag pend extra extra' l mask : lock_ok ps tag pend extra l ->
  (0 <= mask /\ forall m', (waiters ps (waitProcs l) m' <> [] -> Z.testbit mask m' = true)
    /\ (Z.testbit mask m' = true -> waiters ps (waitProcs l) m' <> [] \/ m' ∈ extra')) ->
  lock_ok ps tag pend extra' (set_waitmask mask l).
Proof. by intros [] ?; constructor. Qed.

Section Release.
Context {th : LockThread} (Hstream : stream_mode = false).

Lemma clean_up_spec tag t s l p pl wake (Q : unit -> LockState -> Prop) : method_ok t -> valid_tag tag ->
  here s tag [] [] l -> pl ∈ procLocks l -> myProc pl = p -> (forall tag m, ~ waits_at s p tag m) -> needed_ok [p] l ->
  (wake = false -> blocked_ok (allProcs s) l) -> is_Some (allProcs s !! my_proc) ->
  (forall s' ws, table_ok s' -> moved s s' p no_drop ws -> allProcs s' !! p = allProcs s !! p -> Q tt s') ->
  lwp (CleanUpLock t tag p wake) Q s.
Proof.
  intros Ht Htag Hh Hpl Hplp Hnowait Hneed Hwake Hme HQ. pose proof (not_queued _ _ _ _ _ _ Hh Hnowait) as Hq.
  pose proof Hh as [Hrest Hlock Hok Hwaits]. pose proof (lk_shape _ _ _ _ _ Hok) as Hsh. pose proof (sh_nodup _ _ _ _ Hsh) as Hnd.
  unfold CleanUpLock. apply lwp_bind. eapply lwp_get_lock; [done|]. apply lwp_bind.
  eapply lwp_lift; [rewrite (proj2 (find_proclock_Some _ Hnd p pl)) by done; done|].
  pose proof (needed_drop p pl l Hnd Hpl Hplp Hneed) as Hneed1. set (l1 := if holdMask pl =? 0 then _ else l) in *.
  assert (Hl1 : lock_ok (allProcs s) tag [] [] l1 /\ waitProcs l1 = waitProcs l /\ nRequested l1 = nRequested l
    /\ (forall q m, holds_in (procLocks l1) q m <-> holds_in (procLocks l) q m)
    /\ holds_more (procLocks l) (procLocks l1)).
  { unfold l1. destruct (Z.eqb_spec (holdMask pl) 0) as [H0|H0]; [|done].
    assert (Hhold : forall q m, holds_in (delete_proclock p (procLocks l)) q m <-> holds_in (procLocks l) q m).
    { intros q m. rewrite <- Hplp. by apply delete_holds_in. }
    split_and!; [by apply (delete_ok _ _ _ _ _ p pl)|done|done|done|]. intros x m Hx Hb. exists x. split_and!; [|done..].
    apply elem_of_delete. split; [done|]. intros E. assert (x = pl) as -> by (apply (same_proclock _ Hnd); [done|done|congruence]).
    by rewrite H0, Z.bits_0 in Hb. }
  destruct Hl1 as (Hok1 & Hq1 & Hn1 & Hhold1 & Hmore1). apply lwp_bind, lwp_modify.
  set (s1 := set_locks _ s). assert (Hh1 : here s1 tag [] [] l1) by (by eapply here_lock).
  assert (Hmv1 : moved s s1 p no_drop []).
  { eapply moved_drop; [|apply (moved_lock s tag l l1 p (fun _ => False)); [done|]]; [unfold no_drop; tauto|].
    intros q m. rewrite Hhold1. tauto. }
  assert (Hfinal : forall s' ws, table_ok s' -> moved s1 s' p no_drop ws -> allProcs s' !! p = allProcs s !! p -> Q tt s').
  { intros s' ws Htab Hmv. apply (HQ s' ws); [done|]. eapply moved_drop; [|by eapply (moved_trans s s1 s' p _ _ []); [done|done|]].
    unfold no_drop. tauto. }
  destruct (Z.eqb_spec (nRequested l1) 0) as [H0|H0].
  - destruct (no_requests _ _ _ _ _ Hok1 H0) as [Hempty Hnone]. pose proof Hh1 as [Hr1 Hl1 _ Hw1]. apply lwp_modify, (Hfinal _ []).
    + apply (table_join_none _ tag); [by apply rest_delete|apply lookup_delete_eq|]. rewrite Hempty in Hw1. done.
    + by apply (moved_delete s1 tag l1).
    + done.
  - destruct wake.
    + unfold ProcLockWakeup. apply lwp_bind. eapply lwp_get_lock; [apply lookup_insert_eq|].
      apply (wakeup_loop_spec Hstream tag t Ht (waitProcs l1) s1 l1 [] 0); [done|done| |done| |done|].
      * intros a w b E. symmetry in E. apply app_eq_nil in E as [_ E]. done.
      * intros m. rewrite Z.bits_0. split; [done|]. by intros H.
      * intros s' l' ws Hh' Hwoke Hblocked. pose proof Hh' as [Hr' Hl' Hok' Hw']. apply (Hfinal s' ws).
        -- apply (table_join s' tag l'); [done|done| |done].
           constructor; [done|by apply (wk_needed _ _ _ _ _ _ Hwoke)|done|by rewrite (wk_requests _ _ _ _ _ _ Hwoke)|done].
        -- by eapply woke_moved.
        -- rewrite (wk_procs _ _ _ _ _ _ Hwoke), decide_False; [done|]. intros Hp%(wk_waited _ _ _ _ _ _ Hwoke). by rewrite Hq1 in Hp.
    + apply lwp_ret, (Hfinal s1 []); [|by apply moved_same|done]. pose proof Hh1 as [Hr1 Hl1 _ Hw1].
      apply (table_join s1 tag l1); [done|done| |done]. constructor; [done|done| |done|done].
      intros a w b E. rewrite Hq1 in E. eapply blocked_more; [by apply (Hwake eq_refl a w b)|done|done|done].
Qed.

Lemma dropped_here s tag l l' p drop wake : here s tag [] [] l -> dropped (allProcs s) tag l l' p drop wake ->
  here (set_locks (<[tag := l']> (LockMethodLockHash s)) s) tag [] [] l'.
Proof. intros Hh [H1 H2 _ _ _ _]. by eapply here_lock. Qed.

(** UnGrantLock, some times, and CleanUpLock. *)
Lemma drop_clean_spec tag t s l l' p pl drop wake (Q : unit -> LockState -> Prop) : method_ok t -> valid_tag tag ->
  here s tag [] [] l -> lock_good (allProcs s) tag l -> pl ∈ procLocks l -> myProc pl = p -> (forall tag m, ~ waits_at s p tag m) ->
  dropped (allProcs s) tag l l' p drop wake -> is_Some (allProcs s !! my_proc) ->
  (forall s' ws, table_ok s' -> moved s s' p (fun tag' m => tag' = tag /\ drop m) ws -> allProcs s' !! p = allProcs s !! p -> Q tt s') ->
  lwp (put_lock tag l';; CleanUpLock t tag p wake) Q s.
Proof.
  intros Ht Htag Hh Hgood Hpl Hp Hnowait Hd Hme HQ. apply lwp_bind, lwp_modify. set (s1 := set_locks _ s).
  assert (Hh1 : here s1 tag [] [] l') by (by eapply dropped_here).
  destruct (dr_proclock _ _ _ _ _ _ _ Hd pl Hpl Hp) as (pl' & Hpl' & Hp' & _).
  assert (Hmv : moved s s1 p (fun tag' m => tag' = tag /\ drop m) []).
  { apply (moved_lock s tag l l' p drop); [apply (hr_lock _ _ _ _ _ Hh)|apply (dr_holds _ _ _ _ _ _ _ Hd)]. }
  apply (clean_up_spec tag t s1 l' p pl' wake); try done.
  - apply (dr_needed _ _ _ _ _ _ _ Hd). intros x Hx. destruct (lg_needed _ _ _ Hgood x Hx) as [?|[?|[]%elem_of_nil]]; [by left|by right; left].
  - intros Hw. apply (dr_blocked _ _ _ _ _ _ _ Hd Hw), (lg_blocked _ _ _ Hgood).
  - intros s' ws Htab Hmv' Hsame. apply (HQ s' ws); [done| |done].
    eapply moved_drop; [|by eapply (moved_trans s s1 s' p _ _ []); [done|done|done]]. unfold no_drop. tauto.
Qed.

Lemma valid_method tag : valid_tag tag -> exists t, GetLocksMethodTable tag = Done t /\ method_ok t.
Proof. unfold GetLocksMethodTable. intros [-> | ->]; [by exists default_lockmethod|by exists user_lockmethod]. Qed.

Lemma table_here s tag l : table_ok s -> LockMethodLockHash s !! tag = Some l -> here s tag [] [] l /\ lock_good (allProcs s) tag l.
Proof.
  intros Htab Hl. destruct (table_split s tag Htab) as [Hr H]. rewrite Hl in H. destruct H as [Hg Hw].
  split; [|done]. constructor; [done|done|apply (lg_ok _ _ _ Hg)|done].
Qed.

Lemma mask_some mask : mask_ok mask -> mask <> 0 -> exists m, Z.testbit mask m = true.
Proof. intros [H0 _] Hn. exists (Z.log2 mask). apply Z.bit_log2. lia. Qed.

(** The PROCLOCK of a process that does not wait holds something. *)
Lemma proclock_holds s tag l pl : table_ok s -> LockMethodLockHash s !! tag = Some l -> pl ∈ procLocks l ->
  (forall tag m, ~ waits_at s (myProc pl) tag m) -> exists m, holds_at s tag (myProc pl) m.
Proof.
  intros Htab Hl Hpl Hnowait. destruct (table_here s tag l Htab Hl) as [Hh Hg]. pose proof (not_queued _ _ _ _ _ _ Hh Hnowait) as Hq.
  pose proof (lk_shape _ _ _ _ _ (hr_ok _ _ _ _ _ Hh)) as Hsh.
  destruct (lg_needed _ _ _ Hg pl Hpl) as [Hn|[?|[]%elem_of_nil]]; [|done].
  destruct (mask_some (holdMask pl)) as (m & Hm); [by apply (sh_masks _ _ _ _ Hsh)|done|]. exists m, l. split; [done|]. by exists pl.
Qed.

Lemma holds_at_proclock s tag l pl m : LockMethodLockHash s !! tag = Some l -> NoDup (myProc <$> procLocks l) -> pl ∈ procLocks l ->
  holds_at s tag (myProc pl) m <-> Z.testbit (holdMask pl) m = true.
Proof.
  intros Hl Hnd Hpl. split.
  - intros (x & Hx & y & Hy & E & Hb). assert (x = l) as -> by congruence.
    assert (y = pl) as -> by (by apply (same_proclock _ Hnd)). done.
  - intros Hb. exists l. split; [done|]. by exists pl.
Qed.

Lemma release_spec tag m p s : table_ok s -> valid_tag tag -> mode_ok m -> (forall tag m, ~ waits_at s p tag m) ->
  is_Some (allProcs s !! my_proc) ->
  lpe (LockReleaseShared tag m p)
    (fun b s' => if b : bool then holds_at s tag p m /\ table_ok s' /\ allProcs s' !! p = allProcs s !! p
                   /\ exists ws, moved s s' p (fun tag' m' => tag' = tag /\ m' = m) ws
                 else s' = s /\ ~ holds_at s tag p m /\ exists m', holds_at s tag p m')
    (fun c => c = ERRCODE_DATA_CORRUPTED /\ forall m', ~ holds_at s tag p m') s.
Proof.
  intros Htab Htag Hm Hnowait Hme. unfold LockReleaseShared. destruct (valid_method tag Htag) as (t & Et & Ht).
  apply lpe_bind. eapply lwp_lift; [done|]. apply lpe_bind, lwp_get_state. destruct (LockMethodLockHash s !! tag) as [l|] eqn:Hl.
  2:{ apply lpe_report. split; [done|]. intros m' (l & Hl' & _). congruence. }
  destruct (table_here s tag l Htab Hl) as [Hh Hg]. pose proof (hr_ok _ _ _ _ _ Hh) as Hok. pose proof (lk_shape _ _ _ _ _ Hok) as Hsh.
  pose proof (sh_nodup _ _ _ _ Hsh) as Hnd.
  destruct (find_proclock p (procLocks l)) as [pl|] eqn:Hf.
  2:{ apply lpe_report. split; [done|]. intros m' (x & Hx & pl & Hpl & Hp & _). assert (x = l) as -> by congruence.
      apply (find_proclock_None _ p) in Hf. apply Hf. apply list_elem_of_fmap. by exists pl. }
  apply find_proclock_Some in Hf as [Hpl Hp]; [|done]. rewrite (holder_bit pl m) by (unfold mode_ok in Hm; lia).
  pose proof (holds_at_proclock s tag l pl m Hl Hnd Hpl) as Hhold. rewrite Hp in Hhold.
  destruct (Z.testbit (holdMask pl) m) eqn:Hb; cbn [negb].
  - destruct (drop_one (allProcs s) tag t l p pl m) as (wake & l' & Hrun & Hd & _); [done..|by eapply not_queued|done|done|].
    apply lpe_bind. eapply lwp_lift; [done|]. apply (lpe_assoc (put_lock tag l') _ (mret true)), lpe_bind.
    apply (drop_clean_spec tag t s l l' p pl (fun m' => m' = m) wake); try done.
    intros s' ws H1 H2 H3. apply lpe_lwp, lwp_ret. split_and!; [by apply Hhold|done|done|by exists ws].
  - apply lpe_lwp, lwp_ret. split; [done|]. split; [intros H; by apply Hhold in H|].
    rewrite <- Hp in Hnowait |- *. by eapply proclock_holds.
Qed.

Lemma release_proclock_spec tag t allLocks p mark s (Q : unit -> LockState -> Prop) : table_ok s -> method_ok t -> valid_tag tag ->
  (forall tag m, ~ waits_at s p tag m) -> is_Some (allProcs s !! my_proc) -> 0 <= mark -> (exists m, holds_at s tag p m) ->
  (forall m, allLocks = false -> Z.testbit mark m = true -> holds_at s tag p m) ->
  (forall s' ws, table_ok s' -> moved s s' p (fun tag' m => tag' = tag /\ (allLocks = true \/ Z.testbit mark m = true)) ws ->
     allProcs s' !! p = allProcs s !! p -> Q tt s') ->
  lwp (release_proclock t allLocks p tag mark) Q s.
Proof.
  intros Htab Ht Htag Hnowait Hme Hmark0 (m0 & l & Hl & pl & Hpl & Hp & Hb0) Hmark HQ.
  destruct (table_here s tag l Htab Hl) as [Hh Hg]. pose proof (hr_ok _ _ _ _ _ Hh) as Hok. pose proof (lk_shape _ _ _ _ _ Hok) as Hsh.
  pose proof (sh_nodup _ _ _ _ Hsh) as Hnd. destruct (sh_masks _ _ _ _ Hsh pl Hpl) as [Hmask0 Hmask].
  unfold release_proclock. apply lwp_bind. eapply lwp_get_lock; [done|]. apply lwp_bind.
  eapply lwp_lift; [rewrite (proj2 (find_proclock_Some _ Hnd p pl)) by done; done|].
  assert (Hhold : forall m, holds_at s tag p m <-> Z.testbit (holdMask pl) m = true) by (intros m; rewrite <- Hp; by apply (holds_at_proclock s tag l)).
  set (releaseMask := if allLocks then holdMask pl else mark).
  assert (Hsub : forall m, Z.testbit releaseMask m = true -> Z.testbit (holdMask pl) m = true).
  { intros m. unfold releaseMask. destruct allLocks; [done|]. intros Hb. by apply Hhold, Hmark. }
  apply lwp_bind. eapply lwp_lift; [|].
  { instantiate (1 := releaseMask). unfold releaseMask. destruct allLocks; [done|]. by rewrite (proj2 (land_lnot mark _ Hmark0) Hsub). }
  assert (Hdrop : forall m, holds_at s tag p m -> Z.testbit releaseMask m = true <-> allLocks = true \/ Z.testbit mark m = true).
  { intros m Hm%Hhold. unfold releaseMask. destruct allLocks; [tauto|]. split; [by right|]. by intros [?|?]. }
  assert (Hn0 : holdMask pl <> 0) by (intros E; by rewrite E, Z.bits_0 in Hb0).
  rewrite (proj2 (Z.eqb_neq _ _) Hn0). destruct (Z.eqb_spec releaseMask 0) as [Hr|Hr]; cbn [andb negb].
  - apply lwp_ret, (HQ s []); [done| |done]. eapply moved_drop; [|by apply (moved_same s s p)]. unfold no_drop.
    intros tag' m Hm. split; [done|]. intros [-> Hd]. apply (Hdrop m Hm) in Hd. by rewrite Hr, Z.bits_0 in Hd.
  - destruct Ht as [Hnum Hconf]. rewrite Hnum. change (Z.to_nat 8) with 8%nat.
    destruct (release_modes_spec (allProcs s) tag t releaseMask p (conj Hnum Hconf) 8 1 l pl) as (wake & l' & Hrun & Hd);
      [done|done|done|by eapply not_queued|lia|lia|by intros m _; apply Hsub|].
    apply lwp_bind. eapply lwp_lift; [done|]. cbn [fst snd].
    apply (drop_clean_spec tag t s l l' p pl _ wake _ (conj Hnum Hconf) Htag Hh Hg Hpl Hp Hnowait Hd Hme).
    intros s' ws Htab' Hmv Hsame. apply (HQ s' ws); [done| |done].
    eapply moved_drop; [|done]. intros tag' m Hm. cbn. split; intros [-> Hx]; (split; [done|]).
    + apply (Hdrop m Hm). tauto.
    + apply (Hdrop m Hm) in Hx. split; [|done]. apply Hhold, Hmask in Hm. unfold mode_ok in Hm. lia.
Qed.

Lemma release_scan_spec t lockmethodid allLocks p : method_ok t -> lockmethodid = DEFAULT_LOCKMETHOD \/ lockmethodid = USER_LOCKMETHOD ->
  forall marked s (Q : unit -> LockState -> Prop), table_ok s ->
  (forall tag m, ~ waits_at s p tag m) -> is_Some (allProcs s !! my_proc) ->
  NoDup (fst <$> marked) -> (forall x, x ∈ marked -> mark_ok s p lockmethodid allLocks x) ->
  (forall s' ws, table_ok s' -> moved s s' p (marks lockmethodid allLocks marked) ws -> allProcs s' !! p = allProcs s !! p -> Q tt s') ->
  lwp (release_scan t lockmethodid allLocks p marked) Q s.
Proof.
  intros Ht Hid. induction marked as [|[tag mark] marked IH]; intros s Q Htab Hnowait Hme Hnd Hok HQ; cbn [release_scan].
  { apply lwp_ret, (HQ s []); [done| |done]. eapply moved_drop; [|by apply (moved_same s s p)]. unfold no_drop, marks.
    intros tag m _. split; [done|]. by intros (_ & mark & Hin%elem_of_nil & _). }
  rewrite fmap_cons in Hnd. apply NoDup_cons in Hnd as [Hnew Hnd]. cbn in Hnew.
  assert (Hrest : forall s1 drop ws1, table_ok s1 -> moved s s1 p drop ws1 -> allProcs s1 !! p = allProcs s !! p ->
    (forall tag' m, holds_at s tag' p m -> drop tag' m <-> marks lockmethodid allLocks [(tag, mark)] tag' m) ->
    lwp (release_scan t lockmethodid allLocks p marked) Q s1).
  { intros s1 drop ws1 Htab1 Hmv1 Hsame1 Hdrop1.
    assert (Hkeep : forall tag' m, tag' ∈ fst <$> marked -> holds_at s1 tag' p m <-> holds_at s tag' p m).
    { intros tag' m Hin. rewrite (moved_own _ _ _ _ _ Hmv1 Hnowait). split; [tauto|]. intros Hh. split; [done|].
      intros Hd%(Hdrop1 tag' m Hh). destruct Hd as (_ & mark' & [= -> _]%list_elem_of_singleton & _). done. }
    apply IH; [done|by eapply moved_nowait|by apply (mv_procs _ _ _ _ _ Hmv1)|done| |].
    - intros x Hx Hm. destruct (Hok x ltac:(by right) Hm) as (H0 & (m & Hh) & Hs).
      assert (Hin : fst x ∈ fst <$> marked) by (apply list_elem_of_fmap; by exists x).
      split; [done|]. split; [exists m; by apply Hkeep|]. intros m' Ha Hb. by apply Hkeep, Hs.
    - intros s' ws Htab' Hmv Hsame. apply (HQ s' (ws1 ++ ws)); [done| |congruence].
      eapply moved_drop; [|by eapply moved_trans]. intros tag' m Hh. cbn. rewrite (Hdrop1 tag' m Hh). unfold marks.
      setoid_rewrite elem_of_cons. setoid_rewrite elem_of_nil. split.
      + intros [(? & mk & [?|[]] & ?)|(? & mk & ? & ?)]; (split; [done|]; exists mk; tauto).
      + intros (? & mk & [?|?] & ?); [left|right]; (split; [done|]; exists mk; tauto). }
  apply lwp_bind. destruct (Z.eqb_spec (locktag_lockmethodid tag) lockmethodid) as [E|E].
  - destruct (Hok (tag, mark) ltac:(by left) E) as (H0 & Hex & Hs). cbn in H0, Hex, Hs.
    apply (release_proclock_spec tag t allLocks p mark); try done; [by unfold valid_tag; rewrite E|].
    intros s1 ws1 Htab1 Hmv1 Hsame1. apply (Hrest _ _ _ Htab1 Hmv1 Hsame1). intros tag' m Hh. unfold marks. split.
    + intros [-> Hx]. split; [done|]. exists mark. split; [by left|done].
    + intros (_ & mk & [= -> ->]%list_elem_of_singleton & Hx). done.
  - apply lwp_ret, (Hrest s no_drop []); [done|by apply moved_same|done|]. intros tag' m _. unfold no_drop, marks. split; [done|].
    intros (Hm & mk & [= -> _]%list_elem_of_singleton & _). done.
Qed.

Lemma remove_spec tag p proc s l (Q : unit -> LockState -> Prop) : here s tag [] [] l -> valid_tag tag -> needed_ok [p] l ->
  p ∈ waitProcs l -> allProcs s !! p = Some proc -> is_Some (allProcs s !! my_proc) ->
  (forall s' ws, table_ok s' -> left_queue s s' p ws -> Q tt s') ->
  lwp (RemoveFromWaitQueue p) Q s.
Proof.
  intros Hh Htag Hneed Hp Hproc Hme HQ. pose proof Hh as [Hrest Hl Hok Hwaits]. pose proof (lk_shape _ _ _ _ _ Hok) as Hsh.
  destruct (sh_waiting _ _ _ _ Hsh p Hp) as (x & Hwt). pose proof Hwt as [Hx Hxl _ Hm _ (pl & Hpl & Hplp & _) _].
  assert (x = proc) as -> by congruence. destruct (valid_method tag Htag) as (t & Et & Ht).
  set (proc' := clear_wait STATUS_ERROR proc). set (m := waitLockMode proc) in *. set (ps' := <[p := proc']> (allProcs s)).
  pose proof (unwait_ok _ _ _ p proc proc' Hok Hp Hproc eq_refl) as Hun. fold m ps' in Hun.
  destruct (take_back_ok _ _ _ _ _ Hun Hm) as (r & Hr & Hrm & Hok2). cbn [set_waitprocs procLocks waitProcs grantMask waitMask granted nGranted requested nRequested] in *.
  unfold RemoveFromWaitQueue. apply lwp_bind. eapply lwp_get_proc; [done|]. apply lwp_bind. eapply lwp_lift; [by rewrite Hxl|].
  apply lwp_bind. eapply lwp_lift; [done|]. apply lwp_bind. eapply lwp_get_lock; [done|]. fold m.
  apply lwp_bind. eapply lwp_lift; [done|]. apply lwp_bind. eapply lwp_lift; [by rewrite Hrm|].
  apply lwp_bind. eapply lwp_lift; [by rewrite (lk_granted _ _ _ _ _ Hok m Hm)|].
  set (mask := if _ =? _ then _ else _). set (l2 := MkLock _ mask _ _ _ _ _ _).
  assert (Hok' : lock_ok ps' tag [] [] l2).
  { apply (lock_ok_mask _ _ _ _ [] _ mask Hok2). apply (settle_mask _ _ [m]); [done|by intros y ->%list_elem_of_singleton|apply (lk_waitmask _ _ _ _ _ Hok2)|].
    cbn [waitProcs]. rewrite Z.eqb_eq, <- zlen_zero. lia. }
  apply lwp_bind, lwp_modify. apply lwp_bind, lwp_modify. set (s2 := set_procs _ _).
  assert (Hh2 : here s2 tag [] [] l2).
  { constructor; [|apply lookup_insert_eq|done|].
    - apply (rest_proc _ tag p proc proc'); [by apply rest_lock|done|done|by right|by right].
    - intros q y. cbn. destruct (decide (p = q)) as [<-|Hne]; [by rewrite lookup_insert_eq; intros [= <-]|].
      rewrite lookup_insert_ne by done. intros Hq Hql. apply elem_of_remove. split; [by apply (Hwaits q y)|congruence]. }
  assert (Hwaits2 : forall q tag' m', waits_at s2 q tag' m' <-> waits_at s q tag' m' /\ q <> p).
  { intros q tag' m'. unfold waits_at. cbn. destruct (decide (p = q)) as [<-|Hne].
    - rewrite lookup_insert_eq. split; [by intros (y & [= <-] & ? & _)|tauto].
    - rewrite lookup_insert_ne by done. split; [intros ?; split; [done|congruence]|tauto]. }
  assert (Hholds2 : forall tag' q m', holds_at s2 tag' q m' <-> holds_at s tag' q m').
  { intros tag' q m'. unfold holds_at. cbn. destruct (decide (tag = tag')) as [<-|Hne]; [|by rewrite lookup_insert_ne].
    rewrite lookup_insert_eq, Hl. split; intros (y & [= <-] & Hy); [by exists l|by exists l2]. }
  apply (clean_up_spec tag t s2 l2 p pl true); try done.
  - intros tag' m' Hw%Hwaits2. tauto.
  - intros y Hy. destruct (Hneed y Hy) as [?|[Hin|?]]; [by left| |by right; right]. destruct (decide (myProc y = p)) as [E|E].
    + right; right. rewrite E. by left.
    + right; left. by apply elem_of_remove.
  - cbn. destruct (decide (p = my_proc)) as [<-|Hne]; [rewrite lookup_insert_eq; eauto|by rewrite lookup_insert_ne].
  - intros s' ws Htab [M1 M2 M3 M4 M6 M5] Hsame. apply (HQ s' ws); [done|]. constructor.
    + done.
    + intros tag' q m'. rewrite M2, Hholds2, Hwaits2. unfold no_drop. split.
      * intros [[? _]|[? [? _]]]; [by left|by right].
      * intros [?|[Hq ?]]; [left; split; [done|tauto]|]. right. split_and!; [done|done|]. intros ->.
        destruct (M4 p Hq) as (tag2 & m2 & Hw%Hwaits2). tauto.
    + intros q tag' m'. rewrite M3, Hwaits2. tauto.
    + intros w Hw. destruct (M4 w Hw) as (tag2 & m2 & [Hw2 Hne]%Hwaits2). split; [done|]. by exists tag2, m2.
    + intros q Hq. apply M5. cbn. destruct (decide (p = q)) as [<-|Hne]; [rewrite lookup_insert_eq; eauto|by rewrite lookup_insert_ne].
    + rewrite Hsame. cbn. by rewrite lookup_insert_eq.
    + done.
Qed.
End Release.
