(* ===== verification/LockAcquire.v ===== *)
(** [LockAcquire] on the lock table (Lock.v) keeps [table_ok] (LockInv.v):
    [SetupLockInTable], the place in the queue and [ProcSleep], the grant and
    the request given up; [acquire_post] says what each result means. *)
From S2P Require Import Prelude Lock LockInv LockWait.
From stdpp Require Import list gmap.
#[local] Open Scope Z_scope.

(** ** LockAcquire *)

Lemma leader_proclock s tag pls q pl : shape (allProcs s) tag pls q -> pl ∈ pls -> groupLeader pl = leader s (myProc pl).
Proof. intros Hsh Hpl. destruct (sh_leader _ _ _ _ Hsh pl Hpl) as (proc & Hproc & ->). unfold leader. by rewrite Hproc. Qed.

Lemma held_conflict_holder s tag q l p m : shape (allProcs s) tag (procLocks l) q -> LockMethodLockHash s !! tag = Some l ->
  held_conflict (procLocks l) (leader s p) m <-> conflicting_holder s tag p m.
Proof.
  intros Hsh Hl. split.
  - intros (x & m' & Hx & Hg & Hb & Hc). exists (myProc x), m'. rewrite <- (leader_proclock _ _ _ _ _ Hsh Hx).
    split_and!; [|done|done]. exists l. split; [done|]. by exists x.
  - intros (y & m' & (l0 & Hl0 & x & Hx & <- & Hb) & Hg & Hc). assert (l0 = l) as -> by congruence. exists x, m'.
    rewrite (leader_proclock _ _ _ _ _ Hsh Hx). done.
Qed.

(** The request has been entered. *)
Record entered (s s' : LockState) (tag : LOCKTAG) (p m : Z) (l : LOCK) (pl : PROCLOCK) : Prop := {
  en_here : here s' tag [m] [] l;
  en_procs : allProcs s' = allProcs s;
  en_sems : unlocked_sems s' = unlocked_sems s;
  en_holds : forall tag' q m', holds_at s' tag' q m' <-> holds_at s tag' q m';
  en_needed : needed_ok [p] l;
  en_blocked : blocked_ok (allProcs s) l;
  en_used : nRequested l <> 0;
  en_proclock : pl ∈ procLocks l /\ myProc pl = p /\ Z.testbit (holdMask pl) m = false }.

Lemma holds_at_lock s tag l l' : LockMethodLockHash s !! tag = Some l \/ (LockMethodLockHash s !! tag = None /\ l = new_lock) ->
  (forall q m, holds_in (procLocks l') q m <-> holds_in (procLocks l) q m) ->
  forall tag' q m, holds_at (set_locks (<[tag := l']> (LockMethodLockHash s)) s) tag' q m <-> holds_at s tag' q m.
Proof.
  intros Hl Hsame tag' q m. unfold holds_at. cbn. destruct (decide (tag = tag')) as [<-|Hne]; [|by rewrite lookup_insert_ne].
  rewrite lookup_insert_eq. destruct Hl as [->|[-> ->]].
  - split; intros (y & [= <-] & Hy); [exists l|exists l']; (split; [done|]); by apply Hsame.
  - split; [|by intros (y & ? & _)]. intros (y & [= <-] & Hy%Hsame). by destruct Hy as (x & Hx%elem_of_nil & _).
Qed.

Lemma set_locks_id s : set_locks (LockMethodLockHash s) s = s.
Proof. by destruct s. Qed.

Lemma needed_weaken (l : LOCK) idle : needed_ok [] l -> needed_ok idle l.
Proof. intros H x Hx. destruct (H x Hx) as [?|[?|[]%elem_of_nil]]; [by left|by right; left]. Qed.

Lemma setup_spec tag p proc m rl rp s : table_ok s -> valid_tag tag -> mode_ok m -> allProcs s !! p = Some proc ->
  (forall tag m, ~ waits_at s p tag m) ->
  lpe (SetupLockInTable p tag m rl rp)
    (fun b s' => if b : bool then exists l pl, entered s s' tag p m l pl else s' = s /\ rl && rp = false)
    (fun c => c = ERRCODE_LOCK_NOT_AVAILABLE /\ holds_at s tag p m) s.
Proof.
  intros Htab Htag Hm Hproc Hnowait. unfold SetupLockInTable. apply lpe_bind, lwp_get_state.
  destruct (negb rl && bool_decide (LockMethodLockHash s !! tag = None)) eqn:Hroom.
  { apply lpe_lwp, lwp_ret. split; [done|]. by apply andb_true_iff in Hroom as [->%negb_true_iff _]. }
  set (l := default new_lock (LockMethodLockHash s !! tag)).
  assert (Hcase : (LockMethodLockHash s !! tag = Some l /\ nRequested l <> 0) \/ (LockMethodLockHash s !! tag = None /\ l = new_lock)).
  { unfold l. destruct (LockMethodLockHash s !! tag) as [l0|] eqn:E; [left|by right]. split; [done|]. by apply (lg_used _ _ _ (tb_locks _ Htab tag l0 E)). }
  assert (Hl : lock_ok (allProcs s) tag [] [] l /\ needed_ok [] l /\ blocked_ok (allProcs s) l /\ rest_ok s tag /\ waits_here s tag (waitProcs l)).
  { destruct (table_split s tag Htab) as [Hr H]. destruct Hcase as [[E _]|[E ->]]; rewrite E in H.
    - destruct H as [[? ? ? _ _] ?]. done.
    - split_and!; [apply new_lock_ok|by intros x Hx%elem_of_nil|by intros [|? ?] w b ?|done|done]. }
  destruct Hl as (Hok & Hneed & Hblock & Hrest & Hwaits). pose proof (lk_shape _ _ _ _ _ Hok) as Hsh. pose proof (sh_nodup _ _ _ _ Hsh) as Hnd.
  apply lpe_bind. eapply lwp_get_proc; [done|].
  destruct (find_proclock p (procLocks l)) as [pl|] eqn:Hf.
  - apply find_proclock_Some in Hf as [Hpl Hp]; [|done].
    destruct (request_ok _ _ l m Hok Hm) as (l' & Hrun & Hok' & Hpls & Hq & Hwm & Hn). apply lpe_bind. eapply lwp_lift; [done|].
    apply lpe_bind, lwp_modify. rewrite holder_bit by (unfold mode_ok in Hm; lia).
    destruct Hcase as [[E _]|[E El]]; [|rewrite El in Hpl; by apply elem_of_nil in Hpl].
    destruct (Z.testbit (holdMask pl) m) eqn:Hb.
    + apply lpe_report. split; [done|]. exists l. split; [done|]. by exists pl.
    + apply lpe_lwp, lwp_ret. exists l', pl. constructor; try done.
      * constructor; [by apply rest_lock|apply lookup_insert_eq|done|]. by rewrite Hq.
      * apply (holds_at_lock s tag l); [by left|]. by rewrite Hpls.
      * apply needed_weaken. intros x. rewrite Hpls, Hq. apply Hneed.
      * intros a w b. rewrite Hpls, Hq. apply Hblock.
      * destruct (requested_counts _ _ _ _ _ Hok). lia.
      * by rewrite Hpls.
  - destruct rp; cbn [negb].
    + apply find_proclock_None in Hf. pose proof (add_ok _ _ _ _ l p proc Hok Hproc Hf) as Hadd.
      change (default p (lockGroupLeader proc)) with (leader_of p proc). set (pl := MkProcLock p (leader_of p proc) 0) in *.
      destruct (request_ok _ _ _ m Hadd Hm) as (l' & Hrun & Hok' & Hpls & Hq & Hwm & Hn). apply lpe_bind. eapply lwp_lift; [done|].
      apply lpe_bind, lwp_modify, lpe_lwp, lwp_ret. exists l', pl. cbn [procLocks waitProcs set_proclocks nRequested] in *.
      assert (Hin : forall x, x ∈ procLocks l' <-> x ∈ procLocks l \/ x = pl).
      { intros x. by rewrite Hpls, elem_of_app, list_elem_of_singleton. }
      constructor; try done.
      * constructor; [by apply rest_lock|apply lookup_insert_eq|done|]. by rewrite Hq.
      * apply (holds_at_lock s tag l); [destruct Hcase as [[? _]|?]; [by left|by right]|]. intros q m'. split.
        -- intros (x & [Hx|Hx]%Hin & Hxq & Hb); [by exists x|]. subst x. cbn in Hb. by rewrite Z.bits_0 in Hb.
        -- intros (x & Hx & Hxq & Hb). exists x. split; [apply Hin; by left|done].
      * intros x [Hx|Hx]%Hin; [|subst x; right; right; by left]. rewrite Hq. by apply (needed_weaken l [p] Hneed).
      * intros a w b. rewrite Hq. intros E. eapply blocked_more; [by apply (Hblock a w b)|done|done|].
        intros x m' Hx Hb. exists x. split_and!; [apply Hin; by left|done..].
      * destruct (requested_counts _ _ _ _ _ Hok). lia.
      * split_and!; [apply Hin; by right|done|apply Z.bits_0].
    + apply lpe_bind. destruct Hcase as [[E Hn]|[E El]].
      * rewrite (proj2 (Z.eqb_neq _ _) Hn). apply lwp_ret, lpe_lwp, lwp_ret. split; [done|by rewrite andb_false_r].
      * rewrite El. cbn [nRequested new_lock Z.eqb]. apply lwp_modify, lpe_lwp, lwp_ret. split; [|by rewrite andb_false_r].
        rewrite delete_id by done. apply set_locks_id.
Qed.

Lemma here_redist s tag pend extra l : here s tag pend extra l -> redist_ok s.
Proof. intros [[_ _ _ H] _ _ _]. exact H. Qed.

Section Acquire.
Context {th : LockThread} (Hstream : stream_mode = false).
Context (tag : LOCKTAG) (t : LockMethodData) (Htag : valid_tag tag) (Ht : method_ok t) (m : Z) (Hm : mode_ok m).
Let p : Z := my_proc.

(** The check for the running process. *)
Lemma check_here s l pl pend extra Q : here s tag pend extra l -> is_Some (allProcs s !! p) -> pl ∈ procLocks l -> myProc pl = p ->
  (forall st s', same_table s s' -> verdict st (held_conflict (procLocks l) (leader s p) m) -> Q st s') ->
  lwp (LockCheckConflicts t m l p) Q s.
Proof.
  intros Hh [me Hme] Hpl Hp HQ. pose proof (hr_ok _ _ _ _ _ Hh) as Hok. pose proof (lk_shape _ _ _ _ _ Hok) as Hsh.
  apply (check_spec Hstream (allProcs s) (rs_groups _ _ (hr_rest _ _ _ _ _ Hh)) tag pend extra l Hok p pl Hpl Hp me Hme); try done.
  - by eapply here_redist.
  - intros st s' Hss Hv. apply HQ; [done|]. by rewrite (leader_proclock s _ _ _ pl Hsh Hpl), Hp in Hv.
Qed.

Definition in_queue_conflict (s : LockState) (q : list Z) : Prop := exists w, w ∈ q /\ conflict m (waitmode (allProcs s) w) = true.

Lemma waiting_redistribution_spec s (q : list Z) (Q : wait_status -> LockState -> Prop) : (forall w, w ∈ q -> is_Some (allProcs s !! w)) ->
  (forall st s', same_table s s' -> st <> STATUS_OK -> Q st s') -> lwp (waiting_redistribution q) Q s.
Proof.
  intros Hin HQ. induction q as [|w q IH]; cbn [waiting_redistribution]; [by apply lwp_ret, HQ|].
  destruct (Hin w ltac:(by left)) as [proc Hproc]. apply lwp_bind. unfold IsOtherProcRedistribution. apply lwp_bind.
  eapply lwp_get_proc; [done|]. apply lwp_ret. case_match.
  - apply lwp_bind, lwp_modify, lwp_ret, HQ; [|done]. constructor; [done..|]. intros _ q' [= <-]. by exists proc.
  - apply IH. intros v Hv. apply Hin. by right.
Qed.

Lemma acquire_status_spec s l pl pend extra Q : here s tag pend extra l -> is_Some (allProcs s !! p) -> pl ∈ procLocks l -> myProc pl = p ->
  extra = [] ->
  (forall st s', same_table s s' -> verdict st (in_queue_conflict s (waitProcs l) \/ held_conflict (procLocks l) (leader s p) m) -> Q st s') ->
  lwp (acquire_status t l m) Q s.
Proof.
  intros Hh Hme Hpl Hp -> HQ. pose proof (hr_ok _ _ _ _ _ Hh) as Hok. pose proof (lk_shape _ _ _ _ _ Hok) as Hsh.
  destruct (lk_waitmask _ _ _ _ _ Hok) as [Hw0 Hw].
  assert (Hmeet : Z.land (znth LockConflicts m) (waitMask l) <> 0 <-> in_queue_conflict s (waitProcs l)).
  { rewrite conflicts_meet by done. split.
    - intros (m' & Hc & [Hb|Hb%elem_of_nil]%Hw); [|done]. apply waiters_some in Hb as (w & Hwq & <-). by exists w.
    - intros (w & Hwq & Hc). exists (waitmode (allProcs s) w). split; [done|]. apply Hw, waiters_some. by exists w. }
  unfold acquire_status. apply lwp_bind. eapply lwp_lift; [by apply conflicts_of_mode|].
  destruct (Z.eqb_spec (Z.land (znth LockConflicts m) (waitMask l)) 0) as [Hz|Hz]; cbn [negb].
  - eapply (check_here s l pl pend []); [done..|]. intros st s' Hss [Hv1 Hv2]. apply HQ; [done|]. split; [|by intros ?; right; auto].
    intros Hst [Hc%Hmeet|Hc]; [done|by apply Hv1].
  - apply Hmeet in Hz. apply lwp_bind, lwp_get_state.
    assert (Hno : forall st s', same_table s s' -> st <> STATUS_OK -> Q st s').
    { intros st s' Hss Hst. apply HQ; [done|]. split; [done|]. intros _. by left. }
    case_match; [|by apply lwp_ret, Hno]. apply waiting_redistribution_spec; [|done]. intros w Hwq.
    destruct (sh_waiting _ _ _ _ Hsh w Hwq) as (x & []). by exists x.
Qed.

(** The grant of the request. *)
Lemma grant_here s l pl : here s tag [m] [] l -> needed_ok [p] l -> blocked_ok (allProcs s) l -> nRequested l <> 0 ->
  (forall tag m, ~ waits_at s p tag m) -> pl ∈ procLocks l -> myProc pl = p -> Z.testbit (holdMask pl) m = false ->
  ~ held_conflict (procLocks l) (leader s p) m ->
  exists l', GrantLock l p m = Done l' /\ let s' := set_locks (<[tag := l']> (LockMethodLockHash s)) s in
    table_ok s' /\ forall tag' q m', holds_at s' tag' q m' <-> holds_at s tag' q m' \/ (tag' = tag /\ q = p /\ m' = m).
Proof.
  intros Hh Hneed Hblock Hused Hnowait Hpl Hp Hb Hno. pose proof (not_queued _ _ _ _ _ _ Hh Hnowait) as Hq.
  pose proof (hr_ok _ _ _ _ _ Hh) as Hok. pose proof (lk_shape _ _ _ _ _ Hok) as Hsh. pose proof (sh_nodup _ _ _ _ Hsh) as Hnd.
  assert (Hm0 : 0 <= m) by (unfold mode_ok in Hm; lia).
  destruct (grant_ok (allProcs s) tag l p pl Hpl Hp m Hm [] Hok Hq) as (l' & Hrun & Hok' & [Hch Hcq] & Hn).
  { by intros x Hx%elem_of_nil. }
  { done. }
  { by rewrite (leader_proclock s _ _ _ pl Hsh Hpl), Hp. }
  exists l'. split; [done|]. cbn zeta. pose proof (here_lock _ _ _ _ _ _ _ _ Hh Hok' Hcq) as Hh'. set (s' := set_locks _ s) in *. split.
  - pose proof Hh' as [Hr' Hl' _ Hw']. apply (table_join s' tag l'); [done|done| |done]. constructor; [done| | |by rewrite Hn|done].
    + intros x. rewrite Hch, Hcq. intros [->|[Hx Hxp]]%(elem_of_update _ Hnd p pl Hpl Hp).
      * left. intros E. assert (Hbit : Z.testbit (holdMask (grant_mode m pl)) m = false) by (rewrite E; apply Z.bits_0).
        cbn in Hbit. by rewrite bit_lor, bool_decide_true, orb_true_r in Hbit.
      * destruct (Hneed x Hx) as [?|[?|?%list_elem_of_singleton]]; [by left|by right; left|done].
    + intros a w b E. rewrite Hcq in E. rewrite Hch. eapply blocked_more; [by apply (Hblock a w b)|done|done|by apply grant_more].
  - intros tag' q m'. unfold holds_at. cbn. destruct (decide (tag = tag')) as [<-|Hne].
    + rewrite lookup_insert_eq, (hr_lock _ _ _ _ _ Hh). pose proof (grant_holds_in _ Hnd p pl m q m' Hpl Hp Hm0) as Hin. rewrite <- Hch in Hin.
      split.
      * intros (y & [= <-] & [Hy|[-> <-]]%Hin); [left; by exists l|by right].
      * intros [(y & [= <-] & Hy)|(_ & -> & ->)]; exists l'; (split; [done|]); apply Hin; [by left|by right].
    + rewrite lookup_insert_ne by done. split; [by left|]. by intros [?|[<- _]].
Qed.

(** The request is given up. *)
Lemma withdraw_here s l pl : here s tag [m] [] l -> needed_ok [p] l -> blocked_ok (allProcs s) l ->
  (forall tag m, ~ waits_at s p tag m) -> pl ∈ procLocks l -> myProc pl = p ->
  in_queue_conflict s (waitProcs l) \/ held_conflict (procLocks l) (leader s p) m ->
  exists l', withdraw l m = Done l' /\ let s' := set_locks (<[tag := l']> (LockMethodLockHash s)) s in
    table_ok s' /\ forall tag' q m', holds_at s' tag' q m' <-> holds_at s tag' q m'.
Proof.
  intros Hh Hneed Hblock Hnowait Hpl Hp Hconf. pose proof (not_queued _ _ _ _ _ _ Hh Hnowait) as Hq.
  pose proof Hh as [Hrest Hl Hok Hwaits]. pose proof (lk_shape _ _ _ _ _ Hok) as Hsh. pose proof (sh_nodup _ _ _ _ Hsh) as Hnd.
  pose proof (needed_drop p pl l Hnd Hpl Hp Hneed) as Hneed1. set (l1 := if holdMask pl =? 0 then _ else l) in *.
  assert (Hl1 : lock_ok (allProcs s) tag [m] [] l1 /\ waitProcs l1 = waitProcs l
    /\ (forall q m, holds_in (procLocks l1) q m <-> holds_in (procLocks l) q m) /\ holds_more (procLocks l) (procLocks l1)).
  { unfold l1. destruct (Z.eqb_spec (holdMask pl) 0) as [H0|H0]; [|done]. split_and!; [by apply (delete_ok _ _ _ _ _ p pl)|done| |].
    - intros q m'. cbn. rewrite <- Hp. by apply delete_holds_in.
    - intros x m' Hx Hb. exists x. split_and!; [|done..]. apply elem_of_delete. split; [done|]. intros E.
      assert (x = pl) as -> by (apply (same_proclock _ Hnd); [done|done|congruence]). by rewrite H0, Z.bits_0 in Hb. }
  destruct Hl1 as (Hok1 & Hq1 & Hhold1 & Hmore1). destruct (take_back_ok _ _ _ _ _ Hok1 Hm) as (r & Hr & _ & Hok2).
  assert (Hsame : requested l1 = requested l /\ grantMask l1 = grantMask l /\ waitMask l1 = waitMask l /\ nRequested l1 = nRequested l
    /\ granted l1 = granted l /\ nGranted l1 = nGranted l) by (unfold l1; by case_match).
  destruct Hsame as (E1 & E2 & E3 & E4 & E5 & E6). rewrite E1 in Hr. rewrite E2, E3, E4, E5, E6, Hq1 in Hok2. set (l2 := MkLock _ _ _ _ _ _ _ _) in Hok2.
  assert (Hrun : withdraw l m = Done l2).
  { unfold withdraw. fold p. rewrite (proj2 (find_proclock_Some _ Hnd p pl)) by done. runs. rewrite Hr. runs. unfold l2, l1.
    by destruct (holdMask pl =? 0). }
  exists l2. split; [done|]. cbn zeta. pose proof (here_lock _ _ _ _ _ _ _ l2 Hh Hok2 eq_refl) as Hh'. set (s' := set_locks _ s) in *. split.
  - pose proof Hh' as [Hr' Hl' _ Hw']. apply (table_join s' tag l2); [done|done| |done]. constructor; [done| | | |done].
    + intros x Hx. destruct (Hneed1 x Hx) as [?|[?|?]]; [by left|right; left|by right; right]. by rewrite Hq1 in *.
    + intros a w b E. eapply blocked_more; [by apply (Hblock a w b)|done|done|done].
    + intros H0. destruct (no_requests _ _ _ _ _ Hok2 H0) as [Hqe Hne]. cbn in Hqe, Hne. destruct Hconf as [(w & Hw & _)|(x & m' & Hx & _ & Hb & _)].
      * rewrite Hqe in Hw. by apply elem_of_nil in Hw.
      * apply (Hne (myProc x) m'), Hhold1. by exists x.
  - apply (holds_at_lock s tag l); [by left|]. intros q m'. apply Hhold1.
Qed.

(** *** The place in the queue *)

Definition my_held (s : LockState) (l : LOCK) (me : PGPROC) : Z :=
  match lockGroupLeader me with Some g => group_held g l (heldLocks me) | None => heldLocks me end.

Lemma fold_held g (pls : list PROCLOCK) : forall held, 0 <= held -> (forall x, x ∈ pls -> 0 <= holdMask x) ->
  let r := fold_left (fun m pl => if groupLeader pl =? g then Z.lor m (holdMask pl) else m) pls held in
  0 <= r /\ forall m', Z.testbit r m' = true <-> Z.testbit held m' = true \/ exists x, x ∈ pls /\ groupLeader x = g /\ Z.testbit (holdMask x) m' = true.
Proof.
  induction pls as [|y pls IH]; intros held H0 Hpos; cbn [fold_left].
  - split; [done|]. intros m'. split; [by left|]. by intros [?|(x & Hx%elem_of_nil & _)].
  - destruct (IH (if groupLeader y =? g then Z.lor held (holdMask y) else held)) as [H1 H2].
    + case_match; [|done]. apply Z.lor_nonneg. split; [done|]. apply Hpos. by left.
    + intros x Hx. apply Hpos. by right.
    + split; [done|]. intros m'. rewrite H2. clear H1 H2. setoid_rewrite elem_of_cons. destruct (Z.eqb_spec (groupLeader y) g) as [E|E].
      * rewrite Z.lor_spec, orb_true_iff. split.
        -- intros [[?|?]|(x & ? & ?)]; [by left|right; exists y; tauto|right; exists x; tauto].
        -- intros [?|(x & [->|?] & ? & ?)]; [tauto|tauto|right; by exists x].
      * split; (intros [?|(x & Hx)]; [by left|right; exists x]); [tauto|]. destruct Hx as ([->|?] & ? & ?); [done|tauto].
Qed.

(** A deadlock of two: [other] waits for a mode that conflicts with what the
    group of [p] holds, and holds a mode that conflicts with the request. *)
Definition simple_deadlock (s : LockState) (other : Z) : Prop :=
  exists q m1 m2 m3, waits_at s other tag m2 /\ holds_at s tag q m1 /\ leader s q = leader s p /\ conflict m2 m1 = true
    /\ holds_at s tag other m3 /\ conflict m m3 = true.

Definition place_ok (s : LockState) (l : LOCK) (w : place) : Prop :=
  match w with
  | Grant => ~ held_conflict (procLocks l) (leader s p) m
  | At i None => in_queue_conflict s (take i (waitProcs l)) \/ held_conflict (procLocks l) (leader s p) m
  | At i (Some other) => simple_deadlock s other
  end.

Lemma my_held_bits s l pl me : shape (allProcs s) tag (procLocks l) (waitProcs l) -> allProcs s !! p = Some me -> pl ∈ procLocks l ->
  myProc pl = p -> heldLocks me = holdMask pl -> 0 <= my_held s l me /\ forall m', Z.testbit (my_held s l me) m' = true ->
    exists x, x ∈ procLocks l /\ groupLeader x = leader s p /\ Z.testbit (holdMask x) m' = true.
Proof.
  intros Hsh Hme Hpl Hp Hheld. assert (Hg : groupLeader pl = leader s p) by (by rewrite (leader_proclock s _ _ _ pl Hsh Hpl), Hp).
  pose proof (proj1 (sh_masks _ _ _ _ Hsh pl Hpl)) as H0. unfold my_held. rewrite Hheld. destruct (lockGroupLeader me) as [g|] eqn:E.
  - assert (Hleader : leader s p = g) by (unfold leader; rewrite Hme; cbn; unfold leader_of; by rewrite E).
    destruct (fold_held g (procLocks l) (holdMask pl) H0) as [H1 H2]; [intros x Hx; by apply (sh_masks _ _ _ _ Hsh)|].
    split; [done|]. intros m' [Hb|(x & ? & ? & ?)]%H2; [exists pl; by split_and!|exists x; split_and!; congruence].
  - split; [done|]. intros m' Hb. exists pl. by split_and!.
Qed.

Lemma find_place_spec s l pl me pend : here s tag pend [] l -> allProcs s !! p = Some me -> pl ∈ procLocks l -> myProc pl = p ->
  heldLocks me = holdMask pl ->
  in_queue_conflict s (waitProcs l) \/ held_conflict (procLocks l) (leader s p) m ->
  forall queue (done : list Z) ahead i Q, waitProcs l = done ++ queue -> i = length done -> 0 <= ahead ->
  (forall m', Z.testbit ahead m' = true -> waiters (allProcs s) done m' <> []) ->
  (forall w s', same_table s s' -> place_ok s l w -> Q w s') ->
  lwp (find_place t l m (my_held s l me) (lockGroupLeader me) queue i ahead) Q s.
Proof.
  intros Hh Hme Hpl Hp Hheld Hconf. pose proof (hr_ok _ _ _ _ _ Hh) as Hok. pose proof (lk_shape _ _ _ _ _ Hok) as Hsh.
  destruct (my_held_bits s l pl me Hsh Hme Hpl Hp Hheld) as [Hmine0 Hmine].
  induction queue as [|w queue IH]; intros done ahead i Q Hq Hi Ha Hbits HQ; cbn [find_place].
  { apply lwp_ret, HQ; [done|]. rewrite app_nil_r in Hq. cbn. by rewrite Hi, <- Hq, firstn_all. }
  assert (Hw : w ∈ waitProcs l) by (rewrite Hq, elem_of_app, elem_of_cons; tauto).
  destruct (sh_waiting _ _ _ _ Hsh w Hw) as (proc & [Hproc Hwl _ Hwm _ (plw & Hplw & Hpw & Hheldw) _]).
  apply lwp_bind. eapply lwp_get_proc; [done|].
  assert (Hnext : forall ahead', 0 <= ahead' -> (forall m', Z.testbit ahead' m' = true -> waiters (allProcs s) (done ++ [w]) m' <> []) ->
    lwp (find_place t l m (my_held s l me) (lockGroupLeader me) queue (S i) ahead') Q s).
  { intros ahead' Ha' Hb'. apply (IH (done ++ [w])); [by rewrite Hq, <- app_assoc|rewrite length_app; cbn; lia|done|done|done]. }
  destruct (_ && _).
  { apply Hnext; [done|]. intros m' Hb. apply waiters_snoc. left. by apply Hbits. }
  apply lwp_bind. eapply lwp_lift; [by apply conflicts_of_mode|].
  destruct (Z.eqb_spec (Z.land (znth LockConflicts (waitLockMode proc)) (my_held s l me)) 0) as [Hz|Hz]; cbn [negb].
  { apply Hnext; [by apply mask_lor_nonneg|]. intros m'. rewrite bit_lor by (unfold mode_ok in Hwm; lia).
    intros [Hb|Hb%bool_decide_eq_true]%orb_true_iff; apply waiters_snoc; [left; by apply Hbits|right].
    by rewrite (waitmode_lookup _ _ _ Hproc). }
  apply conflicts_meet in Hz as (m1 & Hc1 & (x & Hx & Hxg & Hxb)%Hmine); [|done|done].
  apply lwp_bind. eapply lwp_lift; [by apply conflicts_of_mode|].
  destruct (Z.eqb_spec (Z.land (znth LockConflicts m) (heldLocks proc)) 0) as [Hz|Hz]; cbn [negb].
  - apply lwp_bind. destruct (Z.eqb_spec (Z.land (znth LockConflicts m) ahead) 0) as [Hza|Hza].
    + apply (check_here s l pl pend []); [done|by exists me|done|done|]. intros st s' Hss [Hv1 Hv2].
      case_bool_decide as Hst; apply lwp_ret, HQ; [done|by apply Hv1|done|right; by apply Hv2].
    + apply lwp_ret. rewrite bool_decide_false by done. apply lwp_ret, HQ; [done|]. left. rewrite Hi, Hq, take_app_length.
      apply conflicts_meet in Hza as (m' & Hc & (v & Hv & <-)%Hbits%waiters_some); [|done|done]. by exists v.
  - apply lwp_ret, HQ; [done|]. cbn. apply conflicts_meet in Hz as (m3 & Hc3 & Hb3); [|done|rewrite <- Hheldw; by apply (sh_masks _ _ _ _ Hsh)].
    exists (myProc x), m1, (waitLockMode proc), m3. split_and!; [by exists proc| | |done| |done].
    + exists l. split; [apply (hr_lock _ _ _ _ _ Hh)|]. by exists x.
    + by rewrite <- (leader_proclock s _ _ _ x Hsh Hx).
    + exists l. split; [apply (hr_lock _ _ _ _ _ Hh)|]. exists plw. by rewrite Hheldw.
Qed.

(** *** ProcSleep *)

Lemma app_cons_cases {A} (l1 l2 a b : list A) x w : l1 ++ x :: l2 = a ++ w :: b ->
  (exists c, l1 = a ++ w :: c) \/ (a = l1 /\ w = x /\ b = l2) \/ (exists c, a = l1 ++ x :: c /\ l2 = c ++ w :: b).
Proof.
  revert a. induction l1 as [|y l1 IH]; intros [|z a] E; cbn in E; injection E as -> E.
  - right; left. by subst.
  - right; right. by exists a.
  - left. by exists l1.
  - destruct (IH a E) as [(c & ->)|[(-> & -> & ->)|(c & -> & ->)]]; [left; by exists c|by right; left|right; right; by exists c].
Qed.

(** The queue with the process at its place. *)
Lemma enqueue_blocked s l me i : shape (allProcs s) tag (procLocks l) (waitProcs l) -> allProcs s !! p = Some me -> p ∉ waitProcs l ->
  blocked_ok (allProcs s) l -> in_queue_conflict s (take i (waitProcs l)) \/ held_conflict (procLocks l) (leader s p) m ->
  blocked_prefix (<[p := start_wait tag m me]> (allProcs s)) (procLocks l) (take i (waitProcs l) ++ p :: drop i (waitProcs l)).
Proof.
  intros Hsh Hme Hq Hblock Hconf a w b E. set (ps' := <[p := start_wait tag m me]> (allProcs s)).
  assert (Hmode : forall v, v ∈ waitProcs l -> waitmode ps' v = waitmode (allProcs s) v).
  { intros v Hv. apply waitmode_other. congruence. }
  assert (Hold : forall a0 w0 b0, waitProcs l = a0 ++ w0 :: b0 -> (forall v, v ∈ a0 -> v ∈ a) -> w0 = w -> blocked ps' (procLocks l) a w).
  { intros a0 w0 b0 E0 Hsub ->. eapply blocked_more; [by apply (Hblock a0 w b0)| | |done].
    - intros v Hv. split; [by apply Hsub|]. apply Hmode. rewrite E0, elem_of_app. by left.
    - apply lookup_insert_ne. intros ->. apply Hq. rewrite E0, elem_of_app, elem_of_cons. tauto. }
  pose proof (take_drop i (waitProcs l)) as Htd. destruct (app_cons_cases _ _ _ _ _ _ E) as [(c & Ec)|[(Ea & -> & _)|(c & Ea & Ec)]].
  - apply (Hold a w (c ++ drop i (waitProcs l))); [|done|done]. by rewrite <- Htd at 1; rewrite Ec, <- app_assoc.
  - exists (start_wait tag m me). split; [apply lookup_insert_eq|]. destruct Hconf as [(v & Hv & Hc)|Hh]; [left|right].
    + exists v. rewrite Ea. split; [done|]. rewrite Hmode; [done|]. rewrite <- Htd. apply elem_of_app. by left.
    + unfold leader in Hh. by rewrite Hme in Hh.
  - apply (Hold (take i (waitProcs l) ++ c) w b); [by rewrite <- app_assoc, <- Ec|intros v Hv|done]. rewrite Ea.
    apply elem_of_app in Hv as [?|?]; rewrite elem_of_app, elem_of_cons; tauto.
Qed.

Definition sleep_post (s : LockState) (l : LOCK) (r : sleep_result) (s' : LockState) : Prop :=
  table_ok s' /\
  match r with
  | SLEEP_OK => ~ held_conflict (procLocks l) (leader s p) m /\ unlocked_sems s' = unlocked_sems s
      /\ (forall tag' q m', holds_at s' tag' q m' <-> holds_at s tag' q m' \/ (tag' = tag /\ q = p /\ m' = m))
      /\ (forall q tag' m', waits_at s' q tag' m' <-> waits_at s q tag' m')
  | SLEEP_WAITING => unlocked_sems s' = unlocked_sems s /\ (forall tag' q m', holds_at s' tag' q m' <-> holds_at s tag' q m')
      /\ (forall q tag' m', waits_at s' q tag' m' <-> waits_at s q tag' m' \/ (q = p /\ tag' = tag /\ m' = m))
  | SLEEP_ERROR other => simple_deadlock s other /\ waitStatus <$> allProcs s' !! p = Some STATUS_ERROR
      /\ exists ws, unlocked_sems s' = unlocked_sems s ++ ws /\ (p ∉ ws)
        /\ (forall tag' q m', holds_at s' tag' q m' <-> holds_at s tag' q m' \/ (q ∈ ws /\ waits_at s q tag' m'))
        /\ (forall q tag' m', waits_at s' q tag' m' <-> waits_at s q tag' m' /\ q ∉ ws)
  end.

Record sleeper (s : LockState) (l : LOCK) (pl : PROCLOCK) (me : PGPROC) : Prop := {
  sl_here : here s tag [m] [] l;
  sl_needed : needed_ok [p] l;
  sl_blocked : blocked_ok (allProcs s) l;
  sl_used : nRequested l <> 0;
  sl_nowait : forall tag m, ~ waits_at s p tag m;
  sl_pl : pl ∈ procLocks l /\ myProc pl = p /\ Z.testbit (holdMask pl) m = false;
  sl_me : allProcs s !! p = Some me /\ heldLocks me = holdMask pl /\ waitStatus me <> STATUS_WAITING;
  sl_conf : in_queue_conflict s (waitProcs l) \/ held_conflict (procLocks l) (leader s p) m }.

Lemma grant_now_spec s s1 l pl me (Q : sleep_result -> LockState -> Prop) : sleeper s l pl me -> same_table s s1 ->
  ~ held_conflict (procLocks l) (leader s p) m -> (forall s', sleep_post s l SLEEP_OK s' -> Q SLEEP_OK s') -> lwp (grant_now tag m) Q s1.
Proof.
  intros [Hh Hneed Hblock Hused Hnowait (Hpl & Hp & Hb) _ _] Hss Hno HQ. pose proof (here_same _ _ _ _ _ _ Hh Hss) as Hh1.
  pose proof Hss as [E1 E2 E3 _]. unfold grant_now. apply lwp_bind. eapply lwp_get_lock; [apply (hr_lock _ _ _ _ _ Hh1)|].
  assert (Hleader : leader s1 p = leader s p) by (unfold leader; by rewrite E1).
  destruct (grant_here s1 l pl) as (l' & Hrun & Htab & Hholds); try done.
  { by rewrite E1. }
  { intros tag' m' (x & Hx). apply (Hnowait tag' m'). exists x. by rewrite <- E1. }
  { by rewrite Hleader. }
  apply lwp_bind. eapply lwp_lift; [done|]. apply lwp_bind, lwp_modify, lwp_ret, HQ. split; [done|]. split_and!; [done|by cbn|..].
  - intros tag' q m'. rewrite Hholds. unfold holds_at at 1. by rewrite E2.
  - intros q tag' m'. unfold waits_at. cbn. by rewrite E1.
Qed.

Lemma queue_here s s1 l pl me i : sleeper s l pl me -> same_table s s1 ->
  let l' := set_waitmask (Z.lor (waitMask l) (LOCKBIT_ON m)) (set_waitprocs (take i (waitProcs l) ++ p :: drop i (waitProcs l)) l) in
  let s2 := set_procs (<[p := start_wait tag m me]> (allProcs s1)) (set_locks (<[tag := l']> (LockMethodLockHash s1)) s1) in
  here s2 tag [] [] l' /\ unlocked_sems s2 = unlocked_sems s /\ (forall tag' q m', holds_at s2 tag' q m' <-> holds_at s tag' q m')
    /\ (forall q tag' m', waits_at s2 q tag' m' <-> waits_at s q tag' m' \/ (q = p /\ tag' = tag /\ m' = m))
    /\ needed_ok [] l'.
Proof.
  intros [Hh Hneed Hblock Hused Hnowait (Hpl & Hp & Hb) (Hme & Hheld & Hst) _] Hss l' s2. pose proof (here_same _ _ _ _ _ _ Hh Hss) as Hh1.
  pose proof Hss as [E1 E2 E3 _]. pose proof Hh1 as [Hrest1 Hl1 Hok1 Hwaits1]. pose proof (not_queued _ _ _ _ _ _ Hh Hnowait) as Hq.
  assert (Hnone : waitLock me = None).
  { destruct (waitLock me) as [tag'|] eqn:E; [|done]. destruct (Hnowait tag' (waitLockMode me)). by exists me. }
  rewrite <- E1 in Hme. split_and!.
  - constructor; [|apply lookup_insert_eq| |].
    + apply (rest_proc (set_locks (<[tag := l']> (LockMethodLockHash s1)) s1) tag p me); [by apply rest_lock|done|done|by left|by left].
    + apply (enqueue_ok _ _ _ _ _ _ i Hok1 Hm Hme Hq); [by exists pl|by rewrite Hheld].
    + intros q x. cbn. rewrite elem_of_app, elem_of_cons. destruct (decide (p = q)) as [<-|Hne]; [tauto|].
      rewrite lookup_insert_ne by done. intros Hx Hxl. pose proof (Hwaits1 q x Hx Hxl) as Hin.
      rewrite <- (take_drop i (waitProcs l)), elem_of_app in Hin. tauto.
  - done.
  - intros tag' q m'. unfold holds_at. cbn. destruct (decide (tag = tag')) as [<-|Hne]; [|by rewrite lookup_insert_ne, E2].
    rewrite lookup_insert_eq, (hr_lock _ _ _ _ _ Hh). split; intros (y & [= <-] & Hy); [by exists l|by exists l'].
  - intros q tag' m'. unfold waits_at. cbn. destruct (decide (p = q)) as [<-|Hne].
    + rewrite lookup_insert_eq. split; [intros (y & [= <-] & [= <-] & <-); by right|].
      intros [Hw|(_ & -> & ->)]; [by destruct (Hnowait tag' m')|]. by exists (start_wait tag m me).
    + rewrite lookup_insert_ne, E1 by done. split; [by left|]. intros [?|[? _]]; [done|congruence].
  - intros x Hx. destruct (Hneed x Hx) as [?|[Hin|Hin%list_elem_of_singleton]]; [by left|right; left|right; left]; cbn;
      rewrite elem_of_app, elem_of_cons; [|rewrite Hin; tauto]. rewrite <- (take_drop i (waitProcs l)), elem_of_app in Hin. tauto.
Qed.

Lemma proc_sleep_spec s l pl me (Q : sleep_result -> LockState -> Prop) : sleeper s l pl me ->
  (forall r s', sleep_post s l r s' -> Q r s') -> lwp (ProcSleep t tag m) Q s.
Proof.
  intros Hs HQ. pose proof Hs as [Hh Hneed Hblock Hused Hnowait (Hpl & Hp & Hb) (Hme & Hheld & Hst) Hconf].
  pose proof (hr_ok _ _ _ _ _ Hh) as Hok. pose proof (lk_shape _ _ _ _ _ Hok) as Hsh.
  unfold ProcSleep. apply lwp_bind. eapply lwp_get_lock; [apply (hr_lock _ _ _ _ _ Hh)|].
  apply lwp_bind. eapply lwp_get_proc; [done|]. fold (my_held s l me). apply lwp_bind.
  assert (Hk : forall w s1, same_table s s1 -> place_ok s l w -> lwp (match w with Grant => grant_now tag m | At i deadlock =>
      status ← (if stream_mode then LockCheckConflicts t m l my_proc else mret STATUS_FOUND);
      if bool_decide (status = STATUS_OK) then grant_now tag m
      else if bool_decide (waitStatus me = STATUS_WAITING) then lift (Report ERRCODE_DATA_CORRUPTED)
      else
        put_lock tag (set_waitmask (Z.lor (waitMask l) (LOCKBIT_ON m)) (set_waitprocs (take i (waitProcs l) ++ my_proc :: drop i (waitProcs l)) l));;
        put_proc my_proc (start_wait tag m me);;
        match deadlock with
        | Some other => RemoveFromWaitQueue my_proc;; mret (SLEEP_ERROR other)
        | None => mret SLEEP_WAITING
        end end) Q s1).
  { intros w s1 Hss Hw. destruct w as [|i deadlock]; [apply (grant_now_spec s s1 l pl me); [done|done|done|by intros; apply HQ]|].
    rewrite Hstream. apply lwp_bind, lwp_ret. rewrite bool_decide_false by done. rewrite bool_decide_false by done.
    apply lwp_bind, lwp_modify. apply lwp_bind, lwp_modify.
    destruct (queue_here s s1 l pl me i Hs Hss) as (Hh2 & Hsem2 & Hholds2 & Hwaits2 & Hneed2). fold p. set (s2 := set_procs _ _) in *.
    pose proof Hss as [E1 E2 E3 _]. destruct deadlock as [other|].
    - apply lwp_bind. eapply (remove_spec Hstream tag p (start_wait tag m me) s2 _ _ Hh2 Htag (needed_weaken _ [p] Hneed2)).
      + cbn. rewrite elem_of_app, elem_of_cons. tauto.
      + apply lookup_insert_eq.
      + cbn. rewrite lookup_insert_eq. eauto.
      + intros s' ws Htab [M1 M2 M3 M4 M5 M6 _]. apply lwp_ret, HQ. split; [done|]. split; [done|]. split; [done|]. exists ws.
        assert (Hpw : p ∉ ws) by (intros Hpw; by destruct (M4 p Hpw)). split_and!; [congruence|done| |].
        * intros tag' q m'. rewrite M2, Hholds2, Hwaits2. split; [|tauto]. intros [?|[? [?|[-> _]]]]; tauto.
        * intros q tag' m'. rewrite M3, Hwaits2. split; [|intros [Hq ?]; split_and!; [by left|done|]; intros ->; by apply Hnowait in Hq].
          intros ([?|[-> _]] & ? & ?); done.
    - apply lwp_ret, HQ. pose proof Hh2 as [Hr2 Hl2 Hok2 Hw2]. split; [|done].
      eapply table_join; [done|done| |done]. constructor; [done|done| |done|done].
      cbn. rewrite E1. apply (enqueue_blocked s l me i Hsh Hme); [by eapply not_queued|done|done]. }
  destruct (my_held s l me =? 0).
  - apply lwp_ret. apply (Hk (At (length (waitProcs l)) None) s); [done|]. cbn. by rewrite firstn_all.
  - apply (find_place_spec s l pl me [m] Hh Hme Hpl Hp Hheld Hconf (waitProcs l) [] 0 0); [done|done|done| |].
    + intros m'. by rewrite Z.bits_0.
    + intros w s1 Hss Hw. by apply (Hk w s1).
Qed.
End Acquire.

(** *** LockAcquire *)

(** [other] waits for a lock that the group of [p] holds in a conflicting mode,
    and holds itself what conflicts with the request. *)
Definition two_way_deadlock (s : LockState) (tag : LOCKTAG) (p m other : Z) : Prop :=
  exists q m1 m2 m3, waits_at s other tag m2 /\ holds_at s tag q m1 /\ leader s q = leader s p /\ conflict m2 m1 = true
    /\ holds_at s tag other m3 /\ conflict m m3 = true.

(** What the result of the request of [p] for the mode [m] says of the state
    [s] before and [s'] after it. *)
Definition acquire_post (s : LockState) (tag : LOCKTAG) (p m : Z) (dontWait room : bool) (r : acquire_result) (s' : LockState) : Prop :=
  let same_holds := forall tag' q m', holds_at s' tag' q m' <-> holds_at s tag' q m' in
  let same_waits := forall q tag' m', waits_at s' q tag' m' <-> waits_at s q tag' m' in
  let conflicting := conflicting_holder s tag p m \/ conflicting_waiter s tag m in
  match r with
  | LOCKACQUIRE_OK => ~ conflicting_holder s tag p m /\ unlocked_sems s' = unlocked_sems s /\ same_waits
      /\ (forall tag' q m', holds_at s' tag' q m' <-> holds_at s tag' q m' \/ (tag' = tag /\ q = p /\ m' = m))
  | LOCKACQUIRE_NOT_AVAIL => (room = false \/ dontWait = true /\ conflicting) /\ unlocked_sems s' = unlocked_sems s /\ same_waits /\ same_holds
  | LOCKACQUIRE_WAIT => dontWait = false /\ conflicting /\ unlocked_sems s' = unlocked_sems s /\ same_holds
      /\ (forall q tag' m', waits_at s' q tag' m' <-> waits_at s q tag' m' \/ (q = p /\ tag' = tag /\ m' = m))
  | LOCKACQUIRE_DEADLOCK other => dontWait = false /\ two_way_deadlock s tag p m other
      /\ waitStatus <$> allProcs s' !! p = Some STATUS_ERROR
      /\ exists ws, unlocked_sems s' = unlocked_sems s ++ ws /\ (p ∉ ws)
        /\ (forall tag' q m', holds_at s' tag' q m' <-> holds_at s tag' q m' \/ (q ∈ ws /\ waits_at s q tag' m'))
        /\ (forall q tag' m', waits_at s' q tag' m' <-> waits_at s q tag' m' /\ q ∉ ws)
  end.

Definition acquire_err (s : LockState) (tag : LOCKTAG) (p m : Z) (reportMemoryError room : bool) (c : errcode) : Prop :=
  (c = ERRCODE_OUT_OF_MEMORY /\ reportMemoryError = true /\ room = false)
  \/ (c = ERRCODE_LOCK_NOT_AVAILABLE /\ holds_at s tag p m).

(** The mask of the held modes is noted before the process sleeps. *)
Lemma set_held_here s tag m l p me mask : here s tag [m] [] l -> blocked_ok (allProcs s) l -> allProcs s !! p = Some me ->
  (forall tag m, ~ waits_at s p tag m) -> waitStatus me <> STATUS_WAITING -> linked me = false ->
  let s' := set_procs (<[p := set_held mask me]> (allProcs s)) s in
  here s' tag [m] [] l /\ blocked_ok (allProcs s') l /\ (forall q tag' m', waits_at s' q tag' m' <-> waits_at s q tag' m')
    /\ (forall q, leader s' q = leader s q) /\ (forall q, waitmode (allProcs s') q = waitmode (allProcs s) q).
Proof.
  intros Hh Hblock Hme Hnowait Hst Hlinked s'. pose proof Hh as [Hrest Hl Hok Hwaits]. pose proof (not_queued _ _ _ _ _ _ Hh Hnowait) as Hq.
  assert (Hnone : waitLock me = None).
  { destruct (waitLock me) as [tag'|] eqn:E; [|done]. destruct (Hnowait tag' (waitLockMode me)). by exists me. }
  assert (Hmode : forall q, waitmode (allProcs s') q = waitmode (allProcs s) q).
  { intros q. unfold waitmode. cbn. destruct (decide (p = q)) as [<-|Hne]; [by rewrite lookup_insert_eq, Hme|by rewrite lookup_insert_ne]. }
  split_and!; [| | | |done].
  - constructor; [|done| |].
    + apply (rest_proc s tag p me); [done|done|done|by left|right; done].
    + by apply (lock_ok_proc _ _ _ _ _ p me).
    + intros q x. cbn. destruct (decide (p = q)) as [<-|Hne]; [rewrite lookup_insert_eq; intros [= <-]; cbn; congruence|].
      rewrite lookup_insert_ne by done. apply Hwaits.
  - intros a w b E. eapply blocked_more; [by apply (Hblock a w b)|by intros; rewrite Hmode| |done].
    apply lookup_insert_ne. intros ->. apply Hq. rewrite E, elem_of_app, elem_of_cons. tauto.
  - intros q tag' m'. unfold waits_at. cbn. destruct (decide (p = q)) as [<-|Hne]; [|by rewrite lookup_insert_ne].
    rewrite lookup_insert_eq, Hme. split; intros (x & [= <-] & ?); eauto.
  - intros q. unfold leader. cbn. destruct (decide (p = q)) as [<-|Hne]; [by rewrite lookup_insert_eq, Hme|by rewrite lookup_insert_ne].
Qed.

Section AcquireShared.
Context {th : LockThread} (Hstream : stream_mode = false).
Context (tag : LOCKTAG) (Htag : valid_tag tag) (m : Z) (Hm : mode_ok m) (dontWait reportMemoryError rl rp : bool).
Let p : Z := my_proc.
Let room : bool := rl && rp.

Lemma conflicts_iff s s1 l pl : entered s s1 tag p m l pl ->
  (in_queue_conflict m s1 (waitProcs l) \/ held_conflict (procLocks l) (leader s1 p) m)
    <-> (conflicting_holder s tag p m \/ conflicting_waiter s tag m).
Proof.
  intros [Hh E1 _ Hholds _ _ _ _]. pose proof Hh as [_ Hl Hok Hwaits]. pose proof (lk_shape _ _ _ _ _ Hok) as Hsh.
  assert (Hc1 : held_conflict (procLocks l) (leader s1 p) m <-> conflicting_holder s tag p m).
  { rewrite (held_conflict_holder s1 tag _ l p m Hsh Hl). unfold conflicting_holder, leader. rewrite E1. by setoid_rewrite Hholds. }
  assert (Hc2 : in_queue_conflict m s1 (waitProcs l) <-> conflicting_waiter s tag m).
  { split.
    - intros (w & Hw & Hc). destruct (sh_waiting _ _ _ _ Hsh w Hw) as (x & [Hwp Hwl _ Hwm _ _ _]). exists w, (waitLockMode x).
      rewrite (waitmode_lookup _ _ _ Hwp) in Hc. split; [|done]. exists x. by rewrite <- E1.
    - intros (q & m' & (x & Hx & Hxl & <-) & Hc). rewrite <- E1 in Hx. exists q. split; [by apply (Hwaits q x)|].
      by rewrite (waitmode_lookup _ _ _ Hx). }
  rewrite Hc1, Hc2. tauto.
Qed.

(** The state in which the request is entered, for those who look from outside. *)
Record same_view (s s' : LockState) : Prop := {
  sv_holds : forall tag' q m', holds_at s' tag' q m' <-> holds_at s tag' q m';
  sv_waits : forall q tag' m', waits_at s' q tag' m' <-> waits_at s q tag' m';
  sv_leader : forall q, leader s' q = leader s q;
  sv_modes : forall q, waitmode (allProcs s') q = waitmode (allProcs s) q;
  sv_sems : unlocked_sems s' = unlocked_sems s }.

Lemma view_trans s1 s2 s3 : same_view s1 s2 -> same_view s2 s3 -> same_view s1 s3.
Proof.
  intros [A1 A2 A3 A4 A5] [B1 B2 B3 B4 B5]. constructor; intros; [by rewrite B1, A1|by rewrite B2, A2|by rewrite B3|by rewrite B4|by rewrite B5].
Qed.

Lemma view_same s s' : same_table s s' -> same_view s s'.
Proof. intros [E1 E2 E3 _]. constructor; intros; unfold holds_at, waits_at, leader; by rewrite ?E1, ?E2, ?E3. Qed.

Lemma view_entered s s' l pl : entered s s' tag p m l pl -> same_view s s'.
Proof. intros [_ E1 E2 Hh _ _ _ _]. constructor; try done; intros; unfold waits_at, leader; by rewrite E1. Qed.

Lemma view_nowait s s' : same_view s s' -> (forall tag m, ~ waits_at s p tag m) -> forall tag m, ~ waits_at s' p tag m.
Proof. intros [_ H _ _ _] Hn tag' m' Hw%H. by apply (Hn tag' m'). Qed.

(** The request is entered and everything else as before. *)
Record ready (s s' : LockState) (l : LOCK) (pl : PROCLOCK) : Prop := {
  rd_here : here s' tag [m] [] l;
  rd_view : same_view s s';
  rd_needed : needed_ok [p] l;
  rd_blocked : blocked_ok (allProcs s') l;
  rd_used : nRequested l <> 0;
  rd_proclock : pl ∈ procLocks l /\ myProc pl = p /\ Z.testbit (holdMask pl) m = false;
  rd_nowait : forall tag m, ~ waits_at s' p tag m }.

Lemma ready_same s s1 s2 l pl : ready s s1 l pl -> same_table s1 s2 -> ready s s2 l pl.
Proof.
  intros [H1 H2 H3 H4 H5 H6 H7] Hss. pose proof (view_same _ _ Hss) as Hv. pose proof Hss as [E1 _ _ _]. constructor; try done.
  - by eapply here_same.
  - by eapply view_trans.
  - by rewrite E1.
  - by eapply view_nowait.
Qed.

Definition conflicting (s : LockState) : Prop := conflicting_holder s tag p m \/ conflicting_waiter s tag m.

Lemma acquire_granted s s1 l pl (Q : acquire_result -> LockState -> Prop) : ready s s1 l pl -> ~ conflicting_holder s tag p m ->
  ~ held_conflict (procLocks l) (leader s1 p) m ->
  (forall s', table_ok s' -> acquire_post s tag p m dontWait room LOCKACQUIRE_OK s' -> Q LOCKACQUIRE_OK s') ->
  lwp (lock ← lift (GrantLock l p m); put_lock tag lock;; mret LOCKACQUIRE_OK) Q s1.
Proof.
  intros [Hh [V1 V2 V3 V4 V5] Hneed Hblock Hused (Hpl & Hp & Hb) Hnowait] Hnoc Hno HQ.
  destruct (grant_here tag Htag m Hm s1 l pl Hh Hneed Hblock Hused Hnowait Hpl Hp Hb Hno) as (l' & Hrun & Htab & Hholds).
  apply lwp_bind. eapply lwp_lift; [done|]. apply lwp_bind, lwp_modify, lwp_ret, HQ; [done|].
  split_and!; [done|done|exact V2|]. intros tag' q m'. by rewrite Hholds, V1.
Qed.

Lemma acquire_refused s s1 l pl (Q : acquire_result -> LockState -> Prop) : ready s s1 l pl -> dontWait = true -> conflicting s ->
  in_queue_conflict m s1 (waitProcs l) \/ held_conflict (procLocks l) (leader s1 p) m ->
  (forall s', table_ok s' -> acquire_post s tag p m dontWait room LOCKACQUIRE_NOT_AVAIL s' -> Q LOCKACQUIRE_NOT_AVAIL s') ->
  lwp (lock ← lift (withdraw l m); put_lock tag lock;; mret LOCKACQUIRE_NOT_AVAIL) Q s1.
Proof.
  intros [Hh [V1 V2 V3 V4 V5] Hneed Hblock Hused (Hpl & Hp & Hb) Hnowait] Hdw Hc Hconf HQ.
  destruct (withdraw_here tag Htag m Hm s1 l pl Hh Hneed Hblock Hnowait Hpl Hp Hconf) as (l' & Hrun & Htab & Hholds).
  apply lwp_bind. eapply lwp_lift; [done|]. apply lwp_bind, lwp_modify, lwp_ret, HQ; [done|].
  split_and!; [by right|done|exact V2|]. intros tag' q m'. by rewrite Hholds, V1.
Qed.

Lemma acquire_sleeps t s s1 l pl me (Q : acquire_result -> LockState -> Prop) : method_ok t -> ready s s1 l pl -> dontWait = false -> conflicting s ->
  in_queue_conflict m s1 (waitProcs l) \/ held_conflict (procLocks l) (leader s1 p) m ->
  (~ held_conflict (procLocks l) (leader s1 p) m -> ~ conflicting_holder s tag p m) ->
  allProcs s1 !! p = Some me -> waitStatus me <> STATUS_WAITING -> linked me = false ->
  (forall r s', table_ok s' -> acquire_post s tag p m dontWait room r s' -> Q r s') ->
  lwp (pl ← lift (inside (find_proclock p (procLocks l)));
       me ← get_proc p;
       put_proc p (set_held (holdMask pl) me);;
       r ← ProcSleep t tag m;
       mret (match r with
             | SLEEP_OK => LOCKACQUIRE_OK
             | SLEEP_ERROR other => LOCKACQUIRE_DEADLOCK other
             | SLEEP_WAITING => LOCKACQUIRE_WAIT
             end)) Q s1.
Proof.
  intros Ht [Hh Hview Hneed Hblock Hused (Hpl & Hp & Hb) Hnowait] Hdw Hc Hconf Hnoc Hme Hst Hlinked HQ.
  pose proof (sh_nodup _ _ _ _ (lk_shape _ _ _ _ _ (hr_ok _ _ _ _ _ Hh))) as Hnd.
  apply lwp_bind. eapply lwp_lift; [rewrite (proj2 (find_proclock_Some _ Hnd p pl)) by done; done|].
  apply lwp_bind. eapply lwp_get_proc; [done|]. apply lwp_bind, lwp_modify.
  destruct (set_held_here s1 tag m l p me (holdMask pl) Hh Hblock Hme Hnowait Hst Hlinked) as (Hh2 & Hblock2 & Hw2 & Hl2 & Hm2).
  set (s2 := set_procs _ s1) in *.
  assert (Hview2 : same_view s1 s2) by (constructor; done). pose proof (view_trans _ _ _ Hview Hview2) as [V1 V2 V3 V4 V5].
  apply lwp_bind. apply (proc_sleep_spec Hstream tag t Htag Ht m Hm s2 l pl (set_held (holdMask pl) me)).
  - constructor; try done.
    + by apply (view_nowait _ _ Hview2).
    + split; [apply lookup_insert_eq|done].
    + rewrite Hl2. destruct Hconf as [(w & Hw & Hcw)|?]; [left|by right]. exists w. by rewrite Hm2.
  - intros r s' [Htab Hr]. apply lwp_ret, HQ; [done|]. destruct r as [|other|]; cbn.
    + destruct Hr as (Hno & Hsem & Hholds & Hwaits). rewrite Hl2 in Hno. split_and!; [by apply Hnoc|congruence| |].
      * intros q tag' m'. by rewrite Hwaits, V2.
      * intros tag' q m'. by rewrite Hholds, V1.
    + destruct Hr as ((q & m1 & m2 & m3 & D1 & D2 & D3 & D4 & D5 & D6) & Hst' & ws & Hsem & Hpw & Hholds & Hwaits). split_and!; [done| |done|].
      * exists q, m1, m2, m3. rewrite <- V1, <- V2, <- !V3, <- V1. done.
      * exists ws. split_and!; [congruence|done| |].
        -- intros tag' q' m'. by rewrite Hholds, V1, V2.
        -- intros q' tag' m'. by rewrite Hwaits, V2.
    + destruct Hr as (Hsem & Hholds & Hwaits). split_and!; [done|done|congruence| |].
      * intros tag' q m'. by rewrite Hholds, V1.
      * intros q tag' m'. by rewrite Hwaits, V2.
Qed.

Lemma acquire_spec s : table_ok s -> is_Some (allProcs s !! p) -> (forall tag m, ~ waits_at s p tag m) ->
  lpe (LockAcquireShared tag m dontWait reportMemoryError rl rp)
    (fun r s' => table_ok s' /\ acquire_post s tag p m dontWait room r s') (acquire_err s tag p m reportMemoryError room) s.
Proof.
  intros Htab [me Hme] Hnowait. unfold LockAcquireShared. destruct (valid_method tag Htag) as (t & Et & Ht).
  apply lpe_bind. eapply lwp_lift; [done|]. apply lpe_bind_err. fold p.
  eapply lpe_mono; [| |by apply (setup_spec tag p me m rl rp s)]; cbn.
  2:{ intros c [-> Hc]. by right. }
  intros b s1. destruct b; cbn [negb].
  2:{ intros [-> Hroom]. destruct reportMemoryError eqn:Er; [apply lpe_report; left; done|].
      apply lpe_lwp, lwp_ret. split; [done|]. split; [by left|done]. }
  intros (l & pl & He). pose proof He as [Hh1 E1 _ _ Hneed1 Hblock1 Hused1 Hpls]. apply lpe_lwp.
  pose proof (conflicts_iff s s1 l pl He) as Hconf. pose proof (view_entered _ _ _ _ He) as Hview1. rewrite <- E1 in Hblock1.
  assert (Hready : ready s s1 l pl) by (constructor; try done; by eapply view_nowait).
  pose proof Hh1 as [_ Hl1 Hok1 _]. pose proof (lk_shape _ _ _ _ _ Hok1) as Hsh1.
  assert (Hholder : held_conflict (procLocks l) (leader s1 p) m <-> conflicting_holder s tag p m).
  { rewrite (held_conflict_holder s1 tag _ l p m Hsh1 Hl1). unfold conflicting_holder.
    destruct Hview1 as [V1 _ V3 _ _]. setoid_rewrite V1. by setoid_rewrite V3. }
  assert (Hme1 : allProcs s1 !! p = Some me) by (by rewrite E1).
  apply lwp_bind. eapply lwp_get_lock; [done|]. apply lwp_bind. destruct Hpls as (Hpl & Hp & Hb).
  eapply (acquire_status_spec Hstream tag t Ht m Hm s1 l pl [m] []); [done|by exists me|done|done|done|].
  intros st s2 Hss2 [Hv1 Hv2]. pose proof (ready_same _ _ _ _ _ Hready Hss2) as Hready2.
  pose proof (view_same _ _ Hss2) as [W1 W2 W3 W4 W5]. pose proof Hss2 as [F1 F2 F3 _].
  case_bool_decide as Hst.
  { apply (acquire_granted s s2 l pl); [done| |rewrite W3; tauto|by intros]. rewrite <- Hholder. tauto. }
  specialize (Hv2 Hst). assert (Hc : conflicting s) by (by apply Hconf).
  assert (Hconf2 : forall s3, same_view s2 s3 -> in_queue_conflict m s3 (waitProcs l) \/ held_conflict (procLocks l) (leader s3 p) m).
  { intros s3 [_ _ X3 X4 _]. rewrite X3, W3. destruct Hv2 as [(w & Hw & Hcw)|?]; [left|by right]. exists w. by rewrite X4, W4. }
  destruct dontWait eqn:Hdw.
  { rewrite <- Hdw. apply (acquire_refused s s2 l pl); [done|done|done|by apply Hconf2|by intros]. }
  apply lwp_bind. assert (Hrest : forall s3, same_table s2 s3 -> lwp (pl ← lift (inside (find_proclock p (procLocks l)));
       me ← get_proc p; put_proc p (set_held (holdMask pl) me);; r ← ProcSleep t tag m;
       mret (match r with SLEEP_OK => LOCKACQUIRE_OK | SLEEP_ERROR other => LOCKACQUIRE_DEADLOCK other | SLEEP_WAITING => LOCKACQUIRE_WAIT end))
       (fun r s' => table_ok s' /\ acquire_post s tag p m false room r s') s3).
  { intros s3 Hss3. pose proof (view_same _ _ Hss3) as Hview3. rewrite <- Hdw. destruct Hss3 as [G1 G2 G3 G4] eqn:E3.
    pose proof (tb_waits _ Htab p me Hme) as Hwait. destruct (waitLock me) as [tag'|] eqn:Ewl.
    { destruct (Hnowait tag' (waitLockMode me)). by exists me. }
    apply (acquire_sleeps t s s3 l pl me); [done|by eapply ready_same|done|done|by apply Hconf2| | |by apply Hwait|by apply Hwait|by intros].
    - destruct Hview3 as [_ _ X3 _ _]. by rewrite X3, W3, Hholder.
    - by rewrite G1, F1. }
  case_match; [|by apply lwp_ret, Hrest]. apply lwp_modify, Hrest. by constructor.
Qed.
End AcquireShared.
