(* ===== verification/DeadLock.v ===== *)
(** Deadlock detection: [storage/lmgr/deadlock.cpp] and [CheckDeadLock] of
    [storage/lmgr/proc.cpp].

    The detector runs with all partitions locked: the table of Lock.v does not
    change while it searches.  Its workspace is the record [Detector]; the
    fields of the session that the search also sets (the redistribution and the
    autovacuum workers that block the process) are in it.  Left out: the check
    of the stack depth and of the running time, which report an error after ten
    minutes, and the names and the query strings in the message. *)
From S2P Require Import Prelude Lock.
From stdpp Require Import list gmap.
#[local] Open Scope Z_scope.

(** One edge in the waits-for graph; [pred] and [link] are workspace of
    [TopoSort]. *)
Record EDGE := MkEdge {
  waiter : Z;
  blocker : Z;
  lock : LOCKTAG;
  pred : Z;
  link : Z }.

(** One potential reordering of a lock's wait queue. *)
Record WAIT_ORDER := MkOrder {
  wo_lock : LOCKTAG;
  wo_procs : list Z }.

Record DEADLOCK_INFO := MkInfo {
  locktag : LOCKTAG;
  lockmode : Z;
  info_pid : Z }.

Inductive DeadLockState :=
  | DS_NOT_YET_CHECKED | DS_LOCK_TIMEOUT | DS_NO_DEADLOCK | DS_SOFT_DEADLOCK | DS_HARD_DEADLOCK
  | DS_BLOCKED_BY_AUTOVACUUM | DS_BLOCKED_BY_REDISTRIBUTION.
#[global] Instance DeadLockState_eq_dec : EqDecision DeadLockState.
Proof. solve_decision. Defined.

Class DeadLockLimits := {
  MaxBackends : Z;
  autovacuum_max_workers : Z }.

(** The workspace.  An array of which only a first part is in use is the list of
    this part, except [deadlockDetails] and [possibleConstraints], which are
    written at any index.  [softEdges] is the output of the running
    [FindLockCycle]; [topoProcs], which shares its memory with [visitedProcs],
    is an array of its own in [TopoSort]. *)
Record Detector := MkDetector {
  visitedProcs : list Z;
  deadlockDetails : list DEADLOCK_INFO;
  nDeadlockDetails : Z;
  softEdges : list EDGE;
  waitOrders : list WAIT_ORDER;
  curConstraints : list EDGE;
  possibleConstraints : list EDGE;
  nPossibleConstraints : Z;
  blocking_autovacuum_proc : list Z;
  blocking_redist : option Z }.

Definition set_visited (x : list Z) (d : Detector) : Detector :=
  MkDetector x (deadlockDetails d) (nDeadlockDetails d) (softEdges d) (waitOrders d) (curConstraints d) (possibleConstraints d) (nPossibleConstraints d) (blocking_autovacuum_proc d) (blocking_redist d).
Definition set_details (x : list DEADLOCK_INFO) (d : Detector) : Detector :=
  MkDetector (visitedProcs d) x (nDeadlockDetails d) (softEdges d) (waitOrders d) (curConstraints d) (possibleConstraints d) (nPossibleConstraints d) (blocking_autovacuum_proc d) (blocking_redist d).
Definition set_ndetails (x : Z) (d : Detector) : Detector :=
  MkDetector (visitedProcs d) (deadlockDetails d) x (softEdges d) (waitOrders d) (curConstraints d) (possibleConstraints d) (nPossibleConstraints d) (blocking_autovacuum_proc d) (blocking_redist d).
Definition set_soft (x : list EDGE) (d : Detector) : Detector :=
  MkDetector (visitedProcs d) (deadlockDetails d) (nDeadlockDetails d) x (waitOrders d) (curConstraints d) (possibleConstraints d) (nPossibleConstraints d) (blocking_autovacuum_proc d) (blocking_redist d).
Definition set_orders (x : list WAIT_ORDER) (d : Detector) : Detector :=
  MkDetector (visitedProcs d) (deadlockDetails d) (nDeadlockDetails d) (softEdges d) x (curConstraints d) (possibleConstraints d) (nPossibleConstraints d) (blocking_autovacuum_proc d) (blocking_redist d).
Definition set_cur (x : list EDGE) (d : Detector) : Detector :=
  MkDetector (visitedProcs d) (deadlockDetails d) (nDeadlockDetails d) (softEdges d) (waitOrders d) x (possibleConstraints d) (nPossibleConstraints d) (blocking_autovacuum_proc d) (blocking_redist d).
Definition set_possible (x : list EDGE) (d : Detector) : Detector :=
  MkDetector (visitedProcs d) (deadlockDetails d) (nDeadlockDetails d) (softEdges d) (waitOrders d) (curConstraints d) x (nPossibleConstraints d) (blocking_autovacuum_proc d) (blocking_redist d).
Definition set_npossible (x : Z) (d : Detector) : Detector :=
  MkDetector (visitedProcs d) (deadlockDetails d) (nDeadlockDetails d) (softEdges d) (waitOrders d) (curConstraints d) (possibleConstraints d) x (blocking_autovacuum_proc d) (blocking_redist d).
Definition set_autovacuum (x : list Z) (d : Detector) : Detector :=
  MkDetector (visitedProcs d) (deadlockDetails d) (nDeadlockDetails d) (softEdges d) (waitOrders d) (curConstraints d) (possibleConstraints d) (nPossibleConstraints d) x (blocking_redist d).
Definition set_blocking_redist (x : option Z) (d : Detector) : Detector :=
  MkDetector (visitedProcs d) (deadlockDetails d) (nDeadlockDetails d) (softEdges d) (waitOrders d) (curConstraints d) (possibleConstraints d) (nPossibleConstraints d) (blocking_autovacuum_proc d) x.

(** The monad of the detector: the table [s] is read, the workspace changes. *)
Definition DM (A : Type) : Type := Detector -> run (A * Detector).
#[global] Instance DM_ret : MRet DM := fun A a d => Done (a, d).
#[global] Instance DM_bind : MBind DM := fun A B f m d =>
  match m d with
  | Done (a, d) => f a d
  | Report c => Report c
  | Outside => Outside
  end.
Definition dlift {A} (r : run A) : DM A := fun d => a ← r; Done (a, d).
Definition get_detector : DM Detector := fun d => Done (d, d).
Definition put (f : Detector -> Detector) : DM unit := fun d => Done (tt, f d).

Section Search.
Context {lim : DeadLockLimits} {th : LockThread} (s : LockState).

Definition the_proc (p : Z) : DM PGPROC := dlift (inside (allProcs s !! p)).
Definition the_lock (tag : LOCKTAG) : DM LOCK := dlift (inside (LockMethodLockHash s !! tag)).
Definition group_leader (p : Z) (proc : PGPROC) : Z := default p (lockGroupLeader proc).

(** *** FindLockCycleRecurseMember

    [rec] is [FindLockCycleRecurse]. *)
Section Member.
Context (rec : Z -> Z -> DM bool).

Definition max_blocking_autovacuum_proc_num : Z := Z.max 64 (autovacuum_max_workers * 2).

Definition remember_autovacuum (proc : Z) : DM unit :=
  d ← get_detector;
  if negb (bool_decide (proc ∈ blocking_autovacuum_proc d))
     && (zlen (blocking_autovacuum_proc d) <? max_blocking_autovacuum_proc_num)
  then put (set_autovacuum (blocking_autovacuum_proc d ++ [proc])) else mret tt.

(** An autovacuum worker or a redistribution that hard-blocks the own process. *)
Definition note_blocker (checkProc proc : Z) (flags : Z) : DM unit :=
  if checkProc =? my_proc then
    if negb (Z.land flags PROC_IS_AUTOVACUUM =? 0) then remember_autovacuum proc
    else if negb (Z.land flags PROC_IS_REDIST =? 0) then put (set_blocking_redist (Some proc))
    else mret tt
  else mret tt.

(** One of the modes [i], ... is held and conflicts. *)
Fixpoint conflicting_mode (n : nat) (i holdMask conflictMask : Z) : bool :=
  match n with
  | O => false
  | S n => (negb (Z.land holdMask (LOCKBIT_ON i) =? 0) && negb (Z.land conflictMask (LOCKBIT_ON i) =? 0))
           || conflicting_mode n (i + 1) holdMask conflictMask
  end.

Definition fill_details (depth : Z) (tag : LOCKTAG) (check : PGPROC) : DM unit :=
  d ← get_detector;
  l ← dlift (inside (zupdate (deadlockDetails d) depth (MkInfo tag (waitLockMode check) (pid check))));
  put (set_details l).

Fixpoint hard_edges (numLockModes : nat) (conflictMask : Z) (tag : LOCKTAG) (checkProc checkProcLeader : Z) (check : PGPROC)
    (depth : Z) (procLocks : list PROCLOCK) : DM bool :=
  match procLocks with
  | [] => mret false
  | proclock :: procLocks =>
      let proc := myProc proclock in
      p ← the_proc proc;
      if negb (group_leader proc p =? checkProcLeader) && conflicting_mode numLockModes 1 (holdMask proclock) conflictMask then
        found ← rec proc (depth + 1);
        if found : bool then fill_details depth tag check;; mret true
        else
          note_blocker checkProc proc (vacuumFlags p);;
          hard_edges numLockModes conflictMask tag checkProc checkProcLeader check depth procLocks
      else hard_edges numLockModes conflictMask tag checkProc checkProcLeader check depth procLocks
  end.

(** The autovacuum workers ahead in the queue: the loop looks at the first
    process of the queue again and again ([proc = waitQueue->links.next]). *)
Fixpoint waiting_autovacuum (n : nat) (conflictMask : Z) (first : option Z) (checkProc checkProcLeader : Z) : DM unit :=
  match n with
  | O => mret tt
  | S n =>
      proc ← dlift (inside first);
      if proc =? checkProc then mret tt
      else
        p ← the_proc proc;
        (if negb (group_leader proc p =? checkProcLeader) && negb (Z.land conflictMask (LOCKBIT_ON (waitLockMode p)) =? 0)
            && negb (Z.land (vacuumFlags p) PROC_IS_AUTOVACUUM =? 0)
         then remember_autovacuum proc else mret tt);;
        waiting_autovacuum n conflictMask first checkProc checkProcLeader
  end.

Definition soft_edge (tag : LOCKTAG) (checkProcLeader leader depth : Z) (check : PGPROC) : DM unit :=
  fill_details depth tag check;;
  d ← get_detector;
  if zlen (softEdges d) <? MaxBackends then put (set_soft (softEdges d ++ [MkEdge checkProcLeader leader tag 0 0]))
  else dlift Outside.

(** The soft edges of a queue up to the process where [stop] holds. *)
Fixpoint soft_edges (stop : Z -> PGPROC -> bool) (skip_own : bool) (conflictMask : Z) (tag : LOCKTAG) (checkProcLeader : Z)
    (check : PGPROC) (depth : Z) (procs : list Z) : DM bool :=
  match procs with
  | [] => mret false
  | proc :: procs =>
      p ← the_proc proc;
      let leader := group_leader proc p in
      if stop proc p then mret false
      else if negb (Z.land (LOCKBIT_ON (waitLockMode p)) conflictMask =? 0) && negb (skip_own && (leader =? checkProcLeader)) then
        found ← rec proc (depth + 1);
        if found : bool then soft_edge tag checkProcLeader leader depth check;; mret true
        else soft_edges stop skip_own conflictMask tag checkProcLeader check depth procs
      else soft_edges stop skip_own conflictMask tag checkProcLeader check depth procs
  end.

(** The last process of the group in the queue. *)
Fixpoint last_member (leader : Z) (last : option Z) (procs : list Z) : DM (option Z) :=
  match procs with
  | [] => mret last
  | proc :: procs =>
      p ← the_proc proc;
      last_member leader (if bool_decide (lockGroupLeader p = Some leader) then Some proc else last) procs
  end.

Definition find_order (tag : LOCKTAG) (orders : list WAIT_ORDER) : option (list Z) :=
  wo_procs <$> (snd <$> list_find (fun o => wo_lock o = tag) orders).

Definition FindLockCycleRecurseMember (checkProc checkProcLeader depth : Z) : DM bool :=
  check ← the_proc checkProc;
  tag ← dlift (inside (waitLock check));
  t ← dlift (GetLocksMethodTable tag);
  conflictMask ← dlift (conflicts_of t (waitLockMode check));
  l ← the_lock tag;
  hard ← hard_edges (Z.to_nat (numLockModes t)) conflictMask tag checkProc checkProcLeader check depth (procLocks l);
  if hard : bool then mret true
  else
    d ← get_detector;
    (if (checkProc =? my_proc) && negb (bool_decide (blocking_autovacuum_proc d = []))
     then waiting_autovacuum (length (waitProcs l)) conflictMask (head (waitProcs l)) checkProc checkProcLeader else mret tt);;
    d ← get_detector;
    match find_order tag (waitOrders d) with
    | Some procs =>
        soft_edges (fun proc p => group_leader proc p =? checkProc) false conflictMask tag checkProcLeader check depth procs
    | None =>
        last ← (if bool_decide (lockGroupLeader check = None) then mret (Some checkProc)
                else last_member checkProcLeader None (waitProcs l));
        soft_edges (fun proc _ => bool_decide (last = Some proc)) true conflictMask tag checkProcLeader check depth (waitProcs l)
    end.

(** The members of the group that wait. *)
Fixpoint member_cycles (checkProc depth : Z) (members : list Z) : DM bool :=
  match members with
  | [] => mret false
  | memberProc :: members =>
      m ← the_proc memberProc;
      found ← (if linked m && bool_decide (waitLock m <> None) && negb (memberProc =? checkProc)
               then FindLockCycleRecurseMember memberProc checkProc depth else mret false);
      if found : bool then mret true else member_cycles checkProc depth members
  end.
End Member.

(** *** FindLockCycle *)
Fixpoint FindLockCycleRecurse (fuel : nat) (checkProc depth : Z) : DM bool :=
  match fuel with
  | O => dlift Outside
  | S fuel =>
      c ← the_proc checkProc;
      let checkProc := group_leader checkProc c in
      d ← get_detector;
      match list_find (eq checkProc) (visitedProcs d) with
      | Some (O, _) => put (set_ndetails depth);; mret true
      | Some _ => mret false
      | None =>
          if MaxBackends <=? zlen (visitedProcs d) then dlift (Report ERRCODE_TOO_MANY_CONNECTIONS)
          else
            put (set_visited (visitedProcs d ++ [checkProc]));;
            leader ← the_proc checkProc;
            found ← (if linked leader && bool_decide (waitLock leader <> None)
                     then FindLockCycleRecurseMember (FindLockCycleRecurse fuel) checkProc checkProc depth else mret false);
            if found : bool then mret true
            else member_cycles (FindLockCycleRecurse fuel) checkProc depth (lockGroupMembers leader)
      end
  end.

Definition FindLockCycle (checkProc : Z) : DM bool :=
  put (fun d => set_soft [] (set_ndetails 0 (set_visited [] d)));;
  FindLockCycleRecurse (S (Z.to_nat MaxBackends)) checkProc 0.

(** *** TopoSort

    [queue] is [topoProcs] as long as nothing has been put out. *)
Definition is_member (proc x : Z) : run bool :=
  px ← inside (allProcs s !! x);
  mret ((x =? proc) || bool_decide (lockGroupLeader px = Some proc)).

(** The last of the group [proc] in the queue; the others are marked. *)
Fixpoint representative (n : nat) (proc : Z) (queue : list Z) (jj : Z) (before : list Z) : run (Z * list Z) :=
  match n with
  | O => mret (jj, before)
  | S n =>
      let j := Z.of_nat n in
      x ← inside (zlookup queue j);
      b ← is_member proc x;
      if b : bool then
        if jj =? -1 then representative n proc queue j before
        else before ← inside (zupdate before j (-1)); representative n proc queue jj before
      else representative n proc queue jj before
  end.

Definition link_edge (p l : Z) (e : EDGE) : EDGE := MkEdge (waiter e) (blocker e) (lock e) p l.

(** The counts [before] and the lists [after] of the constraints [i], ... *)
Fixpoint note_constraints (queue : list Z) (i : Z) (constraints : list EDGE) (before after : list Z)
    : run (list EDGE * list Z * list Z) :=
  match constraints with
  | [] => mret ([], before, after)
  | e :: constraints =>
      '(jj, before) ← representative (length queue) (waiter e) queue (-1) before;
      if jj <? 0 then
        '(constraints, before, after) ← note_constraints queue (i + 1) constraints before after;
        mret (e :: constraints, before, after)
      else
        '(kk, before) ← representative (length queue) (blocker e) queue (-1) before;
        if kk <? 0 then
          '(constraints, before, after) ← note_constraints queue (i + 1) constraints before after;
          mret (e :: constraints, before, after)
        else
          n ← inside (zlookup before jj);
          before ← inside (zupdate before jj (n + 1));
          l ← inside (zlookup after kk);
          after ← inside (zupdate after kk (i + 1));
          '(constraints, before, after) ← note_constraints queue (i + 1) constraints before after;
          mret (link_edge jj l e :: constraints, before, after)
  end.

(** [while (topoProcs[last] == NULL) last--] *)
Fixpoint skip_output (last : nat) (topoProcs : list (option Z)) : run nat :=
  x ← inside (topoProcs !! last);
  match x, last with
  | Some _, _ => mret last
  | None, S last => skip_output last topoProcs
  | None, O => Outside
  end.

Fixpoint candidate (j : nat) (topoProcs : list (option Z)) (before : list Z) : run (option nat) :=
  x ← inside (topoProcs !! j);
  n ← inside (before !! j);
  if bool_decide (x <> None) && (n =? 0) then mret (Some j)
  else match j with O => mret None | S j => candidate j topoProcs before end.

(** Put out the group [proc]: the positions [c], ... of [topoProcs]. *)
Fixpoint output_group (n : nat) (c : Z) (proc i nmatches : Z) (topoProcs : list (option Z)) (ordering : list Z)
    : run (Z * list (option Z) * list Z) :=
  match n with
  | O => mret (nmatches, topoProcs, ordering)
  | S n =>
      x ← inside (zlookup topoProcs c);
      b ← match x with Some x => is_member proc x | None => mret false end;
      if b : bool then
        ordering ← inside (zupdate ordering (i - nmatches) (default 0 x));
        topoProcs ← inside (zupdate topoProcs c None);
        output_group n (c + 1) proc i (nmatches + 1) topoProcs ordering
      else output_group n (c + 1) proc i nmatches topoProcs ordering
  end.

(** Along a list of constraints; a link is smaller than the number of its
    constraint. *)
Fixpoint release_preds (fuel : nat) (k : Z) (constraints : list EDGE) (before : list Z) : run (list Z) :=
  if k <=? 0 then mret before
  else match fuel with
  | O => Outside
  | S fuel =>
      e ← inside (zlookup constraints (k - 1));
      n ← inside (zlookup before (pred e));
      before ← inside (zupdate before (pred e) (n - 1));
      release_preds fuel (link e) constraints before
  end.

Fixpoint TopoSortScan (fuel : nat) (constraints : list EDGE) (after : list Z) (i : Z) (last : nat)
    (topoProcs : list (option Z)) (before ordering : list Z) : run (bool * list Z) :=
  if i <? 0 then mret (true, ordering)
  else match fuel with
  | O => Outside
  | S fuel =>
      last ← skip_output last topoProcs;
      r ← candidate last topoProcs before;
      match r with
      | None => mret (false, ordering)
      | Some j =>
          x ← inside (topoProcs !! j);
          proc ← inside x;
          p ← inside (allProcs s !! proc);
          '(nmatches, topoProcs, ordering) ← output_group (S last) 0 (group_leader proc p) i 0 topoProcs ordering;
          k ← inside (after !! j);
          before ← release_preds (S (length constraints)) k constraints before;
          TopoSortScan fuel constraints after (i - nmatches) last topoProcs before ordering
      end
  end.

(** The result, the order and the constraints with their links. *)
Definition TopoSort (queue : list Z) (constraints : list EDGE) : run (bool * list Z * list EDGE) :=
  let zeros := replicate (length queue) 0 in
  '(constraints, before, after) ← note_constraints queue 0 constraints zeros zeros;
  '(ok, ordering) ← TopoSortScan (length queue) constraints after (zlen queue - 1) (length queue - 1) (Some <$> queue) before zeros;
  mret (ok, ordering, constraints).

(** *** ExpandConstraints *)
Fixpoint expand_constraints (n : nat) (nWaitOrderProcs : Z) : DM bool :=
  match n with
  | O => mret true
  | S i =>
      d ← get_detector;
      e ← dlift (inside (curConstraints d !! i));
      if bool_decide (find_order (lock e) (waitOrders d) <> None) then expand_constraints i nWaitOrderProcs
      else
        l ← the_lock (lock e);
        let nWaitOrderProcs := nWaitOrderProcs + zlen (waitProcs l) in
        if (zlen (waitOrders d) <? MaxBackends ÷ 2) && (nWaitOrderProcs <=? MaxBackends) then
          '(ok, ordering, constraints) ← dlift (TopoSort (waitProcs l) (take n (curConstraints d)));
          put (set_cur (constraints ++ drop n (curConstraints d)));;
          if ok : bool then
            put (set_orders (waitOrders d ++ [MkOrder (lock e) ordering]));;
            expand_constraints i nWaitOrderProcs
          else mret false
        else dlift Outside
  end.

Definition ExpandConstraints : DM bool :=
  put (set_orders []);;
  d ← get_detector;
  expand_constraints (length (curConstraints d)) 0.

(** *** TestConfiguration *)
Definition maxCurConstraints : Z := MaxBackends.
Definition maxPossibleConstraints : Z := MaxBackends * 4.

Definition put_edges (l : list EDGE) (i : Z) (edges : list EDGE) : option (list EDGE) :=
  if (0 <=? i) && (i + zlen edges <=? zlen l) then Some (take (Z.to_nat i) l ++ edges ++ drop (Z.to_nat (i + zlen edges)) l) else None.

(** [FindLockCycle] writes the edges of a cycle behind the saved constraints;
    the result is [None] for a hard deadlock. *)
Definition test_proc (p : Z) (softFound : Z) : DM (option Z) :=
  found ← FindLockCycle p;
  if found : bool then
    d ← get_detector;
    l ← dlift (inside (put_edges (possibleConstraints d) (nPossibleConstraints d) (softEdges d)));
    put (set_possible l);;
    mret (if zlen (softEdges d) =? 0 then None else Some (zlen (softEdges d)))
  else mret (Some softFound).

Fixpoint test_constraints (constraints : list EDGE) (softFound : Z) : DM (option Z) :=
  match constraints with
  | [] => mret (Some softFound)
  | e :: constraints =>
      r ← test_proc (waiter e) softFound;
      match r with
      | None => mret None
      | Some softFound =>
          r ← test_proc (blocker e) softFound;
          match r with
          | None => mret None
          | Some softFound => test_constraints constraints softFound
          end
      end
  end.

Definition TestConfiguration (startProc : Z) : DM Z :=
  d ← get_detector;
  if maxPossibleConstraints <? nPossibleConstraints d + MaxBackends then mret (-1)
  else
    ok ← ExpandConstraints;
    if ok : bool then
      d ← get_detector;
      r ← test_constraints (curConstraints d) 0;
      match r with
      | None => mret (-1)
      | Some softFound =>
          r ← test_proc startProc softFound;
          mret (default (-1) r)
      end
    else mret (-1).

(** *** DeadLockCheckRecurse *)
Section Try.
Context (rec : DM bool) (proc : Z) (savedList : bool) (oldPossibleConstraints nEdges : Z).

Fixpoint try_edges (n : nat) (i : Z) : DM bool :=
  match n with
  | O => mret true
  | S n =>
      (if negb savedList && (0 <? i)
       then k ← TestConfiguration proc; if nEdges =? k then mret tt else dlift (Report ERRCODE_INTERNAL_ERROR)
       else mret tt);;
      d ← get_detector;
      e ← dlift (inside (zlookup (possibleConstraints d) (oldPossibleConstraints + i)));
      put (set_cur (curConstraints d ++ [e]));;
      r ← rec;
      if r : bool then
        d ← get_detector;
        put (set_cur (take (length (curConstraints d) - 1) (curConstraints d)));;
        try_edges n (i + 1)
      else mret false
  end.
End Try.

Fixpoint DeadLockCheckRecurse (fuel : nat) (proc : Z) : DM bool :=
  match fuel with
  | O => dlift Outside
  | S fuel =>
      nEdges ← TestConfiguration proc;
      if nEdges <? 0 then mret true
      else if nEdges =? 0 then mret false
      else
        d ← get_detector;
        if maxCurConstraints <=? zlen (curConstraints d) then mret true
        else
          let oldPossibleConstraints := nPossibleConstraints d in
          let savedList := oldPossibleConstraints + nEdges + MaxBackends <=? maxPossibleConstraints in
          (if savedList then put (set_npossible (oldPossibleConstraints + nEdges)) else mret tt);;
          r ← try_edges (DeadLockCheckRecurse fuel proc) proc savedList oldPossibleConstraints nEdges (Z.to_nat nEdges) 0;
          if r : bool then put (set_npossible oldPossibleConstraints);; mret true else mret false
  end.
End Search.

(** ** The check *)

Section Thread.
Context {lim : DeadLockLimits} {th : LockThread}.

Definition InitDeadLockChecking : Detector :=
  let no_edge := MkEdge 0 0 (MkTag 0 0 0 0 0 0 0) 0 0 in
  MkDetector [] (replicate (Z.to_nat MaxBackends) (MkInfo (MkTag 0 0 0 0 0 0 0) 0 0)) 0 [] [] []
    (replicate (Z.to_nat maxPossibleConstraints) no_edge) 0 [] None.

Definition GetBlockingAutoVacuumPgproc (d : Detector) : option Z * Detector :=
  match last (blocking_autovacuum_proc d) with
  | Some p => (Some p, set_autovacuum (take (length (blocking_autovacuum_proc d) - 1) (blocking_autovacuum_proc d)) d)
  | None => (None, d)
  end.

Definition GetBlockingRedistributionPgproc : LM (option Z) :=
  s ← get_state;
  modify (set_redist None);;
  mret (blocking_redistribution_proc s).

Fixpoint rearrange (orders : list WAIT_ORDER) : LM unit :=
  match orders with
  | [] => mret tt
  | o :: orders =>
      l ← get_lock (wo_lock o);
      put_lock (wo_lock o) (set_waitprocs (wo_procs o) l);;
      t ← lift (GetLocksMethodTable (wo_lock o));
      ProcLockWakeup t (wo_lock o);;
      rearrange orders
  end.

(** The field of the session that the search sets is the one of the table. *)
Definition start_check (s : LockState) (d : Detector) : Detector :=
  set_blocking_redist (blocking_redistribution_proc s)
    (set_cur [] (set_npossible 0 (set_orders [] (set_autovacuum [] d)))).

Definition DeadLockCheck (proc : Z) (d : Detector) : LM (DeadLockState * Detector) :=
  s ← get_state;
  '(hard, d) ← lift (DeadLockCheckRecurse s (S (S (Z.to_nat MaxBackends))) proc (start_check s d));
  if hard : bool then
    '(found, d) ← lift (FindLockCycle s proc (set_orders [] d));
    modify (set_redist (blocking_redist d));;
    if found : bool then mret (DS_HARD_DEADLOCK, d) else lift (Report ERRCODE_INTERNAL_ERROR)
  else
    modify (set_redist (blocking_redist d));;
    rearrange (waitOrders d);;
    if negb (bool_decide (waitOrders d = [])) then mret (DS_SOFT_DEADLOCK, d)
    else if negb (bool_decide (blocking_autovacuum_proc d = [])) then mret (DS_BLOCKED_BY_AUTOVACUUM, d)
    else
      s ← get_state;
      match blocking_redistribution_proc s with
      | Some q =>
          redist ← IsOtherProcRedistribution q;
          if redist : bool then mret (DS_BLOCKED_BY_REDISTRIBUTION, d)
          else modify (set_redist None);; mret (DS_NO_DEADLOCK, d)
      | None => mret (DS_NO_DEADLOCK, d)
      end.

(** *** The message

    The lines "Process ... waits for ... on ...; blocked by process ...". *)
Record ReportLine := MkLine {
  line_pid : Z;
  line_mode : Z;
  line_tag : LOCKTAG;
  line_next : Z }.

Definition report_line (d : Detector) (i : Z) : run ReportLine :=
  info ← inside (zlookup (deadlockDetails d) i);
  next ← inside (zlookup (deadlockDetails d) (if i <? nDeadlockDetails d - 1 then i + 1 else 0));
  mret (MkLine (info_pid info) (lockmode info) (locktag info) (info_pid next)).

Fixpoint report_lines (d : Detector) (n : nat) (i : Z) : run (list ReportLine) :=
  match n with
  | O => mret []
  | S n => line ← report_line d i; lines ← report_lines d n (i + 1); mret (line :: lines)
  end.

Definition DeadLockReport (d : Detector) : run (list ReportLine) :=
  report_lines d (Z.to_nat (nDeadlockDetails d)) 0.

(** For the deadlock of two that [ProcSleep] finds itself. *)
Definition RememberSimpleDeadLock (s : LockState) (proc1 lockmode : Z) (tag : LOCKTAG) (proc2 : Z) : DM unit :=
  p1 ← the_proc s proc1;
  d ← get_detector;
  l ← dlift (inside (zupdate (deadlockDetails d) 0 (MkInfo tag lockmode (pid p1))));
  p2 ← the_proc s proc2;
  tag2 ← dlift (inside (waitLock p2));
  l ← dlift (inside (zupdate l 1 (MkInfo tag2 (waitLockMode p2) (pid p2))));
  put (fun d => set_ndetails 2 (set_details l d)).

(** *** CheckDeadLock

    [None] when somebody has woken the process before. *)
Context (log_lock_waits : bool) (LockWaitTimeout : Z).

Definition unlock_sem (p : Z) : LM unit := modify (fun s => set_sems (unlocked_sems s ++ [p]) s).

Definition CheckDeadLock (d : Detector) : LM (option DeadLockState * Detector) :=
  me ← get_proc my_proc;
  if negb (linked me) then mret (None, d)
  else
    '(st, d) ← DeadLockCheck my_proc d;
    (if decide (st = DS_HARD_DEADLOCK) then RemoveFromWaitQueue my_proc;; unlock_sem my_proc
     else if log_lock_waits || bool_decide (st = DS_BLOCKED_BY_AUTOVACUUM) || bool_decide (st = DS_BLOCKED_BY_REDISTRIBUTION)
     then unlock_sem my_proc
     else if 0 <? LockWaitTimeout then unlock_sem my_proc
     else mret tt);;
    mret (Some st, d).
End Thread.
