(* ===== verification/DeadSearch.v ===== *)
(** The search for a cycle ([FindLockCycle], DeadLock.v) against the waits-for
    graph of the lock table.

    A node is a lock group, named by its leader.  [edge] is read off the table:
    a member of the group waits for a lock, and somebody of another group holds
    it in a conflicting mode or is ahead in the queue with a conflicting
    request. *)
From S2P Require Import Prelude Lock LockInv LockWait LockAcquire DeadLock.
From stdpp Require Import list gmap.
#[local] Open Scope Z_scope.

(** ** Total runs *)

Definition dwp {A} (m : DM A) (Q : A -> Detector -> Prop) (d : Detector) : Prop :=
  match m d with Done (a, d') => Q a d' | _ => False end.

Lemma dwp_ret {A} (a : A) (Q : A -> Detector -> Prop) d : Q a d -> dwp (mret a) Q d.
Proof. done. Qed.
Lemma dwp_bind {A B} (m : DM A) (k : A -> DM B) Q d : dwp m (fun a d' => dwp (k a) Q d') d -> dwp (m ≫= k) Q d.
Proof. unfold dwp, mbind, DM_bind. by destruct (m d) as [[a d']| |]. Qed.
Lemma dwp_step {A B} (m : DM A) (k : A -> DM B) (a : A) Q d d' : m d = Done (a, d') -> dwp (k a) Q d' -> dwp (m ≫= k) Q d.
Proof. unfold dwp, mbind, DM_bind. by intros ->. Qed.
Lemma dwp_mono {A} (m : DM A) (Q Q' : A -> Detector -> Prop) d : (forall a d', Q a d' -> Q' a d') -> dwp m Q d -> dwp m Q' d.
Proof. unfold dwp. destruct (m d) as [[a d']| |]; auto. Qed.
Lemma dwp_lift {A} (r : run A) (a : A) (Q : A -> Detector -> Prop) d : r = Done a -> Q a d -> dwp (dlift r) Q d.
Proof. by intros ->. Qed.
Lemma dwp_get (Q : Detector -> Detector -> Prop) d : Q d d -> dwp get_detector Q d.
Proof. done. Qed.
Lemma dwp_put f (Q : unit -> Detector -> Prop) d : Q tt (f d) -> dwp (put f) Q d.
Proof. done. Qed.
Lemma dwp_run {A} (m : DM A) Q d : dwp m Q d -> exists a d', m d = Done (a, d') /\ Q a d'.
Proof. unfold dwp. destruct (m d) as [[a d']| |]; [|done..]. by exists a, d'. Qed.

(** ** The waits-for graph *)

Section Graph.
Context (s : LockState) (orders : list WAIT_ORDER).

(** [q] holds, outside the group of [p], what conflicts with the mode [m]. *)
Definition hard_block (p : Z) (tag : LOCKTAG) (m q : Z) : Prop :=
  leader s q <> leader s p /\ exists m', holds_at s tag q m' /\ conflict m m' = true.

(** [q] is ahead of [p], or of the last of its group, in the queue of [tag] and
    asks for what conflicts with [m].  An order of [orders] stands for the
    queue; there the search ends at the own process only. *)
Definition soft_block (p : Z) (tag : LOCKTAG) (m q : Z) : Prop :=
  (exists m', waits_at s q tag m' /\ conflict m m' = true) /\
  match find_order tag orders with
  | Some procs => exists l1 l2, procs = l1 ++ q :: l2 /\ forall x, x ∈ l1 ++ [q] -> leader s x <> p
  | None => leader s q <> leader s p /\ exists l l1 l2, LockMethodLockHash s !! tag = Some l /\ waitProcs l = l1 ++ q :: l2
      /\ exists x, x ∈ l2 /\ leader s x = leader s p
  end.

Definition edge (g g' : Z) : Prop :=
  exists p tag m q, waits_at s p tag m /\ leader s p = g /\ (hard_block p tag m q \/ soft_block p tag m q) /\ leader s q = g'.

Definition pid_of (p : Z) : Z := from_option pid 0 (allProcs s !! p).

(** A way from the group [g] to the group [start], with what the detector notes
    of each edge. *)
Inductive trail (start : Z) : Z -> list (DEADLOCK_INFO * option EDGE) -> Prop :=
  | trail_end : trail start start []
  | trail_hard p tag m q rest : waits_at s p tag m -> hard_block p tag m q -> trail start (leader s q) rest ->
      trail start (leader s p) ((MkInfo tag m (pid_of p), None) :: rest)
  | trail_soft p tag m q rest : waits_at s p tag m -> soft_block p tag m q -> trail start (leader s q) rest ->
      trail start (leader s p) ((MkInfo tag m (pid_of p), Some (MkEdge (leader s p) (leader s q) tag 0 0)) :: rest).

(** The orders are orders of the queues. *)
Definition orders_ok : Prop :=
  forall tag procs, find_order tag orders = Some procs -> exists l, LockMethodLockHash s !! tag = Some l /\ procs ≡ₚ waitProcs l.
End Graph.

(** ** Lock groups and queues *)

Lemma split_unique {A} (x : A) l1 l2 k1 k2 : NoDup (l1 ++ x :: l2) -> l1 ++ x :: l2 = k1 ++ x :: k2 -> l1 = k1 /\ l2 = k2.
Proof.
  revert k1. induction l1 as [|y l1 IH]; intros [|z k1]; cbn; intros Hnd E; injection E; [done| | |].
  - intros -> <-. apply NoDup_cons in Hnd as [[] _]. rewrite elem_of_app, elem_of_cons. by right; left.
  - intros <- ->. apply NoDup_cons in Hnd as [[] _]. rewrite elem_of_app, elem_of_cons. by right; left.
  - intros E' ->. apply NoDup_cons in Hnd as [_ Hnd]. by destruct (IH k1 Hnd E') as [-> ->].
Qed.

Section Groups.
Context (s : LockState) (Htab : table_ok s).

Lemma leader_group p proc : allProcs s !! p = Some proc -> group_leader p proc = leader s p.
Proof. unfold leader. by intros ->. Qed.

Lemma leader_known p : is_Some (allProcs s !! p) -> is_Some (allProcs s !! leader s p) /\ leader s (leader s p) = leader s p.
Proof.
  intros [proc Hp]. unfold leader at 1 3 4. rewrite Hp. cbn. unfold leader_of. destruct (lockGroupLeader proc) as [g|] eqn:Hg; cbn.
  - destruct (gr_leader _ (tb_groups s Htab) p proc g Hp Hg) as (l & Hl & Hll & _). split; [done|].
    unfold leader. rewrite Hl. cbn. unfold leader_of. by rewrite Hll.
  - split; [done|]. unfold leader. rewrite Hp. cbn. unfold leader_of. by rewrite Hg.
Qed.

(** A process without a group is alone; a group has one leader. *)
Lemma leader_alone p proc x : allProcs s !! p = Some proc -> lockGroupLeader proc = None -> leader s x = leader s p <-> x = p.
Proof.
  intros Hp Hg. split; [|by intros ->]. rewrite <- (leader_group p proc) by done. unfold group_leader. rewrite Hg. cbn.
  unfold leader. destruct (allProcs s !! x) as [px|] eqn:Hx; [|done]. cbn. unfold leader_of.
  destruct (lockGroupLeader px) as [g|] eqn:Hgx; [|done]. cbn. intros ->.
  destruct (gr_leader _ (tb_groups s Htab) x px p Hx Hgx) as (l & Hl & Hll & _). congruence.
Qed.

Lemma leader_member p proc g x px : allProcs s !! p = Some proc -> lockGroupLeader proc = Some g -> allProcs s !! x = Some px ->
  leader s x = leader s p <-> lockGroupLeader px = Some g.
Proof.
  intros Hp Hg Hx. rewrite <- (leader_group p proc), <- (leader_group x px) by done. unfold group_leader. rewrite Hg. cbn.
  destruct (lockGroupLeader px) as [gx|] eqn:Hgx; cbn; [split; congruence|]. split; [|done]. intros ->.
  destruct (gr_leader _ (tb_groups s Htab) p proc g Hp Hg) as (l & Hl & Hll & _). congruence.
Qed.

Lemma group_members x g : is_Some (allProcs s !! x) -> leader s x = g -> x <> g ->
  exists l, allProcs s !! g = Some l /\ x ∈ lockGroupMembers l.
Proof.
  intros [px Hx] <- Hne. rewrite <- (leader_group x px) in * by done. unfold group_leader in *. destruct (lockGroupLeader px) as [g|] eqn:Hgx; [|done].
  cbn in *. destruct (gr_leader _ (tb_groups s Htab) x px g Hx Hgx) as (l & Hl & _ & Hin). by exists l.
Qed.

Lemma member_leader g l x : allProcs s !! g = Some l -> x ∈ lockGroupMembers l -> is_Some (allProcs s !! x) /\ leader s x = g.
Proof.
  intros Hl Hx. destruct (gr_members _ (tb_groups s Htab) g l x Hl Hx) as (_ & px & Hpx & Hgx). split; [done|].
  rewrite <- (leader_group x px) by done. unfold group_leader. by rewrite Hgx.
Qed.

(** Who waits is in the queue, and who is in the queue waits. *)
Lemma waits_queue p tag m : waits_at s p tag m -> exists l, LockMethodLockHash s !! tag = Some l /\ p ∈ waitProcs l /\ mode_ok m.
Proof.
  intros (proc & Hp & Hw & <-). pose proof (tb_waits s Htab p proc Hp) as H. rewrite Hw in H. destruct H as (l & Hl & Hin).
  exists l. split_and!; [done|done|]. destruct (sh_waiting _ _ _ _ (lk_shape _ _ _ _ _ (lg_ok _ _ _ (tb_locks s Htab tag l Hl))) p Hin) as (x & Hx).
  rewrite (w_proc _ _ _ _ _ Hx) in Hp. injection Hp as <-. apply Hx.
Qed.

Lemma queue_waits tag l x : LockMethodLockHash s !! tag = Some l -> x ∈ waitProcs l ->
  exists px, allProcs s !! x = Some px /\ waits_at s x tag (waitLockMode px) /\ mode_ok (waitLockMode px).
Proof.
  intros Hl Hin. destruct (sh_waiting _ _ _ _ (lk_shape _ _ _ _ _ (lg_ok _ _ _ (tb_locks s Htab tag l Hl))) x Hin) as (px & Hx).
  exists px. split_and!; [apply Hx| |apply Hx]. exists px. split_and!; [apply Hx|apply Hx|done].
Qed.

Lemma waits_linked p proc : allProcs s !! p = Some proc -> linked proc && bool_decide (waitLock proc <> None) = bool_decide (waitLock proc <> None).
Proof.
  intros Hp. case_bool_decide as Hw; [|by rewrite andb_false_r]. rewrite andb_true_r.
  destruct (waitLock proc) as [tag|] eqn:E; [|done]. pose proof (tb_waits s Htab p proc Hp) as H. rewrite E in H. destruct H as (l & Hl & Hin).
  destruct (sh_waiting _ _ _ _ (lk_shape _ _ _ _ _ (lg_ok _ _ _ (tb_locks s Htab tag l Hl))) p Hin) as (x & Hx).
  rewrite (w_proc _ _ _ _ _ Hx) in Hp. injection Hp as <-. apply Hx.
Qed.

Lemma holder_known tag l pl : LockMethodLockHash s !! tag = Some l -> pl ∈ procLocks l -> is_Some (allProcs s !! myProc pl).
Proof.
  intros Hl Hpl. destruct (sh_leader _ _ _ _ (lk_shape _ _ _ _ _ (lg_ok _ _ _ (tb_locks s Htab tag l Hl))) pl Hpl) as (x & Hx & _). by exists x.
Qed.
End Groups.

(** ** The state of a search *)

(** Only the blockers to cancel are noted. *)
Record same_search (d d' : Detector) : Prop := {
  ss_visited : visitedProcs d' = visitedProcs d;
  ss_details : deadlockDetails d' = deadlockDetails d;
  ss_ndetails : nDeadlockDetails d' = nDeadlockDetails d;
  ss_soft : softEdges d' = softEdges d;
  ss_orders : waitOrders d' = waitOrders d }.
#[global] Instance same_search_preorder : PreOrder same_search.
Proof. split; [by intros d; constructor|]. intros d1 d2 d3 [] []. constructor; congruence. Qed.

Section Search.
Context {lim : DeadLockLimits} {th : LockThread} (s : LockState) (Htab : table_ok s).
Context (Hsize : Z.of_nat (size (allProcs s)) <= MaxBackends).
Context (orders : list WAIT_ORDER) (Horders : orders_ok s orders) (start : Z).

(** While it searches: the groups visited, the first of which is [start]. *)
Record search_ok (d : Detector) : Prop := {
  so_start : exists rest, visitedProcs d = start :: rest;
  so_nodup : NoDup (visitedProcs d);
  so_procs : forall v, v ∈ visitedProcs d -> is_Some (allProcs s !! v);
  so_details : zlen (deadlockDetails d) = MaxBackends;
  so_soft : softEdges d = [];
  so_orders : waitOrders d = orders }.

(** From [d] to [d'] groups have been visited, all edges of which were followed;
    so were those to [ys].  None leads to [start]. *)
Record searched (d d' : Detector) (ys : Z -> Prop) : Prop := {
  sd_ok : search_ok d';
  sd_visited : exists ext, visitedProcs d' = visitedProcs d ++ ext /\
    forall x y, x ∈ ext -> edge s orders x y -> y ∈ visitedProcs d' /\ y <> start;
  sd_done : forall y, ys y -> y ∈ visitedProcs d' /\ y <> start }.

(** The way [tr] from a group at depth [depth] to [start] has been found. *)
Record found (depth : Z) (tr : list (DEADLOCK_INFO * option EDGE)) (d' : Detector) : Prop := {
  fd_details : exists before after, deadlockDetails d' = before ++ (fst <$> tr) ++ after /\ zlen before = depth;
  fd_length : nDeadlockDetails d' = depth + zlen tr /\ depth + zlen tr <= MaxBackends;
  fd_size : zlen (deadlockDetails d') = MaxBackends;
  fd_soft : softEdges d' = reverse (omap snd tr);
  fd_orders : waitOrders d' = orders }.

Lemma search_same d d' : search_ok d -> same_search d d' -> search_ok d'.
Proof. intros [H1 H2 H3 H4 H5 H6] [E1 E2 E3 E4 E5]. constructor; rewrite ?E1, ?E2, ?E4, ?E5; done. Qed.

Lemma searched_same d d1 ys : search_ok d -> same_search d d1 -> (forall y, ~ ys y) -> searched d d1 ys.
Proof.
  intros Hd Hs Hy. constructor; [by eapply search_same| |by intros y ?%Hy].
  exists []. rewrite app_nil_r. split; [apply Hs|]. by intros x y Hx%elem_of_nil.
Qed.

Lemma searched_trans d1 d2 d3 ys ys' : searched d1 d2 ys -> searched d2 d3 ys' -> searched d1 d3 (fun y => ys y \/ ys' y).
Proof.
  intros [A1 (e1 & E1 & A2) A3] [B1 (e2 & E2 & B2) B3].
  assert (Hsub : forall y, y ∈ visitedProcs d2 -> y ∈ visitedProcs d3) by (intros y Hy; rewrite E2, elem_of_app; by left).
  constructor; [done| |].
  - exists (e1 ++ e2). rewrite E2, E1, <- app_assoc. split; [done|]. rewrite app_assoc, <- E1, <- E2.
    intros x y [Hx|Hx]%elem_of_app He; [|by apply (B2 x)]. destruct (A2 x y Hx He). split; [by apply Hsub|done].
  - intros y [Hy|Hy]; [|by apply B3]. destruct (A3 y Hy). split; [by apply Hsub|done].
Qed.

Lemma searched_weaken d d' (ys ys' : Z -> Prop) : (forall y, ys' y -> ys y) -> searched d d' ys -> searched d d' ys'.
Proof. intros Hsub [H1 H2 H3]. constructor; [done|done|]. intros y Hy. by apply H3, Hsub. Qed.

(** What the recursion promises for a group at the depth [depth]. *)
Definition rec_post (depth : Z) (g : Z) (d : Detector) (b : bool) (d' : Detector) : Prop :=
  if b then exists tr, trail s orders start g tr /\ found depth tr d'
  else searched d d' (fun y => y = g).

Definition rec_ok (rec : Z -> Z -> DM bool) (depth : Z) (n : Z) : Prop :=
  forall q d, search_ok d -> is_Some (allProcs s !! q) -> n <= zlen (visitedProcs d) ->
    dwp (rec q depth) (rec_post depth (leader s q) d) d.

(** The found way is extended by the edge to its first group. *)
Lemma fill_details_spec depth tag check tr d Q : 0 <= depth -> found (depth + 1) tr d ->
  (forall d', (exists before after, deadlockDetails d' = before ++ (MkInfo tag (waitLockMode check) (pid check) :: (fst <$> tr)) ++ after /\ zlen before = depth) ->
     zlen (deadlockDetails d') = MaxBackends -> nDeadlockDetails d' = nDeadlockDetails d -> softEdges d' = softEdges d ->
     waitOrders d' = waitOrders d -> Q tt d') ->
  dwp (fill_details depth tag check) Q d.
Proof.
  intros Hdepth [(before & after & E & Hlen) [Hn Hle] Hsz Hsoft Hord] HQ. unfold fill_details. apply dwp_bind, dwp_get, dwp_bind.
  pose proof (zlen_nonneg tr) as Htr. eapply dwp_lift; [by rewrite zupdate_in by lia|]. apply dwp_put, HQ; cbn; [|by rewrite zlen_zset|done..].
  destruct before as [|x before _] using rev_ind; [cbn in Hlen; change (zlen []) with 0 in Hlen; lia|].
  rewrite zlen_app in Hlen. change (zlen [x]) with 1 in Hlen. exists before, after. split; [|lia].
  unfold zset. rewrite E. replace (Z.to_nat depth) with (length before + 0)%nat by (unfold zlen in Hlen; lia).
  rewrite <- !app_assoc, insert_app_r. done.
Qed.

Lemma soft_edge_spec tag g g' depth check tr d Q : 0 <= depth -> found (depth + 1) tr d ->
  (forall d', found depth ((MkInfo tag (waitLockMode check) (pid check), Some (MkEdge g g' tag 0 0)) :: tr) d' -> Q tt d') ->
  dwp (soft_edge tag g g' depth check) Q d.
Proof.
  intros Hdepth Hf HQ. pose proof Hf as [_ [Hn Hle] _ Hsoft Hord]. unfold soft_edge. apply dwp_bind.
  eapply fill_details_spec; [done|done|]. intros d' Hd Hz Hnd Hs Ho. apply dwp_bind, dwp_get.
  assert (Hlen : zlen (omap snd tr) <= zlen tr) by (unfold zlen; rewrite <- (length_fmap fst tr); clear; induction tr as [|[? [|]] tr IH]; cbn in *; lia).
  assert (Hrev : zlen (softEdges d') = zlen (omap snd tr)) by (unfold zlen; by rewrite Hs, Hsoft, length_reverse).
  rewrite (proj2 (Z.ltb_lt _ _)) by lia. apply dwp_put, HQ.
  constructor; cbn [softEdges set_soft nDeadlockDetails deadlockDetails waitOrders]; [done|rewrite zlen_cons; lia|done| |congruence].
  transitivity (reverse (MkEdge g g' tag 0 0 :: omap snd tr)); [by rewrite reverse_cons, Hs, Hsoft|done].
Qed.

Lemma hard_found depth tag check tr d Q : 0 <= depth -> found (depth + 1) tr d ->
  (forall d', found depth ((MkInfo tag (waitLockMode check) (pid check), None) :: tr) d' -> Q tt d') ->
  dwp (fill_details depth tag check) Q d.
Proof.
  intros Hdepth Hf HQ. pose proof Hf as [_ [Hn Hle] _ Hsoft Hord]. eapply fill_details_spec; [done|done|]. intros d' Hd Hz Hnd Hs Ho. apply HQ.
  constructor; [done|rewrite zlen_cons; lia|done| |congruence]. transitivity (reverse (omap snd tr)); [congruence|done].
Qed.

Lemma remember_spec proc d : dwp (remember_autovacuum proc) (fun _ d' => same_search d d') d.
Proof. unfold remember_autovacuum. apply dwp_bind, dwp_get. case_match; [apply dwp_put|apply dwp_ret]; by constructor. Qed.

Lemma note_spec check proc flags d : dwp (note_blocker check proc flags) (fun _ d' => same_search d d') d.
Proof.
  unfold note_blocker. repeat (case_match; [|try apply dwp_ret; try done]); try apply remember_spec.
  apply dwp_put. by constructor.
Qed.

Lemma waiting_autovacuum_spec n mask x p g d : is_Some (allProcs s !! x) ->
  dwp (waiting_autovacuum s n mask (Some x) p g) (fun _ d' => same_search d d') d.
Proof.
  intros [px Hx]. revert d. induction n as [|n IH]; intros d; cbn; [by apply dwp_ret|].
  apply dwp_bind. eapply dwp_lift; [done|]. case_match; [by apply dwp_ret|].
  apply dwp_bind. eapply dwp_lift; [by rewrite Hx|]. apply dwp_bind.
  eapply (dwp_mono _ (fun _ d' => same_search d d')).
  - intros [] d1 H1. eapply dwp_mono; [|apply IH]. intros [] d2 H2. by etrans.
  - case_match; [apply remember_spec|by apply dwp_ret].
Qed.

Lemma visited_grows d d' ys : searched d d' ys -> zlen (visitedProcs d) <= zlen (visitedProcs d').
Proof. intros [_ (e & -> & _) _]. rewrite zlen_app. pose proof (zlen_nonneg e). lia. Qed.

(** *** One lock that a member waits for *)
Section Member.
Context (rec : Z -> Z -> DM bool) (depth n : Z) (Hdepth : 0 <= depth) (Hrec : rec_ok rec (depth + 1) n).
Context (p : Z) (check : PGPROC) (tag : LOCKTAG) (l : LOCK) (t : LockMethodData).
Context (Hp : allProcs s !! p = Some check) (Hw : waitLock check = Some tag) (Hl : LockMethodLockHash s !! tag = Some l).
Context (Hin : p ∈ waitProcs l) (Ht : method_ok t) (Hmode : mode_ok (waitLockMode check)).
Let m := waitLockMode check.
Let mask := znth LockConflicts m.

(** What a scan promises that follows the edges to [ys]. *)
Definition scan_post (ys : Z -> Prop) (d : Detector) (b : bool) (d' : Detector) : Prop :=
  if b then exists tr, tr <> [] /\ trail s orders start (leader s p) tr /\ found depth tr d' else searched d d' ys.

Lemma member_waits : waits_at s p tag m.
Proof. by exists check. Qed.

Lemma scan_trans ys ys' d d1 b d' : searched d d1 ys -> scan_post ys' d1 b d' -> scan_post (fun y => ys y \/ ys' y) d b d'.
Proof. destruct b; [done|]. intros H1 H2. by eapply searched_trans. Qed.
Lemma scan_weaken ys ys' d b d' : (forall y, ys' y -> ys y) -> scan_post ys d b d' -> scan_post ys' d b d'.
Proof. destruct b; [done|]. apply searched_weaken. Qed.

Lemma conflicting_mode_spec hold : mask_ok hold -> conflicting_mode 8 1 hold mask = true <-> exists m', Z.testbit hold m' = true /\ conflict m m' = true.
Proof.
  intros [Hnn Hr]. assert (Hc : forall k i, 1 <= i -> conflicting_mode k i hold mask = true
    <-> exists m', i <= m' < i + Z.of_nat k /\ Z.testbit hold m' = true /\ conflict m m' = true).
  { intros k. induction k as [|k IH]; intros i Hi; cbn [conflicting_mode].
    - split; [done|]. intros (m' & ? & _). lia.
    - rewrite orb_true_iff, IH, !land_bit_on, !negb_involutive, andb_true_iff by lia. split.
      + intros [[H1 H2]|(m' & ? & H1 & H2)]; [exists i|exists m']; (split; [lia|done]).
      + intros (m' & Hm & H1 & H2). destruct (decide (m' = i)) as [->|]; [by left|right]. exists m'. split; [lia|done]. }
  rewrite Hc by lia. split; [by intros (m' & _ & ? & ?); exists m'|]. intros (m' & H1 & H2). exists m'. pose proof (Hr m' H1). unfold mode_ok in *.
  split; [lia|done].
Qed.

Definition hard_target (pls : list PROCLOCK) (y : Z) : Prop := exists pl, pl ∈ pls /\ hard_block s p tag m (myProc pl) /\ y = leader s (myProc pl).

Lemma hard_block_here pl : pl ∈ procLocks l ->
  hard_block s p tag m (myProc pl) <-> leader s (myProc pl) <> leader s p /\ conflicting_mode 8 1 (holdMask pl) mask = true.
Proof.
  intros Hpl. pose proof (lk_shape _ _ _ _ _ (lg_ok _ _ _ (tb_locks s Htab tag l Hl))) as Hsh.
  rewrite conflicting_mode_spec by (by eapply sh_masks). unfold hard_block. apply and_iff_compat_l. split.
  - intros (m' & (l' & Hl' & pl' & Hpl' & E & Hb) & Hc). assert (l' = l) as -> by congruence.
    rewrite (same_proclock _ (sh_nodup _ _ _ _ Hsh) pl' pl Hpl' Hpl E) in Hb. by exists m'.
  - intros (m' & Hb & Hc). exists m'. split; [|done]. exists l. split; [done|]. by exists pl.
Qed.

Lemma hard_edges_spec pls d : (forall pl, pl ∈ pls -> pl ∈ procLocks l) -> search_ok d -> n <= zlen (visitedProcs d) ->
  dwp (hard_edges s rec 8 mask tag p (leader s p) check depth pls) (scan_post (hard_target pls) d) d.
Proof.
  revert d. induction pls as [|pl pls IH]; intros d Hsub Hd Hn; cbn [hard_edges].
  { apply dwp_ret, searched_same; [done|done|]. by intros y (x & Hx%not_elem_of_nil & _). }
  assert (Hpl : pl ∈ procLocks l) by (apply Hsub; by left). assert (Hsub' : forall x, x ∈ pls -> x ∈ procLocks l) by (intros x Hx; apply Hsub; by right).
  destruct (holder_known s Htab tag l pl Hl Hpl) as [q Hq]. apply dwp_bind. eapply dwp_lift; [by rewrite Hq|].
  rewrite (leader_group s (myProc pl) q Hq). pose proof (hard_block_here pl Hpl) as Hiff.
  destruct (negb (leader s (myProc pl) =? leader s p) && conflicting_mode 8 1 (holdMask pl) mask) eqn:Hc.
  - apply andb_true_iff in Hc as [Hc1%negb_true_iff%Z.eqb_neq Hc2].
    assert (Hb : hard_block s p tag m (myProc pl)) by (apply Hiff; done).
    apply dwp_bind. eapply dwp_mono; [|by apply Hrec]. intros [|] d1 H1.
    + destruct H1 as (tr & Htr & Hf). apply dwp_bind. eapply hard_found; [done|done|]. intros d2 Hf2. apply dwp_ret.
      eexists. split; [|split; [|exact Hf2]]; [done|]. replace (pid check) with (pid_of s p) by (unfold pid_of; by rewrite Hp).
      apply trail_hard with (myProc pl); [apply member_waits|done|done].
    + cbn in H1. apply dwp_bind. eapply dwp_mono; [|apply note_spec]. intros [] d2 H2.
      assert (H3 : searched d d2 (fun y => y = leader s (myProc pl) \/ False)).
      { eapply searched_trans; [exact H1|]. apply searched_same; [apply H1|done|tauto]. }
      eapply dwp_mono; [|apply IH; [done|apply H3|pose proof (visited_grows _ _ _ H3); lia]].
      intros b d' H4. eapply scan_weaken, scan_trans; [|exact H3|exact H4].
      intros y (x & [->|Hx]%elem_of_cons & Hxb & ->); [by left; left|]. right. by exists x.
  - eapply dwp_mono; [|by apply IH]. intros b d' H4. eapply scan_weaken; [|exact H4].
    intros y (x & [->|Hx]%elem_of_cons & Hxb & ->); [|by exists x]. apply Hiff in Hxb as [Hx1 Hx2]. rewrite Hx2, andb_true_r in Hc.
    apply negb_false_iff, Z.eqb_eq in Hc. done.
Qed.

(** [q] is in the queue [procs] before [stop] holds, with a conflicting request. *)
Definition ahead_in (stop : Z -> Prop) (skip : bool) (procs : list Z) (q : Z) : Prop :=
  (exists l1 l2, procs = l1 ++ q :: l2 /\ forall x, x ∈ l1 ++ [q] -> ~ stop x) /\ (exists m', waits_at s q tag m' /\ conflict m m' = true)
  /\ (skip = true -> leader s q <> leader s p).

Lemma ahead_in_cons stop skip x procs q : ahead_in stop skip (x :: procs) q ->
  ~ stop x /\ ((q = x /\ (exists m', waits_at s x tag m' /\ conflict m m' = true) /\ (skip = true -> leader s x <> leader s p)) \/ ahead_in stop skip procs q).
Proof.
  intros ((l1 & l2 & E & Hs) & Hc & Hk). destruct l1 as [|y l1]; injection E as -> E; cbn in Hs.
  - split; [apply Hs; by left|by left].
  - split; [apply Hs; by left|]. right. split; [|done]. exists l1, l2. split; [done|]. intros z Hz. apply Hs. by right.
Qed.

Lemma soft_edges_spec stop (stops : Z -> Prop) skip procs d : (forall x px, allProcs s !! x = Some px -> stop x px = true <-> stops x) ->
  (forall x, x ∈ procs -> x ∈ waitProcs l) -> (forall q, ahead_in stops skip procs q -> soft_block s orders p tag m q) ->
  search_ok d -> n <= zlen (visitedProcs d) ->
  dwp (soft_edges s rec stop skip mask tag (leader s p) check depth procs)
    (scan_post (fun y => exists q, ahead_in stops skip procs q /\ y = leader s q) d) d.
Proof.
  intros Hstop. revert d. induction procs as [|x procs IH]; intros d Hsub Hblock Hd Hn; cbn [soft_edges].
  { apply dwp_ret, searched_same; [done|done|]. by intros y (q & ((l1 & l2 & E & _) & _) & _); destruct l1. }
  destruct (queue_waits s Htab tag l x Hl ltac:(apply Hsub; by left)) as (px & Hx & Hxw & Hxm).
  apply dwp_bind. eapply dwp_lift; [by rewrite Hx|]. rewrite (leader_group s x px Hx). destruct (stop x px) eqn:Hst.
  { apply Hstop in Hst; [|done]. apply dwp_ret, searched_same; [done|done|]. by intros y (q & [Hns _]%ahead_in_cons & _). }
  assert (Hns : ~ stops x) by (rewrite <- (Hstop x px Hx); congruence).
  assert (Hnext : forall q, ahead_in stops skip procs q -> ahead_in stops skip (x :: procs) q).
  { intros q ((l1 & l2 & -> & Hs) & Hq). split; [|done]. exists (x :: l1), l2. split; [done|]. cbn. by intros z [->|Hz%Hs]%elem_of_cons. }
  assert (Hsub' : forall z, z ∈ procs -> z ∈ waitProcs l) by (intros z Hz; apply Hsub; by right).
  rewrite Z.land_comm, land_bit_on, negb_involutive by (unfold mode_ok in Hxm; lia).
  change (Z.testbit mask (waitLockMode px)) with (conflict m (waitLockMode px)).
  destruct (conflict m (waitLockMode px) && negb (skip && (leader s x =? leader s p))) eqn:Hc.
  - apply andb_true_iff in Hc as [Hc1 Hc2]. assert (Hk : skip = true -> leader s x <> leader s p).
    { intros ->. cbn in Hc2. by apply negb_true_iff, Z.eqb_neq in Hc2. }
    assert (Hhere : ahead_in stops skip (x :: procs) x).
    { split; [|split; [by exists (waitLockMode px)|done]]. exists [], procs. split; [done|]. cbn. by intros z ->%list_elem_of_singleton. }
    apply dwp_bind. eapply dwp_mono; [|apply Hrec; [done|by exists px|done]]. intros [|] d1 H1.
    + destruct H1 as (tr & Htr & Hf). apply dwp_bind. eapply soft_edge_spec; [done|done|]. intros d2 Hf2. apply dwp_ret.
      eexists. split; [|split; [|exact Hf2]]; [done|]. replace (pid check) with (pid_of s p) by (unfold pid_of; by rewrite Hp).
      apply trail_soft; [apply member_waits|by apply Hblock|done].
    + cbn in H1. eapply dwp_mono; [|apply IH; [done|auto|apply H1|pose proof (visited_grows _ _ _ H1); lia]].
      intros b d' H4. eapply scan_weaken, scan_trans; [|exact H1|exact H4].
      intros y (q & [_ [(-> & _)|Hq]]%ahead_in_cons & ->); [by left|right; by exists q].
  - eapply dwp_mono; [|apply IH; auto]. intros b d' H4. eapply scan_weaken; [|exact H4].
    intros y (q & [_ [(-> & (m' & Hw' & Hc') & Hk)|Hq]]%ahead_in_cons & ->); [|by exists q].
    destruct Hw' as (px' & Hx' & _ & <-). assert (px' = px) as -> by congruence. rewrite Hc' in Hc. cbn in Hc.
    destruct skip; [|done]. specialize (Hk eq_refl). apply negb_false_iff in Hc. cbn in Hc. by apply Z.eqb_eq in Hc.
Qed.

(** The last of the group in the queue. *)
Lemma last_member_spec g last0 procs d : (forall x, x ∈ procs -> x ∈ waitProcs l) ->
  dwp (last_member s g last0 procs) (fun r d' => d' = d /\
    ((r = last0 /\ forall x px, x ∈ procs -> allProcs s !! x = Some px -> lockGroupLeader px <> Some g)
     \/ exists x px a b, r = Some x /\ procs = a ++ x :: b /\ allProcs s !! x = Some px /\ lockGroupLeader px = Some g
         /\ forall y py, y ∈ b -> allProcs s !! y = Some py -> lockGroupLeader py <> Some g)) d.
Proof.
  revert last0. induction procs as [|x procs IH]; intros last0 Hsub; cbn [last_member].
  { apply dwp_ret. split; [done|left]. split; [done|]. by intros x px ?%not_elem_of_nil. }
  destruct (queue_waits s Htab tag l x Hl ltac:(apply Hsub; by left)) as (px & Hx & _). apply dwp_bind. eapply dwp_lift; [by rewrite Hx|].
  eapply dwp_mono; [|apply IH; intros z Hz; apply Hsub; by right].
  intros r d' [-> [[-> H]|(y & py & a & b & -> & -> & H)]]; (split; [done|]).
  - case_bool_decide as Hg; [right; by exists x, px, [], procs|left]. split; [done|]. intros y py [->|Hy]%elem_of_cons Hpy; [congruence|by apply (H y)].
  - right. by exists y, py, (x :: a), b.
Qed.

(** Without another order the queue itself is scanned up to the last of the group. *)
Lemma ahead_real z : find_order tag orders = None -> leader s z = leader s p ->
  (exists a b, waitProcs l = a ++ z :: b /\ forall y, y ∈ b -> leader s y <> leader s p) ->
  forall q, ahead_in (eq z) true (waitProcs l) q <-> soft_block s orders p tag m q.
Proof.
  intros Ho Hz (a & b & E & Hb) q. pose proof (sh_queue _ _ _ _ (lk_shape _ _ _ _ _ (lg_ok _ _ _ (tb_locks s Htab tag l Hl)))) as Hnd.
  unfold ahead_in, soft_block. rewrite Ho. split.
  - intros ((l1 & l2 & E' & Hs) & Hc & Hk). split; [done|]. split; [by apply Hk|]. exists l, l1, l2. split_and!; [done|done|].
    exists z. split; [|done]. assert (Hin' : z ∈ waitProcs l) by (rewrite E, elem_of_app, elem_of_cons; auto).
    rewrite E', elem_of_app, elem_of_cons in Hin'. destruct Hin' as [Hi|[->|Hi]]; [| |done].
    + exfalso. apply (Hs z); [rewrite elem_of_app; by left|done].
    + exfalso. apply (Hs q); [rewrite elem_of_app, list_elem_of_singleton; by right|done].
  - intros (Hc & Hk & l' & l1 & l2 & Hl' & E' & x & Hx & Hxg). assert (l' = l) as -> by congruence.
    split; [|done]. exists l1, l2. split; [done|]. intros y Hy <-.
    assert (Hxb : x ∈ b); [|by apply (Hb x)].
    rewrite elem_of_app, list_elem_of_singleton in Hy. destruct Hy as [Hy| ->]; [|done].
    apply list_elem_of_split in Hy as (c1 & c2 & ->). rewrite <- app_assoc in E'. cbn in E'. rewrite E in E', Hnd.
    apply split_unique in E' as [_ ->]; [|done]. rewrite elem_of_app, elem_of_cons. by right; right.
Qed.


(** What blocks the member. *)
Definition blocks_here (y : Z) : Prop := exists q, (hard_block s p tag m q \/ soft_block s orders p tag m q) /\ leader s q = y.

Lemma hard_here q : hard_block s p tag m q -> hard_target (procLocks l) (leader s q).
Proof.
  intros Hq. pose proof Hq as (Hne & m' & (l' & Hl' & pl & Hpl & <- & Hb) & Hc). assert (l' = l) as -> by congruence. by exists pl.
Qed.

Lemma soft_scan_spec d : search_ok d -> n <= zlen (visitedProcs d) ->
  dwp (match find_order tag (waitOrders d) with
    | Some procs => soft_edges s rec (fun proc p0 => group_leader proc p0 =? p) false mask tag (leader s p) check depth procs
    | None => last ← (if bool_decide (lockGroupLeader check = None) then mret (Some p) else last_member s (leader s p) None (waitProcs l));
        soft_edges s rec (fun proc _ => bool_decide (last = Some proc)) true mask tag (leader s p) check depth (waitProcs l)
    end) (scan_post (fun y => exists q, soft_block s orders p tag m q /\ y = leader s q) d) d.
Proof.
  intros Hd Hn. rewrite (so_orders _ Hd). destruct (find_order tag orders) as [procs|] eqn:Ho.
  - assert (Hiff : forall q, ahead_in (fun x => leader s x = p) false procs q <-> soft_block s orders p tag m q).
    { intros q. unfold ahead_in, soft_block. rewrite Ho. split; [by intros (? & ? & ?)|by intros (? & ?)]. }
    destruct (Horders tag procs Ho) as (l' & Hl' & Hperm). assert (l' = l) as -> by congruence.
    eapply dwp_mono; [|apply (soft_edges_spec _ (fun x => leader s x = p)); [| |apply Hiff|done|done]].
    + intros b d'. apply scan_weaken. intros y (q & Hq & ->). exists q. split; [by apply Hiff|done].
    + intros x px Hx. rewrite (leader_group s x px Hx). apply Z.eqb_eq.
    + intros x Hx. by rewrite <- Hperm.
  - assert (Hend : forall z, leader s z = leader s p -> (exists a b, waitProcs l = a ++ z :: b /\ forall y, y ∈ b -> leader s y <> leader s p) ->
      dwp (soft_edges s rec (fun proc _ => bool_decide (Some z = Some proc)) true mask tag (leader s p) check depth (waitProcs l))
        (scan_post (fun y => exists q, soft_block s orders p tag m q /\ y = leader s q) d) d).
    { intros z Hz Hab. pose proof (ahead_real z Ho Hz Hab) as Hiff.
      eapply dwp_mono; [|apply (soft_edges_spec _ (eq z)); [|done|apply Hiff|done|done]].
      - intros b d'. apply scan_weaken. intros y (q & Hq & ->). exists q. split; [by apply Hiff|done].
      - intros x px _. rewrite bool_decide_eq_true. split; congruence. }
    apply dwp_bind. case_bool_decide as Hg; [apply dwp_ret, Hend; [done|]|].
    + destruct (list_elem_of_split _ _ Hin) as (a & b & E). exists a, b. split; [done|]. intros y Hy H%(leader_alone s Htab p check); [|done..].
      subst y. pose proof (sh_queue _ _ _ _ (lk_shape _ _ _ _ _ (lg_ok _ _ _ (tb_locks s Htab tag l Hl)))) as Hnd.
      rewrite E in Hnd. apply NoDup_app in Hnd as (_ & _ & [Hnd _]%NoDup_cons). done.
    + assert (Hgl : lockGroupLeader check = Some (leader s p)).
      { rewrite <- (leader_group s p check) by done. unfold group_leader. by destruct (lockGroupLeader check). }
      eapply dwp_mono; [|by apply last_member_spec]. intros r d' [-> [[_ H]|(x & px & a & b & -> & E & Hx & Hxg & H)]].
      * by destruct (H p check Hin Hp).
      * apply Hend; [by apply (leader_member s Htab p check (leader s p) x px)|]. exists a, b. split; [done|].
        intros y Hy Hyg. assert (Hyq : y ∈ waitProcs l) by (rewrite E, elem_of_app, elem_of_cons; auto).
        destruct (queue_waits s Htab tag l y Hl Hyq) as (py & Hpy & _). apply (H y py Hy Hpy).
        by apply (leader_member s Htab p check (leader s p) y py).
Qed.

Lemma member_spec d : GetLocksMethodTable tag = Done t -> search_ok d -> n <= zlen (visitedProcs d) ->
  dwp (FindLockCycleRecurseMember s rec p (leader s p) depth) (scan_post blocks_here d) d.
Proof.
  intros Hmt Hd Hn. unfold FindLockCycleRecurseMember. apply dwp_bind. eapply dwp_lift; [by rewrite Hp|].
  apply dwp_bind. eapply dwp_lift; [by rewrite Hw|]. apply dwp_bind. eapply dwp_lift; [done|].
  apply dwp_bind. eapply dwp_lift; [by apply conflicts_of_mode|]. apply dwp_bind. eapply dwp_lift; [by rewrite Hl|].
  rewrite (proj1 Ht). apply dwp_bind. eapply dwp_mono; [|by apply hard_edges_spec]. intros [|] d1 H1; [by apply dwp_ret|]. cbn in H1.
  apply dwp_bind, dwp_get, dwp_bind. eapply dwp_mono with (Q := fun _ d2 => same_search d1 d2).
  - intros [] d2 H2. apply dwp_bind, dwp_get.
    assert (H3 : searched d d2 (hard_target (procLocks l))).
    { eapply searched_weaken; [|eapply searched_trans; [exact H1|apply (searched_same _ _ (fun _ => False)); [apply H1|done|by intros y []]]]. intros y Hy. by left. }
    eapply dwp_mono; [|apply soft_scan_spec; [apply H3|pose proof (visited_grows _ _ _ H3); lia]].
    intros b d3 H4. eapply scan_weaken, scan_trans; [|exact H3|exact H4].
    intros y (q & [Hq|Hq] & <-); [left; by apply hard_here|right; by exists q].
  - case_match; [|by apply dwp_ret]. destruct (waitProcs l) as [|x q] eqn:E; [by apply not_elem_of_nil in Hin|].
    apply waiting_autovacuum_spec. destruct (queue_waits s Htab tag l x Hl ltac:(rewrite E; by left)) as (px & Hx & _). by exists px.
Qed.
End Member.

(** *** One group *)
Definition edge_from (p y : Z) : Prop :=
  exists tag m q, waits_at s p tag m /\ (hard_block s p tag m q \/ soft_block s orders p tag m q) /\ leader s q = y.

Section Group.
Context (rec : Z -> Z -> DM bool) (depth n : Z) (Hdepth : 0 <= depth) (Hrec : rec_ok rec (depth + 1) n).
Context (g : Z) (gl : PGPROC) (Hg : allProcs s !! g = Some gl) (Hgl : leader s g = g).

Lemma one_member_spec x px (cond : bool) d : allProcs s !! x = Some px -> leader s x = g -> search_ok d -> n <= zlen (visitedProcs d) ->
  dwp (if linked px && bool_decide (waitLock px <> None) && cond then FindLockCycleRecurseMember s rec x g depth else mret false)
    (scan_post depth g (fun y => cond = true /\ edge_from x y) d) d.
Proof.
  intros Hx Hxg Hd Hn. rewrite (waits_linked s Htab x px Hx). case_match eqn:Hc.
  - apply andb_true_iff in Hc as [Hw%bool_decide_eq_true ->]. destruct (waitLock px) as [tag|] eqn:E; [|done].
    assert (Hwa : waits_at s x tag (waitLockMode px)) by (by exists px).
    destruct (waits_queue s Htab x tag _ Hwa) as (l & Hl & Hin & Hm). destruct (valid_method tag (lg_tag _ _ _ (tb_locks s Htab tag l Hl))) as (t & Ht & Hok).
    rewrite <- Hxg. eapply dwp_mono; [|by eapply (member_spec rec depth n Hdepth Hrec x px tag l t)].
    intros b d' H. unfold scan_post in *. rewrite Hxg, Hgl in *. destruct b; [done|]. eapply searched_weaken; [|exact H].
    intros y [_ (tag' & m' & q & (px' & Hx' & Hw' & <-) & Hb & Hq)]. assert (px' = px) as -> by congruence. assert (tag' = tag) as -> by congruence.
    by exists q.
  - apply dwp_ret, searched_same; [done|done|]. intros y (-> & tag & m & q & (px' & Hx' & Hw' & <-) & _).
    assert (px' = px) as -> by congruence. by rewrite Hw', bool_decide_eq_true_2 in Hc.
Qed.

Lemma member_cycles_spec ms d : (forall x, x ∈ ms -> x ∈ lockGroupMembers gl) -> search_ok d -> n <= zlen (visitedProcs d) ->
  dwp (member_cycles s rec g depth ms) (scan_post depth g (fun y => exists x, x ∈ ms /\ x <> g /\ edge_from x y) d) d.
Proof.
  revert d. induction ms as [|x ms IH]; intros d Hms Hd Hn; cbn [member_cycles].
  { apply dwp_ret, searched_same; [done|done|]. by intros y (x & ?%not_elem_of_nil & _). }
  destruct (member_leader s Htab g gl x Hg ltac:(apply Hms; by left)) as ([px Hx] & Hxg). apply dwp_bind. eapply dwp_lift; [by rewrite Hx|].
  apply dwp_bind. eapply dwp_mono; [|by apply one_member_spec]. intros [|] d1 H1; [by apply dwp_ret|]. cbn in H1.
  eapply dwp_mono; [|apply IH; [intros z Hz; apply Hms; by right|apply H1|]].
  - intros b d' H2. unfold scan_post in *. destruct b; [done|]. eapply searched_weaken; [|eapply searched_trans; [exact H1|exact H2]].
    intros y (z & [->|Hz]%elem_of_cons & Hne & Hy); [left|right; by exists z]. split; [by apply negb_true_iff, Z.eqb_neq|done].
  - pose proof (visited_grows _ _ _ H1). lia.
Qed.

(** All edges of the group are followed. *)
Lemma group_spec d : search_ok d -> n <= zlen (visitedProcs d) ->
  dwp (found ← (if linked gl && bool_decide (waitLock gl <> None) then FindLockCycleRecurseMember s rec g g depth else mret false);
       if found : bool then mret true else member_cycles s rec g depth (lockGroupMembers gl))
    (scan_post depth g (edge s orders g) d) d.
Proof.
  intros Hd Hn. rewrite <- (andb_true_r (_ && _)). apply dwp_bind. eapply dwp_mono; [|by apply one_member_spec].
  intros [|] d1 H1; [by apply dwp_ret|]. cbn in H1. pose proof (visited_grows _ _ _ H1).
  eapply dwp_mono; [|apply member_cycles_spec; [done|apply H1|lia]].
  intros b d' H2. unfold scan_post in *. destruct b; [done|]. eapply searched_weaken; [|eapply searched_trans; [exact H1|exact H2]].
  intros y (p & tag & m & q & Hw & Hp & Hb). destruct (decide (p = g)) as [->|Hne]; [left; split; [done|by exists tag, m, q]|right].
  exists p. assert (Hpk : is_Some (allProcs s !! p)) by (destruct Hw as (px & ? & _); by exists px).
  destruct (group_members s Htab p g Hpk Hp Hne) as (l & Hl & Hin). assert (l = gl) as -> by congruence.
  split_and!; [done|done|by exists tag, m, q].
Qed.
End Group.

(** *** The recursion *)

Lemma visited_bound (l : list Z) : NoDup l -> (forall v, v ∈ l -> is_Some (allProcs s !! v)) -> zlen l <= MaxBackends.
Proof.
  intros Hnd Hall. etrans; [|exact Hsize]. rewrite <- (size_dom (D := gset Z)). unfold zlen.
  rewrite <- (size_list_to_set (C := gset Z) l) by done. apply inj_le, subseteq_size.
  intros v Hv%elem_of_list_to_set. apply elem_of_dom, Hall, Hv.
Qed.

Lemma visit_spec d g : search_ok d -> is_Some (allProcs s !! g) -> g ∉ visitedProcs d -> search_ok (set_visited (visitedProcs d ++ [g]) d).
Proof.
  intros [(rest & E) H2 H3 H4 H5 H6] Hg Hnew. constructor; cbn; [|apply NoDup_app; split_and!|..]; try done.
  - exists (rest ++ [g]). by rewrite E.
  - intros x Hx ->%list_elem_of_singleton. done.
  - apply NoDup_singleton.
  - intros v [Hv| ->%list_elem_of_singleton]%elem_of_app; [by apply H3|done].
Qed.

Lemma recurse_spec fuel depth n : 0 <= depth <= n -> MaxBackends < n + Z.of_nat fuel -> rec_ok (FindLockCycleRecurse s fuel) depth n.
Proof.
  revert depth n. induction fuel as [|fuel IH]; intros depth n Hdepth Hfuel q d Hd [px Hq] Hn; cbn [FindLockCycleRecurse].
  { pose proof (visited_bound _ (so_nodup _ Hd) (so_procs _ Hd)). lia. }
  apply dwp_bind. eapply dwp_lift; [by rewrite Hq|]. rewrite (leader_group s q px Hq). apply dwp_bind, dwp_get.
  destruct (leader_known s Htab q ltac:(by exists px)) as [[gl Hg] Hgl]. set (g := leader s q) in *.
  pose proof (visited_bound _ (so_nodup _ Hd) (so_procs _ Hd)) as Hbound. destruct (so_start _ Hd) as (rest & Estart).
  destruct (list_find (eq g) (visitedProcs d)) as [[[|i] v]|] eqn:Hf.
  - apply list_find_Some in Hf as (Hf & -> & _). rewrite Estart in Hf. injection Hf as <-. apply dwp_bind, dwp_put, dwp_ret.
    exists []. split; [apply trail_end|]. destruct Hd as [_ H2 H3 H4 H5 H6]. constructor; cbn; [|change (zlen (@nil (DEADLOCK_INFO * option EDGE))) with 0; lia|done..].
    exists (take (Z.to_nat depth) (deadlockDetails d)), (drop (Z.to_nat depth) (deadlockDetails d)). rewrite take_drop. split; [done|].
    unfold zlen in *. rewrite length_take. lia.
  - apply list_find_Some in Hf as (Hf & -> & _). apply dwp_ret. constructor; [done| |].
    + exists []. rewrite app_nil_r. split; [done|]. by intros x y ?%not_elem_of_nil.
    + intros y ->. split; [by eapply list_elem_of_lookup_2|]. intros E. pose proof (so_nodup _ Hd) as Hnd.
      rewrite Estart, E in *. apply NoDup_cons in Hnd as [[] _]. by eapply list_elem_of_lookup_2.
  - assert (Hnew : g ∉ visitedProcs d) by (intros Hin; rewrite list_find_None, Forall_forall in Hf; by apply (Hf g)).
    pose proof (visit_spec d g Hd ltac:(by exists gl) Hnew) as Hd1.
    pose proof (visited_bound _ (so_nodup _ Hd1) (so_procs _ Hd1)) as Hb1. cbn in Hb1. rewrite zlen_app in Hb1. change (zlen [g]) with 1 in Hb1.
    rewrite (proj2 (Z.leb_gt _ _)) by lia. apply dwp_bind, dwp_put, dwp_bind. eapply dwp_lift; [by rewrite Hg|].
    assert (Hr : rec_ok (FindLockCycleRecurse s fuel) (depth + 1) (n + 1)) by (apply IH; lia).
    eapply dwp_mono; [|apply (group_spec _ depth (n + 1) ltac:(lia) Hr g gl Hg Hgl); [done|cbn; rewrite zlen_app; change (zlen [g]) with 1; lia]].
    intros [|] d' H; unfold scan_post in H; cbn.
    + destruct H as (tr & _ & Htr & Hfd). rewrite Hgl in Htr. by exists tr.
    + destruct H as [H1 (ext & E & H2) H3]. cbn in E. constructor; [done| |].
      * exists (g :: ext). split; [by rewrite E, <- app_assoc|]. intros x y [->|Hx]%elem_of_cons; [apply H3|by apply H2].
      * intros y ->. split; [rewrite E, !elem_of_app, list_elem_of_singleton; auto|]. intros ->. apply Hnew. rewrite Estart. by left.
Qed.
End Search.

(** *** FindLockCycle *)
Section Cycle.
Context {lim : DeadLockLimits} {th : LockThread} (s : LockState) (Htab : table_ok s).
Context (Hsize : Z.of_nat (size (allProcs s)) <= MaxBackends).

(** The group [g] waits, over others, for itself. *)
Definition cycle (orders : list WAIT_ORDER) (g : Z) : Prop := tc (edge s orders) g g.

Lemma trail_path orders start g tr : trail s orders start g tr -> tr <> [] -> tc (edge s orders) g start.
Proof.
  intros H. assert (Hr : rtc (edge s orders) g start /\ (tr <> [] -> tc (edge s orders) g start)); [|by destruct Hr].
  induction H as [|p tag m q rest Hw Hb H [IH _]|p tag m q rest Hw Hb H [IH _]]; [by split; [|done]|..].
  all: assert (He : edge s orders (leader s p) (leader s q)) by (exists p, tag, m, q; tauto).
  all: split; [by eapply rtc_l|intros _; by eapply tc_rtc_r; [apply tc_once|]].
Qed.

Lemma closed_path orders (V : list Z) start x z : (forall x y, x ∈ V -> edge s orders x y -> y ∈ V /\ y <> start) ->
  tc (edge s orders) x z -> x ∈ V -> z ∈ V /\ z <> start.
Proof. intros Hcl. induction 1 as [x z He|x y z He _ IH]; intros Hx; [by apply (Hcl x)|]. apply IH. by destruct (Hcl x y Hx He). Qed.

(** The way noted in the workspace. *)
Definition noted (orders : list WAIT_ORDER) (g : Z) (d : Detector) : Prop :=
  exists tr rest, tr <> [] /\ trail s orders g g tr /\ deadlockDetails d = (fst <$> tr) ++ rest /\ nDeadlockDetails d = zlen tr
    /\ softEdges d = reverse (omap snd tr).

Definition cycle_post (orders : list WAIT_ORDER) (g : Z) (b : bool) (d' : Detector) : Prop :=
  waitOrders d' = orders /\ zlen (deadlockDetails d') = MaxBackends /\ if b then noted orders g d' else ~ cycle orders g.

Lemma find_cycle_spec p d : orders_ok s (waitOrders d) -> is_Some (allProcs s !! p) -> zlen (deadlockDetails d) = MaxBackends ->
  dwp (FindLockCycle s p) (cycle_post (waitOrders d) (leader s p)) d.
Proof.
  intros Hord [px Hp] Hlen. set (orders := waitOrders d) in *. destruct (leader_known s Htab p ltac:(by exists px)) as [[gl Hg] Hgl].
  assert (Hmax : 0 < MaxBackends).
  { enough (0 < size (allProcs s))%nat by lia. assert (size (allProcs s) <> 0%nat); [|lia]. intros E%map_size_empty_inv. by rewrite E, lookup_empty in Hp. }
  unfold FindLockCycle. apply dwp_bind, dwp_put. cbn [FindLockCycleRecurse]. apply dwp_bind. eapply dwp_lift; [by rewrite Hp|].
  rewrite (leader_group s p px Hp). set (g := leader s p) in *. apply dwp_bind, dwp_get. cbn [list_find visitedProcs set_visited set_soft set_ndetails].
  change (zlen []) with 0. rewrite (proj2 (Z.leb_gt _ _)) by lia. apply dwp_bind, dwp_put, dwp_bind. eapply dwp_lift; [by rewrite Hg|].
  assert (Hr : rec_ok s orders g (FindLockCycleRecurse s (Z.to_nat MaxBackends)) (0 + 1) 1) by (apply recurse_spec; [done..|lia|lia]).
  eapply dwp_mono; [|apply (group_spec s Htab orders Hord g _ 0 1 ltac:(done) Hr g gl Hg Hgl); [|done]].
  - intros [|] d' H; unfold scan_post in H; cbn.
    + destruct H as (tr & Hne & Htr & [(before & after & E & Hb) [Hn _] Hsz Hsoft Ho]). rewrite Hgl in Htr. split_and!; [done|done|].
      destruct before; [|rewrite zlen_cons in Hb; pose proof (zlen_nonneg before); lia]. by exists tr, after.
    + destruct H as [H1 (ext & E & H2) H3]. cbn in E. split_and!; [apply H1|apply H1|]. intros Hc.
      apply (closed_path orders (visitedProcs d') g) in Hc as [_ Hc]; [done| |rewrite E; by left].
      intros x y Hx He. rewrite E in Hx. apply elem_of_cons in Hx as [->|Hx]; [by apply H3|by apply (H2 x)].
  - constructor; cbn; [by exists []|apply NoDup_singleton|intros v ->%list_elem_of_singleton; by exists gl|done..].
Qed.
End Cycle.
