(* ===== verification/DeadSort.v ===== *)
(** [TopoSort] (DeadLock.v): an order of a wait queue that satisfies constraints.

    A constraint says that the group of its [waiter] comes before the group of
    its [blocker].  [inv] is what [note_constraints] builds of the constraints:
    counts and lists at the last member of each group, its representative.
    [scan] is the invariant of [TopoSortScan]: the groups put out so far fill
    the end of the order. *)
From S2P Require Import Prelude Lock LockInv DeadLock DeadSearch.
From stdpp Require Import list gmap.
#[local] Open Scope Z_scope.

(** ** Lists *)

Lemma zlookup_nat {A} (l : list A) (k : nat) : zlookup l (Z.of_nat k) = l !! k.
Proof. unfold zlookup. rewrite (proj2 (Z.leb_le _ _)) by lia. by rewrite Nat2Z.id. Qed.
Lemma zupdate_nat {A} (l : list A) (k : nat) (x : A) : (k < length l)%nat -> zupdate l (Z.of_nat k) x = Some (<[k := x]> l).
Proof. intros Hk. rewrite zupdate_in by (unfold zlen; lia). unfold zset. by rewrite Nat2Z.id. Qed.

(** ** What is asked for *)

Section Sort.
Context (s : LockState) (queue : list Z).
Context (Htab : table_ok s) (Hknown : forall x, x ∈ queue -> is_Some (allProcs s !! x)) (Hnd : NoDup queue).
Let grp := leader s.

Definition members (g : Z) : list Z := filter (fun x => leader s x = g) queue.

(** A constraint is about groups by their leaders; it concerns the queue if both groups wait there. *)
Definition by_leaders (e : EDGE) : Prop := leader s (waiter e) = waiter e /\ leader s (blocker e) = blocker e.
Definition concerns (e : EDGE) : Prop := members (waiter e) <> [] /\ members (blocker e) <> [].

Definition satisfies (constraints : list EDGE) (order : list Z) : Prop :=
  forall e x y, e ∈ constraints -> x ∈ members (waiter e) -> y ∈ members (blocker e) -> exists a b c, order = a ++ x :: b ++ y :: c.

(** The members of a group are together. *)
Definition grouped (order : list Z) : Prop := forall g, exists a b c, order = a ++ b ++ c /\ b ≡ₚ members g.

(** Equal but for the workspace. *)
Definition same_edge (e e' : EDGE) : Prop := waiter e' = waiter e /\ blocker e' = blocker e /\ lock e' = lock e.

Lemma elem_of_group g x : x ∈ members g <-> x ∈ queue /\ leader s x = g.
Proof. unfold members. rewrite list_elem_of_filter. tauto. Qed.

Lemma members_nil g : members g = [] <-> forall x, x ∈ queue -> leader s x <> g.
Proof.
  split.
  - intros E x Hx Hg. apply (not_elem_of_nil x). rewrite <- E. by apply elem_of_group.
  - intros H. destruct (members g) as [|x l] eqn:E; [done|]. assert (Hx : x ∈ members g) by (rewrite E; by left).
    apply elem_of_group in Hx as [Hx Hg]. by destruct (H x Hx).
Qed.

(** ** Representatives *)

(** The position of the last of its group. *)
Definition is_rep (k : nat) : Prop := exists x, queue !! k = Some x /\ Forall (fun y => leader s y <> leader s x) (drop (S k) queue).
#[local] Instance is_rep_dec k : Decision (is_rep k).
Proof.
  unfold is_rep. destruct (queue !! k) as [x|]; [|right; by intros (x & ? & _)].
  destruct (decide (Forall (fun y => leader s y <> leader s x) (drop (S k) queue))) as [H|H]; [left; by exists x|right].
  by intros (x' & [= ->] & H').
Defined.

Lemma rep_unique j k x y : is_rep j -> is_rep k -> queue !! j = Some x -> queue !! k = Some y -> grp x = grp y -> j = k.
Proof.
  assert (Hlt : forall j k x y, is_rep j -> queue !! j = Some x -> queue !! k = Some y -> grp x = grp y -> (j < k)%nat -> False).
  { intros j' k' x' y' (z & Hz & H) Hx Hy E Hjk. rewrite Hz in Hx. injection Hx as ->. rewrite Forall_forall in H.
    apply (H y'); [|by symmetry]. apply list_elem_of_lookup_2 with (k' - S j')%nat. rewrite lookup_drop. by replace (S j' + (k' - S j'))%nat with k' by lia. }
  intros Hj Hk Hx Hy E. destruct (decide (j < k)%nat); [by destruct (Hlt j k x y)|]. destruct (decide (k < j)%nat); [by destruct (Hlt k j y x)|lia].
Qed.

Lemma is_group_member proc x : leader s proc = proc -> x ∈ queue -> is_member s proc x = Done (bool_decide (grp x = proc)).
Proof.
  intros Hp Hx. destruct (Hknown x Hx) as [px Hpx]. unfold is_member. rewrite Hpx. unfold grp, leader. rewrite Hpx. cbn. unfold leader_of.
  f_equal. destruct (lockGroupLeader px) as [g|] eqn:Hg; cbn.
  - rewrite orb_comm. case_bool_decide as E; [injection E as ->; cbn; by rewrite bool_decide_true|].
    rewrite (bool_decide_false (g = proc)) by congruence. apply Z.eqb_neq. intros ->. unfold leader in Hp. rewrite Hpx in Hp. cbn in Hp. unfold leader_of in Hp.
    rewrite Hg in Hp. cbn in Hp. congruence.
  - rewrite orb_comm. rewrite bool_decide_false by done. cbn. destruct (Z.eqb_spec x proc); [by rewrite bool_decide_true|by rewrite bool_decide_false].
Qed.

Definition rep_of (g : Z) (j : nat) : Prop := is_rep j /\ exists x, queue !! j = Some x /\ grp x = g.

Lemma rep_last j x : queue !! j = Some x -> (forall k y, (j < k)%nat -> queue !! k = Some y -> grp y <> grp x) -> is_rep j.
Proof.
  intros Hx H. exists x. split; [done|]. apply Forall_forall. intros y Hy. apply list_elem_of_lookup in Hy as [i Hi]. rewrite lookup_drop in Hi.
  by apply (H (S j + i)%nat y); [lia|].
Qed.

Lemma representative_spec g n jj before : leader s g = g -> length before = length queue -> (n <= length queue)%nat ->
  (jj = -1 /\ (forall k x, (n <= k)%nat -> queue !! k = Some x -> grp x <> g)) \/ (exists j, jj = Z.of_nat j /\ (n <= j)%nat /\ rep_of g j) ->
  exists jj' before', representative s n g queue jj before = Done (jj', before') /\ length before' = length queue
    /\ ((jj' = -1 /\ members g = [] /\ before' = before) \/ exists j, jj' = Z.of_nat j /\ rep_of g j)
    /\ (forall k x b, queue !! k = Some x -> before !! k = Some b ->
          before' !! k = Some (if decide (grp x = g /\ ~ is_rep k /\ (k < n)%nat) then -1 else b)).
Proof.
  intros Hg. revert jj before. induction n as [|n IH]; intros jj before Hlen Hn Hjj; cbn [representative].
  - exists jj, before. split_and!; [done|done| |]; [destruct Hjj as [[-> Hno]|(j & -> & _ & Hj)]; [left|right; by exists j]|].
    + split_and!; [done| |done]. apply members_nil. intros x Hx. apply list_elem_of_lookup in Hx as [k Hk]. by apply (Hno k); [lia|].
    + intros k x b _ ->. rewrite decide_False by lia. done.
  - destruct (lookup_lt_is_Some_2 queue n ltac:(lia)) as [x Hx]. rewrite zlookup_nat, Hx. runs.
    rewrite is_group_member by (done || by eapply list_elem_of_lookup_2). runs. case_bool_decide as Hxg.
    + destruct Hjj as [[-> Hno]|(j & -> & Hj & Hrep)].
      * rewrite Z.eqb_refl. assert (Hr : is_rep n) by (apply (rep_last n x Hx); intros k y Hk Hy; rewrite Hxg; by apply (Hno k); [lia|]).
        destruct (IH (Z.of_nat n) before Hlen ltac:(lia)) as (jj' & before' & E & Hl & Hres & Hb); [right; exists n; split_and!; [done|lia|split; [done|by exists x]]|].
        exists jj', before'. split_and!; [done|done|done|]. intros k y b Hy Hbk. rewrite (Hb k y b Hy Hbk). f_equal.
        destruct (decide (k = n)) as [->|]; [by rewrite !decide_False by tauto|]. apply decide_ext. split; intros (? & ? & ?); (split_and!; [done|done|lia]).
      * rewrite (proj2 (Z.eqb_neq (Z.of_nat j) (-1))) by lia. rewrite zupdate_nat by lia. runs.
        destruct (IH (Z.of_nat j) (<[n := -1]> before) ltac:(by rewrite length_insert) ltac:(lia)) as (jj' & before' & E & Hl & Hres & Hb);
          [right; exists j; split_and!; [done|lia|done..]|].
        exists jj', before'. split_and!; [done|done| |]; [destruct Hres as [(-> & Hm & _)|Hres]; [|by right]|].
        { exfalso. apply (not_elem_of_nil x). rewrite <- Hm, elem_of_group. split; [by eapply list_elem_of_lookup_2|done]. }
        assert (Hnr : ~ is_rep n). { intros Hr. destruct Hrep as [Hrj (z & Hz & Hzg)]. assert (n = j); [|lia]. apply (rep_unique n j x z); try done. unfold grp in *. congruence. }
        intros k y b Hy Hbk. destruct (decide (k = n)) as [->|Hne].
        { rewrite Hx in Hy. injection Hy as <-. rewrite (Hb n x (-1)); [|done|apply list_lookup_insert_eq; lia].
          rewrite (decide_True (P := grp x = g /\ ~ is_rep n /\ (n < S n)%nat)) by (split_and!; [done|done|lia]). by case_decide. }
        { rewrite (Hb k y b); [|done|by rewrite list_lookup_insert_ne]. f_equal. apply decide_ext. split; intros (? & ? & ?); (split_and!; [done|done|lia]). }
    + destruct (IH jj before Hlen ltac:(lia)) as (jj' & before' & E & Hl & Hres & Hb).
      { destruct Hjj as [[-> Hno]|(j & -> & Hj & Hrep)]; [left|right; exists j; split_and!; [done|lia|done..]]. split; [done|].
        intros k y Hk Hy. destruct (decide (k = n)) as [->|]; [congruence|by apply (Hno k); [lia|]]. }
      exists jj', before'. split_and!; [done|done|done|]. intros k y b Hy Hbk. rewrite (Hb k y b Hy Hbk). f_equal.
      destruct (decide (k = n)) as [->|]; [rewrite !decide_False; [done|..]; intros (? & _); congruence|]. apply decide_ext. split; intros (? & ? & ?); (split_and!; [done|done|lia]).
Qed.

(** ** The constraints as counts and lists *)

#[local] Instance concerns_dec e : Decision (concerns e).
Proof. unfold concerns. apply _. Defined.

(** The constraints along the links from [k]. *)
Inductive chain (l : list EDGE) : Z -> list EDGE -> Prop :=
  | chain_nil : chain l 0 []
  | chain_cons k e es : l !! k = Some e -> link e <= Z.of_nat k -> chain l (link e) es -> chain l (Z.of_nat (S k)) (e :: es).

Definition waiting_for (g : Z) (l : list EDGE) : list EDGE := filter (fun e => concerns e /\ waiter e = g) l.
Definition blocked_by (g : Z) (l : list EDGE) : list EDGE := filter (fun e => concerns e /\ blocker e = g) l.

Record inv (l : list EDGE) (before after : list Z) : Prop := {
  iv_len : length before = length queue /\ length after = length queue;
  iv_rep : forall k x, queue !! k = Some x -> is_rep k -> before !! k = Some (zlen (waiting_for (grp x) l));
  iv_other : forall k x, queue !! k = Some x -> ~ is_rep k -> exists b, before !! k = Some b
    /\ (b = -1 \/ b = 0 /\ forall e, e ∈ l -> concerns e -> waiter e <> grp x /\ blocker e <> grp x);
  iv_after : forall k x, queue !! k = Some x -> exists h es, after !! k = Some h /\ chain l h es /\ h <= zlen l
    /\ es ≡ₚ (if decide (is_rep k) then blocked_by (grp x) l else []);
  iv_pred : forall e, e ∈ l -> concerns e -> exists k, DeadLock.pred e = Z.of_nat k /\ rep_of (waiter e) k }.

Lemma chain_app l l' h es : chain l h es -> chain (l ++ l') h es.
Proof. induction 1; [constructor|]. econstructor; [by apply lookup_app_l_Some|done|done]. Qed.

Lemma inv_mark g l before before' after : inv l before after -> length before' = length queue ->
  (forall k x b, queue !! k = Some x -> before !! k = Some b -> before' !! k = Some (if decide (grp x = g /\ ~ is_rep k /\ (k < length queue)%nat) then -1 else b)) ->
  inv l before' after.
Proof.
  intros [[H1 H1'] H2 H3 H4 H5] Hlen Hb. constructor; [done| | |done|done].
  - intros k x Hx Hr. rewrite (Hb k x _ Hx (H2 k x Hx Hr)). by rewrite decide_False by tauto.
  - intros k x Hx Hr. destruct (H3 k x Hx Hr) as (b & Hbk & Hor). rewrite (Hb k x b Hx Hbk). case_decide; [exists (-1); auto|by exists b].
Qed.

Lemma inv_skip e l before after : inv l before after -> ~ concerns e -> inv (l ++ [e]) before after.
Proof.
  intros [H1 H2 H3 H4 H5] Hn. assert (Hf : forall P : EDGE -> Prop, forall (D : forall x, Decision (P x)), (P e -> concerns e) -> filter P (l ++ [e]) = filter P l).
  { intros P D HP. rewrite filter_app, filter_cons, decide_False by tauto. cbn. by rewrite app_nil_r. }
  constructor; [done| | | |].
  - intros k x Hx Hr. unfold waiting_for. rewrite Hf by tauto. by apply H2.
  - intros k x Hx Hr. destruct (H3 k x Hx Hr) as (b & Hb & [->|[-> H]]); [exists (-1); auto|]. exists 0. split; [done|right]. split; [done|].
    intros e' [He|He%list_elem_of_singleton]%elem_of_app Hc; [by apply H|by subst].
  - intros k x Hx. destruct (H4 k x Hx) as (h & es & Ha & Hc & Hh & Hp). exists h, es. split_and!; [done|by apply chain_app|rewrite zlen_app; pose proof (zlen_nonneg [e]); lia|].
    unfold blocked_by. rewrite Hf by tauto. done.
  - intros e' [He|He%list_elem_of_singleton]%elem_of_app Hc; [by apply H5|by subst].
Qed.

Lemma waiting_for_snoc g l e : waiting_for g (l ++ [e]) = waiting_for g l ++ (if decide (concerns e /\ waiter e = g) then [e] else []).
Proof. unfold waiting_for. rewrite filter_app, filter_cons. by case_decide. Qed.
Lemma blocked_by_snoc g l e : blocked_by g (l ++ [e]) = blocked_by g l ++ (if decide (concerns e /\ blocker e = g) then [e] else []).
Proof. unfold blocked_by. rewrite filter_app, filter_cons. by case_decide. Qed.

Lemma inv_link e l before after jj kk n h : inv l before after -> rep_of (waiter e) jj -> rep_of (blocker e) kk ->
  (forall k x, queue !! k = Some x -> ~ is_rep k -> grp x = waiter e \/ grp x = blocker e -> before !! k = Some (-1)) ->
  before !! jj = Some n -> after !! kk = Some h ->
  inv (l ++ [link_edge (Z.of_nat jj) h e]) (<[jj := n + 1]> before) (<[kk := zlen l + 1]> after).
Proof.
  intros [[H1 H1'] H2 H3 H4 H5] (Hrj & xj & Hxj & Hgj) (Hrk & xk & Hxk & Hgk) Hmark Hn Hh. set (e' := link_edge _ _ _).
  assert (Hc : concerns e').
  { split; intros E; pose proof (proj1 (members_nil _) E) as E'; [apply (E' xj); [by eapply list_elem_of_lookup_2|done]|apply (E' xk); [by eapply list_elem_of_lookup_2|done]]. }
  pose proof (lookup_lt_Some _ _ _ Hxj) as Hltj. pose proof (lookup_lt_Some _ _ _ Hxk) as Hltk. constructor.
  - by rewrite !length_insert.
  - intros k x Hx Hr. rewrite waiting_for_snoc. destruct (decide (k = jj)) as [->|Hne].
    + assert (x = xj) as -> by congruence. rewrite list_lookup_insert_eq by lia. rewrite decide_True by (split; [done|by symmetry]).
      rewrite zlen_app. rewrite (H2 jj xj Hxj Hrj) in Hn. injection Hn as <-. done.
    + rewrite list_lookup_insert_ne, decide_False, app_nil_r; [by apply H2| |done]. intros [_ E]. apply Hne. apply (rep_unique k jj x xj); try done.
      cbn in E. congruence.
  - intros k x Hx Hr. rewrite list_lookup_insert_ne by (by intros ->). destruct (H3 k x Hx Hr) as (b & Hb & [->|[-> H]]); [exists (-1); auto|].
    exists 0. split; [done|right]. split; [done|]. intros e2 [He| ->%list_elem_of_singleton]%elem_of_app Hc2; [by apply H|].
    split; cbn; intros E; rewrite (Hmark k x Hx Hr ltac:(auto)) in Hb; done.
  - intros k x Hx. destruct (H4 k x Hx) as (h' & es & Ha & Hch & Hle & Hp). rewrite blocked_by_snoc. destruct (decide (k = kk)) as [->|Hne].
    + assert (x = xk) as -> by congruence. rewrite list_lookup_insert_eq by lia. assert (h' = h) as -> by congruence.
      exists (zlen l + 1), (e' :: es). split_and!; [done| |rewrite zlen_app; done|].
      * replace (zlen l + 1) with (Z.of_nat (S (length l))) by (unfold zlen; lia).
        apply (chain_cons _ (length l)); [by apply list_lookup_middle|cbn; unfold zlen in Hle; lia|cbn; by apply chain_app].
      * rewrite decide_True in Hp |- * by done. rewrite (decide_True (P := concerns e' /\ _)) by (split; [done|by symmetry]). rewrite Hp. apply Permutation_cons_append.
    + rewrite list_lookup_insert_ne by done. exists h', es. split_and!; [done|by apply chain_app|rewrite zlen_app; pose proof (zlen_nonneg [e']); lia|].
      rewrite Hp. case_decide as Hr; [|done]. rewrite decide_False, app_nil_r; [done|]. intros [_ E]. apply Hne. apply (rep_unique k kk x xk); try done.
      cbn in E. congruence.
  - intros e2 [He| ->%list_elem_of_singleton]%elem_of_app Hc2; [by apply H5|]. exists jj. split; [done|]. split; [done|by exists xj].
Qed.

Lemma mark_spec g l before after : leader s g = g -> inv l before after ->
  exists jj before', representative s (length queue) g queue (-1) before = Done (jj, before') /\ inv l before' after
    /\ ((jj = -1 /\ members g = []) \/ exists j, jj = Z.of_nat j /\ rep_of g j)
    /\ (forall k x, queue !! k = Some x -> ~ is_rep k -> before !! k = Some (-1) \/ grp x = g -> before' !! k = Some (-1)).
Proof.
  intros Hg Hinv. destruct (representative_spec g (length queue) (-1) before Hg (proj1 (iv_len _ _ _ Hinv)) ltac:(lia)) as (jj & before' & E & Hl & Hres & Hb).
  { left. split; [done|]. intros k x Hk Hx. apply lookup_lt_Some in Hx. lia. }
  exists jj, before'. split_and!; [done|by eapply inv_mark|destruct Hres as [(? & ? & _)|?]; auto|].
  intros k x Hx Hr Hor. destruct (iv_other _ _ _ Hinv k x Hx Hr) as (b & Hbk & _). rewrite (Hb k x b Hx Hbk).
  case_decide as Hd; [done|]. destruct Hor as [Hor|Hor]; [congruence|]. destruct Hd. apply lookup_lt_Some in Hx. done.
Qed.

Lemma note_constraints_spec cs l before after : Forall by_leaders cs -> inv l before after ->
  exists cs' before' after', note_constraints s queue (zlen l) cs before after = Done (cs', before', after')
    /\ Forall2 same_edge cs cs' /\ inv (l ++ cs') before' after'.
Proof.
  intros Hcs. revert l before after. induction Hcs as [|e cs [Hw Hb] _ IH]; intros l before after Hinv; cbn [note_constraints].
  { exists [], before, after. rewrite app_nil_r. done. }
  assert (Hskip : forall before', inv l before' after -> ~ concerns e ->
    exists cs' before2 after2, ('(constraints, before, after) ← note_constraints s queue (zlen l + 1) cs before' after; mret (e :: constraints, before, after))
      = Done (cs', before2, after2) /\ Forall2 same_edge (e :: cs) cs' /\ inv (l ++ cs') before2 after2).
  { intros before' Hi Hn. destruct (IH (l ++ [e]) before' after (inv_skip e _ _ _ Hi Hn)) as (cs' & b2 & a2 & E & Hf & Hi2).
    rewrite zlen_app in E. change (zlen [e]) with 1 in E. rewrite E. exists (e :: cs'), b2, a2. rewrite <- app_assoc in Hi2. split_and!; [done|by constructor|done]. }
  destruct (mark_spec (waiter e) l before after Hw Hinv) as (jj & b1 & E1 & Hi1 & Hj & Hm1). rewrite E1. runs.
  destruct Hj as [[-> Hno]|(j & -> & Hj)]; [apply Hskip; [done|by intros [? _]]|]. rewrite (proj2 (Z.ltb_ge _ _)) by lia.
  destruct (mark_spec (blocker e) l b1 after Hb Hi1) as (kk & b2 & E2 & Hi2 & Hk & Hm2). rewrite E2. runs.
  destruct Hk as [[-> Hno]|(k & -> & Hk)]; [apply Hskip; [done|by intros [_ ?]]|]. rewrite (proj2 (Z.ltb_ge _ _)) by lia.
  pose proof Hj as (Hrj & xj & Hxj & Hgj). pose proof Hk as (Hrk & xk & Hxk & Hgk).
  pose proof (lookup_lt_Some _ _ _ Hxj). pose proof (lookup_lt_Some _ _ _ Hxk). destruct (iv_len _ _ _ Hi2) as [Hl1 Hl2].
  pose proof (iv_rep _ _ _ Hi2 j xj Hxj Hrj) as Hn. destruct (iv_after _ _ _ Hi2 k xk Hxk) as (h & es & Hh & _).
  rewrite !zlookup_nat, Hn, Hh. runs. rewrite !zupdate_nat by lia. runs.
  pose proof (inv_link e l b2 after j k (zlen (waiting_for (grp xj) l)) h Hi2 Hj Hk) as Hlink.
  destruct (IH (l ++ [link_edge (Z.of_nat j) h e]) (<[j := zlen (waiting_for (grp xj) l) + 1]> b2) (<[k := zlen l + 1]> after)) as (cs' & b3 & a3 & E & Hf & Hi3).
  { apply Hlink; [|done|done]. intros k' x Hx Hr [Hor|Hor]; (apply (Hm2 k' x Hx Hr)); [left; apply (Hm1 k' x Hx Hr)|]; by right. }
  rewrite zlen_app in E. change (zlen [_]) with 1 in E. rewrite E. runs. eexists _, b3, a3. split; [done|]. rewrite <- app_assoc in Hi3. split; [|exact Hi3].
  by constructor.
Qed.

Lemma start_inv : inv [] (replicate (length queue) 0) (replicate (length queue) 0).
Proof.
  assert (Hz : forall k x, queue !! k = Some x -> replicate (length queue) 0 !! k = Some 0) by (intros k x Hx%lookup_lt_Some; by apply lookup_replicate_2).
  constructor; [by rewrite length_replicate| | | |by intros e ?%not_elem_of_nil].
  - intros k x Hx _. by eapply Hz.
  - intros k x Hx _. exists 0. split; [by eapply Hz|right]. split; [done|]. by intros e ?%not_elem_of_nil.
  - intros k x Hx. exists 0, []. split_and!; [by eapply Hz|constructor|done|by case_decide].
Qed.

Lemma release_preds_spec l h es fuel before : chain l h es -> h < Z.of_nat fuel ->
  (forall e, e ∈ es -> exists k, DeadLock.pred e = Z.of_nat k /\ (k < length before)%nat) ->
  exists before', release_preds fuel h l before = Done before' /\ length before' = length before
    /\ forall k b, before !! k = Some b -> before' !! k = Some (b - zlen (filter (fun e => DeadLock.pred e = Z.of_nat k) es)).
Proof.
  intros Hc. revert fuel before. induction Hc as [|j e es He Hlk Hc IH]; intros fuel before Hf Hp.
  - exists before. destruct fuel; cbn; (split_and!; [done|done|]); intros k b ->; by rewrite Z.sub_0_r.
  - destruct fuel as [|fuel]; [lia|]. cbn [release_preds]. rewrite (proj2 (Z.leb_gt _ _)) by lia.
    replace (Z.of_nat (S j) - 1) with (Z.of_nat j) by lia. rewrite zlookup_nat, He. runs.
    destruct (Hp e ltac:(by left)) as (k & Ek & Hk). destruct (lookup_lt_is_Some_2 before k Hk) as [n Hn]. rewrite Ek, zlookup_nat, Hn. runs.
    rewrite zupdate_nat by done. runs. destruct (IH fuel (<[k := n - 1]> before)) as (before' & E & Hl & Hb); [lia| |].
    { intros e' He'. rewrite length_insert. apply Hp. by right. }
    exists before'. split_and!; [done|by rewrite Hl, length_insert|]. intros k' b Hb'. rewrite filter_cons. destruct (decide (k' = k)) as [->|Hne].
    + rewrite decide_True, zlen_cons by done. rewrite (Hb k (n - 1)) by (by apply list_lookup_insert_eq). f_equal. assert (b = n) by congruence. lia.
    + rewrite decide_False by (rewrite Ek; lia). apply Hb. by rewrite list_lookup_insert_ne.
Qed.

(** ** Putting out groups *)

Lemma skip_output_spec topo last : (last < length topo)%nat -> (exists k x, (k <= last)%nat /\ topo !! k = Some (Some x)) ->
  exists last' x, skip_output last topo = Done last' /\ (last' <= last)%nat /\ topo !! last' = Some (Some x)
    /\ forall k y, (last' < k <= last)%nat -> topo !! k <> Some (Some y).
Proof.
  induction last as [|last IH]; intros Hl (k & x & Hk & Hx); cbn [skip_output].
  - replace k with 0%nat in Hx by lia. exists 0%nat, x. rewrite Hx. split_and!; [done|lia|done|]. intros. lia.
  - destruct (lookup_lt_is_Some_2 topo (S last) ltac:(lia)) as [[y|] Hy]; rewrite Hy; runs.
    + exists (S last), y. split_and!; [done|lia|done|]. intros. lia.
    + destruct (IH ltac:(lia)) as (last' & z & E & Hle & Hz & Hn).
      { exists k, x. split; [|done]. destruct (decide (k = S last)) as [->|]; [congruence|lia]. }
      exists last', z. split_and!; [done|lia|done|]. intros k' y' Hk'. destruct (decide (k' = S last)) as [->|]; [congruence|apply Hn; lia].
Qed.

Lemma candidate_spec topo before j : (j < length topo)%nat -> length before = length topo ->
  exists r, candidate j topo before = Done r /\
    match r with
    | Some j' => (j' <= j)%nat /\ before !! j' = Some 0 /\ exists x, topo !! j' = Some (Some x)
    | None => forall k x, (k <= j)%nat -> topo !! k = Some (Some x) -> before !! k <> Some 0
    end.
Proof.
  induction j as [|j IH]; intros Hj Hl; cbn [candidate].
  all: destruct (lookup_lt_is_Some_2 topo _ Hj) as [o Ho]; rewrite Ho; runs.
  all: destruct (lookup_lt_is_Some_2 before _ ltac:(by rewrite Hl)) as [n Hn]; rewrite Hn; runs.
  all: destruct (bool_decide (o <> None) && (n =? 0)) eqn:Hc;
    [apply andb_true_iff in Hc as [Hc1%bool_decide_eq_true ->%Z.eqb_eq]; destruct o as [x|]; [|done]; eexists; split; [done|]; split_and!; [done|done|by exists x]|].
  - exists None. split; [done|]. intros k x Hk Hx Hb. replace k with 0%nat in * by lia. rewrite Ho in Hx. injection Hx as ->.
    rewrite Hn in Hb. injection Hb as ->. done.
  - destruct (IH ltac:(lia) Hl) as (r & E & Hr). exists r. split; [done|]. destruct r as [j'|]; [destruct Hr as (? & ? & ?); split_and!; [lia|done|done]|].
    intros k x Hk Hx Hb. destruct (decide (k = S j)) as [->|]; [|by apply (Hr k x); [lia|..]]. rewrite Ho in Hx. injection Hx as ->.
    rewrite Hn in Hb. injection Hb as ->. done.
Qed.

Lemma output_group_spec g i n c nm topo junk F : leader s g = g -> (c + n <= length queue)%nat -> length topo = length queue ->
  (forall k x, queue !! k = Some x -> topo !! k = Some None \/ topo !! k = Some (Some x)) ->
  (forall k x, (c <= k)%nat -> queue !! k = Some x -> grp x = g -> topo !! k = Some (Some x)) ->
  i - nm = Z.of_nat (length junk) - 1 ->
  let ms := filter (fun x => leader s x = g) (take n (drop c queue)) in
  (length ms <= length junk)%nat ->
  exists topo' junk', output_group s n (Z.of_nat c) g i nm topo (junk ++ F) = Done (nm + zlen ms, topo', junk' ++ reverse ms ++ F)
    /\ (length junk' + length ms = length junk)%nat /\ length topo' = length queue
    /\ forall k x, queue !! k = Some x -> topo' !! k = if decide (grp x = g /\ (c <= k < c + n)%nat) then Some None else topo !! k.
Proof.
  intros Hg. revert c nm topo junk F. induction n as [|n IH]; intros c nm topo junk F Hn Hl Htopo Hmem Hi ms Hms; cbn [output_group].
  { exists topo, junk. subst ms. rewrite take_0. cbn. rewrite Z.add_0_r, Nat.add_0_r. split_and!; [done|done|done|]. intros k x _. by rewrite decide_False by lia. }
  destruct (lookup_lt_is_Some_2 queue c ltac:(lia)) as [x Hx]. subst ms. rewrite (drop_S _ _ _ Hx) in *. cbn [take] in *. rewrite filter_cons in *.
  rewrite zlookup_nat. assert (Hxq : x ∈ queue) by (by eapply list_elem_of_lookup_2).
  assert (Hmem' : forall k y, (S c <= k)%nat -> queue !! k = Some y -> grp y = g -> topo !! k = Some (Some y)) by (intros k y Hk; apply Hmem; lia).
  assert (Hskip : leader s x <> g -> exists topo' junk', output_group s n (Z.of_nat c + 1) g i nm topo (junk ++ F)
      = Done (nm + zlen (filter (fun x => leader s x = g) (take n (drop (S c) queue))), topo', junk' ++ reverse (filter (fun x => leader s x = g) (take n (drop (S c) queue))) ++ F)
    /\ (length junk' + length (filter (fun x => leader s x = g) (take n (drop (S c) queue))) = length junk)%nat /\ length topo' = length queue
    /\ forall k x, queue !! k = Some x -> topo' !! k = if decide (grp x = g /\ (c <= k < c + S n)%nat) then Some None else topo !! k).
  { intros Hxg. replace (Z.of_nat c + 1) with (Z.of_nat (S c)) by lia. rewrite decide_False in Hms by done.
    destruct (IH (S c) nm topo junk F ltac:(lia) Hl Htopo Hmem' Hi Hms) as (topo' & junk' & E & H1 & H2 & H3). exists topo', junk'. split_and!; [done|done|done|].
    intros k y Hy. rewrite (H3 k y Hy). destruct (decide (k = c)) as [->|]; [assert (y = x) as -> by congruence; rewrite !decide_False; [done|..]; intros (? & _); done|].
    f_equal. apply decide_ext. split; intros (? & ?); (split; [done|lia]). }
  destruct (Htopo c x Hx) as [Hc|Hc]; rewrite Hc; runs.
  - assert (Hxg : leader s x <> g). { intros Hxg. rewrite (Hmem c x) in Hc; [done|lia|done|done]. } rewrite decide_False by done. by apply Hskip.
  - rewrite is_group_member by done. runs. case_bool_decide as Hxg; [|rewrite decide_False by done; by apply Hskip].
    rewrite decide_True in Hms |- * by done. cbn [length] in Hms. destruct junk as [|z junk _] using rev_ind; [cbn in Hms; lia|].
    rewrite length_app in Hms, Hi. cbn in Hms, Hi. replace (i - nm) with (Z.of_nat (length junk)) by lia.
    rewrite <- app_assoc. rewrite (zupdate_nat (junk ++ [z] ++ F)) by (rewrite length_app; cbn; lia). runs. rewrite (zupdate_nat topo) by lia. runs.
    replace (length junk) with (length junk + 0)%nat by lia. rewrite insert_app_r. change (<[0%nat := default 0 (Some x)]> ([z] ++ F)) with (x :: F).
    replace (Z.of_nat c + 1) with (Z.of_nat (S c)) by lia.
    destruct (IH (S c) (nm + 1) (<[c := None]> topo) junk (x :: F)) as (topo' & junk' & E & H1 & H2 & H3);
      [lia|by rewrite length_insert| | |lia|lia|].
    + intros k y Hy. destruct (decide (k = c)) as [->|]; [left; apply list_lookup_insert_eq; lia|]. rewrite list_lookup_insert_ne by done. by apply Htopo.
    + intros k y Hk Hy Hyg. rewrite list_lookup_insert_ne by lia. by apply Hmem'.
    + exists topo', junk'. rewrite E, zlen_cons, reverse_cons. split_and!; [|rewrite length_app; cbn; lia|done|].
      * f_equal. f_equal; [f_equal; lia|]. by rewrite <- !app_assoc.
      * intros k y Hy. rewrite (H3 k y Hy). destruct (decide (k = c)) as [->|].
        { assert (y = x) as -> by congruence. rewrite decide_False by lia. rewrite decide_True by (split; [done|lia]). apply list_lookup_insert_eq. lia. }
        rewrite list_lookup_insert_ne by done. f_equal. apply decide_ext. split; intros (? & ?); (split; [done|lia]).
Qed.

(** ** The scan *)

Lemma filter_same {A} (P Q : A -> Prop) `{!forall x, Decision (P x)} `{!forall x, Decision (Q x)} (l : list A) :
  (forall x, x ∈ l -> P x <-> Q x) -> filter P l = filter Q l.
Proof.
  induction l as [|x l IH]; [done|]. intros Hpq. rewrite !filter_cons. rewrite IH by (intros y Hy; apply Hpq; by right).
  pose proof (Hpq x ltac:(by left)) as Hx. destruct (decide (P x)), (decide (Q x)); (done || tauto).
Qed.

Lemma filter_all {A} (P : A -> Prop) `{!forall x, Decision (P x)} (l : list A) : (forall x, x ∈ l -> P x) -> filter P l = l.
Proof.
  induction l as [|x l IH]; [done|]. intros Hp. rewrite filter_cons, decide_True by (apply Hp; by left). f_equal. apply IH. intros y Hy. apply Hp. by right.
Qed.

Lemma filter_cut {A} (P Q : A -> Prop) `{!forall x, Decision (P x)} `{!forall x, Decision (Q x)} (l : list A) :
  length (filter P l) = (length (filter (fun x => P x /\ Q x) l) + length (filter (fun x => P x /\ ~ Q x) l))%nat.
Proof.
  induction l as [|x l IH]; [done|]. rewrite !filter_cons. destruct (decide (P x)), (decide (Q x)).
  - rewrite (decide_True (P := P x /\ Q x)), (decide_False (P := P x /\ ~ Q x)) by tauto. cbn. lia.
  - rewrite (decide_False (P := P x /\ Q x)), (decide_True (P := P x /\ ~ Q x)) by tauto. cbn. lia.
  - rewrite !decide_False by tauto. done.
  - rewrite !decide_False by tauto. done.
Qed.

Definition put_out (outs : list Z) : list Z := concat ((fun g => reverse (members g)) <$> outs).
Definition rest (outs : list Z) : list Z := filter (fun x => leader s x ∉ outs) queue.
Definition ordered (l : list EDGE) (outs : list Z) : Prop :=
  forall e, e ∈ l -> concerns e -> waiter e ∈ outs -> exists a b, outs = a ++ waiter e :: b /\ blocker e ∈ b.
Definition still_waiting (g : Z) (outs : list Z) (l : list EDGE) : list EDGE :=
  filter (fun e => (concerns e /\ waiter e = g) /\ blocker e ∉ outs) l.

Record scan (l : list EDGE) (outs : list Z) (topo : list (option Z)) (before junk : list Z) : Prop := {
  sc_outs : NoDup outs /\ forall g, g ∈ outs -> members g <> [];
  sc_topo : length topo = length queue /\ forall k x, queue !! k = Some x -> topo !! k = Some (if decide (grp x ∈ outs) then None else Some x);
  sc_before : length before = length queue;
  sc_rep : forall k x, queue !! k = Some x -> is_rep k -> grp x ∉ outs -> before !! k = Some (zlen (still_waiting (grp x) outs l));
  sc_other : forall k x, queue !! k = Some x -> ~ is_rep k -> grp x ∉ outs -> exists b, before !! k = Some b
    /\ (b = -1 \/ b = 0 /\ forall e, e ∈ l -> concerns e -> waiter e <> grp x /\ blocker e <> grp x);
  sc_junk : length junk = length (rest outs);
  sc_ordered : ordered l outs }.

Lemma rest_cons g outs : g ∉ outs -> (length (members g) + length (rest (g :: outs)) = length (rest outs))%nat.
Proof.
  intros Hg. unfold rest. rewrite (filter_cut (fun x => leader s x ∉ outs) (fun x => leader s x = g) queue). f_equal.
  - unfold members. f_equal. apply list_filter_iff. intros x. split; [|tauto]. intros <-. done.
  - f_equal. apply list_filter_iff. intros x. rewrite not_elem_of_cons. tauto.
Qed.

Lemma put_out_cons g outs : put_out (g :: outs) = reverse (members g) ++ put_out outs.
Proof. done. Qed.
Lemma put_out_app o1 o2 : put_out (o1 ++ o2) = put_out o1 ++ put_out o2.
Proof. unfold put_out. by rewrite fmap_app, concat_app. Qed.
Lemma elem_of_put_out x outs : x ∈ put_out outs <-> x ∈ queue /\ leader s x ∈ outs.
Proof.
  induction outs as [|g outs IH]; [split; [by intros ?%not_elem_of_nil|by intros [_ ?%not_elem_of_nil]]|].
  rewrite put_out_cons, elem_of_app, elem_of_reverse, elem_of_group, elem_of_cons, IH. tauto.
Qed.
Lemma put_out_nodup outs : NoDup outs -> NoDup (put_out outs).
Proof.
  induction 1 as [|g outs Hg _ IH]; [constructor|]. rewrite put_out_cons. apply NoDup_app. split_and!; [|intros x Hx Hx2|done].
  - rewrite (reverse_Permutation (members g)). by apply NoDup_filter.
  - apply elem_of_reverse, elem_of_group in Hx as [_ <-]. by apply elem_of_put_out in Hx2 as [_ ?].
Qed.

(** A complete order of groups is an order of the queue. *)
Lemma put_out_order l outs : NoDup outs -> rest outs = [] -> ordered l outs ->
  put_out outs ≡ₚ queue /\ satisfies l (put_out outs) /\ grouped (put_out outs).
Proof.
  intros Ho Hr Hord. assert (Hall : forall x, x ∈ queue -> leader s x ∈ outs).
  { intros x Hx. destruct (decide (leader s x ∈ outs)) as [|Hn]; [done|]. destruct (not_elem_of_nil x). rewrite <- Hr. by apply list_elem_of_filter. }
  split_and!.
  - apply NoDup_Permutation; [by apply put_out_nodup|done|]. intros x. rewrite elem_of_put_out. split; [by intros [? _]|auto].
  - intros e x y He Hx Hy. pose proof Hx as [Hxq Hxg]%elem_of_group. pose proof Hy as [Hyq Hyg]%elem_of_group.
    destruct (Hord e He) as (a & b & -> & Hb).
    + split; intros E; [rewrite E in Hx|rewrite E in Hy]; by apply not_elem_of_nil in Hx || apply not_elem_of_nil in Hy.
    + rewrite <- Hxg. by apply Hall.
    + apply list_elem_of_split in Hb as (b1 & b2 & ->). apply elem_of_reverse, list_elem_of_split in Hx as (x1 & x2 & Ex).
      apply elem_of_reverse, list_elem_of_split in Hy as (y1 & y2 & Ey). rewrite put_out_app, put_out_cons, put_out_app, put_out_cons, Ex, Ey.
      exists (put_out a ++ x1), (x2 ++ put_out b1 ++ y1), (y2 ++ put_out b2). by rewrite <- !app_assoc.
  - intros g. destruct (decide (g ∈ outs)) as [Hg|Hg].
    + apply list_elem_of_split in Hg as (a & b & ->). exists (put_out a), (reverse (members g)), (put_out b).
      rewrite put_out_app, put_out_cons. split; [done|apply reverse_Permutation].
    + exists [], [], (put_out outs). split; [done|]. symmetry. apply Permutation_nil_r, members_nil. intros x Hx <-. by apply Hg, Hall.
Qed.

(** No order if every group left waits for a group left. *)
Lemma no_order l outs : rest outs <> [] ->
  (forall x, x ∈ rest outs -> exists e, e ∈ l /\ concerns e /\ waiter e = leader s x /\ blocker e ∉ outs) ->
  forall order, order ≡ₚ queue -> ~ satisfies l order.
Proof.
  intros Hne Hw order Hperm Hsat.
  assert (Hlast : forall o : list Z, (exists x, x ∈ o /\ leader s x ∉ outs) -> exists a x b, o = a ++ x :: b /\ leader s x ∉ outs /\ forall y, y ∈ b -> leader s y ∈ outs).
  { clear. intros o. induction o as [|z o IH]; [by intros (x & ?%not_elem_of_nil & _)|]. intros Hex.
    destruct (decide (Exists (fun x => leader s x ∉ outs) o)) as [He|Hn].
    - apply Exists_exists in He. destruct (IH He) as (a & x & b & -> & H). by exists (z :: a), x, b.
    - exists [], z, o. assert (Ho : forall y, y ∈ o -> leader s y ∈ outs).
      { intros y Hy. destruct (decide (leader s y ∈ outs)); [done|]. destruct Hn. apply Exists_exists. by exists y. }
      split_and!; [done| |done]. destruct Hex as (x & [->|Hx]%elem_of_cons & Hx2); [done|]. by destruct (Hx2 (Ho x Hx)). }
  destruct (Hlast order) as (a & x & b & -> & Hx & Hb).
  { destruct (rest outs) as [|x r] eqn:E; [done|]. exists x. assert (Hx : x ∈ rest outs) by (rewrite E; by left).
    apply list_elem_of_filter in Hx as [? ?]. by rewrite Hperm. }
  assert (Hxq : x ∈ queue) by (rewrite <- Hperm, elem_of_app, elem_of_cons; auto).
  destruct (Hw x) as (e & He & Hc & Ew & Hblk); [by apply list_elem_of_filter|]. destruct Hc as [_ Hc].
  destruct (members (blocker e)) as [|y ms] eqn:E; [done|]. assert (Hy : y ∈ members (blocker e)) by (rewrite E; by left).
  destruct (Hsat e x y He) as (a' & b' & c' & E'); [rewrite Ew; by apply elem_of_group|done|].
  assert (Hn : NoDup (a ++ x :: b)) by (by rewrite Hperm). apply split_unique in E' as [_ ->]; [|done].
  apply elem_of_group in Hy as [_ Hyg]. apply Hblk. rewrite <- Hyg. apply Hb. rewrite elem_of_app, elem_of_cons. auto.
Qed.

Section Scan.
Context (l : list EDGE) (before0 after : list Z) (Hinv : inv l before0 after).

(** A group that may be put out: nothing has to come after it. *)
Record chosen (outs : list Z) (g : Z) (es : list EDGE) : Prop := {
  ch_new : g ∉ outs;
  ch_free : forall e, e ∈ l -> concerns e -> waiter e = g -> blocker e ∈ outs;
  ch_es : forall e, e ∈ es -> e ∈ l /\ concerns e;
  ch_count : forall k y, queue !! k = Some y -> is_rep k -> grp y <> g ->
    length (filter (fun e => DeadLock.pred e = Z.of_nat k) es) = length (filter (fun e => (concerns e /\ waiter e = grp y) /\ blocker e = g) l) }.

Lemma pred_rep e k y : e ∈ l -> concerns e -> queue !! k = Some y -> is_rep k -> DeadLock.pred e = Z.of_nat k <-> waiter e = grp y.
Proof.
  intros He Hc Hy Hr. destruct (iv_pred _ _ _ Hinv e He Hc) as (j & -> & Hrj & x & Hx & Hxg). split.
  - intros E. assert (j = k) as -> by lia. congruence.
  - intros E. f_equal. apply (rep_unique j k x y); try done. congruence.
Qed.

Lemma candidate_chosen outs topo before junk j x h es : scan l outs topo before junk -> topo !! j = Some (Some x) -> before !! j = Some 0 ->
  after !! j = Some h -> queue !! j = Some x -> es ≡ₚ (if decide (is_rep j) then blocked_by (grp x) l else []) -> chosen outs (grp x) es.
Proof.
  intros Hsc Ht Hb Hh Hx Hes. assert (Hnew : grp x ∉ outs) by (intros Hin; rewrite (proj2 (sc_topo _ _ _ _ _ Hsc) j x Hx), decide_True in Ht by done; done).
  case_decide as Hr.
  - rewrite (sc_rep _ _ _ _ _ Hsc j x Hx Hr Hnew) in Hb. injection Hb as Hb. apply zlen_filter_nil in Hb.
    constructor; [done| | |].
    + intros e He Hc Hw. destruct (decide (blocker e ∈ outs)) as [|Hn]; [done|]. destruct (not_elem_of_nil e). rewrite <- Hb. by apply list_elem_of_filter.
    + intros e He. rewrite Hes in He. by apply list_elem_of_filter in He as [[? _] ?].
    + intros k y Hy Hry _. rewrite Hes. unfold blocked_by. rewrite list_filter_filter. f_equal. apply filter_same.
      intros e He. split; [intros (E & Hc & Hbl)|intros ((Hc & E) & Hbl)]; split_and!; try done; by apply (pred_rep e k y).
  - destruct (sc_other _ _ _ _ _ Hsc j x Hx Hr Hnew) as (b & Hb' & Hor). rewrite Hb in Hb'. injection Hb' as <-. destruct Hor as [?|[_ Hno]]; [done|].
    apply Permutation_nil_r in Hes as ->. constructor; [done| |by intros e ?%not_elem_of_nil|].
    + intros e He Hc Hw. by destruct (Hno e He Hc).
    + intros k y Hy Hry _. cbn. symmetry. apply length_zero_iff_nil. destruct (filter _ l) as [|e r] eqn:E; [done|].
      assert (He : e ∈ filter (fun e => (concerns e /\ waiter e = grp y) /\ blocker e = grp x) l) by (rewrite E; by left).
      apply list_elem_of_filter in He as [[[Hc _] Hbl] He]. by destruct (Hno e He Hc).
Qed.

Lemma scan_next outs topo before junk g es topo' before' junk' : scan l outs topo before junk -> chosen outs g es -> members g <> [] ->
  length topo' = length queue -> (forall k x, queue !! k = Some x -> topo' !! k = if decide (grp x = g) then Some None else topo !! k) ->
  length before' = length before -> (forall k b, before !! k = Some b -> before' !! k = Some (b - zlen (filter (fun e => DeadLock.pred e = Z.of_nat k) es))) ->
  (length junk' + length (members g) = length junk)%nat -> scan l (g :: outs) topo' before' junk'.
Proof.
  intros [[H1 H1'] [H2 H2'] H3 H4 H5 H6 H7] [C1 C2 C3 C4] Hg Hlt Ht Hlb Hb Hj. constructor.
  - split; [by constructor|]. intros g' [->|Hin]%elem_of_cons; [done|by apply H1'].
  - split; [done|]. intros k x Hx. rewrite (Ht k x Hx), (H2' k x Hx). destruct (decide (grp x = g)) as [E|E].
    + by rewrite decide_True by (rewrite E; by left).
    + f_equal. apply decide_ext. rewrite elem_of_cons. tauto.
  - congruence.
  - intros k x Hx Hr Hn. apply not_elem_of_cons in Hn as [Hne Hn]. rewrite (Hb k _ (H4 k x Hx Hr Hn)). f_equal. unfold still_waiting, zlen.
    rewrite (C4 k x Hx Hr Hne). rewrite (filter_cut (fun e => (concerns e /\ waiter e = grp x) /\ blocker e ∉ outs) (fun e => blocker e = g) l).
    rewrite (list_filter_iff (fun e => ((concerns e /\ waiter e = grp x) /\ blocker e ∉ outs) /\ blocker e = g) (fun e => (concerns e /\ waiter e = grp x) /\ blocker e = g))
      by (intros e; split; [tauto|intros [? E]; by rewrite E]).
    rewrite (list_filter_iff (fun e => ((concerns e /\ waiter e = grp x) /\ blocker e ∉ outs) /\ blocker e <> g) (fun e => (concerns e /\ waiter e = grp x) /\ blocker e ∉ g :: outs))
      by (intros e; rewrite not_elem_of_cons; tauto). lia.
  - intros k x Hx Hr Hn. apply not_elem_of_cons in Hn as [Hne Hn]. destruct (H5 k x Hx Hr Hn) as (b & Hbk & Hor). exists b. split; [|done].
    rewrite (Hb k b Hbk). replace (filter _ es) with (@nil EDGE); [by rewrite Z.sub_0_r|]. symmetry. destruct (filter _ es) as [|e r] eqn:E; [done|].
    assert (He : e ∈ filter (fun e => DeadLock.pred e = Z.of_nat k) es) by (rewrite E; by left). apply list_elem_of_filter in He as [Hp He].
    destruct (C3 e He) as [Hel Hc]. destruct (iv_pred _ _ _ Hinv e Hel Hc) as (k' & Hk' & Hrk & _). assert (k' = k) as -> by lia. done.
  - pose proof (rest_cons g outs C1). lia.
  - intros e He Hc [Hw|Hw]%elem_of_cons; [exists [], outs; split; [by rewrite Hw|by apply C2]|].
    destruct (H7 e He Hc Hw) as (a & b & -> & Hbl). by exists (g :: a), b.
Qed.

(** The scan ends: the queue is put out, or the groups left wait for each other. *)
Definition scan_post (r : bool * list Z) : Prop :=
  if fst r then exists outs, snd r = put_out outs /\ NoDup outs /\ rest outs = [] /\ ordered l outs
  else forall order, order ≡ₚ queue -> ~ satisfies l order.

Lemma release_step outs topo before junk j x : scan l outs topo before junk -> topo !! j = Some (Some x) -> before !! j = Some 0 ->
  exists h es before', after !! j = Some h /\ chosen outs (grp x) es /\ release_preds (S (length l)) h l before = Done before'
    /\ length before' = length before /\ forall k b, before !! k = Some b -> before' !! k = Some (b - zlen (filter (fun e => DeadLock.pred e = Z.of_nat k) es)).
Proof.
  intros Hsc Ht Hb. pose proof (sc_topo _ _ _ _ _ Hsc) as [Hlt Htopo].
  assert (Hx : queue !! j = Some x).
  { destruct (lookup_lt_is_Some_2 queue j) as [y Hy]; [rewrite <- Hlt; by eapply lookup_lt_Some|]. rewrite (Htopo j y Hy) in Ht. case_decide; [done|]. congruence. }
  destruct (iv_after _ _ _ Hinv j x Hx) as (h & es & Hh & Hch & Hle & Hes). pose proof (candidate_chosen _ _ _ _ _ _ _ _ Hsc Ht Hb Hh Hx Hes) as Hcs.
  destruct (release_preds_spec l h es (S (length l)) before Hch) as (before' & E & Hl & Hbs); [unfold zlen in Hle; lia| |].
  - intros e He. destruct (ch_es _ _ _ Hcs e He) as [Hel Hc]. destruct (iv_pred _ _ _ Hinv e Hel Hc) as (k & Hk & _ & z & Hz & _).
    exists k. split; [done|]. rewrite (sc_before _ _ _ _ _ Hsc). by eapply lookup_lt_Some.
  - by exists h, es, before'.
Qed.

Lemma stuck_scan outs topo before junk last : scan l outs topo before junk -> junk <> [] ->
  (forall k x, topo !! k = Some (Some x) -> (k <= last)%nat) -> (forall k x, (k <= last)%nat -> topo !! k = Some (Some x) -> before !! k <> Some 0) ->
  forall order, order ≡ₚ queue -> ~ satisfies l order.
Proof.
  intros Hsc Hj Hlast Hno. apply (no_order l outs).
  { intros E. apply Hj. apply length_zero_iff_nil. by rewrite (sc_junk _ _ _ _ _ Hsc), E. }
  intros x Hx. apply list_elem_of_filter in Hx as [Hg Hx]. set (g := leader s x) in *.
  assert (Hrep : exists k, rep_of g k).
  { destruct (representative_spec g (length queue) (-1) (replicate (length queue) 0)) as (jj & b & _ & _ & [(_ & Hm & _)|(k & _ & Hk)] & _); [|by rewrite length_replicate|lia| | |by exists k].
    - by apply leader_known; [|apply Hknown].
    - left. split; [done|]. intros k y Hk Hy%lookup_lt_Some. lia.
    - rewrite members_nil in Hm. by destruct (Hm x Hx). }
  destruct Hrep as (k & Hr & y & Hy & Hyg). assert (Hyo : grp y ∉ outs) by (by rewrite Hyg).
  pose proof (proj2 (sc_topo _ _ _ _ _ Hsc) k y Hy) as Ht. rewrite decide_False in Ht by done.
  pose proof (Hno k y (Hlast k y Ht) Ht) as Hb. rewrite (sc_rep _ _ _ _ _ Hsc k y Hy Hr Hyo) in Hb.
  destruct (still_waiting (grp y) outs l) as [|e r] eqn:E; [by destruct Hb|]. assert (He : e ∈ still_waiting (grp y) outs l) by (rewrite E; by left).
  apply list_elem_of_filter in He as [[[Hc Hw] Hbl] He]. exists e. split_and!; [done|done|congruence|done].
Qed.

Lemma scan_spec fuel outs topo before junk last : scan l outs topo before junk -> (length junk <= fuel)%nat ->
  (junk <> [] -> (last < length queue)%nat) -> (forall k x, topo !! k = Some (Some x) -> (k <= last)%nat) ->
  exists r, TopoSortScan s fuel l after (Z.of_nat (length junk) - 1) last topo before (junk ++ put_out outs) = Done r /\ scan_post r.
Proof.
  revert outs topo before junk last. induction fuel as [|fuel IH]; intros outs topo before junk last Hsc Hf Hlast Htop; cbn [TopoSortScan].
  all: destruct (decide (junk = [])) as [->|Hj].
  1, 3: cbn; eexists; split; [done|]; exists outs; split_and!; [done|apply Hsc| |apply Hsc].
  1, 2: apply length_zero_iff_nil; by rewrite <- (sc_junk _ _ _ _ _ Hsc).
  { destruct junk; [done|cbn in Hf; lia]. }
  assert (Hpos : (0 < length junk)%nat) by (destruct junk; [done|cbn; lia]). rewrite (proj2 (Z.ltb_ge _ _)) by lia.
  pose proof (sc_topo _ _ _ _ _ Hsc) as [Hlt Htopo]. pose proof (Hlast Hj) as Hl.
  assert (Hex : exists k x, (k <= last)%nat /\ topo !! k = Some (Some x)).
  { destruct (rest outs) as [|x r] eqn:E; [rewrite (sc_junk _ _ _ _ _ Hsc), E in Hpos; cbn in Hpos; lia|]. assert (Hx : x ∈ rest outs) by (rewrite E; by left).
    apply list_elem_of_filter in Hx as [Hg Hx]. apply list_elem_of_lookup in Hx as [k Hk]. exists k, x. assert (Ht : topo !! k = Some (Some x)); [|by eauto].
    by rewrite (Htopo k x Hk), decide_False. }
  destruct (skip_output_spec topo last ltac:(lia) Hex) as (last' & z & -> & Hle & Hz & Hnz). runs.
  assert (Htop' : forall k x, topo !! k = Some (Some x) -> (k <= last')%nat).
  { intros k x Hk. destruct (decide (k <= last')%nat); [done|]. pose proof (Htop k x Hk). by destruct (Hnz k x ltac:(lia)). }
  destruct (candidate_spec topo before last' ltac:(lia)) as (r & -> & Hr); [by rewrite (sc_before _ _ _ _ _ Hsc)|]. runs.
  destruct r as [j|]; [|eexists; split; [done|]; exact (stuck_scan outs topo before junk last' Hsc Hj Htop' Hr)].
  destruct Hr as (Hjl & Hb & x & Ht). rewrite Ht. runs. destruct (release_step _ _ _ _ _ _ Hsc Ht Hb) as (h & es & before' & Hh & Hcs & Hrel & Hlb & Hbs).
  assert (Hx : queue !! j = Some x).
  { destruct (lookup_lt_is_Some_2 queue j ltac:(lia)) as [y Hy]. rewrite (Htopo j y Hy) in Ht. case_decide; [done|]. congruence. }
  assert (Hxq : x ∈ queue) by (by eapply list_elem_of_lookup_2). destruct (Hknown x Hxq) as [px Hpx]. rewrite Hpx. runs. rewrite (leader_group s x px Hpx).
  set (g := leader s x) in *. assert (Hg : leader s g = g) by (apply leader_known; [done|by apply Hknown]).
  assert (Hms : filter (fun x => leader s x = g) (take (S last') (drop 0 queue)) = members g).
  { rewrite drop_0. unfold members. rewrite <- (take_drop (S last') queue) at 2. rewrite filter_app.
    destruct (filter _ (drop (S last') queue)) as [|y r] eqn:E; [by rewrite app_nil_r|]. exfalso.
    assert (Hy : y ∈ filter (fun x => leader s x = g) (drop (S last') queue)) by (rewrite E; by left). apply list_elem_of_filter in Hy as [Hyg Hy].
    apply list_elem_of_lookup in Hy as [k Hk]. rewrite lookup_drop in Hk. assert (S last' + k <= last')%nat; [|lia]. apply (Htop' _ y).
    rewrite (Htopo _ y Hk), decide_False; [done|]. unfold grp. rewrite Hyg. apply Hcs. }
  assert (Hrest : (length (members g) <= length junk)%nat) by (rewrite (sc_junk _ _ _ _ _ Hsc); pose proof (rest_cons g outs (ch_new _ _ _ Hcs)); lia).
  destruct (output_group_spec g (Z.of_nat (length junk) - 1) (S last') 0 0 topo junk (put_out outs) Hg ltac:(lia) Hlt) as (topo' & junk' & E & Hjl' & Hlt' & Ht');
    [| |lia|by rewrite Hms|].
  { intros k y Hy. rewrite (Htopo k y Hy). case_decide; auto. }
  { intros k y _ Hy Hyg. rewrite (Htopo k y Hy), decide_False; [done|]. rewrite Hyg. apply Hcs. }
  rewrite Hms in E, Hjl'. change (Z.of_nat 0) with 0 in E. rewrite E, Hh. runs. rewrite Hrel. runs.
  assert (Hgm : members g <> []) by (intros En; rewrite members_nil in En; by apply (En x)).
  assert (Hnext : scan l (g :: outs) topo' before' junk').
  { eapply scan_next; [exact Hsc|exact Hcs|done|done| |done|done|done]. intros k y Hy. rewrite (Ht' k y Hy).
    destruct (decide (grp y = g)) as [Eg|Eg]; [|by rewrite decide_False by tauto]. rewrite decide_True; [done|]. split; [done|].
    assert (k <= last')%nat; [|lia]. apply (Htop' k y). rewrite (Htopo k y Hy), decide_False; [done|]. rewrite Eg. apply Hcs. }
  assert (Hgl : (0 < length (members g))%nat) by (destruct (members g); [done|cbn; lia]).
  replace (Z.of_nat (length junk) - 1 - (0 + zlen (members g))) with (Z.of_nat (length junk') - 1) by (unfold zlen; lia).
  rewrite <- put_out_cons. apply IH; [done|lia|lia|]. intros k y Hk. apply (Htop' k y).
  destruct (lookup_lt_is_Some_2 queue k) as [w Hw]; [rewrite <- Hlt'; by eapply lookup_lt_Some|]. rewrite (Ht' k w Hw) in Hk. by case_decide.
Qed.
End Scan.

(** ** TopoSort *)
Lemma TopoSort_spec constraints : Forall by_leaders constraints ->
  exists ok order constraints', TopoSort s queue constraints = Done (ok, order, constraints') /\ Forall2 same_edge constraints constraints'
    /\ if ok : bool then order ≡ₚ queue /\ satisfies constraints order /\ grouped order
       else forall order', order' ≡ₚ queue -> ~ satisfies constraints order'.
Proof.
  intros Hcs. unfold TopoSort. destruct (note_constraints_spec constraints [] _ _ Hcs start_inv) as (cs' & before & after & E & Hf & Hinv).
  change (zlen (@nil EDGE)) with 0 in E. rewrite E. runs. cbn [app] in Hinv.
  assert (Hsat : forall o, satisfies cs' o -> satisfies constraints o).
  { intros o Ho e x y He Hx Hy. apply list_elem_of_lookup in He as [k Hk]. destruct (Forall2_lookup_l _ _ _ _ _ Hf Hk) as (e' & He' & (W & B & _)).
    apply (Ho e'); [by eapply list_elem_of_lookup_2|by rewrite W|by rewrite B]. }
  assert (Hsat' : forall o, satisfies constraints o -> satisfies cs' o).
  { intros o Ho e x y He Hx Hy. apply list_elem_of_lookup in He as [k Hk]. destruct (Forall2_lookup_r _ _ _ _ _ Hf Hk) as (e' & He' & (W & B & _)).
    apply (Ho e'); [by eapply list_elem_of_lookup_2|by rewrite <- W|by rewrite <- B]. }
  assert (Hsc : scan cs' [] (Some <$> queue) before (replicate (length queue) 0)).
  { constructor.
    - split; [constructor|by intros g ?%not_elem_of_nil].
    - split; [by rewrite length_fmap|]. intros k x Hx. rewrite list_lookup_fmap, Hx. cbn. by rewrite decide_False by apply not_elem_of_nil.
    - apply Hinv.
    - intros k x Hx Hr _. rewrite (iv_rep _ _ _ Hinv k x Hx Hr). do 2 f_equal. apply filter_same. intros e _. pose proof (not_elem_of_nil (blocker e)). tauto.
    - intros k x Hx Hr _. by apply (iv_other _ _ _ Hinv).
    - rewrite length_replicate. unfold rest. f_equal. symmetry. apply filter_all. intros x _. apply not_elem_of_nil.
    - by intros e _ _ ?%not_elem_of_nil. }
  destruct (scan_spec cs' before after Hinv (length queue) [] (Some <$> queue) before (replicate (length queue) 0) (length queue - 1)%nat Hsc) as (r & Er & Hr).
  - by rewrite length_replicate.
  - intros Hne. assert (length queue <> 0%nat); [|lia]. intros H0. apply Hne. by rewrite H0.
  - intros k x Hk%lookup_lt_Some. rewrite length_fmap in Hk. lia.
  - rewrite length_replicate in Er. unfold put_out in Er. cbn [fmap list_fmap concat] in Er. rewrite app_nil_r in Er. unfold zlen. rewrite Er. runs.
    destruct r as [ok order]. exists ok, order, cs'. split; [done|]. split; [done|]. destruct ok; cbn in Hr.
    + destruct Hr as (outs & -> & Hn & Hrest & Hord). destruct (put_out_order cs' outs Hn Hrest Hord) as (H1 & H2 & H3). auto.
    + intros o Ho Hs. by apply (Hr o Ho), Hsat'.
Qed.

(** *** The workspace of the constraints does not matter *)

Lemma filter_twin (R : EDGE -> EDGE -> Prop) (P : EDGE -> Prop) `{!forall x, Decision (P x)} l1 l2 : Forall2 R l1 l2 ->
  (forall e1 e2, e1 ∈ l1 -> e2 ∈ l2 -> R e1 e2 -> P e1 <-> P e2) -> length (filter P l1) = length (filter P l2).
Proof.
  induction 1 as [|e1 e2 l1 l2 HR _ IH]; [done|]. intros HP. pose proof (HP e1 e2 ltac:(by left) ltac:(by left) HR) as He.
  rewrite !filter_cons. pose proof (IH ltac:(intros; apply HP; [by right|by right|done])) as IH'. destruct (decide (P e1)), (decide (P e2)); cbn; lia || tauto.
Qed.

Lemma release_twin l1 l2 b1 b2 after j x h before : inv l1 b1 after -> inv l2 b2 after -> Forall2 same_edge l1 l2 -> length before = length queue ->
  queue !! j = Some x -> after !! j = Some h ->
  exists before', length before' = length queue /\ release_preds (S (length l1)) h l1 before = Done before' /\ release_preds (S (length l2)) h l2 before = Done before'.
Proof.
  intros H1 H2 Hf Hl Hx Hh. assert (Hone : forall l b, inv l b after -> exists es before', release_preds (S (length l)) h l before = Done before'
    /\ length before' = length queue /\ es ≡ₚ (if decide (is_rep j) then blocked_by (grp x) l else [])
    /\ forall k b, before !! k = Some b -> before' !! k = Some (b - zlen (filter (fun e => DeadLock.pred e = Z.of_nat k) es))).
  { intros l b Hi. destruct (iv_after _ _ _ Hi j x Hx) as (h' & es & Hh' & Hch & Hle & Hes). assert (h' = h) as -> by congruence.
    destruct (release_preds_spec l h es (S (length l)) before Hch) as (before' & E & Hlb & Hbs); [unfold zlen in Hle; lia| |exists es, before'; split_and!; [done|congruence|done|done]].
    intros e He. rewrite Hes in He. case_decide; [|by apply not_elem_of_nil in He]. apply list_elem_of_filter in He as [[Hc _] He].
    destruct (iv_pred _ _ _ Hi e He Hc) as (k & Hk & _ & z & Hz & _). exists k. split; [done|]. rewrite Hl. by eapply lookup_lt_Some. }
  destruct (Hone l1 b1 H1) as (es1 & r1 & E1 & L1 & P1 & B1), (Hone l2 b2 H2) as (es2 & r2 & E2 & L2 & P2 & B2). exists r1. split_and!; [done|done|].
  rewrite E2. f_equal. apply list_eq. intros k. destruct (before !! k) as [b|] eqn:Hb.
  - rewrite (B1 k b Hb), (B2 k b Hb). do 2 f_equal. unfold zlen. f_equal. rewrite P1, P2. case_decide; [|done]. unfold blocked_by. rewrite !list_filter_filter.
    symmetry. eapply filter_twin; [exact Hf|]. intros e e' He He' (W & B & _).
    assert (Hc : concerns e' <-> concerns e) by (unfold concerns; by rewrite W, B). rewrite B. split; intros (Hp & C & Hg); (split_and!; [|tauto|done]).
    all: destruct (iv_pred _ _ _ H1 e He ltac:(tauto)) as (k1 & Hk1 & Hr1 & z1 & Hz1 & G1), (iv_pred _ _ _ H2 e' He' ltac:(tauto)) as (k2 & Hk2 & Hr2 & z2 & Hz2 & G2).
    all: assert (k1 = k2) as -> by (apply (rep_unique k1 k2 z1 z2); try done; congruence); congruence.
  - apply lookup_ge_None_1 in Hb. rewrite !lookup_ge_None_2; [done|lia|lia].
Qed.

Lemma scan_twin l1 l2 b1 b2 after : inv l1 b1 after -> inv l2 b2 after -> Forall2 same_edge l1 l2 ->
  forall fuel i last topo before ordering, length before = length queue ->
  TopoSortScan s fuel l1 after i last topo before ordering = TopoSortScan s fuel l2 after i last topo before ordering.
Proof.
  intros H1 H2 Hf fuel. induction fuel as [|fuel IH]; intros i last topo before ordering Hl; [done|]. cbn [TopoSortScan]. case_match; [done|].
  destruct (skip_output last topo) as [last'|c|]; [|done..]. runs. destruct (candidate last' topo before) as [[j|]|c|]; [|done..]. runs.
  destruct (inside (topo !! j)) as [o|c|]; [|done..]. runs. destruct (inside o) as [x|c|]; [|done..]. runs.
  destruct (inside (allProcs s !! x)) as [px|c|]; [|done..]. runs. destruct (output_group _ _ _ _ _ _ _ _) as [[[nm topo'] ord]|c|]; [|done..]. runs.
  destruct (after !! j) as [h|] eqn:Hh; [|done]. runs.
  destruct (lookup_lt_is_Some_2 queue j) as [y Hy]; [rewrite <- (proj2 (iv_len _ _ _ H1)); by eapply lookup_lt_Some|].
  destruct (release_twin l1 l2 b1 b2 after j y h before H1 H2 Hf Hl Hy Hh) as (before' & Hl' & -> & ->). runs. by apply IH.
Qed.

Lemma note_twin cs1 cs2 : Forall2 same_edge cs1 cs2 -> forall i before after c1 b1 a1, note_constraints s queue i cs1 before after = Done (c1, b1, a1) ->
  exists c2, note_constraints s queue i cs2 before after = Done (c2, b1, a1) /\ Forall2 same_edge c1 c2.
Proof.
  induction 1 as [|e1 e2 cs1 cs2 (W & B & L) Hf IH]; intros i before after c1 b1 a1 E; cbn [note_constraints] in *.
  { injection E as <- <- <-. by exists []. }
  rewrite W, B. destruct (representative s _ (waiter e1) _ _ _) as [[jj b]|c|]; [|done..]. runs. cbn [mbind run_bind] in E.
  assert (Hrest : forall b a f g, same_edge f g ->
    ('(constraints, before, after) ← note_constraints s queue (i + 1) cs1 b a; mret (f :: constraints, before, after)) = Done (c1, b1, a1) ->
    exists c2, ('(constraints, before, after) ← note_constraints s queue (i + 1) cs2 b a; mret (g :: constraints, before, after)) = Done (c2, b1, a1) /\ Forall2 same_edge c1 c2).
  { intros b' a' f g Hfg E'. destruct (note_constraints s queue (i + 1) cs1 b' a') as [[[c' b2] a2]|c|] eqn:En; [|done..]. injection E' as <- <- <-.
    destruct (IH _ _ _ _ _ _ En) as (c2 & -> & Hc2). runs. eexists. split; [done|]. by constructor. }
  destruct (jj <? 0); [by apply (Hrest b after e1 e2)|].
  destruct (representative s _ (blocker e1) _ _ _) as [[kk b']|c|]; [|done..]. runs. cbn [mbind run_bind] in E.
  destruct (kk <? 0); [by apply (Hrest b' after e1 e2)|].
  destruct (inside (zlookup b' jj)) as [n|c|]; [|done..]. runs. cbn [mbind run_bind] in E. destruct (inside (zupdate b' jj (n + 1))) as [b2|c|]; [|done..]. runs. cbn [mbind run_bind] in E.
  destruct (inside (zlookup after kk)) as [h|c|]; [|done..]. runs. cbn [mbind run_bind] in E. destruct (inside (zupdate after kk (i + 1))) as [a2|c|]; [|done..]. runs. cbn [mbind run_bind] in E.
  by apply (Hrest b2 a2 (link_edge jj h e1) (link_edge jj h e2)).
Qed.

Lemma TopoSort_twin cs1 cs2 ok1 o1 c1 ok2 o2 c2 : Forall by_leaders cs1 -> Forall2 same_edge cs1 cs2 ->
  TopoSort s queue cs1 = Done (ok1, o1, c1) -> TopoSort s queue cs2 = Done (ok2, o2, c2) -> ok1 = ok2 /\ o1 = o2.
Proof.
  intros Hcs Hf. assert (Hcs2 : Forall by_leaders cs2).
  { rewrite Forall_forall in Hcs |- *. intros e He. apply list_elem_of_lookup in He as [k Hk]. destruct (Forall2_lookup_r _ _ _ _ _ Hf Hk) as (e' & He' & (W & B & _)).
    unfold by_leaders. rewrite W, B. apply Hcs. by eapply list_elem_of_lookup_2. }
  unfold TopoSort. destruct (note_constraints_spec cs1 [] _ _ Hcs start_inv) as (d1 & b1 & a1 & E1 & F1 & I1).
  destruct (note_constraints_spec cs2 [] _ _ Hcs2 start_inv) as (d2 & b2 & a2 & E2 & F2 & I2). change (zlen (@nil EDGE)) with 0 in *.
  destruct (note_twin cs1 cs2 Hf _ _ _ _ _ _ E1) as (d3 & E3 & F3). rewrite E2 in E3. injection E3 as -> -> ->. rewrite E1, E2. runs.
  rewrite (scan_twin d1 d3 b1 b1 a1 I1 I2 F3) by apply I1. intros H1 H2. destruct (TopoSortScan _ _ _ _ _ _ _ _ _) as [[ok o]|c|]; [|done..].
  injection H1 as <- <- <-. by injection H2 as <- <- <-.
Qed.
End Sort.
