(* ===== verification/DeadTwin.v ===== *)
(** A search depends on the table, the orders and the constraints only.

    [twin d1 d2] says that two workspaces agree on what a search reads;
    [both m1 m2 d1 d2] that two runs give the same result, leave twins and keep
    the constraints.  Repeating [TestConfiguration] on the same constraints
    gives the same number of edges ([test_again]), so the report "inconsistent
    results during deadlock check" does not happen. *)
From S2P Require Import Prelude Lock LockInv DeadLock DeadSearch DeadSort.
From stdpp Require Import list gmap.
#[local] Open Scope Z_scope.

Record twin (d1 d2 : Detector) : Prop := {
  tw_visited : visitedProcs d2 = visitedProcs d1;
  tw_details : length (deadlockDetails d2) = length (deadlockDetails d1);
  tw_soft : softEdges d2 = softEdges d1;
  tw_orders : waitOrders d2 = waitOrders d1 }.

(** What a search for a cycle does not change. *)
Record kept (d d' : Detector) : Prop := {
  kp_details : length (deadlockDetails d') = length (deadlockDetails d);
  kp_orders : waitOrders d' = waitOrders d;
  kp_cur : curConstraints d' = curConstraints d;
  kp_possible : possibleConstraints d' = possibleConstraints d;
  kp_npossible : nPossibleConstraints d' = nPossibleConstraints d }.
#[global] Instance kept_preorder : PreOrder kept.
Proof. split; [by intros d; constructor|]. intros d1 d2 d3 [] []. constructor; congruence. Qed.

Definition both {A} (m1 m2 : DM A) (d1 d2 : Detector) : Prop :=
  match m1 d1, m2 d2 with
  | Done (a1, e1), Done (a2, e2) => a1 = a2 /\ twin e1 e2 /\ kept d1 e1 /\ kept d2 e2
  | Report c1, Report c2 => c1 = c2
  | Outside, Outside => True
  | _, _ => False
  end.
Definition walk {A} (m : DM A) : Prop := forall d1 d2, twin d1 d2 -> both m m d1 d2.

Lemma both_bind {A B} (m1 m2 : DM A) (k1 k2 : A -> DM B) d1 d2 : both m1 m2 d1 d2 ->
  (forall a e1 e2, twin e1 e2 -> both (k1 a) (k2 a) e1 e2) -> both (m1 ≫= k1) (m2 ≫= k2) d1 d2.
Proof.
  unfold both, mbind, DM_bind. intros H1 H2. destruct (m1 d1) as [[a1 e1]| |], (m2 d2) as [[a2 e2]| |]; try done.
  destruct H1 as (-> & Ht & K1 & K2). specialize (H2 a2 e1 e2 Ht). destruct (k1 a2 e1) as [[b1 f1]| |], (k2 a2 e2) as [[b2 f2]| |]; try done.
  destruct H2 as (-> & Ht2 & K3 & K4). split_and!; [done|done|by etrans|by etrans].
Qed.
Lemma both_get {B} (k1 k2 : Detector -> DM B) d1 d2 : both (k1 d1) (k2 d2) d1 d2 -> both (get_detector ≫= k1) (get_detector ≫= k2) d1 d2.
Proof. done. Qed.
Lemma walk_ret {A} (a : A) : walk (mret a).
Proof. intros d1 d2 Ht. by split_and!. Qed.
Lemma walk_lift {A} (r : run A) : walk (dlift r).
Proof. intros d1 d2 Ht. unfold both, dlift. by destruct r. Qed.
Lemma both_lift {A B} (r : run A) (k1 k2 : A -> DM B) d1 d2 : (forall a, r = Done a -> both (k1 a) (k2 a) d1 d2) -> both (dlift r ≫= k1) (dlift r ≫= k2) d1 d2.
Proof. intros H. destruct r as [a| |]; [exact (H a eq_refl)|done..]. Qed.
Lemma walk_bind {A B} (m : DM A) (k : A -> DM B) : walk m -> (forall a, walk (k a)) -> walk (m ≫= k).
Proof. intros H1 H2 d1 d2 Ht. apply both_bind; [by apply H1|]. intros a e1 e2 Ht'. by apply H2. Qed.
Lemma walk_put f : (forall d1 d2, twin d1 d2 -> twin (f d1) (f d2)) -> (forall d, kept d (f d)) -> walk (put f).
Proof. intros H1 H2 d1 d2 Ht. split_and!; auto. Qed.

(** Notes about the blockers to cancel are not read by the search. *)
Definition quiet (m : DM unit) : Prop := forall d, dwp m (fun _ d' => same_search d d' /\ kept d d') d.
Lemma quiet_both m1 m2 d1 d2 : quiet m1 -> quiet m2 -> twin d1 d2 -> both m1 m2 d1 d2.
Proof.
  intros H1 H2 [T1 T2 T3 T4]. specialize (H1 d1). specialize (H2 d2). unfold dwp, both in *.
  destruct (m1 d1) as [[[] e1]| |]; [|done..]. destruct (m2 d2) as [[[] e2]| |]; [|done..]. destruct H1 as [[? ? ? ? ?] K1], H2 as [[? ? ? ? ?] K2].
  split_and!; [done| |done|done]. constructor; congruence.
Qed.

Create HintDb walk.
#[local] Hint Resolve walk_ret walk_lift : walk.

Section Walk.
Context {lim : DeadLockLimits} {th : LockThread} (s : LockState) (Htab : table_ok s).

Lemma remember_quiet p : quiet (remember_autovacuum p).
Proof. intros d. unfold remember_autovacuum. apply dwp_bind, dwp_get. case_match; [apply dwp_put|apply dwp_ret]; by split; constructor. Qed.
Lemma note_quiet c p f : quiet (note_blocker c p f).
Proof.
  intros d. unfold note_blocker. repeat (case_match; [|try by apply dwp_ret]); try apply remember_quiet.
  apply dwp_put. by split; constructor.
Qed.
Lemma waiting_quiet n mask x p g : is_Some (allProcs s !! x) -> quiet (waiting_autovacuum s n mask (Some x) p g).
Proof.
  intros [px Hx]. induction n as [|n IH]; intros d; cbn [waiting_autovacuum]; [by apply dwp_ret|].
  apply dwp_bind. eapply dwp_lift; [done|]. case_match; [by apply dwp_ret|].
  apply dwp_bind. eapply dwp_lift; [by rewrite Hx|]. apply dwp_bind. eapply (dwp_mono _ (fun _ d' => same_search d d' /\ kept d d')).
  - intros [] d1 [H1 K1]. eapply dwp_mono; [|apply IH]. intros [] d2 [H2 K2]. split; by etrans.
  - case_match; [apply remember_quiet|by apply dwp_ret].
Qed.

Lemma walk_fill depth tag check : walk (fill_details depth tag check).
Proof.
  intros d1 d2 Ht. unfold fill_details. apply both_get. pose proof Ht as [T1 T2 T3 T4].
  unfold both, mbind, DM_bind, dlift, put. unfold zupdate, zset, zlen. rewrite T2. destruct (_ && _); [|done]. cbn.
  split_and!; [done| | |]; constructor; cbn; rewrite ?length_insert; done || congruence.
Qed.

Lemma walk_soft_edge tag g g' depth check : walk (soft_edge tag g g' depth check).
Proof.
  unfold soft_edge. apply walk_bind; [apply walk_fill|]. intros _ d1 d2 Ht. apply both_get. pose proof Ht as [T1 T2 T3 T4]. rewrite T3.
  case_match; [|by apply walk_lift]. split_and!; [done| | |]; constructor; cbn; done || congruence.
Qed.

Section Member.
Context (rec : Z -> Z -> DM bool) (Hrec : forall p depth, walk (rec p depth)).

Lemma walk_hard n mask tag p g check depth pls : walk (hard_edges s rec n mask tag p g check depth pls).
Proof.
  induction pls as [|pl pls IH]; cbn [hard_edges]; [apply walk_ret|]. apply walk_bind; [apply walk_lift|]. intros px.
  case_match; [|done]. apply walk_bind; [apply Hrec|]. intros [|].
  - apply walk_bind; [apply walk_fill|auto with walk].
  - apply walk_bind; [|auto]. intros d1 d2 Ht. apply quiet_both; [apply note_quiet..|done].
Qed.

Lemma walk_soft stop skip mask tag g check depth procs : walk (soft_edges s rec stop skip mask tag g check depth procs).
Proof.
  induction procs as [|x procs IH]; cbn [soft_edges]; [apply walk_ret|]. apply walk_bind; [apply walk_lift|]. intros px.
  case_match; [apply walk_ret|]. case_match; [|done]. apply walk_bind; [apply Hrec|]. intros [|]; [|done].
  apply walk_bind; [apply walk_soft_edge|auto with walk].
Qed.

Lemma walk_last g last procs : walk (last_member s g last procs).
Proof. revert last. induction procs as [|x procs IH]; intros last; cbn [last_member]; [apply walk_ret|]. apply walk_bind; [apply walk_lift|auto]. Qed.

Lemma walk_member p g depth : walk (FindLockCycleRecurseMember s rec p g depth).
Proof.
  intros d1 d2 Ht. unfold FindLockCycleRecurseMember. do 4 (apply both_lift; intros ? ?). apply both_lift. intros l Hl.
  apply both_bind; [by apply walk_hard|]. intros [|] f1 f2 Ht2; [by apply walk_ret|].
  apply both_get. apply both_bind.
  - assert (Hq : forall b : bool, quiet (if b then waiting_autovacuum s (length (waitProcs l)) a2 (head (waitProcs l)) p g else mret tt)).
    { intros [|]; [|intros d; by apply dwp_ret]. destruct (waitProcs l) as [|x q] eqn:E; [intros d; by apply dwp_ret|]. apply waiting_quiet.
      destruct (LockMethodLockHash s !! a0) as [l'|] eqn:Hl'; [|done]. injection Hl as <-.
      destruct (queue_waits s Htab a0 l' x Hl' ltac:(rewrite E; by left)) as (px & Hx & _). by exists px. }
    apply quiet_both; [apply (Hq (_ && _))|apply (Hq (_ && _))|done].
  - intros [] h1 h2 Ht3. apply both_get. rewrite (tw_orders _ _ Ht3). case_match; [by apply walk_soft|].
    apply walk_bind; [|intros ?; apply walk_soft|done]. case_match; [apply walk_ret|apply walk_last].
Qed.

Lemma walk_members p depth ms : walk (member_cycles s rec p depth ms).
Proof.
  induction ms as [|x ms IH]; cbn [member_cycles]; [apply walk_ret|]. apply walk_bind; [apply walk_lift|]. intros px.
  apply walk_bind; [case_match; [apply walk_member|apply walk_ret]|]. intros [|]; [apply walk_ret|done].
Qed.
End Member.

Lemma walk_recurse fuel p depth : walk (FindLockCycleRecurse s fuel p depth).
Proof.
  revert p depth. induction fuel as [|fuel IH]; intros p depth; cbn [FindLockCycleRecurse]; [apply walk_lift|].
  apply walk_bind; [apply walk_lift|]. intros c d1 d2 Ht. apply both_get. rewrite (tw_visited _ _ Ht).
  destruct (list_find _ _) as [[[|i] v]|].
  - apply walk_bind; [|intros _; apply walk_ret|done]. apply walk_put; [intros ? ? []; by constructor|by constructor].
  - by apply walk_ret.
  - case_match; [by apply walk_lift|]. rewrite <- (tw_visited _ _ Ht) at 1. apply both_bind.
    + split_and!; [done| | |]; [destruct Ht|..]; by constructor; cbn; congruence.
    + intros _ e1 e2 Ht2. apply walk_bind; [apply walk_lift| |done]. intros ld. apply walk_bind; [case_match; [by apply walk_member|apply walk_ret]|].
      intros [|]; [apply walk_ret|by apply walk_members].
Qed.

(** The searched workspaces start alike. *)
Lemma both_cycle p d1 d2 : waitOrders d2 = waitOrders d1 -> length (deadlockDetails d2) = length (deadlockDetails d1) ->
  both (FindLockCycle s p) (FindLockCycle s p) d1 d2.
Proof.
  intros Ho Hl. unfold FindLockCycle. assert (Hr := walk_recurse (S (Z.to_nat MaxBackends)) p 0).
  assert (Ht : twin (set_soft [] (set_ndetails 0 (set_visited [] d1))) (set_soft [] (set_ndetails 0 (set_visited [] d2)))) by (by constructor).
  specialize (Hr _ _ Ht). unfold both in *. unfold mbind, DM_bind, put. destruct (FindLockCycleRecurse _ _ _ _ _) as [[a1 e1]| |]; [|done..].
  destruct (FindLockCycleRecurse _ _ _ _ _) as [[a2 e2]| |]; [|done..]. destruct Hr as (-> & Ht' & [] & []). split_and!; [done|done| |]; by constructor.
Qed.

Lemma cycle_kept p d b d' : FindLockCycle s p d = Done (b, d') -> kept d d'.
Proof. intros H. pose proof (both_cycle p d d eq_refl eq_refl) as Hb. unfold both in Hb. rewrite H in Hb. apply Hb. Qed.
End Walk.
