(* ===== verification/DeadCheck.v ===== *)
(** The search for an order of the wait queues without a deadlock
    ([DeadLockCheckRecurse], DeadLock.v).

    [orders_inv] is what [ExpandConstraints] builds: for each lock named by a
    constraint an order of its queue that satisfies the constraints.
    [check_ok] is the workspace between the steps of the search.  The search
    ends, no array overflows, and its result [false] comes with orders in which
    the process is in no cycle. *)
From S2P Require Import Prelude Lock LockInv LockWait DeadLock DeadSearch DeadSort DeadTwin.
From stdpp Require Import list gmap.
#[local] Open Scope Z_scope.

Section Check.
Context {lim : DeadLockLimits} {th : LockThread} (s : LockState) (Htab : table_ok s).
Context (Hsize : Z.of_nat (size (allProcs s)) <= MaxBackends).

(** ** Queues *)

Definition queue_of (tag : LOCKTAG) : list Z := from_option waitProcs [] (LockMethodLockHash s !! tag).

Lemma elem_of_queue_of tag x : x ∈ queue_of tag -> exists px, allProcs s !! x = Some px /\ waits_at s x tag (waitLockMode px).
Proof.
  unfold queue_of. destruct (LockMethodLockHash s !! tag) as [l|] eqn:Hl; [|by intros ?%not_elem_of_nil]. cbn. intros Hx.
  destruct (queue_waits s Htab tag l x Hl Hx) as (px & ? & ? & _). by exists px.
Qed.
Lemma queue_known tag x : x ∈ queue_of tag -> is_Some (allProcs s !! x).
Proof. intros (px & ? & _)%elem_of_queue_of. by exists px. Qed.
Lemma queue_nodup tag : NoDup (queue_of tag).
Proof.
  unfold queue_of. destruct (LockMethodLockHash s !! tag) as [l|] eqn:Hl; [|constructor].
  apply (sh_queue _ _ _ _ (lk_shape _ _ _ _ _ (lg_ok _ _ _ (tb_locks s Htab tag l Hl)))).
Qed.

Definition total (ls : list (list Z)) : Z := zlen (concat ls).

(** Nobody waits in two queues. *)
Lemma queues_bound tags : NoDup tags -> total (queue_of <$> tags) <= MaxBackends.
Proof.
  intros Hnd. unfold total. apply (visited_bound s Hsize).
  - induction Hnd as [|tag tags Hn _ IH]; [constructor|]. cbn. apply NoDup_app. split_and!; [apply queue_nodup| |done].
    intros x (px & Hx & Hw)%elem_of_queue_of Hin. apply list_elem_of_In, in_concat in Hin as (q & Hq & Hxq).
    apply list_elem_of_In, list_elem_of_fmap in Hq as (tag' & -> & Ht). apply list_elem_of_In, elem_of_queue_of in Hxq as (px' & Hx' & Hw').
    apply Hn. destruct Hw as (? & ? & ? & _), Hw' as (? & ? & ? & _). congruence.
  - intros v Hv. apply list_elem_of_In, in_concat in Hv as (q & Hq & Hxq). apply list_elem_of_In, list_elem_of_fmap in Hq as (tag' & -> & _).
    by eapply queue_known, list_elem_of_In.
Qed.

Lemma total_snoc ls l : total (ls ++ [l]) = total ls + zlen l.
Proof. unfold total. rewrite concat_app, zlen_app. cbn. by rewrite app_nil_r. Qed.
Lemma total_long ls : Forall (fun l => 2 <= zlen l) ls -> 2 * zlen ls <= total ls.
Proof.
  unfold total. induction 1 as [|l ls Hl _ IH]; [done|]. cbn [concat]. rewrite zlen_app, zlen_cons. lia.
Qed.

(** ** Constraints and orders *)

(** Both groups of a constraint wait for its lock. *)
Record edge_ok (e : EDGE) : Prop := {
  eo_leaders : by_leaders s e;
  eo_lock : is_Some (LockMethodLockHash s !! lock e);
  eo_waiter : members s (queue_of (lock e)) (waiter e) <> [];
  eo_blocker : members s (queue_of (lock e)) (blocker e) <> [];
  eo_two : 2 <= zlen (queue_of (lock e)) }.

Lemma edge_ok_same e e' : edge_ok e -> same_edge e e' -> edge_ok e'.
Proof. intros [[] ? ? ? ?] (W & B & L). constructor; rewrite ?W, ?B, ?L; [|done..]. unfold by_leaders. by rewrite W, B. Qed.
Lemma edges_ok_same l l' : Forall edge_ok l -> Forall2 same_edge l l' -> Forall edge_ok l'.
Proof.
  intros Hl Hf. induction Hf as [|e e' l l' He _ IH]; [done|]. apply Forall_cons in Hl as [? ?]. constructor; [by eapply edge_ok_same|auto].
Qed.

#[global] Instance same_edge_equivalence : Equivalence same_edge.
Proof.
  split; [by intros e|by intros e e' (? & ? & ?); split_and!|]. intros e1 e2 e3 (? & ? & ?) (? & ? & ?). unfold same_edge. split_and!; congruence.
Qed.

Lemma edge_ok_known e : edge_ok e -> is_Some (allProcs s !! waiter e) /\ is_Some (allProcs s !! blocker e).
Proof.
  intros [[W B] _ Hw Hb _]. rewrite <- W, <- B.
  destruct (members s (queue_of (lock e)) (waiter e)) as [|x r] eqn:Ex; [done|]. assert (Hx : x ∈ members s (queue_of (lock e)) (waiter e)) by (rewrite Ex; by left).
  destruct (members s (queue_of (lock e)) (blocker e)) as [|y r'] eqn:Ey; [done|]. assert (Hy : y ∈ members s (queue_of (lock e)) (blocker e)) by (rewrite Ey; by left).
  apply elem_of_group in Hx as [Hx <-], Hy as [Hy <-]. split.
  - destruct (leader_known s Htab x (queue_known _ _ Hx)) as [? ->]. done.
  - destruct (leader_known s Htab y (queue_known _ _ Hy)) as [? ->]. done.
Qed.

Record orders_inv (constraints : list EDGE) (os : list WAIT_ORDER) : Prop := {
  oi_nodup : NoDup (wo_lock <$> os);
  oi_locks : forall o, o ∈ os -> is_Some (LockMethodLockHash s !! wo_lock o) /\ 2 <= zlen (queue_of (wo_lock o));
  oi_perm : forall o, o ∈ os -> wo_procs o ≡ₚ queue_of (wo_lock o);
  oi_grouped : forall o, o ∈ os -> grouped s (queue_of (wo_lock o)) (wo_procs o);
  oi_satisfies : forall o, o ∈ os -> satisfies s (queue_of (wo_lock o)) (filter (fun e => lock e = wo_lock o) constraints) (wo_procs o);
  oi_needed : forall o, o ∈ os -> exists e, e ∈ constraints /\ lock e = wo_lock o }.

Lemma find_order_Some tag os procs : NoDup (wo_lock <$> os) -> find_order tag os = Some procs <-> MkOrder tag procs ∈ os.
Proof.
  unfold find_order. intros Hnd. split.
  - destruct (list_find _ os) as [[i o]|] eqn:Hf; [|done]. cbn. intros [= <-]. apply list_find_Some in Hf as (Ho & <- & _).
    destruct o. by eapply list_elem_of_lookup_2.
  - intros Hin. destruct (list_find (fun o => wo_lock o = tag) os) as [[i o]|] eqn:Hf.
    + apply list_find_Some in Hf as (Ho & Ht & _). cbn. f_equal. apply list_elem_of_lookup in Hin as [j Hj].
      assert (i = j) as ->; [|assert (o = MkOrder tag procs) as -> by congruence; done].
      apply (NoDup_lookup (wo_lock <$> os) i j tag); [done|rewrite list_lookup_fmap, Ho; cbn; by rewrite Ht|by rewrite list_lookup_fmap, Hj].
    + apply list_find_None in Hf. rewrite Forall_forall in Hf. by destruct (Hf _ Hin).
Qed.
Lemma find_order_None tag os : find_order tag os = None <-> tag ∉ wo_lock <$> os.
Proof.
  unfold find_order. rewrite !fmap_None, list_find_None, Forall_forall. split.
  - intros H (o & -> & Ho)%list_elem_of_fmap. by apply (H o).
  - intros H o Ho <-. by apply H, list_elem_of_fmap_2.
Qed.

Lemma orders_inv_ok cs os : orders_inv cs os -> orders_ok s os.
Proof.
  intros Ho tag procs Hf%find_order_Some; [|apply Ho]. destruct (oi_locks _ _ Ho _ Hf) as [[l Hl] _]. cbn in Hl. exists l. split; [done|].
  pose proof (oi_perm _ _ Ho _ Hf) as Hp. cbn in Hp. unfold queue_of in Hp. by rewrite Hl in Hp.
Qed.

Lemma orders_inv_same cs cs' os : Forall2 same_edge cs cs' -> orders_inv cs os -> orders_inv cs' os.
Proof.
  intros Hf [H1 H2 H3 H4 H5 H6]. constructor; try done; cycle 1.
  { intros o Ho. destruct (H6 o Ho) as (e & He & Hl). apply list_elem_of_lookup in He as [k Hk]. destruct (Forall2_lookup_l _ _ _ _ _ Hf Hk) as (e' & He' & (_ & _ & L)).
    exists e'. split; [by eapply list_elem_of_lookup_2|congruence]. }
  intros o Ho e x y He Hx Hy. apply list_elem_of_filter in He as [Hl He].
  apply list_elem_of_lookup in He as [k Hk]. destruct (Forall2_lookup_r _ _ _ _ _ Hf Hk) as (e' & He' & (W & B & L)).
  apply (H5 o Ho e' x y); [|by rewrite <- W|by rewrite <- B]. apply list_elem_of_filter. split; [congruence|by eapply list_elem_of_lookup_2].
Qed.

(** ** ExpandConstraints *)

(** What the steps between two searches do not touch. *)
Record quiet_rest (d d' : Detector) : Prop := {
  qr_details : deadlockDetails d' = deadlockDetails d;
  qr_possible : possibleConstraints d' = possibleConstraints d;
  qr_npossible : nPossibleConstraints d' = nPossibleConstraints d }.
#[local] Instance quiet_rest_preorder : PreOrder quiet_rest.
Proof. split; [by intros d; constructor|]. intros d1 d2 d3 [] []. constructor; congruence. Qed.

Definition contradictory (cs : list EDGE) : Prop :=
  exists e, e ∈ cs /\ forall order, order ≡ₚ queue_of (lock e) -> ~ satisfies s (queue_of (lock e)) cs order.

Lemma satisfies_sub q cs cs' o : (forall e, e ∈ cs -> e ∈ cs') -> satisfies s q cs' o -> satisfies s q cs o.
Proof. intros Hsub H e x y He. by apply H, Hsub. Qed.
Lemma satisfies_same q cs cs' o : Forall2 same_edge cs cs' -> satisfies s q cs' o -> satisfies s q cs o.
Proof.
  intros Hf H e x y He Hx Hy. apply list_elem_of_lookup in He as [k Hk]. destruct (Forall2_lookup_l _ _ _ _ _ Hf Hk) as (e' & He' & (W & B & L)).
  apply (H e' x y); [by eapply list_elem_of_lookup_2|by rewrite W|by rewrite B].
Qed.
Lemma contradictory_same cs cs' : Forall2 same_edge cs cs' -> contradictory cs' -> contradictory cs.
Proof.
  intros Hf (e' & He' & H). apply list_elem_of_lookup in He' as [k Hk]. destruct (Forall2_lookup_r _ _ _ _ _ Hf Hk) as (e & He & (W & B & L)).
  exists e. split; [by eapply list_elem_of_lookup_2|]. rewrite L in H. intros o Ho Hs. apply (H o Ho). eapply satisfies_same; [|exact Hs].
  by symmetry in Hf.
Qed.

Lemma orders_snoc cs os tag procs : orders_inv cs os -> tag ∉ wo_lock <$> os -> is_Some (LockMethodLockHash s !! tag) -> 2 <= zlen (queue_of tag) ->
  procs ≡ₚ queue_of tag -> grouped s (queue_of tag) procs -> satisfies s (queue_of tag) (filter (fun e => lock e = tag) cs) procs ->
  (exists e, e ∈ cs /\ lock e = tag) -> orders_inv cs (os ++ [MkOrder tag procs]).
Proof.
  intros [H1 H2 H3 H4 H5 H6] Hn Hl H2' Hp Hg Hs He. constructor.
  - rewrite fmap_app. apply NoDup_app. split_and!; [done| |apply NoDup_singleton]. intros x Hx ->%list_elem_of_singleton. done.
  - intros o [Ho| ->%list_elem_of_singleton]%elem_of_app; [auto|done].
  - intros o [Ho| ->%list_elem_of_singleton]%elem_of_app; [auto|done].
  - intros o [Ho| ->%list_elem_of_singleton]%elem_of_app; [auto|done].
  - intros o [Ho| ->%list_elem_of_singleton]%elem_of_app; [auto|done].
  - intros o [Ho| ->%list_elem_of_singleton]%elem_of_app; [auto|done].
Qed.

(** There is room for one more order. *)
Lemma orders_room cs os tag : orders_inv cs os -> tag ∉ wo_lock <$> os -> 2 <= zlen (queue_of tag) ->
  zlen os < MaxBackends ÷ 2 /\ total (queue_of <$> (wo_lock <$> os)) + zlen (queue_of tag) <= MaxBackends.
Proof.
  intros Ho Hn H2. assert (Hb : total (queue_of <$> ((wo_lock <$> os) ++ [tag])) <= MaxBackends).
  { apply queues_bound. apply NoDup_app. split_and!; [apply Ho| |apply NoDup_singleton]. intros x Hx ->%list_elem_of_singleton. done. }
  rewrite fmap_app in Hb. cbn in Hb. rewrite total_snoc in Hb. split; [|done].
  assert (Hl : 2 * zlen (queue_of <$> (wo_lock <$> os)) <= total (queue_of <$> (wo_lock <$> os))).
  { apply total_long, Forall_forall. intros q Hq. apply list_elem_of_fmap in Hq as (t & -> & Ht). apply list_elem_of_fmap in Ht as (o & -> & Ho').
    by apply (oi_locks _ _ Ho o Ho'). }
  unfold zlen in *. rewrite !length_fmap in Hl. zdiv_lia.
Qed.

Definition expand_post (d : Detector) (b : bool) (d' : Detector) : Prop :=
  Forall2 same_edge (curConstraints d) (curConstraints d') /\ quiet_rest d d' /\
  if b then orders_inv (curConstraints d') (waitOrders d') /\ forall e, e ∈ curConstraints d' -> lock e ∈ wo_lock <$> waitOrders d'
  else contradictory (curConstraints d).

Lemma expand_spec n d : Forall edge_ok (curConstraints d) -> (n <= length (curConstraints d))%nat -> orders_inv (curConstraints d) (waitOrders d) ->
  (forall e, e ∈ drop n (curConstraints d) -> lock e ∈ wo_lock <$> waitOrders d) ->
  dwp (expand_constraints s n (total (queue_of <$> (wo_lock <$> waitOrders d)))) (expand_post d) d.
Proof.
  revert d. induction n as [|i IH]; intros d Hok Hn Ho Hdone; cbn [expand_constraints].
  { apply dwp_ret. split_and!; [done|done|done|]. by rewrite drop_0 in Hdone. }
  apply dwp_bind, dwp_get, dwp_bind. destruct (lookup_lt_is_Some_2 (curConstraints d) i ltac:(lia)) as [e He].
  eapply dwp_lift; [by rewrite He|]. assert (Hin : e ∈ curConstraints d) by (by eapply list_elem_of_lookup_2).
  case_bool_decide as Hf.
  { apply IH; [done|lia|done|]. intros e'. rewrite (drop_S _ _ _ He). intros [->|He']%elem_of_cons; [|by apply Hdone].
    destruct (decide (lock e ∈ wo_lock <$> waitOrders d)) as [|Hn']; [done|]. destruct Hf. by apply find_order_None. }
  assert (Hnew : lock e ∉ wo_lock <$> waitOrders d). by (by apply find_order_None).
  assert (Heok : edge_ok e) by (rewrite Forall_forall in Hok; auto). destruct (eo_lock _ Heok) as [l Hl].
  assert (Hq : queue_of (lock e) = waitProcs l) by (unfold queue_of; by rewrite Hl).
  apply dwp_bind. eapply dwp_lift; [by rewrite Hl|]. destruct (orders_room _ _ _ Ho Hnew (eo_two _ Heok)) as [Hr1 Hr2]. rewrite <- Hq.
  rewrite (proj2 (Z.ltb_lt _ _) Hr1), (proj2 (Z.leb_le _ _) Hr2). cbn [andb].
  destruct (TopoSort_spec s (queue_of (lock e)) Htab (queue_known (lock e)) (queue_nodup (lock e)) (take (S i) (curConstraints d))) as (ok & order & cs & E & Hsame & Hres).
  { apply Forall_take. eapply Forall_impl; [exact Hok|]. apply eo_leaders. }
  apply dwp_bind. eapply dwp_lift; [exact E|]. apply dwp_bind, dwp_put.
  assert (Hsame' : Forall2 same_edge (curConstraints d) (cs ++ drop (S i) (curConstraints d))).
  { rewrite <- (take_drop (S i) (curConstraints d)) at 1. by apply Forall2_app. }
  destruct ok.
  - destruct Hres as (Hp & Hs & Hg). apply dwp_bind, dwp_put.
    set (d1 := set_cur (cs ++ drop (S i) (curConstraints d)) d). set (d2 := set_orders _ d1).
    assert (Hs' : satisfies s (queue_of (lock e)) (filter (fun e' => lock e' = lock e) (curConstraints d2)) order).
    { intros e' x y He' Hx Hy. apply list_elem_of_filter in He' as [Hle He']. apply list_elem_of_lookup in He' as [k Hk].
      destruct (Forall2_lookup_r _ _ _ _ _ Hsame' Hk) as (e0 & He0 & (W & B & L)). apply (Hs e0 x y); [|by rewrite <- W|by rewrite <- B].
      apply list_elem_of_lookup. exists k. rewrite lookup_take_lt; [done|]. destruct (decide (k < S i)%nat); [done|]. destruct Hnew.
      rewrite <- Hle, L. apply Hdone. apply list_elem_of_lookup. exists (k - S i)%nat. rewrite lookup_drop. rewrite <- He0. f_equal. lia. }
    pose proof (IH d2) as IH2. cbn [curConstraints waitOrders d2 d1 set_orders set_cur] in IH2.
    rewrite fmap_app in IH2. cbn [fmap list_fmap wo_lock] in IH2. rewrite fmap_app in IH2. cbn [fmap list_fmap] in IH2. rewrite total_snoc in IH2.
    eapply dwp_mono; [|apply IH2].
    + intros b d' (F & Q & Hb). split_and!; [by etrans|etrans; [|exact Q]; by constructor|]. destruct b; [done|]. by eapply contradictory_same.
    + by eapply edges_ok_same.
    + rewrite length_app, <- (Forall2_length _ _ _ Hsame), length_take, length_drop. lia.
    + apply orders_snoc; try done; [by eapply orders_inv_same|apply Heok|].
      destruct (Forall2_lookup_l _ _ _ _ _ Hsame' He) as (e' & He' & (_ & _ & L)). exists e'. split; [by eapply list_elem_of_lookup_2|done].
    + intros e' He'. apply list_elem_of_lookup in He' as [k Hk]. rewrite lookup_drop in Hk. destruct (Forall2_lookup_r _ _ _ _ _ Hsame' Hk) as (e0 & He0 & (_ & _ & ->)).
      rewrite elem_of_app, list_elem_of_singleton. destruct k as [|k]; [right; rewrite Nat.add_0_r in He0; congruence|left].
      apply Hdone, list_elem_of_lookup. exists k. rewrite lookup_drop. rewrite <- He0. f_equal. lia.
  - apply dwp_ret. split_and!; [done|by constructor|]. exists e. split; [done|]. intros o Hpo Hso. apply (Hres o Hpo).
    eapply satisfies_sub; [|exact Hso]. intros e' He'. rewrite <- (take_drop (S i) (curConstraints d)). rewrite elem_of_app. by left.
Qed.

Lemma ExpandConstraints_spec d : Forall edge_ok (curConstraints d) -> dwp (ExpandConstraints s) (expand_post d) d.
Proof.
  intros Hok. unfold ExpandConstraints. apply dwp_bind, dwp_put, dwp_bind, dwp_get.
  eapply dwp_mono; [|apply (expand_spec _ (set_orders [] d)); [done|done|constructor; try (by intros ? ?%not_elem_of_nil); constructor|]].
  - intros b d' (F & Q & Hb). split_and!; [done|destruct Q; by constructor|done].
  - intros e. cbn. by rewrite drop_all, elem_of_nil.
Qed.

(** ** TestConfiguration *)

(** The edges saved or written at [np], ... *)
Definition edges_at (l : list EDGE) (np n : Z) : Prop := forall i, 0 <= i < n -> exists e, zlookup l (np + i) = Some e /\ edge_ok e.

Record check_ok (d : Detector) : Prop := {
  ck_edges : Forall edge_ok (curConstraints d);
  ck_details : zlen (deadlockDetails d) = MaxBackends;
  ck_possible : zlen (possibleConstraints d) = maxPossibleConstraints;
  ck_npossible : 0 <= nPossibleConstraints d }.

Lemma soft_edges_ok cs os start g tr e : orders_inv cs os -> trail s os start g tr -> Some e ∈ snd <$> tr -> edge_ok e.
Proof.
  intros Ho. induction 1 as [|p tag m q rest Hw Hb H IH|p tag m q rest Hw Hb H IH]; cbn [fmap list_fmap snd].
  - by intros ?%not_elem_of_nil.
  - intros [?|?]%elem_of_cons; [done|auto].
  - intros [[= ->]|?]%elem_of_cons; [|auto]. destruct (waits_queue s Htab p tag m Hw) as (l & Hl & Hp & _).
    destruct Hb as [(m' & Hq & _) Hb]. destruct (waits_queue s Htab q tag m' Hq) as (l' & Hl' & Hqq & _). assert (l' = l) as -> by congruence.
    assert (Hqo : queue_of tag = waitProcs l) by (unfold queue_of; by rewrite Hl).
    assert (Hpk : is_Some (allProcs s !! p)) by (destruct Hw as (? & ? & _); by eexists). assert (Hqk : is_Some (allProcs s !! q)) by (destruct Hq as (? & ? & _); by eexists).
    constructor; cbn.
    + split; cbn; by apply leader_known.
    + by exists l.
    + intros E. rewrite members_nil in E. apply (E p); [by rewrite Hqo|done].
    + intros E. rewrite members_nil in E. apply (E q); [by rewrite Hqo|done].
    + destruct (find_order tag os) as [procs|] eqn:Hf.
      * apply find_order_Some in Hf; [|apply Ho]. apply (oi_locks _ _ Ho _ Hf).
      * destruct Hb as [Hne _]. rewrite Hqo. destruct (waitProcs l) as [|x [|y r]]; [by apply not_elem_of_nil in Hp| |unfold zlen; cbn; lia].
        apply list_elem_of_singleton in Hp, Hqq. congruence.
Qed.

(** One search of the test: it finds a hard cycle, a cycle with soft edges, which it keeps, or none. *)
Definition test_post (p : Z) (os : list WAIT_ORDER) (sf : Z) (d : Detector) (r : option Z) (d' : Detector) : Prop :=
  curConstraints d' = curConstraints d /\ waitOrders d' = waitOrders d /\ nPossibleConstraints d' = nPossibleConstraints d /\ check_ok d'
  /\ take (Z.to_nat (nPossibleConstraints d)) (possibleConstraints d') = take (Z.to_nat (nPossibleConstraints d)) (possibleConstraints d)
  /\ match r with
     | None => cycle s os (leader s p)
     | Some n => n = sf /\ possibleConstraints d' = possibleConstraints d /\ ~ cycle s os (leader s p)
         \/ 0 < n <= MaxBackends /\ edges_at (possibleConstraints d') (nPossibleConstraints d) n /\ cycle s os (leader s p)
     end.

Lemma put_edges_spec (l : list EDGE) i es : 0 <= i -> i + zlen es <= zlen l -> exists l', put_edges l i es = Some l' /\ zlen l' = zlen l
  /\ take (Z.to_nat i) l' = take (Z.to_nat i) l /\ forall k, 0 <= k < zlen es -> zlookup l' (i + k) = zlookup es k.
Proof.
  intros Hi Hle. unfold put_edges. rewrite (proj2 (Z.leb_le _ _)), (proj2 (Z.leb_le _ _)) by lia. cbn [andb]. eexists. split; [done|].
  assert (Ht : length (take (Z.to_nat i) l) = Z.to_nat i) by (rewrite length_take; pose proof (zlen_nonneg es); unfold zlen in *; lia).
  split_and!.
  - rewrite !zlen_app. unfold zlen in *. rewrite length_drop, Ht. lia.
  - by rewrite take_app_length' by done.
  - intros k Hk. unfold zlookup. rewrite !(proj2 (Z.leb_le _ _)) by lia. rewrite lookup_app_r by lia. rewrite Ht.
    replace (Z.to_nat (i + k) - Z.to_nat i)%nat with (Z.to_nat k) by lia. apply lookup_app_l. unfold zlen in Hk. lia.
Qed.

Lemma test_proc_spec p sf d : check_ok d -> orders_inv (curConstraints d) (waitOrders d) -> is_Some (allProcs s !! p) ->
  nPossibleConstraints d + MaxBackends <= maxPossibleConstraints -> dwp (test_proc s p sf) (test_post p (waitOrders d) sf d) d.
Proof.
  intros Hok Ho Hp Hroom. unfold test_proc.
  pose proof (find_cycle_spec s Htab Hsize p d (orders_inv_ok _ _ Ho) Hp (ck_details _ Hok)) as Hc.
  destruct (dwp_run _ _ _ Hc) as (b & d1 & E & Hord & Hlen & Hres). pose proof (cycle_kept s Htab p d b d1 E) as [K1 K2 K3 K4 K5].
  eapply dwp_step; [exact E|].
  pose proof Hok as [O1 O2 O3 O4]. destruct b.
  - destruct Hres as (tr & rest & Hne & Htr & Hd & Hn & Hs). apply dwp_bind, dwp_get.
    assert (Hsl : zlen (softEdges d1) <= MaxBackends).
    { rewrite Hs, <- O2. unfold zlen. rewrite <- K1, Hd, length_reverse, length_app, length_fmap. assert (Hom : (length (omap snd tr) <= length tr)%nat); [|lia].
      clear. induction tr as [|[i [e|]] tr IH]; cbn in *; lia. }
    destruct (put_edges_spec (possibleConstraints d1) (nPossibleConstraints d1) (softEdges d1)) as (l' & El & Hl1 & Hl2 & Hl3); [lia|rewrite K4, K5, O3; lia|].
    apply dwp_bind. eapply dwp_lift; [by rewrite El|]. apply dwp_bind, dwp_put, dwp_ret.
    assert (Hcyc : cycle s (waitOrders d) (leader s p)) by (by eapply trail_path).
    split_and!; cbn; [done|done|done| |by rewrite <- K5, Hl2, K4|].
    + constructor; cbn; [by rewrite K3|done|by rewrite Hl1, K4|by rewrite K5].
    + destruct (Z.eqb_spec (zlen (softEdges d1)) 0) as [H0|H0]; [done|]. right. split; [pose proof (zlen_nonneg (softEdges d1)); lia|]. split; [|done].
      intros i Hi. rewrite <- K5, Hl3 by done. destruct (zlookup_is_Some (softEdges d1) i Hi) as [e He]. exists e. split; [done|].
      eapply soft_edges_ok; [exact Ho|exact Htr|]. assert (Hin : e ∈ softEdges d1).
      { unfold zlookup in He. rewrite (proj2 (Z.leb_le _ _)) in He by lia. by eapply list_elem_of_lookup_2. }
      rewrite Hs in Hin. apply elem_of_reverse, list_elem_of_omap in Hin as ([inf oe] & Hin & Hoe). cbn in Hoe. subst oe.
      apply list_elem_of_fmap. by exists (inf, Some e).
  - apply dwp_ret. split_and!; [done|done|done| |by rewrite K4|left; split_and!; done]. constructor; [by rewrite K3|done|by rewrite K4|by rewrite K5].
Qed.

(** Between the searches of one test. *)
Record tested (d0 : Detector) (os : list WAIT_ORDER) (sf : Z) (d : Detector) : Prop := {
  te_cur : curConstraints d = curConstraints d0;
  te_orders : waitOrders d = os;
  te_npossible : nPossibleConstraints d = nPossibleConstraints d0;
  te_ok : check_ok d;
  te_saved : take (Z.to_nat (nPossibleConstraints d0)) (possibleConstraints d) = take (Z.to_nat (nPossibleConstraints d0)) (possibleConstraints d0);
  te_found : 0 <= sf <= MaxBackends /\ edges_at (possibleConstraints d) (nPossibleConstraints d0) sf }.

Section Test.
Context (d0 : Detector) (os : list WAIT_ORDER) (Hos : orders_inv (curConstraints d0) os).
Context (Hroom : nPossibleConstraints d0 + MaxBackends <= maxPossibleConstraints).

Definition in_cycle (ps : list Z) : Prop := exists p, p ∈ ps /\ cycle s os (leader s p).

Definition step_post (ps : list Z) (sf : Z) (r : option Z) (d' : Detector) : Prop :=
  tested d0 os (default 0 r) d' /\ (r <> Some sf -> in_cycle ps) /\ (r = Some 0 -> sf = 0 /\ forall p, p ∈ ps -> ~ cycle s os (leader s p)).

Lemma test_step p sf d : tested d0 os sf d -> is_Some (allProcs s !! p) -> dwp (test_proc s p sf) (step_post [p] sf) d.
Proof.
  intros [T1 T2 T3 T4 T5 [T6 T7]] Hp. eapply dwp_mono; [|apply test_proc_spec; [done|by rewrite T1, T2|done|by rewrite T3]].
  rewrite T2. intros r d' (C1 & C2 & C3 & C4 & C5 & Hr).
  assert (Ht : forall n, 0 <= n <= MaxBackends -> edges_at (possibleConstraints d') (nPossibleConstraints d0) n -> tested d0 os n d').
  { intros n Hn He. constructor; [congruence|congruence|congruence|done| |done]. rewrite <- T5, <- T3. exact C5. }
  assert (Hc : cycle s os (leader s p) -> in_cycle [p]) by (intros Hc; exists p; split; [by left|done]).
  destruct r as [n|]; [destruct Hr as [(-> & E & Hno)|(Hn & He & Hcyc)]|].
  - split_and!; [apply (Ht sf); [done|by rewrite E]|done|]. intros [= ->]. split; [done|]. by intros p' ->%list_elem_of_singleton.
  - split_and!; [apply (Ht n); [lia|by rewrite <- T3]|auto|]. intros [= ->]. lia.
  - split_and!; [apply (Ht 0); [lia|intros i Hi; lia]|auto|done].
Qed.

Lemma test_constraints_spec cs sf d : Forall edge_ok cs -> tested d0 os sf d ->
  dwp (test_constraints s cs sf) (step_post ((waiter <$> cs) ++ (blocker <$> cs)) sf) d.
Proof.
  intros Hcs. revert sf d. induction Hcs as [|e cs He _ IH]; intros sf d Hd; cbn [test_constraints].
  { apply dwp_ret. split_and!; [done|done|]. intros [= ->]. split; [done|]. by intros p ?%not_elem_of_nil. }
  destruct (edge_ok_known e He) as [Hw Hb]. set (ps := (waiter <$> e :: cs) ++ (blocker <$> e :: cs)).
  assert (Hps : forall p, p ∈ ps <-> p = waiter e \/ p = blocker e \/ p ∈ (waiter <$> cs) ++ (blocker <$> cs)).
  { intros p. unfold ps. cbn [fmap list_fmap]. rewrite !elem_of_app, !elem_of_cons. tauto. }
  assert (Hin : forall ps', in_cycle ps' -> (forall p, p ∈ ps' -> p ∈ ps) -> in_cycle ps) by (intros ps' (p & Hp & Hc) Hsub; exists p; auto).
  assert (H1w : forall p, p ∈ [waiter e] -> p ∈ ps) by (intros p ->%list_elem_of_singleton; apply Hps; auto).
  assert (H1b : forall p, p ∈ [blocker e] -> p ∈ ps) by (intros p ->%list_elem_of_singleton; apply Hps; auto).
  assert (H1c : forall p, p ∈ (waiter <$> cs) ++ (blocker <$> cs) -> p ∈ ps) by (intros p Hp; apply Hps; auto).
  apply dwp_bind. eapply dwp_mono; [|by apply test_step]. intros [n|] d1 (T1 & C1 & P1); [|apply dwp_ret; split_and!; [done|intros _; eapply Hin; [by apply C1|done]|done]].
  apply dwp_bind. eapply dwp_mono; [|by apply test_step]. intros [n2|] d2 (T2 & C2 & P2); [|apply dwp_ret; split_and!; [done|intros _; eapply Hin; [by apply C2|done]|done]].
  eapply dwp_mono; [|by apply IH]. intros r d3 (T3 & C3 & P3). split_and!; [done| |].
  - intros Hr. destruct (decide (n = sf)) as [->|]; [|eapply Hin; [apply C1; congruence|done]].
    destruct (decide (n2 = sf)) as [->|]; [|eapply Hin; [apply C2; congruence|done]]. eapply Hin; [by apply C3|done].
  - intros ->. destruct (P3 eq_refl) as [-> N3], (P2 eq_refl) as [-> N2], (P1 eq_refl) as [-> N1]. split; [done|].
    intros p [->|[->|Hp]]%Hps; [apply N1; by left|apply N2; by left|by apply N3].
Qed.
End Test.

(** The orders of the workspace free the process and those of the constraints. *)
Definition resolved (p : Z) (d : Detector) : Prop :=
  orders_inv (curConstraints d) (waitOrders d) /\ ~ cycle s (waitOrders d) (leader s p)
  /\ forall e, e ∈ curConstraints d -> ~ cycle s (waitOrders d) (waiter e) /\ ~ cycle s (waitOrders d) (blocker e).

(** What a part of the search leaves as it was. *)
Record same_check (d d' : Detector) : Prop := {
  sk_cur : Forall2 same_edge (curConstraints d) (curConstraints d');
  sk_npossible : nPossibleConstraints d' = nPossibleConstraints d;
  sk_saved : take (Z.to_nat (nPossibleConstraints d)) (possibleConstraints d') = take (Z.to_nat (nPossibleConstraints d)) (possibleConstraints d) }.

Record config_post (p : Z) (d : Detector) (k : Z) (d' : Detector) : Prop := {
  cp_same : same_check d d';
  cp_ok : check_ok d';
  cp_found : k <= MaxBackends /\ edges_at (possibleConstraints d') (nPossibleConstraints d) k;
  cp_good : k = 0 -> resolved p d';
  cp_first : k <> 0 -> curConstraints d = [] -> nPossibleConstraints d = 0 -> cycle s [] (leader s p) }.

Lemma TestConfiguration_spec p d : check_ok d -> is_Some (allProcs s !! p) -> dwp (TestConfiguration s p) (config_post p d) d.
Proof.
  intros Hok Hp. assert (Hmax : 0 <= MaxBackends) by lia. unfold TestConfiguration. apply dwp_bind, dwp_get.
  destruct (Z.ltb_spec maxPossibleConstraints (nPossibleConstraints d + MaxBackends)) as [Hr|Hr].
  { apply dwp_ret. constructor; [by constructor|done|split; [lia|intros i Hi; lia]|done|]. unfold maxPossibleConstraints in Hr. intros _ _ H0. lia. }
  apply dwp_bind. eapply dwp_mono; [|apply ExpandConstraints_spec, Hok]. intros b d1 (F & [Q1 Q2 Q3] & Hb).
  assert (Hok1 : check_ok d1) by (destruct Hok; constructor; [by eapply edges_ok_same|by rewrite Q1|by rewrite Q2|by rewrite Q3]).
  assert (Hend : forall os n d', tested d1 os n d' -> (n = 0 -> resolved p d') -> (n <> 0 -> curConstraints d = [] -> cycle s [] (leader s p)) -> config_post p d n d').
  { intros os n d' [E1 E2 E3 E4 E5 [E6 E7]] Hg Hc. constructor; [|done|split; [lia|by rewrite <- Q3]|done|auto].
    constructor; [by rewrite E1|congruence|]. by rewrite <- Q3, E5, Q2. }
  assert (Hbad : forall os d', tested d1 os 0 d' -> (curConstraints d = [] -> cycle s [] (leader s p)) -> config_post p d (-1) d').
  { intros os d' [E1 E2 E3 E4 E5 _] Hc. constructor; [constructor; [by rewrite E1|congruence|by rewrite <- Q3, E5, Q2]|done|split; [lia|intros i Hi; lia]|done|auto]. }
  assert (Hstart : tested d1 (waitOrders d1) 0 d1) by (constructor; try done; split; [lia|intros i Hi; lia]).
  assert (Hnil : curConstraints d = [] -> curConstraints d1 = []) by (intros E; rewrite E in F; by inversion F).
  destruct b.
  2: { apply dwp_ret. apply (Hbad (waitOrders d1)); [done|]. intros E. destruct Hb as (e & He & _). rewrite E in He. by apply not_elem_of_nil in He. }
  destruct Hb as [Ho _]. assert (Hnone : curConstraints d = [] -> waitOrders d1 = []).
  { intros E. destruct (waitOrders d1) as [|o os] eqn:Eo; [done|]. destruct (oi_needed _ _ Ho o) as (e & He & _); [by left|]. rewrite (Hnil E) in He. by apply not_elem_of_nil in He. }
  rewrite <- Q3 in Hr. apply dwp_bind, dwp_get, dwp_bind.
  eapply dwp_mono; [|apply (test_constraints_spec d1 (waitOrders d1) Ho Hr (curConstraints d1) 0 d1 (ck_edges _ Hok1) Hstart)].
  intros [n|] d2 (H2 & Hc2 & Hn).
  - apply dwp_bind. eapply dwp_mono; [|by apply (test_step d1 (waitOrders d1) Ho Hr p n d2 H2)]. intros r d3 (H3 & Hc3 & Hr3). apply dwp_ret.
    assert (Hfirst : r <> Some 0 -> curConstraints d = [] -> cycle s [] (leader s p)).
    { intros Hne E. rewrite <- (Hnone E). destruct (decide (n = 0)) as [->|Hn0]; [destruct (Hc3 Hne) as (q & ->%list_elem_of_singleton & Hq); done|].
      destruct (Hc2 ltac:(congruence)) as (q & Hq & _). rewrite (Hnil E) in Hq. by apply not_elem_of_nil in Hq. }
    destruct r as [k|]; cbn.
    + apply (Hend (waitOrders d1)); [done| |intros Hk; apply Hfirst; congruence]. intros ->. destruct (Hr3 eq_refl) as [-> P1], (Hn eq_refl) as [_ P2].
      destruct H3 as [E1 E2 _ _ _ _]. unfold resolved. rewrite E1, E2. split_and!; [done|apply P1; by left|].
      intros e He. assert (Hel : by_leaders s e) by (apply eo_leaders; pose proof (ck_edges _ Hok1) as Ha; rewrite Forall_forall in Ha; auto).
      destruct Hel as [L1 L2]. rewrite <- L1 at 1. rewrite <- L2. split; apply P2; rewrite elem_of_app; [left|right]; by apply list_elem_of_fmap_2.
    + apply (Hbad (waitOrders d1)); [done|]. by apply Hfirst.
  - apply dwp_ret. apply (Hbad (waitOrders d1)); [done|]. intros E. destruct Hc2 as (q & Hq & _); [done|]. rewrite (Hnil E) in Hq. by apply not_elem_of_nil in Hq.
Qed.

(** ** The same constraints, the same result *)

Lemma expand_twin n nprocs d1 d2 b1 b2 e1 e2 : Forall edge_ok (curConstraints d1) -> Forall2 same_edge (curConstraints d1) (curConstraints d2) ->
  waitOrders d2 = waitOrders d1 -> expand_constraints s n nprocs d1 = Done (b1, e1) -> expand_constraints s n nprocs d2 = Done (b2, e2) ->
  b2 = b1 /\ waitOrders e2 = waitOrders e1.
Proof.
  revert nprocs d1 d2. induction n as [|i IH]; intros nprocs d1 d2 Hok Hf Ho H1 H2.
  { injection H1 as <- <-. injection H2 as <- <-. done. }
  cbn [expand_constraints] in H1, H2. unfold the_lock in H1, H2. unfold mbind, DM_bind, get_detector, dlift, put in H1, H2. cbn [mbind run_bind] in H1, H2. rewrite Ho in H2.
  destruct (curConstraints d1 !! i) as [e|] eqn:He; [|done]. destruct (Forall2_lookup_l _ _ _ _ _ Hf He) as (e' & He' & (W & B & L)). rewrite He' in H2.
  cbn [inside mbind run_bind] in H1, H2. rewrite L in H2. case_bool_decide as Hfo; [by eapply IH|].
  destruct (LockMethodLockHash s !! lock e) as [l|] eqn:Hl; [|done]. cbn [inside mbind run_bind] in H1, H2.
  destruct ((zlen (waitOrders d1) <? MaxBackends ÷ 2) && (nprocs + zlen (waitProcs l) <=? MaxBackends)); [|done].
  assert (Hq : queue_of (lock e) = waitProcs l) by (unfold queue_of; by rewrite Hl). rewrite <- Hq in *.
  assert (Hle : Forall (by_leaders s) (take (S i) (curConstraints d1))) by (apply Forall_take; eapply Forall_impl; [exact Hok|apply eo_leaders]).
  assert (Hft : Forall2 same_edge (take (S i) (curConstraints d1)) (take (S i) (curConstraints d2))) by (by apply Forall2_take).
  destruct (TopoSort_spec s (queue_of (lock e)) Htab (queue_known (lock e)) (queue_nodup (lock e)) _ Hle) as (ok1 & o1 & cs1 & E1 & F1 & _).
  destruct (TopoSort s (queue_of (lock e)) (take (S i) (curConstraints d2))) as [[[ok2 o2] cs2]|c|] eqn:E2; [|done..].
  destruct (TopoSort_twin s (queue_of (lock e)) (queue_known (lock e)) _ _ _ _ _ _ _ _ Hle Hft E1 E2) as [<- <-].
  assert (F2 : Forall2 same_edge (take (S i) (curConstraints d2)) cs2).
  { assert (Hle2 : Forall (by_leaders s) (take (S i) (curConstraints d2))) by (apply Forall_take; eapply Forall_impl; [by eapply edges_ok_same|apply eo_leaders]).
    destruct (TopoSort_spec s (queue_of (lock e)) Htab (queue_known (lock e)) (queue_nodup (lock e)) _ Hle2) as (ok & o & cs & E & F & _). congruence. }
  rewrite E1 in H1. cbn [mbind run_bind] in H1, H2. destruct ok1; [|injection H1 as <- <-; injection H2 as <- <-; done].
  eapply IH; [| | |exact H1|exact H2]; cbn.
  - eapply edges_ok_same; [exact Hok|]. rewrite <- (take_drop (S i) (curConstraints d1)) at 1. by apply Forall2_app.
  - apply Forall2_app; [|by apply Forall2_drop]. etrans; [symmetry; exact F1|]. etrans; [exact Hft|exact F2].
  - done.
Qed.

Lemma proc_twin p sf d1 d2 r1 r2 e1 e2 : waitOrders d2 = waitOrders d1 -> length (deadlockDetails d2) = length (deadlockDetails d1) ->
  test_proc s p sf d1 = Done (r1, e1) -> test_proc s p sf d2 = Done (r2, e2) ->
  r2 = r1 /\ waitOrders e2 = waitOrders e1 /\ length (deadlockDetails e2) = length (deadlockDetails e1).
Proof.
  intros Ho Hl H1 H2. pose proof (both_cycle s Htab p d1 d2 Ho Hl) as Hb. unfold both in Hb. unfold test_proc, mbind, DM_bind in H1, H2.
  destruct (FindLockCycle s p d1) as [[b1 f1]|c|]; [|done..]. destruct (FindLockCycle s p d2) as [[b2 f2]|c|]; [|done..].
  destruct Hb as (<- & [T1 T2 T3 T4] & _ & _). destruct b1; [|injection H1 as <- <-; injection H2 as <- <-; done].
  unfold get_detector, dlift in H1, H2. cbn [mbind run_bind] in H1, H2.
  destruct (put_edges _ _ (softEdges f1)) as [l1|]; [|done]. destruct (put_edges _ _ (softEdges f2)) as [l2|]; [|done].
  injection H1 as <- <-. injection H2 as <- <-. by rewrite T3.
Qed.

Lemma constraints_twin cs1 cs2 sf d1 d2 r1 r2 e1 e2 : Forall2 same_edge cs1 cs2 -> waitOrders d2 = waitOrders d1 ->
  length (deadlockDetails d2) = length (deadlockDetails d1) -> test_constraints s cs1 sf d1 = Done (r1, e1) -> test_constraints s cs2 sf d2 = Done (r2, e2) ->
  r2 = r1 /\ waitOrders e2 = waitOrders e1 /\ length (deadlockDetails e2) = length (deadlockDetails e1).
Proof.
  intros Hf. revert sf d1 d2. induction Hf as [|x1 x2 cs1 cs2 (W & B & L) _ IH]; intros sf d1 d2 Ho Hl H1 H2.
  { injection H1 as <- <-. injection H2 as <- <-. done. }
  cbn [test_constraints] in H1, H2. rewrite W, B in H2. unfold mbind, DM_bind in H1, H2.
  destruct (test_proc s (waiter x1) sf d1) as [[q1 f1]|c|] eqn:P1; [|done..]. destruct (test_proc s (waiter x1) sf d2) as [[q2 f2]|c|] eqn:P2; [|done..].
  destruct (proc_twin _ _ _ _ _ _ _ _ Ho Hl P1 P2) as (-> & Ho1 & Hl1). destruct q1 as [sf1|]; [|injection H1 as <- <-; injection H2 as <- <-; done].
  destruct (test_proc s (blocker x1) sf1 f1) as [[q3 f3]|c|] eqn:P3; [|done..]. destruct (test_proc s (blocker x1) sf1 f2) as [[q4 f4]|c|] eqn:P4; [|done..].
  destruct (proc_twin _ _ _ _ _ _ _ _ Ho1 Hl1 P3 P4) as (-> & Ho2 & Hl2). destruct q3 as [sf2|]; [|injection H1 as <- <-; injection H2 as <- <-; done].
  by eapply IH.
Qed.

Lemma test_again p d1 d2 k1 k2 e1 e2 : check_ok d1 -> check_ok d2 -> Forall2 same_edge (curConstraints d1) (curConstraints d2) ->
  nPossibleConstraints d2 = nPossibleConstraints d1 ->
  TestConfiguration s p d1 = Done (k1, e1) -> TestConfiguration s p d2 = Done (k2, e2) -> k2 = k1.
Proof.
  intros Hok1 Hok2 Hf Hnp H1 H2. unfold TestConfiguration, mbind, DM_bind, get_detector in H1, H2. rewrite Hnp in H2.
  destruct (_ <? _); [by injection H1 as <- _; injection H2 as <- _|].
  destruct (ExpandConstraints s d1) as [[b1 f1]|c|] eqn:E1; [|done..]. destruct (ExpandConstraints s d2) as [[b2 f2]|c|] eqn:E2; [|done..].
  assert (Hx : forall d b f, check_ok d -> ExpandConstraints s d = Done (b, f) -> Forall2 same_edge (curConstraints d) (curConstraints f) /\ deadlockDetails f = deadlockDetails d).
  { intros d b f Hok E. pose proof (ExpandConstraints_spec d (ck_edges _ Hok)) as Hs. unfold dwp in Hs. rewrite E in Hs. destruct Hs as (F & [Q _ _] & _). done. }
  destruct (Hx _ _ _ Hok1 E1) as [F1 D1], (Hx _ _ _ Hok2 E2) as [F2 D2].
  unfold ExpandConstraints, mbind, DM_bind, put, get_detector in E1, E2. cbn [curConstraints set_orders] in E1, E2. rewrite <- (Forall2_length _ _ _ Hf) in E2.
  destruct (expand_twin _ _ (set_orders [] d1) (set_orders [] d2) _ _ _ _ (ck_edges _ Hok1) Hf eq_refl E1 E2) as [-> Ho].
  destruct b1; [|by injection H1 as <- _; injection H2 as <- _].
  assert (Hl : length (deadlockDetails f2) = length (deadlockDetails f1)).
  { pose proof (ck_details _ Hok1) as L1. pose proof (ck_details _ Hok2) as L2. unfold zlen in *. rewrite D1, D2. lia. }
  assert (Hf' : Forall2 same_edge (curConstraints f1) (curConstraints f2)) by (etrans; [symmetry; exact F1|]; etrans; [exact Hf|exact F2]).
  destruct (test_constraints s (curConstraints f1) 0 f1) as [[q1 g1]|c|] eqn:T1; [|done..]. destruct (test_constraints s (curConstraints f2) 0 f2) as [[q2 g2]|c|] eqn:T2; [|done..].
  destruct (constraints_twin _ _ _ _ _ _ _ _ _ Hf' Ho Hl T1 T2) as (-> & Ho2 & Hl2). destruct q1 as [sf|]; [|by injection H1 as <- _; injection H2 as <- _].
  destruct (test_proc s p sf g1) as [[q3 h1]|c|] eqn:P1; [|done..]. destruct (test_proc s p sf g2) as [[q4 h2]|c|] eqn:P2; [|done..].
  destruct (proc_twin _ _ _ _ _ _ _ _ Ho2 Hl2 P1 P2) as (-> & _ & _). by injection H1 as <- _; injection H2 as <- _.
Qed.

(** ** DeadLockCheckRecurse *)

Definition check_post (p : Z) (d : Detector) (b : bool) (d' : Detector) : Prop :=
  check_ok d' /\ (b = true \/ waitOrders d' <> [] -> curConstraints d = [] -> nPossibleConstraints d = 0 -> cycle s [] (leader s p))
  /\ if b then same_check d d' else resolved p d'.

Lemma take_zlookup {A} (l l' : list A) n i : take (Z.to_nat n) l' = take (Z.to_nat n) l -> 0 <= i < n -> zlookup l' i = zlookup l i.
Proof.
  intros E Hi. unfold zlookup. rewrite (proj2 (Z.leb_le _ _)) by lia. rewrite <- (lookup_take_lt l (Z.to_nat n)), <- E, lookup_take_lt by lia. done.
Qed.
Lemma take_shorter {A} (l l' : list A) m n : 0 <= m <= n -> take (Z.to_nat n) l' = take (Z.to_nat n) l -> take (Z.to_nat m) l' = take (Z.to_nat m) l.
Proof.
  intros Hm E. replace (Z.to_nat m) with (Z.to_nat m `min` Z.to_nat n)%nat by lia. by rewrite <- !take_take, E.
Qed.

Lemma edges_at_saved l l' np old n : take (Z.to_nat np) l' = take (Z.to_nat np) l -> 0 <= old -> old + n <= np -> edges_at l old n -> edges_at l' old n.
Proof. intros E Ho Hn H i Hi. destruct (H i Hi) as (e & He & ?). exists e. split; [|done]. rewrite <- He. eapply take_zlookup; [exact E|lia]. Qed.

Section Try.
Context (rec : DM bool) (p : Z) (Hp : is_Some (allProcs s !! p)) (savedList : bool) (dT : Detector) (nEdges : Z).
Let old := nPossibleConstraints dT.
Context (Hold : 0 <= old) (Hrec : forall d, check_ok d -> zlen (curConstraints d) = zlen (curConstraints dT) + 1 -> dwp rec (check_post p d) d).
Context (Hagain : forall d k e, check_ok d -> Forall2 same_edge (curConstraints dT) (curConstraints d) -> nPossibleConstraints d = old ->
  TestConfiguration s p d = Done (k, e) -> k = nEdges).

Record trying (d : Detector) : Prop := {
  tr_ok : check_ok d;
  tr_cur : Forall2 same_edge (curConstraints dT) (curConstraints d);
  tr_np : nPossibleConstraints d = if savedList then old + nEdges else old;
  tr_saved : take (Z.to_nat old) (possibleConstraints d) = take (Z.to_nat old) (possibleConstraints dT) }.

Definition try_post (b : bool) (d' : Detector) : Prop := check_ok d' /\ if b then trying d' else resolved p d'.

Lemma push_ok d e : check_ok d -> edge_ok e -> check_ok (set_cur (curConstraints d ++ [e]) d).
Proof. intros [? ? ? ?] He. constructor; cbn; [|done..]. apply Forall_app. split; [done|by constructor]. Qed.

(** The edge [i] is tried, and the next one if that is no solution. *)
Lemma try_edge i d e (k : DM bool) : trying d -> edges_at (possibleConstraints d) old nEdges -> 0 <= i < nEdges ->
  (forall d', trying d' -> (savedList = true -> edges_at (possibleConstraints d') old nEdges) -> dwp k try_post d') ->
  zlookup (possibleConstraints d) (old + i) = Some e ->
  dwp (put (set_cur (curConstraints d ++ [e]));; r ← rec;
    if r : bool then d ← get_detector; put (set_cur (take (length (curConstraints d) - 1) (curConstraints d)));; k else mret false) try_post d.
Proof.
  intros [T1 T2 T3 T4] Hed Hi Hk He. destruct (Hed i Hi) as (e' & He' & Heok). assert (e' = e) as -> by congruence.
  apply dwp_bind, dwp_put, dwp_bind. pose proof (push_ok d e T1 Heok) as Hok. eapply dwp_mono; [|apply Hrec; [done|]].
  2: { cbn. rewrite zlen_app. unfold zlen. rewrite (Forall2_length _ _ _ T2). done. }
  intros b d' (Hok' & _ & Hb). destruct b; [|by apply dwp_ret]. destruct Hb as [S1 S2 S3]. cbn in S1, S2, S3.
  apply dwp_bind, dwp_get, dwp_bind, dwp_put. apply Forall2_app_inv_l in S1 as (cs & l & Hcs & Hl & Ecur).
  assert (Hlen : length l = 1%nat) by (by rewrite <- (Forall2_length _ _ _ Hl)). rewrite Ecur, length_app, Hlen. replace (length cs + 1 - 1)%nat with (length cs) by lia.
  rewrite take_app_length. apply Hk.
  - destruct Hok' as [O1 O2 O3 O4]. constructor; cbn; [constructor; cbn; [|done..]|by etrans|congruence|].
    + rewrite Ecur in O1. by apply Forall_app in O1 as [? _].
    + rewrite <- T4. eapply take_shorter; [|exact S3]. rewrite T3. destruct savedList; lia.
  - intros Hs. cbn. eapply edges_at_saved; [exact S3|done|rewrite T3, Hs; lia|done].
Qed.

Lemma try_edges_spec n i d : nEdges = i + Z.of_nat n -> 0 <= i -> trying d ->
  (savedList = true \/ i = 0 -> edges_at (possibleConstraints d) old nEdges) ->
  dwp (try_edges s rec p savedList old nEdges n i) try_post d.
Proof.
  revert i d. induction n as [|n IH]; intros i d Hn Hi Hd Hed; cbn [try_edges].
  { apply dwp_ret. split; [apply Hd|done]. }
  apply dwp_bind. eapply (dwp_mono _ (fun _ d1 => trying d1 /\ edges_at (possibleConstraints d1) old nEdges)).
  - intros [] d1 [Hd1 He1]. apply dwp_bind, dwp_get, dwp_bind. destruct (He1 i ltac:(lia)) as (e & He & _). eapply dwp_lift; [by rewrite He|].
    apply (try_edge i d1 e); [done|done|lia| |done]. intros d' Hd' Hs. apply IH; [lia|lia|done|]. intros [?|?]; [auto|lia].
  - destruct (negb savedList && (0 <? i)) eqn:Hc.
    + apply andb_true_iff in Hc as [Hs%negb_true_iff Hi2%Z.ltb_lt]. pose proof Hd as [T1 T2 T3 T4]. rewrite Hs in T3.
      pose proof (TestConfiguration_spec p d T1 Hp) as Ht. destruct (dwp_run _ _ _ Ht) as (k & d1 & E & [[S1 S2 S3] C2 [C3 C4] _ _]).
      assert (k = nEdges) as -> by (by apply (Hagain d k d1)). rewrite T3 in C4. eapply dwp_step; [exact E|]. rewrite Z.eqb_refl. apply dwp_ret. split; [|exact C4].
      constructor; [done|by etrans|rewrite Hs; congruence|]. rewrite <- T4, <- T3. exact S3.
    + apply dwp_ret. split; [done|]. apply Hed. apply andb_false_iff in Hc as [Hs%negb_false_iff|Hi2%Z.ltb_ge]; [by left|right; lia].
Qed.
End Try.

Lemma recurse_check fuel p d : is_Some (allProcs s !! p) -> check_ok d -> MaxBackends < zlen (curConstraints d) + Z.of_nat fuel ->
  0 <= zlen (curConstraints d) <= MaxBackends -> dwp (DeadLockCheckRecurse s fuel p) (check_post p d) d.
Proof.
  intros Hp. revert d. induction fuel as [|fuel IH]; intros d Hok Hf Hc; cbn [DeadLockCheckRecurse]; [lia|].
  pose proof (TestConfiguration_spec p d Hok Hp) as Ht. destruct (dwp_run _ _ _ Ht) as (k & d1 & E & [Hs C2 [C3 C4] C5 C6]).
  pose proof Hs as [S1 S2 S3]. eapply dwp_step; [exact E|]. destruct (Z.ltb_spec k 0); [apply dwp_ret; split_and!; [done|intros _; apply C6; lia|done]|].
  destruct (Z.eqb_spec k 0) as [->|Hk].
  { apply dwp_ret. split_and!; [done| |by apply C5]. intros [?|Hne] Hnil _; [done|]. destruct Hne. destruct (C5 eq_refl) as (Ho & _ & _).
    destruct (waitOrders d1) as [|o os]; [done|]. destruct (oi_needed _ _ Ho o ltac:(by left)) as (e & He & _). rewrite Hnil in S1. apply Forall2_nil_inv_l in S1. rewrite S1 in He. by apply not_elem_of_nil in He. }
  apply dwp_bind, dwp_get. case_match eqn:Hmax; [apply dwp_ret; split_and!; [done|auto|done]|]. apply Z.leb_gt in Hmax. unfold maxCurConstraints in Hmax.
  set (old := nPossibleConstraints d1) in *. set (saved := _ <=? maxPossibleConstraints).
  assert (Hold : 0 <= old) by apply C2.
  apply dwp_bind. eapply (dwp_mono _ (fun _ d2 => trying saved d1 k d2 /\ edges_at (possibleConstraints d2) old k)).
  - intros [] d2 [Hd2 He2]. apply dwp_bind. eapply dwp_mono; [|apply (try_edges_spec _ p Hp saved d1 k); [done| | |lia|done|done|done]].
    + intros b d3 [H3 Hb]. destruct b; [|apply dwp_ret; split_and!; [done|auto|done]]. destruct Hb as [T1 T2 T3 T4]. apply dwp_bind, dwp_put, dwp_ret.
      split; [destruct T1; by constructor|]. split; [auto|]. constructor; cbn; [by etrans|done|]. rewrite <- S2. etrans; [exact T4|]. rewrite <- S2 in S3. exact S3.
    + intros d3 Hok3 Hl3. apply IH; [done| |]; pose proof (Forall2_length _ _ _ S1) as Hl; unfold zlen in *; lia.
    + intros d3 k3 e3 Hok3 Hc3 Hn3 E3. eapply (test_again p d d3); [done|done|by etrans|by rewrite Hn3|exact E|exact E3].
  - unfold saved. case_match eqn:Hsv.
    + apply Z.leb_le in Hsv. apply dwp_put. split; [|by rewrite S2; cbn]. constructor; cbn; [|done| |done].
      * destruct C2 as [O1 O2 O3 O4]. constructor; cbn; [done|done|done|]. lia.
      * done.
    + apply dwp_ret. split; [|by rewrite S2]. by constructor.
Qed.
End Check.
