(* ===== verification/DeadApply.v ===== *)
(** The orders found by the search are put into the table ([rearrange],
    DeadLock.v).

    Rearranging a queue and waking who can be served keeps [table_ok] and adds
    no edge to the waits-for graph: [order_step] for one lock, [rearrange_spec]
    for all.  [blockers_ok] says what the search notes about the blockers to
    cancel. *)
From S2P Require Import Prelude Lock LockInv LockWait DeadLock DeadSearch DeadSort DeadTwin DeadCheck.
From stdpp Require Import list gmap.
#[local] Open Scope Z_scope.

(** ** What the search notes of blockers *)

Section Blockers.
Context {lim : DeadLockLimits} {th : LockThread} (s : LockState).

Record blockers_ok (d : Detector) : Prop := {
  bo_autovacuum : forall q, q ∈ blocking_autovacuum_proc d -> exists x, allProcs s !! q = Some x /\ Z.land (vacuumFlags x) PROC_IS_AUTOVACUUM <> 0;
  bo_once : NoDup (blocking_autovacuum_proc d) /\ zlen (blocking_autovacuum_proc d) <= max_blocking_autovacuum_proc_num;
  bo_redist : forall q, blocking_redist d = Some q -> is_Some (allProcs s !! q) }.

(** A run keeps what it notes in order. *)
Definition notes {A} (m : DM A) : Prop := forall d, blockers_ok d -> match m d with Done (_, d') => blockers_ok d' | _ => True end.

Lemma notes_ret {A} (a : A) : notes (mret a).
Proof. by intros d Hd. Qed.
Lemma notes_lift {A} (r : run A) : notes (dlift r).
Proof. intros d Hd. unfold dlift. by destruct r. Qed.
Lemma notes_get : notes get_detector.
Proof. by intros d Hd. Qed.
Lemma notes_bind {A B} (m : DM A) (k : A -> DM B) : notes m -> (forall a, notes (k a)) -> notes (m ≫= k).
Proof.
  intros H1 H2 d Hd. specialize (H1 d Hd). unfold mbind, DM_bind. destruct (m d) as [[a d']| |]; [|done..]. by apply H2.
Qed.
Lemma notes_lift_bind {A B} (r : run A) (k : A -> DM B) : (forall a, r = Done a -> notes (k a)) -> notes (dlift r ≫= k).
Proof. intros H d Hd. destruct r as [a| |]; [|done..]. by apply (H a). Qed.
Lemma notes_put f : (forall d, blocking_autovacuum_proc (f d) = blocking_autovacuum_proc d) -> (forall d, blocking_redist (f d) = blocking_redist d) -> notes (put f).
Proof. intros H1 H2 d [B1 B2 B3]. cbn. constructor; rewrite ?H1, ?H2; done. Qed.

Ltac notes := repeat first
  [ solve [auto] | apply notes_ret | apply notes_lift | apply notes_get | by apply notes_put | apply notes_bind; [|intros ?] | case_match ].

Lemma notes_remember p x : allProcs s !! p = Some x -> Z.land (vacuumFlags x) PROC_IS_AUTOVACUUM <> 0 -> notes (remember_autovacuum p).
Proof.
  intros Hp Hf d [B1 [B2 B2'] B3]. unfold remember_autovacuum, mbind, DM_bind, get_detector. destruct (_ && _) eqn:Hc; [|done].
  apply andb_true_iff in Hc as [Hn%negb_true_iff%bool_decide_eq_false Hl%Z.ltb_lt]. constructor; cbn; [| |done].
  - intros q [Hq| ->%list_elem_of_singleton]%elem_of_app; [by apply B1|by exists x].
  - split; [|rewrite zlen_app; change (zlen [p]) with 1; lia]. apply NoDup_app. split_and!; [done| |apply NoDup_singleton]. by intros y Hy ->%list_elem_of_singleton.
Qed.

Lemma notes_blocker c p x : allProcs s !! p = Some x -> notes (note_blocker c p (vacuumFlags x)).
Proof.
  intros Hp. unfold note_blocker. case_match; [|apply notes_ret]. case_match eqn:Ha.
  - apply negb_true_iff, Z.eqb_neq in Ha. by apply (notes_remember p x).
  - case_match; [|apply notes_ret]. intros d [B1 B2 B3]. cbn. constructor; cbn; [done|done|]. intros q [= <-]. by exists x.
Qed.

Lemma notes_waiting n mask first p g : notes (waiting_autovacuum s n mask first p g).
Proof.
  induction n as [|n IH]; cbn [waiting_autovacuum]; [apply notes_ret|]. apply notes_bind; [apply notes_lift|]. intros q.
  case_match; [apply notes_ret|]. unfold the_proc. apply notes_lift_bind. intros x Hx. destruct (allProcs s !! q) as [x'|] eqn:Hq; [|done]. injection Hx as ->.
  apply notes_bind; [|done]. destruct (_ && _) eqn:Hc; [|apply notes_ret]. apply andb_true_iff in Hc as [_ Hc%negb_true_iff%Z.eqb_neq].
  by apply (notes_remember q x).
Qed.

Section Rec.
Context (rec : Z -> Z -> DM bool) (Hrec : forall p depth, notes (rec p depth)).

Lemma notes_fill depth tag check : notes (fill_details depth tag check).
Proof. unfold fill_details. notes. Qed.
Lemma notes_hard n mask tag p g check depth pls : notes (hard_edges s rec n mask tag p g check depth pls).
Proof.
  induction pls as [|pl pls IH]; cbn [hard_edges]; [apply notes_ret|]. unfold the_proc. apply notes_lift_bind. intros x Hx.
  destruct (allProcs s !! myProc pl) as [x'|] eqn:Hq; [|done]. injection Hx as ->. destruct (_ && _); [|done]. apply notes_bind; [apply Hrec|]. intros [|].
  - apply notes_bind; [apply notes_fill|]. intros _. apply notes_ret.
  - apply notes_bind; [by apply notes_blocker|done].
Qed.
Lemma notes_soft stop skip mask tag g check depth procs : notes (soft_edges s rec stop skip mask tag g check depth procs).
Proof. induction procs as [|x procs IH]; cbn [soft_edges]; [apply notes_ret|]. unfold soft_edge. pose proof notes_fill. notes. Qed.
Lemma notes_last g o procs : notes (last_member s g o procs).
Proof. revert o. induction procs as [|x procs IH]; intros o; cbn [last_member]; notes. Qed.
Lemma notes_member p g depth : notes (FindLockCycleRecurseMember s rec p g depth).
Proof.
  unfold FindLockCycleRecurseMember. pose proof notes_hard. pose proof notes_soft. pose proof notes_last. pose proof notes_waiting. notes.
Qed.
Lemma notes_members p depth ms : notes (member_cycles s rec p depth ms).
Proof. induction ms as [|x ms IH]; cbn [member_cycles]; [apply notes_ret|]. pose proof notes_member. notes. Qed.
End Rec.

Lemma notes_cycle p : notes (FindLockCycle s p).
Proof.
  unfold FindLockCycle. apply notes_bind; [by apply notes_put|]. intros _. generalize (S (Z.to_nat MaxBackends)), p, 0. clear p. intros fuel.
  induction fuel as [|fuel IH]; intros p depth; cbn [FindLockCycleRecurse]; [apply notes_lift|].
  pose proof (notes_member _ IH). pose proof (notes_members _ IH). notes.
Qed.

Lemma notes_expand n np : notes (expand_constraints s n np).
Proof. revert np. induction n as [|n IH]; intros np; cbn [expand_constraints]; notes. Qed.
Lemma notes_test p : notes (TestConfiguration s p).
Proof.
  assert (Ht : forall p sf, notes (test_proc s p sf)) by (intros p' sf; unfold test_proc; pose proof notes_cycle; notes).
  assert (Hc : forall cs sf, notes (test_constraints s cs sf)) by (intros cs; induction cs as [|e cs IH]; intros sf; cbn [test_constraints]; notes).
  unfold TestConfiguration, ExpandConstraints. pose proof notes_expand. notes.
Qed.

Lemma notes_check fuel p : notes (DeadLockCheckRecurse s fuel p).
Proof.
  induction fuel as [|fuel IH]; cbn [DeadLockCheckRecurse]; [apply notes_lift|]. pose proof notes_test as Ht.
  assert (Hty : forall sv old k n i, notes (try_edges s (DeadLockCheckRecurse s fuel p) p sv old k n i)).
  { intros sv old k n. induction n as [|n IHn]; intros i; cbn [try_edges]; notes. }
  notes.
Qed.
End Blockers.

(** ** One lock is rearranged *)

Lemma waiters_perm ps (q q' : list Z) m : q' ≡ₚ q -> zlen (waiters ps q' m) = zlen (waiters ps q m).
Proof. intros Hp. unfold waiters, zlen. by rewrite Hp. Qed.
Lemma waiters_nonempty ps (q q' : list Z) m : q' ≡ₚ q -> waiters ps q' m <> [] <-> waiters ps q m <> [].
Proof. intros Hp. unfold waiters. rewrite !filter_some. by setoid_rewrite Hp. Qed.

Lemma perm_ok ps tag l q : lock_ok ps tag [] [] l -> q ≡ₚ waitProcs l -> lock_ok ps tag [] [] (set_waitprocs q l).
Proof.
  intros [[S1 S2 S3 S4 S5] H2 H3 H4 H5 H6 H7 [H8 H9] H10] Hp. constructor; try done; cbn [set_waitprocs procLocks waitProcs requested waitMask].
  - constructor; [done|done|done|by rewrite Hp|]. intros w Hw. apply S5. by rewrite <- Hp.
  - intros m Hm. by rewrite (waiters_perm _ _ _ m Hp), H4.
  - split; [done|]. intros m. rewrite (waiters_nonempty _ _ _ m Hp). apply H9.
Qed.

(** The order [procs] of the queue of [tag], and [ws] are woken. *)
Record reordered (s s' : LockState) (tag : LOCKTAG) (procs ws : list Z) : Prop := {
  ro_moved : forall p, moved s s' p no_drop ws;
  ro_leader : forall q, leader s' q = leader s q;
  ro_other : forall tag', tag' <> tag -> LockMethodLockHash s' !! tag' = LockMethodLockHash s !! tag';
  ro_queue : exists l', LockMethodLockHash s' !! tag = Some l' /\ waitProcs l' = filter (fun w => w ∉ ws) procs;
  ro_woken : forall w, w ∈ ws -> w ∈ procs;
  ro_ahead : forall a x b w mx mw, procs = a ++ x :: b -> x ∉ ws -> w ∈ ws -> w ∈ b -> waits_at s x tag mx -> waits_at s w tag mw -> conflict mw mx = false }.

Section Apply.
Context {lim : DeadLockLimits} {th : LockThread} (Hstream : stream_mode = false).

Lemma order_step o os s l (Q : unit -> LockState -> Prop) : table_ok s -> LockMethodLockHash s !! wo_lock o = Some l -> wo_procs o ≡ₚ waitProcs l ->
  is_Some (allProcs s !! my_proc) ->
  (forall s' ws, table_ok s' -> reordered s s' (wo_lock o) (wo_procs o) ws -> lwp (rearrange os) Q s') ->
  lwp (rearrange (o :: os)) Q s.
Proof.
  intros Htab Hl Hp Hme HQ. set (tag := wo_lock o) in *. destruct (table_here s tag l Htab Hl) as [[Hrest Hlock Hok Hwaits] Hg].
  destruct (valid_method tag (lg_tag _ _ _ Hg)) as (t & Et & Ht). cbn [rearrange]. fold tag.
  apply lwp_bind. eapply lwp_get_lock; [done|]. apply lwp_bind, lwp_modify. set (l1 := set_waitprocs (wo_procs o) l). set (s1 := set_locks _ s).
  assert (Hok1 : lock_ok (allProcs s) tag [] [] l1) by (by apply perm_ok).
  assert (Hh1 : here s1 tag [] [] l1).
  { constructor; [by apply rest_lock|apply lookup_insert_eq|done|]. intros p x Hx Hxl. cbn. rewrite Hp. by apply (Hwaits p x). }
  apply lwp_bind. eapply lwp_lift; [done|]. apply lwp_bind. unfold ProcLockWakeup. apply lwp_bind. eapply lwp_get_lock; [apply lookup_insert_eq|].
  apply (wakeup_loop_spec Hstream tag t Ht (waitProcs l1) s1 l1 [] 0); [done|done| |done| |done|].
  { intros a w b E. symmetry in E. apply app_eq_nil in E as [_ E]. done. }
  { intros m. rewrite Z.bits_0. split; [done|]. by intros H. }
  intros s' l' ws Hh' Hwoke Hblocked. pose proof Hh' as [Hr' Hl' Hok' Hw']. apply (HQ s' ws).
  - apply (table_join s' tag l'); [done|done| |done]. constructor; [done| |done|by rewrite (wk_requests _ _ _ _ _ _ Hwoke); apply (lg_used _ _ _ Hg)|apply (lg_tag _ _ _ Hg)].
    apply (wk_needed _ _ _ _ _ _ Hwoke). intros x Hx. cbn. rewrite Hp. apply (lg_needed _ _ _ Hg x Hx).
  - pose proof Hwoke as [K1 K2 K3 K4 K5 K6 K7 K8 K9 K10 _]. constructor.
    + intros p. destruct (woke_moved tag s1 s' l1 l' ws p [] [] Hh1 Hh' Hwoke) as [M1 M2 M3 M4 M6 M5]. constructor; try done.
      intros tag' q m. rewrite M2. unfold holds_at, s1. cbn. destruct (decide (tag' = tag)) as [->|Hne].
      * rewrite lookup_insert_eq, Hl. split; (intros [[(x & [= <-] & Hx) Hn]|?]; [left|by right]); (split; [|done]); [by exists l|by exists l1].
      * by rewrite lookup_insert_ne.
    + intros q. unfold leader. rewrite K4. cbn. case_decide; [|done]. by destruct (allProcs s !! q).
    + intros tag' Hne. rewrite K1 by done. cbn. by rewrite lookup_insert_ne.
    + by exists l'.
    + done.
    + intros a x b w mx mw E Hx Hw Hb (px & Hpx & _ & <-) (pw & Hpw & _ & <-).
      pose proof (K10 a x b w E Hx Hw Hb) as Hc. cbn in Hc. by rewrite (waitmode_lookup _ _ _ Hpx), (waitmode_lookup _ _ _ Hpw) in Hc.
Qed.

(** Between two members of a group there are only members. *)
Lemma grouped_between s q order u y v z w x : grouped s q order -> NoDup order -> order ≡ₚ q -> order = u ++ y :: v ++ z :: w -> x ∈ w ->
  leader s x = leader s y -> leader s z = leader s y.
Proof.
  intros Hg Hnd Hperm E Hx Hxy. destruct (Hg (leader s y)) as (a & b & c & E' & Hb).
  assert (Hin : forall i t, order !! i = Some t -> leader s t = leader s y -> (length a <= i < length a + length b)%nat).
  { intros i t Hi Ht. assert (Htb : t ∈ b). { rewrite Hb, elem_of_group. split; [rewrite <- Hperm; by eapply list_elem_of_lookup_2|done]. }
    apply list_elem_of_lookup in Htb as [j Hj]. assert (order !! (length a + j)%nat = Some t).
    { rewrite E', lookup_app_r by lia. replace (length a + j - length a)%nat with j by lia. by apply lookup_app_l_Some. }
    assert (i = (length a + j)%nat) as -> by (by eapply NoDup_lookup). apply lookup_lt_Some in Hj. lia. }
  assert (Hy : order !! (length u) = Some y) by (rewrite E; by apply list_lookup_middle).
  assert (Hz : order !! (length u + S (length v))%nat = Some z).
  { rewrite E, lookup_app_r by lia. replace (length u + S (length v) - length u)%nat with (S (length v)) by lia. cbn. by apply list_lookup_middle. }
  apply list_elem_of_lookup in Hx as [k Hk]. assert (Hxk : order !! (length u + S (length v + S k))%nat = Some x).
  { rewrite E, lookup_app_r by lia. replace (length u + S (length v + S k) - length u)%nat with (S (length v + S k)) by lia.
    transitivity ((v ++ z :: w) !! (length v + S k)%nat); [done|]. rewrite lookup_app_r by lia. by replace (length v + S k - length v)%nat with (S k) by lia. }
  pose proof (Hin _ _ Hy eq_refl). pose proof (Hin _ _ Hxk Hxy).
  assert (Hzb : order !! (length u + S (length v))%nat = b !! (length u + S (length v) - length a)%nat).
  { rewrite E', lookup_app_r by lia. apply lookup_app_l. lia. }
  rewrite Hz in Hzb. symmetry in Hzb. apply list_elem_of_lookup_2 in Hzb. rewrite Hb in Hzb. by apply elem_of_group in Hzb as [_ ?].
Qed.

Lemma find_order_cons tag o os : find_order tag (o :: os) = if decide (wo_lock o = tag) then Some (wo_procs o) else find_order tag os.
Proof.
  unfold find_order. cbn [list_find]. destruct (decide (wo_lock o = tag)); [done|].
  destruct (list_find (fun o => wo_lock o = tag) os) as [[i x]|]; done.
Qed.

Lemma NoDup_before {A} (l1 l2 : list A) q x : NoDup (l1 ++ q :: l2) -> x ∈ l2 -> x ∉ l1 ++ [q].
Proof.
  intros Hnd Hx Hin. replace (l1 ++ q :: l2) with ((l1 ++ [q]) ++ l2) in Hnd by (by rewrite <- app_assoc).
  apply NoDup_app in Hnd as (_ & Hd & _). by apply (Hd x).
Qed.

(** The queue order of the lock is the hypothetical one. *)
Lemma ahead_soft s o os p m q l1 l2 x : table_ok s -> is_Some (allProcs s !! p) -> NoDup (wo_procs o) -> wo_procs o ≡ₚ queue_of s (wo_lock o) -> grouped s (queue_of s (wo_lock o)) (wo_procs o) ->
  wo_procs o = l1 ++ q :: l2 -> x ∈ l2 -> leader s x = leader s p -> leader s q <> leader s p ->
  (exists m', waits_at s q (wo_lock o) m' /\ conflict m m' = true) -> soft_block s (o :: os) p (wo_lock o) m q.
Proof.
  intros Htab Hp Hnd Hperm Hg E Hx Hxp Hne Hc. split; [done|]. rewrite find_order_cons, decide_True by done. exists l1, l2. split; [done|].
  intros y Hy Hyp. assert (Hpp : leader s p = p).
  { rewrite <- Hyp. apply leader_known; [done|]. apply (queue_known s Htab (wo_lock o)). rewrite <- Hperm, E, elem_of_app, elem_of_cons.
    apply elem_of_app in Hy as [?| ->%list_elem_of_singleton]; auto. }
  apply elem_of_app in Hy as [Hy| ->%list_elem_of_singleton]; [|congruence].
  apply list_elem_of_split in Hy as (u & v & ->). rewrite <- app_assoc in E. cbn in E. apply Hne.
  rewrite (grouped_between s _ _ u y v q l2 x Hg Hnd Hperm E Hx); congruence.
Qed.

Lemma filter_split {A} (P : A -> Prop) `{!forall x, Decision (P x)} (l l1 l2 : list A) q : filter P l = l1 ++ q :: l2 ->
  exists k1 k2, l = k1 ++ q :: k2 /\ filter P k1 = l1 /\ filter P k2 = l2.
Proof.
  revert l1. induction l as [|x l IH]; intros l1 E; [by destruct l1|]. rewrite filter_cons in E. case_decide as Hx.
  - destruct l1 as [|y l1]; injection E as -> E; [by exists [], l|]. destruct (IH l1 E) as (k1 & k2 & -> & <- & <-).
    exists (y :: k1), k2. split_and!; [done|by rewrite filter_cons, decide_True|done].
  - destruct (IH l1 E) as (k1 & k2 & -> & <- & <-). exists (x :: k1), k2. split_and!; [done|by rewrite filter_cons, decide_False|done].
Qed.

Lemma edge_step s s' o os ws g g' : table_ok s -> wo_lock o ∉ wo_lock <$> os -> wo_procs o ≡ₚ queue_of s (wo_lock o) ->
  grouped s (queue_of s (wo_lock o)) (wo_procs o) -> reordered s s' (wo_lock o) (wo_procs o) ws -> edge s' os g g' -> edge s (o :: os) g g'.
Proof.
  intros Htab Hn Hperm Hg [Hmv Hlead Hoth Hq' Hwok Hah] (p & tag & m & q & Hw & Hpg & Hb & Hqg). rewrite Hlead in Hpg, Hqg.
  pose proof (Hmv p) as [_ Mh Mw _ _]. apply Mw in Hw as [Hw Hpws]. exists p, tag, m, q. split_and!; [done|done| |done].
  assert (Hnd : NoDup (wo_procs o)) by (rewrite Hperm; apply queue_nodup, Htab). assert (Hpk : is_Some (allProcs s !! p)) by (destruct Hw as (x & ? & _); by exists x).
  assert (Hinq : forall x mx, waits_at s x (wo_lock o) mx -> x ∈ wo_procs o).
  { intros x mx Hx. destruct (waits_queue s Htab x _ _ Hx) as (l & Hl & Hin & _). rewrite Hperm. unfold queue_of. by rewrite Hl. }
  assert (Hmode : forall x t mx, waits_at s x t mx -> mode_ok mx) by (intros x t mx Hx; by destruct (waits_queue s Htab x t mx Hx) as (? & _ & _ & ?)).
  destruct Hb as [(Hne & m' & Hh & Hc)|[(m' & Hwq & Hc) Hs]].
  - rewrite !Hlead in Hne. apply Mh in Hh as [[Hh _]|[Hqws Hwq]]; [left; split; [done|by exists m']|]. right.
    assert (Hqo : q ∈ wo_procs o) by (by apply Hwok). assert (tag = wo_lock o) as ->.
    { rewrite Hperm in Hqo. apply elem_of_queue_of in Hqo as (x & Hx & (x' & Hx' & Hxl & _)); [|done]. destruct Hwq as (x2 & ? & ? & _). congruence. }
    apply list_elem_of_split in Hqo as (l1 & l2 & E). pose proof (Hinq p m Hw) as Hpo. rewrite E in Hpo. apply elem_of_app in Hpo as [Hpo|[->|Hpo]%elem_of_cons].
    + apply list_elem_of_split in Hpo as (a & b & ->). rewrite <- app_assoc in E. cbn in E.
      assert (Hno : conflict m' m = false) by (apply (Hah a p (b ++ q :: l2) q m m' E Hpws Hqws); [rewrite elem_of_app, elem_of_cons; auto|done|done]).
      rewrite conflict_sym in Hno by eauto. congruence.
    + done.
    + eapply ahead_soft; try done. by exists m'.
  - right. apply Mw in Hwq as [Hwq Hqws]. destruct (decide (tag = wo_lock o)) as [->|Hne].
    + rewrite (proj2 (find_order_None (wo_lock o) os) Hn) in Hs. destruct Hs as (Hne & l & l1 & l2 & Hl & E & x & Hx & Hxp). rewrite !Hlead in Hne, Hxp.
      destruct Hq' as (l' & Hl' & Eq). assert (l' = l) as -> by congruence. rewrite Eq in E. apply filter_split in E as (k1 & k2 & E & <- & <-).
      apply list_elem_of_filter in Hx as [_ Hx]. eapply ahead_soft; try done. by exists m'.
    + split; [by exists m'|]. rewrite find_order_cons, decide_False by congruence. destruct (find_order tag os) as [procs|].
      * destruct Hs as (l1 & l2 & E & H). exists l1, l2. split; [done|]. intros x Hx. rewrite <- Hlead. by apply H.
      * destruct Hs as (Hne' & l & l1 & l2 & Hl & E & x & Hx & Hxp). rewrite !Hlead in Hne', Hxp. rewrite Hoth in Hl by done.
        split; [done|]. exists l, l1, l2. split_and!; [done|done|by exists x].
Qed.

(** ** All locks *)

(** Nobody gives up anything; the queues are in the new orders, without [ws],
    who are woken; no edge is new. *)
Record applied (s s' : LockState) (os : list WAIT_ORDER) (ws : list Z) : Prop := {
  ap_moved : forall p, moved s s' p no_drop ws;
  ap_leader : forall q, leader s' q = leader s q;
  ap_queue : forall tag, queue_of s' tag = filter (fun w => w ∉ ws) (default (queue_of s tag) (find_order tag os));
  ap_edges : forall g g', edge s' [] g g' -> edge s os g g' }.

Lemma one_queue s x tag tag' : table_ok s -> x ∈ queue_of s tag -> x ∈ queue_of s tag' -> tag' = tag.
Proof.
  intros Htab H1 H2. apply elem_of_queue_of in H1 as (x1 & E1 & (y1 & F1 & G1 & _)); [|done].
  apply elem_of_queue_of in H2 as (x2 & E2 & (y2 & F2 & G2 & _)); [|done]. congruence.
Qed.

Lemma filter_woken (ws ws' l : list Z) : filter (fun w => w ∉ ws') (filter (fun w => w ∉ ws) l) = filter (fun w => w ∉ ws ++ ws') l.
Proof. rewrite list_filter_filter. apply list_filter_iff. intros x. rewrite elem_of_app. tauto. Qed.

(** The queues after the first order and then the others. *)
Lemma queues_step s s1 s2 o os ws1 ws2 : table_ok s -> wo_lock o ∉ wo_lock <$> os -> NoDup (wo_lock <$> os) -> (forall o', o' ∈ o :: os -> wo_procs o' ≡ₚ queue_of s (wo_lock o')) ->
  reordered s s1 (wo_lock o) (wo_procs o) ws1 ->
  (forall tag, queue_of s2 tag = filter (fun w => w ∉ ws2) (default (queue_of s1 tag) (find_order tag os))) ->
  forall tag, queue_of s2 tag = filter (fun w => w ∉ ws1 ++ ws2) (default (queue_of s tag) (find_order tag (o :: os))).
Proof.
  intros Htab Hn Hnd Hos [_ _ R3 (l' & Hl' & Eq) R5 _] Hq2 tag. rewrite Hq2, find_order_cons, <- filter_woken. destruct (decide (wo_lock o = tag)) as [<-|Hne].
  - rewrite (proj2 (find_order_None (wo_lock o) os) Hn). cbn [default from_option id]. unfold queue_of at 1. rewrite Hl'. cbn. by rewrite Eq.
  - assert (queue_of s1 tag = queue_of s tag) as -> by (unfold queue_of; rewrite R3; congruence). f_equal. symmetry. apply filter_all. intros x Hx Hw.
    apply Hne, (one_queue s x tag (wo_lock o) Htab); [|rewrite <- (Hos o) by (by left); by apply R5].
    destruct (find_order tag os) as [procs|] eqn:Ho; [|done]. apply find_order_Some in Ho; [|done]. rewrite <- (Hos (MkOrder tag procs)) by (by right). done.
Qed.

Lemma moved_both s1 s2 s3 p ws ws' : moved s1 s2 p no_drop ws -> moved s2 s3 p no_drop ws' -> moved s1 s3 p no_drop (ws ++ ws').
Proof.
  intros [A1 A2 A3 A4 A6 A5] [B1 B2 B3 B4 B6 B5]. unfold no_drop in *. constructor.
  - by rewrite B1, A1, app_assoc.
  - intros tag q m. rewrite B2, A2, A3, elem_of_app. destruct (decide (q ∈ ws)); unfold no_drop; tauto.
  - intros q tag m. rewrite B3, A3, elem_of_app. tauto.
  - intros w [Hw|Hw]%elem_of_app; [by apply A4|]. destruct (B4 w Hw) as (tag & m & H). exists tag, m. by apply A3 in H as [? _].
  - by apply (woken_once s1 s2).
  - auto.
Qed.

Lemma rearrange_spec os s (Q : unit -> LockState -> Prop) : table_ok s -> NoDup (wo_lock <$> os) ->
  (forall o, o ∈ os -> is_Some (LockMethodLockHash s !! wo_lock o) /\ wo_procs o ≡ₚ queue_of s (wo_lock o) /\ grouped s (queue_of s (wo_lock o)) (wo_procs o)) ->
  is_Some (allProcs s !! my_proc) -> (forall s' ws, table_ok s' -> applied s s' os ws -> Q tt s') -> lwp (rearrange os) Q s.
Proof.
  revert s Q. induction os as [|o os IH]; intros s Q Htab Hnd Hos Hme HQ.
  { apply lwp_ret, (HQ s []); [done|]. constructor; [|done| |done].
    - intros p. apply moved_same. by constructor.
    - intros tag. symmetry. apply filter_all. by intros x _ ?%not_elem_of_nil. }
  apply NoDup_cons in Hnd as [Hn Hnd]. destruct (Hos o ltac:(by left)) as ([l Hl] & Hp & Hg).
  eapply order_step; [done|exact Hl| |done|]. { unfold queue_of in Hp. by rewrite Hl in Hp. }
  intros s1 ws1 Htab1 Hr. pose proof Hr as [R1 R2 R3 R4 R5 R6].
  assert (Hq : forall o', o' ∈ os -> queue_of s1 (wo_lock o') = queue_of s (wo_lock o')).
  { intros o' Ho'. unfold queue_of. rewrite R3; [done|]. intros E. apply Hn. rewrite <- E. by apply list_elem_of_fmap_2. }
  apply IH; [done|done| |by apply (mv_procs _ _ _ _ _ (R1 0))|].
  - intros o' Ho'. destruct (Hos o' ltac:(by right)) as (H1 & H2 & H3). rewrite (Hq o' Ho'). split_and!; [|done|].
    + rewrite R3; [done|]. intros E. apply Hn. rewrite <- E. by apply list_elem_of_fmap_2.
    + intros g. destruct (H3 g) as (a & b & c & E & Hb). exists a, b, c. split; [done|]. rewrite Hb. unfold members.
      rewrite (list_filter_iff (fun x => leader s1 x = g) (fun x => leader s x = g)); [done|]. intros x. by rewrite R2.
  - intros s2 ws2 Htab2 [A1 A2 A3 A4]. apply (HQ s2 (ws1 ++ ws2)); [done|]. constructor.
    + intros p. by eapply moved_both.
    + intros q. by rewrite A2, R2.
    + eapply queues_step; [done|done|done| |exact Hr|done]. intros o' Ho'. apply (Hos o' Ho').
    + intros g g' He. eapply edge_step; [done|done|done|done|exact Hr|by apply A4].
Qed.
End Apply.
