(* ===== verification/DeadDecide.v ===== *)
(** What a deadlock check decides ([DeadLockCheck], [CheckDeadLock],
    DeadLock.v).

    [check_result] is the contract of [DeadLockCheck]: a hard deadlock is a
    cycle of the waits-for graph, and after any other answer the process is in
    no cycle. *)
From S2P Require Import Prelude Lock LockInv LockWait DeadLock DeadSearch DeadSort DeadTwin DeadCheck DeadApply.
From stdpp Require Import list gmap.
#[local] Open Scope Z_scope.

Section Decide.
Context {lim : DeadLockLimits} {th : LockThread} (Hstream : stream_mode = false).

(** The arrays of the workspace. *)
Definition workspace_ok (d : Detector) : Prop :=
  zlen (deadlockDetails d) = MaxBackends /\ zlen (possibleConstraints d) = maxPossibleConstraints.

Lemma init_workspace : 0 <= MaxBackends -> workspace_ok InitDeadLockChecking.
Proof. intros H. unfold workspace_ok, InitDeadLockChecking, maxPossibleConstraints, zlen. cbn [deadlockDetails possibleConstraints]. rewrite !length_replicate. lia. Qed.

Definition no_deadlock (st : DeadLockState) : Prop := st <> DS_HARD_DEADLOCK /\ st <> DS_SOFT_DEADLOCK.

(** An edge that no order of a queue takes away. *)
Definition hard_edge (s : LockState) (g g' : Z) : Prop :=
  exists p tag m q, waits_at s p tag m /\ leader s p = g /\ hard_block s p tag m q /\ leader s q = g'.

Definition hard_cycle (s : LockState) (g : Z) : Prop := tc (hard_edge s) g g.

Lemma hard_cycle_cycle s os g : hard_cycle s g -> cycle s os g.
Proof.
  assert (He : forall x y, hard_edge s x y -> edge s os x y) by (intros x y (p & tag & m & q & ? & ? & ? & ?); exists p, tag, m, q; tauto).
  unfold hard_cycle, cycle. generalize g at 1 3. intros g0. induction 1 as [x y ?|x y z ? _ IH]; [by apply tc_once, He|by eapply tc_l; [apply He|]].
Qed.

Record check_result (s : LockState) (p : Z) (st : DeadLockState) (d' : Detector) (s' : LockState) : Prop := {
  cr_workspace : workspace_ok d';
  cr_table : table_ok s';
  (** a cycle, which is noted for the message; nothing has changed *)
  cr_hard : st = DS_HARD_DEADLOCK -> cycle s [] (leader s p) /\ noted s [] (leader s p) d' /\ same_table s s';
  (** there was a cycle, though not of hard edges; queues are rearranged, and it is gone *)
  cr_soft : st = DS_SOFT_DEADLOCK -> cycle s [] (leader s p) /\ ~ hard_cycle s (leader s p) /\ exists os ws, orders_ok s os /\ applied s s' os ws /\ ~ cycle s' [] (leader s' p);
  cr_none : no_deadlock st -> ~ cycle s [] (leader s p) /\ same_table s s';
  cr_autovacuum : st = DS_BLOCKED_BY_AUTOVACUUM -> exists q x, q ∈ blocking_autovacuum_proc d' /\ allProcs s !! q = Some x /\ Z.land (vacuumFlags x) PROC_IS_AUTOVACUUM <> 0;
  cr_redist : st = DS_BLOCKED_BY_REDISTRIBUTION -> exists q x, blocking_redistribution_proc s' = Some q /\ allProcs s !! q = Some x /\ Z.land (vacuumFlags x) PROC_IS_REDIST <> 0 }.

Lemma cycle_sub s s' os os' g : (forall x y, edge s' os' x y -> edge s os x y) -> cycle s' os' g -> cycle s os g.
Proof. intros Hsub. unfold cycle. generalize g at 1 3. intros g0. induction 1 as [x y He|x y z He _ IH]; [apply tc_once; auto|eapply tc_l; [apply Hsub, He|exact IH]]. Qed.

Lemma redist_table s o : table_ok s -> (forall q, o = Some q -> is_Some (allProcs s !! q)) -> table_ok (set_redist o s) /\ same_table s (set_redist o s).
Proof.
  intros [H1 H2 H3 H4] Ho. assert (Hr : redist_ok (set_redist o s)) by (intros q Hq; by apply Ho). split; [by constructor|by constructor].
Qed.

Lemma applied_redist s o s' os ws : applied (set_redist o s) s' os ws -> applied s s' os ws.
Proof. intros [A1 A2 A3 A4]. constructor; [|done..]. intros p. destruct (A1 p) as [M1 M2 M3 M4 M6 M5]. by constructor. Qed.

(** No queue has to be rearranged: is a worker in the way that may be cancelled? *)
Lemma no_order_spec p d s (Q : DeadLockState * Detector -> LockState -> Prop) : table_ok s -> workspace_ok d -> blockers_ok s d ->
  ~ cycle s [] (leader s p) ->
  (forall st s', check_result s p st d s' -> Q (st, d) s') ->
  lwp (if negb (bool_decide (blocking_autovacuum_proc d = [])) then mret (DS_BLOCKED_BY_AUTOVACUUM, d)
       else s ← get_state; match blocking_redistribution_proc s with
         | Some q => redist ← IsOtherProcRedistribution q;
             if redist : bool then mret (DS_BLOCKED_BY_REDISTRIBUTION, d) else modify (set_redist None);; mret (DS_NO_DEADLOCK, d)
         | None => mret (DS_NO_DEADLOCK, d)
         end) Q (set_redist (blocking_redist d) s).
Proof.
  intros Htab Hw Hbl Hnc HQ. destruct (redist_table s (blocking_redist d) Htab (bo_redist _ _ Hbl)) as [T1 T2]. set (s1 := set_redist (blocking_redist d) s) in *.
  case_bool_decide as Ha; cbn [negb].
  - apply lwp_bind, lwp_get_state. cbn [s1 set_redist blocking_redistribution_proc]. destruct (blocking_redist d) as [q|] eqn:Hq.
    + destruct (bo_redist _ _ Hbl q Hq) as [x Hx]. unfold IsOtherProcRedistribution. apply lwp_bind, lwp_bind. eapply lwp_get_proc; [done|]. apply lwp_ret.
      case_match eqn:Hf.
      * apply negb_true_iff, Z.eqb_neq in Hf. apply lwp_ret, HQ. constructor; try done. intros _. by exists q, x.
      * apply lwp_bind, lwp_modify, lwp_ret, HQ. destruct (redist_table s None Htab ltac:(done)) as [U1 U2]. by constructor.
    + apply lwp_ret, HQ. by constructor.
  - apply lwp_ret, HQ. constructor; try done. intros _. destruct (blocking_autovacuum_proc d) as [|q l] eqn:El; [done|].
    destruct (bo_autovacuum _ _ Hbl q) as (x & Hx & Hf); [rewrite El; by left|]. exists q, x. split_and!; [by left|done|done].
Qed.

Lemma DeadLockCheck_spec p d s (Q : DeadLockState * Detector -> LockState -> Prop) : table_ok s -> Z.of_nat (size (allProcs s)) <= MaxBackends ->
  is_Some (allProcs s !! p) -> is_Some (allProcs s !! my_proc) -> workspace_ok d ->
  (forall st d' s', check_result s p st d' s' -> Q (st, d') s') -> lwp (DeadLockCheck p d) Q s.
Proof.
  intros Htab Hsize Hp Hme [Hw1 Hw2] HQ. assert (Hmax : 0 <= MaxBackends) by lia. unfold DeadLockCheck. apply lwp_bind, lwp_get_state, lwp_bind.
  assert (Hok : check_ok s (start_check s d)) by (by constructor).
  pose proof (recurse_check s Htab Hsize (S (S (Z.to_nat MaxBackends))) p (start_check s d) Hp Hok) as Hrun.
  destruct (dwp_run _ _ _ (Hrun ltac:(unfold zlen; cbn; lia) ltac:(unfold zlen; cbn; lia))) as (b & d1 & E & [O1 O2 O3 O4] & Hcyc & Hb).
  assert (Hbl : blockers_ok s d1).
  { pose proof (notes_check s (S (S (Z.to_nat MaxBackends))) p (start_check s d)) as Hn. rewrite E in Hn. apply Hn. constructor; cbn.
    - by intros q ?%not_elem_of_nil.
    - split; [constructor|]. unfold max_blocking_autovacuum_proc_num. change (zlen (@nil Z)) with 0. lia.
    - apply (tb_redist s Htab). }
  eapply lwp_lift; [exact E|]. destruct b.
  - assert (Hc : cycle s [] (leader s p)) by (apply Hcyc; auto).
    apply lwp_bind. assert (Hno : orders_ok s []) by done.
    destruct (dwp_run _ _ _ (find_cycle_spec s Htab Hsize p (set_orders [] d1) Hno Hp O2)) as (b & d2 & E2 & Hord & Hlen & Hres).
    pose proof (notes_cycle s p (set_orders [] d1)) as Hn. rewrite E2 in Hn. specialize (Hn ltac:(destruct Hbl; by constructor)).
    pose proof (cycle_kept s Htab p _ _ _ E2) as [_ _ _ K4 _]. eapply lwp_lift; [exact E2|]. apply lwp_bind, lwp_modify.
    destruct (redist_table s (blocking_redist d2) Htab (bo_redist _ _ Hn)) as [T1 T2].
    destruct b; [|done]. apply lwp_ret, HQ. constructor; try done; [by split; [|rewrite K4]|by intros []].
  - destruct Hb as (Ho & Hnc & _). apply lwp_bind, lwp_modify. destruct (redist_table s (blocking_redist d1) Htab (bo_redist _ _ Hbl)) as [T1 T2].
    set (s1 := set_redist (blocking_redist d1) s) in *. apply lwp_bind. destruct (decide (waitOrders d1 = [])) as [Enil|Hne].
    + rewrite Enil in Hnc |- *. apply lwp_ret. rewrite bool_decide_true by done. cbn [negb].
      apply (no_order_spec p d1 s); try done. intros st s' H. by apply HQ.
    + apply (rearrange_spec Hstream (waitOrders d1) s1); [done|apply Ho| |done|].
      { intros o Hin. split_and!; [by apply (oi_locks _ _ _ Ho)|by apply (oi_perm _ _ _ Ho)|by apply (oi_grouped _ _ _ Ho)]. }
      intros s2 ws Htab2 Hap%applied_redist. rewrite bool_decide_false by done. apply lwp_ret, HQ.
      constructor; try done; [|by intros []]. intros _. split; [apply Hcyc; [by right|done|done]|]. split; [by intros H%(hard_cycle_cycle _ (waitOrders d1))|]. exists (waitOrders d1), ws. split; [by eapply orders_inv_ok|]. split; [done|].
      rewrite (ap_leader _ _ _ _ Hap). intros Hc. apply Hnc. by apply (cycle_sub s s2 (waitOrders d1) [] (leader s p) (ap_edges _ _ _ _ Hap)).
Qed.

(** ** The message *)

(** What a line says is so: the process waits for the lock, and a process of the
    group of the next one is in its way. *)
Definition line_true (s : LockState) (orders : list WAIT_ORDER) (line : ReportLine) : Prop :=
  exists p q next, waits_at s p (line_tag line) (line_mode line) /\ line_pid line = pid_of s p /\ line_next line = pid_of s next
    /\ leader s next = leader s q
    /\ (hard_block s p (line_tag line) (line_mode line) q \/ soft_block s orders p (line_tag line) (line_mode line) q).

Lemma trail_infos s orders start g tr : trail s orders start g tr ->
  (forall info infos, fst <$> tr = info :: infos -> exists p, info_pid info = pid_of s p /\ leader s p = g)
  /\ forall k info, (fst <$> tr) !! k = Some info -> exists p q, waits_at s p (locktag info) (lockmode info) /\ info_pid info = pid_of s p
    /\ (hard_block s p (locktag info) (lockmode info) q \/ soft_block s orders p (locktag info) (lockmode info) q)
    /\ match (fst <$> tr) !! S k with
       | Some info' => exists p', info_pid info' = pid_of s p' /\ leader s p' = leader s q
       | None => leader s q = start
       end.
Proof.
  assert (Hcons : forall p tag m q o rest, waits_at s p tag m -> hard_block s p tag m q \/ soft_block s orders p tag m q ->
    trail s orders start (leader s q) rest -> forall tr, tr = (MkInfo tag m (pid_of s p), o) :: rest ->
    (forall info infos, fst <$> rest = info :: infos -> exists p', info_pid info = pid_of s p' /\ leader s p' = leader s q) ->
    exists p' q', waits_at s p' tag m /\ pid_of s p = pid_of s p' /\ (hard_block s p' tag m q' \/ soft_block s orders p' tag m q')
      /\ match (fst <$> tr) !! 1%nat with Some info' => exists p'', info_pid info' = pid_of s p'' /\ leader s p'' = leader s q' | None => leader s q' = start end).
  { intros p tag m q o rest Hw Hb Ht tr' -> Hhd. exists p, q. split_and!; [done..|]. cbn. destruct (fst <$> rest) as [|i infos] eqn:E; [|by apply (Hhd i infos)].
    apply fmap_nil_inv in E as ->. by inversion Ht. }
  induction 1 as [|p tag m q rest Hw Hb Ht [IH1 IH2]|p tag m q rest Hw Hb Ht [IH1 IH2]]; [by split; [|intros k info]|..].
  all: split; [intros info infos [= <- _]; by exists p|intros [|k] info; [intros [= <-]; eapply (Hcons p tag m q); [done|tauto|done|done|done]|apply IH2]].
Qed.

Lemma report_lines_spec s orders d tr rest : (exists g, trail s orders g g tr) -> deadlockDetails d = (fst <$> tr) ++ rest -> nDeadlockDetails d = zlen tr ->
  forall n i, (i + n = length tr)%nat -> exists lines, report_lines d n (Z.of_nat i) = Done lines /\ length lines = n /\ Forall (line_true s orders) lines.
Proof.
  intros (g & Htr) Hd Hn. destruct (trail_infos _ _ _ _ _ Htr) as [Hhd Hall]. set (infos := fst <$> tr) in *.
  assert (Hlen : length infos = length tr) by apply length_fmap.
  assert (Hat : forall k info, infos !! k = Some info -> zlookup (deadlockDetails d) (Z.of_nat k) = Some info).
  { intros k info Hk. rewrite zlookup_nat, Hd. by apply lookup_app_l_Some. }
  induction n as [|n IH]; intros i Hi; [by exists []|]. cbn [report_lines].
  destruct (lookup_lt_is_Some_2 infos i) as [info Hinfo]; [lia|]. destruct (Hall i info Hinfo) as (p & q & Hw & Hp & Hb & Hnext).
  assert (Hline : exists next, report_line d (Z.of_nat i) = Done (MkLine (info_pid info) (lockmode info) (locktag info) (pid_of s next)) /\ leader s next = leader s q).
  { unfold report_line. rewrite (Hat i info Hinfo), Hn. runs. destruct (infos !! S i) as [info'|] eqn:Hs.
    - destruct Hnext as (p' & E & Hl). exists p'. apply lookup_lt_Some in Hs as Hlt. rewrite (proj2 (Z.ltb_lt _ _)) by (unfold zlen; lia).
      replace (Z.of_nat i + 1) with (Z.of_nat (S i)) by lia. rewrite (Hat _ _ Hs). runs. by rewrite E.
    - apply lookup_ge_None in Hs. rewrite (proj2 (Z.ltb_ge _ _)) by (unfold zlen; lia). destruct infos as [|info0 infos']; [done|].
      destruct (Hhd info0 infos' eq_refl) as (p' & E & Hl). exists p'. pose proof (Hat 0%nat info0 eq_refl) as H0. change (Z.of_nat 0) with 0 in H0. rewrite H0. runs. rewrite E. by split; [|rewrite Hl, Hnext]. }
  destruct Hline as (next & E & Hl). rewrite E. runs. replace (Z.of_nat i + 1) with (Z.of_nat (S i)) by lia.
  destruct (IH (S i) ltac:(lia)) as (lines & -> & Hlines & Hf). runs. eexists. split; [done|]. split; [cbn; lia|]. constructor; [|done]. by exists p, q, next.
Qed.

Lemma report_spec s orders g d : noted s orders g d -> exists lines, DeadLockReport d = Done lines /\ lines <> [] /\ Forall (line_true s orders) lines.
Proof.
  intros (tr & rest & Hne & Htr & Hd & Hn & _). unfold DeadLockReport.
  destruct (report_lines_spec s orders d tr rest (ex_intro _ g Htr) Hd Hn (Z.to_nat (nDeadlockDetails d)) 0) as (lines & E & Hl & Hf);
    [rewrite Hn; unfold zlen; lia|]. exists lines. split; [done|]. split; [|done]. intros ->. rewrite Hn in Hl. unfold zlen in Hl. destruct tr; [done|cbn in Hl; lia].
Qed.

Lemma remember_simple_spec s p1 m tag p2 x1 x2 tag2 d : allProcs s !! p1 = Some x1 -> allProcs s !! p2 = Some x2 -> waitLock x2 = Some tag2 ->
  zlen (deadlockDetails d) = MaxBackends -> 2 <= MaxBackends ->
  dwp (RememberSimpleDeadLock s p1 m tag p2) (fun _ d' => DeadLockReport d' = Done
    [MkLine (pid x1) m tag (pid x2); MkLine (pid x2) (waitLockMode x2) tag2 (pid x1)]) d.
Proof.
  intros H1 H2 Hw Hlen Hmax. unfold RememberSimpleDeadLock, the_proc. apply dwp_bind. eapply dwp_lift; [by rewrite H1|].
  destruct (deadlockDetails d) as [|i1 [|i2 l]] eqn:E; unfold zlen in Hlen; cbn in Hlen; [lia|lia|].
  assert (H01 : forall x y : DEADLOCK_INFO, zupdate (i1 :: i2 :: l) 0 x = Some (x :: i2 :: l) /\ zupdate (x :: i2 :: l) 1 y = Some (x :: y :: l)).
  { intros x y. by rewrite !zupdate_in by (unfold zlen; cbn; lia). }
  apply dwp_bind, dwp_get, dwp_bind. rewrite E. eapply dwp_lift; [by rewrite (proj1 (H01 _ (MkInfo tag m 0)))|].
  apply dwp_bind. eapply dwp_lift; [by rewrite H2|]. apply dwp_bind. eapply dwp_lift; [by rewrite Hw|]. apply dwp_bind.
  eapply dwp_lift; [by rewrite (proj2 (H01 _ _))|]. by apply dwp_put.
Qed.

(** ** CheckDeadLock *)

Definition wake_me (s : LockState) : LockState := set_sems (unlocked_sems s ++ [my_proc]) s.

Lemma wake_me_ok s : table_ok s -> table_ok (wake_me s).
Proof. intros [H1 H2 H3 H4]. by constructor. Qed.

Lemma left_queue_same s s1 s2 p ws : same_table s s1 -> left_queue s1 s2 p ws -> left_queue s s2 p ws.
Proof.
  intros [E1 E2 E3 _] [H1 H2 H3 H4 H5 H6 H7]. constructor.
  - by rewrite H1, E3.
  - intros tag q m. rewrite H2. unfold holds_at, waits_at. by rewrite E1, E2.
  - intros q tag m. rewrite H3. unfold waits_at. by rewrite E1.
  - intros w Hw. destruct (H4 w Hw) as [Hne (tag & m & Hwt)]. split; [done|]. exists tag, m. unfold waits_at in *. by rewrite <- E1.
  - intros q Hq. apply H5. by rewrite E1.
  - done.
  - done.
Qed.

(** [None]: the process has been served before.  A hard deadlock: it leaves the
    queue without the lock.  Otherwise it goes on waiting, in no cycle. *)
Definition signal_post (s : LockState) (r : option DeadLockState) (d' : Detector) (s' : LockState) : Prop :=
  match r with
  | None => (forall tag m, ~ waits_at s my_proc tag m) /\ s' = s
  | Some DS_HARD_DEADLOCK => cycle s [] (leader s my_proc) /\ noted s [] (leader s my_proc) d'
      /\ exists ws s2, left_queue s s2 my_proc ws /\ s' = wake_me s2
  | Some st => (exists tag m, waits_at s my_proc tag m) /\ exists s2, check_result s my_proc st d' s2 /\ (s' = s2 \/ s' = wake_me s2)
  end.

Lemma CheckDeadLock_spec log timeout d s me : table_ok s -> Z.of_nat (size (allProcs s)) <= MaxBackends -> allProcs s !! my_proc = Some me ->
  workspace_ok d ->
  lwp (CheckDeadLock log timeout d) (fun '(r, d') s' => table_ok s' /\ workspace_ok d' /\ signal_post s r d' s') s.
Proof.
  intros Htab Hsize Hme Hw. unfold CheckDeadLock. apply lwp_bind. eapply lwp_get_proc; [done|].
  pose proof (tb_waits _ Htab my_proc me Hme) as Hwm. destruct (linked me) eqn:Hlk; cbn [negb].
  2: { apply lwp_ret. split_and!; [done|done|split; [|done]]. intros tag m Hwt. destruct (waits_queue s Htab my_proc tag m Hwt) as (l & Hl & Hin & _).
       destruct (sh_waiting _ _ _ _ (lk_shape _ _ _ _ _ (lg_ok _ _ _ (tb_locks s Htab tag l Hl))) my_proc Hin) as (x & [Hx _ Hxl _ _ _ _]). congruence. }
  destruct (waitLock me) as [tag|] eqn:Hwl; [|destruct Hwm; congruence]. destruct Hwm as (l & Hl & Hin).
  assert (Hwaits : waits_at s my_proc tag (waitLockMode me)) by (by exists me).
  apply lwp_bind. apply DeadLockCheck_spec; [done|done|by exists me|by exists me|done|]. intros st d' s1 Hr. apply lwp_bind.
  destruct (decide (st = DS_HARD_DEADLOCK)) as [->|Hne].
  - destruct (cr_hard _ _ _ _ _ Hr eq_refl) as (Hc & Hn & Hss). pose proof Hss as [E1 E2 E3 _]. apply lwp_bind.
    destruct (table_here s1 tag l (cr_table _ _ _ _ _ Hr) ltac:(by rewrite E2)) as [Hh Hg].
    eapply (remove_spec Hstream tag my_proc me s1 l); [done|apply (lg_tag _ _ _ Hg)| |done|by rewrite E1|exists me; by rewrite E1|].
    { intros x Hx. destruct (lg_needed _ _ _ Hg x Hx) as [?|[?|[]%elem_of_nil]]; auto. }
    intros s2 ws Htab2 Hlq. apply lwp_modify, lwp_ret. split_and!; [by apply wake_me_ok|apply (cr_workspace _ _ _ _ _ Hr)|]. split; [done|]. split; [done|].
    exists ws, s2. split; [by eapply left_queue_same|done].
  - assert (Hpost : forall s', s' = s1 \/ s' = wake_me s1 -> lwp (mret (Some st, d')) (fun '(r, d') s' => table_ok s' /\ workspace_ok d' /\ signal_post s r d' s') s').
    { intros s' Hs'. apply lwp_ret. split_and!; [destruct Hs' as [->| ->]; [|apply wake_me_ok]; apply Hr|apply Hr|].
      assert (Hp : (exists tag m, waits_at s my_proc tag m) /\ exists s2, check_result s my_proc st d' s2 /\ (s' = s2 \/ s' = wake_me s2)); [|by destruct st].
      split; [by exists tag, (waitLockMode me)|by exists s1]. }
    repeat case_match; [apply lwp_modify, Hpost; by right|apply lwp_modify, Hpost; by right|apply lwp_ret, Hpost; by left].
Qed.
End Decide.
