(* ===== verification/LockSpec.v ===== *)
(** The lock manager (Lock.v) as a system of processes: [lock_step] is one
    operation of one process under the lock of its partition.

    All reachable tables satisfy [table_ok] (LockInv.v), so locks of different
    lock groups never conflict and nobody waits without a reason; and on every
    reachable table each operation runs to its end and does what its result
    says. *)
From S2P Require Import Prelude Lock LockInv LockWait LockAcquire DeadLock DeadDecide.
From stdpp Require Import list gmap.
#[local] Open Scope Z_scope.

(** ** Processes that change *)

Record same_wait (x y : PGPROC) : Prop := {
  sw_lock : waitLock y = waitLock x;
  sw_linked : linked y = linked x;
  sw_mode : waitLockMode y = waitLockMode x;
  sw_status : waitStatus y = waitStatus x;
  sw_held : heldLocks y = heldLocks x }.

(** The processes [ps'] instead of [ps]: those with a PROCLOCK keep their group,
    those in the queue what they wait for. *)
Lemma lock_good_map ps ps' tag l : lock_good ps tag l ->
  (forall q x, ps !! q = Some x -> (q ∈ myProc <$> procLocks l) ->
     exists y, ps' !! q = Some y /\ leader_of q y = leader_of q x /\ (q ∈ waitProcs l -> same_wait x y)) ->
  lock_good ps' tag l.
Proof.
  intros [Hok Hneed Hblock Hused Htag] Hmap. pose proof Hok as [Hsh Hs Hg Hr Ht Hrest Hgm [Hw0 Hw] Hex].
  assert (Hqueue : forall w, w ∈ waitProcs l -> exists x y, waiting ps tag (procLocks l) w x /\ ps' !! w = Some y
    /\ leader_of w y = leader_of w x /\ same_wait x y).
  { intros w Hwq. destruct (sh_waiting _ _ _ _ Hsh w Hwq) as (x & Hwt). pose proof Hwt as [Hwx _ _ _ _ (pl & Hpl & Hpw & _) _].
    destruct (Hmap w x Hwx) as (y & Hy & Hlead & Hsame); [apply list_elem_of_fmap; by exists pl|]. exists x, y. split_and!; try done. by apply Hsame. }
  assert (Hmode : forall w, w ∈ waitProcs l -> waitmode ps' w = waitmode ps w).
  { intros w Hwq. destruct (Hqueue w Hwq) as (x & y & [Hx _ _ _ _ _ _] & Hy & _ & [_ _ Hm _ _]).
    by rewrite (waitmode_lookup _ _ _ Hx), (waitmode_lookup _ _ _ Hy). }
  assert (Hcount : forall m, waiters ps' (waitProcs l) m = waiters ps (waitProcs l) m) by (intros m; by apply waiters_eq).
  constructor; [constructor; try done| | | |]; try done.
  - destruct Hsh as [H1 H2 H3 H4 H5]. constructor; try done.
    + intros pl Hpl. destruct (H3 pl Hpl) as (x & Hx & E). destruct (Hmap _ x Hx) as (y & Hy & Hlead & _); [by apply list_elem_of_fmap_2|].
      exists y. split; [done|]. by rewrite Hlead.
    + intros w Hwq. destruct (Hqueue w Hwq) as (x & y & [K1 K2 K3 K4 K5 K6 K7] & Hy & _ & [S1 S2 S3 S4 S5]). exists y. by constructor; rewrite ?S1, ?S2, ?S3, ?S4, ?S5.
  - intros m Hm. by rewrite Hcount, Hr.
  - split; [done|]. intros m. rewrite Hcount. apply Hw.
  - intros a w b E. assert (Hin : forall v, v ∈ a \/ v = w -> v ∈ waitProcs l) by (intros v Hv; rewrite E, elem_of_app, elem_of_cons; tauto).
    destruct (Hqueue w) as (x & y & [Hx _ _ _ _ _ _] & Hy & Hlead & [_ _ Hm _ _]); [apply Hin; by right|].
    destruct (Hblock a w b E) as (x' & Hx' & Hb). assert (x' = x) as -> by congruence. exists y. rewrite Hm, Hlead.
    split; [done|]. destruct Hb as [(v & Hv & Hc)|Hh]; [left|by right]. exists v. rewrite Hmode by (apply Hin; by left). done.
Qed.

(** The processes of the table are replaced. *)
Lemma table_map s ps' : table_ok s -> groups_ok ps' ->
  (forall q x, allProcs s !! q = Some x -> exists y, ps' !! q = Some y /\ same_wait x y
     /\ (leader_of q y = leader_of q x \/ forall tag l, LockMethodLockHash s !! tag = Some l -> q ∉ myProc <$> procLocks l)) ->
  (forall q y, ps' !! q = Some y -> (exists x, allProcs s !! q = Some x /\ same_wait x y)
     \/ (waitLock y = None /\ linked y = false /\ waitStatus y <> STATUS_WAITING)) ->
  table_ok (set_procs ps' s).
Proof.
  intros [Hg Hl Hw Hr] Hg' Hto Hfrom. constructor; cbn; [done| | |].
  - intros tag l Htag. apply (lock_good_map (allProcs s)); [by apply Hl|]. intros q x Hx Hin.
    destruct (Hto q x Hx) as (y & Hy & Hsame & [Hlead|Hno]); [by exists y|]. by destruct (Hno tag l Htag).
  - intros q y Hy. destruct (Hfrom q y Hy) as [(x & Hx & [S1 S2 S3 S4 S5])|(-> & ?)]; [|done]. rewrite S1, S2, S4. by apply (Hw q x).
  - intros q Hq. destruct (Hr q Hq) as (x & Hx). destruct (Hto q x Hx) as (y & Hy & _). by exists y.
Qed.

(** ** Steps *)

(** The thread runs: its process is there and does not wait. *)
Record runs_in (th : LockThread) (s : LockState) : Prop := {
  ri_stream : stream_mode = false;
  ri_proc : is_Some (allProcs s !! my_proc);
  ri_nowait : forall tag m, ~ waits_at s my_proc tag m }.

Definition idle (p : PGPROC) : Prop :=
  waitLock p = None /\ linked p = false /\ waitStatus p <> STATUS_WAITING /\ lockGroupLeader p = None
  /\ lockGroupMembers p = [].

Inductive lock_step : LockState -> LockState -> Prop :=
  | step_acquire (th : LockThread) tag m dontWait reportMemoryError rl rp r s s' : runs_in th s -> valid_tag tag -> mode_ok m ->
      LockAcquireShared tag m dontWait reportMemoryError rl rp s = Done (r, s') -> lock_step s s'
  | step_release (th : LockThread) tag m p b s s' : runs_in th s -> valid_tag tag -> mode_ok m -> (forall tag m, ~ waits_at s p tag m) ->
      LockReleaseShared tag m p s = Done (b, s') -> lock_step s s'
  | step_release_all (th : LockThread) lockmethodid allLocks p marked s s' : runs_in th s -> (forall tag m, ~ waits_at s p tag m) ->
      lockmethodid = DEFAULT_LOCKMETHOD \/ lockmethodid = USER_LOCKMETHOD ->
      NoDup (fst <$> marked) -> (forall x, x ∈ marked -> mark_ok s p lockmethodid allLocks x) ->
      LockReleaseAllShared lockmethodid allLocks p marked s = Done (tt, s') -> lock_step s s'
  | step_cleanup (th : LockThread) b s s' : stream_mode = false -> is_Some (allProcs s !! my_proc) -> LockErrorCleanupShared s = Done (b, s') -> lock_step s s'
  | step_start p proc s : allProcs s !! p = None -> idle proc -> lock_step s (set_procs (<[p := proc]> (allProcs s)) s)
  | step_leader (th : LockThread) s s' : runs_in th s -> (forall me, allProcs s !! my_proc = Some me -> lockGroupLeader me = None \/ lockGroupLeader me = Some my_proc) ->
      BecomeLockGroupLeader s = Done (tt, s') -> lock_step s s'
  | step_member (th : LockThread) g leader s s' : runs_in th s -> (forall me, allProcs s !! my_proc = Some me -> lockGroupLeader me = None) ->
      (forall tag m, ~ holds_at s tag my_proc m) -> g <> my_proc -> allProcs s !! g = Some leader -> lockGroupLeader leader = Some g ->
      BecomeLockGroupMember g s = Done (tt, s') -> lock_step s s'
  (** [deadlock_timeout] is over: the own process is in the queue, or has been served just now *)
  | step_check (th : LockThread) (lim : DeadLockLimits) log_lock_waits LockWaitTimeout d r d' s s' : stream_mode = false ->
      is_Some (allProcs s !! my_proc) -> Z.of_nat (size (allProcs s)) <= MaxBackends -> workspace_ok d ->
      CheckDeadLock log_lock_waits LockWaitTimeout d s = Done ((r, d'), s') -> lock_step s s'
  (** another thread takes over, with what it remembers itself *)
  | step_thread o b sems s : (forall q, o = Some q -> is_Some (allProcs s !! q)) ->
      lock_step s (MkState (allProcs s) (LockMethodLockHash s) o b sems).

Definition empty_table : LockState := MkState ∅ ∅ None false [].
Inductive lock_reachable : LockState -> Prop :=
  | reach_init : lock_reachable empty_table
  | reach_step s s' : lock_reachable s -> lock_step s s' -> lock_reachable s'.

(** ** The operations on a good table *)

Lemma cleanup_spec {th : LockThread} s me : stream_mode = false -> table_ok s -> allProcs s !! my_proc = Some me ->
  lwp LockErrorCleanupShared (fun b s' => table_ok s' /\
    ((exists tag m, waits_at s my_proc tag m) /\ b = false /\ (exists ws, left_queue s s' my_proc ws)
     \/ (forall tag m, ~ waits_at s my_proc tag m) /\ b = bool_decide (waitStatus me = STATUS_OK) /\ s' = s)) s.
Proof.
  intros Hstream Htab Hme. unfold LockErrorCleanupShared. apply lwp_bind. eapply lwp_get_proc; [done|].
  pose proof (tb_waits _ Htab my_proc me Hme) as Hw. destruct (waitLock me) as [tag|] eqn:Hwl.
  - destruct Hw as (l & Hl & Hin). destruct (table_here s tag l Htab Hl) as [Hh Hg].
    destruct (sh_waiting _ _ _ _ (lk_shape _ _ _ _ _ (hr_ok _ _ _ _ _ Hh)) my_proc Hin) as (x & [Hx _ Hlinked _ _ _ _]).
    assert (x = me) as -> by congruence. rewrite Hlinked. apply lwp_bind.
    eapply (remove_spec Hstream tag my_proc me s l); [done|apply (lg_tag _ _ _ Hg)|apply needed_weaken, (lg_needed _ _ _ Hg)|done|done|by exists me|].
    intros s' ws Htab' Hlq. apply lwp_ret. split; [done|]. left. split_and!; [exists tag, (waitLockMode me); by exists me|done|by exists ws].
  - destruct Hw as [-> _]. apply lwp_ret. split; [done|]. right. split_and!; [|done|done].
    intros tag m (x & Hx & Hxl & _). congruence.
Qed.

Lemma release_all_spec {th : LockThread} lockmethodid allLocks p marked s : stream_mode = false -> table_ok s -> is_Some (allProcs s !! my_proc) ->
  (forall tag m, ~ waits_at s p tag m) -> lockmethodid = DEFAULT_LOCKMETHOD \/ lockmethodid = USER_LOCKMETHOD ->
  NoDup (fst <$> marked) -> (forall x, x ∈ marked -> mark_ok s p lockmethodid allLocks x) ->
  lwp (LockReleaseAllShared lockmethodid allLocks p marked) (fun _ s' => table_ok s' /\
    exists ws, moved s s' p (marks lockmethodid allLocks marked) ws) s.
Proof.
  intros Hstream Htab Hme Hnowait Hid Hnd Hok. unfold LockReleaseAllShared.
  assert (Hm : exists t, zlookup LockMethods lockmethodid = Some (Some t) /\ method_ok t).
  { destruct Hid as [->| ->]; [by exists default_lockmethod|by exists user_lockmethod]. }
  destruct Hm as (t & Et & Ht). apply lwp_bind. eapply lwp_lift; [by rewrite Et|]. apply lwp_bind. eapply lwp_lift; [done|].
  apply (release_scan_spec Hstream t lockmethodid allLocks p Ht Hid); try done. intros s' ws Htab' Hmv _. split; [done|by exists ws].
Qed.

Lemma leader_step {th : LockThread} s me : table_ok s -> allProcs s !! my_proc = Some me ->
  lockGroupLeader me = None \/ lockGroupLeader me = Some my_proc -> lwp BecomeLockGroupLeader (fun _ s' => table_ok s') s.
Proof.
  intros Htab Hme Hlead. unfold BecomeLockGroupLeader. apply lwp_bind. eapply lwp_get_proc; [done|]. case_bool_decide as E; [by apply lwp_ret|].
  destruct Hlead as [Hnone|?]; [|done]. apply lwp_modify. set (me' := set_group _ _ _).
  assert (Hlk : forall q x, <[my_proc := me']> (allProcs s) !! q = Some x -> (q = my_proc /\ x = me') \/ (q <> my_proc /\ allProcs s !! q = Some x)).
  { intros q x. destruct (decide (my_proc = q)) as [<-|Hne]; [rewrite lookup_insert_eq; intros [= <-]; by left|].
    rewrite lookup_insert_ne by done. intros ?; right; split; [congruence|done]. }
  apply table_map; [done| | |].
  - destruct (tb_groups _ Htab) as [Hgl Hgm]. constructor.
    + intros q x g Hq Hxg. apply Hlk in Hq as [[-> ->]|[Hne Hq]].
      * injection Hxg as <-. exists me'. rewrite lookup_insert_eq. split_and!; [done|done|by left].
      * destruct (Hgl q x g Hq Hxg) as (y & Hy & Hyg & Hin). exists y. rewrite lookup_insert_ne; [done|]. congruence.
    + intros q x y Hq Hin. apply Hlk in Hq as [[-> ->]|[Hne Hq]].
      * split; [done|]. cbn in Hin. apply elem_of_cons in Hin as [->|Hin]; [exists me'; by rewrite lookup_insert_eq|].
        by destruct (Hgm my_proc me y Hme Hin) as [? _]; congruence.
      * destruct (Hgm q x y Hq Hin) as [Hxq (z & Hz & Hzq)]. split; [done|]. exists z. rewrite lookup_insert_ne; [done|]. congruence.
  - intros q x Hq. destruct (decide (my_proc = q)) as [<-|Hne].
    + exists me'. rewrite lookup_insert_eq. assert (x = me) as -> by congruence. split; [done|]. split; [by constructor|]. left.
      unfold leader_of, me'. cbn. by rewrite Hnone.
    + exists x. rewrite lookup_insert_ne by done. split; [done|]. split; [by constructor|by left].
  - intros q y [[-> ->]|[Hne Hq]]%Hlk; left; [exists me; split; [done|by constructor]|exists y; split; [done|by constructor]].
Qed.

Lemma no_proclock s p tag l : table_ok s -> (forall tag m, ~ waits_at s p tag m) -> (forall tag m, ~ holds_at s tag p m) ->
  LockMethodLockHash s !! tag = Some l -> p ∉ myProc <$> procLocks l.
Proof.
  intros Htab Hnowait Hno Hl (pl & -> & Hpl)%list_elem_of_fmap.
  destruct (proclock_holds s tag l pl Htab Hl Hpl Hnowait) as (m & Hm). by apply (Hno tag m).
Qed.

Lemma member_step {th : LockThread} s g me leader : table_ok s -> allProcs s !! my_proc = Some me -> lockGroupLeader me = None ->
  (forall tag m, ~ waits_at s my_proc tag m) -> (forall tag m, ~ holds_at s tag my_proc m) -> g <> my_proc ->
  allProcs s !! g = Some leader -> lockGroupLeader leader = Some g -> lwp (BecomeLockGroupMember g) (fun _ s' => table_ok s') s.
Proof.
  intros Htab Hme Hnone Hnowait Hno Hg Hleader Hlead. unfold BecomeLockGroupMember. apply lwp_bind. eapply lwp_get_proc; [done|].
  apply lwp_bind, lwp_modify. set (me' := set_group _ _ me). apply lwp_bind. eapply lwp_get_proc; [cbn; by rewrite lookup_insert_ne|].
  apply lwp_modify. set (leader' := set_group _ _ leader).
  change (table_ok (set_procs (<[g := leader']> (<[my_proc := me']> (allProcs s))) s)). set (ps' := <[g := leader']> _).
  assert (Hlk : forall q, ps' !! q = if decide (q = g) then Some leader' else if decide (q = my_proc) then Some me' else allProcs s !! q).
  { intros q. unfold ps'. case_decide as E1; [subst q; apply lookup_insert_eq|]. rewrite lookup_insert_ne by done.
    case_decide as E2; [rewrite E2; apply lookup_insert_eq|by rewrite lookup_insert_ne]. }
  assert (Hcase : forall q x, ps' !! q = Some x -> (q = g /\ x = leader') \/ (q = my_proc /\ x = me') \/ allProcs s !! q = Some x).
  { intros q x. rewrite Hlk. case_decide; [intros [= <-]; by left|]. case_decide; [intros [= <-]; by right; left|by right; right]. }
  assert (Hto : forall q x, allProcs s !! q = Some x -> exists y, ps' !! q = Some y /\ same_wait x y
    /\ (q = my_proc \/ lockGroupLeader y = lockGroupLeader x)).
  { intros q x Hq. rewrite Hlk. case_decide as E1; [|case_decide as E2].
    - exists leader'. assert (x = leader) as -> by congruence. split; [done|]. split; [by constructor|by right].
    - exists me'. assert (x = me) as -> by congruence. split; [done|]. split; [by constructor|by left].
    - exists x. split; [done|]. split; [by constructor|by right]. }
  apply table_map; [done| | |].
  - destruct (tb_groups _ Htab) as [Hgl Hgm]. constructor.
    + assert (Hkeep : forall g' y x, allProcs s !! g' = Some y -> lockGroupLeader y = Some g' -> x ∈ lockGroupMembers y ->
        exists z, ps' !! g' = Some z /\ lockGroupLeader z = Some g' /\ x ∈ lockGroupMembers z).
      { intros g' y x Hy Hyg Hin. rewrite Hlk. case_decide as E1; [|case_decide as E2; [congruence|by exists y]].
        exists leader'. rewrite E1 in *. assert (y = leader) as -> by congruence. split_and!; [done|done|]. cbn. rewrite elem_of_app. by left. }
      intros q x g' Hq Hxg. destruct (Hcase q x Hq) as [[-> ->]|[[-> ->]|Hx]].
      * destruct (Hgl g leader g' Hleader Hxg) as (y & Hy & Hyg & Hin). by apply (Hkeep g' y).
      * injection Hxg as <-. exists leader'. rewrite Hlk, decide_True by done. split_and!; [done|done|]. cbn.
        rewrite elem_of_app. right. by apply list_elem_of_singleton.
      * destruct (Hgl q x g' Hx Hxg) as (y & Hy & Hyg & Hin). by apply (Hkeep g' y).
    + assert (Hmem : forall q y, (exists z, allProcs s !! y = Some z /\ lockGroupLeader z = Some q) -> exists z, ps' !! y = Some z /\ lockGroupLeader z = Some q).
      { intros q y (z & Hz & Hzq). destruct (Hto y z Hz) as (z' & Hz' & _ & [->|E]); [congruence|]. exists z'. split; congruence. }
      intros q x y Hq Hin. destruct (Hcase q x Hq) as [[-> ->]|[[-> ->]|Hx]].
      * split; [done|]. cbn in Hin. apply elem_of_app in Hin as [Hin| ->%list_elem_of_singleton].
        -- apply Hmem. by apply (Hgm g leader y Hleader Hin).
        -- exists me'. rewrite Hlk, decide_False by done. by rewrite decide_True.
      * cbn in Hin. destruct (Hgm my_proc me y Hme Hin) as [? _]. congruence.
      * destruct (Hgm q x y Hx Hin) as [Hxq Hz]. split; [done|by apply Hmem].
  - intros q x Hq. destruct (Hto q x Hq) as (y & Hy & Hsame & Hl). exists y. split; [done|]. split; [done|].
    destruct Hl as [->|E]; [right|left; unfold leader_of; by rewrite E]. intros tag l Hl. by eapply no_proclock.
  - intros q y Hq. left. destruct (Hcase q y Hq) as [[-> ->]|[[-> ->]|Hx]].
    + exists leader. split; [done|by constructor].
    + exists me. split; [done|by constructor].
    + exists y. split; [done|by constructor].
Qed.

Lemma start_step s p proc : table_ok s -> allProcs s !! p = None -> idle proc -> table_ok (set_procs (<[p := proc]> (allProcs s)) s).
Proof.
  intros Htab Hp (Hwl & Hlinked & Hst & Hlead & Hmem). apply table_map; [done| | |].
  - destruct (tb_groups _ Htab) as [Hgl Hgm]. constructor.
    + intros q x g Hq Hxg. destruct (decide (p = q)) as [<-|Hne]; [rewrite lookup_insert_eq in Hq; injection Hq as <-; congruence|].
      rewrite lookup_insert_ne in Hq by done. destruct (Hgl q x g Hq Hxg) as (y & Hy & Hyg). exists y.
      rewrite lookup_insert_ne; [done|]. congruence.
    + intros q x y Hq Hin. destruct (decide (p = q)) as [<-|Hne].
      * rewrite lookup_insert_eq in Hq. injection Hq as <-. rewrite Hmem in Hin. by apply elem_of_nil in Hin.
      * rewrite lookup_insert_ne in Hq by done. destruct (Hgm q x y Hq Hin) as [Hxq (z & Hz & Hzq)]. split; [done|].
        exists z. rewrite lookup_insert_ne; [done|]. congruence.
  - intros q x Hq. exists x. rewrite lookup_insert_ne by congruence. split; [done|]. split; [by constructor|by left].
  - intros q y. destruct (decide (p = q)) as [<-|Hne].
    + rewrite lookup_insert_eq. intros [= <-]. right. done.
    + rewrite lookup_insert_ne by done. intros Hq. left. exists y. split; [done|by constructor].
Qed.

Lemma lock_step_ok s s' : table_ok s -> lock_step s s' -> table_ok s'.
Proof.
  intros Htab Hstep. destruct Hstep as [th tag m dw rme rl rp r s s' [Hst Hme Hnw] Htag Hm Hrun
    |th tag m p b s s' [Hst Hme Hnw] Htag Hm Hp Hrun|th id al p marked s s' [Hst Hme Hnw] Hp Hid Hnd Hok Hrun
    |th b s s' Hst [me Hme] Hrun|p proc s Hp Hidle|th s s' [Hst [me Hme] Hnw] Hlead Hrun|th g leader s s' [Hst [me Hme] Hnw] Hlead Hno Hg Hl Hll Hrun
    |th lim log tmo d r d' s s' Hst [me Hme] Hsize Hw Hrun|o b sems s Ho].
  - pose proof (acquire_spec Hst tag Htag m Hm dw rme rl rp s Htab Hme Hnw) as H. unfold lpe in H. rewrite Hrun in H. apply H.
  - pose proof (release_spec Hst tag m p s Htab Htag Hm Hp Hme) as H. unfold lpe in H. rewrite Hrun in H.
    destruct b; [apply H|]. by destruct H as [-> _].
  - pose proof (release_all_spec id al p marked s Hst Htab Hme Hp Hid Hnd Hok) as H. unfold lwp in H. rewrite Hrun in H. apply H.
  - pose proof (cleanup_spec s me Hst Htab Hme) as H. unfold lwp in H. rewrite Hrun in H. apply H.
  - by apply start_step.
  - pose proof (leader_step s me Htab Hme (Hlead me Hme)) as H. unfold lwp in H. by rewrite Hrun in H.
  - pose proof (member_step s g me leader Htab Hme (Hlead me Hme) Hnw Hno Hg Hl Hll) as H. unfold lwp in H. by rewrite Hrun in H.
  - pose proof (CheckDeadLock_spec Hst log tmo d s me Htab Hsize Hme Hw) as H. unfold lwp in H. rewrite Hrun in H. apply H.
  - destruct Htab as [H1 H2 H3 H4]. by constructor.
Qed.

Lemma reachable_ok s : lock_reachable s -> table_ok s.
Proof.
  induction 1 as [|s s' _ IH Hstep]; [|by eapply lock_step_ok]. by constructor.
Qed.

(** ** The properties *)

Lemma holds_at_in s tag p m : table_ok s -> holds_at s tag p m ->
  exists l pl, LockMethodLockHash s !! tag = Some l /\ lock_good (allProcs s) tag l /\ pl ∈ procLocks l /\ myProc pl = p
    /\ groupLeader pl = leader s p /\ Z.testbit (holdMask pl) m = true /\ mode_ok m.
Proof.
  intros Htab (l & Hl & pl & Hpl & Hp & Hb). destruct (table_here s tag l Htab Hl) as [Hh Hg].
  pose proof (lk_shape _ _ _ _ _ (hr_ok _ _ _ _ _ Hh)) as Hsh. exists l, pl. split_and!; try done.
  - by rewrite (leader_proclock s tag _ _ pl Hsh Hpl), Hp.
  - by apply (sh_masks _ _ _ _ Hsh pl Hpl).
Qed.

Lemma DoLockModesConflict_spec m1 m2 : mode_ok m1 -> mode_ok m2 -> DoLockModesConflict m1 m2 = Done (conflict m1 m2).
Proof.
  intros H1 H2. unfold DoLockModesConflict. rewrite (conflicts_of_mode default_lockmethod m1) by done. runs.
  by rewrite land_bit_on, negb_involutive by (unfold mode_ok in H2; lia).
Qed.

(** C11 Mutual exclusion: in every table that threads outside stream plans reach, two
    processes of different lock groups never hold modes of one lock that [DoLockModesConflict] calls
    conflicting. *)
Theorem lock_table_safe s : lock_reachable s -> forall tag p1 m1 p2 m2, holds_at s tag p1 m1 -> holds_at s tag p2 m2 ->
  leader s p1 <> leader s p2 -> DoLockModesConflict m1 m2 = Done false.
Proof.
  intros Htab%reachable_ok tag p1 m1 p2 m2 H1 H2 Hne.
  destruct (holds_at_in s tag p1 m1 Htab H1) as (l & pl1 & Hl & Hg & Hpl1 & _ & Hg1 & Hb1 & Hm1).
  destruct (holds_at_in s tag p2 m2 Htab H2) as (l' & pl2 & Hl' & _ & Hpl2 & _ & Hg2 & Hb2 & Hm2). assert (l' = l) as -> by congruence.
  rewrite DoLockModesConflict_spec by done. f_equal. eapply (lk_exclusion _ _ _ _ _ (lg_ok _ _ _ Hg) pl1 pl2); (done || congruence).
Qed.

(** Who waits at the place behind [ahead] waits for one ahead or for a holder. *)
Lemma blocked_view s tag l ahead p behind m : table_ok s -> LockMethodLockHash s !! tag = Some l -> waitProcs l = ahead ++ p :: behind ->
  waits_at s p tag m ->
  (exists v m', v ∈ ahead /\ waits_at s v tag m' /\ conflict m m' = true) \/ conflicting_holder s tag p m.
Proof.
  intros Htab Hl E (proc & Hproc & Hpl & <-). destruct (table_here s tag l Htab Hl) as [Hh Hg].
  pose proof (lk_shape _ _ _ _ _ (hr_ok _ _ _ _ _ Hh)) as Hsh. destruct (lg_blocked _ _ _ Hg ahead p behind E) as (x & Hx & Hb).
  assert (x = proc) as -> by congruence. destruct Hb as [(v & Hv & Hc)|Hc].
  - left. destruct (sh_waiting _ _ _ _ Hsh v) as (y & [Hy Hyl _ _ _ _ _]); [rewrite E, elem_of_app; by left|].
    exists v, (waitLockMode y). rewrite (waitmode_lookup _ _ _ Hy) in Hc. split_and!; [done|by exists y|done].
  - right. apply (held_conflict_holder s tag _ l p _ Hsh Hl). unfold leader. by rewrite Hproc.
Qed.

Lemma queue_member s tag l w : table_ok s -> LockMethodLockHash s !! tag = Some l -> w ∈ waitProcs l -> exists m, waits_at s w tag m.
Proof.
  intros Htab Hl Hw. destruct (table_here s tag l Htab Hl) as [Hh _].
  destruct (sh_waiting _ _ _ _ (lk_shape _ _ _ _ _ (hr_ok _ _ _ _ _ Hh)) w Hw) as (x & [Hx Hxl _ _ _ _ _]).
  exists (waitLockMode x). by exists x.
Qed.

(** C12 No wake up is lost: in every table that threads outside stream plans reach, a
    process that waits for a lock is in its queue, and what it asks for conflicts with what another lock
    group holds or with what somebody ahead of it asks for; and he himself or
    one ahead of him waits for a holder. *)
Theorem no_lost_wakeup s : lock_reachable s -> forall p tag m, waits_at s p tag m ->
  exists l ahead behind, LockMethodLockHash s !! tag = Some l /\ waitProcs l = ahead ++ p :: behind
    /\ ((exists v m', v ∈ ahead /\ waits_at s v tag m' /\ conflict m m' = true) \/ conflicting_holder s tag p m)
    /\ exists w m', w ∈ ahead ++ [p] /\ waits_at s w tag m' /\ conflicting_holder s tag w m'.
Proof.
  intros Htab%reachable_ok p tag m Hp. pose proof Hp as (proc & Hproc & Hpl & _). pose proof (tb_waits _ Htab p proc Hproc) as Hw.
  rewrite Hpl in Hw. destruct Hw as (l & Hl & Hin). destruct (list_elem_of_split _ _ Hin) as (ahead & behind & E).
  exists l, ahead, behind. split_and!; [done|done|by eapply blocked_view|].
  destruct ahead as [|v ahead].
  - exists p, m. split_and!; [by left|done|]. destruct (blocked_view s tag l [] p behind m Htab Hl E Hp) as [(v & ? & []%elem_of_nil & _)|?]; done.
  - destruct (queue_member s tag l v Htab Hl) as (m' & Hv); [rewrite E; by left|]. exists v, m'. split_and!; [by left|done|].
    destruct (blocked_view s tag l [] v (ahead ++ p :: behind) m' Htab Hl E Hv) as [(? & ? & []%elem_of_nil & _)|?]; done.
Qed.

(** LockCheckConflicts answers STATUS_OK exactly when no other lock group holds
    a conflicting mode, whatever thread asks for whatever process that has a
    PROCLOCK; and it changes nothing but what the thread knows of a
    redistribution. *)
Theorem LockCheckConflicts_correct (th : LockThread) s tag l p pl m : stream_mode = false -> lock_reachable s ->
  is_Some (allProcs s !! my_proc) -> LockMethodLockHash s !! tag = Some l -> find_proclock p (procLocks l) = Some pl -> mode_ok m ->
  exists st s', LockCheckConflicts default_lockmethod m l p s = Done (st, s') /\ same_table s s'
    /\ (st = STATUS_OK <-> ~ conflicting_holder s tag p m).
Proof.
  intros Hst Htab%reachable_ok [me Hme] Hl Hf Hm. destruct (table_here s tag l Htab Hl) as [Hh Hg]. pose proof (hr_ok _ _ _ _ _ Hh) as Hok.
  pose proof (lk_shape _ _ _ _ _ Hok) as Hsh. apply find_proclock_Some in Hf as [Hpl Hp]; [|apply (sh_nodup _ _ _ _ Hsh)].
  apply lwp_run, (check_spec Hst (allProcs s) (tb_groups _ Htab) tag [] [] l Hok p pl Hpl Hp me Hme); try done; [apply (tb_redist _ Htab)|].
  intros st s' Hss [Hv1 Hv2]. split; [done|]. rewrite (leader_proclock s tag _ _ pl Hsh Hpl), Hp in Hv1, Hv2.
  rewrite (held_conflict_holder s tag _ l p m Hsh Hl) in Hv1, Hv2. split; [done|].
  intros Hno. destruct (decide (st = STATUS_OK)) as [|Hne]; [done|]. by destruct Hno; apply Hv2.
Qed.

(** C13 LockAcquire on a reachable table (threads outside stream plans) runs to its
    end: it is granted, refused or
    queued as [acquire_post] says, a deadlock of two that it reports is one, and
    the only errors are no room and a mode that is held already. *)
Theorem LockAcquire_correct (th : LockThread) s tag m dontWait reportMemoryError rl rp : lock_reachable s -> runs_in th s ->
  valid_tag tag -> mode_ok m ->
  lpe (LockAcquireShared tag m dontWait reportMemoryError rl rp)
    (fun r s' => lock_reachable s' /\ acquire_post s tag my_proc m dontWait (rl && rp) r s')
    (acquire_err s tag my_proc m reportMemoryError (rl && rp)) s.
Proof.
  intros Hreach [Hst Hme Hnw] Htag Hm. pose proof (reachable_ok _ Hreach) as Htab.
  pose proof (acquire_spec Hst tag Htag m Hm dontWait reportMemoryError rl rp s Htab Hme Hnw) as H.
  unfold lpe in *. destruct (LockAcquireShared tag m dontWait reportMemoryError rl rp s) as [[r s']| |] eqn:Hrun; [|done|done].
  split; [|apply H]. eapply reach_step; [done|]. by eapply step_acquire.
Qed.

(** C15 LockRelease on a reachable table (threads outside stream plans) runs to its
    end.  True: the mode was held;
    it is given up, and the waiters that are woken hold what they waited for,
    each woken once.  False: another mode of the lock is held and nothing
    changes.  The error: the process holds nothing of the lock. *)
Theorem LockRelease_correct (th : LockThread) s tag m p : lock_reachable s -> runs_in th s -> valid_tag tag -> mode_ok m ->
  (forall tag m, ~ waits_at s p tag m) ->
  lpe (LockReleaseShared tag m p)
    (fun b s' => lock_reachable s' /\
       if b : bool then holds_at s tag p m /\ exists ws, moved s s' p (fun tag' m' => tag' = tag /\ m' = m) ws
       else s' = s /\ ~ holds_at s tag p m /\ exists m', holds_at s tag p m')
    (fun c => c = ERRCODE_DATA_CORRUPTED /\ forall m', ~ holds_at s tag p m') s.
Proof.
  intros Hreach [Hst Hme Hnw] Htag Hm Hp. pose proof (reachable_ok _ Hreach) as Htab.
  pose proof (release_spec Hst tag m p s Htab Htag Hm Hp Hme) as H.
  unfold lpe in *. destruct (LockReleaseShared tag m p s) as [[b s']| |] eqn:Hrun; [|done|done].
  split; [eapply reach_step; [done|]; by eapply step_release|]. destruct b; [|done]. destruct H as (H1 & _ & _ & H2). done.
Qed.

(** C16 LockReleaseAll on a reachable table (threads outside stream plans) runs to its
    end: the process gives up
    the marked modes, with [allLocks] all modes of the locks in its list, and
    the waiters that are woken hold what they waited for, each woken once. *)
Theorem LockReleaseAll_correct (th : LockThread) s lockmethodid allLocks p marked : lock_reachable s -> runs_in th s ->
  (forall tag m, ~ waits_at s p tag m) -> lockmethodid = DEFAULT_LOCKMETHOD \/ lockmethodid = USER_LOCKMETHOD ->
  NoDup (fst <$> marked) -> (forall x, x ∈ marked -> mark_ok s p lockmethodid allLocks x) ->
  lwp (LockReleaseAllShared lockmethodid allLocks p marked)
    (fun _ s' => lock_reachable s' /\ exists ws, moved s s' p (marks lockmethodid allLocks marked) ws) s.
Proof.
  intros Hreach [Hst Hme Hnw] Hp Hid Hnd Hok. pose proof (reachable_ok _ Hreach) as Htab.
  pose proof (release_all_spec lockmethodid allLocks p marked s Hst Htab Hme Hp Hid Hnd Hok) as H.
  unfold lwp in *. destruct (LockReleaseAllShared lockmethodid allLocks p marked s) as [[[] s']| |] eqn:Hrun; [|done|done].
  split; [|apply H]. eapply reach_step; [done|]. by eapply step_release_all.
Qed.

(** LockErrorCleanup: a process that waits leaves the queue without the lock,
    and the waiters that could only wait for it are served; one that does not
    wait is told whether its lock was granted after all. *)
Theorem LockErrorCleanup_correct (th : LockThread) s me : lock_reachable s -> stream_mode = false -> allProcs s !! my_proc = Some me ->
  lwp LockErrorCleanupShared (fun b s' => lock_reachable s' /\
    ((exists tag m, waits_at s my_proc tag m) /\ b = false /\ (exists ws, left_queue s s' my_proc ws)
     \/ (forall tag m, ~ waits_at s my_proc tag m) /\ b = bool_decide (waitStatus me = STATUS_OK) /\ s' = s)) s.
Proof.
  intros Hreach Hst Hme. pose proof (reachable_ok _ Hreach) as Htab. pose proof (cleanup_spec s me Hst Htab Hme) as H.
  unfold lwp in *. destruct (LockErrorCleanupShared s) as [[b s']| |] eqn:Hrun; [|done|done].
  split; [|apply H]. eapply reach_step; [done|]. eapply (step_cleanup th); [done|by exists me|done].
Qed.

(** ** A table with three processes

    The process 1 locks a relation exclusively, 2 and 3 wait for weaker locks;
    after the release they hold them. *)
Module Queue.
Definition thread (p : Z) : LockThread := {| my_proc := p; stream_mode := false; inNodeGroup := fun _ _ => false |}.
Definition proc (p : Z) : PGPROC := MkProc (100 + p) 0 None [] false None 0 0 STATUS_OK.
Definition rel : LOCKTAG := MkTag 5 16384 1 0 0 0 1.
Definition after {A} (m : LM A) (s : LockState) : LockState := match m s with Done (_, s') => s' | _ => s end.

Definition add (p : Z) (s : LockState) : LockState := set_procs (<[p := proc p]> (allProcs s)) s.
Definition start : LockState := add 3 (add 2 (add 1 empty_table)).
Definition locked : LockState := after (LockAcquireShared (th := thread 1) rel 8 false true true true) start.
Definition waiting2 : LockState := after (LockAcquireShared (th := thread 2) rel 1 false true true true) locked.
Definition waiting3 : LockState := after (LockAcquireShared (th := thread 3) rel 5 false true true true) waiting2.
Definition released : LockState := after (LockReleaseShared (th := thread 1) rel 8 1) waiting3.

Lemma nowait s p x : allProcs s !! p = Some x -> waitLock x = None -> forall tag m, ~ waits_at s p tag m.
Proof. intros Hx Hn tag m (y & Hy & Hyl & _). congruence. Qed.

Lemma runs (s : LockState) p x : allProcs s !! p = Some x -> waitLock x = None -> runs_in (thread p) s.
Proof. intros Hx Hn. constructor; [done|by exists x|]. by apply (nowait s p x). Qed.

Lemma rel_valid : valid_tag rel.
Proof. by left. Qed.

Lemma start_reachable : lock_reachable start.
Proof.
  assert (Hs : forall p s, allProcs s !! p = None -> lock_reachable s -> lock_reachable (add p s)).
  { intros p s Hp Hr. eapply reach_step; [done|]. by apply step_start. }
  apply (Hs 3); [done|]. apply (Hs 2); [done|]. apply (Hs 1); [done|]. apply reach_init.
Qed.

Lemma acquire_reachable p m s x r : lock_reachable s -> allProcs s !! p = Some x -> waitLock x = None -> mode_ok m ->
  fst <$> (match LockAcquireShared (th := thread p) rel m false true true true s with Done y => Some y | _ => None end) = Some r ->
  lock_reachable (after (LockAcquireShared (th := thread p) rel m false true true true) s).
Proof.
  intros Hr Hx Hn Hm Hrun. unfold after. destruct (LockAcquireShared rel m false true true true s) as [[r' s']| |] eqn:E; [|done|done].
  eapply reach_step; [done|]. eapply (step_acquire (thread p)); [by eapply runs|apply rel_valid|done|done].
Qed.

Lemma mode_le m : 1 <= m <= 8 -> mode_ok m.
Proof. done. Qed.

Lemma locked_reachable : lock_reachable locked.
Proof. eapply (acquire_reachable 1 8 start); [apply start_reachable|by vm_compute|done|by apply mode_le|by vm_compute]. Qed.
Lemma waiting2_reachable : lock_reachable waiting2.
Proof. eapply (acquire_reachable 2 1 locked); [apply locked_reachable|by vm_compute|done|by apply mode_le|by vm_compute]. Qed.
Lemma waiting3_reachable : lock_reachable waiting3.
Proof. eapply (acquire_reachable 3 5 waiting2); [apply waiting2_reachable|by vm_compute|done|by apply mode_le|by vm_compute]. Qed.
Lemma release_reachable p m s x b : lock_reachable s -> allProcs s !! p = Some x -> waitLock x = None -> mode_ok m ->
  fst <$> (match LockReleaseShared (th := thread p) rel m p s with Done y => Some y | _ => None end) = Some b ->
  lock_reachable (after (LockReleaseShared (th := thread p) rel m p) s).
Proof.
  intros Hr Hx Hn Hm Hrun. unfold after. destruct (LockReleaseShared rel m p s) as [[b' s']| |] eqn:E; [|done|done].
  eapply reach_step; [done|]. eapply (step_release (thread p)); [by eapply runs|apply rel_valid|done|by eapply nowait|done].
Qed.

Lemma released_reachable : lock_reachable released.
Proof. eapply (release_reachable 1 8 waiting3); [apply waiting3_reachable|by vm_compute|done|by apply mode_le|by vm_compute]. Qed.
End Queue.
Import Queue.

Lemma lock_table_safe_witness : holds_at released rel 2 1 /\ holds_at released rel 3 5 /\ DoLockModesConflict 1 5 = Done false.
Proof.
  assert (H2 : holds_at released rel 2 1).
  { eexists. split; [by vm_compute|]. eexists. split; [by left|]. by vm_compute. }
  assert (H3 : holds_at released rel 3 5).
  { eexists. split; [by vm_compute|]. eexists. split; [by right; left|]. by vm_compute. }
  split_and!; [done|done|]. apply (lock_table_safe released released_reachable rel 2 1 3 5 H2 H3). by vm_compute.
Defined.

Lemma no_lost_wakeup_witness : waits_at waiting3 3 rel 5 /\
  exists w m', w ∈ [2; 3] /\ waits_at waiting3 w rel m' /\ conflicting_holder waiting3 rel w m'.
Proof.
  assert (H3 : waits_at waiting3 3 rel 5) by (eexists; split_and!; by vm_compute).
  split; [done|]. destruct (no_lost_wakeup waiting3 waiting3_reachable 3 rel 5 H3) as (l & ahead & behind & Hl & E & _ & w & m' & Hw & Hwait).
  exists w, m'. split; [|done]. assert (El : option_map waitProcs (LockMethodLockHash waiting3 !! rel) = Some [2; 3]) by by vm_compute.
  rewrite Hl in El. injection El as El. rewrite El in E. apply elem_of_app in Hw as [Hw| ->%list_elem_of_singleton]; [|by right; left].
  rewrite E. apply elem_of_app. by left.
Defined.

Lemma LockCheckConflicts_correct_witness : exists l pl, LockMethodLockHash waiting2 !! rel = Some l /\ find_proclock 2 (procLocks l) = Some pl /\
  exists st s', LockCheckConflicts (th := thread 1) default_lockmethod 1 l 2 waiting2 = Done (st, s') /\ same_table waiting2 s'
    /\ (st = STATUS_OK <-> ~ conflicting_holder waiting2 rel 2 1).
Proof.
  eexists _, _. split; [by vm_compute|]. split; [by vm_compute|].
  eapply (LockCheckConflicts_correct (thread 1) waiting2 rel); [done|apply waiting2_reachable| | | |by apply mode_le].
  - eexists. by vm_compute.
  - by vm_compute.
  - by vm_compute.
Defined.

Lemma LockAcquire_correct_witness :
  lpe (LockAcquireShared (th := thread 2) rel 1 false true true true)
    (fun r s' => lock_reachable s' /\ acquire_post locked rel 2 1 false true r s') (acquire_err locked rel 2 1 true true) locked
  /\ fst <$> (match LockAcquireShared (th := thread 2) rel 1 false true true true locked with Done y => Some y | _ => None end) = Some LOCKACQUIRE_WAIT.
Proof.
  split; [|by vm_compute]. apply (LockAcquire_correct (thread 2) locked rel 1 false true true true).
  - apply locked_reachable.
  - eapply (runs _ 2); [by vm_compute|done].
  - apply rel_valid.
  - by apply mode_le.
Defined.

Lemma LockRelease_correct_witness :
  lpe (LockReleaseShared (th := thread 1) rel 8 1)
    (fun b s' => lock_reachable s' /\
       if b : bool then holds_at waiting3 rel 1 8 /\ exists ws, moved waiting3 s' 1 (fun tag' m' => tag' = rel /\ m' = 8) ws
       else s' = waiting3 /\ ~ holds_at waiting3 rel 1 8 /\ exists m', holds_at waiting3 rel 1 m')
    (fun c => c = ERRCODE_DATA_CORRUPTED /\ forall m', ~ holds_at waiting3 rel 1 m') waiting3
  /\ unlocked_sems released = [2; 3].
Proof.
  split; [|by vm_compute]. apply (LockRelease_correct (thread 1) waiting3 rel 8 1).
  - apply waiting3_reachable.
  - eapply (runs _ 1); [by vm_compute|done].
  - apply rel_valid.
  - by apply mode_le.
  - eapply (nowait _ 1); [by vm_compute|done].
Defined.

Lemma LockReleaseAll_correct_witness :
  lwp (LockReleaseAllShared (th := thread 1) 1 true 1 [(rel, 0)])
    (fun _ s' => lock_reachable s' /\ exists ws, moved waiting3 s' 1 (marks 1 true [(rel, 0)]) ws) waiting3.
Proof.
  apply (LockReleaseAll_correct (thread 1) waiting3 1 true 1 [(rel, 0)]).
  - apply waiting3_reachable.
  - eapply (runs _ 1); [by vm_compute|done].
  - eapply (nowait _ 1); [by vm_compute|done].
  - by left.
  - apply NoDup_singleton.
  - intros x ->%list_elem_of_singleton _. split; [done|]. split; [|done]. exists 8.
    eexists. split; [by vm_compute|]. eexists. split; [by left|]. by vm_compute.
Defined.

Lemma LockErrorCleanup_correct_witness : exists me, allProcs waiting3 !! 2 = Some me /\
  lwp (LockErrorCleanupShared (th := thread 2)) (fun b s' => lock_reachable s' /\
    ((exists tag m, waits_at waiting3 2 tag m) /\ b = false /\ (exists ws, left_queue waiting3 s' 2 ws)
     \/ (forall tag m, ~ waits_at waiting3 2 tag m) /\ b = bool_decide (waitStatus me = STATUS_OK) /\ s' = waiting3)) waiting3.
Proof.
  eexists. split; [by vm_compute|]. apply (LockErrorCleanup_correct (thread 2)); [apply waiting3_reachable|done|by vm_compute].
Defined.
