(* ===== verification/DeadSpec.v ===== *)
(** Deadlock detection on the tables that the lock manager reaches
    ([lock_reachable], LockSpec.v): what one call of the detector decides and
    what it does about it. *)
From S2P Require Import Prelude Lock LockInv LockWait LockAcquire DeadLock DeadSearch DeadSort DeadCheck DeadApply DeadDecide LockSpec.
From stdpp Require Import list gmap.
#[local] Open Scope Z_scope.

(** C14 A deadlock check runs to its end and gives a table that the lock manager can
    reach.  When it calls the deadlock hard, the own lock group is in a cycle
    of the waits-for graph, the way noted for the message is such a cycle, and
    the process leaves the queue without its lock.  When it calls the deadlock
    soft, there was a cycle, though none of hard edges; queues are permuted,
    each waiter that is woken leaves its queue with what it waited for, nobody
    else gains or loses a lock, and the cycle is gone.  With every other answer there is no
    cycle and the table is unchanged. *)
Theorem CheckDeadLock_correct (th : LockThread) (lim : DeadLockLimits) log_lock_waits LockWaitTimeout d s : lock_reachable s ->
  stream_mode = false -> is_Some (allProcs s !! my_proc) -> Z.of_nat (size (allProcs s)) <= MaxBackends -> workspace_ok d ->
  lwp (CheckDeadLock log_lock_waits LockWaitTimeout d)
    (fun '(r, d') s' => lock_reachable s' /\ workspace_ok d' /\ signal_post s r d' s') s.
Proof.
  intros Hreach Hst [me Hme] Hsize Hw.
  pose proof (CheckDeadLock_spec Hst log_lock_waits LockWaitTimeout d s me (reachable_ok _ Hreach) Hsize Hme Hw) as H.
  unfold lwp in *. destruct (CheckDeadLock log_lock_waits LockWaitTimeout d s) as [[[r d'] s']| |] eqn:Hrun; [|done|done].
  split; [|apply H]. eapply reach_step; [done|]. by eapply (step_check th lim).
Qed.

(** C19 The message of a hard deadlock is true: DeadLockReport after the check runs
    to its end, and each of its lines names a process, the lock and the mode it
    waits for, and a next process in whose lock group somebody is in the way. *)
Theorem DeadLockReport_correct (th : LockThread) (lim : DeadLockLimits) log_lock_waits LockWaitTimeout d s d' s' : lock_reachable s ->
  stream_mode = false -> is_Some (allProcs s !! my_proc) -> Z.of_nat (size (allProcs s)) <= MaxBackends -> workspace_ok d ->
  CheckDeadLock log_lock_waits LockWaitTimeout d s = Done ((Some DS_HARD_DEADLOCK, d'), s') ->
  exists lines, DeadLockReport d' = Done lines /\ lines <> [] /\ Forall (line_true s []) lines.
Proof.
  intros Htab%reachable_ok Hst [me Hme] Hsize Hw Hrun. pose proof (CheckDeadLock_spec Hst log_lock_waits LockWaitTimeout d s me Htab Hsize Hme Hw) as H.
  unfold lwp in H. rewrite Hrun in H. destruct H as (_ & _ & _ & Hn & _). by eapply report_spec.
Qed.

(** ** The waits-for graph with proposed queue orders

    The order of a queue is the proposed one where there is one. *)
Definition queue_order (s : LockState) (orders : list WAIT_ORDER) (tag : LOCKTAG) (procs : list Z) : Prop :=
  match find_order tag orders with
  | Some order => procs = order
  | None => exists l, LockMethodLockHash s !! tag = Some l /\ procs = waitProcs l
  end.

(** [q], of another lock group, asks for what conflicts with the mode [m] and is
    ahead of a member of the group of [p]. *)
Definition ahead_block (s : LockState) (orders : list WAIT_ORDER) (p : Z) (tag : LOCKTAG) (m q : Z) : Prop :=
  leader s q <> leader s p /\ (exists m', waits_at s q tag m' /\ conflict m m' = true)
  /\ exists l1 l2 x, queue_order s orders tag (l1 ++ q :: l2) /\ x ∈ l2 /\ leader s x = leader s p.

Definition waits_for (s : LockState) (orders : list WAIT_ORDER) (g g' : Z) : Prop :=
  exists p tag m q, waits_at s p tag m /\ leader s p = g /\ (hard_block s p tag m q \/ ahead_block s orders p tag m q) /\ leader s q = g'.

(** A way in this graph, with what is noted of its edges. *)
Fixpoint way (s : LockState) (orders : list WAIT_ORDER) (g : Z) (tr : list (DEADLOCK_INFO * option EDGE)) (target : Z) : Prop :=
  match tr with
  | [] => g = target
  | (info, soft) :: tr =>
      exists p q, waits_at s p (locktag info) (lockmode info) /\ info_pid info = pid_of s p /\ leader s p = g
      /\ match soft with
         | None => hard_block s p (locktag info) (lockmode info) q
         | Some e => ahead_block s orders p (locktag info) (lockmode info) q /\ e = MkEdge (leader s p) (leader s q) (locktag info) 0 0
         end
      /\ way s orders (leader s q) tr target
  end.

Definition noted_way (s : LockState) (orders : list WAIT_ORDER) (g : Z) (d : Detector) : Prop :=
  exists tr rest, tr <> [] /\ way s orders g tr g /\ deadlockDetails d = (fst <$> tr) ++ rest /\ nDeadlockDetails d = zlen tr
    /\ softEdges d = reverse (omap snd tr).

(** No member of a lock group but its leader waits in a queue with a proposed order. *)
Definition leaders_only (s : LockState) (orders : list WAIT_ORDER) : Prop :=
  forall tag procs p, find_order tag orders = Some procs -> p ∈ procs -> leader s p = p.

Section Proposed.
Context (s : LockState) (orders : list WAIT_ORDER) (Htab : table_ok s) (Hord : orders_ok s orders) (Hlead : leaders_only s orders).

Lemma soft_ahead p tag m q : waits_at s p tag m -> soft_block s orders p tag m q <-> ahead_block s orders p tag m q.
Proof.
  intros Hw. destruct (waits_queue s Htab p tag m Hw) as (l & Hl & Hp & _). unfold soft_block, ahead_block, queue_order.
  destruct (find_order tag orders) as [procs|] eqn:Ho.
  - destruct (Hord tag procs Ho) as (l' & Hl' & Hperm). assert (l' = l) as -> by congruence. rewrite <- Hperm in Hp.
    pose proof (sh_queue _ _ _ _ (lk_shape _ _ _ _ _ (lg_ok _ _ _ (tb_locks s Htab tag l Hl)))) as Hnd. rewrite <- Hperm in Hnd.
    pose proof (fun x => Hlead tag procs x Ho) as Hle. rewrite (Hle p Hp). split.
    + intros [Hc (l1 & l2 & -> & Hno)]. assert (Hn : p ∉ l1 ++ [q]) by (intros Hin; apply (Hno p Hin); by apply Hle).
      split_and!; [apply Hno, elem_of_app; right; by left|done|]. exists l1, l2, p. split_and!; [done|set_solver|by apply Hle].
    + intros (Hq & Hc & l1 & l2 & x & <- & Hx & Hxp). split; [done|]. exists l1, l2. split; [done|]. intros y Hy Hyp.
      assert (y = p) as -> by (rewrite <- Hyp; symmetry; apply Hle; set_solver). assert (x = p) as -> by (rewrite <- Hxp; symmetry; apply Hle; set_solver).
      apply NoDup_app in Hnd as (_ & Hd & [Hnq _]%NoDup_cons). apply elem_of_app in Hy as [Hy| ->%list_elem_of_singleton]; [|done]. apply (Hd p Hy). by right.
  - split.
    + intros [Hc [Hq (l' & l1 & l2 & Hl' & E & x & Hx & Hxp)]]. split_and!; [done|done|]. exists l1, l2, x. split_and!; [by exists l'|done|done].
    + intros (Hq & Hc & l1 & l2 & x & (l' & Hl' & E) & Hx & Hxp). split; [done|]. split; [done|]. exists l', l1, l2. split_and!; [done|done|by exists x].
Qed.

Lemma edge_waits_for g g' : edge s orders g g' <-> waits_for s orders g g'.
Proof.
  split; intros (p & tag & m & q & Hw & Hg & Hb & Hg'); exists p, tag, m, q; (split_and!; [done|done| |done]); (destruct Hb as [?|Hb]; [by left|right]); by apply (soft_ahead p tag m q Hw).
Qed.

Lemma trail_way target g tr : trail s orders target g tr -> way s orders g tr target.
Proof.
  induction 1 as [|p tag m q rest Hw Hb _ IH|p tag m q rest Hw Hb _ IH]; [done|..]; exists p, q; cbn.
  - by split_and!.
  - apply soft_ahead in Hb; [|done]. by split_and!.
Qed.

Lemma cycle_waits_for g : cycle s orders g <-> tc (waits_for s orders) g g.
Proof. unfold cycle. split; apply (tc_congruence id); intros x y; apply edge_waits_for. Qed.
End Proposed.

(** C17 FindLockCycle decides whether the lock group of the process is in a cycle of
    the waits-for graph ([waits_for]), in which the hypothetical orders of
    [waitOrders] stand for the queues; it always comes to its end, and what it notes
    of a cycle, the details and the soft edges, is a cycle of this graph.  This
    holds for all lock groups as far as the true queues go; in a queue with a
    hypothetical order only leaders of lock groups (or processes without a group)
    may wait. *)
Theorem FindLockCycle_correct (th : LockThread) (lim : DeadLockLimits) p d s : lock_reachable s -> is_Some (allProcs s !! p) ->
  Z.of_nat (size (allProcs s)) <= MaxBackends -> zlen (deadlockDetails d) = MaxBackends ->
  orders_ok s (waitOrders d) -> leaders_only s (waitOrders d) ->
  exists b d', FindLockCycle s p d = Done (b, d') /\ (b = true <-> tc (waits_for s (waitOrders d)) (leader s p) (leader s p))
    /\ (b = true -> noted_way s (waitOrders d) (leader s p) d').
Proof.
  intros Htab%reachable_ok Hp Hsize Hd Hord Hlead. destruct (dwp_run _ _ _ (find_cycle_spec s Htab Hsize p d Hord Hp Hd)) as (b & d' & E & _ & _ & Hb).
  exists b, d'. split; [done|]. rewrite <- (cycle_waits_for s _ Htab Hord Hlead). destruct b; [|done].
  destruct Hb as (tr & rest & Hne & Htr & Hnote). split; [split; [intros _; by eapply trail_path|done]|].
  intros _. exists tr, rest. split_and!; [done|by apply trail_way|apply Hnote..].
Qed.

(** C18 TopoSort on a queue of the table: it answers true with an order of the queue
    that satisfies the constraints of this lock and keeps the members of a lock group
    together; it answers false only if no order of the queue satisfies the
    constraints of this lock, provided that no constraint of another lock is
    between groups that both wait here, too (without lock groups there is none). *)
Theorem TopoSort_correct s tag l constraints : lock_reachable s -> LockMethodLockHash s !! tag = Some l -> Forall (by_leaders s) constraints ->
  let own := filter (fun e => lock e = tag) constraints in
  exists ok order constraints', TopoSort s (waitProcs l) constraints = Done (ok, order, constraints') /\ Forall2 same_edge constraints constraints'
    /\ if ok : bool then order ≡ₚ waitProcs l /\ satisfies s (waitProcs l) own order /\ grouped s (waitProcs l) order
       else (forall e, e ∈ constraints -> lock e <> tag -> ~ concerns s (waitProcs l) e) ->
            forall order', order' ≡ₚ waitProcs l -> ~ satisfies s (waitProcs l) own order'.
Proof.
  intros Htab%reachable_ok Hl Hcs own. destruct (TopoSort_spec s (waitProcs l) Htab) with constraints as (ok & order & cs' & E & Hf & Hres); [| |done|].
  - intros x Hx. destruct (queue_waits s Htab tag l x Hl Hx) as (px & Hpx & _). by exists px.
  - apply (sh_queue _ _ _ _ (lk_shape _ _ _ _ _ (lg_ok _ _ _ (tb_locks s Htab tag l Hl)))).
  - exists ok, order, cs'. split; [done|]. split; [done|]. destruct ok.
    + destruct Hres as (H1 & H2 & H3). split_and!; [done| |done]. intros e x y [_ He]%list_elem_of_filter. by apply H2.
    + intros Hfor o Ho Hsat. apply (Hres o Ho). intros e x y He Hx Hy. destruct (decide (lock e = tag)) as [Et|Et].
      * apply (Hsat e); [by apply list_elem_of_filter|done|done].
      * destruct (Hfor e He Et). split; intros En; [rewrite En in Hx; by apply not_elem_of_nil in Hx|rewrite En in Hy; by apply not_elem_of_nil in Hy].
Qed.

(** ** Two deadlocks

    [hard]: 1 and 2 hold a relation each and wait for the other's.  [soft]: 1
    holds a share of the first relation, for which 2 waits exclusively and 3,
    behind 2, for a share; and 1 waits for the second relation, which 3 holds.
    With 3 before 2 nobody is stuck. *)
Module Deadlocks.
Import Queue.
#[export] Instance limits : DeadLockLimits := {| MaxBackends := 4; autovacuum_max_workers := 3 |}.

Definition rel2 : LOCKTAG := MkTag 5 16385 1 0 0 0 1.
Definition take_lock (p : Z) (tag : LOCKTAG) (m : Z) (s : LockState) : LockState :=
  after (LockAcquireShared (th := thread p) tag m false true true true) s.

Lemma take_reachable p tag m s x r : lock_reachable s -> valid_tag tag -> mode_ok m -> allProcs s !! p = Some x -> waitLock x = None ->
  fst <$> (match LockAcquireShared (th := thread p) tag m false true true true s with Done y => Some y | _ => None end) = Some r ->
  lock_reachable (take_lock p tag m s).
Proof.
  intros Hr Htag Hm Hx Hn Hrun. unfold take_lock, after. destruct (LockAcquireShared tag m false true true true s) as [[r' s']| |] eqn:E; [|done|done].
  eapply reach_step; [done|]. by eapply (step_acquire (thread p)); [eapply runs|..].
Qed.

Ltac by_steps := repeat first [apply start_reachable | eapply take_reachable; [| |by apply mode_le|by vm_compute|done|by vm_compute]; [|by left]].

Definition crossed : LockState := take_lock 2 rel2 8 (take_lock 1 rel 8 start).
Definition hard : LockState := take_lock 2 rel 8 (take_lock 1 rel2 8 crossed).
Lemma hard_reachable : lock_reachable hard.
Proof. by_steps. Qed.

Definition shared : LockState := take_lock 3 rel2 8 (take_lock 1 rel 1 start).
Definition soft : LockState := take_lock 3 rel 1 (take_lock 1 rel2 1 (take_lock 2 rel 8 shared)).
Lemma soft_reachable : lock_reachable soft.
Proof. by_steps. Qed.

Lemma start_ok : workspace_ok InitDeadLockChecking.
Proof. by apply init_workspace. Qed.

Definition answer {A B} (r : run (A * B)) : option A := match r with Done (a, _) => Some a | _ => None end.
End Deadlocks.
Import Queue Deadlocks.

Lemma CheckDeadLock_correct_witness :
  lwp (CheckDeadLock (th := thread 3) false 0 InitDeadLockChecking)
    (fun '(r, d') s' => lock_reachable s' /\ workspace_ok d' /\ signal_post (th := thread 3) soft r d' s') soft
  /\ fst <$> answer (CheckDeadLock (th := thread 3) false 0 InitDeadLockChecking soft) = Some (Some DS_SOFT_DEADLOCK).
Proof.
  split; [|by vm_compute]. apply (CheckDeadLock_correct (thread 3) limits).
  - apply soft_reachable.
  - done.
  - eexists. by vm_compute.
  - by vm_compute.
  - apply start_ok.
Defined.

Lemma DeadLockReport_correct_witness : exists d' s' lines,
  CheckDeadLock (th := thread 2) false 0 InitDeadLockChecking hard = Done ((Some DS_HARD_DEADLOCK, d'), s')
  /\ DeadLockReport d' = Done lines /\ lines <> [] /\ Forall (line_true hard []) lines.
Proof.
  assert (Hrun : answer (CheckDeadLock (th := thread 2) false 0 InitDeadLockChecking hard) <> None
    /\ fst <$> answer (CheckDeadLock (th := thread 2) false 0 InitDeadLockChecking hard) = Some (Some DS_HARD_DEADLOCK)) by (split; by vm_compute).
  destruct (CheckDeadLock (th := thread 2) false 0 InitDeadLockChecking hard) as [[[r d'] s']| |] eqn:E; [|by destruct Hrun..].
  destruct Hrun as [_ Hr]. injection Hr as ->. exists d', s'.
  destruct (DeadLockReport_correct (thread 2) limits false 0 InitDeadLockChecking hard d' s') as (lines & Hlines).
  - apply hard_reachable.
  - done.
  - eexists. by vm_compute.
  - by vm_compute.
  - apply start_ok.
  - exact E.
  - exists lines. exact (conj eq_refl Hlines).
Defined.

(** With 3 before 2 proposed for the first relation there is no cycle. *)
Lemma FindLockCycle_correct_witness : exists d',
  let orders := [MkOrder rel [3; 2]] in
  FindLockCycle (th := thread 1) soft 1 (set_orders orders InitDeadLockChecking) = Done (false, d')
  /\ ~ tc (waits_for soft orders) (leader soft 1) (leader soft 1).
Proof.
  assert (Hone : forall tag procs, find_order tag [MkOrder rel [3; 2]] = Some procs -> tag = rel /\ procs = [3; 2]).
  { intros tag procs. unfold find_order. cbn. case_decide as E; [|done]. intros [= <-]. by subst. }
  destruct (FindLockCycle_correct (thread 1) limits 1 (set_orders [MkOrder rel [3; 2]] InitDeadLockChecking) soft) as (b & d' & Hrun & Hb & _).
  - apply soft_reachable.
  - eexists. by vm_compute.
  - by vm_compute.
  - by vm_compute.
  - intros tag procs [-> ->]%Hone. eexists. split; [by vm_compute|]. apply perm_swap.
  - intros tag procs p [-> ->]%Hone Hp. rewrite !elem_of_cons, elem_of_nil in Hp. destruct Hp as [-> |[-> |[]]]; by vm_compute.
  - assert (Hf : answer (FindLockCycle (th := thread 1) soft 1 (set_orders [MkOrder rel [3; 2]] InitDeadLockChecking)) = Some false) by by vm_compute.
    rewrite Hrun in Hf. injection Hf as ->. exists d'. split; [exact Hrun|]. intros Hc. by apply Hb in Hc.
Defined.

Lemma TopoSort_correct_witness : exists l order cs, LockMethodLockHash soft !! rel = Some l /\ waitProcs l = [2; 3] /\
  TopoSort soft (waitProcs l) [MkEdge 3 2 rel 0 0] = Done (true, order, cs) /\ satisfies soft (waitProcs l) [MkEdge 3 2 rel 0 0] order.
Proof.
  eexists. assert (Hl : LockMethodLockHash soft !! rel = Some _) by by vm_compute.
  destruct (TopoSort_correct soft rel _ [MkEdge 3 2 rel 0 0] soft_reachable Hl) as (ok & order & cs & E & _ & Hres).
  - by repeat constructor.
  - exists order, cs. split; [exact Hl|]. split; [done|]. assert (ok = true) as ->; [|by split; [exact E|apply Hres]].
    assert (Ho : exists o c, TopoSort soft [2; 3] [MkEdge 3 2 rel 0 0] = Done (true, o, c)) by by eexists _, _; vm_compute.
    destruct Ho as (o & c & Ho). cbn in E, Ho. congruence.
Defined.
