(* ===== verification/Numeric.v ===== *)
(** Arithmetic of the SQL type numeric: [utils/adt/numeric.cpp],
    [include/utils/numeric.h].

    A number is a list of digits to the base 10000 with a weight, a sign and a
    display scale.  [digits] are the digits in use; [room] is what the buffer
    holds before them, nearest first: [round_var] puts a carry there.  A variable
    on the digits of a stored value ([init_var_from_num]) has no room.  Counts,
    weights and scales are [Z] (an [int] of the source, far from its limits);
    accumulators that come near the limit of their type are checked or wrapped. *)
From S2P Require Import Prelude.
#[local] Open Scope Z_scope.

Definition NBASE : Z := 10000.
Definition HALF_NBASE : Z := 5000.
Definition DEC_DIGITS : Z := 4.
Definition MUL_GUARD_DIGITS : Z := 2.
Definition NUMERIC_POS : Z := 0x0000.
Definition NUMERIC_NEG : Z := 0x4000.
Definition NUMERIC_NAN : Z := 0xC000.
Definition NUMERIC_MIN_SIG_DIGITS : Z := 16.
Definition NUMERIC_MIN_DISPLAY_SCALE : Z := 0.
Definition NUMERIC_MAX_DISPLAY_SCALE : Z := 1000.
Definition round_powers : list Z := [0; 1000; 100; 10].

Record NumericVar := MkVar {
  digits : list Z;
  weight : Z;
  sign : Z;
  dscale : Z;
  room : list Z }.

Definition ndigits (v : NumericVar) : Z := zlen (digits v).
Definition set_sign (x : Z) (v : NumericVar) : NumericVar := MkVar (digits v) (weight v) x (dscale v) (room v).
Definition set_dscale (x : Z) (v : NumericVar) : NumericVar := MkVar (digits v) (weight v) (sign v) x (room v).

Definition const_zero : NumericVar := MkVar [] 0 NUMERIC_POS 0 [].
Definition const_one : NumericVar := MkVar [1] 0 NUMERIC_POS 0 [].
Definition const_nan : NumericVar := MkVar [] 0 NUMERIC_NAN 0 [].

(** [zero_var]; callers set the scale. *)
Definition zero_var (scale : Z) : NumericVar := MkVar [] 0 NUMERIC_POS scale [].

(** [set_var_from_var] copies into a fresh buffer with a spare digit. *)
Definition set_var_from_var (v : NumericVar) : NumericVar := MkVar (digits v) (weight v) (sign v) (dscale v) [0].

(** An arithmetic result of type [int]. *)
Definition INT_MAX : Z := 2 ^ 31 - 1.
Definition int32 (x : Z) : run Z := if (- 2 ^ 31 <=? x) && (x <=? INT_MAX) then Done x else Outside.

(** ** strip_var *)
Fixpoint strip_leading (digits : list Z) (weight : Z) (room : list Z) : list Z * Z * list Z :=
  match digits with
  | d :: ds => if d =? 0 then strip_leading ds (weight - 1) (d :: room) else (digits, weight, room)
  | [] => ([], weight, room)
  end.

Fixpoint strip_trailing (digits : list Z) : list Z :=
  match digits with
  | [] => []
  | d :: ds => match strip_trailing ds with [] => if d =? 0 then [] else [d] | ds => d :: ds end
  end.

Definition strip_var (v : NumericVar) : NumericVar :=
  let '(ds, w, rm) := strip_leading (digits v) (weight v) (room v) in
  match strip_trailing ds with
  | [] => MkVar [] 0 NUMERIC_POS (dscale v) rm
  | ds => MkVar ds w (sign v) (dscale v) rm
  end.

(** ** round_var, trunc_var *)

(** A carry of one into the digits, last digit first. *)
Fixpoint carry_up (rdigits : list Z) : Z * list Z :=
  match rdigits with
  | [] => (1, [])
  | d :: ds =>
      if NBASE <=? 1 + d then let '(carry, ds) := carry_up ds in (carry, 1 + d - NBASE :: ds)
      else (0, 1 + d :: ds)
  end.

(** Within the last digit: the digit and the carry. *)
Definition round_digit (d pow10 : Z) : Z * Z :=
  let extra := Z.rem d pow10 in
  if pow10 ÷ 2 <=? extra then
    let x := pow10 + (d - extra) in
    if NBASE <=? x then (x - NBASE, 1) else (x, 0)
  else (d - extra, 0).

(** The digits [before] get the carry, [after] stay; a carry out of the top
    digit needs a digit of room. *)
Definition put_carry (carry : Z) (before after : list Z) (v : NumericVar) (rscale : Z) : run NumericVar :=
  if carry =? 0 then mret (MkVar (before ++ after) (weight v) (sign v) rscale (room v))
  else
    let '(carry, rds) := carry_up (rev before) in
    if carry =? 0 then mret (MkVar (rev rds ++ after) (weight v) (sign v) rscale (room v))
    else
      match room v with
      | r :: rm => if NBASE <=? carry + r then Outside
                   else mret (MkVar (carry + r :: rev rds ++ after) (weight v + 1) (sign v) rscale rm)
      | [] => Outside
      end.

Definition round_var (v : NumericVar) (rscale : Z) : run NumericVar :=
  let di := (weight v + 1) * DEC_DIGITS + rscale in
  if di <? 0 then mret (MkVar [] 0 NUMERIC_POS rscale (room v))
  else
    let n := (di + DEC_DIGITS - 1) ÷ DEC_DIGITS in
    let di := Z.rem di DEC_DIGITS in
    if (n <? ndigits v) || ((n =? ndigits v) && (0 <? di)) then
      if di =? 0 then
        d ← inside (zlookup (digits v) n);
        put_carry (if HALF_NBASE <=? d then 1 else 0) (take (Z.to_nat n) (digits v)) [] v rscale
      else
        pow10 ← inside (zlookup round_powers di);
        d ← inside (zlookup (digits v) (n - 1));
        let '(d, carry) := round_digit d pow10 in
        put_carry carry (take (Z.to_nat (n - 1)) (digits v)) [d] v rscale
    else mret (set_dscale rscale v).

Definition trunc_var (v : NumericVar) (rscale : Z) : run NumericVar :=
  let di := (weight v + 1) * DEC_DIGITS + rscale in
  if di <=? 0 then mret (MkVar [] 0 NUMERIC_POS rscale (room v))
  else
    let n := (di + DEC_DIGITS - 1) ÷ DEC_DIGITS in
    if n <=? ndigits v then
      let di := Z.rem di DEC_DIGITS in
      if 0 <? di then
        pow10 ← inside (zlookup round_powers di);
        d ← inside (zlookup (digits v) (n - 1));
        mret (MkVar (take (Z.to_nat (n - 1)) (digits v) ++ [d - Z.rem d pow10]) (weight v) (sign v) rscale (room v))
      else mret (MkVar (take (Z.to_nat n) (digits v)) (weight v) (sign v) rscale (room v))
    else mret (set_dscale rscale v).

(** ** Comparison *)

(** The digits before the first common one: [None] when one is not zero. *)
Fixpoint skip_zeros (digits : list Z) (weight weight' : Z) : option (list Z * Z) :=
  match digits with
  | d :: ds => if weight' <? weight then if d =? 0 then skip_zeros ds (weight - 1) weight' else None
               else Some (digits, weight)
  | [] => Some ([], weight)
  end.

Definition some_digit (digits : list Z) : bool := existsb (fun d => negb (d =? 0)) digits.
Definition cmp_rest (digits1 digits2 : list Z) : Z :=
  if some_digit digits1 then 1 else if some_digit digits2 then -1 else 0.

Fixpoint cmp_digits (digits1 digits2 : list Z) : Z :=
  match digits1, digits2 with
  | d1 :: ds1, d2 :: ds2 => if d1 - d2 =? 0 then cmp_digits ds1 ds2 else if 0 <? d1 - d2 then 1 else -1
  | _, _ => cmp_rest digits1 digits2
  end.

Definition cmp_abs_common (digits1 : list Z) (weight1 : Z) (digits2 : list Z) (weight2 : Z) : Z :=
  match skip_zeros digits1 weight1 weight2 with
  | None => 1
  | Some (digits1, weight1) =>
      match skip_zeros digits2 weight2 weight1 with
      | None => -1
      | Some (digits2, weight2) => if weight1 =? weight2 then cmp_digits digits1 digits2 else cmp_rest digits1 digits2
      end
  end.
Definition cmp_abs (v1 v2 : NumericVar) : Z := cmp_abs_common (digits v1) (weight v1) (digits v2) (weight v2).

Definition cmp_var_common (digits1 : list Z) (weight1 sign1 : Z) (digits2 : list Z) (weight2 sign2 : Z) : Z :=
  if zlen digits1 =? 0 then
    if zlen digits2 =? 0 then 0 else if sign2 =? NUMERIC_NEG then 1 else -1
  else if zlen digits2 =? 0 then if sign1 =? NUMERIC_POS then 1 else -1
  else if sign1 =? NUMERIC_POS then
    if sign2 =? NUMERIC_NEG then 1 else cmp_abs_common digits1 weight1 digits2 weight2
  else if sign2 =? NUMERIC_POS then -1
  else cmp_abs_common digits2 weight2 digits1 weight1.
Definition cmp_var (v1 v2 : NumericVar) : Z :=
  cmp_var_common (digits v1) (weight v1) (sign v1) (digits v2) (weight v2) (sign v2).

(** ** Addition and subtraction *)

(** A digit, if the index is inside. *)
Definition digit_at (digits : list Z) (i : Z) : Z := default 0 (zlookup digits i).

(** The [n] digits of the sum, last first; [i1] and [i2] are the indices of the
    digits before. *)
Fixpoint add_loop (n : nat) (digits1 digits2 : list Z) (i1 i2 carry : Z) (res : list Z) : Z * list Z :=
  match n with
  | O => (carry, res)
  | S n =>
      let i1 := i1 - 1 in
      let i2 := i2 - 1 in
      let carry := carry + digit_at digits1 i1 + digit_at digits2 i2 in
      if NBASE <=? carry then add_loop n digits1 digits2 i1 i2 1 (carry - NBASE :: res)
      else add_loop n digits1 digits2 i1 i2 0 (carry :: res)
  end.

Fixpoint sub_loop (n : nat) (digits1 digits2 : list Z) (i1 i2 borrow : Z) (res : list Z) : Z * list Z :=
  match n with
  | O => (borrow, res)
  | S n =>
      let i1 := i1 - 1 in
      let i2 := i2 - 1 in
      let borrow := borrow + digit_at digits1 i1 - digit_at digits2 i2 in
      if borrow <? 0 then sub_loop n digits1 digits2 i1 i2 (-1) (borrow + NBASE :: res)
      else sub_loop n digits1 digits2 i1 i2 0 (borrow :: res)
  end.

Definition res_rscale (v1 v2 : NumericVar) : Z := Z.max (ndigits v1 - weight v1 - 1) (ndigits v2 - weight v2 - 1).

(** The sign is the caller's. *)
Definition add_abs (v1 v2 : NumericVar) (sg : Z) : run NumericVar :=
  let res_weight := Z.max (weight v1) (weight v2) + 1 in
  let rs := res_rscale v1 v2 in
  let n := rs + res_weight + 1 in
  let n := if n <=? 0 then 1 else n in
  let '(carry, res) := add_loop (Z.to_nat n) (digits v1) (digits v2) (rs + weight v1 + 1) (rs + weight v2 + 1) 0 [] in
  if carry =? 0 then mret (set_sign sg (strip_var (MkVar res res_weight sg (Z.max (dscale v1) (dscale v2)) [0])))
  else Outside.

Definition sub_abs (v1 v2 : NumericVar) (sg : Z) : run NumericVar :=
  let res_weight := weight v1 in
  let rs := res_rscale v1 v2 in
  let n := rs + res_weight + 1 in
  let n := if n <=? 0 then 1 else n in
  let '(borrow, res) := sub_loop (Z.to_nat n) (digits v1) (digits v2) (rs + weight v1 + 1) (rs + weight v2 + 1) 0 [] in
  if borrow =? 0 then mret (set_sign sg (strip_var (MkVar res res_weight sg (Z.max (dscale v1) (dscale v2)) [0])))
  else Outside.

(** Operands of different signs: the larger absolute value gives the sign. *)
Definition sub_larger (v1 v2 : NumericVar) (sign1 sign2 : Z) : run NumericVar :=
  let c := cmp_abs v1 v2 in
  if c =? 0 then mret (zero_var (Z.max (dscale v1) (dscale v2)))
  else if c =? 1 then sub_abs v1 v2 sign1
  else sub_abs v2 v1 sign2.

Definition add_var (v1 v2 : NumericVar) : run NumericVar :=
  if sign v1 =? NUMERIC_POS then
    if sign v2 =? NUMERIC_POS then add_abs v1 v2 NUMERIC_POS else sub_larger v1 v2 NUMERIC_POS NUMERIC_NEG
  else
    if sign v2 =? NUMERIC_POS then sub_larger v1 v2 NUMERIC_NEG NUMERIC_POS else add_abs v1 v2 NUMERIC_NEG.

Definition sub_var (v1 v2 : NumericVar) : run NumericVar :=
  if sign v1 =? NUMERIC_POS then
    if sign v2 =? NUMERIC_NEG then add_abs v1 v2 NUMERIC_POS else sub_larger v1 v2 NUMERIC_POS NUMERIC_NEG
  else
    if sign v2 =? NUMERIC_NEG then sub_larger v1 v2 NUMERIC_NEG NUMERIC_POS else add_abs v1 v2 NUMERIC_NEG.

(** ** Multiplication *)

(** Carry propagation over the digits, last first. *)
Fixpoint propagate_carry (rdig : list Z) (carry : Z) : run (Z * list Z) :=
  match rdig with
  | [] => mret (carry, [])
  | d :: rdig =>
      newdig ← int32 (d + carry);
      let carry := if NBASE <=? newdig then newdig ÷ NBASE else 0 in
      '(c, rest) ← propagate_carry rdig carry;
      mret (c, newdig - carry * NBASE :: rest)
  end.

Definition normalize (dig : list Z) : run (list Z) :=
  '(carry, rdig) ← propagate_carry (rev dig) 0;
  if carry =? 0 then mret (rev rdig) else Outside.

(** [dig[i + i2] += var1digit * digits2[i2]] *)
Fixpoint add_row (var1digit : Z) (digits2 : list Z) (i : Z) (dig : list Z) : run (list Z) :=
  match digits2 with
  | [] => mret dig
  | d2 :: digits2 =>
      x ← inside (zlookup dig i);
      p ← int32 (var1digit * d2);
      x ← int32 (x + p);
      dig ← inside (zupdate dig i x);
      add_row var1digit digits2 (i + 1) dig
  end.

Definition max_maxdig : Z := (INT_MAX - INT_MAX ÷ NBASE) ÷ (NBASE - 1).

(** The rows [i1 = n - 1], ..., 0. *)
Fixpoint mul_rows (n : nat) (digits1 digits2 : list Z) (res_ndigits maxdig : Z) (dig : list Z) : run (list Z) :=
  match n with
  | O => mret dig
  | S i1 =>
      var1digit ← inside (digits1 !! i1);
      if var1digit =? 0 then mul_rows i1 digits1 digits2 res_ndigits maxdig dig
      else
        let maxdig := maxdig + var1digit in
        '(maxdig, dig) ← (if max_maxdig <? maxdig then dig ← normalize dig; mret (1 + var1digit, dig) else mret (maxdig, dig));
        let i2limit := Z.min (zlen digits2) (res_ndigits - Z.of_nat i1 - 2) in
        dig ← add_row var1digit (take (Z.to_nat i2limit) digits2) (Z.of_nat i1 + 2) dig;
        mul_rows i1 digits1 digits2 res_ndigits maxdig dig
  end.

Definition mul_var (v1 v2 : NumericVar) (rscale : Z) : run NumericVar :=
  let '(v1, v2) := if ndigits v2 <? ndigits v1 then (v2, v1) else (v1, v2) in
  if (ndigits v1 =? 0) || (ndigits v2 =? 0) then mret (zero_var rscale)
  else
    let res_sign := if sign v1 =? sign v2 then NUMERIC_POS else NUMERIC_NEG in
    let res_weight := weight v1 + weight v2 + 2 in
    let maxdigits := res_weight + 1 + (rscale + DEC_DIGITS - 1) ÷ DEC_DIGITS + MUL_GUARD_DIGITS in
    let res_ndigits := Z.min (ndigits v1 + ndigits v2 + 1) maxdigits in
    if res_ndigits <? 3 then mret (zero_var rscale)
    else
      dig ← mul_rows (Z.to_nat (Z.min (ndigits v1 - 1) (res_ndigits - 3) + 1)) (digits v1) (digits v2) res_ndigits 0
              (replicate (Z.to_nat res_ndigits) 0);
      res_digits ← normalize dig;
      result ← round_var (MkVar res_digits res_weight res_sign 0 [0]) rscale;
      mret (strip_var result).

(** ** Division by an integer *)

(** [n] quotient digits from the digit [i]; [carry] is of an unsigned type with
    the cast [wrap]. *)
Fixpoint short_div (n : nat) (wrap : Z -> Z) (divisor carry i : Z) (digits : list Z) : list Z :=
  match n with
  | O => []
  | S n =>
      let carry := wrap (wrap (carry * NBASE) + digit_at digits i) in
      s16 (carry ÷ divisor) :: short_div n wrap divisor (Z.rem carry divisor) (i + 1) digits
  end.

(** Round or truncate, and strip. *)
Definition finish_div (v : NumericVar) (rscale : Z) (round : bool) : run NumericVar :=
  result ← (if round then round_var v rscale else trunc_var v rscale);
  mret (strip_var result).

Definition div_ndigits (res_weight rscale : Z) (round : bool) : Z :=
  let n := Z.max (res_weight + 1 + (rscale + DEC_DIGITS - 1) ÷ DEC_DIGITS) 1 in
  if round then n + 1 else n.

Definition div_var_int (v : NumericVar) (ival ival_weight rscale : Z) (round : bool) : run NumericVar :=
  if ival =? 0 then Report ERRCODE_DIVISION_BY_ZERO
  else if ndigits v =? 0 then mret (zero_var rscale)
  else
    let res_sign := if sign v =? NUMERIC_POS then if 0 <? ival then NUMERIC_POS else NUMERIC_NEG
                    else if 0 <? ival then NUMERIC_NEG else NUMERIC_POS in
    let res_weight := weight v - ival_weight in
    let n := Z.to_nat (div_ndigits res_weight rscale round) in
    let divisor := Z.abs ival in
    let res := short_div n (if divisor <=? (2 ^ 32 - 1) ÷ NBASE then u32 else u64) divisor 0 0 (digits v) in
    finish_div (MkVar res res_weight res_sign 0 [0]) rscale round.

(** ** Long division *)

(** Digits, last first, times [d]. *)
Fixpoint scale_digits (rdigits : list Z) (d carry : Z) : Z * list Z :=
  match rdigits with
  | [] => (carry, [])
  | x :: rdigits =>
      let carry := carry + x * d in
      let '(c, rest) := scale_digits rdigits d (carry ÷ NBASE) in
      (c, Z.rem carry NBASE :: rest)
  end.

(** The estimate of a quotient digit is lowered; [fuel] is more than is needed. *)
Fixpoint lower_qhat (fuel : nat) (divisor1 divisor2 next2digits next qhat : Z) : run Z :=
  match fuel with
  | O => Outside
  | S fuel =>
      if (next2digits - qhat * divisor1) * NBASE + next <? divisor2 * qhat
      then lower_qhat fuel divisor1 divisor2 next2digits next (qhat - 1)
      else mret qhat
  end.

(** [qhat] times the divisor is subtracted from a part of the dividend, both last
    digit first: the borrow and the digits. *)
Fixpoint mul_sub (rdividend rdivisor : list Z) (qhat borrow : Z) : run (Z * list Z) :=
  match rdividend, rdivisor with
  | x :: rdividend, y :: rdivisor =>
      tmp_result ← int32 (x - borrow - y * qhat);
      let borrow := (NBASE - 1 - tmp_result) ÷ NBASE in
      '(b, rest) ← mul_sub rdividend rdivisor qhat borrow;
      mret (b, tmp_result + borrow * NBASE :: rest)
  | [], [] => mret (borrow, [])
  | _, _ => Outside
  end.

Fixpoint add_back (rdividend rdivisor : list Z) (carry : Z) : Z * list Z :=
  match rdividend, rdivisor with
  | x :: rdividend, y :: rdivisor =>
      let carry := carry + x + y in
      if NBASE <=? carry then let '(c, rest) := add_back rdividend rdivisor 1 in (c, carry - NBASE :: rest)
      else let '(c, rest) := add_back rdividend rdivisor 0 in (c, carry :: rest)
  | _, _ => (carry, [])
  end.

(** One quotient digit; [part] is [dividend_j[0 .. var2ndigits]]. *)
Definition div_digit (part divisor : list Z) (divisor1 divisor2 : Z) : run (Z * list Z) :=
  x0 ← inside (part !! 0%nat);
  x1 ← inside (part !! 1%nat);
  let next2digits := x0 * NBASE + x1 in
  if next2digits =? 0 then mret (0, part)
  else
    x2 ← inside (part !! 2%nat);
    qhat ← lower_qhat 4 divisor1 divisor2 next2digits x2 (if x0 =? divisor1 then NBASE - 1 else next2digits ÷ divisor1);
    if 0 <? qhat then
      '(borrow, rpart) ← mul_sub (rev part) (rev divisor) qhat 0;
      if borrow =? 0 then mret (qhat, rev rpart)
      else
        let '(carry, rpart) := add_back rpart (rev divisor) 0 in
        if carry =? 1 then mret (qhat - 1, rev rpart) else Outside
    else mret (qhat, part).

(** The quotient digits [j], ... *)
Fixpoint div_loop (n : nat) (j : nat) (dividend divisor : list Z) (divisor1 divisor2 : Z) : run (list Z) :=
  match n with
  | O => mret []
  | S n =>
      let part := take (length divisor) (drop j dividend) in
      '(q, part) ← div_digit part divisor divisor1 divisor2;
      rest ← div_loop n (S j) (take j dividend ++ part ++ drop (j + length divisor) dividend) divisor divisor1 divisor2;
      mret (q :: rest)
  end.

(** The dividend and the divisor are scaled so that the first digit of the
    divisor is at least [HALF_NBASE]. *)
Definition scale_operands (var1ndigits : nat) (dividend divisor : list Z) : run (list Z * list Z) :=
  d1 ← inside (divisor !! 1%nat);
  if d1 <? HALF_NBASE then
    let d := NBASE ÷ (d1 + 1) in
    let '(carry, rdivisor) := scale_digits (rev (drop 1 divisor)) d 0 in
    let '(carry', rdividend) := scale_digits (rev (take (S var1ndigits) dividend)) d 0 in
    if (carry =? 0) && (carry' =? 0) then mret (rev rdividend ++ drop (S var1ndigits) dividend, 0 :: rev rdivisor) else Outside
  else mret (dividend, divisor).

Definition long_div (v1 v2 : NumericVar) (rscale : Z) (round : bool) : run NumericVar :=
  if ndigits v1 =? 0 then mret (zero_var rscale)
  else
    let res_sign := if sign v1 =? sign v2 then NUMERIC_POS else NUMERIC_NEG in
    let res_weight := weight v1 - weight v2 in
    let res_ndigits := div_ndigits res_weight rscale round in
    let div_nd := Z.max (res_ndigits + ndigits v2) (ndigits v1) in
    let dividend := 0 :: digits v1 ++ replicate (Z.to_nat (div_nd - ndigits v1)) 0 in
    '(dividend, divisor) ← scale_operands (length (digits v1)) dividend (0 :: digits v2);
    divisor1 ← inside (divisor !! 1%nat);
    divisor2 ← inside (divisor !! 2%nat);
    res ← div_loop (Z.to_nat res_ndigits) 0 dividend divisor divisor1 divisor2;
    finish_div (MkVar res res_weight res_sign 0 [0]) rscale round.

Definition div_var (v1 v2 : NumericVar) (rscale : Z) (round : bool) : run NumericVar :=
  match digits v2 with
  | [] => Report ERRCODE_DIVISION_BY_ZERO
  | d1 :: ds =>
      if d1 =? 0 then Report ERRCODE_DIVISION_BY_ZERO
      else
        match ds with
        | [] => div_var_int v1 (if sign v2 =? NUMERIC_NEG then - d1 else d1) (weight v2) rscale round
        | [d2] =>
            let idivisor := d1 * NBASE + d2 in
            div_var_int v1 (if sign v2 =? NUMERIC_NEG then - idivisor else idivisor) (weight v2 - 1) rscale round
        | _ => long_div v1 v2 rscale round
        end
  end.

(** ** The scale of a quotient, modulo, ceiling, floor *)

(** The weight and the first digit of a number that may have leading zeros. *)
Fixpoint first_digit (digits : list Z) (weight : Z) : Z * Z :=
  match digits with
  | [] => (0, 0)
  | d :: ds =>
      if d =? 0 then first_digit ds (weight - 1) else (weight, d)
  end.

Definition select_div_scale (v1 v2 : NumericVar) : Z :=
  let '(weight1, firstdigit1) := first_digit (digits v1) (weight v1) in
  let '(weight2, firstdigit2) := first_digit (digits v2) (weight v2) in
  let qweight := weight1 - weight2 in
  let qweight := if firstdigit1 <=? firstdigit2 then qweight - 1 else qweight in
  let rscale := NUMERIC_MIN_SIG_DIGITS - qweight * DEC_DIGITS in
  let rscale := Z.max rscale (dscale v1) in
  let rscale := Z.max rscale (dscale v2) in
  let rscale := Z.max rscale NUMERIC_MIN_DISPLAY_SCALE in
  Z.min rscale NUMERIC_MAX_DISPLAY_SCALE.

Definition mod_var (v1 v2 : NumericVar) : run NumericVar :=
  tmp ← div_var v1 v2 0 false;
  tmp ← mul_var v2 tmp (dscale v2);
  sub_var v1 tmp.

Definition ceil_var (v : NumericVar) : run NumericVar :=
  tmp ← trunc_var (MkVar (digits v) (weight v) (sign v) (dscale v) [0]) 0;
  tmp ← (if (sign v =? NUMERIC_POS) && negb (cmp_var v tmp =? 0) then add_var tmp const_one else mret tmp);
  mret (set_var_from_var tmp).

Definition floor_var (v : NumericVar) : run NumericVar :=
  tmp ← trunc_var (MkVar (digits v) (weight v) (sign v) (dscale v) [0]) 0;
  tmp ← (if (sign v =? NUMERIC_NEG) && negb (cmp_var v tmp =? 0) then sub_var tmp const_one else mret tmp);
  mret (set_var_from_var tmp).

(** ** The accumulator of SUM *)

Record NumericSumAccum := MkAccum {
  acc_ndigits : Z;
  acc_weight : Z;
  acc_dscale : Z;
  num_uncarried : Z;
  have_carry_space : bool;
  pos_digits : list Z;
  neg_digits : list Z }.

Definition empty_accum : NumericSumAccum := MkAccum 0 0 0 0 false [] [].

(** Carries of one of the two arrays; the last carry is dropped. *)
Definition carry_digits (dig : list Z) : run (list Z) :=
  '(_, rdig) ← propagate_carry (rev dig) 0;
  mret (rev rdig).

Definition accum_sum_carry (a : NumericSumAccum) : run NumericSumAccum :=
  if num_uncarried a =? 0 then mret a
  else
    p0 ← inside (pos_digits a !! 0%nat);
    n0 ← inside (neg_digits a !! 0%nat);
    if (p0 =? 0) && (n0 =? 0) then
      pos ← carry_digits (pos_digits a);
      newdig ← inside (pos !! 0%nat);
      neg ← carry_digits (neg_digits a);
      newdig' ← inside (neg !! 0%nat);
      mret (MkAccum (acc_ndigits a) (acc_weight a) (acc_dscale a) 0
              (have_carry_space a && negb (0 <? newdig) && negb (0 <? newdig')) pos neg)
    else Outside.

(** The old digits in a new array of [n] zeros, from the index [weightdiff]. *)
Definition enlarge (n weightdiff : Z) (digits : list Z) : run (list Z) :=
  if (0 <=? weightdiff) && (weightdiff + zlen digits <=? n)
  then mret (replicate (Z.to_nat weightdiff) 0 ++ digits ++ replicate (Z.to_nat (n - weightdiff - zlen digits)) 0)
  else Outside.

Definition accum_sum_rescale (a : NumericSumAccum) (v : NumericVar) : run NumericSumAccum :=
  let old_weight := acc_weight a in
  let old_ndigits := acc_ndigits a in
  let '(accum_weight, accum_ndigits) :=
    if old_weight <=? weight v then (weight v + 1, old_ndigits + (weight v + 1 - old_weight))
    else if negb (have_carry_space a) then (old_weight + 1, old_ndigits + 1)
    else (old_weight, old_ndigits) in
  let accum_rscale := accum_ndigits - accum_weight - 1 in
  let val_rscale := ndigits v - weight v - 1 in
  let accum_ndigits := if accum_rscale <? val_rscale then accum_ndigits + (val_rscale - accum_rscale) else accum_ndigits in
  let scale := Z.max (acc_dscale a) (dscale v) in
  if negb (accum_ndigits =? old_ndigits) || negb (accum_weight =? old_weight) then
    pos ← enlarge accum_ndigits (accum_weight - old_weight) (pos_digits a);
    neg ← enlarge accum_ndigits (accum_weight - old_weight) (neg_digits a);
    mret (MkAccum accum_ndigits accum_weight scale (num_uncarried a) true pos neg)
  else mret (MkAccum old_ndigits old_weight scale (num_uncarried a) (have_carry_space a) (pos_digits a) (neg_digits a)).

(** [accum_digits[i++] += val_digits[val_i]] *)
Fixpoint add_digits (val_digits : list Z) (i : Z) (accum_digits : list Z) : run (list Z) :=
  match val_digits with
  | [] => mret accum_digits
  | d :: val_digits =>
      x ← inside (zlookup accum_digits i);
      x ← int32 (x + d);
      accum_digits ← inside (zupdate accum_digits i x);
      add_digits val_digits (i + 1) accum_digits
  end.

Definition accum_sum_add (a : NumericSumAccum) (v : NumericVar) : run NumericSumAccum :=
  a ← (if num_uncarried a =? NBASE - 1 then accum_sum_carry a else mret a);
  a ← accum_sum_rescale a v;
  let i := acc_weight a - weight v in
  if sign v =? NUMERIC_POS then
    pos ← add_digits (digits v) i (pos_digits a);
    mret (MkAccum (acc_ndigits a) (acc_weight a) (acc_dscale a) (num_uncarried a + 1) (have_carry_space a) pos (neg_digits a))
  else
    neg ← add_digits (digits v) i (neg_digits a);
    mret (MkAccum (acc_ndigits a) (acc_weight a) (acc_dscale a) (num_uncarried a + 1) (have_carry_space a) (pos_digits a) neg).

Definition accum_sum_final (a : NumericSumAccum) : run NumericVar :=
  if acc_ndigits a =? 0 then mret (set_var_from_var const_zero)
  else
    a ← accum_sum_carry a;
    let pos_var := MkVar (s16 <$> pos_digits a) (acc_weight a) NUMERIC_POS (acc_dscale a) [] in
    let neg_var := MkVar (s16 <$> neg_digits a) (acc_weight a) NUMERIC_NEG (acc_dscale a) [] in
    result ← add_var pos_var neg_var;
    mret (strip_var result).

(** ** Integers *)

(** The digits of an unsigned number in a buffer of [size] digits. *)
Fixpoint uint_digits (size : nat) (uval : Z) (res : list Z) : run (list Z) :=
  match size with
  | O => Outside
  | S size =>
      let newuval := uval ÷ NBASE in
      let res := s16 (uval - newuval * NBASE) :: res in
      if newuval =? 0 then mret res else uint_digits size newuval res
  end.

(** What is left of the buffer is not initialised: no room. *)
Definition int_to_numericvar (w : Z) (size : nat) (val : Z) : run NumericVar :=
  let sg := if val <? 0 then NUMERIC_NEG else NUMERIC_POS in
  let uval := if val <? 0 then uN w (- val) else val in
  if val =? 0 then mret (MkVar [] 0 sg 0 [])
  else
    ds ← uint_digits size uval [];
    mret (MkVar ds (zlen ds - 1) sg 0 []).
Definition int64_to_numericvar (val : Z) : run NumericVar := int_to_numericvar 64 5 val.
Definition int128_to_numericvar (val : Z) : run NumericVar := int_to_numericvar 128 10 val.

Definition PG_INT_MIN (w : Z) : Z := - 2 ^ (w - 1).
Definition PG_INT_MAX (w : Z) : Z := 2 ^ (w - 1) - 1.
Definition no_overflow (w x : Z) : option Z := if (PG_INT_MIN w <=? x) && (x <=? PG_INT_MAX w) then Some x else None.

(** The negated number from the digit [i] on; [None] is an overflow. *)
Fixpoint int_loop (n : nat) (w i : Z) (digits : list Z) (val : Z) : option Z :=
  match n with
  | O => Some val
  | S n =>
      val ← no_overflow w (val * NBASE);
      val ← (if i <? zlen digits then no_overflow w (val - digit_at digits i) else Some val);
      int_loop n w (i + 1) digits val
  end.

(** [None] is the return value false. *)
Definition numericvar_to_int (w : Z) (v : NumericVar) (can_ignore : bool) : run (option Z) :=
  rounded ← round_var (set_var_from_var v) 0;
  let rounded := strip_var rounded in
  match digits rounded with
  | [] => mret (Some 0)
  | d :: _ =>
      if (0 <=? weight rounded) && (ndigits rounded <=? weight rounded + 1) then
        let neg := sign rounded =? NUMERIC_NEG in
        match int_loop (Z.to_nat (weight rounded)) w 1 (digits rounded) (- d) with
        | None => mret (if can_ignore then Some (if neg then PG_INT_MIN w else PG_INT_MAX w) else None)
        | Some val =>
            mret (if neg then Some val else if val =? PG_INT_MIN w then None else Some (- val))
        end
      else Outside
  end.
Definition numericvar_to_int64 (v : NumericVar) (can_ignore : bool) : run (option Z) := numericvar_to_int 64 v can_ignore.
Definition numericvar_to_int128 (v : NumericVar) : run (option Z) := numericvar_to_int 128 v false.

Definition numericvar_to_int32 (v : NumericVar) (can_ignore : bool) : run Z :=
  r ← numericvar_to_int64 v can_ignore;
  match r with
  | None => Report ERRCODE_NUMERIC_VALUE_OUT_OF_RANGE
  | Some val =>
      if can_ignore && ((INT_MAX <? val) || (val <? PG_INT_MIN 32)) then mret (if INT_MAX <? val then INT_MAX else PG_INT_MIN 32)
      else if s32 val =? val then mret (s32 val) else Report ERRCODE_NUMERIC_VALUE_OUT_OF_RANGE
  end.

(** ** The stored form

    The 16-bit words behind the length of the varlena. *)
Definition Numeric : Type := list Z.

Definition NUMERIC_SIGN_MASK : Z := 0xC000.
Definition NUMERIC_SHORT : Z := 0x8000.
Definition NUMERIC_BI_MASK : Z := 0xF000.
Definition NUMERIC_SHORT_SIGN_MASK : Z := 0x2000.
Definition NUMERIC_SHORT_DSCALE_MASK : Z := 0x1F80.
Definition NUMERIC_SHORT_DSCALE_SHIFT : Z := 7.
Definition NUMERIC_SHORT_DSCALE_MAX : Z := Z.shiftr NUMERIC_SHORT_DSCALE_MASK NUMERIC_SHORT_DSCALE_SHIFT.
Definition NUMERIC_SHORT_WEIGHT_SIGN_MASK : Z := 0x0040.
Definition NUMERIC_SHORT_WEIGHT_MASK : Z := 0x003F.
Definition NUMERIC_SHORT_WEIGHT_MAX : Z := NUMERIC_SHORT_WEIGHT_MASK.
Definition NUMERIC_SHORT_WEIGHT_MIN : Z := - (NUMERIC_SHORT_WEIGHT_MASK + 1).
Definition NUMERIC_DSCALE_MASK : Z := 0x3FFF.

Definition NUMERIC_CAN_BE_SHORT (scale weight : Z) : bool :=
  (scale <=? NUMERIC_SHORT_DSCALE_MAX) && (weight <=? NUMERIC_SHORT_WEIGHT_MAX) && (NUMERIC_SHORT_WEIGHT_MIN <=? weight).

Definition n_header (num : Numeric) : run Z := inside (num !! 0%nat).
Definition NUMERIC_HEADER_IS_SHORT (header : Z) : bool := negb (Z.land header 0x8000 =? 0).
Definition NUMERIC_IS_NAN (num : Numeric) : run bool := h ← n_header num; mret (Z.land h NUMERIC_BI_MASK =? NUMERIC_NAN).
Definition NUMERIC_IS_BI (num : Numeric) : run bool := h ← n_header num; mret (NUMERIC_NAN <? Z.land h NUMERIC_BI_MASK).

Definition NUMERIC_SIGN (num : Numeric) : run Z :=
  h ← n_header num;
  mret (if NUMERIC_HEADER_IS_SHORT h then if Z.land h NUMERIC_SHORT_SIGN_MASK =? 0 then NUMERIC_POS else NUMERIC_NEG
        else Z.land h NUMERIC_SIGN_MASK).
Definition NUMERIC_DSCALE (num : Numeric) : run Z :=
  h ← n_header num;
  mret (if NUMERIC_HEADER_IS_SHORT h then Z.shiftr (Z.land h NUMERIC_SHORT_DSCALE_MASK) NUMERIC_SHORT_DSCALE_SHIFT
        else Z.land h NUMERIC_DSCALE_MASK).
Definition NUMERIC_WEIGHT (num : Numeric) : run Z :=
  h ← n_header num;
  if NUMERIC_HEADER_IS_SHORT h
  then mret (Z.lor (if Z.land h NUMERIC_SHORT_WEIGHT_SIGN_MASK =? 0 then 0 else Z.lnot NUMERIC_SHORT_WEIGHT_MASK)
               (Z.land h NUMERIC_SHORT_WEIGHT_MASK))
  else inside (num !! 1%nat).
Definition NUMERIC_DIGITS (num : Numeric) : run (list Z) :=
  h ← n_header num;
  mret (drop (if NUMERIC_HEADER_IS_SHORT h then 1 else 2) num).

Definition make_result (v : NumericVar) : run Numeric :=
  if sign v =? NUMERIC_NAN then mret [NUMERIC_NAN]
  else
    let '(ds, w, _) := strip_leading (digits v) (weight v) [] in
    let ds := strip_trailing ds in
    let '(w, sg) := match ds with [] => (0, NUMERIC_POS) | _ => (w, sign v) end in
    let result :=
      if NUMERIC_CAN_BE_SHORT (dscale v) w then
        u16 (Z.lor (Z.lor (Z.lor (if sg =? NUMERIC_NEG then Z.lor NUMERIC_SHORT NUMERIC_SHORT_SIGN_MASK else NUMERIC_SHORT)
                             (Z.shiftl (dscale v) NUMERIC_SHORT_DSCALE_SHIFT))
                      (if w <? 0 then NUMERIC_SHORT_WEIGHT_SIGN_MASK else 0))
               (Z.land w NUMERIC_SHORT_WEIGHT_MASK)) :: ds
      else u16 (Z.lor sg (Z.land (dscale v) NUMERIC_DSCALE_MASK)) :: s16 w :: ds in
    w' ← NUMERIC_WEIGHT result;
    s' ← NUMERIC_DSCALE result;
    if negb (w' =? w) || negb (s' =? dscale v) then Report ERRCODE_NUMERIC_VALUE_OUT_OF_RANGE else mret result.

Definition init_var_from_num (num : Numeric) : run NumericVar :=
  bi ← NUMERIC_IS_BI num;
  if bi : bool then Outside
  else
    w ← NUMERIC_WEIGHT num;
    sg ← NUMERIC_SIGN num;
    scale ← NUMERIC_DSCALE num;
    ds ← NUMERIC_DIGITS num;
    mret (MkVar ds w sg scale []).

Definition set_var_from_num (num : Numeric) : run NumericVar :=
  v ← init_var_from_num num;
  mret (set_var_from_var v).
