(* ===== verification/NumericVal.v ===== *)
(** The number that a variable of Numeric.v stands for, and the operations that
    only move digits: strip, comparison, truncation and rounding.

    [value] is the rational.  The proofs work with [dec v K], the absolute value
    in units of 10^-K, an integer for every large K. *)
From Stdlib Require Import QArith Qround Qpower.
From S2P Require Import Prelude Numeric.
From stdpp Require Import list.
#[local] Open Scope Z_scope.

(** ** Numbers from digits *)

Definition digit_ok (d : Z) : Prop := 0 <= d < NBASE.
Abbreviation digits_ok := (Forall digit_ok).

(** The powers of the base. *)
Definition pow_base (n : Z) : Z := NBASE ^ n.

Fixpoint num (ds : list Z) : Z :=
  match ds with
  | [] => 0
  | d :: ds => d * pow_base (zlen ds) + num ds
  end.

Lemma pow_base_0 : pow_base 0 = 1.
Proof. done. Qed.
Lemma pow_base_pos n : 0 <= n -> 0 < pow_base n.
Proof. intros. by apply Z.pow_pos_nonneg. Qed.
Lemma pow_base_succ n : 0 <= n -> pow_base (1 + n) = NBASE * pow_base n.
Proof. intros. unfold pow_base. rewrite Z.pow_add_r by lia. by rewrite Z.pow_1_r. Qed.
Lemma pow_base_add n m : 0 <= n -> 0 <= m -> pow_base (n + m) = pow_base n * pow_base m.
Proof. intros. unfold pow_base. by rewrite Z.pow_add_r. Qed.
Lemma pow_base_le n m : 0 <= n <= m -> pow_base n <= pow_base m.
Proof. intros. apply Z.pow_le_mono_r; [done|lia]. Qed.
Lemma pow_base_dec n : 0 <= n -> pow_base n = 10 ^ (4 * n).
Proof. intros. unfold pow_base. change NBASE with (10 ^ 4). by rewrite <- Z.pow_mul_r by lia. Qed.
Lemma pow_base_split m n : 0 <= m <= n -> pow_base n = pow_base m * pow_base (n - m).
Proof. intros. rewrite <- pow_base_add by lia. f_equal. lia. Qed.
Arguments pow_base : simpl never.

Lemma num_app a b : num (a ++ b) = num a * pow_base (zlen b) + num b.
Proof.
  induction a as [|d a IH]; [done|]. cbn [app num]. rewrite IH, zlen_app, pow_base_add by apply zlen_nonneg. lia.
Qed.

Lemma num_snoc ds d : num (ds ++ [d]) = num ds * NBASE + d.
Proof. rewrite num_app. cbn [num]. change (zlen [d]) with 1. change (pow_base 1) with NBASE. change (zlen (@nil Z)) with 0. rewrite pow_base_0. lia. Qed.

Lemma num_bound ds : digits_ok ds -> 0 <= num ds < pow_base (zlen ds).
Proof.
  induction 1 as [|d ds Hd _ IH]; [done|]. cbn [num]. rewrite zlen_cons, pow_base_succ by apply zlen_nonneg. unfold digit_ok in Hd. nia.
Qed.

Lemma num_zeros n : num (replicate n 0) = 0.
Proof. induction n as [|n IH]; [done|]. cbn [replicate num]. lia. Qed.

Lemma num_take_drop k ds : num ds = num (take k ds) * pow_base (zlen (drop k ds)) + num (drop k ds).
Proof. by rewrite <- num_app, take_drop. Qed.

Lemma num_take_div k ds : digits_ok ds -> num (take k ds) = num ds / pow_base (zlen (drop k ds)).
Proof.
  intros Hok. rewrite (num_take_drop k ds) at 1. assert (Hb := num_bound (drop k ds) ltac:(by apply Forall_drop)).
  rewrite Z.add_comm, Z.div_add by (pose proof (pow_base_pos (zlen (drop k ds)) (zlen_nonneg _)); lia). rewrite Z.div_small by lia. lia.
Qed.

Lemma num_zero_digits ds : digits_ok ds -> num ds = 0 -> forall d, d ∈ ds -> d = 0.
Proof.
  induction 1 as [|d ds Hd Hds IH]; [by intros _ ? ?%not_elem_of_nil|]. cbn [num]. intros Hn. pose proof (num_bound ds Hds) as Hb.
  pose proof (pow_base_pos (zlen ds) (zlen_nonneg _)). unfold digit_ok in Hd. assert (d = 0) by nia. subst d. intros e [->|He]%elem_of_cons; [done|].
  apply IH; [lia|done].
Qed.

(** *** The number before an index, with zeros behind the digits *)
Definition prefix_num (ds : list Z) (i : Z) : Z :=
  if i <=? 0 then 0 else if i <=? zlen ds then num (take (Z.to_nat i) ds) else num ds * pow_base (i - zlen ds).

Lemma digit_at_ok ds i : digits_ok ds -> digit_ok (digit_at ds i).
Proof.
  intros Hok. unfold digit_at. destruct (zlookup ds i) as [d|] eqn:E; [|done]. cbn. rewrite Forall_lookup in Hok.
  unfold zlookup in E. case_match; [|done]. by eapply Hok.
Qed.

Lemma digit_at_out ds i : i < 0 \/ zlen ds <= i -> digit_at ds i = 0.
Proof.
  intros Hi. unfold digit_at. destruct (zlookup ds i) as [d|] eqn:E; [|done]. apply zlookup_range in E. lia.
Qed.

Lemma prefix_step ds i : prefix_num ds i = NBASE * prefix_num ds (i - 1) + digit_at ds (i - 1).
Proof.
  unfold prefix_num. destruct (Z.leb_spec i 0) as [H0|H0]; [rewrite (proj2 (Z.leb_le _ _)), digit_at_out by lia; lia|].
  destruct (Z.leb_spec i (zlen ds)) as [H1|H1].
  - destruct (zlookup_is_Some ds (i - 1)) as [d Hd]; [lia|]. unfold digit_at. rewrite Hd. cbn [default from_option id].
    assert (Hl : ds !! Z.to_nat (i - 1) = Some d) by (unfold zlookup in Hd; by rewrite (proj2 (Z.leb_le _ _)) in Hd by lia).
    replace (Z.to_nat i) with (S (Z.to_nat (i - 1))) by lia. rewrite (take_S_r _ _ _ Hl), num_snoc.
    destruct (Z.leb_spec (i - 1) 0) as [H2|H2]; [replace (i - 1) with 0 by lia; change (Z.to_nat 0) with O; rewrite take_0; change (num []) with 0; lia|].
    rewrite (proj2 (Z.leb_le _ _)) by lia. lia.
  - rewrite digit_at_out by lia. destruct (Z.leb_spec (i - 1) 0) as [H2|H2].
    + pose proof (zlen_nonneg ds). destruct ds; [|rewrite zlen_cons in *; pose proof (zlen_nonneg ds); lia]. cbn. lia.
    + replace (i - zlen ds) with (1 + (i - 1 - zlen ds)) by lia. destruct (Z.leb_spec (i - 1) (zlen ds)) as [H3|H3].
      * replace (i - 1 - zlen ds) with 0 by lia. rewrite take_ge by (unfold zlen in *; lia). change (pow_base (1 + 0)) with NBASE. lia.
      * rewrite pow_base_succ by lia. lia.
Qed.

Lemma prefix_all ds i : zlen ds <= i -> prefix_num ds i = num ds * pow_base (i - zlen ds).
Proof.
  intros Hi. unfold prefix_num. pose proof (zlen_nonneg ds). destruct (Z.leb_spec i 0) as [H0|H0].
  - destruct ds; [done|]. rewrite zlen_cons in *. pose proof (zlen_nonneg ds). lia.
  - destruct (Z.leb_spec i (zlen ds)); [|done]. rewrite take_ge by (unfold zlen in *; lia). replace (i - zlen ds) with 0 by lia. rewrite pow_base_0. lia.
Qed.

Lemma prefix_bound ds i : digits_ok ds -> 0 <= i -> 0 <= prefix_num ds i < pow_base i.
Proof.
  intros Hok Hi. revert i Hi. apply (Wf_Z.natlike_ind (fun i => 0 <= prefix_num ds i < pow_base i)); [done|].
  intros i Hi IH. rewrite prefix_step. replace (Z.succ i - 1) with i by lia. replace (Z.succ i) with (1 + i) by lia. rewrite pow_base_succ by done.
  pose proof (digit_at_ok ds i Hok) as Hd. unfold digit_ok in Hd. nia.
Qed.

(** ** Magnitudes

    The digits [ds] of weight [w] in units of the base to the power [-k]. *)
Definition mag (k : Z) (ds : list Z) (w : Z) : Z := num ds * pow_base (k + w + 1 - zlen ds).

Lemma mag_nil k w : mag k [] w = 0.
Proof. done. Qed.

Lemma mag_cons k d ds w : 0 <= k + w - zlen ds -> mag k (d :: ds) w = d * pow_base (k + w) + mag k ds (w - 1).
Proof.
  intros Hk. unfold mag. cbn [num]. rewrite zlen_cons. replace (k + w + 1 - (1 + zlen ds)) with (k + w - zlen ds) by lia.
  replace (k + (w - 1) + 1 - zlen ds) with (k + w - zlen ds) by lia.
  replace (k + w) with (zlen ds + (k + w - zlen ds)) at 2 by lia. rewrite pow_base_add by (try apply zlen_nonneg; lia). lia.
Qed.

Lemma mag_bound k ds w : digits_ok ds -> 0 <= k + w + 1 - zlen ds -> 0 <= mag k ds w < pow_base (k + w + 1).
Proof.
  intros Hok Hk. unfold mag. pose proof (num_bound ds Hok). pose proof (pow_base_pos _ Hk).
  pose proof (zlen_nonneg ds). rewrite (pow_base_split (zlen ds) (k + w + 1)) by lia. nia.
Qed.

Lemma mag_zeros k n ds w : 0 <= k + w + 1 - Z.of_nat n - zlen ds -> mag k (replicate n 0 ++ ds) w = mag k ds (w - Z.of_nat n).
Proof.
  intros Hk. unfold mag. rewrite num_app, num_zeros, zlen_app. rewrite Z.mul_0_l, Z.add_0_l.
  f_equal. f_equal. unfold zlen. rewrite length_replicate. lia.
Qed.

Lemma mag_app_zeros k n ds w : 0 <= k + w + 1 - Z.of_nat n - zlen ds -> mag k (ds ++ replicate n 0) w = mag k ds w.
Proof.
  intros Hk. unfold mag. rewrite num_app, num_zeros, zlen_app. assert (zlen (replicate n 0) = Z.of_nat n) as -> by (unfold zlen; by rewrite length_replicate).
  rewrite (pow_base_split (Z.of_nat n) (k + w + 1 - zlen ds)) by lia. replace (k + w + 1 - zlen ds - Z.of_nat n) with (k + w + 1 - (zlen ds + Z.of_nat n)) by lia. lia.
Qed.

Lemma mag_app k a b w : 0 <= k + w + 1 - zlen a - zlen b -> mag k (a ++ b) w = mag k a w + mag k b (w - zlen a).
Proof.
  intros Hk. unfold mag. rewrite num_app, zlen_app. pose proof (zlen_nonneg b). rewrite (pow_base_split (zlen b) (k + w + 1 - zlen a)) by lia.
  replace (k + w + 1 - zlen a - zlen b) with (k + w + 1 - (zlen a + zlen b)) by lia. replace (k + (w - zlen a) + 1 - zlen b) with (k + w + 1 - (zlen a + zlen b)) by lia. lia.
Qed.

(** ** Comparison *)

Lemma some_digit_true ds : digits_ok ds -> some_digit ds = true <-> 0 < num ds.
Proof.
  induction 1 as [|d ds Hd Hds IH]; [done|]. unfold some_digit. cbn [existsb num]. fold (some_digit ds). rewrite orb_true_iff, IH, negb_true_iff, Z.eqb_neq.
  pose proof (num_bound ds Hds). pose proof (pow_base_pos (zlen ds) (zlen_nonneg _)). unfold digit_ok in Hd. nia.
Qed.

(** The answer of a comparison of [x] and [y]. *)
Definition cmp_result (x y : Z) : Z := match x ?= y with Lt => -1 | Eq => 0 | Gt => 1 end.

Lemma cmp_gt x y : y < x -> cmp_result x y = 1.
Proof. unfold cmp_result. by intros ->%Z.compare_gt_iff. Qed.
Lemma cmp_lt x y : x < y -> cmp_result x y = -1.
Proof. unfold cmp_result. by intros ->%Z.compare_lt_iff. Qed.
Lemma cmp_eq x : cmp_result x x = 0.
Proof. unfold cmp_result. by rewrite Z.compare_refl. Qed.

Lemma mag_pos k ds w : digits_ok ds -> 0 <= k + w + 1 - zlen ds -> some_digit ds = true <-> 0 < mag k ds w.
Proof. intros Hok Hk. rewrite some_digit_true by done. unfold mag. pose proof (pow_base_pos _ Hk). pose proof (num_bound ds Hok). nia. Qed.

Lemma cmp_rest_l k ds w : digits_ok ds -> 0 <= k + w + 1 - zlen ds -> cmp_rest ds [] = cmp_result (mag k ds w) 0.
Proof.
  intros Hok Hk. pose proof (mag_pos k ds w Hok Hk) as Hs. pose proof (mag_bound k ds w Hok Hk). unfold cmp_rest. destruct (some_digit ds).
  - rewrite cmp_gt by (by apply Hs). done.
  - assert (mag k ds w = 0) as -> by (destruct (decide (mag k ds w = 0)); [done|]; assert (false = true) by (apply Hs; lia); done). done.
Qed.
Lemma cmp_rest_r k ds w : digits_ok ds -> 0 <= k + w + 1 - zlen ds -> cmp_rest [] ds = cmp_result 0 (mag k ds w).
Proof.
  intros Hok Hk. pose proof (mag_pos k ds w Hok Hk) as Hs. pose proof (mag_bound k ds w Hok Hk). unfold cmp_rest. destruct (some_digit ds).
  - rewrite cmp_lt by (by apply Hs). done.
  - assert (mag k ds w = 0) as -> by (destruct (decide (mag k ds w = 0)); [done|]; assert (false = true) by (apply Hs; lia); done). done.
Qed.

Lemma cmp_digits_spec k ds1 ds2 w : digits_ok ds1 -> digits_ok ds2 -> 0 <= k + w + 1 - zlen ds1 -> 0 <= k + w + 1 - zlen ds2 ->
  cmp_digits ds1 ds2 = cmp_result (mag k ds1 w) (mag k ds2 w).
Proof.
  intros Hok1. revert ds2 w. induction Hok1 as [|d1 ds1 Hd1 Hds1 IH]; intros ds2 w Hok2 H1 H2.
  { rewrite mag_nil, <- (cmp_rest_r k ds2 w) by done. by destruct ds2. }
  destruct ds2 as [|d2 ds2]; [rewrite mag_nil, <- (cmp_rest_l k (d1 :: ds1) w); [done|by constructor|done]|].
  apply Forall_cons in Hok2 as [Hd2 Hds2]. rewrite zlen_cons in H1, H2. cbn [cmp_digits]. rewrite (mag_cons k d1), (mag_cons k d2) by lia.
  pose proof (mag_bound k ds1 (w - 1) Hds1 ltac:(lia)) as B1. pose proof (mag_bound k ds2 (w - 1) Hds2 ltac:(lia)) as B2.
  replace (k + (w - 1) + 1) with (k + w) in * by lia. destruct (Z.eqb_spec (d1 - d2) 0) as [E|E].
  - assert (d1 = d2) as -> by lia. rewrite (IH ds2 (w - 1)) by (done || lia). unfold cmp_result. by rewrite Z.add_compare_mono_l.
  - destruct (Z.ltb_spec 0 (d1 - d2)); [rewrite cmp_gt|rewrite cmp_lt]; nia.
Qed.

Lemma skip_spec k ds w w' : digits_ok ds -> 0 <= k + w + 1 - zlen ds -> 0 <= k + w' + 1 ->
  match skip_zeros ds w w' with
  | None => pow_base (k + w' + 1) <= mag k ds w
  | Some (ds', w2) => digits_ok ds' /\ 0 <= k + w2 + 1 - zlen ds' /\ mag k ds' w2 = mag k ds w /\ (w2 <= w' \/ ds' = [])
      /\ ((w2 = w /\ w <= w') \/ w' <= w2)
  end.
Proof.
  intros Hok. revert w. induction Hok as [|d ds Hd Hds IH]; intros w Hk Hk'; cbn [skip_zeros].
  { split_and!; [constructor|done|done|by right|lia]. }
  rewrite zlen_cons in Hk. destruct (Z.ltb_spec w' w) as [Hw|Hw]; [|split_and!; [by constructor|rewrite zlen_cons; lia|done|by left|by left]].
  pose proof (mag_bound k ds (w - 1) Hds ltac:(lia)). destruct (Z.eqb_spec d 0) as [->|Hd0].
  - specialize (IH (w - 1) ltac:(lia) Hk'). rewrite mag_cons by lia. destruct (skip_zeros ds (w - 1) w') as [[ds' w2]|]; [|lia].
    destruct IH as (I1 & I2 & I3 & I4 & I5). split_and!; [done|done|lia|done|lia].
  - rewrite mag_cons by lia. pose proof (pow_base_le (k + w' + 1) (k + w) ltac:(lia)). pose proof (pow_base_pos (k + w' + 1) Hk'). unfold digit_ok in Hd. nia.
Qed.

Lemma cmp_abs_common_spec k ds1 w1 ds2 w2 : digits_ok ds1 -> digits_ok ds2 -> 0 <= k + w1 + 1 - zlen ds1 -> 0 <= k + w2 + 1 - zlen ds2 ->
  cmp_abs_common ds1 w1 ds2 w2 = cmp_result (mag k ds1 w1) (mag k ds2 w2).
Proof.
  intros Hok1 Hok2 H1 H2. unfold cmp_abs_common. pose proof (zlen_nonneg ds1). pose proof (zlen_nonneg ds2).
  pose proof (skip_spec k ds1 w1 w2 Hok1 H1 ltac:(lia)) as Hs1. pose proof (mag_bound k ds2 w2 Hok2 H2) as B2.
  destruct (skip_zeros ds1 w1 w2) as [[ds1' w1']|]; [|rewrite cmp_gt by lia; done].
  destruct Hs1 as (O1 & K1 & E1 & C1 & D1). pose proof (zlen_nonneg ds1'). pose proof (skip_spec k ds2 w2 w1' Hok2 H2 ltac:(lia)) as Hs2.
  pose proof (mag_bound k ds1' w1' O1 K1) as B1. rewrite <- E1. destruct (skip_zeros ds2 w2 w1') as [[ds2' w2']|]; [|rewrite cmp_lt by lia; done].
  destruct Hs2 as (O2 & K2 & E2 & C2 & D2). rewrite <- E2. destruct (Z.eqb_spec w1' w2') as [->|Hne]; [by apply cmp_digits_spec|].
  destruct C2 as [C2| ->]; [|by apply cmp_rest_l]. destruct C1 as [C1| ->]; [|by apply cmp_rest_r]. lia.
Qed.

(** ** Variables *)

Record var_ok (v : NumericVar) : Prop := {
  vo_digits : digits_ok (digits v);
  vo_sign : sign v = NUMERIC_POS \/ sign v = NUMERIC_NEG }.

(** A spare zero for a carry. *)
Definition room_ok (v : NumericVar) : Prop := exists rm, room v = 0 :: rm.

Definition sgn (v : NumericVar) : Z := if sign v =? NUMERIC_NEG then -1 else 1.

(** The exponent of the last digit. *)
Definition expo (v : NumericVar) : Z := weight v + 1 - ndigits v.

Definition value (v : NumericVar) : Q := (inject_Z (sgn v * num (digits v)) * (NBASE # 1) ^ expo v)%Q.

Definition fits (v : NumericVar) (K : Z) : Prop := 0 <= K /\ 0 <= 4 * expo v + K.
Definition dec (v : NumericVar) (K : Z) : Z := num (digits v) * 10 ^ (4 * expo v + K).

Lemma fits_nonneg v K : fits v K -> 0 <= 4 * (weight v + 1) + K.
Proof. intros [H1 H2]. unfold expo in H2. pose proof (zlen_nonneg (digits v)). unfold ndigits in *. lia. Qed.

Lemma dec_mag v k : 0 <= k + expo v -> dec v (4 * k) = mag k (digits v) (weight v).
Proof. intros Hk. unfold dec, mag, expo, ndigits in *. rewrite pow_base_dec by lia. f_equal. f_equal. lia. Qed.

Lemma dec_nonneg v K : digits_ok (digits v) -> 0 <= dec v K.
Proof. intros Hok. pose proof (num_bound _ Hok). unfold dec. apply Z.mul_nonneg_nonneg; [lia|]. by apply Z.pow_nonneg. Qed.

Lemma pow10_pos n : 0 <= n -> 0 < 10 ^ n.
Proof. intros. by apply Z.pow_pos_nonneg. Qed.

(** ** strip_var *)

Lemma strip_leading_spec ds w rm : exists k ds', ds = replicate k 0 ++ ds' /\ strip_leading ds w rm = (ds', w - Z.of_nat k, replicate k 0 ++ rm)
  /\ (forall d l, ds' = d :: l -> d <> 0).
Proof.
  revert w rm. induction ds as [|d ds IH]; intros w rm; cbn [strip_leading]; [exists 0%nat, []; cbn; by rewrite Z.sub_0_r|].
  destruct (Z.eqb_spec d 0) as [->|Hd].
  - destruct (IH (w - 1) (0 :: rm)) as (k & ds' & -> & -> & Hh). exists (S k), ds'. split_and!; [done| |done]. f_equal; [f_equal; lia|].
    cbn. clear. induction k as [|k IH]; [done|]. cbn. by rewrite IH.
  - exists 0%nat, (d :: ds). cbn. rewrite Z.sub_0_r. split_and!; [done|done|]. by intros ? ? [= <- _].
Qed.

Lemma strip_trailing_spec ds : exists k, ds = strip_trailing ds ++ replicate k 0 /\ (forall l d, strip_trailing ds = l ++ [d] -> d <> 0)
  /\ (forall d l, ds = d :: l -> d <> 0 -> exists l', strip_trailing ds = d :: l').
Proof.
  induction ds as [|d ds (k & E & Hl & Hh)]; cbn [strip_trailing]; [exists 0%nat; split_and!; [done|by intros []|done]|].
  destruct (strip_trailing ds) as [|d' ds'].
  - destruct (Z.eqb_spec d 0) as [->|Hd].
    + exists (S k). rewrite E. split_and!; [done|by intros []|]. by intros ? ? [= <- _].
    + exists k. rewrite E at 1. split_and!; [done| |intros ? ? [= <- _] _; by exists []].
      intros [|? []] x; intros [= <-]; done.
  - exists k. rewrite E at 1. split_and!; [done| |intros ? ? [= <- _] _; by exists (d' :: ds')].
    intros [|y l] x Ex; injection Ex; [done|]. intros Ex' _. by apply (Hl l x).
Qed.

(** No zeros at either end; zero has no digits. *)
Record normal (v : NumericVar) : Prop := {
  no_head : forall d l, digits v = d :: l -> d <> 0;
  no_last : forall l d, digits v = l ++ [d] -> d <> 0;
  no_zero : digits v = [] -> weight v = 0 /\ sign v = NUMERIC_POS }.

(** The same without the sign of zero. *)
Record trimmed (v : NumericVar) : Prop := {
  tr_head : forall d l, digits v = d :: l -> d <> 0;
  tr_last : forall l d, digits v = l ++ [d] -> d <> 0;
  tr_zero : digits v = [] -> weight v = 0 }.

Lemma normal_trimmed v : normal v -> trimmed v.
Proof. intros [H1 H2 H3]. split; [done|done|]. intros Hd. by destruct (H3 Hd). Qed.

Lemma trimmed_normal v : trimmed v -> (digits v = [] -> sign v = NUMERIC_POS) -> normal v.
Proof. intros [H1 H2 H3] Hs. split; [done|done|]. auto. Qed.

(** A digit that is not zero makes a number that is not zero. *)
Lemma num_lead d1 ds : digits_ok (d1 :: ds) -> d1 * pow_base (zlen ds) <= num (d1 :: ds) < (d1 + 1) * pow_base (zlen ds).
Proof. intros Hok. apply Forall_cons in Hok as [_ Hok]. pose proof (num_bound ds Hok). cbn [num]. lia. Qed.

Lemma num_head_pos d ds : digits_ok (d :: ds) -> d <> 0 -> 0 < num (d :: ds).
Proof.
  intros Hok Hd. pose proof (num_lead d ds Hok) as [Hlo _]. apply Forall_cons in Hok as [Hk _]. unfold digit_ok in Hk. pose proof (pow_base_pos (zlen ds) (zlen_nonneg _)). nia.
Qed.

Lemma trimmed_pos v : var_ok v -> trimmed v -> digits v <> [] -> 0 < num (digits v).
Proof. intros [Hok _] [Hh _ _] Hne. destruct (digits v) as [|d ds]; [done|]. apply num_head_pos; [done|by apply (Hh d ds)]. Qed.

Lemma dec_pos v K : fits v K -> 0 < num (digits v) -> 0 < dec v K.
Proof. intros [_ Hf] Hn. unfold dec. pose proof (pow10_pos _ Hf). nia. Qed.

Record strip_post (v r : NumericVar) : Prop := {
  sp_ok : var_ok r;
  sp_normal : normal r;
  sp_dscale : dscale r = dscale v;
  sp_room : room_ok v -> room_ok r;
  sp_fits : forall K, fits v K -> fits r K;
  sp_dec : forall K, fits v K -> dec r K = dec v K;
  sp_sign : digits r <> [] -> sign r = sign v }.

Lemma strip_spec v : var_ok v -> strip_post v (strip_var v).
Proof.
  intros [Hok Hsg]. unfold strip_var. destruct (strip_leading_spec (digits v) (weight v) (room v)) as (k & ds & E & -> & Hh).
  destruct (strip_trailing_spec ds) as (k2 & E2 & Hl & Hh2). assert (Hok2 : digits_ok (strip_trailing ds)).
  { rewrite E in Hok. apply Forall_app in Hok as [_ Hok]. rewrite E2 in Hok. by apply Forall_app in Hok as [? _]. }
  assert (Hnd : ndigits v = Z.of_nat k + zlen (strip_trailing ds) + Z.of_nat k2).
  { unfold ndigits. rewrite E, E2 at 1. unfold zlen. rewrite !length_app, !length_replicate. lia. }
  assert (Hnum : num (digits v) = num (strip_trailing ds) * pow_base (Z.of_nat k2)).
  { rewrite E, num_app, num_zeros, Z.mul_0_l, Z.add_0_l. rewrite E2 at 1. rewrite num_app, num_zeros. unfold zlen. rewrite length_replicate. lia. }
  assert (Hroom : room_ok v -> exists rm, replicate k 0 ++ room v = 0 :: rm).
  { intros [rm ->]. destruct k as [|k]; [by exists rm|]. cbn. by eexists. }
  assert (Hhead : forall d l, strip_trailing ds = d :: l -> d <> 0).
  { intros d l Ed. destruct ds as [|d0 ds0]; [done|]. destruct (Hh2 d0 ds0 eq_refl ltac:(by apply (Hh d0 ds0))) as (l' & E3). rewrite E3 in Ed. injection Ed as <- _. by apply (Hh d0 ds0). }
  destruct (strip_trailing ds) as [|d l] eqn:Es.
  - split; cbn; [by split; [constructor|left]|by split|done|done| | |done].
    + intros K [H1 _]. split; [done|]. unfold expo, ndigits. cbn [digits weight]. change (zlen (@nil Z)) with 0. lia.
    + intros K _. unfold dec. cbn. by rewrite Hnum.
  - rewrite <- Es in *. split; cbn; [by split|by split; [| |rewrite Es]|done|done| | |done].
    + intros K [H1 H2]. split; [done|]. unfold expo, ndigits in *. cbn. lia.
    + intros K [H1 H2]. unfold dec, expo, ndigits in *. cbn. rewrite Hnum, pow_base_dec by lia. rewrite <- Z.mul_assoc, <- Z.pow_add_r by lia. f_equal. f_equal. lia.
Qed.

Lemma strip_signed v K : var_ok v -> fits v K -> sgn (strip_var v) * dec (strip_var v) K = sgn v * dec v K.
Proof.
  intros Hok Hf. destruct (strip_spec v Hok) as [_ _ _ _ _ Hd Hs]. rewrite Hd by done. unfold sgn. destruct (digits (strip_var v)) as [|d l] eqn:E.
  - assert (dec v K = 0) as ->; [|lia]. rewrite <- Hd by done. unfold dec. by rewrite E.
  - by rewrite Hs.
Qed.

(** ** Truncation and rounding *)

(** [x] in units of [u], cut off and to the nearest. *)
Definition cut (x u : Z) : Z := x / u.
Definition nearest (x u : Z) : Z := (2 * x + u) / (2 * u).

Lemma cut_units X Y P q u : 0 < P -> 0 < q -> 0 < u -> 0 <= Y < P -> cut ((X * P + Y) * u) (u * P * q) = X / q.
Proof.
  intros HP Hq Hu HY. unfold cut. rewrite (Z.mul_comm _ u), <- Z.mul_assoc, Z.div_mul_cancel_l by lia. rewrite <- Z.div_div by lia.
  f_equal. rewrite Z.div_add_l by lia. rewrite (Z.div_small Y) by lia. lia.
Qed.

Lemma nearest_units x u c : 0 < u -> 0 < c -> nearest (x * c) (u * c) = nearest x u.
Proof.
  intros Hu Hc. unfold nearest. replace (2 * (x * c) + u * c) with ((2 * x + u) * c) by ring. replace (2 * (u * c)) with (2 * u * c) by ring.
  by rewrite Z.div_mul_cancel_r by lia.
Qed.

Lemma nearest_exact x u : 0 < u -> nearest (x * u) u = x.
Proof. intros Hu. unfold nearest. replace (2 * (x * u) + u) with (u + x * (2 * u)) by ring. rewrite Z.div_add by lia. rewrite Z.div_small by lia. lia. Qed.

Lemma nearest_small x u : 0 <= x -> 2 * x < u -> nearest x u = 0.
Proof. intros. unfold nearest. apply Z.div_small. lia. Qed.

(** The first digit dropped decides. *)
Lemma nearest_digit X Y P h : 0 < P -> 2 * h = P -> 0 <= Y < P -> nearest (X * P + Y) P = X + (if h <=? Y then 1 else 0).
Proof.
  intros HP Hh HY. unfold nearest. replace (2 * (X * P + Y) + P) with (2 * Y + P + X * (2 * P)) by ring. rewrite Z.div_add by lia.
  destruct (Z.leb_spec h Y); [|rewrite Z.div_small by lia; lia].
  replace (2 * Y + P) with (2 * Y - P + 1 * (2 * P)) by ring. rewrite Z.div_add by lia. rewrite Z.div_small by lia. lia.
Qed.

(** Within a digit. *)
Lemma nearest_within X Y P q : 0 < P -> 0 < q -> 0 <= Y < P -> nearest (X * P + Y) (P * (2 * q)) = X / (2 * q) + (if q <=? X mod (2 * q) then 1 else 0).
Proof.
  intros HP Hq HY. unfold nearest. pose proof (Z.div_mod X (2 * q) ltac:(lia)) as E. pose proof (Z.mod_pos_bound X (2 * q) ltac:(lia)).
  set (a := X / (2 * q)) in *. set (b := X mod (2 * q)) in *. rewrite E.
  replace (2 * ((2 * q * a + b) * P + Y) + P * (2 * q)) with (2 * b * P + 2 * Y + 2 * P * q + a * (2 * (P * (2 * q)))) by ring. rewrite Z.div_add by nia.
  destruct (Z.leb_spec q b).
  - replace (2 * b * P + 2 * Y + 2 * P * q) with (2 * b * P + 2 * Y - 2 * P * q + 1 * (2 * (P * (2 * q)))) by ring. rewrite Z.div_add by nia.
    rewrite Z.div_small by nia. lia.
  - rewrite Z.div_small by nia. lia.
Qed.

(** The unit at [rscale] when the digits from the [n]-th on are dropped. *)
Section Unit.
Context (v : NumericVar) (rscale K : Z) (Hok : digits_ok (digits v)) (Hf : fits v K) (HK : rscale <= K).
Let di := (weight v + 1) * DEC_DIGITS + rscale.
Let n := (di + DEC_DIGITS - 1) ÷ DEC_DIGITS.
Let j := Z.rem di DEC_DIGITS.

Definition subunit : Z := if j =? 0 then 1 else 10 ^ (DEC_DIGITS - j).

Lemma unit_facts : 0 <= di -> 0 <= j < 4 /\ di = 4 * n - (if j =? 0 then 0 else 4 - j) /\ 0 <= n /\ (0 < j -> 0 < n).
Proof.
  intros Hdi. unfold n, j, DEC_DIGITS in *. rewrite Z.rem_mod_nonneg, Z.quot_div_nonneg by lia. pose proof (Z.mod_pos_bound di 4 ltac:(lia)).
  pose proof (Z.div_mod di 4 ltac:(lia)). pose proof (Z.div_mod (di + 4 - 1) 4 ltac:(lia)). pose proof (Z.mod_pos_bound (di + 4 - 1) 4 ltac:(lia)).
  destruct (Z.eqb_spec (di mod 4) 0); lia.
Qed.

Lemma unit_split : 0 <= di -> n <= ndigits v -> 0 < subunit /\
  10 ^ (K - rscale) = 10 ^ (4 * expo v + K) * pow_base (ndigits v - n) * subunit
  /\ 10 ^ (4 * (weight v + 1 - n) + K) = 10 ^ (4 * expo v + K) * pow_base (ndigits v - n).
Proof.
  intros Hdi Hn. destruct (unit_facts Hdi) as (Hj & E & Hn0 & _). destruct Hf as [HK0 Hf']. unfold expo in *. unfold subunit, DEC_DIGITS.
  rewrite pow_base_dec by lia. unfold di, DEC_DIGITS in E. destruct (Z.eqb_spec j 0) as [E0|E0].
  - rewrite Z.mul_1_r, <- Z.pow_add_r by lia. split_and!; [lia|f_equal; lia|f_equal; lia].
  - split; [apply Z.pow_pos_nonneg; lia|]. rewrite <- !Z.pow_add_r by lia. split; f_equal; lia.
Qed.

(** All digits stay: the number is a multiple of the unit. *)
Lemma unit_exact : 0 <= di -> ndigits v < n \/ (ndigits v = n /\ j = 0) -> exists M, dec v K = M * 10 ^ (K - rscale).
Proof.
  intros Hdi Hn. destruct (unit_facts Hdi) as (Hj & E & _ & _). destruct Hf as [HK0 Hf']. exists (num (digits v) * 10 ^ (4 * expo v + rscale)).
  unfold dec. rewrite <- Z.mul_assoc, <- Z.pow_add_r; [f_equal; f_equal; lia| |lia]. unfold expo. unfold di, DEC_DIGITS in E. destruct (Z.eqb_spec j 0); lia.
Qed.

(** No digit stays. *)
Lemma unit_none : di < 0 -> 0 <= 2 * dec v K < 10 ^ (K - rscale).
Proof.
  intros Hdi. pose proof (fits_nonneg v K Hf) as H0. unfold di, DEC_DIGITS in Hdi. pose proof (num_bound _ Hok) as Hb. destruct Hf as [HK0 Hf'].
  assert (E : 10 ^ (4 * (weight v + 1) + K) = pow_base (zlen (digits v)) * 10 ^ (4 * expo v + K)).
  { rewrite pow_base_dec, <- Z.pow_add_r; [|pose proof (zlen_nonneg (digits v)); lia|done|apply zlen_nonneg]. f_equal. unfold expo, ndigits. lia. }
  assert (Hle : 10 * 10 ^ (4 * (weight v + 1) + K) <= 10 ^ (K - rscale)).
  { rewrite <- (Z.pow_succ_r 10) by lia. apply Z.pow_le_mono_r; lia. }
  assert (0 < 10 ^ (4 * expo v + K)) by (by apply Z.pow_pos_nonneg). unfold dec. nia.
Qed.
End Unit.

Record at_scale (f : Z -> Z -> Z) (v : NumericVar) (rscale : Z) (r : NumericVar) : Prop := {
  as_ok : var_ok r;
  as_dscale : dscale r = rscale;
  as_fits : forall K, fits v K -> fits r K;
  as_dec : forall K, fits v K -> rscale <= K -> dec r K = f (dec v K) (10 ^ (K - rscale)) * 10 ^ (K - rscale);
  as_sign : digits r <> [] -> sign r = sign v }.

(** No digit stays. *)
Lemma at_scale_zero f v rscale rm : (forall K, fits v K -> rscale <= K -> f (dec v K) (10 ^ (K - rscale)) = 0) ->
  at_scale f v rscale (MkVar [] 0 NUMERIC_POS rscale rm).
Proof.
  intros H0. split; cbn; [by split; [constructor|left]|done| |intros K Hf HK; by rewrite H0|done].
  intros K [H1 _]. split; [done|]. unfold expo, ndigits. cbn [digits weight]. change (zlen (@nil Z)) with 0. lia.
Qed.

(** All digits stay. *)
Lemma at_scale_same f v rscale : var_ok v -> (forall K, fits v K -> rscale <= K -> dec v K = f (dec v K) (10 ^ (K - rscale)) * 10 ^ (K - rscale)) ->
  at_scale f v rscale (set_dscale rscale v).
Proof. intros [H1 H2] Hd. by split. Qed.

Lemma expo_take v n : 0 <= n <= ndigits v -> zlen (take (Z.to_nat n) (digits v)) = n.
Proof. unfold ndigits, zlen. intros Hn. rewrite length_take. lia. Qed.

(** The first [n] digits and the rest. *)
Lemma split_num v n : digits_ok (digits v) -> 0 <= n <= ndigits v ->
  exists Y, num (digits v) = num (take (Z.to_nat n) (digits v)) * pow_base (ndigits v - n) + Y /\ 0 <= Y < pow_base (ndigits v - n).
Proof.
  intros Hok Hn. exists (num (drop (Z.to_nat n) (digits v))). assert (Hl : zlen (drop (Z.to_nat n) (digits v)) = ndigits v - n).
  { unfold ndigits, zlen in *. rewrite length_drop. lia. }
  rewrite <- Hl. split; [apply num_take_drop|]. apply num_bound. by apply Forall_drop.
Qed.

Lemma take_pred v n d : 0 < n -> zlookup (digits v) (n - 1) = Some d -> take (Z.to_nat n) (digits v) = take (Z.to_nat (n - 1)) (digits v) ++ [d].
Proof.
  intros Hn. unfold zlookup. rewrite (proj2 (Z.leb_le 0 (n - 1))) by lia. intros Hd. replace (Z.to_nat n) with (S (Z.to_nat (n - 1))) by lia. by apply take_S_r.
Qed.

Lemma round_power j : 0 < j < 4 -> zlookup round_powers j = Some (10 ^ (DEC_DIGITS - j)) /\ (10 ^ (DEC_DIGITS - j) | NBASE) /\ 0 < 10 ^ (DEC_DIGITS - j)
  /\ exists h, 0 < h /\ 10 ^ (DEC_DIGITS - j) = 2 * h.
Proof.
  intros Hj. assert (j = 1 \/ j = 2 \/ j = 3) as [->|[->| ->]] by lia; (split; [done|]).
  - split; [by exists 10|]. split; [done|]. by exists 500.
  - split; [by exists 100|]. split; [done|]. by exists 50.
  - split; [by exists 1000|]. split; [done|]. by exists 5.
Qed.

Lemma last_digit_mod a d q : (q | NBASE) -> 0 < q -> (a * NBASE + d) mod q = d mod q.
Proof. intros [c ->] Hq. rewrite Z.mul_assoc. by rewrite Z.add_comm, Z.mod_add by lia. Qed.

Lemma digit_cut_ok d q : digit_ok d -> 0 < q -> digit_ok (d - Z.rem d q).
Proof. unfold digit_ok. intros Hd Hq. rewrite Z.rem_mod_nonneg by lia. pose proof (Z.mod_le d q ltac:(lia) Hq). pose proof (Z.mod_pos_bound d q Hq). lia. Qed.

Lemma trunc_spec v rscale : var_ok v -> exists r, trunc_var v rscale = Done r /\ at_scale cut v rscale r.
Proof.
  intros Hv. pose proof Hv as [Hok _]. unfold trunc_var. set (di := (weight v + 1) * DEC_DIGITS + rscale).
  destruct (Z.leb_spec di 0) as [Hdi|Hdi].
  { eexists. split; [done|]. apply at_scale_zero. intros K Hf HK. unfold cut. apply Z.div_small. split; [by apply dec_nonneg|].
    destruct (decide (di = 0)) as [E|Hne].
    - destruct Hf as [HK0 Hf']. pose proof (num_bound _ Hok) as Hb.
      assert (E2 : 10 ^ (K - rscale) = pow_base (zlen (digits v)) * 10 ^ (4 * expo v + K)).
      { rewrite pow_base_dec, <- Z.pow_add_r; [|pose proof (zlen_nonneg (digits v)); lia|done|apply zlen_nonneg]. f_equal. unfold expo, ndigits. unfold di, DEC_DIGITS in E. lia. }
      rewrite E2. unfold dec. pose proof (pow10_pos _ Hf'). nia.
    - pose proof (unit_none v rscale K Hok Hf HK ltac:(unfold di in *; lia)). lia. }
  set (n := (di + DEC_DIGITS - 1) ÷ DEC_DIGITS). set (j := Z.rem di DEC_DIGITS). pose proof (unit_facts v rscale ltac:(lia)) as (Hj & Ej & Hn0 & Hnj). fold di n j in Hj, Ej, Hn0, Hnj.
  destruct (Z.leb_spec n (ndigits v)) as [Hn|Hn].
  2: { eexists. split; [done|]. apply at_scale_same; [done|]. intros K Hf HK. destruct (unit_exact v rscale K Hf HK ltac:(lia) ltac:(left; exact Hn)) as [M ->].
       unfold cut. rewrite Z.div_mul; [done|]. pose proof (pow10_pos (K - rscale) ltac:(lia)). lia. }
  destruct (split_num v n Hok ltac:(lia)) as (Y & EY & HY).
  assert (Hdec : forall K, fits v K -> rscale <= K -> cut (dec v K) (10 ^ (K - rscale)) * 10 ^ (K - rscale)
    = num (take (Z.to_nat n) (digits v)) / subunit v rscale * subunit v rscale * 10 ^ (4 * (weight v + 1 - n) + K)).
  { intros K Hf HK. destruct (unit_split v rscale K Hf ltac:(lia) Hn) as (Hs & E1 & E2). fold di n in E1, E2. rewrite E1, E2.
    unfold dec. rewrite EY, cut_units; [ring|apply pow_base_pos; lia|done|apply pow10_pos, Hf|done]. }
  destruct (Z.ltb_spec 0 j) as [Hj0|Hj0].
  - destruct (round_power j ltac:(lia)) as (Ep & Hdvd & Hpos & _). rewrite Ep. runs. destruct (zlookup_is_Some (digits v) (n - 1)) as [d Hd]; [unfold ndigits in Hn; lia|].
    rewrite Hd. runs. eexists. split; [done|]. set (q := 10 ^ (DEC_DIGITS - j)) in *. pose proof (take_pred v n d ltac:(lia) Hd) as Et.
    assert (Hdok : digit_ok d) by (pose proof (digit_at_ok (digits v) (n - 1) Hok) as Ht; unfold digit_at in Ht; by rewrite Hd in Ht).
    assert (Hlen : zlen (take (Z.to_nat (n - 1)) (digits v) ++ [d - Z.rem d q]) = n) by (rewrite zlen_app, expo_take by (unfold ndigits in *; lia); change (zlen [d - Z.rem d q]) with 1; lia).
    split; cbn; [|done| | |done].
    + split; [|apply Hv]. apply Forall_app. split; [by apply Forall_take|]. apply Forall_singleton. by apply digit_cut_ok.
    + intros K [H1 H2]. split; [done|]. unfold expo in *. cbn. unfold ndigits at 1. cbn. rewrite Hlen. lia.
    + intros K Hf HK. rewrite Hdec by done. unfold dec, expo, ndigits. cbn. rewrite Hlen. f_equal. rewrite Et, !num_snoc. unfold subunit. fold di j. rewrite (proj2 (Z.eqb_neq j 0)) by lia. fold q.
      set (a := num _). pose proof (last_digit_mod a d q Hdvd Hpos) as Em. rewrite Z.rem_mod_nonneg by (unfold digit_ok in Hdok; lia). rewrite <- Em.
      pose proof (Z.div_mod (a * NBASE + d) q ltac:(lia)). lia.
  - eexists. split; [done|]. split; cbn; [|done| | |done].
    + split; [by apply Forall_take|apply Hv].
    + intros K [H1 H2]. split; [done|]. unfold expo in *. cbn. unfold ndigits at 1. cbn. rewrite expo_take by lia. lia.
    + intros K Hf HK. rewrite Hdec by done. unfold dec, expo, ndigits. cbn. rewrite expo_take by lia. f_equal. unfold subunit. fold di j. rewrite (proj2 (Z.eqb_eq j 0)) by lia. rewrite Z.div_1_r. lia.
Qed.

Lemma zlen_rev {A} (l : list A) : zlen (rev l) = zlen l.
Proof. unfold zlen. by rewrite length_rev. Qed.

Lemma carry_up_spec rds : digits_ok rds -> exists c rds', carry_up rds = (c, rds') /\ zlen rds' = zlen rds /\ digits_ok rds' /\ 0 <= c <= 1
  /\ num (rev rds) + 1 = c * pow_base (zlen rds) + num (rev rds').
Proof.
  induction 1 as [|d ds Hd Hds (c & ds' & E & Hl & Hok & Hc & Hn)]; cbn [carry_up]; [exists 1, []; split_and!; [done|done|constructor|done|done|done]|].
  destruct (Z.leb_spec NBASE (1 + d)) as [Hlt|Hlt].
  - rewrite E. exists c, (1 + d - NBASE :: ds'). split_and!; [done|by rewrite !zlen_cons, Hl| |lia|lia|].
    + constructor; [|done]. unfold digit_ok in *. lia.
    + cbn [rev]. rewrite !num_snoc, zlen_cons, pow_base_succ by apply zlen_nonneg. lia.
  - exists 0, (1 + d :: ds). split_and!; [done|done| |lia|lia|].
    + constructor; [|done]. unfold digit_ok in *. lia.
    + cbn [rev]. rewrite !num_snoc. lia.
Qed.

Lemma digits_ok_rev ds : digits_ok ds -> digits_ok (rev ds).
Proof. intros Hok. rewrite Forall_forall in Hok |- *. intros d Hd. apply Hok. by rewrite list_elem_of_In, <- in_rev, <- list_elem_of_In in Hd. Qed.

Lemma put_carry_spec carry before after v rscale : digits_ok before -> digits_ok after -> 0 <= carry <= 1 -> room_ok v ->
  exists r, put_carry carry before after v rscale = Done r /\ digits_ok (digits r) /\ sign r = sign v /\ dscale r = rscale
    /\ num (digits r) = (num before + carry) * pow_base (zlen after) + num after
    /\ expo r = weight v + 1 - (zlen before + zlen after) /\ zlen before + zlen after <= ndigits r.
Proof.
  intros Hb Ha Hc [rm Hrm]. unfold put_carry. destruct (Z.eqb_spec carry 0) as [->|Hne].
  { eexists. split; [done|]. cbn. rewrite num_app. split_and!; [by apply Forall_app|done|done|lia| |]; unfold expo, ndigits; cbn; rewrite zlen_app; lia. }
  assert (carry = 1) as -> by lia. destruct (carry_up_spec (rev before)) as (c & rds & -> & Hl & Hok & Hc' & Hn); [by apply digits_ok_rev|].
  rewrite rev_involutive, zlen_rev in *. pose proof (digits_ok_rev _ Hok) as Hok'. destruct (Z.eqb_spec c 0) as [->|Hne'].
  - eexists. split; [done|]. cbn. rewrite num_app. split_and!; [by apply Forall_app|done|done|rewrite Hn; lia| |]; unfold expo, ndigits; cbn; rewrite zlen_app, zlen_rev; lia.
  - assert (c = 1) as -> by lia. rewrite Hrm. change (NBASE <=? 1 + 0) with false. cbn match. eexists. split; [done|]. cbn [digits weight sign dscale].
    split_and!; [constructor; [done|by apply Forall_app]|done|done| | |]; unfold expo, ndigits; cbn [digits weight].
    + change (1 + 0 :: rev rds ++ after) with ((1 :: rev rds) ++ after). rewrite num_app. f_equal. f_equal. cbn [num]. rewrite zlen_rev, Hl. lia.
    + rewrite zlen_cons, zlen_app, zlen_rev. lia.
    + rewrite zlen_cons, zlen_app, zlen_rev. lia.
Qed.

Lemma round_digit_spec d h : digit_ok d -> 0 < h -> 2 * h <= NBASE -> exists d' c, round_digit d (2 * h) = (d', c) /\ digit_ok d' /\ 0 <= c <= 1
  /\ c * NBASE + d' = d - d mod (2 * h) + (if h <=? d mod (2 * h) then 2 * h else 0).
Proof.
  unfold digit_ok, round_digit. intros Hd Hh Hle. rewrite Z.rem_mod_nonneg by lia. replace (2 * h ÷ 2) with h by (rewrite Z.mul_comm, Z.quot_mul; lia).
  pose proof (Z.mod_pos_bound d (2 * h) ltac:(lia)). pose proof (Z.mod_le d (2 * h) ltac:(lia) ltac:(lia)).
  destruct (Z.leb_spec h (d mod (2 * h))); [destruct (Z.leb_spec NBASE (2 * h + (d - d mod (2 * h))))|]; eexists _, _; (split; [done|]); lia.
Qed.

(** The carry of the digit after the last kept one. *)
Lemma nearest_base X v n d : digits_ok (digits v) -> 0 <= n < ndigits v -> zlookup (digits v) n = Some d ->
  forall Y, num (digits v) = X * pow_base (ndigits v - n) + Y -> X = num (take (Z.to_nat n) (digits v)) ->
  nearest (X * pow_base (ndigits v - n) + Y) (pow_base (ndigits v - n)) = X + (if HALF_NBASE <=? d then 1 else 0).
Proof.
  intros Hok Hn Hd Y EY EX. set (m := ndigits v - n - 1). assert (Hm : 0 <= m) by (unfold m; lia).
  replace (ndigits v - n) with (1 + m) in * by (unfold m; lia). rewrite pow_base_succ in * by done. pose proof (pow_base_pos m Hm).
  destruct (split_num v (n + 1) Hok ltac:(lia)) as (Y' & EY' & HY'). replace (ndigits v - (n + 1)) with m in * by (unfold m; lia).
  replace (n + 1 - 1) with n in * by lia. rewrite (take_pred v (n + 1) d) in EY' by (lia || by replace (n + 1 - 1) with n by lia).
  replace (n + 1 - 1) with n in EY' by lia. rewrite num_snoc, <- EX in EY'.
  assert (Hdok : digit_ok d) by (pose proof (digit_at_ok (digits v) n Hok) as Ht; unfold digit_at in Ht; by rewrite Hd in Ht).
  assert (HY : Y = d * pow_base m + Y') by nia. unfold digit_ok, NBASE in *. rewrite (nearest_digit X Y (10000 * pow_base m) (HALF_NBASE * pow_base m)); [|nia|unfold HALF_NBASE; lia|nia].
  f_equal. unfold HALF_NBASE. destruct (Z.leb_spec 5000 d), (Z.leb_spec (5000 * pow_base m) Y); nia.
Qed.

(** A number on which a result was put by [put_carry]. *)
Lemma rounded_at_scale v r n rscale : var_ok v -> 0 <= n <= ndigits v -> digits_ok (digits r) -> sign r = sign v -> dscale r = rscale ->
  expo r = weight v + 1 - n ->
  (forall K, fits v K -> rscale <= K -> num (digits r) * 10 ^ (4 * (weight v + 1 - n) + K) = nearest (dec v K) (10 ^ (K - rscale)) * 10 ^ (K - rscale)) ->
  at_scale nearest v rscale r.
Proof.
  intros [Hok Hsg] Hn Hr Hs Hd He Hdec. split; [split; [done|by rewrite Hs]|done| | |done].
  - intros K [H1 H2]. split; [done|]. unfold expo in H2. rewrite He. lia.
  - intros K Hf HK. unfold dec. rewrite He. by apply Hdec.
Qed.

Lemma round_spec v rscale : var_ok v -> room_ok v -> exists r, round_var v rscale = Done r /\ at_scale nearest v rscale r.
Proof.
  intros Hv Hroom. pose proof Hv as [Hok _]. unfold round_var. set (di := (weight v + 1) * DEC_DIGITS + rscale).
  destruct (Z.ltb_spec di 0) as [Hdi|Hdi].
  { eexists. split; [done|]. apply at_scale_zero. intros K Hf HK. pose proof (unit_none v rscale K Hok Hf HK Hdi). apply nearest_small; [by apply dec_nonneg|lia]. }
  set (n := (di + DEC_DIGITS - 1) ÷ DEC_DIGITS). set (j := Z.rem di DEC_DIGITS). pose proof (unit_facts v rscale Hdi) as (Hj & Ej & Hn0 & Hnj). fold di n j in Hj, Ej, Hn0, Hnj.
  assert (Hsame : ndigits v < n \/ ndigits v = n /\ j = 0 -> at_scale nearest v rscale (set_dscale rscale v)).
  { intros Hx. apply at_scale_same; [done|]. intros K Hf HK. destruct (unit_exact v rscale K Hf HK Hdi Hx) as [M ->].
    rewrite nearest_exact; [done|]. apply pow10_pos. lia. }
  destruct ((n <? ndigits v) || ((n =? ndigits v) && (0 <? j))) eqn:Hcut; [|eexists; split; [done|]; apply Hsame; bool_cases; cbn in Hcut; lia].
  assert (Hn : n < ndigits v \/ n = ndigits v /\ 0 < j) by (bool_cases; cbn in Hcut; try done; lia). clear Hcut Hsame.
  assert (Hn' : n <= ndigits v) by lia.
  destruct (split_num v n Hok ltac:(lia)) as (Y & EY & HY). set (X := num (take (Z.to_nat n) (digits v))) in *.
  assert (Hdec : forall K, fits v K -> rscale <= K -> nearest (dec v K) (10 ^ (K - rscale)) * 10 ^ (K - rscale)
    = nearest (X * pow_base (ndigits v - n) + Y) (pow_base (ndigits v - n) * subunit v rscale) * subunit v rscale * 10 ^ (4 * (weight v + 1 - n) + K)).
  { intros K Hf HK. destruct (unit_split v rscale K Hf Hdi Hn') as (Hs & E1 & E2). fold di n in E1, E2. rewrite E1, E2.
    pose proof (pow_base_pos (ndigits v - n) ltac:(lia)). pose proof (pow10_pos _ (proj2 Hf)). unfold dec. rewrite EY.
    replace (10 ^ (4 * expo v + K) * pow_base (ndigits v - n) * subunit v rscale) with (pow_base (ndigits v - n) * subunit v rscale * 10 ^ (4 * expo v + K)) by ring.
    rewrite nearest_units by nia. ring. }
  unfold subunit in Hdec. fold di j in Hdec. destruct (Z.eqb_spec j 0) as [Hj0|Hj0].
  - destruct (zlookup_is_Some (digits v) n) as [d Hd]; [unfold ndigits in *; lia|]. rewrite Hd. runs.
    destruct (put_carry_spec (if HALF_NBASE <=? d then 1 else 0) (take (Z.to_nat n) (digits v)) [] v rscale) as (r & -> & Hr & Hs & Hds & Hnum & He & _);
      [by apply Forall_take|constructor|by case_match|done|]. rewrite expo_take in He by lia. change (zlen (@nil Z)) with 0 in *. cbn [num] in Hnum. rewrite pow_base_0 in Hnum.
    exists r. split; [done|]. apply (rounded_at_scale v r n rscale); [done|lia|done|done|done|lia|]. intros K Hf HK. rewrite Hdec by done. rewrite !Z.mul_1_r.
    rewrite (nearest_base X v n d Hok ltac:(lia) Hd Y EY eq_refl). f_equal. fold X in Hnum. lia.
  - destruct (round_power j ltac:(lia)) as (Ep & Hdvd & _ & h & Hh & Eh). rewrite Ep. runs. rewrite Eh in *.
    destruct (zlookup_is_Some (digits v) (n - 1)) as [d Hd]; [unfold ndigits in *; lia|]. rewrite Hd. runs.
    assert (Hdok : digit_ok d) by (pose proof (digit_at_ok (digits v) (n - 1) Hok) as Ht; unfold digit_at in Ht; by rewrite Hd in Ht).
    assert (Hle : 2 * h <= NBASE) by (apply Z.divide_pos_le; done).
    destruct (round_digit_spec d h Hdok Hh Hle) as (d' & c & -> & Hd' & Hc & Edc).
    destruct (put_carry_spec c (take (Z.to_nat (n - 1)) (digits v)) [d'] v rscale) as (r & -> & Hr & Hs & Hds & Hnum & He & _);
      [by apply Forall_take|by apply Forall_singleton|done|done|]. rewrite expo_take in He by lia. change (zlen [d']) with 1 in *. change (num [d']) with (d' * 1 + 0) in Hnum. change (pow_base 1) with NBASE in Hnum.
    exists r. split; [done|]. apply (rounded_at_scale v r n rscale); [done|lia|done|done|done|lia|]. intros K Hf HK. rewrite Hdec by done. f_equal.
    rewrite nearest_within by (try apply pow_base_pos; lia). rewrite Hnum. unfold X. rewrite (take_pred v n d ltac:(lia) Hd), num_snoc. set (a := num (take (Z.to_nat (n - 1)) (digits v))) in *.
    rewrite (last_digit_mod a d _ Hdvd) by lia. pose proof (Z.div_mod (a * NBASE + d) (2 * h) ltac:(lia)) as Edm. rewrite (last_digit_mod a d _ Hdvd) in Edm by lia.
    destruct (h <=? d mod (2 * h)); lia.
Qed.
