(* ===== verification/NumericArr.v ===== *)
(** Arrays of digits that wait for their carries: the products of [mul_var] and
    the sums of the accumulator (Numeric.v) add into 32-bit elements and
    propagate the carries from time to time. *)
From S2P Require Import Prelude Numeric NumericVal.
From stdpp Require Import list.
#[local] Open Scope Z_scope.

(** Elements between zero and [M]. *)
Definition upto (M : Z) (dig : list Z) : Prop := Forall (fun d => 0 <= d <= M) dig.

Lemma upto_le M M' dig : M <= M' -> upto M dig -> upto M' dig.
Proof. intros HM Hd. eapply Forall_impl; [exact Hd|]. cbn. lia. Qed.
Lemma upto_zeros M n : 0 <= M -> upto M (replicate n 0).
Proof. intros HM. apply Forall_replicate. cbn. lia. Qed.
Lemma digits_upto dig : digits_ok dig <-> upto (NBASE - 1) dig.
Proof. split; intros Hd; (eapply Forall_impl; [exact Hd|]); unfold digit_ok; cbn; lia. Qed.
Lemma upto_app M a b : upto M a -> upto M b -> upto M (a ++ b).
Proof. intros Ha Hb. apply Forall_app. by split. Qed.

Lemma num_upto q dig : upto ((NBASE - 1) * q) dig -> 0 <= num dig <= q * (pow_base (zlen dig) - 1).
Proof.
  induction 1 as [|d ds Hd _ IH]; [change (zlen (@nil Z)) with 0; rewrite pow_base_0; cbn; lia|]. cbn [num]. rewrite zlen_cons, pow_base_succ by apply zlen_nonneg.
  pose proof (pow_base_pos (zlen ds) (zlen_nonneg _)). cbn beta in Hd. nia.
Qed.

Lemma int32_in x : - 2 ^ 31 <= x <= INT_MAX -> int32 x = Done x.
Proof. intros Hx. unfold int32. by rewrite !(proj2 (Z.leb_le _ _)) by lia. Qed.

(** ** Adding to an element *)

Lemma num_zset dig i y : 0 <= i < zlen dig -> num (zset dig i (digit_at dig i + y)) = num dig + y * pow_base (zlen dig - i - 1).
Proof.
  intros Hi. destruct (zlookup_is_Some dig i Hi) as [x Hx]. unfold digit_at. rewrite Hx. cbn [default from_option id].
  assert (Hl : dig !! Z.to_nat i = Some x) by (unfold zlookup in Hx; by rewrite (proj2 (Z.leb_le _ _)) in Hx by lia).
  unfold zset. rewrite insert_take_drop by (unfold zlen in Hi; lia). rewrite <- (take_drop_middle dig (Z.to_nat i) x Hl) at 3. rewrite !num_app. cbn [num]. rewrite !zlen_cons.
  assert (zlen (drop (S (Z.to_nat i)) dig) = zlen dig - i - 1) as -> by (unfold zlen in *; rewrite length_drop; lia). lia.
Qed.

Lemma upto_zset M dig i x : upto M dig -> 0 <= x <= M -> upto M (zset dig i x).
Proof. intros Hd Hx. by apply Forall_insert. Qed.

(** ** A row of products *)

Record row_post (dig : list Z) (i y : Z) (M : Z) (dig' : list Z) : Prop := {
  rp_len : zlen dig' = zlen dig;
  rp_num : num dig' = num dig + y;
  rp_upto : upto M dig';
  rp_below : forall j, 0 <= j < i -> zlookup dig' j = zlookup dig j }.

Lemma add_row_spec c ds i dig M : digits_ok ds -> 0 <= c <= NBASE -> 0 <= i -> i + zlen ds <= zlen dig -> upto M dig -> 0 <= M -> M + c * (NBASE - 1) <= INT_MAX ->
  exists dig', add_row c ds i dig = Done dig' /\ row_post dig i (c * num ds * pow_base (zlen dig - i - zlen ds)) (M + c * (NBASE - 1)) dig'.
Proof.
  intros Hok Hc Hi. revert i Hi dig. assert (Hgen : forall i, 0 <= i -> forall dig, i + zlen ds <= zlen dig -> upto (M + c * (NBASE - 1)) dig ->
    (forall j x, i <= j -> zlookup dig j = Some x -> x <= M) -> 0 <= M -> M + c * (NBASE - 1) <= INT_MAX ->
    exists dig', add_row c ds i dig = Done dig' /\ row_post dig i (c * num ds * pow_base (zlen dig - i - zlen ds)) (M + c * (NBASE - 1)) dig').
  { induction Hok as [|d ds Hd Hds IH]; intros i Hi dig Hl Hu Hr HM Hmax; cbn [add_row].
    { exists dig. split; [done|]. split; [done|cbn; lia|done|done]. }
    rewrite zlen_cons in Hl. pose proof (zlen_nonneg ds). destruct (zlookup_is_Some dig i ltac:(lia)) as [x Hx]. rewrite Hx. runs. unfold digit_ok, NBASE in Hd, Hc.
    assert (0 <= c * d <= c * (NBASE - 1)) by (unfold NBASE; nia). rewrite int32_in by (unfold INT_MAX in *; lia). runs. pose proof (Hr i x ltac:(lia) Hx) as Hxm.
    assert (Hx0 : 0 <= x) by (unfold zlookup in Hx; rewrite (proj2 (Z.leb_le _ _)) in Hx by lia; destruct (Forall_lookup_1 _ _ _ _ Hu Hx) as [? _]; done).
    rewrite int32_in by (unfold INT_MAX in *; lia). runs. rewrite zupdate_in by lia. runs.
    destruct (IH (i + 1) ltac:(lia) (zset dig i (x + c * d))) as (dig' & E & [P1 P2 P3 P4]);
      [rewrite zlen_zset; lia|by apply upto_zset; [|lia]| |done|done|].
    { intros j y Hj Hy. rewrite zlookup_zset in Hy by lia. case_decide; [lia|]. by apply (Hr j y ltac:(lia)). }
    exists dig'. split; [done|]. rewrite zlen_zset in *. pose proof (num_zset dig i (c * d) ltac:(lia)) as Hnum. unfold digit_at in Hnum. rewrite Hx in Hnum. cbn [default from_option id] in Hnum.
    split; [done| |done|].
    - rewrite P2, Hnum. cbn [num]. rewrite zlen_cons. rewrite (pow_base_split (zlen ds) (zlen dig - i - 1)) by lia. replace (zlen dig - i - 1 - zlen ds) with (zlen dig - i - (1 + zlen ds)) by lia.
      replace (zlen dig - (i + 1) - zlen ds) with (zlen dig - i - (1 + zlen ds)) by lia. ring.
    - intros j Hj. rewrite P4 by lia. rewrite zlookup_zset by lia. by rewrite decide_False by lia. }
  intros i Hi dig Hl Hu HM Hmax. apply Hgen; [done|done| | |done|done].
  - eapply upto_le; [|exact Hu]. unfold NBASE in *. nia.
  - intros j x Hj Hx. pose proof (zlookup_range _ _ _ Hx). unfold zlookup in Hx. rewrite (proj2 (Z.leb_le _ _)) in Hx by lia. by destruct (Forall_lookup_1 _ _ _ _ Hu Hx).
Qed.

Lemma add_digits_row ds i dig : digits_ok ds -> add_digits ds i dig = add_row 1 ds i dig.
Proof.
  intros Hok. revert i dig. induction Hok as [|d ds Hd Hds IH]; intros i dig; [done|]. cbn [add_digits add_row]. unfold digit_ok, NBASE in Hd.
  rewrite Z.mul_1_l, (int32_in d) by (unfold INT_MAX; lia). runs. destruct (zlookup dig i) as [x|]; [|done]. runs. destruct (int32 (x + d)); [|done|done]. runs.
  destruct (zupdate dig i _); [|done]. runs. apply IH.
Qed.

(** ** Carries *)

Lemma propagate_carry_spec M C rdig c : upto M rdig -> 0 <= c <= C -> M + C <= INT_MAX -> (M + C) / NBASE <= C ->
  exists c' r, propagate_carry rdig c = Done (c', r) /\ digits_ok r /\ zlen r = zlen rdig /\ 0 <= c' <= C
    /\ num (rev rdig) + c = c' * pow_base (zlen rdig) + num (rev r).
Proof.
  intros Hu Hc Hmax HC. revert c Hc. induction Hu as [|d rdig Hd _ IH]; intros c Hc; cbn [propagate_carry].
  { exists c, []. change (zlen (@nil Z)) with 0. rewrite pow_base_0. cbn. split_and!; [done|constructor|done|lia|lia|lia]. }
  cbn beta in Hd. rewrite int32_in by (unfold INT_MAX in *; lia). runs. set (q := if NBASE <=? d + c then (d + c) ÷ NBASE else 0).
  assert (Hq : 0 <= q <= C /\ digit_ok (d + c - q * NBASE)).
  { unfold q, digit_ok, NBASE in *. destruct (Z.leb_spec 10000 (d + c)); [|lia]. rewrite Z.quot_div_nonneg by lia. pose proof (Z.div_le_mono (d + c) (M + C) 10000 ltac:(lia) ltac:(lia)).
    zdiv_lia. }
  destruct Hq as [Hq Hok]. destruct (IH q Hq) as (c' & r & -> & Hr & Hl & Hc' & Hn). runs. exists c', (d + c - q * NBASE :: r).
  split_and!; [done|by constructor|by rewrite !zlen_cons, Hl|lia|lia|]. cbn [rev]. rewrite !num_snoc, zlen_cons, pow_base_succ by apply zlen_nonneg. lia.
Qed.

Lemma upto_rev M ds : upto M ds -> upto M (rev ds).
Proof. intros Hok. apply Forall_forall. intros d Hd. rewrite list_elem_of_In, <- in_rev, <- list_elem_of_In in Hd. by apply (proj1 (Forall_forall _ _) Hok). Qed.

(** No carry leaves an array whose number is small enough. *)
Lemma propagate_small M C dig : upto M dig -> 0 <= C -> M + C <= INT_MAX -> (M + C) / NBASE <= C -> num dig < pow_base (zlen dig) ->
  exists r, propagate_carry (rev dig) 0 = Done (0, r) /\ digits_ok (rev r) /\ zlen (rev r) = zlen dig /\ num (rev r) = num dig.
Proof.
  intros Hu HC Hmax Hq Hs. destruct (propagate_carry_spec M C (rev dig) 0 (upto_rev _ _ Hu) ltac:(lia) Hmax Hq) as (c & r & E & Hok & Hl & Hc & Hn).
  rewrite rev_involutive, zlen_rev in *. pose proof (num_bound (rev r) (digits_ok_rev _ Hok)). pose proof (pow_base_pos (zlen dig) (zlen_nonneg _)). assert (c = 0) as -> by nia. exists r.
  split_and!; [done|by apply digits_ok_rev|by rewrite zlen_rev|lia].
Qed.

Lemma normalize_spec M C dig : upto M dig -> 0 <= C -> M + C <= INT_MAX -> (M + C) / NBASE <= C -> num dig < pow_base (zlen dig) ->
  exists dig', normalize dig = Done dig' /\ digits_ok dig' /\ zlen dig' = zlen dig /\ num dig' = num dig.
Proof.
  intros Hu HC Hmax Hq Hs. destruct (propagate_small M C dig Hu HC Hmax Hq Hs) as (r & E & Hr). unfold normalize. rewrite E. runs. by exists (rev r).
Qed.

Lemma carry_digits_spec M C dig : upto M dig -> 0 <= C -> M + C <= INT_MAX -> (M + C) / NBASE <= C -> num dig < pow_base (zlen dig) ->
  exists dig', carry_digits dig = Done dig' /\ digits_ok dig' /\ zlen dig' = zlen dig /\ num dig' = num dig.
Proof.
  intros Hu HC Hmax Hq Hs. destruct (propagate_small M C dig Hu HC Hmax Hq Hs) as (r & E & Hr). unfold carry_digits. rewrite E. runs. by exists (rev r).
Qed.
