(* ===== verification/NumericSum.v ===== *)
(** Sums and differences of numeric variables (Numeric.v), and the accumulator
    of the aggregates. *)
From S2P Require Import Prelude Numeric NumericVal.
From stdpp Require Import list.
#[local] Open Scope Z_scope.

(** ** The loops over the digits *)

(** The number of the [n] digits below the index [i]. *)
Fixpoint low_digits (ds : list Z) (i : Z) (n : nat) : Z :=
  match n with
  | O => 0
  | S n => digit_at ds (i - 1) + NBASE * low_digits ds (i - 1) n
  end.

Lemma below_prefix ds i n : low_digits ds i n + pow_base (Z.of_nat n) * prefix_num ds (i - Z.of_nat n) = prefix_num ds i.
Proof.
  revert i. induction n as [|n IH]; intros i; cbn [low_digits]; [rewrite Z.sub_0_r; change (pow_base (Z.of_nat 0)) with 1; lia|].
  rewrite (prefix_step ds i), <- (IH (i - 1)). replace (Z.of_nat (S n)) with (1 + Z.of_nat n) by lia. rewrite pow_base_succ by lia.
  replace (i - (1 + Z.of_nat n)) with (i - 1 - Z.of_nat n) by lia. lia.
Qed.

Lemma below_all ds i n : i <= Z.of_nat n -> zlen ds <= i -> low_digits ds i n = num ds * pow_base (i - zlen ds).
Proof.
  intros Hn Hi. pose proof (below_prefix ds i n) as E. rewrite (prefix_all ds i Hi) in E.
  assert (prefix_num ds (i - Z.of_nat n) = 0) by (unfold prefix_num; by rewrite (proj2 (Z.leb_le _ _)) by lia). lia.
Qed.

(** Digits above the first [n] that are not there do not count. *)
Lemma below_small ds i n : digits_ok ds -> zlen ds <= i -> num ds * pow_base (i - zlen ds) < pow_base (Z.of_nat n) ->
  low_digits ds i n = num ds * pow_base (i - zlen ds).
Proof.
  intros Hok Hi Hs. pose proof (below_prefix ds i n) as E. rewrite (prefix_all ds i Hi) in E. pose proof (pow_base_pos (Z.of_nat n) ltac:(lia)).
  assert (0 <= prefix_num ds (i - Z.of_nat n)).
  { destruct (decide (0 <= i - Z.of_nat n)); [by apply prefix_bound|]. unfold prefix_num. by rewrite (proj2 (Z.leb_le _ _)) by lia. }
  assert (0 <= low_digits ds i n) by (clear -Hok; revert i; induction n as [|n IH]; intros i; cbn [low_digits]; [done|]; specialize (IH (i - 1)); destruct (digit_at_ok ds (i - 1) Hok); unfold NBASE in *; lia).
  assert (prefix_num ds (i - Z.of_nat n) = 0) by nia. lia.
Qed.

Lemma add_loop_spec n ds1 ds2 i1 i2 c res : digits_ok ds1 -> digits_ok ds2 -> 0 <= c <= 1 ->
  exists c' new, add_loop n ds1 ds2 i1 i2 c res = (c', new ++ res) /\ zlen new = Z.of_nat n /\ digits_ok new /\ 0 <= c' <= 1
    /\ num new + c' * pow_base (Z.of_nat n) = c + low_digits ds1 i1 n + low_digits ds2 i2 n.
Proof.
  intros Hok1 Hok2. revert i1 i2 c res. induction n as [|n IH]; intros i1 i2 c res Hc; cbn [add_loop low_digits].
  { exists c, []. change (pow_base (Z.of_nat 0)) with 1. split_and!; [done|done|constructor|lia|lia|cbn; lia]. }
  destruct (digit_at_ok ds1 (i1 - 1) Hok1) as [A1 A2]. destruct (digit_at_ok ds2 (i2 - 1) Hok2) as [B1 B2].
  set (x := c + digit_at ds1 (i1 - 1) + digit_at ds2 (i2 - 1)).
  assert (Hstep : forall c0 d, 0 <= c0 <= 1 -> digit_ok d -> x = c0 * NBASE + d ->
    exists c' new, add_loop n ds1 ds2 (i1 - 1) (i2 - 1) c0 (d :: res) = (c', new ++ res) /\ zlen new = Z.of_nat (S n) /\ digits_ok new /\ 0 <= c' <= 1
      /\ num new + c' * pow_base (Z.of_nat (S n)) = c + (digit_at ds1 (i1 - 1) + NBASE * low_digits ds1 (i1 - 1) n) + (digit_at ds2 (i2 - 1) + NBASE * low_digits ds2 (i2 - 1) n)).
  { intros c0 d Hc0 Hd Hx. destruct (IH (i1 - 1) (i2 - 1) c0 (d :: res) Hc0) as (c' & new & E & Hl & Hok & Hc' & Hn). exists c', (new ++ [d]).
    rewrite <- app_assoc, zlen_app, num_snoc. change (zlen [d]) with 1. replace (Z.of_nat (S n)) with (1 + Z.of_nat n) by lia. rewrite pow_base_succ by lia.
    split_and!; [done|lia| |lia|lia|lia]. apply Forall_app. split; [done|by apply Forall_singleton]. }
  destruct (Z.leb_spec NBASE x); apply Hstep; unfold digit_ok; lia.
Qed.

Lemma sub_loop_spec n ds1 ds2 i1 i2 b res : digits_ok ds1 -> digits_ok ds2 -> -1 <= b <= 0 ->
  exists b' new, sub_loop n ds1 ds2 i1 i2 b res = (b', new ++ res) /\ zlen new = Z.of_nat n /\ digits_ok new /\ -1 <= b' <= 0
    /\ num new + b' * pow_base (Z.of_nat n) = b + low_digits ds1 i1 n - low_digits ds2 i2 n.
Proof.
  intros Hok1 Hok2. revert i1 i2 b res. induction n as [|n IH]; intros i1 i2 b res Hb; cbn [sub_loop low_digits].
  { exists b, []. change (pow_base (Z.of_nat 0)) with 1. split_and!; [done|done|constructor|lia|lia|cbn; lia]. }
  destruct (digit_at_ok ds1 (i1 - 1) Hok1) as [A1 A2]. destruct (digit_at_ok ds2 (i2 - 1) Hok2) as [B1 B2].
  set (x := b + digit_at ds1 (i1 - 1) - digit_at ds2 (i2 - 1)).
  assert (Hstep : forall b0 d, -1 <= b0 <= 0 -> digit_ok d -> x = b0 * NBASE + d ->
    exists b' new, sub_loop n ds1 ds2 (i1 - 1) (i2 - 1) b0 (d :: res) = (b', new ++ res) /\ zlen new = Z.of_nat (S n) /\ digits_ok new /\ -1 <= b' <= 0
      /\ num new + b' * pow_base (Z.of_nat (S n)) = b + (digit_at ds1 (i1 - 1) + NBASE * low_digits ds1 (i1 - 1) n) - (digit_at ds2 (i2 - 1) + NBASE * low_digits ds2 (i2 - 1) n)).
  { intros b0 d Hb0 Hd Hx. destruct (IH (i1 - 1) (i2 - 1) b0 (d :: res) Hb0) as (b' & new & E & Hl & Hok & Hb' & Hn). exists b', (new ++ [d]).
    rewrite <- app_assoc, zlen_app, num_snoc. change (zlen [d]) with 1. replace (Z.of_nat (S n)) with (1 + Z.of_nat n) by lia. rewrite pow_base_succ by lia.
    split_and!; [done|lia| |lia|lia|lia]. apply Forall_app. split; [done|by apply Forall_singleton]. }
  destruct (Z.ltb_spec x 0); apply Hstep; unfold digit_ok; lia.
Qed.

(** ** add_abs, sub_abs *)

(** The variable has the absolute value [f K] in units of 10^-K. *)
Record has_dec (r : NumericVar) (ok : Z -> Prop) (f : Z -> Z) : Prop := {
  hd_ok : var_ok r;
  hd_trim : trimmed r;
  hd_fits : forall K, ok K -> fits r K;
  hd_dec : forall K, ok K -> dec r K = f K }.

Lemma dec_scale v k K : 0 <= k + expo v -> 4 * k <= K -> dec v K = mag k (digits v) (weight v) * 10 ^ (K - 4 * k).
Proof.
  intros Hk HK. rewrite <- dec_mag by done. unfold dec. rewrite <- Z.mul_assoc, <- Z.pow_add_r by lia. f_equal. f_equal. lia.
Qed.

(** Digits with the exponent [-k], stripped, with a sign put on. *)
Lemma stripped_dec res w sg scale k M : digits_ok res -> sg = NUMERIC_POS \/ sg = NUMERIC_NEG -> zlen res = k + w + 1 -> num res = M ->
  has_dec (set_sign sg (strip_var (MkVar res w sg scale [0]))) (fun K => 0 <= K /\ 4 * k <= K) (fun K => M * 10 ^ (K - 4 * k)).
Proof.
  intros Hok Hsg Hl Hn. destruct (strip_spec (MkVar res w sg scale [0])) as [[S1 S2] [N1 N2 N3] _ _ S5 S6 _]; [by split|]. set (p := MkVar _ _ _ _ _) in *.
  assert (He : expo p = - k) by (unfold expo, ndigits, p; cbn; lia).
  assert (Hf : forall K, 0 <= K /\ 4 * k <= K -> fits p K) by (intros K [? ?]; split; lia). split.
  - by split.
  - split; [exact N1|exact N2|]. intros Hd. by destruct (N3 Hd).
  - intros K HK. apply (S5 K), Hf, HK.
  - intros K HK. change (dec (set_sign sg (strip_var p)) K) with (dec (strip_var p) K). rewrite S6 by (by apply Hf). unfold dec. rewrite He. cbn. rewrite Hn. f_equal. f_equal. lia.
Qed.

Definition both_fit (v1 v2 : NumericVar) (K : Z) : Prop := fits v1 K /\ fits v2 K.

Lemma has_dec_weaken r ok ok' f f' : has_dec r ok f -> (forall K, ok' K -> ok K /\ f' K = f K) -> has_dec r ok' f'.
Proof. intros [H1 H0 H2 H3] Hw. split; [done|done|intros K HK; by apply H2, Hw|]. intros K HK. destruct (Hw K HK) as [Ho ->]. by apply H3. Qed.

Lemma strip_dscale v : dscale (strip_var v) = dscale v.
Proof. unfold strip_var. destruct (strip_leading _ _ _) as [[ds w] rm]. by destruct (strip_trailing ds). Qed.

Lemma add_abs_spec v1 v2 sg : var_ok v1 -> var_ok v2 -> sg = NUMERIC_POS \/ sg = NUMERIC_NEG ->
  exists r, add_abs v1 v2 sg = Done r /\ has_dec r (both_fit v1 v2) (fun K => dec v1 K + dec v2 K) /\ sign r = sg /\ dscale r = Z.max (dscale v1) (dscale v2).
Proof.
  intros [Hok1 _] [Hok2 _] Hsg. unfold add_abs. set (rs := res_rscale v1 v2). set (w := Z.max (weight v1) (weight v2) + 1).
  pose proof (zlen_nonneg (digits v1)). pose proof (zlen_nonneg (digits v2)). assert (Hrs : rs = Z.max (- expo v1) (- expo v2)) by (unfold rs, res_rscale, expo, ndigits; lia).
  unfold expo, ndigits in Hrs. assert (Hn : 0 < rs + w + 1) by lia. rewrite (proj2 (Z.leb_gt _ 0)) by lia.
  destruct (add_loop_spec (Z.to_nat (rs + w + 1)) (digits v1) (digits v2) (rs + weight v1 + 1) (rs + weight v2 + 1) 0 [] Hok1 Hok2 ltac:(lia)) as (c & new & -> & Hl & Hok & Hc & Hnum).
  rewrite app_nil_r. rewrite !below_all in Hnum by lia. rewrite Z2Nat.id in Hl, Hnum by lia. fold (mag rs (digits v1) (weight v1)) (mag rs (digits v2) (weight v2)) in Hnum.
  pose proof (mag_bound rs (digits v1) (weight v1) Hok1 ltac:(lia)) as M1. pose proof (mag_bound rs (digits v2) (weight v2) Hok2 ltac:(lia)) as M2.
  pose proof (pow_base_le (rs + weight v1 + 1) (rs + w) ltac:(lia)). pose proof (pow_base_le (rs + weight v2 + 1) (rs + w) ltac:(lia)).
  pose proof (num_bound new Hok). replace (rs + w + 1) with (1 + (rs + w)) in * by lia. rewrite pow_base_succ in Hnum by lia. assert (c = 0) as -> by (unfold NBASE in *; nia).
  rewrite Z.eqb_refl. eexists. split; [done|]. split; [|split; [done|]].
  - eapply has_dec_weaken; [apply (stripped_dec new w sg _ rs _ Hok Hsg ltac:(lia) eq_refl)|]. intros K [[K1 K2] [K3 K4]]. unfold expo, ndigits in K2, K4. split; [lia|].
    rewrite !(dec_scale _ rs) by (unfold expo, ndigits; lia). nia.
  - change (dscale (set_sign sg ?x)) with (dscale x). by rewrite strip_dscale.
Qed.

Lemma zero_has_dec rm sg scale f ok : sg = NUMERIC_POS \/ sg = NUMERIC_NEG -> (forall K, ok K -> 0 <= K /\ f K = 0) -> has_dec (MkVar [] 0 sg scale rm) ok f.
Proof.
  intros Hsg Hf. split; [by split; [constructor|]|split; cbn; [done|by intros []|done]| |].
  - intros K HK. destruct (Hf K HK). split; [done|]. unfold expo, ndigits. cbn [digits weight]. change (zlen (@nil Z)) with 0. lia.
  - intros K HK. by destruct (Hf K HK) as [_ ->].
Qed.

Lemma sub_abs_spec v1 v2 sg : var_ok v1 -> var_ok v2 -> sg = NUMERIC_POS \/ sg = NUMERIC_NEG ->
  (forall k, 0 <= k + expo v1 -> 0 <= k + expo v2 -> mag k (digits v2) (weight v2) <= mag k (digits v1) (weight v1)) ->
  exists r, sub_abs v1 v2 sg = Done r /\ has_dec r (both_fit v1 v2) (fun K => dec v1 K - dec v2 K) /\ sign r = sg /\ dscale r = Z.max (dscale v1) (dscale v2).
Proof.
  intros [Hok1 _] [Hok2 _] Hsg Hle. unfold sub_abs. set (rs := res_rscale v1 v2). set (w := weight v1).
  pose proof (zlen_nonneg (digits v1)). pose proof (zlen_nonneg (digits v2)). assert (Hrs : rs = Z.max (- expo v1) (- expo v2)) by (unfold rs, res_rscale, expo, ndigits; lia).
  specialize (Hle rs ltac:(lia) ltac:(lia)). unfold expo, ndigits in Hrs.
  pose proof (mag_bound rs (digits v1) w Hok1 ltac:(unfold w; lia)) as M1. pose proof (mag_bound rs (digits v2) (weight v2) Hok2 ltac:(lia)) as M2. fold w in Hle.
  assert (Hdec : forall K, both_fit v1 v2 K -> 4 * rs <= K /\ dec v1 K - dec v2 K = (mag rs (digits v1) w - mag rs (digits v2) (weight v2)) * 10 ^ (K - 4 * rs)).
  { intros K [[K1 K2] [K3 K4]]. unfold expo, ndigits in K2, K4. split; [lia|]. rewrite !(dec_scale _ rs) by (unfold expo, ndigits; lia). unfold w. lia. }
  destruct (Z.leb_spec (rs + w + 1) 0) as [Hn|Hn].
  - assert (Hnil : digits v1 = []) by (destruct (digits v1) as [|d l]; [done|]; rewrite zlen_cons in *; pose proof (zlen_nonneg l); unfold w in *; lia).
    rewrite Hnil in *. change (zlen (@nil Z)) with 0 in *. rewrite mag_nil in *.
    destruct (sub_loop_spec 1 [] (digits v2) (rs + w + 1) (rs + weight v2 + 1) 0 [] ltac:(constructor) Hok2 ltac:(lia)) as (b & new & E & Hl & Hok & Hb & Hnum).
    change (Z.to_nat 1) with 1%nat. rewrite E, app_nil_r. rewrite below_all in Hnum by (change (zlen (@nil Z)) with 0; unfold w in *; lia).
    fold (mag rs (digits v2) (weight v2)) in Hle, M2. assert (Hz : num (digits v2) * pow_base (rs + weight v2 + 1 - zlen (digits v2)) = 0) by (unfold mag in *; lia).
    rewrite below_small in Hnum by (done || lia || (rewrite Hz; by apply pow_base_pos)). rewrite Hz in Hnum. change (num []) with 0 in Hnum. pose proof (num_bound new Hok).
    rewrite Hl in *. change (pow_base (Z.of_nat 1)) with NBASE in *. assert (b = 0) as -> by (unfold NBASE in *; nia). rewrite Z.eqb_refl.
    destruct new as [|d [|d2 l]]; [done| |rewrite !zlen_cons in Hl; pose proof (zlen_nonneg l); lia]. cbn [num] in Hnum. change (zlen (@nil Z)) with 0 in Hnum. rewrite pow_base_0 in Hnum.
    assert (d = 0) as -> by lia. eexists. split; [done|]. split; [|done]. apply zero_has_dec; [done|]. intros K HK. pose proof (Hdec K HK) as [_ ->]. destruct HK as [[? _] _]. split; [done|].
    assert (mag rs (digits v2) (weight v2) = 0) as -> by lia. lia.
  - destruct (sub_loop_spec (Z.to_nat (rs + w + 1)) (digits v1) (digits v2) (rs + w + 1) (rs + weight v2 + 1) 0 [] Hok1 Hok2 ltac:(lia)) as (b & new & -> & Hl & Hok & Hb & Hnum).
    rewrite app_nil_r. rewrite below_all in Hnum by (unfold w; lia). rewrite Z2Nat.id in Hl by lia. fold (mag rs (digits v1) w) in Hnum.
    rewrite below_small in Hnum by (done || lia || (rewrite Z2Nat.id by lia; unfold mag in *; lia)). rewrite Z2Nat.id in Hnum by lia. fold (mag rs (digits v2) (weight v2)) in Hnum.
    pose proof (num_bound new Hok). rewrite Hl in *. assert (b = 0) as -> by nia. rewrite Z.eqb_refl. eexists. split; [done|]. split; [|split; [done|]].
    + eapply has_dec_weaken; [apply (stripped_dec new w sg _ rs _ Hok Hsg Hl eq_refl)|]. intros K HK. destruct (Hdec K HK) as [HK4 ->]. destruct HK as [[? _] _]. split; [done|]. f_equal. lia.
    + change (dscale (set_sign sg ?x)) with (dscale x). by rewrite strip_dscale.
Qed.

(** ** Signed *)

(** [r] stands for the signed number [f K] in units of 10^-K. *)
Record has_value (r : NumericVar) (ok : Z -> Prop) (f : Z -> Z) : Prop := {
  hv_ok : var_ok r;
  hv_trim : trimmed r;
  hv_fits : forall K, ok K -> fits r K;
  hv_dec : forall K, ok K -> sgn r * dec r K = f K }.

Lemma has_dec_value r ok f g : has_dec r ok f -> (forall K, ok K -> g K = sgn r * f K) -> has_value r ok g.
Proof. intros [H1 H0 H2 H3] Hg. split; [done|done|done|]. intros K HK. by rewrite H3, Hg. Qed.

Lemma cmp_abs_spec v1 v2 k : var_ok v1 -> var_ok v2 -> 0 <= k + expo v1 -> 0 <= k + expo v2 ->
  cmp_abs v1 v2 = cmp_result (mag k (digits v1) (weight v1)) (mag k (digits v2) (weight v2)).
Proof. intros [Hok1 _] [Hok2 _] H1 H2. apply cmp_abs_common_spec; [done|done|unfold expo, ndigits in *; lia..]. Qed.

Lemma cmp_result_cases x y : (cmp_result x y = 0 /\ x = y) \/ (cmp_result x y = 1 /\ y < x) \/ (cmp_result x y = -1 /\ x < y).
Proof. unfold cmp_result. destruct (Z.compare_spec x y); lia. Qed.

(** A comparison at one scale holds at all. *)
Lemma mag_shift v k k' : 0 <= k + expo v -> k <= k' -> mag k' (digits v) (weight v) = mag k (digits v) (weight v) * pow_base (k' - k).
Proof.
  intros Hk Hle. unfold mag, expo, ndigits in *. rewrite <- Z.mul_assoc, <- pow_base_add by lia. f_equal. f_equal. lia.
Qed.

Lemma cmp_abs_all v1 v2 : var_ok v1 -> var_ok v2 ->
  (cmp_abs v1 v2 = 0 /\ forall k, 0 <= k + expo v1 -> 0 <= k + expo v2 -> mag k (digits v1) (weight v1) = mag k (digits v2) (weight v2))
  \/ (cmp_abs v1 v2 = 1 /\ forall k, 0 <= k + expo v1 -> 0 <= k + expo v2 -> mag k (digits v2) (weight v2) < mag k (digits v1) (weight v1))
  \/ (cmp_abs v1 v2 = -1 /\ forall k, 0 <= k + expo v1 -> 0 <= k + expo v2 -> mag k (digits v1) (weight v1) < mag k (digits v2) (weight v2)).
Proof.
  intros Hv1 Hv2. set (k0 := Z.max (- expo v1) (- expo v2)).
  assert (Hall : forall k, 0 <= k + expo v1 -> 0 <= k + expo v2 -> cmp_abs v1 v2 = cmp_result (mag k (digits v1) (weight v1)) (mag k (digits v2) (weight v2))).
  { intros k H1 H2. by apply cmp_abs_spec. }
  pose proof (Hall k0 ltac:(lia) ltac:(lia)) as E0. destruct (cmp_result_cases (mag k0 (digits v1) (weight v1)) (mag k0 (digits v2) (weight v2))) as [[Hc _]|[[Hc _]|[Hc _]]];
    rewrite Hc in E0; [left|right; left|right; right]; (split; [done|]); intros k H1 H2; specialize (Hall k H1 H2); rewrite E0 in Hall;
    destruct (cmp_result_cases (mag k (digits v1) (weight v1)) (mag k (digits v2) (weight v2))) as [[? ?]|[[? ?]|[? ?]]]; lia.
Qed.

Lemma sgn_pos v : sign v = NUMERIC_POS -> sgn v = 1.
Proof. unfold sgn. by intros ->. Qed.
Lemma sgn_neg v : sign v = NUMERIC_NEG -> sgn v = -1.
Proof. unfold sgn. by intros ->. Qed.

Lemma dec_zero_eq v1 v2 K : both_fit v1 v2 K -> (forall k, 0 <= k + expo v1 -> 0 <= k + expo v2 -> mag k (digits v1) (weight v1) = mag k (digits v2) (weight v2)) -> dec v1 K = dec v2 K.
Proof.
  intros [[H1 H2] [H3 H4]] He. set (k := Z.max (- expo v1) (- expo v2)). rewrite !(dec_scale _ k) by lia. by rewrite He by lia.
Qed.

Lemma dec_strict v1 v2 K : both_fit v1 v2 K -> (forall k, 0 <= k + expo v1 -> 0 <= k + expo v2 -> mag k (digits v1) (weight v1) < mag k (digits v2) (weight v2)) -> dec v1 K < dec v2 K.
Proof.
  intros [[H1 H2] [H3 H4]] Hlt. set (k := Z.max (- expo v1) (- expo v2)). rewrite !(dec_scale _ k) by lia. specialize (Hlt k ltac:(lia) ltac:(lia)).
  pose proof (pow10_pos (K - 4 * k) ltac:(lia)). nia.
Qed.

Lemma some_fit v1 v2 : exists K, both_fit v1 v2 K.
Proof. exists (Z.max 0 (Z.max (- 4 * expo v1) (- 4 * expo v2))). split; split; lia. Qed.

Lemma no_digits_dec r K : digits r = [] -> dec r K = 0.
Proof. intros Hd. unfold dec. by rewrite Hd. Qed.

(** The larger minus the smaller. *)
Lemma sub_larger_spec v1 v2 s1 s2 : var_ok v1 -> var_ok v2 -> (s1 = NUMERIC_POS /\ s2 = NUMERIC_NEG) \/ (s1 = NUMERIC_NEG /\ s2 = NUMERIC_POS) ->
  exists r, sub_larger v1 v2 s1 s2 = Done r /\ has_value r (both_fit v1 v2) (fun K => (if s1 =? NUMERIC_POS then 1 else -1) * (dec v1 K - dec v2 K))
    /\ dscale r = Z.max (dscale v1) (dscale v2) /\ (digits r = [] -> sign r = NUMERIC_POS).
Proof.
  intros Hv1 Hv2 Hs. unfold sub_larger. assert (Hs1 : s1 = NUMERIC_POS \/ s1 = NUMERIC_NEG) by tauto. assert (Hs2 : s2 = NUMERIC_POS \/ s2 = NUMERIC_NEG) by tauto.
  destruct (some_fit v1 v2) as [K0 HK0].
  destruct (cmp_abs_all v1 v2 Hv1 Hv2) as [[-> He]|[[-> Hlt]|[-> Hlt]]]; cbn [Z.eqb Pos.eqb].
  - eexists. split; [done|]. split; [|done]. eapply (has_dec_value _ _ (fun _ => 0)); [apply zero_has_dec; [by left|]; intros K [[? _] _]; done|].
    intros K HK. rewrite (dec_zero_eq v1 v2 K HK He). lia.
  - destruct (sub_abs_spec v1 v2 s1 Hv1 Hv2 Hs1) as (r & -> & Hr & Hsg & Hd); [intros k H1 H2; specialize (Hlt k H1 H2); lia|]. exists r. split; [done|]. split; [|split; [done|]].
    2: { intros Hnil. pose proof (dec_strict v2 v1 K0 (conj (proj2 HK0) (proj1 HK0)) ltac:(auto)). pose proof (hd_dec _ _ _ Hr K0 HK0) as E. rewrite no_digits_dec in E by done. lia. }
    eapply has_dec_value; [exact Hr|]. intros K HK. cbn beta. f_equal. unfold sgn. rewrite Hsg. destruct Hs as [[-> ->]|[-> ->]]; done.
  - destruct (sub_abs_spec v2 v1 s2 Hv2 Hv1 Hs2) as (r & -> & Hr & Hsg & Hd); [intros k H1 H2; specialize (Hlt k H2 H1); lia|]. exists r. split; [done|]. split; [|split; [by rewrite Z.max_comm|]].
    2: { intros Hnil. pose proof (dec_strict v1 v2 K0 HK0 Hlt). pose proof (hd_dec _ _ _ Hr K0 (conj (proj2 HK0) (proj1 HK0))) as E. rewrite no_digits_dec in E by done. lia. }
    eapply has_dec_value; [eapply has_dec_weaken; [exact Hr|]; intros K [HK1 HK2]; split; [by split|reflexivity]|]. intros K HK. cbn beta. unfold sgn. rewrite Hsg. destruct Hs as [[-> ->]|[-> ->]]; cbn; lia.
Qed.

(** A negative number without zeros at the ends is not zero. *)
Lemma add_abs_not_zero v1 v2 r : var_ok v1 -> var_ok v2 -> normal v1 -> sign v1 = NUMERIC_NEG -> has_dec r (both_fit v1 v2) (fun K => dec v1 K + dec v2 K) -> digits r <> [].
Proof.
  intros Hv1 Hv2 N1 E1 Hr Hnil. destruct (some_fit v1 v2) as [K HK]. pose proof (hd_dec _ _ _ Hr K HK) as E. rewrite no_digits_dec in E by done.
  assert (Hpos : 0 < dec v1 K) by (apply dec_pos; [apply HK|]; apply trimmed_pos; [done|by apply normal_trimmed|]; intros Hd; destruct (no_zero _ N1 Hd) as [_ Hs]; by rewrite E1 in Hs).
  pose proof (dec_nonneg v2 K ltac:(apply Hv2)). lia.
Qed.

Lemma add_spec v1 v2 : var_ok v1 -> var_ok v2 -> exists r, add_var v1 v2 = Done r /\ dscale r = Z.max (dscale v1) (dscale v2)
  /\ has_value r (both_fit v1 v2) (fun K => sgn v1 * dec v1 K + sgn v2 * dec v2 K) /\ (normal v1 -> normal v2 -> digits r = [] -> sign r = NUMERIC_POS).
Proof.
  intros Hv1 Hv2. unfold add_var. pose proof Hv1 as [_ [E1|E1]]; pose proof Hv2 as [_ [E2|E2]]; rewrite E1, E2; cbn [Z.eqb NUMERIC_POS NUMERIC_NEG].
  - destruct (add_abs_spec v1 v2 NUMERIC_POS Hv1 Hv2 ltac:(by left)) as (r & -> & Hr & Hsg & Hd). exists r. split; [done|]. split; [done|]. split; [|done].
    eapply has_dec_value; [exact Hr|]. intros K _. cbn beta. rewrite (sgn_pos r Hsg), (sgn_pos v1 E1), (sgn_pos v2 E2). lia.
  - destruct (sub_larger_spec v1 v2 NUMERIC_POS NUMERIC_NEG Hv1 Hv2 ltac:(by left)) as (r & -> & [H1 H0 H2 H3] & Hd & Hz). exists r. split; [done|]. split; [done|]. split; [|by intros _ _].
    split; [done|done|done|]. intros K HK. rewrite (H3 K HK), (sgn_pos v1 E1), (sgn_neg v2 E2). cbn. lia.
  - destruct (sub_larger_spec v1 v2 NUMERIC_NEG NUMERIC_POS Hv1 Hv2 ltac:(by right)) as (r & -> & [H1 H0 H2 H3] & Hd & Hz). exists r. split; [done|]. split; [done|]. split; [|by intros _ _].
    split; [done|done|done|]. intros K HK. rewrite (H3 K HK), (sgn_neg v1 E1), (sgn_pos v2 E2). cbn. lia.
  - destruct (add_abs_spec v1 v2 NUMERIC_NEG Hv1 Hv2 ltac:(by right)) as (r & -> & Hr & Hsg & Hd). exists r. split; [done|]. split; [done|]. split; [|intros N1 N2 Hnil; exfalso; by apply (add_abs_not_zero v1 v2 r)].
    eapply has_dec_value; [exact Hr|]. intros K _. cbn beta. rewrite (sgn_neg r Hsg), (sgn_neg v1 E1), (sgn_neg v2 E2). lia.
Qed.

Lemma sub_spec v1 v2 : var_ok v1 -> var_ok v2 -> exists r, sub_var v1 v2 = Done r /\ dscale r = Z.max (dscale v1) (dscale v2)
  /\ has_value r (both_fit v1 v2) (fun K => sgn v1 * dec v1 K - sgn v2 * dec v2 K) /\ (normal v1 -> normal v2 -> digits r = [] -> sign r = NUMERIC_POS).
Proof.
  intros Hv1 Hv2. unfold sub_var. pose proof Hv1 as [_ [E1|E1]]; pose proof Hv2 as [_ [E2|E2]]; rewrite E1, E2; cbn [Z.eqb NUMERIC_POS NUMERIC_NEG].
  - destruct (sub_larger_spec v1 v2 NUMERIC_POS NUMERIC_NEG Hv1 Hv2 ltac:(by left)) as (r & -> & [H1 H0 H2 H3] & Hd & Hz). exists r. split; [done|]. split; [done|]. split; [|by intros _ _].
    split; [done|done|done|]. intros K HK. rewrite (H3 K HK), (sgn_pos v1 E1), (sgn_pos v2 E2). cbn. lia.
  - destruct (add_abs_spec v1 v2 NUMERIC_POS Hv1 Hv2 ltac:(by left)) as (r & -> & Hr & Hsg & Hd). exists r. split; [done|]. split; [done|]. split; [|done].
    eapply has_dec_value; [exact Hr|]. intros K _. cbn beta. rewrite (sgn_pos r Hsg), (sgn_pos v1 E1), (sgn_neg v2 E2). lia.
  - destruct (add_abs_spec v1 v2 NUMERIC_NEG Hv1 Hv2 ltac:(by right)) as (r & -> & Hr & Hsg & Hd). exists r. split; [done|]. split; [done|]. split; [|intros N1 N2 Hnil; exfalso; by apply (add_abs_not_zero v1 v2 r)].
    eapply has_dec_value; [exact Hr|]. intros K _. cbn beta. rewrite (sgn_neg r Hsg), (sgn_neg v1 E1), (sgn_pos v2 E2). lia.
  - destruct (sub_larger_spec v1 v2 NUMERIC_NEG NUMERIC_POS Hv1 Hv2 ltac:(by right)) as (r & -> & [H1 H0 H2 H3] & Hd & Hz). exists r. split; [done|]. split; [done|]. split; [|by intros _ _].
    split; [done|done|done|]. intros K HK. rewrite (H3 K HK), (sgn_neg v1 E1), (sgn_neg v2 E2). cbn. lia.
Qed.
