(* ===== verification/NumericAccum.v ===== *)
(** The accumulator of the aggregates of numeric (Numeric.v): however many
    values are added, no 32-bit element overflows, no carry is lost, and the
    final value is the exact sum. *)
From S2P Require Import Prelude Numeric NumericVal NumericArr NumericSum.
From stdpp Require Import list.
#[local] Open Scope Z_scope.

Definition acc_expo (a : NumericSumAccum) : Z := acc_weight a + 1 - acc_ndigits a.

(** One of the two arrays: after [u] additions an element is at most [1 + u]
    digits, and the first is a spare zero when there is carry space. *)
Record arr_ok (nd u : Z) (space : bool) (dig : list Z) : Prop := {
  ar_len : zlen dig = nd;
  ar_upto : upto ((NBASE - 1) * (1 + u)) dig;
  ar_head : space = true -> zlookup dig 0 = Some 0 }.

Record acc_ok (a : NumericSumAccum) : Prop := {
  ao_pos : arr_ok (acc_ndigits a) (num_uncarried a) (have_carry_space a) (pos_digits a);
  ao_neg : arr_ok (acc_ndigits a) (num_uncarried a) (have_carry_space a) (neg_digits a);
  ao_count : 0 <= num_uncarried a <= NBASE - 1;
  ao_space : 0 < num_uncarried a -> have_carry_space a = true }.

Lemma empty_accum_ok : acc_ok empty_accum.
Proof. split; cbn; [by split; [|constructor|]..|unfold NBASE; lia|lia]. Qed.

(** ** The carry *)

Lemma head_cons (dig : list Z) x : zlookup dig 0 = Some x -> exists r, dig = x :: r.
Proof. unfold zlookup. cbn. destruct dig as [|y r]; intros [= ->]. by exists r. Qed.

Lemma arr_small nd u dig : arr_ok nd u true dig -> 0 <= u <= NBASE - 1 -> num dig < pow_base (zlen dig).
Proof.
  intros [Hl Hu Hh] Hc. destruct (head_cons dig 0 (Hh eq_refl)) as [r ->]. apply Forall_cons in Hu as [_ Hu]. pose proof (num_upto _ _ Hu).
  cbn [num]. rewrite zlen_cons, pow_base_succ by apply zlen_nonneg. pose proof (pow_base_pos (zlen r) (zlen_nonneg _)). unfold NBASE in *. nia.
Qed.

Lemma arr_carry nd u dig : arr_ok nd u true dig -> 0 <= u <= NBASE - 1 ->
  exists dig', carry_digits dig = Done dig' /\ digits_ok dig' /\ zlen dig' = nd /\ num dig' = num dig /\ exists d r, dig' = d :: r.
Proof.
  intros Ha Hc. pose proof Ha as [Hl Hu Hh]. destruct (carry_digits_spec _ u dig Hu ltac:(lia)) as (dig' & -> & Hok & Hl' & Hn).
  - unfold INT_MAX, NBASE in *. lia.
  - replace ((NBASE - 1) * (1 + u) + u) with (NBASE - 1 + u * NBASE) by ring. rewrite Z.div_add by done. rewrite Z.div_small by (unfold NBASE; lia). lia.
  - by eapply arr_small.
  - exists dig'. split_and!; [done|done|lia|done|]. destruct (head_cons dig 0 (Hh eq_refl)) as [r0 E]. destruct dig' as [|d r]; [|by exists d, r].
    rewrite E, zlen_cons in Hl'. pose proof (zlen_nonneg r0). change (zlen (@nil Z)) with 0 in Hl'. lia.
Qed.

Record same_num (a a' : NumericSumAccum) : Prop := {
  sn_nd : acc_ndigits a' = acc_ndigits a;
  sn_weight : acc_weight a' = acc_weight a;
  sn_dscale : acc_dscale a' = acc_dscale a;
  sn_pos : num (pos_digits a') = num (pos_digits a);
  sn_neg : num (neg_digits a') = num (neg_digits a) }.

Lemma accum_carry_spec a : acc_ok a -> exists a', accum_sum_carry a = Done a' /\ acc_ok a' /\ num_uncarried a' = 0 /\ same_num a a'.
Proof.
  intros Ha. pose proof Ha as [Hp Hn Hc Hs]. unfold accum_sum_carry. destruct (Z.eqb_spec (num_uncarried a) 0) as [E|E]; [by exists a|].
  specialize (Hs ltac:(lia)). rewrite Hs in *. destruct (arr_carry _ _ _ Hp Hc) as (p & Ep & Hpo & Hpl & Hpn & dp & rp & Erp). destruct (arr_carry _ _ _ Hn Hc) as (n & En & Hno & Hnl & Hnn & dn & rn & Ern).
  destruct (head_cons _ _ (ar_head _ _ _ _ Hp eq_refl)) as [rp0 Ep0]. destruct (head_cons _ _ (ar_head _ _ _ _ Hn eq_refl)) as [rn0 En0].
  rewrite Ep, En, Ep0, En0. cbn. rewrite Erp, Ern. cbn. eexists. split; [done|].
  assert (digit_ok dp) by (rewrite Erp in Hpo; by inversion Hpo). assert (digit_ok dn) by (rewrite Ern in Hno; by inversion Hno).
  rewrite <- Erp, <- Ern. split; [|split; [done|by split]]. split; cbn; [| |unfold NBASE; lia|lia].
  - split; [done|by apply digits_upto in Hpo|]. intros [Hz%negb_true_iff%Z.ltb_ge _]%andb_true_iff. rewrite Erp. change (Some dp = Some 0). f_equal. unfold digit_ok in *. lia.
  - split; [done|by apply digits_upto in Hno|]. intros [_ Hz%negb_true_iff%Z.ltb_ge]%andb_true_iff. rewrite Ern. change (Some dn = Some 0). f_equal. unfold digit_ok in *. lia.
Qed.

(** ** The enlargement *)

Lemma enlarge_spec nd u space dig n wd : arr_ok nd u space dig -> 0 <= u -> 0 <= wd -> wd + nd <= n -> 0 < wd \/ space = true ->
  exists dig', enlarge n wd dig = Done dig' /\ arr_ok n u true dig' /\ num dig' = num dig * pow_base (n - wd - nd).
Proof.
  intros [Hl Hu Hh] Hu0 Hwd Hn Hsp. unfold enlarge. rewrite Hl, !(proj2 (Z.leb_le _ _)) by lia. cbn. eexists. split; [done|].
  assert (Hz : forall x, 0 <= x -> zlen (replicate (Z.to_nat x) 0) = x) by (intros x Hx; unfold zlen; rewrite length_replicate; lia).
  split; [split|].
  - rewrite !zlen_app, !Hz by lia. lia.
  - assert (0 <= (NBASE - 1) * (1 + u)) by (unfold NBASE; lia). apply upto_app; [by apply upto_zeros|]. apply upto_app; [done|by apply upto_zeros].
  - intros _. destruct (decide (wd = 0)) as [->|Hne].
    + destruct Hsp as [?|Hsp]; [lia|]. destruct (head_cons dig 0 (Hh Hsp)) as [r ->]. done.
    + destruct (Z.to_nat wd) eqn:E; [lia|]. done.
  - rewrite !num_app, !num_zeros, Hz by lia. lia.
Qed.

Record rescaled (a : NumericSumAccum) (v : NumericVar) (a' : NumericSumAccum) : Prop := {
  rs_ok : acc_ok a';
  rs_space : have_carry_space a' = true;
  rs_weight : weight v < acc_weight a';
  rs_expo : acc_expo a' = Z.min (acc_expo a) (expo v);
  rs_count : num_uncarried a' = num_uncarried a;
  rs_dscale : acc_dscale a' = Z.max (acc_dscale a) (dscale v);
  rs_pos : num (pos_digits a') = num (pos_digits a) * pow_base (acc_expo a - acc_expo a');
  rs_neg : num (neg_digits a') = num (neg_digits a) * pow_base (acc_expo a - acc_expo a') }.

Lemma accum_rescale_spec a v : acc_ok a -> exists a', accum_sum_rescale a v = Done a' /\ rescaled a v a'.
Proof.
  intros [Hp Hn Hc Hs]. unfold accum_sum_rescale.
  assert (Hw : exists w n, (if acc_weight a <=? weight v then (weight v + 1, acc_ndigits a + (weight v + 1 - acc_weight a))
      else if negb (have_carry_space a) then (acc_weight a + 1, acc_ndigits a + 1) else (acc_weight a, acc_ndigits a)) = (w, n)
    /\ acc_weight a <= w /\ weight v < w /\ n = acc_ndigits a + (w - acc_weight a) /\ (acc_weight a < w \/ have_carry_space a = true)).
  { destruct (Z.leb_spec (acc_weight a) (weight v)); [eexists _, _; split; [done|]; lia|]. destruct (have_carry_space a); cbn; eexists _, _; (split; [done|]); split_and!; auto; lia. }
  destruct Hw as (w & n0 & -> & Hw1 & Hw2 & Hn0 & Hsp). set (n := if n0 - w - 1 <? ndigits v - weight v - 1 then _ else _).
  assert (Hnn : w + 1 - n = Z.min (acc_expo a) (expo v) /\ w - acc_weight a + acc_ndigits a <= n) by (unfold n, acc_expo, expo; destruct (Z.ltb_spec (n0 - w - 1) (ndigits v - weight v - 1)); lia).
  destruct Hnn as [En Hle]. destruct (negb (n =? acc_ndigits a) || negb (w =? acc_weight a)) eqn:Hch.
  - destruct (enlarge_spec _ _ _ _ n (w - acc_weight a) Hp ltac:(lia) ltac:(lia) Hle) as (p & -> & Hp' & Hpn); [destruct Hsp; [left; lia|by right]|].
    destruct (enlarge_spec _ _ _ _ n (w - acc_weight a) Hn ltac:(lia) ltac:(lia) Hle) as (q & -> & Hq' & Hqn); [destruct Hsp; [left; lia|by right]|]. runs.
    eexists. split; [done|]. assert (He : n - (w - acc_weight a) - acc_ndigits a = acc_expo a - (w + 1 - n)) by (unfold acc_expo; lia). rewrite He in *.
    split; cbn; [by split|done|done|done|done|done|done|done].
  - apply orb_false_iff in Hch as [Hc1%negb_false_iff%Z.eqb_eq Hc2%negb_false_iff%Z.eqb_eq]. destruct Hsp as [Hsp|Hsp]; [lia|]. eexists. split; [done|].
    rewrite Hc1, Hc2 in *. split; cbn; [by split|done|done|exact En|done|done|change (num (pos_digits a) = num (pos_digits a) * pow_base (acc_expo a - acc_expo a))|
      change (num (neg_digits a) = num (neg_digits a) * pow_base (acc_expo a - acc_expo a))]; rewrite Z.sub_diag, pow_base_0; lia.
Qed.

(** ** One value *)

(** The sums so far, in units of 10^-K. *)
Definition pos_part (a : NumericSumAccum) (K : Z) : Z := num (pos_digits a) * 10 ^ (4 * acc_expo a + K).
Definition neg_part (a : NumericSumAccum) (K : Z) : Z := num (neg_digits a) * 10 ^ (4 * acc_expo a + K).
Definition acc_fits (a : NumericSumAccum) (K : Z) : Prop := 0 <= K /\ 0 <= 4 * acc_expo a + K.

Lemma shift_units x e e' K : 0 <= 4 * e' + K -> e' <= e -> x * pow_base (e - e') * 10 ^ (4 * e' + K) = x * 10 ^ (4 * e + K).
Proof. intros H1 H2. rewrite pow_base_dec by lia. rewrite <- Z.mul_assoc, <- Z.pow_add_r by lia. f_equal. f_equal. lia. Qed.

Lemma same_parts a a' K : same_num a a' -> pos_part a' K = pos_part a K /\ neg_part a' K = neg_part a K /\ acc_expo a' = acc_expo a.
Proof. intros [H1 H2 H3 H4 H5]. unfold pos_part, neg_part, acc_expo. by rewrite H1, H2, H4, H5. Qed.

Lemma arr_add nd u dig v w : arr_ok nd u true dig -> digits_ok (digits v) -> 0 <= u < NBASE - 1 -> weight v < w -> w + 1 - nd <= expo v ->
  exists dig', add_digits (digits v) (w - weight v) dig = Done dig' /\ arr_ok nd (u + 1) true dig' /\ num dig' = num dig + num (digits v) * pow_base (expo v - (w + 1 - nd)).
Proof.
  intros [Hl Hu Hh] Hok Hc Hw He. unfold expo, ndigits in He. pose proof (zlen_nonneg (digits v)). rewrite add_digits_row by done.
  destruct (add_row_spec 1 (digits v) (w - weight v) dig _ Hok ltac:(done) ltac:(lia) ltac:(lia) Hu) as (dig' & -> & [P1 P2 P3 P4]); [unfold NBASE in *; lia|unfold INT_MAX, NBASE in *; lia|].
  exists dig'. split; [done|]. split; [split|].
  - lia.
  - eapply upto_le; [|exact P3]. lia.
  - intros _. rewrite P4 by lia. by apply Hh.
  - rewrite P2. unfold expo, ndigits. replace (zlen dig - (w - weight v) - zlen (digits v)) with (weight v + 1 - zlen (digits v) - (w + 1 - nd)) by lia. lia.
Qed.

Record added (a : NumericSumAccum) (v : NumericVar) (a' : NumericSumAccum) : Prop := {
  ad_ok : acc_ok a';
  ad_nd : 0 < acc_ndigits a';
  ad_expo : acc_expo a' = Z.min (acc_expo a) (expo v);
  ad_dscale : acc_dscale a' = Z.max (acc_dscale a) (dscale v);
  ad_pos : forall K, acc_fits a K -> fits v K -> pos_part a' K = pos_part a K + (if sign v =? NUMERIC_POS then dec v K else 0);
  ad_neg : forall K, acc_fits a K -> fits v K -> neg_part a' K = neg_part a K + (if sign v =? NUMERIC_POS then 0 else dec v K) }.

Lemma arr_uncarried nd u dig : 0 <= u -> arr_ok nd u true dig -> arr_ok nd (u + 1) true dig.
Proof. intros Hu [H1 H2 H3]. split; [done| |done]. eapply upto_le; [|exact H2]. unfold NBASE. lia. Qed.

Lemma accum_add_spec a v : acc_ok a -> var_ok v -> exists a', accum_sum_add a v = Done a' /\ added a v a'.
Proof.
  intros Ha [Hok _]. unfold accum_sum_add.
  assert (Hfirst : exists a1, (if num_uncarried a =? NBASE - 1 then accum_sum_carry a else mret a) = Done a1 /\ acc_ok a1 /\ 0 <= num_uncarried a1 < NBASE - 1 /\ same_num a a1).
  { destruct (Z.eqb_spec (num_uncarried a) (NBASE - 1)) as [E|E].
    - destruct (accum_carry_spec a Ha) as (a1 & E1 & H1 & H2 & H3). exists a1. split_and!; [done|done|rewrite H2; unfold NBASE; lia|rewrite H2; unfold NBASE; lia|done].
    - exists a. pose proof (ao_count _ Ha). split_and!; [done|done|lia|lia|done]. }
  destruct Hfirst as (a1 & -> & Ha1 & Hc & Hsame). runs. destruct (accum_rescale_spec a1 v Ha1) as (a2 & -> & [Ho Hsp Hw He Hu Hd Hp Hn]). runs.
  assert (Hnd : 0 < acc_ndigits a2).
  { destruct (ao_pos _ Ho) as [<- _ Hh]. destruct (head_cons _ _ (Hh Hsp)) as [r ->]. rewrite zlen_cons. pose proof (zlen_nonneg r). lia. }
  pose proof (same_parts a a1 0 Hsame) as (_ & _ & Ee). pose proof Ho as [Op On Oc _]. rewrite Hsp, Hu in *. assert (Hex : acc_weight a2 + 1 - acc_ndigits a2 <= expo v) by (unfold acc_expo in He; lia).
  assert (Hpp : forall K, acc_fits a K -> fits v K -> num (pos_digits a2) * 10 ^ (4 * acc_expo a2 + K) = pos_part a K /\ num (neg_digits a2) * 10 ^ (4 * acc_expo a2 + K) = neg_part a K).
  { intros K [K1 K2] [K3 K4]. destruct (same_parts a a1 K Hsame) as (<- & <- & _). unfold pos_part, neg_part. rewrite Hp, Hn. split; apply shift_units; lia. }
  assert (Hadd : forall K, acc_fits a K -> fits v K -> num (digits v) * pow_base (expo v - (acc_weight a2 + 1 - acc_ndigits a2)) * 10 ^ (4 * acc_expo a2 + K) = dec v K).
  { intros K [K1 K2] [K3 K4]. fold (acc_expo a2). rewrite shift_units by lia. done. }
  destruct (Z.eqb_spec (sign v) NUMERIC_POS) as [Es|Es].
  - destruct (arr_add _ _ _ v _ Op Hok Hc Hw Hex) as (p & -> & Hp' & Hpn). runs. eexists. split; [done|]. rewrite Ee in He.
    split; cbn; [|done|done|by rewrite Hd, (sn_dscale _ _ Hsame)| |]; try rewrite Es; cbn.
    + split; cbn; [done|apply arr_uncarried; [lia|done]|lia|done].
    + intros K K1 K2. destruct (Hpp K K1 K2) as [<- _]. unfold pos_part. cbn. change (acc_expo (MkAccum _ _ _ _ _ _ _)) with (acc_expo a2). rewrite Hpn, Z.mul_add_distr_r. rewrite (Hadd K) by done. done.
    + intros K K1 K2. destruct (Hpp K K1 K2) as [_ <-]. unfold neg_part. cbn. change (acc_expo (MkAccum _ _ _ _ _ _ _)) with (acc_expo a2). lia.
  - destruct (arr_add _ _ _ v _ On Hok Hc Hw Hex) as (p & -> & Hp' & Hpn). runs. eexists. split; [done|]. rewrite Ee in He.
    split; cbn; [|done|done|by rewrite Hd, (sn_dscale _ _ Hsame)| |]; try rewrite (proj2 (Z.eqb_neq _ _) Es); cbn.
    + split; cbn; [apply arr_uncarried; [lia|done]|done|lia|done].
    + intros K K1 K2. destruct (Hpp K K1 K2) as [<- _]. unfold pos_part. cbn. change (acc_expo (MkAccum _ _ _ _ _ _ _)) with (acc_expo a2). lia.
    + intros K K1 K2. destruct (Hpp K K1 K2) as [_ <-]. unfold neg_part. cbn. change (acc_expo (MkAccum _ _ _ _ _ _ _)) with (acc_expo a2). rewrite Hpn, Z.mul_add_distr_r. rewrite (Hadd K) by done. done.
Qed.

(** ** All values and the final sum *)

(** The transition function of the aggregate, row by row. *)
Fixpoint accum_all (a : NumericSumAccum) (vs : list NumericVar) : run NumericSumAccum :=
  match vs with
  | [] => mret a
  | v :: vs => a ← accum_sum_add a v; accum_all a vs
  end.

Definition sum_of (vs : list NumericVar) (K : Z) : Z := foldr (fun v s => sgn v * dec v K + s) 0 vs.
Definition max_dscale (vs : list NumericVar) : Z := foldr (fun v s => Z.max (dscale v) s) 0 vs.
Definition all_fit (vs : list NumericVar) (K : Z) : Prop := 0 <= K /\ Forall (fun v => fits v K) vs.

Lemma signed_split v x : var_ok v -> sgn v * x = (if sign v =? NUMERIC_POS then x else 0) - (if sign v =? NUMERIC_POS then 0 else x).
Proof. intros [_ [E|E]]; unfold sgn; rewrite E; cbn; lia. Qed.

Lemma accum_all_spec vs a : acc_ok a -> Forall var_ok vs -> (acc_ndigits a = 0 -> acc_dscale a = 0) -> 0 <= acc_dscale a -> exists a', accum_all a vs = Done a' /\ acc_ok a'
  /\ (acc_ndigits a' = 0 -> acc_dscale a' = 0) /\ acc_dscale a' = Z.max (acc_dscale a) (max_dscale vs)
  /\ forall K, acc_fits a K -> all_fit vs K -> acc_fits a' K /\ pos_part a' K - neg_part a' K = pos_part a K - neg_part a K + sum_of vs K.
Proof.
  intros Ha Hvs. revert a Ha. induction Hvs as [|v vs Hv Hvs IH]; intros a Ha Hz Hd0; cbn [accum_all].
  { exists a. split_and!; [done|done|done|cbn; lia|]. intros K HK _. split; [done|cbn; lia]. }
  destruct (accum_add_spec a v Ha Hv) as (a1 & -> & [A1 A2 A3 A4 A5 A6]). runs. destruct (IH a1 A1 ltac:(lia) ltac:(lia)) as (a' & -> & B1 & B2 & B3 & B4).
  exists a'. split_and!; [done|done|done|unfold max_dscale in *; cbn; lia|]. intros K HK [HK0 Hall]. apply Forall_cons in Hall as [Hf Hall].
  assert (HK1 : acc_fits a1 K) by (destruct HK, Hf; split; lia). destruct (B4 K HK1 (conj HK0 Hall)) as [C1 C2]. split; [done|]. rewrite C2, A5, A6 by done.
  cbn [sum_of foldr]. fold (sum_of vs K). rewrite (signed_split v) by done. lia.
Qed.

Lemma s16_digits ds : digits_ok ds -> s16 <$> ds = ds.
Proof.
  intros Hok. induction Hok as [|d ds Hd Hds IH]; [done|]. cbn. rewrite IH. f_equal. apply sN_small; [done|]. unfold in_s, digit_ok, NBASE in *. lia.
Qed.

Lemma accum_final_spec a : acc_ok a -> exists r, accum_sum_final a = Done r /\ normal r /\ dscale r = (if acc_ndigits a =? 0 then 0 else acc_dscale a)
  /\ has_value r (acc_fits a) (fun K => pos_part a K - neg_part a K).
Proof.
  intros Ha. unfold accum_sum_final. destruct (Z.eqb_spec (acc_ndigits a) 0) as [E|E].
  - eexists. split; [done|]. split; [split; cbn; [done|by intros []|done]|]. split; [done|]. pose proof Ha as [[Hp _ _] [Hn _ _] _ _]. rewrite E in *.
    assert (Hnil : forall l : list Z, zlen l = 0 -> l = []) by (intros [|x l]; [done|]; rewrite zlen_cons; pose proof (zlen_nonneg l); lia).
    split; [split; [constructor|by left]|split; cbn; [done|by intros []|done]| |].
    + intros K [K1 _]. split; [done|]. unfold expo, ndigits. cbn. change (zlen (@nil Z)) with 0. lia.
    + intros K _. unfold pos_part, neg_part. by rewrite (Hnil _ Hp), (Hnil _ Hn).
  - destruct (accum_carry_spec a Ha) as (a1 & -> & [[Hpl Hpu _] [Hnl Hnu _] _ _] & Hu & Hsame). runs. rewrite Hu in *. change ((NBASE - 1) * (1 + 0)) with (NBASE - 1) in *.
    apply digits_upto in Hpu, Hnu. rewrite !s16_digits by done. set (p := MkVar (pos_digits a1) _ _ _ _). set (n := MkVar (neg_digits a1) _ _ _ _).
    assert (Hp : var_ok p) by (split; [done|by left]). assert (Hn : var_ok n) by (split; [done|by right]). destruct (add_spec p n Hp Hn) as (r & -> & Hd & [V1 _ V2 V3] & _). runs.
    eexists. split; [done|]. destruct (strip_spec r V1) as [S1 S2 _ _ S5 _ _].
    assert (Hexp : expo p = acc_expo a /\ expo n = acc_expo a) by (unfold expo, ndigits, acc_expo; cbn; rewrite Hpl, Hnl, (sn_nd _ _ Hsame), (sn_weight _ _ Hsame); done). destruct Hexp as [Ep En].
    assert (Hboth : forall K, acc_fits a K -> both_fit p n K) by (intros K [K1 K2]; split; split; lia).
    split; [done|]. split; [rewrite strip_dscale, Hd; cbn; rewrite (sn_dscale _ _ Hsame); lia|]. split; [done|by apply normal_trimmed|intros K HK; by apply S5, V2, Hboth|].
    intros K HK. rewrite strip_signed by (try done; by apply V2, Hboth). rewrite V3 by (by apply Hboth). rewrite (sgn_pos p), (sgn_neg n) by done. unfold dec. rewrite Ep, En. unfold pos_part, neg_part.
    cbn. rewrite (sn_pos _ _ Hsame), (sn_neg _ _ Hsame). lia.
Qed.

Lemma accum_sum_spec vs : Forall var_ok vs -> exists a r, accum_all empty_accum vs = Done a /\ accum_sum_final a = Done r /\ normal r /\ dscale r = max_dscale vs
  /\ has_value r (all_fit vs) (sum_of vs).
Proof.
  intros Hvs. destruct (accum_all_spec vs empty_accum empty_accum_ok Hvs ltac:(done) ltac:(done)) as (a & Ea & Ha & Hz & Hd & Hc).
  destruct (accum_final_spec a Ha) as (r & Er & Hn & Hdr & [V1 V0 V2 V3]). exists a, r. split_and!; [done|done|done| |].
  - assert (0 <= max_dscale vs) by (clear; unfold max_dscale; induction vs; cbn; lia). rewrite Hdr. destruct (Z.eqb_spec (acc_ndigits a) 0) as [E|E]; [specialize (Hz E)|]; change (acc_dscale empty_accum) with 0 in Hd; lia.
  - assert (Hf : forall K, all_fit vs K -> acc_fits empty_accum K) by (intros K [HK _]; split; [done|]; unfold acc_expo; cbn; lia).
    split; [done|done|intros K HK; apply V2, Hc; auto|]. intros K HK. destruct (Hc K (Hf K HK) HK) as [C1 C2]. rewrite V3 by done. rewrite C2. unfold pos_part, neg_part. cbn. lia.
Qed.
