(* ===== verification/NumericMul.v ===== *)
(** Multiplication of numeric variables (Numeric.v): no element of the array of
    [mul_var] overflows, and with room for all its digits the product is exact
    before the rounding to the scale asked for. *)
From S2P Require Import Prelude Numeric NumericVal NumericArr.
From stdpp Require Import list.
#[local] Open Scope Z_scope.

(** ** The rows *)

(** The bound of the elements leaves room for a carry. *)
Lemma normalize_max maxdig dig : upto (maxdig * (NBASE - 1)) dig -> 0 <= maxdig <= max_maxdig -> num dig < pow_base (zlen dig) ->
  exists dig', normalize dig = Done dig' /\ digits_ok dig' /\ zlen dig' = zlen dig /\ num dig' = num dig.
Proof.
  intros Hu Hm Hs. assert (Hle : maxdig * (NBASE - 1) <= 214748 * 9999) by (change max_maxdig with 214748 in Hm; unfold NBASE in *; lia).
  apply (normalize_spec (214748 * 9999) 214748); [by eapply upto_le|done|done|done|done].
Qed.

Lemma mul_rows_spec n ds1 ds2 res maxdig dig : digits_ok ds1 -> digits_ok ds2 -> (n <= length ds1)%nat -> res = zlen ds1 + zlen ds2 + 1 -> zlen dig = res ->
  0 <= maxdig <= max_maxdig -> upto (maxdig * (NBASE - 1)) dig ->
  num dig + num (take n ds1) * num ds2 * pow_base (zlen ds1 - Z.of_nat n) < pow_base res ->
  exists dig' maxdig', mul_rows n ds1 ds2 res maxdig dig = Done dig' /\ zlen dig' = res /\ 0 <= maxdig' <= max_maxdig /\ upto (maxdig' * (NBASE - 1)) dig'
    /\ num dig' = num dig + num (take n ds1) * num ds2 * pow_base (zlen ds1 - Z.of_nat n).
Proof.
  intros Hok1 Hok2 Hn Hres. revert maxdig dig Hn. induction n as [|i1 IH]; intros maxdig dig Hn Hl Hm Hu Hs; cbn [mul_rows].
  { exists dig, maxdig. split_and!; [done|done|lia|lia|done|]. rewrite take_0. cbn [num]. lia. }
  destruct (lookup_lt_is_Some_2 ds1 i1 ltac:(lia)) as [d Hd]. rewrite Hd. runs. pose proof (Forall_lookup_1 _ _ _ _ Hok1 Hd) as Hdok. cbn beta in Hdok. unfold digit_ok in Hdok.
  rewrite (take_S_r _ _ _ Hd), num_snoc in *. assert (Hi : zlen ds1 - Z.of_nat i1 = 1 + (zlen ds1 - Z.of_nat (S i1))) by lia. assert (Hle : 0 <= zlen ds1 - Z.of_nat (S i1)) by (unfold zlen; lia).
  set (P := pow_base (zlen ds1 - Z.of_nat (S i1))) in *. assert (HP : pow_base (zlen ds1 - Z.of_nat i1) = NBASE * P) by (rewrite Hi; by apply pow_base_succ).
  pose proof (pow_base_pos _ Hle) as HPpos. fold P in HPpos. pose proof (num_bound ds2 Hok2) as [Hn2 _]. pose proof (num_bound (take i1 ds1) ltac:(by apply Forall_take)) as [Hn1 _].
  assert (Hpos : 0 <= (num (take i1 ds1) * NBASE + d) * num ds2 * P) by (unfold NBASE; repeat apply Z.mul_nonneg_nonneg; lia).
  destruct (Z.eqb_spec d 0) as [->|Hd0].
  { rewrite Z.add_0_r in *. destruct (IH maxdig dig ltac:(lia) Hl Hm Hu) as (dig' & m' & E & H1 & H2 & H3 & H4); [rewrite HP; nia|]. exists dig', m'. split_and!; [done..|lia|lia|done|]. rewrite H4, HP. ring. }
  assert (Hnorm : exists m' dig1, (if max_maxdig <? maxdig + d then dig ← normalize dig; mret (1 + d, dig) else mret (maxdig + d, dig)) = Done (m', dig1)
    /\ zlen dig1 = res /\ num dig1 = num dig /\ 0 <= m' - d /\ m' <= max_maxdig /\ upto ((m' - d) * (NBASE - 1)) dig1).
  { destruct (Z.ltb_spec max_maxdig (maxdig + d)) as [Hlt|Hlt].
    - destruct (normalize_max maxdig dig Hu Hm) as (dig1 & -> & O1 & O2 & O3); [rewrite Hl; lia|]. runs. exists (1 + d), dig1. split_and!; [done|lia|done|lia|unfold NBASE in Hdok; change max_maxdig with 214748; lia|].
      apply digits_upto in O1. eapply upto_le; [|exact O1]. lia.
    - exists (maxdig + d), dig. split_and!; [done|done|done|lia|lia|]. by replace (maxdig + d - d) with maxdig by lia. }
  destruct Hnorm as (m' & dig1 & -> & Hl1 & Hn1' & Hm0 & Hm1 & Hu1). runs.
  replace (Z.min (zlen ds2) (res - Z.of_nat i1 - 2)) with (zlen ds2) by lia. rewrite take_ge by (unfold zlen; lia).
  destruct (add_row_spec d ds2 (Z.of_nat i1 + 2) dig1 ((m' - d) * (NBASE - 1)) Hok2 ltac:(lia) ltac:(lia) ltac:(lia) Hu1) as (dig2 & -> & [R1 R2 R3 R4]);
    [unfold NBASE in *; nia|change max_maxdig with 214748 in Hm1; unfold INT_MAX, NBASE in *; lia|]. runs.
  replace (zlen dig1 - (Z.of_nat i1 + 2) - zlen ds2) with (zlen ds1 - Z.of_nat (S i1)) in R2 by lia. fold P in R2.
  destruct (IH m' dig2 ltac:(lia) ltac:(lia) ltac:(lia)) as (dig' & m2 & E & H1 & H2 & H3 & H4); [eapply upto_le; [|exact R3]; lia|rewrite R2, Hn1', HP; nia|].
  exists dig', m2. split_and!; [done|done|lia|lia|done|]. rewrite H4, R2, Hn1', HP. ring.
Qed.

(** ** The product *)

Definition mul_digits (v1 v2 : NumericVar) (rscale : Z) : Z :=
  weight v1 + weight v2 + 3 + (rscale + DEC_DIGITS - 1) ÷ DEC_DIGITS + MUL_GUARD_DIGITS.

(** Sign and absolute value. *)
Lemma signed_eq r s x K : (digits r <> [] -> sgn r = s) -> dec r K = x -> sgn r * dec r K = s * x.
Proof.
  intros Hs Hx. destruct (digits r) as [|d l] eqn:E; [|by rewrite Hs, Hx]. assert (dec r K = 0) as Hz by (unfold dec; by rewrite E). lia.
Qed.

(** [r] is the product rounded to [rscale]. *)
Record product (v1 v2 : NumericVar) (rscale : Z) (r : NumericVar) : Prop := {
  pr_ok : var_ok r;
  pr_normal : normal r;
  pr_dscale : dscale r = rscale;
  pr_fits : forall K1 K2, fits v1 K1 -> fits v2 K2 -> fits r (K1 + K2);
  pr_dec : forall K1 K2, fits v1 K1 -> fits v2 K2 -> rscale <= K1 + K2 ->
    sgn r * dec r (K1 + K2) = sgn v1 * sgn v2 * (nearest (dec v1 K1 * dec v2 K2) (10 ^ (K1 + K2 - rscale)) * 10 ^ (K1 + K2 - rscale)) }.

Lemma product_sym v1 v2 rscale r : product v1 v2 rscale r -> product v2 v1 rscale r.
Proof.
  intros [H1 H2 H3 H4 H5]. split; [done|done|done| |].
  - intros K1 K2 F1 F2. rewrite Z.add_comm. by apply H4.
  - intros K1 K2 F1 F2 HK. rewrite Z.add_comm in *. rewrite H5 by done. rewrite (Z.mul_comm (dec v1 K2)). ring.
Qed.

Lemma zero_normal scale : normal (zero_var scale).
Proof. split; cbn; [done|by intros []|done]. Qed.

Lemma zero_product v1 v2 rscale : digits v1 = [] \/ digits v2 = [] -> product v1 v2 rscale (zero_var rscale).
Proof.
  intros Hd. split; [by split; [constructor|left]|apply zero_normal|done| |].
  - intros K1 K2 [? _] [? _]. split; [lia|]. unfold expo, ndigits. cbn. change (zlen (@nil Z)) with 0. lia.
  - intros K1 K2 _ _ HK. assert (dec v1 K1 * dec v2 K2 = 0) as -> by (unfold dec; destruct Hd as [-> | ->]; cbn; lia).
    rewrite nearest_small by (pose proof (pow10_pos (K1 + K2 - rscale) ltac:(lia)); lia). unfold dec. cbn [digits zero_var num]. by rewrite !Z.mul_0_l, !Z.mul_0_r.
Qed.

Definition product_sign (v1 v2 : NumericVar) : Z := if sign v1 =? sign v2 then NUMERIC_POS else NUMERIC_NEG.

Lemma sgn_mul v1 v2 v : var_ok v1 -> var_ok v2 -> sign v = product_sign v1 v2 -> sgn v = sgn v1 * sgn v2.
Proof. intros [_ [E1|E1]] [_ [E2|E2]] Es; unfold sgn; rewrite Es; unfold product_sign; rewrite E1, E2; done. Qed.

Lemma product_sign_ok v1 v2 : product_sign v1 v2 = NUMERIC_POS \/ product_sign v1 v2 = NUMERIC_NEG.
Proof. unfold product_sign. case_match; auto. Qed.

(** Rounded and stripped. *)
Lemma strip_at_scale f v rscale r : var_ok v -> at_scale f v rscale r -> var_ok (strip_var r) /\ normal (strip_var r) /\ dscale (strip_var r) = rscale
  /\ (forall K, fits v K -> fits (strip_var r) K)
  /\ forall K, fits v K -> rscale <= K -> sgn (strip_var r) * dec (strip_var r) K = sgn v * (f (dec v K) (10 ^ (K - rscale)) * 10 ^ (K - rscale)).
Proof.
  intros Hv [R1 R2 R3 R4 R5]. pose proof (strip_spec r R1) as [S1 S2 S3 _ S5 S6 S7]. split_and!; [done|done|by rewrite S3|intros K HK; by apply S5, R3|].
  intros K HK Hr. rewrite strip_signed by (try done; by apply R3). apply signed_eq; [|by rewrite R4]. intros Hne. unfold sgn. by rewrite R5.
Qed.

Lemma mul_core v1 v2 rscale : var_ok v1 -> var_ok v2 -> 0 < ndigits v1 -> 0 < ndigits v2 -> ndigits v1 + ndigits v2 + 1 <= mul_digits v1 v2 rscale ->
  exists r, (dig ← mul_rows (Z.to_nat (Z.min (ndigits v1 - 1) (ndigits v1 + ndigits v2 + 1 - 3) + 1)) (digits v1) (digits v2) (ndigits v1 + ndigits v2 + 1) 0
                (replicate (Z.to_nat (ndigits v1 + ndigits v2 + 1)) 0);
             res_digits ← normalize dig;
             result ← round_var (MkVar res_digits (weight v1 + weight v2 + 2) (product_sign v1 v2) 0 [0]) rscale;
             mret (strip_var result)) = Done r /\ product v1 v2 rscale r.
Proof.
  intros Hv1 Hv2 H1 H2 Hm. pose proof Hv1 as [Hok1 _]. pose proof Hv2 as [Hok2 _]. set (res := ndigits v1 + ndigits v2 + 1).
  replace (Z.to_nat (Z.min (ndigits v1 - 1) (res - 3) + 1)) with (length (digits v1)) by (unfold res, ndigits, zlen in *; lia).
  assert (Hz : zlen (replicate (Z.to_nat res) 0) = res) by (unfold zlen; rewrite length_replicate; lia).
  pose proof (num_bound _ Hok1) as B1. pose proof (num_bound _ Hok2) as B2.
  assert (Hb : num (digits v1) * num (digits v2) < pow_base res).
  { unfold res, ndigits. replace (zlen (digits v1) + zlen (digits v2) + 1) with (1 + (zlen (digits v1) + zlen (digits v2))) by lia.
    rewrite pow_base_succ, pow_base_add by (pose proof (zlen_nonneg (digits v1)); pose proof (zlen_nonneg (digits v2)); lia). unfold NBASE. nia. }
  destruct (mul_rows_spec (length (digits v1)) (digits v1) (digits v2) res 0 (replicate (Z.to_nat res) 0) Hok1 Hok2 ltac:(lia) eq_refl Hz ltac:(done) ltac:(by apply upto_zeros))
    as (dig & m & -> & Hl & Hmm & Hu & Hn); [rewrite num_zeros, firstn_all, Z.sub_diag, pow_base_0; lia|].
  rewrite num_zeros, firstn_all, Z.sub_diag, pow_base_0 in Hn. runs. destruct (normalize_max m dig Hu Hmm ltac:(rewrite Hl; lia)) as (ds & -> & Hdsok & Hdsl & Hdsn). runs.
  set (p := MkVar ds _ _ _ _). assert (Hp : var_ok p) by (split; [done|apply product_sign_ok]).
  destruct (round_spec p rscale Hp ltac:(by exists [])) as (r & -> & Hr). runs. exists (strip_var r). split; [done|].
  destruct (strip_at_scale nearest p rscale r Hp Hr) as (S1 & S2 & S3 & S4 & S5).
  assert (He : expo p = expo v1 + expo v2) by (unfold expo at 1, ndigits at 1, p; cbn; rewrite Hdsl, Hl; unfold res, expo; lia).
  assert (Hf : forall K1 K2, fits v1 K1 -> fits v2 K2 -> fits p (K1 + K2)) by (intros K1 K2 [? ?] [? ?]; split; lia).
  split; [done|done|done|intros K1 K2 F1 F2; by apply S4, Hf|]. intros K1 K2 F1 F2 HK. rewrite S5 by (try done; by apply Hf). rewrite (sgn_mul v1 v2 p Hv1 Hv2) by done.
  assert (dec p (K1 + K2) = dec v1 K1 * dec v2 K2) as ->; [|done]. unfold dec. rewrite He. change (digits p) with ds. rewrite Hdsn, Hn. destruct F1 as [? ?], F2 as [? ?].
  replace (4 * (expo v1 + expo v2) + (K1 + K2)) with ((4 * expo v1 + K1) + (4 * expo v2 + K2)) by lia. rewrite Z.pow_add_r by done. ring.
Qed.

Lemma product_sign_sym v1 v2 : product_sign v1 v2 = product_sign v2 v1.
Proof. unfold product_sign. by rewrite Z.eqb_sym. Qed.

Lemma mul_ordered v1 v2 rscale : var_ok v1 -> var_ok v2 -> ndigits v1 <= ndigits v2 -> ndigits v1 + ndigits v2 + 1 <= mul_digits v1 v2 rscale ->
  exists r, mul_var v1 v2 rscale = Done r /\ product v1 v2 rscale r.
Proof.
  intros Hv1 Hv2 Hle Hm. unfold mul_var. rewrite (proj2 (Z.ltb_ge _ _)) by lia. pose proof (zlen_nonneg (digits v1)). pose proof (zlen_nonneg (digits v2)).
  assert (Hnil : forall v, ndigits v = 0 -> digits v = []) by (intros v; unfold ndigits; destruct (digits v) as [|d l]; [done|]; rewrite zlen_cons; pose proof (zlen_nonneg l); lia).
  destruct (Z.eqb_spec (ndigits v1) 0) as [E1|E1]; [eexists; split; [done|]; apply zero_product; auto|].
  destruct (Z.eqb_spec (ndigits v2) 0) as [E2|E2]; [eexists; split; [done|]; apply zero_product; auto|]. cbn [orb].
  unfold mul_digits in Hm. replace (Z.min (ndigits v1 + ndigits v2 + 1) _) with (ndigits v1 + ndigits v2 + 1) by lia. unfold ndigits in *.
  rewrite (proj2 (Z.ltb_ge _ _)) by lia. apply mul_core; [done|done|unfold ndigits; lia..|unfold mul_digits, ndigits; lia].
Qed.

Lemma mul_spec v1 v2 rscale : var_ok v1 -> var_ok v2 -> ndigits v1 + ndigits v2 + 1 <= mul_digits v1 v2 rscale ->
  exists r, mul_var v1 v2 rscale = Done r /\ product v1 v2 rscale r.
Proof.
  intros Hv1 Hv2 Hm. destruct (Z.le_gt_cases (ndigits v1) (ndigits v2)) as [Hle|Hgt]; [by apply mul_ordered|].
  destruct (mul_ordered v2 v1 rscale Hv2 Hv1 ltac:(lia)) as (r & E & Hr); [unfold mul_digits in *; lia|]. exists r. split; [|by apply product_sym].
  rewrite <- E. unfold mul_var. rewrite (proj2 (Z.ltb_lt _ _) Hgt), (proj2 (Z.ltb_ge (ndigits v1) (ndigits v2))) by lia. done.
Qed.
