(* ===== verification/NumericDiv.v ===== *)
(** Quotients of numeric variables (Numeric.v): what the digits of a quotient
    have to be for the rounding or truncation to give the quotient at a scale,
    and the division by a divisor of one or two digits. *)
From S2P Require Import Prelude Numeric NumericVal NumericMul.
From stdpp Require Import list.
#[local] Open Scope Z_scope.

(** ** Leading digits *)

(** The number of the [n] digits from the index [i]. *)
Fixpoint digit_run (ds : list Z) (i : Z) (n : nat) : Z :=
  match n with
  | O => 0
  | S n => digit_at ds i * pow_base (Z.of_nat n) + digit_run ds (i + 1) n
  end.

Lemma prefix_run ds i n : prefix_num ds (i + Z.of_nat n) = prefix_num ds i * pow_base (Z.of_nat n) + digit_run ds i n.
Proof.
  revert i. induction n as [|n IH]; intros i; cbn [digit_run]; [change (pow_base (Z.of_nat 0)) with 1; rewrite Z.add_0_r; lia|].
  replace (i + Z.of_nat (S n)) with (i + 1 + Z.of_nat n) by lia. rewrite IH, (prefix_step ds (i + 1)). replace (i + 1 - 1) with i by lia.
  replace (Z.of_nat (S n)) with (1 + Z.of_nat n) by lia. rewrite pow_base_succ by lia. ring.
Qed.

Lemma prefix_0 ds : prefix_num ds 0 = 0.
Proof. done. Qed.

Lemma prefix_floor ds n : digits_ok ds -> 0 <= n -> n <= zlen ds -> prefix_num ds n = num ds / pow_base (zlen ds - n).
Proof.
  intros Hok Hn Hle. unfold prefix_num. destruct (Z.leb_spec n 0) as [H0|H0].
  - assert (n = 0) as -> by lia. rewrite Z.sub_0_r. rewrite Z.div_small; [done|by apply num_bound].
  - rewrite (proj2 (Z.leb_le _ _)) by lia. rewrite num_take_div by done. f_equal. f_equal. unfold zlen in *. rewrite length_drop. lia.
Qed.

(** ** The quotient of two variables *)

Definition quot_expo (v1 v2 : NumericVar) (n : Z) : Z := n - 1 - weight v1 + expo v2.

(** The first [n] digits of the dividend over the digits of the divisor. *)
Lemma quotient_units v1 v2 K n : digits_ok (digits v1) -> fits v1 K -> fits v2 K -> 0 < num (digits v2) -> 0 <= n -> 0 <= quot_expo v1 v2 n ->
  prefix_num (digits v1) n / num (digits v2) = dec v1 K * 10 ^ (4 * quot_expo v1 v2 n) / dec v2 K.
Proof.
  intros Hok [HK H1] [_ H2] Hpos Hn HE. unfold quot_expo in *. set (E := n - 1 - weight v1 + expo v2) in *. unfold dec.
  destruct (Z.le_gt_cases (zlen (digits v1)) n) as [Hle|Hlt].
  - rewrite prefix_all, pow_base_dec by lia. rewrite <- Z.mul_assoc, <- Z.pow_add_r by lia.
    replace (4 * expo v1 + K + 4 * E) with (4 * (n - zlen (digits v1)) + (4 * expo v2 + K)) by (unfold E, expo, ndigits; lia). rewrite Z.pow_add_r by lia.
    rewrite Z.mul_assoc, Z.div_mul_cancel_r; [done|lia|]. pose proof (pow10_pos _ H2). lia.
  - rewrite prefix_floor by (done || lia). pose proof (pow_base_pos (zlen (digits v1) - n) ltac:(lia)). rewrite Z.div_div by lia.
    rewrite <- Z.mul_assoc, <- Z.pow_add_r by lia. set (P := 10 ^ (4 * expo v1 + K + 4 * E)). assert (0 < P) by (apply pow10_pos; lia).
    replace (num (digits v2) * 10 ^ (4 * expo v2 + K)) with (pow_base (zlen (digits v1) - n) * num (digits v2) * P).
    { rewrite Z.div_mul_cancel_r by nia. done. }
    rewrite pow_base_dec by lia. rewrite (Z.mul_comm (10 ^ _) (num _)), <- Z.mul_assoc. f_equal. unfold P. rewrite <- Z.pow_add_r by lia. f_equal. unfold E, expo, ndigits. lia.
Qed.

(** The result has the quotient of the absolute values at the scale. *)
Record quotient (f : Z -> Z -> Z) (v1 v2 : NumericVar) (rscale : Z) (r : NumericVar) : Prop := {
  qu_ok : var_ok r;
  qu_normal : normal r;
  qu_dscale : dscale r = rscale;
  qu_fits : forall K, rscale + 3 <= K -> fits r K;
  qu_dec : forall K K', fits v1 K -> fits v2 K -> rscale + 3 <= K' ->
    sgn r * dec r K' = sgn v1 * sgn v2 * (f (dec v1 K * 10 ^ rscale) (dec v2 K) * 10 ^ (K' - rscale)) }.

(** A fraction to the nearest or cut off may be cut off at finer units before. *)
Record refines (f : Z -> Z -> Z) (guard : Z) : Prop := {
  rf_guard : 0 <= guard;
  rf_units : forall x u c, 0 < u -> 0 < c -> f (x * c) (u * c) = f x u;
  rf_finer : forall A C s, 0 < C -> guard <= s -> f (A * 10 ^ s / C) (10 ^ s) = f A C }.

Lemma cut_refines : refines cut 0.
Proof.
  split; [done|intros x u c Hu Hc; unfold cut; by rewrite Z.div_mul_cancel_r by lia|]. intros A C s HC Hs. pose proof (pow10_pos s Hs). unfold cut. rewrite Z.div_div by lia. rewrite (Z.mul_comm C). rewrite (Z.mul_comm A), Z.div_mul_cancel_l by lia. done.
Qed.

Lemma nearest_refines : refines nearest 1.
Proof.
  split; [done|apply nearest_units|]. intros A C s HC Hs. unfold nearest. replace s with (1 + (s - 1)) by lia. rewrite Z.pow_add_r by lia. change (10 ^ 1) with 10. pose proof (pow10_pos (s - 1) ltac:(lia)). set (h := 10 ^ (s - 1)) in *.
  replace (2 * (A * (10 * h) / C) + 10 * h) with (2 * (A * (10 * h) / C + 5 * h)) by ring. rewrite Z.div_mul_cancel_l by lia.
  rewrite <- Z.div_add by lia. rewrite Z.div_div by lia. replace (A * (10 * h) + 5 * h * C) with ((2 * A + C) * (5 * h)) by ring.
  replace (C * (10 * h)) with (2 * C * (5 * h)) by ring. by rewrite Z.div_mul_cancel_r by lia.
Qed.

Lemma dec_shift v K K' : fits v K -> K <= K' -> dec v K' = dec v K * 10 ^ (K' - K).
Proof. intros [H1 H2] Hle. unfold dec. rewrite <- Z.mul_assoc, <- Z.pow_add_r by lia. f_equal. f_equal. lia. Qed.

Lemma fits_le v K K' : fits v K -> K <= K' -> fits v K'.
Proof. intros [H1 H2] Hle. split; lia. Qed.

(** Without zeros at the end, the digits of a multiple of a power of ten go no
    further than the power. *)
Lemma normal_expo r rscale K M : normal r -> var_ok r -> 0 <= rscale <= K -> fits r K -> dec r K = M * 10 ^ (K - rscale) -> - rscale - 3 <= 4 * expo r.
Proof.
  intros [_ Hl Hz] [Hok _] HK [_ Hf] Hd. destruct (digits r) as [|d0 l0 _] eqn:E using rev_ind.
  { destruct (Hz eq_refl) as [Hw _]. unfold expo, ndigits. rewrite E, Hw. change (zlen (@nil Z)) with 0. lia. }
  specialize (Hl l0 d0 eq_refl). destruct (Z.le_gt_cases (- rscale - 3) (4 * expo r)) as [|Hgt]; [done|exfalso].
  unfold dec in Hd. rewrite E, num_snoc in Hd. replace (K - rscale) with (4 + (- rscale - 4 * expo r - 4) + (4 * expo r + K)) in Hd by lia. rewrite (Z.pow_add_r 10 (4 + _)), (Z.pow_add_r 10 4) in Hd by lia.
  pose proof (pow10_pos _ Hf). change (10 ^ 4) with NBASE in Hd. set (u := 10 ^ (4 * expo r + K)) in *. set (c := 10 ^ (- rscale - 4 * expo r - 4)) in *.
  assert (Hm : num l0 * NBASE + d0 = M * c * NBASE) by (apply (Z.mul_reg_r _ _ u); [lia|]; rewrite Hd; ring).
  apply Forall_app in Hok as [_ Hok]. apply Forall_cons in Hok as [Hok _]. unfold digit_ok in Hok. assert (Ht : d0 = (M * c - num l0) * NBASE) by lia. generalize dependent (M * c - num l0). intros t ->. unfold NBASE in *. lia.
Qed.

(** The digits of a quotient, rounded or truncated, and stripped. *)
Lemma quotient_at_scale f guard v1 v2 rscale p r n : refines f guard -> var_ok v1 -> var_ok v2 -> var_ok p -> sign p = product_sign v1 v2 ->
  0 <= rscale -> 0 <= n -> 0 < num (digits v2) -> expo p = - quot_expo v1 v2 n -> rscale + guard <= 4 * quot_expo v1 v2 n ->
  num (digits p) = prefix_num (digits v1) n / num (digits v2) -> at_scale f p rscale r -> quotient f v1 v2 rscale (strip_var r).
Proof.
  intros [Hg Hfu Hff] Hv1 Hv2 Hp Hsg Hr Hn Hpos He HE Hnum Hat. set (E := quot_expo v1 v2 n) in *. destruct (strip_at_scale f p rscale r Hp Hat) as (S1 & S2 & S3 & S4 & S5).
  assert (Hfp : forall K, 4 * E <= K -> fits p K) by (intros K HK; split; lia).
  assert (Hdec : forall K K', fits v1 K -> fits v2 K -> 4 * E <= K' -> f (dec p K') (10 ^ (K' - rscale)) = f (dec v1 K * 10 ^ rscale) (dec v2 K)).
  { intros K K' F1 F2 HK'. pose proof (dec_pos v2 K F2 Hpos) as HC. pose proof (pow10_pos (K' - 4 * E) ltac:(lia)). pose proof (pow10_pos (4 * E - rscale) ltac:(lia)).
    replace (K' - rscale) with ((4 * E - rscale) + (K' - 4 * E)) by lia. rewrite Z.pow_add_r by lia. unfold dec at 1. rewrite Hnum, (quotient_units v1 v2 K n) by (try apply Hv1; done || lia).
    fold E. rewrite He. replace (4 * - E + K') with (K' - 4 * E) by lia. rewrite Hfu by lia. replace (10 ^ (4 * E)) with (10 ^ rscale * 10 ^ (4 * E - rscale)) by (rewrite <- Z.pow_add_r by lia; f_equal; lia).
    rewrite Z.mul_assoc. apply Hff; lia. }
  set (q := strip_var r) in *. set (M := fun K => f (dec v1 K * 10 ^ rscale) (dec v2 K)) in *.
  assert (Hexp : forall K, fits v1 K -> fits v2 K -> - rscale - 3 <= 4 * expo q).
  { intros K F1 F2. set (K' := Z.max (4 * E) rscale). specialize (S5 K' (Hfp K' ltac:(lia)) ltac:(lia)). rewrite (Hdec K K' F1 F2) in S5 by lia.
    apply (normal_expo q rscale K' (sgn q * sgn p * M K)); [done|done|lia|apply S4, Hfp; lia|]. assert (Hss : sgn q * sgn q = 1) by (unfold sgn; case_match; done).
    rewrite <- !Z.mul_assoc. unfold M. rewrite <- S5, Z.mul_assoc, Hss. lia. }
  assert (Hfq : forall K, rscale + 3 <= K -> fits q K).
  { intros K HK. set (K0 := Z.max 0 (Z.max (- 4 * expo v1) (- 4 * expo v2))). specialize (Hexp K0 ltac:(split; lia) ltac:(split; lia)). split; lia. }
  split; [done|done|done|done|]. intros K K' F1 F2 HK'. set (B := Z.max K' (4 * E)). specialize (S5 B (Hfp B ltac:(lia)) ltac:(lia)). rewrite (Hdec K B F1 F2) in S5 by lia.
  rewrite (dec_shift q K' B) in S5 by (try apply Hfq; lia). rewrite (sgn_mul v1 v2 p Hv1 Hv2 Hsg) in S5. pose proof (pow10_pos (B - K') ltac:(lia)).
  apply (Z.mul_reg_r _ _ (10 ^ (B - K'))); [lia|]. replace (B - rscale) with ((K' - rscale) + (B - K')) in S5 by lia. rewrite Z.pow_add_r in S5 by lia. rewrite <- Z.mul_assoc, S5. ring.
Qed.

(** ** Rounding or truncation *)

Definition rounding (round : bool) : Z -> Z -> Z := if round then nearest else cut.
Definition guard (round : bool) : Z := if round then 1 else 0.

Lemma rounding_refines round : refines (rounding round) (guard round).
Proof. destruct round; [apply nearest_refines|apply cut_refines]. Qed.

Lemma rounding_zero round u : 0 < u -> rounding round 0 u = 0.
Proof. intros Hu. destruct round; cbn; [apply nearest_small; lia|by apply Z.div_0_l; lia]. Qed.

Lemma zero_quotient v1 v2 rscale round : digits v1 = [] -> 0 < num (digits v2) -> 0 <= rscale -> quotient (rounding round) v1 v2 rscale (zero_var rscale).
Proof.
  intros Hd Hpos Hr. split; [by split; [constructor|left]|apply zero_normal|done| |].
  - intros K HK. split; [lia|]. unfold expo, ndigits. cbn. change (zlen (@nil Z)) with 0. lia.
  - intros K K' _ F2 HK. assert (dec v1 K = 0) as -> by (unfold dec; by rewrite Hd). rewrite Z.mul_0_l, rounding_zero by (by apply dec_pos).
    unfold dec. cbn [digits zero_var num]. lia.
Qed.

Lemma finish_div_spec round v1 v2 rscale p n : var_ok v1 -> var_ok v2 -> var_ok p -> room_ok p -> sign p = product_sign v1 v2 ->
  0 <= rscale -> 0 <= n -> 0 < num (digits v2) -> expo p = - quot_expo v1 v2 n -> rscale + guard round <= 4 * quot_expo v1 v2 n ->
  num (digits p) = prefix_num (digits v1) n / num (digits v2) -> exists r, finish_div p rscale round = Done r /\ quotient (rounding round) v1 v2 rscale r.
Proof.
  intros Hv1 Hv2 Hp Hroom Hsg Hr Hn Hpos He HE Hnum. unfold finish_div.
  assert (Hat : exists r, (if round then round_var p rscale else trunc_var p rscale) = Done r /\ at_scale (rounding round) p rscale r) by (destruct round; [by apply round_spec|by apply trunc_spec]).
  destruct Hat as (r & -> & Hat). runs. exists (strip_var r). split; [done|]. by apply (quotient_at_scale _ _ v1 v2 rscale p r n (rounding_refines round)).
Qed.

(** The number of digits asked for is enough. *)
Lemma div_ndigits_enough w rscale round : 0 <= rscale -> 1 <= div_ndigits w rscale round /\ rscale + guard round <= 4 * (div_ndigits w rscale round - 1 - w).
Proof. intros Hr. unfold div_ndigits, guard, DEC_DIGITS. destruct round; zdiv_lia. Qed.

(** ** Short division *)

Lemma short_div_spec n wrap D c i ds : digits_ok ds -> 0 <= c < D -> (forall x, 0 <= x < D * NBASE -> wrap x = x) ->
  digits_ok (short_div n wrap D c i ds) /\ zlen (short_div n wrap D c i ds) = Z.of_nat n
  /\ num (short_div n wrap D c i ds) = (c * pow_base (Z.of_nat n) + digit_run ds i n) / D.
Proof.
  intros Hok Hc Hw. revert c i Hc. induction n as [|n IH]; intros c i Hc; cbn [short_div digit_run].
  { split_and!; [constructor|done|]. change (pow_base (Z.of_nat 0)) with 1. rewrite Z.div_small by lia. done. }
  pose proof (digit_at_ok ds i Hok) as Hd. unfold digit_ok in Hd. assert (HB : NBASE = 10000) by done. rewrite (Hw (c * NBASE)) by nia. rewrite Hw by nia. set (x := c * NBASE + digit_at ds i). assert (Hx : 0 <= x < D * NBASE) by (unfold x; nia).
  rewrite Z.rem_mod_nonneg, Z.quot_div_nonneg by lia. pose proof (Z.mod_pos_bound x D ltac:(lia)). destruct (IH (x mod D) (i + 1) ltac:(lia)) as (O1 & O2 & O3).
  assert (Hq : digit_ok (x / D)) by (split; [apply Z.div_pos; lia|apply Z.div_lt_upper_bound; lia]). rewrite sN_small by (unfold in_s, digit_ok in *; lia).
  split_and!; [by constructor|rewrite zlen_cons, O2; lia|]. cbn [num]. rewrite O2, O3. replace (Z.of_nat (S n)) with (1 + Z.of_nat n) by lia. rewrite pow_base_succ by lia.
  rewrite <- Z.div_add_l by lia. f_equal. pose proof (Z.div_mod x D ltac:(lia)) as E. unfold x in *. nia.
Qed.

Lemma div_int_spec v1 v2 ival rscale round : var_ok v1 -> var_ok v2 -> num (digits v2) = Z.abs ival -> 0 < Z.abs ival <= 2 ^ 31 -> (0 <? ival) = (sign v2 =? NUMERIC_POS) -> 0 <= rscale ->
  exists r, div_var_int v1 ival (expo v2) rscale round = Done r /\ quotient (rounding round) v1 v2 rscale r.
Proof.
  intros Hv1 Hv2 Hi Hr Hs Hsc. unfold div_var_int. rewrite (proj2 (Z.eqb_neq ival 0)) by lia. destruct (Z.eqb_spec (ndigits v1) 0) as [E|E].
  { eexists. split; [done|]. apply zero_quotient; [|lia|done]. unfold ndigits in E. destruct (digits v1) as [|d l]; [done|]. rewrite zlen_cons in E. pose proof (zlen_nonneg l). lia. }
  set (n := div_ndigits (weight v1 - expo v2) rscale round). destruct (div_ndigits_enough (weight v1 - expo v2) rscale round Hsc) as [Hn HE]. fold n in Hn, HE.
  set (wrap := if Z.abs ival <=? (2 ^ 32 - 1) ÷ NBASE then u32 else u64). assert (Hw : forall x, 0 <= x < Z.abs ival * NBASE -> wrap x = x).
  { intros x Hx. unfold wrap. change ((2 ^ 32 - 1) ÷ NBASE) with 429496. unfold NBASE in Hx. destruct (Z.leb_spec (Z.abs ival) 429496); apply uN_small; unfold in_u; lia. }
  destruct (short_div_spec (Z.to_nat n) wrap (Z.abs ival) 0 0 (digits v1) ltac:(apply Hv1) ltac:(lia) Hw) as (O1 & O2 & O3). rewrite Z2Nat.id in O2, O3 by lia.
  set (p := MkVar _ _ _ _ _). assert (Hsg : sign p = product_sign v1 v2).
  { unfold p, product_sign. cbn [sign]. rewrite Hs. destruct Hv1 as [_ [-> | ->]], Hv2 as [_ [-> | ->]]; done. }
  apply (finish_div_spec round v1 v2 rscale p n); [done|done|split; [done|rewrite Hsg; apply product_sign_ok]|by exists []|done|done|lia|lia| | |].
  - unfold expo at 1, ndigits at 1, p, quot_expo. cbn [weight digits]. rewrite O2. lia.
  - unfold quot_expo. lia.
  - unfold p. cbn [digits]. rewrite O3, Hi. f_equal. pose proof (prefix_run (digits v1) 0 (Z.to_nat n)) as Hp. rewrite prefix_0, Z2Nat.id, Z.add_0_l in Hp by lia. lia.
Qed.
