(* ===== verification/NumericKnuth.v ===== *)
(** Long division (Numeric.v, [div_var]): Knuth's algorithm D.  Each step gives
    one digit of the quotient and leaves the remainder in the dividend. *)
From S2P Require Import Prelude Numeric NumericVal NumericArr NumericMul NumericDiv.
From stdpp Require Import list.
#[local] Open Scope Z_scope.

(** ** The loops of a step *)

Lemma scale_digits_spec rds d c : digits_ok rds -> 0 < d -> 0 <= c < d ->
  exists c' r, scale_digits rds d c = (c', r) /\ digits_ok r /\ zlen r = zlen rds /\ 0 <= c' < d /\ num (rev rds) * d + c = c' * pow_base (zlen rds) + num (rev r).
Proof.
  intros Hok Hd. revert c. induction Hok as [|x rds Hx _ IH]; intros c Hc; cbn [scale_digits].
  { exists c, []. change (zlen (@nil Z)) with 0. rewrite pow_base_0. split_and!; [done|constructor|done|lia|lia|cbn; lia]. }
  unfold digit_ok, NBASE in Hx. set (y := c + x * d). assert (Hy : 0 <= y < d * 10000) by (unfold y; nia). rewrite Z.rem_mod_nonneg, Z.quot_div_nonneg by (unfold NBASE; lia).
  pose proof (Z.div_mod y NBASE ltac:(done)) as E. pose proof (Z.mod_pos_bound y NBASE ltac:(done)).
  destruct (IH (y / NBASE)) as (c' & r & -> & Hr & Hl & Hc' & Hn); [split; [apply Z.div_pos; unfold NBASE; lia|apply Z.div_lt_upper_bound; unfold NBASE; lia]|].
  exists c', (y mod NBASE :: r). split_and!; [done|by constructor|by rewrite !zlen_cons, Hl|lia|lia|]. cbn [rev]. rewrite !num_snoc, zlen_cons, pow_base_succ by apply zlen_nonneg. unfold y in *. lia.
Qed.

Lemma mul_sub_spec ra rb q b : digits_ok ra -> digits_ok rb -> length ra = length rb -> 0 <= q < NBASE -> 0 <= b < NBASE ->
  exists b' r, mul_sub ra rb q b = Done (b', r) /\ digits_ok r /\ length r = length ra /\ 0 <= b' < NBASE
    /\ num (rev ra) - q * num (rev rb) - b = num (rev r) - b' * pow_base (zlen ra).
Proof.
  intros Hok. revert rb b. induction Hok as [|x ra Hx _ IH]; intros [|y rb] b Hb Hl Hq Hbb; cbn [mul_sub]; try done.
  { exists b, []. change (zlen (@nil Z)) with 0. rewrite pow_base_0. split_and!; [done|constructor|done|lia|lia|cbn; lia]. }
  apply Forall_cons in Hb as [Hy Hb]. injection Hl as Hl. unfold digit_ok, NBASE in *. assert (0 <= y * q <= 9999 * 9999) by nia. rewrite int32_in by (unfold INT_MAX; lia). runs.
  set (t := x - b - y * q). rewrite Z.quot_div_nonneg by lia. pose proof (Z.div_mod (10000 - 1 - t) 10000 ltac:(lia)) as E. pose proof (Z.mod_pos_bound (10000 - 1 - t) 10000 ltac:(lia)) as Hm.
  set (b1 := (10000 - 1 - t) / 10000) in *. assert (0 <= b1 < 10000) by (unfold t in *; lia).
  destruct (IH rb b1 Hb Hl Hq ltac:(lia)) as (b' & r & -> & Hr & Hrl & Hb' & Hn). runs. exists b', (t + b1 * 10000 :: r).
  split_and!; [done|constructor; [lia|done]|cbn; lia|lia|lia|]. cbn [rev]. rewrite !num_snoc, zlen_cons, pow_base_succ by apply zlen_nonneg. unfold NBASE, t in *. lia.
Qed.

Lemma add_back_spec ra rb c : digits_ok ra -> digits_ok rb -> length ra = length rb -> 0 <= c <= 1 ->
  exists c' r, add_back ra rb c = (c', r) /\ digits_ok r /\ length r = length ra /\ 0 <= c' <= 1 /\ num (rev ra) + num (rev rb) + c = num (rev r) + c' * pow_base (zlen ra).
Proof.
  intros Hok. revert rb c. induction Hok as [|x ra Hx _ IH]; intros [|y rb] c Hb Hl Hc; cbn [add_back]; try done.
  { exists c, []. change (zlen (@nil Z)) with 0. rewrite pow_base_0. split_and!; [done|constructor|done|lia|lia|cbn; lia]. }
  apply Forall_cons in Hb as [Hy Hb]. injection Hl as Hl. unfold digit_ok in *.
  assert (Hstep : forall c1 d, 0 <= c1 <= 1 -> digit_ok d -> c + x + y = c1 * NBASE + d -> exists c' r, (let '(c, rest) := add_back ra rb c1 in (c, d :: rest)) = (c', r) /\ digits_ok r
    /\ length r = length (x :: ra) /\ 0 <= c' <= 1 /\ num (rev (x :: ra)) + num (rev (y :: rb)) + c = num (rev r) + c' * pow_base (zlen (x :: ra))).
  { intros c1 d Hc1 Hd E. destruct (IH rb c1 Hb Hl Hc1) as (c' & r & -> & Hr & Hrl & Hc' & Hn). exists c', (d :: r). split_and!; [done|by constructor|cbn; lia|lia|lia|].
    cbn [rev]. rewrite !num_snoc, zlen_cons, pow_base_succ by apply zlen_nonneg. lia. }
  destruct (Z.leb_spec NBASE (c + x + y)); apply Hstep; unfold digit_ok, NBASE in *; lia.
Qed.

(** ** One digit of the quotient *)

(** The estimate from two digits of the divisor and three of the dividend: at
    least the digit, at most one more. *)
Record estimate (U3 V2 v1 U2 : Z) (q : Z) : Prop := {
  es_range : 0 <= q < NBASE;
  es_exit : q * V2 <= U3;
  es_best : forall q', 0 <= q' < NBASE -> q' * V2 <= U3 -> q' <= q }.

Lemma lower_qhat_spec fuel v1 v2 U2 x2 q : 0 < v1 -> 0 <= v2 -> 0 <= q < NBASE -> 0 <= U2 * NBASE + x2 -> (forall q', 0 <= q' < NBASE -> q' * (v1 * NBASE + v2) <= U2 * NBASE + x2 -> q' <= q) ->
  (q - Z.of_nat fuel) * (v1 * NBASE + v2) <= U2 * NBASE + x2 - (v1 * NBASE + v2) -> (0 < fuel)%nat ->
  exists q', lower_qhat fuel v1 v2 U2 x2 q = Done q' /\ estimate (U2 * NBASE + x2) (v1 * NBASE + v2) v1 U2 q'.
Proof.
  intros Hv1 Hv2 Hq HU. revert q Hq. induction fuel as [|fuel IH]; intros q Hq Hbest Hf Hpos; [lia|]. cbn [lower_qhat].
  destruct (Z.ltb_spec ((U2 - q * v1) * NBASE + x2) (v2 * q)) as [Hlt|Hge].
  - assert (Hgt : U2 * NBASE + x2 < q * (v1 * NBASE + v2)) by lia. assert (q <> 0) by nia.
    apply IH; [lia| |lia|].
    + intros q' Hq' Hle. assert (q' <= q) by (by apply Hbest). assert (q' <> q) by (intros ->; lia). lia.
    + destruct fuel; [|lia]. exfalso. lia.
  - exists q. split; [done|]. split; [done|lia|done].
Qed.

(** The first estimate. *)
Lemma qhat_spec x0 x1 x2 v1 v2 : digit_ok x0 -> digit_ok x1 -> digit_ok x2 -> digit_ok v1 -> digit_ok v2 -> HALF_NBASE <= v1 -> x0 <= v1 ->
  exists q, lower_qhat 4 v1 v2 (x0 * NBASE + x1) x2 (if x0 =? v1 then NBASE - 1 else (x0 * NBASE + x1) ÷ v1) = Done q
    /\ estimate ((x0 * NBASE + x1) * NBASE + x2) (v1 * NBASE + v2) v1 (x0 * NBASE + x1) q.
Proof.
  unfold digit_ok, HALF_NBASE, NBASE. intros H0 H1 H2 Hv1 Hv2 Hh Hle. set (U2 := x0 * 10000 + x1). set (q0 := if x0 =? v1 then _ else _).
  assert (Hq0 : 0 <= q0 < 10000 /\ q0 * v1 <= U2 /\ forall q', 0 <= q' < 10000 -> q' * v1 <= U2 -> q' <= q0).
  { unfold q0. destruct (Z.eqb_spec x0 v1) as [->|Hne]; [unfold U2; split_and!; intros; lia|]. rewrite Z.quot_div_nonneg by (unfold U2; lia). split_and!.
    - apply Z.div_pos; unfold U2; lia.
    - apply Z.div_lt_upper_bound; unfold U2; lia.
    - rewrite Z.mul_comm. apply Z.mul_div_le. lia.
    - intros q' Hq' Hl. apply Z.div_le_lower_bound; lia. }
  destruct Hq0 as (Hr & Hm & Hb). apply lower_qhat_spec; unfold NBASE; try (unfold U2; lia).
  - intros q' Hq' Hl. apply Hb; [done|]. nia.
  - nia.
Qed.

(** The estimate against the whole numbers. *)
Lemma estimate_exact U3 V2 v1 U2 q P xn vn : estimate U3 V2 v1 U2 q -> 0 <= xn < P -> 0 <= vn < P -> NBASE <= V2 -> 0 <= U3 -> U3 * P + xn < (V2 * P + vn) * NBASE ->
  let U := U3 * P + xn in let V := V2 * P + vn in U / V <= q /\ q * V < U + V.
Proof.
  intros [H1 H2 H3] Hx Hv HV HU Hs U V. unfold NBASE in *. assert (0 < V) by (unfold V; nia). split.
  - pose proof (Z.mul_div_le U V ltac:(lia)) as Hle. assert (0 <= U / V) by (apply Z.div_pos; unfold U; nia).
    apply H3; [split; [done|]; apply Z.div_lt_upper_bound; unfold U, V in *; lia|]. set (Q := U / V) in *. assert (Q * V2 * P < (U3 + 1) * P) by (unfold U, V in Hle; nia). nia.
  - unfold U, V. nia.
Qed.

Lemma div_exact U V q r : 0 < V -> 0 <= r < V -> U = q * V + r -> U / V = q /\ U mod V = r.
Proof. intros HV Hr ->. rewrite Z.add_comm, Z.div_add, Z.mod_add by lia. rewrite Z.div_small, Z.mod_small by lia. lia. Qed.

(** Multiply, subtract and, if it was too much, add back. *)
Lemma sub_digit part divisor q : digits_ok part -> digits_ok divisor -> length part = length divisor -> 0 <= q < NBASE -> 0 < num divisor ->
  num part / num divisor <= q -> q * num divisor < num part + num divisor ->
  exists part', ('(borrow, rpart) ← mul_sub (rev part) (rev divisor) q 0;
      if borrow =? 0 then mret (q, rev rpart)
      else let '(carry, rpart) := add_back rpart (rev divisor) 0 in if carry =? 1 then mret (q - 1, rev rpart) else Outside) = Done (num part / num divisor, part')
    /\ digits_ok part' /\ length part' = length part /\ num part' = num part mod num divisor.
Proof.
  intros Hp Hd Hl Hq HV HQ Hlt. set (U := num part) in *. set (V := num divisor) in *. pose proof (num_bound part Hp) as [HU _]. fold U in HU.
  assert (HM : V < pow_base (zlen part)) by (unfold zlen; rewrite Hl; by apply num_bound). set (M := pow_base (zlen part)) in *.
  destruct (mul_sub_spec (rev part) (rev divisor) q 0) as (b & r & -> & Hr & Hrl & Hb & Hn); [by apply digits_ok_rev..|by rewrite !length_rev|done|done|].
  rewrite !rev_involutive, zlen_rev in Hn. fold U V M in Hn. runs. pose proof (num_bound (rev r) (digits_ok_rev _ Hr)) as Hbr.
  assert (Hrz : zlen (rev r) = zlen part) by (unfold zlen; rewrite length_rev, Hrl, length_rev; done). rewrite Hrz in Hbr. fold M in Hbr.
  pose proof (Z.div_mod U V ltac:(lia)) as Edm. pose proof (Z.mod_pos_bound U V ltac:(lia)) as Hmod. destruct (Z.eqb_spec b 0) as [->|Hb0].
  - exists (rev r). assert (q = U / V) as -> by nia. split_and!; [done|by apply digits_ok_rev|unfold zlen in Hrz; lia|]. lia.
  - assert (b = 1) as -> by nia. assert (Eq : U / V = q - 1) by nia. rewrite Eq in *.
    destruct (add_back_spec r (rev divisor) 0 Hr (digits_ok_rev _ Hd)) as (c & r2 & -> & Hr2 & Hr2l & Hc & Hn2); [rewrite Hrl, !length_rev; done|done|].
    rewrite rev_involutive in Hn2. fold V in Hn2. assert (zlen r = zlen part) as Hrz' by (rewrite <- Hrz, zlen_rev; done). rewrite Hrz' in Hn2. fold M in Hn2.
    pose proof (num_bound (rev r2) (digits_ok_rev _ Hr2)) as Hb2. assert (Hr2z : zlen (rev r2) = zlen part) by (rewrite zlen_rev; unfold zlen in *; lia). rewrite Hr2z in Hb2. fold M in Hb2.
    assert (c = 1) as -> by nia. cbn. exists (rev r2). split_and!; [done|by apply digits_ok_rev|unfold zlen in Hr2z; lia|]. nia.
Qed.

Lemma div_digit_spec part v1 v2 vr : digits_ok part -> digits_ok (v1 :: v2 :: vr) -> HALF_NBASE <= v1 -> length part = length (0 :: v1 :: v2 :: vr) ->
  num part < num (0 :: v1 :: v2 :: vr) * NBASE ->
  exists part', div_digit part (0 :: v1 :: v2 :: vr) v1 v2 = Done (num part / num (0 :: v1 :: v2 :: vr), part') /\ digits_ok part' /\ length part' = length part
    /\ num part' = num part mod num (0 :: v1 :: v2 :: vr).
Proof.
  intros Hp Hv Hh Hl Hs. destruct part as [|x0 [|x1 [|x2 xr]]]; try done. assert (Hl' : zlen xr = zlen vr) by (unfold zlen; cbn in Hl; lia).
  pose proof Hp as Hp'. apply Forall_cons in Hp' as [H0 Hp']. apply Forall_cons in Hp' as [H1 Hp']. apply Forall_cons in Hp' as [H2 Hxr].
  pose proof Hv as Hv'. apply Forall_cons in Hv' as [Hv1 Hv']. apply Forall_cons in Hv' as [Hv2 Hvr].
  set (P := pow_base (zlen xr)). assert (HP : 0 < P) by (apply pow_base_pos, zlen_nonneg). pose proof (num_bound xr Hxr) as Bx. pose proof (num_bound vr Hvr) as Bv. rewrite <- Hl' in Bv. fold P in Bx, Bv.
  assert (EU : num (x0 :: x1 :: x2 :: xr) = ((x0 * NBASE + x1) * NBASE + x2) * P + num xr).
  { cbn [num]. rewrite !zlen_cons, !pow_base_succ by (pose proof (zlen_nonneg xr); lia). fold P. ring. }
  assert (EV : num (0 :: v1 :: v2 :: vr) = (v1 * NBASE + v2) * P + num vr).
  { cbn [num]. rewrite !zlen_cons, !pow_base_succ by (pose proof (zlen_nonneg vr); lia). rewrite <- Hl'. fold P. ring. }
  assert (HB : NBASE = 10000) by done. unfold digit_ok, HALF_NBASE in H0, H1, H2, Hv1, Hv2, Hh. assert (HVpos : NBASE * P <= num (0 :: v1 :: v2 :: vr)) by (rewrite EV; nia).
  unfold div_digit. cbn [lookup list_lookup inside mbind run_bind]. destruct (Z.eqb_spec (x0 * NBASE + x1) 0) as [Ez|Ez].
  { assert (Hsm : 0 <= num (x0 :: x1 :: x2 :: xr) < num (0 :: v1 :: v2 :: vr)) by (rewrite EU, Ez; nia). rewrite Z.div_small, Z.mod_small by done. by eexists. }
  assert (Hx0 : x0 <= v1) by (rewrite EU, EV in Hs; nia). destruct (qhat_spec x0 x1 x2 v1 v2) as (q & -> & He); [done..|]. runs.
  pose proof He as [Hq _ _]. destruct (estimate_exact _ _ _ _ _ P (num xr) (num vr) He) as [HQ HqV]; [lia|lia|nia|nia|rewrite <- EU, <- EV; done|]. rewrite <- EU, <- EV in HQ, HqV.
  destruct (Z.ltb_spec 0 q) as [Hq0|Hq0]; [apply sub_digit; [done|constructor; [done|done]|done|done|nia|done|done]|].
  assert (q = 0) as -> by lia. pose proof (num_bound _ Hp) as [HU _]. set (U := num (x0 :: _)) in *. set (V := num (0 :: _)) in *.
  assert (Hz : U / V = 0) by (pose proof (Z.div_pos U V HU ltac:(nia)); lia). pose proof (Z.div_mod U V ltac:(nia)) as Edm. rewrite Hz in *.
  replace (U mod V) with U by lia. by eexists.
Qed.

(** ** All digits *)

Lemma take_part (l : list Z) m x : l !! m = Some x -> take (S m) l = take m l ++ [x].
Proof. apply take_S_r. Qed.

Lemma div_loop_spec n j dividend v1 v2 vr : digits_ok dividend -> digits_ok (v1 :: v2 :: vr) -> HALF_NBASE <= v1 -> let m := length (v1 :: v2 :: vr) in let V := num (0 :: v1 :: v2 :: vr) in
  (j + m + n <= length dividend)%nat -> num (take m (drop j dividend)) < V ->
  exists res, div_loop n j dividend (0 :: v1 :: v2 :: vr) v1 v2 = Done res /\ digits_ok res /\ zlen res = Z.of_nat n /\ num res = num (take (m + n) (drop j dividend)) / V.
Proof.
  intros Hok Hv Hh m V. assert (Hdv : length (0 :: v1 :: v2 :: vr) = S m) by done. assert (HVok : digits_ok (0 :: v1 :: v2 :: vr)) by (by constructor).
  assert (HVm : V < pow_base (Z.of_nat m)) 
    by (pose proof (num_bound _ Hv) as [_ Hb]; change V with (0 * pow_base (zlen (v1 :: v2 :: vr)) + num (v1 :: v2 :: vr)); change (Z.of_nat m) with (zlen (v1 :: v2 :: vr)); lia).
  revert j dividend Hok. induction n as [|n IH]; intros j dividend Hok Hl Hlt; cbn [div_loop].
  { exists []. split_and!; [done|constructor|done|]. rewrite Nat.add_0_r, Z.div_small; [done|]. split; [|done]. apply num_bound, Forall_take, Forall_drop, Hok. }
  rewrite Hdv. set (s := drop j dividend) in *. assert (Hs : digits_ok s) by (by apply Forall_drop). assert (Hsl : (m + S n <= length s)%nat) by (unfold s; rewrite length_drop; lia).
  destruct (lookup_lt_is_Some_2 s m ltac:(lia)) as [x Hx]. pose proof (Forall_lookup_1 _ _ _ _ Hs Hx) as Hxd. cbn beta in Hxd. unfold digit_ok in Hxd.
  assert (Hpl : length (take (S m) s) = S m) by (rewrite length_take; lia). set (part := take (S m) s) in *.
  assert (Hnp : num part = num (take m s) * NBASE + x) by (unfold part; by rewrite (take_part s m x Hx), num_snoc).
  destruct (div_digit_spec part v1 v2 vr) as (part' & -> & Hp' & Hpl' & Hpn'); [by apply Forall_take|done|done|by rewrite Hpl|fold V; rewrite Hnp; unfold NBASE in *; lia|]. fold V in Hpn' |- *. runs.
  assert (HVpos : 0 < V) by (pose proof (num_bound (take m s) ltac:(by apply Forall_take)); lia). pose proof (Z.mod_pos_bound (num part) V HVpos) as Hmod.
  destruct part' as [|h t]; [rewrite Hpl in Hpl'; done|]. rewrite Hpl in Hpl'. injection Hpl' as Htl. apply Forall_cons in Hp' as [Hhd Ht].
  assert (Hh0 : h = 0 /\ num t = num part mod V).
  { cbn [num] in Hpn'. unfold zlen in Hpn'. rewrite Htl in Hpn'. pose proof (num_bound t Ht). unfold digit_ok in Hhd. pose proof (pow_base_pos (Z.of_nat m) ltac:(lia)). assert (h = 0) by nia. subst h. lia. }
  destruct Hh0 as [-> Hnt]. set (r := drop (j + S m) dividend). set (dividend' := take j dividend ++ (0 :: t) ++ r).
  assert (Hjl : length (take j dividend) = j) by (rewrite length_take; lia). assert (Hrl : (n <= length r)%nat) by (unfold r; rewrite length_drop; lia).
  assert (Hdrop : drop (S j) dividend' = t ++ r).
  { unfold dividend'. change ((0 :: t) ++ r) with ([0] ++ (t ++ r)). rewrite app_assoc. apply drop_app_length'. rewrite length_app, Hjl. cbn. lia. }
  assert (Hr : digits_ok r) by (by apply Forall_drop). assert (Hsr : s = part ++ r) by (unfold part, r, s; rewrite <- drop_drop; by rewrite take_drop).
  destruct (IH (S j) dividend') as (rest & -> & R1 & R2 & R3).
  - unfold dividend'. apply Forall_app. split; [by apply Forall_take|]. apply Forall_app. split; [by constructor|done].
  - unfold dividend'. rewrite !length_app, Hjl, length_cons, Htl. unfold r. rewrite length_drop. lia.
  - rewrite Hdrop, take_app_length' by done. lia.
  - runs. exists (num part / V :: rest). assert (Hq : digit_ok (num part / V)).
    { split; [apply Z.div_pos; [apply num_bound; by apply Forall_take|done]|]. apply Z.div_lt_upper_bound; [done|]. rewrite Hnp. unfold NBASE in *. lia. }
    split_and!; [done|by constructor|rewrite zlen_cons, R2; lia|]. cbn [num]. rewrite R2, R3, Hdrop, Hsr. rewrite (take_app_add' _ _ m n) by lia.
    replace (m + S n)%nat with (length part + n)%nat by lia. rewrite (take_app_add part r n), !num_app. assert (Hzt : zlen (take n r) = Z.of_nat n) by (unfold zlen; rewrite length_take; lia). rewrite Hzt.
    rewrite <- Z.div_add_l by lia. f_equal. rewrite Hnt. pose proof (Z.div_mod (num part) V ltac:(lia)). nia.
Qed.

(** ** The scaling of the operands *)

Lemma scale_range : forallb (fun v => (HALF_NBASE <=? v * (NBASE ÷ (v + 1))) && (NBASE ÷ (v + 1) * (v + 1) <=? NBASE) && (0 <? NBASE ÷ (v + 1))) (Z.of_nat <$> seq 1 4999) = true.
Proof. by vm_compute. Qed.

Lemma scale_factor v : 1 <= v < HALF_NBASE -> let d := NBASE ÷ (v + 1) in HALF_NBASE <= v * d /\ d * (v + 1) <= NBASE /\ 0 < d.
Proof.
  intros Hv d. unfold HALF_NBASE in Hv. assert (Hin : In v (Z.of_nat <$> seq 1 4999)) by (apply in_map_iff; exists (Z.to_nat v); split; [lia|]; apply in_seq; lia).
  pose proof (scale_range) as Hf. rewrite forallb_forall in Hf. specialize (Hf v Hin). cbn beta in Hf. apply andb_true_iff in Hf as [[H1 H2]%andb_true_iff H3].
  apply Z.leb_le in H1, H2. apply Z.ltb_lt in H3. done.
Qed.

(** A number times [d] that still has its length. *)
Lemma scale_num ds d : digits_ok ds -> 0 < d -> num ds * d < pow_base (zlen ds) ->
  exists r, scale_digits (rev ds) d 0 = (0, r) /\ digits_ok (rev r) /\ zlen (rev r) = zlen ds /\ num (rev r) = num ds * d.
Proof.
  intros Hok Hd Hs. destruct (scale_digits_spec (rev ds) d 0 (digits_ok_rev _ Hok) Hd ltac:(lia)) as (c & r & E & Hr & Hl & Hc & Hn). rewrite rev_involutive, zlen_rev in *.
  pose proof (num_bound (rev r) (digits_ok_rev _ Hr)) as Hb. rewrite zlen_rev, Hl in Hb. assert (c = 0) as -> by nia. exists r. split_and!; [done|by apply digits_ok_rev|by rewrite zlen_rev|lia].
Qed.

Record scaled_ops (ds1 zeros : list Z) (d1 d2 : Z) (ds2 dividend divisor : list Z) (d : Z) : Prop := {
  so_pos : 0 < d <= NBASE;
  so_dividend : digits_ok dividend;
  so_len : length dividend = S (length ds1 + length zeros);
  so_num : num dividend = d * (num ds1 * pow_base (zlen zeros));
  so_divisor : exists v1 v2 vr, divisor = 0 :: v1 :: v2 :: vr /\ digits_ok (v1 :: v2 :: vr) /\ HALF_NBASE <= v1 /\ length vr = length ds2 /\ num divisor = d * num (d1 :: d2 :: ds2) }.

Lemma scale_operands_spec ds1 n0 d1 d2 ds2 : digits_ok ds1 -> digits_ok (d1 :: d2 :: ds2) -> d1 <> 0 ->
  exists dividend divisor d, scale_operands (length ds1) (0 :: ds1 ++ replicate n0 0) (0 :: d1 :: d2 :: ds2) = Done (dividend, divisor)
    /\ scaled_ops ds1 (replicate n0 0) d1 d2 ds2 dividend divisor d.
Proof.
  intros Hok1 Hok2 Hd1. pose proof Hok2 as Hok2'. apply Forall_cons in Hok2' as [Hd1ok Hok2']. unfold digit_ok in Hd1ok. set (zs := replicate n0 0).
  assert (Hzs : digits_ok zs) by (apply Forall_replicate; done). assert (Hnz : num zs = 0) by apply num_zeros.
  unfold scale_operands. cbn [lookup list_lookup inside mbind run_bind]. destruct (Z.ltb_spec d1 HALF_NBASE) as [Hlt|Hge].
  - destruct (scale_factor d1 ltac:(lia)) as (F1 & F2 & F3). set (d := NBASE ÷ (d1 + 1)) in *. pose proof (num_lead d1 (d2 :: ds2) Hok2) as Hlead. set (P := pow_base (zlen (d2 :: ds2))) in *.
    assert (HP : 0 < P) by (apply pow_base_pos, zlen_nonneg).
    assert (Hlen : pow_base (zlen (d1 :: d2 :: ds2)) = NBASE * P) by (rewrite (zlen_cons d1), pow_base_succ by apply zlen_nonneg; done).
    destruct (scale_num (d1 :: d2 :: ds2) d Hok2 F3) as (r & E & Hr & Hrl & Hrn); [rewrite Hlen; nia|]. change (drop 1 (0 :: d1 :: d2 :: ds2)) with (d1 :: d2 :: ds2). rewrite E.
    assert (Hd : d <= NBASE) by nia. pose proof (num_bound ds1 Hok1) as B1.
    change (take (S (length ds1)) (0 :: ds1 ++ zs)) with (0 :: take (length ds1) (ds1 ++ zs)). change (drop (S (length ds1)) (0 :: ds1 ++ zs)) with (drop (length ds1) (ds1 ++ zs)). rewrite take_app_length, drop_app_length.
    destruct (scale_num (0 :: ds1) d) as (r' & E' & Hr' & Hrl' & Hrn'); [by constructor|done|rewrite zlen_cons, pow_base_succ by apply zlen_nonneg; cbn [num]; pose proof (pow_base_pos (zlen ds1) (zlen_nonneg _)); nia|]. rewrite E'. cbn.
    eexists _, _, d. split; [done|]. split; [lia|by apply Forall_app| | |].
    + unfold zlen in Hrl'. cbn in Hrl'. rewrite length_app. lia.
    + rewrite num_app, Hrn', Hnz. cbn [num]. lia.
    + destruct (rev r) as [|v1 [|v2 vr]]; try (unfold zlen in Hrl; cbn in Hrl; lia). exists v1, v2, vr. split_and!; [done|done| |unfold zlen in Hrl; cbn in Hrl; lia|cbn [num] in *; lia].
      pose proof (num_lead v1 (v2 :: vr) Hr) as Hv. assert (zlen (v2 :: vr) = zlen (d2 :: ds2)) as E2 by (unfold zlen in *; cbn in *; lia). rewrite E2 in Hv. fold P in Hv. nia.
  - eexists _, _, 1. split; [done|]. split; [unfold NBASE; lia| | | |].
    + constructor; [done|]. by apply Forall_app.
    + cbn. by rewrite length_app.
    + cbn [num]. rewrite num_app, Hnz. lia.
    + exists d1, d2, ds2. split_and!; [done|done|done|done|cbn [num]; lia].
Qed.

(** ** The quotient *)

Lemma prefix_shift ds k t : digits_ok ds -> 0 <= k -> 0 <= t -> 0 <= t + zlen ds - k -> prefix_num ds k = num ds * pow_base t / pow_base (t + zlen ds - k).
Proof.
  intros Hok Hk Ht Hz. destruct (Z.le_gt_cases (zlen ds) k) as [Hle|Hlt].
  - rewrite prefix_all by done. rewrite (pow_base_split (t + zlen ds - k) t) by lia. replace (t - (t + zlen ds - k)) with (k - zlen ds) by lia.
    rewrite (Z.mul_comm (pow_base _)), Z.mul_assoc, Z.div_mul; [done|]. pose proof (pow_base_pos _ Hz). lia.
  - rewrite prefix_floor by (done || lia). rewrite (pow_base_split t (t + zlen ds - k)) by lia. replace (t + zlen ds - k - t) with (zlen ds - k) by lia.
    rewrite (Z.mul_comm (pow_base t)), Z.div_mul_cancel_r; [done|pose proof (pow_base_pos (zlen ds - k) ltac:(lia)); lia|pose proof (pow_base_pos t Ht); lia].
Qed.

Lemma loop_quotient ds1 n0 d1 d2 ds2 n : digits_ok ds1 -> digits_ok (d1 :: d2 :: ds2) -> d1 <> 0 -> (length (d1 :: d2 :: ds2) + n <= S (length ds1 + n0))%nat ->
  exists res, ('(dividend, divisor) ← scale_operands (length ds1) (0 :: ds1 ++ replicate n0 0) (0 :: d1 :: d2 :: ds2);
    divisor1 ← inside (divisor !! 1%nat);
    divisor2 ← inside (divisor !! 2%nat);
    div_loop n 0 dividend divisor divisor1 divisor2) = Done res
  /\ digits_ok res /\ zlen res = Z.of_nat n /\ num res = prefix_num ds1 (Z.of_nat n + zlen (d1 :: d2 :: ds2) - 1) / num (d1 :: d2 :: ds2).
Proof.
  intros Hok1 Hok2 Hd1 Hlen. destruct (scale_operands_spec ds1 n0 d1 d2 ds2 Hok1 Hok2 Hd1) as (dividend & divisor & d & -> & [Hd Hdo Hdl Hdn (v1 & v2 & vr & -> & Hvo & Hvh & Hvl & Hvn)]).
  runs. cbn [lookup list_lookup inside mbind run_bind]. set (m := length (v1 :: v2 :: vr)). assert (Hm : m = length (d1 :: d2 :: ds2)) by (unfold m; cbn; lia). rewrite <- Hm in Hlen. rewrite length_replicate in Hdl.
  set (N2 := num (d1 :: d2 :: ds2)) in *. set (Z0 := num ds1 * pow_base (zlen (replicate n0 0))) in *. assert (Hzn : zlen (replicate n0 0) = Z.of_nat n0) by (unfold zlen; by rewrite length_replicate).
  assert (HN2 : pow_base (Z.of_nat m - 1) <= N2).
  { pose proof (num_lead d1 (d2 :: ds2) Hok2) as [Hlo _]. unfold zlen in Hlo. replace (Z.of_nat m - 1) with (Z.of_nat (length (d2 :: ds2))) by (rewrite Hm; cbn; lia).
    apply Forall_cons in Hok2 as [Hd1ok _]. unfold digit_ok in Hd1ok. pose proof (pow_base_pos (Z.of_nat (length (d2 :: ds2))) ltac:(lia)). unfold N2. nia. }
  assert (Hmpos : (1 <= m)%nat) by (unfold m; cbn; lia). pose proof (pow_base_pos (Z.of_nat m - 1) ltac:(lia)).
  assert (Htake : forall k, (k <= length dividend)%nat -> num (take k dividend) = d * Z0 / pow_base (Z.of_nat (length dividend) - Z.of_nat k)).
  { intros k Hk. rewrite num_take_div by done. rewrite Hdn. f_equal. f_equal. unfold zlen. rewrite length_drop. lia. }
  destruct (div_loop_spec n 0 dividend v1 v2 vr Hdo Hvo Hvh) as (res & -> & R1 & R2 & R3).
  - fold m. lia.
  - fold m. rewrite drop_0, Htake, Hvn by lia. pose proof (pow_base_pos (Z.of_nat (length dividend) - Z.of_nat m) ltac:(lia)) as HP. apply Z.div_lt_upper_bound; [done|].
    assert (HZ : Z0 < pow_base (Z.of_nat (length dividend) - 1)).
    { unfold Z0. rewrite Hzn, Hdl. replace (Z.of_nat (S (length ds1 + n0)) - 1) with (zlen ds1 + Z.of_nat n0) by (unfold zlen; lia). rewrite pow_base_add by (unfold zlen; lia).
      pose proof (num_bound ds1 Hok1). pose proof (pow_base_pos (Z.of_nat n0) ltac:(lia)). nia. }
    assert (HE : pow_base (Z.of_nat (length dividend) - 1) = pow_base (Z.of_nat (length dividend) - Z.of_nat m) * pow_base (Z.of_nat m - 1)) by (rewrite <- pow_base_add by lia; f_equal; lia).
    assert (Z0 < pow_base (Z.of_nat (length dividend) - Z.of_nat m) * N2) by nia. nia.
  - exists res. split_and!; [done|done|done|]. fold m in R3. rewrite R3, drop_0, Htake, Hvn by lia. set (P := pow_base (Z.of_nat (length dividend) - Z.of_nat (m + n))).
    assert (HP : 0 < P) by (apply pow_base_pos; lia). rewrite Z.div_div by nia. replace (P * (d * N2)) with (d * (P * N2)) by ring. rewrite Z.div_mul_cancel_l by nia. rewrite <- Z.div_div by lia. f_equal.
    rewrite (prefix_shift ds1 _ (Z.of_nat n0)) by (try done; unfold zlen; lia). unfold Z0, P. rewrite Hzn. f_equal. f_equal. rewrite Hdl. unfold zlen. rewrite <- Hm. lia.
Qed.

Lemma long_div_spec v1 v2 rscale round d1 d2 ds : var_ok v1 -> var_ok v2 -> digits v2 = d1 :: d2 :: ds -> d1 <> 0 -> 0 <= rscale ->
  exists r, long_div v1 v2 rscale round = Done r /\ quotient (rounding round) v1 v2 rscale r.
Proof.
  intros Hv1 Hv2 Ed Hd1 Hsc. unfold long_div. assert (Hpos : 0 < num (digits v2)).
  { pose proof (vo_digits _ Hv2) as Hok. rewrite Ed in *. pose proof (num_lead d1 (d2 :: ds) Hok) as [Hlo _]. apply Forall_cons in Hok as [Hk _]. unfold digit_ok in Hk.
    pose proof (pow_base_pos (zlen (d2 :: ds)) (zlen_nonneg _)). nia. }
  destruct (Z.eqb_spec (ndigits v1) 0) as [E|E].
  { eexists. split; [done|]. apply zero_quotient; [|done|done]. unfold ndigits in E. destruct (digits v1) as [|d l]; [done|]. rewrite zlen_cons in E. pose proof (zlen_nonneg l). lia. }
  set (n := div_ndigits (weight v1 - weight v2) rscale round). destruct (div_ndigits_enough (weight v1 - weight v2) rscale round Hsc) as [Hn HE]. fold n in Hn, HE.
  set (div_nd := Z.max (n + ndigits v2) (ndigits v1)). set (n0 := Z.to_nat (div_nd - ndigits v1)). pose proof (vo_digits _ Hv2) as Hok2.
  destruct (loop_quotient (digits v1) n0 d1 d2 ds (Z.to_nat n) ltac:(apply Hv1) ltac:(by rewrite <- Ed) Hd1) as (res & Eres & R1 & R2 & R3).
  { rewrite <- Ed. unfold n0, div_nd, ndigits, zlen. lia. }
  rewrite <- Ed in *. rewrite Z2Nat.id in R2, R3 by lia.
  destruct (scale_operands (length (digits v1)) (0 :: digits v1 ++ replicate n0 0) (0 :: digits v2)) as [[dividend divisor]| |]; [|done|done]. cbn [mbind run_bind] in Eres |- *.
  destruct (inside (divisor !! 1%nat)) as [x1| |]; [|done|done]. cbn [mbind run_bind] in Eres |- *. destruct (inside (divisor !! 2%nat)) as [x2| |]; [|done|done]. cbn [mbind run_bind] in Eres |- *. rewrite Eres. cbn [mbind run_bind].
  set (p := MkVar _ _ _ _ _).
  apply (finish_div_spec round v1 v2 rscale p (n + ndigits v2 - 1)); [done|done|split; [done|apply product_sign_ok]|by exists []|done|done|pose proof (zlen_nonneg (digits v2)); unfold ndigits; lia|done| | |].
  - unfold expo at 1, ndigits at 1, p, quot_expo. cbn [weight digits]. rewrite R2. unfold expo. lia.
  - unfold quot_expo, expo. lia.
  - exact R3.
Qed.

(** The first digit of the divisor must not be zero: stored numbers have none. *)
Lemma div_spec v1 v2 rscale round d1 ds : var_ok v1 -> var_ok v2 -> digits v2 = d1 :: ds -> d1 <> 0 -> 0 <= rscale ->
  exists r, div_var v1 v2 rscale round = Done r /\ quotient (rounding round) v1 v2 rscale r.
Proof.
  intros Hv1 Hv2 Ed Hd1 Hsc. pose proof Hv2 as [Hok Hsg]. unfold div_var. rewrite Ed in *. rewrite (proj2 (Z.eqb_neq d1 0)) by done.
  apply Forall_cons in Hok as [Hk Hok]. unfold digit_ok, NBASE in Hk. destruct ds as [|d2 [|d3 ds]].
  - assert (Hw : weight v2 = expo v2) by (unfold expo, ndigits; rewrite Ed; change (zlen [d1]) with 1; lia). rewrite Hw.
    apply div_int_spec; [done|done| | | |done]; destruct Hsg as [-> | ->]; cbn [Z.eqb NUMERIC_NEG NUMERIC_POS Pos.eqb]; try rewrite Ed; cbn [num]; change (zlen (@nil Z)) with 0; rewrite ?pow_base_0; lia.
  - apply Forall_cons in Hok as [Hk2 _]. unfold digit_ok, NBASE in Hk2. assert (Hw : weight v2 - 1 = expo v2) by (unfold expo, ndigits; rewrite Ed; change (zlen [d1; d2]) with 2; lia). rewrite Hw.
    apply div_int_spec; [done|done| | | |done]; destruct Hsg as [-> | ->]; cbn [Z.eqb NUMERIC_NEG NUMERIC_POS Pos.eqb]; try rewrite Ed; cbn [num]; change (zlen (@nil Z)) with 0; change (zlen [d2]) with 1;
      change (pow_base 1) with NBASE; rewrite ?pow_base_0; unfold NBASE; lia.
  - by apply (long_div_spec v1 v2 rscale round d1 d2 (d3 :: ds)).
Qed.
