(* ===== verification/NumericOps.v ===== *)
(** What the results of the arithmetic of Numeric.v keep: no digits beyond the
    display scale, no zeros at the ends.  Comparison, modulo, ceiling and floor. *)
From S2P Require Import Prelude Numeric NumericVal NumericArr NumericSum NumericAccum NumericMul NumericDiv NumericKnuth.
From stdpp Require Import list.
#[local] Open Scope Z_scope.

(** ** Signed numbers *)

(** The number in units of 10^-K. *)
Definition sdec (v : NumericVar) (K : Z) : Z := sgn v * dec v K.

Lemma sgn_cases v : sgn v = 1 \/ sgn v = -1.
Proof. unfold sgn. case_match; auto. Qed.

Lemma sdec_shift v K K' : fits v K -> K <= K' -> sdec v K' = sdec v K * 10 ^ (K' - K).
Proof. intros Hf Hle. unfold sdec. rewrite (dec_shift v K K') by done. ring. Qed.

(** No digits beyond the display scale. *)
Definition scaled (v : NumericVar) : Prop := forall K, fits v K -> dscale v <= K -> (10 ^ (K - dscale v) | dec v K).

Record numeric_ok (v : NumericVar) : Prop := {
  nk_var : var_ok v;
  nk_normal : normal v;
  nk_dscale : 0 <= dscale v;
  nk_scaled : scaled v }.

(** A multiple of the unit of the display scale at one scale is one at all. *)
Lemma scaled_at v K : fits v K -> dscale v <= K -> (10 ^ (K - dscale v) | dec v K) -> scaled v.
Proof.
  intros Hf HK Hd K' Hf' HK'. set (B := Z.max K K'). pose proof (dec_shift v K B Hf ltac:(lia)) as E1. pose proof (dec_shift v K' B Hf' ltac:(lia)) as E2.
  destruct Hd as [M HM]. exists M. pose proof (pow10_pos (B - K') ltac:(lia)). apply (Z.mul_reg_r _ _ (10 ^ (B - K'))); [lia|]. rewrite <- E2, E1, HM.
  rewrite <- !Z.mul_assoc, <- !Z.pow_add_r by lia. f_equal. f_equal. lia.
Qed.

Lemma numeric_fits v K : numeric_ok v -> dscale v + 3 <= K -> fits v K.
Proof.
  intros [Hv Hn Hd Hs] HK. set (K0 := Z.max (- 4 * expo v) (dscale v)). assert (Hf : fits v K0) by (split; lia). destruct (Hs K0 Hf ltac:(lia)) as [M HM].
  pose proof (normal_expo v (dscale v) K0 M Hn Hv ltac:(lia) Hf HM). split; lia.
Qed.

Lemma numeric_expo v : numeric_ok v -> - dscale v - 3 <= 4 * expo v.
Proof. intros Hv. destruct (numeric_fits v (dscale v + 3) Hv ltac:(lia)). lia. Qed.

(** A result whose number is a multiple of the unit. *)
Lemma scaled_signed r f : (exists K, fits r K /\ dscale r <= K /\ sgn r * dec r K = f * 10 ^ (K - dscale r)) -> scaled r.
Proof.
  intros (K & Hf & HK & E). apply (scaled_at r K Hf HK). exists (sgn r * f). rewrite <- Z.mul_assoc, <- E. destruct (sgn_cases r) as [-> | ->]; lia.
Qed.

Lemma scaled_sdec v K : scaled v -> fits v K -> dscale v <= K -> exists M, sdec v K = M * 10 ^ (K - dscale v).
Proof. intros Hs Hf HK. destruct (Hs K Hf HK) as [M HM]. exists (sgn v * M). unfold sdec. rewrite HM. ring. Qed.

(** ** Comparison *)

Definition no_zeros (v : NumericVar) : Prop := digits v = [] \/ 0 < num (digits v).

Lemma normal_no_zeros v : var_ok v -> normal v -> no_zeros v.
Proof. intros Hv Hn. unfold no_zeros. destruct (decide (digits v = [])) as [|Hne]; [by left|right]. by apply trimmed_pos, Hne; [|apply normal_trimmed]. Qed.

Lemma cmp_scale x y c : 0 < c -> cmp_result (x * c) (y * c) = cmp_result x y.
Proof.
  intros Hc. destruct (Z.compare_spec x y) as [->|Hl|Hl]; [by rewrite !cmp_eq|rewrite !cmp_lt by nia; done|rewrite !cmp_gt by nia; done].
Qed.

Lemma cmp_abs_dec v1 v2 K : var_ok v1 -> var_ok v2 -> both_fit v1 v2 K -> cmp_abs v1 v2 = cmp_result (dec v1 K) (dec v2 K).
Proof.
  intros Hv1 Hv2 [[H1 H2] [H3 H4]]. set (k := Z.max (- expo v1) (- expo v2)). rewrite (cmp_abs_spec v1 v2 k) by (done || lia). rewrite !(dec_scale _ k) by lia.
  rewrite cmp_scale; [done|]. apply pow10_pos. lia.
Qed.

Lemma cmp_opp x y : cmp_result (-1 * x) (-1 * y) = cmp_result y x.
Proof. destruct (Z.compare_spec y x) as [->|Hl|Hl]; [by rewrite !cmp_eq|by rewrite !cmp_lt by lia|by rewrite !cmp_gt by lia]. Qed.

Lemma cmp_spec v1 v2 K : var_ok v1 -> var_ok v2 -> no_zeros v1 -> no_zeros v2 -> both_fit v1 v2 K -> cmp_var v1 v2 = cmp_result (sdec v1 K) (sdec v2 K).
Proof.
  intros Hv1 Hv2 Hz1 Hz2 Hf. pose proof (cmp_abs_dec v1 v2 K Hv1 Hv2 Hf) as E12. pose proof (cmp_abs_dec v2 v1 K Hv2 Hv1 (conj (proj2 Hf) (proj1 Hf))) as E21. destruct Hf as [F1 F2].
  unfold cmp_abs in *. assert (Hcase : forall v, no_zeros v -> fits v K -> ((zlen (digits v) =? 0) = true /\ dec v K = 0) \/ ((zlen (digits v) =? 0) = false /\ 0 < dec v K)).
  { intros v [E|E] Fv; [left; unfold dec; by rewrite E|right]. split; [|by apply dec_pos]. destruct (digits v) as [|d l]; [done|]. apply Z.eqb_neq. rewrite zlen_cons. pose proof (zlen_nonneg l). lia. }
  unfold cmp_var, cmp_var_common, sdec. pose proof Hv1 as [_ Hs1]. pose proof Hv2 as [_ Hs2].
  destruct (Hcase v1 Hz1 F1) as [[-> D1]|[-> D1]], (Hcase v2 Hz2 F2) as [[-> D2]|[-> D2]]; rewrite ?D1, ?D2;
    destruct Hs1 as [S1|S1], Hs2 as [S2|S2]; rewrite ?(sgn_pos v1 S1), ?(sgn_neg v1 S1), ?(sgn_pos v2 S2), ?(sgn_neg v2 S2), ?S1, ?S2; cbn [Z.eqb NUMERIC_POS NUMERIC_NEG Pos.eqb];
    rewrite ?E12, ?E21, ?Z.mul_1_l, ?Z.mul_0_r; try done; try (symmetry; apply cmp_gt; lia); try (symmetry; apply cmp_lt; lia).
  by rewrite cmp_opp.
Qed.

(** ** The results are numbers again *)

Lemma multiple_weaken x M d d' K : d' <= d <= K -> x = M * 10 ^ (K - d') -> x = M * 10 ^ (d - d') * 10 ^ (K - d).
Proof. intros Hd ->. rewrite <- Z.mul_assoc, <- Z.pow_add_r by lia. f_equal. f_equal. lia. Qed.

(** The two scales of a sum. *)
Lemma sum_units v1 v2 K d : numeric_ok v1 -> numeric_ok v2 -> d = Z.max (dscale v1) (dscale v2) -> K = d + 3 ->
  both_fit v1 v2 K /\ exists M1 M2, sdec v1 K = M1 * 10 ^ (K - d) /\ sdec v2 K = M2 * 10 ^ (K - d).
Proof.
  intros H1 H2 Hd HK. pose proof (numeric_fits v1 K H1 ltac:(lia)) as F1. pose proof (numeric_fits v2 K H2 ltac:(lia)) as F2. split; [done|].
  destruct (scaled_sdec v1 K (nk_scaled _ H1) F1 ltac:(lia)) as [M1 E1]. destruct (scaled_sdec v2 K (nk_scaled _ H2) F2 ltac:(lia)) as [M2 E2].
  eexists _, _. split; [apply (multiple_weaken _ M1 d (dscale v1)); [lia|done]|apply (multiple_weaken _ M2 d (dscale v2)); [lia|done]].
Qed.

(** [r] is the number [f]. *)
Record is_num (r : NumericVar) (scale : Z) (ok : Z -> Prop) (f : Z -> Z) : Prop := {
  in_ok : numeric_ok r;
  in_dscale : dscale r = scale;
  in_fits : forall K, ok K -> fits r K;
  in_sdec : forall K, ok K -> sdec r K = f K }.

Lemma value_is_num r d ok f K M : has_value r ok f -> dscale r = d -> 0 <= d -> (digits r = [] -> sign r = NUMERIC_POS) -> ok K -> d <= K -> f K = M * 10 ^ (K - d) ->
  is_num r d ok f.
Proof.
  intros [V1 V2 V3 V4] Hd Hd0 Hz HK Hle E. split; [|done|done|done]. split; [done|by apply trimmed_normal|lia|]. apply (scaled_signed r M). exists K.
  split; [by apply V3|]. split; [lia|]. by rewrite V4, E, Hd.
Qed.

Lemma add_num v1 v2 : numeric_ok v1 -> numeric_ok v2 ->
  exists r, add_var v1 v2 = Done r /\ is_num r (Z.max (dscale v1) (dscale v2)) (both_fit v1 v2) (fun K => sdec v1 K + sdec v2 K).
Proof.
  intros H1 H2. destruct (add_spec v1 v2 (nk_var _ H1) (nk_var _ H2)) as (r & -> & Hd & Hv & Hz). exists r. split; [done|].
  set (d := Z.max (dscale v1) (dscale v2)) in *. destruct (sum_units v1 v2 (d + 3) d H1 H2 eq_refl eq_refl) as (Hf & M1 & M2 & E1 & E2).
  pose proof (nk_dscale _ H1). apply (value_is_num r d _ _ (d + 3) (M1 + M2)); [exact Hv|done|lia|apply Hz; [apply H1|apply H2]|done|lia|]. rewrite E1, E2. ring.
Qed.

Lemma sub_num v1 v2 : numeric_ok v1 -> numeric_ok v2 ->
  exists r, sub_var v1 v2 = Done r /\ is_num r (Z.max (dscale v1) (dscale v2)) (both_fit v1 v2) (fun K => sdec v1 K - sdec v2 K).
Proof.
  intros H1 H2. destruct (sub_spec v1 v2 (nk_var _ H1) (nk_var _ H2)) as (r & -> & Hd & Hv & Hz). exists r. split; [done|].
  set (d := Z.max (dscale v1) (dscale v2)) in *. destruct (sum_units v1 v2 (d + 3) d H1 H2 eq_refl eq_refl) as (Hf & M1 & M2 & E1 & E2).
  pose proof (nk_dscale _ H1). apply (value_is_num r d _ _ (d + 3) (M1 - M2)); [exact Hv|done|lia|apply Hz; [apply H1|apply H2]|done|lia|]. rewrite E1, E2. ring.
Qed.

(** Room for all digits of a product. *)
Lemma mul_digits_ok v1 v2 rscale : numeric_ok v1 -> numeric_ok v2 -> dscale v1 + dscale v2 <= rscale -> ndigits v1 + ndigits v2 + 1 <= mul_digits v1 v2 rscale.
Proof.
  intros H1 H2 Hr. pose proof (numeric_expo v1 H1) as X1. pose proof (numeric_expo v2 H2) as X2. pose proof (nk_dscale _ H1). pose proof (nk_dscale _ H2).
  unfold expo in X1, X2. unfold mul_digits, DEC_DIGITS, MUL_GUARD_DIGITS. zdiv_lia.
Qed.

(** With the scales of both the product is exact. *)
Lemma mul_num v1 v2 : numeric_ok v1 -> numeric_ok v2 -> exists r, mul_var v1 v2 (dscale v1 + dscale v2) = Done r
  /\ numeric_ok r /\ dscale r = dscale v1 + dscale v2 /\ forall K1 K2, fits v1 K1 -> fits v2 K2 -> fits r (K1 + K2) /\ (dscale v1 <= K1 -> dscale v2 <= K2 -> sdec r (K1 + K2) = sdec v1 K1 * sdec v2 K2).
Proof.
  intros H1 H2. set (d := dscale v1 + dscale v2). destruct (mul_spec v1 v2 d (nk_var _ H1) (nk_var _ H2) (mul_digits_ok v1 v2 d H1 H2 ltac:(lia))) as (r & -> & [P1 P2 P3 P4 P5]).
  assert (Hex : forall K1 K2, fits v1 K1 -> fits v2 K2 -> dscale v1 <= K1 -> dscale v2 <= K2 -> sdec r (K1 + K2) = sdec v1 K1 * sdec v2 K2 /\ exists M, sdec r (K1 + K2) = M * 10 ^ (K1 + K2 - d)).
  { intros K1 K2 F1 F2 L1 L2. destruct (nk_scaled _ H1 K1 F1 L1) as [M1 E1]. destruct (nk_scaled _ H2 K2 F2 L2) as [M2 E2]. unfold sdec. rewrite P5 by (done || lia).
    assert (E : dec v1 K1 * dec v2 K2 = M1 * M2 * 10 ^ (K1 + K2 - d)).
    { rewrite E1, E2. replace (K1 + K2 - d) with ((K1 - dscale v1) + (K2 - dscale v2)) by lia. rewrite Z.pow_add_r by lia. ring. }
    rewrite E, nearest_exact by (apply pow10_pos; lia). split; [rewrite <- E; ring|exists (sgn v1 * sgn v2 * (M1 * M2)); ring]. }
  exists r. split; [done|]. pose proof (nk_dscale _ H1). pose proof (nk_dscale _ H2). split; [|split; [done|]].
  - split; [done|done|lia|]. pose proof (numeric_fits v1 (dscale v1 + 3) H1 ltac:(lia)) as F1. pose proof (numeric_fits v2 (dscale v2 + 3) H2 ltac:(lia)) as F2.
    destruct (Hex _ _ F1 F2 ltac:(lia) ltac:(lia)) as [_ [M EM]]. apply (scaled_signed r M). exists (dscale v1 + 3 + (dscale v2 + 3)). rewrite P3. split; [by apply P4|]. split; [lia|]. exact EM.
  - intros K1 K2 F1 F2. split; [by apply P4|]. intros L1 L2. by apply Hex.
Qed.

Lemma quotient_ok f v1 v2 rscale r : var_ok v1 -> var_ok v2 -> 0 <= rscale -> quotient f v1 v2 rscale r -> numeric_ok r.
Proof.
  intros H1 H2 Hr [Q1 Q2 Q3 Q4 Q5]. split; [done|done|lia|]. destruct (some_fit v1 v2) as (K & F1 & F2).
  apply (scaled_signed r (sgn v1 * sgn v2 * f (dec v1 K * 10 ^ rscale) (dec v2 K))). exists (rscale + 3). split; [apply Q4; lia|]. split; [lia|].
  rewrite Q3, (Q5 K) by (done || lia). ring.
Qed.

Lemma mul_m1 x : -1 * x = - x.
Proof. lia. Qed.

(** ** Modulo *)

Lemma mod_num v1 v2 : numeric_ok v1 -> numeric_ok v2 -> digits v2 <> [] ->
  exists r, mod_var v1 v2 = Done r /\ is_num r (Z.max (dscale v1) (dscale v2)) (fun K => both_fit v1 v2 K /\ dscale v2 <= K) (fun K => Z.rem (sdec v1 K) (sdec v2 K)).
Proof.
  intros H1 H2 Hne. unfold mod_var. destruct (digits v2) as [|d1 ds] eqn:Ed; [done|]. assert (Hd1 : d1 <> 0) by (by apply (no_head _ (nk_normal _ H2) d1 ds)).
  destruct (div_spec v1 v2 0 false d1 ds (nk_var _ H1) (nk_var _ H2) Ed Hd1 ltac:(lia)) as (q & -> & Hq). runs. pose proof (quotient_ok _ v1 v2 0 q (nk_var _ H1) (nk_var _ H2) ltac:(lia) Hq) as Hqo. destruct Hq as [Q1 Q2 Q3 Q4 Q5].
  destruct (mul_num v2 q H2 Hqo) as (m & Em & Hm & Hmd & Hms). rewrite Q3, Z.add_0_r in Em, Hmd. rewrite Em. runs.
  destruct (sub_num v1 m H1 Hm) as (r & -> & [R1 R2 R3 R4]). exists r. split; [done|].
  assert (Hfm : forall K, fits v2 K -> fits m K).
  { intros K F2. pose proof (numeric_expo q Hqo) as Xq. rewrite Q3 in Xq. assert (Fq : fits q 0) by (split; lia). destruct (Hms K 0 F2 Fq) as [Fm _]. by rewrite Z.add_0_r in Fm. }
  split; [done|by rewrite R2, Hmd|intros K [[F1 F2] _]; apply R3; split; [done|by apply Hfm]|].
  intros K [[F1 F2] HK]. rewrite R4 by (split; [done|by apply Hfm]). assert (Fq : fits q 3) by (apply Q4; lia). destruct (Hms K 3 F2 Fq) as [_ Hmul]. specialize (Hmul HK ltac:(lia)).
  rewrite (sdec_shift m K (K + 3)) in Hmul by (try apply Hfm; done || lia). replace (K + 3 - K) with 3 in Hmul by lia. unfold sdec at 3 in Hmul. rewrite (Q5 K 3 F1 F2 ltac:(lia)) in Hmul.
  change (10 ^ (3 - 0)) with 1000 in Hmul. change (10 ^ 3) with 1000 in Hmul. change (10 ^ 0) with 1 in Hmul. unfold rounding, cut in Hmul. cbn match in Hmul. rewrite Z.mul_1_r in Hmul.
  assert (Hp2 : 0 < dec v2 K) by (apply dec_pos; [done|]; apply trimmed_pos; [apply H2|apply normal_trimmed, H2|by rewrite Ed]). pose proof (dec_nonneg v1 K ltac:(apply H1)) as Hp1.
  assert (Em' : sdec m K = sdec v2 K * (sgn v1 * sgn v2 * (dec v1 K / dec v2 K))) by (apply (Z.mul_reg_r _ _ 1000); [lia|]; rewrite Hmul; ring). rewrite Em'. unfold sdec. pose proof (Z.div_mod (dec v1 K) (dec v2 K) ltac:(lia)) as Edm.
  destruct (sgn_cases v1) as [-> | ->], (sgn_cases v2) as [-> | ->]; rewrite ?Z.mul_1_l; rewrite ?mul_m1, ?Z.mul_opp_l, ?Z.mul_1_l, ?Z.rem_opp_l, ?Z.rem_opp_r by lia; rewrite Z.rem_mod_nonneg by lia; lia.
Qed.

(** ** Ceiling and floor *)

(** Truncation to an integer leaves a digit that is not zero, or none. *)
Lemma trunc_no_zeros v r : var_ok v -> normal v -> trunc_var v 0 = Done r -> no_zeros r.
Proof.
  intros Hv Hn. unfold trunc_var, DEC_DIGITS. rewrite Z.add_0_r. destruct (Z.leb_spec ((weight v + 1) * 4) 0) as [Hw|Hw]; [intros [= <-]; by left|].
  replace (((weight v + 1) * 4 + 4 - 1) ÷ 4) with (weight v + 1) by zdiv_lia. replace (Z.rem ((weight v + 1) * 4) 4) with 0 by (symmetry; apply Z.rem_mul; lia).
  destruct (weight v + 1 <=? ndigits v); intros [= <-]; [|by apply (normal_no_zeros v)]. unfold no_zeros. cbn [digits].
  destruct (Z.to_nat (weight v + 1)) as [|k] eqn:Ek; [lia|]. pose proof Hv as [Hok _]. pose proof (no_head _ Hn) as Hh. destruct (digits v) as [|d ds]; [by left|right]. cbn [take].
  apply num_head_pos; [|by apply (Hh d ds)]. change (d :: take k ds) with (take (S k) (d :: ds)). by apply Forall_take.
Qed.

Definition with_room (v : NumericVar) : NumericVar := MkVar (digits v) (weight v) (sign v) (dscale v) [0].

(** The whole part of a number, as [ceil_var] and [floor_var] take it. *)
Lemma whole_part v : numeric_ok v -> exists t, trunc_var (with_room v) 0 = Done t /\ var_ok t /\ dscale t = 0
  /\ (forall K, fits v K -> fits t K /\ sdec t K = sgn v * (dec v K / 10 ^ K * 10 ^ K))
  /\ forall K, fits v K -> (cmp_var v t =? 0) = (dec v K / 10 ^ K * 10 ^ K =? dec v K).
Proof.
  intros Hv. pose proof (nk_var _ Hv) as Hvo. assert (Hr : var_ok (with_room v)) by (by destruct Hvo; split). assert (Hrn : normal (with_room v)) by (destruct (nk_normal _ Hv); by split).
  destruct (trunc_spec (with_room v) 0 Hr) as (t & Et & [A1 A2 A3 A4 A5]). pose proof (trunc_no_zeros _ t Hr Hrn Et) as Hz.
  assert (Hd : forall K, fits v K -> fits t K /\ sdec t K = sgn v * (dec v K / 10 ^ K * 10 ^ K)).
  { intros K HK. split; [by apply A3|]. pose proof HK as [HK0 _]. apply signed_eq; [intros Hne; unfold sgn; by rewrite A5|]. rewrite A4 by done. rewrite Z.sub_0_r. done. }
  exists t. split; [done|]. split; [done|]. split; [done|]. split; [done|]. intros K HK. destruct (Hd K HK) as [Ht Es].
  rewrite (cmp_spec v t K Hvo A1 (normal_no_zeros v Hvo (nk_normal _ Hv)) Hz (conj HK Ht)), Es. unfold sdec. set (x := dec v K). set (y := x / 10 ^ K * 10 ^ K).
  destruct (Z.eqb_spec y x) as [->|Hne]; [by rewrite cmp_eq|]. apply Z.eqb_neq. destruct (cmp_result_cases (sgn v * x) (sgn v * y)) as [[-> E]|[[-> _]|[-> _]]]; [|done|done].
  destruct (sgn_cases v) as [Es2|Es2]; rewrite Es2 in E; lia.
Qed.

Lemma one_ok : var_ok const_one.
Proof. split; [by repeat constructor|by left]. Qed.

Lemma one_dec K : 0 <= K -> fits const_one K /\ sdec const_one K = 10 ^ K.
Proof. intros HK. split; [split; [done|]; change (4 * expo const_one + K) with (0 + K); lia|]. unfold sdec, dec. change (4 * expo const_one + K) with (0 + K). rewrite Z.add_0_l. change (num (digits const_one)) with 1. change (sgn const_one) with 1. lia. Qed.

(** Quotients by the unit. *)
Lemma ceil_exact x u : 0 < u -> x / u * u = x -> - (- x / u) * u = x.
Proof. intros Hu E. rewrite <- E at 1. rewrite <- Z.mul_opp_l, Z.div_mul by lia. lia. Qed.
Lemma ceil_next x u : 0 < u -> x / u * u <> x -> - (- x / u) = x / u + 1.
Proof.
  intros Hu E. pose proof (Z.div_mod x u ltac:(lia)). pose proof (Z.mod_pos_bound x u Hu). assert (Hm : x mod u <> 0) by lia. rewrite (Z.div_opp_l_nz x u) by lia. lia.
Qed.

Lemma ceil_var_spec v : numeric_ok v -> exists r, ceil_var v = Done r /\ var_ok r /\ dscale r = 0
  /\ forall K, fits v K -> fits r K /\ sdec r K = - (- sdec v K / 10 ^ K) * 10 ^ K.
Proof.
  intros Hv. unfold ceil_var. fold (with_room v). destruct (whole_part v Hv) as (t & -> & Ht & Htd & Hts & Hc). runs. destruct (some_fit v v) as (K0 & HK0 & _). pose proof (nk_var _ Hv) as [_ Hsg].
  assert (Hu : forall K, fits v K -> 0 < 10 ^ K) by (intros K [HK _]; by apply pow10_pos). rewrite (Hc K0 HK0).
  assert (Hcs : forall K, fits v K -> (dec v K / 10 ^ K * 10 ^ K =? dec v K) = (dec v K0 / 10 ^ K0 * 10 ^ K0 =? dec v K0)) by (intros K HK; by rewrite <- !Hc).
  destruct ((sign v =? NUMERIC_POS) && negb (dec v K0 / 10 ^ K0 * 10 ^ K0 =? dec v K0)) eqn:Eb.
  - apply andb_true_iff in Eb as [Es%Z.eqb_eq Eb%negb_true_iff]. destruct (add_spec t const_one Ht one_ok) as (r & -> & Hrd & [R1 _ R2 R3] & _). runs.
    exists (set_var_from_var r). split; [done|]. split; [by destruct R1; split|]. split; [change (dscale (set_var_from_var r)) with (dscale r); rewrite Hrd, Htd; done|].
    intros K HK. destruct (Hts K HK) as [Ft Et]. pose proof HK as [HKn _]. destruct (one_dec K HKn) as [F1 E1]. split; [by apply (R2 K)|]. change (sdec (set_var_from_var r) K) with (sgn r * dec r K).
    rewrite R3 by done. fold (sdec t K) (sdec const_one K). rewrite Et, E1. unfold sdec. rewrite (sgn_pos v Es), !Z.mul_1_l. rewrite (ceil_next (dec v K) (10 ^ K)); [lia|by apply Hu|]. apply Z.eqb_neq. by rewrite Hcs.
  - runs. exists (set_var_from_var t). split; [done|]. split; [by destruct Ht; split|]. split; [exact Htd|]. intros K HK. destruct (Hts K HK) as [Ft Et]. split; [exact Ft|]. change (sdec (set_var_from_var t) K) with (sdec t K).
    rewrite Et. unfold sdec. specialize (Hu K HK). destruct Hsg as [Es|Es]; [|rewrite (sgn_neg v Es); rewrite !mul_m1, Z.opp_involutive; lia].
    rewrite (sgn_pos v Es), !Z.mul_1_l. rewrite Es in Eb. cbn in Eb. apply negb_false_iff in Eb. rewrite <- (Hcs K HK) in Eb. apply Z.eqb_eq in Eb. rewrite ceil_exact by done. done.
Qed.

Lemma floor_var_spec v : numeric_ok v -> exists r, floor_var v = Done r /\ var_ok r /\ dscale r = 0
  /\ forall K, fits v K -> fits r K /\ sdec r K = sdec v K / 10 ^ K * 10 ^ K.
Proof.
  intros Hv. unfold floor_var. fold (with_room v). destruct (whole_part v Hv) as (t & -> & Ht & Htd & Hts & Hc). runs. destruct (some_fit v v) as (K0 & HK0 & _). pose proof (nk_var _ Hv) as [_ Hsg].
  assert (Hu : forall K, fits v K -> 0 < 10 ^ K) by (intros K [HK _]; by apply pow10_pos). rewrite (Hc K0 HK0).
  assert (Hcs : forall K, fits v K -> (dec v K / 10 ^ K * 10 ^ K =? dec v K) = (dec v K0 / 10 ^ K0 * 10 ^ K0 =? dec v K0)) by (intros K HK; by rewrite <- !Hc).
  destruct ((sign v =? NUMERIC_NEG) && negb (dec v K0 / 10 ^ K0 * 10 ^ K0 =? dec v K0)) eqn:Eb.
  - apply andb_true_iff in Eb as [Es%Z.eqb_eq Eb%negb_true_iff]. destruct (sub_spec t const_one Ht one_ok) as (r & -> & Hrd & [R1 _ R2 R3] & _). runs.
    exists (set_var_from_var r). split; [done|]. split; [by destruct R1; split|]. split; [change (dscale (set_var_from_var r)) with (dscale r); rewrite Hrd, Htd; done|].
    intros K HK. destruct (Hts K HK) as [Ft Et]. pose proof HK as [HKn _]. destruct (one_dec K HKn) as [F1 E1]. split; [by apply (R2 K)|]. change (sdec (set_var_from_var r) K) with (sgn r * dec r K).
    rewrite R3 by done. fold (sdec t K) (sdec const_one K). rewrite Et, E1. unfold sdec. rewrite (sgn_neg v Es), !mul_m1.
    pose proof (ceil_next (dec v K) (10 ^ K) ltac:(by apply Hu) ltac:(apply Z.eqb_neq; by rewrite Hcs)) as En.
    replace (-1 * dec v K) with (- dec v K) by lia. assert (- dec v K / 10 ^ K = - (dec v K / 10 ^ K + 1)) as -> by lia. ring.
  - runs. exists (set_var_from_var t). split; [done|]. split; [by destruct Ht; split|]. split; [exact Htd|]. intros K HK. destruct (Hts K HK) as [Ft Et]. split; [exact Ft|]. change (sdec (set_var_from_var t) K) with (sdec t K).
    rewrite Et. unfold sdec. specialize (Hu K HK). destruct Hsg as [Es|Es]; [rewrite (sgn_pos v Es), !Z.mul_1_l; done|].
    rewrite (sgn_neg v Es), !mul_m1. rewrite Es in Eb. cbn in Eb. apply negb_false_iff in Eb. rewrite <- (Hcs K HK) in Eb. apply Z.eqb_eq in Eb.
    pose proof (ceil_exact (dec v K) (10 ^ K) Hu Eb). replace (-1 * dec v K) with (- dec v K) by lia. lia.
Qed.
