(* ===== verification/NumericInt.v ===== *)
(** Numeric variables and machine integers (Numeric.v): the conversion of an
    integer is exact, the conversion to an integer rounds, and answers outside
    the range are detected before the arithmetic of the machine overflows. *)
From S2P Require Import Prelude Numeric NumericVal NumericArr NumericSum NumericMul NumericDiv NumericKnuth NumericOps.
From stdpp Require Import list.
#[local] Open Scope Z_scope.

(** ** From an integer *)

Lemma uint_digits_spec size uval res : 0 < uval < pow_base (Z.of_nat size) -> exists new, uint_digits size uval res = Done (new ++ res) /\ digits_ok new /\ num new = uval /\ new <> [].
Proof.
  revert uval res. induction size as [|size IH]; intros uval res Hu; [change (pow_base (Z.of_nat 0)) with 1 in Hu; lia|]. cbn [uint_digits].
  replace (Z.of_nat (S size)) with (1 + Z.of_nat size) in Hu by lia. rewrite pow_base_succ in Hu by lia. rewrite Z.quot_div_nonneg by (unfold NBASE; lia).
  pose proof (Z.div_mod uval NBASE ltac:(done)) as E. pose proof (Z.mod_pos_bound uval NBASE ltac:(done)) as Hm. set (q := uval / NBASE) in *. replace (uval - q * NBASE) with (uval mod NBASE) by lia.
  rewrite sN_small by (unfold in_s, NBASE in *; lia). destruct (Z.eqb_spec q 0) as [E0|E0].
  - exists [uval mod NBASE]. split_and!; [done|by apply Forall_cons|cbn [num]; change (zlen (@nil Z)) with 0; rewrite pow_base_0; lia|done].
  - assert (Hq : 0 < q < pow_base (Z.of_nat size)) by (split; [unfold NBASE in *; lia|apply Z.div_lt_upper_bound; [done|lia]]).
    destruct (IH q (uval mod NBASE :: res) Hq) as (new & -> & Hok & Hn & _). exists (new ++ [uval mod NBASE]). rewrite <- app_assoc. split_and!; [done|apply Forall_app; split; [done|by apply Forall_cons]| |by destruct new].
    rewrite num_snoc, Hn. lia.
Qed.

(** The variable is the integer [x]. *)
Record is_int (v : NumericVar) (x : Z) : Prop := {
  ii_ok : var_ok v;
  ii_dscale : dscale v = 0;
  ii_dec : forall K, 0 <= K -> fits v K /\ sdec v K = x * 10 ^ K }.

Lemma int_to_spec w size val : 0 < w -> - 2 ^ (w - 1) <= val < 2 ^ (w - 1) -> 2 ^ w <= pow_base (Z.of_nat size) -> exists v, int_to_numericvar w size val = Done v /\ is_int v val.
Proof.
  intros Hw Hv Hs. unfold int_to_numericvar. assert (H2 : 2 ^ w = 2 * 2 ^ (w - 1)) by (rewrite <- Z.pow_succ_r by lia; f_equal; lia). assert (Hp : 0 < 2 ^ (w - 1)) by (apply Z.pow_pos_nonneg; lia).
  assert (Hu : (if val <? 0 then uN w (- val) else val) = Z.abs val) by (destruct (Z.ltb_spec val 0); [rewrite uN_small by (unfold in_u; lia)|]; lia). rewrite Hu.
  set (sg := if val <? 0 then NUMERIC_NEG else NUMERIC_POS). assert (Hsg : sg = NUMERIC_POS \/ sg = NUMERIC_NEG) by (unfold sg; case_match; auto).
  destruct (Z.eqb_spec val 0) as [->|Hne].
  - eexists. split; [done|]. split; [split; [constructor|done]|done|]. intros K HK. split; [split; [done|]; change (0 <= 4 * 1 + K); lia|]. unfold sdec. rewrite no_digits_dec by done. lia.
  - destruct (uint_digits_spec size (Z.abs val) [] ltac:(lia)) as (ds & -> & Hok & Hn & _). runs. rewrite app_nil_r. eexists. split; [done|]. split; [by split|done|].
    intros K HK. set (v := MkVar _ _ _ _ _). assert (He : expo v = 0) by (unfold expo, ndigits, v; cbn [digits weight]; lia). split; [split; lia|]. unfold sdec, dec. rewrite He. change (digits v) with ds. rewrite Hn.
    change (sgn v) with (if sg =? NUMERIC_NEG then -1 else 1). unfold sg. replace (4 * 0 + K) with K by lia. destruct (Z.ltb_spec val 0); cbn; lia.
Qed.

(** ** To an integer *)

Lemma no_overflow_low w x : x <= PG_INT_MAX w -> no_overflow w x = if PG_INT_MIN w <=? x then Some x else None.
Proof. intros Hx. unfold no_overflow. rewrite (proj2 (Z.leb_le x _) Hx). by rewrite andb_true_r. Qed.

Lemma int_loop_spec n w i ds val : digits_ok ds -> 0 < w -> 0 <= i -> PG_INT_MIN w <= val <= 0 ->
  let r := val * pow_base (Z.of_nat n) - digit_run ds i n in int_loop n w i ds val = if PG_INT_MIN w <=? r then Some r else None.
Proof.
  intros Hok Hw. revert i val. induction n as [|n IH]; intros i val Hi Hv r; cbn [int_loop].
  { unfold r. cbn [digit_run]. change (pow_base (Z.of_nat 0)) with 1. rewrite Z.mul_1_r, Z.sub_0_r, (proj2 (Z.leb_le _ _)) by lia. done. }
  assert (Hmax : 0 <= PG_INT_MAX w) by (unfold PG_INT_MAX; assert (0 < 2 ^ (w - 1)) by (apply Z.pow_pos_nonneg; lia); lia).
  pose proof (pow_base_pos (Z.of_nat n) ltac:(lia)) as HP. pose proof (digit_at_ok ds i Hok) as Hd. unfold digit_ok in Hd.
  assert (Hrun : forall n i, 0 <= digit_run ds i n) by (clear -Hok; induction n as [|n IH]; intros i; cbn [digit_run]; [done|]; pose proof (digit_at_ok ds i Hok) as [? _]; pose proof (pow_base_pos (Z.of_nat n) ltac:(lia)); specialize (IH (i + 1)); nia).
  specialize (Hrun n (i + 1)). assert (Er : r = (val * NBASE - digit_at ds i) * pow_base (Z.of_nat n) - digit_run ds (i + 1) n).
  { unfold r. cbn [digit_run]. replace (Z.of_nat (S n)) with (1 + Z.of_nat n) by lia. rewrite pow_base_succ by lia. ring. }
  assert (HB : NBASE = 10000) by done. rewrite no_overflow_low by nia. destruct (Z.leb_spec (PG_INT_MIN w) (val * NBASE)) as [H1|H1]; sbind; [|rewrite (proj2 (Z.leb_gt (PG_INT_MIN w) r)) by (rewrite Er; nia); done].
  assert (Es : (if i <? zlen ds then no_overflow w (val * NBASE - digit_at ds i) else Some (val * NBASE)) = if PG_INT_MIN w <=? val * NBASE - digit_at ds i then Some (val * NBASE - digit_at ds i) else None).
  { destruct (Z.ltb_spec i (zlen ds)) as [Hl|Hl]; [apply no_overflow_low; nia|]. rewrite digit_at_out by lia. rewrite Z.sub_0_r. by rewrite (proj2 (Z.leb_le _ _)) by done. }
  rewrite Es. destruct (Z.leb_spec (PG_INT_MIN w) (val * NBASE - digit_at ds i)) as [H2|H2]; sbind; [|rewrite (proj2 (Z.leb_gt (PG_INT_MIN w) r)) by (rewrite Er; nia); done].
  rewrite IH by nia. rewrite <- Er. done.
Qed.

(** The answer for the number [x]: saturated when the overflow is ignored, but
    for the number one above the maximum. *)
Definition int_answer (w x : Z) (can_ignore : bool) : option Z :=
  if (PG_INT_MIN w <=? x) && (x <=? PG_INT_MAX w) then Some x
  else if can_ignore && negb (x =? PG_INT_MAX w + 1) then Some (if x <? 0 then PG_INT_MIN w else PG_INT_MAX w)
  else None.

(** What is promised: the number, or an error, or the nearest integer in the range. *)
Definition int_saturated (w x : Z) (can_ignore : bool) : option Z :=
  if (PG_INT_MIN w <=? x) && (x <=? PG_INT_MAX w) then Some x
  else if can_ignore then Some (Z.max (PG_INT_MIN w) (Z.min x (PG_INT_MAX w))) else None.

Lemma int_answer_saturated w x can_ignore : 0 < w -> (can_ignore = true -> x <> PG_INT_MAX w + 1) -> int_answer w x can_ignore = int_saturated w x can_ignore.
Proof.
  intros Hw Hx. unfold int_answer, int_saturated. assert (0 < 2 ^ (w - 1)) by (apply Z.pow_pos_nonneg; lia). unfold PG_INT_MIN, PG_INT_MAX in *.
  destruct can_ignore; [specialize (Hx eq_refl)|]; bool_cases; cbn; try done; try lia; f_equal; lia.
Qed.

Definition rounded_int (v : NumericVar) (K : Z) : Z := sgn v * nearest (dec v K) (10 ^ K).

Lemma to_int_spec w v can_ignore : 16 <= w -> var_ok v -> exists x, numericvar_to_int w v can_ignore = Done (int_answer w x can_ignore) /\ forall K, fits v K -> x = rounded_int v K.
Proof.
  intros Hw Hv. unfold numericvar_to_int. assert (Hv' : var_ok (set_var_from_var v)) by (by destruct Hv; split).
  destruct (round_spec (set_var_from_var v) 0 Hv' ltac:(by exists [])) as (r0 & -> & Hat). runs. destruct (strip_at_scale _ _ _ _ Hv' Hat) as (S1 & S2 & S3 & S4 & S5). set (r := strip_var r0) in *.
  assert (Hp : 2 ^ 15 <= 2 ^ (w - 1)) by (apply Z.pow_le_mono_r; lia). change (2 ^ 15) with 32768 in Hp.
  assert (Hx : forall K, fits v K -> sdec r K = rounded_int v K * 10 ^ K).
  { intros K HK. pose proof HK as [HK0 _]. unfold sdec. rewrite S5 by done. rewrite Z.sub_0_r. unfold rounded_int. rewrite Z.mul_assoc. done. }
  destruct (digits r) as [|d ds] eqn:Ed.
  { exists 0. split.
    - unfold int_answer. change (0 <? 0) with false. rewrite !(proj2 (Z.leb_le _ _)) by (unfold PG_INT_MIN, PG_INT_MAX; lia). done.
    - intros K HK. specialize (Hx K HK). unfold sdec in Hx. rewrite no_digits_dec in Hx by done. pose proof HK as [HK0 _]. pose proof (pow10_pos K HK0). nia. }
  destruct (some_fit v v) as (K0 & F0 & _). pose proof F0 as [HK0 _].
  assert (He : 0 <= expo r).
  { pose proof (normal_expo r 0 K0 (sgn r * rounded_int v K0) S2 S1 ltac:(lia) (S4 K0 F0)) as Hn. assert (- 0 - 3 <= 4 * expo r); [|lia]. apply Hn. rewrite Z.sub_0_r.
    rewrite <- Z.mul_assoc, <- (Hx K0 F0). unfold sdec. destruct (sgn_cases r) as [-> | ->]; lia. }
  pose proof S1 as [Hok Hsg]. assert (Hnd : ndigits r = 1 + zlen ds) by (unfold ndigits; by rewrite Ed, zlen_cons). pose proof (zlen_nonneg ds). unfold expo in He.
  rewrite !(proj2 (Z.leb_le _ _)) by lia. cbn [andb]. set (M := num (digits r) * pow_base (expo r)).
  assert (HM : forall K, fits v K -> sgn r * M = rounded_int v K).
  { intros K HK. pose proof HK as [HKn _]. pose proof (pow10_pos K HKn). apply (Z.mul_reg_r _ _ (10 ^ K)); [lia|]. rewrite <- (Hx K HK). unfold sdec, dec, M, expo. rewrite pow_base_dec by lia.
    rewrite Z.pow_add_r by lia. ring. }
  pose proof (Hok) as Hok'. rewrite Ed in Hok'. apply Forall_cons in Hok' as [Hd _]. unfold digit_ok, NBASE in Hd.
  rewrite <- Ed. rewrite int_loop_spec by (try done; unfold PG_INT_MIN; lia). cbn zeta. rewrite Z2Nat.id by lia.
  assert (HR : - d * pow_base (weight r) - digit_run (digits r) 1 (Z.to_nat (weight r)) = - M).
  { pose proof (prefix_run (digits r) 1 (Z.to_nat (weight r))) as Hpr. rewrite Z2Nat.id in Hpr by lia. rewrite (prefix_all _ (1 + weight r)) in Hpr by (unfold ndigits in *; lia).
    rewrite (prefix_step _ 1) in Hpr. change (1 - 1) with 0 in Hpr. rewrite prefix_0 in Hpr. replace (digit_at (digits r) 0) with d in Hpr by (by rewrite Ed).
    unfold M, expo, ndigits. replace (weight r + 1 - zlen (digits r)) with (1 + weight r - zlen (digits r)) by lia. lia. }
  rewrite HR. assert (HM0 : 0 < M) by (unfold M; rewrite Ed; pose proof (num_head_pos d ds ltac:(by rewrite <- Ed) ltac:(by apply (no_head _ S2 d ds))); pose proof (pow_base_pos (expo r) ltac:(unfold expo; lia)); nia).
  exists (sgn r * M). split; [|done]. unfold int_answer, PG_INT_MIN, PG_INT_MAX. set (B := 2 ^ (w - 1)) in *.
  destruct Hsg as [Es|Es]; rewrite Es; [rewrite (sgn_pos r Es)|rewrite (sgn_neg r Es)]; cbn [Z.eqb NUMERIC_NEG NUMERIC_POS Pos.eqb]; bool_cases; destruct can_ignore; cbn; try lia; try done; f_equal; f_equal; lia.
Qed.

(** ** 32 bits *)

Definition int32_answer (x : Z) (can_ignore : bool) : run Z :=
  if (PG_INT_MIN 32 <=? x) && (x <=? PG_INT_MAX 32) then Done x
  else if can_ignore && negb (x =? PG_INT_MAX 64 + 1) then Done (if x <? 0 then PG_INT_MIN 32 else PG_INT_MAX 32)
  else Report ERRCODE_NUMERIC_VALUE_OUT_OF_RANGE.

Lemma int32_answer_saturated x can_ignore : (can_ignore = true -> x <> PG_INT_MAX 64 + 1) ->
  int32_answer x can_ignore = match int_saturated 32 x can_ignore with Some y => Done y | None => Report ERRCODE_NUMERIC_VALUE_OUT_OF_RANGE end.
Proof.
  intros Hx. unfold int32_answer, int_saturated. destruct can_ignore; [specialize (Hx eq_refl)|]; unfold PG_INT_MIN, PG_INT_MAX in *; change (2 ^ (64 - 1) - 1 + 1) with (2 ^ 63) in *; change (2 ^ (32 - 1)) with (2 ^ 31) in *.
  all: bool_cases; cbn [andb negb]; try done; try lia; f_equal; lia.
Qed.

Lemma to_int32_spec v can_ignore : var_ok v -> exists x, numericvar_to_int32 v can_ignore = int32_answer x can_ignore /\ forall K, fits v K -> x = rounded_int v K.
Proof.
  intros Hv. unfold numericvar_to_int32, numericvar_to_int64. destruct (to_int_spec 64 v can_ignore ltac:(done) Hv) as (x & -> & Hx). runs. exists x. split; [|done].
  assert (Hs : forall y, - 2 ^ 31 <= y < 2 ^ 31 -> s32 y = y) by (intros y Hy; by apply sN_small). assert (Hr : forall y, - 2 ^ 31 <= s32 y < 2 ^ 31) by (intros y; exact (sN_range 32 y ltac:(done))).
  unfold int_answer, int32_answer, PG_INT_MIN, PG_INT_MAX, INT_MAX in *. change (64 - 1) with 63. change (32 - 1) with 31.
  destruct (Z.leb_spec (- 2 ^ 63) x), (Z.leb_spec x (2 ^ 63 - 1)); cbn [andb].
  - destruct (Z.leb_spec (- 2 ^ 31) x), (Z.leb_spec x (2 ^ 31 - 1)); cbn [andb].
    all: destruct can_ignore; cbn [andb]; bool_cases; cbn; try lia; try done; try (rewrite Hs in * by lia; done); try (pose proof (Hr x); lia).
  - rewrite (proj2 (Z.leb_gt x (2 ^ 31 - 1))) by lia. rewrite andb_false_r. destruct can_ignore; cbn [andb]; [|done]. destruct (Z.eqb_spec x (2 ^ 63 - 1 + 1)); cbn; [done|].
    rewrite (proj2 (Z.ltb_ge x 0)) by lia. done.
  - rewrite (proj2 (Z.leb_gt (- 2 ^ 31) x)) by lia. cbn [andb]. destruct can_ignore; cbn [andb]; [|done]. rewrite (proj2 (Z.eqb_neq x (2 ^ 63 - 1 + 1))) by lia. cbn. rewrite (proj2 (Z.ltb_lt x 0)) by lia. done.
  - lia.
Qed.

(** A converted integer comes back. *)
Lemma int_roundtrip w size val can_ignore : 16 <= w -> - 2 ^ (w - 1) <= val < 2 ^ (w - 1) -> 2 ^ w <= pow_base (Z.of_nat size) ->
  exists v, int_to_numericvar w size val = Done v /\ is_int v val /\ numericvar_to_int w v can_ignore = Done (Some val).
Proof.
  intros Hw Hv Hs. destruct (int_to_spec w size val ltac:(lia) Hv Hs) as (v & -> & Hi). exists v. split; [done|]. split; [done|]. destruct Hi as [Hok _ Hd].
  destruct (to_int_spec w v can_ignore Hw Hok) as (x & -> & Hx). destruct (Hd 0 ltac:(done)) as [F0 E0]. specialize (Hx 0 F0). change (10 ^ 0) with 1 in *.
  assert (Ex : x = val) by (rewrite Hx; unfold rounded_int; change (10 ^ 0) with 1; rewrite <- (Z.mul_1_r (dec v 0)), nearest_exact by done; unfold sdec in E0; lia).
  rewrite Ex. unfold int_answer, PG_INT_MIN, PG_INT_MAX. rewrite !(proj2 (Z.leb_le _ _)) by lia. done.
Qed.
