(* ===== verification/NumericPack.v ===== *)
(** The stored form of a number (Numeric.v): what [make_result] packs,
    [init_var_from_num] unpacks, and what does not fit is an error. *)
From S2P Require Import Prelude Numeric NumericVal NumericOps.
From stdpp Require Import list.
#[local] Open Scope Z_scope.

(** ** The header *)

Definition short_header (sg scale w : Z) : Z :=
  u16 (Z.lor (Z.lor (Z.lor (if sg =? NUMERIC_NEG then Z.lor NUMERIC_SHORT NUMERIC_SHORT_SIGN_MASK else NUMERIC_SHORT)
                       (Z.shiftl scale NUMERIC_SHORT_DSCALE_SHIFT))
                (if w <? 0 then NUMERIC_SHORT_WEIGHT_SIGN_MASK else 0))
         (Z.land w NUMERIC_SHORT_WEIGHT_MASK)).
Definition long_header (sg scale : Z) : Z := u16 (Z.lor sg (Z.land scale NUMERIC_DSCALE_MASK)).

(** What the accessors find in a header. *)
Definition short_fields (h : Z) : bool * bool * Z * Z * Z :=
  (NUMERIC_HEADER_IS_SHORT h, NUMERIC_NAN <? Z.land h NUMERIC_BI_MASK, if Z.land h NUMERIC_SHORT_SIGN_MASK =? 0 then NUMERIC_POS else NUMERIC_NEG,
   Z.shiftr (Z.land h NUMERIC_SHORT_DSCALE_MASK) NUMERIC_SHORT_DSCALE_SHIFT,
   Z.lor (if Z.land h NUMERIC_SHORT_WEIGHT_SIGN_MASK =? 0 then 0 else Z.lnot NUMERIC_SHORT_WEIGHT_MASK) (Z.land h NUMERIC_SHORT_WEIGHT_MASK)).
Definition long_fields (h : Z) : bool * bool * Z * Z :=
  (NUMERIC_HEADER_IS_SHORT h, NUMERIC_NAN <? Z.land h NUMERIC_BI_MASK, Z.land h NUMERIC_SIGN_MASK, Z.land h NUMERIC_DSCALE_MASK).

Definition zrange (lo : Z) (n : nat) : list Z := (fun i => lo + Z.of_nat i) <$> seq 0 n.

Lemma zrange_in lo n x : lo <= x < lo + Z.of_nat n -> In x (zrange lo n).
Proof. intros Hx. apply in_map_iff. exists (Z.to_nat (x - lo)). split; [lia|]. apply in_seq. lia. Qed.

Lemma short_table : forallb (fun sg => forallb (fun scale => forallb (fun w => bool_decide (short_fields (short_header sg scale w) = (true, false, sg, scale, w)))
  (zrange (-64) 128)) (zrange 0 64)) [NUMERIC_POS; NUMERIC_NEG] = true.
Proof. by vm_compute. Qed.

Lemma long_table : forallb (fun sg => forallb (fun scale => bool_decide (long_fields (long_header sg scale) = (false, false, sg, scale)))
  (zrange 0 (Z.to_nat 16384))) [NUMERIC_POS; NUMERIC_NEG] = true.
Proof. by vm_compute. Qed.

Lemma sign_in sg : sg = NUMERIC_POS \/ sg = NUMERIC_NEG -> In sg [NUMERIC_POS; NUMERIC_NEG].
Proof. intros [-> | ->]; cbn; auto. Qed.

Lemma short_header_ok sg scale w : sg = NUMERIC_POS \/ sg = NUMERIC_NEG -> 0 <= scale <= 63 -> -64 <= w <= 63 -> short_fields (short_header sg scale w) = (true, false, sg, scale, w).
Proof.
  intros Hs Hd Hw. pose proof short_table as Ht. rewrite forallb_forall in Ht. specialize (Ht sg (sign_in sg Hs)). rewrite forallb_forall in Ht. specialize (Ht scale (zrange_in 0 64 scale ltac:(lia))).
  rewrite forallb_forall in Ht. specialize (Ht w (zrange_in (-64) 128 w ltac:(lia))). by apply bool_decide_eq_true in Ht.
Qed.

Lemma long_header_ok sg scale : sg = NUMERIC_POS \/ sg = NUMERIC_NEG -> long_fields (long_header sg scale) = (false, false, sg, scale mod 2 ^ 14).
Proof.
  intros Hs. pose proof (Z.mod_pos_bound scale (2 ^ 14) ltac:(done)) as Hm. assert (long_header sg scale = long_header sg (scale mod 2 ^ 14)) as ->.
  { unfold long_header. do 2 f_equal. change NUMERIC_DSCALE_MASK with (Z.ones 14). rewrite !Z.land_ones by done. by rewrite Z.mod_mod. }
  pose proof long_table as Ht. rewrite forallb_forall in Ht. specialize (Ht sg (sign_in sg Hs)). rewrite forallb_forall in Ht.
  assert (Hin : In (scale mod 2 ^ 14) (zrange 0 (Z.to_nat 16384))) by (apply zrange_in; lia). specialize (Ht _ Hin). by apply bool_decide_eq_true in Ht.
Qed.

(** ** Packing *)

Lemma strip_leading_room ds w rm : strip_leading ds w rm = (fst (fst (strip_leading ds w [])), snd (fst (strip_leading ds w [])), snd (strip_leading ds w rm)).
Proof.
  revert w rm. assert (H : forall w rm rm', fst (strip_leading ds w rm) = fst (strip_leading ds w rm')).
  { induction ds as [|d ds IH]; intros w rm rm'; cbn; [done|]. by case_match. }
  intros w rm. rewrite (H w [] rm). by destruct (strip_leading ds w rm) as [[? ?] ?].
Qed.

(** The variable on the words of a stored number. *)
Definition unpacked (v : NumericVar) : NumericVar := MkVar (digits v) (weight v) (sign v) (dscale v) [].

Lemma short_unpack sg scale w ds : sg = NUMERIC_POS \/ sg = NUMERIC_NEG -> 0 <= scale <= 63 -> -64 <= w <= 63 -> let num := short_header sg scale w :: ds in
  NUMERIC_WEIGHT num = Done w /\ NUMERIC_DSCALE num = Done scale /\ init_var_from_num num = Done (MkVar ds w sg scale []).
Proof.
  intros Hs Hd Hw num. pose proof (short_header_ok sg scale w Hs Hd Hw) as Hf. unfold short_fields in Hf. injection Hf as F1 F2 F3 F4 F5.
  unfold num, init_var_from_num, NUMERIC_IS_BI, NUMERIC_WEIGHT, NUMERIC_DSCALE, NUMERIC_SIGN, NUMERIC_DIGITS, n_header. cbn [lookup list_lookup]. runs. rewrite F1, F2, F3, F4, F5. done.
Qed.

Lemma long_unpack sg scale w ds : sg = NUMERIC_POS \/ sg = NUMERIC_NEG -> let num := long_header sg scale :: s16 w :: ds in
  NUMERIC_WEIGHT num = Done (s16 w) /\ NUMERIC_DSCALE num = Done (scale mod 2 ^ 14) /\ init_var_from_num num = Done (MkVar ds (s16 w) sg (scale mod 2 ^ 14) []).
Proof.
  intros Hs num. pose proof (long_header_ok sg scale Hs) as Hf. unfold long_fields in Hf. injection Hf as F1 F2 F3 F4.
  unfold num, init_var_from_num, NUMERIC_IS_BI, NUMERIC_WEIGHT, NUMERIC_DSCALE, NUMERIC_SIGN, NUMERIC_DIGITS, n_header. cbn [lookup list_lookup]. runs. rewrite F1, F2, F3, F4. done.
Qed.

(** A display scale of 14 bits and a weight of 16. *)
Definition storable (v : NumericVar) : bool := (dscale v <=? 0x3FFF) && (- 2 ^ 15 <=? weight v) && (weight v <? 2 ^ 15).

Lemma make_result_spec v : var_ok v -> 0 <= dscale v ->
  if storable (strip_var v) then exists num, make_result v = Done num /\ init_var_from_num num = Done (unpacked (strip_var v))
  else make_result v = Report ERRCODE_NUMERIC_VALUE_OUT_OF_RANGE.
Proof.
  intros Hv Hd. pose proof (strip_spec v Hv) as [[Hok Hsg] _ _ _ _ _ _]. unfold make_result. rewrite (proj2 (Z.eqb_neq (sign v) NUMERIC_NAN)) by (destruct Hv as [_ [-> | ->]]; done).
  unfold strip_var in *. rewrite (strip_leading_room _ _ (room v)) in *. destruct (strip_leading (digits v) (weight v) []) as [[ds0 w0] rm0]. cbn [fst snd] in *. set (rm := snd _) in *.
  set (w := match strip_trailing ds0 with [] => 0 | _ => w0 end). set (sg := match strip_trailing ds0 with [] => NUMERIC_POS | _ => sign v end). set (ds := strip_trailing ds0) in *.
  assert (Et : match ds with [] => MkVar [] 0 NUMERIC_POS (dscale v) rm | z :: l => MkVar (z :: l) w0 (sign v) (dscale v) rm end = MkVar ds w sg (dscale v) rm) by (unfold w, sg; by destruct ds).
  assert (Ews : (match ds with [] => (0, NUMERIC_POS) | _ => (w0, sign v) end) = (w, sg)) by (unfold w, sg; by destruct ds).
  assert (Hsg' : sg = NUMERIC_POS \/ sg = NUMERIC_NEG) by (unfold sg; destruct ds; [by left|apply Hv]).
  rewrite Ews. clear Hok Hsg. rewrite Et.
  unfold storable, unpacked. cbn [digits weight sign dscale]. fold (short_header sg (dscale v) w) (long_header sg (dscale v)).
  destruct (NUMERIC_CAN_BE_SHORT (dscale v) w) eqn:Eshort.
  - unfold NUMERIC_CAN_BE_SHORT in Eshort. apply andb_true_iff in Eshort as [[E1%Z.leb_le E2%Z.leb_le]%andb_true_iff E3%Z.leb_le]. change NUMERIC_SHORT_DSCALE_MAX with 63 in E1.
    change NUMERIC_SHORT_WEIGHT_MAX with 63 in E2. change NUMERIC_SHORT_WEIGHT_MIN with (-64) in E3. destruct (short_unpack sg (dscale v) w ds Hsg' ltac:(lia) ltac:(lia)) as (-> & -> & Ei). runs.
    rewrite !Z.eqb_refl. cbn [negb orb]. rewrite (proj2 (Z.leb_le (dscale v) 16383)), (proj2 (Z.leb_le (- 2 ^ 15) w)), (proj2 (Z.ltb_lt w (2 ^ 15))) by lia. cbn [andb]. by eexists.
  - destruct (long_unpack sg (dscale v) w ds Hsg') as (-> & -> & Ei). runs. pose proof (sN_range 16 w ltac:(done)) as Hr. unfold in_s in Hr. change (2 ^ (16 - 1)) with (2 ^ 15) in Hr.
    pose proof (Z.mod_pos_bound (dscale v) (2 ^ 14) ltac:(done)) as Hm.
    destruct ((dscale v <=? 16383) && (- 2 ^ 15 <=? w) && (w <? 2 ^ 15)) eqn:Es.
    + apply andb_true_iff in Es as [[E1%Z.leb_le E2%Z.leb_le]%andb_true_iff E3%Z.ltb_lt]. rewrite sN_small in Ei |- * by (unfold in_s; lia). rewrite Z.mod_small in Ei |- * by lia.
      rewrite !Z.eqb_refl. cbn [negb orb]. by eexists.
    + destruct (Z.eqb_spec (s16 w) w) as [Ew|Ew]; [|done]. destruct (Z.eqb_spec (dscale v mod 2 ^ 14) (dscale v)) as [Edd|Edd]; [|done]. exfalso.
      rewrite (proj2 (Z.leb_le (dscale v) 16383)), (proj2 (Z.leb_le (- 2 ^ 15) w)), (proj2 (Z.ltb_lt w (2 ^ 15))) in Es by lia. done.
Qed.
