(* ===== verification/NumericSpec.v ===== *)
(** What the arithmetic of numeric computes, over the rationals: a variable stands
    for [value], every operation gives the number that mathematics says, exact or
    rounded at the scale asked for, with its display scale. *)
From Stdlib Require Import QArith Qround Qpower Qabs.
From S2P Require Import Prelude Numeric NumericVal NumericArr NumericSum NumericAccum NumericMul NumericDiv NumericKnuth NumericOps NumericInt NumericPack.
From stdpp Require Import list.
#[local] Open Scope Z_scope.

(** ** Rationals *)

Definition ten (s : Z) : Q := Qpower (10 # 1) s.

Definition truncate (q : Q) : Z := if Qle_bool 0 q then Qfloor q else - Qfloor (- q).
(** To the nearest, ties away from zero. *)
Definition half_away (q : Q) : Z := if Qle_bool 0 q then Qfloor (q + (1 # 2)) else - Qfloor (- q + (1 # 2)).
(** A number at a scale. *)
Definition at_digit (f : Q -> Z) (q : Q) (s : Z) : Q := (inject_Z (f (q * ten s)) / ten s)%Q.

Lemma ten_pos s : Qlt 0 (ten s).
Proof. by apply Qpower_0_lt. Qed.
Lemma ten_neq s : ~ ten s == 0.
Proof. intros E. pose proof (ten_pos s) as Hp. rewrite E in Hp. by apply Qlt_irrefl in Hp. Qed.
Lemma ten_plus a b : ten (a + b) == (ten a * ten b)%Q.
Proof. by apply Qpower_plus. Qed.
Lemma ten_Z n : 0 <= n -> ten n == inject_Z (10 ^ n).
Proof. intros Hn. unfold ten. symmetry. by apply (Zpower_Qpower 10). Qed.
Lemma ten_opp s : (ten s * ten (- s))%Q == 1.
Proof. rewrite <- ten_plus. by rewrite Z.add_opp_diag_r. Qed.

Lemma value_ten v : value v == (inject_Z (sgn v * num (digits v)) * ten (4 * expo v))%Q.
Proof.
  unfold value, ten. apply Qmult_comp; [done|]. rewrite Qpower_mult. apply Qpower_comp; [|done]. done.
Qed.

(** A number in units of 10^-K. *)
Lemma value_units v K : fits v K -> value v == (inject_Z (sdec v K) * ten (- K))%Q.
Proof.
  intros [H1 H2]. rewrite value_ten. unfold sdec, dec. pose proof (ten_Z (4 * expo v + K) H2) as E. rewrite Z.mul_assoc, (inject_Z_mult _ (10 ^ _)), <- E.
  rewrite <- Qmult_assoc, <- ten_plus. replace (4 * expo v + K + - K) with (4 * expo v) by lia. done.
Qed.

Lemma floor_units a b : 0 < b -> Qfloor (inject_Z a / inject_Z b) = a / b.
Proof.
  intros Hb. destruct b as [|b|b]; [done| |done]. rewrite <- (Qfloor_comp (a # b) _); [done|]. apply Qmake_Qdiv.
Qed.

Lemma nearest_floor a b : 0 < b -> Qfloor (inject_Z a / inject_Z b + (1 # 2)) = nearest a b.
Proof.
  intros Hb. unfold nearest. rewrite <- floor_units by lia. apply Qfloor_comp. rewrite inject_Z_plus, !inject_Z_mult. change (inject_Z 2) with (2 # 1). field. intros E. change 0%Q with (inject_Z 0) in E. rewrite inject_Z_injective in E. lia.
Qed.

(** ** Rounding of signed fractions *)

#[local] Instance half_away_proper : Proper (Qeq ==> eq) half_away.
Proof. intros q q' E. unfold half_away. rewrite E. by destruct (Qle_bool 0 q'); [apply Qfloor_comp; rewrite E|f_equal; apply Qfloor_comp; rewrite E]. Qed.
#[local] Instance truncate_proper : Proper (Qeq ==> eq) truncate.
Proof. intros q q' E. unfold truncate. rewrite E. by destruct (Qle_bool 0 q'); [apply Qfloor_comp|f_equal; apply Qfloor_comp; rewrite E]. Qed.
#[local] Instance at_digit_half : Proper (Qeq ==> eq ==> Qeq) (at_digit half_away).
Proof. intros q q' E s _ <-. unfold at_digit. by rewrite E. Qed.
#[local] Instance at_digit_truncate : Proper (Qeq ==> eq ==> Qeq) (at_digit truncate).
Proof. intros q q' E s _ <-. unfold at_digit. by rewrite E. Qed.

Definition mode (round : bool) : Q -> Z := if round then half_away else truncate.

Lemma frac_nonneg A C : 0 <= A -> 0 < C -> (0 <= inject_Z A / inject_Z C)%Q.
Proof.
  intros HA HC. destruct C as [|c|c]; [done| |done]. rewrite <- Qmake_Qdiv. unfold Qle. cbn. lia.
Qed.

Lemma frac_zero C : (inject_Z 0 / inject_Z C)%Q == 0.
Proof. unfold Qdiv. by rewrite Qmult_0_l. Qed.

Lemma mode_frac round sg A C : 0 <= A -> 0 < C -> sg = 1 \/ sg = -1 -> mode round (inject_Z sg * (inject_Z A / inject_Z C))%Q = sg * rounding round A C.
Proof.
  intros HA HC Hs. pose proof (frac_nonneg A C HA HC) as Hq. set (q := (inject_Z A / inject_Z C)%Q) in *.
  assert (Hpos : mode round q = rounding round A C).
  { destruct round; cbn [mode rounding]; unfold half_away, truncate; rewrite (proj2 (Qle_bool_iff 0 q) Hq); [by apply nearest_floor|by apply floor_units]. }
  destruct Hs as [-> | ->].
  - rewrite Z.mul_1_l, <- Hpos. destruct round; cbn [mode]; change (inject_Z 1) with 1%Q; by rewrite Qmult_1_l.
  - rewrite <- Hpos. assert (En : (inject_Z (-1) * q)%Q == (- q)%Q) by (unfold Qeq; cbn; lia). destruct (Qle_bool 0 (- q)%Q) eqn:Eb.
    + assert (Hz : q == 0).
      { apply Qle_bool_iff in Eb. apply Qle_antisym; [|done]. clearbody q. revert Eb. unfold Qle. destruct q as [a b]. cbn. lia. }
      destruct round; cbn [mode]; rewrite En, Hz; done.
    + destruct round; cbn [mode]; rewrite En; unfold half_away, truncate; rewrite Eb, (proj2 (Qle_bool_iff 0 q) Hq), Qopp_involutive; lia.
Qed.

(** A number whose units are a rounded fraction. *)
Lemma value_at_digit round r rscale K sg A C q : fits r K -> rscale <= K -> 0 <= A -> 0 < C -> sg = 1 \/ sg = -1 -> q == (inject_Z sg * (inject_Z A / inject_Z C))%Q ->
  sdec r K = sg * rounding round A C * 10 ^ (K - rscale) -> value r == (inject_Z (mode round q) * ten (- rscale))%Q.
Proof.
  intros Hf HK HA HC Hs Hq Hr. rewrite (value_units r K Hf), Hr. assert (Em : mode round q = sg * rounding round A C) by (rewrite <- mode_frac by done; destruct round; cbn [mode]; by rewrite Hq).
  rewrite Em, inject_Z_mult. pose proof (ten_Z (K - rscale) ltac:(lia)) as E. rewrite <- E, <- Qmult_assoc, <- ten_plus. by replace (K - rscale + - K) with (- rscale) by lia.
Qed.

Lemma at_digit_ten f q s : at_digit f q s == (inject_Z (f (q * ten s)%Q) * ten (- s))%Q.
Proof. unfold at_digit, Qdiv. apply Qmult_comp; [done|]. pose proof (ten_opp s) as E. pose proof (ten_neq s) as Hn. rewrite <- (Qmult_1_l (/ ten s)), <- E. field. done. Qed.

(** ** The numbers of the results *)

Lemma sum_value r v1 v2 scale sg : numeric_ok v1 -> numeric_ok v2 -> is_num r scale (both_fit v1 v2) (fun K => sdec v1 K + sg * sdec v2 K) ->
  value r == (value v1 + inject_Z sg * value v2)%Q.
Proof.
  intros H1 H2 [R1 R2 R3 R4]. destruct (some_fit v1 v2) as (K & F1 & F2). rewrite (value_units r K (R3 K (conj F1 F2))), (value_units v1 K F1), (value_units v2 K F2), (R4 K (conj F1 F2)).
  rewrite inject_Z_plus, inject_Z_mult. ring.
Qed.

Lemma units_quotient v1 v2 K : fits v1 K -> fits v2 K -> 0 < num (digits v2) ->
  (value v1 / value v2)%Q == (inject_Z (sgn v1 * sgn v2) * (inject_Z (dec v1 K) / inject_Z (dec v2 K)))%Q.
Proof.
  intros F1 F2 Hp. rewrite (value_units v1 K F1), (value_units v2 K F2). unfold sdec. rewrite !inject_Z_mult. pose proof (dec_pos v2 K F2 Hp) as Hd. pose proof (ten_neq (- K)) as Ht.
  assert (Hn : ~ inject_Z (dec v2 K) == 0) by (intros E; change 0%Q with (inject_Z 0) in E; rewrite inject_Z_injective in E; lia).
  destruct (sgn_cases v2) as [-> | ->]; field; auto.
Qed.

Lemma quotient_value round v1 v2 rscale r : var_ok v1 -> var_ok v2 -> 0 <= rscale -> 0 < num (digits v2) -> quotient (rounding round) v1 v2 rscale r ->
  value r == at_digit (mode round) (value v1 / value v2)%Q rscale.
Proof.
  intros H1 H2 Hr Hp [Q1 Q2 Q3 Q4 Q5]. destruct (some_fit v1 v2) as (K & F1 & F2). rewrite at_digit_ten. pose proof (dec_nonneg v1 K ltac:(apply H1)) as Hd1. pose proof (dec_pos v2 K F2 Hp) as Hd2. pose proof (pow10_pos rscale Hr).
  apply (value_at_digit round r rscale (rscale + 3) (sgn v1 * sgn v2) (dec v1 K * 10 ^ rscale) (dec v2 K)); [apply Q4; lia|lia|nia|done| | |].
  - destruct (sgn_cases v1) as [-> | ->], (sgn_cases v2) as [-> | ->]; auto.
  - rewrite (units_quotient v1 v2 K F1 F2 Hp), (inject_Z_mult (dec v1 K)). pose proof (ten_Z rscale Hr) as E. rewrite <- E. unfold Qdiv. ring.
  - unfold sdec. rewrite (Q5 K (rscale + 3) F1 F2 ltac:(lia)). ring.
Qed.

Lemma product_value v1 v2 rscale r : var_ok v1 -> var_ok v2 -> product v1 v2 rscale r -> value r == at_digit half_away (value v1 * value v2)%Q rscale.
Proof.
  intros H1 H2 [P1 P2 P3 P4 P5]. set (K1 := Z.max (Z.max 0 (- 4 * expo v1)) rscale). set (K2 := Z.max 0 (- 4 * expo v2)). assert (F1 : fits v1 K1) by (split; lia). assert (F2 : fits v2 K2) by (split; lia).
  rewrite at_digit_ten. pose proof (dec_nonneg v1 K1 ltac:(apply H1)) as Hd1. pose proof (dec_nonneg v2 K2 ltac:(apply H2)) as Hd2. pose proof (pow10_pos (K1 + K2 - rscale) ltac:(lia)) as Hu.
  apply (value_at_digit true r rscale (K1 + K2) (sgn v1 * sgn v2) (dec v1 K1 * dec v2 K2) (10 ^ (K1 + K2 - rscale))); [by apply P4|lia|nia|done| | |].
  - destruct (sgn_cases v1) as [-> | ->], (sgn_cases v2) as [-> | ->]; auto.
  - rewrite (value_units v1 K1 F1), (value_units v2 K2 F2). unfold sdec. rewrite !inject_Z_mult. pose proof (ten_Z (K1 + K2 - rscale) ltac:(lia)) as E. rewrite <- E.
    pose proof (ten_neq (K1 + K2 - rscale)). replace rscale with (K1 + (K2 + - (K1 + K2 - rscale))) at 1 by lia. rewrite !ten_plus.
    pose proof (ten_opp K1) as E1. pose proof (ten_opp K2) as E2. pose proof (ten_opp (K1 + K2 - rscale)) as E3.
    transitivity (inject_Z (sgn v1) * inject_Z (sgn v2) * inject_Z (dec v1 K1) * inject_Z (dec v2 K2) * (ten K1 * ten (- K1)) * (ten K2 * ten (- K2)) * ten (- (K1 + K2 - rscale)))%Q; [ring|].
    rewrite E1, E2. transitivity (inject_Z (sgn v1) * inject_Z (sgn v2) * inject_Z (dec v1 K1) * inject_Z (dec v2 K2) * (ten (K1 + K2 - rscale) * ten (- (K1 + K2 - rscale))) / ten (K1 + K2 - rscale))%Q; [field; done|].
    rewrite E3. field. done.
  - unfold sdec. rewrite (P5 K1 K2 F1 F2 ltac:(lia)). cbn [rounding]. ring.
Qed.

Lemma at_scale_value round v rscale r : var_ok v -> at_scale (rounding round) v rscale r -> value r == at_digit (mode round) (value v) rscale.
Proof.
  intros Hv [A1 A2 A3 A4 A5]. set (K := Z.max (Z.max 0 (- 4 * expo v)) rscale). assert (F : fits v K) by (split; lia). rewrite at_digit_ten.
  apply (value_at_digit round r rscale K (sgn v) (dec v K) (10 ^ (K - rscale))); [by apply A3|lia|apply dec_nonneg, Hv|apply pow10_pos; lia|apply sgn_cases| |].
  - rewrite (value_units v K F). unfold sdec. rewrite inject_Z_mult. pose proof (ten_Z (K - rscale) ltac:(lia)) as E. rewrite <- E. replace (- K) with (- (K - rscale) + - rscale) by lia. rewrite ten_plus.
    pose proof (ten_neq (K - rscale)). pose proof (ten_opp (K - rscale)) as E1. pose proof (ten_opp rscale) as E2.
    transitivity (inject_Z (sgn v) * inject_Z (dec v K) * ten (- (K - rscale)) * (ten rscale * ten (- rscale)))%Q; [ring|]. rewrite E2.
    transitivity (inject_Z (sgn v) * inject_Z (dec v K) * (ten (K - rscale) * ten (- (K - rscale))) / ten (K - rscale))%Q; [field; done|]. rewrite E1. field. done.
  - unfold sdec. rewrite <- Z.mul_assoc. apply signed_eq; [intros Hne; unfold sgn; by rewrite A5|]. rewrite A4 by (done || lia). done.
Qed.

Lemma cmp_value v1 v2 K : fits v1 K -> fits v2 K -> cmp_result (sdec v1 K) (sdec v2 K) = match (value v1 ?= value v2)%Q with Lt => -1 | Eq => 0 | Gt => 1 end.
Proof.
  intros F1 F2. rewrite (value_units v1 K F1), (value_units v2 K F2). unfold cmp_result. pose proof (ten_pos (- K)) as Ht.
  assert (E : (inject_Z (sdec v1 K) * ten (- K) ?= inject_Z (sdec v2 K) * ten (- K))%Q = (sdec v1 K ?= sdec v2 K)); [|by rewrite E].
  destruct (Z.compare_spec (sdec v1 K) (sdec v2 K)) as [-> |Hl|Hl].
  - by apply Qeq_alt.
  - apply Qlt_alt. apply Qmult_lt_compat_r; [done|]. by rewrite <- Zlt_Qlt.
  - apply Qgt_alt. apply Qmult_lt_compat_r; [done|]. by rewrite <- Zlt_Qlt.
Qed.

(** A whole number of units. *)
Lemma whole_value r K x : fits r K -> sdec r K = x * 10 ^ K -> value r == inject_Z x.
Proof.
  intros F E. pose proof F as [HK _]. rewrite (value_units r K F), E, inject_Z_mult. pose proof (ten_Z K HK) as Et. pose proof (ten_opp K) as Eo. rewrite <- Et, <- Qmult_assoc, Eo. apply Qmult_1_r.
Qed.

Lemma value_frac v K : fits v K -> value v == (inject_Z (sdec v K) / inject_Z (10 ^ K))%Q.
Proof.
  intros F. pose proof F as [HK _]. rewrite (value_units v K F). pose proof (ten_Z K HK) as E. rewrite <- E. pose proof (ten_opp K) as Eo. pose proof (ten_neq K). unfold Qdiv. apply Qmult_comp; [done|].
  rewrite <- (Qmult_1_l (/ ten K)), <- Eo. field. done.
Qed.

Lemma floor_value v K : fits v K -> Qfloor (value v) = sdec v K / 10 ^ K.
Proof. intros F. rewrite <- (floor_units _ (10 ^ K)) by (apply pow10_pos, F). apply Qfloor_comp. by apply value_frac. Qed.

Lemma ceiling_value v K : fits v K -> Qceiling (value v) = - (- sdec v K / 10 ^ K).
Proof.
  intros F. unfold Qceiling. f_equal. rewrite <- (floor_units _ (10 ^ K)) by (apply pow10_pos, F). apply Qfloor_comp. rewrite (value_frac v K F), inject_Z_opp. unfold Qdiv. ring.
Qed.

Lemma rounded_value v K : var_ok v -> fits v K -> rounded_int v K = half_away (value v).
Proof.
  intros Hv F. unfold rounded_int. pose proof (mode_frac true (sgn v) (dec v K) (10 ^ K) (dec_nonneg v K ltac:(apply Hv)) ltac:(apply pow10_pos, F) (sgn_cases v)) as E. cbn [mode rounding] in E. rewrite <- E.
  rewrite (value_frac v K F). unfold sdec. rewrite inject_Z_mult. unfold Qdiv. by rewrite Qmult_assoc.
Qed.

Definition value_total (vs : list NumericVar) : Q := foldr (fun v s => value v + s)%Q 0%Q vs.

Lemma some_all_fit vs : exists K, all_fit vs K.
Proof.
  unfold all_fit. induction vs as [|v vs (K & HK & IH)]; [by exists 0|]. exists (Z.max K (- 4 * expo v)). split; [lia|]. constructor; [split; lia|].
  eapply Forall_impl; [exact IH|]. intros w Hw. cbn in Hw. by apply (fits_le w K); [|lia].
Qed.

Lemma total_units vs K : all_fit vs K -> value_total vs == (inject_Z (sum_of vs K) * ten (- K))%Q.
Proof.
  intros [HK Hf]. unfold value_total, sum_of. induction Hf as [|v vs F _ IH]; cbn [foldr]; [by rewrite Qmult_0_l|]. rewrite IH, (value_units v K F), inject_Z_plus. unfold sdec. ring.
Qed.

Lemma all_fit_le vs K K' : all_fit vs K -> K <= K' -> all_fit vs K'.
Proof. intros [HK Hf] Hle. split; [lia|]. eapply Forall_impl; [exact Hf|]. intros w Hw. by apply (fits_le w K). Qed.

Lemma sum_scaled vs d K : Forall numeric_ok vs -> Forall (fun v => dscale v <= d) vs -> all_fit vs K -> d <= K -> exists M, sum_of vs K = M * 10 ^ (K - d).
Proof.
  intros Hok Hd [_ Hf] HK. unfold sum_of. induction Hok as [|v vs Hv _ IH]; [by exists 0|]. apply Forall_cons in Hd as [Hdv Hd]. apply Forall_cons in Hf as [Fv Hf].
  destruct (IH Hd Hf) as [M HM]. destruct (scaled_sdec v K (nk_scaled _ Hv) Fv ltac:(lia)) as [N HN]. exists (N * 10 ^ (d - dscale v) + M). cbn [foldr]. rewrite HM. fold (sdec v K). rewrite HN.
  replace (K - dscale v) with ((d - dscale v) + (K - d)) by lia. rewrite Z.pow_add_r by lia. ring.
Qed.

(** The sum of numbers is one. *)
Lemma accum_num vs : Forall numeric_ok vs -> exists a r, accum_all empty_accum vs = Done a /\ accum_sum_final a = Done r /\ numeric_ok r.
Proof.
  intros Hok. assert (Hvs : Forall var_ok vs) by (eapply Forall_impl; [exact Hok|apply nk_var]). destruct (accum_sum_spec vs Hvs) as (a & r & E1 & E2 & Hn & Hd & [V1 _ V3 V4]).
  exists a, r. split; [done|]. split; [done|]. destruct (some_all_fit vs) as (K0 & HK0). assert (Hle : Forall (fun v => dscale v <= dscale r) vs /\ 0 <= dscale r).
  { rewrite Hd. unfold max_dscale. clear. induction vs as [|v vs [IH IH0]]; cbn [foldr]; [split; [constructor|lia]|]. split; [|lia]. constructor; [lia|]. eapply Forall_impl; [exact IH|]. cbn. intros; lia. }
  set (K := Z.max K0 (dscale r)). assert (HK : all_fit vs K) by (by apply (all_fit_le vs K0); [|lia]). destruct (sum_scaled vs (dscale r) K Hok ltac:(apply Hle) HK ltac:(lia)) as [M HM].
  split; [done|done|apply Hle|]. apply (scaled_signed r M). exists K. split; [by apply V3|]. split; [lia|]. by rewrite V4.
Qed.

(** ** The theorems *)

(** C23 Addition and subtraction are exact: for numbers in normal form
    ([numeric_ok]) [add_var] and [sub_var] return the sum and the difference of the
    rationals, no assertion on a last carry or borrow fails, and the display scale
    is the larger of the two. *)
Theorem add_sub_correct v1 v2 : numeric_ok v1 -> numeric_ok v2 ->
  (exists r, add_var v1 v2 = Done r /\ value r == (value v1 + value v2)%Q /\ dscale r = Z.max (dscale v1) (dscale v2))
  /\ (exists r, sub_var v1 v2 = Done r /\ value r == (value v1 - value v2)%Q /\ dscale r = Z.max (dscale v1) (dscale v2)).
Proof.
  intros H1 H2. split.
  - destruct (add_num v1 v2 H1 H2) as (r & E & Hr). exists r. split; [done|]. split; [|apply Hr]. rewrite (sum_value r v1 v2 (Z.max (dscale v1) (dscale v2)) 1 H1 H2); [change (inject_Z 1) with 1%Q; ring|].
    destruct Hr as [R1 R2 R3 R4]. split; [done|done|done|]. intros K HK. rewrite R4 by done. lia.
  - destruct (sub_num v1 v2 H1 H2) as (r & E & Hr). exists r. split; [done|]. split; [|apply Hr]. rewrite (sum_value r v1 v2 (Z.max (dscale v1) (dscale v2)) (-1) H1 H2); [change (inject_Z (-1)) with (- (1))%Q; ring|].
    destruct Hr as [R1 R2 R3 R4]. split; [done|done|done|]. intros K HK. rewrite R4 by done. lia.
Qed.

(** C22 The product: with room for all digits ([mul_digits], what [maxdigits] is
    computed from) [mul_var] returns the product rounded at the scale asked for, and
    at the sum of the display scales, which the operator uses, the exact product.
    No element of the 32-bit array overflows. *)
Theorem mul_var_correct v1 v2 rscale :
  (var_ok v1 -> var_ok v2 -> ndigits v1 + ndigits v2 + 1 <= mul_digits v1 v2 rscale ->
    exists r, mul_var v1 v2 rscale = Done r /\ value r == at_digit half_away (value v1 * value v2)%Q rscale /\ dscale r = rscale)
  /\ (numeric_ok v1 -> numeric_ok v2 -> exists r, mul_var v1 v2 (dscale v1 + dscale v2) = Done r /\ value r == (value v1 * value v2)%Q).
Proof.
  split.
  - intros H1 H2 Hm. destruct (mul_spec v1 v2 rscale H1 H2 Hm) as (r & E & Hr). exists r. split; [done|]. split; [by apply product_value|apply Hr].
  - intros H1 H2. destruct (mul_num v1 v2 H1 H2) as (r & E & _ & _ & Hs). exists r. split; [done|].
    pose proof (numeric_fits v1 (dscale v1 + 3) H1 ltac:(lia)) as F1. pose proof (numeric_fits v2 (dscale v2 + 3) H2 ltac:(lia)) as F2.
    destruct (Hs _ _ F1 F2) as [F Ed]. rewrite (value_units r _ F), (value_units v1 _ F1), (value_units v2 _ F2), Ed by lia. rewrite inject_Z_mult. replace (- (dscale v1 + 3 + (dscale v2 + 3))) with (- (dscale v1 + 3) + - (dscale v2 + 3)) by lia.
    rewrite ten_plus. ring.
Qed.

(** C20 The quotient, by short division for a divisor of one or two digits and by
    Knuth's algorithm D for a longer one: [div_var] returns the quotient of the
    rationals rounded or truncated at the scale asked for, whatever the operands
    (every estimate of a digit is at most one too large, the borrow is added back);
    a divisor of zero is the error division_by_zero. *)
Theorem div_var_correct v1 v2 rscale round : var_ok v1 -> var_ok v2 -> normal v2 -> 0 <= rscale ->
  if Qeq_bool (value v2) 0 then div_var v1 v2 rscale round = Report ERRCODE_DIVISION_BY_ZERO
  else exists r, div_var v1 v2 rscale round = Done r /\ value r == at_digit (mode round) (value v1 / value v2)%Q rscale /\ dscale r = rscale.
Proof.
  intros H1 H2 Hn Hr. destruct (digits v2) as [|d ds] eqn:Ed.
  - assert (Hz : value v2 == 0) by (unfold value; rewrite Ed; cbn [num]; rewrite Z.mul_0_r; by rewrite Qmult_0_l). rewrite (proj2 (Qeq_bool_iff _ _) Hz). unfold div_var. by rewrite Ed.
  - assert (Hd : d <> 0) by (by apply (no_head _ Hn d ds)). assert (Hp : 0 < num (digits v2)) by (rewrite Ed; apply num_head_pos; [rewrite <- Ed; apply H2|done]).
    destruct (Qeq_bool (value v2) 0) eqn:Ez; [exfalso|destruct (div_spec v1 v2 rscale round d ds H1 H2 Ed Hd Hr) as (r & E & Hq); exists r; split; [done|]; split; [by apply quotient_value|apply Hq]].
    apply Qeq_bool_iff in Ez as Hz. destruct (some_fit v2 v2) as (K & F & _). rewrite (value_units v2 K F) in Hz. apply Qmult_integral in Hz as [Hz|Hz]; [|by apply ten_neq in Hz].
    change 0%Q with (inject_Z 0) in Hz. rewrite inject_Z_injective in Hz. pose proof (dec_pos v2 K F Hp). unfold sdec in Hz. destruct (sgn_cases v2) as [E|E]; rewrite E in Hz; lia.
Qed.

(** C25 Rounding and truncation at any scale, also left of the decimal point:
    [round_var] gives the nearest number with that many decimals, ties away from
    zero, [trunc_var] the next one towards zero.  [round_var] needs a spare digit
    before the number for a carry, as [set_var_from_var] leaves. *)
Theorem round_trunc_correct v rscale : var_ok v ->
  (room_ok v -> exists r, round_var v rscale = Done r /\ value r == at_digit half_away (value v) rscale /\ dscale r = rscale)
  /\ (exists r, trunc_var v rscale = Done r /\ value r == at_digit truncate (value v) rscale /\ dscale r = rscale).
Proof.
  intros Hv. split.
  - intros Hr. destruct (round_spec v rscale Hv Hr) as (r & E & Hat). exists r. split; [done|]. split; [by apply (at_scale_value true)|apply Hat].
  - destruct (trunc_spec v rscale Hv) as (r & E & Hat). exists r. split; [done|]. split; [by apply (at_scale_value false)|apply Hat].
Qed.

(** C28 [cmp_var] compares the rationals, whatever the weights and lengths of the
    digits, and [ceil_var] and [floor_var] give the next integers. *)
Theorem cmp_ceil_floor_correct v1 v2 : numeric_ok v1 -> numeric_ok v2 ->
  cmp_var v1 v2 = match (value v1 ?= value v2)%Q with Lt => -1 | Eq => 0 | Gt => 1 end
  /\ (exists r, ceil_var v1 = Done r /\ value r == inject_Z (Qceiling (value v1)))
  /\ (exists r, floor_var v1 = Done r /\ value r == inject_Z (Qfloor (value v1))).
Proof.
  intros H1 H2. destruct (some_fit v1 v2) as (K & F1 & F2). split_and!.
  - rewrite <- (cmp_value v1 v2 K F1 F2). apply cmp_spec; [apply H1|apply H2|by apply normal_no_zeros; apply H1|by apply normal_no_zeros; apply H2|done].
  - destruct (ceil_var_spec v1 H1) as (r & E & _ & _ & Hs). exists r. split; [done|]. destruct (Hs K F1) as [Fr Er]. rewrite (ceiling_value v1 K F1). by apply (whole_value r K).
  - destruct (floor_var_spec v1 H1) as (r & E & _ & _ & Hs). exists r. split; [done|]. destruct (Hs K F1) as [Fr Er]. rewrite (floor_value v1 K F1). by apply (whole_value r K).
Qed.

(** C24 [mod_var], composed of a truncating division, a multiplication and a
    subtraction, is exact: the remainder of the division truncated towards zero,
    with the sign of the dividend. *)
Theorem mod_var_correct v1 v2 : numeric_ok v1 -> numeric_ok v2 -> ~ value v2 == 0 ->
  exists r, mod_var v1 v2 = Done r /\ value r == (value v1 - inject_Z (truncate (value v1 / value v2)) * value v2)%Q /\ dscale r = Z.max (dscale v1) (dscale v2).
Proof.
  intros H1 H2 Hz. assert (Hne : digits v2 <> []) by (intros Ed; apply Hz; unfold value; rewrite Ed; cbn [num]; rewrite Z.mul_0_r; by rewrite Qmult_0_l).
  destruct (mod_num v1 v2 H1 H2 Hne) as (r & E & [R1 R2 R3 R4]). exists r. split; [done|]. split; [|done]. assert (Hp : 0 < num (digits v2)) by (apply trimmed_pos; [apply H2|apply normal_trimmed, H2|done]).
  destruct (some_fit v1 v2) as (K0 & F1' & F2'). set (K := Z.max K0 (dscale v2)). assert (F1 : fits v1 K) by (by apply (fits_le v1 K0); [|lia]). assert (F2 : fits v2 K) by (by apply (fits_le v2 K0); [|lia]).
  assert (HK : both_fit v1 v2 K /\ dscale v2 <= K) by (split; [done|lia]). rewrite (value_units r K (R3 K HK)), (R4 K HK). pose proof (dec_pos v2 K F2 Hp) as Hd. pose proof (dec_nonneg v1 K ltac:(apply H1)) as Hd1.
  assert (Et : truncate (value v1 / value v2) = sgn v1 * sgn v2 * (dec v1 K / dec v2 K)).
  { rewrite (units_quotient v1 v2 K F1 F2 Hp). apply (mode_frac false); [done|done|]. destruct (sgn_cases v1) as [-> | ->], (sgn_cases v2) as [-> | ->]; auto. }
  rewrite Et, (value_units v1 K F1), (value_units v2 K F2). assert (Er : Z.rem (sdec v1 K) (sdec v2 K) = sdec v1 K - sgn v1 * sgn v2 * (dec v1 K / dec v2 K) * sdec v2 K).
  { unfold sdec. pose proof (Z.div_mod (dec v1 K) (dec v2 K) ltac:(lia)) as Edm.
    destruct (sgn_cases v1) as [-> | ->], (sgn_cases v2) as [-> | ->]; rewrite ?mul_m1, ?Z.mul_1_l, ?Z.rem_opp_l, ?Z.rem_opp_r by lia; rewrite Z.rem_mod_nonneg by lia; lia. }
  rewrite Er. unfold Z.sub. rewrite inject_Z_plus, inject_Z_opp, !inject_Z_mult. ring.
Qed.

(** C21 The accumulator of SUM and AVG: however many values are added to the empty
    accumulator, of whatever sizes and signs, no 32-bit element overflows, no carry
    out of the first digit is lost, the buffers are large enough, and the final
    value is the exact sum, with the largest display scale. *)
Theorem accum_sum_correct vs : Forall var_ok vs ->
  exists a r, accum_all empty_accum vs = Done a /\ accum_sum_final a = Done r /\ value r == value_total vs /\ dscale r = max_dscale vs.
Proof.
  intros Hvs. destruct (accum_sum_spec vs Hvs) as (a & r & E1 & E2 & _ & Hd & [_ _ V3 V4]). exists a, r. split; [done|]. split; [done|]. split; [|done].
  destruct (some_all_fit vs) as (K & HK). rewrite (value_units r K (V3 K HK)), (total_units vs K HK). unfold sdec. by rewrite V4.
Qed.

(** C26 Numbers and integers.  [numericvar_to_int64], [numericvar_to_int128] and
    [numericvar_to_int32] give the number rounded to an integer; what is out of
    range is an error, or saturated when asked to with [can_ignore].  This leaves
    out the number that rounds to 9223372036854775808 with [can_ignore].  Every
    64-bit and every 128-bit integer becomes the number it is, and comes back when
    it is converted again. *)
Theorem numericvar_to_int_correct v can_ignore y z : var_ok v -> - 2 ^ 63 <= y < 2 ^ 63 -> - 2 ^ 127 <= z < 2 ^ 127 ->
  let x := half_away (value v) in
  ((can_ignore = true -> x <> 2 ^ 63) ->
     numericvar_to_int64 v can_ignore = Done (int_saturated 64 x can_ignore)
     /\ numericvar_to_int32 v can_ignore = match int_saturated 32 x can_ignore with Some x => Done x | None => Report ERRCODE_NUMERIC_VALUE_OUT_OF_RANGE end)
  /\ numericvar_to_int128 v = Done (int_saturated 128 x false)
  /\ (exists u, int64_to_numericvar y = Done u /\ value u == inject_Z y /\ numericvar_to_int64 u can_ignore = Done (Some y))
  /\ (exists u, int128_to_numericvar z = Done u /\ value u == inject_Z z /\ numericvar_to_int128 u = Done (Some z)).
Proof.
  intros Hv Hy Hz x. destruct (some_fit v v) as (K & F & _).
  destruct (to_int_spec 64 v can_ignore ltac:(done) Hv) as (x1 & E1 & X1). destruct (to_int_spec 128 v false ltac:(done) Hv) as (x2 & E2 & X2). destruct (to_int32_spec v can_ignore Hv) as (x3 & E3 & X3).
  specialize (X1 K F). specialize (X2 K F). specialize (X3 K F). rewrite (rounded_value v K Hv F) in X1, X2, X3. fold x in X1, X2, X3. subst x1 x2 x3. split_and!.
  - intros Hne. split.
    + unfold numericvar_to_int64. rewrite E1. by rewrite int_answer_saturated.
    + rewrite E3. by rewrite int32_answer_saturated.
  - unfold numericvar_to_int128. rewrite E2. by rewrite int_answer_saturated.
  - destruct (int_roundtrip 64 5 y can_ignore) as (u & E & [_ _ Hd] & Eb); [done|exact Hy|by vm_compute|]. exists u. split; [exact E|]. split; [|exact Eb]. destruct (Hd 0 ltac:(done)) as [F0 E0]. by apply (whole_value u 0).
  - destruct (int_roundtrip 128 10 z false) as (u & E & [_ _ Hd] & Eb); [done|exact Hz|by vm_compute|]. exists u. split; [exact E|]. split; [|exact Eb]. destruct (Hd 0 ltac:(done)) as [F0 E0]. by apply (whole_value u 0).
Qed.

(** C27 The stored form: what [make_result] packs without its leading and trailing
    zeros, in the short or the long header, [init_var_from_num] unpacks unchanged;
    a weight or a display scale that its field cannot hold is the error
    numeric_value_out_of_range, never another number. *)
Theorem make_result_roundtrip v : var_ok v -> 0 <= dscale v ->
  if storable (strip_var v) then exists n, make_result v = Done n /\ init_var_from_num n = Done (unpacked (strip_var v)) /\ value (strip_var v) == value v
  else make_result v = Report ERRCODE_NUMERIC_VALUE_OUT_OF_RANGE.
Proof.
  intros Hv Hd. pose proof (make_result_spec v Hv Hd) as Hs. destruct (storable (strip_var v)); [|done]. destruct Hs as (n & E1 & E2). exists n. split; [done|]. split; [done|].
  destruct (some_fit v v) as (K & F & _). pose proof (strip_spec v Hv) as [_ _ _ _ S5 _ _]. rewrite (value_units _ K (S5 K F)), (value_units v K F). unfold sdec. by rewrite strip_signed.
Qed.

(** C29 The normal form of numbers (digits of the base, no zeros at the ends, zero
    without digits and positive, no digits beyond the display scale) is a type: sum,
    difference, product, quotient, remainder and the final value of the accumulator
    of numbers in it are in it. *)
Theorem numeric_ok_closed v1 v2 rscale round vs : numeric_ok v1 -> numeric_ok v2 -> 0 <= rscale -> Forall numeric_ok vs ->
  (exists r, add_var v1 v2 = Done r /\ numeric_ok r) /\ (exists r, sub_var v1 v2 = Done r /\ numeric_ok r)
  /\ (exists r, mul_var v1 v2 (dscale v1 + dscale v2) = Done r /\ numeric_ok r)
  /\ (~ value v2 == 0 -> (exists r, div_var v1 v2 rscale round = Done r /\ numeric_ok r) /\ (exists r, mod_var v1 v2 = Done r /\ numeric_ok r))
  /\ (exists a r, accum_all empty_accum vs = Done a /\ accum_sum_final a = Done r /\ numeric_ok r).
Proof.
  intros H1 H2 Hr Hvs. split_and!; [..|by apply accum_num].
  - destruct (add_num v1 v2 H1 H2) as (r & E & Hn). exists r. by split; [|apply Hn].
  - destruct (sub_num v1 v2 H1 H2) as (r & E & Hn). exists r. by split; [|apply Hn].
  - destruct (mul_num v1 v2 H1 H2) as (r & E & Hn & _). by exists r.
  - intros Hz. assert (Hne : digits v2 <> []) by (intros Ed; apply Hz; unfold value; rewrite Ed; cbn [num]; rewrite Z.mul_0_r; by rewrite Qmult_0_l). split.
    + destruct (digits v2) as [|d ds] eqn:Ed; [done|]. destruct (div_spec v1 v2 rscale round d ds (nk_var _ H1) (nk_var _ H2) Ed ltac:(by apply (no_head _ (nk_normal _ H2) d ds)) Hr) as (r & E & Hq).
      exists r. split; [done|]. by apply (quotient_ok _ v1 v2 rscale r (nk_var _ H1) (nk_var _ H2)) in Hq.
    + destruct (mod_num v1 v2 H1 H2 Hne) as (r & E & Hn). exists r. by split; [|apply Hn].
Qed.

(** ** Witnesses *)

(** The normal form, checked. *)
Definition digits_okb (ds : list Z) : bool := forallb (fun d => (0 <=? d) && (d <? NBASE)) ds.
Definition ends_okb (ds : list Z) : bool := negb (default 1 (head ds) =? 0) && negb (default 1 (last ds) =? 0).
Definition numeric_okb (v : NumericVar) : bool :=
  let K := Z.max (Z.max 0 (- 4 * expo v)) (dscale v) in
  digits_okb (digits v) && ends_okb (digits v) && ((sign v =? NUMERIC_POS) || ((sign v =? NUMERIC_NEG) && negb (zlen (digits v) =? 0)))
  && (negb (zlen (digits v) =? 0) || (weight v =? 0)) && (0 <=? dscale v) && (dec v K mod 10 ^ (K - dscale v) =? 0).

Lemma numeric_okb_ok v : numeric_okb v = true -> numeric_ok v.
Proof.
  unfold numeric_okb. set (K := Z.max _ (dscale v)). rewrite !andb_true_iff, !orb_true_iff, andb_true_iff, !negb_true_iff, !Z.eqb_eq, !Z.eqb_neq, Z.leb_le. intros [[[[[B1 B2] B3] B4] B5] B6].
  unfold ends_okb in B2. apply andb_true_iff in B2 as [B2%negb_true_iff%Z.eqb_neq B2'%negb_true_iff%Z.eqb_neq].
  split; [split|split| done|].
  - unfold digits_okb in B1. rewrite forallb_forall in B1. apply Forall_forall. intros d Hd. apply list_elem_of_In in Hd. specialize (B1 d Hd). unfold digit_ok. lia.
  - destruct B3 as [B3|[B3 _]]; auto.
  - intros d l E. by rewrite E in B2.
  - intros l d E. rewrite E, last_snoc in B2'. done.
  - intros E. rewrite E in *. split; [destruct B4; done|]. destruct B3 as [B3|[_ B3]]; done.
  - apply (scaled_at v K); [split; lia|lia|]. apply Z.mod_divide; [|done]. pose proof (pow10_pos (K - dscale v) ltac:(lia)). lia.
Qed.

(** 12345.67 and -3.0008 *)
Definition num_a : NumericVar := MkVar [1; 2345; 6700] 1 NUMERIC_POS 2 [0].
Definition num_b : NumericVar := MkVar [3; 8] 0 NUMERIC_NEG 4 [].
(** 99999999.9999, and a divisor of three digits *)
Definition num_c : NumericVar := MkVar [9999; 9999; 9999] 1 NUMERIC_POS 4 [0].
Definition num_d : NumericVar := MkVar [1; 9999; 9998] 1 NUMERIC_NEG 4 [].
Lemma num_a_ok : numeric_ok num_a.
Proof. by apply numeric_okb_ok. Qed.
Lemma num_b_ok : numeric_ok num_b.
Proof. by apply numeric_okb_ok. Qed.
Lemma num_c_ok : numeric_ok num_c.
Proof. by apply numeric_okb_ok. Qed.
Lemma num_d_ok : numeric_ok num_d.
Proof. by apply numeric_okb_ok. Qed.

Lemma add_sub_correct_witness : (exists r, add_var num_a num_b = Done r /\ value r == (value num_a + value num_b)%Q /\ dscale r = 4) /\ add_var num_a num_b = Done (MkVar [1; 2342; 6692] 1 NUMERIC_POS 4 [0]).
Proof. split; [apply (add_sub_correct num_a num_b num_a_ok num_b_ok)|by vm_compute]. Defined.

Lemma mul_var_correct_witness : (exists r, mul_var num_a num_b 6 = Done r /\ value r == (value num_a * value num_b)%Q) /\ mul_var num_a num_b 6 = Done (MkVar [3; 7046; 8865; 3600] 1 NUMERIC_NEG 6 [0; 0; 0]).
Proof. split; [apply (mul_var_correct num_a num_b 6); [apply num_a_ok|apply num_b_ok]|by vm_compute]. Defined.

Lemma div_var_correct_witness : (exists r, div_var num_c num_d 3 true = Done r /\ value r == at_digit half_away (value num_c / value num_d)%Q 3 /\ dscale r = 3)
  /\ div_var num_a const_zero 3 true = Report ERRCODE_DIVISION_BY_ZERO.
Proof.
  split.
  - apply (div_var_correct num_c num_d 3 true); [apply num_c_ok|apply num_d_ok|apply num_d_ok|done].
  - by apply (div_var_correct num_a const_zero 3 true); [apply num_a_ok|apply (numeric_okb_ok const_zero)|apply (numeric_okb_ok const_zero)|].
Defined.

Lemma round_trunc_correct_witness : (exists r, round_var num_c 2 = Done r /\ value r == at_digit half_away (value num_c) 2 /\ dscale r = 2) /\ round_var num_c 2 = Done (MkVar [1; 0; 0; 0] 2 NUMERIC_POS 2 []).
Proof. split; [apply (round_trunc_correct num_c 2); [apply num_c_ok|by exists []]|by vm_compute]. Defined.

Lemma cmp_ceil_floor_correct_witness : cmp_var num_a num_b = 1 /\ (exists r, ceil_var num_a = Done r /\ value r == inject_Z 12346) /\ (exists r, floor_var num_b = Done r /\ value r == inject_Z (-4)).
Proof.
  destruct (cmp_ceil_floor_correct num_a num_b num_a_ok num_b_ok) as (Hc & Hce & _). destruct (cmp_ceil_floor_correct num_b num_a num_b_ok num_a_ok) as (_ & _ & Hfl). split_and!; [exact Hc|exact Hce|exact Hfl].
Defined.

Lemma mod_var_correct_witness : (exists r, mod_var num_c num_d = Done r /\ value r == (value num_c - inject_Z (truncate (value num_c / value num_d)) * value num_d)%Q /\ dscale r = 4).
Proof. apply (mod_var_correct num_c num_d); [apply num_c_ok|apply num_d_ok|by vm_compute]. Defined.

Lemma accum_sum_correct_witness : exists a r, accum_all empty_accum [num_a; num_b; num_c; num_d] = Done a /\ accum_sum_final a = Done r /\ value r == value_total [num_a; num_b; num_c; num_d] /\ dscale r = 4.
Proof. apply (accum_sum_correct [num_a; num_b; num_c; num_d]). repeat apply Forall_cons_2; [apply num_a_ok|apply num_b_ok|apply num_c_ok|apply num_d_ok|apply Forall_nil_2]. Defined.

Lemma numericvar_to_int_correct_witness : numericvar_to_int64 num_a false = Done (Some 12346) /\ numericvar_to_int32 num_b true = Done (-3)
  /\ (exists u, int64_to_numericvar (- 2 ^ 63) = Done u /\ value u == inject_Z (- 2 ^ 63) /\ numericvar_to_int64 u false = Done (Some (- 2 ^ 63))).
Proof.
  destruct (numericvar_to_int_correct num_a false (- 2 ^ 63) 0) as (Ha & _ & Hy & _); [apply num_a_ok|done|done|].
  destruct (numericvar_to_int_correct num_b true 0 0) as (Hb & _); [apply num_b_ok|done|done|].
  split_and!; [by apply Ha|apply Hb; intros _; by vm_compute|exact Hy].
Defined.

Lemma make_result_roundtrip_witness : (exists n, make_result num_a = Done n /\ init_var_from_num n = Done (unpacked num_a) /\ value (strip_var num_a) == value num_a)
  /\ make_result (MkVar [1] (2 ^ 15) NUMERIC_POS 0 []) = Report ERRCODE_NUMERIC_VALUE_OUT_OF_RANGE.
Proof.
  split.
  - apply (make_result_roundtrip num_a); [apply num_a_ok|done].
  - apply (make_result_roundtrip (MkVar [1] (2 ^ 15) NUMERIC_POS 0 [])); [|done]. split; [by apply Forall_cons_2; [|apply Forall_nil_2]|by left].
Defined.

Lemma numeric_ok_closed_witness : (exists r, mod_var num_c num_d = Done r /\ numeric_ok r)
  /\ (exists a r, accum_all empty_accum [num_a; num_b] = Done a /\ accum_sum_final a = Done r /\ numeric_ok r).
Proof.
  destruct (numeric_ok_closed num_c num_d 2 false [num_a; num_b] num_c_ok num_d_ok) as (_ & _ & _ & Hq & Hs); [done|repeat apply Forall_cons_2; [apply num_a_ok|apply num_b_ok|apply Forall_nil_2]|].
  split; [apply Hq; by vm_compute|exact Hs].
Defined.
